(* ===== verification/_CoqProject ===== *)
-Q . S2P
Prelude.v
Model.v
MemoryStore.v
Cleanup.v
LogSpec.v
CleanupSpec.v
MetaStore.v
MetaSpec.v
Queue.v
QueueSpec.v
Idempotency.v
IdempotencySpec.v
Headers.v
Produce.v
ProduceSpec.v
GoStrings.v
Governance.v
GovernanceSpec.v
Subjects.v
Handlers.v
DeadLetters.v
Redelivery.v
HandlerSpec.v
RedeliverySpec.v
Acks.v
AckSpec.v
Transactions.v
TransactionSpec.v
Groups.v
GroupSpec.v
RebalanceSpec.v
FrameSpec.v
Service.v
ServiceRedelivery.v
ServiceSpec.v
Wire.v
WireSpec.v
Messages.v
CodecsTopic.v
CodecsFetch.v
CodecsGroup.v
Registry.v
CodecSpec.v
CodecPrefix.v
RegistrySpec.v
Transport.v
TransportSpec.v
RaftCodec.v
RaftCodecSpec.v
Coalescer.v
CoalescerSpec.v
Routing.v
RoutingSpec.v
SegmentFrame.v
SegmentFrameSpec.v
SegmentIndex.v
SegmentIndexSpec.v
SegmentLog.v
SegmentAppendSpec.v
SegmentCleanSpec.v
SegmentDurableSpec.v
SegmentReopenSpec.v
StorxSpec.v
Snapshot.v
SnapshotSpec.v
StorxMeta.v
StorxMetaSpec.v
Direct.v
DirectSpec.v
RequestReply.v
RequestReplySpec.v
ServerCodec.v
Server.v
ServerSpec.v
Connections.v
ConnectionsSpec.v
Sharded.v
ShardedSpec.v
Sinks.v
SinksSpec.v
