(* ===== verification/Prelude.v ===== *)
(** * ech0: a verified model of the embedded message broker

    ech0 is a message broker written in Go that runs embedded in a process or
    as a server.  Producers append records to the partitions of topics;
    consumers read them, acknowledge them one by one or commit offsets, alone
    or as members of a consumer group among which the partitions are divided;
    producers may number their batches or write in transactions; refused
    messages come back through retry topics and end as dead letters; tenants
    are kept apart by the names they can reach, access policies and quotas;
    retention and compaction remove records; clients talk to the server in
    frames that carry binary message bodies.

    The development translates the Go source into Rocq functions, operation by
    operation, and proves what makes those operations correct.

    ** Parts of the program and the files that model them

    - [store/]: the data model ([Model]), the in-memory log ([MemoryStore]),
      retention and compaction ([Cleanup]) and the in-memory metadata maps
      ([MetaStore]).  The store is the record [MemoryStore] with one field per
      Go map; each method is a function from the store and its arguments to
      the new store and a [result].  The mutex makes each method atomic, so a
      concurrent history is a sequence of calls: [log_step], [meta_step] and
      their union [store_step].
    - [store/], the file-backed log: frames with their checksum and
      compression ([SegmentFrame]), index files, key and timestamp indexes and
      the walk that rebuilds a lost index ([SegmentIndex]), and the store over
      them ([SegmentLog]): planning and writing batches, the append pipeline,
      reads, retention and compaction, opening a directory, moving
      partitions, snapshots and repair.  Its state is the record
      [StorxLogStore], which holds the maps in memory and the contents of the
      files.
    - [store/], snapshots and the metadata on disk: snapshots of the in-memory
      store with their JSON form, and what the broker's state machine does
      with them ([Snapshot]); the metadata store over a key-value file
      ([StorxMeta]), whose operations read and write the buckets of the class
      [Bbolt] and may fail.
    - [queue/]: topics, publishing, fetching and committing over the store
      ([Queue]).
    - [broker/], publishing: the window of numbered batches ([Idempotency]),
      headers, routing keys and priorities ([Headers]), the placement of
      partitions, partition selection, the produce handlers, group
      commit and fan-out ([Produce]).  The state of the broker is the record
      [Broker]: its store, the round-robin cursors, the shard resolver and its
      limits.
    - [broker/], governance: Go's string functions ([GoStrings]), identities,
      scopes of names, tenant defaults, authentication, access policies and
      quotas ([Governance]); subjects with wildcards ([Subjects]).
    - [broker/], handlers: the monad [BM] of the handlers and the creation of
      topics ([Handlers]), dead letters ([DeadLetters]), retries, delays,
      expired and poisonous messages and maintenance ([Redelivery]), selective
      acknowledgement and commit batches ([Acks]), transactions and both
      fetches ([Transactions]), consumer groups, their strategies and leases
      ([Groups]).
    - [direct/]: direct messages, one inbox topic per recipient, and the
      operations of the broker that replicate them ([Direct]); requests over
      topics with replies over direct messages ([RequestReply]).
    - [broker/], operations: what clients call, with authorization, quotas and
      scoping around the handlers ([Service],
      [ServiceRedelivery]).
    - [protocol/]: the primitives of the binary codec ([Wire]), the message
      types ([Messages]), the writers and readers of every message
      ([CodecsTopic], [CodecsFetch], [CodecsGroup]), and the command registry
      with [EncodeBody] and [DecodeBody] ([Registry]).
    - [transport/] and [internal/bufferpool]: frames over a heap of pooled
      buffers ([Transport]).
    - [broker/], replication: the binary form of replicated commands
      ([RaftCodec]), the batchers that coalesce proposals, as a
      machine of callers and a runner ([Coalescer]), and the routers that
      send commands to the group of their shard ([Routing]).
    - [broker/sharded_message_*.go]: the message runtime over several segment
      logs, the moves of partitions and its snapshots ([Sharded]), a record of
      the metadata, the shard resolver and the logs.
    - [broker/sink_runner.go], [file_sink.go], [database_outbox*.go]: the loops
      that hand records to targets and publish rows of a database ([Sinks]),
      over a state [World] of the target.
    - [broker/], the TCP server: conversions between messages of the protocol
      and values of the broker ([ServerCodec]), the handlers of all commands and
      their table ([Server]), over the record [Node], the broker with the
      sequence of direct messages and the rebalance history; and connections,
      with slots, handshakes and usage of quotas ([Connections]), as machines
      that take turns: the record [TCPServer] and the relation [server_step].

    Files ending in [Spec] hold specifications and proofs.  This file holds
    the shared vocabulary: results, machine integers, comparators and sorting,
    map iteration, the tactics and the generic lemmas.

    ** What the theorems show

    - [LogSpec]: offsets of a partition strictly increase and are never
      reused; what is appended is what is read; batches are contiguous;
      paging visits every record once.
    - [CleanupSpec]: what retention and compaction keep, and that maintenance
      treats every partition by its own policy.
    - [SegmentFrameSpec]: frames round-trip and fit their estimate; a frame
      damaged within four bytes is refused.
      [SegmentIndexSpec]: index files round-trip, cached reads are plain
      reads, a lost index is rebuilt.
    - [StorxSpec]: the file-backed store implements the log, for operations
      its format can carry, and key lookups and compaction until a retention
      pass runs.  Its abstract specification is the in-memory store with atomic batches; the relation
      [refines] is kept by appends (both in [SegmentAppendSpec]),
      topics and retention ([SegmentCleanSpec]), key lookups and compaction
      ([SegmentCleanSpec]); [durable] ([SegmentDurableSpec]) says that the files
      hold everything, and opening them gives the same log again
      ([SegmentReopenSpec]).
    - [MetaSpec]: listings do not depend on map iteration order;
      consumer offsets do not interfere; transaction ids are fresh; log and
      metadata invariants hold in every reachable store.
    - [SnapshotSpec]: a replica restored from a snapshot and given the commands
      that follow it ends in the state, and gives the answers, of a replica
      that applied all commands.
    - [StorxMetaSpec]: over a file that does not fail, the metadata store on
      disk answers every sequence of operations as the in-memory one does.
    - [DirectSpec]: the inbox of a recipient holds the messages sent to it,
      each once and in order.  [RequestReplySpec]: a request that waits
      collects the replies to it, among replies to other requests.
    - [ServerSpec]: every frame is answered with the response of its command or
      an error, and one that cannot be understood changes nothing; what a
      producer's frame published, a consumer's frame fetches as long as the
      record is in the log.
      [ConnectionsSpec]: in every interleaving of connections the usage
      counters are what there is, within the limits.
    - [QueueSpec]: a consumer that polls and commits receives every record in
      order and exactly once.
    - [IdempotencySpec]: a batch sent again to its partition gets the original
      result and appends nothing, also after up to 1023 further batches of the
      producer; older epochs of a producer are refused.
    - [ProduceSpec]: an ordered topic keeps equal keys in
      one partition; a group commit is the sequence of its requests.
    - [GovernanceSpec]: stored names determine the tenant, the default scope
      apart; the decision of the
      access policies; [Subjects]: wildcards against their reading as
      patterns.
    - [RedeliverySpec]: a batch of retries moves each due record once to its
      origin or to the dead-letter topic of its origin; a
      message refused every time becomes a dead letter after exactly the
      allowed attempts.
    - [AckSpec]: next offset and pending offsets implement a set of
      acknowledged offsets, against the class [OffsetStore], the interface of
      the metadata store, of which [MemoryStore] is an instance; coalescing
      forward commits changes nothing.
    - [TransactionSpec]: a read of committed records is a prefix without open
      or aborted records; what was visible stays visible; a new transaction
      fences the older ones.
    - [GroupSpec], [RebalanceSpec]: a rebalance assigns every partition of a
      subscribed topic exactly once to a live member; loads of the
      strategies; termination and fixpoints of the sticky strategy; leases
      follow the assignment and generations fence stale owners.
    - [FrameSpec], [ServiceSpec]: a logic of what handlers leave alone, and
      with it that no sequence of requests of other tenants outside the default
      scope changes the topics, logs and offsets of a tenant; a seek to a time finds the first
      record at or after it.
    - [WireSpec], [CodecSpec], [CodecPrefix], [RegistrySpec]: every message of
      the protocol round-trips; truncated and extended bodies are rejected;
      unknown commands and wrong types are refused.
    - [TransportSpec]: header and frame round trips, read limits, and
      ownership of pooled frame bodies.
    - [RaftCodecSpec]: a replica that applies the bytes of a proposal does
      what applying the requests does; damaged bytes have no effect.
      [CoalescerSpec]: an invariant of every interleaving of callers and
      runner; every call is answered once and with its own answer.
      [RoutingSpec]: a batch split by shard is proposed to the groups of its
      shards and answered in the places of its requests, whatever the groups
      answer.
    - [ShardedSpec]: several segment logs answer as one log, through moves of
      partitions between them.
    - [SinksSpec]: sinks of topics without priorities deliver every committed
      record at least once and in order, whatever fails; the outbox marks only what it published.

    Some lemmas and examples record what the code does where one may expect
    otherwise: [default_scope_reaches_scoped_topic],
    [overlapping_batch_accepted], [nack_follows_forged_header],
    [dlq_query_returns_other_topic], [foreign_tenant_aborts],
    [retries_ask_no_policy], [direct_send_diverges],
    [conversation_ids_collide], [long_history_starves],
    [poisoned_inbox_fails_requests], [cleanup_repeats_reply],
    [response_loses_request_id], [unauthenticated_connection_served],
    [sharded_snapshot_loses_next_offset], [priority_sink_loses_record],
    [round_robin_retry_stored_twice], and those at the end of [StorxSpec] on
    the file-backed log ([retention_forgets_key], [huge_read_panics] and
    more).  Nacks and transactions, which some of these lemmas are about, are
    for that reason not among the requests of the theorem on tenants.

    ** Conventions

    Unsigned machine integers are [Z] with their wrap-around written out
    ([u8] to [u64]); hypotheses such as [is_u64] say that a value is in range.
    Lengths and loop counters are naturals where the source keeps them below
    a slice length; the end of a read in the segment log wraps as an [int], and
    the slice expression that then panics is [None].  Errors are values: the code of the [oops] error, without
    its message.  Go maps are [gmap]s; a loop over a map goes through the
    class [MapRange], whose only law is that each entry is visited once.  The
    clock is an argument, a function of the number of the call where a handler
    reads it more than once.  Third-party code is a parameter: the hash
    function ([Hash64]), the backoff ([BackOff]), the token bucket of the rate
    limiter, the rebalance history ring buffer, the byte-buffer pool, the JSON
    encoder ([ManifestCodec] for the manifest, [Json] for snapshots and stored
    metadata), the key-value file ([Bbolt]), the compression ([Zstd]), the
    two-way map of clients and connections ([BiMap]), the library that maps
    group members and assignments to messages, the texts of errors, and
    dragonboat's [SyncPropose], of whose answers [RoutingSpec] assumes nothing.

    A wait for replies is the list of what the others do between its polls;
    the list ends with the deadline.

    In [Service] and its companions the broker applies its commands itself,
    with local data shards and without a topic cache; [Routing] models the
    cluster; each command is one step, as its replicated
    state machine and the locks make it.

    Loops that are not structural take fuel: paging, the scans for a time, for
    dead letters and for expired messages, and the read of committed records
    need one step per record and one more, since every batch moves the cursor;
    the balancing loop of the sticky strategy one step per partition and one
    more; the runner of the coalescer comes to rest in five; reads of
    pointers, the index writes of a batch and the walk over a segment take one
    step per pointer or byte and one more.  The theorems on them state that this fuel gives a result.

    ** What is not modelled

    Of the file-backed log: the operating system's side.  A pair of partition
    and segment id stands for a path; file operations fail only when a file
    is missing; [fsync], the group commit that delays it, cached readers and
    writers and the mmap read mode do not change what a read sees and are
    left out, so the theorems speak of orderly closings, not of power
    failures.  Nothing of
    replication inside the dragonboat library with its groups and leaders,
    the JSON form of commands,
    sockets and the limiter that delays commands, the client, the requests of
    HTTP sinks, the scheduler, metrics and the admin pages.  Pure input/output and presentation
    stay outside; the reports of the broker would follow next.

    Codec facts that are assumptions of the model: strings are byte strings,
    a [float64] is its bit pattern, and a [nil] slice and an empty slice are
    the same value. *)

From stdpp Require Import prelude gmap strings sorting pretty.
From Stdlib Require OrdersEx.

Declare Scope ech0_scope.
Delimit Scope ech0_scope with ech0.

(** ** Results of fallible Go functions: [(value, nil)] or [(zero, err)]. *)

Inductive result (E A : Type) : Type :=
| Ok (a : A)
| Err (e : E).
Arguments Ok {E A} a.
Arguments Err {E A} e.

#[global] Instance result_ret {E} : MRet (result E) := fun A a => Ok a.
#[global] Instance result_bind {E} : MBind (result E) :=
  fun A B f r => match r with Ok a => f a | Err e => Err e end.
#[global] Instance result_fmap {E} : FMap (result E) :=
  fun A B f r => match r with Ok a => Ok (f a) | Err e => Err e end.

Definition is_ok {E A} (r : result E A) : bool :=
  match r with Ok _ => true | Err _ => false end.

(** [guard c e] is the early return [if !c { return e }]. *)
Definition require {E} (c : bool) (e : E) : result E unit :=
  if c then Ok tt else Err e.

(** ** Machine integers

    A [w]-bit unsigned integer is a [Z]; operations that can overflow wrap
    explicitly.  [int] is Go's 64-bit signed [int]. *)

Definition u8 (z : Z) : Z := z mod 2 ^ 8.
Definition u16 (z : Z) : Z := z mod 2 ^ 16.
Definition u32 (z : Z) : Z := z mod 2 ^ 32.
Definition u64 (z : Z) : Z := z mod 2 ^ 64.

Definition is_u8 (z : Z) : Prop := (0 <= z < 2 ^ 8)%Z.
Definition is_u16 (z : Z) : Prop := (0 <= z < 2 ^ 16)%Z.
Definition is_u32 (z : Z) : Prop := (0 <= z < 2 ^ 32)%Z.
Definition is_u64 (z : Z) : Prop := (0 <= z < 2 ^ 64)%Z.

#[global] Instance is_u8_dec z : Decision (is_u8 z).
Proof. unfold is_u8. apply _. Defined.
#[global] Instance is_u16_dec z : Decision (is_u16 z).
Proof. unfold is_u16. apply _. Defined.
#[global] Instance is_u32_dec z : Decision (is_u32 z).
Proof. unfold is_u32. apply _. Defined.
#[global] Instance is_u64_dec z : Decision (is_u64 z).
Proof. unfold is_u64. apply _. Defined.

(** [^uint64(0)] *)
Definition max_u64 : Z := 2 ^ 64 - 1.

(** Go's [len] of a slice, an [int]. *)
Definition len {A} (l : list A) : Z := Z.of_nat (length l).

(** Go's [len] of a string: its number of bytes. *)
Definition slen (s : string) : Z := Z.of_nat (String.length s).

(** A Go [[]byte]; [nil] and empty slices are not told apart. *)
Abbreviation bytes := (list Byte.byte).

#[global] Instance byte_eq_dec : EqDecision Byte.byte := Byte.byte_eq_dec.

(** ** Comparison functions

    Go's comparators return a negative, zero or positive [int]; only the sign
    is used, so they are [comparison]s here.  [thenCmp] is the cascade
    [if v := c1; v != 0 { return v }; return c2]. *)

Definition thenCmp (c1 c2 : comparison) : comparison :=
  match c1 with Eq => c2 | _ => c1 end.
Notation "c1 <+> c2" := (thenCmp c1 c2) (at level 55, right associativity) : ech0_scope.

Definition cmp_le {A} (cmp : A -> A -> comparison) (x y : A) : Prop := cmp x y <> Gt.

#[global] Instance cmp_le_dec {A} (cmp : A -> A -> comparison) x y : Decision (cmp_le cmp x y).
Proof. unfold cmp_le. destruct (cmp x y); [left | left | right]; congruence. Defined.

(** A comparator that is a total preorder on the values it compares. *)
Class CmpOrder {A} (cmp : A -> A -> comparison) : Prop := {
  cmp_antisym : forall x y, cmp y x = CompOpp (cmp x y);
  cmp_eq_trans : forall x y z, cmp x y = Eq -> cmp x z = cmp y z;
  cmp_lt_trans : forall x y z, cmp x y = Lt -> cmp y z = Lt -> cmp x z = Lt
}.

(** [slices.SortFunc] and [List.Sort]: a sorted permutation.  Go's sort is
    not stable; [merge_sort] is one of the permutations it may return, and
    [sort_func_perm_eq] shows that it is the only one whenever elements that
    compare equal are equal. *)
Definition sort_func {A} (cmp : A -> A -> comparison) (l : list A) : list A :=
  merge_sort (cmp_le cmp) l.

(** ** Iteration over Go maps

    [Range], [Values] and [Keys] of the containers of
    [github.com/arcgolabs/collectionx] visit every entry exactly once in an
    order that is not specified: [range] is any such order. *)
Class MapRange := {
  range : forall {K V : Type} `{Countable K}, gmap K V -> list (K * V);
  range_perm : forall {K V : Type} `{Countable K} (m : gmap K V), range m ≡ₚ map_to_list m
}.

Definition values `{MapRange} {K V : Type} `{Countable K} (m : gmap K V) : list V :=
  snd <$> range m.
Definition keys `{MapRange} {K V : Type} `{Countable K} (m : gmap K V) : list K :=
  fst <$> range m.

(** The instance used by executable examples. *)
Definition map_to_list_range : MapRange :=
  {| range := fun K V _ _ m => map_to_list m;
     range_perm := fun K V _ _ m => Permutation_refl (map_to_list m) |}.

(** [fmt.Sprintf] with [%d] of an unsigned integer, and the NUL separator. *)
Definition fmt_d (z : Z) : string := pretty z.
Definition nul : string := String (Ascii.ascii_of_nat 0) EmptyString.

(** ** Lemmas *)


Section CmpFacts.
Context {A : Type} (cmp : A -> A -> comparison) `{!CmpOrder cmp}.

Lemma cmp_refl x : cmp x x = Eq.
Proof. pose proof (cmp_antisym x x) as H. destruct (cmp x x); simpl in H; congruence. Qed.

Lemma cmp_gt_lt x y : cmp x y = Gt <-> cmp y x = Lt.
Proof. rewrite (cmp_antisym y x). destruct (cmp y x); simpl; split; congruence. Qed.

Lemma cmp_eq_sym x y : cmp x y = Eq -> cmp y x = Eq.
Proof. intros H. rewrite (cmp_antisym x y), H. done. Qed.

Lemma cmp_eq_trans_r x y z : cmp y z = Eq -> cmp x y = cmp x z.
Proof.
  intros H. rewrite (cmp_antisym y x), (cmp_antisym z x). by rewrite (cmp_eq_trans _ _ x H).
Qed.

#[local] Instance cmp_le_trans : Transitive (cmp_le cmp).
Proof.
  intros x y z. unfold cmp_le. intros H1 H2.
  destruct (cmp x y) eqn:E1; [|destruct (cmp y z) eqn:E2|]; try done.
  - by rewrite (cmp_eq_trans _ _ z E1).
  - rewrite <- (cmp_eq_trans_r x _ _ E2). by rewrite E1.
  - by rewrite (cmp_lt_trans _ _ _ E1 E2).
Qed.

#[local] Instance cmp_le_total : Total (cmp_le cmp).
Proof.
  intros x y. unfold cmp_le. destruct (cmp x y) eqn:E; [left|left|right]; try done.
  rewrite cmp_gt_lt in E. by rewrite E.
Qed.

Lemma sort_func_perm l : sort_func cmp l ≡ₚ l.
Proof. apply merge_sort_Permutation. Qed.

Lemma sort_func_sorted l : StronglySorted (cmp_le cmp) (sort_func cmp l).
Proof. apply (StronglySorted_merge_sort _); apply _. Qed.

Lemma sorted_perm_eq l1 l2 :
  (forall x y, x ∈ l1 -> y ∈ l1 -> cmp x y = Eq -> x = y) ->
  StronglySorted (cmp_le cmp) l1 -> StronglySorted (cmp_le cmp) l2 ->
  l1 ≡ₚ l2 -> l1 = l2.
Proof.
  intros Hinj Hs1. revert l2 Hinj. induction Hs1 as [|x1 l1 Hs1 IH Hall1]; intros l2 Hinj Hs2 Hp.
  - by apply Permutation_nil in Hp.
  - destruct Hs2 as [|x2 l2 Hs2 Hall2]; [by apply Permutation_nil_r in Hp|].
    assert (x1 = x2) as ->.
    { rewrite Forall_forall in Hall1, Hall2.
      assert (x2 ∈ x1 :: l1) as Hin2 by (rewrite Hp; left).
      assert (x1 ∈ x2 :: l2) as Hin1 by (rewrite <- Hp; left).
      destruct (cmp x1 x2) eqn:E; [apply Hinj; [left|done|done]|..];
        (apply elem_of_cons in Hin1 as [Hin1|Hin1]; [done|]);
        (apply elem_of_cons in Hin2 as [Hin2|Hin2]; [done|]);
        specialize (Hall1 _ Hin2); specialize (Hall2 _ Hin1); unfold cmp_le in *; [|done].
      by apply cmp_gt_lt in E. }
    f_equal. apply IH; [|done|].
    + intros x y Hx Hy. apply Hinj; by right.
    + by apply Permutation_cons_inv in Hp.
Qed.

(** Whatever permutation an unstable sort returns, it is [sort_func]'s. *)
Lemma sort_func_perm_eq l1 l2 :
  (forall x y, x ∈ l1 -> y ∈ l1 -> cmp x y = Eq -> x = y) ->
  l1 ≡ₚ l2 -> sort_func cmp l1 = sort_func cmp l2.
Proof.
  intros Hinj Hp. apply sorted_perm_eq; [|apply sort_func_sorted..|].
  - intros x y. rewrite !sort_func_perm. apply Hinj.
  - by rewrite !sort_func_perm.
Qed.

Lemma sort_func_id l :
  (forall x y, x ∈ l -> y ∈ l -> cmp x y = Eq -> x = y) ->
  StronglySorted (cmp_le cmp) l -> sort_func cmp l = l.
Proof.
  intros Hinj Hs. apply sorted_perm_eq; [|apply sort_func_sorted|done|apply sort_func_perm].
  intros x y. rewrite sort_func_perm. apply Hinj.
Qed.

Lemma elem_of_sort_func x l : x ∈ sort_func cmp l <-> x ∈ l.
Proof. by rewrite sort_func_perm. Qed.

Lemma length_sort_func l : length (sort_func cmp l) = length l.
Proof. by rewrite sort_func_perm. Qed.

End CmpFacts.

#[export] Existing Instance cmp_le_trans.
#[export] Existing Instance cmp_le_total.

(** *** The comparators the program uses *)

#[global] Instance Z_cmp_order : CmpOrder Z.compare.
Proof.
  split.
  - intros x y. apply Z.compare_antisym.
  - intros x y z H. apply Z.compare_eq in H. by subst.
  - intros x y z. rewrite !Z.compare_lt_iff. lia.
Qed.

Lemma string_compare_eq s1 s2 : String.compare s1 s2 = Eq <-> s1 = s2.
Proof.
  split; [apply String.compare_eq_iff|]. intros ->.
  pose proof (String.compare_antisym s2 s2) as H.
  destruct (String.compare s2 s2); simpl in H; congruence.
Qed.

#[global] Instance string_cmp_order : CmpOrder String.compare.
Proof.
  split.
  - intros x y. apply String.compare_antisym.
  - intros x y z H. apply string_compare_eq in H. by subst.
  - intros x y z. apply (@StrictOrder_Transitive _ _ OrdersEx.String_as_OT.lt_strorder).
Qed.

Lemma cmp_order_on {A B} (f : A -> B) (cmp : B -> B -> comparison) :
  CmpOrder cmp -> CmpOrder (fun x y => cmp (f x) (f y)).
Proof.
  intros H. split; intros *; [apply cmp_antisym|apply cmp_eq_trans|apply cmp_lt_trans].
Qed.

Lemma cmp_order_rev {A} (cmp : A -> A -> comparison) :
  CmpOrder cmp -> CmpOrder (fun x y => cmp y x).
Proof.
  intros H. split.
  - intros x y. apply cmp_antisym.
  - intros x y z E. apply (cmp_eq_trans_r cmp). by apply (cmp_eq_sym cmp).
  - intros x y z H1 H2. by apply (cmp_lt_trans z y x).
Qed.

Lemma cmp_order_lex {A} (c1 c2 : A -> A -> comparison) :
  CmpOrder c1 -> CmpOrder c2 -> CmpOrder (fun x y => thenCmp (c1 x y) (c2 x y)).
Proof.
  intros H1 H2. split.
  - intros x y. rewrite (cmp_antisym (cmp:=c1) x y), (cmp_antisym (cmp:=c2) x y).
    by destruct (c1 x y).
  - intros x y z E. destruct (c1 x y) eqn:E1; simpl in E; try done.
    by rewrite (cmp_eq_trans (cmp:=c1) _ _ z E1), (cmp_eq_trans (cmp:=c2) _ _ z E).
  - intros x y z Exy Eyz. destruct (c1 x y) eqn:E1; simpl in Exy; try done.
    + rewrite (cmp_eq_trans (cmp:=c1) _ _ z E1).
      destruct (c1 y z); simpl in *; try done. by apply (cmp_lt_trans (cmp:=c2) x y z).
    + destruct (c1 y z) eqn:E2; simpl in Eyz; try done.
      * rewrite <- (cmp_eq_trans_r c1 x _ _ E2). by rewrite E1.
      * by rewrite (cmp_lt_trans (cmp:=c1) _ _ _ E1 E2).
Qed.

Lemma thenCmp_eq c1 c2 : thenCmp c1 c2 = Eq <-> c1 = Eq /\ c2 = Eq.
Proof. destruct c1; simpl; intuition congruence. Qed.

Ltac solve_cmp_order :=
  repeat match goal with
  | |- CmpOrder (fun x y => thenCmp _ _) => apply cmp_order_lex
  | |- CmpOrder (fun x y => Z.compare (@?f x) (@?f y)) => apply (cmp_order_on f Z.compare)
  | |- CmpOrder (fun x y => Z.compare (@?f y) (@?f x)) =>
      apply (cmp_order_rev (fun x y => Z.compare (f x) (f y)))
  | |- CmpOrder (fun x y => String.compare (@?f x) (@?f y)) => apply (cmp_order_on f String.compare)
  | |- CmpOrder _ => apply _
  end.

(** Turns [cmp x y = Eq] into equalities of the compared keys. *)
Ltac cmp_eq_inv :=
  repeat match goal with
  | H : thenCmp _ _ = Eq |- _ => apply thenCmp_eq in H as [? ?]
  | H : Z.compare _ _ = Eq |- _ => apply Z.compare_eq in H
  | H : String.compare _ _ = Eq |- _ => apply string_compare_eq in H
  end.

(** *** Results *)

Section ResultFacts.
Context {E : Type}.

Lemma bind_ok {A B} (r : result E A) (f : A -> result E B) b :
  r ≫= f = Ok b <-> exists a, r = Ok a /\ f a = Ok b.
Proof. destruct r; simpl; naive_solver. Qed.

Lemma bind_err {A B} (r : result E A) (f : A -> result E B) e :
  r ≫= f = Err e <-> r = Err e \/ exists a, r = Ok a /\ f a = Err e.
Proof. destruct r; simpl; naive_solver. Qed.

Lemma fmap_ok {A B} (r : result E A) (f : A -> B) b :
  f <$> r = Ok b <-> exists a, r = Ok a /\ b = f a.
Proof. destruct r; simpl; naive_solver. Qed.

Lemma require_ok c (e : E) : require c e = Ok tt <-> c = true.
Proof. destruct c; simpl; naive_solver. Qed.

End ResultFacts.

(** Inverts hypotheses that say that a sequence of fallible steps succeeded. *)
Ltac inv_ok :=
  repeat match goal with
  | H : _ ≫= _ = Ok _ |- _ => apply bind_ok in H as (? & ? & ?)
  | H : _ <$> _ = Ok _ |- _ => apply fmap_ok in H as (? & ? & ?)
  | H : require _ _ = Ok _ |- _ =>
      match type of H with _ = Ok ?u => destruct u end; apply require_ok in H
  | H : Ok _ = Ok _ |- _ => injection H; clear H; intros; subst
  | H : Err _ = Ok _ |- _ => discriminate H
  | H : (_, _) = (_, _) |- _ => injection H; clear H; intros; subst
  end.

(** *** Machine integers *)

Lemma u64_small z : is_u64 z -> u64 z = z.
Proof. apply Z.mod_small. Qed.

Lemma u32_small z : is_u32 z -> u32 z = z.
Proof. apply Z.mod_small. Qed.

Lemma is_u64_u64 z : is_u64 (u64 z).
Proof. apply Z.mod_pos_bound. done. Qed.

Lemma len_nonneg {A} (l : list A) : (0 <= len l)%Z.
Proof. unfold len. lia. Qed.

Lemma len_app {A} (l1 l2 : list A) : len (l1 ++ l2) = (len l1 + len l2)%Z.
Proof. unfold len. rewrite length_app. lia. Qed.

Lemma len_cons {A} (x : A) l : len (x :: l) = (1 + len l)%Z.
Proof. unfold len. simpl. lia. Qed.

Lemma len_nil {A} : len (@nil A) = 0%Z.
Proof. done. Qed.

(** *** Lists *)

Lemma filter_none {A} (P : A -> Prop) `{forall x, Decision (P x)} (l : list A) :
  Forall (fun x => ~ P x) l -> filter P l = [].
Proof.
  induction 1 as [|x l Hx Hl IH]; [done|]. by rewrite filter_cons_False.
Qed.

Lemma filter_all {A} (P : A -> Prop) `{forall x, Decision (P x)} (l : list A) :
  Forall P l -> filter P l = l.
Proof.
  induction 1 as [|x l Hx Hl IH]; [done|]. by rewrite filter_cons_True, IH.
Qed.

Lemma filter_ext_in {A} (P1 P2 : A -> Prop) `{forall x, Decision (P1 x), forall x, Decision (P2 x)} (l : list A) :
  (forall x, x ∈ l -> P1 x <-> P2 x) -> filter P1 l = filter P2 l.
Proof.
  intros Hiff. induction l as [|x l IH]; [done|]. rewrite !filter_cons.
  rewrite IH by (intros y Hy; apply Hiff; by right).
  pose proof (Hiff x (list_elem_of_here _ _)). by repeat case_decide; tauto.
Qed.

(** *** Map iteration *)

Section RangeFacts.
Context `{MapRange} {K V : Type} `{Countable K}.
Implicit Types m : gmap K V.

Lemma elem_of_range m k v : (k, v) ∈ range m <-> m !! k = Some v.
Proof. rewrite range_perm. apply elem_of_map_to_list. Qed.

Lemma elem_of_values m v : v ∈ values m <-> exists k, m !! k = Some v.
Proof.
  unfold values. rewrite list_elem_of_fmap. split.
  - intros ([k v'] & -> & Hin). exists k. by apply elem_of_range.
  - intros (k & Hk). exists (k, v). split; [done|]. by apply elem_of_range.
Qed.

Lemma NoDup_keys m : NoDup (keys m).
Proof. unfold keys. rewrite range_perm. apply NoDup_fst_map_to_list. Qed.

Lemma elem_of_keys m k : k ∈ keys m <-> is_Some (m !! k).
Proof.
  unfold keys. rewrite list_elem_of_fmap. split.
  - intros ([k' v] & -> & Hin). exists v. by apply elem_of_range.
  - intros [v Hk]. exists (k, v). split; [done|]. by apply elem_of_range.
Qed.

Lemma values_perm m : values m ≡ₚ (map_to_list m).*2.
Proof. unfold values. by rewrite range_perm. Qed.

End RangeFacts.

(** The hint database of the development. *)
Create HintDb ech0 discriminated.
#[export] Hint Resolve is_u64_u64 len_nonneg : ech0.
Create Rewrite HintDb len.
#[export] Hint Rewrite @len_app @len_cons @len_nil : len.

(** The images of the entries that satisfy [P] are distinct when they determine the key. *)
Lemma NoDup_values_by {K V X} `{MapRange} `{Countable K} (m : gmap K V) (g : V -> X)
    (P : V -> Prop) `{forall v, Decision (P v)} :
  (forall k1 v1 k2 v2, m !! k1 = Some v1 -> m !! k2 = Some v2 -> P v1 -> P v2 -> g v1 = g v2 -> k1 = k2) ->
  NoDup (g <$> filter P (values m)).
Proof.
  intros Hinj. unfold values.
  assert (forall k v, (k, v) ∈ range m -> m !! k = Some v) as Hr by (intros k v; apply elem_of_range).
  pose proof (NoDup_keys m) as Hnd. unfold keys in Hnd. induction (range m) as [|[k v] l IH]; [constructor|].
  rewrite !fmap_cons in *. cbn [fst snd] in *. apply NoDup_cons in Hnd as [Hk Hnd]. rewrite filter_cons.
  assert (NoDup (g <$> filter P (snd <$> l))) as IHl by (apply IH; [intros k' v' Hin; apply Hr; by right|done]).
  destruct (decide (P v)) as [HP|HP]; [|done]. rewrite fmap_cons. apply NoDup_cons. split; [|done].
  intros (v' & Hg & Hv')%list_elem_of_fmap. apply list_elem_of_filter in Hv' as [HP' Hv'].
  apply list_elem_of_fmap in Hv' as ([k' v''] & -> & Hin). apply Hk.
  rewrite (Hinj k v k' v'').
  - by apply (list_elem_of_fmap_2 fst) in Hin.
  - apply Hr. by left.
  - apply Hr. by right.
  - done.
  - done.
  - done.
Qed.
