(* ===== verification/Model.v ===== *)
(** * The data model of [store]

    The records and enumerations of [src/store/model.go], [offset_model.go],
    [offset_pending.go], [topic_*.go], [message_expiry.go] and [errors.go].

    Field names carry a prefix for their record.  Go's string-typed
    enumerations are open (any string inhabits the type, and the code handles
    the empty and the unknown ones), so they are strings with named
    constants.  A pointer that may be [nil] is an [option].  [nil] and empty
    slices are both the empty list.  A [float64] is its IEEE-754 bit pattern,
    as [math.Float64bits] gives it. *)

From stdpp Require Import prelude gmap strings sorting pretty.
From S2P Require Import Prelude.

#[local] Open Scope Z_scope.

(** ** Error codes ([errors.go]); messages are diagnostic text and left out. *)

Inductive Code :=
| CodeInvalidArgument
| CodeTopicExists
| CodeTopicNotFound
| CodePartitionNotFound
| CodeCodec
| CodeNotLeader
| CodeUnavailable.

#[global] Instance Code_eq_dec : EqDecision Code.
Proof. solve_decision. Defined.

(** ** Enumerations *)

Definition TransactionStatusOpen : string := "open".
Definition TransactionStatusCommitted : string := "committed".
Definition TransactionStatusAborted : string := "aborted".

Definition TransactionControlNone : string := "".
Definition TransactionControlCommit : string := "commit".
Definition TransactionControlAbort : string := "abort".

Definition TopicCleanupDelete : string := "delete".
Definition TopicCleanupCompact : string := "compact".
Definition TopicCleanupCompactAndDelete : string := "compact_and_delete".

Definition MessageExpiryDelete : string := "delete".
Definition MessageExpiryDLQ : string := "dlq".

Definition TopicOrderingNone : string := "".
Definition TopicOrderingPartition : string := "partition".
Definition TopicOrderingKey : string := "key".
Definition TopicOrderingRoutingKey : string := "routing_key".

(** [RecordAttributeTombstone = 1 << 1] *)
Definition RecordAttributeTombstone : Z := Z.shiftl 1 1.

(** ** Topics and partitions *)

Record TopicPartition := NewTopicPartition { tp_Topic : string; tp_Partition : Z }.

#[global] Instance TopicPartition_eq_dec : EqDecision TopicPartition.
Proof. solve_decision. Defined.
#[global] Program Instance TopicPartition_countable : Countable TopicPartition :=
  inj_countable' (fun tp => (tp_Topic tp, tp_Partition tp)) (fun p => NewTopicPartition p.1 p.2) _.
Next Obligation. by intros []. Qed.

Record ShardPlacement := NewShardPlacement {
  sp_Topic : string;
  sp_Partition : Z;
  sp_ShardID : Z
}.

Definition ShardPlacement_TopicPartition (p : ShardPlacement) : TopicPartition :=
  NewTopicPartition (sp_Topic p) (sp_Partition p).

Record ConsumerPauseState := mkConsumerPauseState {
  cps_Consumer : string;
  cps_Topic : string;
  cps_Partition : Z;
  cps_Paused : bool;
  cps_UpdatedAtMS : Z
}.

Definition ConsumerPauseState_TopicPartition (s : ConsumerPauseState) : TopicPartition :=
  NewTopicPartition (cps_Topic s) (cps_Partition s).

Record TopicRetryPolicy := mkTopicRetryPolicy {
  trp_MaxAttempts : Z;
  trp_BackoffInitialMS : Z;
  trp_BackoffMaxMS : Z;
  trp_BackoffJitterFactor : Z
}.

(** [0.2] is the double with bit pattern [0x3FC999999999999A]. *)
Definition DefaultTopicRetryPolicy : TopicRetryPolicy :=
  mkTopicRetryPolicy 16 100 30000 0x3FC999999999999A.

Record TopicPriorityPolicy := mkTopicPriorityPolicy {
  tpp_Enabled : bool;
  tpp_Min : Z;
  tpp_Max : Z;
  tpp_Default : Z
}.

Definition DefaultTopicPriorityMin : Z := 0.
Definition DefaultTopicPriorityMax : Z := 9.
Definition DefaultTopicPriorityDefault : Z := 0.

Definition NormalizeTopicPriorityPolicy (policy : TopicPriorityPolicy) : TopicPriorityPolicy :=
  if negb (tpp_Enabled policy) then mkTopicPriorityPolicy false 0 0 0
  else if tpp_Max policy =? 0
  then mkTopicPriorityPolicy (tpp_Enabled policy) (tpp_Min policy) DefaultTopicPriorityMax (tpp_Default policy)
  else policy.

Record TopicConfig := mkTopicConfig {
  tc_Name : string;
  tc_Partitions : Z;
  tc_SegmentMaxBytes : Z;
  tc_IndexIntervalBytes : Z;
  tc_RetentionMaxBytes : Z;
  tc_CleanupPolicy : string;
  tc_MaxMessageBytes : Z;
  tc_MaxBatchBytes : Z;
  tc_RetentionMS : option Z;
  tc_RetryPolicy : TopicRetryPolicy;
  tc_DeadLetterTopic : option string;
  tc_DelayEnabled : bool;
  tc_MessageTTLMS : option Z;
  tc_MessageExpiryAction : string;
  tc_CompactionEnabled : bool;
  tc_CompactionTombstoneRetentionMS : option Z;
  tc_OrderingPolicy : string;
  tc_PriorityPolicy : TopicPriorityPolicy
}.

Definition NewTopicConfig (name : string) : TopicConfig := {|
  tc_Name := name;
  tc_Partitions := 1;
  tc_SegmentMaxBytes := 16 * 1024 * 1024;
  tc_IndexIntervalBytes := 4 * 1024;
  tc_RetentionMaxBytes := 256 * 1024 * 1024;
  tc_CleanupPolicy := TopicCleanupDelete;
  tc_MaxMessageBytes := 1024 * 1024;
  tc_MaxBatchBytes := 8 * 1024 * 1024;
  tc_RetentionMS := None;
  tc_RetryPolicy := DefaultTopicRetryPolicy;
  tc_DeadLetterTopic := None;
  tc_DelayEnabled := false;
  tc_MessageTTLMS := None;
  tc_MessageExpiryAction := "";
  tc_CompactionEnabled := false;
  tc_CompactionTombstoneRetentionMS := None;
  tc_OrderingPolicy := TopicOrderingNone;
  tc_PriorityPolicy := mkTopicPriorityPolicy false 0 0 0
|}.

(** ** Records *)

Record RecordHeader := mkRecordHeader { rh_Key : string; rh_Value : bytes }.

Record TransactionRecordMetadata := mkTransactionRecordMetadata {
  trm_TxID : Z;
  trm_ProducerID : Z;
  trm_ProducerEpoch : Z;
  trm_Sequence : Z;
  trm_ControlType : string
}.

Record RecordAppend := mkRecordAppend {
  ra_TimestampMS : option Z;
  ra_Key : bytes;
  ra_Headers : list RecordHeader;
  ra_Attributes : Z;
  ra_Transaction : option TransactionRecordMetadata;
  ra_ExpiresAtMS : option Z;
  ra_Payload : bytes
}.

Definition NewRecordAppend (payload : bytes) : RecordAppend :=
  mkRecordAppend None [] [] 0 None None payload.

(** [store.Record]; [Record] is a keyword. *)
Record Rec := mkRec {
  r_Offset : Z;
  r_TimestampMS : Z;
  r_Key : bytes;
  r_Headers : list RecordHeader;
  r_Attributes : Z;
  r_Transaction : option TransactionRecordMetadata;
  r_ExpiresAtMS : option Z;
  r_Payload : bytes
}.

Definition Rec_IsTombstone (r : Rec) : bool :=
  negb (Z.land (r_Attributes r) RecordAttributeTombstone =? 0).
Definition RecordAppend_IsTombstone (r : RecordAppend) : bool :=
  negb (Z.land (ra_Attributes r) RecordAttributeTombstone =? 0).

#[global] Instance RecordHeader_eq_dec : EqDecision RecordHeader.
Proof. solve_decision. Defined.
#[global] Instance TransactionRecordMetadata_eq_dec : EqDecision TransactionRecordMetadata.
Proof. solve_decision. Defined.
#[global] Instance Rec_eq_dec : EqDecision Rec.
Proof. solve_decision. Defined.

Record PollResult := mkPollResult {
  pr_Records : list Rec;
  pr_NextOffset : Z;
  pr_HighWatermark : option Z;
  pr_LowWatermark : option Z;
  pr_LogStartOffset : Z
}.

Record RecordPage := mkRecordPage {
  rp_Records : list Rec;
  rp_NextCursor : string;
  rp_HasMore : bool
}.

(** ** Transactions and producers *)

Record TransactionOffsetCommit := mkTransactionOffsetCommit {
  toc_Consumer : string;
  toc_Group : string;
  toc_MemberID : string;
  toc_Generation : Z;
  toc_Topic : string;
  toc_Partition : Z;
  toc_NextOffset : Z;
  toc_Metadata : string
}.

Record TransactionPublishedBatch := mkTransactionPublishedBatch {
  tpb_Topic : string;
  tpb_Partition : Z;
  tpb_BaseSequence : Z;
  tpb_RecordCount : Z;
  tpb_BaseOffset : Z;
  tpb_LastOffset : Z;
  tpb_NextOffset : Z
}.

Record ProducerPublishedBatch := mkProducerPublishedBatch {
  ppb_ProducerID : Z;
  ppb_ProducerEpoch : Z;
  ppb_Topic : string;
  ppb_Partition : Z;
  ppb_BaseSequence : Z;
  ppb_RecordCount : Z;
  ppb_BaseOffset : Z;
  ppb_LastOffset : Z;
  ppb_NextOffset : Z;
  ppb_UpdatedAtMS : Z
}.

Record ProducerBatchFilter := mkProducerBatchFilter {
  pbf_ProducerID : Z;
  pbf_Topic : string;
  pbf_ProducerEpoch : Z;
  pbf_EpochSet : bool;
  pbf_Partition : Z;
  pbf_PartitionSet : bool
}.

Record TransactionState := mkTransactionState {
  ts_TxID : Z;
  ts_TransactionalID : string;
  ts_ProducerID : Z;
  ts_ProducerEpoch : Z;
  ts_Status : string;
  ts_TimeoutMS : Z;
  ts_CreatedAtMS : Z;
  ts_UpdatedAtMS : Z;
  ts_ExpiresAtMS : Z;
  ts_NextSequence : Z;
  ts_Partitions : list TopicPartition;
  ts_PublishedBatches : list TransactionPublishedBatch;
  ts_OffsetCommits : list TransactionOffsetCommit
}.

(** ** Consumer groups *)

Record ConsumerGroupMember := mkConsumerGroupMember {
  cgm_Group : string;
  cgm_MemberID : string;
  cgm_Topics : list string;
  cgm_SessionTimeoutMS : Z;
  cgm_MaxPollIntervalMS : Z;
  cgm_JoinedAtMS : Z;
  cgm_LastHeartbeatMS : Z;
  cgm_LastPollMS : Z
}.

Definition ExpiresAtMS (m : ConsumerGroupMember) : Z :=
  let timeout := if cgm_SessionTimeoutMS m =? 0 then 1 else cgm_SessionTimeoutMS m in
  u64 (cgm_LastHeartbeatMS m + timeout).

Definition lastPollMS (m : ConsumerGroupMember) : Z :=
  if negb (cgm_LastPollMS m =? 0) then cgm_LastPollMS m
  else if negb (cgm_LastHeartbeatMS m =? 0) then cgm_LastHeartbeatMS m
  else cgm_JoinedAtMS m.

Definition PollExpiresAtMS (m : ConsumerGroupMember) : Z :=
  let timeout := cgm_MaxPollIntervalMS m in
  let timeout := if timeout =? 0 then cgm_SessionTimeoutMS m else timeout in
  let timeout := if timeout =? 0 then 1 else timeout in
  u64 (lastPollMS m + timeout).

Definition ExpiredAt (m : ConsumerGroupMember) (nowMS : Z) : bool :=
  (ExpiresAtMS m <=? nowMS) || (PollExpiresAtMS m <=? nowMS).

Record GroupPartitionAssignment := mkGroupPartitionAssignment {
  gpa_MemberID : string;
  gpa_Topic : string;
  gpa_Partition : Z
}.

#[global] Instance GroupPartitionAssignment_eq_dec : EqDecision GroupPartitionAssignment.
Proof. solve_decision. Defined.

Record ConsumerGroupAssignment := mkConsumerGroupAssignment {
  cga_Group : string;
  cga_Generation : Z;
  cga_Assignments : list GroupPartitionAssignment;
  cga_UpdatedAtMS : Z
}.

Record BrokerState := mkBrokerState { bs_NodeID : string; bs_Epoch : Z }.

(** ** Offsets ([offset_model.go], [offset_pending.go]) *)

Record ConsumerOffsetState := mkConsumerOffsetState {
  cos_Consumer : string;
  cos_Topic : string;
  cos_Partition : Z;
  cos_NextOffset : Z;
  cos_PendingOffsets : list Z;
  cos_Metadata : string;
  cos_UpdatedAtMS : Z
}.

Definition ConsumerOffsetState_TopicPartition (s : ConsumerOffsetState) : TopicPartition :=
  NewTopicPartition (cos_Topic s) (cos_Partition s).

Record PartitionOffsetState := mkPartitionOffsetState {
  pos_Topic : string;
  pos_Partition : Z;
  pos_LogStartOffset : Z;
  pos_LowWatermark : option Z;
  pos_HighWatermark : option Z;
  pos_NextOffset : Z;
  pos_RetainedRecords : Z
}.

Definition partitionOffsetsFromRecordOffsets (tp : TopicPartition) (nextOffset : Z) (offsets : list Z)
    : PartitionOffsetState := {|
  pos_Topic := tp_Topic tp;
  pos_Partition := tp_Partition tp;
  pos_LogStartOffset := match offsets with [] => nextOffset | value :: _ => value end;
  pos_LowWatermark := match offsets with [] => None | value :: _ => Some value end;
  pos_HighWatermark := if 0 <? nextOffset then Some (nextOffset - 1) else None;
  pos_NextOffset := nextOffset;
  pos_RetainedRecords := len offsets
|}.

Definition recordOffsets (records : list Rec) : list Z := r_Offset <$> records.

(** The loop of [NormalizeConsumerOffsetState] over the sorted copy: [index]
    is the position in the sorted slice and [previous] the last offset that
    was appended ([0] before the first). *)
Fixpoint normalizePendingLoop (next : Z) (index : nat) (previous : Z) (pending : list Z) : list Z :=
  match pending with
  | [] => []
  | offset :: rest =>
      if offset <? next then normalizePendingLoop next (S index) previous rest
      else if (0 <? index)%nat && (offset =? previous)
      then normalizePendingLoop next (S index) previous rest
      else offset :: normalizePendingLoop next (S index) offset rest
  end.

Definition NormalizeConsumerOffsetState (state : ConsumerOffsetState) : ConsumerOffsetState :=
  match cos_PendingOffsets state with
  | [] => state
  | _ =>
      {| cos_Consumer := cos_Consumer state;
         cos_Topic := cos_Topic state;
         cos_Partition := cos_Partition state;
         cos_NextOffset := cos_NextOffset state;
         cos_PendingOffsets :=
           normalizePendingLoop (cos_NextOffset state) 0 0
             (sort_func Z.compare (cos_PendingOffsets state));
         cos_Metadata := cos_Metadata state;
         cos_UpdatedAtMS := cos_UpdatedAtMS state |}
  end.

(** ** Access-control policies and the dead-letter index *)

Definition ACLPolicyEffectAllow : string := "allow".
Definition ACLPolicyEffectDeny : string := "deny".

Record ACLPolicy := mkACLPolicy {
  acl_PolicyID : string;
  acl_Tenant : string;
  acl_Namespace : string;
  acl_Principal : string;
  acl_ResourceType : string;
  acl_ResourceName : string;
  acl_Actions : list string;
  acl_Effect : string;
  acl_Priority : Z;
  acl_UpdatedAtMS : Z
}.

Record DLQIndexEntry := mkDLQIndexEntry {
  dlq_DLQTopic : string;
  dlq_DLQPartition : Z;
  dlq_DLQOffset : Z;
  dlq_TimestampMS : Z;
  dlq_OriginalTopic : string;
  dlq_OriginalPartition : Z;
  dlq_OriginalOffset : Z;
  dlq_ErrorCode : string;
  dlq_RetryCount : Z
}.

Record DLQIndexFilter := mkDLQIndexFilter {
  dlf_DLQTopic : string;
  dlf_DLQPartition : option Z;
  dlf_MinDLQOffset : option Z;
  dlf_MaxDLQOffset : option Z;
  dlf_FromTimestampMS : option Z;
  dlf_ToTimestampMS : option Z;
  dlf_OriginalTopic : option string;
  dlf_OriginalPartition : option Z;
  dlf_OriginalOffset : option Z;
  dlf_ErrorCode : string;
  dlf_RetryCount : option Z
}.
