(* ===== verification/MemoryStore.v ===== *)
(** * The in-memory store: state, topics and the partition logs

    [src/store/memory.go], [memory_helpers.go], [memory_partition_offsets.go]
    and the size and order helpers of [cleanup.go].  [MemoryStore] is the
    state machine store of the broker and, in tests and embedded use, its
    message log.

    Every method takes the store's mutex for its whole body, so a method is
    one atomic step on the state.  A method that can fail after it has
    changed the state returns the new state beside its result.
    [AppendRecordsBatch] takes the mutex once per record; its model is the
    run of it that no other method interleaves.  [store.NowMS()] is an
    argument.  The [clone*] helpers copy values so that callers cannot
    alias the store; the model's values are immutable and need no copies. *)

From stdpp Require Import prelude gmap strings sorting pretty.
From S2P Require Import Prelude Model.

#[local] Open Scope Z_scope.

(** ** State *)

Record MemoryStore := mkMemoryStore {
  topics : gmap string TopicConfig;
  topicNames : gset string;
  records : gmap TopicPartition (list Rec);
  nextOffsets : gmap TopicPartition Z;
  offsets : gmap string Z;
  offsetStates : gmap string ConsumerOffsetState;
  consumerPauses : gmap string ConsumerPauseState;
  placements : gmap TopicPartition ShardPlacement;
  members : gmap string ConsumerGroupMember;
  assignments : gmap string ConsumerGroupAssignment;
  transactions : gmap Z TransactionState;
  producerBatches : gmap string ProducerPublishedBatch;
  aclPolicies : gmap string ACLPolicy;
  dlqIndexes : gmap string DLQIndexEntry;
  nextTxID : Z;
  brokerState : option BrokerState
}.

Definition NewMemoryStore : MemoryStore := {|
  topics := ∅;
  topicNames := ∅;
  records := ∅;
  nextOffsets := ∅;
  offsets := ∅;
  offsetStates := ∅;
  consumerPauses := ∅;
  placements := ∅;
  members := ∅;
  assignments := ∅;
  transactions := ∅;
  producerBatches := ∅;
  aclPolicies := ∅;
  dlqIndexes := ∅;
  nextTxID := 1;
  brokerState := None
|}.

Definition set_topics (v : gmap string TopicConfig) (s : MemoryStore) : MemoryStore :=
  {| topics := v; topicNames := topicNames s; records := records s;
     nextOffsets := nextOffsets s; offsets := offsets s; offsetStates := offsetStates s;
     consumerPauses := consumerPauses s; placements := placements s; members := members s;
     assignments := assignments s; transactions := transactions s;
     producerBatches := producerBatches s; aclPolicies := aclPolicies s;
     dlqIndexes := dlqIndexes s; nextTxID := nextTxID s; brokerState := brokerState s |}.
Definition set_topicNames (v : gset string) (s : MemoryStore) : MemoryStore :=
  {| topics := topics s; topicNames := v; records := records s; nextOffsets := nextOffsets s;
     offsets := offsets s; offsetStates := offsetStates s; consumerPauses := consumerPauses s;
     placements := placements s; members := members s; assignments := assignments s;
     transactions := transactions s; producerBatches := producerBatches s;
     aclPolicies := aclPolicies s; dlqIndexes := dlqIndexes s; nextTxID := nextTxID s;
     brokerState := brokerState s |}.
Definition set_records (v : gmap TopicPartition (list Rec)) (s : MemoryStore) : MemoryStore :=
  {| topics := topics s; topicNames := topicNames s; records := v;
     nextOffsets := nextOffsets s; offsets := offsets s; offsetStates := offsetStates s;
     consumerPauses := consumerPauses s; placements := placements s; members := members s;
     assignments := assignments s; transactions := transactions s;
     producerBatches := producerBatches s; aclPolicies := aclPolicies s;
     dlqIndexes := dlqIndexes s; nextTxID := nextTxID s; brokerState := brokerState s |}.
Definition set_nextOffsets (v : gmap TopicPartition Z) (s : MemoryStore) : MemoryStore :=
  {| topics := topics s; topicNames := topicNames s; records := records s; nextOffsets := v;
     offsets := offsets s; offsetStates := offsetStates s; consumerPauses := consumerPauses s;
     placements := placements s; members := members s; assignments := assignments s;
     transactions := transactions s; producerBatches := producerBatches s;
     aclPolicies := aclPolicies s; dlqIndexes := dlqIndexes s; nextTxID := nextTxID s;
     brokerState := brokerState s |}.
Definition set_offsets (v : gmap string Z) (s : MemoryStore) : MemoryStore :=
  {| topics := topics s; topicNames := topicNames s; records := records s;
     nextOffsets := nextOffsets s; offsets := v; offsetStates := offsetStates s;
     consumerPauses := consumerPauses s; placements := placements s; members := members s;
     assignments := assignments s; transactions := transactions s;
     producerBatches := producerBatches s; aclPolicies := aclPolicies s;
     dlqIndexes := dlqIndexes s; nextTxID := nextTxID s; brokerState := brokerState s |}.
Definition set_offsetStates (v : gmap string ConsumerOffsetState) (s : MemoryStore) : MemoryStore :=
  {| topics := topics s; topicNames := topicNames s; records := records s;
     nextOffsets := nextOffsets s; offsets := offsets s; offsetStates := v;
     consumerPauses := consumerPauses s; placements := placements s; members := members s;
     assignments := assignments s; transactions := transactions s;
     producerBatches := producerBatches s; aclPolicies := aclPolicies s;
     dlqIndexes := dlqIndexes s; nextTxID := nextTxID s; brokerState := brokerState s |}.
Definition set_consumerPauses (v : gmap string ConsumerPauseState) (s : MemoryStore) : MemoryStore :=
  {| topics := topics s; topicNames := topicNames s; records := records s;
     nextOffsets := nextOffsets s; offsets := offsets s; offsetStates := offsetStates s;
     consumerPauses := v; placements := placements s; members := members s;
     assignments := assignments s; transactions := transactions s;
     producerBatches := producerBatches s; aclPolicies := aclPolicies s;
     dlqIndexes := dlqIndexes s; nextTxID := nextTxID s; brokerState := brokerState s |}.
Definition set_placements (v : gmap TopicPartition ShardPlacement) (s : MemoryStore) : MemoryStore :=
  {| topics := topics s; topicNames := topicNames s; records := records s;
     nextOffsets := nextOffsets s; offsets := offsets s; offsetStates := offsetStates s;
     consumerPauses := consumerPauses s; placements := v; members := members s;
     assignments := assignments s; transactions := transactions s;
     producerBatches := producerBatches s; aclPolicies := aclPolicies s;
     dlqIndexes := dlqIndexes s; nextTxID := nextTxID s; brokerState := brokerState s |}.
Definition set_members (v : gmap string ConsumerGroupMember) (s : MemoryStore) : MemoryStore :=
  {| topics := topics s; topicNames := topicNames s; records := records s;
     nextOffsets := nextOffsets s; offsets := offsets s; offsetStates := offsetStates s;
     consumerPauses := consumerPauses s; placements := placements s; members := v;
     assignments := assignments s; transactions := transactions s;
     producerBatches := producerBatches s; aclPolicies := aclPolicies s;
     dlqIndexes := dlqIndexes s; nextTxID := nextTxID s; brokerState := brokerState s |}.
Definition set_assignments (v : gmap string ConsumerGroupAssignment) (s : MemoryStore) : MemoryStore :=
  {| topics := topics s; topicNames := topicNames s; records := records s;
     nextOffsets := nextOffsets s; offsets := offsets s; offsetStates := offsetStates s;
     consumerPauses := consumerPauses s; placements := placements s; members := members s;
     assignments := v; transactions := transactions s; producerBatches := producerBatches s;
     aclPolicies := aclPolicies s; dlqIndexes := dlqIndexes s; nextTxID := nextTxID s;
     brokerState := brokerState s |}.
Definition set_transactions (v : gmap Z TransactionState) (s : MemoryStore) : MemoryStore :=
  {| topics := topics s; topicNames := topicNames s; records := records s;
     nextOffsets := nextOffsets s; offsets := offsets s; offsetStates := offsetStates s;
     consumerPauses := consumerPauses s; placements := placements s; members := members s;
     assignments := assignments s; transactions := v; producerBatches := producerBatches s;
     aclPolicies := aclPolicies s; dlqIndexes := dlqIndexes s; nextTxID := nextTxID s;
     brokerState := brokerState s |}.
Definition set_producerBatches (v : gmap string ProducerPublishedBatch) (s : MemoryStore) : MemoryStore :=
  {| topics := topics s; topicNames := topicNames s; records := records s;
     nextOffsets := nextOffsets s; offsets := offsets s; offsetStates := offsetStates s;
     consumerPauses := consumerPauses s; placements := placements s; members := members s;
     assignments := assignments s; transactions := transactions s; producerBatches := v;
     aclPolicies := aclPolicies s; dlqIndexes := dlqIndexes s; nextTxID := nextTxID s;
     brokerState := brokerState s |}.
Definition set_aclPolicies (v : gmap string ACLPolicy) (s : MemoryStore) : MemoryStore :=
  {| topics := topics s; topicNames := topicNames s; records := records s;
     nextOffsets := nextOffsets s; offsets := offsets s; offsetStates := offsetStates s;
     consumerPauses := consumerPauses s; placements := placements s; members := members s;
     assignments := assignments s; transactions := transactions s;
     producerBatches := producerBatches s; aclPolicies := v; dlqIndexes := dlqIndexes s;
     nextTxID := nextTxID s; brokerState := brokerState s |}.
Definition set_dlqIndexes (v : gmap string DLQIndexEntry) (s : MemoryStore) : MemoryStore :=
  {| topics := topics s; topicNames := topicNames s; records := records s;
     nextOffsets := nextOffsets s; offsets := offsets s; offsetStates := offsetStates s;
     consumerPauses := consumerPauses s; placements := placements s; members := members s;
     assignments := assignments s; transactions := transactions s;
     producerBatches := producerBatches s; aclPolicies := aclPolicies s; dlqIndexes := v;
     nextTxID := nextTxID s; brokerState := brokerState s |}.
Definition set_nextTxID (v : Z) (s : MemoryStore) : MemoryStore :=
  {| topics := topics s; topicNames := topicNames s; records := records s;
     nextOffsets := nextOffsets s; offsets := offsets s; offsetStates := offsetStates s;
     consumerPauses := consumerPauses s; placements := placements s; members := members s;
     assignments := assignments s; transactions := transactions s;
     producerBatches := producerBatches s; aclPolicies := aclPolicies s;
     dlqIndexes := dlqIndexes s; nextTxID := v; brokerState := brokerState s |}.
Definition set_brokerState (v : option BrokerState) (s : MemoryStore) : MemoryStore :=
  {| topics := topics s; topicNames := topicNames s; records := records s;
     nextOffsets := nextOffsets s; offsets := offsets s; offsetStates := offsetStates s;
     consumerPauses := consumerPauses s; placements := placements s; members := members s;
     assignments := assignments s; transactions := transactions s;
     producerBatches := producerBatches s; aclPolicies := aclPolicies s;
     dlqIndexes := dlqIndexes s; nextTxID := nextTxID s; brokerState := v |}.

(** ** Keys ([memory_helpers.go]) *)

Definition offsetKey (consumer : string) (tp : TopicPartition) : string :=
  (consumer ++ nul ++ tp_Topic tp ++ nul ++ fmt_d (tp_Partition tp))%string.

Definition consumerPauseKey (consumer : string) (tp : TopicPartition) : string :=
  offsetKey consumer tp.

Definition producerBatchKey (batch : ProducerPublishedBatch) : string :=
  (fmt_d (ppb_ProducerID batch) ++ nul ++ fmt_d (ppb_ProducerEpoch batch) ++ nul ++
   ppb_Topic batch ++ nul ++ fmt_d (ppb_Partition batch) ++ nul ++ fmt_d (ppb_BaseSequence batch))%string.

Definition groupMemberKey (group memberID : string) : string := (group ++ nul ++ memberID)%string.

(** ** Topics *)

Definition normalizeTopic (topic : TopicConfig) : TopicConfig := {|
  tc_Name := tc_Name topic;
  tc_Partitions := if tc_Partitions topic =? 0 then 1 else tc_Partitions topic;
  tc_SegmentMaxBytes :=
    if tc_SegmentMaxBytes topic =? 0 then 16 * 1024 * 1024 else tc_SegmentMaxBytes topic;
  tc_IndexIntervalBytes :=
    if tc_IndexIntervalBytes topic =? 0 then 4 * 1024 else tc_IndexIntervalBytes topic;
  tc_RetentionMaxBytes :=
    if tc_RetentionMaxBytes topic =? 0 then 256 * 1024 * 1024 else tc_RetentionMaxBytes topic;
  tc_CleanupPolicy :=
    if decide (tc_CleanupPolicy topic = "") then TopicCleanupDelete else tc_CleanupPolicy topic;
  tc_MaxMessageBytes :=
    if tc_MaxMessageBytes topic =? 0 then 1024 * 1024 else tc_MaxMessageBytes topic;
  tc_MaxBatchBytes :=
    if tc_MaxBatchBytes topic =? 0 then 8 * 1024 * 1024 else tc_MaxBatchBytes topic;
  tc_RetentionMS := tc_RetentionMS topic;
  tc_RetryPolicy :=
    if trp_MaxAttempts (tc_RetryPolicy topic) =? 0 then DefaultTopicRetryPolicy else tc_RetryPolicy topic;
  tc_DeadLetterTopic := tc_DeadLetterTopic topic;
  tc_DelayEnabled := tc_DelayEnabled topic;
  tc_MessageTTLMS := tc_MessageTTLMS topic;
  tc_MessageExpiryAction :=
    if decide (tc_MessageExpiryAction topic = "") then MessageExpiryDelete else tc_MessageExpiryAction topic;
  tc_CompactionEnabled := tc_CompactionEnabled topic;
  tc_CompactionTombstoneRetentionMS := tc_CompactionTombstoneRetentionMS topic;
  tc_OrderingPolicy := tc_OrderingPolicy topic;
  tc_PriorityPolicy := NormalizeTopicPriorityPolicy (tc_PriorityPolicy topic)
|}.

Fixpoint nextOffsetLoop (next : Z) (rs : list Rec) : Z :=
  match rs with
  | [] => next
  | record :: rest =>
      nextOffsetLoop (if next <=? r_Offset record then u64 (r_Offset record + 1) else next) rest
  end.

Definition nextOffsetFromRecords (rs : list Rec) : Z := nextOffsetLoop 0 rs.

(** [s.records.GetOrDefault(tp, nil)] *)
Definition recordsOf (s : MemoryStore) (tp : TopicPartition) : list Rec :=
  default [] (records s !! tp).

(** [s.nextOffsets.GetOrDefault(tp, nextOffsetFromRecords(records))] *)
Definition nextOffsetOf (s : MemoryStore) (tp : TopicPartition) : Z :=
  default (nextOffsetFromRecords (recordsOf s tp)) (nextOffsets s !! tp).

(** The body of the partition loops of [CreateTopic] and [SaveTopicConfig];
    [initial] is the next offset a partition without one gets. *)
Definition ensurePartition (initial : MemoryStore -> TopicPartition -> Z) (topic : string)
    (s : MemoryStore) (partition : Z) : MemoryStore :=
  let tp := NewTopicPartition topic partition in
  let s := match records s !! tp with
           | Some _ => s
           | None => set_records (<[tp := []]> (records s)) s
           end in
  match nextOffsets s !! tp with
  | Some _ => s
  | None => set_nextOffsets (<[tp := initial s tp]> (nextOffsets s)) s
  end.

Definition CreateTopic (s : MemoryStore) (topic : TopicConfig) : MemoryStore * result Code unit :=
  if decide (tc_Name topic = "") then (s, Err CodeInvalidArgument)
  else if tc_Partitions topic =? 0 then (s, Err CodeInvalidArgument)
  else
    let topic := normalizeTopic topic in
    if decide (tc_Name topic ∈ topicNames s) then (s, Err CodeTopicExists)
    else
      let s := set_topicNames ({[tc_Name topic]} ∪ topicNames s) s in
      let s := set_topics (<[tc_Name topic := topic]> (topics s)) s in
      (foldl (ensurePartition (fun _ _ => 0) (tc_Name topic)) s (seqZ 0 (tc_Partitions topic)), Ok tt).

Definition TopicExists (s : MemoryStore) (topic : string) : result Code bool :=
  Ok (bool_decide (topic ∈ topicNames s)).

Definition SaveTopicConfig (s : MemoryStore) (topic : TopicConfig) : MemoryStore * result Code unit :=
  if decide (tc_Name topic = "") then (s, Err CodeInvalidArgument)
  else
    let topic := normalizeTopic topic in
    let s := set_topicNames ({[tc_Name topic]} ∪ topicNames s) s in
    let s := set_topics (<[tc_Name topic := topic]> (topics s)) s in
    (foldl (ensurePartition (fun s tp => nextOffsetFromRecords (recordsOf s tp)) (tc_Name topic)) s
       (seqZ 0 (tc_Partitions topic)), Ok tt).

Definition LoadTopicConfig (s : MemoryStore) (topic : string) : result Code (option TopicConfig) :=
  Ok (topics s !! topic).

Definition ListTopics `{MapRange} (s : MemoryStore) : result Code (list TopicConfig) :=
  Ok (values (topics s)).

(** ** Appending *)

Definition appendRecordExpiresAt (timestamp : Z) (topic : TopicConfig) (ar : RecordAppend)
    : result Code (option Z) :=
  match ra_ExpiresAtMS ar with
  | Some value => Ok (Some value)
  | None =>
      match tc_MessageTTLMS topic with
      | None => Ok None
      | Some ttl =>
          if max_u64 - ttl <? timestamp then Err CodeInvalidArgument
          else Ok (Some (u64 (timestamp + ttl)))
      end
  end.

Definition recordFromAppend (nowMS offset : Z) (topic : TopicConfig) (ar : RecordAppend)
    : result Code Rec :=
  let timestamp := default nowMS (ra_TimestampMS ar) in
  expiresAt ← appendRecordExpiresAt timestamp topic ar;
  Ok {| r_Offset := offset;
        r_TimestampMS := timestamp;
        r_Key := ra_Key ar;
        r_Headers := ra_Headers ar;
        r_Attributes := ra_Attributes ar;
        r_Transaction := ra_Transaction ar;
        r_ExpiresAtMS := expiresAt;
        r_Payload := ra_Payload ar |}.

Definition AppendRecord (nowMS : Z) (s : MemoryStore) (tp : TopicPartition) (ar : RecordAppend)
    : MemoryStore * result Code Rec :=
  match topics s !! tp_Topic tp with
  | None => (s, Err CodeTopicNotFound)
  | Some topic =>
      if tc_Partitions topic <=? tp_Partition tp then (s, Err CodePartitionNotFound)
      else if tc_MaxMessageBytes topic <? len (ra_Payload ar) then (s, Err CodeInvalidArgument)
      else
        let existing := recordsOf s tp in
        let offset := nextOffsetOf s tp in
        match recordFromAppend nowMS offset topic ar with
        | Err e => (s, Err e)
        | Ok record =>
            let s := set_records (<[tp := existing ++ [record]]> (records s)) s in
            (set_nextOffsets (<[tp := u64 (offset + 1)]> (nextOffsets s)) s, Ok record)
        end
  end.

Definition Append (nowMS : Z) (s : MemoryStore) (tp : TopicPartition) (payload : bytes)
    : MemoryStore * result Code Rec :=
  AppendRecord nowMS s tp (NewRecordAppend payload).

(** [clock i] is what [NowMS()] returns while the [i]-th record is appended.
    A failing record leaves the records before it appended. *)
Fixpoint AppendRecordsBatch (clock : nat -> Z) (s : MemoryStore) (tp : TopicPartition)
    (rs : list RecordAppend) : MemoryStore * result Code (list Rec) :=
  match rs with
  | [] => (s, Ok [])
  | ar :: rest =>
      match AppendRecord (clock 0%nat) s tp ar with
      | (s, Err e) => (s, Err e)
      | (s, Ok appended) =>
          let '(s, out) := AppendRecordsBatch (fun i => clock (S i)) s tp rest in
          (s, match out with Ok out => Ok (appended :: out) | Err e => Err e end)
      end
  end.

(** ** Reading *)

Definition compareOffset (left right : Rec) : comparison :=
  Z.compare (r_Offset left) (r_Offset right).

Definition sortedRecords (rs : list Rec) : list Rec := sort_func compareOffset rs.

Definition validatePartitionLocked (s : MemoryStore) (tp : TopicPartition) : result Code unit :=
  match topics s !! tp_Topic tp with
  | None => Err CodeTopicNotFound
  | Some topic => if tc_Partitions topic <=? tp_Partition tp then Err CodePartitionNotFound else Ok tt
  end.

Fixpoint readFromLoop (offset maxRecords : Z) (out rs : list Rec) : list Rec :=
  match rs with
  | [] => out
  | record :: rest =>
      if r_Offset record <? offset then readFromLoop offset maxRecords out rest
      else
        let out := out ++ [record] in
        if maxRecords <=? len out then out else readFromLoop offset maxRecords out rest
  end.

Definition ReadFrom (s : MemoryStore) (tp : TopicPartition) (offset maxRecords : Z)
    : result Code (list Rec) :=
  if maxRecords <=? 0 then Ok []
  else
    match topics s !! tp_Topic tp with
    | None => Err CodeTopicNotFound
    | Some topic =>
        if tc_Partitions topic <=? tp_Partition tp then Err CodePartitionNotFound
        else Ok (readFromLoop offset maxRecords [] (sortedRecords (recordsOf s tp)))
    end.

Definition PartitionOffsets (s : MemoryStore) (tp : TopicPartition) : result Code PartitionOffsetState :=
  _ ← validatePartitionLocked s tp;
  let rs := sortedRecords (recordsOf s tp) in
  let nextOffset := default (nextOffsetFromRecords rs) (nextOffsets s !! tp) in
  Ok (partitionOffsetsFromRecordOffsets tp nextOffset (recordOffsets rs)).

Definition LastOffset (s : MemoryStore) (tp : TopicPartition) : result Code (option Z) :=
  offsets ← PartitionOffsets s tp;
  Ok (pos_HighWatermark offsets).

(** [strconv.ParseUint(cursor, 10, 64)]: one or more decimal digits, at most
    [2^64 - 1]; leading zeros are accepted, signs and separators are not. *)
Definition digit_val (c : Ascii.ascii) : option Z :=
  let n := Z.of_nat (Ascii.nat_of_ascii c) in
  if (48 <=? n) && (n <=? 57) then Some (n - 48) else None.

Fixpoint parse_digits (acc : Z) (s : string) : option Z :=
  match s with
  | EmptyString => Some acc
  | String c rest =>
      match digit_val c with
      | None => None
      | Some d => parse_digits (10 * acc + d) rest
      end
  end.

Definition ParseUint64 (s : string) : option Z :=
  match s with
  | EmptyString => None
  | _ => match parse_digits 0 s with
         | Some z => if z <=? max_u64 then Some z else None
         | None => None
         end
  end.

Definition parseMemoryRecordPageCursor (cursor : string) : result Code Z :=
  if decide (cursor = "") then Ok 0
  else match ParseUint64 cursor with
       | None => Err CodeInvalidArgument
       | Some offset => Ok offset
       end.

Definition memoryRecordPageNext (s : MemoryStore) (tp : TopicPartition) (rs : list Rec) (maxRecords : Z)
    : result Code (bool * string) :=
  if negb (len rs =? maxRecords) || (maxRecords <=? 0) then Ok (false, ""%string)
  else
    match last rs with
    | None => Ok (false, ""%string)
    | Some final =>
        let next := u64 (r_Offset final + 1) in
        highWatermark ← LastOffset s tp;
        match highWatermark with
        | None => Ok (false, ""%string)
        | Some hw => if hw <? next then Ok (false, ""%string) else Ok (true, fmt_d next)
        end
    end.

Definition ReadPage (s : MemoryStore) (tp : TopicPartition) (cursor : string) (maxRecords : Z)
    : result Code RecordPage :=
  offset ← parseMemoryRecordPageCursor cursor;
  rs ← ReadFrom s tp offset maxRecords;
  '(hasMore, nextCursor) ← memoryRecordPageNext s tp rs maxRecords;
  Ok (mkRecordPage rs nextCursor hasMore).

(** ** Storage accounting ([cleanup.go]) *)

Definition headerBytes (h : RecordHeader) : Z := slen (rh_Key h) + len (rh_Value h) + 8.

Definition RecordStorageBytes (record : Rec) : Z :=
  let total := len (r_Payload record) + len (r_Key record) + 24 in
  let total := match r_ExpiresAtMS record with Some _ => total + 9 | None => total end in
  foldl (fun total header => u64 (total + headerBytes header)) total (r_Headers record).

Definition RecordAppendStorageBytes (record : RecordAppend) : Z :=
  let total := len (ra_Payload record) + len (ra_Key record) + 24 in
  let total := match ra_ExpiresAtMS record with Some _ => total + 9 | None => total end in
  foldl (fun total header => u64 (total + headerBytes header)) total (ra_Headers record).

Definition StorageUsage (s : MemoryStore) (topic : string) : result Code Z :=
  match topics s !! topic with
  | None => Err CodeTopicNotFound
  | Some cfg =>
      Ok (foldl (fun total partition =>
                   foldl (fun total record => u64 (total + RecordStorageBytes record)) total
                     (recordsOf s (NewTopicPartition topic partition)))
            0 (seqZ 0 (tc_Partitions cfg)))
  end.
