(* ===== verification/Cleanup.v ===== *)
(** * Retention and compaction of the in-memory log

    [src/store/cleanup.go] and [src/store/memory_cleanup.go].  The offsets to
    remove are collected in a set that the marking passes extend; the model
    threads the set through them.  The context passed to [EnforceRetention]
    and [Compact] is represented by [cancelled], whether [ctx.Err()] is not
    nil. *)

From stdpp Require Import prelude gmap strings sorting pretty.
From S2P Require Import Prelude Model MemoryStore.

#[local] Open Scope Z_scope.

Record RetentionCleanupResult := mkRetentionCleanupResult {
  rcr_RemovedRecords : Z;
  rcr_DeadLetteredRecords : Z
}.

Record CompactionCleanupResult := mkCompactionCleanupResult {
  ccr_CompactedPartitions : Z;
  ccr_RemovedRecords : Z
}.

(** ** Predicates on records *)

Definition retentionApplies (topic : TopicConfig) : bool :=
  bool_decide (tc_CleanupPolicy topic = TopicCleanupDelete) ||
  bool_decide (tc_CleanupPolicy topic = TopicCleanupCompactAndDelete).

Definition compactionApplies (topic : TopicConfig) : bool :=
  if negb (tc_CompactionEnabled topic) then false
  else bool_decide (tc_CleanupPolicy topic = TopicCleanupCompact) ||
       bool_decide (tc_CleanupPolicy topic = TopicCleanupCompactAndDelete).

Definition recordExpired (record : Rec) (retentionMS nowMS : Z) : bool :=
  if nowMS <? r_TimestampMS record then false
  else retentionMS <=? u64 (nowMS - r_TimestampMS record).

Definition messageExpired (record : Rec) (nowMS : Z) : bool :=
  match r_ExpiresAtMS record with Some expires => expires <=? nowMS | None => false end.

Definition compactedTombstoneExpired (topic : TopicConfig) (record : Rec) (nowMS : Z) : bool :=
  if negb (Rec_IsTombstone record) then false
  else match tc_CompactionTombstoneRetentionMS topic with
       | None => true
       | Some retention => recordExpired record retention nowMS
       end.

Definition saturatingSub (v other : Z) : Z := if v <=? other then 0 else v - other.

(** ** Retention *)

Definition markExpiredMessages (rs : list Rec) (nowMS : Z) (remove : gset Z) : gset Z :=
  foldl (fun remove record =>
           if messageExpired record nowMS then {[r_Offset record]} ∪ remove else remove) remove rs.

Definition markExpiredRecords (topic : TopicConfig) (rs : list Rec) (nowMS : Z) (remove : gset Z) : gset Z :=
  match tc_RetentionMS topic with
  | None => remove
  | Some retention =>
      foldl (fun remove record =>
               if recordExpired record retention nowMS then {[r_Offset record]} ∪ remove else remove)
        remove rs
  end.

Definition retainedRecordBytes (rs : list Rec) (remove : gset Z) : Z * gmap Z Z :=
  foldl (fun '(total, sizes) record =>
           let size := RecordStorageBytes record in
           (if decide (r_Offset record ∈ remove) then total else u64 (total + size),
            <[r_Offset record := size]> sizes))
    (0, ∅) rs.

(** The loop of [removeOldestUntilWithinLimit] over the sorted records. *)
Fixpoint removeOldestLoop (rs : list Rec) (limit total : Z) (sizes : gmap Z Z) (remove : gset Z) : gset Z :=
  match rs with
  | [] => remove
  | record :: rest =>
      if decide (r_Offset record ∈ remove) then removeOldestLoop rest limit total sizes remove
      else
        let remove := {[r_Offset record]} ∪ remove in
        let total := saturatingSub total (default 0 (sizes !! r_Offset record)) in
        if total <=? limit then remove else removeOldestLoop rest limit total sizes remove
  end.

Definition removeOldestUntilWithinLimit (rs : list Rec) (limit total : Z) (sizes : gmap Z Z)
    (remove : gset Z) : gset Z :=
  removeOldestLoop (sortedRecords rs) limit total sizes remove.

Definition markOversizedRecords (topic : TopicConfig) (rs : list Rec) (remove : gset Z) : gset Z :=
  if (tc_RetentionMaxBytes topic =? 0) || (len rs =? 0) then remove
  else
    let '(totalBytes, sizes) := retainedRecordBytes rs remove in
    if totalBytes <=? tc_RetentionMaxBytes topic then remove
    else removeOldestUntilWithinLimit rs (tc_RetentionMaxBytes topic) totalBytes sizes remove.

Definition retentionRemovableOffsets (topic : TopicConfig) (rs : list Rec) (nowMS : Z) : gset Z :=
  let remove := markExpiredMessages rs nowMS ∅ in
  if negb (retentionApplies topic) then remove
  else
    let remove := markExpiredRecords topic rs nowMS remove in
    markOversizedRecords topic rs remove.

(** ** Compaction *)

(** The map is keyed by [string(record.Key)]; the last record of a key wins. *)
Definition latestOffsetByRecordKey (rs : list Rec) : gmap string Z :=
  foldl (fun latest record =>
           if 0 <? len (r_Key record)
           then <[String.string_of_list_byte (r_Key record) := r_Offset record]> latest
           else latest) ∅ rs.

Definition compactedRecordShouldRemove (topic : TopicConfig) (record : Rec) (nowMS : Z)
    (latest : gmap string Z) : bool :=
  if len (r_Key record) =? 0 then false
  else
    let latestOffset :=
      default (r_Offset record) (latest !! String.string_of_list_byte (r_Key record)) in
    negb (latestOffset =? r_Offset record) || compactedTombstoneExpired topic record nowMS.

Definition markCompactedRecords (topic : TopicConfig) (rs : list Rec) (nowMS : Z)
    (latest : gmap string Z) (remove : gset Z) : gset Z :=
  foldl (fun remove record =>
           if compactedRecordShouldRemove topic record nowMS latest
           then {[r_Offset record]} ∪ remove else remove) remove rs.

Definition compactionRemovableOffsetsWithLatest (topic : TopicConfig) (rs : list Rec) (nowMS : Z)
    (latest : gmap string Z) : gset Z :=
  if negb (compactionApplies topic) then ∅ else markCompactedRecords topic rs nowMS latest ∅.

Definition compactionRemovableOffsets (topic : TopicConfig) (rs : list Rec) (nowMS : Z) : gset Z :=
  if negb (compactionApplies topic) then ∅
  else markCompactedRecords topic rs nowMS (latestOffsetByRecordKey rs) ∅.

(** ** The store's maintenance methods *)

Fixpoint filterRemovedRecords (rs : list Rec) (remove : gset Z) : list Rec * Z :=
  match rs with
  | [] => ([], 0)
  | record :: rest =>
      let '(kept, removed) := filterRemovedRecords rest remove in
      if decide (r_Offset record ∈ remove) then (kept, removed + 1) else (record :: kept, removed)
  end.

(** The partitions the loops over [s.topics.Values()] visit, in their order. *)
Definition topicPartitions `{MapRange} (s : MemoryStore) : list (TopicConfig * TopicPartition) :=
  topic ← values (topics s);
  partition ← seqZ 0 (tc_Partitions topic);
  mret (topic, NewTopicPartition (tc_Name topic) partition).

(** One partition: [removable] computes the offsets to drop.  The result says
    how many records went, [None] when [remove.IsEmpty()]. *)
Definition cleanPartition (removable : TopicConfig -> list Rec -> gset Z)
    (s : MemoryStore) (entry : TopicConfig * TopicPartition) : MemoryStore * option Z :=
  let '(topic, tp) := entry in
  let rs := recordsOf s tp in
  let remove := removable topic rs in
  if decide (remove = ∅) then (s, None)
  else
    let '(kept, removed) := filterRemovedRecords rs remove in
    (set_records (<[tp := kept]> (records s)) s, Some removed).

Definition EnforceRetention `{MapRange} (s : MemoryStore) (cancelled : bool) (nowMS : Z)
    : MemoryStore * result Code RetentionCleanupResult :=
  if cancelled then (s, Err CodeUnavailable)
  else
    let '(s, total) :=
      foldl (fun '(s, total) entry =>
               match cleanPartition (fun topic rs => retentionRemovableOffsets topic rs nowMS) s entry with
               | (s, None) => (s, total)
               | (s, Some removed) => (s, total + removed)
               end) (s, 0) (topicPartitions s) in
    (s, Ok (mkRetentionCleanupResult total 0)).

(** [sealedSegmentBatch] is ignored by the in-memory store. *)
Definition Compact `{MapRange} (s : MemoryStore) (cancelled : bool) (nowMS : Z)
    : MemoryStore * result Code CompactionCleanupResult :=
  if cancelled then (s, Err CodeUnavailable)
  else
    let '(s, (parts, total)) :=
      foldl (fun '(s, (parts, total)) entry =>
               match cleanPartition (fun topic rs => compactionRemovableOffsets topic rs nowMS) s entry with
               | (s, None) => (s, (parts, total))
               | (s, Some removed) => (s, (parts + 1, total + removed))
               end) (s, (0, 0)) (topicPartitions s) in
    (s, Ok (mkCompactionCleanupResult parts total)).
