(* ===== verification/LogSpec.v ===== *)
(** * The partition log: invariant, append, read and paging

    The contract of [store.MessageLogStore] as [MemoryStore] implements it:
    offsets of a partition are strictly increasing and never reused, a read
    returns the records from an offset on, and paging visits each record
    once.  [log_step] is one call of a method that changes topics or logs;
    the invariant is proved over every sequence of such calls. *)

From stdpp Require Import prelude gmap strings sorting pretty.
From S2P Require Import Prelude Model MemoryStore Cleanup.

#[local] Open Scope Z_scope.

(** ** Invariant *)

Definition log_ok (rs : list Rec) (next : Z) : Prop :=
  StronglySorted Z.lt (recordOffsets rs) /\ Forall (fun o => 0 <= o < next) (recordOffsets rs).

Record log_inv (s : MemoryStore) : Prop := {
  li_names : topicNames s = dom (topics s);
  li_topic : forall n t, topics s !! n = Some t -> tc_Name t = n /\ tc_Partitions t <> 0;
  li_log : forall tp rs, records s !! tp = Some rs ->
    exists next, nextOffsets s !! tp = Some next /\ log_ok rs next;
  li_next : forall tp next, nextOffsets s !! tp = Some next -> is_u64 next;
  li_alloc : forall n t p, topics s !! n = Some t -> 0 <= p < tc_Partitions t ->
    is_Some (records s !! NewTopicPartition n p)
}.

(** ** Steps of the log *)

Inductive log_step `{MapRange} : MemoryStore -> MemoryStore -> Prop :=
| log_step_create s topic :
    log_step s (CreateTopic s topic).1
| log_step_save s topic :
    log_step s (SaveTopicConfig s topic).1
| log_step_append nowMS s tp ar :
    nextOffsetOf s tp < max_u64 ->
    log_step s (AppendRecord nowMS s tp ar).1
| log_step_retention s cancelled nowMS :
    log_step s (EnforceRetention s cancelled nowMS).1
| log_step_compact s cancelled nowMS :
    log_step s (Compact s cancelled nowMS).1.

Definition log_reachable `{MapRange} (s : MemoryStore) : Prop := rtc log_step NewMemoryStore s.

(** ** Lemmas on the offsets of a log *)

Lemma log_ok_nil next : log_ok [] next.
Proof. split; constructor. Qed.

Lemma log_ok_snoc rs next r :
  log_ok rs next -> 0 <= next -> r_Offset r = next -> log_ok (rs ++ [r]) (next + 1).
Proof.
  intros [Hs Hb] H0 Hr. unfold log_ok, recordOffsets in *. rewrite fmap_app. simpl. split.
  - rewrite Hr. clear Hr H0. induction Hs as [|o os Hs IH Hall]; simpl; [repeat constructor|].
    inversion Hb; subst. constructor; [by apply IH|].
    apply Forall_app; split; [done|]. repeat constructor. lia.
  - apply Forall_app; split.
    + eapply Forall_impl; [exact Hb|]. simpl. lia.
    + repeat constructor; lia.
Qed.

Lemma log_ok_sublist rs rs' next : rs' `sublist_of` rs -> log_ok rs next -> log_ok rs' next.
Proof.
  intros Hsub. induction Hsub as [|r rs' rs Hsub IH|r rs' rs Hsub IH]; [done|..];
    intros [Hs Hb]; unfold recordOffsets in *; simpl in *; inversion Hs; inversion Hb; subst.
  - destruct IH as [Hs' Hb']; [done|]. split; simpl; constructor; try done.
    rewrite Forall_forall in *. intros o Ho. apply list_elem_of_fmap in Ho as (x & -> & Hx).
    match goal with H : forall x, _ -> r_Offset r < x |- _ => apply H end.
    apply list_elem_of_fmap. exists x. split; [done|]. by eapply elem_of_sublist.
  - by apply IH.
Qed.

#[global] Instance compareOffset_order : CmpOrder compareOffset.
Proof. unfold compareOffset. solve_cmp_order. Qed.

Lemma log_ok_rec_lt rs next :
  log_ok rs next -> StronglySorted (fun x y => r_Offset x < r_Offset y) rs.
Proof.
  intros [Hs _]. unfold recordOffsets in Hs. induction rs as [|r rs IH]; [constructor|].
  simpl in Hs. inversion Hs; subst. constructor; [by apply IH|].
  by apply (Forall_fmap r_Offset (Z.lt (r_Offset r))).
Qed.

Lemma log_ok_inj rs next r1 r2 :
  log_ok rs next -> r1 ∈ rs -> r2 ∈ rs -> r_Offset r1 = r_Offset r2 -> r1 = r2.
Proof.
  intros Hok%log_ok_rec_lt. induction Hok as [|r rs Hs IH Hall]; [by intros ?%elem_of_nil|].
  rewrite !elem_of_cons. rewrite Forall_forall in Hall.
  intros [->|H1] [->|H2] Heq; try done; [apply Hall in H2|apply Hall in H1|by apply IH]; lia.
Qed.

(** In a well-formed log the sort of a read is the identity. *)
Lemma sortedRecords_id rs next : log_ok rs next -> sortedRecords rs = rs.
Proof.
  intros Hok. apply sort_func_id; [apply _|..].
  - intros x y Hx Hy E. unfold compareOffset in E. cmp_eq_inv. by eapply log_ok_inj.
  - apply log_ok_rec_lt in Hok. induction Hok as [|r rs Hs IH Hall]; constructor; [done|].
    eapply Forall_impl; [exact Hall|]. intros x Hx. unfold cmp_le, compareOffset. simpl in Hx.
    intros E. rewrite Z.compare_gt_iff in E. lia.
Qed.

Lemma nextOffsetOf_eq s tp next : nextOffsets s !! tp = Some next -> nextOffsetOf s tp = next.
Proof. intros H. unfold nextOffsetOf. by rewrite H. Qed.

Lemma log_inv_recordsOf s tp :
  log_inv s -> log_ok (recordsOf s tp) (nextOffsetOf s tp).
Proof.
  intros Hinv. unfold recordsOf. destruct (records s !! tp) as [rs|] eqn:E; simpl; [|apply log_ok_nil].
  destruct (li_log s Hinv _ _ E) as (next & Hn & Hok). by rewrite (nextOffsetOf_eq _ _ _ Hn).
Qed.

Lemma log_inv_next_u64 s tp : log_inv s -> is_u64 (nextOffsetOf s tp).
Proof.
  intros Hinv. unfold nextOffsetOf. destruct (nextOffsets s !! tp) as [n|] eqn:E; simpl.
  - by apply (li_next s Hinv _ _ E).
  - unfold recordsOf. destruct (records s !! tp) as [rs|] eqn:E'; simpl; [|done].
    destruct (li_log s Hinv _ _ E') as (next & Hn & _). congruence.
Qed.

(** ** Steps that touch one partition *)

(** What every method of the log does to the state it leaves behind, seen
    from one partition: topics may be configured, records may be dropped or
    one record added at the next offset, and the next offset never goes
    back. *)
Lemma ensurePartition_frame initial n s p :
  topics (ensurePartition initial n s p) = topics s /\
  topicNames (ensurePartition initial n s p) = topicNames s.
Proof. unfold ensurePartition. repeat case_match; done. Qed.

Lemma ensurePartition_records initial n s p tp :
  records (ensurePartition initial n s p) !! tp =
    if decide (tp = NewTopicPartition n p)
    then Some (recordsOf s tp) else records s !! tp.
Proof.
  unfold ensurePartition, recordsOf. simpl.
  destruct (records s !! NewTopicPartition n p) as [rs|] eqn:E;
    [|set (s1 := set_records _ s)]; repeat case_match; simpl;
    case_decide as Hd; subst; simplify_map_eq; done.
Qed.

Lemma ensurePartition_next initial n s p tp :
  nextOffsets (ensurePartition initial n s p) !! tp =
    match nextOffsets s !! tp with
    | Some next => Some next
    | None => if decide (tp = NewTopicPartition n p)
              then Some (initial (match records s !! tp with
                                  | Some _ => s
                                  | None => set_records (<[tp := []]> (records s)) s
                                  end) tp)
              else None
    end.
Proof.
  unfold ensurePartition. simpl.
  destruct (records s !! NewTopicPartition n p) as [rs|] eqn:E; simpl;
    destruct (nextOffsets s !! NewTopicPartition n p) as [nx|] eqn:En; simpl;
    case_decide as Hd; subst; simplify_map_eq; try done;
    by destruct (nextOffsets s !! tp).
Qed.

Section EnsurePartitions.
Context (initial : MemoryStore -> TopicPartition -> Z) (n : string).
Hypothesis initial_fresh : forall s tp, recordsOf s tp = [] -> initial s tp = 0.

Lemma foldl_ensure_frame ps s :
  topics (foldl (ensurePartition initial n) s ps) = topics s /\
  topicNames (foldl (ensurePartition initial n) s ps) = topicNames s.
Proof using Type.
  revert s. induction ps as [|p ps IH]; intros s; [done|]. simpl.
  destruct (IH (ensurePartition initial n s p)) as [-> ->]. apply ensurePartition_frame.
Qed.

Lemma foldl_ensure_records ps s tp :
  records (foldl (ensurePartition initial n) s ps) !! tp =
    if decide (tp_Topic tp = n /\ tp_Partition tp ∈ ps)
    then Some (recordsOf s tp) else records s !! tp.
Proof using Type.
  clear initial_fresh. revert s. induction ps as [|p ps IH]; intros s; simpl.
  { case_decide as Hd; [|done]. by destruct Hd as [_ ?%elem_of_nil]. }
  rewrite IH. unfold recordsOf. rewrite ensurePartition_records. destruct tp as [t q]; simpl.
  repeat case_decide; simplify_eq; try done; set_solver.
Qed.

Lemma foldl_ensure_next ps s tp :
  (forall tp, nextOffsets s !! tp = None -> records s !! tp = None) ->
  nextOffsets (foldl (ensurePartition initial n) s ps) !! tp =
    match nextOffsets s !! tp with
    | Some next => Some next
    | None => if decide (tp_Topic tp = n /\ tp_Partition tp ∈ ps) then Some 0 else None
    end.
Proof.
  revert s. induction ps as [|p ps IH]; intros s Hdom; simpl.
  { case_decide as Hd; [by destruct Hd as [_ ?%elem_of_nil]|]. by destruct (nextOffsets s !! tp). }
  assert (forall tp, nextOffsets s !! tp = None ->
    initial (match records s !! tp with
             | Some _ => s | None => set_records (<[tp := []]> (records s)) s end) tp = 0) as Hinit.
  { intros tp' Hn. apply initial_fresh. rewrite (Hdom _ Hn). unfold recordsOf. simpl.
    by rewrite lookup_insert_eq. }
  rewrite IH.
  - rewrite ensurePartition_next. destruct (nextOffsets s !! tp) eqn:E; [done|].
    rewrite Hinit by done. destruct tp as [t q]; simpl.
    repeat case_decide; simplify_eq; try done; set_solver.
  - intros tp'. rewrite ensurePartition_next, ensurePartition_records.
    destruct (nextOffsets s !! tp') eqn:E; [done|].
    destruct (decide (tp' = _)); [intros [=]|]. intros _. by apply Hdom.
Qed.

End EnsurePartitions.

Lemma log_inv_next_None s tp : log_inv s -> nextOffsets s !! tp = None -> records s !! tp = None.
Proof.
  intros Hinv Hn. destruct (records s !! tp) as [rs|] eqn:E; [|done].
  destruct (li_log s Hinv _ _ E) as (? & ? & _). congruence.
Qed.

(** Registering a topic and allocating its partitions keeps the invariant. *)
Lemma put_topic_inv initial s topic :
  (forall s tp, recordsOf s tp = [] -> initial s tp = 0) ->
  tc_Partitions topic <> 0 ->
  log_inv s ->
  let s1 := set_topicNames ({[tc_Name topic]} ∪ topicNames s) s in
  let s2 := set_topics (<[tc_Name topic := topic]> (topics s1)) s1 in
  let s' := foldl (ensurePartition initial (tc_Name topic)) s2 (seqZ 0 (tc_Partitions topic)) in
  log_inv s' /\ (forall tp, nextOffsetOf s' tp = nextOffsetOf s tp) /\
  (forall tp, recordsOf s' tp = recordsOf s tp).
Proof.
  intros Hinit Hp Hinv s1 s2 s'.
  destruct (foldl_ensure_frame initial (tc_Name topic) (seqZ 0 (tc_Partitions topic)) s2) as [Ht Hn].
  pose proof (foldl_ensure_records initial (tc_Name topic) (seqZ 0 (tc_Partitions topic)) s2) as Hr.
  pose proof (fun tp => foldl_ensure_next initial (tc_Name topic) Hinit (seqZ 0 (tc_Partitions topic)) s2 tp
    (fun tp => log_inv_next_None s tp Hinv)) as Hx.
  fold s' in Ht, Hn, Hr, Hx. simpl in Ht, Hn, Hr, Hx.
  assert (forall tp, recordsOf s' tp = recordsOf s tp) as Hrec.
  { intros tp. unfold recordsOf at 1. rewrite Hr. case_decide; done. }
  assert (forall tp, nextOffsetOf s' tp = nextOffsetOf s tp) as Hnext.
  { intros tp. unfold nextOffsetOf. rewrite Hrec, Hx. unfold recordsOf.
    destruct (nextOffsets s !! tp) eqn:E; [done|].
    rewrite (log_inv_next_None s tp Hinv E). simpl. by case_decide. }
  split; [|done]. split.
  - rewrite Ht, Hn, dom_insert_L, (li_names s Hinv). done.
  - intros m t. rewrite Ht. rewrite lookup_insert. case_decide; [|apply (li_topic s Hinv)].
    intros [= <-]. by subst.
  - intros tp rs H. rewrite Hx. rewrite Hr in H.
    destruct (nextOffsets s !! tp) as [nx|] eqn:E.
    + exists nx. split; [done|]. pose proof (log_inv_recordsOf s tp Hinv) as Hok.
      rewrite (nextOffsetOf_eq _ _ _ E) in Hok. unfold recordsOf in *. simpl in H.
      case_decide; simplify_eq; [done|]. by rewrite H in Hok.
    + pose proof (log_inv_next_None s tp Hinv E) as Hnone.
      unfold recordsOf in H. simpl in H. rewrite Hnone in H. case_decide; simplify_eq/=.
      exists 0. split; [done|]. apply log_ok_nil.
  - intros tp nx. rewrite Hx. destruct (nextOffsets s !! tp) eqn:E; intros H.
    + simplify_eq. by apply (li_next s Hinv _ _ E).
    + case_decide; by simplify_eq.
  - intros m t p. rewrite Ht, Hr. simpl. rewrite lookup_insert. case_decide as Hd.
    + intros [= <-] Hp'. rewrite decide_True; [done|]. split; [done|]. apply elem_of_seqZ. lia.
    + intros Hm Hp'. case_decide; [done|]. by apply (li_alloc s Hinv m t).
Qed.

(** ** Appending *)

Lemma recordFromAppend_offset nowMS offset topic ar r :
  recordFromAppend nowMS offset topic ar = Ok r -> r_Offset r = offset.
Proof. unfold recordFromAppend. intros H. by inv_ok. Qed.

Lemma AppendRecord_ok nowMS s s' tp ar r :
  AppendRecord nowMS s tp ar = (s', Ok r) ->
  exists topic,
    topics s !! tp_Topic tp = Some topic /\
    tp_Partition tp < tc_Partitions topic /\
    len (ra_Payload ar) <= tc_MaxMessageBytes topic /\
    recordFromAppend nowMS (nextOffsetOf s tp) topic ar = Ok r /\
    s' = set_nextOffsets (<[tp := u64 (nextOffsetOf s tp + 1)]> (nextOffsets s))
           (set_records (<[tp := recordsOf s tp ++ [r]]> (records s)) s).
Proof.
  unfold AppendRecord. destruct (topics s !! tp_Topic tp) as [topic|] eqn:Et; [|done].
  case_match eqn:Ep; [done|]. case_match eqn:Em; [done|].
  case_match eqn:Er; [|done]. intros [= <- <-]. exists topic. repeat split; try done; lia.
Qed.

Lemma AppendRecord_err nowMS s s' tp ar e :
  AppendRecord nowMS s tp ar = (s', Err e) -> s' = s.
Proof. unfold AppendRecord. intros H. repeat case_match; by simplify_eq. Qed.

Lemma AppendRecord_log nowMS s s' tp ar r tp' :
  AppendRecord nowMS s tp ar = (s', Ok r) ->
  recordsOf s' tp' = (if decide (tp = tp') then recordsOf s tp ++ [r] else recordsOf s tp') /\
  nextOffsetOf s' tp' = (if decide (tp = tp') then u64 (nextOffsetOf s tp + 1) else nextOffsetOf s tp') /\
  topics s' = topics s.
Proof.
  intros (topic & _ & _ & _ & _ & ->)%AppendRecord_ok.
  unfold nextOffsetOf, recordsOf. simpl. case_decide; subst; by simplify_map_eq.
Qed.

Lemma append_next_u64 s tp :
  log_inv s -> nextOffsetOf s tp < max_u64 ->
  u64 (nextOffsetOf s tp + 1) = nextOffsetOf s tp + 1 /\ is_u64 (nextOffsetOf s tp + 1).
Proof.
  intros Hinv Hlt. pose proof (log_inv_next_u64 s tp Hinv) as Hu. unfold is_u64, max_u64 in *.
  split; [apply u64_small; unfold is_u64|]; lia.
Qed.

Lemma AppendRecord_inv nowMS s tp ar :
  log_inv s -> nextOffsetOf s tp < max_u64 ->
  log_inv (AppendRecord nowMS s tp ar).1 /\
  forall tp', nextOffsetOf s tp' <= nextOffsetOf (AppendRecord nowMS s tp ar).1 tp'.
Proof.
  intros Hinv Hlt. destruct (AppendRecord nowMS s tp ar) as [s' [r|e]] eqn:Ea; simpl.
  2:{ apply AppendRecord_err in Ea as ->. split; [done|]. intros tp'. lia. }
  destruct (append_next_u64 s tp Hinv Hlt) as [Hu Hu'].
  pose proof (log_inv_recordsOf s tp Hinv) as Hok. pose proof (log_inv_next_u64 s tp Hinv) as H0.
  split.
  - apply AppendRecord_ok in Ea as (topic & Ht & _ & _ & Hr & ->).
    apply recordFromAppend_offset in Hr. rewrite Hu. split; simpl.
    + apply Hinv.
    + apply Hinv.
    + intros tp' rs. rewrite !lookup_insert. case_decide as Hd; [|apply (li_log s Hinv)].
      intros [= <-]. eexists. split; [done|]. apply log_ok_snoc; [done| |done].
      unfold is_u64 in H0. lia.
    + intros tp' nx. rewrite lookup_insert. case_decide; [|apply (li_next s Hinv)]. by intros [= <-].
    + intros m t p Hm Hp. rewrite lookup_insert. case_decide; [done|]. by apply (li_alloc s Hinv m t).
  - intros tp'. destruct (AppendRecord_log _ _ _ _ _ _ tp' Ea) as (_ & -> & _).
    case_decide; subst; lia.
Qed.

(** ** Cleaning *)

Lemma filterRemovedRecords_sublist rs remove : (filterRemovedRecords rs remove).1 `sublist_of` rs.
Proof.
  induction rs as [|r rs IH]; [done|]. simpl.
  destruct (filterRemovedRecords rs remove) as [kept removed]. simpl in IH.
  case_decide; simpl; by constructor.
Qed.

Lemma filterRemovedRecords_filter rs remove :
  (filterRemovedRecords rs remove).1 = filter (fun r => r_Offset r ∉ remove) rs /\
  (filterRemovedRecords rs remove).2 = len rs - len (filterRemovedRecords rs remove).1.
Proof.
  induction rs as [|r rs [IH1 IH2]]; [done|]. rewrite filter_cons. simpl.
  destruct (filterRemovedRecords rs remove) as [kept removed]. simpl in *.
  repeat case_decide; try tauto; simpl; autorewrite with len; subst; split; try done; lia.
Qed.

Lemma retentionRemovableOffsets_nil topic nowMS : retentionRemovableOffsets topic [] nowMS = ∅.
Proof.
  unfold retentionRemovableOffsets, markOversizedRecords, markExpiredRecords. simpl.
  rewrite orb_true_r. repeat case_match; done.
Qed.

Lemma compactionRemovableOffsets_nil topic nowMS : compactionRemovableOffsets topic [] nowMS = ∅.
Proof. unfold compactionRemovableOffsets. by case_match. Qed.

Section CleanPartition.
Context (removable : TopicConfig -> list Rec -> gset Z).
Hypothesis removable_nil : forall topic, removable topic [] = ∅.

(** What cleaning does to a log: it keeps a sublist of the records and every
    next offset. *)
Definition cleaned (s s' : MemoryStore) : Prop :=
  topics s' = topics s /\ topicNames s' = topicNames s /\ nextOffsets s' = nextOffsets s /\
  forall tp, match records s !! tp with
             | None => records s' !! tp = None
             | Some rs => exists rs', records s' !! tp = Some rs' /\ rs' `sublist_of` rs
             end.

Lemma cleaned_refl s : cleaned s s.
Proof. repeat split. intros tp. case_match; eauto. Qed.

Lemma cleaned_trans s1 s2 s3 : cleaned s1 s2 -> cleaned s2 s3 -> cleaned s1 s3.
Proof.
  intros (Ht & Hn & Hx & H1) (Ht2 & Hn2 & Hx2 & H2). repeat split; try congruence.
  intros tp. specialize (H1 tp). specialize (H2 tp). destruct (records s1 !! tp) as [rs|].
  - destruct H1 as (rs' & E & Hs). rewrite E in H2. destruct H2 as (rs'' & ? & ?).
    exists rs''. split; [done|]. by etrans.
  - by rewrite H1 in H2.
Qed.

Lemma cleanPartition_cleaned s entry : cleaned s (cleanPartition removable s entry).1.
Proof using removable_nil.
  destruct entry as [topic tp]. unfold cleanPartition. case_decide as Hd; [apply cleaned_refl|].
  pose proof (filterRemovedRecords_sublist (recordsOf s tp) (removable topic (recordsOf s tp))) as Hs.
  destruct (filterRemovedRecords _ _) as [kept removed]. simpl in *. repeat split.
  intros tp'. simpl. rewrite lookup_insert. unfold recordsOf in *.
  case_decide; subst; [|case_match; eauto].
  destruct (records s !! tp') as [rs|]; simpl in *; [eauto|]. by rewrite removable_nil in Hd.
Qed.

Lemma cleaned_inv s s' : cleaned s s' -> log_inv s ->
  log_inv s' /\ forall tp, nextOffsetOf s tp = nextOffsetOf s' tp.
Proof.
  intros (Ht & Hn & Hx & Hr) Hinv. split.
  - split; rewrite ?Ht, ?Hn, ?Hx; try apply Hinv.
    + intros tp rs' H. specialize (Hr tp). destruct (records s !! tp) as [rs|] eqn:E; [|congruence].
      destruct Hr as (rs'' & E' & Hs). simplify_eq. destruct (li_log s Hinv _ _ E) as (nx & ? & ?).
      exists nx. split; [done|]. by eapply log_ok_sublist.
    + intros m t p Hm Hp. destruct (li_alloc s Hinv m t p Hm Hp) as [rs E].
      specialize (Hr (NewTopicPartition m p)). rewrite E in Hr. destruct Hr as (? & ? & _). eauto.
  - intros tp. unfold nextOffsetOf, recordsOf. rewrite Hx.
    destruct (nextOffsets s !! tp) eqn:E; [done|]. specialize (Hr tp).
    rewrite (log_inv_next_None s tp Hinv E) in *. by rewrite Hr.
Qed.

End CleanPartition.

Lemma foldl_cleaned {A B} (f : MemoryStore * A -> B -> MemoryStore * A) l s a :
  (forall s a x, cleaned s (f (s, a) x).1) -> cleaned s (foldl f (s, a) l).1.
Proof.
  intros Hf. induction l as [|x l IH] in s, a |- *; simpl; [apply cleaned_refl|].
  specialize (Hf s a x). destruct (f (s, a) x) as [s1 a1]. by eapply cleaned_trans; [|apply IH].
Qed.

Lemma EnforceRetention_cleaned `{MapRange} s cancelled nowMS :
  cleaned s (EnforceRetention s cancelled nowMS).1.
Proof.
  unfold EnforceRetention. destruct cancelled; [apply cleaned_refl|].
  match goal with |- cleaned s (let '(_, _) := foldl ?f ?a ?l in _).1 =>
    pose proof (foldl_cleaned f l a.1 a.2) as Hc; destruct (foldl f a l) as [s' total] eqn:E end.
  simpl in *. rewrite E in Hc. apply Hc. intros s1 n x.
  pose proof (cleanPartition_cleaned (fun topic rs => retentionRemovableOffsets topic rs nowMS)
    (fun t => retentionRemovableOffsets_nil t nowMS) s1 x) as Hx.
  by destruct (cleanPartition _ s1 x) as [s2 [removed|]].
Qed.

Lemma Compact_cleaned `{MapRange} s cancelled nowMS : cleaned s (Compact s cancelled nowMS).1.
Proof.
  unfold Compact. destruct cancelled; [apply cleaned_refl|].
  match goal with |- cleaned s (let '(_, _) := foldl ?f ?a ?l in _).1 =>
    pose proof (foldl_cleaned f l a.1 a.2) as Hc; destruct (foldl f a l) as [s' [parts total]] eqn:E end.
  simpl in *. rewrite E in Hc. apply Hc. intros s1 [n1 n2] x.
  pose proof (cleanPartition_cleaned (fun topic rs => compactionRemovableOffsets topic rs nowMS)
    (fun t => compactionRemovableOffsets_nil t nowMS) s1 x) as Hx.
  by destruct (cleanPartition _ s1 x) as [s2 [removed|]].
Qed.

(** ** Every step keeps the invariant and no next offset goes back *)

Lemma normalizeTopic_facts topic :
  tc_Name (normalizeTopic topic) = tc_Name topic /\ tc_Partitions (normalizeTopic topic) <> 0.
Proof. split; [done|]. simpl. case_match; lia. Qed.

Lemma CreateTopic_inv s topic :
  log_inv s ->
  log_inv (CreateTopic s topic).1 /\
  forall tp, nextOffsetOf (CreateTopic s topic).1 tp = nextOffsetOf s tp /\
             recordsOf (CreateTopic s topic).1 tp = recordsOf s tp.
Proof.
  intros Hinv. assert (log_inv s /\ forall tp, nextOffsetOf s tp = nextOffsetOf s tp /\
    recordsOf s tp = recordsOf s tp) as Hsame by (split; [done|by intros tp]).
  unfold CreateTopic. case_decide; [done|]. case_match; [done|]. case_decide; [done|].
  destruct (put_topic_inv (fun _ _ => 0) s (normalizeTopic topic)) as (Hi & Hnx & Hrs);
    [done|apply normalizeTopic_facts|done|].
  split; [done|]. intros tp. by rewrite <- Hnx, <- Hrs.
Qed.

Lemma SaveTopicConfig_inv s topic :
  log_inv s ->
  log_inv (SaveTopicConfig s topic).1 /\
  forall tp, nextOffsetOf (SaveTopicConfig s topic).1 tp = nextOffsetOf s tp /\
             recordsOf (SaveTopicConfig s topic).1 tp = recordsOf s tp.
Proof.
  intros Hinv. unfold SaveTopicConfig. case_decide; [split; [done|by intros tp]|].
  destruct (put_topic_inv (fun s tp => nextOffsetFromRecords (recordsOf s tp)) s (normalizeTopic topic))
    as (Hi & Hnx & Hrs); [|apply normalizeTopic_facts|done|].
  - intros s' tp ->. done.
  - split; [done|]. intros tp. by rewrite <- Hnx, <- Hrs.
Qed.

Lemma log_inv_empty : log_inv NewMemoryStore.
Proof. split; simpl; try (intros *; rewrite lookup_empty); done. Qed.

Section Reachable.
Context `{MapRange}.

Lemma log_step_inv s s' :
  log_inv s -> log_step s s' ->
  log_inv s' /\ forall tp, nextOffsetOf s tp <= nextOffsetOf s' tp.
Proof.
  intros Hinv Hstep.
  destruct Hstep as [s0 topic|s0 topic|now s0 tp ar Hlt|s0 c now|s0 c now].
  - destruct (CreateTopic_inv s0 topic Hinv) as [? Hn]. split; [done|].
    intros tp. destruct (Hn tp) as [-> _]. lia.
  - destruct (SaveTopicConfig_inv s0 topic Hinv) as [? Hn]. split; [done|].
    intros tp. destruct (Hn tp) as [-> _]. lia.
  - by apply AppendRecord_inv.
  - destruct (cleaned_inv _ _ (EnforceRetention_cleaned s0 c now) Hinv) as [? Hn].
    split; [done|]. intros tp. rewrite Hn. lia.
  - destruct (cleaned_inv _ _ (Compact_cleaned s0 c now) Hinv) as [? Hn].
    split; [done|]. intros tp. rewrite Hn. lia.
Qed.

Lemma log_steps_inv s s' :
  log_inv s -> rtc log_step s s' ->
  log_inv s' /\ forall tp, nextOffsetOf s tp <= nextOffsetOf s' tp.
Proof.
  intros Hinv Hr. induction Hr as [s|s1 s2 s3 Hs Hr IH].
  - split; [done|]. intros. lia.
  - destruct (log_step_inv _ _ Hinv Hs) as [H2 Hn]. destruct (IH H2) as [H3 Hn'].
    split; [done|]. intros tp. specialize (Hn tp). specialize (Hn' tp). lia.
Qed.

(** C1: whatever sequence of topic, append, retention and compaction calls
    built the store, the offsets of every partition log are strictly
    increasing and below its next offset, every partition of a known topic
    has a log, and the name set is the domain of the topic map. *)
Theorem log_reachable_inv s : log_reachable s -> log_inv s.
Proof. intros Hr. by apply (log_steps_inv NewMemoryStore s log_inv_empty). Qed.

(** An offset is never handed out twice for a partition: a record
    appended after any further calls (retention and compaction that may have
    removed the earlier record included) gets a larger offset. *)
Theorem append_offset_never_reused now1 now2 s s1 s2 s3 tp ar1 ar2 r1 r2 :
  log_reachable s ->
  nextOffsetOf s tp < max_u64 ->
  AppendRecord now1 s tp ar1 = (s1, Ok r1) ->
  rtc log_step s1 s2 ->
  AppendRecord now2 s2 tp ar2 = (s3, Ok r2) ->
  r_Offset r1 < r_Offset r2.
Proof.
  intros Hr%log_reachable_inv Hlt Ha Hs Hb.
  pose proof (AppendRecord_inv now1 s tp ar1 Hr Hlt) as [Hinv1 _]. rewrite Ha in Hinv1. simpl in Hinv1.
  destruct (log_steps_inv s1 s2 Hinv1 Hs) as [_ Hn]. specialize (Hn tp).
  destruct (AppendRecord_log _ _ _ _ _ _ tp Ha) as (_ & Hnext & _). rewrite decide_True in Hnext by done.
  destruct (append_next_u64 s tp Hr Hlt) as [Hu _]. rewrite Hu in Hnext.
  apply AppendRecord_ok in Ha as (? & _ & _ & _ & Hr1 & _), Hb as (? & _ & _ & _ & Hr2 & _).
  apply recordFromAppend_offset in Hr1, Hr2. lia.
Qed.

End Reachable.

(** ** Reading *)

Lemma readFromLoop_spec offset maxRecords out rs :
  len out < maxRecords ->
  readFromLoop offset maxRecords out rs =
    out ++ take (Z.to_nat (maxRecords - len out)) (filter (fun r => offset <= r_Offset r) rs).
Proof.
  revert out. induction rs as [|r rs IH]; intros out Hlt; simpl.
  { by rewrite filter_nil, take_nil, app_nil_r. }
  rewrite filter_cons. case_match eqn:E.
  - rewrite decide_False by lia. by apply IH.
  - rewrite decide_True by lia.
    assert (exists k, Z.to_nat (maxRecords - len out) = S k) as [k Hk]
      by (exists (Z.to_nat (maxRecords - len out - 1)); lia).
    rewrite Hk. simpl. case_match eqn:E2; autorewrite with len in E2.
    + assert (k = 0%nat) as -> by lia. done.
    + rewrite IH by (autorewrite with len; lia). rewrite <- app_assoc. simpl.
      do 3 f_equal. autorewrite with len. lia.
Qed.

Lemma validatePartition_eq s tp topic :
  topics s !! tp_Topic tp = Some topic -> tp_Partition tp < tc_Partitions topic ->
  validatePartitionLocked s tp = Ok tt.
Proof. intros E Hp. unfold validatePartitionLocked. rewrite E. case_match; [lia|done]. Qed.

Lemma validatePartition_ok s tp :
  validatePartitionLocked s tp = Ok tt ->
  exists topic, topics s !! tp_Topic tp = Some topic /\ tp_Partition tp < tc_Partitions topic.
Proof.
  unfold validatePartitionLocked. repeat case_match; try done. intros _. eexists. split; [done|]. lia.
Qed.

Lemma PartitionOffsets_ok s tp :
  log_inv s -> validatePartitionLocked s tp = Ok tt ->
  PartitionOffsets s tp =
    Ok (partitionOffsetsFromRecordOffsets tp (nextOffsetOf s tp) (recordOffsets (recordsOf s tp))).
Proof.
  intros Hinv Hv. unfold PartitionOffsets. rewrite Hv. simpl.
  by rewrite (sortedRecords_id _ _ (log_inv_recordsOf s tp Hinv)).
Qed.

(** A read of a known partition: the first [maxRecords] records at or above
    [offset], in offset order. *)
Lemma ReadFrom_ok s tp offset maxRecords :
  log_inv s -> validatePartitionLocked s tp = Ok tt -> 0 < maxRecords ->
  ReadFrom s tp offset maxRecords =
    Ok (take (Z.to_nat maxRecords) (filter (fun r => offset <= r_Offset r) (recordsOf s tp))).
Proof.
  intros Hinv (topic & Et & Hp)%validatePartition_ok Hm. unfold ReadFrom.
  case_match; [lia|]. rewrite Et. case_match; [lia|]. f_equal.
  rewrite (sortedRecords_id _ _ (log_inv_recordsOf s tp Hinv)).
  rewrite readFromLoop_spec by (autorewrite with len; lia). simpl. do 2 f_equal.
  autorewrite with len. lia.
Qed.

Lemma filter_ge_snoc rs next r :
  log_ok rs next -> r_Offset r = next ->
  filter (fun x => next <= r_Offset x) (rs ++ [r]) = [r].
Proof.
  intros [_ Hb] Hr. rewrite filter_app, filter_none.
  - rewrite filter_cons_True by lia. done.
  - apply Forall_fmap in Hb. eapply Forall_impl; [exact Hb|]. simpl. lia.
Qed.

(** What was appended is what is read: after a successful append the
    record carries the appended key, headers, attributes, transaction and
    payload, it is the answer of a one-record read at its offset, it is the
    high watermark, and the records of every other partition are as before. *)
Theorem append_read_roundtrip nowMS s s' tp ar r :
  log_inv s -> nextOffsetOf s tp < max_u64 ->
  AppendRecord nowMS s tp ar = (s', Ok r) ->
  ReadFrom s' tp (r_Offset r) 1 = Ok [r] /\
  LastOffset s' tp = Ok (Some (r_Offset r)) /\
  (r_Key r, r_Headers r, r_Attributes r, r_Transaction r, r_Payload r) =
    (ra_Key ar, ra_Headers ar, ra_Attributes ar, ra_Transaction ar, ra_Payload ar) /\
  r_TimestampMS r = default nowMS (ra_TimestampMS ar) /\
  forall tp', tp' <> tp -> recordsOf s' tp' = recordsOf s tp'.
Proof.
  intros Hinv Hlt Ha. pose proof (AppendRecord_inv nowMS s tp ar Hinv Hlt) as [Hinv' _].
  rewrite Ha in Hinv'. simpl in Hinv'.
  destruct (AppendRecord_log _ _ _ _ _ _ tp Ha) as (Hrec & Hnext & Ht).
  rewrite decide_True in Hrec by done. rewrite decide_True in Hnext by done.
  destruct (append_next_u64 s tp Hinv Hlt) as [Hu _]. rewrite Hu in Hnext.
  pose proof (log_inv_next_u64 s tp Hinv) as H0. unfold is_u64 in H0.
  pose proof Ha as (topic & Et & Hp & _ & Hr & _)%AppendRecord_ok.
  pose proof (recordFromAppend_offset _ _ _ _ _ Hr) as Ho.
  assert (validatePartitionLocked s' tp = Ok tt) as Hv
    by (apply (validatePartition_eq s' tp topic); [by rewrite Ht|done]).
  repeat split.
  - rewrite ReadFrom_ok, Hrec by done.
    rewrite Ho, (filter_ge_snoc _ _ r (log_inv_recordsOf s tp Hinv) Ho). done.
  - unfold LastOffset. rewrite PartitionOffsets_ok by done. simpl. rewrite Hnext.
    case_match; [do 2 f_equal; lia|lia].
  - unfold recordFromAppend in Hr. inv_ok. done.
  - unfold recordFromAppend in Hr. inv_ok. done.
  - intros tp' Hne. destruct (AppendRecord_log _ _ _ _ _ _ tp' Ha) as (-> & _ & _).
    by rewrite decide_False.
Qed.

(** ** Batches *)

Lemma AppendRecordsBatch_spec clock s tp ars s' res :
  log_inv s -> nextOffsetOf s tp + len ars <= max_u64 ->
  AppendRecordsBatch clock s tp ars = (s', res) ->
  exists rs,
    recordsOf s' tp = recordsOf s tp ++ rs /\
    recordOffsets rs = seqZ (nextOffsetOf s tp) (len rs) /\
    nextOffsetOf s' tp = nextOffsetOf s tp + len rs /\
    log_inv s' /\ topics s' = topics s /\
    (forall tp', tp' <> tp -> recordsOf s' tp' = recordsOf s tp' /\ nextOffsetOf s' tp' = nextOffsetOf s tp') /\
    match res with
    | Ok out => out = rs /\ len rs = len ars
    | Err _ => len rs < len ars
    end.
Proof.
  revert clock s s' res. induction ars as [|ar ars IH]; intros clock s s' res Hinv Hroom Hb; simpl in Hb.
  - simplify_eq. exists []. rewrite app_nil_r. autorewrite with len. rewrite Z.add_0_r. done.
  - autorewrite with len in Hroom. pose proof (len_nonneg ars).
    assert (nextOffsetOf s tp < max_u64) as Hlt by lia.
    destruct (AppendRecord_inv (clock 0%nat) s tp ar Hinv Hlt) as [Hinv1 _].
    destruct (AppendRecord (clock 0%nat) s tp ar) as [s1 [r|e]] eqn:Ea; simpl in Hinv1.
    2:{ apply AppendRecord_err in Ea as ->. simplify_eq. exists []. rewrite app_nil_r.
        autorewrite with len. rewrite Z.add_0_r. split_and!; try done; lia. }
    pose proof (fun tp' => AppendRecord_log _ _ _ _ _ _ tp' Ea) as Hlog.
    destruct (Hlog tp) as (Hrec & Hnext & Ht).
    rewrite decide_True in Hrec by done. rewrite decide_True in Hnext by done.
    rewrite (proj1 (append_next_u64 s tp Hinv Hlt)) in Hnext.
    apply AppendRecord_ok in Ea as (? & _ & _ & _ & Ho%recordFromAppend_offset & _).
    destruct (AppendRecordsBatch _ s1 tp ars) as [s2 out] eqn:Eb. simplify_eq.
    destruct (IH _ _ _ _ Hinv1 ltac:(lia) Eb) as (rs & Hr2 & Ho2 & Hn2 & Hi2 & Ht2 & Hf2 & Hres).
    exists (r :: rs). autorewrite with len. rewrite Hr2, Hrec, <- app_assoc, Hn2, Hnext.
    split; [done|]. split.
    { unfold recordOffsets in *. rewrite fmap_cons, Ho2, Hnext, Ho, (seqZ_cons _ (1 + len rs)).
      - do 2 f_equal. lia.
      - pose proof (len_nonneg rs). lia. }
    split; [lia|]. split; [done|]. split; [congruence|]. split.
    { intros tp' Hne. destruct (Hf2 tp' Hne) as [-> ->]. destruct (Hlog tp') as (-> & -> & _).
      by rewrite !decide_False. }
    destruct out; simpl; destruct_and?; subst; [split; [done|lia]|lia].
Qed.

(** A batch gets consecutive offsets starting at the partition's next
    offset, its records are the new end of the log, other partitions are
    untouched; a batch that fails has appended a proper prefix of itself, so
    the log is well formed but the batch is not atomic. *)
Theorem append_batch_contiguous clock s tp ars s' res :
  log_inv s -> nextOffsetOf s tp + len ars <= max_u64 ->
  AppendRecordsBatch clock s tp ars = (s', res) ->
  log_inv s' /\
  exists rs,
    recordsOf s' tp = recordsOf s tp ++ rs /\
    recordOffsets rs = seqZ (nextOffsetOf s tp) (len rs) /\
    (forall tp', tp' <> tp -> recordsOf s' tp' = recordsOf s tp') /\
    match res with Ok out => out = rs /\ len rs = len ars | Err _ => len rs < len ars end.
Proof.
  intros Hinv Hroom Hb.
  destruct (AppendRecordsBatch_spec clock s tp ars s' res Hinv Hroom Hb)
    as (rs & Hr & Ho & _ & Hi & _ & Hf & Hres).
  split; [done|]. exists rs. split_and!; try done. intros tp' Hne. by apply Hf.
Qed.

(** ** Paging *)

Lemma digit_val_pretty x : (x < 10)%N -> digit_val (pretty_N_char x) = Some (Z.of_N x).
Proof.
  intros Hx.
  assert (x = 0 \/ x = 1 \/ x = 2 \/ x = 3 \/ x = 4 \/ x = 5 \/ x = 6 \/ x = 7 \/ x = 8 \/ x = 9)%N
    as Hc by lia.
  by repeat (destruct Hc as [->|Hc]; [done|]); subst.
Qed.

Lemma parse_pretty_N_go x s : parse_digits 0 (pretty_N_go x s) = parse_digits (Z.of_N x) s.
Proof.
  revert s. induction (N.lt_wf_0 x) as [x _ IH]; intros s.
  destruct (decide (x = 0)%N) as [->|Hx]; [done|].
  rewrite pretty_N_go_step by lia. rewrite IH by (apply N.div_lt; lia). simpl.
  rewrite digit_val_pretty by (by apply N.mod_lt). f_equal.
  rewrite (N.div_mod x 10) at 3 by done. lia.
Qed.

Lemma fmt_d_N z : 0 <= z -> fmt_d z = pretty (Z.to_N z).
Proof. intros Hz. unfold fmt_d. by destruct z. Qed.

Lemma pretty_N_go_ne_empty x s : s <> EmptyString -> pretty_N_go x s <> EmptyString.
Proof.
  revert s. induction (N.lt_wf_0 x) as [x _ IH]; intros s Hs.
  destruct (decide (x = 0)%N) as [->|Hx]; [done|].
  rewrite pretty_N_go_step by lia. apply IH; [apply N.div_lt; lia|done].
Qed.

Lemma fmt_d_ne_empty z : 0 <= z -> fmt_d z <> EmptyString.
Proof.
  intros Hz. rewrite fmt_d_N by done. unfold pretty, pretty_N. case_decide; [done|].
  rewrite pretty_N_go_step by lia. by apply pretty_N_go_ne_empty.
Qed.

(** [strconv.ParseUint] reads back what [strconv.FormatUint] prints. *)
Lemma ParseUint64_fmt z : is_u64 z -> ParseUint64 (fmt_d z) = Some z.
Proof.
  intros Hz. unfold is_u64 in Hz. unfold ParseUint64.
  destruct (fmt_d z) as [|c rest] eqn:E; [by apply fmt_d_ne_empty in E; [|lia]|].
  rewrite <- E, fmt_d_N by lia. assert (parse_digits 0 (pretty (Z.to_N z)) = Some z) as ->.
  { unfold pretty, pretty_N. case_decide as Hd; [by assert (z = 0) as -> by lia|].
    rewrite parse_pretty_N_go. simpl. f_equal. lia. }
  unfold max_u64. case_match; [done|lia].
Qed.

(** A client that follows [NextCursor] while [HasMore] holds. *)
Fixpoint readPages (fuel : nat) (s : MemoryStore) (tp : TopicPartition) (cursor : string) (maxRecords : Z)
    : result Code (list (list Rec)) :=
  match fuel with
  | O => Ok []
  | S fuel =>
      page ← ReadPage s tp cursor maxRecords;
      if rp_HasMore page then
        rest ← readPages fuel s tp (rp_NextCursor page) maxRecords;
        Ok (rp_Records page :: rest)
      else Ok [rp_Records page]
  end.

Lemma filter_after_last rs1 rs2 r next :
  log_ok (rs1 ++ r :: rs2) next ->
  filter (fun x => r_Offset r + 1 <= r_Offset x) (rs1 ++ r :: rs2) = rs2.
Proof.
  intros Hok%log_ok_rec_lt. rewrite filter_app, filter_cons_False by lia.
  apply StronglySorted_app in Hok as (H1 & Hs1 & Hs2). inversion Hs2; subst.
  rewrite filter_none, filter_all; [done|..].
  - eapply Forall_impl; [done|]. simpl. lia.
  - apply Forall_forall. intros x Hx. specialize (H1 x r Hx). simpl in H1.
    assert (r_Offset x < r_Offset r) by (apply H1; left). lia.
Qed.

Lemma log_ok_filter rs next (P : Rec -> Prop) `{forall x, Decision (P x)} :
  log_ok rs next -> log_ok (filter P rs) next.
Proof. apply log_ok_sublist. apply sublist_filter. Qed.

Lemma take_drop_last {A} n (l : list A) : (0 < n <= length l)%nat ->
  exists l1 x, take n l = l1 ++ [x] /\ last (take n l) = Some x /\ l = l1 ++ x :: drop n l.
Proof.
  intros Hn. destruct (exists_last (l := take n l)) as (l1 & x & E).
  - intros E%(f_equal length). rewrite length_take in E. simpl in E. lia.
  - exists l1, x. split; [done|]. split; [by rewrite E, last_snoc|].
    rewrite <- (take_drop n l) at 1. by rewrite E, <- app_assoc.
Qed.

(** What is left behind a batch. *)
Lemma from_after s tp offset n l r :
  log_inv s -> let from o := filter (fun r => o <= r_Offset r) (recordsOf s tp) in
  from offset = l ++ r :: drop n (from offset) -> from (r_Offset r + 1) = drop n (from offset).
Proof.
  intros Hinv from EF. pose proof (log_ok_filter _ _ (fun r => offset <= r_Offset r) (log_inv_recordsOf s tp Hinv)) as Hok.
  fold (from offset) in Hok. rewrite EF in Hok. pose proof (filter_after_last _ _ _ _ Hok) as Hrest. rewrite <- EF in Hrest.
  rewrite <- Hrest. unfold from. rewrite list_filter_filter. apply list_filter_iff.
  assert (offset <= r_Offset r) as Hge.
  { assert (r ∈ from offset) as Hin by (rewrite EF; set_solver). by apply list_elem_of_filter in Hin as [? _]. }
  intros x. lia.
Qed.

Section Paging.
Context (s : MemoryStore) (tp : TopicPartition) (maxRecords : Z).
Hypothesis Hinv : log_inv s.
Hypothesis Hvalid : validatePartitionLocked s tp = Ok tt.
Hypothesis Hmax : 0 < maxRecords.

#[local] Abbreviation from offset := (filter (fun r => offset <= r_Offset r) (recordsOf s tp)).

(** One page: a prefix of what is left, and a cursor for exactly the rest. *)
Lemma ReadPage_step cursor offset :
  parseMemoryRecordPageCursor cursor = Ok offset ->
  exists page, ReadPage s tp cursor maxRecords = Ok page /\
    rp_Records page = take (Z.to_nat maxRecords) (from offset) /\
    if rp_HasMore page
    then exists next, parseMemoryRecordPageCursor (rp_NextCursor page) = Ok next /\
           from next = drop (Z.to_nat maxRecords) (from offset) /\ rp_Records page <> []
    else drop (Z.to_nat maxRecords) (from offset) = [].
Proof.
  intros Hc. unfold ReadPage. rewrite Hc. simpl. rewrite ReadFrom_ok by done. simpl.
  pose proof (log_ok_filter _ _ (fun r => offset <= r_Offset r) (log_inv_recordsOf s tp Hinv)) as Hok.
  set (F := from offset) in *. set (n := Z.to_nat maxRecords).
  unfold memoryRecordPageNext.
  destruct (decide (len (take n F) = maxRecords)) as [Hl|Hl].
  2:{ rewrite (proj2 (Z.eqb_neq _ _) Hl). simpl. eexists. split; [done|]. split; [done|]. simpl.
      apply drop_ge. unfold len in Hl. rewrite length_take in Hl. lia. }
  rewrite Hl, Z.eqb_refl, (proj2 (Z.leb_gt _ _) Hmax). simpl.
  unfold len in Hl. rewrite length_take in Hl.
  destruct (take_drop_last n F ltac:(lia)) as (l1 & r & Et & Elast & EF). rewrite Elast.
  unfold LastOffset. rewrite PartitionOffsets_ok by done. simpl.
  pose proof (log_inv_next_u64 s tp Hinv) as Hu. unfold is_u64 in Hu.
  assert (0 <= r_Offset r < nextOffsetOf s tp) as Hr.
  { destruct Hok as [_ Hb%Forall_fmap]. rewrite Forall_forall in Hb. apply (Hb r).
    rewrite EF. set_solver. }
  rewrite u64_small by (unfold is_u64; lia).
  rewrite (proj2 (Z.ltb_lt 0 (nextOffsetOf s tp))) by lia.
  assert (from (r_Offset r + 1) = drop n F) as Hfrom by exact (from_after s tp offset n l1 r Hinv EF).
  case_match eqn:Ehw; eexists; (split; [done|]); (split; [done|]); simpl.
  - rewrite <- Hfrom. apply filter_none. destruct (log_inv_recordsOf s tp Hinv) as [_ Hb%Forall_fmap].
    eapply Forall_impl; [done|]. simpl. lia.
  - exists (r_Offset r + 1). split; [|split; [done|]].
    + unfold parseMemoryRecordPageCursor. rewrite decide_False by (apply fmt_d_ne_empty; lia).
      rewrite ParseUint64_fmt; [done|]. unfold is_u64. lia.
    + rewrite Et. by destruct l1.
Qed.

Lemma readPages_from fuel cursor offset :
  parseMemoryRecordPageCursor cursor = Ok offset ->
  (length (from offset) < fuel)%nat ->
  exists pages, readPages fuel s tp cursor maxRecords = Ok pages /\
    concat pages = from offset /\ Forall (fun page => len page <= maxRecords) pages.
Proof.
  revert cursor offset. induction fuel as [|fuel IH]; intros cursor offset Hc Hf; [lia|]. simpl.
  destruct (ReadPage_step cursor offset Hc) as (page & -> & Hrs & Hnext). simpl.
  assert (len (rp_Records page) <= maxRecords) as Hlen
    by (rewrite Hrs; unfold len; rewrite length_take; lia).
  destruct (rp_HasMore page).
  - destruct Hnext as (next & Hc' & Hd & Hne).
    destruct (IH (rp_NextCursor page) next Hc') as (pages & -> & Hcat & Hall).
    { rewrite Hd, length_drop. assert (length (from offset) <> 0)%nat; [|lia].
      intros E%length_zero_iff_nil. by rewrite Hrs, E, take_nil in Hne. }
    eexists. split; [done|]. simpl. split; [|by constructor].
    by rewrite Hcat, Hd, Hrs, take_drop.
  - eexists. split; [done|]. split; [|repeat constructor; done]. simpl. rewrite app_nil_r, Hrs.
    rewrite <- (take_drop (Z.to_nat maxRecords) (from offset)) at 2. by rewrite Hnext, app_nil_r.
Qed.

End Paging.

(** Following the page cursor from the beginning terminates (one step per
    record is enough) and visits every retained record of the partition
    exactly once, in offset order, in pages of at most [maxRecords]. *)
Theorem paging_visits_all s tp maxRecords fuel :
  log_inv s -> validatePartitionLocked s tp = Ok tt -> 0 < maxRecords ->
  (length (recordsOf s tp) < fuel)%nat ->
  exists pages, readPages fuel s tp "" maxRecords = Ok pages /\
    concat pages = recordsOf s tp /\ Forall (fun page => len page <= maxRecords) pages.
Proof.
  intros Hinv Hv Hm Hf.
  assert (filter (fun r => 0 <= r_Offset r) (recordsOf s tp) = recordsOf s tp) as Hall.
  { apply filter_all. destruct (log_inv_recordsOf s tp Hinv) as [_ Hb%Forall_fmap].
    eapply Forall_impl; [done|]. simpl. lia. }
  destruct (readPages_from s tp maxRecords Hinv Hv Hm fuel "" 0) as (pages & Hp & Hcat & Hlen);
    [done|by rewrite Hall|].
  exists pages. by rewrite <- Hall.
Qed.

(** ** Witnesses: a topic with one partition and two records *)

Definition ex_tp : TopicPartition := NewTopicPartition "orders" 0.
Definition ex_s0 : MemoryStore := (CreateTopic NewMemoryStore (NewTopicConfig "orders")).1.
Definition ex_rec (b : Byte.byte) : RecordAppend := NewRecordAppend [b].
Definition ex_s1 : MemoryStore := (AppendRecord 5 ex_s0 ex_tp (ex_rec Byte.x61)).1.
Definition ex_s2 : MemoryStore := (AppendRecord 6 ex_s1 ex_tp (ex_rec Byte.x62)).1.

Lemma ex_s0_reachable : @log_reachable map_to_list_range ex_s0.
Proof. apply rtc_once, log_step_create. Qed.

Lemma ex_s1_reachable : @log_reachable map_to_list_range ex_s1.
Proof. eapply rtc_r; [apply ex_s0_reachable|]. by apply log_step_append. Qed.

Lemma ex_s2_reachable : @log_reachable map_to_list_range ex_s2.
Proof. eapply rtc_r; [apply ex_s1_reachable|]. by apply log_step_append. Qed.

Lemma ex_inv s : @log_reachable map_to_list_range s -> log_inv s.
Proof. intros Hr. exact (proj1 (@log_steps_inv map_to_list_range _ s log_inv_empty Hr)). Qed.

Lemma log_reachable_inv_witness : log_inv ex_s2.
Proof. apply (@log_reachable_inv map_to_list_range). exact ex_s2_reachable. Defined.

(** The first record expires and is removed by retention before the second
    append. *)
Lemma append_offset_never_reused_witness :
  let ar := mkRecordAppend None [] [] 0 None (Some 10) [Byte.x61] in
  let s1 := (AppendRecord 5 ex_s0 ex_tp ar).1 in
  let s2 := (@EnforceRetention map_to_list_range s1 false 100).1 in
  recordsOf s2 ex_tp = [] /\
  exists s3 r1 r2, AppendRecord 5 ex_s0 ex_tp ar = (s1, Ok r1) /\
    AppendRecord 101 s2 ex_tp (ex_rec Byte.x62) = (s3, Ok r2) /\ r_Offset r1 < r_Offset r2.
Proof.
  intros ar s1 s2. split; [vm_compute; reflexivity|]. eexists _, _, _.
  split; [vm_compute; reflexivity|]. split; [vm_compute; reflexivity|].
  eapply (@append_offset_never_reused map_to_list_range 5 101 ex_s0 s1 s2 _ ex_tp ar (ex_rec Byte.x62));
    [exact ex_s0_reachable|vm_compute; reflexivity|vm_compute; reflexivity| |vm_compute; reflexivity].
  apply rtc_once, log_step_retention.
Defined.

Lemma append_read_roundtrip_witness :
  exists r, ReadFrom ex_s1 ex_tp 0 1 = Ok [r] /\ LastOffset ex_s1 ex_tp = Ok (Some 0).
Proof.
  eexists. edestruct (append_read_roundtrip 5 ex_s0 ex_s1 ex_tp (ex_rec Byte.x61)) as (H1 & H2 & _).
  - apply ex_inv, ex_s0_reachable.
  - vm_compute. reflexivity.
  - vm_compute. reflexivity.
  - split; [exact H1|exact H2].
Defined.

Lemma append_batch_contiguous_witness :
  let b := AppendRecordsBatch (fun _ => 7) ex_s2 ex_tp [ex_rec Byte.x63; ex_rec Byte.x64] in
  log_inv b.1 /\ exists rs, b.2 = Ok rs /\ recordOffsets rs = [2; 3].
Proof.
  intros b.
  destruct (append_batch_contiguous (fun _ => 7) ex_s2 ex_tp [ex_rec Byte.x63; ex_rec Byte.x64] b.1 b.2)
    as (Hinv & rs & _ & Ho & _ & Hres).
  - apply ex_inv, ex_s2_reachable.
  - vm_compute. discriminate.
  - apply surjective_pairing.
  - split; [exact Hinv|]. exists rs. assert (exists out, b.2 = Ok out) as [out E]
      by (eexists; vm_compute; reflexivity).
    rewrite E in Hres. destruct Hres as [-> Hl]. rewrite Hl in Ho. split; [exact E|exact Ho].
Defined.

Lemma paging_visits_all_witness :
  exists p1 p2, readPages 3 ex_s2 ex_tp "" 1 = Ok [p1; p2] /\ p1 ++ p2 = recordsOf ex_s2 ex_tp.
Proof.
  destruct (paging_visits_all ex_s2 ex_tp 1 3) as (pages & Hp & Hc & _).
  - apply ex_inv, ex_s2_reachable.
  - vm_compute. reflexivity.
  - lia.
  - vm_compute. lia.
  - vm_compute in Hp. injection Hp as <-. eexists _, _. split; [vm_compute; reflexivity|].
    simpl in Hc. exact Hc.
Defined.
