(* ===== verification/CleanupSpec.v ===== *)
(** * What retention and compaction keep

    Pure facts about the sets of offsets the two policies compute, then the
    same facts for a whole [EnforceRetention] or [Compact] call on a store. *)

From stdpp Require Import prelude gmap strings sorting pretty.
From S2P Require Import Prelude Model MemoryStore Cleanup LogSpec.

#[local] Open Scope Z_scope.

(** ** Specifications *)

(** The records a cleanup leaves when it removes the offsets of [remove]. *)
Definition survivors (remove : gset Z) (rs : list Rec) : list Rec :=
  filter (fun r => r_Offset r ∉ remove) rs.

Definition totalBytes (rs : list Rec) : Z := foldr (fun r n => RecordStorageBytes r + n) 0 rs.

(** A record that the age rules of its topic drop. *)
Definition aged (topic : TopicConfig) (nowMS : Z) (r : Rec) : bool :=
  messageExpired r nowMS ||
  match tc_RetentionMS topic with Some ms => recordExpired r ms nowMS | None => false end.

(** What a reader that replays a compacted topic knows of a key: the payload
    of its last record, nothing when that record is a tombstone. *)
Definition keyState (key : bytes) (rs : list Rec) : option bytes :=
  match last (filter (fun r => r_Key r = key) rs) with
  | Some r => if Rec_IsTombstone r then None else Some (r_Payload r)
  | None => None
  end.

(** ** The sets the marking passes build *)

Lemma foldl_mark_spec (P : Rec -> bool) rs (remove : gset Z) o :
  o ∈ foldl (fun remove r => if P r then {[r_Offset r]} ∪ remove else remove) remove rs <->
  o ∈ remove \/ exists r, r ∈ rs /\ P r = true /\ r_Offset r = o.
Proof.
  induction rs as [|r rs IH] in remove |- *; simpl.
  - split; [by left|]. intros [?|(r & ?%elem_of_nil & _)]; done.
  - rewrite IH. setoid_rewrite elem_of_cons. destruct (P r) eqn:E; [rewrite elem_of_union, elem_of_singleton|].
    + split.
      * intros [[->|?]|(r' & ? & ? & ?)]; [right; exists r; auto|by left|right; exists r'; auto].
      * intros [?|(r' & [->|?] & ? & <-)]; auto. right. eauto.
    + split.
      * intros [?|(r' & ? & ? & ?)]; [by left|right; exists r'; auto].
      * intros [?|(r' & [->|?] & ? & ?)]; [by left|congruence|right; eauto].
Qed.

Lemma in_log_iff rs next r :
  log_ok rs next -> r ∈ rs -> forall (P : Rec -> bool),
  (exists r', r' ∈ rs /\ P r' = true /\ r_Offset r' = r_Offset r) <-> P r = true.
Proof.
  intros Hok Hr P. split; [|eauto]. intros (r' & Hr' & HP & Ho). by rewrite <- (log_ok_inj _ _ r' r Hok).
Qed.

Lemma aged_marked topic rs next nowMS r :
  log_ok rs next -> r ∈ rs ->
  r_Offset r ∈ markExpiredRecords topic rs nowMS (markExpiredMessages rs nowMS ∅) <->
  aged topic nowMS r = true.
Proof.
  intros Hok Hr. unfold markExpiredRecords, markExpiredMessages, aged.
  assert (r_Offset r ∈ (∅ : gset Z) <-> False) as Hemp by set_solver.
  destruct (tc_RetentionMS topic) as [ms|].
  - rewrite (foldl_mark_spec (fun r => recordExpired r ms nowMS)).
    rewrite (foldl_mark_spec (fun r => messageExpired r nowMS)), Hemp, orb_true_iff.
    rewrite (in_log_iff rs next r Hok Hr (fun r => recordExpired r ms nowMS)).
    rewrite (in_log_iff rs next r Hok Hr (fun r => messageExpired r nowMS)). tauto.
  - rewrite (foldl_mark_spec (fun r => messageExpired r nowMS)), Hemp, orb_false_r.
    rewrite (in_log_iff rs next r Hok Hr (fun r => messageExpired r nowMS)). tauto.
Qed.

Lemma messages_marked rs next nowMS r :
  log_ok rs next -> r ∈ rs ->
  r_Offset r ∈ markExpiredMessages rs nowMS ∅ <-> messageExpired r nowMS = true.
Proof.
  intros Hok Hr. unfold markExpiredMessages. rewrite (foldl_mark_spec (fun r => messageExpired r nowMS)).
  rewrite (in_log_iff rs next r Hok Hr (fun r => messageExpired r nowMS)). set_solver.
Qed.

(** ** Size retention *)

Lemma RecordStorageBytes_nonneg r : 0 <= RecordStorageBytes r.
Proof.
  unfold RecordStorageBytes. set (t := match r_ExpiresAtMS r with Some _ => _ | None => _ end).
  assert (0 <= t) as Ht.
  { unfold t. pose proof (len_nonneg (r_Payload r)). pose proof (len_nonneg (r_Key r)).
    destruct (r_ExpiresAtMS r); lia. }
  clearbody t. induction (r_Headers r) as [|h hs IH] in t, Ht |- *; simpl; [done|].
  apply IH. apply is_u64_u64.
Qed.

Lemma totalBytes_nonneg rs : 0 <= totalBytes rs.
Proof. induction rs as [|r rs IH]; simpl; [done|]. pose proof (RecordStorageBytes_nonneg r). lia. Qed.

Lemma totalBytes_app l1 l2 : totalBytes (l1 ++ l2) = totalBytes l1 + totalBytes l2.
Proof. induction l1 as [|r l1 IH]; simpl; [done|]. lia. Qed.

Lemma survivors_cons remove r rs :
  survivors remove (r :: rs) =
    if decide (r_Offset r ∈ remove) then survivors remove rs else r :: survivors remove rs.
Proof.
  unfold survivors. rewrite filter_cons. repeat case_decide; try done; tauto.
Qed.

Lemma retainedRecordBytes_spec rs next remove :
  log_ok rs next -> totalBytes (survivors remove rs) < 2 ^ 64 ->
  (retainedRecordBytes rs remove).1 = totalBytes (survivors remove rs) /\
  forall r, r ∈ rs -> (retainedRecordBytes rs remove).2 !! r_Offset r = Some (RecordStorageBytes r).
Proof.
  intros Hok Hlt. unfold retainedRecordBytes.
  set (f := fun '(total, sizes) record => _).
  assert (forall l total sizes, 0 <= total ->
    total + totalBytes (survivors remove l) < 2 ^ 64 ->
    (foldl f (total, sizes) l).1 = total + totalBytes (survivors remove l)) as H1.
  { induction l as [|r l IH]; intros total sizes H0 Hb; simpl; [lia|].
    rewrite survivors_cons in *. pose proof (RecordStorageBytes_nonneg r).
    pose proof (totalBytes_nonneg (survivors remove l)).
    case_decide; simpl in Hb |- *; [by apply IH|].
    rewrite u64_small by (unfold is_u64; lia). rewrite IH by lia. lia. }
  assert (forall l total sizes o v, sizes !! o = Some v ->
    (forall r, r ∈ l -> r_Offset r <> o) -> (foldl f (total, sizes) l).2 !! o = Some v) as H2.
  { induction l as [|r l IH]; intros total sizes o v Ho Hne; simpl; [done|].
    apply IH; [|set_solver]. rewrite lookup_insert_ne; [done|]. apply Hne. left. }
  split; [by rewrite H1|].
  clear Hlt H1. generalize 0 as total. generalize (∅ : gmap Z Z) as sizes.
  apply log_ok_rec_lt in Hok. induction Hok as [|r rs Hs IH Hall]; intros sizes total r' Hr'; simpl.
  { by apply elem_of_nil in Hr'. }
  apply elem_of_cons in Hr' as [->|Hr']; [|by apply IH].
  apply H2; [by rewrite lookup_insert_eq|]. rewrite Forall_forall in Hall.
  intros x Hx. specialize (Hall x Hx). simpl in Hall. lia.
Qed.

Lemma survivors_union_skip o remove rs :
  (forall r, r ∈ rs -> r_Offset r <> o) -> survivors ({[o]} ∪ remove) rs = survivors remove rs.
Proof.
  intros Hne. unfold survivors. induction rs as [|r rs IH]; [done|]. rewrite !filter_cons.
  rewrite IH by set_solver. specialize (Hne r ltac:(left)). repeat case_decide; try done; set_solver.
Qed.

(** The loop drops live records oldest first and stops at the first point
    where what is left fits the limit. *)
Lemma removeOldestLoop_spec rs limit total sizes remove :
  StronglySorted (fun x y => r_Offset x < r_Offset y) rs ->
  (forall r, r ∈ rs -> sizes !! r_Offset r = Some (RecordStorageBytes r)) ->
  total = totalBytes (survivors remove rs) -> 0 <= limit < total ->
  exists dropped final,
    survivors remove rs =
      dropped ++ final :: survivors (removeOldestLoop rs limit total sizes remove) rs /\
    totalBytes (survivors (removeOldestLoop rs limit total sizes remove) rs) <= limit /\
    limit < RecordStorageBytes final +
            totalBytes (survivors (removeOldestLoop rs limit total sizes remove) rs) /\
    forall o, o ∈ remove -> o ∈ removeOldestLoop rs limit total sizes remove.
Proof.
  intros Hs. revert total remove. induction Hs as [|r rs Hs IH Hall]; intros total remove Hsz Ht Hlim.
  { simpl in Ht. lia. }
  simpl. rewrite Forall_forall in Hall.
  assert (forall x, x ∈ rs -> r_Offset x <> r_Offset r) as Hne.
  { intros x Hx. specialize (Hall x Hx). simpl in Hall. lia. }
  rewrite survivors_cons in *. case_decide as Hd.
  - destruct (IH total remove) as (dr & fin & H1 & H2 & H3 & H4); [set_solver|done|done|].
    exists dr, fin. rewrite survivors_cons, decide_True by auto. done.
  - rewrite (Hsz r) by left. simpl. simpl in Ht.
    pose proof (RecordStorageBytes_nonneg r). pose proof (totalBytes_nonneg (survivors remove rs)).
    assert (saturatingSub total (RecordStorageBytes r) = totalBytes (survivors remove rs)) as Hsub.
    { unfold saturatingSub. case_match; lia. }
    rewrite Hsub. pose proof (survivors_union_skip (r_Offset r) remove rs Hne) as Hskip.
    case_match eqn:Ele.
    + exists [], r. rewrite survivors_cons, decide_True, Hskip by set_solver.
      split; [done|]. split; [lia|]. split; [lia|]. set_solver.
    + destruct (IH (totalBytes (survivors remove rs)) ({[r_Offset r]} ∪ remove))
        as (dr & fin & H1 & H2 & H3 & H4); [set_solver|by rewrite Hskip|lia|].
      exists (r :: dr), fin. rewrite survivors_cons, decide_True by (apply H4; set_solver).
      rewrite Hskip in H1. rewrite H1 at 1. split; [done|]. split; [done|]. split; [done|].
      set_solver.
Qed.

Lemma survivors_aged topic rs next nowMS :
  log_ok rs next ->
  survivors (markExpiredRecords topic rs nowMS (markExpiredMessages rs nowMS ∅)) rs =
  filter (fun r => aged topic nowMS r = false) rs.
Proof.
  intros Hok. unfold survivors.
  assert (forall l : list Rec, (forall r, r ∈ l -> r ∈ rs) ->
    filter (fun r => r_Offset r ∉ markExpiredRecords topic rs nowMS (markExpiredMessages rs nowMS ∅)) l =
    filter (fun r => aged topic nowMS r = false) l) as Hl; [|by apply Hl].
  induction l as [|r l IH]; intros Hin; [done|]. rewrite !filter_cons, IH by set_solver.
  pose proof (aged_marked topic rs next nowMS r Hok ltac:(set_solver)) as Hiff.
  repeat case_decide; try done; destruct (aged topic nowMS r); naive_solver.
Qed.

(** C6: time and size retention of one partition.  The retained records are a
    suffix, in order, of the records that are not past their age limits; they
    fit [retention_max_bytes]; and when the size rule dropped anything, the
    newest dropped record would not have fitted. *)
Theorem retention_keeps_newest_that_fit topic rs next nowMS :
  log_ok rs next -> retentionApplies topic = true -> 0 < tc_RetentionMaxBytes topic ->
  totalBytes rs < 2 ^ 64 ->
  let kept := survivors (retentionRemovableOffsets topic rs nowMS) rs in
  exists dropped,
    filter (fun r => aged topic nowMS r = false) rs = dropped ++ kept /\
    totalBytes kept <= tc_RetentionMaxBytes topic /\
    match last dropped with
    | Some final => tc_RetentionMaxBytes topic < RecordStorageBytes final + totalBytes kept
    | None => True
    end.
Proof.
  intros Hok Hra Hmax Hlt kept. unfold kept, retentionRemovableOffsets. rewrite Hra. simpl.
  rewrite <- (survivors_aged topic rs next nowMS Hok).
  set (R := markExpiredRecords _ _ _ _). clearbody R. unfold markOversizedRecords.
  assert (totalBytes (survivors R rs) <= totalBytes rs) as Hle.
  { clear. induction rs as [|r rs IH]; [done|]. rewrite survivors_cons. simpl.
    pose proof (RecordStorageBytes_nonneg r). case_decide; simpl; lia. }
  case_match eqn:E0.
  { exists []. split; [done|]. split; [|done]. apply orb_true_iff in E0 as [E0%Z.eqb_eq|E0%Z.eqb_eq]; [lia|].
    assert (rs = []) as -> by (destruct rs; [done|]; autorewrite with len in E0; pose proof (len_nonneg rs); lia).
    simpl. lia. }
  destruct (retainedRecordBytes_spec rs next R Hok ltac:(lia)) as [Htot Hsz].
  destruct (retainedRecordBytes rs R) as [total sizes]. simpl in Htot, Hsz.
  case_match eqn:El; [exists []; split; [done|]; split; [lia|done]|].
  unfold removeOldestUntilWithinLimit. rewrite (sortedRecords_id _ _ Hok).
  destruct (removeOldestLoop_spec rs (tc_RetentionMaxBytes topic) total sizes R)
    as (dr & fin & H1 & H2 & H3 & _); [by eapply log_ok_rec_lt|done|done|lia|].
  exists (dr ++ [fin]). rewrite last_snoc, <- app_assoc. simpl. done.
Qed.

(** ** Compaction *)

#[global] Instance string_of_list_byte_inj : Inj (=) (=) String.string_of_list_byte.
Proof.
  intros x y E. rewrite <- (String.list_byte_of_string_of_list_byte x), E.
  apply String.list_byte_of_string_of_list_byte.
Qed.

(** The last record of a key. *)
Definition lastOfKey (key : bytes) (rs : list Rec) : option Rec :=
  last (filter (fun r => r_Key r = key) rs).

Lemma len_zero_nil {A} (l : list A) : len l = 0 <-> l = [].
Proof. unfold len. destruct l; simpl; split; try done; lia. Qed.

Lemma latestOffsetByRecordKey_spec rs key :
  key <> [] ->
  latestOffsetByRecordKey rs !! String.string_of_list_byte key = r_Offset <$> lastOfKey key rs.
Proof.
  intros Hk. unfold latestOffsetByRecordKey, lastOfKey.
  induction rs as [|r rs IH] using rev_ind; [done|].
  rewrite foldl_snoc, filter_app, filter_cons, filter_nil. case_match eqn:E.
  - rewrite lookup_insert. case_decide as Hd.
    + apply (inj String.string_of_list_byte) in Hd as ->. rewrite decide_True by done.
      by rewrite last_snoc.
    + rewrite decide_False by congruence. by rewrite app_nil_r.
  - assert (r_Key r = []) as Hnil.
    { apply len_zero_nil. pose proof (len_nonneg (r_Key r)). lia. }
    rewrite decide_False by congruence. by rewrite app_nil_r.
Qed.

Lemma lastOfKey_elem key rs r : lastOfKey key rs = Some r -> r ∈ rs /\ r_Key r = key.
Proof.
  unfold lastOfKey. intros Hl%last_Some_elem_of. apply list_elem_of_filter in Hl. tauto.
Qed.

Section Compaction.
Context (topic : TopicConfig) (rs : list Rec) (next nowMS : Z).
Hypothesis Hok : log_ok rs next.
Hypothesis Happ : compactionApplies topic = true.

Lemma compaction_marked r :
  r ∈ rs ->
  r_Offset r ∈ compactionRemovableOffsets topic rs nowMS <->
  r_Key r <> [] /\ (lastOfKey (r_Key r) rs <> Some r \/ compactedTombstoneExpired topic r nowMS = true).
Proof.
  intros Hr. unfold compactionRemovableOffsets, markCompactedRecords. rewrite Happ. simpl.
  rewrite (foldl_mark_spec (fun r => compactedRecordShouldRemove topic r nowMS (latestOffsetByRecordKey rs))).
  rewrite (in_log_iff rs next r Hok Hr
    (fun r => compactedRecordShouldRemove topic r nowMS (latestOffsetByRecordKey rs))).
  rewrite elem_of_empty, (left_id False or). unfold compactedRecordShouldRemove.
  destruct (len (r_Key r) =? 0) eqn:E.
  - apply Z.eqb_eq, len_zero_nil in E. naive_solver.
  - apply Z.eqb_neq in E. rewrite len_zero_nil in E.
    rewrite latestOffsetByRecordKey_spec, orb_true_iff, negb_true_iff, Z.eqb_neq by done.
    destruct (lastOfKey (r_Key r) rs) as [r'|] eqn:El; simpl.
    + apply lastOfKey_elem in El as [Hr' _].
      assert (r_Offset r' <> r_Offset r <-> Some r' <> Some r) as ->; [|tauto].
      split; [naive_solver|]. intros Hne Ho. by rewrite (log_ok_inj _ _ _ _ Hok Hr' Hr Ho) in Hne.
    + apply last_None in El. assert (r ∈ filter (fun x => r_Key x = r_Key r) rs) as Hin
        by (by apply list_elem_of_filter).
      rewrite El in Hin. by apply elem_of_nil in Hin.
Qed.

Lemma compaction_keyState key :
  key <> [] ->
  keyState key (survivors (compactionRemovableOffsets topic rs nowMS) rs) = keyState key rs.
Proof.
  intros Hk. unfold keyState, survivors. rewrite list_filter_filter.
  rewrite (list_filter_iff _ (fun x => (r_Offset x ∉ compactionRemovableOffsets topic rs nowMS) /\ r_Key x = key))
    by tauto.
  rewrite <- list_filter_filter. fold (lastOfKey key rs).
  pose proof (log_ok_filter _ _ (fun r => r_Key r = key) Hok) as Hokf.
  assert (forall x, x ∈ filter (fun r => r_Key r = key) rs -> x ∈ rs /\ r_Key x = key) as Hin
    by (intros x; rewrite list_elem_of_filter; tauto).
  unfold lastOfKey. set (L := filter (fun r => r_Key r = key) rs) in *.
  assert (last L = lastOfKey key rs) as Hlast by done. clearbody L.
  destruct L as [|r L _] using rev_ind; [done|]. rewrite last_snoc in *.
  destruct (Hin r ltac:(set_solver)) as [Hr Hrk].
  rewrite filter_app, filter_none, filter_cons, filter_nil.
  - pose proof (compaction_marked r Hr) as Hm. rewrite Hrk, <- Hlast in Hm.
    case_decide as Hd; [done|]. simpl.
    assert (compactedTombstoneExpired topic r nowMS = true) as Ht.
    { destruct (decide (r_Offset r ∈ compactionRemovableOffsets topic rs nowMS)); naive_solver. }
    unfold compactedTombstoneExpired in Ht. by destruct (Rec_IsTombstone r).
  - apply Forall_forall. intros x Hx. destruct (Hin x ltac:(set_solver)) as [Hxr Hxk].
    intros Hnot. apply Hnot. apply compaction_marked; [done|]. rewrite Hxk. split; [done|]. left.
    rewrite <- Hlast. intros [= ->]. apply log_ok_rec_lt in Hokf.
    pose proof (StronglySorted_app_1_elem_of _ _ _ x x Hokf Hx ltac:(set_solver)) as Hl.
    simpl in Hl. lia.
Qed.

End Compaction.

(** C7: compaction of one partition.  It keeps, in order, exactly the records
    without a key and the last record of every key, the latter unless it is a
    tombstone past its retention; so a reader that replays the log learns the
    same value for every key as before. *)
Theorem compaction_keeps_latest topic rs next nowMS :
  log_ok rs next -> compactionApplies topic = true ->
  let kept := survivors (compactionRemovableOffsets topic rs nowMS) rs in
  kept `sublist_of` rs /\
  (forall r, r ∈ kept <->
     r ∈ rs /\ (r_Key r = [] \/
                lastOfKey (r_Key r) rs = Some r /\ compactedTombstoneExpired topic r nowMS = false)) /\
  (forall key, key <> [] -> keyState key kept = keyState key rs).
Proof.
  intros Hok Happ kept. split; [apply sublist_filter|]. split.
  - intros r. unfold kept, survivors. rewrite list_elem_of_filter.
    split.
    + intros [Hn Hr]. rewrite (compaction_marked topic rs next nowMS Hok Happ r Hr) in Hn.
      split; [done|]. destruct (decide (r_Key r = [])); [by left|right].
      destruct (compactedTombstoneExpired topic r nowMS); [naive_solver|].
      destruct (decide (lastOfKey (r_Key r) rs = Some r)); naive_solver.
    + intros [Hr Hc]. split; [|done].
      rewrite (compaction_marked topic rs next nowMS Hok Happ r Hr). naive_solver congruence.
  - intros key. by apply (compaction_keyState topic rs next nowMS Hok Happ).
Qed.

(** ** Whole-store maintenance *)

Section CleanStore.
Context (removable : TopicConfig -> list Rec -> gset Z).

Lemma cleanPartition_records s topic tp tp' :
  recordsOf (cleanPartition removable s (topic, tp)).1 tp' =
    if decide (tp' = tp) then survivors (removable topic (recordsOf s tp)) (recordsOf s tp)
    else recordsOf s tp'.
Proof.
  unfold cleanPartition. case_decide as He.
  - simpl. case_decide; subst; [|done]. rewrite He. unfold survivors. rewrite filter_all; [done|].
    apply Forall_forall. set_solver.
  - destruct (filterRemovedRecords_filter (recordsOf s tp) (removable topic (recordsOf s tp))) as [Hk _].
    destruct (filterRemovedRecords _ _) as [kept removed]. simpl in *. unfold recordsOf at 1. simpl.
    rewrite lookup_insert. repeat case_decide; subst; try done.
Qed.

Lemma foldl_clean_records l s :
  NoDup l.*2 ->
  let s' := foldl (fun s e => (cleanPartition removable s e).1) s l in
  (forall topic tp, (topic, tp) ∈ l ->
     recordsOf s' tp = survivors (removable topic (recordsOf s tp)) (recordsOf s tp)) /\
  (forall tp, tp ∉ l.*2 -> recordsOf s' tp = recordsOf s tp).
Proof.
  induction l as [|[topic tp] l IH] in s |- *; intros Hnd; cbn [foldl].
  { split; [intros ? ? ?%elem_of_nil; done|done]. }
  rewrite fmap_cons in *. apply NoDup_cons in Hnd as [Hni Hnd]. destruct (IH (cleanPartition removable s (topic, tp)).1 Hnd) as [H1 H2].
  assert (forall t p, (t, p) ∈ l -> p <> tp) as Hne.
  { intros t p Hin ->. apply Hni. apply list_elem_of_fmap. by exists (t, tp). }
  split.
  - intros topic' tp' [[= -> ->]|Hin]%elem_of_cons.
    + rewrite H2 by done. rewrite cleanPartition_records. by rewrite decide_True.
    + rewrite (H1 _ _ Hin), cleanPartition_records, decide_False by (by eapply Hne). done.
  - intros tp' Hni'. rewrite elem_of_cons in Hni'.
    rewrite H2 by tauto. rewrite cleanPartition_records, decide_False; [done|tauto].
Qed.

End CleanStore.

Section Store.
Context `{MapRange} (s : MemoryStore).
Hypothesis Hinv : log_inv s.

Lemma elem_of_topicPartitions topic tp :
  (topic, tp) ∈ topicPartitions s <->
  topics s !! tp_Topic tp = Some topic /\ 0 <= tp_Partition tp < tc_Partitions topic.
Proof.
  unfold topicPartitions. rewrite list_elem_of_bind. setoid_rewrite list_elem_of_bind.
  setoid_rewrite elem_of_values. setoid_rewrite elem_of_seqZ. setoid_rewrite list_elem_of_ret. split.
  - intros (t & (p & [= -> ->] & Hp) & (k & Hk)). simpl. destruct (li_topic s Hinv _ _ Hk) as [-> _].
    split; [done|lia].
  - intros [Ht Hp]. exists topic. split; [|by eexists]. exists (tp_Partition tp). split; [|lia].
    destruct (li_topic s Hinv _ _ Ht) as [-> _]. by destruct tp.
Qed.

Lemma NoDup_values_topics : NoDup (values (topics s)).
Proof.
  apply (NoDup_fmap_1 tc_Name). unfold values. rewrite <- list_fmap_compose.
  rewrite (list_fmap_ext _ fst (range (topics s))); [apply NoDup_keys|].
  intros i [k t] Hi. simpl. apply list_elem_of_lookup_2, elem_of_range in Hi.
  by apply (li_topic s Hinv).
Qed.

Lemma NoDup_topicPartitions : NoDup (topicPartitions s).*2.
Proof.
  apply NoDup_fmap_2_strong.
  - intros [t1 p1] [t2 p2] [H1 _]%elem_of_topicPartitions [H2 _]%elem_of_topicPartitions. simpl.
    intros ->. congruence.
  - unfold topicPartitions. apply NoDup_bind; [|intros t _; apply NoDup_bind|apply NoDup_values_topics].
    + intros t1 t2 y _ _ (p1 & ->%list_elem_of_ret & _)%list_elem_of_bind
        (p2 & E%list_elem_of_ret & _)%list_elem_of_bind. congruence.
    + intros p1 p2 y _ _ ->%list_elem_of_ret E%list_elem_of_ret. congruence.
    + intros p _. apply NoDup_singleton.
    + apply NoDup_seqZ.
Qed.

Lemma EnforceRetention_fold nowMS :
  (EnforceRetention s false nowMS).1 =
  foldl (fun s e => (cleanPartition (fun t rs => retentionRemovableOffsets t rs nowMS) s e).1) s
    (topicPartitions s).
Proof using Type.
  clear Hinv. unfold EnforceRetention. generalize (topicPartitions s) as l. intros l.
  set (f := fun '(s, total) entry => _).
  assert (forall n, (foldl f (s, n) l).1 =
    foldl (fun s e => (cleanPartition (fun t rs => retentionRemovableOffsets t rs nowMS) s e).1) s l) as Hf.
  { induction l as [|e l IH] in s |- *; intros n; cbn [foldl]; [done|]. unfold f at 2.
    destruct (cleanPartition _ s e) as [s1 [k|]]; simpl; apply IH. }
  specialize (Hf 0). by destruct (foldl f (s, 0) l).
Qed.

Lemma Compact_fold nowMS :
  (Compact s false nowMS).1 =
  foldl (fun s e => (cleanPartition (fun t rs => compactionRemovableOffsets t rs nowMS) s e).1) s
    (topicPartitions s).
Proof using Type.
  clear Hinv. unfold Compact. generalize (topicPartitions s) as l. intros l.
  set (f := fun '(s, (parts, total)) entry => _).
  assert (forall n, (foldl f (s, n) l).1 =
    foldl (fun s e => (cleanPartition (fun t rs => compactionRemovableOffsets t rs nowMS) s e).1) s l) as Hf.
  { induction l as [|e l IH] in s |- *; intros [n1 n2]; cbn [foldl]; [done|]. unfold f at 2.
    destruct (cleanPartition _ s e) as [s1 [k|]]; simpl; apply IH. }
  specialize (Hf (0, 0)). by destruct (foldl f (s, (0, 0)) l) as [? [? ?]].
Qed.

End Store.

(** One maintenance call cleans every partition of every topic by its
    own topic's policy, whatever the order in which the topic map is visited:
    the records left in a partition are the survivors of that partition's own
    removable offsets, unaffected by the cleaning of the others. *)
Theorem maintenance_cleans_every_partition `{MapRange} s nowMS tp topic :
  log_inv s -> topics s !! tp_Topic tp = Some topic -> 0 <= tp_Partition tp < tc_Partitions topic ->
  let rs := recordsOf s tp in
  recordsOf (EnforceRetention s false nowMS).1 tp = survivors (retentionRemovableOffsets topic rs nowMS) rs /\
  recordsOf (Compact s false nowMS).1 tp = survivors (compactionRemovableOffsets topic rs nowMS) rs.
Proof.
  intros Hinv Ht Hp rs.
  assert ((topic, tp) ∈ topicPartitions s) as Hin by (by apply elem_of_topicPartitions).
  pose proof (NoDup_topicPartitions s Hinv) as Hnd.
  rewrite EnforceRetention_fold, Compact_fold. split.
  - by apply (proj1 (foldl_clean_records (fun t rs => retentionRemovableOffsets t rs nowMS) _ s Hnd)).
  - by apply (proj1 (foldl_clean_records (fun t rs => compactionRemovableOffsets t rs nowMS) _ s Hnd)).
Qed.

(** ** Witnesses *)

Definition ex_topic : TopicConfig := {|
  tc_Name := "orders"; tc_Partitions := 1; tc_SegmentMaxBytes := 1; tc_IndexIntervalBytes := 1;
  tc_RetentionMaxBytes := 30; tc_CleanupPolicy := TopicCleanupCompactAndDelete;
  tc_MaxMessageBytes := 100; tc_MaxBatchBytes := 100; tc_RetentionMS := Some 50;
  tc_RetryPolicy := DefaultTopicRetryPolicy; tc_DeadLetterTopic := None; tc_DelayEnabled := false;
  tc_MessageTTLMS := None; tc_MessageExpiryAction := MessageExpiryDelete; tc_CompactionEnabled := true;
  tc_CompactionTombstoneRetentionMS := None; tc_OrderingPolicy := TopicOrderingNone;
  tc_PriorityPolicy := mkTopicPriorityPolicy false 0 0 0 |}.

Definition ex_log : list Rec := [
  mkRec 0 10 [Byte.x6b] [] 0 None None [Byte.x31];
  mkRec 1 70 [] [] 0 None None [Byte.x32];
  mkRec 2 80 [Byte.x6b] [] 0 None None [Byte.x33]].

Lemma ex_log_ok : log_ok ex_log 3.
Proof. split; repeat constructor; simpl; lia. Qed.

(** Record 0 is too old, record 1 is dropped for size. *)
Lemma retention_keeps_newest_that_fit_witness :
  exists dropped kept, filter (fun r => aged ex_topic 100 r = false) ex_log = dropped ++ kept /\
    r_Offset <$> dropped = [1] /\ r_Offset <$> kept = [2] /\ totalBytes kept <= 30.
Proof.
  destruct (retention_keeps_newest_that_fit ex_topic ex_log 3 100) as (dropped & H1 & H2 & _).
  - exact ex_log_ok.
  - vm_compute. reflexivity.
  - vm_compute. reflexivity.
  - vm_compute. reflexivity.
  - exists dropped, (survivors (retentionRemovableOffsets ex_topic ex_log 100) ex_log).
    split; [exact H1|]. split; [|split; [vm_compute; reflexivity|exact H2]].
    vm_compute in H1. destruct dropped as [|d1 [|d2 [|d3 dropped]]]; try discriminate H1.
    injection H1 as <-. reflexivity.
Defined.

Lemma compaction_keeps_latest_witness :
  keyState [Byte.x6b] (survivors (compactionRemovableOffsets ex_topic ex_log 100) ex_log) = Some [Byte.x33] /\
  r_Offset <$> survivors (compactionRemovableOffsets ex_topic ex_log 100) ex_log = [1; 2].
Proof.
  destruct (compaction_keeps_latest ex_topic ex_log 3 100) as (_ & _ & Hk).
  - exact ex_log_ok.
  - vm_compute. reflexivity.
  - split; [|vm_compute; reflexivity]. rewrite Hk by discriminate. vm_compute. reflexivity.
Defined.

Lemma maintenance_cleans_every_partition_witness :
  recordsOf (@EnforceRetention map_to_list_range ex_s2 false 100).1 ex_tp = recordsOf ex_s2 ex_tp.
Proof.
  edestruct (@maintenance_cleans_every_partition map_to_list_range ex_s2 100 ex_tp) as [H1 _].
  - apply ex_inv, ex_s2_reachable.
  - vm_compute. reflexivity.
  - vm_compute. split; [discriminate|reflexivity].
  - rewrite H1. vm_compute. reflexivity.
Defined.
