(* ===== verification/MetaStore.v ===== *)
(** * The in-memory store: metadata

    Consumer offsets, pauses, group membership and assignments, transaction
    states, the idempotent-producer window, shard placements and the
    dead-letter index of [MemoryStore]: [src/store/memory_offsets.go],
    [memory_pauses.go], [memory_groups.go], [memory_transactions.go],
    [memory_producer_batches.go], [memory_shards.go], [shards.go],
    [memory_dlq_index.go] and [dlq_index.go].

    Listings iterate over a Go map and sort: the iteration order is the
    parameter [MapRange]. *)

From stdpp Require Import prelude gmap strings sorting pretty.
From S2P Require Import Prelude Model MemoryStore.

#[local] Open Scope Z_scope.
#[local] Open Scope ech0_scope.

(** ** Consumer offsets *)

Definition validateConsumerOffsetState (state : ConsumerOffsetState) : result Code unit :=
  if decide (cos_Consumer state = "") then Err CodeInvalidArgument
  else if decide (cos_Topic state = "") then Err CodeInvalidArgument
  else Ok tt.

Definition SaveConsumerOffsetState (s : MemoryStore) (state : ConsumerOffsetState)
    : MemoryStore * result Code unit :=
  let state := NormalizeConsumerOffsetState state in
  match validateConsumerOffsetState state with
  | Err e => (s, Err e)
  | Ok _ =>
      let key := offsetKey (cos_Consumer state) (ConsumerOffsetState_TopicPartition state) in
      let s := set_offsets (<[key := cos_NextOffset state]> (offsets s)) s in
      (set_offsetStates (<[key := state]> (offsetStates s)) s, Ok tt)
  end.

Definition SaveConsumerOffset (nowMS : Z) (s : MemoryStore) (consumer : string) (tp : TopicPartition)
    (nextOffset : Z) : MemoryStore * result Code unit :=
  SaveConsumerOffsetState s
    {| cos_Consumer := consumer; cos_Topic := tp_Topic tp; cos_Partition := tp_Partition tp;
       cos_NextOffset := nextOffset; cos_PendingOffsets := []; cos_Metadata := "";
       cos_UpdatedAtMS := nowMS |}.

Definition LoadConsumerOffset (s : MemoryStore) (consumer : string) (tp : TopicPartition)
    : result Code (option Z) :=
  match offsetStates s !! offsetKey consumer tp with
  | Some state => Ok (Some (cos_NextOffset state))
  | None => Ok (offsets s !! offsetKey consumer tp)
  end.

Definition LoadConsumerOffsetState (s : MemoryStore) (consumer : string) (tp : TopicPartition)
    : result Code (option ConsumerOffsetState) :=
  let key := offsetKey consumer tp in
  match offsetStates s !! key with
  | Some state => Ok (Some state)
  | None =>
      match offsets s !! key with
      | None => Ok None
      | Some offset =>
          Ok (Some {| cos_Consumer := consumer; cos_Topic := tp_Topic tp;
                      cos_Partition := tp_Partition tp; cos_NextOffset := offset;
                      cos_PendingOffsets := []; cos_Metadata := ""; cos_UpdatedAtMS := 0 |})
      end
  end.

Definition compareConsumerOffsetState (left right : ConsumerOffsetState) : comparison :=
  String.compare (cos_Consumer left) (cos_Consumer right) <+>
  (String.compare (cos_Topic left) (cos_Topic right) <+>
   Z.compare (cos_Partition left) (cos_Partition right)).

Definition sortConsumerOffsetStates (states : list ConsumerOffsetState) : list ConsumerOffsetState :=
  sort_func compareConsumerOffsetState states.

Definition ListConsumerOffsetStates `{MapRange} (s : MemoryStore) : result Code (list ConsumerOffsetState) :=
  Ok (sortConsumerOffsetStates (values (offsetStates s))).

Definition DeleteConsumerOffsetState (s : MemoryStore) (consumer : string) (tp : TopicPartition)
    : MemoryStore * result Code unit :=
  let key := offsetKey consumer tp in
  let s := set_offsets (delete key (offsets s)) s in
  (set_offsetStates (delete key (offsetStates s)) s, Ok tt).

(** ** Consumer pauses *)

Definition validateConsumerPauseState (state : ConsumerPauseState) : result Code unit :=
  if decide (cps_Consumer state = "") then Err CodeInvalidArgument
  else if decide (cps_Topic state = "") then Err CodeInvalidArgument
  else Ok tt.

Definition SaveConsumerPause (s : MemoryStore) (state : ConsumerPauseState) : MemoryStore * result Code unit :=
  match validateConsumerPauseState state with
  | Err e => (s, Err e)
  | Ok _ =>
      (set_consumerPauses
         (<[consumerPauseKey (cps_Consumer state) (ConsumerPauseState_TopicPartition state) := state]>
            (consumerPauses s)) s, Ok tt)
  end.

Definition LoadConsumerPause (s : MemoryStore) (consumer : string) (tp : TopicPartition)
    : result Code (option ConsumerPauseState) :=
  Ok (consumerPauses s !! consumerPauseKey consumer tp).

Definition compareConsumerPauseState (left right : ConsumerPauseState) : comparison :=
  String.compare (cps_Consumer left) (cps_Consumer right) <+>
  (String.compare (cps_Topic left) (cps_Topic right) <+>
   Z.compare (cps_Partition left) (cps_Partition right)).

Definition sortConsumerPauses (states : list ConsumerPauseState) : list ConsumerPauseState :=
  sort_func compareConsumerPauseState states.

Definition ListConsumerPauses `{MapRange} (s : MemoryStore) : result Code (list ConsumerPauseState) :=
  Ok (sortConsumerPauses (values (consumerPauses s))).

Definition DeleteConsumerPause (s : MemoryStore) (consumer : string) (tp : TopicPartition)
    : MemoryStore * result Code unit :=
  (set_consumerPauses (delete (consumerPauseKey consumer tp) (consumerPauses s)) s, Ok tt).

(** ** Consumer groups *)

Definition sortedStrings (l : list string) : list string := sort_func String.compare l.

Definition set_Topics (topics : list string) (m : ConsumerGroupMember) : ConsumerGroupMember :=
  mkConsumerGroupMember (cgm_Group m) (cgm_MemberID m) topics (cgm_SessionTimeoutMS m)
    (cgm_MaxPollIntervalMS m) (cgm_JoinedAtMS m) (cgm_LastHeartbeatMS m) (cgm_LastPollMS m).

Definition SaveGroupMember (s : MemoryStore) (member : ConsumerGroupMember) : MemoryStore * result Code unit :=
  if decide (cgm_Group member = "" \/ cgm_MemberID member = "") then (s, Err CodeInvalidArgument)
  else
    let member := set_Topics (sortedStrings (cgm_Topics member)) member in
    (set_members (<[groupMemberKey (cgm_Group member) (cgm_MemberID member) := member]> (members s)) s, Ok tt).

Definition LoadGroupMember (s : MemoryStore) (group memberID : string) : result Code (option ConsumerGroupMember) :=
  Ok (members s !! groupMemberKey group memberID).

Definition compareMemberID (left right : ConsumerGroupMember) : comparison :=
  String.compare (cgm_MemberID left) (cgm_MemberID right).

Definition ListGroupMembers `{MapRange} (s : MemoryStore) (group : string) : result Code (list ConsumerGroupMember) :=
  let out := (fun m => set_Topics (sortedStrings (cgm_Topics m)) m) <$>
             filter (fun m => cgm_Group m = group) (values (members s)) in
  Ok (sort_func compareMemberID out).

Definition DeleteGroupMember (s : MemoryStore) (group memberID : string) : MemoryStore * result Code unit :=
  (set_members (delete (groupMemberKey group memberID) (members s)) s, Ok tt).

(** Deleting the visited key during [Range] is the only mutation of the loop. *)
Definition DeleteExpiredGroupMembers `{MapRange} (s : MemoryStore) (nowMS : Z) : MemoryStore * result Code Z :=
  let '(ms, deleted) :=
    foldl (fun '(ms, deleted) '(key, member) =>
             if ExpiredAt member nowMS then (delete key ms, deleted + 1) else (ms, deleted))
      (members s, 0) (range (members s)) in
  (set_members ms s, Ok deleted).

Definition SaveGroupAssignment (s : MemoryStore) (assignment : ConsumerGroupAssignment)
    : MemoryStore * result Code unit :=
  if decide (cga_Group assignment = "") then (s, Err CodeInvalidArgument)
  else (set_assignments (<[cga_Group assignment := assignment]> (assignments s)) s, Ok tt).

Definition LoadGroupAssignment (s : MemoryStore) (group : string) : result Code (option ConsumerGroupAssignment) :=
  Ok (assignments s !! group).

Definition compareAssignmentGroup (left right : ConsumerGroupAssignment) : comparison :=
  String.compare (cga_Group left) (cga_Group right).

Definition ListGroupAssignments `{MapRange} (s : MemoryStore) : result Code (list ConsumerGroupAssignment) :=
  Ok (sort_func compareAssignmentGroup (values (assignments s))).

Definition SaveBrokerState (s : MemoryStore) (state : BrokerState) : MemoryStore * result Code unit :=
  (set_brokerState (Some state) s, Ok tt).

Definition LoadBrokerState (s : MemoryStore) : result Code (option BrokerState) := Ok (brokerState s).

(** ** Transactions *)

Definition AllocateTransactionID (s : MemoryStore) : MemoryStore * result Code Z :=
  let next := if nextTxID s =? 0 then 1 else nextTxID s in
  (set_nextTxID (u64 (next + 1)) s, Ok next).

Definition SaveTransaction (s : MemoryStore) (state : TransactionState) : MemoryStore * result Code unit :=
  if ts_TxID state =? 0 then (s, Err CodeInvalidArgument)
  else
    let s := set_transactions (<[ts_TxID state := state]> (transactions s)) s in
    if nextTxID s <=? ts_TxID state then (set_nextTxID (u64 (ts_TxID state + 1)) s, Ok tt) else (s, Ok tt).

Definition LoadTransaction (s : MemoryStore) (txID : Z) : result Code (option TransactionState) :=
  Ok (transactions s !! txID).

Definition compareTxID (left right : TransactionState) : comparison :=
  Z.compare (ts_TxID left) (ts_TxID right).

Definition ListTransactions `{MapRange} (s : MemoryStore) : result Code (list TransactionState) :=
  Ok (sort_func compareTxID (values (transactions s))).

(** ** The idempotent-producer window *)

Definition validateProducerBatch (batch : ProducerPublishedBatch) : result Code unit :=
  if ppb_ProducerID batch =? 0 then Err CodeInvalidArgument
  else if decide (ppb_Topic batch = "") then Err CodeInvalidArgument
  else if ppb_RecordCount batch =? 0 then Err CodeInvalidArgument
  else if ppb_LastOffset batch <? ppb_BaseOffset batch then Err CodeInvalidArgument
  else if ppb_LastOffset batch =? max_u64 then Err CodeInvalidArgument
  else if negb (ppb_NextOffset batch =? u64 (ppb_LastOffset batch + 1)) then Err CodeInvalidArgument
  else Ok tt.

Definition SaveProducerBatch (s : MemoryStore) (batch : ProducerPublishedBatch) : MemoryStore * result Code unit :=
  match validateProducerBatch batch with
  | Err e => (s, Err e)
  | Ok _ => (set_producerBatches (<[producerBatchKey batch := batch]> (producerBatches s)) s, Ok tt)
  end.

Definition producerBatchMatchesFilter (batch : ProducerPublishedBatch) (filter : ProducerBatchFilter) : bool :=
  if negb (pbf_ProducerID filter =? 0) && negb (ppb_ProducerID batch =? pbf_ProducerID filter) then false
  else if bool_decide (pbf_Topic filter <> "") && bool_decide (ppb_Topic batch <> pbf_Topic filter) then false
  else if pbf_EpochSet filter && negb (ppb_ProducerEpoch batch =? pbf_ProducerEpoch filter) then false
  else if pbf_PartitionSet filter && negb (ppb_Partition batch =? pbf_Partition filter) then false
  else true.

Definition compareProducerPublishedBatch (left right : ProducerPublishedBatch) : comparison :=
  Z.compare (ppb_ProducerID left) (ppb_ProducerID right) <+>
  (String.compare (ppb_Topic left) (ppb_Topic right) <+>
   (Z.compare (ppb_Partition left) (ppb_Partition right) <+>
    (Z.compare (ppb_ProducerEpoch left) (ppb_ProducerEpoch right) <+>
     Z.compare (ppb_BaseSequence left) (ppb_BaseSequence right)))).

Definition sortProducerPublishedBatches (batches : list ProducerPublishedBatch) : list ProducerPublishedBatch :=
  sort_func compareProducerPublishedBatch batches.

Definition ListProducerBatches `{MapRange} (s : MemoryStore) (f : ProducerBatchFilter)
    : result Code (list ProducerPublishedBatch) :=
  Ok (sortProducerPublishedBatches
        (filter (fun b => producerBatchMatchesFilter b f = true) (values (producerBatches s)))).

Definition DeleteProducerBatch (s : MemoryStore) (batch : ProducerPublishedBatch)
    : MemoryStore * result Code unit :=
  (set_producerBatches (delete (producerBatchKey batch) (producerBatches s)) s, Ok tt).

(** ** Shard placements *)

Definition validateShardPlacement (placement : ShardPlacement) : result Code unit :=
  if decide (sp_Topic placement = "") then Err CodeInvalidArgument else Ok tt.

Definition SaveShardPlacement (s : MemoryStore) (placement : ShardPlacement) : MemoryStore * result Code unit :=
  match validateShardPlacement placement with
  | Err e => (s, Err e)
  | Ok _ => (set_placements (<[ShardPlacement_TopicPartition placement := placement]> (placements s)) s, Ok tt)
  end.

Definition LoadShardPlacement (s : MemoryStore) (tp : TopicPartition) : result Code (option ShardPlacement) :=
  Ok (placements s !! tp).

Definition compareShardPlacement (left right : ShardPlacement) : comparison :=
  String.compare (sp_Topic left) (sp_Topic right) <+> Z.compare (sp_Partition left) (sp_Partition right).

Definition sortShardPlacements (placements : list ShardPlacement) : list ShardPlacement :=
  sort_func compareShardPlacement placements.

Definition ListShardPlacements `{MapRange} (s : MemoryStore) : result Code (list ShardPlacement) :=
  Ok (sortShardPlacements (values (placements s))).

(** ** The dead-letter index *)

Definition dlqIndexKey (dlqTopic : string) (dlqPartition dlqOffset : Z) : string :=
  (dlqTopic ++ nul ++ fmt_d dlqPartition ++ nul ++ fmt_d dlqOffset)%string.

Definition validateDLQIndexEntry (entry : DLQIndexEntry) : result Code unit :=
  if decide (dlq_DLQTopic entry = "") then Err CodeInvalidArgument
  else if decide (dlq_OriginalTopic entry = "") then Err CodeInvalidArgument
  else Ok tt.

Definition SaveDLQIndex (s : MemoryStore) (entry : DLQIndexEntry) : MemoryStore * result Code unit :=
  match validateDLQIndexEntry entry with
  | Err e => (s, Err e)
  | Ok _ =>
      (set_dlqIndexes
         (<[dlqIndexKey (dlq_DLQTopic entry) (dlq_DLQPartition entry) (dlq_DLQOffset entry) := entry]>
            (dlqIndexes s)) s, Ok tt)
  end.

Definition LoadDLQIndex (s : MemoryStore) (dlqTopic : string) (dlqPartition dlqOffset : Z)
    : result Code (option DLQIndexEntry) :=
  Ok (dlqIndexes s !! dlqIndexKey dlqTopic dlqPartition dlqOffset).

(** An absent filter field accepts every entry. *)
Definition opt_ok {A} (o : option A) (test : A -> bool) : bool :=
  match o with Some a => test a | None => true end.

Definition dlqIndexMatchesDLQ (entry : DLQIndexEntry) (f : DLQIndexFilter) : bool :=
  if bool_decide (dlf_DLQTopic f <> "") && bool_decide (dlq_DLQTopic entry <> dlf_DLQTopic f) then false
  else if negb (opt_ok (dlf_DLQPartition f) (fun p => dlq_DLQPartition entry =? p)) then false
  else if negb (opt_ok (dlf_MinDLQOffset f) (fun o => o <=? dlq_DLQOffset entry)) then false
  else opt_ok (dlf_MaxDLQOffset f) (fun o => dlq_DLQOffset entry <=? o).

Definition dlqIndexMatchesTime (entry : DLQIndexEntry) (f : DLQIndexFilter) : bool :=
  if negb (opt_ok (dlf_FromTimestampMS f) (fun t => t <=? dlq_TimestampMS entry)) then false
  else opt_ok (dlf_ToTimestampMS f) (fun t => dlq_TimestampMS entry <=? t).

Definition dlqIndexMatchesOrigin (entry : DLQIndexEntry) (f : DLQIndexFilter) : bool :=
  if negb (opt_ok (dlf_OriginalTopic f) (fun t => bool_decide (dlq_OriginalTopic entry = t))) then false
  else if negb (opt_ok (dlf_OriginalPartition f) (fun p => dlq_OriginalPartition entry =? p)) then false
  else opt_ok (dlf_OriginalOffset f) (fun o => dlq_OriginalOffset entry =? o).

Definition dlqIndexMatchesError (entry : DLQIndexEntry) (f : DLQIndexFilter) : bool :=
  if bool_decide (dlf_ErrorCode f <> "") && bool_decide (dlq_ErrorCode entry <> dlf_ErrorCode f) then false
  else opt_ok (dlf_RetryCount f) (fun n => dlq_RetryCount entry =? n).

Definition dlqIndexMatchesFilter (entry : DLQIndexEntry) (f : DLQIndexFilter) : bool :=
  dlqIndexMatchesDLQ entry f && dlqIndexMatchesTime entry f &&
  dlqIndexMatchesOrigin entry f && dlqIndexMatchesError entry f.

Definition compareDLQIndex (left right : DLQIndexEntry) : comparison :=
  String.compare (dlq_DLQTopic left) (dlq_DLQTopic right) <+>
  (Z.compare (dlq_DLQPartition left) (dlq_DLQPartition right) <+>
   Z.compare (dlq_DLQOffset left) (dlq_DLQOffset right)).

Definition sortDLQIndexes (entries : list DLQIndexEntry) : list DLQIndexEntry :=
  sort_func compareDLQIndex entries.

Definition ListDLQIndexes `{MapRange} (s : MemoryStore) (f : DLQIndexFilter) : result Code (list DLQIndexEntry) :=
  Ok (sortDLQIndexes (filter (fun e => dlqIndexMatchesFilter e f = true) (values (dlqIndexes s)))).
