(* ===== verification/MetaSpec.v ===== *)
(** * Metadata: keys, listings and transaction ids

    The keys that the metadata maps use determine the consumer, topic and
    partition they stand for; every listing is a function of the stored
    entries and not of the iteration order of the Go map (replicas that
    apply the same commands list the same thing); transaction ids are
    fresh. *)

From stdpp Require Import prelude gmap strings sorting pretty list.
From S2P Require Import Prelude Model MemoryStore Cleanup LogSpec MetaStore.

#[local] Open Scope Z_scope.
#[local] Open Scope ech0_scope.

(** ** Keys *)

Fixpoint no_nul (s : string) : bool :=
  match s with
  | EmptyString => true
  | String c rest => negb (Ascii.eqb c (Ascii.ascii_of_nat 0)) && no_nul rest
  end.

Lemma no_nul_split b a' b' : no_nul b = true -> b <> (a' ++ nul ++ b')%string.
Proof.
  revert a'. induction b as [|c b IH]; intros [|c' a'] Hb E; simpl in *; try discriminate.
  - injection E as -> _. discriminate.
  - injection E as _ E. apply andb_true_iff in Hb as [_ Hb]. by apply (IH a').
Qed.

(** The part after the last NUL determines where the key is split. *)
Lemma nul_split_inj a a' b b' :
  no_nul b = true -> no_nul b' = true ->
  (a ++ nul ++ b)%string = (a' ++ nul ++ b')%string -> a = a' /\ b = b'.
Proof.
  intros Hb Hb'. revert a'. induction a as [|c a IH]; intros [|c' a'] E; simpl in E.
  - injection E as E. done.
  - injection E as _ E. by apply (no_nul_split b a' b') in Hb.
  - injection E as _ E. symmetry in E. by apply (no_nul_split b' a b) in Hb'.
  - injection E as -> E. by destruct (IH a' E) as [-> ->].
Qed.

Lemma no_nul_pretty_N_go x s : no_nul s = true -> no_nul (pretty_N_go x s) = true.
Proof.
  revert s. induction (N.lt_wf_0 x) as [x _ IH]; intros s Hs.
  destruct (decide (x = 0)%N) as [->|Hx]; [done|].
  rewrite pretty_N_go_step by lia. apply IH; [apply N.div_lt; lia|]. simpl. rewrite Hs, andb_true_r.
  assert (x mod 10 < 10)%N as Hm by (by apply N.mod_lt).
  unfold pretty_N_char. by repeat case_match.
Qed.

Lemma no_nul_fmt_d z : 0 <= z -> no_nul (fmt_d z) = true.
Proof.
  intros Hz. rewrite fmt_d_N by done. unfold pretty, pretty_N. case_decide; [done|].
  by apply no_nul_pretty_N_go.
Qed.

Lemma fmt_d_inj z z' : fmt_d z = fmt_d z' -> z = z'.
Proof. apply pretty_Z_inj. Qed.

Lemma string_app_assoc a b c : ((a ++ b) ++ c = a ++ b ++ c)%string.
Proof.
  induction a as [|x a IH]; [done|].
  change (String x ((a ++ b) ++ c) = String x (a ++ b ++ c))%string. by rewrite IH.
Qed.

Lemma offsetKey_regroup c tp :
  offsetKey c tp = ((c ++ nul ++ tp_Topic tp) ++ nul ++ fmt_d (tp_Partition tp))%string.
Proof. unfold offsetKey. by rewrite !string_app_assoc. Qed.

Lemma offsetKey_inj c1 tp1 c2 tp2 :
  no_nul (tp_Topic tp1) = true -> no_nul (tp_Topic tp2) = true ->
  0 <= tp_Partition tp1 -> 0 <= tp_Partition tp2 ->
  offsetKey c1 tp1 = offsetKey c2 tp2 -> c1 = c2 /\ tp1 = tp2.
Proof.
  intros H1 H2 P1 P2. rewrite !offsetKey_regroup. intros E.
  apply nul_split_inj in E as [E Ep]; [|by apply no_nul_fmt_d..].
  apply fmt_d_inj in Ep. apply nul_split_inj in E as [-> Et]; [|done..].
  destruct tp1, tp2. simpl in *. by subst.
Qed.

(** Consumer offsets round-trip and do not interfere.  A saved offset is
    what a load returns, with the pending set normalised; every other
    consumer or partition keeps its state (topic names without NUL bytes,
    which is what makes the string keys unambiguous). *)
Theorem consumer_offsets_isolated s s' state consumer tp :
  SaveConsumerOffsetState s state = (s', Ok tt) ->
  no_nul (cos_Topic state) = true -> no_nul (tp_Topic tp) = true ->
  0 <= cos_Partition state -> 0 <= tp_Partition tp ->
  let tp0 := ConsumerOffsetState_TopicPartition state in
  LoadConsumerOffset s' (cos_Consumer state) tp0 = Ok (Some (cos_NextOffset state)) /\
  LoadConsumerOffsetState s' (cos_Consumer state) tp0 = Ok (Some (NormalizeConsumerOffsetState state)) /\
  ((consumer, tp) <> (cos_Consumer state, tp0) ->
     LoadConsumerOffset s' consumer tp = LoadConsumerOffset s consumer tp /\
     LoadConsumerOffsetState s' consumer tp = LoadConsumerOffsetState s consumer tp).
Proof.
  intros Hs Hn0 Hn Hp0 Hp tp0. unfold SaveConsumerOffsetState in Hs.
  assert (cos_Consumer (NormalizeConsumerOffsetState state) = cos_Consumer state /\
          ConsumerOffsetState_TopicPartition (NormalizeConsumerOffsetState state) = tp0 /\
          cos_NextOffset (NormalizeConsumerOffsetState state) = cos_NextOffset state) as (Hc & Ht & Hx).
  { unfold NormalizeConsumerOffsetState. by destruct (cos_PendingOffsets state). }
  rewrite Hc, Ht, Hx in Hs. destruct (validateConsumerOffsetState _); [|done].
  injection Hs as <-. unfold LoadConsumerOffset, LoadConsumerOffsetState. simpl.
  rewrite !lookup_insert_eq. split; [by rewrite Hx|]. split; [done|].
  intros Hne. rewrite !lookup_insert_ne; [done|..];
    (intros E; apply offsetKey_inj in E as [Ec Et]; [congruence|done..]).
Qed.

(** ** Invariant of the metadata maps: every entry sits at its own key *)

Record meta_inv (s : MemoryStore) : Prop := {
  mi_offsets : forall k v, offsetStates s !! k = Some v ->
    k = offsetKey (cos_Consumer v) (ConsumerOffsetState_TopicPartition v);
  mi_pauses : forall k v, consumerPauses s !! k = Some v ->
    k = consumerPauseKey (cps_Consumer v) (ConsumerPauseState_TopicPartition v);
  mi_members : forall k v, members s !! k = Some v -> k = groupMemberKey (cgm_Group v) (cgm_MemberID v);
  mi_assignments : forall k v, assignments s !! k = Some v -> k = cga_Group v;
  mi_transactions : forall k v, transactions s !! k = Some v -> k = ts_TxID v;
  mi_batches : forall k v, producerBatches s !! k = Some v -> k = producerBatchKey v;
  mi_placements : forall k v, placements s !! k = Some v -> k = ShardPlacement_TopicPartition v;
  mi_dlq : forall k v, dlqIndexes s !! k = Some v ->
    k = dlqIndexKey (dlq_DLQTopic v) (dlq_DLQPartition v) (dlq_DLQOffset v)
}.

(** One call of a method that changes metadata. *)
Inductive meta_step : MemoryStore -> MemoryStore -> Prop :=
| meta_save_offset s state : meta_step s (SaveConsumerOffsetState s state).1
| meta_delete_offset s consumer tp : meta_step s (DeleteConsumerOffsetState s consumer tp).1
| meta_save_pause s state : meta_step s (SaveConsumerPause s state).1
| meta_delete_pause s consumer tp : meta_step s (DeleteConsumerPause s consumer tp).1
| meta_save_member s member : meta_step s (SaveGroupMember s member).1
| meta_delete_member s group memberID : meta_step s (DeleteGroupMember s group memberID).1
| meta_expire_members (R : MapRange) s nowMS : meta_step s (DeleteExpiredGroupMembers s nowMS).1
| meta_save_assignment s assignment : meta_step s (SaveGroupAssignment s assignment).1
| meta_save_transaction s state : is_u64 (ts_TxID state) -> meta_step s (SaveTransaction s state).1
| meta_allocate_tx s : meta_step s (AllocateTransactionID s).1
| meta_save_batch s batch : meta_step s (SaveProducerBatch s batch).1
| meta_delete_batch s batch : meta_step s (DeleteProducerBatch s batch).1
| meta_save_placement s placement : meta_step s (SaveShardPlacement s placement).1
| meta_save_dlq s entry : meta_step s (SaveDLQIndex s entry).1
| meta_save_broker s state : meta_step s (SaveBrokerState s state).1.

(** The members left after the expiry sweep do not depend on the order in
    which [Range] visited them. *)
Lemma foldl_expire (nowMS : Z) (l : list (string * ConsumerGroupMember)) (ms : gmap string ConsumerGroupMember) n k :
  (foldl (fun '(ms, deleted) '(key, member) =>
            if ExpiredAt member nowMS then (delete key ms, deleted + 1) else (ms, deleted)) (ms, n) l).1 !! k
  = if existsb (fun '(k', m) => bool_decide (k = k') && ExpiredAt m nowMS) l then None else ms !! k.
Proof.
  induction l as [|[k' m'] l IH] in ms, n |- *; [done|]. cbn [foldl existsb].
  destruct (ExpiredAt m' nowMS); rewrite IH.
  - rewrite andb_true_r, lookup_delete. case_bool_decide; simpl.
    + subst. rewrite decide_True by done. by destruct (existsb _ _).
    + rewrite decide_False by done. done.
  - by rewrite andb_false_r.
Qed.

Lemma foldl_expire_count (nowMS : Z) (l : list (string * ConsumerGroupMember)) (ms : gmap string ConsumerGroupMember) n :
  (foldl (fun '(ms, deleted) '(key, member) =>
            if ExpiredAt member nowMS then (delete key ms, deleted + 1) else (ms, deleted)) (ms, n) l).2
  = n + len (filter (fun km => ExpiredAt km.2 nowMS = true) l).
Proof.
  induction l as [|[k' m'] l IH] in ms, n |- *; [by rewrite Z.add_0_r|]. cbn [foldl].
  rewrite filter_cons. simpl. destruct (ExpiredAt m' nowMS); rewrite IH; simpl; [rewrite len_cons|]; lia.
Qed.

Lemma DeleteExpired_lookup `{MapRange} s nowMS k :
  members (DeleteExpiredGroupMembers s nowMS).1 !! k
  = m ← members s !! k; if ExpiredAt m nowMS then None else Some m.
Proof.
  unfold DeleteExpiredGroupMembers.
  pose proof (foldl_expire nowMS (range (members s)) (members s) 0 k) as Hk.
  destruct (foldl _ _ _) as [ms d]. simpl in *. rewrite Hk. clear Hk.
  destruct (existsb _ _) eqn:E.
  - apply existsb_exists in E as ([k' m] & Hin & He). apply andb_true_iff in He as [Hk He].
    apply bool_decide_eq_true in Hk as <-. apply list_elem_of_In, elem_of_range in Hin.
    rewrite Hin. simpl. by rewrite He.
  - destruct (members s !! k) as [m|] eqn:Hk; [|done]. simpl.
    destruct (ExpiredAt m nowMS) eqn:He; [|done]. exfalso. apply not_true_iff_false in E. apply E.
    apply existsb_exists. exists (k, m). split; [by apply list_elem_of_In, elem_of_range|].
    by rewrite bool_decide_true, He.
Qed.

(** Inserting an entry at its own key, and deleting, keep a map well keyed. *)
Definition keyed {K V} `{Countable K} (f : V -> K) (m : gmap K V) : Prop :=
  forall k v, m !! k = Some v -> k = f v.

Lemma keyed_insert {K V} `{Countable K} (f : V -> K) m k v :
  keyed f m -> k = f v -> keyed f (<[k := v]> m).
Proof. intros Hm -> k1 v1. rewrite lookup_insert_Some. intros [[<- <-]|[_ ?]]; [done|by apply Hm]. Qed.

Lemma keyed_delete {K V} `{Countable K} (f : V -> K) m k : keyed f m -> keyed f (delete k m).
Proof. intros Hm k' v'. rewrite lookup_delete_Some. intros [_ ?]. by apply Hm. Qed.

#[local] Hint Resolve keyed_insert keyed_delete : ech0.

Lemma NormalizeConsumerOffsetState_key state :
  offsetKey (cos_Consumer (NormalizeConsumerOffsetState state))
    (ConsumerOffsetState_TopicPartition (NormalizeConsumerOffsetState state))
  = offsetKey (cos_Consumer state) (ConsumerOffsetState_TopicPartition state).
Proof. unfold NormalizeConsumerOffsetState. by destruct (cos_PendingOffsets state). Qed.

Lemma meta_step_inv s s' : meta_step s s' -> meta_inv s -> meta_inv s'.
Proof.
  intros Hstep [H1 H2 H3 H4 H5 H6 H7 H8].
  destruct Hstep as [s st|s c tp|s st|s c tp|s m|s g m|R s t|s a|s st ?|s|s b|s b|s p|s e|s st];
    unfold SaveConsumerOffsetState, DeleteConsumerOffsetState, SaveConsumerPause, DeleteConsumerPause,
      SaveGroupMember, DeleteGroupMember, SaveGroupAssignment, SaveTransaction, AllocateTransactionID,
      SaveProducerBatch, DeleteProducerBatch, SaveShardPlacement, SaveDLQIndex, SaveBrokerState;
    repeat case_match; split; simpl; eauto with ech0;
    try (by apply keyed_insert); try (by apply keyed_delete).
  all: try (unfold DeleteExpiredGroupMembers; by destruct (foldl _ _ _)).
  intros k v. rewrite DeleteExpired_lookup, bind_Some. intros (m & Hm & Hv).
  destruct (ExpiredAt m t); [done|]. injection Hv as <-. by apply H3.
Qed.

Lemma meta_reachable_inv s : rtc meta_step NewMemoryStore s -> meta_inv s.
Proof.
  intros Hr. assert (meta_inv NewMemoryStore) as H0 by (split; intros k v; simpl; by rewrite lookup_empty).
  induction Hr; eauto using meta_step_inv.
Qed.

(** ** Listings *)

Lemma listing_perm {K V W} `{Countable K} `{MapRange} (m : gmap K V) (key : V -> K)
    (P : V -> Prop) `{forall v, Decision (P v)} (f : V -> W) (cmp : W -> W -> comparison) `{!CmpOrder cmp} (l : list V) :
  keyed key m ->
  (forall v1 v2, P v1 -> P v2 -> cmp (f v1) (f v2) = Eq -> key v1 = key v2) ->
  l ≡ₚ values m ->
  sort_func cmp (f <$> filter P l) = sort_func cmp (f <$> filter P (values m)).
Proof.
  intros Hkey Hcmp Hl. apply (sort_func_perm_eq cmp); [|by rewrite Hl].
  intros x y Hx Hy E. apply list_elem_of_fmap in Hx as (v1 & -> & Hx), Hy as (v2 & -> & Hy).
  apply list_elem_of_filter in Hx as [HP1 Hx], Hy as [HP2 Hy]. rewrite Hl in Hx, Hy.
  apply elem_of_values in Hx as [k1 Hx], Hy as [k2 Hy].
  pose proof (Hkey _ _ Hx) as ->. pose proof (Hkey _ _ Hy) as ->.
  rewrite (Hcmp v1 v2) in Hx by done. congruence.
Qed.

Lemma listing_deterministic {K V W} `{Countable K} (R1 R2 : MapRange) (m : gmap K V) (key : V -> K)
    (P : V -> Prop) `{forall v, Decision (P v)} (f : V -> W) (cmp : W -> W -> comparison) `{!CmpOrder cmp} :
  keyed key m ->
  (forall v1 v2, P v1 -> P v2 -> cmp (f v1) (f v2) = Eq -> key v1 = key v2) ->
  sort_func cmp (f <$> filter P (@values R1 _ _ _ _ m)) = sort_func cmp (f <$> filter P (@values R2 _ _ _ _ m)).
Proof. intros Hkey Hcmp. eapply listing_perm; [done..|]. by rewrite !values_perm. Qed.

Ltac listing_det Hkey :=
  match goal with
  | |- sort_func ?cmp (?f <$> filter ?P (@values ?R1 _ _ _ _ ?m)) = _ =>
      apply (listing_deterministic R1 _ m _ P f cmp Hkey)
  | |- sort_func ?cmp (filter ?P (@values ?R1 _ _ _ _ ?m)) = sort_func _ (filter _ (@values ?R2 _ _ _ _ _)) =>
      pose proof (listing_deterministic R1 R2 m _ P id cmp Hkey) as Hdet; rewrite !list_fmap_id in Hdet;
      apply Hdet; clear Hdet
  | |- sort_func ?cmp (@values ?R1 _ _ _ _ ?m) = sort_func _ (@values ?R2 _ _ _ _ _) =>
      pose proof (listing_deterministic R1 R2 m _ (fun _ => True) id cmp Hkey) as Hdet;
      rewrite !list_fmap_id, !filter_all in Hdet by (by apply Forall_forall); apply Hdet; clear Hdet
  end.

#[export] Instance compareConsumerOffsetState_order : CmpOrder compareConsumerOffsetState.
Proof. unfold compareConsumerOffsetState. solve_cmp_order. Qed.
#[export] Instance compareConsumerPauseState_order : CmpOrder compareConsumerPauseState.
Proof. unfold compareConsumerPauseState. solve_cmp_order. Qed.
#[export] Instance compareMemberID_order : CmpOrder compareMemberID.
Proof. unfold compareMemberID. solve_cmp_order. Qed.
#[export] Instance compareAssignmentGroup_order : CmpOrder compareAssignmentGroup.
Proof. unfold compareAssignmentGroup. solve_cmp_order. Qed.
#[export] Instance compareTxID_order : CmpOrder compareTxID.
Proof. unfold compareTxID. solve_cmp_order. Qed.
#[export] Instance compareProducerPublishedBatch_order : CmpOrder compareProducerPublishedBatch.
Proof. unfold compareProducerPublishedBatch. solve_cmp_order. Qed.
#[export] Instance compareShardPlacement_order : CmpOrder compareShardPlacement.
Proof. unfold compareShardPlacement. solve_cmp_order. Qed.
#[export] Instance compareDLQIndex_order : CmpOrder compareDLQIndex.
Proof. unfold compareDLQIndex. solve_cmp_order. Qed.

Lemma DeleteExpired_deterministic (R1 R2 : MapRange) s nowMS :
  @DeleteExpiredGroupMembers R1 s nowMS = @DeleteExpiredGroupMembers R2 s nowMS.
Proof.
  assert (members (@DeleteExpiredGroupMembers R1 s nowMS).1 = members (@DeleteExpiredGroupMembers R2 s nowMS).1)
    as Hm by (apply map_eq; intros k; by rewrite !DeleteExpired_lookup).
  unfold DeleteExpiredGroupMembers in *.
  pose proof (foldl_expire_count nowMS (@range R1 _ _ _ _ (members s)) (members s) 0) as C1.
  pose proof (foldl_expire_count nowMS (@range R2 _ _ _ _ (members s)) (members s) 0) as C2.
  destruct (foldl _ _ (@range R1 _ _ _ _ _)), (foldl _ _ (@range R2 _ _ _ _ _)). simpl in *. subst.
  f_equal. f_equal. unfold len. f_equal. f_equal. by rewrite !range_perm.
Qed.

(** Listings are deterministic.  In every state reached by metadata
    operations, each listing returns the same sequence whatever order the
    underlying Go map is iterated in, and expiring members removes the same
    members and counts the same number of them: replicas that applied the
    same commands agree. *)
Theorem listings_deterministic s (R1 R2 : MapRange) group bf df nowMS :
  rtc meta_step NewMemoryStore s ->
  @ListConsumerOffsetStates R1 s = @ListConsumerOffsetStates R2 s /\
  @ListConsumerPauses R1 s = @ListConsumerPauses R2 s /\
  @ListGroupMembers R1 s group = @ListGroupMembers R2 s group /\
  @ListGroupAssignments R1 s = @ListGroupAssignments R2 s /\
  @ListTransactions R1 s = @ListTransactions R2 s /\
  @ListProducerBatches R1 s bf = @ListProducerBatches R2 s bf /\
  @ListShardPlacements R1 s = @ListShardPlacements R2 s /\
  @ListDLQIndexes R1 s df = @ListDLQIndexes R2 s df /\
  @DeleteExpiredGroupMembers R1 s nowMS = @DeleteExpiredGroupMembers R2 s nowMS.
Proof.
  intros Hr. apply meta_reachable_inv in Hr as [H1 H2 H3 H4 H5 H6 H7 H8].
  split_and!; [..|by apply DeleteExpired_deterministic];
    unfold ListConsumerOffsetStates, sortConsumerOffsetStates, ListConsumerPauses, sortConsumerPauses,
      ListGroupMembers, ListGroupAssignments, ListTransactions, ListProducerBatches,
      sortProducerPublishedBatches, ListShardPlacements, sortShardPlacements, ListDLQIndexes,
      sortDLQIndexes; cbv zeta; f_equal;
    [listing_det H1|listing_det H2|listing_det H3|listing_det H4|listing_det H5|listing_det H6|listing_det H7|listing_det H8];
    intros v1 v2 P1 P2 E;
    unfold compareConsumerOffsetState, compareConsumerPauseState, compareMemberID, compareAssignmentGroup,
      compareTxID, compareProducerPublishedBatch, compareShardPlacement, compareDLQIndex in E;
    cmp_eq_inv;
    unfold consumerPauseKey, offsetKey, groupMemberKey, producerBatchKey, dlqIndexKey,
      ShardPlacement_TopicPartition; simpl in *; congruence.
Qed.

(** ** Transaction ids *)

(** A metadata step in which the 64-bit id counter does not wrap to zero. *)
Definition tx_step (s s' : MemoryStore) : Prop := meta_step s s' /\ nextTxID s' <> 0.

(** The next id is a nonzero 64-bit integer above every stored transaction. *)
Definition tx_inv (s : MemoryStore) : Prop :=
  0 < nextTxID s < 2 ^ 64 /\ forall k st, transactions s !! k = Some st -> k < nextTxID s.

Lemma tx_frame s s' :
  transactions s' = transactions s -> nextTxID s' = nextTxID s ->
  tx_inv s -> tx_inv s' /\ nextTxID s <= nextTxID s'.
Proof. unfold tx_inv. intros -> ->. split; [done|lia]. Qed.

Lemma SaveTransaction_inv s st :
  is_u64 (ts_TxID st) -> nextTxID (SaveTransaction s st).1 <> 0 -> tx_inv s ->
  tx_inv (SaveTransaction s st).1 /\ nextTxID s <= nextTxID (SaveTransaction s st).1.
Proof.
  intros Hst Hnz [Hb Hlt]. revert Hnz. unfold SaveTransaction, is_u64 in *.
  destruct (Z.eqb_spec (ts_TxID st) 0); simpl; [split; [split; [lia|done]|lia]|].
  destruct (Z.leb_spec (nextTxID s) (ts_TxID st)); simpl; intros Hnz.
  - assert (ts_TxID st + 1 <> 2 ^ 64) as Hw by (intros E; rewrite E in Hnz; done).
    rewrite u64_small by (unfold is_u64; lia).
    split; [|lia]. split; simpl; rewrite ?u64_small by (unfold is_u64; lia); [lia|].
    intros k st' [[<- _]|[_ Hk]]%lookup_insert_Some; [|apply Hlt in Hk]; lia.
  - split; [split; simpl; [lia|]|lia].
    intros k st' [[<- _]|[_ Hk]]%lookup_insert_Some; [lia|]. by apply Hlt in Hk.
Qed.

Lemma Allocate_inv s :
  nextTxID (AllocateTransactionID s).1 <> 0 -> tx_inv s ->
  tx_inv (AllocateTransactionID s).1 /\ nextTxID s < nextTxID (AllocateTransactionID s).1.
Proof.
  intros Hnz [Hb Hlt]. revert Hnz. unfold AllocateTransactionID.
  destruct (Z.eqb_spec (nextTxID s) 0); [lia|]. simpl. intros Hnz.
  assert (nextTxID s + 1 <> 2 ^ 64) as Hw by (intros E; rewrite E in Hnz; done).
  rewrite u64_small by (unfold is_u64; lia). split; [|lia]. split; simpl; rewrite ?u64_small by (unfold is_u64; lia).
  - lia.
  - intros k st Hk. apply Hlt in Hk. lia.
Qed.

Lemma tx_step_inv s s' : tx_step s s' -> tx_inv s -> tx_inv s' /\ nextTxID s <= nextTxID s'.
Proof.
  intros [Hstep Hnz] Hi.
  destruct Hstep; try (by apply SaveTransaction_inv);
    try (destruct (Allocate_inv s Hnz Hi); split; [done|lia]);
    (apply tx_frame; [..|done]);
    unfold SaveConsumerOffsetState, SaveConsumerPause, SaveGroupMember, SaveGroupAssignment,
      SaveProducerBatch, SaveShardPlacement, SaveDLQIndex, DeleteExpiredGroupMembers;
    repeat case_match; done.
Qed.

Lemma tx_steps_inv s s' : rtc tx_step s s' -> tx_inv s -> tx_inv s' /\ nextTxID s <= nextTxID s'.
Proof.
  induction 1 as [s|s s1 s2 H1 _ IH]; [split; [done|lia]|]. intros Hi.
  apply tx_step_inv in H1 as [Hi1 ?]; [|done]. destruct (IH Hi1). split; [done|lia].
Qed.

(** Transaction ids are fresh.  An allocated id is nonzero, no stored
    transaction has it, and it is smaller than every id allocated later,
    whatever metadata operations run in between (as long as the 64-bit
    counter does not wrap). *)
Theorem transaction_ids_fresh s s1 s2 s3 id1 id2 :
  rtc tx_step NewMemoryStore s ->
  AllocateTransactionID s = (s1, Ok id1) -> nextTxID s1 <> 0 ->
  rtc tx_step s1 s2 ->
  AllocateTransactionID s2 = (s3, Ok id2) ->
  0 < id1 /\ transactions s !! id1 = None /\ id1 < id2.
Proof.
  intros Hr Ha Hnz Hr2 Hb.
  assert (tx_inv s) as [Hs Hlt] by (apply tx_steps_inv in Hr as [? _]; [done|by split]).
  pose proof (Allocate_inv s) as Hi. rewrite Ha in Hi. destruct (Hi Hnz) as [Hi1 Hlt1]; [by split|].
  apply tx_steps_inv in Hr2 as [[Hs2 _] Hmono]; [|done].
  unfold AllocateTransactionID in Ha, Hb. simpl in *.
  destruct (Z.eqb_spec (nextTxID s) 0), (Z.eqb_spec (nextTxID s2) 0); [lia..|].
  injection Ha as Ha <-. injection Hb as Hb <-. split_and!; [lia| |lia].
  destruct (transactions s !! nextTxID s) eqn:E; [|done]. apply Hlt in E. lia.
Qed.

(** ** The properties at concrete inputs *)

Definition ex_state : ConsumerOffsetState :=
  {| cos_Consumer := "worker"; cos_Topic := "orders"; cos_Partition := 1; cos_NextOffset := 4;
     cos_PendingOffsets := [9; 6; 2; 6]; cos_Metadata := ""; cos_UpdatedAtMS := 0 |}.

Definition ex_member (id : string) : ConsumerGroupMember :=
  mkConsumerGroupMember "g" id ["b"; "a"] 10 0 0 0 0.

Definition ex_meta : MemoryStore :=
  (SaveGroupMember (SaveGroupMember NewMemoryStore (ex_member "m2")).1 (ex_member "m1")).1.

Lemma consumer_offsets_isolated_witness :
  LoadConsumerOffset (SaveConsumerOffsetState NewMemoryStore ex_state).1 "worker" (NewTopicPartition "orders" 1)
  = Ok (Some 4).
Proof.
  apply (consumer_offsets_isolated NewMemoryStore (SaveConsumerOffsetState NewMemoryStore ex_state).1 ex_state
           "other" (NewTopicPartition "orders" 2)); vm_compute; congruence || reflexivity.
Defined.

(** A second iteration order: the reverse of the first. *)
Definition reverse_range : MapRange :=
  {| range := fun K V _ _ m => reverse (map_to_list m);
     range_perm := fun K V _ _ m => reverse_Permutation (map_to_list m) |}.

Lemma ex_meta_reachable : rtc tx_step NewMemoryStore ex_meta.
Proof.
  eapply rtc_l; [split; [apply (meta_save_member _ (ex_member "m2"))|done]|].
  eapply rtc_l; [split; [apply (meta_save_member _ (ex_member "m1"))|done]|]. apply rtc_refl.
Qed.

Lemma listings_deterministic_witness :
  @ListGroupMembers map_to_list_range ex_meta "g"
  = Ok [set_Topics ["a"; "b"] (ex_member "m1"); set_Topics ["a"; "b"] (ex_member "m2")] /\
  @ListGroupMembers map_to_list_range ex_meta "g" = @ListGroupMembers reverse_range ex_meta "g".
Proof.
  split; [reflexivity|].
  apply (listings_deterministic ex_meta map_to_list_range reverse_range "g"
    (mkProducerBatchFilter 0 "" 0 false 0 false)
    (mkDLQIndexFilter "" None None None None None None None None "" None) 0).
  apply (rtc_subrel tx_step); [intros ? ? []; done|apply ex_meta_reachable].
Defined.

Lemma transaction_ids_fresh_witness :
  AllocateTransactionID ex_meta = (set_nextTxID 2 ex_meta, Ok 1) /\ (1 < 2)%Z.
Proof.
  split; [reflexivity|].
  apply (transaction_ids_fresh ex_meta (set_nextTxID 2 ex_meta) (set_nextTxID 2 ex_meta)
           (set_nextTxID 3 (set_nextTxID 2 ex_meta)) 1 2);
    [apply ex_meta_reachable|reflexivity|done|apply rtc_refl|reflexivity].
Defined.

(** * Reachable stores: the log and the metadata together

    Log operations leave the metadata maps alone and metadata operations leave
    the log alone, so a store built by any interleaving of them satisfies both
    invariants. *)

(** The same metadata. *)
Definition meta_eq (s s' : MemoryStore) : Prop :=
  offsetStates s' = offsetStates s /\ consumerPauses s' = consumerPauses s /\ members s' = members s /\
  assignments s' = assignments s /\ transactions s' = transactions s /\ producerBatches s' = producerBatches s /\
  placements s' = placements s /\ dlqIndexes s' = dlqIndexes s.

#[export] Instance meta_eq_preorder : PreOrder meta_eq.
Proof.
  split; unfold meta_eq; [done|]. intros s1 s2 s3 H1 H2. destruct_and!. split_and!; congruence.
Qed.

#[export] Instance meta_inv_proper : Proper (meta_eq ==> impl) meta_inv.
Proof.
  intros s s' (E1 & E2 & E3 & E4 & E5 & E6 & E7 & E8) [H1 H2 H3 H4 H5 H6 H7 H8].
  split; rewrite ?E1, ?E2, ?E3, ?E4, ?E5, ?E6, ?E7, ?E8; done.
Qed.

(** A projection that does not see the four maps of the log does not see the
    log's methods. *)
Section LogFrame.
Context {X : Type} (f : MemoryStore -> X).
Hypothesis f_topics : forall v s, f (set_topics v s) = f s.
Hypothesis f_topicNames : forall v s, f (set_topicNames v s) = f s.
Hypothesis f_records : forall v s, f (set_records v s) = f s.
Hypothesis f_nextOffsets : forall v s, f (set_nextOffsets v s) = f s.

Lemma foldl_frame {Y A} (proj : Y -> MemoryStore) (g : Y -> A -> Y) l y :
  (forall y a, f (proj (g y a)) = f (proj y)) -> f (proj (foldl g y l)) = f (proj y).
Proof. intros Hg. induction l as [|a l IH] in y |- *; [done|]. simpl. by rewrite IH. Qed.

Lemma ensurePartition_field initial n s p : f (ensurePartition initial n s p) = f s.
Proof. unfold ensurePartition. repeat case_match; by rewrite ?f_nextOffsets, ?f_records. Qed.

Lemma cleanPartition_field removable s entry : f (cleanPartition removable s entry).1 = f s.
Proof. unfold cleanPartition. repeat case_match; cbn [fst]; by rewrite ?f_nextOffsets, ?f_records. Qed.

Lemma log_step_field `{MapRange} s s' : log_step s s' -> f s' = f s.
Proof.
  intros [s0 topic|s0 topic|t s0 tp ar _|s0 c t|s0 c t].
  - unfold CreateTopic. repeat (case_match; [done|]). cbn [fst].
    etrans; [apply (foldl_frame id); intros; apply ensurePartition_field|]. by etrans; [apply f_topics|apply f_topicNames].
  - unfold SaveTopicConfig. repeat (case_match; [done|]). cbn [fst].
    etrans; [apply (foldl_frame id); intros; apply ensurePartition_field|]. by etrans; [apply f_topics|apply f_topicNames].
  - unfold AppendRecord. repeat case_match; cbn [fst]; by rewrite ?f_nextOffsets, ?f_records.
  - unfold EnforceRetention. destruct c; [done|].
    match goal with |- context [foldl ?g ?x ?l] => pose proof (foldl_frame fst g l x) as Hf; destruct (foldl g x l) as [s1 n] end.
    apply Hf. intros [x n'] entry.
    pose proof (cleanPartition_field (fun topic rs => retentionRemovableOffsets topic rs t) x entry) as Hc.
    destruct (cleanPartition _ x entry) as [x' [r|]]; exact Hc.
  - unfold Compact. destruct c; [done|].
    match goal with |- context [foldl ?g ?x ?l] => pose proof (foldl_frame fst g l x) as Hf; destruct (foldl g x l) as [s1 [n1 n2]] end.
    apply Hf. intros [x [n1' n2']] entry.
    pose proof (cleanPartition_field (fun topic rs => compactionRemovableOffsets topic rs t) x entry) as Hc.
    destruct (cleanPartition _ x entry) as [x' [r|]]; exact Hc.
Qed.

End LogFrame.

Lemma log_step_meta `{MapRange} s s' : log_step s s' -> meta_eq s s'.
Proof. intros Hs. unfold meta_eq. split_and!; by eapply log_step_field. Qed.

Lemma AppendRecordsBatch_meta clock s tp ars : meta_eq s (AppendRecordsBatch clock s tp ars).1.
Proof.
  induction ars as [|ar ars IH] in clock, s |- *; [reflexivity|]. cbn [AppendRecordsBatch].
  assert (meta_eq s (AppendRecord (clock 0%nat) s tp ar).1) as Ha by (unfold AppendRecord; repeat case_match; done).
  destruct (AppendRecord (clock 0%nat) s tp ar) as [s1 [r|e]]; cbn [fst] in *; [|done].
  specialize (IH (fun i => clock (S i)) s1). destruct (AppendRecordsBatch _ s1 tp ars) as [s2 out]. cbn [fst] in *. by etrans.
Qed.

(** The same log. *)
Definition log_eq (s s' : MemoryStore) : Prop :=
  topics s' = topics s /\ topicNames s' = topicNames s /\ records s' = records s /\ nextOffsets s' = nextOffsets s.

#[export] Instance log_inv_proper : Proper (log_eq ==> impl) log_inv.
Proof.
  intros s s' (E1 & E2 & E3 & E4) [H1 H2 H3 H4 H5]. split; rewrite ?E1, ?E2, ?E3, ?E4; done.
Qed.

Lemma meta_step_log s s' : meta_step s s' -> log_eq s s'.
Proof.
  intros []; unfold SaveConsumerOffsetState, DeleteConsumerOffsetState, SaveConsumerPause, DeleteConsumerPause,
    SaveGroupMember, DeleteGroupMember, SaveGroupAssignment, SaveTransaction, AllocateTransactionID,
    SaveProducerBatch, DeleteProducerBatch, SaveShardPlacement, SaveDLQIndex, SaveBrokerState, DeleteExpiredGroupMembers;
    repeat case_match; done.
Qed.

Definition store_step `{MapRange} (s s' : MemoryStore) : Prop := log_step s s' \/ meta_step s s'.
Definition store_inv (s : MemoryStore) : Prop := log_inv s /\ meta_inv s.

Lemma store_step_inv `{MapRange} s s' : store_step s s' -> store_inv s -> store_inv s'.
Proof.
  intros [Hs|Hs] [Hl Hm]; split.
  - by apply (log_steps_inv _ _ Hl), rtc_once.
  - by rewrite <- (log_step_meta _ _ Hs).
  - by rewrite <- (meta_step_log _ _ Hs).
  - by eapply meta_step_inv.
Qed.

Lemma store_steps_inv `{MapRange} s s' : rtc store_step s s' -> store_inv s -> store_inv s'.
Proof. induction 1; eauto using store_step_inv. Qed.

Lemma store_inv_empty : store_inv NewMemoryStore.
Proof. split; [apply log_inv_empty|]. by apply meta_reachable_inv. Qed.

Lemma store_reachable_inv `{MapRange} s : rtc store_step NewMemoryStore s -> store_inv s.
Proof. intros Hr. by eapply store_steps_inv, store_inv_empty. Qed.
