(* ===== verification/Queue.v ===== *)
(** * The queue runtime

    [src/queue/runtime.go]: topics, publishing, fetching and committing on top
    of the store interfaces.  The runtime has a log store and a metadata
    store; in the in-memory broker both are one [MemoryStore], which is the
    state here.  The runtime wraps the errors of the store, and the model
    keeps the code of the wrapped error.  [NowMS] is an argument. *)

From stdpp Require Import prelude gmap strings list.
From S2P Require Import Prelude Model MemoryStore MetaStore.

#[local] Open Scope Z_scope.

Definition CreateTopic (s : MemoryStore) (topic : TopicConfig) : MemoryStore * result Code unit :=
  match MemoryStore.CreateTopic s topic with
  | (s, Err e) => (s, Err e)
  | (s, Ok _) => SaveTopicConfig s topic
  end.

Definition PublishRecord (nowMS : Z) (s : MemoryStore) (topic : string) (partition : Z) (record : RecordAppend)
    : MemoryStore * result Code Rec :=
  AppendRecord nowMS s (NewTopicPartition topic partition) record.

Definition Publish (nowMS : Z) (s : MemoryStore) (topic : string) (partition : Z) (payload : bytes)
    : MemoryStore * result Code Rec :=
  PublishRecord nowMS s topic partition (NewRecordAppend payload).

Definition PublishBatchRecords (clock : nat -> Z) (s : MemoryStore) (topic : string) (partition : Z)
    (records : list RecordAppend) : MemoryStore * result Code (list Rec) :=
  AppendRecordsBatch clock s (NewTopicPartition topic partition) records.

Definition Fetch (s : MemoryStore) (consumer topic : string) (partition : Z) (offset : option Z) (maxRecords : Z)
    : result Code PollResult :=
  let tp := NewTopicPartition topic partition in
  offsets ← PartitionOffsets s tp;
  nextOffset ←
    match offset with
    | Some offset => Ok (Z.max offset (pos_LogStartOffset offsets))
    | None =>
        committed ← LoadConsumerOffset s consumer tp;
        Ok (match committed with
            | Some committed => Z.max committed (pos_LogStartOffset offsets)
            | None => pos_LogStartOffset offsets
            end)
    end;
  records ← ReadFrom s tp nextOffset maxRecords;
  let computedNext :=
    match last records with Some record => u64 (r_Offset record + 1) | None => nextOffset end in
  Ok {| pr_Records := records;
        pr_NextOffset := computedNext;
        pr_HighWatermark := pos_HighWatermark offsets;
        pr_LowWatermark := pos_LowWatermark offsets;
        pr_LogStartOffset := pos_LogStartOffset offsets |}.

Definition Ack (nowMS : Z) (s : MemoryStore) (consumer topic : string) (partition nextOffset : Z)
    : MemoryStore * result Code unit :=
  SaveConsumerOffset nowMS s consumer (NewTopicPartition topic partition) nextOffset.

Definition ListTopics `{MapRange} (s : MemoryStore) : result Code (list TopicConfig) := MemoryStore.ListTopics s.
