(* ===== verification/QueueSpec.v ===== *)
(** * The queue delivers every record once, in order

    A consumer that fetches from its committed offset and commits what the
    fetch returned reads the log of its partition from the beginning, without
    gaps or repetitions, while producers publish and other consumers commit. *)

From stdpp Require Import prelude gmap strings list.
From S2P Require Import Prelude Model MemoryStore LogSpec MetaStore MetaSpec Queue.

#[local] Open Scope Z_scope.

(** ** Where a consumer stands *)

Definition logStart (s : MemoryStore) (tp : TopicPartition) : Z :=
  match recordOffsets (recordsOf s tp) with [] => nextOffsetOf s tp | value :: _ => value end.

(** The position from which a fetch without explicit offset reads. *)
Definition position (s : MemoryStore) (consumer : string) (tp : TopicPartition) : Z :=
  match LoadConsumerOffset s consumer tp with
  | Ok (Some committed) => Z.max committed (logStart s tp)
  | _ => logStart s tp
  end.

Definition unread (s : MemoryStore) (consumer : string) (tp : TopicPartition) : list Rec :=
  filter (fun r => position s consumer tp <= r_Offset r) (recordsOf s tp).

Lemma LoadConsumerOffset_total s consumer tp : exists c, LoadConsumerOffset s consumer tp = Ok c.
Proof. unfold LoadConsumerOffset. destruct (offsetStates s !! _); by eexists. Qed.

Lemma Fetch_spec s consumer topic partition maxRecords :
  let tp := NewTopicPartition topic partition in
  log_inv s -> validatePartitionLocked s tp = Ok tt -> 0 < maxRecords ->
  exists res, Fetch s consumer topic partition None maxRecords = Ok res /\
    pr_Records res = take (Z.to_nat maxRecords) (unread s consumer tp) /\
    pr_NextOffset res =
      match last (pr_Records res) with Some r => u64 (r_Offset r + 1) | None => position s consumer tp end /\
    pr_LogStartOffset res = logStart s tp.
Proof.
  intros tp Hinv Hv Hm. unfold Fetch. fold tp. rewrite PartitionOffsets_ok by done. cbn [mbind result_bind].
  destruct (LoadConsumerOffset_total s consumer tp) as [c Hc]. rewrite Hc. cbn [mbind result_bind].
  assert (match c with Some committed => Z.max committed (logStart s tp) | None => logStart s tp end = position s consumer tp) as Hp
    by (unfold position; rewrite Hc; by destruct c).
  change (pos_LogStartOffset _) with (logStart s tp). rewrite Hp.
  rewrite ReadFrom_ok by done. cbn [mbind result_bind]. eexists. split; [done|]. done.
Qed.

(** Reading on from the last record of a fetch leaves exactly the rest. *)
Lemma filter_after_take rs next n c r :
  log_ok rs next -> last (take n (filter (fun x => c <= r_Offset x) rs)) = Some r ->
  filter (fun x => r_Offset r + 1 <= r_Offset x) rs = drop n (filter (fun x => c <= r_Offset x) rs) /\
  c <= r_Offset r /\ 0 <= r_Offset r < next.
Proof.
  intros Hok Hl. set (F := filter (fun x => c <= r_Offset x) rs) in *.
  assert (log_ok F next) as HF by (by apply log_ok_filter).
  destruct (decide (n <= length F)%nat) as [Hn|Hn].
  - assert (0 < n <= length F)%nat as Hn' by (destruct n; [done|lia]).
    destruct (take_drop_last n F Hn') as (l1 & x & Et & El & EF). rewrite Hl in El. injection El as <-.
    assert (r ∈ F) as Hin by (rewrite EF; set_solver). pose proof Hin as [Hc _]%list_elem_of_filter.
    pose proof HF as [_ Hb%Forall_fmap]. rewrite Forall_forall in Hb. specialize (Hb r Hin). simpl in Hb.
    rewrite EF in HF. pose proof (filter_after_last _ _ _ _ HF) as Hrest. rewrite <- EF in Hrest.
    split_and!; [|done|lia|lia]. rewrite <- Hrest. unfold F. rewrite list_filter_filter. apply list_filter_iff. intros y. lia.
  - rewrite take_ge in Hl by lia. rewrite drop_ge by lia.
    apply last_Some in Hl as [l1 EF]. assert (r ∈ F) as Hin by (rewrite EF; set_solver). pose proof Hin as [Hc _]%list_elem_of_filter.
    pose proof HF as [_ Hb%Forall_fmap]. rewrite Forall_forall in Hb. specialize (Hb r Hin). simpl in Hb.
    rewrite EF in HF. pose proof (filter_after_last _ _ _ _ HF) as Hrest. rewrite <- EF in Hrest.
    split_and!; [|done|lia|lia]. rewrite <- Hrest. unfold F. rewrite list_filter_filter. apply list_filter_iff. intros y. lia.
Qed.

(** ** Runs of one consumer among others *)

Section Consumer.
Context (consumer topic : string) (partition : Z).
#[local] Abbreviation tp := (NewTopicPartition topic partition).

(** The store, and the records delivered to the consumer so far. *)
Inductive queue_step : MemoryStore * list Rec -> MemoryStore * list Rec -> Prop :=
| q_publish clock s delivered topic' partition' ars :
    nextOffsetOf s (NewTopicPartition topic' partition') + len ars <= max_u64 ->
    queue_step (s, delivered) ((PublishBatchRecords clock s topic' partition' ars).1, delivered)
| q_poll nowMS s delivered maxRecords res :
    0 < maxRecords -> Fetch s consumer topic partition None maxRecords = Ok res ->
    queue_step (s, delivered)
      ((Ack nowMS s consumer topic partition (pr_NextOffset res)).1, delivered ++ pr_Records res)
| q_other nowMS s delivered consumer' topic' partition' nextOffset :
    (consumer', topic', partition') <> (consumer, topic, partition) ->
    no_nul topic' = true -> 0 <= partition' ->
    queue_step (s, delivered) ((Ack nowMS s consumer' topic' partition' nextOffset).1, delivered).

Record queue_inv (x : MemoryStore * list Rec) : Prop := {
  qi_log : log_inv x.1;
  qi_valid : validatePartitionLocked x.1 tp = Ok tt;
  qi_delivered : recordsOf x.1 tp = x.2 ++ unread x.1 consumer tp;
  qi_position : position x.1 consumer tp <= nextOffsetOf x.1 tp
}.

(** Appending keeps the position and adds the new records to the unread ones. *)
Lemma position_append s s' rs :
  log_inv s -> recordsOf s' tp = recordsOf s tp ++ rs ->
  recordOffsets rs = seqZ (nextOffsetOf s tp) (len rs) -> nextOffsetOf s' tp = nextOffsetOf s tp + len rs ->
  LoadConsumerOffset s' consumer tp = LoadConsumerOffset s consumer tp ->
  position s' consumer tp = position s consumer tp.
Proof using Type.
  intros Hinv Hr Ho Hn Hl. unfold position. rewrite Hl. replace (logStart s' tp) with (logStart s tp); [done|].
  unfold logStart. rewrite Hr. unfold recordOffsets in *. rewrite fmap_app.
  destruct (recordsOf s tp) as [|r0 l0]; [|done]. simpl. destruct rs as [|r rs]; simpl.
  - rewrite Hn. autorewrite with len. lia.
  - rewrite fmap_cons, seqZ_cons in Ho by (autorewrite with len; pose proof (len_nonneg rs); lia). by injection Ho as ->.
Qed.

Lemma AppendRecordsBatch_offsets clock s tp' ars :
  LoadConsumerOffset (AppendRecordsBatch clock s tp' ars).1 consumer tp = LoadConsumerOffset s consumer tp.
Proof using Type.
  induction ars as [|ar ars IH] in clock, s |- *; [done|]. cbn [AppendRecordsBatch].
  assert (forall s1, (AppendRecord (clock 0%nat) s tp' ar).1 = s1 ->
    LoadConsumerOffset s1 consumer tp = LoadConsumerOffset s consumer tp) as Ha.
  { intros s1 <-. unfold AppendRecord. repeat case_match; done. }
  destruct (AppendRecord (clock 0%nat) s tp' ar) as [s1 [r|e]]; cbn [fst] in *; [|by apply Ha].
  specialize (IH (fun i => clock (S i)) s1). destruct (AppendRecordsBatch _ s1 tp' ars) as [s2 out]. simpl in *.
  by rewrite IH, Ha.
Qed.

Lemma publish_inv clock s delivered topic' partition' ars :
  nextOffsetOf s (NewTopicPartition topic' partition') + len ars <= max_u64 ->
  queue_inv (s, delivered) -> queue_inv ((PublishBatchRecords clock s topic' partition' ars).1, delivered).
Proof using Type.
  intros Hroom [Hinv Hv Hd Hp]. cbn [fst snd] in *. unfold PublishBatchRecords.
  pose proof (AppendRecordsBatch_offsets clock s (NewTopicPartition topic' partition') ars) as Hoff.
  destruct (AppendRecordsBatch clock s (NewTopicPartition topic' partition') ars) as [s' res] eqn:Ea. cbn [fst] in *.
  destruct (AppendRecordsBatch_spec _ _ _ _ _ _ Hinv Hroom Ea) as (rs & Hr & Ho & Hn & Hinv' & Ht & Hother & _).
  assert (validatePartitionLocked s' tp = Ok tt) as Hv' by (unfold validatePartitionLocked in *; by rewrite Ht).
  assert (exists rs, recordsOf s' tp = recordsOf s tp ++ rs /\ recordOffsets rs = seqZ (nextOffsetOf s tp) (len rs) /\
            nextOffsetOf s' tp = nextOffsetOf s tp + len rs) as (rs0 & Hr0 & Ho0 & Hn0).
  { destruct (decide (NewTopicPartition topic' partition' = tp)) as [E|E]; [rewrite E in *; by exists rs|].
    destruct (Hother tp) as [-> ->]; [congruence|]. exists []. rewrite app_nil_r. autorewrite with len.
    by rewrite Z.add_0_r. }
  pose proof (position_append s s' rs0 Hinv Hr0 Ho0 Hn0 Hoff) as Hpos.
  split; cbn [fst snd]; [done|done| |rewrite Hpos, Hn0; pose proof (len_nonneg rs0); lia].
  unfold unread in *. rewrite Hpos, Hr0, filter_app, app_assoc, <- Hd. f_equal. symmetry. apply filter_all.
  apply Forall_forall. intros r Hin. apply (list_elem_of_fmap_2 r_Offset) in Hin.
  change (r_Offset <$> rs0) with (recordOffsets rs0) in Hin. rewrite Ho0 in Hin. apply elem_of_seqZ in Hin. lia.
Qed.

Lemma Ack_log nowMS s c t p n : log_eq s (Ack nowMS s c t p n).1.
Proof using Type. unfold Ack, SaveConsumerOffset. apply meta_step_log, meta_save_offset. Qed.

Hypothesis Hconsumer : consumer <> ""%string.
Hypothesis Htopic : topic <> ""%string.
Hypothesis Hnul : no_nul topic = true.
Hypothesis Hpartition : 0 <= partition.

Lemma Ack_load nowMS s n : LoadConsumerOffset (Ack nowMS s consumer topic partition n).1 consumer tp = Ok (Some n).
Proof using Hconsumer Htopic.
  unfold Ack, SaveConsumerOffset, SaveConsumerOffsetState, validateConsumerOffsetState, LoadConsumerOffset. simpl.
  rewrite !decide_False by done. simpl. by rewrite lookup_insert_eq.
Qed.

Lemma Ack_load_other nowMS s c t p n :
  (c, t, p) <> (consumer, topic, partition) -> no_nul t = true -> 0 <= p ->
  LoadConsumerOffset (Ack nowMS s c t p n).1 consumer tp = LoadConsumerOffset s consumer tp.
Proof using Hnul Hpartition.
  intros Hne Ht Hp. unfold Ack, SaveConsumerOffset, SaveConsumerOffsetState, LoadConsumerOffset. simpl.
  destruct (validateConsumerOffsetState _); [|done]. simpl.
  assert (offsetKey c (NewTopicPartition t p) <> offsetKey consumer tp) as Hk
    by (intros E; apply offsetKey_inj in E as [Ec Et]; [congruence|done..]).
  by rewrite !lookup_insert_ne by done.
Qed.

(** The log part of the invariant survives a commit. *)
Lemma queue_inv_log_eq s s' :
  log_eq s s' -> log_inv s -> validatePartitionLocked s tp = Ok tt ->
  log_inv s' /\ validatePartitionLocked s' tp = Ok tt /\ recordsOf s' tp = recordsOf s tp /\
  nextOffsetOf s' tp = nextOffsetOf s tp /\ logStart s' tp = logStart s tp.
Proof using Type.
  intros He Hinv Hv. split; [by rewrite <- He|]. destruct He as (E1 & _ & E3 & E4).
  unfold logStart, validatePartitionLocked, nextOffsetOf, recordsOf in *. rewrite E1, E3, ?E4. split_and!; done.
Qed.

Lemma poll_inv nowMS s delivered maxRecords res :
  0 < maxRecords -> Fetch s consumer topic partition None maxRecords = Ok res ->
  queue_inv (s, delivered) ->
  queue_inv ((Ack nowMS s consumer topic partition (pr_NextOffset res)).1, delivered ++ pr_Records res).
Proof using Hconsumer Htopic.
  intros Hm Hf [Hinv Hv Hd Hp]. cbn [fst snd] in *.
  destruct (Fetch_spec s consumer topic partition maxRecords Hinv Hv Hm) as (res' & Hf' & Hrec & Hnext & _).
  rewrite Hf in Hf'. injection Hf' as <-. set (s' := (Ack nowMS s consumer topic partition (pr_NextOffset res)).1).
  destruct (queue_inv_log_eq s s' (Ack_log _ _ _ _ _ _) Hinv Hv) as (Hinv' & Hv' & Er & En & El).
  assert (position s' consumer tp = Z.max (pr_NextOffset res) (logStart s tp)) as Hpos
    by (unfold position, s'; rewrite Ack_load; by fold s'; rewrite El).
  assert (logStart s tp <= position s consumer tp) as Hge by (unfold position; repeat case_match; lia).
  assert (unread s' consumer tp = drop (Z.to_nat maxRecords) (unread s consumer tp) /\
          position s' consumer tp <= nextOffsetOf s tp) as [Hun Hle].
  { unfold unread. rewrite Hpos, Er, Hnext.
    destruct (last (pr_Records res)) as [r|] eqn:Hl; rewrite Hrec in Hl.
    - pose proof (log_inv_recordsOf s tp Hinv) as Hok. pose proof (log_inv_next_u64 s tp Hinv) as Hu. unfold is_u64 in Hu.
      destruct (filter_after_take _ _ _ _ _ Hok Hl) as (Hrest & Hc & Hb).
      rewrite u64_small by (unfold is_u64; lia). rewrite Z.max_l by lia. split; [exact Hrest|lia].
    - rewrite Z.max_l by done. split; [|done]. apply last_None in Hl.
      fold (unread s consumer tp). rewrite <- (take_drop (Z.to_nat maxRecords) (unread s consumer tp)) at 1. by rewrite Hl. }
  split; cbn [fst snd]; [done|done| |by rewrite En].
  rewrite Hun, Hrec, <- app_assoc, take_drop, Er. exact Hd.
Qed.

Lemma other_inv nowMS s delivered c t p n :
  (c, t, p) <> (consumer, topic, partition) -> no_nul t = true -> 0 <= p ->
  queue_inv (s, delivered) -> queue_inv ((Ack nowMS s c t p n).1, delivered).
Proof using Hnul Hpartition.
  intros Hne Ht Hp0 [Hinv Hv Hd Hp]. cbn [fst snd] in *. set (s' := (Ack nowMS s c t p n).1).
  destruct (queue_inv_log_eq s s' (Ack_log _ _ _ _ _ _) Hinv Hv) as (Hinv' & Hv' & Er & En & El).
  assert (position s' consumer tp = position s consumer tp) as Hpos
    by (unfold position, s'; rewrite Ack_load_other by done; fold s'; by rewrite El).
  split; cbn [fst snd]; [done|done| |by rewrite Hpos, En]. unfold unread in *. by rewrite Hpos, Er.
Qed.


End Consumer.

(** ** A run *)

Definition ex_poll (s : MemoryStore) : PollResult :=
  match Fetch s "worker" "orders" 0 None 1 with Ok res => res | Err _ => mkPollResult [] 0 None None 0 end.
Definition ex_after : MemoryStore := (Ack 9 ex_s2 "worker" "orders" 0 (pr_NextOffset (ex_poll ex_s2))).1.

