(* ===== verification/Idempotency.v ===== *)
(** * Idempotent producers

    [src/broker/producer_idempotency.go], with the number helpers of
    [transaction_dedupe.go] and [transaction_helpers.go].

    A producer numbers its records; the broker remembers the last published
    batches of each producer and partition and answers a retry with the
    records of the first attempt.  The queue runtime and the metadata store
    are one [MemoryStore]; [producerDedupeMu] makes the operation atomic.
    [clock] is what [NowMS] returns during the append, [nowMS] afterwards. *)

From stdpp Require Import prelude gmap strings sorting list.
From S2P Require Import Prelude Model MemoryStore MetaStore Queue.

#[local] Open Scope Z_scope.
#[local] Open Scope ech0_scope.

Definition producerDedupeWindowBatches : nat := 1024.

(** The code of a store error, or the code of an error of the broker itself. *)
Inductive BrokerError := StoreError (code : Code) | BrokerFailure (code : string).

Definition of_store {A} (r : result Code A) : result BrokerError A :=
  match r with Ok a => Ok a | Err code => Err (StoreError code) end.

Record PublishPartitioning := mkPublishPartitioning {
  pp_Mode : string;
  pp_Partition : Z;
  pp_RoutingKey : string
}.

Record ProduceIdempotency := mkProduceIdempotency {
  pi_ProducerID : Z;
  pi_ProducerEpoch : Z;
  pi_BaseSequence : Z
}.

Record produceBatchCommand := mkProduceBatchCommand {
  pbc_Topic : string;
  pbc_Partitioning : PublishPartitioning;
  pbc_Records : list RecordAppend;
  pbc_Idempotency : option ProduceIdempotency
}.

Record appendProduceBatchResult := mkAppendProduceBatchResult {
  apr_Records : list Rec;
  apr_Appended : bool
}.

(** ** Numbers *)

Definition sequenceAfterCount (base count : Z) : result BrokerError Z :=
  if max_u64 - count <? base then Err (StoreError CodeInvalidArgument) else Ok (base + count).

(** [strconv.Atoi] of a decimal 64-bit number. *)
Definition intFromUint64 (value : Z) : result BrokerError Z :=
  if 2 ^ 63 - 1 <? value then Err (BrokerFailure "uint64_to_int_failed") else Ok value.

Definition uint64FromNonNegativeInt (value : Z) : result BrokerError Z :=
  if value <? 0 then Err (StoreError CodeInvalidArgument) else Ok value.

Definition producerRecordCount (records : Z) : result BrokerError Z :=
  if records <=? 0 then Err (StoreError CodeInvalidArgument) else uint64FromNonNegativeInt records.

(** ** The window of published batches *)

Definition validateProduceIdempotency (id : ProduceIdempotency) (recordCount : Z) : result BrokerError unit :=
  if pi_ProducerID id =? 0 then Err (StoreError CodeInvalidArgument)
  else _ ← sequenceAfterCount (pi_BaseSequence id) recordCount; Ok tt.

Fixpoint ensureProducerEpochWritable (id : ProduceIdempotency) (batches : list ProducerPublishedBatch)
    : result BrokerError unit :=
  match batches with
  | [] => Ok tt
  | batch :: batches =>
      if pi_ProducerEpoch id <? ppb_ProducerEpoch batch then Err (StoreError CodeInvalidArgument)
      else ensureProducerEpochWritable id batches
  end.

Definition producerBatchOverlapsSequence (batch : ProducerPublishedBatch) (sequence : Z) : result BrokerError bool :=
  next ← sequenceAfterCount (ppb_BaseSequence batch) (ppb_RecordCount batch);
  Ok ((ppb_BaseSequence batch <=? sequence) && (sequence <? next)).

Fixpoint findProducerPublishedBatch (batches : list ProducerPublishedBatch) (id : ProduceIdempotency)
    (recordCount : Z) : result BrokerError (option ProducerPublishedBatch) :=
  match batches with
  | [] => Ok None
  | batch :: batches =>
      if negb (ppb_ProducerEpoch batch =? pi_ProducerEpoch id) then findProducerPublishedBatch batches id recordCount
      else
        overlaps ← producerBatchOverlapsSequence batch (pi_BaseSequence id);
        if negb overlaps then findProducerPublishedBatch batches id recordCount
        else if negb (ppb_BaseSequence batch =? pi_BaseSequence id) || negb (ppb_RecordCount batch =? recordCount)
        then Err (StoreError CodeInvalidArgument)
        else Ok (Some batch)
  end.

Definition producerFilter (id : ProduceIdempotency) (topic : string) (partition : Z) : ProducerBatchFilter :=
  {| pbf_ProducerID := pi_ProducerID id; pbf_Topic := topic; pbf_ProducerEpoch := 0; pbf_EpochSet := false;
     pbf_Partition := partition; pbf_PartitionSet := true |}.

Definition loadProducerDedupeBatches `{MapRange} (s : MemoryStore) (topic : string) (partition : Z)
    (id : ProduceIdempotency) (recordCount : Z)
    : result BrokerError (list ProducerPublishedBatch * ProducerBatchFilter) :=
  _ ← validateProduceIdempotency id recordCount;
  let filter := producerFilter id topic partition in
  batches ← of_store (ListProducerBatches s filter);
  _ ← ensureProducerEpochWritable id batches;
  Ok (batches, filter).

(** ** Reading a published batch again *)

Definition validateProducerPublishedRecords (batch : ProducerPublishedBatch) (records : list Rec)
    : result BrokerError unit :=
  actualCount ← uint64FromNonNegativeInt (len records);
  if negb (actualCount =? ppb_RecordCount batch) then Err (StoreError CodeUnavailable)
  else
    match head records, last records with
    | Some first, Some final =>
        if negb (r_Offset first =? ppb_BaseOffset batch) || negb (r_Offset final =? ppb_LastOffset batch)
        then Err (StoreError CodeUnavailable) else Ok tt
    | _, _ => Err (BrokerFailure "panic")
    end.

Definition readProducerPublishedBatch (s : MemoryStore) (batch : ProducerPublishedBatch)
    : result BrokerError (list Rec) :=
  recordCount ← intFromUint64 (ppb_RecordCount batch);
  records ← of_store (ReadFrom s (NewTopicPartition (ppb_Topic batch) (ppb_Partition batch)) (ppb_BaseOffset batch) recordCount);
  _ ← validateProducerPublishedRecords batch records;
  Ok records.

(** ** Remembering a published batch *)

Fixpoint validateOffsetsLoop (baseOffset delta : Z) (records : list Rec) : result BrokerError unit :=
  match records with
  | [] => Ok tt
  | record :: records =>
      if max_u64 - delta <? baseOffset then Err (StoreError CodeInvalidArgument)
      else if negb (r_Offset record =? baseOffset + delta) then Err (StoreError CodeCodec)
      else validateOffsetsLoop baseOffset (delta + 1) records
  end.

(** Of a non-empty list. *)
Definition validateProducerPublishedOffsets (records : list Rec) : result BrokerError unit :=
  match records with
  | [] => Err (BrokerFailure "panic")
  | first :: _ => validateOffsetsLoop (r_Offset first) 0 records
  end.

Definition newProducerPublishedBatch (nowMS : Z) (id : ProduceIdempotency) (topic : string) (partition : Z)
    (records : list Rec) : result BrokerError ProducerPublishedBatch :=
  match head records, last records with
  | Some first, Some final =>
      _ ← validateProducerPublishedOffsets records;
      count ← producerRecordCount (len records);
      if r_Offset final =? max_u64 then Err (StoreError CodeInvalidArgument)
      else
        Ok {| ppb_ProducerID := pi_ProducerID id; ppb_ProducerEpoch := pi_ProducerEpoch id;
              ppb_Topic := topic; ppb_Partition := partition; ppb_BaseSequence := pi_BaseSequence id;
              ppb_RecordCount := count; ppb_BaseOffset := r_Offset first; ppb_LastOffset := r_Offset final;
              ppb_NextOffset := r_Offset final + 1; ppb_UpdatedAtMS := nowMS |}
  | _, _ => Err (StoreError CodeCodec)
  end.

Definition compareBatchAge (left right : ProducerPublishedBatch) : comparison :=
  Z.compare (ppb_UpdatedAtMS left) (ppb_UpdatedAtMS right) <+>
  (Z.compare (ppb_ProducerEpoch left) (ppb_ProducerEpoch right) <+>
   Z.compare (ppb_BaseSequence left) (ppb_BaseSequence right)).

Definition deleteBatches (s : MemoryStore) (batches : list ProducerPublishedBatch) : MemoryStore :=
  foldl (fun s batch => (DeleteProducerBatch s batch).1) s batches.

(** The store's delete does not fail, so the loop has no early return. *)
Definition pruneProducerDedupeWindow `{MapRange} (s : MemoryStore) (filter : ProducerBatchFilter)
    : MemoryStore * result BrokerError unit :=
  match ListProducerBatches s filter with
  | Err code => (s, Err (StoreError code))
  | Ok batches =>
      if (length batches <=? producerDedupeWindowBatches)%nat then (s, Ok tt)
      else
        let ordered := sort_func compareBatchAge batches in
        let removeCount := (length ordered - producerDedupeWindowBatches)%nat in
        (deleteBatches s (take removeCount ordered), Ok tt)
  end.

Definition saveProducerDedupeBatch `{MapRange} (nowMS : Z) (s : MemoryStore) (filter : ProducerBatchFilter)
    (id : ProduceIdempotency) (topic : string) (partition : Z) (records : list Rec)
    : MemoryStore * result BrokerError unit :=
  match newProducerPublishedBatch nowMS id topic partition records with
  | Err e => (s, Err e)
  | Ok batch =>
      match SaveProducerBatch s batch with
      | (s, Err code) => (s, Err (StoreError code))
      | (s, Ok _) => pruneProducerDedupeWindow s filter
      end
  end.

(** ** Publishing *)

Definition appendIdempotentProduceBatch `{MapRange} (clock : nat -> Z) (nowMS : Z) (s : MemoryStore) (topic : string)
    (partition : Z) (id : ProduceIdempotency) (records : list RecordAppend)
    : MemoryStore * result BrokerError appendProduceBatchResult :=
  match
    recordCount ← producerRecordCount (len records);
    '(batches, filter) ← loadProducerDedupeBatches s topic partition id recordCount;
    found ← findProducerPublishedBatch batches id recordCount;
    Ok (filter, found)
  with
  | Err e => (s, Err e)
  | Ok (_, Some batch) =>
      (s, out ← readProducerPublishedBatch s batch; Ok (mkAppendProduceBatchResult out false))
  | Ok (filter, None) =>
      match PublishBatchRecords clock s topic partition records with
      | (s, Err code) => (s, Err (StoreError code))
      | (s, Ok out) =>
          match saveProducerDedupeBatch nowMS s filter id topic partition out with
          | (s, Err e) => (s, Err e)
          | (s, Ok _) => (s, Ok (mkAppendProduceBatchResult out true))
          end
      end
  end.

Definition appendProduceBatch `{MapRange} (clock : nat -> Z) (nowMS : Z) (s : MemoryStore) (topic : string)
    (partition : Z) (req : produceBatchCommand) : MemoryStore * result BrokerError appendProduceBatchResult :=
  match pbc_Idempotency req with
  | None =>
      match PublishBatchRecords clock s topic partition (pbc_Records req) with
      | (s, Err code) => (s, Err (StoreError code))
      | (s, Ok out) => (s, Ok (mkAppendProduceBatchResult out true))
      end
  | Some id => appendIdempotentProduceBatch clock nowMS s topic partition id (pbc_Records req)
  end.
