(* ===== verification/IdempotencySpec.v ===== *)
(** * Idempotent producers: a retry is answered, not appended

    A retry of a published batch returns the records of the first attempt and
    changes nothing, as long as the batch is within the window that the store
    keeps for a producer and its records are in the log; a producer with an older epoch is refused. *)

From stdpp Require Import prelude gmap strings sorting list.
From S2P Require Import Prelude Model MemoryStore LogSpec MetaStore MetaSpec Queue QueueSpec Idempotency.

#[local] Open Scope Z_scope.

(** ** The window of a producer *)

#[local] Instance compareBatchAge_order : CmpOrder compareBatchAge.
Proof. unfold compareBatchAge. solve_cmp_order. Qed.
#[local] Instance compareProducerPublishedBatch_ord : CmpOrder compareProducerPublishedBatch.
Proof. unfold compareProducerPublishedBatch. solve_cmp_order. Qed.

#[export] Instance ProducerPublishedBatch_eq_dec : EqDecision ProducerPublishedBatch.
Proof. solve_decision. Defined.

Definition window (s : MemoryStore) (f : ProducerBatchFilter) (b : ProducerPublishedBatch) : Prop :=
  (exists k, producerBatches s !! k = Some b) /\ producerBatchMatchesFilter b f = true.

Lemma ListProducerBatches_spec `{MapRange} s f :
  exists bs, ListProducerBatches s f = Ok bs /\ (forall b, b ∈ bs <-> window s f b) /\ (meta_inv s -> NoDup bs).
Proof.
  unfold ListProducerBatches. eexists. split; [done|]. unfold sortProducerPublishedBatches. split.
  - intros b. rewrite elem_of_sort_func, list_elem_of_filter, elem_of_values. unfold window. tauto.
  - intros Hm. rewrite sort_func_perm.
    pose proof (NoDup_values_by (producerBatches s) id (fun b => producerBatchMatchesFilter b f = true)) as Hnd.
    rewrite list_fmap_id in Hnd. apply Hnd. intros k1 v1 k2 v2 H1 H2 _ _ E. simpl in E. subst v2.
    apply (mi_batches s Hm) in H1 as ->. by apply (mi_batches s Hm) in H2 as ->.
Qed.

Lemma epoch_writable id bs :
  ensureProducerEpochWritable id bs = Ok tt <-> forall b, b ∈ bs -> ppb_ProducerEpoch b <= pi_ProducerEpoch id.
Proof.
  induction bs as [|b bs IH]; cbn [ensureProducerEpochWritable].
  - split; [by intros _ ? ?%elem_of_nil|done].
  - destruct (Z.ltb_spec (pi_ProducerEpoch id) (ppb_ProducerEpoch b)) as [Hlt|Hge].
    + split; [done|]. intros Hall. specialize (Hall b ltac:(by left)). lia.
    + rewrite IH. setoid_rewrite elem_of_cons. split; [intros Hall b' [->|?]; [lia|auto]|auto].
Qed.

Lemma epoch_refused id bs b :
  b ∈ bs -> pi_ProducerEpoch id < ppb_ProducerEpoch b ->
  ensureProducerEpochWritable id bs = Err (StoreError CodeInvalidArgument).
Proof.
  induction bs as [|b' bs IH]; [by intros ?%elem_of_nil|]. cbn [ensureProducerEpochWritable].
  destruct (Z.ltb_spec (pi_ProducerEpoch id) (ppb_ProducerEpoch b')); [done|].
  intros [->|Hin]%elem_of_cons Hlt; [lia|by apply IH].
Qed.

(** Nothing found: no batch of the epoch contains the sequence number. *)
Lemma find_none bs id n :
  findProducerPublishedBatch bs id n = Ok None ->
  forall b, b ∈ bs -> ppb_ProducerEpoch b = pi_ProducerEpoch id ->
    producerBatchOverlapsSequence b (pi_BaseSequence id) = Ok false.
Proof.
  induction bs as [|b bs IH]; [by intros _ ? ?%elem_of_nil|]. cbn [findProducerPublishedBatch].
  destruct (Z.eqb_spec (ppb_ProducerEpoch b) (pi_ProducerEpoch id)) as [E|E]; cbn [negb].
  - destruct (producerBatchOverlapsSequence b (pi_BaseSequence id)) as [[]|e] eqn:Eo; cbn [mbind result_bind negb]; [|..|done].
    + by destruct (_ || _).
    + intros Hf b' [->|Hin]%elem_of_cons He; [done|by apply IH].
  - intros Hf b' [->|Hin]%elem_of_cons He; [done|by apply IH].
Qed.

(** The batch that starts at the sequence number is found when no other batch
    of the epoch contains it. *)
Lemma find_own bs id n x :
  x ∈ bs -> ppb_ProducerEpoch x = pi_ProducerEpoch id -> ppb_BaseSequence x = pi_BaseSequence id ->
  ppb_RecordCount x = n -> 0 < n -> pi_BaseSequence id + n <= max_u64 ->
  (forall b, b ∈ bs -> b <> x -> ppb_ProducerEpoch b = pi_ProducerEpoch id ->
     producerBatchOverlapsSequence b (pi_BaseSequence id) = Ok false) ->
  findProducerPublishedBatch bs id n = Ok (Some x).
Proof.
  intros Hin He Hb Hn Hpos Hmax Hother. induction bs as [|b bs IH]; [by apply elem_of_nil in Hin|].
  cbn [findProducerPublishedBatch]. destruct (decide (b = x)) as [->|Hne].
  - rewrite He, Z.eqb_refl. cbn [negb]. unfold producerBatchOverlapsSequence, sequenceAfterCount.
    rewrite Hb, Hn, (proj2 (Z.ltb_ge _ _)) by lia. cbn [mbind result_bind].
    rewrite Z.leb_refl, (proj2 (Z.ltb_lt _ _)) by lia. cbn [andb negb]. by rewrite !Z.eqb_refl.
  - apply elem_of_cons in Hin as [->|Hin]; [done|].
    assert (findProducerPublishedBatch bs id n = Ok (Some x)) as E by (apply IH; [done|intros b' ?; apply Hother; by right]).
    destruct (Z.eqb_spec (ppb_ProducerEpoch b) (pi_ProducerEpoch id)) as [Eb|Eb]; cbn [negb]; [|done].
    rewrite (Hother b) by (done || by left). done.
Qed.

(** ** Pruning *)

Lemma deleteBatches_lookup s bs k :
  producerBatches (deleteBatches s bs) !! k
  = if decide (k ∈ producerBatchKey <$> bs) then None else producerBatches s !! k.
Proof.
  induction bs as [|b bs IH] in s |- *; [done|]. unfold deleteBatches in *. cbn [foldl]. rewrite IH, fmap_cons. simpl.
  destruct (decide (k ∈ producerBatchKey <$> bs)) as [Hin|Hin]; [by rewrite decide_True by (by right)|].
  rewrite lookup_delete. destruct (decide (producerBatchKey b = k)) as [<-|Hne].
  - by rewrite decide_True by left.
  - rewrite decide_False; [done|]. by intros [->|?]%elem_of_cons.
Qed.

Lemma deleteBatches_step `{MapRange} s bs : rtc store_step s (deleteBatches s bs) /\ log_eq s (deleteBatches s bs).
Proof.
  induction bs as [|b bs IH] in s |- *; [split; [apply rtc_refl|done]|].
  destruct (IH (DeleteProducerBatch s b).1) as [Hr He]. split.
  - eapply rtc_l; [right; apply (meta_delete_batch s b)|exact Hr].
  - destruct He as (E1 & E2 & E3 & E4). unfold log_eq, deleteBatches in *. cbn [foldl]. by rewrite E1, E2, E3, E4.
Qed.

Lemma nul_split_inj_l a a' b b' :
  no_nul a = true -> no_nul a' = true -> (a ++ nul ++ b)%string = (a' ++ nul ++ b')%string -> a = a' /\ b = b'.
Proof.
  revert a'. induction a as [|c a IH]; intros [|c' a'] Ha Ha' E; simpl in *.
  - injection E as E. done.
  - injection E as <- _. discriminate.
  - injection E as -> _. discriminate.
  - apply andb_true_iff in Ha as [_ Ha]. apply andb_true_iff in Ha' as [_ Ha']. injection E as -> E. by destruct (IH a' Ha Ha' E) as [-> ->].
Qed.

(** The numbers of a batch are unsigned. *)
Definition batch_typed (b : ProducerPublishedBatch) : Prop :=
  0 <= ppb_ProducerID b /\ 0 <= ppb_ProducerEpoch b /\ 0 <= ppb_Partition b /\ 0 <= ppb_BaseSequence b.

Lemma producerBatchKey_inj b1 b2 :
  batch_typed b1 -> batch_typed b2 -> producerBatchKey b1 = producerBatchKey b2 ->
  ppb_ProducerID b1 = ppb_ProducerID b2 /\ ppb_ProducerEpoch b1 = ppb_ProducerEpoch b2 /\ ppb_Topic b1 = ppb_Topic b2 /\
  ppb_Partition b1 = ppb_Partition b2 /\ ppb_BaseSequence b1 = ppb_BaseSequence b2.
Proof.
  intros (A1 & A2 & A3 & A4) (B1 & B2 & B3 & B4) E. unfold producerBatchKey in E.
  apply nul_split_inj_l in E as [Ei%fmt_d_inj E]; [|by apply no_nul_fmt_d..].
  apply nul_split_inj_l in E as [Ee%fmt_d_inj E]; [|by apply no_nul_fmt_d..].
  assert (forall t p b, t ++ nul ++ p ++ nul ++ b = (t ++ nul ++ p) ++ nul ++ b)%string as Hassoc by (intros; by rewrite !string_app_assoc).
  rewrite !Hassoc in E. apply nul_split_inj in E as [E Eb%fmt_d_inj]; [|by apply no_nul_fmt_d..]. apply nul_split_inj in E as [Et Ep%fmt_d_inj]; [|by apply no_nul_fmt_d..]. done.
Qed.

(** What pruning leaves: a batch of another filter, and one with less than
    [producerDedupeWindowBatches] batches that are not older. *)
Lemma prune_spec `{MapRange} s f g x newer s' :
  store_inv s -> window s f x ->
  (producerBatchMatchesFilter x g = true -> (length newer < producerDedupeWindowBatches)%nat /\
     forall b, window s g b -> b <> x -> ppb_UpdatedAtMS x <= ppb_UpdatedAtMS b -> b ∈ newer) ->
  pruneProducerDedupeWindow s g = (s', Ok tt) ->
  store_inv s' /\ log_eq s s' /\ window s' f x /\ (forall h b, window s' h b -> window s h b).
Proof.
  intros Hs [[k Hk] Hf] Hnew. unfold pruneProducerDedupeWindow.
  destruct (ListProducerBatches_spec s g) as (bs & -> & Hin & Hnd). specialize (Hnd (proj2 Hs)).
  destruct (length bs <=? producerDedupeWindowBatches)%nat eqn:El; [intros [= <-]; split_and!; try done; by split; [exists k|]|].
  apply Nat.leb_gt in El. set (ordered := sort_func compareBatchAge bs). set (n := (length ordered - _)%nat).
  intros [= <-]. destruct (deleteBatches_step s (take n ordered)) as [Hstep Hlog].
  assert (length ordered = length bs) as Hlen by apply length_sort_func.
  assert (NoDup ordered) as Hndo by (unfold ordered; by rewrite sort_func_perm).
  assert (forall b, b ∈ ordered -> window s g b) as Hord by (intros b Hb; unfold ordered in Hb; rewrite elem_of_sort_func in Hb; by apply Hin).
  assert (x ∉ take n ordered) as Hx.
  { intros Hx. assert (x ∈ ordered) as [_ Hxg]%Hord by (rewrite <- (take_drop n ordered); set_solver). destruct (Hnew Hxg) as [Hcount Hall].
    pose proof (sort_func_sorted compareBatchAge bs) as Hsorted. fold ordered in Hsorted.
    rewrite <- (take_drop n ordered) in Hsorted, Hndo. apply StronglySorted_app in Hsorted as (Hle & _ & _).
    apply NoDup_app in Hndo as (_ & Hdis & Hndd).
    assert (length (drop n ordered) <= length newer)%nat as Hfew.
    { apply submseteq_length, NoDup_submseteq; [done|]. intros y Hy. specialize (Hle x y Hx Hy). apply Hall.
      - apply Hord. rewrite <- (take_drop n ordered). set_solver.
      - intros ->. by eapply Hdis.
      - unfold cmp_le, compareBatchAge in Hle. destruct (Z.compare_spec (ppb_UpdatedAtMS x) (ppb_UpdatedAtMS y)); [lia|lia|done]. }
    rewrite length_drop in Hfew. unfold n in Hfew. lia. }
  split_and!; [by eapply store_steps_inv|done| |].
  - split; [|done]. exists k. rewrite deleteBatches_lookup, decide_False; [done|].
    intros (b & Ek & Hb)%list_elem_of_fmap. apply Hx.
    assert (b ∈ ordered) as [[kb Hkb] _]%Hord by (apply elem_of_take in Hb as (i & Hi & _); by apply list_elem_of_lookup_2 in Hi).
    pose proof (mi_batches s (proj2 Hs) _ _ Hkb) as ->. rewrite <- Ek in Hkb. by simplify_eq.
  - intros h b [[kb Hkb] Hbf]. rewrite deleteBatches_lookup in Hkb. destruct (decide _); [done|]. split; [by exists kb|done].
Qed.

(** ** Publishing and retrying *)

Lemma SaveProducerBatch_spec s batch s' :
  store_inv s -> SaveProducerBatch s batch = (s', Ok tt) ->
  store_inv s' /\ log_eq s s' /\ producerBatches s' = <[producerBatchKey batch := batch]> (producerBatches s) /\
  ppb_RecordCount batch <> 0 /\ ppb_Topic batch <> "" /\ ppb_ProducerID batch <> 0.
Proof.
  intros Hs Hb. pose proof (meta_save_batch s batch) as Hstep. rewrite Hb in Hstep. simpl in Hstep.
  split; [by apply (@store_step_inv map_to_list_range _ _ (or_intror Hstep))|]. split; [by apply meta_step_log|].
  unfold SaveProducerBatch in Hb. destruct (validateProducerBatch batch) eqn:Ev; [|done]. injection Hb as <-.
  split; [done|]. unfold validateProducerBatch in Ev. repeat (case_match; [done|]). split_and!; [lia|done|lia].
Qed.

Lemma newBatch_spec nowMS id topic partition rs batch :
  newProducerPublishedBatch nowMS id topic partition rs = Ok batch ->
  exists first final, head rs = Some first /\ last rs = Some final /\
    batch = {| ppb_ProducerID := pi_ProducerID id; ppb_ProducerEpoch := pi_ProducerEpoch id; ppb_Topic := topic;
               ppb_Partition := partition; ppb_BaseSequence := pi_BaseSequence id; ppb_RecordCount := len rs;
               ppb_BaseOffset := r_Offset first; ppb_LastOffset := r_Offset final;
               ppb_NextOffset := r_Offset final + 1; ppb_UpdatedAtMS := nowMS |}.
Proof.
  unfold newProducerPublishedBatch. destruct (head rs) as [first|]; [|done]. destruct (last rs) as [final|]; [|done].
  intros (_ & _ & (count & Hc & Hb)%bind_ok)%bind_ok. destruct (r_Offset final =? max_u64); [done|].
  injection Hb as <-. exists first, final. split_and!; [done|done|]. unfold producerRecordCount, uint64FromNonNegativeInt in Hc.
  destruct (len rs <=? 0); [done|]. destruct (len rs <? 0); [done|]. by injection Hc as <-.
Qed.

Lemma own_filter id topic partition count b l n t :
  producerBatchMatchesFilter
    (mkProducerPublishedBatch (pi_ProducerID id) (pi_ProducerEpoch id) topic partition (pi_BaseSequence id) count b l n t)
    (producerFilter id topic partition) = true.
Proof.
  unfold producerBatchMatchesFilter, producerFilter. simpl. rewrite !Z.eqb_refl, andb_false_r.
  rewrite (bool_decide_false (topic <> topic)) by (intros E; by apply E). by rewrite andb_false_r.
Qed.

(** A batch in the log is read back as a whole. *)
Lemma read_published s tp rs0 rs rs1 next first final batch :
  log_inv s -> validatePartitionLocked s tp = Ok tt -> recordsOf s tp = rs0 ++ rs ++ rs1 -> log_ok rs0 next ->
  recordOffsets rs = seqZ next (len rs) -> head rs = Some first -> last rs = Some final -> len rs < 2 ^ 63 ->
  ppb_Topic batch = tp_Topic tp -> ppb_Partition batch = tp_Partition tp -> ppb_RecordCount batch = len rs ->
  ppb_BaseOffset batch = r_Offset first -> ppb_LastOffset batch = r_Offset final ->
  readProducerPublishedBatch s batch = Ok rs.
Proof.
  intros Hinv Hv Hr Hok Ho Hh Hl Hsmall Et Ep Ec Eb El. unfold readProducerPublishedBatch, intFromUint64.
  destruct rs as [|r0 rs']; [done|]. injection Hh as ->. set (rs := first :: rs') in *.
  assert (0 < len rs) as Hpos by (unfold rs; autorewrite with len; pose proof (len_nonneg rs'); lia).
  rewrite Ec, (proj2 (Z.ltb_ge _ _)) by lia. cbn [mbind result_bind].
  replace (NewTopicPartition (ppb_Topic batch) (ppb_Partition batch)) with tp by (rewrite Et, Ep; by destruct tp).
  rewrite ReadFrom_ok by done. cbn [of_store mbind result_bind]. rewrite Eb, Hr.
  assert (r_Offset first = next) as Hf.
  { pose proof Ho as Ho'. rewrite seqZ_cons in Ho' by lia. unfold rs at 1, recordOffsets in Ho'. rewrite fmap_cons in Ho'. by injection Ho'. }
  pose proof (log_ok_rec_lt _ _ (log_inv_recordsOf s tp Hinv)) as Hsorted. rewrite Hr in Hsorted.
  assert (filter (fun r => r_Offset first <= r_Offset r) (rs0 ++ rs ++ rs1) = rs ++ rs1) as ->.
  { apply StronglySorted_app in Hsorted as (_ & _ & Hsorted). rewrite filter_app, filter_none, filter_all; [done|..].
    - unfold rs in *. cbn [app] in *. inversion Hsorted as [|? ? _ Hall]; subst. constructor; [lia|]. eapply Forall_impl; [exact Hall|]. cbn. lia.
    - destruct Hok as [_ Hb%Forall_fmap]. eapply Forall_impl; [exact Hb|]. cbn. lia. }
  assert (take (Z.to_nat (len rs)) (rs ++ rs1) = rs) as -> by (unfold len; by rewrite Nat2Z.id, take_app_length).
  unfold validateProducerPublishedRecords, uint64FromNonNegativeInt.
  rewrite (proj2 (Z.ltb_ge _ _)) by lia. cbn [mbind result_bind]. rewrite Ec, Z.eqb_refl. cbn [negb].
  change (head rs) with (Some first). rewrite Hl. cbn beta iota. by rewrite Eb, El, !Z.eqb_refl.
Qed.

Lemma batch_topic clock s tp ar ars s' out :
  AppendRecordsBatch clock s tp (ar :: ars) = (s', Ok out) -> validatePartitionLocked s tp = Ok tt.
Proof.
  cbn [AppendRecordsBatch]. destruct (AppendRecord (clock 0%nat) s tp ar) as [s1 [r|e]] eqn:Ea; [|done]. intros _.
  apply AppendRecord_ok in Ea as (topic & Et & Hp & _). unfold validatePartitionLocked. rewrite Et.
  by rewrite (proj2 (Z.leb_gt _ _)) by lia.
Qed.

(** What a successful first publish did, step by step. *)
Lemma publish_inversion `{MapRange} clock nowMS s topic partition id ars s1 res :
  appendIdempotentProduceBatch clock nowMS s topic partition id ars = (s1, Ok res) -> apr_Appended res = true ->
  let f := producerFilter id topic partition in
  0 < len ars /\ validateProduceIdempotency id (len ars) = Ok tt /\ pi_BaseSequence id + len ars <= max_u64 /\
  (forall b, window s f b -> ppb_ProducerEpoch b <= pi_ProducerEpoch id) /\
  (forall b, window s f b -> ppb_ProducerEpoch b = pi_ProducerEpoch id ->
     producerBatchOverlapsSequence b (pi_BaseSequence id) = Ok false) /\
  exists sp s2 batch,
    PublishBatchRecords clock s topic partition ars = (sp, Ok (apr_Records res)) /\
    newProducerPublishedBatch nowMS id topic partition (apr_Records res) = Ok batch /\
    SaveProducerBatch sp batch = (s2, Ok tt) /\ pruneProducerDedupeWindow s2 f = (s1, Ok tt).
Proof.
  intros Ha Happ f. unfold appendIdempotentProduceBatch in Ha.
  destruct (producerRecordCount (len ars)) as [n|] eqn:En; [|done]. cbn [mbind result_bind] in Ha.
  assert (n = len ars /\ 0 < len ars) as [-> Hpos].
  { unfold producerRecordCount, uint64FromNonNegativeInt in En. destruct (Z.leb_spec (len ars) 0); [done|].
    destruct (len ars <? 0); [done|]. by injection En as <-. }
  unfold loadProducerDedupeBatches in Ha.
  destruct (validateProduceIdempotency id (len ars)) as [[]|] eqn:Ev; [|done]. cbn [mbind result_bind] in Ha. fold f in Ha.
  destruct (ListProducerBatches_spec s f) as (bs & Hbs & Hin & _). rewrite Hbs in Ha. cbn [of_store mbind result_bind] in Ha.
  destruct (ensureProducerEpochWritable id bs) as [[]|] eqn:Ee; [|done]. cbn [mbind result_bind] in Ha.
  destruct (findProducerPublishedBatch bs id (len ars)) as [[b|]|] eqn:Ef; [..|done]; cbn [mbind result_bind] in Ha.
  { destruct (readProducerPublishedBatch s b); [|done]. cbn in Ha. injection Ha as <- <-. done. }
  destruct (PublishBatchRecords clock s topic partition ars) as [sp [out|]] eqn:Ep; [|done].
  unfold saveProducerDedupeBatch in Ha. destruct (newProducerPublishedBatch nowMS id topic partition out) as [batch|] eqn:Eb; [|done].
  destruct (SaveProducerBatch sp batch) as [s2 [[]|]] eqn:Es; [|done].
  destruct (pruneProducerDedupeWindow s2 f) as [s3 [[]|]] eqn:Epr; [|done]. injection Ha as <- <-.
  split_and!; try done.
  - unfold validateProduceIdempotency, sequenceAfterCount in Ev. destruct (pi_ProducerID id =? 0); [done|].
    destruct (Z.ltb_spec (max_u64 - len ars) (pi_BaseSequence id)); [done|]. lia.
  - intros b Hb. by apply (proj1 (epoch_writable id bs) Ee), Hin.
  - intros b Hb. by apply (find_none bs id (len ars) Ef), Hin.
  - by exists sp, s2, batch.
Qed.

(** What any attempt to publish does: it appends to the log, and when it
    succeeds it adds its batch to the window and prunes it. *)
Lemma append_outcome `{MapRange} clock nowMS s topic partition id ars :
  store_inv s -> nextOffsetOf s (NewTopicPartition topic partition) + len ars <= max_u64 ->
  let '(s', res) := appendIdempotentProduceBatch clock nowMS s topic partition id ars in
  exists sp, store_inv sp /\ topics sp = topics s /\ (forall tp, recordsOf s tp `prefix_of` recordsOf sp tp) /\
    producerBatches sp = producerBatches s /\
    (s' = sp /\ (forall r, res = Ok r -> apr_Appended r = false) \/
     exists r batch s2, res = Ok r /\ apr_Appended r = true /\
       newProducerPublishedBatch nowMS id topic partition (apr_Records r) = Ok batch /\ len (apr_Records r) = len ars /\
       SaveProducerBatch sp batch = (s2, Ok tt) /\ pruneProducerDedupeWindow s2 (producerFilter id topic partition) = (s', Ok tt)).
Proof.
  intros Hs Hroom. unfold appendIdempotentProduceBatch.
  destruct (_ ≫= _) as [[f' [b|]]|e] eqn:Echeck.
  1,3: exists s; split_and!; try done; left; split; [done|]; intros r Hr; try done;
    by apply bind_ok in Hr as (out & _ & [= <-]).
  pose proof (AppendRecordsBatch_meta clock s (NewTopicPartition topic partition) ars) as Hmeta. unfold PublishBatchRecords.
  destruct (AppendRecordsBatch clock s _ ars) as [sp res] eqn:Epub. cbn [fst] in Hmeta.
  destruct (AppendRecordsBatch_spec _ _ _ _ _ _ (proj1 Hs) Hroom Epub) as (rs & Hr & Ho & _ & Hinvp & Ht & Hframe & Hres).
  assert (store_inv sp) as Hsp by (split; [done|rewrite <- Hmeta; apply Hs]).
  assert (forall tp, recordsOf s tp `prefix_of` recordsOf sp tp) as Hpre.
  { intros tp. destruct (decide (tp = NewTopicPartition topic partition)) as [->|Hne]; [by exists rs|].
    by destruct (Hframe tp Hne) as [-> _]. }
  assert (producerBatches sp = producerBatches s) as Esp by (unfold meta_eq in Hmeta; tauto).
  destruct res as [out|code]; [|exists sp; split_and!; try done; by left].
  unfold saveProducerDedupeBatch. destruct (newProducerPublishedBatch nowMS id topic partition out) as [batch|] eqn:Eb;
    [|exists sp; split_and!; try done; by left].
  destruct (SaveProducerBatch sp batch) as [s2 [[]|code]] eqn:Es.
  2: { exists sp. split_and!; try done. left. unfold SaveProducerBatch in Es. destruct (validateProducerBatch batch); by simplify_eq. }
  assert (f' = producerFilter id topic partition) as ->.
  { apply bind_ok in Echeck as (n & _ & ([bs g] & Hl & (found & _ & [= <- ->])%bind_ok)%bind_ok).
    unfold loadProducerDedupeBatches in Hl. apply bind_ok in Hl as (_ & _ & (bs' & _ & (_ & _ & [= _ <-])%bind_ok)%bind_ok). done. }
  destruct (pruneProducerDedupeWindow s2 _) as [s3 r3] eqn:Epr.
  assert (r3 = Ok tt) as -> by (unfold pruneProducerDedupeWindow in Epr; destruct (ListProducerBatches_spec s2 (producerFilter id topic partition)) as (bs & Hbs & _);
    rewrite Hbs in Epr; by destruct (_ <=? _)%nat; simplify_eq).
  exists sp. split_and!; try done. right. exists (mkAppendProduceBatchResult out true), batch, s2. destruct Hres as [<- Hl]. by split_and!.
Qed.

(** A first publish: its parameters, and a clock that has moved on. *)
Section Published.
Context `{MapRange} (clock : nat -> Z) (nowMS : Z) (s : MemoryStore) (topic : string) (partition : Z).
Context (id : ProduceIdempotency) (ars : list RecordAppend) (s1 : MemoryStore) (res : appendProduceBatchResult).
#[local] Abbreviation tp := (NewTopicPartition topic partition).
#[local] Abbreviation f := (producerFilter id topic partition).
Hypothesis Hs : store_inv s.
Hypothesis Hroom : nextOffsetOf s tp + len ars <= max_u64.
Hypothesis Hsmall : len ars < 2 ^ 63.
Hypothesis Hclock : forall b, window s f b -> ppb_UpdatedAtMS b < nowMS.
Hypothesis Hpublish : appendIdempotentProduceBatch clock nowMS s topic partition id ars = (s1, Ok res).
Hypothesis Happended : apr_Appended res = true.

(** The store still knows the batch [x] of this publish; at most [n] batches of
    the producer in this partition are as new as it. *)
Record remembers (x : ProducerPublishedBatch) (n : nat) (s' : MemoryStore) : Prop := {
  rm_inv : store_inv s';
  rm_valid : validatePartitionLocked s' tp = Ok tt;
  rm_log : exists rest, recordsOf s' tp = recordsOf s tp ++ apr_Records res ++ rest;
  rm_window : window s' f x;
  rm_others : forall b, window s' f b -> b <> x -> ppb_ProducerEpoch b <= pi_ProducerEpoch id /\
    (ppb_ProducerEpoch b = pi_ProducerEpoch id -> producerBatchOverlapsSequence b (pi_BaseSequence id) = Ok false);
  rm_newer : exists newer, (length newer <= n)%nat /\
    forall b, window s' f b -> b <> x -> ppb_UpdatedAtMS x <= ppb_UpdatedAtMS b -> b ∈ newer
}.

(** The batch of this publish. *)
Definition published_batch : ProducerPublishedBatch :=
  {| ppb_ProducerID := pi_ProducerID id; ppb_ProducerEpoch := pi_ProducerEpoch id; ppb_Topic := topic;
     ppb_Partition := partition; ppb_BaseSequence := pi_BaseSequence id; ppb_RecordCount := len ars;
     ppb_BaseOffset := default 0 (r_Offset <$> head (apr_Records res)); ppb_LastOffset := default 0 (r_Offset <$> last (apr_Records res));
     ppb_NextOffset := default 0 (r_Offset <$> last (apr_Records res)) + 1; ppb_UpdatedAtMS := nowMS |}.

(** Right afterwards it is the newest one. *)
Lemma publish_result : remembers published_batch 0 s1.
Proof using Hs Hroom Hsmall Hclock Hpublish Happended.
  destruct (publish_inversion _ _ _ _ _ _ _ _ _ Hpublish Happended)
    as (Hpos & _ & _ & Hepoch & Hfree & sp & s2 & x & Hpub & Hnew & Hsave & Hprune). set (out := apr_Records res) in *.
  pose proof (AppendRecordsBatch_meta clock s tp ars) as Hmeta. unfold PublishBatchRecords in Hpub.
  rewrite Hpub in Hmeta. cbn [fst] in Hmeta.
  destruct (AppendRecordsBatch_spec _ _ _ _ _ _ (proj1 Hs) Hroom Hpub) as (rs & Hr & Ho & _ & Hinvp & Ht & _ & <- & Hlrs).
  assert (validatePartitionLocked s tp = Ok tt) as Hv by (destruct ars as [|ar ars']; [done|by eapply batch_topic]).
  assert (store_inv sp) as Hsp by (split; [done|rewrite <- Hmeta; apply Hs]).
  destruct (SaveProducerBatch_spec sp x s2 Hsp Hsave) as (Hs2 & Hl2 & Hpb & _).
  destruct (newBatch_spec _ _ _ _ _ _ Hnew) as (first & final & Hh & Hl & Hx).
  assert (x = published_batch) as Ex by (rewrite Hx; unfold published_batch; fold out; rewrite Hh, Hl; cbn; f_equal; lia).
  assert (producerBatches sp = producerBatches s) as Esp by (unfold meta_eq in Hmeta; tauto).
  assert (forall b, window s2 f b -> b = x \/ window s f b) as Hw2.
  { intros b [[k Hk] Hf]. rewrite Hpb, Esp in Hk. apply lookup_insert_Some in Hk as [[_ <-]|[_ Hk]]; [by left|right].
    split; [by exists k|done]. }
  assert (window s2 f x) as Hwx.
  { split; [exists (producerBatchKey x); rewrite Hpb; apply lookup_insert_eq|]. rewrite Hx. apply own_filter. }
  assert (forall b, window s2 f b -> b <> x -> ppb_UpdatedAtMS x <= ppb_UpdatedAtMS b -> b ∈ []) as Hnewest.
  { intros b [->|Hb]%Hw2 Hne Hle; [done|]. rewrite Hx in Hle. simpl in Hle. specialize (Hclock b Hb). lia. }
  destruct (prune_spec s2 f f x [] s1 Hs2 Hwx) as (Hs1 & Hl1 & Hwx1 & Hw1); [|done|].
  { intros _. split; [unfold producerDedupeWindowBatches; cbn; lia|done]. }
  rewrite <- Ex. split; [done| | |done| |].
  - unfold validatePartitionLocked in *. destruct Hl1 as (-> & _), Hl2 as (-> & _). by rewrite Ht.
  - exists []. rewrite app_nil_r. unfold recordsOf in *. destruct Hl1 as (_ & _ & -> & _), Hl2 as (_ & _ & -> & _). done.
  - intros b [->|Hb]%Hw1%Hw2 Hne; [done|]. split; [by apply Hepoch|by apply Hfree].
  - exists []. split; [done|]. intros b Hb. by apply Hnewest, Hw1.
Qed.

(** A store that remembers the batch answers its retry. *)
Lemma remembered_retry n s' clock' nowMS' ars' :
  remembers published_batch n s' -> len ars' = len ars ->
  appendIdempotentProduceBatch clock' nowMS' s' topic partition id ars'
    = (s', Ok (mkAppendProduceBatchResult (apr_Records res) false)).
Proof using Hs Hroom Hsmall Hpublish Happended.
  intros [Hinv Hv [rest Hlog] Hwx Hw _] Hlen.
  destruct (publish_inversion _ _ _ _ _ _ _ _ _ Hpublish Happended) as (Hpos & Hval & Hseq & _ & _ & sp & s2 & x & Hpub & Hnew & _).
  destruct (newBatch_spec _ _ _ _ _ _ Hnew) as (first & final & Hh & Hl & _).
  destruct (AppendRecordsBatch_spec _ _ _ _ _ _ (proj1 Hs) Hroom Hpub) as (rs & _ & Ho & _ & _ & _ & _ & <- & Hlrs).
  destruct (ListProducerBatches_spec s' f) as (bs & Hbs & Hin & _).
  unfold appendIdempotentProduceBatch. rewrite Hlen. unfold producerRecordCount, uint64FromNonNegativeInt.
  rewrite (proj2 (Z.leb_gt _ _)), (proj2 (Z.ltb_ge _ _)) by lia. cbn [mbind result_bind].
  unfold loadProducerDedupeBatches. rewrite Hval. cbn [mbind result_bind]. rewrite Hbs. cbn [of_store mbind result_bind].
  rewrite (proj2 (epoch_writable id bs)).
  2:{ intros b Hb%Hin. destruct (decide (b = published_batch)) as [->|Hne]; [cbn; lia|by apply Hw]. }
  cbn [mbind result_bind]. rewrite (find_own bs id (len ars) published_batch); cbn [mbind result_bind]; try done.
  - erewrite (read_published s' tp (recordsOf s tp) (apr_Records res) rest (nextOffsetOf s tp) first final); try done.
    + apply Hinv.
    + apply log_inv_recordsOf, Hs.
    + lia.
    + cbn. by rewrite Hh.
    + cbn. by rewrite Hl.
  - by apply Hin.
  - intros b Hb%Hin Hne. by apply Hw.
Qed.

(** What may happen before the retry: [later n s'], when [n] further batches of
    the producer were published to the partition.  Anything that leaves the
    remembered batches alone and only appends to the partition; idempotent
    batches of other producers or to other partitions; further batches of the
    producer that do not start below this one and run into it, with no newer
    epoch, published or refused. *)
Definition numbers_typed (id' : ProduceIdempotency) : Prop :=
  0 <= pi_ProducerID id' /\ 0 <= pi_ProducerEpoch id' /\ 0 <= pi_BaseSequence id'.

Inductive later : nat -> MemoryStore -> Prop :=
| later_here : later 0 s1
| later_elsewhere n s' s'' :
    later n s' -> store_inv s'' -> producerBatches s'' = producerBatches s' ->
    validatePartitionLocked s'' tp = Ok tt -> recordsOf s' tp `prefix_of` recordsOf s'' tp -> later n s''
| later_other n s' clock' nowMS' topic' partition' id' ars' :
    later n s' -> (pi_ProducerID id', topic', partition') <> (pi_ProducerID id, topic, partition) ->
    numbers_typed id' -> 0 <= partition' -> nextOffsetOf s' (NewTopicPartition topic' partition') + len ars' <= max_u64 ->
    later n (appendIdempotentProduceBatch clock' nowMS' s' topic' partition' id' ars').1
| later_own n s' clock' nowMS' id' ars' s'' r :
    later n s' -> pi_ProducerID id' = pi_ProducerID id -> pi_ProducerEpoch id' <= pi_ProducerEpoch id ->
    (pi_BaseSequence id' < pi_BaseSequence id -> pi_BaseSequence id' + len ars' <= pi_BaseSequence id) ->
    numbers_typed id' -> nextOffsetOf s' tp + len ars' <= max_u64 ->
    appendIdempotentProduceBatch clock' nowMS' s' topic partition id' ars' = (s'', r) ->
    later (match r with Ok r => if apr_Appended r then S n else n | Err _ => n end) s''.

Lemma remembers_prefix x n s' s'' :
  remembers x n s' -> store_inv s'' -> producerBatches s'' = producerBatches s' -> validatePartitionLocked s'' tp = Ok tt ->
  recordsOf s' tp `prefix_of` recordsOf s'' tp -> remembers x n s''.
Proof.
  intros [Ri Rv [rest Rl] Rw Ro Rn] Hi Hpb Hv [more Hmore].
  assert (forall b, window s'' f b <-> window s' f b) as Hw by (intros b; unfold window; by rewrite Hpb).
  split; [done|done|exists (rest ++ more); by rewrite Hmore, Rl, <- !app_assoc|by apply Hw|setoid_rewrite Hw; done|].
  destruct Rn as (newer & Hlen & Hnew). exists newer. split; [done|]. setoid_rewrite Hw. done.
Qed.

Lemma matches_filter_iff b id' topic' partition' :
  pi_ProducerID id' <> 0 -> topic' <> "" ->
  producerBatchMatchesFilter b (producerFilter id' topic' partition') = true <->
  (ppb_ProducerID b, ppb_Topic b, ppb_Partition b) = (pi_ProducerID id', topic', partition').
Proof.
  intros Hid Ht. unfold producerBatchMatchesFilter, producerFilter. cbn. rewrite (proj2 (Z.eqb_neq _ _) Hid). cbn [negb andb].
  rewrite (bool_decide_true (topic' <> "")) by done. cbn [andb].
  destruct (Z.eqb_spec (ppb_ProducerID b) (pi_ProducerID id')); cbn [negb]; [|split; [done|congruence]].
  destruct (bool_decide_reflect (ppb_Topic b <> topic')); [split; [done|congruence]|].
  destruct (Z.eqb_spec (ppb_Partition b) partition'); cbn [negb]; [|split; [done|congruence]].
  split; [|done]. intros _. f_equal; [|done]. f_equal; [done|]. by apply dec_stable.
Qed.

(** A batch that the producer published later does not contain the first
    sequence number of this one. *)
Lemma own_batch_apart id' (ars' : list RecordAppend) y :
  0 < len ars -> pi_BaseSequence id + len ars <= max_u64 -> 0 < len ars' -> pi_BaseSequence id' + len ars' <= max_u64 ->
  producerBatchOverlapsSequence published_batch (pi_BaseSequence id') = Ok false ->
  (pi_BaseSequence id' < pi_BaseSequence id -> pi_BaseSequence id' + len ars' <= pi_BaseSequence id) ->
  ppb_BaseSequence y = pi_BaseSequence id' -> ppb_RecordCount y = len ars' ->
  pi_BaseSequence id' <> pi_BaseSequence id /\ producerBatchOverlapsSequence y (pi_BaseSequence id) = Ok false.
Proof.
  intros Hpos Hmax Hpos' Hmax' Hfree Hbelow Eb Ec. unfold producerBatchOverlapsSequence, sequenceAfterCount in *.
  rewrite Eb, Ec, (proj2 (Z.ltb_ge _ _)) by lia. cbn [ppb_BaseSequence ppb_RecordCount published_batch] in Hfree.
  rewrite (proj2 (Z.ltb_ge _ _)) in Hfree by lia. cbn [mbind result_bind] in *. injection Hfree as Hfree.
  split; [|f_equal]; lia.
Qed.

(** The state after a further batch was published, by this producer to this
    partition ([own]) or elsewhere. *)
Lemma remembers_published n s' clock' nowMS' topic' partition' id' ars' s'' r (own : bool) :
  own = bool_decide ((pi_ProducerID id', topic', partition') = (pi_ProducerID id, topic, partition)) ->
  batch_typed published_batch -> topic <> "" -> pi_ProducerID id <> 0 -> 0 < len ars -> pi_BaseSequence id + len ars <= max_u64 ->
  remembers published_batch n s' -> numbers_typed id' -> 0 <= partition' ->
  nextOffsetOf s' (NewTopicPartition topic' partition') + len ars' <= max_u64 ->
  appendIdempotentProduceBatch clock' nowMS' s' topic' partition' id' ars' = (s'', Ok r) -> apr_Appended r = true ->
  (own = true -> pi_ProducerEpoch id' <= pi_ProducerEpoch id /\
     (pi_BaseSequence id' < pi_BaseSequence id -> pi_BaseSequence id' + len ars' <= pi_BaseSequence id) /\
     (S n < producerDedupeWindowBatches)%nat) ->
  remembers published_batch (if own then S n else n) s''.
Proof.
  intros -> Htyp Htop Hpid Hpos Hmax [Ri Rv [rest Rl] Rw Ro (newer & Rlen & Rnew)] (T1 & T2 & T3) Tp Hroom' Happ Hadd Hown.
  pose proof (append_outcome clock' nowMS' s' topic' partition' id' ars' Ri Hroom') as Hout. rewrite Happ in Hout.
  destruct Hout as (sp & Hsp & Ht & Hpre & Esp & [[_ Hno]|(r0 & y & s2 & [= <-] & _ & Hnew & Hlen & Hsave & Hprune)]); [by rewrite Hno in Hadd|].
  destruct (publish_inversion _ _ _ _ _ _ _ _ _ Happ Hadd) as (Hpos' & _ & Hmax' & Hepoch' & Hfree' & _).
  destruct (newBatch_spec _ _ _ _ _ _ Hnew) as (first & final & _ & _ & Hy).
  destruct (SaveProducerBatch_spec sp y s2 Hsp Hsave) as (Hs2 & Hl2 & Hpb & _ & Htop' & Hpid'). rewrite Hy in Htop', Hpid'. cbn in Htop', Hpid'.
  pose proof (fun b => matches_filter_iff b id topic partition Hpid Htop) as Mf.
  pose proof (fun b => matches_filter_iff b id' topic' partition' Hpid' Htop') as Mg.
  assert (batch_typed y) as Hty by (rewrite Hy; by split_and!).
  assert (bool_decide ((pi_ProducerID id', topic', partition') = (pi_ProducerID id, topic, partition)) = true ->
    window s' (producerFilter id' topic' partition') published_batch /\ pi_ProducerEpoch id' = pi_ProducerEpoch id /\
    pi_BaseSequence id' <> pi_BaseSequence id /\ producerBatchOverlapsSequence y (pi_BaseSequence id) = Ok false) as Hsame.
  { intros Eo. destruct (Hown Eo) as (He & Hbelow & _). apply bool_decide_eq_true in Eo.
    assert (window s' (producerFilter id' topic' partition') published_batch) as Hwx.
    { destruct Rw as [Hk _]. split; [done|]. by apply Mg. }
    pose proof (Hepoch' _ Hwx) as Hge. cbn in Hge. assert (pi_ProducerEpoch id' = pi_ProducerEpoch id) as Ee by lia.
    split_and!; [done|done|..]; (apply (own_batch_apart id' ars' y Hpos Hmax Hpos' Hmax'); [by apply Hfree'|done|by rewrite Hy|rewrite Hy; exact Hlen]). }
  assert (producerBatchKey y <> producerBatchKey published_batch) as Hkey.
  { intros E. apply producerBatchKey_inj in E as (K1 & K2 & K3 & K4 & K5); [|done|done]. rewrite Hy in K1, K3, K4, K5. cbn in K1, K3, K4, K5.
    destruct Hsame as (_ & _ & Hne & _); [apply bool_decide_eq_true; congruence|done]. }
  assert (window s2 f published_batch) as Hwx2.
  { destruct Rw as [[k Hk] Hm]. split; [|done]. exists k. rewrite Hpb, Esp, lookup_insert_ne; [done|].
    by rewrite (mi_batches s' (proj2 Ri) k published_batch Hk). }
  assert (forall h b, window s2 h b -> b = y \/ window s' h b) as Hw2.
  { intros h b [[k Hk] Hm]. rewrite Hpb, Esp in Hk. apply lookup_insert_Some in Hk as [[_ <-]|[_ Hk]]; [by left|right]. split; [by exists k|done]. }
  destruct (prune_spec s2 f (producerFilter id' topic' partition') published_batch (y :: newer) s'' Hs2 Hwx2) as (Hs'' & Hl'' & Hwx'' & Hw''); [|done|].
  { intros Hm%Mg. assert ((pi_ProducerID id', topic', partition') = (pi_ProducerID id, topic, partition)) as Eo by (symmetry; exact Hm).
    destruct Hown as (_ & _ & Hlt); [by apply bool_decide_eq_true|]. split; [cbn; lia|].
    assert (producerFilter id' topic' partition' = f) as -> by (unfold producerFilter; congruence).
    intros b [->|Hb]%Hw2 Hne Hle; [by left|right; by apply Rnew]. }
  split; [done| | |done| |].
  - unfold validatePartitionLocked in *. destruct Hl'' as (-> & _), Hl2 as (-> & _). by rewrite Ht.
  - destruct (Hpre tp) as [more Hmore]. exists (rest ++ more). unfold recordsOf in *.
    destruct Hl'' as (_ & _ & -> & _), Hl2 as (_ & _ & -> & _). by rewrite Hmore, Rl, <- !app_assoc.
  - intros b Hb Hne. destruct (Hw2 f b (Hw'' f b Hb)) as [->|Hb']; [|by apply Ro].
    destruct Hb as [_ Hm%Mf]. rewrite Hy in Hm. cbn in Hm.
    destruct Hsame as (_ & Ee & _ & Hfree); [by apply bool_decide_eq_true|]. rewrite Hy at 1 2. cbn. split; [lia|done].
  - destruct (bool_decide_reflect ((pi_ProducerID id', topic', partition') = (pi_ProducerID id, topic, partition))) as [Eo|Eo].
    + exists (y :: newer). split; [cbn; lia|]. intros b Hb Hne Hle. destruct (Hw2 f b (Hw'' f b Hb)) as [->|Hb']; [by left|right; by apply Rnew].
    + exists newer. split; [done|]. intros b Hb Hne Hle. destruct (Hw2 f b (Hw'' f b Hb)) as [->|Hb']; [|by apply Rnew].
      destruct Hb as [_ Hm%Mf]. rewrite Hy in Hm. by cbn in Hm.
Qed.

(** An attempt that publishes nothing only adds to the log. *)
Lemma remembers_refused n s' clock' nowMS' topic' partition' id' ars' s'' r :
  remembers published_batch n s' -> nextOffsetOf s' (NewTopicPartition topic' partition') + len ars' <= max_u64 ->
  appendIdempotentProduceBatch clock' nowMS' s' topic' partition' id' ars' = (s'', r) ->
  (forall r', r = Ok r' -> apr_Appended r' = false) -> remembers published_batch n s''.
Proof.
  intros Hr Hroom' Happ Hno. pose proof (append_outcome clock' nowMS' s' topic' partition' id' ars' (rm_inv _ _ _ Hr) Hroom') as Hout. rewrite Happ in Hout.
  destruct Hout as (sp & Hsp & Ht & Hpre & Esp & [[-> _]|(r0 & y & s2 & -> & Hadd & _)]); [|by rewrite (Hno r0) in Hadd].
  eapply remembers_prefix; try done. pose proof (rm_valid _ _ _ Hr) as Hv. unfold validatePartitionLocked in *. by rewrite Ht.
Qed.

Lemma later_remembers n s' :
  numbers_typed id -> 0 <= partition -> later n s' -> (n < producerDedupeWindowBatches)%nat -> remembers published_batch n s'.
Proof using Hs Hroom Hsmall Hclock Hpublish Happended.
  intros Hid Hp Hl. destruct (publish_inversion _ _ _ _ _ _ _ _ _ Hpublish Happended)
    as (Hpos & _ & Hmax & _ & _ & sp & s2 & x & Hpub & Hnew & Hsave & _).
  assert (topic <> "" /\ pi_ProducerID id <> 0) as [Htop Hpid].
  { pose proof Hsave as Hsave'. unfold SaveProducerBatch in Hsave'. destruct (validateProducerBatch x) eqn:Ev; [|done].
    destruct (newBatch_spec _ _ _ _ _ _ Hnew) as (first & final & _ & _ & Hx). rewrite Hx in Ev. unfold validateProducerBatch in Ev. cbn in Ev.
    destruct (Z.eqb_spec (pi_ProducerID id) 0); [done|]. by destruct (decide (topic = "")). }
  assert (batch_typed published_batch) as Htyp by (destruct Hid as (? & ? & ?); by split_and!).
  induction Hl as [|n s' s'' _ IH Hi Hpb Hv Hpre|n s' clock' nowMS' topic' partition' id' ars' _ IH Hne Hid' Hp' Hroom'
                  |n s' clock' nowMS' id' ars' s'' r _ IH Ei He Hbelow Hid' Hroom' Happ]; intros Hn.
  - apply publish_result.
  - by eapply remembers_prefix; [apply IH|..].
  - specialize (IH Hn). destruct (appendIdempotentProduceBatch clock' nowMS' s' topic' partition' id' ars') as [s'' r] eqn:Happ. cbn [fst].
    destruct r as [r|e]; [destruct (apr_Appended r) eqn:Ea|]; [|eapply remembers_refused; [exact IH|exact Hroom'|exact Happ|by intros r' [= <-]]..].
    refine (remembers_published n s' clock' nowMS' topic' partition' id' ars' s'' r false _ Htyp Htop Hpid Hpos Hmax IH Hid' Hp' Hroom' Happ Ea _); [|done].
    by rewrite bool_decide_eq_false_2.
  - destruct r as [r|e]; [destruct (apr_Appended r) eqn:Ea|]; [|eapply remembers_refused; [by apply IH|exact Hroom'|exact Happ|by intros r' [= <-]]..].
    refine (remembers_published n s' clock' nowMS' topic partition id' ars' s'' r true _ Htyp Htop Hpid Hpos Hmax (IH _) Hid' Hp Hroom' Happ Ea _);
      [by rewrite bool_decide_eq_true_2 by (by rewrite Ei)|lia|done].
Qed.

(** C30: retries are answered from the log.  After a batch was published to a
    partition with a producer id, epoch and base sequence (at a later time than
    the batches of the producer before), sending it again to this partition
    (any records, the same number) returns the records of the first attempt,
    marks them as not appended, and leaves the store as it is: also when in the
    meantime anybody published to any partition, other producers sent
    idempotent batches, and the producer itself published up to 1023 further
    batches to the partition, none under a newer epoch and none that starts
    below this batch and runs into it ([overlapping_batch_accepted]), as long
    as no record of the partition was removed.  The partition is given: a retry
    whose partition the broker chooses may go elsewhere and be stored twice
    ([round_robin_retry_stored_twice]). *)
Theorem retry_returns_original n s' clock' nowMS' ars' :
  numbers_typed id -> 0 <= partition -> later n s' -> (n <= 1023)%nat -> len ars' = len ars ->
  appendIdempotentProduceBatch clock' nowMS' s' topic partition id ars'
    = (s', Ok (mkAppendProduceBatchResult (apr_Records res) false)).
Proof using Hs Hroom Hsmall Hclock Hpublish Happended.
  intros Hid Hp Hl Hn Hlen. apply (remembered_retry n); [|done]. apply later_remembers; try done. unfold producerDedupeWindowBatches. lia.
Qed.

(** A newer epoch fences older ones.  After a publish, no producer with
    the same id and a smaller epoch can append to the partition: every
    attempt is refused and changes nothing. *)
Theorem older_epoch_refused clock' nowMS' id' ars' :
  pi_ProducerID id' = pi_ProducerID id -> pi_ProducerEpoch id' < pi_ProducerEpoch id ->
  exists e, appendIdempotentProduceBatch clock' nowMS' s1 topic partition id' ars' = (s1, Err e).
Proof using Hs Hroom Hsmall Hclock Hpublish Happended.
  intros Hid Hep. pose proof (rm_window _ _ _ publish_result) as Hwx.
  assert (producerFilter id' topic partition = f) as Ef by (unfold producerFilter; by rewrite Hid).
  destruct (ListProducerBatches_spec s1 f) as (bs & Hbs & Hin & _).
  unfold appendIdempotentProduceBatch, loadProducerDedupeBatches. rewrite Ef, Hbs.
  destruct (producerRecordCount (len ars')) as [n|]; cbn [mbind result_bind]; [|by eexists].
  destruct (validateProduceIdempotency id' n); cbn [mbind result_bind of_store]; [|by eexists].
  rewrite (epoch_refused id' bs published_batch); [by eexists|by apply Hin|cbn; lia].
Qed.

End Published.

(** ** Concrete producers *)

Definition ex_id (epoch base : Z) : ProduceIdempotency := mkProduceIdempotency 7 epoch base.
Definition ex_batch (n : nat) : list RecordAppend := replicate n (ex_rec Byte.x61).
Definition ex_send (epoch base : Z) (n : nat) (now : Z) (s : MemoryStore) :=
  @appendIdempotentProduceBatch map_to_list_range (fun _ => now) now s "orders" 0 (ex_id epoch base) (ex_batch n).

Definition ex_sent : MemoryStore := (ex_send 1 5 2 50 ex_s2).1.
Definition ex_res : appendProduceBatchResult :=
  match (ex_send 1 5 2 50 ex_s2).2 with Ok res => res | Err _ => mkAppendProduceBatchResult [] false end.

Lemma ex_s2_inv : store_inv ex_s2.
Proof.
  apply (@store_reachable_inv map_to_list_range).
  apply (rtc_subrel (@log_step map_to_list_range)); [by left|apply ex_s2_reachable].
Qed.

Lemma ex_s2_window b f : window ex_s2 f b -> False.
Proof. by intros [[k Hk] _]. Qed.

(** A further batch of the producer comes before the retry. *)
Definition ex_after : MemoryStore := (ex_send 1 7 1 60 ex_sent).1.

Lemma retry_returns_original_witness :
  recordOffsets (apr_Records ex_res) = [2; 3] /\
  ex_send 1 5 2 70 ex_after = (ex_after, Ok (mkAppendProduceBatchResult (apr_Records ex_res) false)).
Proof.
  split; [vm_compute; reflexivity|].
  apply (@retry_returns_original map_to_list_range (fun _ => 50) 50 ex_s2 "orders" 0 (ex_id 1 5) (ex_batch 2) ex_sent ex_res) with (n := 1%nat).
  - exact ex_s2_inv.
  - vm_compute. discriminate.
  - reflexivity.
  - intros b Hb. destruct (ex_s2_window _ _ Hb).
  - vm_compute. reflexivity.
  - vm_compute. reflexivity.
  - split; [discriminate|split; discriminate].
  - discriminate.
  - refine (later_own "orders" 0 (ex_id 1 5) ex_sent 0 ex_sent (fun _ => 60) 60 (ex_id 1 7) (ex_batch 1) ex_after
              (ex_send 1 7 1 60 ex_sent).2 (later_here _ _ _ _) eq_refl _ _ _ _ _).
    + discriminate.
    + discriminate.
    + split; [discriminate|split; discriminate].
    + vm_compute. discriminate.
    + apply surjective_pairing.
  - lia.
  - reflexivity.
Defined.

Lemma older_epoch_refused_witness :
  exists e, ex_send 0 9 1 60 ex_sent = (ex_sent, Err e).
Proof.
  apply (@older_epoch_refused map_to_list_range (fun _ => 50) 50 ex_s2 "orders" 0 (ex_id 1 5) (ex_batch 2) ex_sent ex_res).
  - exact ex_s2_inv.
  - vm_compute. discriminate.
  - reflexivity.
  - intros b Hb. destruct (ex_s2_window _ _ Hb).
  - vm_compute. reflexivity.
  - vm_compute. reflexivity.
  - reflexivity.
  - reflexivity.
Defined.

(** Only the first sequence number of a request is checked against the window.
    A batch that starts below a published one and runs into it is appended,
    and then the retry of the published batch is refused. *)
Lemma overlapping_batch_accepted :
  let r2 := ex_send 1 4 3 60 ex_sent in
  (exists res, r2.2 = Ok res /\ apr_Appended res = true /\ recordOffsets (apr_Records res) = [4; 5; 6]) /\
  (ex_send 1 5 2 70 r2.1).2 = Err (StoreError CodeInvalidArgument).
Proof. vm_compute. split; [|reflexivity]. eexists. split; [reflexivity|]. split; reflexivity. Qed.
