(* ===== verification/Headers.v ===== *)
(** * Record headers, routing keys and priorities

    The header functions of [src/broker/retry_delay.go], the routing keys of
    [routing_key.go] and the priorities of [priority.go].

    A Go [string] and its bytes are converted by [StringBytes] and
    [BytesString].  [upsertHeader] writes into the header slice of its
    record; every caller owns the slice it passes, or passes one decoded from
    the command it applies, so the model returns the new headers. *)

From stdpp Require Import prelude gmap strings sorting list.
From Stdlib Require Import String.
From S2P Require Import Prelude Model MemoryStore Idempotency.

#[local] Open Scope Z_scope.
#[local] Open Scope ech0_scope.

(** [[]byte(s)] and [string(b)]. *)
Definition StringBytes (s : string) : bytes := list_byte_of_string s.
Definition BytesString (b : bytes) : string := string_of_list_byte b.

(** [strconv.ParseUint(s, 10, bits)] *)
Definition ParseUint (bits : Z) (s : string) : option Z :=
  match ParseUint64 s with
  | Some v => if v <? 2 ^ bits then Some v else None
  | None => None
  end.

(** ** Headers *)

Definition header (key value : string) : RecordHeader := mkRecordHeader key (StringBytes value).

Fixpoint headerString (headers : list RecordHeader) (key : string) : string :=
  match headers with
  | [] => ""
  | h :: headers => if decide (rh_Key h = key) then BytesString (rh_Value h) else headerString headers key
  end.

Definition headerUint64 (headers : list RecordHeader) (key : string) : result BrokerError (option Z) :=
  let raw := headerString headers key in
  if decide (raw = "") then Ok None
  else match ParseUint 64 raw with Some parsed => Ok (Some parsed) | None => Err (StoreError CodeCodec) end.

Definition headerUint32 (headers : list RecordHeader) (key : string) : result BrokerError (option Z) :=
  let raw := headerString headers key in
  if decide (raw = "") then Ok None
  else match ParseUint 32 raw with Some parsed => Ok (Some (u32 parsed)) | None => Err (StoreError CodeCodec) end.

Definition requiredHeaderUint64 (headers : list RecordHeader) (key : string) : result BrokerError Z :=
  value ← headerUint64 headers key;
  match value with Some value => Ok value | None => Err (StoreError CodeCodec) end.

Definition requiredHeaderUint32 (headers : list RecordHeader) (key : string) : result BrokerError Z :=
  value ← headerUint32 headers key;
  match value with Some value => Ok value | None => Err (StoreError CodeCodec) end.

Fixpoint upsertHeader (headers : list RecordHeader) (key value : string) : list RecordHeader :=
  match headers with
  | [] => [header key value]
  | h :: headers =>
      if decide (rh_Key h = key) then mkRecordHeader (rh_Key h) (StringBytes value) :: headers
      else h :: upsertHeader headers key value
  end.

Definition removeHeaders (headers : list RecordHeader) (remove : list string) : list RecordHeader :=
  filter (fun h => rh_Key h ∉ remove) headers.

Definition set_Headers (headers : list RecordHeader) (r : RecordAppend) : RecordAppend :=
  {| ra_TimestampMS := ra_TimestampMS r; ra_Key := ra_Key r; ra_Headers := headers;
     ra_Attributes := ra_Attributes r; ra_Transaction := ra_Transaction r;
     ra_ExpiresAtMS := ra_ExpiresAtMS r; ra_Payload := ra_Payload r |}.

(** ** Routing keys *)

Definition RoutingKeyHeader : string := "x-ech0-routing-key".

Fixpoint routingKeyFromHeaders (headers : list RecordHeader) : string :=
  match headers with
  | [] => ""
  | h :: headers => if decide (rh_Key h = RoutingKeyHeader) then BytesString (rh_Value h) else routingKeyFromHeaders headers
  end.

Definition recordRoutingKey (record : Rec) : string := routingKeyFromHeaders (r_Headers record).
Definition appendRoutingKey (record : RecordAppend) : string := routingKeyFromHeaders (ra_Headers record).

Definition applyRoutingKey (record : RecordAppend) (routingKey : string) : RecordAppend :=
  if decide (routingKey = "") then record
  else set_Headers (upsertHeader (ra_Headers record) RoutingKeyHeader routingKey) record.

Definition applyPartitioningRoutingKey (record : RecordAppend) (partitioning : PublishPartitioning) : RecordAppend :=
  applyRoutingKey record (pp_RoutingKey partitioning).

Definition recordsWithPartitioningRoutingKey (partitioning : PublishPartitioning) (records : list RecordAppend)
    : list RecordAppend :=
  if decide (pp_RoutingKey partitioning = "" \/ records = []) then records
  else (fun record => applyPartitioningRoutingKey record partitioning) <$> records.

(** The first routing key a record carries. *)
Fixpoint firstRoutingKey (records : list RecordAppend) : string :=
  match records with
  | [] => ""
  | record :: records =>
      let routingKey := appendRoutingKey record in
      if decide (routingKey = "") then firstRoutingKey records else routingKey
  end.

Definition partitionRoutingKey (partitioning : PublishPartitioning) (records : list RecordAppend) : string :=
  if decide (pp_RoutingKey partitioning = "") then firstRoutingKey records else pp_RoutingKey partitioning.

(** ** Priorities *)

Definition PriorityHeader : string := "x-ech0-priority".

(** [None] when no record has the header. *)
Fixpoint priorityFromHeaders (headers : list RecordHeader) : result BrokerError (option Z) :=
  match headers with
  | [] => Ok None
  | h :: headers =>
      if decide (rh_Key h <> PriorityHeader) then priorityFromHeaders headers
      else
        match ParseUint 8 (BytesString (rh_Value h)) with
        | None => Err (StoreError CodeCodec)
        | Some parsed => Ok (Some (u8 parsed))
        end
  end.

Definition appendPriority (record : RecordAppend) : result BrokerError (option Z) :=
  priorityFromHeaders (ra_Headers record).

Definition applyPriority (record : RecordAppend) (priority : Z) : RecordAppend :=
  set_Headers (upsertHeader (ra_Headers record) PriorityHeader (fmt_d priority)) record.

Definition normalizeRecordPriority (topic : TopicConfig) (record : RecordAppend) : result BrokerError RecordAppend :=
  let policy := NormalizeTopicPriorityPolicy (tc_PriorityPolicy topic) in
  if negb (tpp_Enabled policy) then Ok record
  else
    found ← appendPriority record;
    let priority := default (tpp_Default policy) found in
    if (priority <? tpp_Min policy) || (tpp_Max policy <? priority) then Err (StoreError CodeInvalidArgument)
    else Ok (applyPriority record priority).

Fixpoint normalizeEach (topic : TopicConfig) (records : list RecordAppend) : result BrokerError (list RecordAppend) :=
  match records with
  | [] => Ok []
  | record :: records =>
      record ← normalizeRecordPriority topic record;
      records ← normalizeEach topic records;
      Ok (record :: records)
  end.

Definition normalizeRecordsPriority (topic : TopicConfig) (records : list RecordAppend)
    : result BrokerError (list RecordAppend) :=
  if negb (tpp_Enabled (NormalizeTopicPriorityPolicy (tc_PriorityPolicy topic))) then Ok records
  else normalizeEach topic records.

Record prioritizedRecord := mkPrioritizedRecord { por_record : Rec; por_priority : Z }.

Definition comparePrioritizedRecord (left right : prioritizedRecord) : comparison :=
  Z.compare (por_priority right) (por_priority left) <+>
  Z.compare (r_Offset (por_record left)) (r_Offset (por_record right)).

Definition recordPriority (policy : TopicPriorityPolicy) (record : Rec) : result BrokerError Z :=
  found ← priorityFromHeaders (r_Headers record);
  match found with
  | None => Ok (tpp_Default policy)
  | Some priority =>
      if (priority <? tpp_Min policy) || (tpp_Max policy <? priority) then Err (StoreError CodeCodec) else Ok priority
  end.

Fixpoint prioritize (policy : TopicPriorityPolicy) (records : list Rec) : result BrokerError (list prioritizedRecord) :=
  match records with
  | [] => Ok []
  | record :: records =>
      priority ← recordPriority policy record;
      items ← prioritize policy records;
      Ok (mkPrioritizedRecord record priority :: items)
  end.

Definition orderRecordsByPriorityPolicy (policy : TopicPriorityPolicy) (records : list Rec)
    : result BrokerError (list Rec) :=
  items ← prioritize policy records;
  Ok (por_record <$> sort_func comparePrioritizedRecord items).

Definition validateTopicPriorityPolicy (topic : TopicConfig) : result BrokerError unit :=
  let policy := NormalizeTopicPriorityPolicy (tc_PriorityPolicy topic) in
  if negb (tpp_Enabled policy) then Ok tt
  else if tpp_Max policy <? tpp_Min policy then Err (StoreError CodeInvalidArgument)
  else if (tpp_Default policy <? tpp_Min policy) || (tpp_Max policy <? tpp_Default policy)
  then Err (StoreError CodeInvalidArgument)
  else Ok tt.

Definition topicPriorityPolicyName (policy : TopicPriorityPolicy) : string :=
  if tpp_Enabled (NormalizeTopicPriorityPolicy policy) then "enabled" else "".
