(* ===== verification/Produce.v ===== *)
(** * Producing: partitioning, ordering and group commit

    [src/broker/router.go], the ordering helpers of [service_helpers.go], the
    routing key resolution of [routing_key.go], the topic lookup of
    [topic_cache.go] without a cache, the produce handlers of
    [service_apply.go], the group commit of [service_apply_batches.go] and
    the fan-out of [fanout.go].

    The broker's state is its store, the cursors of its partition router, its
    shard resolver and the limits of its configuration.  The mutex of the router makes
    [nextRoundRobin] atomic.  Metrics and events are not state.
    [clock i j] is what [NowMS] returns while the append made for request [i]
    stores its [j]-th record, [nowMS i] what it returns afterwards. *)

From stdpp Require Import prelude gmap strings sorting list.
From S2P Require Import Prelude Model MemoryStore MetaStore Queue Idempotency Headers.

#[local] Open Scope Z_scope.

(** * Placement of partitions on data shards

    [src/broker/shard_resolver.go] over the placements of the metadata store.
    The cache of the resolver is a concurrent map; every operation on it is
    atomic, and it is written with what was just read from or saved to the
    store. *)

Record brokerShardResolver := mkBrokerShardResolver {
  sr_shardCount : Z;
  sr_cache : gmap string ShardPlacement
}.

Definition newBrokerShardResolver (shardCount : Z) : brokerShardResolver :=
  mkBrokerShardResolver (if shardCount =? 0 then 1 else shardCount) ∅.

Definition topicPartitionCacheKey (tp : TopicPartition) : string :=
  (tp_Topic tp +:+ nul +:+ fmt_d (tp_Partition tp))%string.

Definition cacheShardPlacement (r : brokerShardResolver) (placement : ShardPlacement) : brokerShardResolver :=
  mkBrokerShardResolver (sr_shardCount r) (<[topicPartitionCacheKey (ShardPlacement_TopicPartition placement) := placement]> (sr_cache r)).

Definition shardForPartition (r : brokerShardResolver) (partition : Z) : Z := partition mod sr_shardCount r.

Definition PlanTopic (r : brokerShardResolver) (topic : TopicConfig) : list ShardPlacement :=
  let partitions := if tc_Partitions topic =? 0 then 1 else tc_Partitions topic in
  (fun partition => NewShardPlacement (tc_Name topic) partition (shardForPartition r partition)) <$> seqZ 0 partitions.

(** The metadata stores implement the placement interface. *)
Definition Resolve (r : brokerShardResolver) (s : MemoryStore) (tp : TopicPartition)
    : brokerShardResolver * result BrokerError ShardPlacement :=
  match sr_cache r !! topicPartitionCacheKey tp with
  | Some cached => (r, Ok cached)
  | None =>
      match LoadShardPlacement s tp with
      | Err e => (r, Err (StoreError e))
      | Ok (Some placement) => (cacheShardPlacement r placement, Ok placement)
      | Ok None =>
          let placement := NewShardPlacement (tp_Topic tp) (tp_Partition tp) (shardForPartition r (tp_Partition tp)) in
          (cacheShardPlacement r placement, Ok placement)
      end
  end.

(** The loop of [EnsureTopic]. *)
Fixpoint ensurePlacements (r : brokerShardResolver) (s : MemoryStore) (planned : list ShardPlacement)
    : brokerShardResolver * MemoryStore * result BrokerError unit :=
  match planned with
  | [] => (r, s, Ok tt)
  | placement :: planned =>
      match LoadShardPlacement s (ShardPlacement_TopicPartition placement) with
      | Err e => (r, s, Err (StoreError e))
      | Ok (Some existing) => ensurePlacements (cacheShardPlacement r existing) s planned
      | Ok None =>
          match SaveShardPlacement s placement with
          | (s, Err e) => (r, s, Err (StoreError e))
          | (s, Ok _) => ensurePlacements (cacheShardPlacement r placement) s planned
          end
      end
  end.

Definition EnsureTopic (r : brokerShardResolver) (s : MemoryStore) (topic : TopicConfig)
    : brokerShardResolver * MemoryStore * result BrokerError unit :=
  ensurePlacements r s (PlanTopic r topic).

(** [github.com/cespare/xxhash/v2]: 64-bit digests of bytes and of strings. *)
Class Hash64 := {
  Sum64 : bytes -> Z;
  Sum64String : string -> Z;
  Sum64_range : forall b, is_u64 (Sum64 b);
  Sum64String_range : forall s, is_u64 (Sum64String s)
}.

(** The limits the handlers read from [cfg.Broker]. *)
Record BrokerConfig := mkBrokerConfig {
  cfg_MaxBatchPayloadBytes : Z;
  cfg_MaxFetchRecords : Z;
  cfg_RetryWorkerMaxRecords : Z;
  cfg_DelaySchedulerMaxRecords : Z
}.

Record Broker := mkBroker {
  b_store : MemoryStore;
  b_cursors : gmap string Z;
  b_shards : brokerShardResolver;
  b_cfg : BrokerConfig
}.

Definition set_store (s : MemoryStore) (b : Broker) : Broker := mkBroker s (b_cursors b) (b_shards b) (b_cfg b).
Definition set_cursors (c : gmap string Z) (b : Broker) : Broker := mkBroker (b_store b) c (b_shards b) (b_cfg b).
Definition set_shards (r : brokerShardResolver) (b : Broker) : Broker := mkBroker (b_store b) (b_cursors b) r (b_cfg b).

Definition b_MaxBatchPayloadBytes (b : Broker) : Z := cfg_MaxBatchPayloadBytes (b_cfg b).
Definition b_MaxFetchRecords (b : Broker) : Z := cfg_MaxFetchRecords (b_cfg b).

(** ** The partition router *)

Definition PartitionExplicit : string := "explicit".
Definition PartitionRoundRobin : string := "round_robin".
Definition PartitionKeyHash : string := "key_hash".
Definition PartitionRoutingKeyHash : string := "routing_key_hash".

Definition safeUint64ToUint32 (value : Z) : Z :=
  let maxUint32 := 2 ^ 32 - 1 in
  if maxUint32 <? value then maxUint32 else u32 value.

(** [(cursor+1) % Partitions] is computed in 32 bits. *)
Definition nextRoundRobin (cursors : gmap string Z) (topic : TopicConfig) : gmap string Z * Z :=
  let cursor := default 0 (cursors !! tc_Name topic) in
  let partition := cursor mod tc_Partitions topic in
  (<[tc_Name topic := u32 (cursor + 1) mod tc_Partitions topic]> cursors, partition).

Definition selectPartition `{Hash64} (cursors : gmap string Z) (topic : TopicConfig)
    (partitioning : PublishPartitioning) (key : bytes) : gmap string Z * result BrokerError Z :=
  if tc_Partitions topic =? 0 then (cursors, Err (StoreError CodeInvalidArgument))
  else if decide (pp_Mode partitioning = PartitionExplicit) then
    if tc_Partitions topic <=? pp_Partition partitioning then (cursors, Err (StoreError CodePartitionNotFound))
    else (cursors, Ok (pp_Partition partitioning))
  else if decide (pp_Mode partitioning = PartitionKeyHash) then
    if len key =? 0 then (cursors, Err (StoreError CodeInvalidArgument))
    else (cursors, Ok (safeUint64ToUint32 (Sum64 key mod tc_Partitions topic)))
  else if decide (pp_Mode partitioning = PartitionRoutingKeyHash) then
    if decide (pp_RoutingKey partitioning = "") then (cursors, Err (StoreError CodeInvalidArgument))
    else (cursors, Ok (safeUint64ToUint32 (Sum64String (pp_RoutingKey partitioning) mod tc_Partitions topic)))
  else
    let '(cursors, partition) := nextRoundRobin cursors topic in (cursors, Ok partition).

(** ** Ordering policies *)

Definition withResolvedRoutingKey (partitioning : PublishPartitioning) (records : list RecordAppend)
    : PublishPartitioning :=
  if decide (pp_Mode partitioning <> PartitionRoutingKeyHash \/ pp_RoutingKey partitioning <> "") then partitioning
  else mkPublishPartitioning (pp_Mode partitioning) (pp_Partition partitioning)
         (partitionRoutingKey partitioning records).

(** An empty key and [nil] are not told apart by the callers. *)
Fixpoint firstRecordKey (records : list RecordAppend) : bytes :=
  match records with
  | [] => []
  | record :: records => if 0 <? len (ra_Key record) then ra_Key record else firstRecordKey records
  end.

Definition singleOrderingKey (records : list RecordAppend) : option bytes :=
  let first := firstRecordKey records in
  if len first =? 0 then None
  else if forallb (fun r => negb ((len (ra_Key r) =? 0) || negb (bool_decide (ra_Key r = first)))) records
  then Some first else None.

Definition singleOrderingRoutingKey (partitioning : PublishPartitioning) (records : list RecordAppend)
    : option string :=
  let first := partitionRoutingKey partitioning records in
  if decide (first = "") then None
  else if forallb (fun r => negb (negb (bool_decide (appendRoutingKey r = "")) && negb (bool_decide (appendRoutingKey r = first)))) records
  then Some first else None.

Definition resolveTopicOrderingPartitioning (topic : TopicConfig) (partitioning : PublishPartitioning)
    (records : list RecordAppend) : result BrokerError PublishPartitioning :=
  let policy := tc_OrderingPolicy topic in
  if decide (policy = TopicOrderingNone \/ policy = TopicOrderingPartition) then
    Ok (withResolvedRoutingKey partitioning records)
  else if decide (policy = TopicOrderingKey) then
    match singleOrderingKey records with
    | None => Err (StoreError CodeInvalidArgument)
    | Some _ =>
        Ok (mkPublishPartitioning PartitionKeyHash (pp_Partition partitioning) (pp_RoutingKey partitioning))
    end
  else if decide (policy = TopicOrderingRoutingKey) then
    match singleOrderingRoutingKey partitioning records with
    | None => Err (StoreError CodeInvalidArgument)
    | Some routingKey => Ok (mkPublishPartitioning PartitionRoutingKeyHash (pp_Partition partitioning) routingKey)
    end
  else Err (StoreError CodeInvalidArgument).

(** ** Topics *)

Definition loadTopicConfigDirect (b : Broker) (name : string) : result BrokerError (option TopicConfig) :=
  of_store (LoadTopicConfig (b_store b) name).

(** The branch of a broker without a topic cache. *)
Definition topicConfig (b : Broker) (name : string) : result BrokerError (option TopicConfig) :=
  loadTopicConfigDirect b name.

Definition loadTopicConfig (b : Broker) (topic : string) : result BrokerError TopicConfig :=
  cfg ← topicConfig b topic;
  match cfg with None => Err (StoreError CodeTopicNotFound) | Some cfg => Ok cfg end.

Definition normalizeRecordPriorityForTopic (b : Broker) (topicName : string) (record : RecordAppend)
    : result BrokerError RecordAppend :=
  topic ← loadTopicConfig b topicName;
  normalizeRecordPriority topic record.

Definition normalizeRecordsPriorityForTopic (b : Broker) (topicName : string) (records : list RecordAppend)
    : result BrokerError (list RecordAppend) :=
  topic ← loadTopicConfig b topicName;
  normalizeRecordsPriority topic records.

Definition orderRecordsByPriority (b : Broker) (topicName : string) (records : list Rec)
    : result BrokerError (list Rec) :=
  if len records <? 2 then Ok records
  else
    topic ← loadTopicConfig b topicName;
    let policy := NormalizeTopicPriorityPolicy (tc_PriorityPolicy topic) in
    if negb (tpp_Enabled policy) then Ok records else orderRecordsByPriorityPolicy policy records.

(** ** One batch *)

Record ProduceBatchResult := mkProduceBatchResult { pbr_Partition : Z; pbr_Records : list Rec }.

(** The error of an item is its message; [None] is the empty string. *)
Record produceBatchItemResult := mkProduceBatchItemResult {
  pbi_Result : ProduceBatchResult;
  pbi_Error : option BrokerError;
  pbi_Appended : bool
}.

Definition validateBatchPayload (b : Broker) (records : list RecordAppend) : result BrokerError unit :=
  let totalBytes := foldl (fun total record => total + len (ra_Payload record)) 0 records in
  if b_MaxBatchPayloadBytes b <? totalBytes then Err (StoreError CodeInvalidArgument) else Ok tt.

Definition set_request (partitioning : PublishPartitioning) (records : list RecordAppend)
    (req : produceBatchCommand) : produceBatchCommand :=
  mkProduceBatchCommand (pbc_Topic req) partitioning records (pbc_Idempotency req).

(** The checks before the partition is selected. *)
Definition resolveProduceBatch (b : Broker) (req : produceBatchCommand)
    : result BrokerError (TopicConfig * produceBatchCommand) :=
  topic ← topicConfig b (pbc_Topic req);
  topic ← match topic with None => Err (StoreError CodeTopicNotFound) | Some topic => Ok topic end;
  _ ← validateBatchPayload b (pbc_Records req);
  records ← normalizeRecordsPriority topic (pbc_Records req);
  partitioning ← resolveTopicOrderingPartitioning topic (pbc_Partitioning req) records;
  Ok (topic, set_request partitioning records req).

Definition selectProducePartition `{Hash64} (b : Broker) (req : produceBatchCommand)
    : Broker * result BrokerError (Z * produceBatchCommand) :=
  match resolveProduceBatch b req with
  | Err e => (b, Err e)
  | Ok (topic, req) =>
      let '(cursors, r) := selectPartition (b_cursors b) topic (pbc_Partitioning req) (firstRecordKey (pbc_Records req)) in
      (set_cursors cursors b, partition ← r; Ok (partition, req))
  end.

Definition applyProduceBatchInternal `{MapRange} `{Hash64} (clock : nat -> Z) (nowMS : Z) (b : Broker)
    (req : produceBatchCommand) : Broker * result BrokerError produceBatchItemResult :=
  match selectProducePartition b req with
  | (b, Err e) => (b, Err e)
  | (b, Ok (partition, req)) =>
      let '(s, appended) := appendProduceBatch clock nowMS (b_store b) (pbc_Topic req) partition req in
      (set_store s b,
       appended ← appended;
       Ok (mkProduceBatchItemResult (mkProduceBatchResult partition (apr_Records appended)) None (apr_Appended appended)))
  end.

Definition applyProduceBatch `{MapRange} `{Hash64} (clock : nat -> Z) (nowMS : Z) (b : Broker)
    (req : produceBatchCommand) : Broker * result BrokerError ProduceBatchResult :=
  let '(b, item) := applyProduceBatchInternal clock nowMS b req in (b, item ← item; Ok (pbi_Result item)).

(** ** One record *)

Record produceCommand := mkProduceCommand {
  pc_Topic : string;
  pc_Partitioning : PublishPartitioning;
  pc_Record : RecordAppend;
  pc_Idempotency : option ProduceIdempotency
}.

Record ProduceResult := mkProduceResult { por_Partition : Z; por_Record : Rec }.

Definition prepareProduceRecord (b : Broker) (req : produceCommand)
    : result BrokerError (TopicConfig * RecordAppend * PublishPartitioning) :=
  topic ← loadTopicConfig b (pc_Topic req);
  record ← normalizeRecordPriority topic (pc_Record req);
  partitioning ← resolveTopicOrderingPartitioning topic (pc_Partitioning req) [record];
  Ok (topic, record, partitioning).

Definition applyProduce `{MapRange} `{Hash64} (clock : nat -> Z) (nowMS : Z) (b : Broker) (req : produceCommand)
    : Broker * result BrokerError ProduceResult :=
  match pc_Idempotency req with
  | Some id =>
      let '(b, batch) := applyProduceBatch clock nowMS b
        (mkProduceBatchCommand (pc_Topic req) (pc_Partitioning req) [pc_Record req] (Some id)) in
      (b, batch ← batch;
          match pbr_Records batch with
          | [] => Err (StoreError CodeCodec)
          | record :: _ => Ok (mkProduceResult (pbr_Partition batch) record)
          end)
  | None =>
      match prepareProduceRecord b req with
      | Err e => (b, Err e)
      | Ok (topic, record, partitioning) =>
          match selectPartition (b_cursors b) topic partitioning (ra_Key record) with
          | (cursors, Err e) => (set_cursors cursors b, Err e)
          | (cursors, Ok partition) =>
              let '(s, appended) := PublishRecord (clock O) (b_store b) (pc_Topic req) partition record in
              (set_store s (set_cursors cursors b),
               appended ← of_store appended; Ok (mkProduceResult partition appended))
          end
      end
  end.

(** ** Group commit *)

Record produceBatchPlan := mkProduceBatchPlan {
  plan_index : nat;
  plan_tp : TopicPartition;
  plan_request : produceBatchCommand
}.

Record produceBatchGroup := mkProduceBatchGroup { pbg_tp : TopicPartition; pbg_indexes : list nat }.

Definition zeroCommand : produceBatchCommand := mkProduceBatchCommand "" (mkPublishPartitioning "" 0 "") [] None.
Definition zeroItem : produceBatchItemResult := mkProduceBatchItemResult (mkProduceBatchResult 0 []) None false.

(** The indexes of a group are positions of the requests. *)
Definition requestAt (requests : list produceBatchCommand) (index : nat) : produceBatchCommand :=
  default zeroCommand (requests !! index).

Definition set_Error (e : BrokerError) (item : produceBatchItemResult) : produceBatchItemResult :=
  mkProduceBatchItemResult (pbi_Result item) (Some e) (pbi_Appended item).

Definition planProduceBatch `{Hash64} (index : nat) (b : Broker) (req : produceBatchCommand)
    : Broker * result BrokerError produceBatchPlan :=
  let '(b, r) := selectProducePartition b req in
  (b, '(partition, planned) ← r;
      Ok (mkProduceBatchPlan index (NewTopicPartition (pbc_Topic req) partition) planned)).

(** The first loop of [applyProduceBatches]: the items, the planned requests
    and the plans, from request [index] on. *)
Fixpoint planProduceBatches `{Hash64} (index : nat) (b : Broker) (requests : list produceBatchCommand)
    : Broker * (list produceBatchItemResult * list produceBatchCommand * list produceBatchPlan) :=
  match requests with
  | [] => (b, ([], [], []))
  | batch :: requests =>
      let '(b, r) := planProduceBatch index b batch in
      let '(b, (items, planned, plans)) := planProduceBatches (S index) b requests in
      match r with
      | Err e => (b, (set_Error e zeroItem :: items, zeroCommand :: planned, plans))
      | Ok plan => (b, (zeroItem :: items, plan_request plan :: planned, plan :: plans))
      end
  end.

Definition groupProduceBatchPlans (plans : list produceBatchPlan) : gmap TopicPartition produceBatchGroup :=
  foldl (fun groups plan =>
    let group := default (mkProduceBatchGroup (plan_tp plan) []) (groups !! plan_tp plan) in
    <[plan_tp plan := mkProduceBatchGroup (pbg_tp group) (pbg_indexes group ++ [plan_index plan])]> groups) ∅ plans.

Definition groupHasIdempotentProduce (requests : list produceBatchCommand) (indexes : list nat) : bool :=
  existsb (fun index => bool_decide (is_Some (pbc_Idempotency (requestAt requests index)))) indexes.

Definition groupRecords (requests : list produceBatchCommand) (indexes : list nat) : list RecordAppend :=
  indexes ≫= fun index => pbc_Records (requestAt requests index).

Definition setProduceBatchGroupError (items : list produceBatchItemResult) (indexes : list nat) (e : BrokerError)
    : list produceBatchItemResult :=
  foldl (fun items index => alter (set_Error e) index items) items indexes.

(** The loop of [splitProduceBatchGroupRecords]; [records] are the ones from
    [cursor] on.  The items assigned before an error stay assigned. *)
Fixpoint splitLoop (requests : list produceBatchCommand) (partition : Z) (indexes : list nat) (records : list Rec)
    (items : list produceBatchItemResult) : list produceBatchItemResult * result BrokerError unit :=
  match indexes with
  | [] => (items, if len records =? 0 then Ok tt else Err (StoreError CodeCodec))
  | index :: indexes =>
      let count := length (pbc_Records (requestAt requests index)) in
      if (length records <? count)%nat then (items, Err (StoreError CodeCodec))
      else
        let item := mkProduceBatchItemResult (mkProduceBatchResult partition (take count records)) None true in
        splitLoop requests partition indexes (drop count records) (<[index := item]> items)
  end.

Definition splitProduceBatchGroupRecords (requests : list produceBatchCommand) (group : produceBatchGroup)
    (records : list Rec) (items : list produceBatchItemResult)
    : list produceBatchItemResult * result BrokerError unit :=
  splitLoop requests (tp_Partition (pbg_tp group)) (pbg_indexes group) records items.

Definition applyProduceBatchGroupIndividually `{MapRange} `{Hash64} (clock : nat -> nat -> Z) (nowMS : nat -> Z)
    (b : Broker) (requests : list produceBatchCommand) (group : produceBatchGroup)
    (items : list produceBatchItemResult) : Broker * list produceBatchItemResult :=
  foldl (fun acc index =>
    let '(b, items) := (acc : Broker * list produceBatchItemResult) in
    let command := requestAt requests index in
    let explicit := mkPublishPartitioning PartitionExplicit (tp_Partition (pbg_tp group)) "" in
    match applyProduceBatchInternal (clock index) (nowMS index) b (set_request explicit (pbc_Records command) command) with
    | (b, Err e) => (b, alter (set_Error e) index items)
    | (b, Ok item) => (b, <[index := item]> items)
    end) (b, items) (pbg_indexes group).

(** The append made for a group counts as made for its first request. *)
Definition applyProduceBatchGroup `{MapRange} `{Hash64} (clock : nat -> nat -> Z) (nowMS : nat -> Z)
    (ctxErr : TopicPartition -> bool) (b : Broker) (requests : list produceBatchCommand) (group : produceBatchGroup)
    (items : list produceBatchItemResult) : Broker * list produceBatchItemResult :=
  let tp := pbg_tp group in
  let indexes := pbg_indexes group in
  if ctxErr tp then (b, setProduceBatchGroupError items indexes (BrokerFailure "context"))
  else if groupHasIdempotentProduce requests indexes then
    applyProduceBatchGroupIndividually clock nowMS b requests group items
  else
    match PublishBatchRecords (clock (default O (head indexes))) (b_store b) (tp_Topic tp) (tp_Partition tp)
            (groupRecords requests indexes) with
    | (s, Err code) => (set_store s b, setProduceBatchGroupError items indexes (StoreError code))
    | (s, Ok records) =>
        match splitProduceBatchGroupRecords requests group records items with
        | (items, Err e) => (set_store s b, setProduceBatchGroupError items indexes e)
        | (items, Ok _) => (set_store s b, items)
        end
    end.

Definition applyProduceBatches `{MapRange} `{Hash64} (clock : nat -> nat -> Z) (nowMS : nat -> Z)
    (ctxErr : TopicPartition -> bool) (b : Broker) (requests : list produceBatchCommand)
    : Broker * list produceBatchItemResult :=
  let '(b, (items, planned, plans)) := planProduceBatches O b requests in
  foldl (fun acc group =>
    let '(b, items) := (acc : Broker * list produceBatchItemResult) in
    applyProduceBatchGroup clock nowMS ctxErr b planned group items)
    (b, items) (values (groupProduceBatchPlans plans)).

(** ** Fan-out *)

Record FanoutRecordResult := mkFanoutRecordResult {
  fr_Partition : Z;
  fr_Record : option Rec;
  fr_NextOffset : Z;
  fr_Error : option BrokerError
}.

Definition fanoutRecord (item : produceBatchItemResult) : FanoutRecordResult :=
  match pbi_Error item with
  | Some e => mkFanoutRecordResult 0 None 0 (Some e)
  | None =>
      match pbr_Records (pbi_Result item) with
      | [] => mkFanoutRecordResult 0 None 0 (Some (BrokerFailure "fanout append returned no records"))
      | appended :: _ =>
          mkFanoutRecordResult (pbr_Partition (pbi_Result item)) (Some appended) (u64 (r_Offset appended + 1)) None
      end
  end.

(** The records, and the error when one of them failed. *)
Definition fanoutResultFromProduceBatches (items : list produceBatchItemResult)
    : list FanoutRecordResult * option BrokerError :=
  let records := fanoutRecord <$> items in
  let failures := length (filter (fun r => fr_Error r <> None) records) in
  (records, if (0 <? failures)%nat then Some (StoreError CodeUnavailable) else None).

Definition fanoutRequests (topic : string) (record : RecordAppend) (partitions : Z) : list produceBatchCommand :=
  (fun partition =>
     mkProduceBatchCommand topic (mkPublishPartitioning PartitionExplicit partition "") [record] None)
  <$> seqZ 0 partitions.

(** Of a broker without a cluster router; a 32-bit count is an [int]. *)
Definition publishFanoutScoped `{MapRange} `{Hash64} (clock : nat -> nat -> Z) (nowMS : nat -> Z)
    (ctxErr : TopicPartition -> bool) (b : Broker) (topic : string) (record : RecordAppend) (partitions : Z)
    : Broker * (list FanoutRecordResult * option BrokerError) :=
  match intFromUint64 partitions with
  | Err e => (b, ([], Some e))
  | Ok _ =>
      let '(b, items) := applyProduceBatches clock nowMS ctxErr b (fanoutRequests topic record partitions) in
      (b, fanoutResultFromProduceBatches items)
  end.

Definition checkedIntProduct (left right : Z) : result BrokerError Z :=
  if (left <? 0) || (right <? 0) then Err (StoreError CodeInvalidArgument)
  else
    let maxInt := 2 ^ 63 - 1 in
    if negb (left =? 0) && (maxInt / left <? right) then Err (StoreError CodeInvalidArgument) else Ok (left * right).

Definition checkedUint64Product (left right : Z) : result BrokerError Z :=
  if negb (left =? 0) && (max_u64 / left <? right) then Err (StoreError CodeInvalidArgument) else Ok (left * right).

(** The quota a fan-out asks for: records, payload bytes, storage bytes. *)
Definition fanoutQuotaUsage (partitions : Z) (record : RecordAppend) : result BrokerError (Z * Z * Z) :=
  if partitions =? 0 then Err (StoreError CodeInvalidArgument)
  else
    records ← intFromUint64 partitions;
    payloadBytes ← checkedIntProduct records (len (ra_Payload record));
    storageBytes ← checkedUint64Product partitions (RecordAppendStorageBytes record);
    Ok (records, payloadBytes, storageBytes).
