(* ===== verification/ProduceSpec.v ===== *)
(** * Producing: ordered topics keep a key in one partition

    Placement on topics ordered by key or routing key over any history of
    produce commands; round robin; the order of priorities. *)

From stdpp Require Import prelude gmap strings sorting list relations.
From S2P Require Import Prelude Model MemoryStore LogSpec MetaStore MetaSpec Queue Idempotency IdempotencySpec Headers Produce.

#[local] Open Scope Z_scope.

(** ** Headers *)

Lemma routingKey_upsert headers key value :
  key <> RoutingKeyHeader -> routingKeyFromHeaders (upsertHeader headers key value) = routingKeyFromHeaders headers.
Proof.
  intros Hne. induction headers as [|h hs IH]; cbn [upsertHeader routingKeyFromHeaders header rh_Key].
  - by rewrite decide_False.
  - destruct (decide (rh_Key h = key)) as [E|E]; cbn [routingKeyFromHeaders rh_Key rh_Value].
    + by rewrite !decide_False by congruence.
    + by rewrite IH.
Qed.

Lemma routingKey_upsert_same headers value : routingKeyFromHeaders (upsertHeader headers RoutingKeyHeader value) = value.
Proof.
  induction headers as [|h hs IH]; cbn [upsertHeader routingKeyFromHeaders header rh_Key rh_Value].
  - rewrite decide_True by done. apply Stdlib.Strings.String.string_of_list_byte_of_string.
  - destruct (decide (rh_Key h = RoutingKeyHeader)) as [E|E]; cbn [routingKeyFromHeaders rh_Key rh_Value].
    + rewrite decide_True by done. apply Stdlib.Strings.String.string_of_list_byte_of_string.
    + by rewrite decide_False.
Qed.

(** What the normalisation of priorities keeps of a record. *)
Definition same_keys (r r' : RecordAppend) : Prop :=
  ra_Key r' = ra_Key r /\ ra_Payload r' = ra_Payload r /\ appendRoutingKey r' = appendRoutingKey r.

Lemma normalizeRecordPriority_keys topic r r' : normalizeRecordPriority topic r = Ok r' -> same_keys r r'.
Proof.
  unfold normalizeRecordPriority. destruct (negb _); [by intros [= <-]|].
  intros (p & _ & Hr)%bind_ok. destruct (_ || _); [done|]. injection Hr as <-.
  split_and!; [done|done|]. apply routingKey_upsert. done.
Qed.

Lemma normalizeRecordsPriority_keys topic rs rs' : normalizeRecordsPriority topic rs = Ok rs' -> Forall2 same_keys rs rs'.
Proof.
  unfold normalizeRecordsPriority. destruct (negb _); [intros [= <-]; by apply Forall_Forall2_diag, Forall_true|].
  revert rs'. induction rs as [|r rs IH]; cbn [normalizeEach]; intros rs'; [by intros [= <-]|].
  intros (r' & Hr & (rs1 & Hrs & [= <-])%bind_ok)%bind_ok. constructor; [by eapply normalizeRecordPriority_keys|auto].
Qed.

(** ** Placement on one ordered topic *)

Section Placement.
Context `{MapRange} `{Hash64} (topic : string) (cfg : TopicConfig).
Hypothesis Hu32 : is_u32 (tc_Partitions cfg).

(** Where a record with this key and these headers may be stored. *)
Definition placed (tp : TopicPartition) (key : bytes) (routingKey : string) : Prop :=
  tp_Topic tp = topic ->
  (tc_OrderingPolicy cfg = TopicOrderingKey ->
     key <> [] /\ tp_Partition tp = Sum64 key mod tc_Partitions cfg) /\
  (tc_OrderingPolicy cfg = TopicOrderingRoutingKey -> routingKey <> "" ->
     tp_Partition tp = Sum64String routingKey mod tc_Partitions cfg).

Definition placed_append tp (ar : RecordAppend) : Prop := placed tp (ra_Key ar) (appendRoutingKey ar).

Record placed_inv (s : MemoryStore) : Prop := {
  pl_topic : topics s !! topic = Some cfg;
  pl_records : forall tp r, r ∈ recordsOf s tp -> placed tp (r_Key r) (recordRoutingKey r)
}.

Lemma AppendRecord_placed nowMS s tp ar :
  placed_inv s -> placed_append tp ar -> placed_inv (AppendRecord nowMS s tp ar).1.
Proof.
  intros [Ht Hr] Hp. destruct (AppendRecord nowMS s tp ar) as [s' [r|e]] eqn:Ea; [|by apply AppendRecord_err in Ea as ->].
  pose proof (fun tp' => AppendRecord_log _ _ _ _ _ _ tp' Ea) as Hlog. simpl. split.
  - by destruct (Hlog tp) as (_ & _ & ->).
  - intros tp' r'. destruct (Hlog tp') as (-> & _). destruct (decide (tp = tp')) as [<-|_]; [|apply Hr].
    intros [Hin| ->%list_elem_of_singleton]%elem_of_app; [by apply Hr|].
    apply AppendRecord_ok in Ea as (? & _ & _ & _ & E & _). unfold recordFromAppend in E.
    apply bind_ok in E as (? & _ & [= <-]). exact Hp.
Qed.

Lemma AppendRecordsBatch_placed clock s tp ars :
  placed_inv s -> Forall (placed_append tp) ars -> placed_inv (AppendRecordsBatch clock s tp ars).1.
Proof.
  induction ars as [|ar ars IH] in clock, s |- *; intros Hs Hall; [done|]. apply Forall_cons in Hall as [Ha Hall].
  pose proof (AppendRecord_placed (clock 0%nat) s tp ar Hs Ha) as H1. cbn [AppendRecordsBatch].
  destruct (AppendRecord (clock 0%nat) s tp ar) as [s1 [r|e]]; cbn [fst] in *; [|done].
  specialize (IH (fun i => clock (S i)) s1 H1 Hall). by destruct (AppendRecordsBatch _ s1 tp ars).
Qed.

#[local] Instance placed_inv_proper : Proper (log_eq ==> impl) placed_inv.
Proof.
  intros s s' (E1 & _ & E3 & _) [Ht Hr]. split; [by rewrite E1|]. unfold recordsOf in *. by rewrite E3.
Qed.

Lemma SaveProducerBatch_log s batch : log_eq s (SaveProducerBatch s batch).1.
Proof. unfold SaveProducerBatch. by case_match. Qed.

Lemma prune_log s f : log_eq s (pruneProducerDedupeWindow s f).1.
Proof.
  unfold pruneProducerDedupeWindow. destruct (ListProducerBatches s f) as [bs|]; [|done]. case_match; [done|].
  apply deleteBatches_step.
Qed.

Lemma saveProducerDedupeBatch_log nowMS s f id t p rs : log_eq s (saveProducerDedupeBatch nowMS s f id t p rs).1.
Proof.
  unfold saveProducerDedupeBatch. destruct (newProducerPublishedBatch nowMS id t p rs) as [batch|]; [|done].
  pose proof (SaveProducerBatch_log s batch) as H1. destruct (SaveProducerBatch s batch) as [s1 [[]|]]; [|done].
  pose proof (prune_log s1 f) as H2. unfold log_eq in *. cbn [fst] in *. destruct_and!. split_and!; congruence.
Qed.

(** The store after a batch is the store after the plain append, up to the
    metadata, or unchanged. *)
Lemma appendProduceBatch_cases clock nowMS s t p req :
  let s' := (appendProduceBatch clock nowMS s t p req).1 in
  s' = s \/ log_eq (AppendRecordsBatch clock s (NewTopicPartition t p) (pbc_Records req)).1 s'.
Proof.
  unfold appendProduceBatch, appendIdempotentProduceBatch, PublishBatchRecords. destruct (pbc_Idempotency req) as [id|].
  - destruct (_ ≫= _) as [[f [b|]]|]; [by left| |by left].
    destruct (AppendRecordsBatch clock s _ _) as [s1 [out|]]; [|by right].
    pose proof (saveProducerDedupeBatch_log nowMS s1 f id t p out) as Hl.
    destruct (saveProducerDedupeBatch nowMS s1 f id t p out) as [s2 [[]|]]; by right.
  - destruct (AppendRecordsBatch clock s _ _) as [s1 [out|]]; by right.
Qed.

Lemma appendProduceBatch_placed clock nowMS s t p req :
  placed_inv s -> Forall (placed_append (NewTopicPartition t p)) (pbc_Records req) ->
  placed_inv (appendProduceBatch clock nowMS s t p req).1.
Proof.
  intros Hs Hall. destruct (appendProduceBatch_cases clock nowMS s t p req) as [->|Hl]; [done|].
  rewrite <- Hl. by apply AppendRecordsBatch_placed.
Qed.

(** ** The selected partition places every record of the batch *)

Lemma hash_partition h : is_u64 h -> safeUint64ToUint32 (h mod tc_Partitions cfg) = h mod tc_Partitions cfg \/ tc_Partitions cfg = 0.
Proof using Hu32.
  intros Hh. destruct (Z.eqb_spec (tc_Partitions cfg) 0) as [|Hne]; [by right|left]. unfold is_u32, is_u64 in *.
  pose proof (Z.mod_pos_bound h (tc_Partitions cfg) ltac:(lia)). unfold safeUint64ToUint32.
  rewrite (proj2 (Z.ltb_ge _ _)) by lia. unfold u32. apply Z.mod_small. lia.
Qed.

Lemma singleOrderingKey_spec rs key :
  singleOrderingKey rs = Some key -> key <> [] /\ firstRecordKey rs = key /\ Forall (fun r => ra_Key r = key) rs.
Proof.
  unfold singleOrderingKey. destruct (len (firstRecordKey rs) =? 0) eqn:El; [done|].
  destruct (forallb _ rs) eqn:Ef; [|done]. intros [= <-]. split_and!; [|done|].
  - intros E. by rewrite E in El.
  - apply Forall_forall. intros r Hin. apply list_elem_of_In in Hin. rewrite forallb_forall in Ef. specialize (Ef r Hin).
    apply negb_true_iff, orb_false_iff in Ef as [_ Ef]. by apply negb_false_iff, bool_decide_eq_true in Ef.
Qed.

Lemma singleOrderingRoutingKey_spec partitioning rs key :
  singleOrderingRoutingKey partitioning rs = Some key ->
  Forall (fun r => appendRoutingKey r <> "" -> appendRoutingKey r = key) rs.
Proof.
  unfold singleOrderingRoutingKey. destruct (decide _); [done|].
  destruct (forallb _ rs) eqn:Ef; [|done]. intros [= <-].
  apply Forall_forall. intros r Hin Hne. apply list_elem_of_In in Hin. rewrite forallb_forall in Ef. specialize (Ef r Hin).
  rewrite (bool_decide_false (appendRoutingKey r = "")) in Ef by done.
  apply negb_true_iff, andb_false_iff in Ef as [Ef|Ef]; [done|]. by apply negb_false_iff, bool_decide_eq_true in Ef.
Qed.

(** Ordering policy, router and records agree on the partition. *)
Lemma ordered_selection cursors partitioning rs key p cursors' partition :
  resolveTopicOrderingPartitioning cfg partitioning rs = Ok p ->
  (tc_OrderingPolicy cfg = TopicOrderingKey -> firstRecordKey rs = key) ->
  selectPartition cursors cfg p key = (cursors', Ok partition) ->
  Forall (placed_append (NewTopicPartition topic partition)) rs.
Proof using Hu32.
  unfold resolveTopicOrderingPartitioning, selectPartition. intros Hp Hkey Hs.
  destruct (tc_Partitions cfg =? 0) eqn:E0; [done|]. apply Z.eqb_neq in E0.
  destruct (decide (_ \/ _)) as [Ho|_].
  { apply Forall_forall. intros r _ _. split; intros E; rewrite E in Ho; by destruct Ho. }
  destruct (decide (tc_OrderingPolicy cfg = TopicOrderingKey)) as [Eo|_].
  - destruct (singleOrderingKey rs) as [k|] eqn:Ek; [|done]. injection Hp as <-. cbn [pp_Mode] in Hs.
    apply singleOrderingKey_spec in Ek as (Hne & Hf & Hall). rewrite Hf in Hkey. specialize (Hkey Eo). subst key.
    rewrite decide_False, decide_True in Hs by done. destruct (len k =? 0); [done|]. injection Hs as _ <-.
    destruct (hash_partition (Sum64 k) (Sum64_range k)) as [->|]; [|done].
    eapply Forall_impl; [exact Hall|]. intros r Er _. split; [|by rewrite Eo]. intros _. by rewrite Er.
  - destruct (decide (tc_OrderingPolicy cfg = TopicOrderingRoutingKey)) as [Eo|_]; [|done].
    destruct (singleOrderingRoutingKey partitioning rs) as [k|] eqn:Ek; [|done]. injection Hp as <-. cbn [pp_Mode pp_RoutingKey] in Hs.
    apply singleOrderingRoutingKey_spec in Ek. rewrite !decide_False, decide_True in Hs by done.
    destruct (decide (k = "")); [done|]. injection Hs as _ <-.
    destruct (hash_partition (Sum64String k) (Sum64String_range k)) as [->|]; [|done].
    eapply Forall_impl; [exact Ek|]. intros r Er _. split; [by rewrite Eo|]. intros _ Hne. by rewrite (Er Hne).
Qed.

(** ** Histories of produce commands *)

#[local] Abbreviation ok b := (placed_inv (b_store b)).

Lemma other_topic tp rs : tp_Topic tp <> topic -> Forall (placed_append tp) rs.
Proof. intros Hne. apply Forall_forall. by intros r _ E. Qed.

Lemma selectProducePartition_store b req : b_store (selectProducePartition b req).1 = b_store b.
Proof.
  unfold selectProducePartition. destruct (resolveProduceBatch b req) as [[t r]|]; [|done].
  by destruct (selectPartition _ t _ _).
Qed.

Lemma selectProducePartition_placed b req b' partition req' :
  ok b -> selectProducePartition b req = (b', Ok (partition, req')) ->
  pbc_Topic req' = pbc_Topic req /\ Forall (placed_append (NewTopicPartition (pbc_Topic req) partition)) (pbc_Records req').
Proof using Hu32.
  intros Hb. unfold selectProducePartition, resolveProduceBatch. intros Hs.
  destruct (topicConfig b (pbc_Topic req)) as [[t|]|] eqn:Et; cbn [mbind result_bind] in Hs; [|done..].
  destruct (validateBatchPayload b (pbc_Records req)); cbn [mbind result_bind] in Hs; [|done].
  destruct (normalizeRecordsPriority t (pbc_Records req)) as [rs|]; cbn [mbind result_bind] in Hs; [|done].
  destruct (resolveTopicOrderingPartitioning t (pbc_Partitioning req) rs) as [p|] eqn:Ep; cbn [mbind result_bind] in Hs; [|done].
  cbn [set_request pbc_Partitioning pbc_Records] in Hs.
  destruct (selectPartition (b_cursors b) t p (firstRecordKey rs)) as [c [q|]] eqn:Eq; cbn [mbind result_bind] in Hs; [|done].
  injection Hs as <- <- <-. split; [done|]. cbn [set_request pbc_Records].
  destruct (decide (pbc_Topic req = topic)) as [E|E]; [|by apply other_topic]. rewrite E in *.
  unfold topicConfig, loadTopicConfigDirect, LoadTopicConfig in Et. rewrite (pl_topic _ Hb) in Et. injection Et as <-.
  by eapply ordered_selection.
Qed.

Lemma Internal_placed clock nowMS b req : ok b -> ok (applyProduceBatchInternal clock nowMS b req).1.
Proof using Hu32.
  intros Hb. unfold applyProduceBatchInternal. pose proof (selectProducePartition_store b req) as Es.
  destruct (selectProducePartition b req) as [b1 [[q req']|e]] eqn:Eq; cbn [fst] in Es; [|by rewrite <- Es in Hb].
  destruct (selectProducePartition_placed b req b1 q req' Hb Eq) as [Et Hall]. rewrite <- Es in Hb. rewrite <- Et in Hall.
  pose proof (appendProduceBatch_placed clock nowMS _ _ _ _ Hb Hall) as Ha.
  by destruct (appendProduceBatch clock nowMS _ _ _ _).
Qed.

Lemma Batch_placed clock nowMS b req : ok b -> ok (applyProduceBatch clock nowMS b req).1.
Proof using Hu32.
  intros Hb. unfold applyProduceBatch. pose proof (Internal_placed clock nowMS b req Hb) as Hi.
  by destruct (applyProduceBatchInternal clock nowMS b req).
Qed.

Lemma firstRecordKey_singleton r : firstRecordKey [r] = ra_Key r.
Proof. simpl. destruct (ra_Key r) as [|x k]; [done|]. by autorewrite with len; rewrite (proj2 (Z.ltb_lt _ _)) by (pose proof (len_nonneg k); lia). Qed.

Lemma Produce_placed clock nowMS b req : ok b -> ok (applyProduce clock nowMS b req).1.
Proof using Hu32.
  intros Hb. unfold applyProduce. destruct (pc_Idempotency req) as [id|].
  { match goal with |- context [applyProduceBatch clock nowMS b ?r] => pose proof (Batch_placed clock nowMS b r Hb) as Hi end.
    by destruct (applyProduceBatch clock nowMS b _). }
  destruct (prepareProduceRecord b req) as [[[t r] p]|] eqn:Ep; [|done].
  destruct (selectPartition (b_cursors b) t p (ra_Key r)) as [c [q|]] eqn:Eq; [|done].
  unfold PublishRecord. set (tp := NewTopicPartition (pc_Topic req) q).
  assert (placed_append tp r) as Hp.
  { destruct (decide (pc_Topic req = topic)) as [E|E]; [|by intros E'].
    unfold prepareProduceRecord, loadTopicConfig, topicConfig, loadTopicConfigDirect, LoadTopicConfig in Ep.
    rewrite E, (pl_topic _ Hb) in Ep. cbn [of_store mbind result_bind] in Ep.
    apply bind_ok in Ep as (r' & _ & (p' & Hp & [= <- <- <-])%bind_ok). subst tp. rewrite E.
    eapply (Forall_singleton (placed_append _)), ordered_selection; [done| |done]. intros _. apply firstRecordKey_singleton. }
  pose proof (AppendRecord_placed (clock O) (b_store b) tp r Hb Hp) as Ha.
  by destruct (AppendRecord (clock O) (b_store b) tp r).
Qed.

(** ** Plans and groups *)

(** The plan of a request belongs to it, and places it. *)
Definition plan_ok (planned : list produceBatchCommand) (plan : produceBatchPlan) : Prop :=
  requestAt planned (plan_index plan) = plan_request plan.

Lemma planProduceBatches_spec index b requests b' items planned plans :
  planProduceBatches index b requests = (b', (items, planned, plans)) ->
  b_store b' = b_store b /\ length items = length requests /\ length planned = length requests /\
  Forall (fun plan => (index <= plan_index plan)%nat /\
                      planned !! (plan_index plan - index)%nat = Some (plan_request plan)) plans /\
  (ok b -> Forall (fun plan => Forall (placed_append (plan_tp plan)) (pbc_Records (plan_request plan))) plans).
Proof using Hu32.
  revert index b b' items planned plans. induction requests as [|req requests IH]; intros index b b' items planned plans Hp;
    cbn [planProduceBatches] in Hp; [by simplify_eq|].
  unfold planProduceBatch in Hp. pose proof (selectProducePartition_store b req) as Es.
  destruct (selectProducePartition b req) as [b1 r] eqn:Eq. cbn [fst] in Es.
  destruct (planProduceBatches (S index) b1 requests) as [b2 [[items2 planned2] plans2]] eqn:E2.
  destruct (IH _ _ _ _ _ _ E2) as (Hst & Hi & Hl & Hidx & Hpl). rewrite Es in Hpl, Hst.
  assert (Forall (fun plan => (index <= plan_index plan)%nat /\
    forall x, (x :: planned2) !! (plan_index plan - index)%nat = Some (plan_request plan)) plans2) as Hidx'.
  { eapply Forall_impl; [exact Hidx|]. intros plan [Hle Hlk]. split; [lia|]. intros x.
    by replace (plan_index plan - index)%nat with (S (plan_index plan - S index))%nat by lia. }
  destruct r as [[q req']|e]; cbn [mbind result_bind] in Hp; simplify_eq; simpl.
  - split_and!; [done|lia|lia| |].
    + constructor; [by rewrite Nat.sub_diag|]. eapply Forall_impl; [exact Hidx'|]. intros plan [??]; auto.
    + intros Hb. constructor; [|by apply Hpl]. by eapply selectProducePartition_placed.
  - split_and!; [done|lia|lia| |by apply Hpl]. eapply Forall_impl; [exact Hidx'|]. intros plan [??]; auto.
Qed.

(** The groups partition the plans by their partition, in order. *)
Lemma groupProduceBatchPlans_lookup plans tp :
  groupProduceBatchPlans plans !! tp =
  match filter (fun plan => plan_tp plan = tp) plans with
  | [] => None
  | l => Some (mkProduceBatchGroup tp (plan_index <$> l))
  end.
Proof.
  unfold groupProduceBatchPlans. induction plans as [|plan plans IH] using rev_ind; [done|].
  rewrite foldl_app, filter_app. cbn [foldl]. set (groups := foldl _ ∅ plans) in *. rewrite filter_cons, filter_nil.
  destruct (decide (plan_tp plan = tp)) as [E|E].
  - rewrite E, lookup_insert_eq, IH. destruct (filter _ plans) as [|x l] eqn:Ef; [done|]. simpl. by rewrite fmap_app.
  - rewrite lookup_insert_ne, app_nil_r by done. apply IH.
Qed.

Lemma group_spec plans tp group :
  groupProduceBatchPlans plans !! tp = Some group ->
  pbg_tp group = tp /\ pbg_indexes group = plan_index <$> filter (fun plan => plan_tp plan = tp) plans.
Proof.
  rewrite groupProduceBatchPlans_lookup. destruct (filter _ plans) as [|x l]; [done|]. by intros [= <-].
Qed.

Lemma group_records_placed planned plans group :
  Forall (fun plan => planned !! plan_index plan = Some (plan_request plan)) plans ->
  Forall (fun plan => Forall (placed_append (plan_tp plan)) (pbc_Records (plan_request plan))) plans ->
  group ∈ values (groupProduceBatchPlans plans) ->
  Forall (placed_append (pbg_tp group)) (groupRecords planned (pbg_indexes group)).
Proof.
  intros Hidx Hall (tp & Hg)%elem_of_values. apply group_spec in Hg as [Etp Ei]. rewrite Etp, Ei.
  unfold groupRecords. apply Forall_bind, Forall_fmap, Forall_forall. intros plan [Ep Hin]%list_elem_of_filter.
  rewrite Forall_forall in Hidx, Hall. cbn. unfold requestAt. rewrite (Hidx plan Hin). cbn. rewrite <- Ep. by apply Hall.
Qed.

Lemma Individually_placed clock nowMS b planned group items :
  ok b -> ok (applyProduceBatchGroupIndividually clock nowMS b planned group items).1.
Proof using Hu32.
  unfold applyProduceBatchGroupIndividually. induction (pbg_indexes group) as [|i l IH] in b, items |- *; [done|].
  intros Hb. cbn [foldl].
  match goal with |- context [applyProduceBatchInternal ?c ?n b ?r] => pose proof (Internal_placed c n b r Hb) as Hi;
    destruct (applyProduceBatchInternal c n b r) as [b1 [item|e]] end; by apply IH.
Qed.

Lemma Group_placed clock nowMS ctxErr b planned group items :
  ok b -> Forall (placed_append (pbg_tp group)) (groupRecords planned (pbg_indexes group)) ->
  ok (applyProduceBatchGroup clock nowMS ctxErr b planned group items).1.
Proof using Hu32.
  intros Hb Hall. unfold applyProduceBatchGroup, PublishBatchRecords. destruct (ctxErr _); [done|].
  destruct (groupHasIdempotentProduce _ _); [by apply Individually_placed|].
  match goal with |- context [AppendRecordsBatch ?c ?s ?tp ?rs] => pose proof (AppendRecordsBatch_placed c s tp rs Hb) as Ha;
    destruct (AppendRecordsBatch c s tp rs) as [s1 [out|]] end.
  - specialize (Ha ltac:(by destruct (pbg_tp group))). by destruct (splitProduceBatchGroupRecords _ _ _ _) as [items1 [[]|]].
  - apply Ha. by destruct (pbg_tp group).
Qed.

Lemma Batches_placed clock nowMS ctxErr b requests : ok b -> ok (applyProduceBatches clock nowMS ctxErr b requests).1.
Proof using Hu32.
  intros Hb. unfold applyProduceBatches. destruct (planProduceBatches 0 b requests) as [b1 [[items planned] plans]] eqn:Ep.
  destruct (planProduceBatches_spec _ _ _ _ _ _ _ Ep) as (Es & _ & _ & Hidx & Hpl). specialize (Hpl Hb). rewrite <- Es in Hb.
  assert (Forall (fun plan => planned !! plan_index plan = Some (plan_request plan)) plans) as Hidx'.
  { eapply Forall_impl; [exact Hidx|]. intros plan [_ E]. by rewrite Nat.sub_0_r in E. }
  assert (forall g, g ∈ values (groupProduceBatchPlans plans) -> Forall (placed_append (pbg_tp g)) (groupRecords planned (pbg_indexes g))) as Hg'
    by (intros g; by apply group_records_placed).
  clear Ep Es Hidx Hidx' Hpl. induction (values _) as [|g gs IH] in b1, items, Hb, Hg' |- *; [done|]. cbn [foldl].
  pose proof (Group_placed clock nowMS ctxErr b1 planned g items Hb (Hg' g ltac:(by left))) as H1.
  destruct (applyProduceBatchGroup clock nowMS ctxErr b1 planned g items) as [b2 items2]. apply IH; [done|].
  intros g' Hin. apply Hg'. by right.
Qed.

End Placement.

(** One produce command of any kind, with the times it happens to read. *)
Inductive produce_step `{MapRange} `{Hash64} (b : Broker) : Broker -> Prop :=
| step_produce clock nowMS req : produce_step b (applyProduce clock nowMS b req).1
| step_batch clock nowMS req : produce_step b (applyProduceBatch clock nowMS b req).1
| step_batches clock nowMS ctxErr requests : produce_step b (applyProduceBatches clock nowMS ctxErr b requests).1.

Lemma produce_steps_placed `{MapRange} `{Hash64} topic cfg b b' :
  is_u32 (tc_Partitions cfg) -> rtc produce_step b b' -> placed_inv topic cfg (b_store b) -> placed_inv topic cfg (b_store b').
Proof.
  intros Hu. induction 1 as [|b1 b2 b3 Hstep _ IH]; [done|]. intros Hb. apply IH.
  destruct Hstep; [by apply Produce_placed|by apply Batch_placed|by apply Batches_placed].
Qed.

(** C32: a topic ordered by key keeps every key in one partition, and a topic
    ordered by routing key every routing key.  Whatever produce commands are
    applied (single, batch, group commit; any partitioning asked for, any
    state of the router, any order of the groups, retries of idempotent
    producers), two records of the topic with the same ordering key are in the
    same partition, the one the hash of the key selects. *)
Theorem ordered_topic_colocates `{MapRange} `{Hash64} topic cfg b b' :
  topics (b_store b) !! topic = Some cfg -> is_u32 (tc_Partitions cfg) ->
  (forall p, recordsOf (b_store b) (NewTopicPartition topic p) = []) ->
  rtc produce_step b b' ->
  forall p1 p2 r1 r2,
    r1 ∈ recordsOf (b_store b') (NewTopicPartition topic p1) ->
    r2 ∈ recordsOf (b_store b') (NewTopicPartition topic p2) ->
    (tc_OrderingPolicy cfg = TopicOrderingKey -> r_Key r1 = r_Key r2 ->
       p1 = p2 /\ p1 = Sum64 (r_Key r1) mod tc_Partitions cfg) /\
    (tc_OrderingPolicy cfg = TopicOrderingRoutingKey -> recordRoutingKey r1 = recordRoutingKey r2 ->
       recordRoutingKey r1 <> "" ->
       p1 = p2 /\ p1 = Sum64String (recordRoutingKey r1) mod tc_Partitions cfg).
Proof.
  intros Ht Hu Hempty Hsteps p1 p2 r1 r2 H1 H2.
  assert (placed_inv topic cfg (b_store b)) as Hb.
  { split; [done|]. intros [t p] r Hin E. simpl in E. subst t. rewrite Hempty in Hin. by apply elem_of_nil in Hin. }
  apply (produce_steps_placed topic cfg b b' Hu Hsteps) in Hb.
  destruct (pl_records _ _ _ Hb _ _ H1 eq_refl) as [K1 R1]. destruct (pl_records _ _ _ Hb _ _ H2 eq_refl) as [K2 R2]. split.
  - intros Eo Ek. rewrite Ek in *. destruct (K1 Eo) as [_ E1], (K2 Eo) as [_ E2]. simpl in *. by rewrite E1, E2.
  - intros Eo Ek Hne. rewrite Ek in *. pose proof (R1 Eo Hne) as E1. pose proof (R2 Eo Hne) as E2. simpl in *. by rewrite E1, E2.
Qed.

(** ** The router *)

(** From any cursor, round robin gives every partition once in each turn. *)
Fixpoint roundRobins (n : nat) (cursors : gmap string Z) (topic : TopicConfig) : list Z :=
  match n with
  | O => []
  | S n => let '(cursors, p) := nextRoundRobin cursors topic in p :: roundRobins n cursors topic
  end.

Lemma roundRobins_nth n cursors topic i :
  0 < tc_Partitions topic < 2 ^ 32 -> 0 <= default 0 (cursors !! tc_Name topic) < tc_Partitions topic -> (i < n)%nat ->
  roundRobins n cursors topic !! i = Some ((default 0 (cursors !! tc_Name topic) + Z.of_nat i) mod tc_Partitions topic).
Proof.
  intros Hp. revert cursors i. induction n as [|n IH]; intros cursors i Hc Hi; [lia|].
  cbn [roundRobins]. unfold nextRoundRobin. cbn beta iota zeta. set (c := default 0 (cursors !! tc_Name topic)) in *.
  destruct i as [|i]; [cbn; by rewrite Z.add_0_r|]. cbn [lookup list_lookup].
  rewrite IH, lookup_insert_eq; cbn [default]; [|rewrite lookup_insert_eq; apply Z.mod_pos_bound; lia|lia].
  unfold u32, default, from_option, id. rewrite (Z.mod_small (c + 1)) by lia. rewrite Zplus_mod_idemp_l. do 2 f_equal. lia.
Qed.

(** ** Priorities *)

#[export] Instance comparePrioritizedRecord_order : CmpOrder comparePrioritizedRecord.
Proof.
  unfold comparePrioritizedRecord. apply cmp_order_lex; [solve_cmp_order|].
  apply (cmp_order_on (fun i => r_Offset (por_record i)) Z.compare). apply _.
Qed.

Lemma prioritize_spec policy rs items :
  prioritize policy rs = Ok items ->
  por_record <$> items = rs /\ Forall (fun i => recordPriority policy (por_record i) = Ok (por_priority i)) items.
Proof.
  revert items. induction rs as [|r rs IH]; cbn [prioritize]; intros items; [by intros [= <-]|].
  intros (p & Hp & (l & Hl & [= <-])%bind_ok)%bind_ok. destruct (IH l Hl) as [E Hall]. rewrite fmap_cons, E. split; [done|].
  by constructor.
Qed.

(** A fetch of a topic with priorities: the same records, higher priorities
    first, each priority in the order of the log. *)
Lemma orderRecordsByPriority_sorted policy rs out :
  orderRecordsByPriorityPolicy policy rs = Ok out ->
  out ≡ₚ rs /\
  StronglySorted (fun r1 r2 => exists p1 p2, recordPriority policy r1 = Ok p1 /\ recordPriority policy r2 = Ok p2 /\
                    (p2 < p1 \/ p1 = p2 /\ r_Offset r1 <= r_Offset r2)) out.
Proof.
  intros (items & Hi & [= <-])%bind_ok. destruct (prioritize_spec policy rs items Hi) as [<- Hall]. split.
  - apply fmap_Permutation. by rewrite sort_func_perm.
  - assert (Forall (fun i => recordPriority policy (por_record i) = Ok (por_priority i)) (sort_func comparePrioritizedRecord items))
      as Hall' by (by rewrite sort_func_perm).
    pose proof (sort_func_sorted comparePrioritizedRecord items) as Hs.
    induction Hs as [|i l Hs IH Hle]; [constructor|]. apply Forall_cons in Hall' as [Hi' Hl]. rewrite fmap_cons.
    constructor; [by apply IH|]. apply Forall_fmap, Forall_forall. intros j Hj. rewrite Forall_forall in Hle, Hl. cbn.
    exists (por_priority i), (por_priority j). split_and!; [done|by apply Hl|]. specialize (Hle j Hj).
    unfold cmp_le, comparePrioritizedRecord in Hle.
    destruct (Z.compare_spec (por_priority j) (por_priority i)) as [E|E|E]; cbn [thenCmp] in Hle; [right|by left|done].
    split; [done|]. by apply Z.compare_le_iff.
Qed.

(** ** Examples *)

Definition ex_hash : Hash64.
Proof. refine {| Sum64 := fun b => u64 (len b); Sum64String := fun s => u64 (slen s) |}; intros; apply is_u64_u64. Defined.

Definition ex_ordered : TopicConfig :=
  mkTopicConfig "orders" 4 0 0 0 "" 0 0 None DefaultTopicRetryPolicy None false None "" false None TopicOrderingKey
    (mkTopicPriorityPolicy true 0 9 5).

Definition ex_cfg : BrokerConfig := mkBrokerConfig 1000000 100 10 10.

Definition ex_broker : Broker :=
  mkBroker (MemoryStore.CreateTopic NewMemoryStore ex_ordered).1 ∅ (newBrokerShardResolver 1) ex_cfg.

Definition ex_record (key payload : string) : RecordAppend :=
  mkRecordAppend None (StringBytes key) [] 0 None None (StringBytes payload).

Definition ex_request (key payload : string) (id : option ProduceIdempotency) : produceBatchCommand :=
  mkProduceBatchCommand "orders" (mkPublishPartitioning PartitionRoundRobin 0 "") [ex_record key payload] id.

Definition ex_produced : Broker :=
  (@applyProduceBatches map_to_list_range ex_hash (fun _ _ => 7) (fun _ => 8) (fun _ => false)
     (@applyProduceBatch map_to_list_range ex_hash (fun _ => 5) 6 ex_broker (ex_request "alice" "a" None)).1
     [ex_request "alice" "b" (Some (mkProduceIdempotency 1 1 0)); ex_request "bo" "c" None]).1.

Lemma empty_logs s tp : map_Forall (fun _ (l : list Rec) => l = []) (records s) -> recordsOf s tp = [].
Proof. intros Hall. unfold recordsOf. destruct (records s !! tp) as [l|] eqn:E; [|done]. by apply (Hall tp l). Qed.

Lemma ordered_topic_colocates_witness :
  BytesString <$> (r_Payload <$> recordsOf (b_store ex_produced) (NewTopicPartition "orders" 1)) = ["a"; "b"] /\
  1 = 1 /\ 1 = @Sum64 ex_hash (StringBytes "alice") mod 4.
Proof.
  split; [vm_compute; reflexivity|].
  set (r := fun i => default (mkRec 0 0 [] [] 0 None None []) (recordsOf (b_store ex_produced) (NewTopicPartition "orders" 1) !! i)).
  assert (forall i, (i < 2)%nat -> r i ∈ recordsOf (b_store ex_produced) (NewTopicPartition "orders" 1)) as Hr.
  { intros i Hi. assert (i = 0 \/ i = 1)%nat as [-> | ->] by lia;
      [apply (list_elem_of_lookup_2 _ 0)|apply (list_elem_of_lookup_2 _ 1)]; vm_compute; reflexivity. }
  apply (ordered_topic_colocates (H := map_to_list_range) (H0 := ex_hash) "orders" (normalizeTopic ex_ordered) ex_broker ex_produced)
    with (r1 := r 0%nat) (r2 := r 1%nat).
  - vm_compute; reflexivity.
  - apply (bool_decide_unpack _). vm_compute. exact I.
  - intros p. apply empty_logs. apply (bool_decide_unpack _). vm_compute. exact I.
  - eapply rtc_l; [apply step_batch|]. eapply rtc_l; [apply step_batches|]. apply rtc_refl.
  - apply Hr. lia.
  - apply Hr. lia.
  - vm_compute; reflexivity.
  - vm_compute; reflexivity.
Defined.

(** A fan-out to a topic ordered by key: every copy is sent to the partition
    of the key, so one partition gets them all and the others none. *)
Example fanout_ordered_one_partition :
  fr_Partition <$> (@publishFanoutScoped map_to_list_range ex_hash (fun _ _ => 7) (fun _ => 8) (fun _ => false) ex_broker
    "orders" (ex_record "alice" "a") 4).2.1 = [1; 1; 1; 1].
Proof. vm_compute. reflexivity. Qed.

(** A retry of an idempotent batch with round robin partitioning goes to the
    next partition, whose window does not know the batch: it is stored twice. *)
Definition ex_unordered : TopicConfig :=
  mkTopicConfig "events" 2 0 0 0 "" 0 0 None DefaultTopicRetryPolicy None false None "" false None TopicOrderingNone
    (mkTopicPriorityPolicy false 0 0 0).

Definition ex_retry : produceBatchCommand :=
  mkProduceBatchCommand "events" (mkPublishPartitioning PartitionRoundRobin 0 "") [ex_record "k" "once"]
    (Some (mkProduceIdempotency 1 1 0)).

Example round_robin_retry_stored_twice :
  let b0 := mkBroker (MemoryStore.CreateTopic NewMemoryStore ex_unordered).1 ∅ (newBrokerShardResolver 1) ex_cfg in
  let b1 := (@applyProduceBatch map_to_list_range ex_hash (fun _ => 5) 6 b0 ex_retry).1 in
  let b2 := (@applyProduceBatch map_to_list_range ex_hash (fun _ => 7) 8 b1 ex_retry).1 in
  (fun p => length (recordsOf (b_store b2) (NewTopicPartition "events" p))) <$> [0; 1] = [1%nat; 1%nat].
Proof. vm_compute. reflexivity. Qed.

(** * Group commit is sequential

    [applyProduceBatches] plans all requests, merges the ones of a partition
    into one append and visits the partitions in any order.  The result is
    the one of applying the requests one by one. *)

(** ** Appends to different partitions commute *)

Section Appends.
Context (t : Z).

(** A record the log accepts: its partition exists, it is not too large, and
    its time to live does not overflow. *)
Definition storable (T : gmap string TopicConfig) (tp : TopicPartition) (ar : RecordAppend) : Prop :=
  exists cfg, T !! tp_Topic tp = Some cfg /\ tp_Partition tp < tc_Partitions cfg /\
    len (ra_Payload ar) <= tc_MaxMessageBytes cfg /\
    is_ok (appendRecordExpiresAt (default t (ra_TimestampMS ar)) cfg ar) = true.

Lemma AppendRecord_storable s tp ar :
  storable (topics s) tp ar -> exists s' r, AppendRecord t s tp ar = (s', Ok r) /\ topics s' = topics s.
Proof.
  intros (cfg & Ht & Hp & Hm & He). unfold AppendRecord. rewrite Ht.
  rewrite (proj2 (Z.leb_gt _ _)), (proj2 (Z.ltb_ge _ _)) by lia. unfold recordFromAppend.
  destruct (appendRecordExpiresAt _ cfg ar); [|done]. by do 2 eexists.
Qed.

#[local] Abbreviation batch := (AppendRecordsBatch (fun _ => t)).

Lemma batch_storable s tp ars :
  Forall (storable (topics s) tp) ars ->
  exists s' out, batch s tp ars = (s', Ok out) /\ length out = length ars /\ topics s' = topics s.
Proof.
  induction ars as [|ar ars IH] in s |- *; intros Hall; [by do 2 eexists|]. apply Forall_cons in Hall as [Ha Hall].
  destruct (AppendRecord_storable s tp ar Ha) as (s1 & r & E1 & Et). cbn [AppendRecordsBatch]. rewrite E1.
  destruct (IH s1) as (s2 & out & E2 & El & Et2); [by rewrite Et|]. rewrite E2.
  exists s2, (r :: out). simpl. split_and!; [done|by rewrite El|congruence].
Qed.

Lemma batch_app s tp a b s1 s2 o1 o2 :
  batch s tp a = (s1, Ok o1) -> batch s1 tp b = (s2, Ok o2) -> batch s tp (a ++ b) = (s2, Ok (o1 ++ o2)).
Proof.
  induction a as [|ar a IH] in s, o1 |- *; cbn [AppendRecordsBatch app]; [by intros [= <- <-]|].
  destruct (AppendRecord t s tp ar) as [s0 [r|]]; [|done].
  destruct (batch s0 tp a) as [s0' [o|]] eqn:E0; [|done]. intros [= <- <-] Hb. by rewrite (IH s0 o E0 Hb).
Qed.

(** Appending reads the topics and the log of its own partition only. *)
Definition attempt (T : gmap string TopicConfig) (tp : TopicPartition) (next : Z) (ar : RecordAppend) : result Code Rec :=
  match T !! tp_Topic tp with
  | None => Err CodeTopicNotFound
  | Some topic =>
      if tc_Partitions topic <=? tp_Partition tp then Err CodePartitionNotFound
      else if tc_MaxMessageBytes topic <? len (ra_Payload ar) then Err CodeInvalidArgument
      else recordFromAppend t next topic ar
  end.

Definition put (tp : TopicPartition) (r : Rec) (s : MemoryStore) : MemoryStore :=
  set_nextOffsets (<[tp := u64 (nextOffsetOf s tp + 1)]> (nextOffsets s))
    (set_records (<[tp := recordsOf s tp ++ [r]]> (records s)) s).

Lemma AppendRecord_attempt s tp ar :
  AppendRecord t s tp ar =
  match attempt (topics s) tp (nextOffsetOf s tp) ar with Ok r => (put tp r s, Ok r) | Err e => (s, Err e) end.
Proof. unfold AppendRecord, attempt. repeat case_match; by simplify_eq. Qed.

Lemma put_other tp tp' r s : tp <> tp' ->
  recordsOf (put tp r s) tp' = recordsOf s tp' /\ nextOffsetOf (put tp r s) tp' = nextOffsetOf s tp'.
Proof. intros Hne. unfold nextOffsetOf, recordsOf. simpl. by rewrite !lookup_insert_ne. Qed.

Lemma put_commute tp1 tp2 r1 r2 s : tp1 <> tp2 -> put tp1 r1 (put tp2 r2 s) = put tp2 r2 (put tp1 r1 s).
Proof.
  intros Hne. destruct (put_other tp1 tp2 r1 s Hne) as [E1 E2]. destruct (put_other tp2 tp1 r2 s ltac:(done)) as [E3 E4].
  unfold put at 1 3. rewrite E1, E2, E3, E4. unfold put, set_nextOffsets, set_records. simpl.
  by rewrite (insert_insert_ne (records s)), (insert_insert_ne (nextOffsets s)) by done.
Qed.

Lemma AppendRecord_batch_commute s tp1 tp2 a b :
  tp1 <> tp2 ->
  (AppendRecord t (batch s tp2 b).1 tp1 a).2 = (AppendRecord t s tp1 a).2 /\
  (batch (AppendRecord t s tp1 a).1 tp2 b) = ((AppendRecord t (batch s tp2 b).1 tp1 a).1, (batch s tp2 b).2).
Proof.
  intros Hne. induction b as [|ar b IH] in s |- *; cbn [AppendRecordsBatch fst snd]; [done|].
  rewrite (AppendRecord_attempt s tp2), (AppendRecord_attempt (AppendRecord t s tp1 a).1 tp2).
  assert (topics (AppendRecord t s tp1 a).1 = topics s /\
          nextOffsetOf (AppendRecord t s tp1 a).1 tp2 = nextOffsetOf s tp2) as [-> ->].
  { rewrite AppendRecord_attempt. destruct (attempt _ tp1 _ a); [|done]. split; [done|]. by apply put_other. }
  destruct (attempt (topics s) tp2 (nextOffsetOf s tp2) ar) as [r|e]; [|done].
  destruct (IH (put tp2 r s)) as [IH1 IH2].
  assert ((AppendRecord t (put tp2 r s) tp1 a).1 = put tp2 r (AppendRecord t s tp1 a).1 /\
    (AppendRecord t (put tp2 r s) tp1 a).2 = (AppendRecord t s tp1 a).2) as [E1 E2].
  { rewrite !AppendRecord_attempt. destruct (put_other tp2 tp1 r s ltac:(done)) as [_ ->]. cbn [topics put set_nextOffsets set_records].
    destruct (attempt _ tp1 _ a) as [r1|]; [|done]. split; [by rewrite put_commute|done]. }
  rewrite E1, E2 in *. cbn [fst snd] in *. rewrite IH2. by destruct (batch (put tp2 r s) tp2 b).
Qed.

Lemma batch_commute s tp1 tp2 a b :
  tp1 <> tp2 ->
  batch (batch s tp1 a).1 tp2 b = ((batch (batch s tp2 b).1 tp1 a).1, (batch s tp2 b).2) /\
  (batch (batch s tp2 b).1 tp1 a).2 = (batch s tp1 a).2.
Proof.
  intros Hne. induction a as [|ar a IH] in s |- *; cbn [AppendRecordsBatch fst snd]; [by destruct (batch s tp2 b)|].
  destruct (AppendRecord_batch_commute s tp1 tp2 ar b Hne) as [H1 H2].
  destruct (AppendRecord t (batch s tp2 b).1 tp1 ar) as [s2 r2]. cbn [fst snd] in *. subst r2.
  destruct (AppendRecord t s tp1 ar) as [s1 [r|e]]; cbn [fst snd] in *; [|done].
  destruct (IH s1) as [IH1 IH2]. rewrite H2 in IH1, IH2. cbn [fst snd] in *.
  destruct (batch s1 tp1 a) as [s3 out]; destruct (batch s2 tp1 a) as [s4 out']. cbn [fst snd] in *. subst out'. done.
Qed.

Lemma batch_topics s tp ars : topics (batch s tp ars).1 = topics s.
Proof.
  induction ars as [|ar ars IH] in s |- *; [done|]. cbn [AppendRecordsBatch]. rewrite AppendRecord_attempt.
  destruct (attempt _ tp _ ar) as [r|]; [|done]. specialize (IH (put tp r s)). by destruct (batch (put tp r s) tp ars).
Qed.

(** ** Running planned appends *)

#[local] Abbreviation plan_records plan := (pbc_Records (plan_request plan)).

Definition plan_item (plan : produceBatchPlan) (out : result Code (list Rec)) : nat * produceBatchItemResult :=
  (plan_index plan,
   mkProduceBatchItemResult
     (mkProduceBatchResult (tp_Partition (plan_tp plan)) (match out with Ok out => out | Err _ => [] end)) None true).

Fixpoint run (s : MemoryStore) (plans : list produceBatchPlan) : MemoryStore * list (nat * produceBatchItemResult) :=
  match plans with
  | [] => (s, [])
  | plan :: plans =>
      let '(s, out) := batch s (plan_tp plan) (plan_records plan) in
      let '(s, items) := run s plans in (s, plan_item plan out :: items)
  end.

Lemma run_app s l1 l2 : run s (l1 ++ l2) = ((run (run s l1).1 l2).1, (run s l1).2 ++ (run (run s l1).1 l2).2).
Proof.
  induction l1 as [|p l1 IH] in s |- *; cbn [run app fst snd]; [by destruct (run s l2)|].
  destruct (batch s _ _) as [s1 out]. rewrite IH. by destruct (run s1 l1).
Qed.

Lemma run_topics s l : topics (run s l).1 = topics s.
Proof.
  induction l as [|p l IH] in s |- *; [done|]. cbn [run].
  pose proof (batch_topics s (plan_tp p) (plan_records p)) as Hb. destruct (batch s _ _) as [s1 out].
  specialize (IH s1). destruct (run s1 l). cbn [fst] in *. congruence.
Qed.

Lemma run_indexes s l : (run s l).2.*1 = plan_index <$> l.
Proof.
  induction l as [|p l IH] in s |- *; [done|]. cbn [run]. destruct (batch s _ _) as [s1 out]. specialize (IH s1).
  destruct (run s1 l). cbn [snd] in *. rewrite !fmap_cons, IH. done.
Qed.

(** The same store, and the same items in some order. *)
Definition run_eq (l l' : list produceBatchPlan) : Prop :=
  forall s, (run s l).1 = (run s l').1 /\ (run s l).2 ≡ₚ (run s l').2.

#[local] Instance run_eq_equiv : Equivalence run_eq.
Proof.
  split.
  - intros l s. done.
  - intros l l' Hl s. destruct (Hl s) as [-> ->]. done.
  - intros l1 l2 l3 H1 H2 s. destruct (H1 s) as [-> ->]. apply H2.
Qed.

#[local] Instance run_eq_app : Proper (run_eq ==> run_eq ==> run_eq) app.
Proof.
  intros l1 l1' H1 l2 l2' H2 s. rewrite !run_app. cbn [fst snd]. destruct (H1 s) as [-> ->].
  by destruct (H2 (run s l1').1) as [-> ->].
Qed.

Lemma run_eq_swap p q : plan_tp p <> plan_tp q -> run_eq [p; q] [q; p].
Proof.
  intros Hne s. cbn [run]. destruct (batch_commute s (plan_tp p) (plan_tp q) (plan_records p) (plan_records q) Hne) as [H1 H2].
  destruct (batch s (plan_tp p) _) as [s1 o1]; destruct (batch s (plan_tp q) _) as [s2 o2]. cbn [fst snd] in *. rewrite H1.
  destruct (batch s2 (plan_tp p) _) as [s3 o3]. cbn [fst snd] in *. subst o3. split; [done|]. apply Permutation_swap.
Qed.

Lemma run_eq_move p l : Forall (fun q => plan_tp p <> plan_tp q) l -> run_eq (p :: l) (l ++ [p]).
Proof.
  induction 1 as [|q l Hne _ IH]; [reflexivity|].
  change (p :: q :: l) with ([p; q] ++ l). change ((q :: l) ++ [p]) with ([q] ++ (l ++ [p])). rewrite <- IH.
  rewrite (run_eq_swap p q Hne). reflexivity.
Qed.

Lemma run_eq_partition tp l :
  run_eq l (filter (fun p => plan_tp p = tp) l ++ filter (fun p => plan_tp p <> tp) l).
Proof.
  induction l as [|p l IH]; [reflexivity|]. etrans; [apply (run_eq_app [p] [p] ltac:(reflexivity) _ _ IH)|].
  rewrite !filter_cons. destruct (decide (plan_tp p = tp)) as [E|E].
  - by rewrite (decide_False (P := plan_tp p <> tp)) by tauto.
  - rewrite decide_True by done. rewrite app_assoc.
    change ([p] ++ filter (fun q => plan_tp q = tp) l) with (p :: filter (fun q => plan_tp q = tp) l).
    rewrite run_eq_move.
    + rewrite <- app_assoc. reflexivity.
    + apply Forall_forall. intros q [Eq _]%list_elem_of_filter. congruence.
Qed.

Lemma run_eq_groups tps l :
  NoDup tps -> (forall p, p ∈ l -> plan_tp p ∈ tps) ->
  run_eq l (tps ≫= fun tp => filter (fun p => plan_tp p = tp) l).
Proof.
  induction tps as [|tp tps IH] in l |- *; intros Hnd Hin.
  - destruct l as [|p l]; [reflexivity|]. specialize (Hin p ltac:(by left)). by apply elem_of_nil in Hin.
  - apply NoDup_cons in Hnd as [Hni Hnd]. rewrite bind_cons. etrans; [apply (run_eq_partition tp l)|].
    apply run_eq_app; [reflexivity|]. rewrite (IH (filter (fun p => plan_tp p <> tp) l) Hnd).
    + erewrite Forall_bind_ext; [reflexivity|]. apply Forall_forall. intros tp' Hin'. rewrite list_filter_filter.
      apply list_filter_iff. intros p. split; [by intros [? _]|]. intros E. split; [done|]. intros E'. congruence.
    + intros p [Hne Hp]%list_elem_of_filter. by apply Hin, elem_of_cons in Hp as [?|?].
Qed.

(** ** One group *)

Definition upd (items : list produceBatchItemResult) (i : nat * produceBatchItemResult) : list produceBatchItemResult :=
  <[i.1 := i.2]> items.

Lemma foldl_upd_perm items l l' : NoDup l.*1 -> l ≡ₚ l' -> foldl upd items l = foldl upd items l'.
Proof.
  intros Hnd Hp. revert items Hnd. induction Hp as [|x l l' _ IH|x y l|l1 l2 l3 H1 IH1 _ IH2]; intros items Hnd; [done| | |].
  - simpl. apply IH. rewrite fmap_cons in Hnd. by apply NoDup_cons in Hnd as [_ ?].
  - simpl. f_equal. unfold upd. rewrite !fmap_cons in Hnd. apply NoDup_cons in Hnd as [Hni _].
    apply list_insert_insert_ne. intros E. apply Hni. rewrite E. by left.
  - rewrite IH1 by done. apply IH2. by rewrite <- H1.
Qed.

Lemma group_run s tp planned g items :
  Forall (fun p => plan_tp p = tp /\ planned !! plan_index p = Some (plan_request p) /\
                   Forall (storable (topics s) tp) (plan_records p)) g ->
  exists out,
    batch s tp (groupRecords planned (plan_index <$> g)) = ((run s g).1, Ok out) /\
    splitLoop planned (tp_Partition tp) (plan_index <$> g) out items = (foldl upd items (run s g).2, Ok tt).
Proof.
  induction g as [|p g IH] in s, items |- *; intros Hg; [by exists []|]. apply Forall_cons in Hg as [(Etp & Ei & Hst) Hg].
  destruct (batch_storable s tp (plan_records p) Hst) as (s1 & o1 & E1 & El & Et).
  destruct (IH s1 (<[plan_index p := (plan_item p (Ok o1)).2]> items)) as (o2 & E2 & Esp); [by rewrite Et|].
  rewrite fmap_cons. cbn [run splitLoop]. rewrite Etp, E1. destruct (run s1 g) as [s2 items2] eqn:Er.
  exists (o1 ++ o2). unfold groupRecords in *. rewrite bind_cons.
  assert (requestAt planned (plan_index p) = plan_request p) as Ereq by (unfold requestAt; by rewrite Ei).
  rewrite Ereq. cbn [fst snd] in *. split; [by eapply batch_app|].
  rewrite length_app, (proj2 (Nat.ltb_ge _ _)) by lia. rewrite <- El, take_app_length, drop_app_length.
  etrans; [|exact Esp]. unfold plan_item. cbn [snd]. by rewrite Etp.
Qed.

End Appends.

(** ** One request after the other *)

Section Sequential.
Context `{MapRange} `{Hash64} (t : Z) (nowMS : nat -> Z).

Fixpoint produceSequentially (b : Broker) (requests : list produceBatchCommand) : Broker * list produceBatchItemResult :=
  match requests with
  | [] => (b, [])
  | req :: requests =>
      let '(b, r) := applyProduceBatchInternal (fun _ => t) t b req in
      let '(b, items) := produceSequentially b requests in
      (b, match r with Ok item => item | Err e => set_Error e zeroItem end :: items)
  end.

Lemma select_req b req b' q req' :
  selectProducePartition b req = (b', Ok (q, req')) -> pbc_Idempotency req' = pbc_Idempotency req /\ pbc_Topic req' = pbc_Topic req.
Proof.
  unfold selectProducePartition. destruct (resolveProduceBatch b req) as [[cfg r]|] eqn:Er; [|done].
  destruct (selectPartition _ cfg _ _) as [c [p|]]; [|done]. intros [= _ _ <-].
  unfold resolveProduceBatch in Er. apply bind_ok in Er as (o & _ & Er). apply bind_ok in Er as (? & _ & Er).
  apply bind_ok in Er as (? & _ & Er). apply bind_ok in Er as (? & _ & Er). apply bind_ok in Er as (? & _ & [= _ <-]). done.
Qed.

(** Planning reads the topics of the store and nothing else of it. *)
Lemma select_set_store b s req :
  topics s = topics (b_store b) ->
  selectProducePartition (set_store s b) req = (set_store s (selectProducePartition b req).1, (selectProducePartition b req).2).
Proof.
  intros Et. unfold selectProducePartition.
  assert (resolveProduceBatch (set_store s b) req = resolveProduceBatch b req) as ->.
  { unfold resolveProduceBatch, topicConfig, loadTopicConfigDirect, LoadTopicConfig, validateBatchPayload. simpl. by rewrite Et. }
  destruct (resolveProduceBatch b req) as [[cfg r]|]; [|done]. cbn [b_cursors set_store].
  by destruct (selectPartition _ cfg _ _).
Qed.

Definition updFrom (k : nat) (items : list produceBatchItemResult) (i : nat * produceBatchItemResult) : list produceBatchItemResult :=
  <[(i.1 - k)%nat := i.2]> items.

Lemma updFrom_cons k x items l :
  Forall (fun i => k < i)%nat l.*1 -> foldl (updFrom k) (x :: items) l = x :: foldl (updFrom (S k)) items l.
Proof.
  induction l as [|i l IH] in items |- *; [done|]. rewrite fmap_cons. intros [Hi Hl]%Forall_cons. cbn [foldl].
  rewrite <- IH by done. f_equal. unfold updFrom. by replace (i.1 - k)%nat with (S (i.1 - S k)) by lia.
Qed.

Lemma plan_indexes index b requests b1 items planned plans :
  planProduceBatches index b requests = (b1, (items, planned, plans)) ->
  Forall (fun p => (index <= plan_index p)%nat /\ planned !! (plan_index p - index)%nat = Some (plan_request p)) plans.
Proof.
  intros Hp. apply (planProduceBatches_spec "" (NewTopicConfig "")) in Hp as (_ & _ & _ & Hi & _); [done|].
  apply (bool_decide_unpack _). exact I.
Qed.

Lemma run_indexes_from index b requests b1 items planned plans s :
  planProduceBatches index b requests = (b1, (items, planned, plans)) -> Forall (fun i => index <= i)%nat (run t s plans).2.*1.
Proof.
  intros Hp. rewrite run_indexes. apply Forall_fmap. eapply Forall_impl; [by eapply plan_indexes|]. by intros p [? _].
Qed.

Lemma sequential_run index b s requests b1 items planned plans :
  Forall (fun req => pbc_Idempotency req = None) requests ->
  planProduceBatches index b requests = (b1, (items, planned, plans)) -> topics s = topics (b_store b) ->
  Forall (fun p => Forall (storable t (topics s) (plan_tp p)) (pbc_Records (plan_request p))) plans ->
  produceSequentially (set_store s b) requests =
    (set_store (run t s plans).1 b1, foldl (updFrom index) items (run t s plans).2).
Proof.
  revert index b s b1 items planned plans. induction requests as [|req requests IH];
    intros index b s b1 items planned plans Hid Hp Et Hst; cbn [planProduceBatches] in Hp; [by simplify_eq|].
  apply Forall_cons in Hid as [Hid1 Hid]. unfold planProduceBatch in Hp. cbn [produceSequentially].
  unfold applyProduceBatchInternal. rewrite (select_set_store b s req Et). pose proof (selectProducePartition_store b req) as Es.
  destruct (selectProducePartition b req) as [b2 r] eqn:Eq. cbn [fst snd] in *.
  destruct (planProduceBatches (S index) b2 requests) as [b3 [[items3 planned3] plans3]] eqn:E3.
  destruct r as [[q req']|e]; cbn [mbind result_bind] in Hp; simplify_eq.
  2:{ rewrite (IH _ _ _ _ _ _ _ Hid E3) by (done || congruence). rewrite updFrom_cons; [done|].
      eapply Forall_impl; [by eapply run_indexes_from|]. cbn. lia. }
  apply Forall_cons in Hst as [Hst1 Hst]. cbn [plan_tp plan_request] in Hst1.
  destruct (select_req _ _ _ _ _ Eq) as [Hid' Ht']. cbn [run plan_tp plan_request b_store set_store].
  unfold appendProduceBatch, PublishBatchRecords. rewrite Hid', Hid1, Ht'.
  destruct (batch_storable t s _ _ Hst1) as (s1 & out & Ebatch & _ & Et1). rewrite Ebatch.
  change (set_store s1 (set_store s b2)) with (set_store s1 b2).
  rewrite (IH (S index) b2 s1 _ _ _ _ Hid E3) by (rewrite ?Et1, ?Et, ?Es; done || by rewrite <- Et).
  pose proof (run_indexes_from _ _ _ _ _ _ _ s1 E3) as Hidx. destruct (run t s1 plans3) as [s2 outs]. cbn [fst snd foldl] in *.
  assert (forall x it, updFrom index (x :: items3) (index, it) = it :: items3) as Hhead
    by (intros; unfold updFrom; cbn [fst snd]; by rewrite Nat.sub_diag).
  unfold plan_item. cbn [plan_index]. rewrite Hhead.
  rewrite updFrom_cons; [done|]. eapply Forall_impl; [exact Hidx|]. cbn. lia.
Qed.

(** ** The groups of a commit *)

Lemma groups_run gs b s planned plans items :
  NoDup (pbg_tp <$> gs) ->
  Forall (fun g => pbg_indexes g = plan_index <$> filter (fun p => plan_tp p = pbg_tp g) plans) gs ->
  Forall (fun p => planned !! plan_index p = Some (plan_request p) /\ pbc_Idempotency (plan_request p) = None /\
                   Forall (storable t (topics s) (plan_tp p)) (pbc_Records (plan_request p))) plans ->
  foldl (fun acc group => let '(b, items) := (acc : Broker * list produceBatchItemResult) in
           applyProduceBatchGroup (fun _ _ => t) nowMS (fun _ => false) b planned group items) (set_store s b, items) gs
  = let l := gs ≫= fun g => filter (fun p => plan_tp p = pbg_tp g) plans in
    (set_store (run t s l).1 b, foldl upd items (run t s l).2).
Proof.
  revert s items. induction gs as [|g gs IH]; intros s items Hnd Hidx Hpl; [done|].
  rewrite fmap_cons in Hnd. apply NoDup_cons in Hnd as [_ Hnd]. apply Forall_cons in Hidx as [Hg Hidx].
  cbn [foldl]. unfold applyProduceBatchGroup at 2. set (mine := filter (fun p => plan_tp p = pbg_tp g) plans) in *.
  assert (groupHasIdempotentProduce planned (pbg_indexes g) = false) as ->.
  { apply not_true_iff_false. intros (i & Hin & Hi)%existsb_exists. rewrite Hg in Hin.
    apply list_elem_of_In, list_elem_of_fmap in Hin as (p & -> & [_ Hp]%list_elem_of_filter).
    rewrite Forall_forall in Hpl. destruct (Hpl p Hp) as (E1 & E2 & _). unfold requestAt in Hi. rewrite E1 in Hi. simpl in Hi.
    rewrite E2 in Hi. by apply bool_decide_eq_true, is_Some_None in Hi. }
  destruct (group_run t s (pbg_tp g) planned mine items) as (out & Eb & Esplit).
  { apply Forall_forall. intros p [Ep Hp]%list_elem_of_filter. rewrite Forall_forall in Hpl.
    destruct (Hpl p Hp) as (E1 & _ & Hs). by rewrite Ep in Hs. }
  unfold PublishBatchRecords, splitProduceBatchGroupRecords. rewrite Hg.
  replace (NewTopicPartition (tp_Topic (pbg_tp g)) (tp_Partition (pbg_tp g))) with (pbg_tp g) by (by destruct (pbg_tp g)).
  cbn [b_store set_store]. rewrite Eb, Esplit.
  change (set_store ?x (set_store s b)) with (set_store x b).
  rewrite IH by (done || by rewrite run_topics). cbn zeta. rewrite bind_cons, run_app. cbn [fst snd]. by rewrite foldl_app.
Qed.

Lemma groups_values plans :
  let gs := values (groupProduceBatchPlans plans) in
  NoDup (pbg_tp <$> gs) /\ Forall (fun g => pbg_indexes g = plan_index <$> filter (fun p => plan_tp p = pbg_tp g) plans) gs /\
  (forall p, p ∈ plans -> plan_tp p ∈ pbg_tp <$> gs).
Proof.
  cbn zeta. split_and!.
  - pose proof (NoDup_values_by (groupProduceBatchPlans plans) pbg_tp (fun _ => True)) as Hnd.
    rewrite filter_all in Hnd by (by apply Forall_true). apply Hnd. intros k1 g1 k2 g2 H1 H2 _ _ E.
    apply group_spec in H1 as [<- _]. by apply group_spec in H2 as [<- _].
  - apply Forall_forall. intros g (tp & Hg)%elem_of_values. by apply group_spec in Hg as [-> ->].
  - intros p Hp. pose proof (groupProduceBatchPlans_lookup plans (plan_tp p)) as Hl.
    assert (p ∈ filter (fun q => plan_tp q = plan_tp p) plans) as Hin by (by apply list_elem_of_filter).
    destruct (filter _ plans) as [|q l]; [by apply elem_of_nil in Hin|].
    apply list_elem_of_fmap. eexists. split; [|apply elem_of_values; by exists (plan_tp p)]. done.
Qed.

Lemma plan_idempotency index b requests b1 items planned plans :
  Forall (fun req => pbc_Idempotency req = None) requests ->
  planProduceBatches index b requests = (b1, (items, planned, plans)) ->
  Forall (fun p => pbc_Idempotency (plan_request p) = None) plans /\ NoDup (plan_index <$> plans).
Proof.
  revert index b b1 items planned plans. induction requests as [|req requests IH]; intros index b b1 items planned plans Hid Hp;
    cbn [planProduceBatches] in Hp; [simplify_eq; by split; [|constructor]|]. apply Forall_cons in Hid as [Hid1 Hid].
  unfold planProduceBatch in Hp. destruct (selectProducePartition b req) as [b2 r] eqn:Eq.
  destruct (planProduceBatches (S index) b2 requests) as [b3 [[items3 planned3] plans3]] eqn:E3.
  destruct (IH _ _ _ _ _ _ Hid E3) as [IH1 IH2]. apply plan_indexes in E3.
  destruct r as [[q req']|e]; cbn [mbind result_bind] in Hp; simplify_eq; [|done]. split.
  - constructor; [|done]. apply select_req in Eq as [E _]. cbn. congruence.
  - rewrite fmap_cons. constructor; [|done]. intros (p & Ei & Hin)%list_elem_of_fmap. rewrite Forall_forall in E3.
    destruct (E3 p Hin) as [Hle _]. simpl in Ei. lia.
Qed.

Lemma updFrom_0 items l : foldl (updFrom 0) items l = foldl upd items l.
Proof.
  induction l as [|[i it] l IH] in items |- *; [done|]. cbn [foldl]. rewrite IH. unfold updFrom, upd. cbn [fst].
  by rewrite Nat.sub_0_r.
Qed.

(** C27: group commit is sequential.  For requests without producer ids, all
    stamped with one time, on a call that is not cancelled, and when the log
    accepts every record of the requests that pass their checks (it is not too
    large and its time to live does not overflow), [applyProduceBatches] leaves
    the broker (store and router) in the state, and returns for every request
    the item, that applying the requests one by one in order gives, in whatever
    order the partitions are visited; requests that fail their checks fail the
    same way in both. *)
Theorem group_commit_sequential b requests b1 items planned plans :
  Forall (fun req => pbc_Idempotency req = None) requests ->
  planProduceBatches 0 b requests = (b1, (items, planned, plans)) ->
  Forall (fun p => Forall (storable t (topics (b_store b)) (plan_tp p)) (pbc_Records (plan_request p))) plans ->
  applyProduceBatches (fun _ _ => t) nowMS (fun _ => false) b requests = produceSequentially b requests.
Proof.
  intros Hid Hp Hst. pose proof (plan_idempotency _ _ _ _ _ _ _ Hid Hp) as [Hidp Hndi]. pose proof (plan_indexes _ _ _ _ _ _ _ Hp) as Hidx.
  assert (forall b', set_store (b_store b') b' = b') as Hset by (by intros []).
  pose proof (sequential_run 0 b (b_store b) requests b1 items planned plans Hid Hp eq_refl Hst) as Hseq.
  rewrite Hset in Hseq. rewrite Hseq. unfold applyProduceBatches. rewrite Hp.
  apply (planProduceBatches_spec "" (NewTopicConfig "")) in Hp as (Es & _); [|apply (bool_decide_unpack _); exact I].
  destruct (groups_values plans) as (Hnd & Hg & Hcover).
  rewrite <- (Hset b1) at 1. rewrite Es, (groups_run _ b1 (b_store b) planned plans items Hnd Hg).
  2:{ apply Forall_forall. intros p Hin. rewrite Forall_forall in Hidp, Hidx, Hst. destruct (Hidx p Hin) as [_ E].
      rewrite Nat.sub_0_r in E. auto. }
  cbn zeta. pose proof (run_eq_groups t _ plans Hnd Hcover (b_store b)) as [E1 E2]. rewrite list_fmap_bind in E1, E2.
  unfold compose in E1, E2. rewrite E1. f_equal. symmetry.
  rewrite updFrom_0. apply foldl_upd_perm; [by rewrite run_indexes|exact E2].
Qed.

End Sequential.

Definition ex_plain (mode : string) (p : Z) (key payload : string) : produceBatchCommand :=
  mkProduceBatchCommand "orders" (mkPublishPartitioning mode p "") [ex_record key payload] None.

Definition ex_requests : list produceBatchCommand :=
  [ex_plain PartitionExplicit 0 "alice" "a"; ex_plain PartitionExplicit 9 "" "no key"; ex_plain PartitionRoundRobin 0 "bo" "b";
   ex_plain PartitionRoundRobin 0 "alice" "c"].

#[local] Instance storable_dec t T tp ar : Decision (storable t T tp ar).
Proof.
  unfold storable. destruct (T !! tp_Topic tp) as [cfg|]; [|right; by intros (? & ? & _)].
  destruct (decide (tp_Partition tp < tc_Partitions cfg /\ len (ra_Payload ar) <= tc_MaxMessageBytes cfg /\
    is_ok (appendRecordExpiresAt (default t (ra_TimestampMS ar)) cfg ar) = true)) as [Hd|Hd].
  - left. by exists cfg.
  - right. intros (c & [= <-] & Hd'). by apply Hd.
Defined.

Lemma plan_eta {A B C D} (x : A * (B * C * D)) : x = (x.1, (x.2.1.1, x.2.1.2, x.2.2)).
Proof. by destruct x as [? [[??] ?]]. Qed.

Lemma group_commit_sequential_witness :
  @applyProduceBatches map_to_list_range ex_hash (fun _ _ => 5) (fun _ => 5) (fun _ => false) ex_broker ex_requests
  = @produceSequentially map_to_list_range ex_hash 5 ex_broker ex_requests.
Proof.
  eapply (@group_commit_sequential map_to_list_range ex_hash 5 (fun _ => 5) ex_broker ex_requests).
  - apply (bool_decide_unpack _). vm_compute. exact I.
  - apply plan_eta.
  - apply (bool_decide_unpack _). vm_compute. exact I.
Defined.
