(* ===== verification/GoStrings.v ===== *)
(** * Go's [strings] and [encoding/hex]

    What the broker uses of [strings.TrimSpace], [CutPrefix], [TrimPrefix],
    [HasPrefix], [Contains], [Split], [Join], and [hex.EncodeToString], on
    strings of bytes. *)

From stdpp Require Import prelude strings list.
From Stdlib Require Import Ascii.
From S2P Require Import Prelude.

#[local] Open Scope list_scope.

(** ** Lists of characters *)

Abbreviation chars := String.list_ascii_of_string.
Abbreviation text := String.string_of_list_ascii.

Fixpoint cut {A} `{EqDecision A} (p l : list A) : option (list A) :=
  match p, l with
  | [], _ => Some l
  | _ :: _, [] => None
  | x :: p, y :: l => if decide (x = y) then cut p l else None
  end.

(** ** White space

    The characters [unicode.IsSpace] accepts, in UTF-8. *)

Definition ch (n : nat) : ascii := ascii_of_nat n.

Definition asciiSpaces : list (list ascii) := map (fun n => [ch n]) [9; 10; 11; 12; 13; 32]%nat.
Definition wideSpaces : list (list ascii) :=
  map (map ch)
  ([[194; 133]; [194; 160]; [225; 154; 128]; [226; 128; 168]; [226; 128; 169]; [226; 128; 175]; [226; 129; 159]; [227; 128; 128]] ++
   map (fun n => [226; 128; n]) (seq 128 11))%nat.
Definition spaces : list (list ascii) := asciiSpaces ++ wideSpaces.

(** Removes one of the sequences [ws] from the front. *)
Fixpoint strip (ws : list (list ascii)) (l : list ascii) : option (list ascii) :=
  match ws with
  | [] => None
  | w :: ws => match cut w l with Some rest => Some rest | None => strip ws l end
  end.

Fixpoint trimLoop (fuel : nat) (ws : list (list ascii)) (l : list ascii) : list ascii :=
  match fuel with
  | O => l
  | S fuel => match strip ws l with Some rest => trimLoop fuel ws rest | None => l end
  end.

Definition trimFront (ws : list (list ascii)) (l : list ascii) : list ascii := trimLoop (length l) ws l.
Definition trimBack (l : list ascii) : list ascii := rev (trimFront (@rev ascii <$> spaces) (rev l)).

(** [strings.TrimSpace] *)
Definition TrimSpace (s : string) : string := text (trimBack (trimFront spaces (chars s))).

(** ** Prefixes and parts *)

(** [strings.CutPrefix]: the rest, when the prefix is there. *)
Definition CutPrefix (s prefix : string) : option string := text <$> cut (chars prefix) (chars s).
Definition HasPrefix (s prefix : string) : bool := bool_decide (is_Some (CutPrefix s prefix)).
Definition TrimPrefix (s prefix : string) : string := default s (CutPrefix s prefix).

(** [strings.Contains] *)
Fixpoint Contains (s sub : string) : bool :=
  HasPrefix s sub || match s with EmptyString => false | String _ s => Contains s sub end.

(** [strings.Contains] of a one-character string. *)
Definition ContainsChar (s : string) (c : ascii) : bool := bool_decide (c ∈ chars s).

(** [strings.Split] at a one-character separator. *)
Fixpoint splitChars (sep : ascii) (l : list ascii) : list (list ascii) :=
  match l with
  | [] => [[]]
  | c :: l =>
      if decide (c = sep) then [] :: splitChars sep l
      else match splitChars sep l with
           | [] => [[c]]
           | t :: ts => (c :: t) :: ts
           end
  end.

Definition SplitChar (s : string) (sep : ascii) : list string := text <$> splitChars sep (chars s).

(** [strings.Join] with a one-character separator. *)
Fixpoint joinChars (sep : ascii) (ts : list (list ascii)) : list ascii :=
  match ts with
  | [] => []
  | [t] => t
  | t :: ts => t ++ sep :: joinChars sep ts
  end.

Definition JoinChar (ts : list string) (sep : ascii) : string := text (joinChars sep (String.list_ascii_of_string <$> ts)).

(** [hex.EncodeToString] *)
Definition hexDigit (n : nat) : ascii := if (n <? 10)%nat then ch (48 + n) else ch (87 + n).
Definition hexChar (c : ascii) : list ascii := [hexDigit (nat_of_ascii c / 16); hexDigit (nat_of_ascii c mod 16)].
Definition hexComponent (value : string) : string := text (chars value ≫= hexChar).

(** ** Lemmas *)

Lemma chars_app s1 s2 : chars (s1 +:+ s2) = chars s1 ++ chars s2.
Proof. induction s1 as [|c s1 IH]; [done|]. simpl. f_equal. exact IH. Qed.

Lemma text_app l1 l2 : text (l1 ++ l2) = text l1 +:+ text l2.
Proof. induction l1 as [|c l1 IH]; [done|]. simpl. rewrite IH. reflexivity. Qed.

Lemma chars_text l : chars (text l) = l.
Proof. apply String.list_ascii_of_string_of_list_ascii. Qed.

Lemma text_chars s : text (chars s) = s.
Proof. apply String.string_of_list_ascii_of_string. Qed.

Lemma chars_inj s1 s2 : chars s1 = chars s2 -> s1 = s2.
Proof. intros E. by rewrite <- (text_chars s1), E, text_chars. Qed.

Section Cut.
Context {A} `{EqDecision A}.

Lemma cut_spec (p l r : list A) : cut p l = Some r <-> l = p ++ r.
Proof.
  revert l. induction p as [|x p IH]; intros l; cbn [cut app]; [split; [by intros [= ->]|by intros ->]|].
  destruct l as [|y l]; [done|]. destruct (decide (x = y)) as [->|Hne]; [rewrite IH; split; [by intros ->|by intros [= ->]]|].
  split; [done|]. intros [= E _]. congruence.
Qed.

Lemma cut_length (p l r : list A) : cut p l = Some r -> length l = length p + length r.
Proof. intros ->%cut_spec. by rewrite length_app. Qed.

(** A prefix of [a ++ c :: b] is a prefix of [a] or contains [c]. *)
Lemma cut_app_sep (p a b r : list A) c : cut p (a ++ c :: b) = Some r -> c ∉ p -> is_Some (cut p a).
Proof.
  revert a. induction p as [|x p IH]; intros a; cbn [cut]; [by eauto|].
  destruct a as [|y a]; cbn [app]; (destruct (decide _) as [->|]; [|done]); intros Hc Hni.
  - exfalso. apply Hni. by left.
  - apply IH in Hc; [done|]. set_solver.
Qed.

Lemma cut_mono (p a b r : list A) : cut p a = Some r -> cut p (a ++ b) = Some (r ++ b).
Proof. intros ->%cut_spec. apply cut_spec. by rewrite app_assoc. Qed.

End Cut.

Lemma strip_Some ws l r : strip ws l = Some r -> exists w, w ∈ ws /\ cut w l = Some r.
Proof.
  induction ws as [|w ws IH]; cbn [strip]; [done|]. destruct (cut w l) eqn:E.
  - intros [= <-]. exists w. split; [by left|done].
  - intros (w' & Hin & Hc)%IH. exists w'. split; [by right|done].
Qed.

Lemma strip_None ws l : strip ws l = None <-> forall w, w ∈ ws -> cut w l = None.
Proof.
  induction ws as [|w ws IH]; cbn [strip]; [split; [by intros _ ? ?%elem_of_nil|done]|].
  setoid_rewrite elem_of_cons. destruct (cut w l) eqn:E; [split; [done|]; intros Hall; by rewrite Hall in E by (by left)|].
  rewrite IH. split; [intros Hall w' [->|?]; auto|auto].
Qed.

Lemma strip_prefix ws a b : strip ws (a ++ b) = None -> strip ws a = None.
Proof.
  rewrite !strip_None. intros Hall w Hin. destruct (cut w a) eqn:E; [|done]. apply (cut_mono _ _ b) in E. by rewrite Hall in E.
Qed.

Lemma trimLoop_done fuel ws l : Forall (fun w => w <> []) ws -> length l <= fuel -> strip ws (trimLoop fuel ws l) = None.
Proof.
  intros Hws. induction fuel as [|fuel IH] in l |- *; intros Hl; cbn [trimLoop].
  - destruct l; [|simpl in Hl; lia]. apply strip_None. intros [|x w] Hin; [|done]. by apply (proj1 (Forall_forall _ _) Hws) in Hin.
  - destruct (strip ws l) as [r|] eqn:E; [|done]. apply IH. apply strip_Some in E as (w & Hin & Hc).
    apply cut_length in Hc. assert (length w <> 0)%nat; [|lia]. intros E. apply (proj1 (Forall_forall _ _) Hws) in Hin.
    by destruct w.
Qed.

Lemma trimLoop_fixed fuel ws l : strip ws l = None -> trimLoop fuel ws l = l.
Proof. intros E. destruct fuel; cbn; [done|]. by rewrite E. Qed.

Lemma spaces_nonempty : Forall (fun w => w <> []) spaces /\ Forall (fun w => w <> []) (@rev ascii <$> spaces).
Proof. split; apply (bool_decide_unpack _); vm_compute; exact I. Qed.

(** [trimBack] keeps a prefix. *)
Lemma trimFront_suffix ws l : exists r, l = r ++ trimFront ws l.
Proof.
  unfold trimFront. generalize (length l). intros fuel. induction fuel as [|fuel IH] in l |- *; cbn [trimLoop]; [by exists []|].
  destruct (strip ws l) as [r|] eqn:E; [|by exists []]. apply strip_Some in E as (w & _ & ->%cut_spec).
  destruct (IH r) as [r' Er]. exists (w ++ r'). by rewrite <- app_assoc, <- Er.
Qed.

Lemma trimBack_prefix l : exists r, l = trimBack l ++ r.
Proof.
  unfold trimBack. destruct (trimFront_suffix (@rev ascii <$> spaces) (rev l)) as [r Er]. exists (rev r).
  by rewrite <- rev_app_distr, <- Er, rev_involutive.
Qed.

(** Nothing to trim: no white space at either end. *)
Definition trimmed (s : string) : Prop :=
  strip spaces (chars s) = None /\ strip (@rev ascii <$> spaces) (rev (chars s)) = None.

#[export] Instance trimmed_dec s : Decision (trimmed s).
Proof. unfold trimmed. apply _. Defined.

Lemma TrimSpace_trimmed s : trimmed (TrimSpace s).
Proof.
  unfold trimmed, TrimSpace. rewrite chars_text. destruct spaces_nonempty as [H1 H2]. split.
  - destruct (trimBack_prefix (trimFront spaces (chars s))) as [r Er]. apply (strip_prefix _ _ r). rewrite <- Er.
    by apply trimLoop_done.
  - unfold trimBack. rewrite rev_involutive. by apply trimLoop_done.
Qed.

Lemma TrimSpace_id s : trimmed s -> TrimSpace s = s.
Proof.
  intros [H1 H2]. unfold TrimSpace, trimBack, trimFront. rewrite (trimLoop_fixed _ _ _ H1), (trimLoop_fixed _ _ _ H2).
  by rewrite rev_involutive, text_chars.
Qed.

Lemma TrimSpace_idemp s : TrimSpace (TrimSpace s) = TrimSpace s.
Proof. apply TrimSpace_id, TrimSpace_trimmed. Qed.

(** A trimmed string behind a prefix that ends in a character no white space
    sequence contains. *)
Lemma trimmed_app p c s :
  c ∉ mjoin spaces -> strip spaces (chars p ++ [c]) = None -> trimmed s -> trimmed (p +:+ String c s).
Proof.
  intros Hc Hp [H1 H2]. assert (forall w, w ∈ spaces -> c ∉ w) as Hni.
  { intros w Hw Hcw. apply Hc, list_elem_of_join. by exists w. }
  unfold trimmed. rewrite chars_app. cbn [String.list_ascii_of_string]. rewrite rev_app_distr. cbn [rev].
  rewrite !strip_None in *. split.
  - intros w Hw. destruct (cut w _) as [r|] eqn:E; [|done].
    apply cut_app_sep in E as [r' Er]; [|by apply Hni]. apply (cut_mono _ _ [c]) in Er. by rewrite Hp in Er.
  - intros w' Hw'. destruct (cut w' _) as [r|] eqn:E; [|done]. rewrite <- app_assoc in E.
    apply cut_app_sep in E as [r' Er]; [by rewrite H2 in Er|].
    apply list_elem_of_fmap in Hw' as (w & -> & Hw). intros Hin. apply (Hni w Hw).
    rewrite list_elem_of_In in Hin |- *. by apply in_rev.
Qed.

(** ** Prefixes *)

Lemma CutPrefix_app p s : CutPrefix (p +:+ s) p = Some s.
Proof.
  unfold CutPrefix. rewrite chars_app. rewrite (proj2 (cut_spec _ _ (chars s)) eq_refl). cbn. by rewrite text_chars.
Qed.

Lemma CutPrefix_Some s p r : CutPrefix s p = Some r <-> s = p +:+ r.
Proof.
  split; [|intros ->; apply CutPrefix_app]. unfold CutPrefix. intros (l & Hc & E)%fmap_Some. apply cut_spec in Hc.
  rewrite <- (text_chars s), Hc, text_app, text_chars. by rewrite E.
Qed.

(** ** Split and join *)

Lemma splitChars_ne sep l : splitChars sep l <> [].
Proof. destruct l as [|c l]; cbn [splitChars]; [done|]. destruct (decide _); [done|]. by destruct (splitChars sep l). Qed.

Lemma join_split sep l : joinChars sep (splitChars sep l) = l.
Proof.
  induction l as [|c l IH]; cbn [splitChars]; [done|]. pose proof (splitChars_ne sep l).
  destruct (decide (c = sep)) as [->|]; destruct (splitChars sep l) as [|t [|t2 ts]]; cbn [joinChars app] in *; congruence.
Qed.

Lemma split_sepless sep l : Forall (fun t => sep ∉ t) (splitChars sep l).
Proof.
  induction l as [|c l IH]; cbn [splitChars]; [constructor; [apply not_elem_of_nil|constructor]|]. destruct (decide (c = sep)) as [->|Hne].
  - constructor; [|done]. by intros ?%elem_of_nil.
  - destruct (splitChars sep l) as [|t ts]; [constructor; [set_solver|constructor]|].
    apply Forall_cons in IH as [Ht Hts]. constructor; [set_solver|done].
Qed.

Lemma split_app sep t l : sep ∉ t -> splitChars sep (t ++ sep :: l) = t :: splitChars sep l.
Proof.
  induction t as [|c t IH]; cbn [app splitChars]; [by rewrite decide_True|]. intros Hni.
  rewrite decide_False by set_solver. by rewrite IH by set_solver.
Qed.

Lemma split_single sep t : sep ∉ t -> splitChars sep t = [t].
Proof.
  induction t as [|c t IH]; cbn [splitChars]; [done|]. intros Hni. rewrite decide_False by set_solver. by rewrite IH by set_solver.
Qed.

Lemma split_join sep ts : ts <> [] -> Forall (fun t => sep ∉ t) ts -> splitChars sep (joinChars sep ts) = ts.
Proof.
  induction ts as [|t ts IH]; [done|]. intros _ [Ht Hts]%Forall_cons. destruct ts as [|t2 ts]; [by apply split_single|].
  change (joinChars sep (t :: t2 :: ts)) with (t ++ sep :: joinChars sep (t2 :: ts)). rewrite split_app by done. by rewrite IH.
Qed.

Lemma hexDigit_inj n m : n < 16 -> m < 16 -> hexDigit n = hexDigit m -> n = m.
Proof.
  intros Hn Hm. do 16 (destruct n as [|n]; [do 16 (destruct m as [|m]; [vm_compute; congruence|]); lia|]). lia.
Qed.

Lemma list2_inj {A} (a b c d : A) : [a; b] = [c; d] -> a = c /\ b = d.
Proof. by intros [= -> ->]. Qed.

Lemma hexChar_inj c d : hexChar c = hexChar d -> c = d.
Proof.
  unfold hexChar. pose proof (nat_ascii_bounded c). pose proof (nat_ascii_bounded d).
  intros [E1 E2]%list2_inj. apply hexDigit_inj in E1; [|apply Nat.Div0.div_lt_upper_bound; lia..].
  apply hexDigit_inj in E2; [|apply Nat.mod_upper_bound; lia..].
  rewrite <- (ascii_nat_embedding c), <- (ascii_nat_embedding d). f_equal.
  rewrite (Nat.div_mod_eq (nat_of_ascii c) 16), (Nat.div_mod_eq (nat_of_ascii d) 16). lia.
Qed.

Lemma hex_inj l1 l2 : l1 ≫= hexChar = l2 ≫= hexChar -> l1 = l2.
Proof.
  revert l2. induction l1 as [|c l1 IH]; intros [|d l2]; [done|done|done|]. rewrite !bind_cons.
  intros [E1 E2]%app_inj_1; [|done]. f_equal; [by apply hexChar_inj|by apply IH].
Qed.

Lemma hex_no_slash l : "/"%char ∉ l ≫= hexChar.
Proof.
  intros (c & Hin & _)%list_elem_of_bind. revert Hin. unfold hexChar.
  assert (forall n, n < 16 -> hexDigit n <> "/"%char) as Hd.
  { intros n Hn. do 16 (destruct n as [|n]; [vm_compute; congruence|]). lia. }
  pose proof (nat_ascii_bounded c). intros [E|[E|[]%elem_of_nil]%elem_of_cons]%elem_of_cons; symmetry in E; revert E; apply Hd.
  - apply Nat.Div0.div_lt_upper_bound. lia.
  - apply Nat.mod_upper_bound. lia.
Qed.
