(* ===== verification/Governance.v ===== *)
(** * Governance: identities, scopes, access control, quotas

    [src/broker/governance.go], [governance_scope.go], [governance_defaults.go],
    [governance_auth.go], [governance_acl*.go], [governance_quota.go],
    [governance_quota_usage.go], and the policies of the store
    ([src/store/memory_acl.go], [acl.go]).

    A request carries an identity; its names are scoped by tenant and
    namespace, its actions are checked against the stored policies, its
    volume against the configured quotas.  The engine of [authx] calls the
    provider and the authorizer it was given, which are the functions here;
    the token bucket of [golang.org/x/time/rate] is an argument.  A [map] of
    attributes holds strings only. *)

From stdpp Require Import prelude gmap strings sorting list.
From S2P Require Import Prelude Model MemoryStore Queue Idempotency GoStrings.

#[local] Open Scope Z_scope.
#[local] Open Scope ech0_scope.

(** ** Identities *)

Definition DefaultTenant : string := "default".
Definition DefaultNamespace : string := "default".
Definition DefaultPrincipal : string := "anonymous".
Definition scopedKeyPrefix : string := "__tenant/".

Record Identity := mkIdentity {
  id_Principal : string;
  id_Tenant : string;
  id_Namespace : string;
  id_ClientID : string;
  id_Instance : string
}.

Definition nonEmpty (value fallback : string) : string := if decide (value = "") then fallback else value.

Definition normalizeIdentity (identity : Identity) : Identity :=
  {| id_Principal := nonEmpty (TrimSpace (id_Principal identity)) DefaultPrincipal;
     id_Tenant := nonEmpty (TrimSpace (id_Tenant identity)) DefaultTenant;
     id_Namespace := nonEmpty (TrimSpace (id_Namespace identity)) DefaultNamespace;
     id_ClientID := TrimSpace (id_ClientID identity);
     id_Instance := TrimSpace (id_Instance identity) |}.

(** ** Names in a scope *)

Definition internalRetryTopicPrefix : string := "__retry".
Definition internalDelayTopicPrefix : string := "__delay".
Definition internalDLQTopicPrefix : string := "__dlq".
Definition InternalInboxTopicPrefix : string := "__direct.inbox".

Definition hasInternalPrefix (topic prefix : string) : bool :=
  bool_decide (topic = prefix) || HasPrefix topic (prefix +:+ ".") || HasPrefix topic (prefix +:+ "/").

Definition isRetryTopicName (topic : string) : bool := hasInternalPrefix topic internalRetryTopicPrefix.
Definition isDelayTopicName (topic : string) : bool := hasInternalPrefix topic internalDelayTopicPrefix.
Definition isDLQTopicName (topic : string) : bool := hasInternalPrefix topic internalDLQTopicPrefix.

Definition IsInternalTopicName (topic : string) : bool :=
  bool_decide (topic = InternalInboxTopicPrefix) || HasPrefix topic (InternalInboxTopicPrefix +:+ ".") ||
  HasPrefix topic (InternalInboxTopicPrefix +:+ "/").

Definition isInternalTopicName (topic : string) : bool :=
  IsInternalTopicName topic || isRetryTopicName topic || isDelayTopicName topic || isDLQTopicName topic.

Definition retryTopicName (sourceTopic : string) : string := internalRetryTopicPrefix +:+ "." +:+ sourceTopic.
Definition delayTopicName (targetTopic : string) : string := internalDelayTopicPrefix +:+ "." +:+ targetTopic.
Definition dlqTopicName (sourceTopic : string) : string := internalDLQTopicPrefix +:+ "." +:+ sourceTopic.

Definition defaultScope (identity : Identity) : bool :=
  bool_decide (id_Tenant identity = DefaultTenant) && bool_decide (id_Namespace identity = DefaultNamespace).

(** The prefix of the names of a kind in the scope of an identity. *)
Definition scopePrefix (identity : Identity) (kind : string) : string :=
  scopedKeyPrefix +:+ hexComponent (id_Tenant identity) +:+ "/" +:+ hexComponent (id_Namespace identity) +:+ "/" +:+
  kind +:+ "/".

Definition scopedName (identity : Identity) (kind name : string) : string :=
  let identity := normalizeIdentity identity in
  let name := TrimSpace name in
  if defaultScope identity then name else scopePrefix identity kind +:+ name.

Definition visibleName (identity : Identity) (kind name : string) : string :=
  let identity := normalizeIdentity identity in
  let name := TrimSpace name in
  if defaultScope identity then name else TrimPrefix name (scopePrefix identity kind).

Definition nameInScope (identity : Identity) (kind name : string) : bool :=
  let identity := normalizeIdentity identity in
  let name := TrimSpace name in
  if defaultScope identity then negb (HasPrefix name scopedKeyPrefix)
  else HasPrefix name (scopePrefix identity kind).

Fixpoint splitAux (prefixes : list string) (name : string) : option (string * string) :=
  match prefixes with
  | [] => None
  | prefix :: prefixes =>
      match CutPrefix name (prefix +:+ ".") with
      | Some source => Some (prefix, source)
      | None => splitAux prefixes name
      end
  end.

Definition splitAuxTopicName (name : string) : option (string * string) :=
  splitAux [internalRetryTopicPrefix; internalDelayTopicPrefix; internalDLQTopicPrefix] name.

Definition scopedTopicName (identity : Identity) (name : string) : string :=
  let identity := normalizeIdentity identity in
  let name := TrimSpace name in
  if defaultScope identity then name
  else match splitAuxTopicName name with
       | Some (prefix, source) => prefix +:+ "." +:+ scopedName identity "topic" source
       | None => scopedName identity "topic" name
       end.

Definition visibleTopicName (identity : Identity) (name : string) : string :=
  let identity := normalizeIdentity identity in
  let name := TrimSpace name in
  if defaultScope identity then name
  else match splitAuxTopicName name with
       | Some (prefix, source) => prefix +:+ "." +:+ visibleName identity "topic" source
       | None => visibleName identity "topic" name
       end.

Definition set_Name_DeadLetter (name : string) (dlq : option string) (topic : TopicConfig) : TopicConfig :=
  {| tc_Name := name; tc_Partitions := tc_Partitions topic; tc_SegmentMaxBytes := tc_SegmentMaxBytes topic;
     tc_IndexIntervalBytes := tc_IndexIntervalBytes topic; tc_RetentionMaxBytes := tc_RetentionMaxBytes topic;
     tc_CleanupPolicy := tc_CleanupPolicy topic; tc_MaxMessageBytes := tc_MaxMessageBytes topic;
     tc_MaxBatchBytes := tc_MaxBatchBytes topic; tc_RetentionMS := tc_RetentionMS topic;
     tc_RetryPolicy := tc_RetryPolicy topic; tc_DeadLetterTopic := dlq; tc_DelayEnabled := tc_DelayEnabled topic;
     tc_MessageTTLMS := tc_MessageTTLMS topic; tc_MessageExpiryAction := tc_MessageExpiryAction topic;
     tc_CompactionEnabled := tc_CompactionEnabled topic;
     tc_CompactionTombstoneRetentionMS := tc_CompactionTombstoneRetentionMS topic;
     tc_OrderingPolicy := tc_OrderingPolicy topic; tc_PriorityPolicy := tc_PriorityPolicy topic |}.

Definition visibleTopicConfig (identity : Identity) (topic : TopicConfig) : TopicConfig :=
  set_Name_DeadLetter (visibleTopicName identity (tc_Name topic))
    (visibleTopicName identity <$> tc_DeadLetterTopic topic) topic.

(** ** Defaults of a tenant's topics *)

Record TenantDefaultsConfig := mkTenantDefaultsConfig {
  td_Tenant : string;
  td_Namespace : string;
  td_RetentionMaxBytes : Z;
  td_RetentionMS : option Z;
  td_RetryPolicy : TopicRetryPolicy;
  td_DeadLetterTopic : string;
  td_DelayEnabled : option bool;
  td_MessageTTLMS : option Z;
  td_MessageExpiryAction : string
}.

Definition topicDefaultUint64 (value base : Z) : bool := (value =? 0) || (value =? base).
Definition topicDefaultUint32 (value base : Z) : bool := (value =? 0) || (value =? base).

(** [f > 0] on the bits of a double: positive and not a NaN. *)
Definition positiveFloat (bits : Z) : bool := (0 <? bits) && (bits <=? 0x7FF0000000000000).

Definition applyTenantRetryDefaults (defaults current base : TopicRetryPolicy) : TopicRetryPolicy :=
  {| trp_MaxAttempts :=
       if (0 <? trp_MaxAttempts defaults) && topicDefaultUint32 (trp_MaxAttempts current) (trp_MaxAttempts base)
       then trp_MaxAttempts defaults else trp_MaxAttempts current;
     trp_BackoffInitialMS :=
       if (0 <? trp_BackoffInitialMS defaults) && topicDefaultUint64 (trp_BackoffInitialMS current) (trp_BackoffInitialMS base)
       then trp_BackoffInitialMS defaults else trp_BackoffInitialMS current;
     trp_BackoffMaxMS :=
       if (0 <? trp_BackoffMaxMS defaults) && topicDefaultUint64 (trp_BackoffMaxMS current) (trp_BackoffMaxMS base)
       then trp_BackoffMaxMS defaults else trp_BackoffMaxMS current;
     trp_BackoffJitterFactor :=
       if positiveFloat (trp_BackoffJitterFactor defaults) && (trp_BackoffJitterFactor current =? trp_BackoffJitterFactor base)
       then trp_BackoffJitterFactor defaults else trp_BackoffJitterFactor current |}.

(** [applyTenantRetentionDefaults], [applyTenantDeliveryDefaults],
    [applyTenantMessageExpiryDefaults] and the retry policy. *)
Definition applyDefaults (defaults : TenantDefaultsConfig) (topic : TopicConfig) : TopicConfig :=
  let base := NewTopicConfig (tc_Name topic) in
  {| tc_Name := tc_Name topic; tc_Partitions := tc_Partitions topic; tc_SegmentMaxBytes := tc_SegmentMaxBytes topic;
     tc_IndexIntervalBytes := tc_IndexIntervalBytes topic;
     tc_RetentionMaxBytes :=
       if (0 <? td_RetentionMaxBytes defaults) && topicDefaultUint64 (tc_RetentionMaxBytes topic) (tc_RetentionMaxBytes base)
       then td_RetentionMaxBytes defaults else tc_RetentionMaxBytes topic;
     tc_CleanupPolicy := tc_CleanupPolicy topic; tc_MaxMessageBytes := tc_MaxMessageBytes topic;
     tc_MaxBatchBytes := tc_MaxBatchBytes topic;
     tc_RetentionMS := match tc_RetentionMS topic with Some v => Some v | None => td_RetentionMS defaults end;
     tc_RetryPolicy := applyTenantRetryDefaults (td_RetryPolicy defaults) (tc_RetryPolicy topic) (tc_RetryPolicy base);
     tc_DeadLetterTopic :=
       match tc_DeadLetterTopic topic with
       | Some v => Some v
       | None => if decide (td_DeadLetterTopic defaults = "") then None else Some (td_DeadLetterTopic defaults)
       end;
     tc_DelayEnabled := if tc_DelayEnabled topic then true else default false (td_DelayEnabled defaults);
     tc_MessageTTLMS := match tc_MessageTTLMS topic with Some v => Some v | None => td_MessageTTLMS defaults end;
     tc_MessageExpiryAction :=
       if decide (tc_MessageExpiryAction topic = "") then td_MessageExpiryAction defaults else tc_MessageExpiryAction topic;
     tc_CompactionEnabled := tc_CompactionEnabled topic;
     tc_CompactionTombstoneRetentionMS := tc_CompactionTombstoneRetentionMS topic;
     tc_OrderingPolicy := tc_OrderingPolicy topic; tc_PriorityPolicy := tc_PriorityPolicy topic |}.

Definition tenantDefaultsMatch (identity : Identity) (defaults : TenantDefaultsConfig) : option Z :=
  if decide (td_Tenant defaults <> "" /\ td_Tenant defaults <> id_Tenant identity) then None
  else if decide (td_Namespace defaults <> "" /\ td_Namespace defaults <> id_Namespace identity) then None
  else Some ((if decide (td_Tenant defaults = "") then 0 else 2) + (if decide (td_Namespace defaults = "") then 0 else 1)).

(** The best match, the later one of equals. *)
Definition tenantTopicDefaults (configured : list TenantDefaultsConfig) (identity : Identity) : option TenantDefaultsConfig :=
  let identity := normalizeIdentity identity in
  fst (foldl (fun acc defaults =>
    let '(best, bestScore) := (acc : option TenantDefaultsConfig * Z) in
    match tenantDefaultsMatch identity defaults with
    | Some score => if bestScore <=? score then (Some defaults, score) else (best, bestScore)
    | None => (best, bestScore)
    end) (None, -1) configured).

Definition applyTenantTopicDefaults (configured : list TenantDefaultsConfig) (identity : Identity) (topic : TopicConfig)
    : TopicConfig :=
  match tenantTopicDefaults configured identity with None => topic | Some defaults => applyDefaults defaults topic end.

(** Of the identity [b.identity(ctx)]. *)
Definition scopedTopicConfig (configured : list TenantDefaultsConfig) (identity : Identity) (topic : TopicConfig)
    : TopicConfig :=
  let topic := applyTenantTopicDefaults configured identity topic in
  set_Name_DeadLetter (scopedTopicName identity (tc_Name topic)) (scopedTopicName identity <$> tc_DeadLetterTopic topic) topic.

(** [b.identity]: the configured default scope replaces the built-in one. *)
Definition brokerIdentity (defaultTenant defaultNamespace : string) (identity : Identity) : Identity :=
  let identity := normalizeIdentity identity in
  if defaultScope identity
  then normalizeIdentity (mkIdentity (id_Principal identity) defaultTenant defaultNamespace (id_ClientID identity) (id_Instance identity))
  else identity.

(** ** Stored policies *)

Record ACLPolicyFilter := mkACLPolicyFilter {
  af_Tenant : string;
  af_Namespace : string;
  af_Principal : string;
  af_ResourceType : string;
  af_ResourceName : string
}.

Definition validateACLPolicy (policy : ACLPolicy) : result Code unit :=
  if decide (TrimSpace (acl_PolicyID policy) = "") then Err CodeInvalidArgument
  else if decide (acl_Effect policy = ACLPolicyEffectAllow \/ acl_Effect policy = ACLPolicyEffectDeny) then Ok tt
  else Err CodeInvalidArgument.

Definition SaveACLPolicy (s : MemoryStore) (policy : ACLPolicy) : MemoryStore * result Code unit :=
  match validateACLPolicy policy with
  | Err e => (s, Err e)
  | Ok _ => (set_aclPolicies (<[acl_PolicyID policy := policy]> (aclPolicies s)) s, Ok tt)
  end.

Definition LoadACLPolicy (s : MemoryStore) (policyID : string) : result Code (option ACLPolicy) :=
  let policyID := TrimSpace policyID in
  if decide (policyID = "") then Err CodeInvalidArgument else Ok (aclPolicies s !! policyID).

Definition stringFilterMatch (value filter : string) : bool :=
  let filter := TrimSpace filter in bool_decide (filter = "") || bool_decide (TrimSpace value = filter).

Definition aclPolicyMatchesFilter (policy : ACLPolicy) (f : ACLPolicyFilter) : bool :=
  stringFilterMatch (acl_Tenant policy) (af_Tenant f) && stringFilterMatch (acl_Namespace policy) (af_Namespace f) &&
  stringFilterMatch (acl_Principal policy) (af_Principal f) &&
  stringFilterMatch (acl_ResourceType policy) (af_ResourceType f) &&
  stringFilterMatch (acl_ResourceName policy) (af_ResourceName f).

Definition aclPolicyEffectRank (effect : string) : Z := if decide (effect = ACLPolicyEffectDeny) then 0 else 1.

Definition compareACLPolicyEffect (left right : string) : comparison :=
  Z.compare (aclPolicyEffectRank left) (aclPolicyEffectRank right).

Definition compareACLPolicy (left right : ACLPolicy) : comparison :=
  Z.compare (acl_Priority right) (acl_Priority left) <+>
  (compareACLPolicyEffect (acl_Effect left) (acl_Effect right) <+>
   String.compare (acl_PolicyID left) (acl_PolicyID right)).

Definition sortACLPolicies (policies : list ACLPolicy) : list ACLPolicy := sort_func compareACLPolicy policies.

Definition ListACLPolicies `{MapRange} (s : MemoryStore) (f : ACLPolicyFilter) : result Code (list ACLPolicy) :=
  Ok (sortACLPolicies (filter (fun p => aclPolicyMatchesFilter p f = true) (values (aclPolicies s)))).

Definition DeleteACLPolicy (s : MemoryStore) (policyID : string) : MemoryStore * result Code unit :=
  let policyID := TrimSpace policyID in
  if decide (policyID = "") then (s, Err CodeInvalidArgument)
  else (set_aclPolicies (delete policyID (aclPolicies s)) s, Ok tt).

(** ** Policies of the broker *)

Definition aclPolicyWildcard : string := "*".

Definition normalizeACLWildcard (value : string) : string :=
  let value := TrimSpace value in if decide (value = "") then aclPolicyWildcard else value.

(** [lo.Uniq]: the first occurrence of every value. *)
Fixpoint uniq (seen l : list string) : list string :=
  match l with
  | [] => []
  | x :: l => if decide (x ∈ seen) then uniq seen l else x :: uniq (x :: seen) l
  end.

Definition normalizeACLActions (actions : list string) : list string :=
  if decide (actions = []) then [aclPolicyWildcard] else uniq [] (normalizeACLWildcard <$> actions).

Fixpoint joinComma (l : list string) : string :=
  match l with [] => "" | [x] => x | x :: l => x +:+ "," +:+ joinComma l end.

Definition generatedACLPolicyID (policy : ACLPolicy) : string :=
  let actions := sort_func String.compare (acl_Actions policy) in
  acl_Tenant policy +:+ "/" +:+ acl_Namespace policy +:+ "/" +:+ acl_Principal policy +:+ "/" +:+
  acl_ResourceType policy +:+ "/" +:+ acl_ResourceName policy +:+ "/" +:+ joinComma actions +:+ "/" +:+ acl_Effect policy.

Definition normalizeACLPolicy (nowMS : Z) (identity : Identity) (policy : ACLPolicy) : ACLPolicy :=
  let identity := normalizeIdentity identity in
  let fill (id : string) := {|
    acl_PolicyID := id;
    acl_Tenant := nonEmpty (TrimSpace (acl_Tenant policy)) (id_Tenant identity);
    acl_Namespace := nonEmpty (TrimSpace (acl_Namespace policy)) (id_Namespace identity);
    acl_Principal := normalizeACLWildcard (acl_Principal policy);
    acl_ResourceType := normalizeACLWildcard (acl_ResourceType policy);
    acl_ResourceName := normalizeACLWildcard (acl_ResourceName policy);
    acl_Actions := normalizeACLActions (acl_Actions policy);
    acl_Effect := if decide (acl_Effect policy = "") then ACLPolicyEffectAllow else acl_Effect policy;
    acl_Priority := acl_Priority policy;
    acl_UpdatedAtMS := if acl_UpdatedAtMS policy =? 0 then nowMS else acl_UpdatedAtMS policy
  |} in
  let id := TrimSpace (acl_PolicyID policy) in
  if decide (id = "") then fill (generatedACLPolicyID (fill id)) else fill id.

Definition validateBrokerACLPolicy (policy : ACLPolicy) : result BrokerError unit :=
  if decide (TrimSpace (acl_PolicyID policy) = "") then Err (StoreError CodeInvalidArgument)
  else if decide (acl_Effect policy = ACLPolicyEffectAllow \/ acl_Effect policy = ACLPolicyEffectDeny) then
    if decide (acl_Actions policy = []) then Err (StoreError CodeInvalidArgument) else Ok tt
  else Err (StoreError CodeInvalidArgument).

Definition applyUpsertACLPolicy (s : MemoryStore) (policy : ACLPolicy) : MemoryStore * result BrokerError ACLPolicy :=
  let '(s, r) := SaveACLPolicy s policy in (s, _ ← of_store r; Ok policy).

Definition applyDeleteACLPolicy (s : MemoryStore) (policyID : string) : MemoryStore * result BrokerError string :=
  let policyID := TrimSpace policyID in
  if decide (policyID = "") then (s, Err (StoreError CodeInvalidArgument))
  else let '(s, r) := DeleteACLPolicy s policyID in (s, _ ← of_store r; Ok policyID).

(** ** Authorization *)

Record ACLResource := mkACLResource {
  res_Type : string;
  res_Tenant : string;
  res_Namespace : string;
  res_Name : string
}.

Definition ACLActionCreate : string := "create".
Definition ACLActionDescribe : string := "describe".
Definition ACLActionProduce : string := "produce".
Definition ACLActionConsume : string := "consume".
Definition ACLActionCommit : string := "commit".
Definition ACLActionAlter : string := "alter".
Definition ACLActionTransact : string := "transact".

Definition topicResource (identity : Identity) (topic : string) : ACLResource :=
  mkACLResource "topic" (id_Tenant identity) (id_Namespace identity) topic.
Definition groupResource (identity : Identity) (group : string) : ACLResource :=
  mkACLResource "consumer_group" (id_Tenant identity) (id_Namespace identity) group.
Definition txResource (identity : Identity) (transactionalID : string) : ACLResource :=
  mkACLResource "transactional_id" (id_Tenant identity) (id_Namespace identity) transactionalID.
Definition directInboxResource (identity : Identity) (recipient : string) : ACLResource :=
  mkACLResource "direct_inbox" (id_Tenant identity) (id_Namespace identity) recipient.
Definition clusterResource (identity : Identity) : ACLResource :=
  mkACLResource "cluster" (id_Tenant identity) (id_Namespace identity) (id_Tenant identity).
Definition aclPolicyAdminResource (identity : Identity) : ACLResource :=
  mkACLResource "admin" (id_Tenant identity) (id_Namespace identity) "acl_policy".

(** [authx.Principal], [authx.AuthorizationModel], [authx.Decision]. *)
Record AuthPrincipal := mkAuthPrincipal { ap_ID : string; ap_Attributes : gmap string string }.

Record AuthorizationModel := mkAuthorizationModel {
  am_Principal : AuthPrincipal;
  am_Action : string;
  am_Resource : string;
  am_Context : gmap string string
}.

Record AuthDecision := mkDecision { d_Allowed : bool; d_Reason : string; d_PolicyID : string }.

Definition stringDetail (details : gmap string string) (key fallback : string) : string :=
  match details !! key with None => fallback | Some value => nonEmpty (TrimSpace value) fallback end.

Definition identityDetails (identity : Identity) : gmap string string :=
  let identity := normalizeIdentity identity in
  <["instance" := id_Instance identity]> (<["client_id" := id_ClientID identity]>
    (<["namespace" := id_Namespace identity]> (<["tenant" := id_Tenant identity]> ∅))).

Definition authPrincipal (identity : Identity) : AuthPrincipal :=
  let identity := normalizeIdentity identity in mkAuthPrincipal (id_Principal identity) (identityDetails identity).

Definition identityFromPrincipal (principal : AuthPrincipal) (fallback : Identity) : Identity :=
  let identity := normalizeIdentity fallback in
  let attributes := ap_Attributes principal in
  normalizeIdentity
    {| id_Principal := nonEmpty (ap_ID principal) (id_Principal identity);
       id_Tenant := stringDetail attributes "tenant" (id_Tenant identity);
       id_Namespace := stringDetail attributes "namespace" (id_Namespace identity);
       id_ClientID := stringDetail attributes "client_id" (id_ClientID identity);
       id_Instance := stringDetail attributes "instance" (id_Instance identity) |}.

Definition authContext (identity : Identity) (resource : ACLResource) : gmap string string :=
  <["client_id" := id_ClientID identity]> (<["namespace" := res_Namespace resource]>
    (<["tenant" := res_Tenant resource]> (<["resource_id" := res_Name resource]> (<["resource" := res_Type resource]> ∅)))).

Definition authResource (resource : ACLResource) : string :=
  res_Type resource +:+ ":" +:+ res_Tenant resource +:+ "/" +:+ res_Namespace resource +:+ "/" +:+ res_Name resource.

Fixpoint cutAt (sep : Ascii.ascii) (l : list Ascii.ascii) : option (list Ascii.ascii) :=
  match l with
  | [] => None
  | c :: l => if decide (c = sep) then Some [] else (cons c) <$> cutAt sep l
  end.

Definition parseAuthResourceType (resource : string) : string :=
  match cutAt (GoStrings.ch 58) (String.list_ascii_of_string resource) with
  | Some before => String.string_of_list_ascii before
  | None => ""
  end.

Record aclAuthorizationRequest := mkAclRequest { ar_Identity : Identity; ar_Action : string; ar_Resource : ACLResource }.

Definition aclRequestFromAuthModel (input : AuthorizationModel) : aclAuthorizationRequest :=
  let identity := identityFromPrincipal (am_Principal input) (mkIdentity "" "" "" "" "") in
  let type := stringDetail (am_Context input) "resource" "" in
  let tenant := stringDetail (am_Context input) "tenant" (id_Tenant identity) in
  let namespace := stringDetail (am_Context input) "namespace" (id_Namespace identity) in
  let resource := mkACLResource
    (if decide (type = "") then parseAuthResourceType (am_Resource input) else type)
    (nonEmpty tenant (id_Tenant identity)) (nonEmpty namespace (id_Namespace identity))
    (stringDetail (am_Context input) "resource_id" "") in
  mkAclRequest identity (am_Action input) resource.

Definition aclFieldMatches (policyValue requestValue : string) : bool :=
  let policyValue := TrimSpace policyValue in
  let requestValue := TrimSpace requestValue in
  bool_decide (policyValue = "") || bool_decide (policyValue = aclPolicyWildcard) || bool_decide (policyValue = requestValue).

Definition aclActionMatches (actions : list string) (action : string) : bool :=
  match actions with [] => true | _ => existsb (fun candidate => aclFieldMatches candidate action) actions end.

Definition scopedACLPolicies (policies : list ACLPolicy) (resource : ACLResource) : list ACLPolicy :=
  filter (fun p => aclFieldMatches (acl_Tenant p) (res_Tenant resource) && aclFieldMatches (acl_Namespace p) (res_Namespace resource) = true)
    policies.

Definition metadataACLPolicyMatches (policy : ACLPolicy) (request : aclAuthorizationRequest) : bool :=
  aclFieldMatches (acl_Principal policy) (id_Principal (ar_Identity request)) &&
  aclFieldMatches (acl_ResourceType policy) (res_Type (ar_Resource request)) &&
  aclFieldMatches (acl_ResourceName policy) (res_Name (ar_Resource request)) &&
  aclActionMatches (acl_Actions policy) (ar_Action request).

Fixpoint firstMatch (policies : list ACLPolicy) (request : aclAuthorizationRequest) : AuthDecision :=
  match policies with
  | [] => mkDecision false "policy_required" "ech0.metadata_acl"
  | policy :: policies =>
      if negb (metadataACLPolicyMatches policy request) then firstMatch policies request
      else
        let allowed := bool_decide (acl_Effect policy = ACLPolicyEffectAllow) in
        mkDecision allowed (if allowed then "" else "policy_deny") (acl_PolicyID policy)
  end.

(** The error of the store's list does not occur. *)
Definition authorizeFromMetadata `{MapRange} (s : MemoryStore) (input : AuthorizationModel) : result BrokerError AuthDecision :=
  let request := aclRequestFromAuthModel input in
  policies ← of_store (ListACLPolicies s (mkACLPolicyFilter "" "" "" "" ""));
  let scoped := scopedACLPolicies policies (ar_Resource request) in
  match scoped with
  | [] => Ok (mkDecision true "" "ech0.allow_all")
  | _ => Ok (firstMatch scoped request)
  end.

Definition authorize `{MapRange} (s : MemoryStore) (identity : Identity) (action : string) (resource : ACLResource)
    : result BrokerError unit :=
  let identity := normalizeIdentity identity in
  let resource := mkACLResource (res_Type resource) (nonEmpty (res_Tenant resource) (id_Tenant identity))
    (nonEmpty (res_Namespace resource) (id_Namespace identity)) (res_Name resource) in
  decision ← authorizeFromMetadata s
    (mkAuthorizationModel (authPrincipal identity) action (authResource resource) (authContext identity resource));
  if d_Allowed decision then Ok tt else Err (StoreError CodeInvalidArgument).

(** The admin operations of the policies, of a broker that applies commands
    itself. *)
Definition UpsertACLPolicy `{MapRange} (nowMS : Z) (s : MemoryStore) (identity : Identity) (policy : ACLPolicy)
    : MemoryStore * result BrokerError ACLPolicy :=
  let policy := normalizeACLPolicy nowMS identity policy in
  match validateBrokerACLPolicy policy, authorize s identity "admin" (aclPolicyAdminResource identity) with
  | Err e, _ => (s, Err e)
  | Ok _, Err e => (s, Err e)
  | Ok _, Ok _ => applyUpsertACLPolicy s policy
  end.

Definition brokerDeleteACLPolicy `{MapRange} (s : MemoryStore) (identity : Identity) (policyID : string)
    : MemoryStore * result BrokerError string :=
  match authorize s identity "admin" (aclPolicyAdminResource identity) with
  | Err e => (s, Err e)
  | Ok _ => applyDeleteACLPolicy s (TrimSpace policyID)
  end.

(** ** Authentication *)

Record AuthRequest := mkAuthRequest {
  aq_ClientID : string;
  aq_Principal : string;
  aq_Tenant : string;
  aq_Namespace : string;
  aq_Token : string
}.

Record StaticAuthTokenConfig := mkStaticAuthToken { tok_Token : string; tok_Identity : Identity }.
Record AuthConfig := mkAuthConfig { auth_Enabled : bool; auth_AllowAnonymous : bool; auth_StaticTokens : list StaticAuthTokenConfig }.

Definition configuredAuthTokens (tokens : list StaticAuthTokenConfig) : gmap string Identity :=
  foldl (fun out token =>
    let tokenValue := TrimSpace (tok_Token token) in
    if decide (tokenValue = "") then out else <[tokenValue := normalizeIdentity (tok_Identity token)]> out) ∅ tokens.

Definition identityFromAuthRequest (req : AuthRequest) : Identity :=
  normalizeIdentity (mkIdentity (TrimSpace (aq_Principal req)) (TrimSpace (aq_Tenant req)) (TrimSpace (aq_Namespace req))
    (TrimSpace (aq_ClientID req)) "").

(** [newConfiguredAuthProvider]: the static tokens when the request has a
    token, the fallback when it has none. *)
Definition authenticateIdentity (cfg : AuthConfig) (req : AuthRequest) : result BrokerError Identity :=
  let token := TrimSpace (aq_Token req) in
  if decide (token = "") then
    if auth_Enabled cfg && negb (auth_AllowAnonymous cfg) then Err (BrokerFailure "unauthenticated")
    else Ok (identityFromAuthRequest req)
  else match configuredAuthTokens (auth_StaticTokens cfg) !! token with
       | Some identity =>
           Ok (normalizeIdentity (mkIdentity (id_Principal identity) (id_Tenant identity) (id_Namespace identity)
                 (nonEmpty (TrimSpace (aq_ClientID req)) (id_ClientID identity)) (id_Instance identity)))
       | None => Err (BrokerFailure "unauthenticated")
       end.

Definition identityFromAuthResult (req : AuthRequest) (principal : AuthPrincipal) (details : gmap string string) : Identity :=
  let identity := identityFromPrincipal principal (identityFromAuthRequest req) in
  normalizeIdentity
    (mkIdentity (id_Principal identity) (stringDetail details "tenant" (id_Tenant identity))
       (stringDetail details "namespace" (id_Namespace identity)) (stringDetail details "client_id" (id_ClientID identity))
       (stringDetail details "instance" (id_Instance identity))).

Definition authenticate (cfg : AuthConfig) (req : AuthRequest) : result BrokerError Identity :=
  identity ← authenticateIdentity cfg req;
  Ok (identityFromAuthResult req (authPrincipal identity) (identityDetails identity)).

(** ** Quotas

    The rate limits are doubles, kept as bits; [allowN key n] is what the
    token bucket of the key answers for [n] tokens. *)

Record QuotaConfig := mkQuotaConfig {
  q_MaxTopics : Z;
  q_MaxPartitions : Z;
  q_MaxMessageBytes : Z;
  q_MaxBatchBytes : Z;
  q_MaxConnections : Z;
  q_ProduceRateLimitPerSecond : Z;
  q_ConsumeRateLimitPerSecond : Z;
  q_RequestRateLimitPerSecond : Z;
  q_MaxInflightRequests : Z;
  q_MaxStorageBytes : Z
}.

Inductive QuotaAction := QuotaActionCreateTopic | QuotaActionProduce | QuotaActionConsume | QuotaActionRequest
  | QuotaActionConnect | QuotaActionInflight.

Definition quotaActionName (action : QuotaAction) : string :=
  match action with
  | QuotaActionCreateTopic => "create_topic" | QuotaActionProduce => "produce" | QuotaActionConsume => "consume"
  | QuotaActionRequest => "request" | QuotaActionConnect => "connect" | QuotaActionInflight => "inflight_request"
  end.

Record QuotaRequest := mkQuotaRequest {
  qr_Identity : Identity;
  qr_Action : QuotaAction;
  qr_Topic : string;
  qr_Partitions : Z;
  qr_Records : Z;
  qr_Bytes : Z;
  qr_CurrentTopics : Z;
  qr_CurrentPartitions : Z;
  qr_CurrentStorageBytes : Z;
  qr_AdditionalStorageBytes : Z;
  qr_CurrentConnections : Z;
  qr_CurrentInflightRequests : Z
}.

Definition quotaExceeded {A} : result BrokerError A := Err (StoreError CodeUnavailable).

Definition zeroFloat (bits : Z) : bool := (bits =? 0) || (bits =? 2 ^ 63).

Definition quotaConfigEmpty (cfg : QuotaConfig) : bool :=
  (q_MaxTopics cfg =? 0) && (q_MaxPartitions cfg =? 0) && (q_MaxMessageBytes cfg =? 0) && (q_MaxBatchBytes cfg =? 0) &&
  (q_MaxConnections cfg =? 0) && zeroFloat (q_ProduceRateLimitPerSecond cfg) &&
  zeroFloat (q_ConsumeRateLimitPerSecond cfg) && zeroFloat (q_RequestRateLimitPerSecond cfg) &&
  (q_MaxInflightRequests cfg =? 0) && (q_MaxStorageBytes cfg =? 0).

Definition checkCreateTopicQuota (cfg : QuotaConfig) (req : QuotaRequest) : result BrokerError unit :=
  if (0 <? q_MaxTopics cfg) && (q_MaxTopics cfg <? qr_CurrentTopics req + 1) then quotaExceeded
  else
    let nextPartitions := qr_CurrentPartitions req + qr_Partitions req in
    if (0 <? q_MaxPartitions cfg) && (q_MaxPartitions cfg <? nextPartitions) then quotaExceeded else Ok tt.

Definition checkProduceQuota (cfg : QuotaConfig) (req : QuotaRequest) : result BrokerError unit :=
  if (0 <? q_MaxMessageBytes cfg) && (qr_Records req <=? 1) && (q_MaxMessageBytes cfg <? qr_Bytes req) then quotaExceeded
  else if (0 <? q_MaxBatchBytes cfg) && (1 <? qr_Records req) && (q_MaxBatchBytes cfg <? qr_Bytes req) then quotaExceeded
  else if (0 <? q_MaxStorageBytes cfg) &&
          (q_MaxStorageBytes cfg <? u64 (qr_CurrentStorageBytes req + qr_AdditionalStorageBytes req)) then quotaExceeded
  else Ok tt.

Definition checkConnectionQuota (cfg : QuotaConfig) (req : QuotaRequest) : result BrokerError unit :=
  if (0 <? q_MaxConnections cfg) && (q_MaxConnections cfg <? qr_CurrentConnections req + 1) then quotaExceeded else Ok tt.

Definition checkInflightQuota (cfg : QuotaConfig) (req : QuotaRequest) : result BrokerError unit :=
  if (0 <? q_MaxInflightRequests cfg) && (q_MaxInflightRequests cfg <? qr_CurrentInflightRequests req + 1)
  then quotaExceeded else Ok tt.

Definition checkStatic (cfg : QuotaConfig) (req : QuotaRequest) : result BrokerError unit :=
  match qr_Action req with
  | QuotaActionCreateTopic => checkCreateTopicQuota cfg req
  | QuotaActionProduce => checkProduceQuota cfg req
  | QuotaActionConnect => checkConnectionQuota cfg req
  | QuotaActionInflight => checkInflightQuota cfg req
  | QuotaActionConsume | QuotaActionRequest => Ok tt
  end.

Definition rateLimit (cfg : QuotaConfig) (action : QuotaAction) : Z :=
  match action with
  | QuotaActionProduce => q_ProduceRateLimitPerSecond cfg
  | QuotaActionConsume => q_ConsumeRateLimitPerSecond cfg
  | QuotaActionRequest => q_RequestRateLimitPerSecond cfg
  | _ => 0
  end.

Definition quotaTokens (req : QuotaRequest) : Z := if 0 <? qr_Records req then qr_Records req else 1.

Definition quotaRateKey (req : QuotaRequest) : string :=
  let identity := normalizeIdentity (qr_Identity req) in
  id_Tenant identity +:+ "/" +:+ id_Namespace identity +:+ "/" +:+ id_Principal identity +:+ "/" +:+ quotaActionName (qr_Action req).

Definition checkRate (cfg : QuotaConfig) (allowN : string -> Z -> bool) (req : QuotaRequest) : result BrokerError unit :=
  if negb (positiveFloat (rateLimit cfg (qr_Action req))) then Ok tt
  else if allowN (quotaRateKey req) (quotaTokens req) then Ok tt else quotaExceeded.

(** [newConfiguredQuotaLimiter(cfg).CheckQuota(req)] *)
Definition CheckQuota (cfg : QuotaConfig) (allowN : string -> Z -> bool) (req : QuotaRequest) : result BrokerError unit :=
  if quotaConfigEmpty cfg then Ok tt
  else _ ← checkStatic cfg req; checkRate cfg allowN req.

Definition topicStorageInScope (identity : Identity) (topic : string) : bool :=
  nameInScope identity "topic" topic ||
  match splitAuxTopicName topic with Some (_, source) => nameInScope identity "topic" source | None => false end.

(** The topics and partitions a tenant has. *)
Definition populateTopicQuotaUsage `{MapRange} (cfg : QuotaConfig) (s : MemoryStore) (identity : Identity)
    : result BrokerError (Z * Z) :=
  if negb ((0 <? q_MaxTopics cfg) || (0 <? q_MaxPartitions cfg)) then Ok (0, 0)
  else
    topics ← of_store (ListTopics s);
    let mine := filter (fun topic => nameInScope identity "topic" (tc_Name topic) &&
                                     negb (isInternalTopicName (visibleTopicName identity (tc_Name topic))) = true) topics in
    Ok (len mine, foldl (fun n topic => n + tc_Partitions topic) 0 mine).

Fixpoint storageTotal (s : MemoryStore) (identity : Identity) (total : Z) (topics : list TopicConfig) : result BrokerError Z :=
  match topics with
  | [] => Ok total
  | topic :: topics =>
      if negb (topicStorageInScope identity (tc_Name topic)) then storageTotal s identity total topics
      else usage ← of_store (StorageUsage s (tc_Name topic)); storageTotal s identity (u64 (total + usage)) topics
  end.

Definition storageUsageForScope `{MapRange} (s : MemoryStore) (identity : Identity) : result BrokerError Z :=
  topics ← of_store (ListTopics s); storageTotal s identity 0 topics.

(** *** Counted resources

    [quotaUsageTracker]: its mutex makes every operation atomic. *)

Record quotaUsageTracker := mkQuotaUsageTracker { qt_connections : gmap string Z; qt_inflight : gmap string Z }.

Definition newQuotaUsageTracker : quotaUsageTracker := mkQuotaUsageTracker ∅ ∅.

Definition quotaIdentityKey (identity : Identity) : string :=
  let identity := normalizeIdentity identity in
  id_Tenant identity +:+ "/" +:+ id_Namespace identity +:+ "/" +:+ id_Principal identity.

Definition usageRequest (identity : Identity) (action : QuotaAction) (connections inflight : Z) : QuotaRequest :=
  mkQuotaRequest (normalizeIdentity identity) action "" 0 0 0 0 0 0 0 connections inflight.

Definition acquireConnection (cfg : QuotaConfig) (allowN : string -> Z -> bool) (t : quotaUsageTracker) (identity : Identity)
    : quotaUsageTracker * result BrokerError unit :=
  let key := quotaIdentityKey identity in
  let current := default 0 (qt_connections t !! key) in
  match CheckQuota cfg allowN (usageRequest identity QuotaActionConnect current 0) with
  | Err e => (t, Err e)
  | Ok _ => (mkQuotaUsageTracker (<[key := current + 1]> (qt_connections t)) (qt_inflight t), Ok tt)
  end.

Definition releaseConnection (t : quotaUsageTracker) (identity : Identity) : quotaUsageTracker :=
  let key := quotaIdentityKey identity in
  let current := default 0 (qt_connections t !! key) in
  let connections := if current <=? 1 then delete key (qt_connections t) else <[key := current - 1]> (qt_connections t) in
  mkQuotaUsageTracker connections (qt_inflight t).

Definition beginInflight (cfg : QuotaConfig) (allowN : string -> Z -> bool) (t : quotaUsageTracker) (identity : Identity)
    : quotaUsageTracker * result BrokerError unit :=
  let key := quotaIdentityKey identity in
  let current := default 0 (qt_inflight t !! key) in
  match CheckQuota cfg allowN (usageRequest identity QuotaActionInflight 0 current) with
  | Err e => (t, Err e)
  | Ok _ => (mkQuotaUsageTracker (qt_connections t) (<[key := current + 1]> (qt_inflight t)), Ok tt)
  end.

Definition finishInflight (t : quotaUsageTracker) (identity : Identity) : quotaUsageTracker :=
  let key := quotaIdentityKey identity in
  let current := default 0 (qt_inflight t !! key) in
  let inflight := if current <=? 1 then delete key (qt_inflight t) else <[key := current - 1]> (qt_inflight t) in
  mkQuotaUsageTracker (qt_connections t) inflight.

Definition connectionCount (t : quotaUsageTracker) (identity : Identity) : Z :=
  default 0 (qt_connections t !! quotaIdentityKey identity).

Definition inflightCount (t : quotaUsageTracker) (identity : Identity) : Z :=
  default 0 (qt_inflight t !! quotaIdentityKey identity).
