(* ===== verification/GovernanceSpec.v ===== *)
(** * Governance: isolation of tenants and the decision of the policies

    Names of different tenants never meet; a request is decided by the
    matching policy of the highest priority, a denial before a permission,
    whatever order the store lists the policies in. *)

From stdpp Require Import prelude gmap strings sorting list relations.
From Stdlib Require Import Ascii.
From S2P Require Import Prelude Model MemoryStore Queue Idempotency GoStrings Governance.

#[local] Open Scope Z_scope.

(** ** Identities *)

Lemma nonEmpty_trimmed s d : trimmed d -> d <> "" -> trimmed (nonEmpty (TrimSpace s) d) /\ nonEmpty (TrimSpace s) d <> "".
Proof. intros Hd Hne. unfold nonEmpty. destruct (decide _); [done|]. split; [apply TrimSpace_trimmed|done]. Qed.

Definition normal (i : Identity) : Prop :=
  (trimmed (id_Principal i) /\ id_Principal i <> "") /\ (trimmed (id_Tenant i) /\ id_Tenant i <> "") /\
  (trimmed (id_Namespace i) /\ id_Namespace i <> "") /\ trimmed (id_ClientID i) /\ trimmed (id_Instance i).

Lemma normalizeIdentity_normal i : normal (normalizeIdentity i).
Proof.
  unfold normal, normalizeIdentity. cbn [id_Principal id_Tenant id_Namespace id_ClientID id_Instance].
  split_and!; try apply TrimSpace_trimmed; apply nonEmpty_trimmed; try done; apply (bool_decide_unpack _); vm_compute; exact I.
Qed.

Lemma nonEmpty_fixed s d : trimmed s -> s <> "" -> nonEmpty (TrimSpace s) d = s.
Proof. intros Ht Hne. unfold nonEmpty. rewrite TrimSpace_id by done. by rewrite decide_False. Qed.

Lemma normalizeIdentity_id i : normal i -> normalizeIdentity i = i.
Proof.
  intros ([Hp Hp'] & [Ht Ht'] & [Hn Hn'] & Hc & Hi). destruct i. unfold normalizeIdentity. simpl in *.
  by rewrite !nonEmpty_fixed, !TrimSpace_id by done.
Qed.

Lemma normalizeIdentity_idemp i : normalizeIdentity (normalizeIdentity i) = normalizeIdentity i.
Proof. apply normalizeIdentity_id, normalizeIdentity_normal. Qed.

(** ** Scoped names *)

Abbreviation slash := "/"%char.

Lemma sep_inj {A} (c : A) l1 l2 r1 r2 : c ∉ l1 -> c ∉ l2 -> l1 ++ c :: r1 = l2 ++ c :: r2 -> l1 = l2 /\ r1 = r2.
Proof.
  revert l2. induction l1 as [|x l1 IH]; intros [|y l2] H1 H2; cbn [app].
  - by intros [= ->].
  - intros [= -> _]. set_solver.
  - intros [= -> _]. set_solver.
  - intros [= -> E]. apply IH in E as [-> ->]; [done|set_solver..].
Qed.

(** The characters of a scoped name. *)
Definition scopeChars (i : Identity) (kind : string) : list ascii :=
  chars scopedKeyPrefix ++ (chars (id_Tenant i) ≫= hexChar) ++ slash ::
  (chars (id_Namespace i) ≫= hexChar) ++ slash :: chars kind.

Lemma chars_scopePrefix i kind name : chars (scopePrefix i kind +:+ name) = scopeChars i kind ++ slash :: chars name.
Proof.
  unfold scopePrefix, scopeChars, hexComponent. rewrite !chars_app, !chars_text. cbn [String.list_ascii_of_string app].
  rewrite <- !app_assoc. cbn [app]. rewrite <- !app_assoc. cbn [app]. by rewrite <- !app_assoc.
Qed.

Lemma scopePrefix_inj i1 i2 kind n1 n2 :
  scopePrefix i1 kind +:+ n1 = scopePrefix i2 kind +:+ n2 ->
  id_Tenant i1 = id_Tenant i2 /\ id_Namespace i1 = id_Namespace i2 /\ n1 = n2.
Proof.
  intros E%(f_equal String.list_ascii_of_string). rewrite !chars_scopePrefix in E. unfold scopeChars in E.
  rewrite <- !app_assoc in E. apply app_inv_head in E. cbn [app] in E. apply sep_inj in E as [Et E]; [|apply hex_no_slash..].
  rewrite <- !app_assoc in E. cbn [app] in E. apply sep_inj in E as [En E]; [|apply hex_no_slash..].
  apply app_inv_head in E. injection E as E. apply hex_inj, chars_inj in Et. apply hex_inj, chars_inj in En. by apply chars_inj in E.
Qed.

Lemma strip_underscore l : strip spaces ("_"%char :: l) = None.
Proof. vm_compute. reflexivity. Qed.

Lemma slash_not_space : slash ∉ mjoin spaces.
Proof. apply (bool_decide_unpack _). vm_compute. exact I. Qed.

(** A scoped name, possibly behind a prefix that starts with an underscore,
    has no white space around it. *)
Lemma trimmed_scoped p i kind name :
  trimmed name -> (exists l, chars (p +:+ scopedKeyPrefix) = "_"%char :: l) -> trimmed (p +:+ (scopePrefix i kind +:+ name)).
Proof.
  intros Hn [l Hl].
  assert (p +:+ (scopePrefix i kind +:+ name) = text (chars p ++ scopeChars i kind) +:+ String slash name) as ->.
  { apply chars_inj. rewrite chars_app, chars_scopePrefix, chars_app, chars_text. cbn [String.list_ascii_of_string]. by rewrite <- app_assoc. }
  apply trimmed_app; [apply slash_not_space| |done]. rewrite chars_text. unfold scopeChars.
  rewrite chars_app in Hl. rewrite !app_assoc, Hl. cbn [app]. apply strip_underscore.
Qed.

Lemma scoped_not_aux i kind name : splitAuxTopicName (scopePrefix i kind +:+ name) = None.
Proof. reflexivity. Qed.

Lemma splitAux_Some name prefix source :
  splitAuxTopicName name = Some (prefix, source) ->
  name = prefix +:+ "." +:+ source /\
  prefix ∈ [internalRetryTopicPrefix; internalDelayTopicPrefix; internalDLQTopicPrefix].
Proof.
  unfold splitAuxTopicName. generalize [internalRetryTopicPrefix; internalDelayTopicPrefix; internalDLQTopicPrefix].
  intros ps. induction ps as [|p ps IH]; cbn [splitAux]; [done|]. destruct (CutPrefix name (p +:+ ".")) as [r|] eqn:E.
  - intros [= <- <-]. apply CutPrefix_Some in E. split; [|by left].
    apply chars_inj. rewrite E, !chars_app. cbn. by rewrite <- app_assoc.
  - intros [? ?]%IH. split; [done|by right].
Qed.

Lemma dot_assoc p s : (p +:+ ".") +:+ s = p +:+ "." +:+ s.
Proof. apply chars_inj. rewrite !chars_app. cbn. by rewrite <- app_assoc. Qed.

Lemma CutPrefix_dot p s : CutPrefix (p +:+ "." +:+ s) (p +:+ ".") = Some s.
Proof. rewrite <- dot_assoc. apply CutPrefix_app. Qed.

Lemma splitAux_app prefix source :
  prefix ∈ [internalRetryTopicPrefix; internalDelayTopicPrefix; internalDLQTopicPrefix] ->
  splitAuxTopicName (prefix +:+ "." +:+ source) = Some (prefix, source).
Proof.
  intros Hp. repeat (apply elem_of_cons in Hp as [->|Hp]; [unfold splitAuxTopicName; cbn [splitAux]|]); [..|by apply elem_of_nil in Hp].
  - by rewrite CutPrefix_dot.
  - change (CutPrefix (internalDelayTopicPrefix +:+ "." +:+ source) (internalRetryTopicPrefix +:+ ".")) with (@None string).
    by rewrite CutPrefix_dot.
  - change (CutPrefix (internalDLQTopicPrefix +:+ "." +:+ source) (internalRetryTopicPrefix +:+ ".")) with (@None string).
    change (CutPrefix (internalDLQTopicPrefix +:+ "." +:+ source) (internalDelayTopicPrefix +:+ ".")) with (@None string).
    by rewrite CutPrefix_dot.
Qed.

(** A topic name up to white space around it and around the name behind a
    retry, delay or dead-letter prefix. *)
Definition canonicalTopicName (name : string) : string :=
  match splitAuxTopicName (TrimSpace name) with
  | Some (prefix, source) => prefix +:+ "." +:+ TrimSpace source
  | None => TrimSpace name
  end.

Lemma scopedName_eq i kind name :
  defaultScope (normalizeIdentity i) = false ->
  scopedName (normalizeIdentity i) kind name = scopePrefix (normalizeIdentity i) kind +:+ TrimSpace name.
Proof. intros Hd. unfold scopedName. cbn zeta. by rewrite normalizeIdentity_idemp, Hd. Qed.

Lemma visible_scoped i kind p name :
  defaultScope (normalizeIdentity i) = false -> trimmed name -> trimmed (scopePrefix (normalizeIdentity i) kind +:+ name) ->
  p = scopePrefix (normalizeIdentity i) kind +:+ name -> visibleName (normalizeIdentity i) kind p = name.
Proof.
  intros Hd Hn Ht ->. unfold visibleName, TrimPrefix. cbn zeta. by rewrite normalizeIdentity_idemp, Hd, (TrimSpace_id _ Ht), CutPrefix_app.
Qed.

Lemma visible_scoped_topic i name :
  defaultScope (normalizeIdentity i) = false -> visibleTopicName i (scopedTopicName i name) = canonicalTopicName name.
Proof.
  intros Hd. unfold visibleTopicName, scopedTopicName, canonicalTopicName. cbn zeta. rewrite Hd.
  assert (forall n, trimmed n -> trimmed (scopePrefix (normalizeIdentity i) "topic" +:+ n)) as Htr.
  { intros n Hn. apply (trimmed_scoped ""); [done|]. by eexists. }
  destruct (splitAuxTopicName (TrimSpace name)) as [[prefix source]|] eqn:Es; rewrite scopedName_eq by done.
  - apply splitAux_Some in Es as [_ Hp].
    assert (trimmed ((prefix +:+ ".") +:+ (scopePrefix (normalizeIdentity i) "topic" +:+ TrimSpace source))) as Ht.
    { apply trimmed_scoped; [apply TrimSpace_trimmed|].
      repeat (apply elem_of_cons in Hp as [->|Hp]; [by eexists|]). by apply elem_of_nil in Hp. }
    rewrite dot_assoc in Ht. rewrite (TrimSpace_id _ Ht), splitAux_app by done. do 2 f_equal.
    apply visible_scoped; [done|apply TrimSpace_trimmed|apply Htr, TrimSpace_trimmed|done].
  - rewrite TrimSpace_idemp, (TrimSpace_id _ (Htr _ (TrimSpace_trimmed name))), scoped_not_aux.
    apply visible_scoped; [done|apply TrimSpace_trimmed|apply Htr, TrimSpace_trimmed|done].
Qed.

(** A stored topic name determines the scope it was made in. *)
Lemma scopedTopicName_scope i1 i2 n1 n2 :
  defaultScope (normalizeIdentity i1) = false -> defaultScope (normalizeIdentity i2) = false ->
  scopedTopicName i1 n1 = scopedTopicName i2 n2 ->
  id_Tenant (normalizeIdentity i1) = id_Tenant (normalizeIdentity i2) /\
  id_Namespace (normalizeIdentity i1) = id_Namespace (normalizeIdentity i2).
Proof.
  intros H1 H2 E. unfold scopedTopicName in E. cbn zeta in E. rewrite H1, H2 in E.
  destruct (splitAuxTopicName (TrimSpace n1)) as [[p1 s1]|] eqn:E1; destruct (splitAuxTopicName (TrimSpace n2)) as [[p2 s2]|] eqn:E2;
    rewrite !scopedName_eq in E by done.
  - apply splitAux_Some in E1 as [_ Hp1]. apply splitAux_Some in E2 as [_ Hp2].
    apply (f_equal splitAuxTopicName) in E. rewrite !splitAux_app in E by done. apply (inj Some), (f_equal snd) in E. cbn [snd] in E.
    by apply scopePrefix_inj in E as (? & ? & _).
  - apply splitAux_Some in E1 as [_ Hp1]. apply (f_equal splitAuxTopicName) in E. by rewrite splitAux_app, scoped_not_aux in E.
  - apply splitAux_Some in E2 as [_ Hp2]. apply (f_equal splitAuxTopicName) in E. by rewrite splitAux_app, scoped_not_aux in E.
  - by apply scopePrefix_inj in E as (? & ? & _).
Qed.

Lemma HasPrefix_app_iff name prefix : HasPrefix name prefix = true <-> exists r, name = prefix +:+ r.
Proof.
  unfold HasPrefix. split.
  - destruct (CutPrefix name prefix) as [r|] eqn:E; [|done]. intros _. exists r. by apply CutPrefix_Some in E.
  - intros [r ->]. by rewrite CutPrefix_app.
Qed.

Definition sameScope (i1 i2 : Identity) : Prop :=
  id_Tenant (normalizeIdentity i1) = id_Tenant (normalizeIdentity i2) /\
  id_Namespace (normalizeIdentity i1) = id_Namespace (normalizeIdentity i2).

#[export] Instance sameScope_dec i1 i2 : Decision (sameScope i1 i2).
Proof. unfold sameScope. apply _. Defined.

(** A stored name outside the default scope is in exactly the scope it was
    made in. *)
Lemma nameInScope_scoped i1 i2 kind name :
  defaultScope (normalizeIdentity i1) = false ->
  nameInScope i2 kind (scopedName i1 kind name) = bool_decide (sameScope i1 i2).
Proof.
  intros H1.
  assert (scopedName i1 kind name = scopePrefix (normalizeIdentity i1) kind +:+ TrimSpace name) as ->.
  { unfold scopedName. cbn zeta. by rewrite H1. }
  assert (trimmed (scopePrefix (normalizeIdentity i1) kind +:+ TrimSpace name)) as Ht.
  { apply (trimmed_scoped ""); [apply TrimSpace_trimmed|]. by eexists. }
  unfold nameInScope. cbn zeta. rewrite (TrimSpace_id _ Ht). unfold sameScope. destruct (defaultScope (normalizeIdentity i2)) eqn:H2.
  - rewrite (proj2 (HasPrefix_app_iff _ scopedKeyPrefix)) by (unfold scopePrefix; eexists; reflexivity).
    symmetry. apply bool_decide_eq_false_2. intros [Et En]. unfold defaultScope in H1, H2. rewrite Et, En, H2 in H1. done.
  - apply eq_true_iff_eq. rewrite HasPrefix_app_iff, bool_decide_eq_true. split.
    + intros [r E]. by apply scopePrefix_inj in E as (? & ? & _).
    + intros [Et En]. exists (TrimSpace name). unfold scopePrefix. by rewrite Et, En.
Qed.


(** ** The decision of the policies *)

#[export] Instance compareACLPolicy_order : CmpOrder compareACLPolicy.
Proof.
  unfold compareACLPolicy, compareACLPolicyEffect. apply cmp_order_lex; [|apply cmp_order_lex].
  - solve_cmp_order.
  - apply (cmp_order_on (fun p => aclPolicyEffectRank (acl_Effect p)) Z.compare). apply _.
  - solve_cmp_order.
Qed.

(** Every stored policy allows or denies. *)
Definition acl_inv (s : MemoryStore) : Prop :=
  forall k p, aclPolicies s !! k = Some p -> acl_Effect p = ACLPolicyEffectAllow \/ acl_Effect p = ACLPolicyEffectDeny.

Lemma SaveACLPolicy_inv s p : acl_inv s -> acl_inv (SaveACLPolicy s p).1.
Proof.
  intros Hs. unfold SaveACLPolicy, validateACLPolicy. destruct (decide _); [done|]. destruct (decide _) as [Hv|]; [|done].
  intros k q. cbn. rewrite lookup_insert. destruct (decide _); [by intros [= <-]|apply Hs].
Qed.

Lemma DeleteACLPolicy_inv s id : acl_inv s -> acl_inv (DeleteACLPolicy s id).1.
Proof.
  intros Hs. unfold DeleteACLPolicy. cbn zeta. destruct (decide _); [done|]. intros k q. cbn. rewrite lookup_delete_Some.
  intros [_ H]. by eapply Hs.
Qed.

(** The policy that decides: it matches, and every other match has a lower
    priority, or the same priority and no greater right to deny. *)
Definition decides (M : ACLPolicy -> Prop) (p : ACLPolicy) : Prop :=
  M p /\ forall q, M q -> acl_Priority q < acl_Priority p \/
                        acl_Priority q = acl_Priority p /\ aclPolicyEffectRank (acl_Effect p) <= aclPolicyEffectRank (acl_Effect q).

Lemma firstMatch_spec policies request :
  StronglySorted (cmp_le compareACLPolicy) policies ->
  let M p := p ∈ policies /\ metadataACLPolicyMatches p request = true in
  match list_find (fun p => metadataACLPolicyMatches p request = true) policies with
  | None => (forall p, ~ M p) /\ d_Allowed (firstMatch policies request) = false
  | Some (_, p) => decides M p /\ d_Allowed (firstMatch policies request) = bool_decide (acl_Effect p = ACLPolicyEffectAllow)
  end.
Proof.
  cbn zeta. induction 1 as [|p l Hs IH Hle]; cbn [list_find firstMatch].
  - split; [|done]. by intros p [?%elem_of_nil _].
  - destruct (metadataACLPolicyMatches p request) eqn:Em; cbn [negb].
    + rewrite decide_True by done. split; [|done]. split; [split; [by left|done]|].
      intros q [[->|Hq]%elem_of_cons _]; [right; lia|]. rewrite Forall_forall in Hle. specialize (Hle q Hq).
      unfold cmp_le, compareACLPolicy, compareACLPolicyEffect in Hle.
      destruct (Z.compare_spec (acl_Priority q) (acl_Priority p)) as [E|E|E]; cbn [thenCmp] in Hle; [right|by left|done].
      split; [done|]. destruct (Z.compare_spec (aclPolicyEffectRank (acl_Effect p)) (aclPolicyEffectRank (acl_Effect q))); [lia|lia|done].
    + rewrite decide_False by congruence. destruct (list_find _ l) as [[i q]|]; cbn.
      * destruct IH as [[[Hq Hm] Hd] Ha]. split; [|done]. split; [split; [by right|done]|].
        intros r [[->|Hr]%elem_of_cons Hmr]; [congruence|by apply Hd].
      * destruct IH as [Hn Ha]. split; [|done]. intros r [[->|Hr]%elem_of_cons Hmr]; [congruence|by apply (Hn r)].
Qed.

Lemma sorted_filter {A} (R : relation A) (P : A -> Prop) `{forall x, Decision (P x)} l :
  StronglySorted R l -> StronglySorted R (filter P l).
Proof.
  induction 1 as [|x l Hs IH Hle]; [constructor|]. rewrite filter_cons. destruct (decide (P x)); [|done]. constructor; [done|].
  apply Forall_forall. intros y [_ Hy]%list_elem_of_filter. by rewrite Forall_forall in Hle; apply Hle.
Qed.

Definition plain (v : string) : Prop := trimmed v /\ v <> "".

Lemma stringDetail_plain details key fallback v : details !! key = Some v -> plain v -> stringDetail details key fallback = v.
Proof. intros E [Ht Hne]. unfold stringDetail. rewrite E. by apply nonEmpty_fixed. Qed.

Lemma stringDetail_trim details key v : details !! key = Some v -> stringDetail details key "" = TrimSpace v.
Proof. intros E. unfold stringDetail, nonEmpty. rewrite E. by destruct (decide _). Qed.

Lemma identityFromPrincipal_authPrincipal i : normal i -> identityFromPrincipal (authPrincipal i) (mkIdentity "" "" "" "" "") = i.
Proof.
  intros Hi. unfold identityFromPrincipal, authPrincipal. cbn zeta. rewrite (normalizeIdentity_id i Hi). cbn [ap_ID ap_Attributes].
  unfold identityDetails. cbn zeta. rewrite (normalizeIdentity_id i Hi). pose proof Hi as ([Hp Hp'] & Ht & Hn & Hc & Hin).
  rewrite (stringDetail_plain _ "tenant" _ (id_Tenant i)), (stringDetail_plain _ "namespace" _ (id_Namespace i)) by (done || by simplify_map_eq).
  change (id_ClientID (normalizeIdentity _)) with "". change (id_Instance (normalizeIdentity _)) with "".
  rewrite (stringDetail_trim _ "client_id" (id_ClientID i)), (stringDetail_trim _ "instance" (id_Instance i)) by (by simplify_map_eq).
  rewrite (TrimSpace_id _ Hc), (TrimSpace_id _ Hin). unfold nonEmpty. rewrite decide_False by exact Hp'.
  transitivity (normalizeIdentity i); [by destruct i|by apply normalizeIdentity_id].
Qed.

Lemma aclRequest_eq i action r :
  normal i -> plain (res_Type r) -> plain (res_Tenant r) -> plain (res_Namespace r) ->
  aclRequestFromAuthModel (mkAuthorizationModel (authPrincipal i) action (authResource r) (authContext i r))
  = mkAclRequest i action (mkACLResource (res_Type r) (res_Tenant r) (res_Namespace r) (TrimSpace (res_Name r))).
Proof.
  intros Hi Hty Hte Hns. unfold aclRequestFromAuthModel. cbn zeta. cbn [am_Principal am_Action am_Resource am_Context].
  rewrite identityFromPrincipal_authPrincipal by done. unfold authContext.
  rewrite (stringDetail_plain _ "resource" _ (res_Type r)), (stringDetail_plain _ "tenant" _ (res_Tenant r)),
    (stringDetail_plain _ "namespace" _ (res_Namespace r)), (stringDetail_trim _ "resource_id" (res_Name r)) by (done || by simplify_map_eq).
  destruct Hty, Hte, Hns. unfold nonEmpty. by rewrite !decide_False by done.
Qed.

Lemma matches_trim p i action ty te ns name :
  metadataACLPolicyMatches p (mkAclRequest i action (mkACLResource ty te ns (TrimSpace name)))
  = metadataACLPolicyMatches p (mkAclRequest i action (mkACLResource ty te ns name)).
Proof.
  unfold metadataACLPolicyMatches, aclFieldMatches. cbn zeta. cbn [ar_Identity ar_Resource ar_Action res_Type res_Name].
  by rewrite TrimSpace_idemp.
Qed.

Section PolicyDecision.
Context `{MapRange} (s : MemoryStore) (identity : Identity) (action : string) (r : ACLResource).

(** The policies whose tenant and namespace cover the resource, and the ones
    of them that match the request. *)
Definition in_scope (p : ACLPolicy) : Prop :=
  (exists k, aclPolicies s !! k = Some p) /\
  aclFieldMatches (acl_Tenant p) (res_Tenant r) && aclFieldMatches (acl_Namespace p) (res_Namespace r) = true.

Definition request_matches (p : ACLPolicy) : Prop :=
  in_scope p /\ metadataACLPolicyMatches p (mkAclRequest (normalizeIdentity identity) action r) = true.

Lemma listed_policies :
  exists l, ListACLPolicies s (mkACLPolicyFilter "" "" "" "" "") = Ok l /\ StronglySorted (cmp_le compareACLPolicy) l /\
    forall p, p ∈ l <-> exists k, aclPolicies s !! k = Some p.
Proof.
  eexists. split; [done|]. split; [apply sort_func_sorted; apply _|]. intros p. unfold sortACLPolicies.
  rewrite elem_of_sort_func, list_elem_of_filter, elem_of_values. split; [by intros [_ ?]|by intros ?].
Qed.

(** C35: a request is decided by the strongest matching policy.  Authorization
    succeeds if and only if no policy covers the tenant and namespace of the
    resource, or some matching policy allows and no matching policy has a
    higher priority, or the same priority and denies; the order in which the
    store lists the policies does not matter. *)
Theorem acl_decision :
  acl_inv s -> plain (res_Type r) -> plain (res_Tenant r) -> plain (res_Namespace r) ->
  authorize s identity action r = Ok tt <->
  (forall p, ~ in_scope p) \/
  exists p, request_matches p /\ acl_Effect p = ACLPolicyEffectAllow /\
    forall q, request_matches q -> acl_Priority q < acl_Priority p \/
                                   acl_Priority q = acl_Priority p /\ acl_Effect q <> ACLPolicyEffectDeny.
Proof.
  intros Hinv Hty Hte Hns. unfold authorize, authorizeFromMetadata. cbn zeta.
  assert (mkACLResource (res_Type r) (nonEmpty (res_Tenant r) (id_Tenant (normalizeIdentity identity)))
    (nonEmpty (res_Namespace r) (id_Namespace (normalizeIdentity identity))) (res_Name r) = r) as ->.
  { destruct Hte, Hns. unfold nonEmpty. rewrite !decide_False by done. by destruct r. }
  rewrite aclRequest_eq by (done || apply normalizeIdentity_normal). cbn [ar_Resource].
  destruct listed_policies as (l & -> & Hsorted & Hin). cbn [of_store mbind result_bind].
  set (scoped := scopedACLPolicies l _).
  assert (forall p, p ∈ scoped <-> in_scope p) as Hsc.
  { intros p. unfold scoped, scopedACLPolicies. rewrite list_elem_of_filter, Hin. unfold in_scope. cbn [res_Tenant res_Namespace]. tauto. }
  assert (StronglySorted (cmp_le compareACLPolicy) scoped) as Hss by (by apply sorted_filter).
  pose proof (firstMatch_spec scoped (mkAclRequest (normalizeIdentity identity) action
    (mkACLResource (res_Type r) (res_Tenant r) (res_Namespace r) (TrimSpace (res_Name r)))) Hss) as Hf. cbn zeta in Hf.
  assert (forall p, p ∈ scoped /\ metadataACLPolicyMatches p (mkAclRequest (normalizeIdentity identity) action
    (mkACLResource (res_Type r) (res_Tenant r) (res_Namespace r) (TrimSpace (res_Name r)))) = true <-> request_matches p) as HM.
  { intros p. rewrite Hsc, matches_trim. unfold request_matches. by destruct r. }
  destruct scoped as [|p0 l0] eqn:Escoped.
  { cbn. split; [|done]. intros _. left. intros p Hp. by apply Hsc, elem_of_nil in Hp. }
  cbn [mbind result_bind]. rewrite <- Escoped in *.
  assert (forall (d : AuthDecision), (if d_Allowed d then Ok tt else Err (StoreError CodeInvalidArgument)) = Ok tt <-> d_Allowed d = true) as Hif
    by (intros d; by destruct (d_Allowed d)).
  rewrite Hif. destruct (list_find _ scoped) as [[i p]|].
  - destruct Hf as [[Hp Hd] ->]. rewrite bool_decide_eq_true. apply HM in Hp. split.
    + intros Ea. right. exists p. split_and!; [done|done|]. intros q Hq. destruct (Hd q (proj2 (HM q) Hq)) as [?|[? Hr]]; [by left|right].
      split; [done|]. intros Eq. rewrite Ea, Eq in Hr. done.
    + intros [Hn|(p' & Hp' & Ea & Hd')]; [destruct (Hn p); apply Hp|].
      destruct (Hd p' (proj2 (HM p') Hp')) as [?|[E1 Hr]]; [destruct (Hd' p Hp) as [?|[? _]]; lia|].
      destruct (Hd' p Hp) as [?|[_ Hnd]]; [lia|]. destruct Hp as [[[k Hk] _] _]. by destruct (Hinv k p Hk).
  - destruct Hf as [Hn ->]. split; [done|]. intros [Hno|(p & Hp & _)]; [|exfalso; by apply (Hn p), HM].
    exfalso. apply (Hno p0), Hsc. rewrite Escoped. by left.
Qed.

End PolicyDecision.

(** ** Counted resources *)

(** One acquire or release of a connection by any identity. *)
Inductive connection_step (cfg : QuotaConfig) : quotaUsageTracker -> quotaUsageTracker -> Prop :=
| conn_acquire allowN t i : connection_step cfg t (acquireConnection cfg allowN t i).1
| conn_release t i : connection_step cfg t (releaseConnection t i)
| conn_begin allowN t i : connection_step cfg t (beginInflight cfg allowN t i).1
| conn_finish t i : connection_step cfg t (finishInflight t i).

Lemma count_bounds (m : gmap string Z) (max : Z) key n :
  (forall k v, m !! k = Some v -> 0 < v <= max) -> 0 < n <= max -> forall k v, <[key := n]> m !! k = Some v -> 0 < v <= max.
Proof. intros Hm Hn k v. rewrite lookup_insert. destruct (decide _); [by intros [= <-]|apply Hm]. Qed.

Lemma connection_step_bounds cfg t t' :
  0 < q_MaxConnections cfg -> 0 < q_MaxInflightRequests cfg -> connection_step cfg t t' ->
  (forall k v, qt_connections t !! k = Some v -> 0 < v <= q_MaxConnections cfg) /\
  (forall k v, qt_inflight t !! k = Some v -> 0 < v <= q_MaxInflightRequests cfg) ->
  (forall k v, qt_connections t' !! k = Some v -> 0 < v <= q_MaxConnections cfg) /\
  (forall k v, qt_inflight t' !! k = Some v -> 0 < v <= q_MaxInflightRequests cfg).
Proof.
  intros Hc Hi Hstep [Bc Bi].
  assert (quotaConfigEmpty cfg = false) as Hne.
  { unfold quotaConfigEmpty. rewrite (proj2 (Z.eqb_neq (q_MaxConnections cfg) 0)) by lia. by rewrite !andb_false_r. }
  assert (forall (m : gmap string Z) mx k, (forall k v, m !! k = Some v -> 0 < v <= mx) -> 0 <= default 0 (m !! k) /\ (default 0 (m !! k) <= mx \/ m !! k = None)) as Hcur.
  { intros m mx k Hm. destruct (m !! k) as [v|] eqn:E; cbn; [|split; [lia|by right]]. specialize (Hm k v E). split; [lia|left; lia]. }
  destruct Hstep as [allowN t i|t i|allowN t i|t i].
  - unfold acquireConnection, CheckQuota. rewrite Hne. cbn [checkStatic usageRequest qr_Action].
    unfold checkConnectionQuota. cbn [qr_CurrentConnections]. destruct (Hcur _ _ (quotaIdentityKey i) Bc) as [H0 _].
    destruct ((0 <? q_MaxConnections cfg) && _) eqn:E; [done|]. cbn [mbind result_bind]. rewrite (proj2 (Z.ltb_lt _ _) Hc) in E.
    apply Z.ltb_ge in E. cbn [usageRequest qr_CurrentConnections] in E. destruct (checkRate _ _ _); [|done]. split; [|done]. cbn [fst qt_connections].
    apply count_bounds; [done|lia].
  - unfold releaseConnection. cbn zeta. split; [|done]. cbn [qt_connections]. intros k v.
    destruct (Z.leb_spec (default 0 (qt_connections t !! quotaIdentityKey i)) 1) as [Hle|Hlt].
    + rewrite lookup_delete_Some. intros [_ E]. by eapply Bc.
    + apply count_bounds; [done|]. destruct (Hcur _ _ (quotaIdentityKey i) Bc) as [_ [?|E]]; [lia|]. by rewrite E in Hlt.
  - unfold beginInflight, CheckQuota. rewrite Hne. cbn [checkStatic usageRequest qr_Action].
    unfold checkInflightQuota. cbn [qr_CurrentInflightRequests]. destruct (Hcur _ _ (quotaIdentityKey i) Bi) as [H0 _].
    destruct ((0 <? q_MaxInflightRequests cfg) && _) eqn:E; [done|]. cbn [mbind result_bind]. rewrite (proj2 (Z.ltb_lt _ _) Hi) in E.
    apply Z.ltb_ge in E. cbn [usageRequest qr_CurrentInflightRequests] in E. destruct (checkRate _ _ _); [|done]. split; [done|]. cbn [fst qt_inflight].
    apply count_bounds; [done|lia].
  - unfold finishInflight. cbn zeta. split; [done|]. cbn [qt_inflight]. intros k v.
    destruct (Z.leb_spec (default 0 (qt_inflight t !! quotaIdentityKey i)) 1) as [Hle|Hlt].
    + rewrite lookup_delete_Some. intros [_ E]. by eapply Bi.
    + apply count_bounds; [done|]. destruct (Hcur _ _ (quotaIdentityKey i) Bi) as [_ [?|E]]; [lia|]. by rewrite E in Hlt.
Qed.

(** The limits hold for every identity at all times. *)
Lemma quota_counts_bounded cfg t i :
  0 < q_MaxConnections cfg -> 0 < q_MaxInflightRequests cfg -> rtc (connection_step cfg) newQuotaUsageTracker t ->
  0 <= connectionCount t i <= q_MaxConnections cfg /\ 0 <= inflightCount t i <= q_MaxInflightRequests cfg.
Proof.
  intros Hc Hi Hr.
  assert ((forall k v, qt_connections t !! k = Some v -> 0 < v <= q_MaxConnections cfg) /\
          (forall k v, qt_inflight t !! k = Some v -> 0 < v <= q_MaxInflightRequests cfg)) as [Bc Bi].
  { remember newQuotaUsageTracker as t0 eqn:E0.
    assert ((forall k v, qt_connections t0 !! k = Some v -> 0 < v <= q_MaxConnections cfg) /\
            (forall k v, qt_inflight t0 !! k = Some v -> 0 < v <= q_MaxInflightRequests cfg)) as H0 by (by subst).
    clear E0. induction Hr as [|t1 t2 t3 Hs _ IH]; [done|]. apply IH. by eapply connection_step_bounds. }
  unfold connectionCount, inflightCount. split.
  - destruct (qt_connections t !! _) as [v|] eqn:E; cbn; [|lia]. specialize (Bc _ _ E). lia.
  - destruct (qt_inflight t !! _) as [v|] eqn:E; cbn; [|lia]. specialize (Bi _ _ E). lia.
Qed.

(** Two scopes that share their counters and their rate limits: the parts of
    the key are not escaped. *)
Example quota_keys_collide :
  quotaIdentityKey (mkIdentity "p" "a/b" "c" "" "") = quotaIdentityKey (mkIdentity "p" "a" "b/c" "" "").
Proof. vm_compute. reflexivity. Qed.

(** The default scope reaches a topic of another tenant by its stored name. *)
Example default_scope_reaches_scoped_topic :
  let acme := mkIdentity "alice" "acme" "prod" "" "" in
  let outsider := mkIdentity "" "" "" "" "" in
  scopedTopicName outsider (scopedTopicName acme "orders") = scopedTopicName acme "orders" /\
  isInternalTopicName (scopedTopicName acme "orders") = false.
Proof. vm_compute. by split. Qed.

(** ** Examples *)

Definition ex_alice : Identity := mkIdentity "alice" "acme" "prod" "" "".


Definition ex_policy (id principal effect : string) (priority : Z) : ACLPolicy :=
  mkACLPolicy id "acme" "prod" principal "topic" "*" ["produce"] effect priority 1.

Definition ex_policies : MemoryStore :=
  (SaveACLPolicy (SaveACLPolicy (SaveACLPolicy NewMemoryStore (ex_policy "p1" "*" "allow" 1)).1
     (ex_policy "p2" "bob" "deny" 1)).1 (ex_policy "p3" "alice" "allow" 5)).1.

Lemma ex_policies_inv : acl_inv ex_policies.
Proof. do 3 apply SaveACLPolicy_inv. by intros k p. Qed.

Lemma acl_decision_witness :
  @authorize map_to_list_range ex_policies ex_alice "produce" (topicResource ex_alice "orders") = Ok tt.
Proof.
  apply (@acl_decision map_to_list_range ex_policies ex_alice "produce" (topicResource ex_alice "orders")).
  - apply ex_policies_inv.
  - apply (bool_decide_unpack _). vm_compute. exact I.
  - apply (bool_decide_unpack _). vm_compute. exact I.
  - apply (bool_decide_unpack _). vm_compute. exact I.
  - right. exists (ex_policy "p3" "alice" "allow" 5). split; [|split; [done|]].
    + split; [split; [exists "p3"; vm_compute; reflexivity|vm_compute; reflexivity]|vm_compute; reflexivity].
    + intros q [[[k Hk] _] _]. revert k q Hk.
      change (map_Forall (fun _ q => acl_Priority q < 5 \/ acl_Priority q = 5 /\ acl_Effect q <> ACLPolicyEffectDeny) (aclPolicies ex_policies)).
      apply (bool_decide_unpack _). vm_compute. exact I.
Defined.
