(* ===== verification/Subjects.v ===== *)
(** * Subject patterns

    [src/broker/subject_pattern.go] and the topic listing of
    [service_api.go]: subjects are dot-separated tokens, in a pattern [*]
    stands for one token and [>] at the end for one or more. *)

From stdpp Require Import prelude gmap strings sorting list.
From S2P Require Import Prelude Model MemoryStore Queue Idempotency GoStrings Governance.

#[local] Open Scope Z_scope.

Definition subjectTokenSeparator : Ascii.ascii := ch 46.

Definition subjectTokens (subject : string) : result BrokerError (list string) :=
  let subject := TrimSpace subject in
  if decide (subject = "") then Err (StoreError CodeInvalidArgument)
  else
    let tokens := SplitChar subject subjectTokenSeparator in
    if decide ("" ∈ tokens) then Err (StoreError CodeInvalidArgument) else Ok tokens.

(** The loop over the tokens; [last] tells whether a token is the last one. *)
Fixpoint checkPatternTokens (tokens : list string) : result BrokerError unit :=
  match tokens with
  | [] => Ok tt
  | token :: rest =>
      if decide (token = ">" /\ rest <> []) then Err (StoreError CodeInvalidArgument)
      else if decide (token = "*" \/ token = ">") then checkPatternTokens rest
      else if ContainsChar token (ch 42) || ContainsChar token (ch 62) then Err (StoreError CodeInvalidArgument)
      else checkPatternTokens rest
  end.

Definition subjectPatternTokens (pattern : string) : result BrokerError (list string) :=
  tokens ← subjectTokens pattern;
  _ ← checkPatternTokens tokens;
  Ok tokens.

(** The two indexes of the loop advance together. *)
Fixpoint matchSubjectTokens (pattern subject : list string) : bool :=
  match pattern with
  | [] => bool_decide (subject = [])
  | token :: pattern =>
      if decide (token = ">") then bool_decide (subject <> [])
      else
        match subject with
        | [] => false
        | s :: subject =>
            if decide (token <> "*" /\ token <> s) then false else matchSubjectTokens pattern subject
        end
  end.

Definition SubjectPatternMatches (pattern subject : string) : result BrokerError bool :=
  patternTokens ← subjectPatternTokens pattern;
  subjectTokens ← subjectTokens subject;
  Ok (matchSubjectTokens patternTokens subjectTokens).

(** Of an authenticated identity. *)
Definition ListTopicsFor `{MapRange} (s : MemoryStore) (identity : Identity) : result BrokerError (list TopicConfig) :=
  _ ← authorize s identity "describe"
        (mkACLResource "namespace" (id_Tenant identity) (id_Namespace identity) (id_Namespace identity));
  topics ← of_store (ListTopics s);
  let mine := filter (fun topic => nameInScope identity "topic" (tc_Name topic) &&
    negb (isInternalTopicName (visibleName identity "topic" (tc_Name topic))) = true) (topics : list TopicConfig) in
  Ok (visibleTopicConfig identity <$> mine).

Definition ListTopicsByPatternFor `{MapRange} (s : MemoryStore) (identity : Identity) (pattern : string)
    : result BrokerError (list TopicConfig) :=
  let pattern := TrimSpace pattern in
  topics ← ListTopicsFor s identity;
  if decide (pattern = "") then Ok topics
  else
    tokens ← subjectPatternTokens pattern;
    Ok (filter (fun topic => match subjectTokens (tc_Name topic) with
                             | Err _ => false
                             | Ok subject => matchSubjectTokens tokens subject
                             end = true) topics).

(** * Subject patterns: the match is the meaning of the tokens *)

(** ** The meaning of a pattern *)

Inductive matches : list string -> list string -> Prop :=
| match_end : matches [] []
| match_rest s ss : matches [">"] (s :: ss)
| match_any p s ss : matches p ss -> matches ("*" :: p) (s :: ss)
| match_token t p ss : t <> "*" -> t <> ">" -> matches p ss -> matches (t :: p) (t :: ss).

(** [ts] are the tokens of [s]. *)
Definition tokens_of (s : string) (ts : list string) : Prop :=
  TrimSpace s = JoinChar ts subjectTokenSeparator /\ ts <> [] /\
  Forall (fun t => t <> "" /\ subjectTokenSeparator ∉ chars t) ts.

(** Wildcards are whole tokens, and [>] is the last one. *)
Definition well_formed (p : list string) : Prop :=
  Forall (fun t => t = "*" \/ t = ">" \/ (ch 42 ∉ chars t) /\ (ch 62 ∉ chars t)) p /\
  forall p1 t p2, p = p1 ++ t :: p2 -> t = ">" -> p2 = [].

Lemma map_text_chars (ts : list string) : (text <$> (String.list_ascii_of_string <$> ts)) = ts.
Proof. induction ts as [|t ts IH]; [done|]. rewrite !fmap_cons, IH. by rewrite text_chars. Qed.

Lemma SplitChar_Join s ts : ts <> [] -> Forall (fun t => subjectTokenSeparator ∉ chars t) ts ->
  s = JoinChar ts subjectTokenSeparator -> SplitChar s subjectTokenSeparator = ts.
Proof.
  intros Hne Hall ->. unfold SplitChar, JoinChar. rewrite chars_text, split_join; [apply map_text_chars| |].
  - intros E. by apply fmap_nil_inv in E.
  - by apply Forall_fmap.
Qed.

Lemma Join_SplitChar s : JoinChar (SplitChar s subjectTokenSeparator) subjectTokenSeparator = s.
Proof.
  unfold SplitChar, JoinChar.
  assert (String.list_ascii_of_string <$> (text <$> splitChars subjectTokenSeparator (chars s)) = splitChars subjectTokenSeparator (chars s)) as ->.
  { rewrite <- list_fmap_compose. etrans; [|apply list_fmap_id]. apply list_fmap_ext. intros i x _. cbn. by rewrite chars_text. }
  by rewrite join_split, text_chars.
Qed.

Lemma subjectTokens_spec s ts : subjectTokens s = Ok ts <-> tokens_of s ts.
Proof.
  unfold subjectTokens, tokens_of. cbn zeta. split.
  - destruct (decide (TrimSpace s = "")); [done|]. destruct (decide _) as [|Hne]; [done|]. intros [= <-].
    split; [by rewrite Join_SplitChar|]. split.
    + intros E. unfold SplitChar in E. apply fmap_nil_inv in E. by apply splitChars_ne in E.
    + apply Forall_forall. intros t Ht. split; [by intros ->|]. unfold SplitChar in Ht.
      apply list_elem_of_fmap in Ht as (l & -> & Hl). rewrite chars_text.
      by apply (proj1 (Forall_forall _ _) (split_sepless subjectTokenSeparator (chars (TrimSpace s)))) in Hl.
  - intros (Ej & Hne & Hall).
    assert (SplitChar (TrimSpace s) subjectTokenSeparator = ts) as Es.
    { apply SplitChar_Join; [done| |done]. eapply Forall_impl; [exact Hall|]. by intros t [_ ?]. }
    rewrite Es, decide_False.
    + rewrite decide_False; [done|]. intros Hin. apply (proj1 (Forall_forall _ _) Hall) in Hin as [? _]. done.
    + intros E. rewrite E in Es. unfold SplitChar in Es. cbn in Es. subst ts. apply Forall_cons in Hall as [[? _] _]. done.
Qed.

Lemma checkPatternTokens_spec p : checkPatternTokens p = Ok tt <-> well_formed p.
Proof.
  induction p as [|t p IH]; cbn [checkPatternTokens].
  - split; [|done]. intros _. split; [done|]. by intros [] ? ?.
  - assert (well_formed (t :: p) <-> (t = "*" \/ t = ">" \/ (ch 42 ∉ chars t) /\ (ch 62 ∉ chars t)) /\ (t = ">" -> p = []) /\ well_formed p) as ->.
    { unfold well_formed. rewrite Forall_cons. split.
      - intros [[Ht Hp] Hl]. split_and!; [done|intros E; by apply (Hl [] t p)|done|]. intros p1 t' p2 -> E. by apply (Hl (t :: p1) t' p2).
      - intros (Ht & Hl & Hp & Hl'). split; [done|]. intros [|x p1] t' p2; [by intros [= <- <-]|]. intros [= <- ->] E. by apply (Hl' p1 t' p2). }
    destruct (decide (t = ">" /\ p <> [])) as [[-> Hne]|Hlast].
    { split; [done|]. intros (_ & Hl & _). by specialize (Hl eq_refl). }
    assert (t = ">" -> p = []) as Hl by (intros ->; destruct p; [done|]; exfalso; by apply Hlast).
    destruct (decide (t = "*" \/ t = ">")) as [Hw|Hw]; [rewrite IH; tauto|]. unfold ContainsChar.
    destruct (bool_decide_reflect (ch 42 ∈ chars t)) as [H1|H1]; cbn [orb].
    { split; [done|]. intros [[?|[?|[? _]]] _]; tauto. }
    destruct (bool_decide_reflect (ch 62 ∈ chars t)) as [H2|H2]; [|rewrite IH; tauto].
    split; [done|]. intros [[?|[?|[_ ?]]] _]; tauto.
Qed.

Lemma matchSubjectTokens_spec p ss : well_formed p -> matchSubjectTokens p ss = true <-> matches p ss.
Proof.
  revert ss. induction p as [|t p IH]; intros ss Hw; cbn [matchSubjectTokens].
  - rewrite bool_decide_eq_true. split; [intros ->; constructor|by inversion 1].
  - assert (well_formed p) as Hp.
    { destruct Hw as [Hall Hl]. apply Forall_cons in Hall as [_ Hall]. split; [done|]. intros p1 t' p2 -> E. by apply (Hl (t :: p1) t' p2). }
    destruct (decide (t = ">")) as [->|Hne].
    + assert (p = []) as -> by (destruct Hw as [_ Hl]; by apply (Hl [] ">" p)). rewrite bool_decide_eq_true.
      split; [destruct ss; [done|]; intros _; constructor|by inversion 1].
    + destruct ss as [|s ss]; [split; [done|by inversion 1]|].
      destruct (decide (t <> "*" /\ t <> s)) as [[H1 H2]|Hm].
      * split; [done|]. inversion 1; subst; congruence.
      * rewrite (IH ss Hp). split.
        -- intros Hps. destruct (decide (t = "*")) as [->|Hs]; [by constructor|].
           destruct (decide (t = s)) as [->|]; [by constructor|]. exfalso. by apply Hm.
        -- inversion 1; subst; done.
Qed.

(** Subject patterns mean what their tokens say.  For a pattern and a
    subject with non-empty dot-separated tokens, wildcards on whole tokens and
    [>] at the end only, the match is the relation [matches]; anything else is
    an error. *)
Theorem subject_pattern_spec pattern subject b :
  SubjectPatternMatches pattern subject = Ok b <->
  exists p ss, tokens_of pattern p /\ well_formed p /\ tokens_of subject ss /\ (b = true <-> matches p ss).
Proof.
  unfold SubjectPatternMatches, subjectPatternTokens. split.
  - intros (p & Hp & (ss & Hss & [= <-])%bind_ok)%bind_ok. apply bind_ok in Hp as (p' & Hp & ([] & Hw & [= <-])%bind_ok).
    apply subjectTokens_spec in Hp, Hss. apply checkPatternTokens_spec in Hw. exists p', ss. split_and!; try done.
    by rewrite matchSubjectTokens_spec.
  - intros (p & ss & Hp & Hw & Hss & Hb). rewrite (proj2 (subjectTokens_spec _ _) Hp). cbn [mbind result_bind].
    rewrite (proj2 (checkPatternTokens_spec p) Hw). cbn [mbind result_bind].
    rewrite (proj2 (subjectTokens_spec _ _) Hss). cbn [mbind result_bind]. f_equal.
    rewrite <- (matchSubjectTokens_spec p ss Hw) in Hb. destruct b, (matchSubjectTokens p ss); intuition congruence.
Qed.

Example subject_examples :
  (fun s => SubjectPatternMatches "orders.*.>" s) <$> ["orders.eu.new"; "orders.eu"; "orders.eu.new.big"; "orders..x"]
  = [Ok true; Ok false; Ok true; Err (StoreError CodeInvalidArgument)].
Proof. vm_compute. reflexivity. Qed.
