(* ===== verification/Handlers.v ===== *)
(** * Handlers of the broker, and its topics

    The monad the command handlers are written in; creating a topic
    ([applyCreateTopic] of [src/broker/service_apply.go] with the policy
    helpers of [service_helpers.go]) and the auxiliary topics of
    [retry_delay.go].

    The broker has no topic cache and its data shards are local, which have
    nothing to do for a new topic. *)

From stdpp Require Import prelude gmap strings sorting list.
From S2P Require Import Prelude Model MemoryStore MetaStore Queue Idempotency Headers Produce GoStrings Governance.

#[local] Open Scope Z_scope.

(** ** Handlers that read and write the broker and can fail *)

Definition BM (A : Type) : Type := Broker -> Broker * result BrokerError A.

#[export] Instance BM_ret : MRet BM := fun A a b => (b, Ok a).
#[export] Instance BM_bind : MBind BM :=
  fun A B k m b => match m b with (b, Ok a) => k a b | (b, Err e) => (b, Err e) end.

Definition fail {A} (e : BrokerError) : BM A := fun b => (b, Err e).
Definition pure {A} (r : result BrokerError A) : BM A := fun b => (b, r).
Definition reads {A} (f : Broker -> result BrokerError A) : BM A := fun b => (b, f b).

(** A call of the store. *)
Definition calls {A} (f : MemoryStore -> MemoryStore * result Code A) : BM A :=
  fun b => let '(s, r) := f (b_store b) in (set_store s b, of_store r).

(** ** Placements *)

Definition ensureTopicShardPlacements (topic : TopicConfig) : BM unit :=
  fun b => let '(r, s, res) := EnsureTopic (b_shards b) (b_store b) topic in (set_shards r (set_store s b), res).

(** ** Creating topics *)

Definition normalizeTopicPolicies (topic : TopicConfig) : TopicConfig :=
  if decide (tc_Name topic = "") then topic
  else
    let defaults := NewTopicConfig (tc_Name topic) in
    let pick (value base : Z) := if value =? 0 then base else value in
    {| tc_Name := tc_Name topic;
       tc_Partitions := pick (tc_Partitions topic) (tc_Partitions defaults);
       tc_SegmentMaxBytes := pick (tc_SegmentMaxBytes topic) (tc_SegmentMaxBytes defaults);
       tc_IndexIntervalBytes := pick (tc_IndexIntervalBytes topic) (tc_IndexIntervalBytes defaults);
       tc_RetentionMaxBytes := pick (tc_RetentionMaxBytes topic) (tc_RetentionMaxBytes defaults);
       tc_CleanupPolicy := if decide (tc_CleanupPolicy topic = "") then tc_CleanupPolicy defaults else tc_CleanupPolicy topic;
       tc_MaxMessageBytes := pick (tc_MaxMessageBytes topic) (tc_MaxMessageBytes defaults);
       tc_MaxBatchBytes := pick (tc_MaxBatchBytes topic) (tc_MaxBatchBytes defaults);
       tc_RetentionMS := tc_RetentionMS topic;
       tc_RetryPolicy := if trp_MaxAttempts (tc_RetryPolicy topic) =? 0 then tc_RetryPolicy defaults else tc_RetryPolicy topic;
       tc_DeadLetterTopic := tc_DeadLetterTopic topic;
       tc_DelayEnabled := tc_DelayEnabled topic;
       tc_MessageTTLMS := tc_MessageTTLMS topic;
       tc_MessageExpiryAction := tc_MessageExpiryAction topic;
       tc_CompactionEnabled := tc_CompactionEnabled topic;
       tc_CompactionTombstoneRetentionMS := tc_CompactionTombstoneRetentionMS topic;
       tc_OrderingPolicy := tc_OrderingPolicy topic;
       tc_PriorityPolicy := NormalizeTopicPriorityPolicy (tc_PriorityPolicy topic) |}.

Definition validateTopicPolicies (topic : TopicConfig) : result BrokerError unit :=
  if decide (tc_OrderingPolicy topic ∈ [TopicOrderingNone; TopicOrderingPartition; TopicOrderingKey; TopicOrderingRoutingKey])
  then validateTopicPriorityPolicy topic
  else Err (StoreError CodeInvalidArgument).

Definition applyCreateTopic (topic : TopicConfig) : BM TopicConfig :=
  let topic := normalizeTopicPolicies topic in
  _ ← pure (validateTopicPolicies topic);
  if isInternalTopicName (tc_Name topic) then fail (StoreError CodeInvalidArgument)
  else
    _ ← calls (fun s => CreateTopic s topic);
    _ ← ensureTopicShardPlacements topic;
    mret topic.

(** ** Auxiliary topics *)

Definition auxTopicConfig (source : TopicConfig) (auxTopic : string) : TopicConfig :=
  let base := NewTopicConfig auxTopic in
  {| tc_Name := auxTopic;
     tc_Partitions := tc_Partitions source;
     tc_SegmentMaxBytes := tc_SegmentMaxBytes source;
     tc_IndexIntervalBytes := tc_IndexIntervalBytes source;
     tc_RetentionMaxBytes := tc_RetentionMaxBytes source;
     tc_CleanupPolicy := tc_CleanupPolicy base;
     tc_MaxMessageBytes := tc_MaxMessageBytes source;
     tc_MaxBatchBytes := tc_MaxBatchBytes source;
     tc_RetentionMS := tc_RetentionMS source;
     tc_RetryPolicy := tc_RetryPolicy source;
     tc_DeadLetterTopic := tc_DeadLetterTopic source;
     tc_DelayEnabled := tc_DelayEnabled source;
     tc_MessageTTLMS := None;
     tc_MessageExpiryAction := MessageExpiryDelete;
     tc_CompactionEnabled := false;
     tc_CompactionTombstoneRetentionMS := tc_CompactionTombstoneRetentionMS base;
     tc_OrderingPolicy := tc_OrderingPolicy base;
     tc_PriorityPolicy := tc_PriorityPolicy base |}.

(** [queue.CreateTopic] where the topic may exist already. *)
Definition createTopicUnlessExists (topic : TopicConfig) : BM unit :=
  fun b =>
    match calls (fun s => CreateTopic s topic) b with
    | (b, Err (StoreError CodeTopicExists)) => (b, Ok tt)
    | r => r
    end.

Definition ensureAuxTopic (source : TopicConfig) (auxTopic : string) : BM unit :=
  let cfg := auxTopicConfig source auxTopic in
  exists_ ← reads (fun b => of_store (TopicExists (b_store b) auxTopic));
  if (exists_ : bool) then
    _ ← calls (fun s => SaveTopicConfig s cfg);
    ensureTopicShardPlacements cfg
  else
    _ ← createTopicUnlessExists cfg;
    ensureTopicShardPlacements cfg.

(** ** One record *)

Definition readRecordAtOffset (tp : TopicPartition) (offset : Z) : BM Rec :=
  records ← reads (fun b => of_store (ReadFrom (b_store b) tp offset 1));
  match records with
  | record :: _ => if r_Offset record =? offset then mret record else fail (StoreError CodeInvalidArgument)
  | [] => fail (StoreError CodeInvalidArgument)
  end.

Definition cloneAsAppend (record : Rec) : RecordAppend :=
  {| ra_TimestampMS := Some (r_TimestampMS record);
     ra_Key := r_Key record;
     ra_Headers := r_Headers record;
     ra_Attributes := r_Attributes record;
     ra_Transaction := None;
     ra_ExpiresAtMS := r_ExpiresAtMS record;
     ra_Payload := r_Payload record |}.
