(* ===== verification/DeadLetters.v ===== *)
(** * Dead letters

    [src/broker/dlq.go], [dlq_record.go], [dlq_index.go] and
    [dlq_query_index.go]: the records of a dead-letter topic, its index, and
    the queries by index and by scan; the headers of [retry_delay.go]. *)

From stdpp Require Import prelude gmap strings sorting list.
From S2P Require Import Prelude Model MemoryStore MetaStore Queue Idempotency Headers Produce GoStrings Governance Handlers.

#[local] Open Scope Z_scope.

(** ** Headers *)

Definition retryHeaderOriginalTopic : string := "x-retry-original-topic".
Definition retryHeaderOriginalPartition : string := "x-retry-original-partition".
Definition retryHeaderOriginalOffset : string := "x-retry-original-offset".
Definition retryHeaderRetryCount : string := "x-retry-count".
Definition retryHeaderDeliverAtMS : string := "x-retry-deliver-at-ms".
Definition retryHeaderLastError : string := "x-retry-last-error".
Definition retryHeaderFailedConsumer : string := "x-retry-failed-consumer".
Definition delayHeaderDeliverAtMS : string := "x-delay-deliver-at-ms".
Definition delayHeaderTargetTopic : string := "x-delay-target-topic".
Definition delayHeaderTargetPartition : string := "x-delay-target-partition".
Definition dlqHeaderOriginalTopic : string := "x-dlq-original-topic".
Definition dlqHeaderOriginalPartition : string := "x-dlq-original-partition".
Definition dlqHeaderOriginalOffset : string := "x-dlq-original-offset".
Definition dlqHeaderRetryCount : string := "x-dlq-retry-count".
Definition dlqHeaderErrorCode : string := "x-dlq-error-code".
Definition dlqHeaderErrorMessage : string := "x-dlq-error-message".
Definition dlqErrorCodeRetryExhausted : string := "retry_exhausted".
Definition dlqErrorCodeMessageExpired : string := "message_expired".
Definition dlqErrorCodePoisonMessage : string := "poison_message".

Definition internalDLQAndRetryHeaders : list string :=
  [retryHeaderOriginalTopic; retryHeaderOriginalPartition; retryHeaderOriginalOffset; retryHeaderRetryCount;
   retryHeaderDeliverAtMS; retryHeaderLastError; retryHeaderFailedConsumer; dlqHeaderOriginalTopic;
   dlqHeaderOriginalPartition; dlqHeaderOriginalOffset; dlqHeaderRetryCount; dlqHeaderErrorCode; dlqHeaderErrorMessage].

Definition valueOr (value fallback : string) : string := if decide (value = "") then fallback else value.
Definition stringValue (value : option string) (fallback : string) : string :=
  match value with None => fallback | Some value => valueOr value fallback end.

(** ** Records *)

Record DLQRecord := mkDLQRecord {
  dr_DLQTopic : string;
  dr_DLQPartition : Z;
  dr_DLQOffset : Z;
  dr_DLQNextOffset : Z;
  dr_TimestampMS : Z;
  dr_Key : bytes;
  dr_Headers : list RecordHeader;
  dr_Payload : bytes;
  dr_OriginalTopic : string;
  dr_OriginalPartition : Z;
  dr_OriginalOffset : Z;
  dr_RetryCount : Z;
  dr_ErrorCode : string;
  dr_ErrorMessage : string
}.

Definition dlqRecordFromStore (dlqTopic : string) (partition : Z) (record : Rec) : result BrokerError DLQRecord :=
  originalPartition ← requiredHeaderUint32 (r_Headers record) dlqHeaderOriginalPartition;
  originalOffset ← requiredHeaderUint64 (r_Headers record) dlqHeaderOriginalOffset;
  retryCount ← requiredHeaderUint32 (r_Headers record) dlqHeaderRetryCount;
  Ok {| dr_DLQTopic := dlqTopic; dr_DLQPartition := partition; dr_DLQOffset := r_Offset record;
        dr_DLQNextOffset := u64 (r_Offset record + 1); dr_TimestampMS := r_TimestampMS record; dr_Key := r_Key record;
        dr_Headers := r_Headers record; dr_Payload := r_Payload record;
        dr_OriginalTopic := headerString (r_Headers record) dlqHeaderOriginalTopic;
        dr_OriginalPartition := originalPartition; dr_OriginalOffset := originalOffset; dr_RetryCount := retryCount;
        dr_ErrorCode := headerString (r_Headers record) dlqHeaderErrorCode;
        dr_ErrorMessage := headerString (r_Headers record) dlqHeaderErrorMessage |}.

Definition dlqReplayAppend (record : Rec) : RecordAppend :=
  {| ra_TimestampMS := Some (r_TimestampMS record); ra_Key := r_Key record;
     ra_Headers := removeHeaders (r_Headers record) internalDLQAndRetryHeaders;
     ra_Attributes := r_Attributes record; ra_Transaction := None; ra_ExpiresAtMS := None; ra_Payload := r_Payload record |}.

(** ** The index *)

Definition dlqIndexEntryFromStore (dlqTopic : string) (partition : Z) (record : Rec) : result BrokerError DLQIndexEntry :=
  dlqRecord ← dlqRecordFromStore dlqTopic partition record;
  Ok {| dlq_DLQTopic := dlqTopic; dlq_DLQPartition := partition; dlq_DLQOffset := r_Offset record;
        dlq_TimestampMS := r_TimestampMS record; dlq_OriginalTopic := dr_OriginalTopic dlqRecord;
        dlq_OriginalPartition := dr_OriginalPartition dlqRecord; dlq_OriginalOffset := dr_OriginalOffset dlqRecord;
        dlq_ErrorCode := dr_ErrorCode dlqRecord; dlq_RetryCount := dr_RetryCount dlqRecord |}.

Definition saveDLQIndexFromRecord (dlqTopic : string) (partition : Z) (record : Rec) : BM unit :=
  entry ← pure (dlqIndexEntryFromStore dlqTopic partition record);
  calls (fun s => SaveDLQIndex s entry).

(** ** Queries *)

Record DLQHeaderFilter := mkDLQHeaderFilter { dhf_Key : string; dhf_Value : option string }.

Record DLQQuery := mkDLQQuery {
  dq_SourceTopic : string;
  dq_Partition : Z;
  dq_Offset : Z;
  dq_MaxRecords : Z;
  dq_FromTimestampMS : option Z;
  dq_ToTimestampMS : option Z;
  dq_OriginalPartition : option Z;
  dq_OriginalOffset : option Z;
  dq_ErrorCode : string;
  dq_ErrorMessageContains : string;
  dq_RetryCount : option Z;
  dq_Headers : list DLQHeaderFilter
}.

Record DLQQueryResult := mkDLQQueryResult {
  dqr_DLQTopic : string;
  dqr_Partition : Z;
  dqr_Offset : Z;
  dqr_NextOffset : Z;
  dqr_HasMore : bool;
  dqr_HighWatermark : option Z;
  dqr_Records : list DLQRecord
}.

Definition dlqTimestampMatches (query : DLQQuery) (record : DLQRecord) : bool :=
  match dq_FromTimestampMS query with Some from => from <=? dr_TimestampMS record | None => true end &&
  match dq_ToTimestampMS query with Some to => dr_TimestampMS record <=? to | None => true end.

Definition dlqOriginMatches (query : DLQQuery) (record : DLQRecord) : bool :=
  match dq_OriginalPartition query with Some p => dr_OriginalPartition record =? p | None => true end &&
  match dq_OriginalOffset query with Some o => dr_OriginalOffset record =? o | None => true end.

Definition dlqErrorMatches (query : DLQQuery) (record : DLQRecord) : bool :=
  (bool_decide (dq_ErrorCode query = "") || bool_decide (dr_ErrorCode record = dq_ErrorCode query)) &&
  match dq_RetryCount query with Some n => dr_RetryCount record =? n | None => true end &&
  (bool_decide (dq_ErrorMessageContains query = "") || Contains (dr_ErrorMessage record) (dq_ErrorMessageContains query)).

(** The first header with the key decides. *)
Fixpoint dlqHeaderMatches (filter : DLQHeaderFilter) (headers : list RecordHeader) : bool :=
  match headers with
  | [] => false
  | header :: headers =>
      if decide (rh_Key header = dhf_Key filter) then
        match dhf_Value filter with None => true | Some value => bool_decide (BytesString (rh_Value header) = value) end
      else dlqHeaderMatches filter headers
  end.

Fixpoint dlqHeadersMatch (filters : list DLQHeaderFilter) (headers : list RecordHeader) : bool :=
  match filters with
  | [] => true
  | filter :: filters =>
      (bool_decide (dhf_Key filter = "") || dlqHeaderMatches filter headers) && dlqHeadersMatch filters headers
  end.

Definition dlqRecordMatches (query : DLQQuery) (record : DLQRecord) : bool :=
  dlqTimestampMatches query record && dlqOriginMatches query record && dlqErrorMatches query record &&
  dlqHeadersMatch (dq_Headers query) (dr_Headers record).

Definition dlqHasMore (nextOffset : Z) (highWatermark : option Z) : bool :=
  match highWatermark with Some high => nextOffset <=? high | None => false end.

Definition dlqIndexFilter (dlqTopic scopedSource : string) (query : DLQQuery) (start : Z) : DLQIndexFilter :=
  {| dlf_DLQTopic := dlqTopic; dlf_DLQPartition := Some (dq_Partition query); dlf_MinDLQOffset := Some start;
     dlf_MaxDLQOffset := None; dlf_FromTimestampMS := dq_FromTimestampMS query; dlf_ToTimestampMS := dq_ToTimestampMS query;
     dlf_OriginalTopic := Some scopedSource; dlf_OriginalPartition := dq_OriginalPartition query;
     dlf_OriginalOffset := dq_OriginalOffset query; dlf_ErrorCode := dq_ErrorCode query; dlf_RetryCount := dq_RetryCount query |}.

(** [room] is how many more records are wanted; the records come with the
    offset behind the last one looked at. *)
Fixpoint appendIndexedDLQRecords (tp : TopicPartition) (query : DLQQuery) (room : nat) (nextOffset : Z)
    (indexes : list DLQIndexEntry) : BM (list DLQRecord * Z) :=
  match indexes with
  | [] => mret ([], nextOffset)
  | entry :: indexes =>
      let nextOffset := u64 (dlq_DLQOffset entry + 1) in
      record ← readRecordAtOffset tp (dlq_DLQOffset entry);
      dlqRecord ← pure (dlqRecordFromStore (tp_Topic tp) (tp_Partition tp) record);
      let found := if dlqRecordMatches query dlqRecord then [dlqRecord] else [] in
      match (room - length found)%nat with
      | O => mret (found, nextOffset)
      | room => '(rest, nextOffset) ← appendIndexedDLQRecords tp query room nextOffset indexes; mret (found ++ rest, nextOffset)
      end
  end.

Definition queryDLQByIndex `{MapRange} (tp : TopicPartition) (scopedSource : string) (query : DLQQuery) (limit : Z)
    (offsets : PartitionOffsetState) : BM (option DLQQueryResult) :=
  let start := Z.max (dq_Offset query) (pos_LogStartOffset offsets) in
  indexes ← reads (fun b => of_store (ListDLQIndexes (b_store b) (dlqIndexFilter (tp_Topic tp) scopedSource query start)));
  match indexes with
  | [] => mret None
  | _ =>
      '(records, nextOffset) ← appendIndexedDLQRecords tp query (Z.to_nat limit) (dq_Offset query) indexes;
      mret (Some (mkDLQQueryResult (tp_Topic tp) (tp_Partition tp) start nextOffset (dlqHasMore nextOffset (pos_HighWatermark offsets))
                    (pos_HighWatermark offsets) records))
  end.

(** The matches in a batch, the offset behind it and whether the result is
    full. *)
Fixpoint appendMatchingDLQRecords (tp : TopicPartition) (query : DLQQuery) (room : nat) (nextOffset : Z) (batch : list Rec)
    : result BrokerError (list DLQRecord * Z * bool) :=
  match batch with
  | [] => Ok ([], nextOffset, false)
  | record :: batch =>
      let nextOffset := u64 (r_Offset record + 1) in
      dlqRecord ← dlqRecordFromStore (tp_Topic tp) (tp_Partition tp) record;
      let found := if dlqRecordMatches query dlqRecord then [dlqRecord] else [] in
      match (room - length found)%nat with
      | O => Ok (found, nextOffset, true)
      | room => '(rest, nextOffset, full) ← appendMatchingDLQRecords tp query room nextOffset batch; Ok (found ++ rest, nextOffset, full)
      end
  end.

Definition scanNextDLQBatch (b : Broker) (tp : TopicPartition) (query : DLQQuery) (room : nat) (offset : Z)
    : result BrokerError (list DLQRecord * Z * bool) :=
  batch ← of_store (ReadFrom (b_store b) tp offset (b_MaxFetchRecords b));
  match (batch : list Rec) with
  | [] => Ok ([], offset, true)
  | first :: _ =>
      '(records, next, full) ← appendMatchingDLQRecords tp query room (r_Offset first) batch;
      Ok (records, next, full || (len batch <? b_MaxFetchRecords b))
  end.

(** Every turn that does not stop has read a batch of the partition, so as
    many turns as the partition has records are enough. *)
Fixpoint scanLoop (fuel : nat) (b : Broker) (tp : TopicPartition) (query : DLQQuery) (room : nat) (highWatermark : option Z)
    (nextOffset : Z) : result BrokerError (list DLQRecord * Z) :=
  match fuel with
  | O => Err (BrokerFailure "fuel")
  | S fuel =>
      match room with
      | O => Ok ([], nextOffset)
      | _ =>
          if negb (dlqHasMore nextOffset highWatermark) then Ok ([], nextOffset)
          else
            '(records, next, stop) ← scanNextDLQBatch b tp query room nextOffset;
            if (stop : bool) then Ok (records, next)
            else '(rest, next) ← scanLoop fuel b tp query (room - length records) highWatermark next; Ok (records ++ rest, next)
      end
  end.

Definition scanDLQRecords (b : Broker) (tp : TopicPartition) (query : DLQQuery) (limit : Z) (offsets : PartitionOffsetState)
    : result BrokerError DLQQueryResult :=
  let start := Z.max (dq_Offset query) (pos_LogStartOffset offsets) in
  '(records, nextOffset) ← scanLoop (S (length (recordsOf (b_store b) tp))) b tp query (Z.to_nat limit) (pos_HighWatermark offsets) start;
  Ok (mkDLQQueryResult (tp_Topic tp) (tp_Partition tp) start nextOffset (dlqHasMore nextOffset (pos_HighWatermark offsets))
        (pos_HighWatermark offsets) records).

Definition queryDLQScoped `{MapRange} (dlqTopic scopedSource : string) (query : DLQQuery) (limit : Z) : BM DLQQueryResult :=
  let tp := NewTopicPartition dlqTopic (dq_Partition query) in
  exists_ ← reads (fun b => of_store (TopicExists (b_store b) dlqTopic));
  if negb (exists_ : bool) then
    mret (mkDLQQueryResult dlqTopic (dq_Partition query) (dq_Offset query) (dq_Offset query) false None [])
  else
    offsets ← reads (fun b => of_store (PartitionOffsets (b_store b) tp));
    indexed ← queryDLQByIndex tp scopedSource query limit offsets;
    match indexed with
    | Some result => mret result
    | None => reads (fun b => scanDLQRecords b tp query limit offsets)
    end.

(** The dead-letter topic of a topic. *)
Definition deadLetterTopicOf (topic : TopicConfig) (source : string) : string :=
  match tc_DeadLetterTopic topic with
  | Some dead => if decide (dead = "") then dlqTopicName source else dead
  | None => dlqTopicName source
  end.

Definition dlqTopicForSource (b : Broker) (scopedSourceTopic : string) : result BrokerError string :=
  sourceTopic ← loadTopicConfig b scopedSourceTopic;
  Ok (deadLetterTopicOf sourceTopic scopedSourceTopic).
