(* ===== verification/Redelivery.v ===== *)
(** * Redelivery: retries, delays, expired and poisonous messages

    [src/broker/retry.go], [retry_apply.go], [retry_helpers.go], [delay.go],
    [message_expiry.go] and the isolation of [poison.go].

    Every command is one step of the broker.  [now i] is what the [i]-th call
    of [NowMS] in a handler returns; [stamp] is the time of the store while a
    record without a timestamp is appended.  A failing handler keeps what it
    has written before the failure. *)

From stdpp Require Import prelude gmap strings sorting list.
From S2P Require Import Prelude Model MemoryStore MetaStore Queue Idempotency Headers Produce GoStrings Governance Handlers.
From S2P Require Import DeadLetters Cleanup.

#[local] Open Scope Z_scope.

(** ** Backoff *)

(** [github.com/cenkalti/backoff/v5]: what the calls of [NextBackOff] return on
    a new exponential backoff with multiplier 2, from its initial interval,
    randomization factor and largest interval. *)
Class BackOff := { NextBackOff : Z -> Z -> Z -> nat -> Z }.

Definition maxDuration : Z := 2 ^ 63 - 1.
Definition Millisecond : Z := 1000000.

Definition boundedDuration (value unit_ : Z) : Z :=
  let maxValue := maxDuration / unit_ in
  if maxValue <? value then maxDuration else value * unit_.

(** On the bits of a double: negative and not zero becomes [0], more than one
    becomes [1]; a NaN stays. *)
Definition boundedJitterFactor (bits : Z) : Z :=
  if (2 ^ 63 <? bits) && (bits <=? 0xFFF0000000000000) then 0
  else if (0x3FF0000000000000 <? bits) && (bits <=? 0x7FF0000000000000) then 0x3FF0000000000000
  else bits.

(** The waiting times of [newRetryBackOff]. *)
Definition newRetryBackOff `{BackOff} (initialMS maxMS jitterFactor : Z) : nat -> Z :=
  NextBackOff (boundedDuration initialMS Millisecond) (boundedJitterFactor jitterFactor) (boundedDuration maxMS Millisecond).

Definition retryBackoffDuration `{BackOff} (retryCount : Z) (policy : TopicRetryPolicy) : Z :=
  let policy := if trp_BackoffInitialMS policy =? 0 then DefaultTopicRetryPolicy else policy in
  let maxDelay := if trp_BackoffMaxMS policy =? 0 then trp_BackoffInitialMS policy else trp_BackoffMaxMS policy in
  newRetryBackOff (trp_BackoffInitialMS policy) maxDelay (trp_BackoffJitterFactor policy) (Z.to_nat (retryCount - 1)).

Definition durationMillis (duration : Z) : Z :=
  let millis := Z.quot duration Millisecond in if millis <=? 0 then 1 else millis.

Definition retryBackoffMS `{BackOff} (retryCount : Z) (policy : TopicRetryPolicy) : Z :=
  durationMillis (retryBackoffDuration retryCount policy).

(** ** Origins *)

Record retryOrigin := mkRetryOrigin { ro_Topic : string; ro_Partition : Z; ro_Offset : Z; ro_RetryCount : Z }.

Definition retryOriginFromRecord (record : Rec) (topic : string) (partition : Z) : result BrokerError retryOrigin :=
  originalPartition ← headerUint32 (r_Headers record) retryHeaderOriginalPartition;
  originalOffset ← headerUint64 (r_Headers record) retryHeaderOriginalOffset;
  retryCount ← headerUint32 (r_Headers record) retryHeaderRetryCount;
  Ok (mkRetryOrigin (valueOr (headerString (r_Headers record) retryHeaderOriginalTopic) topic)
        (default partition originalPartition) (default (r_Offset record) originalOffset) (default 0 retryCount)).

(** ** Nack *)

Record nackCommand := mkNackCommand {
  nc_Consumer : string;
  nc_Topic : string;
  nc_Partition : Z;
  nc_Offset : Z;
  nc_LastError : option string
}.

Record RetryResult := mkRetryResult {
  rr_RetryTopic : string;
  rr_RetryPartition : Z;
  rr_RetryOffset : Z;
  rr_RetryNextOffset : Z;
  rr_RetryCount : Z;
  rr_DeliverAtMS : Z
}.

Definition retryRecordAppend (req : nackCommand) (sourceRecord : Rec) (origin : retryOrigin) (nextRetryCount deliverAtMS : Z)
    : RecordAppend :=
  let h := r_Headers sourceRecord in
  let h := upsertHeader h retryHeaderOriginalTopic (ro_Topic origin) in
  let h := upsertHeader h retryHeaderOriginalPartition (fmt_d (ro_Partition origin)) in
  let h := upsertHeader h retryHeaderOriginalOffset (fmt_d (ro_Offset origin)) in
  let h := upsertHeader h retryHeaderRetryCount (fmt_d nextRetryCount) in
  let h := upsertHeader h retryHeaderDeliverAtMS (fmt_d deliverAtMS) in
  let h := upsertHeader h retryHeaderLastError (stringValue (nc_LastError req) "unknown") in
  let h := upsertHeader h retryHeaderFailedConsumer (nc_Consumer req) in
  set_Headers h (cloneAsAppend sourceRecord).

Definition publishRetryRecord `{BackOff} (now stamp : Z) (req : nackCommand) (sourceRecord : Rec) (origin : retryOrigin)
    (sourceTopic : TopicConfig) (retryTopic : string) : BM RetryResult :=
  let nextRetryCount := u32 (ro_RetryCount origin + 1) in
  let deliverAtMS := u64 (now + retryBackoffMS nextRetryCount (tc_RetryPolicy sourceTopic)) in
  appended ← calls (fun s => PublishRecord stamp s retryTopic (ro_Partition origin)
                               (retryRecordAppend req sourceRecord origin nextRetryCount deliverAtMS));
  mret (mkRetryResult retryTopic (ro_Partition origin) (r_Offset appended) (u64 (r_Offset appended + 1)) nextRetryCount deliverAtMS).

Definition applyNack `{BackOff} (now stamp : Z) (req : nackCommand) : BM RetryResult :=
  if decide (nc_Consumer req = "") then fail (StoreError CodeInvalidArgument)
  else
    sourceRecord ← readRecordAtOffset (NewTopicPartition (nc_Topic req) (nc_Partition req)) (nc_Offset req);
    origin ← pure (retryOriginFromRecord sourceRecord (nc_Topic req) (nc_Partition req));
    sourceTopic ← reads (fun b => loadTopicConfig b (ro_Topic origin));
    let retryTopic := retryTopicName (ro_Topic origin) in
    _ ← ensureAuxTopic sourceTopic retryTopic;
    publishRetryRecord now stamp req sourceRecord origin sourceTopic retryTopic.

(** ** Moving retry records *)

Definition dlqHeaders (headers : list RecordHeader) (topic : string) (partition offset retryCount : Z) (code message : string)
    : list RecordHeader :=
  let h := upsertHeader headers dlqHeaderOriginalTopic topic in
  let h := upsertHeader h dlqHeaderOriginalPartition (fmt_d partition) in
  let h := upsertHeader h dlqHeaderOriginalOffset (fmt_d offset) in
  let h := upsertHeader h dlqHeaderRetryCount (fmt_d retryCount) in
  let h := upsertHeader h dlqHeaderErrorCode code in
  upsertHeader h dlqHeaderErrorMessage message.

Definition dlqAppend (record : Rec) (headers : list RecordHeader) : RecordAppend :=
  {| ra_TimestampMS := Some (r_TimestampMS record); ra_Key := r_Key record; ra_Headers := headers;
     ra_Attributes := r_Attributes record; ra_Transaction := None; ra_ExpiresAtMS := None; ra_Payload := r_Payload record |}.

Definition buildDLQAppend (retryRecord : Rec) (origin : retryOrigin) : RecordAppend :=
  let errorMessage := valueOr (headerString (r_Headers retryRecord) retryHeaderLastError) "unknown" in
  dlqAppend retryRecord
    (dlqHeaders (removeHeaders (r_Headers retryRecord) [retryHeaderDeliverAtMS]) (ro_Topic origin) (ro_Partition origin)
       (ro_Offset origin) (ro_RetryCount origin) dlqErrorCodeRetryExhausted errorMessage).

(** Whether the record was dead-lettered. *)
Definition moveRetryRecord (stamp : Z) (retryRecord : Rec) (origin : retryOrigin) (originTopic : TopicConfig) : BM bool :=
  if ro_RetryCount origin <? trp_MaxAttempts (tc_RetryPolicy originTopic) then
    normalized ← pure (normalizeRecordsPriority originTopic [cloneAsAppend retryRecord]);
    match normalized with
    | record :: _ => _ ← calls (fun s => PublishRecord stamp s (ro_Topic origin) (ro_Partition origin) record); mret false
    | [] => fail (BrokerFailure "panic")
    end
  else
    let deadLetterTopic := deadLetterTopicOf originTopic (ro_Topic origin) in
    _ ← ensureAuxTopic originTopic deadLetterTopic;
    appended ← calls (fun s => PublishRecord stamp s deadLetterTopic (ro_Partition origin) (buildDLQAppend retryRecord origin));
    _ ← saveDLQIndexFromRecord deadLetterTopic (ro_Partition origin) appended;
    mret true.

Definition processDueRetryRecord (stamp : Z) (retryRecord : Rec) (sourceTopic : string) (partition : Z) : BM bool :=
  origin ← pure (retryOriginFromRecord retryRecord sourceTopic partition);
  originTopic ← reads (fun b => loadTopicConfig b (ro_Topic origin));
  moveRetryRecord stamp retryRecord origin originTopic.

Definition retryRecordReady (retryRecord : Rec) (nowMS : Z) : result BrokerError bool :=
  deliverAt ← headerUint64 (r_Headers retryRecord) retryHeaderDeliverAtMS;
  Ok (match deliverAt with None => true | Some deliverAt => deliverAt <=? nowMS end).

Record processRetryCommand := mkProcessRetryCommand {
  pc_Consumer : string;
  pc_SourceTopic : string;
  pc_Partition : Z;
  pc_MaxRecords : Z;
  pc_NowMS : Z
}.

Record ProcessRetryResult := mkProcessRetryResult {
  prr_RetryTopic : string;
  prr_Partition : Z;
  prr_MovedToOrigin : Z;
  prr_MovedToDeadLetter : Z;
  prr_CommittedNextOffset : option Z
}.

(** How many went to the origin and to the dead letters, and the offset
    behind the last one. *)
Fixpoint processFetchedRetryRecords (stamps : nat -> Z) (nowMS : Z) (sourceTopic : string) (partition : Z)
    (toOrigin toDeadLetter : Z) (lastProcessed : option Z) (records : list Rec) : BM (Z * Z * option Z) :=
  match records with
  | [] => mret (toOrigin, toDeadLetter, lastProcessed)
  | record :: records =>
      ready ← pure (retryRecordReady record nowMS);
      if negb (ready : bool) then mret (toOrigin, toDeadLetter, lastProcessed)
      else
        deadLettered ← processDueRetryRecord (stamps O) record sourceTopic partition;
        let '(toOrigin, toDeadLetter) :=
          if (deadLettered : bool) then (toOrigin, toDeadLetter + 1) else (toOrigin + 1, toDeadLetter) in
        processFetchedRetryRecords (fun i => stamps (S i)) nowMS sourceTopic partition toOrigin toDeadLetter
          (Some (u64 (r_Offset record + 1))) records
  end.

Definition processRetryNowMS (now nowMS : Z) : Z := if nowMS =? 0 then now else nowMS.

Definition processRetryMaxRecords (b : Broker) (maxRecords : Z) : Z :=
  if maxRecords <=? 0 then cfg_RetryWorkerMaxRecords (b_cfg b) else maxRecords.

Definition fetchRetryRecords (req : processRetryCommand) (retryTopic : string) : BM (list Rec) :=
  reads (fun b =>
    poll ← of_store (Fetch (b_store b) (pc_Consumer req) retryTopic (pc_Partition req) None (processRetryMaxRecords b (pc_MaxRecords req)));
    Ok (pr_Records poll)).

(** [now 0] while the records are moved, [now 1] at the acknowledgement. *)
Definition applyProcessRetryBatch (now stamps : nat -> Z) (req : processRetryCommand) : BM ProcessRetryResult :=
  if decide (pc_Consumer req = "") then fail (StoreError CodeInvalidArgument)
  else
    let retryTopic := retryTopicName (pc_SourceTopic req) in
    records ← fetchRetryRecords req retryTopic;
    '(toOrigin, toDeadLetter, lastProcessed) ←
      processFetchedRetryRecords stamps (processRetryNowMS (now 0%nat) (pc_NowMS req)) (pc_SourceTopic req) (pc_Partition req) 0 0 None records;
    match lastProcessed with
    | None => mret (mkProcessRetryResult retryTopic (pc_Partition req) toOrigin toDeadLetter None)
    | Some next =>
        _ ← calls (fun s => Ack (now 1%nat) s (pc_Consumer req) retryTopic (pc_Partition req) next);
        mret (mkProcessRetryResult retryTopic (pc_Partition req) toOrigin toDeadLetter (Some next))
    end.

(** ** Delayed messages *)

Record scheduleDelayCommand := mkScheduleDelayCommand {
  sd_Topic : string; sd_Partition : Z; sd_Payload : bytes; sd_DeliverAtMS : Z
}.

Record DelayScheduleResult := mkDelayScheduleResult {
  ds_DelayTopic : string; ds_Partition : Z; ds_Offset : Z; ds_NextOffset : Z; ds_DeliverAtMS : Z
}.

Definition applyScheduleDelay (stamp : Z) (req : scheduleDelayCommand) : BM DelayScheduleResult :=
  target ← reads (fun b => loadTopicConfig b (sd_Topic req));
  if tc_Partitions target <=? sd_Partition req then fail (StoreError CodePartitionNotFound)
  else
    let delayTopic := delayTopicName (sd_Topic req) in
    _ ← ensureAuxTopic target delayTopic;
    appended ← calls (fun s => PublishRecord stamp s delayTopic (sd_Partition req)
      (set_Headers [header delayHeaderDeliverAtMS (fmt_d (sd_DeliverAtMS req));
                    header delayHeaderTargetTopic (sd_Topic req);
                    header delayHeaderTargetPartition (fmt_d (sd_Partition req))] (NewRecordAppend (sd_Payload req))));
    mret (mkDelayScheduleResult delayTopic (sd_Partition req) (r_Offset appended) (u64 (r_Offset appended + 1)) (sd_DeliverAtMS req)).

Record processDelayCommand := mkProcessDelayCommand {
  pd_Consumer : string;
  pd_DelayTopic : string;
  pd_DefaultTargetTopic : string;
  pd_Partition : Z;
  pd_MaxRecords : Z;
  pd_NowMS : Z
}.

Definition delayedRecordReady (record : Rec) (nowMS : Z) : result BrokerError bool :=
  deliverAt ← headerUint64 (r_Headers record) delayHeaderDeliverAtMS;
  match deliverAt with None => Err (StoreError CodeCodec) | Some deliverAt => Ok (deliverAt <=? nowMS) end.

Definition delayTargetPartition (req : processDelayCommand) (record : Rec) : result BrokerError Z :=
  parsed ← headerUint32 (r_Headers record) delayHeaderTargetPartition;
  Ok (default (pd_Partition req) parsed).

Definition delayTarget (req : processDelayCommand) (record : Rec) : result BrokerError (string * Z) :=
  let targetTopic := valueOr (headerString (r_Headers record) delayHeaderTargetTopic) (pd_DefaultTargetTopic req) in
  targetPartition ← delayTargetPartition req record;
  Ok (targetTopic, targetPartition).

Definition forwardDelayedRecord (stamp : Z) (req : processDelayCommand) (record : Rec) : BM unit :=
  '(targetTopic, targetPartition) ← pure (delayTarget req record);
  let appendRecord := set_Headers
    (removeHeaders (r_Headers record) [delayHeaderDeliverAtMS; delayHeaderTargetTopic; delayHeaderTargetPartition])
    (cloneAsAppend record) in
  appendRecord ← reads (fun b => normalizeRecordPriorityForTopic b targetTopic appendRecord);
  _ ← calls (fun s => PublishRecord stamp s targetTopic targetPartition appendRecord);
  mret tt.

(** How many were forwarded, the offset behind the last one and the failure
    that ended the loop. *)
Fixpoint forwardDueDelayedRecords (stamps : nat -> Z) (nowMS : Z) (req : processDelayCommand) (moved : Z) (commitNext : option Z)
    (records : list Rec) (b : Broker) : Broker * (Z * option Z * option BrokerError) :=
  match records with
  | [] => (b, (moved, commitNext, None))
  | record :: records =>
      match delayedRecordReady record nowMS with
      | Err e => (b, (moved, commitNext, Some e))
      | Ok false => (b, (moved, commitNext, None))
      | Ok true =>
          match forwardDelayedRecord (stamps O) req record b with
          | (b, Err e) => (b, (moved, commitNext, Some e))
          | (b, Ok _) =>
              forwardDueDelayedRecords (fun i => stamps (S i)) nowMS req (moved + 1) (Some (u64 (r_Offset record + 1))) records b
          end
      end
  end.

Definition processDelayMaxRecords (b : Broker) (maxRecords : Z) : Z :=
  if maxRecords <=? 0 then cfg_DelaySchedulerMaxRecords (b_cfg b) else maxRecords.

Definition loadDelayConsumerOffset (b : Broker) (consumer : string) (delayTP : TopicPartition) : result BrokerError Z :=
  committed ← of_store (LoadConsumerOffset (b_store b) consumer delayTP);
  Ok (default 0 committed).

Definition fetchDelayedRecords (b : Broker) (req : processDelayCommand) (delayTP : TopicPartition) : result BrokerError (list Rec) :=
  startOffset ← loadDelayConsumerOffset b (pd_Consumer req) delayTP;
  of_store (ReadFrom (b_store b) delayTP startOffset (processDelayMaxRecords b (pd_MaxRecords req))).

Definition commitDelayedOffset (now : Z) (consumer : string) (delayTP : TopicPartition) (commitNext : option Z) : BM unit :=
  match commitNext with
  | None => mret tt
  | Some next => calls (fun s => SaveConsumerOffset now s consumer delayTP next)
  end.

(** The number of forwarded records comes with an error too. *)
Definition applyProcessDelayPartition (now stamps : nat -> Z) (req : processDelayCommand) (b : Broker)
    : Broker * (Z * option BrokerError) :=
  let delayTP := NewTopicPartition (pd_DelayTopic req) (pd_Partition req) in
  match fetchDelayedRecords b req delayTP with
  | Err e => (b, (0, Some e))
  | Ok records =>
      let nowMS := if pd_NowMS req =? 0 then now 0%nat else pd_NowMS req in
      match forwardDueDelayedRecords stamps nowMS req 0 None records b with
      | (b, (moved, _, Some e)) => (b, (moved, Some e))
      | (b, (moved, commitNext, None)) =>
          match commitDelayedOffset (now 1%nat) (pd_Consumer req) delayTP commitNext b with
          | (b, Err e) => (b, (moved, Some e))
          | (b, Ok _) => (b, (moved, None))
          end
      end
  end.

(** ** Expired messages *)

Definition messageExpiryScanBatch : Z := 1024.

Definition recordExpiresAtOrBefore (record : Rec) (nowMS : Z) : bool :=
  match r_ExpiresAtMS record with Some t => t <=? nowMS | None => false end.

Definition expiredMessageError (record : Rec) : string :=
  match r_ExpiresAtMS record with
  | None => "message expired"
  | Some t => ("message expired at " +:+ fmt_d t)%string
  end.

Definition buildExpiredMessageDLQAppend (record : Rec) (sourceTopic : string) (partition : Z) : RecordAppend :=
  dlqAppend record
    (dlqHeaders (removeHeaders (r_Headers record) internalDLQAndRetryHeaders) sourceTopic partition (r_Offset record) 0
       dlqErrorCodeMessageExpired (expiredMessageError record)).

(** [cancelled i] is what [ctx.Err] tells at the [i]-th record. *)
Fixpoint deadLetterExpiredRecords (cancelled : nat -> bool) (stamps : nat -> Z) (sourceTopic deadLetterTopic : string)
    (partition nowMS moved : Z) (records : list Rec) (b : Broker) : Broker * (Z * option BrokerError) :=
  match records with
  | [] => (b, (moved, None))
  | record :: records =>
      let continue moved b := deadLetterExpiredRecords (fun i => cancelled (S i)) (fun i => stamps (S i)) sourceTopic deadLetterTopic
                                partition nowMS moved records b in
      if cancelled O then (b, (moved, Some (BrokerFailure "message_expiry_canceled")))
      else if negb (recordExpiresAtOrBefore record nowMS) then continue moved b
      else
        match (appended ← calls (fun s => PublishRecord (stamps O) s deadLetterTopic partition
                                            (buildExpiredMessageDLQAppend record sourceTopic partition));
               saveDLQIndexFromRecord deadLetterTopic partition appended) b with
        | (b, Err e) => (b, (moved, Some e))
        | (b, Ok _) => continue (moved + 1) b
        end
  end.

(** The loop over the batches of a partition; every batch advances the cursor
    behind its records, so one turn per record and a last one are enough. *)
Fixpoint expiryLoop (fuel : nat) (cancelled : nat -> nat -> bool) (stamps : nat -> nat -> Z) (sourceTopic deadLetterTopic : string)
    (partition nowMS cursor moved : Z) (b : Broker) : Broker * (Z * option BrokerError) :=
  match fuel with
  | O => (b, (moved, Some (BrokerFailure "fuel")))
  | S fuel =>
      match of_store (ReadFrom (b_store b) (NewTopicPartition sourceTopic partition) cursor messageExpiryScanBatch) with
      | Err e => (b, (moved, Some e))
      | Ok records =>
          match last records with
          | None => (b, (moved, None))
          | Some final =>
              match deadLetterExpiredRecords (cancelled O) (stamps O) sourceTopic deadLetterTopic partition nowMS 0 records b with
              | (b, (_, Some e)) => (b, (moved, Some e))
              | (b, (batchMoved, None)) =>
                  if len records <? messageExpiryScanBatch then (b, (moved + batchMoved, None))
                  else expiryLoop fuel (fun i => cancelled (S i)) (fun i => stamps (S i)) sourceTopic deadLetterTopic partition nowMS
                         (u64 (r_Offset final + 1)) (moved + batchMoved) b
              end
          end
      end
  end.

Definition deadLetterExpiredPartitionMessages (cancelled : nat -> nat -> bool) (stamps : nat -> nat -> Z)
    (sourceTopic deadLetterTopic : string) (partition nowMS : Z) (b : Broker) : Broker * (Z * option BrokerError) :=
  expiryLoop (S (S (length (recordsOf (b_store b) (NewTopicPartition sourceTopic partition))))) cancelled stamps
    sourceTopic deadLetterTopic partition nowMS 0 0 b.

(** The loops over the partitions of a topic and over the topics; the clock and
    the context are indexed by the turns of the loops. *)
Fixpoint expiryPartitions (cancelled : nat -> nat -> nat -> bool) (stamps : nat -> nat -> nat -> Z)
    (sourceTopic deadLetterTopic : string) (nowMS total : Z) (partitions : list Z) (b : Broker) : Broker * (Z * option BrokerError) :=
  match partitions with
  | [] => (b, (total, None))
  | partition :: partitions =>
      match deadLetterExpiredPartitionMessages (cancelled O) (stamps O) sourceTopic deadLetterTopic partition nowMS b with
      | (b, (_, Some e)) => (b, (total, Some e))
      | (b, (moved, None)) =>
          expiryPartitions (fun i => cancelled (S i)) (fun i => stamps (S i)) sourceTopic deadLetterTopic nowMS
            (total + moved) partitions b
      end
  end.

Definition deadLetterExpiredTopicMessages (cancelled : nat -> nat -> nat -> bool) (stamps : nat -> nat -> nat -> Z)
    (topic : TopicConfig) (nowMS : Z) (b : Broker) : Broker * (Z * option BrokerError) :=
  if negb (bool_decide (tc_MessageExpiryAction topic = MessageExpiryDLQ)) || isInternalTopicName (tc_Name topic)
  then (b, (0, None))
  else
    let deadLetterTopic := deadLetterTopicOf topic (tc_Name topic) in
    match ensureAuxTopic topic deadLetterTopic b with
    | (b, Err e) => (b, (0, Some e))
    | (b, Ok _) =>
        expiryPartitions cancelled stamps (tc_Name topic) deadLetterTopic nowMS 0 (seqZ 0 (tc_Partitions topic)) b
    end.

Fixpoint expiryTopics (cancelled : nat -> nat -> nat -> nat -> bool) (stamps : nat -> nat -> nat -> nat -> Z)
    (nowMS total : Z) (topics : list TopicConfig) (b : Broker) : Broker * (Z * option BrokerError) :=
  match topics with
  | [] => (b, (total, None))
  | topic :: topics =>
      match deadLetterExpiredTopicMessages (cancelled O) (stamps O) topic nowMS b with
      | (b, (_, Some e)) => (b, (total, Some e))
      | (b, (moved, None)) =>
          expiryTopics (fun i => cancelled (S i)) (fun i => stamps (S i)) nowMS (total + moved) topics b
      end
  end.

Definition deadLetterExpiredMessages `{MapRange} (cancelled : nat -> nat -> nat -> nat -> bool)
    (stamps : nat -> nat -> nat -> nat -> Z) (nowMS : Z) (b : Broker) : Broker * (Z * option BrokerError) :=
  match of_store (ListTopics (b_store b)) with
  | Err e => (b, (0, Some e))
  | Ok topics => expiryTopics cancelled stamps nowMS 0 topics b
  end.

(** ** Maintenance: [src/broker/maintenance.go]

    [nowMS] is read once; [cleanupCancelled] is what the context tells the
    cleaner of the store. *)
Definition EnforceRetentionOnce `{MapRange} (cancelled : nat -> nat -> nat -> nat -> bool) (stamps : nat -> nat -> nat -> nat -> Z)
    (cleanupCancelled : bool) (nowMS : Z) : BM RetentionCleanupResult :=
  fun b =>
    match deadLetterExpiredMessages cancelled stamps nowMS b with
    | (b, (_, Some e)) => (b, Err e)
    | (b, (deadLettered, None)) =>
        match calls (fun s => EnforceRetention s cleanupCancelled nowMS) b with
        | (b, Err e) => (b, Err e)
        | (b, Ok result) => (b, Ok (mkRetentionCleanupResult (rcr_RemovedRecords result) deadLettered))
        end
    end.

Definition CompactOnce `{MapRange} (cleanupCancelled : bool) (nowMS : Z) : BM CompactionCleanupResult :=
  calls (fun s => Compact s cleanupCancelled nowMS).

(** ** Poisonous messages *)

Definition poisonMessageReason (reason : string) : string := if decide (reason = "") then "poison message isolated" else reason.

Definition buildPoisonDLQAppend (record : Rec) (sourceTopic : string) (partition : Z) (reason : string) : RecordAppend :=
  dlqAppend record
    (dlqHeaders (removeHeaders (r_Headers record) internalDLQAndRetryHeaders) sourceTopic partition (r_Offset record) 0
       dlqErrorCodePoisonMessage (poisonMessageReason reason)).

Definition isolatePoisonRecord (stamp : Z) (scopedTopic : string) (partition : Z) (record : Rec) (reason : string) : BM DLQRecord :=
  sourceTopic ← reads (fun b => loadTopicConfig b scopedTopic);
  let deadLetterTopic := deadLetterTopicOf sourceTopic scopedTopic in
  _ ← ensureAuxTopic sourceTopic deadLetterTopic;
  appended ← calls (fun s => PublishRecord stamp s deadLetterTopic partition (buildPoisonDLQAppend record scopedTopic partition reason));
  _ ← saveDLQIndexFromRecord deadLetterTopic partition appended;
  pure (dlqRecordFromStore deadLetterTopic partition appended).
