(* ===== verification/HandlerSpec.v ===== *)
(** * What the shared parts of the handlers do to the broker *)

From stdpp Require Import prelude gmap strings sorting list.
From S2P Require Import Prelude Model MemoryStore LogSpec MetaStore MetaSpec Queue Idempotency Headers Produce.
From S2P Require Import GoStrings Governance Handlers DeadLetters.

#[local] Open Scope Z_scope.

(** ** Headers *)

Lemma BytesString_StringBytes s : BytesString (StringBytes s) = s.
Proof. apply Stdlib.Strings.String.string_of_list_byte_of_string. Qed.

Lemma headerString_upsert h k v k' :
  headerString (upsertHeader h k v) k' = if decide (k = k') then v else headerString h k'.
Proof.
  induction h as [|x h IH]; cbn [upsertHeader headerString header rh_Key rh_Value].
  - rewrite BytesString_StringBytes. by destruct (decide _).
  - destruct (decide (rh_Key x = k)) as [E|E]; cbn [headerString rh_Key rh_Value].
    + rewrite E, BytesString_StringBytes. by destruct (decide (k = k')).
    + rewrite IH. destruct (decide (rh_Key x = k')) as [E'|E']; [|done]. by rewrite decide_False by congruence.
Qed.

Lemma headerString_remove h ks k : k ∉ ks -> headerString (removeHeaders h ks) k = headerString h k.
Proof.
  intros Hk. unfold removeHeaders. induction h as [|x h IH]; [done|]. rewrite filter_cons. cbn [headerString].
  destruct (decide (rh_Key x ∉ ks)) as [Hx|Hx]; cbn [headerString]; rewrite IH; [done|].
  rewrite decide_False; [done|]. intros E. by rewrite E in Hx.
Qed.

Lemma ParseUint_fmt bits v : is_u64 v -> v < 2 ^ bits -> ParseUint bits (fmt_d v) = Some v.
Proof. intros Hu Hb. unfold ParseUint. rewrite ParseUint64_fmt by done. by rewrite (proj2 (Z.ltb_lt _ _) Hb). Qed.

Lemma headerUint64_fmt h k v : headerString h k = fmt_d v -> is_u64 v -> headerUint64 h k = Ok (Some v).
Proof.
  intros E Hu. unfold headerUint64. rewrite E, decide_False by (apply fmt_d_ne_empty; unfold is_u64 in Hu; lia).
  rewrite ParseUint_fmt; [done|done|]. unfold is_u64 in Hu. lia.
Qed.

Lemma headerUint32_fmt h k v : headerString h k = fmt_d v -> is_u32 v -> headerUint32 h k = Ok (Some v).
Proof.
  intros E Hu. unfold headerUint32. rewrite E, decide_False by (apply fmt_d_ne_empty; unfold is_u32 in Hu; lia).
  rewrite ParseUint_fmt by (unfold is_u64, is_u32 in *; lia). by rewrite u32_small.
Qed.

(** ** What a step leaves alone *)

Definition committed (s : MemoryStore) : gmap string ConsumerOffsetState * gmap string Z := (offsetStates s, offsets s).

Lemma foldl_keeps {X A B} (g : X -> B) (f : X -> A -> X) l x : (forall x a, g (f x a) = g x) -> g (foldl f x l) = g x.
Proof. intros Hf. induction l as [|a l IH] in x |- *; [done|]. cbn [foldl]. by rewrite IH, Hf. Qed.

(** The logs and the committed offsets. *)
Definition same_log (b b' : Broker) : Prop :=
  (forall tp, recordsOf (b_store b') tp = recordsOf (b_store b) tp) /\
  (forall tp, nextOffsetOf (b_store b') tp = nextOffsetOf (b_store b) tp) /\
  committed (b_store b') = committed (b_store b) /\ b_cfg b' = b_cfg b.

#[export] Instance same_log_preorder : PreOrder same_log.
Proof.
  split; [by intros b|]. intros b1 b2 b3 (R1 & N1 & O1 & C1) (R2 & N2 & O2 & C2). unfold same_log.
  split_and!; intros; congruence || (etrans; [apply R2 || apply N2|apply R1 || apply N1]).
Qed.

Lemma log_eq_same b b' : log_eq (b_store b) (b_store b') -> committed (b_store b') = committed (b_store b) ->
  b_cfg b' = b_cfg b -> same_log b b'.
Proof. intros (E1 & E2 & E3 & E4) Eo Ec. unfold same_log, nextOffsetOf, recordsOf. rewrite E3, E4. by split_and!. Qed.

(** The placements of a topic. *)
Lemma ensurePlacements_spec r s planned :
  let '(r', s', res) := ensurePlacements r s planned in
  log_eq s s' /\ committed s' = committed s /\ (Forall (fun p => sp_Topic p <> "") planned -> res = Ok tt).
Proof.
  revert r s. induction planned as [|p planned IH]; intros r s; cbn [ensurePlacements]; [by split_and!|].
  destruct (LoadShardPlacement s _) as [[ex|]|e] eqn:El; [| |done].
  - specialize (IH (cacheShardPlacement r ex) s). destruct (ensurePlacements _ s planned) as [[r' s'] res].
    destruct IH as (I1 & I2 & I3). split_and!; [done|done|]. intros Hf. apply I3. by inversion Hf.
  - unfold SaveShardPlacement, validateShardPlacement. destruct (decide (sp_Topic p = "")) as [E|E].
    + split_and!; [done|done|]. intros Hf. by inversion Hf.
    + set (s1 := set_placements _ s). specialize (IH (cacheShardPlacement r p) s1).
      destruct (ensurePlacements _ s1 planned) as [[r' s'] res]. destruct IH as (I1 & I2 & I3).
      split_and!; [exact I1|exact I2|]. intros Hf. apply I3. by inversion Hf.
Qed.

Lemma ensureTopicShardPlacements_spec topic b :
  let '(b', r) := ensureTopicShardPlacements topic b in
  log_eq (b_store b) (b_store b') /\ same_log b b' /\ (tc_Name topic <> "" -> r = Ok tt).
Proof.
  unfold ensureTopicShardPlacements, EnsureTopic. pose proof (ensurePlacements_spec (b_shards b) (b_store b) (PlanTopic (b_shards b) topic)) as Hp.
  destruct (ensurePlacements _ _ _) as [[r s] res]. destruct Hp as (H1 & H2 & H3). cbn [b_store set_shards set_store].
  split_and!; [done|by apply log_eq_same|]. intros Hn. apply H3. unfold PlanTopic. apply Forall_fmap, Forall_true. done.
Qed.

(** Saving a topic. *)
Lemma SaveTopicConfig_topics s topic :
  tc_Name topic <> "" -> topics (SaveTopicConfig s topic).1 = <[tc_Name topic := normalizeTopic topic]> (topics s) /\
  (SaveTopicConfig s topic).2 = Ok tt /\ committed (SaveTopicConfig s topic).1 = committed s.
Proof.
  intros Hn. unfold SaveTopicConfig. rewrite decide_False by done. cbn [fst snd].
  match goal with |- context [foldl (ensurePartition ?i ?n) ?x ?l] => destruct (foldl_ensure_frame i n l x) as [-> _];
    pose proof (foldl_keeps committed (ensurePartition i n) l x) as Hm end.
  split_and!; [done|done|]. rewrite Hm; [done|]. intros y p. unfold ensurePartition. repeat case_match; done.
Qed.

(** A new topic: its log is created, then its configuration is saved. *)
Lemma queue_CreateTopic_spec s topic :
  log_inv s -> tc_Name topic <> "" -> tc_Partitions topic <> 0 -> topics s !! tc_Name topic = None ->
  let '(s', r) := CreateTopic s topic in
  r = Ok tt /\ log_inv s' /\ topics s' = <[tc_Name topic := normalizeTopic topic]> (topics s) /\
  (forall tp, nextOffsetOf s' tp = nextOffsetOf s tp /\ recordsOf s' tp = recordsOf s tp) /\ committed s' = committed s.
Proof.
  intros Hi Hn Hp Ht. unfold CreateTopic. pose proof (CreateTopic_inv s topic Hi) as [Hi1 Hl1].
  assert ((MemoryStore.CreateTopic s topic).2 = Ok tt /\ topics (MemoryStore.CreateTopic s topic).1 = <[tc_Name topic := normalizeTopic topic]> (topics s) /\
    committed (MemoryStore.CreateTopic s topic).1 = committed s) as (Er & Et & Eo).
  { unfold MemoryStore.CreateTopic. rewrite decide_False by done. rewrite (proj2 (Z.eqb_neq _ _) Hp).
    rewrite decide_False by (rewrite (li_names s Hi); by apply not_elem_of_dom). cbn [fst snd].
    match goal with |- context [foldl (ensurePartition ?i ?n) ?x ?l] => destruct (foldl_ensure_frame i n l x) as [-> _];
      pose proof (foldl_keeps committed (ensurePartition i n) l x) as Hm end.
    split_and!; [done|done|]. rewrite Hm; [done|]. intros y q. unfold ensurePartition. repeat case_match; done. }
  destruct (MemoryStore.CreateTopic s topic) as [s1 r1]. cbn [fst snd] in *. subst r1.
  destruct (SaveTopicConfig_topics s1 topic Hn) as (St & Sr & So). destruct (SaveTopicConfig_inv s1 topic Hi1) as [Hi2 Hl2].
  destruct (SaveTopicConfig s1 topic) as [s2 r2]. cbn [fst snd] in *. split_and!; [done|done| | |congruence].
  - rewrite St, Et. apply insert_insert_eq.
  - intros tp. destruct (Hl1 tp), (Hl2 tp). split; congruence.
Qed.

(** An auxiliary topic is there afterwards, and only its configuration has
    changed. *)
Lemma ensureAuxTopic_spec source aux b :
  log_inv (b_store b) -> aux <> "" -> tc_Partitions source <> 0 ->
  let '(b', r) := ensureAuxTopic source aux b in
  r = Ok tt /\ log_inv (b_store b') /\ same_log b b' /\
  topics (b_store b') = <[aux := normalizeTopic (auxTopicConfig source aux)]> (topics (b_store b)).
Proof.
  intros Hi Ha Hp. unfold ensureAuxTopic, mbind, BM_bind, reads, TopicExists. cbn [of_store].
  remember (auxTopicConfig source aux) as cfg eqn:Ecfg. assert (tc_Name cfg = aux) as En by (by subst cfg).
  assert (tc_Partitions cfg <> 0) as Hpc by (by subst cfg). clear Ecfg.
  assert (forall s, log_inv s -> committed s = committed (b_store b) ->
    (forall tp, nextOffsetOf s tp = nextOffsetOf (b_store b) tp /\ recordsOf s tp = recordsOf (b_store b) tp) ->
    topics s = <[aux := normalizeTopic cfg]> (topics (b_store b)) ->
    let '(b', r) := ensureTopicShardPlacements cfg (set_store s b) in
    r = Ok tt /\ log_inv (b_store b') /\ same_log b b' /\ topics (b_store b') = <[aux := normalizeTopic cfg]> (topics (b_store b))) as Hrest.
  { intros s His Hos Hls Hts. pose proof (ensureTopicShardPlacements_spec cfg (set_store s b)) as Hpl.
    destruct (ensureTopicShardPlacements cfg (set_store s b)) as [b' r]. destruct Hpl as (He & Hs & Hr).
    split_and!; [by apply Hr; congruence|by rewrite <- He| |destruct He as (-> & _); exact Hts].
    etrans; [|exact Hs]. split_and!; [intros tp; apply Hls..|exact Hos|done]. }
  destruct (bool_decide (aux ∈ topicNames (b_store b))) eqn:Ed.
  - unfold calls. destruct (SaveTopicConfig_topics (b_store b) cfg) as (St & Sr & So); [congruence|].
    destruct (SaveTopicConfig_inv (b_store b) cfg Hi) as [Hi2 Hl2]. rewrite En in St.
    destruct (SaveTopicConfig (b_store b) cfg) as [s r]. cbn [fst snd] in *. subst r. cbn [of_store]. by apply Hrest.
  - unfold createTopicUnlessExists, calls.
    assert (topics (b_store b) !! tc_Name cfg = None) as Hnone.
    { apply bool_decide_eq_false in Ed. rewrite (li_names _ Hi) in Ed. rewrite En. by apply not_elem_of_dom. }
    pose proof (queue_CreateTopic_spec (b_store b) cfg Hi ltac:(congruence) Hpc Hnone) as Hc.
    destruct (CreateTopic (b_store b) cfg) as [s r]. destruct Hc as (-> & His & Hts & Hls & Hos). cbn [of_store]. rewrite En in Hts.
    by apply Hrest.
Qed.

(** Reading one record. *)
Lemma readRecordAtOffset_ok b tp r :
  log_inv (b_store b) -> validatePartitionLocked (b_store b) tp = Ok tt -> r ∈ recordsOf (b_store b) tp ->
  readRecordAtOffset tp (r_Offset r) b = (b, Ok r).
Proof.
  intros Hi Hv Hr. unfold readRecordAtOffset, mbind, BM_bind, reads. rewrite ReadFrom_ok by (done || lia). cbn [of_store].
  pose proof (log_inv_recordsOf _ tp Hi) as Hok. apply list_elem_of_split in Hr as (l1 & l2 & E). rewrite E in Hok |- *.
  apply log_ok_rec_lt, StronglySorted_app in Hok as (H1 & _ & H2).
  rewrite filter_app, filter_none, filter_cons_True by (lia || (apply Forall_forall; intros x Hx; specialize (H1 x r Hx ltac:(by left)); cbn in H1; lia)).
  cbn [app]. change (Z.to_nat 1) with 1%nat. rewrite firstn_cons. by rewrite Z.eqb_refl.
Qed.
