(* ===== verification/RedeliverySpec.v ===== *)
(** * No message is lost on the way through retries and dead letters *)

From stdpp Require Import prelude gmap strings sorting list.
From S2P Require Import Prelude Model MemoryStore LogSpec MetaStore MetaSpec Queue QueueSpec Idempotency Headers Produce.
From S2P Require Import GoStrings Governance Handlers DeadLetters Redelivery HandlerSpec.

#[local] Open Scope Z_scope.

(** ** Moving one record *)

(** What survives every move of a message. *)
Definition content (r : Rec) : bytes * bytes * Z * Z := (r_Key r, r_Payload r, r_Attributes r, r_TimestampMS r).

Lemma AppendRecord_content nowMS s tp ar s' r :
  AppendRecord nowMS s tp ar = (s', Ok r) ->
  content r = (ra_Key ar, ra_Payload ar, ra_Attributes ar, default nowMS (ra_TimestampMS ar)) /\ r_Headers r = ra_Headers ar.
Proof.
  intros (t & _ & _ & _ & Hr & _)%AppendRecord_ok. unfold recordFromAppend in Hr. apply bind_ok in Hr as (e & _ & [= <-]). done.
Qed.

Lemma AppendRecord_offsets nowMS s tp ar : committed (AppendRecord nowMS s tp ar).1 = committed s.
Proof. unfold AppendRecord. repeat case_match; done. Qed.

Lemma load_committed s s' c tp : committed s' = committed s -> LoadConsumerOffset s' c tp = LoadConsumerOffset s c tp.
Proof. unfold committed, LoadConsumerOffset. by intros [= -> ->]. Qed.

(** A step that appends at most one record somewhere. *)
Record advanced (b b' : Broker) : Prop := {
  ad_inv : log_inv (b_store b');
  ad_offsets : committed (b_store b') = committed (b_store b);
  ad_cfg : b_cfg b' = b_cfg b;
  ad_next : forall tp, nextOffsetOf (b_store b') tp <= nextOffsetOf (b_store b) tp + 1
}.

Lemma same_log_advanced b b' : log_inv (b_store b') -> same_log b b' -> advanced b b'.
Proof. intros Hi (_ & Hn & Ho & Hc). split; try done. intros tp. rewrite Hn. lia. Qed.

Lemma advanced_after b b1 b2 : same_log b b1 -> advanced b1 b2 -> advanced b b2.
Proof. intros (_ & Hn & Ho & Hc) [Hi Ho' Hc' Hn']. split; [done|congruence..|]. intros tp. rewrite <- Hn. apply Hn'. Qed.

Lemma advanced_before b b1 b2 : advanced b b1 -> same_log b1 b2 -> log_inv (b_store b2) -> advanced b b2.
Proof. intros [Hi Ho Hc Hn] (_ & Hn' & Ho' & Hc') Hi2. split; [done|congruence..|]. intros tp. rewrite Hn'. apply Hn. Qed.

(** The log of [b'] is the one of [b] with the message [r] added to [dest]. *)
Definition delivered (b b' : Broker) (r : Rec) (dest : TopicPartition) : Prop :=
  forall tp, content <$> recordsOf (b_store b') tp =
    (content <$> recordsOf (b_store b) tp) ++ (if decide (dest = tp) then [content r] else []).

Lemma delivered_after b b1 b2 r dest : same_log b b1 -> delivered b1 b2 r dest -> delivered b b2 r dest.
Proof. intros (Hr & _) Hd tp. by rewrite (Hd tp), Hr. Qed.

Lemma delivered_before b b1 b2 r dest : delivered b b1 r dest -> same_log b1 b2 -> delivered b b2 r dest.
Proof. intros Hd (Hr & _) tp. by rewrite Hr, (Hd tp). Qed.

Lemma publish_delivers stamp topic partition ar b b' res r :
  log_inv (b_store b) -> (forall tp, nextOffsetOf (b_store b) tp < max_u64) ->
  ra_Key ar = r_Key r -> ra_Payload ar = r_Payload r -> ra_Attributes ar = r_Attributes r -> ra_TimestampMS ar = Some (r_TimestampMS r) ->
  calls (fun s => PublishRecord stamp s topic partition ar) b = (b', res) ->
  advanced b b' /\ match res with
    | Ok _ => delivered b b' r (NewTopicPartition topic partition) /\ topics (b_store b') = topics (b_store b)
    | Err _ => True
    end.
Proof.
  intros Hi Hmax Ek Ep Ea Et. unfold calls, PublishRecord. set (tp0 := NewTopicPartition topic partition).
  pose proof (AppendRecord_inv stamp (b_store b) tp0 ar Hi (Hmax tp0)) as [Hi' _].
  pose proof (AppendRecord_offsets stamp (b_store b) tp0 ar) as Ho.
  destruct (AppendRecord stamp (b_store b) tp0 ar) as [s' [x|e]] eqn:Eap; cbn [fst] in *; intros [= <- <-].
  - pose proof (fun tp => AppendRecord_log _ _ _ _ _ _ tp Eap) as Hl. destruct (AppendRecord_content _ _ _ _ _ _ Eap) as [Hc _].
    split; [split; [done|done|done|]|].
    + intros tp. cbn [b_store set_store]. destruct (Hl tp) as (_ & -> & _). destruct (append_next_u64 _ tp0 Hi (Hmax tp0)) as [-> _].
      destruct (decide (tp0 = tp)) as [->|]; lia.
    + split; [|exact (proj2 (proj2 (Hl tp0)))].
      intros tp. cbn [b_store set_store]. destruct (Hl tp) as (-> & _). destruct (decide (tp0 = tp)) as [->|]; [|by rewrite app_nil_r].
      rewrite fmap_app. f_equal. unfold content at 2. rewrite fmap_cons, Hc, Ek, Ep, Ea, Et. done.
  - apply AppendRecord_err in Eap as ->. split; [|done]. apply same_log_advanced; done.
Qed.

Lemma saveDLQIndex_same topic partition r b :
  let '(b', _) := saveDLQIndexFromRecord topic partition r b in
  same_log b b' /\ (log_inv (b_store b) -> log_inv (b_store b')) /\ topics (b_store b') = topics (b_store b).
Proof.
  unfold saveDLQIndexFromRecord, mbind, BM_bind, pure. destruct (dlqIndexEntryFromStore _ _ _) as [e|]; [|done].
  unfold calls. assert (log_eq (b_store b) (SaveDLQIndex (b_store b) e).1) as He by apply meta_step_log, meta_save_dlq.
  assert (committed (SaveDLQIndex (b_store b) e).1 = committed (b_store b)) as Ho by (unfold SaveDLQIndex; repeat case_match; done).
  destruct (SaveDLQIndex (b_store b) e) as [s x]. cbn [fst] in *. split; [by apply log_eq_same|]. split; [|apply He]. intros Hi. cbn. by rewrite <- He.
Qed.

Lemma deadLetterTopicOf_ne topic source : deadLetterTopicOf topic source <> "".
Proof. unfold deadLetterTopicOf, dlqTopicName. destruct (tc_DeadLetterTopic topic); [destruct (decide _)|]; done. Qed.

Lemma load_topic b name t : loadTopicConfig b name = Ok t -> topics (b_store b) !! name = Some t.
Proof. unfold loadTopicConfig, topicConfig, loadTopicConfigDirect, LoadTopicConfig. cbn. by destruct (topics _ !! name) as [x|]; intros [= <-]. Qed.

(** Where a retried record belongs, by its origin and the configuration [t] of
    the origin's topic: back to its origin while attempts are left, and to the
    dead-letter topic of the origin behind them. *)
Definition exhausted (origin : retryOrigin) (t : TopicConfig) : bool := trp_MaxAttempts (tc_RetryPolicy t) <=? ro_RetryCount origin.

Definition destination (origin : retryOrigin) (t : TopicConfig) : TopicPartition :=
  NewTopicPartition (if exhausted origin t then deadLetterTopicOf t (ro_Topic origin) else ro_Topic origin) (ro_Partition origin).

(** A record that goes to the dead letters (re)configures their topic. *)
Definition topics_after (ts : gmap string TopicConfig) (origin : retryOrigin) (t : TopicConfig) : gmap string TopicConfig :=
  if exhausted origin t
  then <[deadLetterTopicOf t (ro_Topic origin) := normalizeTopic (auxTopicConfig t (deadLetterTopicOf t (ro_Topic origin)))]> ts
  else ts.

(** A due record is appended once, where it belongs. *)
Lemma move_one stamp r T p b :
  log_inv (b_store b) -> (forall tp, nextOffsetOf (b_store b) tp < max_u64) ->
  let '(b', res) := processDueRetryRecord stamp r T p b in
  advanced b b' /\
  match res with
  | Ok dead => exists origin t, retryOriginFromRecord r T p = Ok origin /\ topics (b_store b) !! ro_Topic origin = Some t /\
      dead = exhausted origin t /\ delivered b b' r (destination origin t) /\
      topics (b_store b') = topics_after (topics (b_store b)) origin t
  | Err _ => True
  end.
Proof.
  intros Hi Hmax. assert (advanced b b) as Hrefl by (by apply same_log_advanced).
  unfold processDueRetryRecord. unfold mbind, BM_bind, pure, reads at 1.
  destruct (retryOriginFromRecord r T p) as [origin|] eqn:Eo; [|done].
  destruct (loadTopicConfig b (ro_Topic origin)) as [t|] eqn:Et; [|done]. apply load_topic in Et.
  destruct (li_topic _ Hi _ _ Et) as [_ Hparts]. unfold moveRetryRecord.
  destruct (Z.ltb_spec (ro_RetryCount origin) (trp_MaxAttempts (tc_RetryPolicy t))) as [Hlt|Hge].
  - unfold mbind, BM_bind, pure. destruct (normalizeRecordsPriority t [cloneAsAppend r]) as [rs|] eqn:En; [|done].
    destruct rs as [|x rs]; [done|].
    assert (ra_Key x = r_Key r /\ ra_Payload x = r_Payload r /\ ra_Attributes x = r_Attributes r /\ ra_TimestampMS x = Some (r_TimestampMS r))
      as (E1 & E2 & E3 & E4).
    { unfold normalizeRecordsPriority in En. destruct (negb _); [by injection En as <- _|]. cbn [normalizeEach] in En.
      apply bind_ok in En as (y & Hy & [= <- _]). unfold normalizeRecordPriority in Hy. destruct (negb _); [by injection Hy as <-|].
      apply bind_ok in Hy as (q & _ & Hy). destruct (_ || _); [done|]. by injection Hy as <-. }
    destruct (calls _ b) as [b' res] eqn:Ec. destruct (publish_delivers _ _ _ _ _ _ _ r Hi Hmax E1 E2 E3 E4 Ec) as [Ha Hd].
    destruct res as [|e]; [|done]. destruct Hd as [Hd Htop]. split; [done|]. exists origin, t.
    unfold destination, topics_after. rewrite (proj2 (Z.leb_gt _ _) Hlt : exhausted origin t = false). by split_and!.
  - remember (deadLetterTopicOf t (ro_Topic origin)) as dead eqn:Edead.
    assert (dead <> "") as Hdead by (subst dead; apply deadLetterTopicOf_ne). unfold mbind, BM_bind.
    pose proof (ensureAuxTopic_spec t dead b Hi Hdead Hparts) as Haux. destruct (ensureAuxTopic t dead b) as [b1 r1].
    destruct Haux as (-> & Hi1 & Hs1 & Ht1).
    assert (forall tp, nextOffsetOf (b_store b1) tp < max_u64) as Hmax1 by (intros tp; destruct Hs1 as (_ & -> & _); apply Hmax).
    destruct (calls _ b1) as [b2 res] eqn:Ec.
    assert (ra_Key (buildDLQAppend r origin) = r_Key r) as Ek by done.
    destruct (publish_delivers _ _ _ _ _ _ _ r Hi1 Hmax1 Ek eq_refl eq_refl eq_refl Ec) as [Ha Hd].
    destruct res as [x|e]; [|by split; [by eapply advanced_after|]]. destruct Hd as [Hd Ht2].
    pose proof (saveDLQIndex_same dead (ro_Partition origin) x b2) as Hsave.
    destruct (saveDLQIndexFromRecord dead (ro_Partition origin) x b2) as [b3 r3]. destruct Hsave as (Hs3 & Hi3 & Ht3).
    assert (advanced b b3) as Hadv by (eapply advanced_after; [exact Hs1|]; eapply advanced_before; [exact Ha|exact Hs3|apply Hi3, Ha]).
    destruct r3; (split; [exact Hadv|]); [|done].
    exists origin, t. unfold destination, topics_after. rewrite (proj2 (Z.leb_le _ _) Hge : exhausted origin t = true), <- Edead.
    split_and!; [done|done|done| |congruence]. eapply delivered_after; [exact Hs1|]. by eapply delivered_before.
Qed.

(** ** A batch of retries *)

(** The messages that were sent to a partition. *)
Definition sent (tp : TopicPartition) (moved : list (Rec * TopicPartition)) : list Rec := (filter (fun m => m.2 = tp) moved).*1.

Lemma sent_cons tp r dest moved : content <$> sent tp ((r, dest) :: moved) = (if decide (dest = tp) then [content r] else []) ++ (content <$> sent tp moved).
Proof. unfold sent. rewrite filter_cons. cbn [snd]. by destruct (decide (dest = tp)). Qed.

Section Batch.
Context (T : string) (p nowMS : Z).

#[local] Abbreviation ready r := (retryRecordReady r nowMS).

(** Every moved record went where it belongs, by the configurations of the
    topics at its turn; a moved record comes with its destination and whether
    it was dead-lettered. *)
Fixpoint destined (ts : gmap string TopicConfig) (moved : list (Rec * TopicPartition * bool)) : Prop :=
  match moved with
  | [] => True
  | (r, dest, dead) :: moved => exists origin t,
      retryOriginFromRecord r T p = Ok origin /\ ts !! ro_Topic origin = Some t /\
      dest = destination origin t /\ dead = exhausted origin t /\ destined (topics_after ts origin t) moved
  end.

Definition deadLettered (moved : list (Rec * TopicPartition * bool)) : Z := len (filter (fun m => m.2 = true) moved).

(** What a batch has done when it stopped at [rest]. *)
Definition batch_done (b b' : Broker) (records : list Rec) (moved : list (Rec * TopicPartition * bool)) (rest : list Rec) : Prop :=
  records = moved.*1.*1 ++ rest /\ Forall (fun r => ready r = Ok true) moved.*1.*1 /\
  (rest = [] \/ exists r l, rest = r :: l /\ ready r = Ok false) /\
  destined (topics (b_store b)) moved /\
  (forall tp, content <$> recordsOf (b_store b') tp = (content <$> recordsOf (b_store b) tp) ++ (content <$> sent tp moved.*1)).

Lemma process_loop stamps n1 n2 l0 records b :
  log_inv (b_store b) -> (forall tp, nextOffsetOf (b_store b) tp + len records <= max_u64) ->
  let '(b', res) := processFetchedRetryRecords stamps nowMS T p n1 n2 l0 records b in
  log_inv (b_store b') /\ committed (b_store b') = committed (b_store b) /\
  match res with
  | Err _ => True
  | Ok (m1, m2, last') => exists moved rest, batch_done b b' records moved rest /\
      m1 = n1 + len moved - deadLettered moved /\ m2 = n2 + deadLettered moved /\
      last' = match last moved.*1.*1 with None => l0 | Some r => Some (u64 (r_Offset r + 1)) end
  end.
Proof.
  revert stamps n1 n2 l0 b. induction records as [|r records IH]; intros stamps n1 n2 l0 b Hi Hmax; cbn [processFetchedRetryRecords].
  { split_and!; [done|done|]. exists [], []. unfold deadLettered. split_and!; try done; [|by autorewrite with len; cbn; lia..].
    split_and!; try done; [by left|]. intros tp. by rewrite app_nil_r. }
  unfold mbind, BM_bind, pure. destruct (ready r) as [[|]|e] eqn:Er; cbn [negb]; [| |by split_and!].
  2:{ split_and!; [done|done|]. exists [], (r :: records). unfold deadLettered. split_and!; try done; [|by autorewrite with len; cbn; lia..].
      split_and!; try done; [right; by exists r, records|]. intros tp. by rewrite app_nil_r. }
  rewrite len_cons in Hmax. pose proof (len_nonneg records) as Hlen.
  pose proof (move_one (stamps O) r T p b Hi ltac:(intros tp; specialize (Hmax tp); lia)) as Hone.
  destruct (processDueRetryRecord (stamps O) r T p b) as [b1 [dead|e]]; [|destruct Hone as ([] & _); by split_and!].
  destruct Hone as ([Hi1 Ho1 Hc1 Hn1] & origin & t & Eo & Et & Edead & Hd & Htop).
  assert (forall m1 m2, m1 = n1 + (if dead then 0 else 1) -> m2 = n2 + (if dead then 1 else 0) ->
    let '(b', res) := processFetchedRetryRecords (fun i => stamps (S i)) nowMS T p m1 m2 (Some (u64 (r_Offset r + 1))) records b1 in
    log_inv (b_store b') /\ committed (b_store b') = committed (b_store b) /\
    match res with
    | Err _ => True
    | Ok (k1, k2, last') => exists moved rest, batch_done b b' (r :: records) moved rest /\
        k1 = n1 + len moved - deadLettered moved /\ k2 = n2 + deadLettered moved /\
        last' = match last moved.*1.*1 with None => l0 | Some r => Some (u64 (r_Offset r + 1)) end
    end) as Hgo.
  { intros m1 m2 Hm1 Hm2. specialize (IH (fun i => stamps (S i)) m1 m2 (Some (u64 (r_Offset r + 1))) b1 Hi1
      ltac:(intros tp; specialize (Hmax tp); specialize (Hn1 tp); lia)).
    destruct (processFetchedRetryRecords _ nowMS T p m1 m2 _ records b1) as [b2 res]. destruct IH as (Hi2 & Ho2 & Hres).
    split_and!; [done|congruence|]. destruct res as [[[k1 k2] last']|]; [|done].
    destruct Hres as (moved & rest & (E1 & E2 & E3 & E4 & E5) & Hk1 & Hk2 & El).
    assert (deadLettered ((r, destination origin t, dead) :: moved) = (if dead then 1 else 0) + deadLettered moved) as Hcount.
    { unfold deadLettered. rewrite filter_cons. cbn [snd]. destruct dead; [rewrite decide_True, len_cons by done|rewrite decide_False by done]; lia. }
    exists ((r, destination origin t, dead) :: moved), rest. rewrite Hcount, len_cons. split_and!; [|destruct dead; lia..|].
    - split_and!; [by cbn; f_equal|by constructor|done|exists origin, t; by rewrite <- Htop|].
      intros tp. cbn [fmap list_fmap fst]. rewrite sent_cons, E5, (Hd tp), <- app_assoc. done.
    - rewrite El. cbn [fmap list_fmap fst]. rewrite last_cons. by destruct (last moved.*1.*1). }
  destruct dead; apply Hgo; lia.
Qed.

End Batch.

(** C25: a batch of retries moves every due record once, to where it belongs.
    The records that are due are a prefix of what the worker fetched.  When the
    batch succeeds, each of them has been appended exactly once, with its key,
    payload, attributes and timestamp: to the topic and partition of its origin
    while the topic of the origin allows more attempts, and otherwise to the
    same partition of the dead-letter topic of the origin; nothing else was
    appended anywhere, the two counters count the two kinds, and the worker is
    committed just behind the last one.  When the batch fails nothing is
    committed, so everything is fetched again. *)
Theorem retry_batch_conserves now stamps req b records :
  log_inv (b_store b) ->
  fetchRetryRecords req (retryTopicName (pc_SourceTopic req)) b = (b, Ok records) ->
  (forall tp, nextOffsetOf (b_store b) tp + len records <= max_u64) ->
  let '(b', r) := applyProcessRetryBatch now stamps req b in
  let tp := NewTopicPartition (retryTopicName (pc_SourceTopic req)) (pc_Partition req) in
  match r with
  | Err _ => forall c tp', LoadConsumerOffset (b_store b') c tp' = LoadConsumerOffset (b_store b) c tp'
  | Ok res => exists moved rest,
      batch_done (pc_SourceTopic req) (pc_Partition req) (processRetryNowMS (now 0%nat) (pc_NowMS req)) b b' records moved rest /\
      prr_MovedToOrigin res = len moved - deadLettered moved /\ prr_MovedToDeadLetter res = deadLettered moved /\
      LoadConsumerOffset (b_store b') (pc_Consumer req) tp =
        match last moved.*1.*1 with
        | None => LoadConsumerOffset (b_store b) (pc_Consumer req) tp
        | Some r => Ok (Some (u64 (r_Offset r + 1)))
        end
  end.
Proof.
  intros Hi Hf Hmax. unfold applyProcessRetryBatch. destruct (decide (pc_Consumer req = "")) as [|Hc]; [done|].
  unfold mbind, BM_bind. rewrite Hf. set (nowMS := processRetryNowMS _ _).
  pose proof (process_loop (pc_SourceTopic req) (pc_Partition req) nowMS stamps 0 0 None records b Hi Hmax) as Hl.
  destruct (processFetchedRetryRecords _ _ _ _ _ _ _ records b) as [b1 [[[m1 m2] last']|e]]; destruct Hl as (Hi1 & Ho1 & Hl); [|intros; by apply load_committed].
  destruct Hl as (moved & rest & Hd & Hm1 & Hm2 & ->). destruct (last moved.*1.*1) as [r|] eqn:El.
  2:{ exists moved, rest. split_and!; [done|cbn; lia|cbn; lia|]. rewrite El. by apply load_committed. }
  set (topic := retryTopicName _). set (p := pc_Partition req). set (next := u64 _). unfold calls.
  pose proof (Ack_log (now 1%nat) (b_store b1) (pc_Consumer req) topic p next) as Hlog.
  assert ((Ack (now 1%nat) (b_store b1) (pc_Consumer req) topic p next).2 = Ok tt) as Hok.
  { unfold Ack, SaveConsumerOffset, SaveConsumerOffsetState, validateConsumerOffsetState. cbn [cos_Consumer cos_Topic tp_Topic].
    by rewrite decide_False by done. }
  pose proof (Ack_load (pc_Consumer req) topic p Hc ltac:(done) (now 1%nat) (b_store b1) next) as Hload.
  destruct (Ack _ _ _ _ _ _) as [s r0]. cbn [fst snd] in *. subst r0. cbn [of_store]. exists moved, rest. rewrite El. split_and!.
  - destruct Hd as (D1 & D2 & D3 & D4 & D5). split_and!; try done. intros tp. rewrite <- D5. f_equal.
    cbn [b_store set_store]. unfold recordsOf. by destruct Hlog as (_ & _ & -> & _).
  - cbn. lia.
  - cbn. lia.
  - exact Hload.
Qed.

(** ** A message that fails every time *)

Section Exhaust.
Context `{BackOff} (T : string) (p : Z) (t : TopicConfig) (consumer worker : string) (lastError : option string) (now stamp : Z).

#[local] Abbreviation srcTP := (NewTopicPartition T p).
#[local] Abbreviation retryTP := (NewTopicPartition (retryTopicName T) p).
#[local] Abbreviation dead := (deadLetterTopicOf t T).
#[local] Abbreviation deadTP := (NewTopicPartition dead p).

(** The consumer refuses the message at offset [o], the worker moves it when
    it is due, and the consumer refuses it again where it has come back. *)
Fixpoint refuse (n : nat) (o : Z) : BM unit :=
  match n with
  | O => mret tt
  | S n =>
      res ← applyNack now stamp (mkNackCommand consumer T p o lastError);
      next ← reads (fun b => Ok (nextOffsetOf (b_store b) srcTP));
      _ ← applyProcessRetryBatch (fun _ => now) (fun _ => stamp) (mkProcessRetryCommand worker T p 1 (rr_DeliverAtMS res));
      refuse n next
  end.

Hypothesis HT : T <> "".
Hypothesis Hconsumer : consumer <> "".
Hypothesis Hworker : worker <> "".
Hypothesis Hp : is_u32 p.
Hypothesis Hparts : p < tc_Partitions t.
Hypothesis Hmax : is_u32 (trp_MaxAttempts (tc_RetryPolicy t)).
Hypothesis Hnow : 0 <= now.
Hypothesis Hprio : tpp_Enabled (NormalizeTopicPriorityPolicy (tc_PriorityPolicy t)) = false.
Hypothesis Httl : tc_MessageTTLMS t = None.
Hypothesis HdeadT : dead <> T.
Hypothesis HdeadR : dead <> retryTopicName T.

(** The worker has moved everything that is in the retry partition. *)
Definition caught_up (s : MemoryStore) : Prop :=
  unread s worker retryTP = [] /\ position s worker retryTP <= nextOffsetOf s retryTP.

(** The message [r] is in the topic, at its [c]-th retry, and there is room
    for [n] more rounds. *)
Record waiting (b : Broker) (r : Rec) (o0 c : Z) (n : nat) : Prop := {
  wt_inv : log_inv (b_store b);
  wt_topic : topics (b_store b) !! T = Some t;
  wt_record : r ∈ recordsOf (b_store b) srcTP;
  wt_origin : retryOriginFromRecord r T p = Ok (mkRetryOrigin T p o0 c);
  wt_offset : is_u64 o0;
  wt_size : len (r_Payload r) <= tc_MaxMessageBytes t;
  wt_caught : caught_up (b_store b);
  wt_room : forall tp, nextOffsetOf (b_store b) tp + Z.of_nat n <= max_u64
}.

Lemma retryTopicName_ne : retryTopicName T <> T.
Proof using Type.
  unfold retryTopicName. intros E. apply (f_equal (fun s => length (chars s))) in E. rewrite !chars_app, !length_app in E. cbn in E. lia.
Qed.

(** Appending to a topic without expiry. *)
Lemma append_plain s tp ar cfg :
  topics s !! tp_Topic tp = Some cfg -> tp_Partition tp < tc_Partitions cfg -> len (ra_Payload ar) <= tc_MaxMessageBytes cfg ->
  tc_MessageTTLMS cfg = None ->
  exists s' r, AppendRecord stamp s tp ar = (s', Ok r) /\ r_Offset r = nextOffsetOf s tp.
Proof using Type.
  intros Et Hpt Hlen Hnone. unfold AppendRecord. rewrite Et, (proj2 (Z.leb_gt _ _) Hpt), (proj2 (Z.ltb_ge _ _) Hlen).
  unfold recordFromAppend, appendRecordExpiresAt. rewrite Hnone. by destruct (ra_ExpiresAtMS ar); cbn [mbind result_bind]; eexists _, _.
Qed.

Lemma aux_topic_accepts aux n :
  let cfg := normalizeTopic (auxTopicConfig t aux) in
  p < tc_Partitions cfg /\ (n <= tc_MaxMessageBytes t -> n <= tc_MaxMessageBytes cfg) /\ tc_MessageTTLMS cfg = None.
Proof using Hp Hparts.
  cbn. unfold is_u32 in Hp. destruct (Z.eqb_spec (tc_Partitions t) 0); [lia|]. split_and!; [done| |done].
  destruct (Z.eqb_spec (tc_MaxMessageBytes t) 0); lia.
Qed.

(** What is read back from the headers of a retry record. *)
Lemma retry_headers r o0 c count deliver x :
  is_u64 o0 -> is_u32 count -> is_u64 deliver ->
  r_Headers x = ra_Headers (retryRecordAppend (mkNackCommand consumer T p (r_Offset r) lastError) r (mkRetryOrigin T p o0 c) count deliver) ->
  retryOriginFromRecord x T p = Ok (mkRetryOrigin T p o0 count) /\ (forall n, deliver <= n -> retryRecordReady x n = Ok true).
Proof using HT Hp.
  intros Ho Hc Hd Eh. unfold retryOriginFromRecord, retryRecordReady. rewrite Eh. unfold retryRecordAppend. cbn [ra_Headers set_Headers].
  repeat match goal with |- context [headerUint32 ?h ?k] =>
    erewrite (headerUint32_fmt h k) by (try (rewrite !headerString_upsert; reflexivity); done) end.
  repeat match goal with |- context [headerUint64 ?h ?k] =>
    erewrite (headerUint64_fmt h k) by (try (rewrite !headerString_upsert; reflexivity); done) end.
  cbn [mbind result_bind]. split.
  - rewrite !headerString_upsert. cbn. unfold valueOr. by rewrite decide_False.
  - intros n Hn. by rewrite (proj2 (Z.leb_le _ _) Hn).
Qed.

(** One record [x] was added, to [tp0]. *)
Record put (b b' : Broker) (tp0 : TopicPartition) (x : Rec) : Prop := {
  put_inv : log_inv (b_store b');
  put_committed : committed (b_store b') = committed (b_store b);
  put_cfg : b_cfg b' = b_cfg b;
  put_records : forall tp, recordsOf (b_store b') tp = recordsOf (b_store b) tp ++ (if decide (tp0 = tp) then [x] else []);
  put_next : forall tp, nextOffsetOf (b_store b') tp = nextOffsetOf (b_store b) tp + (if decide (tp0 = tp) then 1 else 0);
  put_offset : r_Offset x = nextOffsetOf (b_store b) tp0
}.

Lemma put_after b b1 b2 tp0 x : same_log b b1 -> put b1 b2 tp0 x -> put b b2 tp0 x.
Proof using Type.
  intros (Hr & Hn & Ho & Hc) [P1 P2 P3 P4 P5 P6]. split; [done|congruence..| | |by rewrite P6].
  - intros tp. by rewrite P4, Hr.
  - intros tp. by rewrite P5, Hn.
Qed.

Lemma put_before b b1 b2 tp0 x : put b b1 tp0 x -> same_log b1 b2 -> log_inv (b_store b2) -> put b b2 tp0 x.
Proof using Type.
  intros [P1 P2 P3 P4 P5 P6] (Hr & Hn & Ho & Hc) Hi. split; [done|congruence..| | |done].
  - intros tp. by rewrite Hr.
  - intros tp. by rewrite Hn.
Qed.

Lemma publish_plain b topic partition ar cfg :
  log_inv (b_store b) -> nextOffsetOf (b_store b) (NewTopicPartition topic partition) < max_u64 ->
  topics (b_store b) !! topic = Some cfg -> partition < tc_Partitions cfg -> len (ra_Payload ar) <= tc_MaxMessageBytes cfg ->
  tc_MessageTTLMS cfg = None ->
  exists b' x, calls (fun s => PublishRecord stamp s topic partition ar) b = (b', Ok x) /\ put b b' (NewTopicPartition topic partition) x /\
    topics (b_store b') = topics (b_store b) /\ r_Headers x = ra_Headers ar /\
    content x = (ra_Key ar, ra_Payload ar, ra_Attributes ar, default stamp (ra_TimestampMS ar)).
Proof using Type.
  intros Hi Hroom Et Hpt Hlen Hnone. set (tp0 := NewTopicPartition topic partition) in *.
  destruct (append_plain (b_store b) tp0 ar cfg Et Hpt Hlen Hnone) as (s' & x & Ea & Eo).
  pose proof (AppendRecord_inv stamp (b_store b) tp0 ar Hi Hroom) as [Hi' _]. pose proof (AppendRecord_offsets stamp (b_store b) tp0 ar) as Hco.
  pose proof (fun tp => AppendRecord_log _ _ _ _ _ _ tp Ea) as Hl. destruct (AppendRecord_content _ _ _ _ _ _ Ea) as [Hc Hh].
  destruct (append_next_u64 _ tp0 Hi Hroom) as [Hu _]. unfold calls, PublishRecord. fold tp0. rewrite Ea in *. cbn [fst] in *.
  eexists _, x. split; [done|]. split_and!; [|cbn [b_store set_store]; by destruct (Hl tp0) as (_ & _ & ->)|done|done].
  split; [done|done|done| | |done]; intros tp; cbn [b_store set_store]; destruct (Hl tp) as (Hrec & Hnext & _).
  - rewrite Hrec. destruct (decide (tp0 = tp)) as [->|]; [done|by rewrite app_nil_r].
  - rewrite Hnext. destruct (decide (tp0 = tp)) as [->|]; lia.
Qed.

Lemma load_config b : topics (b_store b) !! T = Some t -> loadTopicConfig b T = Ok t.
Proof using Type. intros E. unfold loadTopicConfig, topicConfig, loadTopicConfigDirect, LoadTopicConfig. by rewrite E. Qed.

(** The refused message goes to the retry topic, once more counted. *)
Lemma nack_round b r o0 c n :
  waiting b r o0 c (S n) -> is_u32 (c + 1) ->
  exists b1 res x, applyNack now stamp (mkNackCommand consumer T p (r_Offset r) lastError) b = (b1, Ok res) /\
    put b b1 retryTP x /\ topics (b_store b1) = <[retryTopicName T := normalizeTopic (auxTopicConfig t (retryTopicName T))]> (topics (b_store b)) /\
    content x = content r /\ (forall y, r_Headers y = r_Headers x -> retryOriginFromRecord y T p = Ok (mkRetryOrigin T p o0 (c + 1))) /\
    retryRecordReady x (processRetryNowMS now (rr_DeliverAtMS res)) = Ok true.
Proof using HT Hconsumer Hp Hparts Hnow.
  intros [Hi Ht Hr Ho Hu Hlen Hc Hroom] Hcount. unfold is_u32 in Hp. unfold applyNack. cbn [nc_Consumer]. rewrite decide_False by done.
  assert (validatePartitionLocked (b_store b) srcTP = Ok tt) as Hv by (by eapply validatePartition_eq).
  unfold mbind, BM_bind. cbn [nc_Topic nc_Partition nc_Offset]. rewrite readRecordAtOffset_ok by done.
  unfold pure, reads. rewrite Ho. cbn [ro_Topic]. rewrite load_config by done. unfold mbind, BM_bind.
  pose proof (ensureAuxTopic_spec t (retryTopicName T) b Hi ltac:(done) ltac:(lia)) as Haux.
  destruct (ensureAuxTopic t (retryTopicName T) b) as [b1 r1]. destruct Haux as (-> & Hi1 & Hs1 & Ht1).
  unfold publishRetryRecord, mbind, BM_bind. cbn [ro_RetryCount ro_Partition]. rewrite u32_small by done.
  set (deliver := u64 _). set (ar := retryRecordAppend _ _ _ _ _).
  destruct (aux_topic_accepts (retryTopicName T) (len (r_Payload r))) as (A1 & A2 & A3).
  destruct (publish_plain b1 (retryTopicName T) p ar (normalizeTopic (auxTopicConfig t (retryTopicName T)))) as (b2 & x & Ec & Hput & Htop & Hh & Hcon);
    [done| |by rewrite Ht1, lookup_insert_eq|done|by apply A2|done|].
  { destruct Hs1 as (_ & -> & _). specialize (Hroom retryTP). lia. }
  rewrite Ec. assert (is_u64 deliver) as Hdel by apply is_u64_u64.
  assert (forall y, r_Headers y = r_Headers x -> retryOriginFromRecord y T p = Ok (mkRetryOrigin T p o0 (c + 1))) as Hor
    by (intros y Ey; apply (retry_headers r o0 c (c + 1) deliver y Hu Hcount Hdel); rewrite Ey; exact Hh).
  destruct (retry_headers r o0 c (c + 1) deliver x Hu Hcount Hdel Hh) as [_ Hready].
  eexists b2, _, x. split; [done|]. split_and!; [by eapply put_after|congruence|exact Hcon|exact Hor|].
  cbn [rr_DeliverAtMS]. apply Hready. unfold processRetryNowMS. destruct (Z.eqb_spec deliver 0); lia.
Qed.

(** Below the limit the worker puts it back. *)
Lemma move_back b x o0 c :
  log_inv (b_store b) -> topics (b_store b) !! T = Some t -> nextOffsetOf (b_store b) srcTP < max_u64 ->
  len (r_Payload x) <= tc_MaxMessageBytes t -> retryOriginFromRecord x T p = Ok (mkRetryOrigin T p o0 c) ->
  c < trp_MaxAttempts (tc_RetryPolicy t) ->
  exists b' y, processDueRetryRecord stamp x T p b = (b', Ok false) /\ put b b' srcTP y /\ topics (b_store b') = topics (b_store b) /\
    content y = content x /\ r_Headers y = r_Headers x.
Proof using Hparts Hprio Httl.
  intros Hi Ht Hroom Hlen Ho Hlt. unfold processDueRetryRecord, mbind, BM_bind, pure, reads at 1. rewrite Ho. cbn [ro_Topic].
  rewrite load_config by done. unfold moveRetryRecord. cbn [ro_RetryCount ro_Topic ro_Partition]. rewrite (proj2 (Z.ltb_lt _ _) Hlt).
  unfold mbind, BM_bind, pure, normalizeRecordsPriority. rewrite Hprio. cbn [negb].
  destruct (publish_plain b T p (cloneAsAppend x) t) as (b' & y & -> & Hput & Htop & Hh & Hcon); try done.
  exists b', y. by split_and!.
Qed.

(** At the limit it becomes a dead letter that knows where it comes from. *)
Lemma move_dead b x o0 c :
  log_inv (b_store b) -> topics (b_store b) !! T = Some t -> nextOffsetOf (b_store b) deadTP < max_u64 ->
  len (r_Payload x) <= tc_MaxMessageBytes t -> retryOriginFromRecord x T p = Ok (mkRetryOrigin T p o0 c) ->
  is_u64 o0 -> is_u32 c -> trp_MaxAttempts (tc_RetryPolicy t) <= c ->
  exists b' y d, processDueRetryRecord stamp x T p b = (b', Ok true) /\ put b b' deadTP y /\
    content y = content x /\ dlqRecordFromStore dead p y = Ok d /\
    dr_OriginalTopic d = T /\ dr_OriginalPartition d = p /\ dr_OriginalOffset d = o0 /\ dr_RetryCount d = c /\
    dr_ErrorCode d = dlqErrorCodeRetryExhausted.
Proof using HT Hp Hparts.
  intros Hi Ht Hroom Hlen Ho Hu Hcu Hle. pose proof Hp as Hp'. unfold is_u32 in Hp'.
  unfold processDueRetryRecord, mbind, BM_bind, pure, reads at 1. rewrite Ho. cbn [ro_Topic]. rewrite load_config by done.
  unfold moveRetryRecord. cbn [ro_RetryCount ro_Topic ro_Partition]. rewrite (proj2 (Z.ltb_ge _ _) Hle). unfold mbind, BM_bind.
  pose proof (ensureAuxTopic_spec t dead b Hi (deadLetterTopicOf_ne t T) ltac:(lia)) as Haux.
  destruct (ensureAuxTopic t dead b) as [b1 r1]. destruct Haux as (-> & Hi1 & Hs1 & Ht1).
  set (ar := buildDLQAppend x _). destruct (aux_topic_accepts dead (len (r_Payload x))) as (A1 & A2 & A3).
  destruct (publish_plain b1 dead p ar (normalizeTopic (auxTopicConfig t dead))) as (b2 & y & -> & Hput & Htop & Hh & Hcon);
    [done| |by rewrite Ht1, lookup_insert_eq|done|by apply A2|done|].
  { destruct Hs1 as (_ & -> & _). done. }
  assert (exists d, dlqRecordFromStore dead p y = Ok d /\ dr_OriginalTopic d = T /\ dr_OriginalPartition d = p /\ dr_OriginalOffset d = o0 /\
    dr_RetryCount d = c /\ dr_ErrorCode d = dlqErrorCodeRetryExhausted) as (d & Ed & D1 & D2 & D3 & D4 & D5).
  { unfold dlqRecordFromStore, requiredHeaderUint32, requiredHeaderUint64. rewrite Hh. unfold ar, buildDLQAppend, dlqAppend, dlqHeaders.
    cbn [ra_Headers ro_Topic ro_Partition ro_Offset ro_RetryCount].
    repeat match goal with |- context [headerUint32 ?h ?k] =>
      erewrite (headerUint32_fmt h k) by (try (rewrite !headerString_upsert; reflexivity); done) end.
    repeat match goal with |- context [headerUint64 ?h ?k] =>
      erewrite (headerUint64_fmt h k) by (try (rewrite !headerString_upsert; reflexivity); done) end.
    cbn [mbind result_bind]. eexists. split; [done|]. cbn [dr_OriginalTopic dr_OriginalPartition dr_OriginalOffset dr_RetryCount dr_ErrorCode].
    rewrite !headerString_upsert. by split_and!. }
  pose proof (saveDLQIndex_same dead p y b2) as Hsave. unfold saveDLQIndexFromRecord, mbind, BM_bind, pure, dlqIndexEntryFromStore in *.
  rewrite Ed in *. cbn [mbind result_bind] in *. unfold calls, SaveDLQIndex, validateDLQIndexEntry in *.
  cbn [dlq_DLQTopic dlq_OriginalTopic] in *. rewrite D1 in *.
  rewrite !decide_False in * by (done || apply deadLetterTopicOf_ne).
  destruct Hsave as (Hs3 & Hi3 & _). eexists _, y, d. split; [done|].
  split_and!; [|exact Hcon|done..]. eapply put_after; [exact Hs1|]. eapply put_before; [exact Hput|exact Hs3|apply Hi3, Hput].
Qed.

(** The worker fetches exactly the new record. *)
Lemma fetch_one b b1 x deliver :
  log_inv (b_store b) -> caught_up (b_store b) -> put b b1 retryTP x ->
  topics (b_store b1) !! retryTopicName T = Some (normalizeTopic (auxTopicConfig t (retryTopicName T))) ->
  fetchRetryRecords (mkProcessRetryCommand worker T p 1 deliver) (retryTopicName T) b1 = (b1, Ok [x]).
Proof using Hp Hparts.
  intros Hi [Hun Hpos] [P1 P2 P3 P4 P5 P6] Ht. unfold fetchRetryRecords, reads. cbn [pc_Consumer pc_Partition pc_MaxRecords].
  destruct (aux_topic_accepts (retryTopicName T) 0) as (A1 & _).
  assert (validatePartitionLocked (b_store b1) retryTP = Ok tt) as Hv by (by eapply validatePartition_eq).
  specialize (P4 retryTP). specialize (P5 retryTP). rewrite decide_True in P4 by done. rewrite decide_True in P5 by done.
  assert (position (b_store b1) worker retryTP = position (b_store b) worker retryTP) as Epos.
  { apply (position_append worker (retryTopicName T) p (b_store b) (b_store b1) [x]); [done|done| |by rewrite P5|by apply load_committed].
    cbn. by rewrite P6. }
  change (processRetryMaxRecords b1 1) with 1.
  destruct (Fetch_spec (b_store b1) worker (retryTopicName T) p 1) as (res & -> & Hrecs & _); [done|done|lia|].
  cbn [of_store mbind result_bind]. rewrite Hrecs. unfold unread. rewrite Epos, P4, filter_app. unfold unread in Hun. rewrite Hun.
  rewrite filter_cons_True by (rewrite P6; done). done.
Qed.

(** After the acknowledgement nothing is left for the worker. *)
Lemma caught_after s : log_inv s -> LoadConsumerOffset s worker retryTP = Ok (Some (nextOffsetOf s retryTP)) -> caught_up s.
Proof using Type.
  intros Hi El. pose proof (log_inv_recordsOf s retryTP Hi) as [_ Hb].
  assert (logStart s retryTP <= nextOffsetOf s retryTP) as Hle.
  { unfold logStart. destruct (recordOffsets (recordsOf s retryTP)) as [|o os]; [lia|]. inversion Hb; subst. lia. }
  assert (position s worker retryTP = nextOffsetOf s retryTP) as Ep by (unfold position; rewrite El; lia).
  split; [|lia]. unfold unread. rewrite Ep. apply filter_none. unfold recordOffsets in Hb. rewrite Forall_fmap in Hb.
  eapply Forall_impl; [exact Hb|]. cbn. lia.
Qed.

Lemma process_one b b1 x b2 d dest y deliver :
  log_inv (b_store b) -> caught_up (b_store b) -> put b b1 retryTP x -> nextOffsetOf (b_store b) retryTP < max_u64 ->
  topics (b_store b1) !! retryTopicName T = Some (normalizeTopic (auxTopicConfig t (retryTopicName T))) ->
  retryRecordReady x (processRetryNowMS now deliver) = Ok true ->
  processDueRetryRecord stamp x T p b1 = (b2, Ok d) -> put b1 b2 dest y -> dest <> retryTP ->
  exists b3 res, applyProcessRetryBatch (fun _ => now) (fun _ => stamp) (mkProcessRetryCommand worker T p 1 deliver) b1 = (b3, Ok res) /\
    log_eq (b_store b2) (b_store b3) /\ caught_up (b_store b3).
Proof using Hp Hparts Hworker.
  intros Hi Hc Hput Hroom Ht Hready Hmove Hput2 Hne. unfold applyProcessRetryBatch. cbn [pc_Consumer pc_SourceTopic pc_Partition pc_NowMS].
  rewrite decide_False by done. unfold mbind, BM_bind. rewrite (fetch_one b b1 x deliver Hi Hc Hput Ht).
  cbn [processFetchedRetryRecords]. unfold mbind, BM_bind, pure. rewrite Hready. cbn [negb]. rewrite Hmove.
  set (counts := if d then _ else _). destruct counts as [m1 m2]. cbn [processFetchedRetryRecords mret BM_ret]. unfold calls.
  set (next := u64 (r_Offset x + 1)).
  pose proof (Ack_log now (b_store b2) worker (retryTopicName T) p next) as Hlog.
  pose proof (Ack_load worker (retryTopicName T) p Hworker ltac:(done) now (b_store b2) next) as Hload.
  assert ((Ack now (b_store b2) worker (retryTopicName T) p next).2 = Ok tt) as Hok.
  { unfold Ack, SaveConsumerOffset, SaveConsumerOffsetState, validateConsumerOffsetState. cbn [cos_Consumer cos_Topic tp_Topic]. by rewrite decide_False by done. }
  destruct (Ack now (b_store b2) worker (retryTopicName T) p next) as [s3 r3]. cbn [fst snd] in *. subst r3. cbn [of_store].
  eexists _, _. split; [done|]. cbn [b_store set_store]. split; [done|]. apply caught_after; [rewrite <- Hlog; apply Hput2|].
  rewrite Hload. do 2 f_equal. unfold nextOffsetOf, recordsOf. destruct Hlog as (_ & _ & -> & ->).
  change (next = nextOffsetOf (b_store b2) retryTP). rewrite (put_next _ _ _ _ Hput2), (put_next _ _ _ _ Hput).
  rewrite (decide_False _ _ Hne), (decide_True _ _ eq_refl). unfold next. rewrite (put_offset _ _ _ _ Hput).
  destruct (append_next_u64 _ retryTP Hi Hroom) as [-> _]. lia.
Qed.

(** The whole way. *)
Lemma refuse_until_dead n b r o0 c :
  waiting b r o0 c (S n) -> 0 <= c -> c + 1 + Z.of_nat n = trp_MaxAttempts (tc_RetryPolicy t) ->
  exists b' y d, refuse (S n) (r_Offset r) b = (b', Ok tt) /\
    recordsOf (b_store b') deadTP = recordsOf (b_store b) deadTP ++ [y] /\ content y = content r /\
    dlqRecordFromStore dead p y = Ok d /\ dr_OriginalTopic d = T /\ dr_OriginalPartition d = p /\ dr_OriginalOffset d = o0 /\
    dr_RetryCount d = trp_MaxAttempts (tc_RetryPolicy t) /\ dr_ErrorCode d = dlqErrorCodeRetryExhausted.
Proof using All.
  revert b r c. induction n as [|n IH]; intros b r c Hw Hc0 Hn.
  all: pose proof (wt_inv _ _ _ _ _ Hw) as Hi; pose proof (wt_caught _ _ _ _ _ Hw) as Hcu; pose proof (wt_room _ _ _ _ _ Hw) as Hroom.
  all: assert (is_u32 (c + 1)) as Hc1 by (unfold is_u32 in *; lia).
  all: destruct (nack_round b r o0 c _ Hw Hc1) as (b1 & res & x & En & Hput & Ht1 & Hcon & Hor & Hready).
  all: assert (topics (b_store b1) !! T = Some t) as HtT
         by (rewrite Ht1, lookup_insert_ne by apply retryTopicName_ne; apply Hw).
  all: assert (topics (b_store b1) !! retryTopicName T = Some (normalizeTopic (auxTopicConfig t (retryTopicName T)))) as HtR
         by (rewrite Ht1; apply lookup_insert_eq).
  all: assert (len (r_Payload x) <= tc_MaxMessageBytes t) as Hlen
         by (injection Hcon as _ -> _ _; apply Hw).
  - assert (nextOffsetOf (b_store b1) deadTP < max_u64) as Hroom1.
    { rewrite (put_next _ _ _ _ Hput), decide_False by congruence. specialize (Hroom deadTP). lia. }
    destruct (move_dead b1 x o0 (c + 1)) as (b2 & y & d & Em & Hput2 & Hcon2 & D); [apply Hput|done|done|done|by apply Hor|apply Hw|done|lia|].
    destruct (process_one b b1 x b2 true deadTP y (rr_DeliverAtMS res)) as (b3 & pr & Ep & He & _); try done.
    { specialize (Hroom retryTP). lia. }
    { congruence. }
    exists b3, y, d. destruct D as (D0 & D1 & D2 & D3 & D4 & D5). split.
    { cbn [refuse]. unfold mbind, BM_bind, reads. rewrite En. cbn beta iota. by rewrite Ep. }
    split_and!; [|congruence|done|done|done|done|by rewrite D4; lia|done].
    unfold recordsOf. destruct He as (_ & _ & -> & _).
    change (recordsOf (b_store b2) deadTP = recordsOf (b_store b) deadTP ++ [y]).
    rewrite (put_records _ _ _ _ Hput2), decide_True by done. rewrite (put_records _ _ _ _ Hput), decide_False by congruence. by rewrite app_nil_r.
  - assert (nextOffsetOf (b_store b1) srcTP < max_u64) as Hroom1.
    { rewrite (put_next _ _ _ _ Hput), decide_False by (intros [= E]; by apply retryTopicName_ne). specialize (Hroom srcTP). lia. }
    destruct (move_back b1 x o0 (c + 1)) as (b2 & y & Em & Hput2 & Ht2 & Hcon2 & Hh2); [apply Hput|done|done|done|by apply Hor|lia|].
    destruct (process_one b b1 x b2 false srcTP y (rr_DeliverAtMS res)) as (b3 & pr & Ep & He & Hcu3); try done.
    { specialize (Hroom retryTP). lia. }
    { intros [= E]. symmetry in E. by apply retryTopicName_ne in E. }
    assert (waiting b3 y o0 (c + 1) (S n)) as Hw3.
    { destruct He as (E1 & E2 & E3 & E4). split.
      - assert (log_eq (b_store b2) (b_store b3)) as He by done. rewrite <- He. apply Hput2.
      - by rewrite E1, Ht2.
      - unfold recordsOf. rewrite E3. change (y ∈ recordsOf (b_store b2) srcTP). rewrite (put_records _ _ _ _ Hput2), decide_True by done. set_solver.
      - by apply Hor.
      - apply Hw.
      - injection Hcon2 as _ -> _ _. done.
      - done.
      - intros tp. unfold nextOffsetOf, recordsOf. rewrite E3, E4. change (nextOffsetOf (b_store b2) tp + Z.of_nat (S n) <= max_u64).
        rewrite (put_next _ _ _ _ Hput2), (put_next _ _ _ _ Hput). specialize (Hroom tp).
        assert (srcTP <> retryTP) as Hne by (intros [= E]; by apply retryTopicName_ne). repeat destruct (decide _); subst; try done; lia. }
    destruct (IH b3 y (c + 1) Hw3) as (b' & z & d & Er & Hrec & Hcon3 & D); [lia..|].
    exists b', z, d. split.
    { cbn [refuse]. unfold mbind, BM_bind, reads. rewrite En. cbn beta iota. rewrite Ep. cbn beta iota.
      rewrite (put_offset _ _ _ _ Hput2) in Er. exact Er. }
    split_and!; [|congruence|by apply D..]. rewrite Hrec. f_equal. unfold recordsOf. destruct He as (_ & _ & -> & _).
    change (recordsOf (b_store b2) deadTP = recordsOf (b_store b) deadTP).
    rewrite (put_records _ _ _ _ Hput2), decide_False by congruence. rewrite (put_records _ _ _ _ Hput), decide_False by congruence.
    by rewrite !app_nil_r.
Qed.

End Exhaust.

(** C18: a message that is refused every time ends as a dead letter.  Take a
    topic without priorities and message expiry that allows at least one
    attempt and whose dead-letter topic is neither the topic nor its retry
    topic, a message of it that was not retried before and whose headers do not
    say that it came from elsewhere ([nack_follows_forged_header]), a worker
    that has caught up with the retry topic, and room for the new records.
    When nothing else happens, a consumer that refuses the message wherever it
    comes back does so exactly as often as the topic allows; every command on
    the way succeeds, and then the message is the one new dead letter, with its
    key, payload, attributes and timestamp, the topic, partition and offset
    where it was published and the number of attempts. *)
Theorem retry_exhausts `{BackOff} T p t consumer worker lastError now stamp b r :
  let attempts := trp_MaxAttempts (tc_RetryPolicy t) in
  let dead := deadLetterTopicOf t T in
  T <> "" -> consumer <> "" -> worker <> "" -> 0 <= now -> is_u32 p -> p < tc_Partitions t ->
  is_u32 attempts -> 0 < attempts ->
  tpp_Enabled (NormalizeTopicPriorityPolicy (tc_PriorityPolicy t)) = false -> tc_MessageTTLMS t = None ->
  dead <> T -> dead <> retryTopicName T ->
  waiting T p t worker b r (r_Offset r) 0 (Z.to_nat attempts) ->
  exists b' y d, refuse T p consumer worker lastError now stamp (Z.to_nat attempts) (r_Offset r) b = (b', Ok tt) /\
    recordsOf (b_store b') (NewTopicPartition dead p) = recordsOf (b_store b) (NewTopicPartition dead p) ++ [y] /\
    content y = content r /\ dlqRecordFromStore dead p y = Ok d /\
    dr_OriginalTopic d = T /\ dr_OriginalPartition d = p /\ dr_OriginalOffset d = r_Offset r /\
    dr_RetryCount d = attempts /\ dr_ErrorCode d = dlqErrorCodeRetryExhausted.
Proof.
  intros attempts dead HT Hc Hw Hnow Hp Hparts Hmax Hpos Hprio Httl HdT HdR Hwait.
  destruct (Z.to_nat attempts) as [|n] eqn:En; [lia|].
  apply (refuse_until_dead T p t consumer worker lastError now stamp HT Hc Hw Hp Hparts Hmax Hnow Hprio Httl HdT HdR n b r (r_Offset r) 0); [done|lia|lia].
Qed.

(** ** Concrete messages *)

(** A second, then twice as long, at most a minute. *)
Definition ex_backoff : BackOff := {| NextBackOff := fun initial _ most n => Z.min (initial * 2 ^ Z.of_nat n) most |}.

Definition ex_topic (name : string) (deadLetter : option string) : TopicConfig :=
  mkTopicConfig name 2 0 0 0 "" 0 0 None (mkTopicRetryPolicy 2 1000 60000 0) deadLetter false None "" false None ""
    (mkTopicPriorityPolicy false 0 0 0).

Definition ex_limits : BrokerConfig := mkBrokerConfig 1000000 100 10 10.

Definition ex_jobs : MemoryStore :=
  (AppendRecord 7 (MemoryStore.CreateTopic NewMemoryStore (ex_topic "jobs" None)).1 (NewTopicPartition "jobs" 1)
     (mkRecordAppend None [Byte.x6b] [] 0 None None [Byte.x61])).1.
Definition ex_worker : Broker := mkBroker ex_jobs ∅ (newBrokerShardResolver 1) ex_limits.
Definition ex_job : Rec := mkRec 0 7 [Byte.x6b] [] 0 None None [Byte.x61].

(** The job in the retry topic, due at 60. *)
Definition ex_retrying : MemoryStore :=
  (AppendRecord 9 (MemoryStore.CreateTopic ex_jobs (ex_topic "__retry.jobs" None)).1 (NewTopicPartition "__retry.jobs" 1)
     (retryRecordAppend (mkNackCommand "c" "jobs" 1 0 None) ex_job (mkRetryOrigin "jobs" 1 0 0) 1 60)).1.
Definition ex_due : Broker := mkBroker ex_retrying ∅ (newBrokerShardResolver 1) ex_limits.

Lemma ex_jobs_reachable : @log_reachable map_to_list_range ex_jobs.
Proof.
  eapply rtc_r; [|by apply (log_step_append 7 _ (NewTopicPartition "jobs" 1))]. eapply rtc_l; [apply log_step_create|apply rtc_refl].
Qed.

Lemma ex_retrying_reachable : @log_reachable map_to_list_range ex_retrying.
Proof.
  eapply rtc_r; [|by apply (log_step_append 9 _ (NewTopicPartition "__retry.jobs" 1))].
  eapply rtc_r; [apply ex_jobs_reachable|apply log_step_create].
Qed.

Lemma room_in s n : log_inv s -> map_Forall (fun _ next => next <= 1000) (nextOffsets s) -> 0 <= n <= 1000 ->
  forall tp, nextOffsetOf s tp + n <= max_u64.
Proof.
  intros Hi Hm Hn tp. unfold nextOffsetOf, max_u64. destruct (nextOffsets s !! tp) as [next|] eqn:E.
  - specialize (Hm tp next E). cbn in *. lia.
  - unfold recordsOf. rewrite (log_inv_next_None s tp Hi E). cbn. lia.
Qed.

Definition ex_process : processRetryCommand := mkProcessRetryCommand "worker" "jobs" 1 5 100.

Lemma retry_batch_conserves_witness :
  exists b' res, applyProcessRetryBatch (fun _ => 100) (fun _ => 100) ex_process ex_due = (b', Ok res) /\
    prr_MovedToOrigin res = 1 /\ LoadConsumerOffset (b_store b') "worker" (NewTopicPartition "__retry.jobs" 1) = Ok (Some 1) /\
    content <$> recordsOf (b_store b') (NewTopicPartition "jobs" 1) = [content ex_job; content ex_job].
Proof.
  assert (exists recs, fetchRetryRecords ex_process (retryTopicName "jobs") ex_due = (ex_due, Ok recs) /\ length recs = 1%nat) as (recs & Ef & El)
    by (eexists; split; vm_compute; reflexivity).
  assert (len recs = 1) as El' by (unfold len; lia). pose proof (ex_inv _ ex_retrying_reachable) as Hi.
  pose proof (retry_batch_conserves (fun _ => 100) (fun _ => 100) ex_process ex_due recs Hi Ef
    ltac:(apply room_in; [exact Hi|apply (bool_decide_unpack _); vm_compute; exact I|lia])) as Hb.
  destruct (applyProcessRetryBatch (fun _ => 100) (fun _ => 100) ex_process ex_due) as [b' r] eqn:Ea.
  assert (exists res, r = Ok res /\ prr_MovedToOrigin res = 1 /\ prr_MovedToDeadLetter res = 0) as (res & -> & Em & Ed).
  { apply (f_equal snd) in Ea. vm_compute in Ea. cbn [snd] in Ea. subst r. eexists. split; [reflexivity|]. split; reflexivity. }
  destruct Hb as (moved & rest & (D1 & _ & _ & D4 & D5) & Hm1 & Hm2 & Hload).
  assert (moved.*1.*1 = recs) as Emv.
  { rewrite Em in Hm1. rewrite Ed in Hm2. assert (length moved = 1%nat) as Hl1 by (unfold len in *; lia).
    destruct moved as [|m [|]]; [discriminate Hl1| |discriminate Hl1]. destruct recs as [|x [|]]; [discriminate El| |discriminate El].
    cbn in D1. injection D1 as -> _. reflexivity. }
  exists b', res. split; [reflexivity|]. split; [exact Em|]. split.
  - etrans; [exact Hload|]. rewrite Emv. apply (f_equal snd) in Ef. vm_compute in Ef. cbn [snd] in Ef. injection Ef as <-. vm_compute. reflexivity.
  - apply (f_equal fst) in Ea. cbn [fst] in Ea. rewrite <- Ea. vm_compute. reflexivity.
Defined.

(** Two refusals, and the job is a dead letter. *)
Lemma retry_exhausts_witness :
  exists b' y d, @refuse ex_backoff "jobs" 1 "c" "worker" None 50 50 2 0 ex_worker = (b', Ok tt) /\
    recordsOf (b_store b') (NewTopicPartition "__dlq.jobs" 1) = [y] /\ content y = content ex_job /\
    dlqRecordFromStore "__dlq.jobs" 1 y = Ok d /\ dr_OriginalOffset d = 0 /\ dr_RetryCount d = 2.
Proof.
  pose proof (ex_inv _ ex_jobs_reachable) as Hi.
  assert (waiting "jobs" 1 (normalizeTopic (ex_topic "jobs" None)) "worker" ex_worker ex_job 0 0 2) as Hw.
  { split.
    - exact Hi.
    - vm_compute. reflexivity.
    - apply (list_elem_of_lookup_2 _ 0). vm_compute. reflexivity.
    - vm_compute. reflexivity.
    - apply (bool_decide_unpack _). vm_compute. exact I.
    - vm_compute. discriminate.
    - split; [vm_compute; reflexivity|vm_compute; discriminate].
    - apply (room_in ex_jobs 2 Hi); [apply (bool_decide_unpack _); vm_compute; exact I|lia]. }
  destruct (@retry_exhausts ex_backoff "jobs" 1 (normalizeTopic (ex_topic "jobs" None)) "c" "worker" None 50 50 ex_worker ex_job)
    as (b' & y & d & H1 & H2 & H3 & H4 & _ & _ & H5 & H6 & _).
  - discriminate.
  - discriminate.
  - discriminate.
  - discriminate.
  - apply (bool_decide_unpack _). vm_compute. exact I.
  - vm_compute. reflexivity.
  - apply (bool_decide_unpack _). vm_compute. exact I.
  - vm_compute. reflexivity.
  - vm_compute. reflexivity.
  - vm_compute. reflexivity.
  - vm_compute. discriminate.
  - vm_compute. discriminate.
  - exact Hw.
  - exists b', y, d. split; [exact H1|]. split; [|split; [exact H3|split; [exact H4|split; [exact H5|exact H6]]]].
    etrans; [exact H2|]. vm_compute. reflexivity.
Defined.

(** ** What the headers can do

    The origin of a refused message is read from its headers, which the
    producer writes: a record of one topic with the header of another one is
    retried in, and delivered to, the other topic. *)
Lemma nack_follows_forged_header :
  let s := (MemoryStore.CreateTopic ex_jobs (ex_topic "other" None)).1 in
  let forged := mkRecordAppend None [] [header retryHeaderOriginalTopic "other"] 0 None None [Byte.x21] in
  let b := mkBroker (AppendRecord 8 s (NewTopicPartition "jobs" 1) forged).1 ∅ (newBrokerShardResolver 1) ex_limits in
  let '(b1, r) := @applyNack ex_backoff 50 50 (mkNackCommand "c" "jobs" 1 1 None) b in
  let b2 := (applyProcessRetryBatch (fun _ => 99999) (fun _ => 99999) (mkProcessRetryCommand "w" "other" 1 5 99999) b1).1 in
  recordsOf (b_store b) (NewTopicPartition "other" 1) = [] /\
  r_Payload <$> recordsOf (b_store b2) (NewTopicPartition "other" 1) = [[Byte.x21]].
Proof. vm_compute. split; reflexivity. Qed.

(** A query for the dead letters of a topic without any falls back to a scan
    that does not look at the topic they come from: with a shared dead-letter
    topic it returns those of the other one. *)
Lemma dlq_query_returns_other_topic :
  let s := (MemoryStore.CreateTopic (MemoryStore.CreateTopic NewMemoryStore (ex_topic "a" (Some "dead"))).1 (ex_topic "b" (Some "dead"))).1 in
  let b := mkBroker s ∅ (newBrokerShardResolver 1) ex_limits in
  let b1 := (isolatePoisonRecord 5 "b" 0 ex_job "broken" b).1 in
  let query := mkDLQQuery "a" 0 0 10 None None None None "" "" None [] in
  (dlqRes ← (@queryDLQScoped map_to_list_range "dead" "a" query 10 b1).2; Ok (dr_OriginalTopic <$> dqr_Records dlqRes)) = Ok ["b"].
Proof. vm_compute. reflexivity. Qed.
