(* ===== verification/Acks.v ===== *)
(** * Acknowledging single records and committing offsets

    [src/broker/ack_offsets.go] and the offset commands of
    [src/broker/service_apply.go] ([applyCommitOffset],
    [applyCommitOffsets] and their helpers).

    The broker reaches its log and its metadata through Go interfaces:
    [OffsetStore] is what these commands use of them, with the laws they rely
    on; [MemoryStore] is an instance.  [wrapBrokerStore] keeps the error code,
    which is what the model tracks. *)

From stdpp Require Import prelude gmap strings sorting list.
From S2P Require Import Prelude Model MemoryStore MetaStore.

#[local] Open Scope Z_scope.

(** ** The interface *)

Class OffsetStore (S : Type) := {
  PartitionOffsets_of : S -> TopicPartition -> result Code PartitionOffsetState;
  LoadConsumerOffsetState_of : S -> string -> TopicPartition -> result Code (option ConsumerOffsetState);
  SaveConsumerOffsetState_of : S -> ConsumerOffsetState -> S * result Code unit;
  save_ok : forall s st, cos_Consumer st <> "" -> cos_Topic st <> "" ->
    (SaveConsumerOffsetState_of s st).2 = Ok tt;
  load_save : forall s st, (SaveConsumerOffsetState_of s st).2 = Ok tt ->
    LoadConsumerOffsetState_of (SaveConsumerOffsetState_of s st).1 (cos_Consumer st)
      (ConsumerOffsetState_TopicPartition st) = Ok (Some (NormalizeConsumerOffsetState st))
}.

(** ** Commands *)

Record commitOffsetCommand := mkCommitOffsetCommand {
  coc_Consumer : string;
  coc_Topic : string;
  coc_Partition : Z;
  coc_NextOffset : Z;
  coc_AckOffset : option Z;
  coc_Metadata : string;
  coc_UpdatedAtMS : Z
}.

Definition pending_state (nextOffset : Z) (pending : list Z) : ConsumerOffsetState :=
  mkConsumerOffsetState "" "" 0 nextOffset pending "" 0.

(** The loop that advances over the head of the pending offsets. *)
Fixpoint drainLoop (nextOffset : Z) (pending : list Z) : Z * list Z :=
  match pending with
  | head :: rest => if head =? nextOffset then drainLoop (u64 (nextOffset + 1)) rest else (nextOffset, pending)
  | [] => (nextOffset, [])
  end.

Definition drainAckedOffsets (nextOffset : Z) (pending : list Z) : Z * list Z :=
  let state := NormalizeConsumerOffsetState (pending_state nextOffset pending) in
  let '(nextOffset, pending) := drainLoop nextOffset (cos_PendingOffsets state) in
  let state := NormalizeConsumerOffsetState (pending_state nextOffset pending) in
  (cos_NextOffset state, cos_PendingOffsets state).

Definition recordsWithoutPendingOffsets (records : list Rec) (pendingOffsets : list Z) : list Rec :=
  filter (fun record => r_Offset record ∉ pendingOffsets) records.

Section Commands.
Context {S : Type} `{OffsetStore S}.

Definition advanceAckedOffsets (s : S) (consumer : string) (tp : TopicPartition) (ackOffset : Z)
    : result Code (Z * list Z) :=
  offsets ← PartitionOffsets_of s tp;
  state ← LoadConsumerOffsetState_of s consumer tp;
  let '(nextOffset, pending) :=
    match state with
    | Some state => (Z.max (cos_NextOffset state) (pos_LogStartOffset offsets), cos_PendingOffsets state)
    | None => (pos_LogStartOffset offsets, [])
    end in
  if ackOffset <? nextOffset then Ok (nextOffset, pending)
  else Ok (drainAckedOffsets nextOffset (pending ++ [ackOffset])).

Definition applyAckOffset (nowMS : Z) (s : S) (req : commitOffsetCommand) (ackOffset : Z) : S * result Code unit :=
  let tp := NewTopicPartition (coc_Topic req) (coc_Partition req) in
  match advanceAckedOffsets s (coc_Consumer req) tp ackOffset with
  | Err e => (s, Err e)
  | Ok (nextOffset, pending) =>
      SaveConsumerOffsetState_of s
        {| cos_Consumer := coc_Consumer req; cos_Topic := coc_Topic req; cos_Partition := coc_Partition req;
           cos_NextOffset := nextOffset; cos_PendingOffsets := pending; cos_Metadata := coc_Metadata req;
           cos_UpdatedAtMS := if coc_UpdatedAtMS req =? 0 then nowMS else coc_UpdatedAtMS req |}
  end.

Definition applyCommitOffset (nowMS : Z) (s : S) (req : commitOffsetCommand) : S * result Code unit :=
  match coc_AckOffset req with
  | Some ackOffset => applyAckOffset nowMS s req ackOffset
  | None =>
      SaveConsumerOffsetState_of s
        {| cos_Consumer := coc_Consumer req; cos_Topic := coc_Topic req; cos_Partition := coc_Partition req;
           cos_NextOffset := coc_NextOffset req; cos_PendingOffsets := []; cos_Metadata := coc_Metadata req;
           cos_UpdatedAtMS := if coc_UpdatedAtMS req =? 0 then nowMS else coc_UpdatedAtMS req |}
  end.

Definition removePendingAckedRecords (s : S) (consumer : string) (tp : TopicPartition) (records : list Rec)
    : result Code (list Rec) :=
  match records with
  | [] => Ok records
  | _ =>
      state ← LoadConsumerOffsetState_of s consumer tp;
      match state with
      | None => Ok records
      | Some state =>
          match cos_PendingOffsets state with
          | [] => Ok records
          | pending => Ok (recordsWithoutPendingOffsets records pending)
          end
      end
  end.

(** ** Batches of commits

    The error of an item is its code ([None] for the empty message). *)

Definition commitOffsetApplyKey : Type := string * string * Z.

Definition commitOffsetKey (command : commitOffsetCommand) : commitOffsetApplyKey :=
  (coc_Consumer command, coc_Topic command, coc_Partition command).

Definition errorMessage (r : result Code unit) : option Code :=
  match r with Ok _ => None | Err e => Some e end.

Fixpoint applyCommitOffsetsInOrder (nowMS : Z) (s : S) (requests : list commitOffsetCommand)
    : S * list (option Code) :=
  match requests with
  | [] => (s, [])
  | command :: requests =>
      let '(s, r) := applyCommitOffset nowMS s command in
      let '(s, items) := applyCommitOffsetsInOrder nowMS s requests in
      (s, errorMessage r :: items)
  end.

Definition hasAckOffsetCommand (commands : list commitOffsetCommand) : bool :=
  existsb (fun command => match coc_AckOffset command with Some _ => true | None => false end) commands.

Definition compactCommitOffsetCommands (commands : list commitOffsetCommand)
    : gmap commitOffsetApplyKey commitOffsetCommand :=
  foldl (fun compacted command =>
           let key := commitOffsetKey command in
           match compacted !! key with
           | None => <[key := command]> compacted
           | Some existing =>
               if coc_NextOffset existing <=? coc_NextOffset command
               then <[key := command]> compacted else compacted
           end) ∅ commands.

(** The body of the [Range] over the compacted commands. *)
Definition applyCompacted (nowMS : Z) (st : S * gmap commitOffsetApplyKey Code)
    (entry : commitOffsetApplyKey * commitOffsetCommand) : S * gmap commitOffsetApplyKey Code :=
  let '(s, errorsByKey) := st in
  let '(key, command) := entry in
  match applyCommitOffset nowMS s command with
  | (s, Ok _) => (s, errorsByKey)
  | (s, Err e) => (s, <[key := e]> errorsByKey)
  end.

Definition applyCommitOffsets `{MapRange} (nowMS : Z) (s : S) (requests : list commitOffsetCommand)
    : S * list (option Code) :=
  if hasAckOffsetCommand requests then applyCommitOffsetsInOrder nowMS s requests
  else
    let compacted := compactCommitOffsetCommands requests in
    let '(s, errorsByKey) := foldl (applyCompacted nowMS) (s, ∅) (range compacted) in
    (s, (fun command => errorsByKey !! commitOffsetKey command) <$> requests).

End Commands.

(** ** The in-memory store implements the interface *)

#[global] Program Instance MemoryStore_OffsetStore : OffsetStore MemoryStore :=
  {| PartitionOffsets_of := PartitionOffsets;
     LoadConsumerOffsetState_of := LoadConsumerOffsetState;
     SaveConsumerOffsetState_of := SaveConsumerOffsetState |}.
Next Obligation.
  intros s st Hc Ht. unfold SaveConsumerOffsetState, validateConsumerOffsetState.
  assert (cos_Consumer (NormalizeConsumerOffsetState st) = cos_Consumer st) as ->
    by (unfold NormalizeConsumerOffsetState; by destruct (cos_PendingOffsets st)).
  assert (cos_Topic (NormalizeConsumerOffsetState st) = cos_Topic st) as ->
    by (unfold NormalizeConsumerOffsetState; by destruct (cos_PendingOffsets st)).
  by rewrite !decide_False.
Qed.
Next Obligation.
  intros s st. unfold SaveConsumerOffsetState, LoadConsumerOffsetState.
  destruct (validateConsumerOffsetState _); [|done]. intros _. simpl.
  assert (offsetKey (cos_Consumer (NormalizeConsumerOffsetState st))
            (ConsumerOffsetState_TopicPartition (NormalizeConsumerOffsetState st)) =
          offsetKey (cos_Consumer st) (ConsumerOffsetState_TopicPartition st)) as ->
    by (unfold NormalizeConsumerOffsetState; by destruct (cos_PendingOffsets st)).
  by rewrite lookup_insert_eq.
Qed.
