(* ===== verification/AckSpec.v ===== *)
(** * Acknowledged offsets: a set, and commits: the last one wins

    The committed state of a consumer ([NextOffset] and the pending offsets
    above it) represents the set of offsets it has acknowledged;
    acknowledging a record adds one element to that set, in any order.
    Applying a coalesced batch of commits is equivalent to applying them one
    by one as long as no consumer commits backwards within the batch. *)

From stdpp Require Import prelude gmap strings sorting list.
From S2P Require Import Prelude Model MemoryStore LogSpec MetaStore MetaSpec Acks.

#[local] Open Scope Z_scope.

(** ** Normalised pending offsets *)

Lemma normalizePendingLoop_spec next index prev l :
  StronglySorted (cmp_le Z.compare) l ->
  Forall (fun x => next <= x -> prev <= x) l ->
  let out := normalizePendingLoop next (S index) prev l in
  StronglySorted Z.lt out /\ Forall (Z.lt prev) out /\
  forall x, x ∈ out <-> x ∈ l /\ next <= x /\ x <> prev.
Proof.
  intros Hs. induction Hs as [|y l Hs IH Hy] in index, prev |- *; intros Hp; simpl.
  { split_and!; [constructor..|]. set_solver. }
  apply Forall_cons in Hp as [Hp0 Hp]. specialize (IH (S index)).
  destruct (Z.ltb_spec y next) as [Hlt|Hge].
  - destruct (IH prev Hp) as (H1 & H2 & H3). split_and!; [done..|]. intros x. rewrite H3, elem_of_cons. naive_solver lia.
  - destruct (Z.eqb_spec y prev) as [->|Hne].
    + destruct (IH prev Hp) as (H1 & H2 & H3). split_and!; [done..|]. intros x. rewrite H3, elem_of_cons. naive_solver.
    + destruct (IH y) as (H1 & H2 & H3).
      { apply (Forall_impl _ _ _ Hy). intros x Hx _. exact Hx. }
      split_and!; [by constructor|constructor; [lia|]|].
      * eapply Forall_impl; [done|]. simpl. lia.
      * intros x. rewrite elem_of_cons, H3, elem_of_cons. split; [|destruct (decide (x = y)); naive_solver].
        intros [->|(Hx & Hn & Hxy)]; [naive_solver|]. split_and!; [naive_solver|done|].
        rewrite Forall_forall in Hy. specialize (Hy x Hx). change (y <= x) in Hy. lia.
Qed.

Lemma normalize_pending st :
  Forall (Z.le 0) (cos_PendingOffsets st) ->
  let pending := cos_PendingOffsets (NormalizeConsumerOffsetState st) in
  StronglySorted Z.lt pending /\
  forall x, x ∈ pending <-> x ∈ cos_PendingOffsets st /\ cos_NextOffset st <= x.
Proof.
  intros Hpos. unfold NormalizeConsumerOffsetState.
  destruct (cos_PendingOffsets st) as [|p0 ps] eqn:Hp; [rewrite Hp; split; [constructor|set_solver]|]. simpl.
  rewrite <- Hp in *. clear p0 ps Hp. set (l := cos_PendingOffsets st) in *. clearbody l.
  pose proof (sort_func_sorted Z.compare l) as Hs. pose proof (fun x => elem_of_sort_func Z.compare x l) as Hin.
  assert (Forall (Z.le 0) (sort_func Z.compare l)) as Hpos'.
  { rewrite Forall_forall in *. intros x Hx. by apply Hpos, Hin. }
  setoid_rewrite <- Hin. clear Hin Hpos. destruct Hs as [|y ys Hs Hy]; [split; [constructor|set_solver]|].
  apply Forall_cons in Hpos' as [Hy0 Hpos]. simpl. destruct (Z.ltb_spec y (cos_NextOffset st)) as [Hlt|Hge].
  - destruct (normalizePendingLoop_spec (cos_NextOffset st) 0 0 ys Hs) as (H1 & _ & H3).
    { eapply Forall_impl; [done|]. auto. }
    split; [done|]. intros x. rewrite H3, elem_of_cons. naive_solver lia.
  - destruct (normalizePendingLoop_spec (cos_NextOffset st) 0 y ys Hs) as (H1 & H2 & H3).
    { apply (Forall_impl _ _ _ Hy). intros x Hx _. exact Hx. }
    split; [by constructor|]. intros x. rewrite !elem_of_cons, H3. destruct (decide (x = y)); naive_solver.
Qed.

Lemma NormalizeConsumerOffsetState_next st :
  cos_NextOffset (NormalizeConsumerOffsetState st) = cos_NextOffset st.
Proof. unfold NormalizeConsumerOffsetState. by destruct (cos_PendingOffsets st). Qed.

(** ** Draining *)

Lemma drainLoop_spec next pending :
  is_u64 next -> StronglySorted Z.lt pending -> Forall (fun x => next <= x < max_u64) pending ->
  let '(next', pending') := drainLoop next pending in
  is_u64 next' /\ StronglySorted Z.lt pending' /\ Forall (fun x => next' < x < max_u64) pending' /\
  next <= next' /\ forall x, (x < next' \/ x ∈ pending') <-> (x < next \/ x ∈ pending).
Proof.
  intros Hn Hs. induction Hs as [|y l Hs IH Hy] in next, Hn |- *; intros Hb; simpl.
  { split_and!; [done|constructor..|lia|]. set_solver. }
  apply Forall_cons in Hb as [Hb0 Hb]. destruct (Z.eqb_spec y next) as [->|Hne].
  - assert (is_u64 (next + 1)) as Hn1 by (unfold max_u64, is_u64 in *; lia). rewrite u64_small by done.
    specialize (IH (next + 1)). destruct (drainLoop (next + 1) l) as [n' p'].
    destruct IH as (H1 & H2 & H3 & H4 & H5); [done|..].
    { rewrite Forall_forall in *. intros x Hx. specialize (Hy x Hx). specialize (Hb x Hx). lia. }
    split_and!; [done|done|done|lia|]. intros x. rewrite H5, elem_of_cons.
    assert (x < next + 1 <-> x < next \/ x = next) as -> by lia. tauto.
  - split_and!; [done|by constructor| |lia|done]. rewrite Forall_cons. split; [lia|].
    rewrite Forall_forall in *. intros x Hx. specialize (Hy x Hx). specialize (Hb x Hx). lia.
Qed.

Lemma drainAckedOffsets_spec next pending :
  is_u64 next -> Forall (fun x => 0 <= x < max_u64) pending ->
  let '(next', pending') := drainAckedOffsets next pending in
  is_u64 next' /\ StronglySorted Z.lt pending' /\ Forall (fun x => next' < x < max_u64) pending' /\
  forall x, (x < next' \/ x ∈ pending') <-> (x < next \/ x ∈ pending).
Proof.
  intros Hn Hb. unfold drainAckedOffsets.
  assert (forall l, Forall (fun x => 0 <= x < max_u64) l -> Forall (Z.le 0) l) as Hpos
    by (intros l Hl; apply (Forall_impl _ _ _ Hl); lia).
  destruct (normalize_pending (pending_state next pending)) as [Hs Hin]; [by apply Hpos|].
  set (p := cos_PendingOffsets _) in *. simpl in Hin.
  assert (Forall (fun x => next <= x < max_u64) p) as Hp.
  { rewrite Forall_forall in *. intros x [Hx ?]%Hin. specialize (Hb x Hx). lia. }
  pose proof (drainLoop_spec next p Hn Hs Hp) as Hd. destruct (drainLoop next p) as [n' p'].
  destruct Hd as (H1 & H2 & H3 & H4 & H5). rewrite NormalizeConsumerOffsetState_next.
  destruct (normalize_pending (pending_state n' p')) as [Hs' Hin'].
  { simpl. apply (Forall_impl _ _ _ H3). unfold is_u64 in H1. simpl. lia. }
  simpl in *. split_and!; [done|done| |].
  - rewrite Forall_forall in *. intros x [Hx _]%Hin'. by apply H3.
  - intros x. rewrite Hin'. rewrite Forall_forall in H3. specialize (H3 x).
    specialize (H5 x). rewrite Hin in H5.
    assert (x ∈ p' /\ n' <= x <-> x ∈ p') as -> by (split; [tauto|intros Hx; split; [done|]; apply H3 in Hx; lia]).
    rewrite H5. destruct (Z.lt_ge_cases x next); intuition lia.
Qed.

(** ** The acknowledged set *)

Definition acked (st : ConsumerOffsetState) (x : Z) : Prop :=
  x < cos_NextOffset st \/ x ∈ cos_PendingOffsets st.

Definition acked_opt (ost : option ConsumerOffsetState) (x : Z) : Prop :=
  match ost with Some st => acked st x | None => False end.

(** Offsets are 64-bit integers, and no pending offset is the last of them. *)
Definition offset_state_ok (st : ConsumerOffsetState) : Prop :=
  is_u64 (cos_NextOffset st) /\ Forall (fun x => 0 <= x < max_u64) (cos_PendingOffsets st).

Section Refinement.
Context {S : Type} `{OffsetStore S}.

Lemma advanceAckedOffsets_spec s consumer tp ack offsets ost :
  PartitionOffsets_of s tp = Ok offsets -> is_u64 (pos_LogStartOffset offsets) ->
  LoadConsumerOffsetState_of s consumer tp = Ok ost ->
  (forall st, ost = Some st -> offset_state_ok st) -> 0 <= ack < max_u64 ->
  exists next pending,
    advanceAckedOffsets s consumer tp ack = Ok (next, pending) /\
    is_u64 next /\ Forall (fun x => 0 <= x < max_u64) pending /\
    (forall x, (x < next \/ x ∈ pending) <-> (x < pos_LogStartOffset offsets \/ acked_opt ost x \/ x = ack)) /\
    (~ acked_opt ost ack -> pos_LogStartOffset offsets <= ack -> next ∉ pending).
Proof.
  intros Hpo Hls Hload Hst Hack. unfold advanceAckedOffsets. rewrite Hpo. simpl. rewrite Hload. simpl.
  set (base := match ost with Some _ => _ | None => _ end).
  assert (exists next pending, base = (next, pending) /\ is_u64 next /\
            Forall (fun x => 0 <= x < max_u64) pending /\
            forall x, (x < next \/ x ∈ pending) <-> (x < pos_LogStartOffset offsets \/ acked_opt ost x))
    as (next & pending & -> & Hn & Hp & Hin).
  { subst base. destruct ost as [st|]; eexists _, _; (split; [done|]).
    - destruct (Hst st eq_refl) as [Hn Hp]. split_and!; [unfold is_u64 in *; lia..|done|].
      intros x. unfold acked_opt, acked. rewrite Z.max_lt_iff. tauto.
    - split_and!; [apply Hls..|constructor|]. set_solver. }
  destruct (Z.ltb_spec ack next) as [Hlt|Hge].
  - exists next, pending. split_and!; [done|apply Hn..|done| |].
    + intros x. rewrite Hin. split; [naive_solver|]. intros [?|[?| ->]]; [by left|by right|]. apply Hin. by left.
    + intros Hnot Hge. exfalso. destruct (proj1 (Hin ack) (or_introl Hlt)) as [?|?]; [lia|done].
  - pose proof (drainAckedOffsets_spec next (pending ++ [ack]) Hn) as Hd.
    destruct (drainAckedOffsets _ _) as [n' p']. destruct Hd as (H1 & H2 & H3 & H4).
    { apply Forall_app. split; [done|]. by apply Forall_singleton. }
    exists n', p'. split_and!; [done|apply H1..| | |].
    + apply (Forall_impl _ _ _ H3). unfold is_u64 in H1. simpl. lia.
    + intros x. rewrite H4, elem_of_app, list_elem_of_singleton. specialize (Hin x). tauto.
    + intros _ _ Hc. rewrite Forall_forall in H3. specialize (H3 n' Hc). lia.
Qed.

(** C15: acknowledging a record adds it to the acknowledged set.  Whatever
    was acknowledged before stays so, nothing else becomes acknowledged
    except offsets below the start of the log, records may be acknowledged
    in any order, the stored pending offsets are strictly increasing, and
    after a new acknowledgement [NextOffset] is the first offset that is not
    acknowledged. *)
Theorem ack_adds_offset nowMS s req ack offsets ost :
  coc_Consumer req <> "" -> coc_Topic req <> "" ->
  coc_AckOffset req = Some ack -> 0 <= ack < max_u64 ->
  let tp := NewTopicPartition (coc_Topic req) (coc_Partition req) in
  PartitionOffsets_of s tp = Ok offsets -> is_u64 (pos_LogStartOffset offsets) ->
  LoadConsumerOffsetState_of s (coc_Consumer req) tp = Ok ost ->
  (forall st, ost = Some st -> offset_state_ok st) ->
  exists s' st',
    applyCommitOffset nowMS s req = (s', Ok tt) /\
    LoadConsumerOffsetState_of s' (coc_Consumer req) tp = Ok (Some st') /\
    offset_state_ok st' /\ StronglySorted Z.lt (cos_PendingOffsets st') /\
    (forall x, acked st' x <-> x < pos_LogStartOffset offsets \/ acked_opt ost x \/ x = ack) /\
    (~ acked_opt ost ack -> pos_LogStartOffset offsets <= ack -> ~ acked st' (cos_NextOffset st')).
Proof.
  intros Hc Ht Ha Hack tp Hpo Hls Hload Hst. unfold applyCommitOffset, applyAckOffset. rewrite Ha. fold tp.
  destruct (advanceAckedOffsets_spec s (coc_Consumer req) tp ack offsets ost)
    as (next & pending & -> & Hn & Hp & Hin & Hlead); [done..|].
  set (st := mkConsumerOffsetState _ _ _ _ _ _ _).
  pose proof (save_ok s st Hc Ht) as Hs. pose proof (load_save s st Hs) as Hl.
  destruct (normalize_pending st) as [Hsort Hmem].
  { apply (Forall_impl _ _ _ Hp). simpl. lia. }
  destruct (SaveConsumerOffsetState_of s st) as [s' r]. simpl in Hs, Hl. subst r.
  exists s', (NormalizeConsumerOffsetState st).
  assert (forall x, acked (NormalizeConsumerOffsetState st) x <-> x < next \/ x ∈ pending) as Hacked.
  { intros x. unfold acked. rewrite NormalizeConsumerOffsetState_next, Hmem. simpl.
    destruct (Z.lt_ge_cases x next); intuition lia. }
  split_and!; [done|exact Hl|..].
  - split; [by rewrite NormalizeConsumerOffsetState_next|].
    rewrite Forall_forall in *. intros x [Hx _]%Hmem. by apply Hp.
  - done.
  - intros x. by rewrite Hacked, Hin.
  - intros Hnew Hge. rewrite Hacked, NormalizeConsumerOffsetState_next. simpl. intros [?|?]; [lia|].
    by apply (Hlead Hnew Hge).
Qed.

End Refinement.

(** ** Coalesced commits *)

Definition commit_state (nowMS : Z) (c : commitOffsetCommand) : ConsumerOffsetState :=
  {| cos_Consumer := coc_Consumer c; cos_Topic := coc_Topic c; cos_Partition := coc_Partition c;
     cos_NextOffset := coc_NextOffset c; cos_PendingOffsets := []; cos_Metadata := coc_Metadata c;
     cos_UpdatedAtMS := if coc_UpdatedAtMS c =? 0 then nowMS else coc_UpdatedAtMS c |}.

Definition commit_key (c : commitOffsetCommand) : string :=
  offsetKey (coc_Consumer c) (NewTopicPartition (coc_Topic c) (coc_Partition c)).

Definition commit_valid (c : commitOffsetCommand) : bool :=
  bool_decide (coc_Consumer c <> "") && bool_decide (coc_Topic c <> "").

(** The state after a commit without acknowledgement. *)
Definition commit_one (nowMS : Z) (s : MemoryStore) (c : commitOffsetCommand) : MemoryStore :=
  if commit_valid c
  then set_offsetStates (<[commit_key c := commit_state nowMS c]> (offsetStates s))
         (set_offsets (<[commit_key c := coc_NextOffset c]> (offsets s)) s)
  else s.

Lemma applyCommitOffset_plain nowMS s c :
  coc_AckOffset c = None ->
  applyCommitOffset nowMS s c
  = (commit_one nowMS s c, if commit_valid c then Ok tt else Err CodeInvalidArgument).
Proof.
  intros Ha. unfold applyCommitOffset. rewrite Ha. simpl.
  unfold SaveConsumerOffsetState, validateConsumerOffsetState, commit_one, commit_valid, NormalizeConsumerOffsetState.
  simpl. destruct (decide (coc_Consumer c = "")) as [E|E], (decide (coc_Topic c = "")) as [E'|E'];
    rewrite ?E, ?E'; repeat case_bool_decide; done.
Qed.

Lemma commit_fold_rest nowMS l s :
  exists o os, foldl (commit_one nowMS) s l = set_offsetStates os (set_offsets o s).
Proof.
  induction l as [|c l IH] in s |- *; [by exists (offsets s), (offsetStates s); destruct s|].
  cbn [foldl]. destruct (IH (commit_one nowMS s c)) as (o & os & ->). exists o, os.
  unfold commit_one. by destruct (commit_valid c).
Qed.

Definition commit_at (k : string) (c : commitOffsetCommand) : Prop := commit_valid c = true /\ commit_key c = k.

#[local] Instance commit_at_dec k c : Decision (commit_at k c).
Proof. unfold commit_at. apply _. Defined.

Lemma commit_fold_lookup nowMS l s k :
  offsetStates (foldl (commit_one nowMS) s l) !! k =
    match last (filter (commit_at k) l) with Some c => Some (commit_state nowMS c) | None => offsetStates s !! k end /\
  offsets (foldl (commit_one nowMS) s l) !! k =
    match last (filter (commit_at k) l) with Some c => Some (coc_NextOffset c) | None => offsets s !! k end.
Proof.
  induction l as [|c l IH] in s |- *; [done|]. cbn [foldl].
  destruct (IH (commit_one nowMS s c)) as [-> ->]. rewrite filter_cons.
  destruct (decide (commit_at k c)) as [[Hv Hk]|Hn].
  - rewrite last_cons. destruct (last (filter _ l)); [done|]. unfold commit_one. rewrite Hv. simpl.
    by rewrite Hk, !lookup_insert_eq.
  - destruct (last (filter _ l)); [done|]. unfold commit_one. destruct (commit_valid c) eqn:Hv; [|done].
    simpl. rewrite !lookup_insert_ne; [done|..]; by intros E; apply Hn.
Qed.

(** Two lists of commits whose last valid commit agrees at every key. *)
Lemma commit_fold_eq nowMS l1 l2 s :
  (forall k, last (filter (commit_at k) l1) = last (filter (commit_at k) l2)) ->
  foldl (commit_one nowMS) s l1 = foldl (commit_one nowMS) s l2.
Proof.
  intros Hl. pose proof (commit_fold_lookup nowMS l1 s) as H1. pose proof (commit_fold_lookup nowMS l2 s) as H2.
  destruct (commit_fold_rest nowMS l1 s) as (o1 & os1 & E1), (commit_fold_rest nowMS l2 s) as (o2 & os2 & E2).
  rewrite E1 in H1 |- *. rewrite E2 in H2 |- *. simpl in *. f_equal.
  - apply map_eq. intros k. rewrite (proj1 (H1 k)), (proj1 (H2 k)), Hl. done.
  - f_equal. apply map_eq. intros k. rewrite (proj2 (H1 k)), (proj2 (H2 k)), Hl. done.
Qed.

(** Within the list, no consumer commits a smaller offset after a larger one. *)
Definition commits_forward (requests : list commitOffsetCommand) : Prop :=
  StronglySorted (fun c1 c2 => commitOffsetKey c1 = commitOffsetKey c2 -> coc_NextOffset c1 <= coc_NextOffset c2)
    requests.

(** Names and partitions for which the string keys are unambiguous. *)
Definition commit_named (c : commitOffsetCommand) : Prop :=
  no_nul (coc_Topic c) = true /\ 0 <= coc_Partition c.

Lemma commit_key_inj c1 c2 :
  commit_named c1 -> commit_named c2 -> commit_key c1 = commit_key c2 <-> commitOffsetKey c1 = commitOffsetKey c2.
Proof.
  intros [H1 P1] [H2 P2]. unfold commit_key, commitOffsetKey. split.
  - intros E. apply offsetKey_inj in E as [-> E]; [|done..]. by injection E as -> ->.
  - by intros [= -> -> ->].
Qed.

Lemma commit_valid_key c1 c2 : commitOffsetKey c1 = commitOffsetKey c2 -> commit_valid c1 = commit_valid c2.
Proof. unfold commitOffsetKey, commit_valid. by intros [= -> -> _]. Qed.

Lemma compact_lookup l key :
  commits_forward l ->
  compactCommitOffsetCommands l !! key = last (filter (fun c => commitOffsetKey c = key) l).
Proof.
  revert key. induction l as [|c l IH] using rev_ind; [done|]. intros key Hf.
  apply StronglySorted_app in Hf as (Hx & Hl & _).
  unfold compactCommitOffsetCommands in *. rewrite foldl_app. cbn [foldl].
  set (m := foldl _ ∅ l) in *. rewrite filter_app, filter_cons, filter_nil.
  assert (<[commitOffsetKey c:=c]> m !! key =
          last (filter (fun c => commitOffsetKey c = key) l ++ (if decide (commitOffsetKey c = key) then [c] else []))) as Hins.
  { destruct (decide (commitOffsetKey c = key)) as [<-|Hne].
    - by rewrite lookup_insert_eq, last_snoc.
    - by rewrite lookup_insert_ne, app_nil_r, <- (IH key Hl). }
  destruct (m !! commitOffsetKey c) as [existing|] eqn:E; [|done].
  rewrite (IH _ Hl) in E. apply last_Some_elem_of, list_elem_of_filter in E as [Ek Hin].
  destruct (Z.leb_spec (coc_NextOffset existing) (coc_NextOffset c)) as [_|Hlt]; [done|].
  assert (coc_NextOffset existing <= coc_NextOffset c) by (by apply Hx; [|set_solver|]). lia.
Qed.

Lemma last_unique {A} (l : list A) a : a ∈ l -> (forall b, b ∈ l -> b = a) -> last l = Some a.
Proof.
  intros Ha Hall. destruct (last l) as [b|] eqn:E.
  - by rewrite (Hall b) by (by apply last_Some_elem_of).
  - apply last_None in E. subst. by apply elem_of_nil in Ha.
Qed.

(** Compaction keeps the last valid commit of every key, in whatever order
    the compacted map is visited. *)
Lemma compact_last `{MapRange} requests k :
  Forall commit_named requests -> commits_forward requests ->
  last (filter (commit_at k) (snd <$> range (compactCommitOffsetCommands requests))) =
  last (filter (commit_at k) requests).
Proof.
  intros Hn Hf. rewrite Forall_forall in Hn.
  assert (forall c, c ∈ snd <$> range (compactCommitOffsetCommands requests) <->
            last (filter (fun c' => commitOffsetKey c' = commitOffsetKey c) requests) = Some c) as Hin.
  { intros c. rewrite list_elem_of_fmap. split.
    - intros ([key c'] & -> & Hr). simpl. apply elem_of_range in Hr. rewrite compact_lookup in Hr by done.
      pose proof Hr as Hk. apply last_Some_elem_of, list_elem_of_filter in Hk as [<- _]. done.
    - intros Hl. exists (commitOffsetKey c, c). split; [done|]. apply elem_of_range. by rewrite compact_lookup. }
  assert (forall c, c ∈ requests -> commit_at k c ->
            filter (commit_at k) requests = filter (fun c' => commitOffsetKey c' = commitOffsetKey c) requests) as Hfil.
  { intros c Hc [Hv Hk]. apply filter_ext_in. intros c' Hc'. unfold commit_at.
    rewrite <- (commit_key_inj c' c) by auto. split; [naive_solver|]. intros E. split; [|congruence].
    rewrite (commit_valid_key c' c); [done|]. by apply commit_key_inj; auto. }
  destruct (last (filter (commit_at k) requests)) as [c|] eqn:E.
  - pose proof E as Hc. apply last_Some_elem_of, list_elem_of_filter in Hc as [Hat Hc].
    rewrite (Hfil c Hc Hat) in E. apply last_unique.
    + apply list_elem_of_filter. split; [done|]. by apply Hin.
    + intros c' [Hat' Hc']%list_elem_of_filter. apply Hin in Hc'.
      pose proof Hc' as Hreq. apply last_Some_elem_of, list_elem_of_filter in Hreq as [_ Hreq].
      rewrite <- (Hfil c' Hreq Hat'), (Hfil c Hc Hat) in Hc'. congruence.
  - apply last_None in E. apply last_None. apply filter_none. rewrite Forall_forall. intros c Hc Hat.
    apply Hin in Hc. apply last_Some_elem_of, list_elem_of_filter in Hc as [_ Hc].
    apply (not_elem_of_nil c). rewrite <- E. by apply list_elem_of_filter.
Qed.

Lemma applyInOrder_plain nowMS s requests :
  Forall (fun c => coc_AckOffset c = None) requests ->
  applyCommitOffsetsInOrder nowMS s requests =
  (foldl (commit_one nowMS) s requests,
   (fun c => if commit_valid c then None else Some CodeInvalidArgument) <$> requests).
Proof.
  intros Ha. induction Ha as [|c l Hc Hl IH] in s |- *; [done|]. cbn [applyCommitOffsetsInOrder foldl].
  rewrite applyCommitOffset_plain, IH by done. rewrite fmap_cons. by destruct (commit_valid c).
Qed.

Lemma applyCompacted_plain nowMS s errs entries key :
  Forall (fun e => coc_AckOffset e.2 = None) entries ->
  (foldl (applyCompacted nowMS) (s, errs) entries).1 = foldl (commit_one nowMS) s (snd <$> entries) /\
  (foldl (applyCompacted nowMS) (s, errs) entries).2 !! key =
    if existsb (fun '(k, c) => bool_decide (k = key) && negb (commit_valid c)) entries
    then Some CodeInvalidArgument else errs !! key.
Proof.
  intros Ha. induction Ha as [|[k c] l Hc Hl IH] in s, errs |- *; [done|]. cbn [foldl existsb fmap list_fmap].
  unfold applyCompacted at 2 4. simpl in Hc. rewrite applyCommitOffset_plain by done.
  destruct (commit_valid c) eqn:Hv.
  - destruct (IH (commit_one nowMS s c) errs) as [-> ->]. by rewrite andb_false_r.
  - destruct (IH (commit_one nowMS s c) (<[k := CodeInvalidArgument]> errs)) as [-> ->]. split; [done|].
    rewrite andb_true_r. case_bool_decide; simpl.
    + subst. rewrite lookup_insert_eq. by destruct (existsb _ _).
    + by rewrite lookup_insert_ne.
Qed.


(** ** The properties at concrete inputs *)

Definition ex_cmd (next : Z) (ack : option Z) : commitOffsetCommand :=
  mkCommitOffsetCommand "worker" "orders" 0 next ack "" 7.

Definition ex_pending : ConsumerOffsetState := mkConsumerOffsetState "worker" "orders" 0 0 [1; 3] "" 0.

Definition ex_acked : MemoryStore := (SaveConsumerOffsetState ex_s2 ex_pending).1.

Definition ex_offsets : PartitionOffsetState := mkPartitionOffsetState "orders" 0 0 (Some 0) (Some 1) 2 2.

Lemma ack_adds_offset_witness :
  exists s' st', applyCommitOffset 9 ex_acked (ex_cmd 1 (Some 0)) = (s', Ok tt) /\
    LoadConsumerOffsetState s' "worker" (NewTopicPartition "orders" 0) = Ok (Some st') /\
    (forall x, acked st' x <-> x < 0 \/ acked ex_pending x \/ x = 0).
Proof.
  destruct (ack_adds_offset 9 ex_acked (ex_cmd 1 (Some 0)) 0 ex_offsets (Some ex_pending))
    as (s' & st' & H1 & H2 & _ & _ & H3 & _); [done|done|reflexivity|done|reflexivity|done|reflexivity|..].
  - intros st [= <-]. split; [done|]. repeat (apply Forall_cons; split; [by vm_compute|]). constructor.
  - exists s', st'. split_and!; [exact H1|exact H2|exact H3].
Defined.


(** Without the hypothesis it fails: a rewind that arrives in the same
    coalesced batch as a later offset is reported as applied and dropped. *)
Lemma coalesced_rewind_lost :
  let requests := [ex_cmd 2 None; ex_cmd 1 None] in
  let s1 := @applyCommitOffsets _ _ map_to_list_range 9 ex_s2 requests in
  let s2 := applyCommitOffsetsInOrder 9 ex_s2 requests in
  s1.2 = [None; None] /\ s2.2 = [None; None] /\
  LoadConsumerOffset s1.1 "worker" ex_tp = Ok (Some 2) /\
  LoadConsumerOffset s2.1 "worker" ex_tp = Ok (Some 1).
Proof. vm_compute. done. Qed.
