(* ===== verification/Transactions.v ===== *)
(** * Transactions

    [src/broker/transaction_apply.go], [transaction_helpers.go],
    [transaction_dedupe.go], [transaction_marker.go], [transaction_types.go],
    the read-committed fetch of [transaction_fetch.go], [pause_fetch.go] and
    the fetch of [service_api.go].

    The handlers run one at a time in the state machine of the metadata
    group, so each is one step on the broker.  [now i] is what the [i]-th
    call of [NowMS] in the handler returns, [markers i] what it returns while
    the [i]-th control marker is stored.  A failing handler keeps what it has
    written before the failure. *)

From stdpp Require Import prelude gmap strings sorting list.
From S2P Require Import Prelude Model MemoryStore MetaStore Queue Idempotency Acks Headers Produce Handlers.

#[local] Open Scope Z_scope.

(** ** States *)

Definition defaultTransactionTimeoutMS : Z := 60000.

Record TransactionIdentity := mkTransactionIdentity { ti_TxID : Z; ti_ProducerID : Z; ti_ProducerEpoch : Z }.

#[export] Instance TransactionIdentity_eq_dec : EqDecision TransactionIdentity.
Proof. solve_decision. Defined.

Definition transactionIdentityFromState (state : TransactionState) : TransactionIdentity :=
  mkTransactionIdentity (ts_TxID state) (ts_ProducerID state) (ts_ProducerEpoch state).

Definition set_ts (status : string) (updated next : Z) (partitions : list TopicPartition)
    (batches : list TransactionPublishedBatch) (offsets : list TransactionOffsetCommit) (st : TransactionState)
    : TransactionState :=
  {| ts_TxID := ts_TxID st; ts_TransactionalID := ts_TransactionalID st; ts_ProducerID := ts_ProducerID st;
     ts_ProducerEpoch := ts_ProducerEpoch st; ts_Status := status; ts_TimeoutMS := ts_TimeoutMS st;
     ts_CreatedAtMS := ts_CreatedAtMS st; ts_UpdatedAtMS := updated; ts_ExpiresAtMS := ts_ExpiresAtMS st;
     ts_NextSequence := next; ts_Partitions := partitions; ts_PublishedBatches := batches; ts_OffsetCommits := offsets |}.

Definition set_Status (status : string) (updated : Z) (st : TransactionState) : TransactionState :=
  set_ts status updated (ts_NextSequence st) (ts_Partitions st) (ts_PublishedBatches st) (ts_OffsetCommits st) st.
Definition set_NextSequence (next : Z) (st : TransactionState) : TransactionState :=
  set_ts (ts_Status st) (ts_UpdatedAtMS st) next (ts_Partitions st) (ts_PublishedBatches st) (ts_OffsetCommits st) st.

Definition transactionRecordMetadata (identity : TransactionIdentity) (sequence : Z) (controlType : string)
    : TransactionRecordMetadata :=
  mkTransactionRecordMetadata (ti_TxID identity) (ti_ProducerID identity) (ti_ProducerEpoch identity) sequence controlType.

(** ** Control markers *)

Definition incrementTransactionSequence (sequence : Z) : result BrokerError Z :=
  if sequence =? max_u64 then Err (StoreError CodeInvalidArgument) else Ok (sequence + 1).

Definition appendTransactionControlMarker (nowMS : Z) (identity : TransactionIdentity) (tp : TopicPartition)
    (sequence : Z) (controlType : string) : BM unit :=
  _ ← calls (fun s => PublishRecord nowMS s (tp_Topic tp) (tp_Partition tp)
        (mkRecordAppend None [] [] 0 (Some (transactionRecordMetadata identity sequence controlType)) None []));
  mret tt.

Fixpoint appendMarkers (markers : nat -> Z) (identity : TransactionIdentity) (controlType : string) (sequence : Z)
    (partitions : list TopicPartition) : BM Z :=
  match partitions with
  | [] => mret sequence
  | tp :: partitions =>
      _ ← appendTransactionControlMarker (markers O) identity tp sequence controlType;
      next ← pure (incrementTransactionSequence sequence);
      appendMarkers (fun i => markers (S i)) identity controlType next partitions
  end.

(** The state with the sequence behind the markers. *)
Definition appendTransactionControlMarkers (markers : nat -> Z) (state : TransactionState) (controlType : string)
    : BM TransactionState :=
  if decide (controlType = TransactionControlNone) then fail (StoreError CodeInvalidArgument)
  else
    next ← appendMarkers markers (transactionIdentityFromState state) controlType (ts_NextSequence state) (ts_Partitions state);
    mret (set_NextSequence next state).

(** ** Loading and aborting *)

Definition transactionExpired (state : TransactionState) (nowMS : Z) : bool :=
  bool_decide (ts_Status state = TransactionStatusOpen) && (0 <? ts_ExpiresAtMS state) && (ts_ExpiresAtMS state <=? nowMS).

Definition abortTransactionState (markers : nat -> Z) (state : TransactionState) (nowMS : Z) : BM unit :=
  if decide (ts_Status state <> TransactionStatusOpen) then mret tt
  else
    state ← appendTransactionControlMarkers markers state TransactionControlAbort;
    calls (fun s => SaveTransaction s (set_Status TransactionStatusAborted nowMS state)).

Definition loadOpenTransaction (markers : nat -> Z) (nowMS : Z) (identity : TransactionIdentity) : BM TransactionState :=
  state ← reads (fun b => of_store (LoadTransaction (b_store b) (ti_TxID identity)));
  match state with
  | None => fail (StoreError CodeInvalidArgument)
  | Some state =>
      if decide (ts_ProducerID state <> ti_ProducerID identity \/ ts_ProducerEpoch state <> ti_ProducerEpoch identity)
      then fail (StoreError CodeInvalidArgument)
      else if decide (ts_Status state <> TransactionStatusOpen) then fail (StoreError CodeInvalidArgument)
      else if transactionExpired state nowMS then
        _ ← abortTransactionState markers state nowMS; fail (StoreError CodeUnavailable)
      else mret state
  end.

(** ** Duplicates *)

Definition publishedBatchOverlapsSequence (batch : TransactionPublishedBatch) (sequence : Z) : result BrokerError bool :=
  next ← sequenceAfterCount (tpb_BaseSequence batch) (tpb_RecordCount batch);
  Ok ((tpb_BaseSequence batch <=? sequence) && (sequence <? next)).

Definition validatePublishedBatchMatch (batch : TransactionPublishedBatch) (topic : string) (partition recordCount : Z)
    : result BrokerError unit :=
  if bool_decide (tpb_Topic batch <> topic) || negb (tpb_Partition batch =? partition) || negb (tpb_RecordCount batch =? recordCount)
  then Err (StoreError CodeInvalidArgument) else Ok tt.

Fixpoint findPublishedBatch (batches : list TransactionPublishedBatch) (topic : string) (partition baseSequence recordCount : Z)
    : result BrokerError (option TransactionPublishedBatch) :=
  match batches with
  | [] => Ok None
  | batch :: batches =>
      overlaps ← publishedBatchOverlapsSequence batch baseSequence;
      if negb overlaps then findPublishedBatch batches topic partition baseSequence recordCount
      else if negb (tpb_BaseSequence batch =? baseSequence) then Err (StoreError CodeInvalidArgument)
      else _ ← validatePublishedBatchMatch batch topic partition recordCount; Ok (Some batch)
  end.

Definition transactionRecordCount (records : Z) : result BrokerError Z :=
  if records <=? 0 then Err (StoreError CodeInvalidArgument) else uint64FromNonNegativeInt records.

(** The state, and the batch a retry repeats. *)
Definition loadWritableTransaction (markers : nat -> Z) (nowMS : Z) (identity : TransactionIdentity) (topic : string)
    (partition sequence records : Z) : BM (TransactionState * option TransactionPublishedBatch) :=
  state ← loadOpenTransaction markers nowMS identity;
  recordCount ← pure (transactionRecordCount records);
  found ← pure (findPublishedBatch (ts_PublishedBatches state) topic partition sequence recordCount);
  match found with
  | Some batch => mret (state, Some batch)
  | None =>
      if negb (sequence =? ts_NextSequence state) then fail (StoreError CodeInvalidArgument) else mret (state, None)
  end.

Definition newPublishedBatch (topic : string) (partition baseSequence : Z) (records : list Rec)
    : result BrokerError TransactionPublishedBatch :=
  match head records, last records with
  | Some first, Some final =>
      _ ← validateProducerPublishedOffsets records;
      count ← transactionRecordCount (len records);
      if r_Offset final =? max_u64 then Err (StoreError CodeInvalidArgument)
      else Ok {| tpb_Topic := topic; tpb_Partition := partition; tpb_BaseSequence := baseSequence;
                 tpb_RecordCount := count; tpb_BaseOffset := r_Offset first; tpb_LastOffset := r_Offset final;
                 tpb_NextOffset := r_Offset final + 1 |}
  | _, _ => Err (StoreError CodeCodec)
  end.

Definition sequenceForBatchRecord (base index : Z) : result BrokerError Z :=
  offset ← uint64FromNonNegativeInt index;
  if max_u64 - offset <? base then Err (StoreError CodeInvalidArgument) else Ok (base + offset).

Definition transactionMetadataMatchesIdentity (m : TransactionRecordMetadata) (identity : TransactionIdentity) (sequence : Z) : bool :=
  (trm_TxID m =? ti_TxID identity) && (trm_ProducerID m =? ti_ProducerID identity) &&
  (trm_ProducerEpoch m =? ti_ProducerEpoch identity) && (trm_Sequence m =? sequence) &&
  bool_decide (trm_ControlType m = TransactionControlNone).

Fixpoint validatePublishedBatchRecordMetadata (identity : TransactionIdentity) (base index : Z) (records : list Rec)
    : result BrokerError unit :=
  match records with
  | [] => Ok tt
  | record :: records =>
      match r_Transaction record with
      | None => Err (StoreError CodeUnavailable)
      | Some m =>
          sequence ← sequenceForBatchRecord base index;
          if negb (transactionMetadataMatchesIdentity m identity sequence) then Err (StoreError CodeUnavailable)
          else validatePublishedBatchRecordMetadata identity base (index + 1) records
      end
  end.

Definition validatePublishedBatchRecords (identity : TransactionIdentity) (batch : TransactionPublishedBatch) (records : list Rec)
    : result BrokerError unit :=
  actualCount ← uint64FromNonNegativeInt (len records);
  if negb (actualCount =? tpb_RecordCount batch) then Err (StoreError CodeUnavailable)
  else
    match head records, last records with
    | Some first, Some final =>
        if negb (r_Offset first =? tpb_BaseOffset batch) || negb (r_Offset final =? tpb_LastOffset batch)
        then Err (StoreError CodeUnavailable)
        else validatePublishedBatchRecordMetadata identity (tpb_BaseSequence batch) 0 records
    | _, _ => Err (BrokerFailure "panic")
    end.

Definition readPublishedBatch (identity : TransactionIdentity) (batch : TransactionPublishedBatch) : BM (list Rec) :=
  recordCount ← pure (intFromUint64 (tpb_RecordCount batch));
  records ← reads (fun b => of_store (ReadFrom (b_store b) (NewTopicPartition (tpb_Topic batch) (tpb_Partition batch))
                                        (tpb_BaseOffset batch) recordCount));
  _ ← pure (validatePublishedBatchRecords identity batch records);
  mret records.

(** ** Beginning *)

Definition transactionsForID `{MapRange} (s : MemoryStore) (transactionalID : string) : result BrokerError (list TransactionState) :=
  transactions ← of_store (ListTransactions s);
  Ok (filter (fun st => ts_TransactionalID st = transactionalID) (transactions : list TransactionState)).

(** The first producer id in use, and the largest epoch. *)
Definition nextTransactionProducerIdentity (txID : Z) (history : list TransactionState) : result BrokerError (Z * Z) :=
  match history with
  | [] => Ok (txID, 0)
  | _ =>
      let producerID := foldl (fun id st => if (id =? 0) && negb (ts_ProducerID st =? 0) then ts_ProducerID st else id) 0 history in
      let maxEpoch := foldl (fun epoch st => if epoch <? ts_ProducerEpoch st then ts_ProducerEpoch st else epoch) 0 history in
      let producerID := if producerID =? 0 then txID else producerID in
      if maxEpoch =? max_u64 then Err (StoreError CodeInvalidArgument) else Ok (producerID, maxEpoch + 1)
  end.

Fixpoint fenceOpenTransactions (markers : nat -> nat -> Z) (history : list TransactionState) (nowMS : Z) : BM unit :=
  match history with
  | [] => mret tt
  | state :: history =>
      if decide (ts_Status state <> TransactionStatusOpen) then fenceOpenTransactions (fun i => markers (S i)) history nowMS
      else _ ← abortTransactionState (markers O) state nowMS; fenceOpenTransactions (fun i => markers (S i)) history nowMS
  end.

Record txBeginCommand := mkTxBeginCommand { tbc_TransactionalID : string; tbc_TimeoutMS : Z }.
Record TransactionBeginResult := mkTransactionBeginResult { tbr_Identity : TransactionIdentity; tbr_ExpiresAtMS : Z; tbr_Status : string }.

Definition applyTxBegin `{MapRange} (markers : nat -> nat -> Z) (now : Z) (req : txBeginCommand) : BM TransactionBeginResult :=
  if decide (tbc_TransactionalID req = "") then fail (StoreError CodeInvalidArgument)
  else
    history ← reads (fun b => transactionsForID (b_store b) (tbc_TransactionalID req));
    let timeoutMS := if tbc_TimeoutMS req =? 0 then defaultTransactionTimeoutMS else tbc_TimeoutMS req in
    txID ← calls AllocateTransactionID;
    '(producerID, producerEpoch) ← pure (nextTransactionProducerIdentity txID history);
    _ ← fenceOpenTransactions markers history now;
    let state := {| ts_TxID := txID; ts_TransactionalID := tbc_TransactionalID req; ts_ProducerID := producerID;
                    ts_ProducerEpoch := producerEpoch; ts_Status := TransactionStatusOpen; ts_TimeoutMS := timeoutMS;
                    ts_CreatedAtMS := now; ts_UpdatedAtMS := now; ts_ExpiresAtMS := u64 (now + timeoutMS);
                    ts_NextSequence := 0; ts_Partitions := []; ts_PublishedBatches := []; ts_OffsetCommits := [] |} in
    _ ← calls (fun s => SaveTransaction s state);
    mret (mkTransactionBeginResult (transactionIdentityFromState state) (ts_ExpiresAtMS state) (ts_Status state)).

(** ** Publishing *)

Definition appendTransactionPartition (partitions : list TopicPartition) (tp : TopicPartition) : list TopicPartition :=
  if decide (tp ∈ partitions) then partitions else partitions ++ [tp].

Definition advanceTransactionAfterPublish (nowMS : Z) (state : TransactionState) (batch : TransactionPublishedBatch) : BM unit :=
  nextSequence ← pure (sequenceAfterCount (tpb_BaseSequence batch) (tpb_RecordCount batch));
  calls (fun s => SaveTransaction s
    (set_ts (ts_Status state) nowMS nextSequence
       (appendTransactionPartition (ts_Partitions state) (NewTopicPartition (tpb_Topic batch) (tpb_Partition batch)))
       (ts_PublishedBatches state ++ [batch]) (ts_OffsetCommits state) state)).

Record txPublishCommand := mkTxPublishCommand {
  tpc_Identity : TransactionIdentity;
  tpc_Sequence : Z;
  tpc_Topic : string;
  tpc_Partition : Z;
  tpc_Record : RecordAppend
}.

Record TransactionPublishResult := mkTransactionPublishResult {
  tpr_TxID : Z; tpr_Partition : Z; tpr_Record : Rec; tpr_NextOffset : Z
}.

Definition transactionPublishResult (txID partition : Z) (record : Rec) : TransactionPublishResult :=
  mkTransactionPublishResult txID partition record (u64 (r_Offset record + 1)).

Definition set_Transaction (m : TransactionRecordMetadata) (r : RecordAppend) : RecordAppend :=
  {| ra_TimestampMS := ra_TimestampMS r; ra_Key := ra_Key r; ra_Headers := ra_Headers r;
     ra_Attributes := ra_Attributes r; ra_Transaction := Some m;
     ra_ExpiresAtMS := ra_ExpiresAtMS r; ra_Payload := ra_Payload r |}.

Definition applyTxPublish (markers now : nat -> Z) (req : txPublishCommand) : BM TransactionPublishResult :=
  let identity := tpc_Identity req in
  '(state, duplicate) ← loadWritableTransaction markers (now 0%nat) identity (tpc_Topic req) (tpc_Partition req) (tpc_Sequence req) 1;
  match duplicate with
  | Some batch =>
      records ← readPublishedBatch identity batch;
      match records with
      | record :: _ => mret (transactionPublishResult (ti_TxID identity) (tpc_Partition req) record)
      | [] => fail (BrokerFailure "panic")
      end
  | None =>
      record ← reads (fun b => normalizeRecordPriorityForTopic b (tpc_Topic req) (tpc_Record req));
      let record := set_Transaction (transactionRecordMetadata identity (tpc_Sequence req) TransactionControlNone) record in
      appended ← calls (fun s => PublishRecord (now 1%nat) s (tpc_Topic req) (tpc_Partition req) record);
      batch ← pure (newPublishedBatch (tpc_Topic req) (tpc_Partition req) (tpc_Sequence req) [appended]);
      _ ← advanceTransactionAfterPublish (now 2%nat) state batch;
      mret (transactionPublishResult (ti_TxID identity) (tpc_Partition req) appended)
  end.

Record txPublishBatchCommand := mkTxPublishBatchCommand {
  tpbc_Identity : TransactionIdentity;
  tpbc_BaseSequence : Z;
  tpbc_Topic : string;
  tpbc_Partition : Z;
  tpbc_Records : list RecordAppend
}.

Record TransactionPublishBatchResult := mkTransactionPublishBatchResult {
  tbr_TxID : Z; tbr_Partition : Z; tbr_Records : list Rec; tbr_BaseOffset : Z; tbr_LastOffset : Z; tbr_NextOffset : Z
}.

Definition transactionPublishBatchResult (txID partition : Z) (records : list Rec)
    : result BrokerError TransactionPublishBatchResult :=
  match head records, last records with
  | Some first, Some final =>
      Ok (mkTransactionPublishBatchResult txID partition records (r_Offset first) (r_Offset final) (u64 (r_Offset final + 1)))
  | _, _ => Err (StoreError CodeCodec)
  end.

Fixpoint transactionalRecordBatch (identity : TransactionIdentity) (base index : Z) (records : list RecordAppend)
    : result BrokerError (list RecordAppend) :=
  match records with
  | [] => Ok []
  | record :: records =>
      sequence ← sequenceForBatchRecord base index;
      rest ← transactionalRecordBatch identity base (index + 1) records;
      Ok (set_Transaction (transactionRecordMetadata identity sequence TransactionControlNone) record :: rest)
  end.

Definition transactionalRecordBatchForRequest (b : Broker) (req : txPublishBatchCommand) : result BrokerError (list RecordAppend) :=
  normalized ← normalizeRecordsPriorityForTopic b (tpbc_Topic req) (tpbc_Records req);
  transactionalRecordBatch (tpbc_Identity req) (tpbc_BaseSequence req) 0 normalized.

Definition duplicateTxPublishBatchResult (req : txPublishBatchCommand) (duplicate : TransactionPublishedBatch)
    : BM TransactionPublishBatchResult :=
  records ← readPublishedBatch (tpbc_Identity req) duplicate;
  pure (transactionPublishBatchResult (ti_TxID (tpbc_Identity req)) (tpbc_Partition req) records).

(** [clock] while the records are appended, [now] before and after. *)
Definition applyTxPublishBatch (markers clock now : nat -> Z) (req : txPublishBatchCommand) : BM TransactionPublishBatchResult :=
  if len (tpbc_Records req) =? 0 then fail (StoreError CodeInvalidArgument)
  else
    _ ← reads (fun b => validateBatchPayload b (tpbc_Records req));
    '(state, duplicate) ← loadWritableTransaction markers (now 0%nat) (tpbc_Identity req) (tpbc_Topic req) (tpbc_Partition req)
                            (tpbc_BaseSequence req) (len (tpbc_Records req));
    match duplicate with
    | Some batch => duplicateTxPublishBatchResult req batch
    | None =>
        records ← reads (fun b => transactionalRecordBatchForRequest b req);
        appended ← calls (fun s => PublishBatchRecords clock s (tpbc_Topic req) (tpbc_Partition req) records);
        batch ← pure (newPublishedBatch (tpbc_Topic req) (tpbc_Partition req) (tpbc_BaseSequence req) appended);
        _ ← advanceTransactionAfterPublish (now 1%nat) state batch;
        pure (transactionPublishBatchResult (ti_TxID (tpbc_Identity req)) (tpbc_Partition req) appended)
    end.

(** ** Offsets *)

Record txCommitOffsetCommand := mkTxCommitOffsetCommand {
  tco_Identity : TransactionIdentity;
  tco_Offset : TransactionOffsetCommit
}.

Definition groupConsumer (group : string) : string := ("__group_offset/" +:+ group)%string.

Definition transactionOffsetConsumer (offset : TransactionOffsetCommit) : string :=
  if decide (toc_Group offset = "") then toc_Consumer offset else groupConsumer (toc_Group offset).

(** The values of the map, in any order. *)
Definition compactTransactionOffsetCommits `{MapRange} (offsets : list TransactionOffsetCommit) : list TransactionOffsetCommit :=
  values (foldl (fun (compacted : gmap commitOffsetApplyKey TransactionOffsetCommit) offset =>
    let key : commitOffsetApplyKey := (transactionOffsetConsumer offset, toc_Topic offset, toc_Partition offset) in
    match compacted !! key with
    | Some existing => if toc_NextOffset existing <=? toc_NextOffset offset then <[key := offset]> compacted else compacted
    | None => <[key := offset]> compacted
    end) ∅ offsets).

Definition applyTxCommitOffset `{MapRange} (markers now : nat -> Z) (req : txCommitOffsetCommand) : BM (Z * TransactionOffsetCommit) :=
  state ← loadOpenTransaction markers (now 0%nat) (tco_Identity req);
  let offset := tco_Offset req in
  if decide (transactionOffsetConsumer offset = "") then fail (StoreError CodeInvalidArgument)
  else
    let offsets := compactTransactionOffsetCommits (ts_OffsetCommits state ++ [offset]) in
    _ ← calls (fun s => SaveTransaction s (set_ts (ts_Status state) (now 1%nat) (ts_NextSequence state) (ts_Partitions state)
                                            (ts_PublishedBatches state) offsets state));
    mret (ti_TxID (tco_Identity req), offset).

(** ** Ending *)

Fixpoint commitOffsets (now : nat -> Z) (offsets : list TransactionOffsetCommit) : BM unit :=
  match offsets with
  | [] => mret tt
  | offset :: offsets =>
      _ ← calls (fun s => SaveConsumerOffsetState s
            (mkConsumerOffsetState (transactionOffsetConsumer offset) (toc_Topic offset) (toc_Partition offset)
               (toc_NextOffset offset) [] (toc_Metadata offset) (now O)));
      commitOffsets (fun i => now (S i)) offsets
  end.

(** [offsetTimes] are the times of the offsets, [now 1] the time of the state. *)
Definition applyTxCommit (markers offsetTimes now : nat -> Z) (identity : TransactionIdentity) : BM (Z * string) :=
  state ← loadOpenTransaction markers (now 0%nat) identity;
  state ← appendTransactionControlMarkers markers state TransactionControlCommit;
  _ ← commitOffsets offsetTimes (ts_OffsetCommits state);
  let state := set_Status TransactionStatusCommitted (now 1%nat) state in
  _ ← calls (fun s => SaveTransaction s state);
  mret (ts_TxID state, ts_Status state).

Definition applyTxAbort (markers now : nat -> Z) (identity : TransactionIdentity) : BM (Z * string) :=
  state ← loadOpenTransaction markers (now 0%nat) identity;
  state ← appendTransactionControlMarkers markers state TransactionControlAbort;
  let state := set_Status TransactionStatusAborted (now 1%nat) state in
  _ ← calls (fun s => SaveTransaction s state);
  mret (ts_TxID state, ts_Status state).

(** The loop of [applyTxExpire]: the number of expired transactions, also
    when one of them fails. *)
Fixpoint expireTransactions (markers : nat -> nat -> Z) (nowMS expired : Z) (transactions : list TransactionState) (b : Broker)
    : Broker * (Z * option BrokerError) :=
  match transactions with
  | [] => (b, (expired, None))
  | state :: transactions =>
      if negb (transactionExpired state nowMS) then expireTransactions (fun i => markers (S i)) nowMS expired transactions b
      else
        match abortTransactionState (markers O) state nowMS b with
        | (b, Err e) => (b, (expired, Some e))
        | (b, Ok _) => expireTransactions (fun i => markers (S i)) nowMS (expired + 1) transactions b
        end
  end.

Definition applyTxExpire `{MapRange} (markers : nat -> nat -> Z) (now reqNowMS : Z) (b : Broker) : Broker * (Z * option BrokerError) :=
  let nowMS := if reqNowMS =? 0 then now else reqNowMS in
  match ListTransactions (b_store b) with
  | Err e => (b, (0, Some (StoreError e)))
  | Ok transactions => expireTransactions markers nowMS 0 transactions b
  end.

(** ** Reading committed records *)

Inductive transactionRecordVisibility := transactionRecordVisible | transactionRecordHidden | transactionRecordOpen.

#[export] Instance visibility_eq_dec : EqDecision transactionRecordVisibility.
Proof. solve_decision. Defined.

(** The store's load does not fail. *)
Definition visibilityOf (s : MemoryStore) (record : Rec) : transactionRecordVisibility :=
  match r_Transaction record with
  | None => transactionRecordVisible
  | Some m =>
      if decide (trm_ControlType m <> TransactionControlNone) then transactionRecordHidden
      else
        match LoadTransaction s (trm_TxID m) with
        | Ok (Some state) =>
            if decide (ts_Status state = TransactionStatusOpen) then transactionRecordOpen
            else if decide (ts_Status state = TransactionStatusCommitted) then transactionRecordVisible
            else transactionRecordHidden
        | _ => transactionRecordOpen
        end
  end.

(** [stop], the next cursor and the visible records; [room] is how many more
    are wanted. *)
Fixpoint collectCommittedRecords (s : MemoryStore) (room : nat) (nextCursor : Z) (records : list Rec)
    : bool * Z * list Rec :=
  match records with
  | [] => (false, nextCursor, [])
  | record :: records =>
      let nextCursor := u64 (r_Offset record + 1) in
      match visibilityOf s record with
      | transactionRecordOpen => (true, r_Offset record, [])
      | transactionRecordVisible =>
          match room with
          | S (S room as room') =>
              let '(stop, cursor, visible) := collectCommittedRecords s room' nextCursor records in
              (stop, cursor, record :: visible)
          | _ => (true, nextCursor, [record])
          end
      | transactionRecordHidden => collectCommittedRecords s room nextCursor records
      end
  end.

(** The loop of [readCommittedRecords]; every turn reads at least one record,
    so more turns than records are not needed. *)
Fixpoint readCommittedLoop (fuel : nat) (s : MemoryStore) (tp : TopicPartition) (cursor : Z) (room : nat)
    : result BrokerError (list Rec * Z) :=
  match fuel with
  | O => Err (BrokerFailure "fuel")
  | S fuel =>
      match room with
      | O => Ok ([], cursor)
      | _ =>
          records ← of_store (ReadFrom s tp cursor (Z.of_nat room));
          match records with
          | [] => Ok ([], cursor)
          | _ =>
              let '(stop, nextCursor, visible) := collectCommittedRecords s room 0 records in
              if (stop : bool) then Ok (visible, nextCursor)
              else '(rest, final) ← readCommittedLoop fuel s tp nextCursor (room - length visible);
                   Ok (visible ++ rest, final)
          end
      end
  end.

Definition readCommittedRecords (s : MemoryStore) (topic : string) (partition offset maxRecords : Z)
    : result BrokerError (list Rec * Z) :=
  let tp := NewTopicPartition topic partition in
  readCommittedLoop (S (length (recordsOf s tp))) s tp offset (Z.to_nat maxRecords).

(** ** Fetching *)

Definition fetchStartOffset (s : MemoryStore) (consumer topic : string) (partition : Z) (offset : option Z) : result BrokerError Z :=
  let tp := NewTopicPartition topic partition in
  offsets ← of_store (PartitionOffsets s tp);
  match offset with
  | Some offset => Ok (Z.max offset (pos_LogStartOffset offsets))
  | None =>
      committed ← of_store (LoadConsumerOffset s consumer tp);
      Ok (match committed with
          | None => pos_LogStartOffset offsets
          | Some committed => Z.max committed (pos_LogStartOffset offsets)
          end)
  end.

Definition isConsumerPaused (s : MemoryStore) (consumer topic : string) (partition : Z) : result BrokerError bool :=
  state ← of_store (LoadConsumerPause s consumer (NewTopicPartition topic partition));
  Ok (match state with Some state => cps_Paused state | None => false end).

Definition pausedPollResult (s : MemoryStore) (consumer topic : string) (partition : Z) (offset : option Z)
    : result BrokerError (option PollResult) :=
  paused ← isConsumerPaused s consumer topic partition;
  if negb paused then Ok None
  else
    nextOffset ← fetchStartOffset s consumer topic partition offset;
    offsets ← of_store (PartitionOffsets s (NewTopicPartition topic partition));
    Ok (Some (mkPollResult [] nextOffset (pos_HighWatermark offsets) (pos_LowWatermark offsets) (pos_LogStartOffset offsets))).

Definition prepareFetchedRecords (b : Broker) (consumer topic : string) (partition : Z) (records : list Rec)
    : result BrokerError (list Rec) :=
  records ← of_store (removePendingAckedRecords (b_store b) consumer (NewTopicPartition topic partition) records);
  orderRecordsByPriority b topic records.

Definition clampMaxRecords (b : Broker) (maxRecords : Z) : Z :=
  if (maxRecords <=? 0) || (b_MaxFetchRecords b <? maxRecords) then b_MaxFetchRecords b else maxRecords.

(** Of a broker that has waited for its raft read. *)
Definition fetchScoped (b : Broker) (consumer topic : string) (partition : Z) (offset : option Z) (maxRecords : Z)
    : result BrokerError PollResult :=
  let maxRecords := clampMaxRecords b maxRecords in
  paused ← pausedPollResult (b_store b) consumer topic partition offset;
  match paused with
  | Some poll => Ok poll
  | None =>
      poll ← of_store (Fetch (b_store b) consumer topic partition offset maxRecords);
      records ← prepareFetchedRecords b consumer topic partition (pr_Records poll);
      Ok (mkPollResult records (pr_NextOffset poll) (pr_HighWatermark poll) (pr_LowWatermark poll) (pr_LogStartOffset poll))
  end.

Definition FetchIsolationReadCommitted : string := "read_committed".

Definition fetchWithIsolationScoped (b : Broker) (consumer topic : string) (partition : Z) (offset : option Z) (maxRecords : Z)
    (isolation : string) : result BrokerError PollResult :=
  if decide (isolation <> FetchIsolationReadCommitted) then fetchScoped b consumer topic partition offset maxRecords
  else
    let maxRecords := clampMaxRecords b maxRecords in
    let s := b_store b in
    paused ← pausedPollResult s consumer topic partition offset;
    match paused with
    | Some poll => Ok poll
    | None =>
        nextOffset ← fetchStartOffset s consumer topic partition offset;
        '(records, committedNextOffset) ← readCommittedRecords s topic partition nextOffset maxRecords;
        records ← prepareFetchedRecords b consumer topic partition records;
        offsets ← of_store (PartitionOffsets s (NewTopicPartition topic partition));
        Ok (mkPollResult records committedNextOffset (pos_HighWatermark offsets) (pos_LowWatermark offsets) (pos_LogStartOffset offsets))
    end.
