(* ===== verification/TransactionSpec.v ===== *)
(** * Transactions: what read-committed consumers see, and who may write

    A read-committed fetch returns the decided prefix of the log; a decided
    record never changes its visibility; a new producer fences the old one. *)

From stdpp Require Import prelude gmap strings sorting list relations.
From S2P Require Import Prelude Model MemoryStore LogSpec MetaStore MetaSpec Queue Idempotency Acks Headers Produce.
From S2P Require Import ProduceSpec Handlers Transactions.

#[local] Open Scope Z_scope.

(** ** Read committed *)

Section ReadCommitted.
Context (s : MemoryStore).

#[local] Abbreviation visible l := (filter (fun r => visibilityOf s r = transactionRecordVisible) l).
#[local] Abbreviation decided r := (visibilityOf s r <> transactionRecordOpen).

(** [collectCommittedRecords] cuts its records where it stops. *)
Lemma collect_spec room c l :
  (0 < room)%nat -> Forall (fun r => is_u64 (r_Offset r + 1)) l ->
  let '(stop, cursor, vis) := collectCommittedRecords s room c l in
  exists l1 l2, l = l1 ++ l2 /\ Forall (fun r => decided r) l1 /\ vis = visible l1 /\
    ((stop = true /\ exists r l2', l2 = r :: l2' /\ visibilityOf s r = transactionRecordOpen /\ cursor = r_Offset r /\ (length vis < room)%nat) \/
     (exists l1' r, l1 = l1' ++ [r] /\ cursor = r_Offset r + 1 /\
        ((stop = true /\ length vis = room) \/ (stop = false /\ l2 = [] /\ (length vis < room)%nat))) \/
     (stop = false /\ l = [] /\ cursor = c)).
Proof.
  revert room c. induction l as [|r l IH]; intros room c Hroom Hu; cbn [collectCommittedRecords].
  { exists [], []. split_and!; try done. right. by right. }
  apply Forall_cons in Hu as [Hr Hu]. rewrite (u64_small _ Hr).
  destruct (visibilityOf s r) eqn:Ev.
  - destruct room as [|[|room]]; [lia| |].
    + exists [r], l. rewrite filter_cons_True by done. split_and!; [done|by constructor; [congruence|]|done|].
      right. left. exists [], r. split_and!; [done|done|]. by left.
    + specialize (IH (S room) (r_Offset r + 1) ltac:(lia) Hu).
      destruct (collectCommittedRecords s (S room) (r_Offset r + 1) l) as [[stop cursor] vis].
      destruct IH as (l1 & l2 & -> & Hd & -> & Hc). exists (r :: l1), l2. rewrite filter_cons_True by done. cbn [length].
      split_and!; [done|by constructor; [congruence|]|done|].
      destruct Hc as [(? & r' & l2' & ? & ? & ? & ?)|[(l1' & r' & -> & ? & Hs)|(-> & El & ->)]].
      * left. split; [done|]. exists r', l2'. split_and!; try done. lia.
      * right. left. exists (r :: l1'), r'. split_and!; [done|done|]. destruct Hs as [[? ?]|(? & ? & ?)]; [left|right]; split_and!; try done; lia.
      * apply app_eq_nil in El as [-> ->]. right. left. exists [], r. split_and!; [done|done|]. right. split_and!; try done. cbn. lia.
  - specialize (IH room (r_Offset r + 1) Hroom Hu). destruct (collectCommittedRecords s room (r_Offset r + 1) l) as [[stop cursor] vis].
    destruct IH as (l1 & l2 & -> & Hd & -> & Hc). exists (r :: l1), l2. rewrite filter_cons_False by congruence.
    split_and!; [done|by constructor; [congruence|]|done|].
    destruct Hc as [Hc|[(l1' & r' & -> & ? & Hs)|(-> & El & ->)]]; [by left| |].
    + right. left. exists (r :: l1'), r'. by split_and!.
    + apply app_eq_nil in El as [-> ->]. right. left. exists [], r. split_and!; [done|done|]. right. split_and!; try done.
  - exists [], (r :: l). split_and!; try done. left. split; [done|]. exists r, l. by split_and!.
Qed.

Context (tp : TopicPartition).
Hypothesis Hinv : log_inv s.
Hypothesis Hvalid : validatePartitionLocked s tp = Ok tt.

#[local] Abbreviation from c := (filter (fun r => c <= r_Offset r) (recordsOf s tp)).

Lemma log_next_u64 : Forall (fun r => is_u64 (r_Offset r + 1)) (recordsOf s tp).
Proof using Hinv.
  destruct (log_inv_recordsOf s tp Hinv) as [_ Hb]. pose proof (log_inv_next_u64 s tp Hinv) as Hn. unfold recordOffsets in Hb.
  rewrite Forall_fmap in Hb. eapply Forall_impl; [exact Hb|]. unfold is_u64 in *. cbn. lia.
Qed.

Lemma from_snoc c l1 r l2 : from c = l1 ++ r :: l2 -> from (r_Offset r + 1) = l2 /\ from (r_Offset r) = r :: l2.
Proof using Hinv Hvalid.
  intros E. pose proof (log_inv_recordsOf s tp Hinv) as Hok.
  pose proof (log_ok_filter _ _ (fun r => c <= r_Offset r) Hok) as Hf. rewrite E in Hf.
  assert (c <= r_Offset r) as Hc.
  { assert (r ∈ from c) as [? _]%list_elem_of_filter by (rewrite E; set_solver). done. }
  assert (forall d, c <= d -> from d = filter (fun x => d <= r_Offset x) (from c)) as Hff.
  { intros d Hd. rewrite list_filter_filter. apply list_filter_iff. intros x. lia. }
  split.
  - rewrite Hff by lia. rewrite E. by eapply filter_after_last.
  - rewrite Hff by done. rewrite E. apply log_ok_rec_lt in Hf. apply StronglySorted_app in Hf as (H1 & _ & H2).
    inversion H2 as [|? ? _ Hall]; subst. rewrite filter_app, filter_none, filter_all; [done|..].
    + constructor; [lia|]. eapply Forall_impl; [exact Hall|]. cbn. lia.
    + apply Forall_forall. intros x Hx. specialize (H1 x r Hx ltac:(by left)). cbn in H1. lia.
Qed.

(** What the loop returns, from any cursor. *)
Lemma readCommittedLoop_spec fuel c room :
  (length (from c) < fuel)%nat ->
  exists out cursor l1, readCommittedLoop fuel s tp c room = Ok (out, cursor) /\
    from c = l1 ++ from cursor /\ Forall (fun r => decided r) l1 /\ out = visible l1 /\ (length out <= room)%nat /\
    (length out = room \/ from cursor = [] \/ exists r l2, from cursor = r :: l2 /\ visibilityOf s r = transactionRecordOpen).
Proof using Hinv Hvalid.
  revert c room. induction fuel as [|fuel IH]; intros c room Hf; [lia|]. cbn [readCommittedLoop].
  destruct room as [|room]; [exists [], c, []; split_and!; try done; by left|]. remember (S room) as n eqn:En.
  rewrite ReadFrom_ok by (done || lia). cbn [of_store mbind result_bind]. rewrite Nat2Z.id.
  destruct (take n (from c)) as [|r0 l0] eqn:Et.
  { exists [], c, []. split_and!; try done; [cbn; lia|]. right. left. destruct (from c); [done|]. by subst n. }
  rewrite <- Et. assert (Forall (fun r => is_u64 (r_Offset r + 1)) (take n (from c))) as Hu.
  { apply Forall_take, Forall_forall. intros r [_ Hr]%list_elem_of_filter. by apply (proj1 (Forall_forall _ _) log_next_u64). }
  pose proof (collect_spec n 0 (take n (from c)) ltac:(lia) Hu) as Hc.
  destruct (collectCommittedRecords s n 0 (take n (from c))) as [[stop cursor] vis].
  destruct Hc as (l1 & l2 & El & Hd & -> & Hc).
  assert (from c = l1 ++ (l2 ++ drop n (from c))) as Efrom by (rewrite app_assoc, <- El; symmetry; apply take_drop).
  destruct Hc as [(-> & r & l2' & -> & Hopen & -> & Hlt)|[(l1' & r & -> & -> & Hs)|(_ & E & _)]]; [| |by rewrite Et in E].
  - destruct (from_snoc c l1 r (l2' ++ drop n (from c)) Efrom) as [_ E2].
    exists (visible l1), (r_Offset r), l1. rewrite E2. split_and!; [done|done|done|done|lia|]. right. right. by exists r, (l2' ++ drop n (from c)).
  - rewrite <- app_assoc in Efrom. cbn [app] in Efrom.
    destruct (from_snoc c l1' r (l2 ++ drop n (from c)) Efrom) as [E1 _].
    destruct Hs as [[-> Hlen]|(-> & -> & Hlt)].
    + exists (visible (l1' ++ [r])), (r_Offset r + 1), (l1' ++ [r]). rewrite E1, <- app_assoc. split_and!; [done|done|done|done|lia|by left].
    + cbn [app] in *. assert (length (from (r_Offset r + 1)) < fuel)%nat as Hf'.
      { rewrite E1. apply (f_equal length) in Efrom. rewrite length_app in Efrom. cbn in Efrom. lia. }
      destruct (IH (r_Offset r + 1) (n - length (visible (l1' ++ [r])))%nat Hf') as (out & final & l3 & -> & E3 & Hd3 & -> & Hl3 & Hend).
      cbn [mbind result_bind]. exists (visible (l1' ++ [r]) ++ visible l3), final, ((l1' ++ [r]) ++ l3).
      rewrite <- filter_app. split_and!; [done| |by apply Forall_app|done| |].
      * rewrite <- app_assoc, <- E3, E1, <- app_assoc. exact Efrom.
      * rewrite filter_app, length_app. lia.
      * destruct Hend as [Hend|Hend]; [left; rewrite filter_app, length_app; lia|by right].
Qed.

End ReadCommitted.

(** C37: a read-committed fetch returns the decided prefix.  On a known
    partition the read always returns; what it returns are the visible records
    (not transactional, or of a committed transaction, and no control marker)
    of a prefix of the log from the start offset in which every transaction is
    decided; the cursor is the end of that prefix, so nothing is skipped and
    nothing is read twice; and when fewer records than asked for are returned
    the log ends there or the next record belongs to an open transaction. *)
Theorem read_committed_prefix s topic partition offset maxRecords :
  log_inv s -> validatePartitionLocked s (NewTopicPartition topic partition) = Ok tt -> 0 <= maxRecords ->
  exists out cursor l1,
    let from c := filter (fun r => c <= r_Offset r) (recordsOf s (NewTopicPartition topic partition)) in
    readCommittedRecords s topic partition offset maxRecords = Ok (out, cursor) /\
    from offset = l1 ++ from cursor /\
    Forall (fun r => visibilityOf s r <> transactionRecordOpen) l1 /\
    out = filter (fun r => visibilityOf s r = transactionRecordVisible) l1 /\
    len out <= maxRecords /\
    (len out < maxRecords -> from cursor = [] \/
       exists r rest, from cursor = r :: rest /\ visibilityOf s r = transactionRecordOpen).
Proof.
  intros Hinv Hvalid Hmax. unfold readCommittedRecords. set (tp := NewTopicPartition topic partition) in *.
  destruct (readCommittedLoop_spec s tp Hinv Hvalid (S (length (recordsOf s tp))) offset (Z.to_nat maxRecords))
    as (out & cursor & l1 & H1 & H2 & H3 & H4 & H5 & H6).
  { pose proof (length_filter (fun r => offset <= r_Offset r) (recordsOf s tp)). lia. }
  exists out, cursor, l1. cbn zeta. split_and!; try done; [unfold len; lia|].
  intros Hlt. destruct H6 as [E|H6]; [unfold len in Hlt; lia|done].
Qed.

(** ** What a handler does to the table of transactions *)

#[local] Abbreviation txs b := (transactions (b_store b)).

(** It leaves the table alone, ... *)
Definition quiet {A} (m : BM A) : Prop :=
  forall b, txs (m b).1 = txs b /\ nextTxID (b_store (m b).1) = nextTxID (b_store b).

(** ... or replaces the state of one transaction, once. *)
Definition touched (st : TransactionState) (b b' : Broker) : Prop :=
  (ts_TxID st < nextTxID (b_store b) -> nextTxID (b_store b') = nextTxID (b_store b)) /\
  (txs b' = txs b \/ exists st', ts_TxID st' = ts_TxID st /\ txs b' = <[ts_TxID st := st']> (txs b)).

Definition touches {A} (st : TransactionState) (m : BM A) : Prop := forall b, touched st b (m b).1.

Create HintDb tx.

Lemma quiet_ret {A} (a : A) : quiet (mret a).
Proof. by intros b. Qed.
Lemma quiet_fail {A} e : quiet (fail (A := A) e).
Proof. by intros b. Qed.
Lemma quiet_pure {A} (r : result BrokerError A) : quiet (pure r).
Proof. by intros b. Qed.
Lemma quiet_reads {A} (f : Broker -> result BrokerError A) : quiet (reads f).
Proof. by intros b. Qed.

Lemma quiet_bind {A B} (m : BM A) (k : A -> BM B) : quiet m -> (forall a, quiet (k a)) -> quiet (m ≫= k).
Proof.
  intros Hm Hk b. unfold mbind, BM_bind. destruct (Hm b) as [E1 E2]. destruct (m b) as [b1 [a|e]]; cbn [fst] in *; [|done].
  destruct (Hk a b1) as [E3 E4]. split; congruence.
Qed.

(** The store calls that append or commit leave the table alone. *)
Lemma quiet_calls {A} (f : MemoryStore -> MemoryStore * result Code A) :
  (forall s, transactions (f s).1 = transactions s /\ nextTxID (f s).1 = nextTxID s) -> quiet (calls f).
Proof. intros Hf b. unfold calls. specialize (Hf (b_store b)). by destruct (f (b_store b)). Qed.

Lemma AppendRecord_quiet nowMS s tp ar :
  transactions (AppendRecord nowMS s tp ar).1 = transactions s /\ nextTxID (AppendRecord nowMS s tp ar).1 = nextTxID s.
Proof. unfold AppendRecord. repeat case_match; done. Qed.

Lemma quiet_publish nowMS t p ar : quiet (calls (fun s => PublishRecord nowMS s t p ar)).
Proof. apply quiet_calls. intros s. apply AppendRecord_quiet. Qed.

Lemma quiet_publish_batch clock t p ars : quiet (calls (fun s => PublishBatchRecords clock s t p ars)).
Proof.
  apply quiet_calls. unfold PublishBatchRecords. intros s. induction ars as [|ar ars IH] in clock, s |- *; [done|].
  cbn [AppendRecordsBatch]. pose proof (AppendRecord_quiet (clock O) s (NewTopicPartition t p) ar) as [E1 E2].
  destruct (AppendRecord _ s _ ar) as [s1 [r|]]; [|done]. specialize (IH (fun i => clock (S i)) s1).
  destruct (AppendRecordsBatch _ s1 _ ars). cbn [fst] in *. destruct IH. split; congruence.
Qed.

Lemma quiet_offset st : quiet (calls (fun s => SaveConsumerOffsetState s st)).
Proof. apply quiet_calls. intros s. unfold SaveConsumerOffsetState. by repeat case_match. Qed.

#[local] Hint Resolve quiet_ret quiet_fail quiet_pure quiet_reads quiet_publish quiet_publish_batch quiet_offset : tx.

Lemma quiet_marker nowMS id tp seq ty : quiet (appendTransactionControlMarker nowMS id tp seq ty).
Proof. apply quiet_bind; eauto with tx. Qed.
#[local] Hint Resolve quiet_marker : tx.

Lemma quiet_markers markers id ty seq tps : quiet (appendMarkers markers id ty seq tps).
Proof.
  induction tps as [|tp tps IH] in markers, seq |- *; cbn [appendMarkers]; [eauto with tx|].
  apply quiet_bind; [eauto with tx|]. intros _. apply quiet_bind; eauto with tx.
Qed.
#[local] Hint Resolve quiet_markers : tx.

Lemma quiet_readPublishedBatch id batch : quiet (readPublishedBatch id batch).
Proof. repeat (apply quiet_bind; [eauto with tx|intros ?]). eauto with tx. Qed.

Lemma quiet_commitOffsets now offsets : quiet (commitOffsets now offsets).
Proof. induction offsets as [|o os IH] in now |- *; cbn [commitOffsets]; [eauto with tx|]. apply quiet_bind; eauto with tx. Qed.
#[local] Hint Resolve quiet_readPublishedBatch quiet_commitOffsets : tx.

Lemma touches_quiet {A} st (m : BM A) : quiet m -> touches st m.
Proof. intros Hm b. destruct (Hm b). split; [done|by left]. Qed.

Lemma touches_save st st' : ts_TxID st' = ts_TxID st -> touches st (calls (fun s => SaveTransaction s st')).
Proof.
  intros E b. unfold calls, SaveTransaction. destruct (ts_TxID st' =? 0); [split; [done|by left]|]. split.
  - intros Hlt. cbn [nextTxID set_transactions]. by rewrite (proj2 (Z.leb_gt _ _)) by lia.
  - right. exists st'. split; [done|]. rewrite <- E. by destruct (nextTxID _ <=? ts_TxID st').
Qed.

(** A quiet part, then the touching one; or the other way round. *)
Lemma touches_after {A B} st (m : BM A) (k : A -> BM B) : quiet m -> (forall a, touches st (k a)) -> touches st (m ≫= k).
Proof.
  intros Hm Hk b. unfold mbind, BM_bind. destruct (Hm b) as [E1 E2]. destruct (m b) as [b1 [a|e]]; cbn [fst] in *.
  - specialize (Hk a b1). unfold touched in *. by rewrite <- E1, <- E2.
  - split; [done|by left].
Qed.

Lemma touches_before {A B} st (m : BM A) (k : A -> BM B) : touches st m -> (forall a, quiet (k a)) -> touches st (m ≫= k).
Proof.
  intros Hm Hk b. unfold mbind, BM_bind. specialize (Hm b). destruct (m b) as [b1 [a|e]]; cbn [fst] in *; [|done].
  destruct (Hk a b1) as [E1 E2]. unfold touched in *. by rewrite E1, E2.
Qed.

Lemma markers_spec markers st ty b :
  let '(b', r) := appendTransactionControlMarkers markers st ty b in
  txs b' = txs b /\ nextTxID (b_store b') = nextTxID (b_store b) /\
  match r with Ok st' => exists next, st' = set_NextSequence next st | Err _ => True end.
Proof.
  unfold appendTransactionControlMarkers. destruct (decide _); [done|]. unfold mbind, BM_bind.
  destruct (quiet_markers markers (transactionIdentityFromState st) ty (ts_NextSequence st) (ts_Partitions st) b) as [E1 E2].
  destruct (appendMarkers _ _ _ _ _ b) as [b1 [next|e]]; cbn [fst] in *; [|done]. cbn. split_and!; [done|done|by exists next].
Qed.

(** After the markers, a save of a state with the same id. *)
Lemma touches_markers {A} markers st ty (k : TransactionState -> BM A) :
  (forall next, touches st (k (set_NextSequence next st))) -> touches st (appendTransactionControlMarkers markers st ty ≫= k).
Proof.
  intros Hk b. unfold mbind, BM_bind. pose proof (markers_spec markers st ty b) as Hm.
  destruct (appendTransactionControlMarkers markers st ty b) as [b1 [st'|e]]; destruct Hm as (E1 & E2 & Hs).
  - destruct Hs as [next ->]. specialize (Hk next b1). unfold touched in *. by rewrite <- E1, <- E2.
  - split; [done|by left].
Qed.

Lemma touches_abort markers st now : touches st (abortTransactionState markers st now).
Proof.
  unfold abortTransactionState. destruct (decide _); [apply touches_quiet; eauto with tx|].
  apply touches_markers. intros next. by apply touches_save.
Qed.

(** The handlers start with the open transaction of their identity. *)
Lemma load_open_spec markers now id b :
  match loadOpenTransaction markers now id b with
  | (b', Ok st) => b' = b /\ txs b !! ti_TxID id = Some st /\ ts_Status st = TransactionStatusOpen /\
                   ts_ProducerID st = ti_ProducerID id /\ ts_ProducerEpoch st = ti_ProducerEpoch id
  | (b', Err _) => b' = b \/ exists st, txs b !! ti_TxID id = Some st /\ ts_Status st = TransactionStatusOpen /\ touched st b b'
  end.
Proof.
  unfold loadOpenTransaction, mbind, BM_bind, reads, LoadTransaction. cbn [of_store].
  destruct (txs b !! ti_TxID id) as [st|] eqn:El; [|by left].
  destruct (decide (_ \/ _)) as [|Hid]; [by left|]. destruct (decide (ts_Status st <> _)) as [|Hs]; [by left|].
  assert (ts_Status st = TransactionStatusOpen) as Ho by (by apply dec_stable).
  destruct (transactionExpired st now).
  - pose proof (touches_abort markers st now b) as Ht. unfold mbind, BM_bind.
    destruct (abortTransactionState markers st now b) as [b1 [[]|]]; cbn [fst] in *; right; by exists st.
  - cbn. split_and!; try done; apply dec_stable; intros E; apply Hid; auto.
Qed.

(** A handler that goes on from there touches at most that transaction. *)
Lemma handler_touched {A} markers now id (k : TransactionState -> BM A) b :
  (forall st, touches st (k st)) ->
  let b' := ((loadOpenTransaction markers now id ≫= k) b).1 in
  b' = b \/ exists st, txs b !! ti_TxID id = Some st /\ ts_Status st = TransactionStatusOpen /\ touched st b b'.
Proof.
  intros Hk. cbn zeta. unfold mbind, BM_bind. pose proof (load_open_spec markers now id b) as Hl.
  destruct (loadOpenTransaction markers now id b) as [b1 [st|e]]; [|exact Hl].
  destruct Hl as (-> & El & Ho & _). right. exists st. split_and!; [done|done|apply Hk].
Qed.

(** ** Every handler touches at most one open transaction *)

Definition one_open (b b' : Broker) : Prop :=
  b' = b \/ exists st, txs b !! ts_TxID st = Some st /\ ts_Status st = TransactionStatusOpen /\ touched st b b'.

#[local] Abbreviation keyed b := (forall k st, txs b !! k = Some st -> k = ts_TxID st).

Lemma handler_one_open {A} markers now id (k : TransactionState -> BM A) b :
  keyed b -> (forall st, touches st (k st)) -> one_open b ((loadOpenTransaction markers now id ≫= k) b).1.
Proof.
  intros Hkey Hk. destruct (handler_touched markers now id k b Hk) as [->|(st & El & Ho & Ht)]; [by left|right].
  exists st. pose proof (Hkey _ _ El) as E. rewrite <- E. by split_and!.
Qed.

Lemma touches_advance now st batch : touches st (advanceTransactionAfterPublish now st batch).
Proof. apply touches_after; [eauto with tx|]. intros n. by apply touches_save. Qed.
#[local] Hint Resolve touches_advance : tx.

(** [loadWritableTransaction] is the load and quiet checks. *)
Lemma writable_one_open {A} markers now id t p seq n (k : TransactionState * option TransactionPublishedBatch -> BM A) b :
  keyed b -> (forall st d, touches st (k (st, d))) -> one_open b ((loadWritableTransaction markers now id t p seq n ≫= k) b).1.
Proof.
  intros Hkey Hk.
  assert ((loadWritableTransaction markers now id t p seq n ≫= k) b
    = (loadOpenTransaction markers now id ≫= (fun st =>
         recordCount ← pure (transactionRecordCount n);
         found ← pure (findPublishedBatch (ts_PublishedBatches st) t p seq recordCount);
         match found with
         | Some batch => k (st, Some batch)
         | None => if negb (seq =? ts_NextSequence st) then fail (StoreError CodeInvalidArgument) else k (st, None)
         end)) b) as ->.
  { unfold loadWritableTransaction, mbind, BM_bind, pure. destruct (loadOpenTransaction markers now id b) as [b1 [st|e]]; [|done].
    destruct (transactionRecordCount n) as [c|]; [|done]. destruct (findPublishedBatch _ t p seq c) as [[batch|]|]; [done| |done].
    by destruct (negb _). }
  apply handler_one_open; [done|]. intros st. apply touches_after; [eauto with tx|]. intros c.
  apply touches_after; [eauto with tx|]. intros [batch|]; [apply Hk|]. destruct (negb _); [apply touches_quiet; eauto with tx|apply Hk].
Qed.

Lemma publish_one_open markers now req b : keyed b -> one_open b (applyTxPublish markers now req b).1.
Proof.
  intros Hkey. apply writable_one_open; [done|]. intros st [batch|].
  - apply touches_quiet, quiet_bind; [eauto with tx|]. intros [|r rs]; eauto with tx.
  - repeat (apply touches_after; [solve [eauto with tx]|intros ?]). apply touches_before; eauto with tx.
Qed.

Lemma publish_batch_one_open markers clock now req b : keyed b -> one_open b (applyTxPublishBatch markers clock now req b).1.
Proof.
  intros Hkey. unfold applyTxPublishBatch. destruct (len _ =? 0); [by left|]. unfold mbind at 1, BM_bind at 1, reads at 1.
  destruct (validateBatchPayload b _); [|by left]. apply writable_one_open; [done|]. intros st [batch|].
  - apply touches_quiet, quiet_bind; eauto with tx.
  - repeat (apply touches_after; [solve [eauto with tx]|intros ?]). apply touches_before; eauto with tx.
Qed.

Lemma commit_offset_one_open `{MapRange} markers now req b : keyed b -> one_open b (applyTxCommitOffset markers now req b).1.
Proof.
  intros Hkey. apply handler_one_open; [done|]. intros st. cbn beta zeta.
  destruct (decide (transactionOffsetConsumer (tco_Offset req) = "")); [apply touches_quiet; eauto with tx|].
  apply touches_before; [by apply touches_save|eauto with tx].
Qed.

Lemma commit_one_open markers times now id b : keyed b -> one_open b (applyTxCommit markers times now id b).1.
Proof.
  intros Hkey. apply handler_one_open; [done|]. intros st. apply touches_markers. intros next.
  apply touches_after; [eauto with tx|]. intros _. apply touches_before; [by apply touches_save|eauto with tx].
Qed.

Lemma abort_one_open markers now id b : keyed b -> one_open b (applyTxAbort markers now id b).1.
Proof.
  intros Hkey. apply handler_one_open; [done|]. intros st. apply touches_markers. intros next.
  apply touches_before; [by apply touches_save|eauto with tx].
Qed.

(** ** Decided transactions stay decided *)

(** The table is keyed by id, and ids are below the next one. *)
Record tx_inv (b : Broker) : Prop := {
  ti_keyed : keyed b;
  ti_fresh : forall k st, txs b !! k = Some st -> k < nextTxID (b_store b);
  ti_next : 0 < nextTxID (b_store b) <= max_u64
}.

(** No transaction disappears, and a decided one keeps its status. *)
Definition tx_le (b b' : Broker) : Prop :=
  forall k st, txs b !! k = Some st ->
    exists st', txs b' !! k = Some st' /\ (ts_Status st <> TransactionStatusOpen -> ts_Status st' = ts_Status st).

#[local] Instance tx_le_preorder : PreOrder tx_le.
Proof.
  split.
  - intros b k st E. by exists st.
  - intros b1 b2 b3 H1 H2 k st E. destruct (H1 k st E) as (st2 & E2 & S2). destruct (H2 k st2 E2) as (st3 & E3 & S3).
    exists st3. split; [done|]. intros Hs. rewrite S3; [by apply S2|]. by rewrite S2.
Qed.

Lemma touched_le st b b' :
  tx_inv b -> txs b !! ts_TxID st = Some st -> ts_Status st = TransactionStatusOpen -> touched st b b' -> tx_inv b' /\ tx_le b b'.
Proof.
  intros [Hk Hf Hn] El Ho [Enext Ht]. specialize (Enext (Hf _ _ El)). destruct Ht as [E|(st' & Eid & E)].
  - split; [split; rewrite ?E, ?Enext; done|]. intros k x Hx. exists x. by rewrite E.
  - split.
    + split; rewrite ?E, ?Enext; [..|done]; intros k x; rewrite lookup_insert; destruct (decide _) as [<-|]; try (by apply Hk || by eapply Hf).
      * by intros [= <-].
      * intros _. by eapply Hf.
    + intros k x Hx. rewrite E, lookup_insert. destruct (decide (ts_TxID st = k)) as [<-|]; [|by exists x].
      exists st'. split; [done|]. assert (x = st) as -> by congruence. by intros Hd.
Qed.

Lemma one_open_le b b' : tx_inv b -> one_open b b' -> tx_inv b' /\ tx_le b b'.
Proof. intros Hi [->|(st & El & Ho & Ht)]; [by split|by eapply touched_le]. Qed.

(** Aborting a list of different transactions, as a fence or an expiry does. *)
Lemma abort_others markers st now b k :
  k <> ts_TxID st -> txs (abortTransactionState markers st now b).1 !! k = txs b !! k.
Proof.
  intros Hne. destruct (touches_abort markers st now b) as [_ [->|(st' & _ & ->)]]; [done|]. by rewrite lookup_insert_ne.
Qed.

Lemma fence_le markers history now b :
  tx_inv b -> NoDup (ts_TxID <$> history) -> Forall (fun st => txs b !! ts_TxID st = Some st) history ->
  let b' := (fenceOpenTransactions markers history now b).1 in
  tx_inv b' /\ tx_le b b' /\ nextTxID (b_store b') = nextTxID (b_store b) /\
  (forall k, k ∉ ts_TxID <$> history -> txs b' !! k = txs b !! k).
Proof.
  revert markers b. induction history as [|st history IH]; intros markers b Hi Hnd Hl; [by split_and!|]. cbn [fenceOpenTransactions].
  rewrite fmap_cons in Hnd. apply NoDup_cons in Hnd as [Hni Hnd]. apply Forall_cons in Hl as [El Hl].
  destruct (decide (ts_Status st <> TransactionStatusOpen)) as [Hs|Hs].
  - destruct (IH (fun i => markers (S i)) b Hi Hnd Hl) as (I1 & I2 & I3 & I4). split_and!; try done.
    intros k Hk. apply I4. rewrite fmap_cons in Hk. set_solver.
  - assert (ts_Status st = TransactionStatusOpen) as Ho by (by apply dec_stable).
    destruct (touched_le st b _ Hi El Ho (touches_abort (markers O) st now b)) as [Hi1 Hle1].
    pose proof (proj1 (touches_abort (markers O) st now b) (ti_fresh b Hi _ _ El)) as Hn1.
    pose proof (fun k => abort_others (markers O) st now b k) as Hoth.
    unfold mbind, BM_bind. destruct (abortTransactionState (markers O) st now b) as [b1 [[]|e]]; cbn [fst] in *.
    2:{ split_and!; try done. intros k Hk. apply Hoth. rewrite fmap_cons in Hk. set_solver. }
    destruct (IH (fun i => markers (S i)) b1 Hi1 Hnd) as (I1 & I2 & I3 & I4).
    { apply Forall_forall. intros x Hx. rewrite Forall_forall in Hl. rewrite Hoth; [by apply Hl|].
      intros E. apply Hni. rewrite <- E. by apply list_elem_of_fmap_2. }
    split_and!; [done|by etrans|congruence|]. intros k Hk. rewrite fmap_cons in Hk.
    rewrite I4 by set_solver. apply Hoth. set_solver.
Qed.

Lemma expire_le markers nowMS n history b :
  tx_inv b -> NoDup (ts_TxID <$> history) -> Forall (fun st => txs b !! ts_TxID st = Some st) history ->
  let b' := (expireTransactions markers nowMS n history b).1 in tx_inv b' /\ tx_le b b'.
Proof.
  revert markers n b. induction history as [|st history IH]; intros markers n b Hi Hnd Hl; [by split|]. cbn [expireTransactions].
  rewrite fmap_cons in Hnd. apply NoDup_cons in Hnd as [Hni Hnd]. apply Forall_cons in Hl as [El Hl].
  destruct (transactionExpired st nowMS) eqn:Ee; cbn [negb]; [|by apply IH].
  unfold transactionExpired in Ee. apply andb_prop in Ee as [[Ho%bool_decide_eq_true _]%andb_prop _].
  destruct (touched_le st b _ Hi El Ho (touches_abort (markers O) st nowMS b)) as [Hi1 Hle1].
  pose proof (fun k => abort_others (markers O) st nowMS b k) as Hoth.
  destruct (abortTransactionState (markers O) st nowMS b) as [b1 [[]|e]]; cbn [fst] in *; [|done].
  destruct (IH (fun i => markers (S i)) (n + 1) b1 Hi1 Hnd) as [I1 I2]; [|by split; [|etrans]].
  apply Forall_forall. intros x Hx. rewrite Forall_forall in Hl. rewrite Hoth; [by apply Hl|].
  intros E. apply Hni. rewrite <- E. by apply list_elem_of_fmap_2.
Qed.

#[local] Instance compareTxID_order : CmpOrder compareTxID.
Proof. unfold compareTxID. solve_cmp_order. Qed.

Lemma listed_transactions `{MapRange} b :
  keyed b -> exists l, ListTransactions (b_store b) = Ok l /\ (forall st, st ∈ l <-> txs b !! ts_TxID st = Some st) /\ NoDup (ts_TxID <$> l).
Proof.
  intros Hk. eexists. split; [done|]. split.
  - intros st. rewrite elem_of_sort_func, elem_of_values. split; [|by exists (ts_TxID st)].
    intros [k E]. by rewrite <- (Hk k st E).
  - rewrite sort_func_perm. pose proof (NoDup_values_by (txs b) ts_TxID (fun _ => True)) as Hnd.
    rewrite filter_all in Hnd by (by apply Forall_true). apply Hnd. intros k1 s1 k2 s2 H1 H2 _ _ E.
    apply Hk in H1 as ->. by apply Hk in H2 as ->.
Qed.

(** The transactions of one transactional id. *)
Lemma history_spec `{MapRange} b id :
  keyed b -> exists l, transactionsForID (b_store b) id = Ok l /\ NoDup (ts_TxID <$> l) /\
    (forall st, st ∈ l <-> txs b !! ts_TxID st = Some st /\ ts_TransactionalID st = id).
Proof.
  intros Hk. destruct (listed_transactions b Hk) as (l & El & Hin & Hnd). unfold transactionsForID. rewrite El. cbn [of_store mbind result_bind].
  eexists. split; [done|]. split.
  - eapply sublist_NoDup; [exact Hnd|]. apply fmap_sublist, sublist_filter.
  - intros st. rewrite list_elem_of_filter, Hin. tauto.
Qed.

(** What a begin does: it allocates, fences, and saves the new state. *)
Lemma begin_inversion `{MapRange} markers now req b history :
  tx_inv b -> nextTxID (b_store b) < max_u64 -> transactionsForID (b_store b) (tbc_TransactionalID req) = Ok history ->
  NoDup (ts_TxID <$> history) -> Forall (fun st => txs b !! ts_TxID st = Some st) history ->
  let '(b', r) := applyTxBegin markers now req b in
  tx_inv b' /\ tx_le b b' /\
  forall res, r = Ok res -> exists b1 b2 pid epoch st,
    nextTransactionProducerIdentity (nextTxID (b_store b)) history = Ok (pid, epoch) /\
    txs b1 = txs b /\ tx_inv b1 /\ fenceOpenTransactions markers history now b1 = (b2, Ok tt) /\
    txs b' = <[ts_TxID st := st]> (txs b2) /\ ts_ProducerID st = pid /\ ts_ProducerEpoch st = epoch /\
    tbr_Identity res = transactionIdentityFromState st /\ ts_TxID st = nextTxID (b_store b) /\ ts_Status st = TransactionStatusOpen.
Proof.
  intros Hi Hnext Hh Hnd Hl. unfold applyTxBegin. destruct (decide _); [by split_and!|]. unfold mbind, BM_bind, reads. rewrite Hh.
  cbn beta zeta. unfold calls at 1, AllocateTransactionID. destruct (ti_next b Hi) as [Hpos Hmax].
  rewrite (proj2 (Z.eqb_neq (nextTxID (b_store b)) 0)) by lia. remember (nextTxID (b_store b)) as txID eqn:Etx.
  rewrite u64_small by (unfold is_u64, max_u64 in *; lia). cbn [of_store].
  set (b1 := set_store (set_nextTxID (txID + 1) (b_store b)) b).
  assert (tx_inv b1) as Hi1.
  { split; [apply Hi| |cbn; lia]. intros k st E. pose proof (ti_fresh b Hi k st E). cbn. lia. }
  assert (tx_le b b1) as Hle1 by (intros k st E; by exists st).
  destruct (nextTransactionProducerIdentity txID history) as [[pid epoch]|e] eqn:Ep; unfold pure; [|by split_and!].
  destruct (fence_le markers history now b1 Hi1 Hnd Hl) as (Hi2 & Hle2 & Hn2 & Hoth2).
  destruct (fenceOpenTransactions markers history now b1) as [b2 [[]|e]] eqn:Ef; cbn [fst] in *; [|split_and!; [done|by etrans|done]].
  assert (txs b2 !! txID = None) as Hfresh.
  { rewrite Hoth2.
    - destruct (txs b1 !! txID) as [st|] eqn:E; [|done]. pose proof (ti_fresh b Hi txID st E) as Hlt. lia.
    - intros (st & E & Hin)%list_elem_of_fmap. rewrite Forall_forall in Hl. pose proof (ti_fresh b Hi _ _ (Hl st Hin)) as Hlt. lia. }
  unfold calls, SaveTransaction. cbn [ts_TxID]. rewrite (proj2 (Z.eqb_neq txID 0)) by lia.
  cbn [nextTxID set_transactions]. rewrite (proj2 (Z.leb_gt _ _)) by (rewrite Hn2; cbn; lia). cbn [of_store].
  match goal with |- context [set_transactions (<[txID := ?x]> _) _] => set (st := x) end.
  split_and!.
  - destruct Hi2 as [K2 F2 N2]. split; cbn; [| |exact N2]; intros k x; rewrite lookup_insert; destruct (decide _) as [<-|].
    + by intros [= <-].
    + apply K2.
    + intros _. rewrite Hn2. cbn. lia.
    + apply F2.
  - etrans; [exact Hle1|]. etrans; [exact Hle2|]. intros k x E. exists x. split; [|done]. cbn. rewrite lookup_insert_ne; [done|congruence].
  - intros res [= <-]. exists b1, b2, pid, epoch, st. by split_and!.
Qed.

Lemma begin_le `{MapRange} markers now req b :
  tx_inv b -> nextTxID (b_store b) < max_u64 -> let b' := (applyTxBegin markers now req b).1 in tx_inv b' /\ tx_le b b'.
Proof.
  intros Hi Hn. destruct (history_spec b (tbc_TransactionalID req) (ti_keyed b Hi)) as (l & Hh & Hnd & Hin).
  pose proof (begin_inversion markers now req b l Hi Hn Hh Hnd) as Hb.
  destruct (applyTxBegin markers now req b) as [b' r]. destruct Hb as (? & ? & _); [|done].
  apply Forall_forall. intros st Hst. by apply Hin.
Qed.

(** One command, or anything that leaves the table of transactions alone. *)
Inductive tx_step `{MapRange} (b : Broker) : Broker -> Prop :=
| tx_begin markers now req : nextTxID (b_store b) < max_u64 -> tx_step b (applyTxBegin markers now req b).1
| tx_publish markers now req : tx_step b (applyTxPublish markers now req b).1
| tx_publish_batch markers clock now req : tx_step b (applyTxPublishBatch markers clock now req b).1
| tx_commit_offset markers now req : tx_step b (applyTxCommitOffset markers now req b).1
| tx_commit markers times now id : tx_step b (applyTxCommit markers times now id b).1
| tx_abort markers now id : tx_step b (applyTxAbort markers now id b).1
| tx_expire markers now reqNow : tx_step b (applyTxExpire markers now reqNow b).1
| tx_other b' : transactions (b_store b') = transactions (b_store b) -> nextTxID (b_store b') = nextTxID (b_store b) -> tx_step b b'.

Lemma tx_step_le `{MapRange} b b' : tx_inv b -> tx_step b b' -> tx_inv b' /\ tx_le b b'.
Proof.
  intros Hi Hs. pose proof (ti_keyed b Hi) as Hk. destruct Hs as [markers now req Hn| | | | | | |b' Et En].
  - by apply begin_le.
  - by apply one_open_le, publish_one_open.
  - by apply one_open_le, publish_batch_one_open.
  - by apply one_open_le, commit_offset_one_open.
  - by apply one_open_le, commit_one_open.
  - by apply one_open_le, abort_one_open.
  - unfold applyTxExpire. destruct (listed_transactions b Hk) as (l & -> & Hin & Hnd). apply expire_le; [done|done|].
    apply Forall_forall. intros st Hst. by apply Hin.
  - split; [destruct Hi; split; by rewrite ?Et, ?En|]. intros k st E. exists st. by rewrite Et.
Qed.

Lemma tx_steps_le `{MapRange} b b' : tx_inv b -> rtc tx_step b b' -> tx_inv b' /\ tx_le b b'.
Proof.
  intros Hi Hr. induction Hr as [|b1 b2 b3 Hs _ IH]; [by split|]. destruct (tx_step_le b1 b2 Hi Hs) as [Hi2 Hle].
  destruct (IH Hi2) as [Hi3 Hle3]. split; [done|by etrans].
Qed.

(** C38: what a read-committed consumer has seen stays true.  Whatever
    transaction commands are applied (begin, publish, offsets, commit, abort,
    expiry, fencing) and whatever else happens to the broker, a record that is
    visible stays visible and a record that is hidden stays hidden: committed
    transactions are never undone and aborted ones never come back. *)
Theorem visibility_stable `{MapRange} b b' r :
  tx_inv b -> rtc tx_step b b' -> visibilityOf (b_store b) r <> transactionRecordOpen ->
  visibilityOf (b_store b') r = visibilityOf (b_store b) r.
Proof.
  intros Hi Hr. destruct (tx_steps_le b b' Hi Hr) as [_ Hle]. unfold visibilityOf, LoadTransaction.
  destruct (r_Transaction r) as [m|]; [|done]. destruct (decide (_ <> _)); [done|].
  destruct (txs b !! trm_TxID m) as [st|] eqn:E; [|done]. destruct (Hle _ _ E) as (st' & -> & Hs).
  destruct (decide (ts_Status st = TransactionStatusOpen)) as [|Ho]; [done|]. intros _. by rewrite (Hs Ho), (decide_False _ _ Ho).
Qed.

(** ** Fencing *)

(** An abort that succeeds closes the transaction. *)
Lemma abort_closes markers st now b b1 :
  ts_Status st = TransactionStatusOpen -> abortTransactionState markers st now b = (b1, Ok tt) ->
  exists st', txs b1 !! ts_TxID st = Some st' /\ ts_Status st' <> TransactionStatusOpen.
Proof.
  intros Ho. unfold abortTransactionState. rewrite decide_False by congruence. unfold mbind, BM_bind.
  pose proof (markers_spec markers st TransactionControlAbort b) as Hm.
  destruct (appendTransactionControlMarkers _ _ _ b) as [b2 [st'|e]]; [|done]. destruct Hm as (_ & _ & next & ->).
  unfold calls, SaveTransaction. cbn [ts_TxID set_Status set_ts set_NextSequence]. destruct (ts_TxID st =? 0); [done|].
  intros E%(f_equal fst). cbn [fst] in E. rewrite <- E. eexists. split; [|by instantiate (1 := set_Status TransactionStatusAborted now (set_NextSequence next st))].
  destruct (_ <=? _); cbn; by rewrite lookup_insert_eq.
Qed.

(** A fence that succeeds leaves nothing of the history open. *)
Lemma fence_closes markers history now b b' :
  tx_inv b -> NoDup (ts_TxID <$> history) -> Forall (fun st => txs b !! ts_TxID st = Some st) history ->
  fenceOpenTransactions markers history now b = (b', Ok tt) ->
  Forall (fun st => exists st', txs b' !! ts_TxID st = Some st' /\ ts_Status st' <> TransactionStatusOpen) history.
Proof.
  revert markers b. induction history as [|st history IH]; intros markers b Hi Hnd Hl Hf; [done|].
  pose proof (fence_le markers (st :: history) now b Hi Hnd Hl) as (_ & Hle & _). rewrite Hf in Hle. cbn [fst] in Hle.
  cbn [fenceOpenTransactions] in Hf. rewrite fmap_cons in Hnd. apply NoDup_cons in Hnd as [Hni Hnd]. apply Forall_cons in Hl as [El Hl].
  destruct (decide (ts_Status st <> TransactionStatusOpen)) as [Hs|Hs].
  - constructor; [|by eapply IH]. destruct (Hle _ _ El) as (st' & E' & S'). exists st'. split; [done|]. by rewrite S'.
  - assert (ts_Status st = TransactionStatusOpen) as Ho by (by apply dec_stable).
    destruct (touched_le st b _ Hi El Ho (touches_abort (markers O) st now b)) as [Hi1 _].
    pose proof (fun k => abort_others (markers O) st now b k) as Hoth. pose proof (abort_closes (markers O) st now b) as Hcl.
    unfold mbind, BM_bind in Hf. destruct (abortTransactionState (markers O) st now b) as [b1 [[]|e]]; cbn [fst] in *; [|done].
    assert (Forall (fun st => txs b1 !! ts_TxID st = Some st) history) as Hl1.
    { apply Forall_forall. intros x Hx. rewrite Forall_forall in Hl. rewrite Hoth; [by apply Hl|].
      intros E. apply Hni. rewrite <- E. by apply list_elem_of_fmap_2. }
    constructor; [|by eapply IH].
    destruct (fence_le (fun i => markers (S i)) history now b1 Hi1 Hnd Hl1) as (_ & _ & _ & Hrest). rewrite Hf in Hrest.
    cbn [fst] in Hrest. rewrite Hrest by done. by apply Hcl.
Qed.

(** The new epoch is above every epoch of the history. *)
Lemma identity_epoch txID history pid epoch :
  nextTransactionProducerIdentity txID history = Ok (pid, epoch) -> Forall (fun st => ts_ProducerEpoch st < epoch) history.
Proof.
  destruct history as [|s0 l0]; [constructor|]. cbn [nextTransactionProducerIdentity]. remember (s0 :: l0) as l eqn:El. clear El.
  destruct (_ =? max_u64); [done|]. intros [= _ <-].
  assert (forall m, m <= foldl (fun e st => if e <? ts_ProducerEpoch st then ts_ProducerEpoch st else e) m l /\
    Forall (fun st => ts_ProducerEpoch st <= foldl (fun e st => if e <? ts_ProducerEpoch st then ts_ProducerEpoch st else e) m l) l) as H.
  { induction l as [|st l IH]; intros m; [split; [done|constructor]|]. cbn [foldl].
    destruct (IH (if m <? ts_ProducerEpoch st then ts_ProducerEpoch st else m)) as [H1 H2].
    destruct (Z.ltb_spec m (ts_ProducerEpoch st)); split; [lia|constructor; [lia|done]|lia|constructor; [lia|done]]. }
  eapply Forall_impl; [apply (proj2 (H 0))|]. cbn. lia.
Qed.

(** A request of a transaction that is no longer open is refused. *)
Lemma load_closed markers now id b st :
  txs b !! ti_TxID id = Some st -> ts_Status st <> TransactionStatusOpen ->
  exists e, loadOpenTransaction markers now id b = (b, Err e).
Proof.
  intros El Hs. unfold loadOpenTransaction, mbind, BM_bind, reads, LoadTransaction. rewrite El. cbn [of_store].
  destruct (decide (_ \/ _)); [by eexists|]. rewrite decide_True by done. by eexists.
Qed.

Lemma refused_bind {A B} (m : BM A) (k : A -> BM B) b :
  (exists e, m b = (b, Err e)) -> exists e, (m ≫= k) b = (b, Err e).
Proof. intros [e E]. exists e. unfold mbind, BM_bind. by rewrite E. Qed.

(** Every request that can change a transaction. *)
Inductive tx_request :=
| TxPublish (req : txPublishCommand)
| TxPublishBatch (req : txPublishBatchCommand)
| TxCommitOffset (req : txCommitOffsetCommand)
| TxCommit (identity : TransactionIdentity)
| TxAbort (identity : TransactionIdentity).

Definition tx_request_id (r : tx_request) : TransactionIdentity :=
  match r with
  | TxPublish req => tpc_Identity req
  | TxPublishBatch req => tpbc_Identity req
  | TxCommitOffset req => tco_Identity req
  | TxCommit id | TxAbort id => id
  end.

Definition refuses `{MapRange} (b : Broker) (r : tx_request) : Prop :=
  forall markers clock now, exists e,
  match r with
  | TxPublish req => applyTxPublish markers now req b = (b, Err e)
  | TxPublishBatch req => applyTxPublishBatch markers clock now req b = (b, Err e)
  | TxCommitOffset req => applyTxCommitOffset markers now req b = (b, Err e)
  | TxCommit id => applyTxCommit markers clock now id b = (b, Err e)
  | TxAbort id => applyTxAbort markers now id b = (b, Err e)
  end.

Lemma closed_refuses `{MapRange} b r st :
  txs b !! ti_TxID (tx_request_id r) = Some st -> ts_Status st <> TransactionStatusOpen -> refuses b r.
Proof.
  intros El Hs markers clock now.
  assert (forall id t, txs b !! ti_TxID id = Some st -> exists e, loadOpenTransaction markers t id b = (b, Err e)) as Hload
    by (intros; by eapply load_closed).
  destruct r as [req|req|req|id|id]; cbn [tx_request_id] in *.
  - by apply refused_bind, refused_bind, Hload.
  - unfold applyTxPublishBatch. destruct (_ =? 0); [by eexists|]. unfold mbind at 1, BM_bind at 1, reads at 1.
    destruct (validateBatchPayload _ _); [|by eexists]. by apply refused_bind, refused_bind, Hload.
  - by apply refused_bind, Hload.
  - by apply refused_bind, Hload.
  - by apply refused_bind, Hload.
Qed.

(** C39: a new producer fences the old one.  After a begin succeeds, its
    transaction is open under the identity that was returned; every earlier
    transaction of the same transactional id has a smaller epoch; and from
    then on, whatever else is applied, each request in the name of such a
    transaction (publish, batch, offsets, commit, abort) is refused and changes
    nothing. *)
Theorem begin_fences `{MapRange} markers now req b b' res k st :
  tx_inv b -> nextTxID (b_store b) < max_u64 -> applyTxBegin markers now req b = (b', Ok res) ->
  transactions (b_store b) !! k = Some st -> ts_TransactionalID st = tbc_TransactionalID req ->
  (exists st', transactions (b_store b') !! ti_TxID (tbr_Identity res) = Some st' /\
     transactionIdentityFromState st' = tbr_Identity res /\ ts_Status st' = TransactionStatusOpen) /\
  ts_ProducerEpoch st < ti_ProducerEpoch (tbr_Identity res) /\
  forall b2 r, rtc tx_step b' b2 -> ti_TxID (tx_request_id r) = k -> refuses b2 r.
Proof.
  intros Hi Hn Hb Ek Eid. destruct (history_spec b (tbc_TransactionalID req) (ti_keyed b Hi)) as (l & Hh & Hnd & Hin).
  assert (Forall (fun st => txs b !! ts_TxID st = Some st) l) as Hl by (apply Forall_forall; intros x Hx; by apply Hin).
  pose proof (begin_inversion markers now req b l Hi Hn Hh Hnd Hl) as Hinv. rewrite Hb in Hinv. destruct Hinv as (Hi' & _ & Hres).
  destruct (Hres res eq_refl) as (b1 & b2 & pid & epoch & st' & Hid & E1 & Hi1 & Hf & E' & _ & Hep & -> & Hnew & Hopen).
  assert (st ∈ l) as Hst by (apply Hin; rewrite <- (ti_keyed b Hi _ _ Ek); done).
  rewrite <- E1 in Hl. pose proof (fence_closes markers l now b1 b2 Hi1 Hnd Hl Hf) as Hcl.
  split_and!.
  - exists st'. cbn. rewrite E', lookup_insert_eq. done.
  - cbn. rewrite Hep. by apply (proj1 (Forall_forall _ _) (identity_epoch _ _ _ _ Hid)).
  - intros b3 r Hr Er. destruct (tx_steps_le b' b3 Hi' Hr) as [_ Hle].
    destruct (proj1 (Forall_forall _ _) Hcl st Hst) as (st2 & E2 & S2). rewrite <- (ti_keyed b Hi _ _ Ek) in E2.
    assert (txs b' !! k = Some st2) as E3.
    { rewrite E', lookup_insert_ne; [done|]. pose proof (ti_fresh b Hi _ _ Ek). lia. }
    destruct (Hle _ _ E3) as (st3 & E4 & S4). apply (closed_refuses b3 r st3); [by rewrite Er|]. by rewrite (S4 S2).
Qed.

(** ** Concrete transactions *)

Definition ex_tick : nat -> Z := fun i => 100 + Z.of_nat i.
Definition ex_ticks : nat -> nat -> Z := fun _ => ex_tick.
Definition ex_begin (b : Broker) := @applyTxBegin map_to_list_range ex_ticks 100 (mkTxBeginCommand "payments" 0) b.
Definition ex_publish (id : TransactionIdentity) (seq : Z) (payload : string) : txPublishCommand :=
  mkTxPublishCommand id seq "orders" 1 (ex_record "k" payload).

(** The first transaction is committed with one record, the second one is
    open with another. *)
Definition ex_first : TransactionIdentity := mkTransactionIdentity 1 1 0.
Definition ex_second : TransactionIdentity := mkTransactionIdentity 2 1 1.
Definition ex_b1 : Broker := (applyTxPublish ex_tick ex_tick (ex_publish ex_first 0 "a") (ex_begin ex_broker).1).1.
Definition ex_b2 : Broker := (applyTxCommit ex_tick ex_tick ex_tick ex_first ex_b1).1.
Definition ex_b3 : Broker := (applyTxPublish ex_tick ex_tick (ex_publish ex_second 0 "b") (ex_begin ex_b2).1).1.

Lemma tx_inv_table b :
  map_Forall (fun k st => k = ts_TxID st /\ k < nextTxID (b_store b)) (txs b) -> 0 < nextTxID (b_store b) <= max_u64 -> tx_inv b.
Proof. intros Ht Hn. split; [..|done]; intros k st E; by destruct (Ht k st E). Qed.

Lemma ex_tx_inv b : b = ex_broker \/ b = ex_b1 \/ b = ex_b2 -> tx_inv b.
Proof.
  intros Hb. apply tx_inv_table; destruct Hb as [->|[-> | ->]]; apply (bool_decide_unpack _); vm_compute; exact I.
Qed.

(** The same records by store calls alone. *)
Definition ex_log : MemoryStore :=
  let tx id status := mkTransactionState id "payments" 1 0 status 0 0 0 0 0 [] [] [] in
  let ar id c := mkRecordAppend None [] [] 0 (Some (mkTransactionRecordMetadata id 1 0 0 c)) None [] in
  let put id c s := (AppendRecord 7 s (NewTopicPartition "orders" 1) (ar id c)).1 in
  put 1 TransactionControlCommit (put 2 TransactionControlNone (put 1 TransactionControlCommit (put 1 TransactionControlNone
    (SaveTransaction (SaveTransaction (MemoryStore.CreateTopic NewMemoryStore ex_ordered).1 (tx 1 TransactionStatusCommitted)).1
       (tx 2 TransactionStatusOpen)).1))).

Lemma ex_log_inv : store_inv ex_log.
Proof.
  apply (@store_reachable_inv map_to_list_range). unfold ex_log.
  do 4 (eapply rtc_r; [|left; by apply log_step_append]).
  do 2 (eapply rtc_r; [|right; by apply meta_save_transaction]). eapply rtc_r; [apply rtc_refl|left; apply log_step_create].
Qed.

(** The record of the committed transaction is returned; the cursor is behind
    its marker, at the record of the open transaction. *)
Lemma read_committed_prefix_witness :
  exists out, readCommittedRecords ex_log "orders" 1 0 10 = Ok (out, 2) /\ recordOffsets out = [0] /\ len out <= 10.
Proof.
  destruct (read_committed_prefix ex_log "orders" 1 0 10) as (out & cursor & l1 & H1 & _ & _ & _ & H2 & _).
  - apply ex_log_inv.
  - vm_compute. reflexivity.
  - lia.
  - assert (out = (match readCommittedRecords ex_log "orders" 1 0 10 with Ok r => r.1 | Err _ => [] end) /\
            cursor = (match readCommittedRecords ex_log "orders" 1 0 10 with Ok r => r.2 | Err _ => 0 end)) as [E1 E2]
      by (rewrite H1; split; reflexivity).
    assert (cursor = 2) as -> by (rewrite E2; vm_compute; reflexivity).
    exists out. split; [exact H1|]. split; [rewrite E1; vm_compute; reflexivity|exact H2].
Defined.

Definition ex_seen : Rec :=
  default (mkRec 0 0 [] [] 0 None None []) (recordsOf (b_store ex_b2) (NewTopicPartition "orders" 1) !! 0%nat).

(** The committed record is still visible while the next transaction runs. *)
Lemma visibility_stable_witness :
  BytesString (r_Payload ex_seen) = "a" /\ visibilityOf (b_store ex_b2) ex_seen = transactionRecordVisible /\ visibilityOf (b_store ex_b3) ex_seen = visibilityOf (b_store ex_b2) ex_seen.
Proof.
  split; [vm_compute; reflexivity|]. split; [vm_compute; reflexivity|].
  apply (@visibility_stable map_to_list_range ex_b2 ex_b3 ex_seen).
  - apply ex_tx_inv. auto.
  - apply (rtc_l _ _ (ex_begin ex_b2).1); [apply (@tx_begin map_to_list_range ex_b2 ex_ticks 100 (mkTxBeginCommand "payments" 0)); vm_compute; reflexivity|].
    apply rtc_once. exact (@tx_publish map_to_list_range (ex_begin ex_b2).1 ex_tick ex_tick (ex_publish ex_second 0 "b")).
  - vm_compute. discriminate.
Defined.

(** A second begin while the first transaction is open: its commit is refused. *)
Lemma begin_fences_witness :
  exists res, (ex_begin ex_b1).2 = Ok res /\ 0 < ti_ProducerEpoch (tbr_Identity res) /\ @refuses map_to_list_range (ex_begin ex_b1).1 (TxCommit ex_first).
Proof.
  assert (exists res, (ex_begin ex_b1).2 = Ok res) as [res E] by (eexists; vm_compute; reflexivity).
  assert (exists st, transactions (b_store ex_b1) !! 1 = Some st /\ ts_TransactionalID st = "payments" /\ ts_ProducerEpoch st = 0)
    as (st & Est & Hid & Hep) by (eexists; vm_compute; repeat split).
  destruct (@begin_fences map_to_list_range ex_ticks 100 (mkTxBeginCommand "payments" 0) ex_b1 (ex_begin ex_b1).1 res 1 st)
    as (_ & He & Hr).
  - apply ex_tx_inv. auto.
  - vm_compute. reflexivity.
  - rewrite <- E. apply surjective_pairing.
  - exact Est.
  - exact Hid.
  - exists res. split; [exact E|]. split; [rewrite <- Hep; exact He|].
    apply (Hr (ex_begin ex_b1).1 (TxCommit ex_first)); [apply rtc_refl|reflexivity].
Defined.
