(* ===== verification/Groups.v ===== *)
(** * Consumer groups: membership, rebalancing and leases

    [src/broker/groups.go], [groups_helpers.go], [groups_cooperative.go],
    [group_assignment_validation.go] and [service_apply_groups.go].

    The [MultiMap], [Table], [Map] and [Set] containers of the source are
    finite maps and sets; every loop over their keys sorts them first, and
    the iteration order is the parameter [MapRange].  [int] values here are
    lengths and quotients of lengths, so they are naturals.  [nowMS] is what
    [store.NowMS] returns to the handler.  Metrics and tracing have no effect
    on the state and are left out. *)

From stdpp Require Import prelude gmap strings sorting list.
From S2P Require Import Prelude Model MemoryStore MetaStore.

#[local] Open Scope Z_scope.
#[local] Open Scope ech0_scope.

Definition GroupAssignmentRoundRobin : string := "round_robin".
Definition GroupAssignmentRange : string := "range".

(** ** Helpers ([groups_helpers.go]) *)

(** The branches on equal topics and partitions make a lexicographic order. *)
Definition compareGroupPartitionAssignment (left right : GroupPartitionAssignment) : comparison :=
  String.compare (gpa_Topic left) (gpa_Topic right) <+>
  (Z.compare (gpa_Partition left) (gpa_Partition right) <+>
   String.compare (gpa_MemberID left) (gpa_MemberID right)).

Definition sortGroupAssignments (assignments : list GroupPartitionAssignment) : list GroupPartitionAssignment :=
  sort_func compareGroupPartitionAssignment assignments.

Definition groupAssignmentsEqual (left right : list GroupPartitionAssignment) : bool :=
  if decide (length left = length right)
  then bool_decide (sortGroupAssignments left = sortGroupAssignments right) else false.

Definition assignmentMembersMatchActive (assignments : list GroupPartitionAssignment)
    (active : list ConsumerGroupMember) : bool :=
  let members : gset string := list_to_set (gpa_MemberID <$> assignments) in
  if decide (size members = length active)
  then forallb (fun member => bool_decide (cgm_MemberID member ∈ members)) active else false.

Definition groupAssignmentStable (previous next : list GroupPartitionAssignment)
    (active : list ConsumerGroupMember) : bool :=
  if groupAssignmentsEqual previous next
  then assignmentMembersMatchActive previous active && assignmentMembersMatchActive next active else false.

(** [MultiMap.Put] appends to the values of a key. *)
Definition multi_put {K V} `{Countable K} (m : gmap K (list V)) (k : K) (v : V) : gmap K (list V) :=
  <[k := default [] (m !! k) ++ [v]]> m.
Definition multi_get {K V} `{Countable K} (m : gmap K (list V)) (k : K) : list V := default [] (m !! k).

Definition assignmentsByMember (assignments : list GroupPartitionAssignment)
    : gmap string (list GroupPartitionAssignment) :=
  foldl (fun byMember assignment => multi_put byMember (gpa_MemberID assignment) assignment) ∅ assignments.

Record GroupMemberLoadSummary := mkGroupMemberLoadSummary {
  gmls_MemberID : string;
  gmls_Partitions : nat
}.

Definition memberLoads `{MapRange} (assignments : list GroupPartitionAssignment) : list GroupMemberLoadSummary :=
  let loads := assignmentsByMember assignments in
  let members := sort_func String.compare (keys loads) in
  (fun memberID => mkGroupMemberLoadSummary memberID (length (multi_get loads memberID))) <$> members.

Definition assignmentOwnerTable (assignments : list GroupPartitionAssignment) : gmap (string * Z) string :=
  foldl (fun owners a => <[(gpa_Topic a, gpa_Partition a) := gpa_MemberID a]> owners) ∅ assignments.

Definition memberWantsTopic (member : ConsumerGroupMember) (topic : string) : bool :=
  bool_decide (topic ∈ cgm_Topics member).

Definition normalizeGroupAssignmentStrategy (raw : string) : string :=
  if decide (raw = GroupAssignmentRoundRobin) then GroupAssignmentRoundRobin
  else if decide (raw = GroupAssignmentRange) then GroupAssignmentRange
  else GroupAssignmentRoundRobin.

(** ** Round-robin and range assignment ([groups.go]) *)

(** [active[i%len(active)]] of a non-empty [active]; [i] counts the loop. *)
Fixpoint roundRobinLoop (active : list ConsumerGroupMember) (i : nat) (partitions : list TopicPartition)
    : list GroupPartitionAssignment :=
  match partitions with
  | [] => []
  | tp :: partitions =>
      match active !! (i mod length active)%nat with
      | Some owner =>
          mkGroupPartitionAssignment (cgm_MemberID owner) (tp_Topic tp) (tp_Partition tp)
            :: roundRobinLoop active (S i) partitions
      | None => roundRobinLoop active (S i) partitions
      end
  end.

Definition buildRoundRobinAssignments (active : list ConsumerGroupMember) (partitions : list TopicPartition)
    : list GroupPartitionAssignment := roundRobinLoop active 0 partitions.

Definition partitionsByTopic (partitions : list TopicPartition) : gmap string (list TopicPartition) :=
  foldl (fun byTopic tp => multi_put byTopic (tp_Topic tp) tp) ∅ partitions.

Definition comparePartition (left right : TopicPartition) : comparison :=
  Z.compare (tp_Partition left) (tp_Partition right).

Definition sortedTopicPartitions (partitions : list TopicPartition) : list TopicPartition :=
  sort_func comparePartition partitions.

Definition eligibleMembers (active : list ConsumerGroupMember) (topic : string) : list ConsumerGroupMember :=
  filter (fun member => memberWantsTopic member topic = true) active.

Definition assignTo (owner : ConsumerGroupMember) (tp : TopicPartition) : GroupPartitionAssignment :=
  mkGroupPartitionAssignment (cgm_MemberID owner) (tp_Topic tp) (tp_Partition tp).

(** The loop over the owners; [partitions] is what [cursor] has not passed. *)
Fixpoint rangeLoop (base extra i : nat) (owners : list ConsumerGroupMember) (partitions : list TopicPartition)
    : list GroupPartitionAssignment :=
  match owners with
  | [] => []
  | owner :: owners =>
      let size := if (i <? extra)%nat then S base else base in
      (assignTo owner <$> take size partitions) ++ rangeLoop base extra (S i) owners (drop size partitions)
  end.

Definition appendRangeAssignments (owners : list ConsumerGroupMember) (partitions : list TopicPartition)
    : list GroupPartitionAssignment :=
  match owners with
  | [] => []
  | _ =>
      let base := (length partitions / length owners)%nat in
      let extra := (length partitions mod length owners)%nat in
      rangeLoop base extra 0 owners partitions
  end.

Definition buildRangeAssignments `{MapRange} (active : list ConsumerGroupMember) (partitions : list TopicPartition)
    : list GroupPartitionAssignment :=
  let byTopic := partitionsByTopic partitions in
  let topics := sort_func String.compare (keys byTopic) in
  topics ≫= fun topic =>
    appendRangeAssignments (eligibleMembers active topic) (sortedTopicPartitions (multi_get byTopic topic)).

Definition buildStrategyAssignments `{MapRange} (strategy : string) (active : list ConsumerGroupMember)
    (partitions : list TopicPartition) : list GroupPartitionAssignment :=
  if decide (strategy = GroupAssignmentRoundRobin) then buildRoundRobinAssignments active partitions
  else if decide (strategy = GroupAssignmentRange) then buildRangeAssignments active partitions
  else buildRoundRobinAssignments active partitions.

Definition movedPartitions (previous : option ConsumerGroupAssignment) (assignments : list GroupPartitionAssignment) : Z :=
  match previous with
  | None => 0
  | Some previous =>
      let previousOwners := assignmentOwnerTable (cga_Assignments previous) in
      len (filter (fun item =>
             match previousOwners !! (gpa_Topic item, gpa_Partition item) with
             | Some owner => bool_decide (owner <> gpa_MemberID item)
             | None => false
             end = true) assignments)
  end.

(** ** Cooperative sticky assignment ([groups_cooperative.go]) *)

Definition gpa_tp (a : GroupPartitionAssignment) : TopicPartition :=
  NewTopicPartition (gpa_Topic a) (gpa_Partition a).

Definition activeMemberMap (active : list ConsumerGroupMember) : gmap string ConsumerGroupMember :=
  foldl (fun out member => <[cgm_MemberID member := member]> out) ∅ active.

Definition topicPartitionSet (partitions : list TopicPartition) : gset TopicPartition := list_to_set partitions.

Fixpoint retainedLoop (active : gmap string ConsumerGroupMember) (partitions seen : gset TopicPartition)
    (previous : list GroupPartitionAssignment) : list GroupPartitionAssignment :=
  match previous with
  | [] => []
  | assignment :: previous =>
      let tp := gpa_tp assignment in
      if bool_decide (tp ∈ seen) || negb (bool_decide (tp ∈ partitions))
      then retainedLoop active partitions seen previous
      else
        match active !! gpa_MemberID assignment with
        | Some member =>
            if memberWantsTopic member (gpa_Topic assignment)
            then assignment :: retainedLoop active partitions ({[tp]} ∪ seen) previous
            else retainedLoop active partitions seen previous
        | None => retainedLoop active partitions seen previous
        end
  end.

Definition retainedStickyAssignments (previous : list GroupPartitionAssignment)
    (active : gmap string ConsumerGroupMember) (partitions : gset TopicPartition) : list GroupPartitionAssignment :=
  retainedLoop active partitions ∅ (sortGroupAssignments previous).

Definition groupAssignmentLoads (assignments : list GroupPartitionAssignment)
    : gmap string (list GroupPartitionAssignment) :=
  foldl (fun loads assignment => multi_put loads (gpa_MemberID assignment) assignment) ∅ assignments.

Definition load (loads : gmap string (list GroupPartitionAssignment)) (memberID : string) : nat :=
  length (multi_get loads memberID).

(** The comparator of [leastLoadedEligibleMember] and [underloadedMembers]. *)
Definition compareLoad (loads : gmap string (list GroupPartitionAssignment)) (left right : ConsumerGroupMember)
    : comparison :=
  Z.compare (Z.of_nat (load loads (cgm_MemberID left))) (Z.of_nat (load loads (cgm_MemberID right))) <+>
  String.compare (cgm_MemberID left) (cgm_MemberID right).

Definition leastLoadedEligibleMember (assignments : list GroupPartitionAssignment)
    (active : list ConsumerGroupMember) (topic : string) : option ConsumerGroupMember :=
  let loads := groupAssignmentLoads assignments in
  let candidates := filter (fun member => memberWantsTopic member topic = true) active in
  head (sort_func (compareLoad loads) candidates).

Definition assignedTopicPartitions (assignments : list GroupPartitionAssignment) : gset TopicPartition :=
  list_to_set (gpa_tp <$> assignments).

Fixpoint assignMissingLoop (active : list ConsumerGroupMember) (assignments : list GroupPartitionAssignment)
    (assigned : gset TopicPartition) (partitions : list TopicPartition) : list GroupPartitionAssignment :=
  match partitions with
  | [] => assignments
  | partition :: partitions =>
      if bool_decide (partition ∈ assigned) then assignMissingLoop active assignments assigned partitions
      else
        match leastLoadedEligibleMember assignments active (tp_Topic partition) with
        | None => assignMissingLoop active assignments assigned partitions
        | Some owner =>
            assignMissingLoop active (assignments ++ [assignTo owner partition]) ({[partition]} ∪ assigned) partitions
        end
  end.

Definition assignMissingPartitions (assignments : list GroupPartitionAssignment)
    (active : list ConsumerGroupMember) (partitions : list TopicPartition) : list GroupPartitionAssignment :=
  assignMissingLoop active assignments (assignedTopicPartitions assignments) partitions.

Definition underloadedMembers (loads : gmap string (list GroupPartitionAssignment))
    (active : list ConsumerGroupMember) (minLoad : nat) : list ConsumerGroupMember :=
  sort_func (compareLoad loads)
    (filter (fun member => (load loads (cgm_MemberID member) < minLoad)%nat) active).

(** Candidates carry their index; the heaviest owner comes first, and within
    one load the last assignment in sorted order. *)
Definition compareMovable (loads : gmap string (list GroupPartitionAssignment))
    (left right : nat * GroupPartitionAssignment) : comparison :=
  Z.compare (Z.of_nat (load loads (gpa_MemberID right.2))) (Z.of_nat (load loads (gpa_MemberID left.2))) <+>
  compareGroupPartitionAssignment right.2 left.2.

Definition movable (loads : gmap string (list GroupPartitionAssignment)) (target : ConsumerGroupMember)
    (maxLoad : nat) (assignment : GroupPartitionAssignment) : Prop :=
  gpa_MemberID assignment <> cgm_MemberID target /\
  (maxLoad < load loads (gpa_MemberID assignment))%nat /\
  memberWantsTopic target (gpa_Topic assignment) = true.

#[global] Instance movable_dec loads target maxLoad a : Decision (movable loads target maxLoad a).
Proof. unfold movable. apply _. Defined.

Definition movableAssignmentIndex (assignments : list GroupPartitionAssignment)
    (loads : gmap string (list GroupPartitionAssignment)) (target : ConsumerGroupMember) (maxLoad : nat)
    : option nat :=
  let indexes := filter (fun ia => movable loads target maxLoad ia.2) (imap pair assignments) in
  fst <$> head (sort_func (compareMovable loads) indexes).

Fixpoint moveLoop (assignments : list GroupPartitionAssignment)
    (loads : gmap string (list GroupPartitionAssignment)) (maxLoad : nat) (targets : list ConsumerGroupMember)
    : option (list GroupPartitionAssignment) :=
  match targets with
  | [] => None
  | target :: targets =>
      match movableAssignmentIndex assignments loads target maxLoad with
      | None => moveLoop assignments loads maxLoad targets
      | Some index =>
          match assignments !! index with
          | None => moveLoop assignments loads maxLoad targets
          | Some assignment => Some (<[index := assignTo target (gpa_tp assignment)]> assignments)
          end
      end
  end.

(** [None] is the result [false]. *)
Definition moveOneStickyAssignment (assignments : list GroupPartitionAssignment)
    (active : list ConsumerGroupMember) (minLoad maxLoad : nat) : option (list GroupPartitionAssignment) :=
  let loads := groupAssignmentLoads assignments in
  moveLoop assignments loads maxLoad (underloadedMembers loads active minLoad).

(** The unbounded [for] loop, with fuel; [None] when the fuel runs out. *)
Fixpoint balanceLoop (fuel : nat) (assignments : list GroupPartitionAssignment)
    (active : list ConsumerGroupMember) (minLoad maxLoad : nat) : option (list GroupPartitionAssignment) :=
  match fuel with
  | O => None
  | S fuel =>
      match moveOneStickyAssignment assignments active minLoad maxLoad with
      | None => Some assignments
      | Some assignments => balanceLoop fuel assignments active minLoad maxLoad
      end
  end.

Definition minLoad_of (assignments : list GroupPartitionAssignment) (active : list ConsumerGroupMember) : nat :=
  (length assignments / length active)%nat.
Definition maxLoad_of (assignments : list GroupPartitionAssignment) (active : list ConsumerGroupMember) : nat :=
  if decide (length assignments mod length active = 0)%nat
  then minLoad_of assignments active else S (minLoad_of assignments active).

Definition balanceStickyAssignments (fuel : nat) (assignments : list GroupPartitionAssignment)
    (active : list ConsumerGroupMember) : option (list GroupPartitionAssignment) :=
  match assignments, active with
  | [], _ | _, [] => Some assignments
  | _, _ => balanceLoop fuel assignments active (minLoad_of assignments active) (maxLoad_of assignments active)
  end.

Definition stickyCandidateCount (previous : list GroupPartitionAssignment)
    (active : gmap string ConsumerGroupMember) (partitions : gset TopicPartition) : Z :=
  len (filter (fun a =>
         match active !! gpa_MemberID a with
         | Some member => bool_decide (gpa_tp a ∈ partitions) && memberWantsTopic member (gpa_Topic a)
         | None => false
         end = true) previous).

Definition stickyAppliedCount (assignments previous : list GroupPartitionAssignment) : Z :=
  let previousOwners := assignmentOwnerTable previous in
  len (filter (fun a => previousOwners !! (gpa_Topic a, gpa_Partition a) = Some (gpa_MemberID a)) assignments).

Definition buildCooperativeStickyAssignments (fuel : nat) (previous : list GroupPartitionAssignment)
    (active : list ConsumerGroupMember) (partitions : list TopicPartition)
    : option (list GroupPartitionAssignment * Z * Z) :=
  let activeMembers := activeMemberMap active in
  let partitionSet := topicPartitionSet partitions in
  let assignments := retainedStickyAssignments previous activeMembers partitionSet in
  let assignments := assignMissingPartitions assignments active partitions in
  assignments ← balanceStickyAssignments fuel assignments active;
  let stickyCandidates := stickyCandidateCount previous activeMembers partitionSet in
  let stickyApplied := stickyAppliedCount assignments previous in
  Some (sortGroupAssignments assignments, stickyCandidates, stickyApplied).

(** ** Rebalancing *)

Record GroupConfig := mkGroupConfig {
  cfg_GroupAssignmentStrategy : string;
  cfg_GroupStickyAssignments : bool
}.

Record groupRebalancePlan := mkGroupRebalancePlan {
  plan_Assignment : ConsumerGroupAssignment;
  plan_Strategy : string;
  plan_ActiveMembers : nat;
  plan_MovedPartitions : Z;
  plan_StickyCandidates : Z;
  plan_StickyApplied : Z;
  plan_MemberLoads : list GroupMemberLoadSummary
}.

Record GroupRebalanceHistorySummary := mkGroupRebalanceHistorySummary {
  grh_Group : string;
  grh_Generation : Z;
  grh_Strategy : string;
  grh_ActiveMembers : nat;
  grh_TotalAssignments : nat;
  grh_MovedPartitions : Z;
  grh_StickyCandidates : Z;
  grh_StickyApplied : Z;
  grh_UpdatedAtMS : Z;
  grh_MemberLoads : list GroupMemberLoadSummary
}.

Definition compareTopicPartitions (left right : TopicPartition) : comparison :=
  String.compare (tp_Topic left) (tp_Topic right) <+> Z.compare (tp_Partition left) (tp_Partition right).

(** [for partition := range topic.Partitions] *)
Definition partitionsOf (topic : TopicConfig) : list TopicPartition :=
  (fun i => NewTopicPartition (tc_Name topic) (Z.of_nat i)) <$> seq 0 (Z.to_nat (tc_Partitions topic)).

Definition groupPartitions `{MapRange} (s : MemoryStore) (members : list ConsumerGroupMember)
    : result Code (list TopicPartition) :=
  let wanted : gset string := list_to_set (members ≫= cgm_Topics) in
  topics ← ListTopics s;
  let out := filter (fun topic => tc_Name topic ∈ wanted) topics ≫= partitionsOf in
  Ok (sort_func compareTopicPartitions out).

Definition activeGroupMembers `{MapRange} (s : MemoryStore) (group : string) (now : Z)
    : result Code (list ConsumerGroupMember) :=
  members ← ListGroupMembers s group;
  Ok (sort_func compareMemberID (filter (fun member => ExpiredAt member now = false) members)).

(** The balancing loop of the sticky strategy gets as much fuel as there are
    assignments to move, and one more to notice that it is done. *)
Definition stickyFuel (partitions : list TopicPartition) : nat := S (length partitions).

(** A Go [int] counter never makes the loop fail: [None] is unreachable
    ([sticky_result_exists] in [GroupSpec]) and mapped to the empty plan. *)
Definition buildGroupAssignments `{MapRange} (cfg : GroupConfig) (s : MemoryStore) (strategy : string)
    (previous : option ConsumerGroupAssignment) (active : list ConsumerGroupMember)
    : result Code (list GroupPartitionAssignment * Z * Z) :=
  match active with
  | [] => Ok ([], 0, 0)
  | _ =>
      partitions ← groupPartitions s active;
      match cfg_GroupStickyAssignments cfg, previous with
      | true, Some previous =>
          Ok (default ([], 0, 0)
                (buildCooperativeStickyAssignments (stickyFuel partitions) (cga_Assignments previous) active partitions))
      | _, _ => Ok (buildStrategyAssignments strategy active partitions, 0, 0)
      end
  end.

Definition buildGroupRebalancePlan `{MapRange} (cfg : GroupConfig) (s : MemoryStore) (group : string) (now : Z)
    (previous : option ConsumerGroupAssignment) (active : list ConsumerGroupMember)
    : result Code groupRebalancePlan :=
  let strategy := normalizeGroupAssignmentStrategy (cfg_GroupAssignmentStrategy cfg) in
  let generation := match previous with Some previous => u64 (cga_Generation previous + 1) | None => 1 end in
  '(assignments, stickyCandidates, stickyApplied) ← buildGroupAssignments cfg s strategy previous active;
  let assignments := sortGroupAssignments assignments in
  let assignment :=
    match previous with
    | Some previous =>
        if groupAssignmentStable (cga_Assignments previous) assignments active
        then mkConsumerGroupAssignment group (cga_Generation previous) assignments (cga_UpdatedAtMS previous)
        else mkConsumerGroupAssignment group generation assignments now
    | None => mkConsumerGroupAssignment group generation assignments now
    end in
  Ok {| plan_Assignment := assignment;
        plan_Strategy := strategy;
        plan_ActiveMembers := length active;
        plan_MovedPartitions := movedPartitions previous (cga_Assignments assignment);
        plan_StickyCandidates := stickyCandidates;
        plan_StickyApplied := stickyApplied;
        plan_MemberLoads := memberLoads (cga_Assignments assignment) |}.

(** ** Handlers of the group commands ([service_apply_groups.go]) *)

Record joinGroupCommand := mkJoinGroupCommand {
  jgc_Group : string;
  jgc_MemberID : string;
  jgc_Topics : list string;
  jgc_SessionTimeoutMS : Z;
  jgc_MaxPollIntervalMS : Z
}.

Record heartbeatGroupCommand := mkHeartbeatGroupCommand {
  hgc_Group : string;
  hgc_MemberID : string;
  hgc_SessionTimeoutMS : option Z;
  hgc_MaxPollIntervalMS : option Z
}.

Record pollGroupCommand := mkPollGroupCommand {
  pgc_Group : string;
  pgc_MemberID : string;
  pgc_PollAtMS : Z
}.

Definition defaultGroupSessionTimeoutMS : Z := 30000.
Definition defaultGroupMaxPollIntervalMS : Z := 300000.
Definition minGroupLeaseRefreshTimestampMS : Z := 1.

Definition normalizeGroupSessionTimeout (value : Z) : Z :=
  if value =? 0 then defaultGroupSessionTimeoutMS else value.

Definition normalizeGroupMaxPollInterval (value : Z) : Z :=
  if value =? 0 then defaultGroupMaxPollIntervalMS else value.

Definition groupMemberFromCommand (now : Z) (req : joinGroupCommand) : ConsumerGroupMember :=
  {| cgm_Group := jgc_Group req;
     cgm_MemberID := jgc_MemberID req;
     cgm_Topics := jgc_Topics req;
     cgm_SessionTimeoutMS := normalizeGroupSessionTimeout (jgc_SessionTimeoutMS req);
     cgm_MaxPollIntervalMS := normalizeGroupMaxPollInterval (jgc_MaxPollIntervalMS req);
     cgm_JoinedAtMS := now;
     cgm_LastHeartbeatMS := now;
     cgm_LastPollMS := now |}.

Definition applyJoinGroup (now : Z) (s : MemoryStore) (req : joinGroupCommand)
    : MemoryStore * result Code ConsumerGroupMember :=
  if decide (jgc_Group req = "" \/ jgc_MemberID req = "") then (s, Err CodeInvalidArgument)
  else
    let member := groupMemberFromCommand now req in
    match SaveGroupMember s member with
    | (s, Ok _) => (s, Ok member)
    | (s, Err e) => (s, Err e)
    end.

Definition loadUnexpiredGroupMember (s : MemoryStore) (group memberID : string) (nowMS : Z)
    : result Code ConsumerGroupMember :=
  member ← LoadGroupMember s group memberID;
  match member with
  | None => Err CodeInvalidArgument
  | Some member => if ExpiredAt member nowMS then Err CodeInvalidArgument else Ok member
  end.

Definition applyHeartbeatGroup (now : Z) (s : MemoryStore) (req : heartbeatGroupCommand)
    : MemoryStore * result Code ConsumerGroupMember :=
  match loadUnexpiredGroupMember s (hgc_Group req) (hgc_MemberID req) now with
  | Err e => (s, Err e)
  | Ok member =>
      let member :=
        {| cgm_Group := cgm_Group member; cgm_MemberID := cgm_MemberID member; cgm_Topics := cgm_Topics member;
           cgm_SessionTimeoutMS :=
             match hgc_SessionTimeoutMS req with
             | Some v => if 0 <? v then v else cgm_SessionTimeoutMS member
             | None => cgm_SessionTimeoutMS member
             end;
           cgm_MaxPollIntervalMS :=
             match hgc_MaxPollIntervalMS req with
             | Some v => if 0 <? v then v else cgm_MaxPollIntervalMS member
             | None => cgm_MaxPollIntervalMS member
             end;
           cgm_JoinedAtMS := cgm_JoinedAtMS member; cgm_LastHeartbeatMS := now;
           cgm_LastPollMS := cgm_LastPollMS member |} in
      match SaveGroupMember s member with
      | (s, Ok _) => (s, Ok member)
      | (s, Err e) => (s, Err e)
      end
  end.

Definition applyPollGroup (now : Z) (s : MemoryStore) (req : pollGroupCommand)
    : MemoryStore * result Code ConsumerGroupMember :=
  match loadUnexpiredGroupMember s (pgc_Group req) (pgc_MemberID req) now with
  | Err e => (s, Err e)
  | Ok member =>
      let member :=
        {| cgm_Group := cgm_Group member; cgm_MemberID := cgm_MemberID member; cgm_Topics := cgm_Topics member;
           cgm_SessionTimeoutMS := cgm_SessionTimeoutMS member;
           cgm_MaxPollIntervalMS := cgm_MaxPollIntervalMS member;
           cgm_JoinedAtMS := cgm_JoinedAtMS member; cgm_LastHeartbeatMS := cgm_LastHeartbeatMS member;
           cgm_LastPollMS := if now =? 0 then minGroupLeaseRefreshTimestampMS else now |} in
      match SaveGroupMember s member with
      | (s, Ok _) => (s, Ok member)
      | (s, Err e) => (s, Err e)
      end
  end.

(** The rebalance history is a ring buffer of the container library: its
    [Push] is a parameter. *)
Section Rebalance.
Context {History : Type} (Push : History -> GroupRebalanceHistorySummary -> History).

Definition recordGroupRebalanceHistory (h : History) (plan : groupRebalancePlan) : History :=
  Push h
    {| grh_Group := cga_Group (plan_Assignment plan);
       grh_Generation := cga_Generation (plan_Assignment plan);
       grh_Strategy := plan_Strategy plan;
       grh_ActiveMembers := plan_ActiveMembers plan;
       grh_TotalAssignments := length (cga_Assignments (plan_Assignment plan));
       grh_MovedPartitions := plan_MovedPartitions plan;
       grh_StickyCandidates := plan_StickyCandidates plan;
       grh_StickyApplied := plan_StickyApplied plan;
       grh_UpdatedAtMS := cga_UpdatedAtMS (plan_Assignment plan);
       grh_MemberLoads := plan_MemberLoads plan |}.

Definition applyRebalanceGroup `{MapRange} (cfg : GroupConfig) (now : Z) (st : MemoryStore * History) (group : string)
    : (MemoryStore * History) * result Code ConsumerGroupAssignment :=
  let '(s, h) := st in
  let '(s, _) := DeleteExpiredGroupMembers s now in
  match active ← activeGroupMembers s group now;
        previous ← LoadGroupAssignment s group;
        buildGroupRebalancePlan cfg s group now previous active with
  | Err e => ((s, h), Err e)
  | Ok plan =>
      match SaveGroupAssignment s (plan_Assignment plan) with
      | (s, Err e) => ((s, h), Err e)
      | (s, Ok _) => ((s, recordGroupRebalanceHistory h plan), Ok (plan_Assignment plan))
      end
  end.

End Rebalance.

(** ** Leases ([group_assignment_validation.go]) *)

Definition currentConsumerGroupAssignment (s : MemoryStore) (group : string) (generation : Z)
    : result Code ConsumerGroupAssignment :=
  assignment ← LoadGroupAssignment s group;
  match assignment with
  | None => Err CodeInvalidArgument
  | Some assignment =>
      if cga_Generation assignment =? generation then Ok assignment else Err CodeInvalidArgument
  end.

Definition validateConsumerGroupPartitionOwner (memberID : string) (assignment : ConsumerGroupAssignment)
    (tp : TopicPartition) : result Code unit :=
  match assignmentOwnerTable (cga_Assignments assignment) !! (tp_Topic tp, tp_Partition tp) with
  | None => Err CodeInvalidArgument
  | Some owner => if decide (owner = memberID) then Ok tt else Err CodeInvalidArgument
  end.

Definition validateConsumerGroupLease (nowMS : Z) (s : MemoryStore) (group memberID : string) (generation : Z)
    (tp : TopicPartition) : result Code unit :=
  if decide (group = "" \/ memberID = "") then Err CodeInvalidArgument
  else if generation =? 0 then Err CodeInvalidArgument
  else
    _ ← loadUnexpiredGroupMember s group memberID nowMS;
    assignment ← currentConsumerGroupAssignment s group generation;
    validateConsumerGroupPartitionOwner memberID assignment tp.
