(* ===== verification/GroupSpec.v ===== *)
(** * Consumer groups: every partition has exactly one owner

    What a rebalance guarantees: each partition of a subscribed topic is
    assigned exactly once and to an active member; the range and the sticky
    strategies only assign a partition to a subscriber of its topic; the
    loads the strategies produce; termination of the sticky balancing loop;
    and what a lease check guarantees. *)

From stdpp Require Import prelude gmap strings sorting list.
From S2P Require Import Prelude Model MemoryStore LogSpec MetaStore MetaSpec Groups.

#[local] Open Scope nat_scope.

(** ** Multimaps and loads *)

Section MultiMap.
Context {K V : Type} `{Countable K} (key : V -> K).

Lemma multi_get_put (m : gmap K (list V)) k k' v :
  multi_get (multi_put m k v) k' = multi_get m k' ++ (if decide (k = k') then [v] else []).
Proof.
  unfold multi_get, multi_put. destruct (decide (k = k')) as [->|Hne].
  - by rewrite lookup_insert_eq.
  - by rewrite lookup_insert_ne, app_nil_r.
Qed.

Lemma multi_get_fold l m k :
  multi_get (foldl (fun m v => multi_put m (key v) v) m l) k = multi_get m k ++ filter (fun v => key v = k) l.
Proof.
  induction l as [|v l IH] in m |- *; [by rewrite app_nil_r|]. cbn [foldl].
  rewrite IH, multi_get_put, filter_cons, <- (assoc_L (++)). by destruct (decide (key v = k)).
Qed.

Lemma multi_dom_fold l m k :
  is_Some (foldl (fun m v => multi_put m (key v) v) m l !! k) <-> is_Some (m !! k) \/ k ∈ key <$> l.
Proof.
  induction l as [|v l IH] in m |- *; [set_solver|]. cbn [foldl]. rewrite IH, fmap_cons, elem_of_cons.
  unfold multi_put. destruct (decide (key v = k)) as [<-|Hne].
  - rewrite lookup_insert_eq. naive_solver.
  - rewrite lookup_insert_ne by done. naive_solver.
Qed.

End MultiMap.

(** Number of assignments of a member. *)
Definition count (memberID : string) (l : list GroupPartitionAssignment) : nat :=
  length (filter (fun a => gpa_MemberID a = memberID) l).

Lemma load_count l memberID : load (groupAssignmentLoads l) memberID = count memberID l.
Proof. unfold load, groupAssignmentLoads. by rewrite (multi_get_fold gpa_MemberID). Qed.

Lemma count_app memberID l1 l2 : count memberID (l1 ++ l2) = count memberID l1 + count memberID l2.
Proof. unfold count. by rewrite filter_app, length_app. Qed.

Lemma count_cons memberID a l :
  count memberID (a :: l) = (if decide (gpa_MemberID a = memberID) then 1 else 0) + count memberID l.
Proof. unfold count. rewrite filter_cons. by destruct (decide _). Qed.

Lemma count_perm memberID l1 l2 : l1 ≡ₚ l2 -> count memberID l1 = count memberID l2.
Proof. intros Hp. unfold count. by rewrite Hp. Qed.

Lemma gpa_tp_assignTo m tp : gpa_tp (assignTo m tp) = tp.
Proof. by destruct tp. Qed.

(** Sorting assignments. *)
#[export] Instance compareGroupPartitionAssignment_ord : CmpOrder compareGroupPartitionAssignment.
Proof. unfold compareGroupPartitionAssignment. solve_cmp_order. Qed.

Lemma sortGroupAssignments_perm l : sortGroupAssignments l ≡ₚ l.
Proof. apply sort_func_perm. Qed.

Lemma compareGroupPartitionAssignment_eq a b : compareGroupPartitionAssignment a b = Eq -> a = b.
Proof. unfold compareGroupPartitionAssignment. intros E. cmp_eq_inv. destruct a, b. simpl in *. congruence. Qed.

Lemma sortGroupAssignments_perm_eq l1 l2 : l1 ≡ₚ l2 -> sortGroupAssignments l1 = sortGroupAssignments l2.
Proof. intros Hp. apply (sort_func_perm_eq compareGroupPartitionAssignment); [|done]. intros x y _ _. apply compareGroupPartitionAssignment_eq. Qed.

Lemma sortGroupAssignments_idemp l : sortGroupAssignments (sortGroupAssignments l) = sortGroupAssignments l.
Proof. apply sortGroupAssignments_perm_eq, sortGroupAssignments_perm. Qed.

(** The assignments name distinct partitions of the list, and active members. *)
Definition owned_by (P : ConsumerGroupMember -> GroupPartitionAssignment -> Prop)
    (active : list ConsumerGroupMember) (a : GroupPartitionAssignment) : Prop :=
  exists m, m ∈ active /\ cgm_MemberID m = gpa_MemberID a /\ P m a.

Definition subscribed (m : ConsumerGroupMember) (a : GroupPartitionAssignment) : Prop :=
  memberWantsTopic m (gpa_Topic a) = true.

(** ** Round robin *)

Section RoundRobin.
Context (active : list ConsumerGroupMember).
Hypothesis Hne : active <> [].

Lemma active_nonempty : length active <> 0.
Proof using Hne. by destruct active. Qed.

Lemma roundRobin_lookup i : exists m, active !! (i mod length active) = Some m.
Proof using Hne.
  apply lookup_lt_is_Some. apply Nat.mod_upper_bound. apply active_nonempty.
Qed.

Lemma roundRobin_tps i partitions : gpa_tp <$> roundRobinLoop active i partitions = partitions.
Proof using Hne.
  induction partitions as [|tp ps IH] in i |- *; [done|]. cbn [roundRobinLoop].
  destruct (roundRobin_lookup i) as [m ->]. rewrite fmap_cons, IH. by destruct tp.
Qed.

Lemma roundRobin_owned i partitions a :
  a ∈ roundRobinLoop active i partitions -> owned_by (fun _ _ => True) active a.
Proof using Hne.
  induction partitions as [|tp ps IH] in i |- *; [by intros ?%elem_of_nil|]. cbn [roundRobinLoop].
  destruct (roundRobin_lookup i) as [m Hm]. rewrite Hm. intros [->|Hin]%elem_of_cons; [|by apply (IH (S i))].
  exists m. split_and!; [|done|done]. by apply list_elem_of_lookup_2 in Hm.
Qed.

(** The member at index [j] gets the turns [i], [i + m], ... of the loop. *)
Lemma roundRobin_count i partitions j m :
  NoDup (cgm_MemberID <$> active) -> active !! j = Some m ->
  count (cgm_MemberID m) (roundRobinLoop active i partitions) =
  length (filter (fun k => k mod length active = j) (seq i (length partitions))).
Proof using Hne.
  intros Hnd Hj. induction partitions as [|tp ps IH] in i |- *; [done|]. cbn [roundRobinLoop length seq].
  destruct (roundRobin_lookup i) as [o Ho]. rewrite Ho, count_cons, filter_cons, IH. simpl.
  destruct (decide (cgm_MemberID o = cgm_MemberID m)) as [E|E], (decide (i mod length active = j)) as [Ej|Ej];
    simpl; try done; exfalso.
  - apply Ej. apply (NoDup_lookup (cgm_MemberID <$> active) _ _ (cgm_MemberID m)); [done|..].
    + by rewrite list_lookup_fmap, Ho, <- E.
    + by rewrite list_lookup_fmap, Hj.
  - apply E. rewrite Ej in Ho. congruence.
Qed.

End RoundRobin.

(** How many of [0 .. n-1] are congruent to [j] modulo [m]. *)
Lemma count_mod n m j : j < m ->
  length (filter (fun k => k mod m = j) (seq 0 n)) = n / m + (if decide (j < n mod m) then 1 else 0).
Proof.
  intros Hj. induction n as [|n IH].
  { simpl. rewrite Nat.Div0.div_0_l, Nat.Div0.mod_0_l. by destruct (decide _); [lia|]. }
  rewrite seq_S, filter_app, length_app, IH. clear IH. cbn [filter list_filter]. simpl (0 + n).
  pose proof (Nat.div_mod_eq n m) as Hd. pose proof (Nat.mod_upper_bound n m ltac:(lia)) as Hm.
  assert ((n mod m = m - 1 /\ S n / m = S (n / m) /\ S n mod m = 0) \/
          (n mod m < m - 1 /\ S n / m = n / m /\ S n mod m = S (n mod m))) as [(E1 & E2 & E3)|(E1 & E2 & E3)].
  { destruct (decide (n mod m = m - 1)) as [E|E]; [left|right]; (split; [lia|]).
    - assert (S n = m * S (n / m) + 0) as -> by nia.
      rewrite Nat.add_0_r, Nat.mul_comm, Nat.div_mul, Nat.Div0.mod_mul by lia. lia.
    - split.
      + symmetry. apply (Nat.div_unique _ _ _ (S (n mod m))); lia.
      + symmetry. apply (Nat.mod_unique _ _ (n / m)); lia. }
  - rewrite E2, E3. repeat case_decide; simpl; lia.
  - rewrite E2, E3. repeat case_decide; simpl; lia.
Qed.

(** ** Range *)

(** What is left for the owners from index [i] on. *)
Definition range_total (base extra i n : nat) : nat := n * base + (min extra (i + n) - min extra i).

Lemma range_total_S base extra i n :
  range_total base extra i (S n) = (if i <? extra then S base else base) + range_total base extra (S i) n.
Proof. unfold range_total. destruct (Nat.ltb_spec i extra); lia. Qed.

Lemma rangeLoop_tps base extra i owners partitions :
  length partitions = range_total base extra i (length owners) ->
  gpa_tp <$> rangeLoop base extra i owners partitions = partitions.
Proof.
  induction owners as [|o os IH] in i, partitions |- *; cbn [rangeLoop length].
  { unfold range_total. intros Hl. destruct partitions; [done|]. simpl in Hl. lia. }
  rewrite range_total_S. set (size := if i <? extra then _ else _). intros Hl.
  rewrite fmap_app, IH by (rewrite length_drop; lia). rewrite <- (take_drop size partitions) at 3. f_equal.
  rewrite <- list_fmap_compose. etrans; [|apply list_fmap_id]. apply list_fmap_ext.
  intros ? ? _. apply gpa_tp_assignTo.
Qed.

Lemma rangeLoop_owned base extra i owners partitions a :
  a ∈ rangeLoop base extra i owners partitions ->
  exists o tp, o ∈ owners /\ tp ∈ partitions /\ a = assignTo o tp.
Proof.
  induction owners as [|o os IH] in i, partitions |- *; cbn [rangeLoop]; [by intros ?%elem_of_nil|].
  set (size := if i <? extra then _ else _). intros [Hin|Hin]%elem_of_app.
  - apply list_elem_of_fmap in Hin as (tp & -> & Htp). exists o, tp. split_and!; [by left| |done].
    eapply elem_of_sublist; [done|]. apply sublist_take.
  - apply IH in Hin as (o' & tp & Ho & Htp & ->). exists o', tp. split_and!; [by right| |done].
    eapply elem_of_sublist; [done|]. apply sublist_drop.
Qed.

Lemma count_assignTo m o tps :
  count (cgm_MemberID m) (assignTo o <$> tps) = if decide (cgm_MemberID o = cgm_MemberID m) then length tps else 0.
Proof.
  induction tps as [|tp tps IH]; [by destruct (decide _)|]. rewrite fmap_cons, count_cons, IH. simpl.
  by destruct (decide _).
Qed.

Lemma rangeLoop_count_notin base extra i owners partitions m :
  cgm_MemberID m ∉ cgm_MemberID <$> owners ->
  count (cgm_MemberID m) (rangeLoop base extra i owners partitions) = 0.
Proof.
  induction owners as [|o os IH] in i, partitions |- *; [done|]. rewrite fmap_cons, not_elem_of_cons. intros [H1 H2].
  cbn [rangeLoop]. rewrite count_app, count_assignTo, IH by done. by destruct (decide _).
Qed.

Lemma rangeLoop_count base extra i owners partitions j m :
  NoDup (cgm_MemberID <$> owners) -> owners !! j = Some m ->
  length partitions = range_total base extra i (length owners) ->
  count (cgm_MemberID m) (rangeLoop base extra i owners partitions) =
  base + (if decide (i + j < extra) then 1 else 0).
Proof.
  induction owners as [|o os IH] in i, partitions, j |- *; [done|]. rewrite fmap_cons.
  intros [Hn Hnd]%NoDup_cons Hj. cbn [rangeLoop length]. rewrite range_total_S.
  set (size := if i <? extra then _ else _). intros Hl. rewrite count_app, count_assignTo.
  destruct j as [|j].
  - injection Hj as ->. rewrite decide_True by done. rewrite rangeLoop_count_notin by done.
    rewrite length_take, Nat.add_0_r. subst size. destruct (Nat.ltb_spec i extra); case_decide; lia.
  - simpl in Hj. rewrite decide_False.
    + rewrite (IH (S i) (drop size partitions) j) by (rewrite ?length_drop; auto; lia).
      replace (S i + j) with (i + S j) by lia. done.
    + intros E. apply Hn. rewrite E. apply list_elem_of_fmap. exists m. split; [done|].
      by apply list_elem_of_lookup_2 in Hj.
Qed.

Lemma range_total_all n m : m <> 0 -> range_total (n / m) (n mod m) 0 m = n.
Proof.
  intros Hm. unfold range_total. pose proof (Nat.mod_upper_bound n m Hm). pose proof (Nat.div_mod_eq n m). lia.
Qed.

Lemma appendRange_tps owners partitions :
  owners <> [] -> gpa_tp <$> appendRangeAssignments owners partitions = partitions.
Proof.
  intros Hne. unfold appendRangeAssignments. destruct owners as [|o os]; [done|].
  apply rangeLoop_tps. by rewrite range_total_all.
Qed.

(** Within a topic, the loads of the subscribers differ by at most one. *)
Lemma appendRange_count owners partitions j m :
  NoDup (cgm_MemberID <$> owners) -> owners !! j = Some m ->
  count (cgm_MemberID m) (appendRangeAssignments owners partitions) =
  length partitions / length owners + (if decide (j < length partitions mod length owners) then 1 else 0).
Proof.
  intros Hnd Hj. unfold appendRangeAssignments. destruct owners as [|o os] eqn:E; [done|]. rewrite <- E in *.
  apply (rangeLoop_count _ _ 0 _ _ j); [done|done|]. rewrite range_total_all; [done|by rewrite E].
Qed.

(** Splitting a list into the buckets of a key and concatenating them. *)
Lemma buckets_perm {K V} `{EqDecision K} (key : V -> K) (ks : list K) (l : list V) :
  NoDup ks -> (forall v, v ∈ l -> key v ∈ ks) -> (ks ≫= fun k => filter (fun v => key v = k) l) ≡ₚ l.
Proof.
  intros Hnd. induction l as [|v l IH]; intros Hin.
  - clear. induction ks as [|k ks IH]; [done|]. rewrite bind_cons. by rewrite IH.
  - assert (forall ks, NoDup ks ->
      (ks ≫= fun k => filter (fun v0 => key v0 = k) (v :: l)) ≡ₚ
      (if decide (key v ∈ ks) then [v] else []) ++ (ks ≫= fun k => filter (fun v0 => key v0 = k) l)) as Hstep.
    { clear. intros ks Hnd. induction Hnd as [|k ks Hk Hnd IH]; [done|]. rewrite !bind_cons, IH, filter_cons.
      destruct (decide (key v = k)) as [->|Hne].
      - rewrite (decide_False (P := k ∈ ks)) by done. rewrite decide_True by (by left). done.
      - destruct (decide (key v ∈ ks)) as [Hin|Hin].
        + rewrite decide_True by (by right). simpl. by rewrite <- Permutation_middle.
        + rewrite decide_False by (by intros [?|?]%elem_of_cons). done. }
    rewrite (Hstep ks Hnd). rewrite decide_True by (apply Hin; by left). simpl. rewrite IH; [done|].
    intros v' Hv'. apply Hin. by right.
Qed.

Lemma partitionsByTopic_get partitions topic :
  multi_get (partitionsByTopic partitions) topic = filter (fun tp => tp_Topic tp = topic) partitions.
Proof. unfold partitionsByTopic. by rewrite (multi_get_fold tp_Topic). Qed.

Lemma partitionsByTopic_keys `{MapRange} partitions topic :
  topic ∈ keys (partitionsByTopic partitions) <-> topic ∈ tp_Topic <$> partitions.
Proof.
  rewrite elem_of_keys. unfold partitionsByTopic. rewrite (multi_dom_fold tp_Topic).
  rewrite lookup_empty. split; [intros [[? [=]]|?]; done|by right].
Qed.

Lemma bind_perm_ext {A B} (l : list A) (f g : A -> list B) :
  (forall x, x ∈ l -> f x ≡ₚ g x) -> l ≫= f ≡ₚ l ≫= g.
Proof.
  induction l as [|x l IH]; intros Hfg; [done|]. rewrite !bind_cons. f_equiv; [apply Hfg; left|].
  apply IH. intros y Hy. apply Hfg. by right.
Qed.

Lemma fmap_bind_list {A B C} (g : B -> C) (l : list A) (f : A -> list B) :
  g <$> (l ≫= f) = l ≫= fun x => g <$> f x.
Proof. induction l as [|x l IH]; [done|]. by rewrite !bind_cons, fmap_app, IH. Qed.

#[local] Instance comparePartition_order : CmpOrder comparePartition.
Proof. unfold comparePartition. solve_cmp_order. Qed.

Lemma elem_of_eligible active topic m :
  m ∈ eligibleMembers active topic <-> memberWantsTopic m topic = true /\ m ∈ active.
Proof. unfold eligibleMembers. by rewrite list_elem_of_filter. Qed.

(** Every partition has a subscriber among the active members. *)
Definition wanted_by (active : list ConsumerGroupMember) (tp : TopicPartition) : Prop :=
  exists m, m ∈ active /\ memberWantsTopic m (tp_Topic tp) = true.

Section Range.
Context `{MapRange} (active : list ConsumerGroupMember) (partitions : list TopicPartition).
Hypothesis Hwant : forall tp, tp ∈ partitions -> wanted_by active tp.

Lemma buildRange_tps : gpa_tp <$> buildRangeAssignments active partitions ≡ₚ partitions.
Proof using Hwant.
  unfold buildRangeAssignments. cbv zeta. rewrite fmap_bind_list.
  etrans; [apply (bind_perm_ext _ _ (fun topic => filter (fun tp => tp_Topic tp = topic) partitions))|].
  - intros topic Hin. apply elem_of_sort_func, partitionsByTopic_keys, list_elem_of_fmap in Hin as (tp & -> & Htp).
    destruct (Hwant tp Htp) as (m & Hm & Hw). rewrite appendRange_tps.
    + unfold sortedTopicPartitions. rewrite sort_func_perm, partitionsByTopic_get. done.
    + intros Hnil. apply (not_elem_of_nil m). rewrite <- Hnil. by apply elem_of_eligible.
  - apply buckets_perm.
    + rewrite sort_func_perm. apply NoDup_keys.
    + intros tp Htp. apply elem_of_sort_func, partitionsByTopic_keys. by apply list_elem_of_fmap_2.
Qed.

Lemma buildRange_bucket a :
  a ∈ buildRangeAssignments active partitions ->
  a ∈ appendRangeAssignments (eligibleMembers active (gpa_Topic a))
        (sortedTopicPartitions (multi_get (partitionsByTopic partitions) (gpa_Topic a))).
Proof using Type.
  unfold buildRangeAssignments. cbv zeta. intros (topic & Ha & _)%list_elem_of_bind.
  assert (gpa_Topic a = topic) as ->; [|done].
  unfold appendRangeAssignments in Ha. destruct (eligibleMembers active topic) as [|o os] eqn:E; [by apply elem_of_nil in Ha|].
  apply rangeLoop_owned in Ha as (o' & tp & _ & Htp & ->). unfold sortedTopicPartitions in Htp.
  rewrite elem_of_sort_func, partitionsByTopic_get in Htp. by apply list_elem_of_filter in Htp as [? _].
Qed.

Lemma buildRange_owned a :
  a ∈ buildRangeAssignments active partitions -> owned_by subscribed active a.
Proof using Type.
  intros Ha%buildRange_bucket. unfold appendRangeAssignments in Ha.
  destruct (eligibleMembers active (gpa_Topic a)) as [|o os] eqn:E; [by apply elem_of_nil in Ha|]. rewrite <- E in Ha.
  apply rangeLoop_owned in Ha as (o' & tp & Ho & _ & Ea).
  apply elem_of_eligible in Ho as [Hw Ho]. exists o'. split_and!; [done|by rewrite Ea|done].
Qed.

Lemma filter_bind_key {A B K} `{EqDecision K} (key : B -> K) (inj : A -> K) (l : list A) (f : A -> list B) x :
  NoDup (inj <$> l) -> x ∈ l -> (forall y b, b ∈ f y -> key b = inj y) ->
  filter (fun b => key b = inj x) (l ≫= f) = f x.
Proof using Type.
  intros Hnd Hx Hf. induction l as [|y l IH]; [by apply elem_of_nil in Hx|].
  rewrite bind_cons, filter_app. rewrite fmap_cons in Hnd. apply NoDup_cons in Hnd as [Hy Hnd].
  apply elem_of_cons in Hx as [->|Hx].
  - rewrite filter_all by (apply Forall_forall; intros b Hb; by apply Hf).
    rewrite filter_none, app_nil_r; [done|]. apply Forall_forall. intros b Hb E.
    apply list_elem_of_bind in Hb as (z & Hb & Hz). apply Hf in Hb. apply Hy.
    rewrite <- E, Hb. by apply list_elem_of_fmap_2.
  - rewrite IH by done. rewrite filter_none; [done|]. apply Forall_forall. intros b Hb E. apply Hf in Hb. apply Hy.
    rewrite <- Hb, E. by apply list_elem_of_fmap_2.
Qed.

(** The assignments of one topic are the range assignment of its partitions. *)
Lemma buildRange_topic topic :
  topic ∈ tp_Topic <$> partitions ->
  filter (fun a => gpa_Topic a = topic) (buildRangeAssignments active partitions) =
  appendRangeAssignments (eligibleMembers active topic)
    (sortedTopicPartitions (filter (fun tp => tp_Topic tp = topic) partitions)).
Proof using Type.
  intros Ht. unfold buildRangeAssignments. cbv zeta. rewrite <- partitionsByTopic_get.
  apply (filter_bind_key gpa_Topic id
           (sort_func String.compare (keys (partitionsByTopic partitions)))
           (fun topic => appendRangeAssignments (eligibleMembers active topic)
                           (sortedTopicPartitions (multi_get (partitionsByTopic partitions) topic)))).
  - rewrite list_fmap_id, sort_func_perm. apply NoDup_keys.
  - by apply elem_of_sort_func, partitionsByTopic_keys.
  - intros t a Ha. unfold appendRangeAssignments in Ha.
    destruct (eligibleMembers active t) as [|o os]; [by apply elem_of_nil in Ha|].
    apply rangeLoop_owned in Ha as (o' & tp & _ & Htp & ->). unfold sortedTopicPartitions in Htp.
    rewrite elem_of_sort_func, partitionsByTopic_get in Htp. by apply list_elem_of_filter in Htp as [? _].
Qed.

End Range.

(** ** Cooperative sticky: what is retained and what is added *)

Lemma activeMemberMap_lookup active id m :
  activeMemberMap active !! id = Some m -> m ∈ active /\ cgm_MemberID m = id.
Proof.
  unfold activeMemberMap.
  assert (forall out : gmap string ConsumerGroupMember, foldl (fun out member => <[cgm_MemberID member := member]> out) out active !! id = Some m ->
            (m ∈ active /\ cgm_MemberID m = id) \/ out !! id = Some m) as Hgen.
  { induction active as [|x l IH]; [by right|]. intros out Hl. cbn [foldl] in Hl.
    destruct (IH _ Hl) as [[? ?]|[[<- <-]|[_ ?]]%lookup_insert_Some]; [left|left|by right]; split; auto; by constructor. }
  intros Hl. destruct (Hgen ∅ Hl) as [?|?]; [done|by rewrite lookup_empty in *].
Qed.

(** Assignments to distinct partitions of the list, each to a subscriber. *)
Record partial_assignment (active : list ConsumerGroupMember) (partitions : list TopicPartition)
    (l : list GroupPartitionAssignment) : Prop := {
  pa_nodup : NoDup (gpa_tp <$> l);
  pa_in : forall a, a ∈ l -> gpa_tp a ∈ partitions;
  pa_owned : forall a, a ∈ l -> owned_by subscribed active a
}.

Lemma retainedLoop_spec active partitions seen previous :
  let out := retainedLoop (activeMemberMap active) (topicPartitionSet partitions) seen previous in
  partial_assignment active partitions out /\ forall a, a ∈ out -> (gpa_tp a ∉ seen) /\ a ∈ previous.
Proof.
  induction previous as [|a previous IH] in seen |- *; cbn [retainedLoop].
  { split; [split; [constructor|..]|]; by intros ? ?%elem_of_nil. }
  assert (forall seen', seen ⊆ seen' ->
    let out := retainedLoop (activeMemberMap active) (topicPartitionSet partitions) seen' previous in
    partial_assignment active partitions out /\ forall b, b ∈ out -> (gpa_tp b ∉ seen) /\ b ∈ a :: previous) as Hskip.
  { intros seen' Hsub. destruct (IH seen') as [Hp Hin]. split; [done|]. intros b Hb.
    destruct (Hin b Hb). split; [set_solver|by right]. }
  destruct (bool_decide (gpa_tp a ∈ seen)) eqn:Hs; simpl; [by apply Hskip|]. apply bool_decide_eq_false in Hs.
  destruct (bool_decide (gpa_tp a ∈ topicPartitionSet partitions)) eqn:Hp; simpl; [|by apply Hskip].
  apply bool_decide_eq_true, elem_of_list_to_set in Hp.
  destruct (activeMemberMap active !! gpa_MemberID a) as [m|] eqn:Hm; [|by apply Hskip].
  destruct (memberWantsTopic m (gpa_Topic a)) eqn:Hw; [|by apply Hskip].
  apply activeMemberMap_lookup in Hm as [Hm Hid].
  destruct (IH ({[gpa_tp a]} ∪ seen)) as [[Hnd Hin Hown] Hnot]. split.
  - split.
    + rewrite fmap_cons. apply NoDup_cons. split; [|done]. intros (b & Hb & Hbin)%list_elem_of_fmap.
      apply Hnot in Hbin as [Hbin _]. apply Hbin. rewrite <- Hb. set_solver.
    + intros b [->|Hb]%elem_of_cons; [done|by apply Hin].
    + intros b [->|Hb]%elem_of_cons; [by exists m|by apply Hown].
  - intros b [->|Hb]%elem_of_cons; [split; [done|by left]|]. destruct (Hnot b Hb). split; [set_solver|by right].
Qed.

Lemma leastLoaded_some assignments active topic m :
  leastLoadedEligibleMember assignments active topic = Some m -> memberWantsTopic m topic = true /\ m ∈ active.
Proof.
  unfold leastLoadedEligibleMember. intros Hm. apply head_Some_elem_of in Hm.
  unfold sort_func in Hm. rewrite merge_sort_Permutation in Hm. by apply list_elem_of_filter in Hm.
Qed.

Lemma leastLoaded_none assignments active topic :
  leastLoadedEligibleMember assignments active topic = None ->
  forall m, m ∈ active -> memberWantsTopic m topic = true -> False.
Proof.
  unfold leastLoadedEligibleMember. intros Hn m Hm Hw. apply head_None in Hn.
  apply (not_elem_of_nil m). rewrite <- Hn. unfold sort_func. rewrite merge_sort_Permutation.
  by apply list_elem_of_filter.
Qed.

Lemma assignMissing_spec active all assignments assigned partitions :
  partial_assignment active all assignments ->
  assigned = list_to_set (gpa_tp <$> assignments) -> (forall tp, tp ∈ partitions -> tp ∈ all) ->
  let out := assignMissingLoop active assignments assigned partitions in
  partial_assignment active all out /\ (forall a, a ∈ assignments -> a ∈ out) /\
  (forall tp, tp ∈ partitions -> wanted_by active tp -> tp ∈ gpa_tp <$> out).
Proof.
  induction partitions as [|tp ps IH] in assignments, assigned |- *; intros Hpa -> Hall; cbn [assignMissingLoop].
  { split_and!; [done|done|]. by intros ? ?%elem_of_nil. }
  assert (forall t, t ∈ ps -> t ∈ all) as Hall' by (intros t Ht; apply Hall; by right).
  case_bool_decide as Hin.
  - destruct (IH assignments _ Hpa eq_refl Hall') as (H1 & H2 & H3). split_and!; [done|done|].
    intros t [->|Ht]%elem_of_cons Hw; [|by apply H3].
    apply elem_of_list_to_set, list_elem_of_fmap in Hin as (a & -> & Ha). by apply list_elem_of_fmap_2, H2.
  - destruct (leastLoadedEligibleMember assignments active (tp_Topic tp)) as [o|] eqn:Ho.
    + apply leastLoaded_some in Ho as [Hw Ho].
      destruct (IH (assignments ++ [assignTo o tp]) ({[tp]} ∪ list_to_set (gpa_tp <$> assignments)))
        as (H1 & H2 & H3); [|rewrite fmap_app, list_to_set_app_L; simpl; rewrite gpa_tp_assignTo; set_solver|done|].
      { destruct Hpa as [Hnd Hinn Hown]. split.
        - rewrite fmap_app. apply NoDup_app. split_and!; [done| |apply NoDup_singleton].
          intros t Ht [=->]%list_elem_of_singleton. rewrite gpa_tp_assignTo in Ht. apply Hin. by apply elem_of_list_to_set.
        - intros a [Ha| ->%list_elem_of_singleton]%elem_of_app; [by apply Hinn|].
          rewrite gpa_tp_assignTo. apply Hall. by left.
        - intros a [Ha| ->%list_elem_of_singleton]%elem_of_app; [by apply Hown|]. by exists o. }
      split_and!; [done|intros a Ha; apply H2, elem_of_app; by left|].
      intros t [->|Ht]%elem_of_cons Hwt; [|by apply H3].
      apply list_elem_of_fmap. exists (assignTo o tp). split; [by rewrite gpa_tp_assignTo|].
      apply H2, elem_of_app. right. by apply list_elem_of_singleton.
    + destruct (IH assignments _ Hpa eq_refl Hall') as (H1 & H2 & H3). split_and!; [done|done|].
      intros t [->|Ht]%elem_of_cons Hw; [|by apply H3]. destruct Hw as (m & Hm & Hw).
      by destruct (leastLoaded_none _ _ _ Ho m).
Qed.

(** ** Cooperative sticky: balancing *)

Lemma elem_of_imap_pair {A} (l : list A) i a : (i, a) ∈ imap pair l <-> l !! i = Some a.
Proof.
  rewrite elem_of_lookup_imap. split.
  - intros (j & b & [= -> ->] & Hj). done.
  - intros Hi. by exists i, a.
Qed.

Lemma movableIndex_some assignments loads target maxLoad i :
  movableAssignmentIndex assignments loads target maxLoad = Some i ->
  exists a, assignments !! i = Some a /\ movable loads target maxLoad a.
Proof.
  unfold movableAssignmentIndex. cbv zeta. intros Hi. apply fmap_Some in Hi as ([j a] & Hh & ->).
  apply head_Some_elem_of in Hh. unfold sort_func in Hh. rewrite merge_sort_Permutation in Hh.
  apply list_elem_of_filter in Hh as [Hm Hin]. apply elem_of_imap_pair in Hin. by exists a.
Qed.

Lemma movableIndex_none assignments loads target maxLoad :
  movableAssignmentIndex assignments loads target maxLoad = None ->
  forall a, a ∈ assignments -> ~ movable loads target maxLoad a.
Proof.
  unfold movableAssignmentIndex. cbv zeta. intros Hn a Ha Hm. apply fmap_None, head_None in Hn.
  apply list_elem_of_lookup in Ha as [i Hi]. apply (not_elem_of_nil (i, a)). rewrite <- Hn.
  unfold sort_func. rewrite merge_sort_Permutation. apply list_elem_of_filter. split; [done|].
  by apply elem_of_imap_pair.
Qed.

Lemma moveLoop_some assignments loads maxLoad targets l' :
  moveLoop assignments loads maxLoad targets = Some l' ->
  exists target i a, target ∈ targets /\ assignments !! i = Some a /\ movable loads target maxLoad a /\
    l' = <[i := assignTo target (gpa_tp a)]> assignments.
Proof.
  induction targets as [|t ts IH]; [done|]. cbn [moveLoop].
  destruct (movableAssignmentIndex assignments loads t maxLoad) as [i|] eqn:Hi.
  - apply movableIndex_some in Hi as (a & Ha & Hm). rewrite Ha. intros [= <-]. exists t, i, a.
    split_and!; [by left|done|done|done].
  - intros Hl. apply IH in Hl as (t' & i & a & Ht & ?). exists t', i, a. split; [by right|done].
Qed.

Lemma moveLoop_none assignments loads maxLoad targets :
  moveLoop assignments loads maxLoad targets = None ->
  forall t a, t ∈ targets -> a ∈ assignments -> ~ movable loads t maxLoad a.
Proof.
  induction targets as [|t ts IH]; [by intros _ ? ? ?%elem_of_nil|]. cbn [moveLoop].
  destruct (movableAssignmentIndex assignments loads t maxLoad) as [i|] eqn:Hi.
  - apply movableIndex_some in Hi as (a & Ha & Hm). by rewrite Ha.
  - intros Hl t' a [->|Ht]%elem_of_cons Ha; [by apply (movableIndex_none _ _ _ _ Hi)|by apply IH].
Qed.

Lemma elem_of_underloaded loads active minLoad m :
  m ∈ underloadedMembers loads active minLoad <-> load loads (cgm_MemberID m) < minLoad /\ m ∈ active.
Proof. unfold underloadedMembers, sort_func. by rewrite merge_sort_Permutation, list_elem_of_filter. Qed.

(** One move: an assignment leaves an overloaded member for an underloaded
    subscriber. *)
Lemma moveOne_some l active minLoad maxLoad l' :
  moveOneStickyAssignment l active minLoad maxLoad = Some l' ->
  exists target l1 a l2, target ∈ active /\ count (cgm_MemberID target) l < minLoad /\
    l = l1 ++ a :: l2 /\ gpa_MemberID a <> cgm_MemberID target /\ maxLoad < count (gpa_MemberID a) l /\
    memberWantsTopic target (gpa_Topic a) = true /\ l' = l1 ++ assignTo target (gpa_tp a) :: l2.
Proof.
  unfold moveOneStickyAssignment. cbv zeta. intros Hl.
  apply moveLoop_some in Hl as (t & i & a & Ht & Hi & (Hne & Hover & Hw) & ->).
  apply elem_of_underloaded in Ht as [Hlt Ht]. rewrite load_count in *.
  exists t, (take i l), a, (drop (S i) l). split_and!; try done.
  - symmetry. by apply take_drop_middle.
  - apply insert_take_drop. by apply lookup_lt_Some in Hi.
Qed.

Lemma moveOne_none l active minLoad maxLoad :
  moveOneStickyAssignment l active minLoad maxLoad = None ->
  forall t a, t ∈ active -> count (cgm_MemberID t) l < minLoad -> a ∈ l -> subscribed t a ->
  gpa_MemberID a = cgm_MemberID t \/ count (gpa_MemberID a) l <= maxLoad.
Proof.
  unfold moveOneStickyAssignment. cbv zeta. intros Hn t a Ht Hlt Ha Hw.
  destruct (decide (gpa_MemberID a = cgm_MemberID t)) as [|Hne]; [by left|right].
  destruct (decide (count (gpa_MemberID a) l <= maxLoad)) as [|Hover]; [done|]. exfalso.
  apply (moveLoop_none _ _ _ _ Hn t a); [|done|].
  - apply elem_of_underloaded. by rewrite load_count.
  - split_and!; [done| |done]. rewrite load_count. lia.
Qed.

(** The number of assignments that overloaded members hold. *)
Definition overload (maxLoad : nat) (l : list GroupPartitionAssignment) : nat :=
  length (filter (fun a => maxLoad < count (gpa_MemberID a) l) l).

Lemma length_filter_le {A} (P Q : A -> Prop) `{forall x, Decision (P x), forall x, Decision (Q x)} (l : list A) :
  (forall x, x ∈ l -> P x -> Q x) -> length (filter P l) <= length (filter Q l).
Proof.
  induction l as [|x l IH]; intros Hpq; [done|]. rewrite !filter_cons.
  assert (length (filter P l) <= length (filter Q l)) by (apply IH; intros y Hy; apply Hpq; by right).
  destruct (decide (P x)) as [HP|HP]; [rewrite decide_True by (apply Hpq; [left|done]); simpl; lia|].
  destruct (decide (Q x)); simpl; lia.
Qed.

Lemma count_move id t l1 a l2 :
  gpa_MemberID a <> cgm_MemberID t ->
  count id (l1 ++ assignTo t (gpa_tp a) :: l2) + (if decide (id = gpa_MemberID a) then 1 else 0) =
  count id (l1 ++ a :: l2) + (if decide (id = cgm_MemberID t) then 1 else 0).
Proof.
  intros Hne. rewrite !count_app, !count_cons. simpl. repeat case_decide; subst; try done; lia.
Qed.

Lemma moveOne_overload l active minLoad maxLoad l' :
  minLoad <= maxLoad -> moveOneStickyAssignment l active minLoad maxLoad = Some l' ->
  overload maxLoad l' < overload maxLoad l.
Proof.
  intros Hle Hm. apply moveOne_some in Hm as (t & l1 & a & l2 & Ht & Hlt & -> & Hne & Hover & Hw & ->).
  assert (forall x, maxLoad < count (gpa_MemberID x) (l1 ++ assignTo t (gpa_tp a) :: l2) ->
            maxLoad < count (gpa_MemberID x) (l1 ++ a :: l2)) as Himpl.
  { intros x Hx. pose proof (count_move (gpa_MemberID x) t l1 a l2 Hne) as Hc.
    destruct (decide (gpa_MemberID x = cgm_MemberID t)) as [E|E]; [|repeat case_decide; lia].
    rewrite E in *. repeat case_decide; lia. }
  unfold overload. rewrite !filter_app, !length_app, !filter_cons.
  rewrite (decide_True (P := maxLoad < count (gpa_MemberID a) _)) by done.
  rewrite decide_False.
  - simpl.
    pose proof (length_filter_le _ _ l1 (fun x _ => Himpl x)). pose proof (length_filter_le _ _ l2 (fun x _ => Himpl x)).
    lia.
  - simpl. pose proof (count_move (cgm_MemberID t) t l1 a l2 Hne) as Hc. repeat case_decide; lia.
Qed.

Section Balance.
Context (active : list ConsumerGroupMember) (minLoad maxLoad : nat).
Hypothesis Hle : minLoad <= maxLoad.

(** The loop ends, and keeps what every move keeps. *)
Lemma balanceLoop_ind (P : list GroupPartitionAssignment -> Prop) fuel l :
  (forall l l', P l -> moveOneStickyAssignment l active minLoad maxLoad = Some l' -> P l') ->
  P l -> overload maxLoad l < fuel ->
  exists l', balanceLoop fuel l active minLoad maxLoad = Some l' /\ P l' /\
    moveOneStickyAssignment l' active minLoad maxLoad = None.
Proof using Hle.
  intros Hstep. induction fuel as [|fuel IH] in l |- *; intros HP Hf; [lia|]. cbn [balanceLoop].
  destruct (moveOneStickyAssignment l active minLoad maxLoad) as [l1|] eqn:E; [|by exists l].
  apply IH; [by apply (Hstep l)|]. pose proof (moveOne_overload l active minLoad maxLoad l1 Hle E). lia.
Qed.

Lemma moveOne_tps l l' :
  moveOneStickyAssignment l active minLoad maxLoad = Some l' -> gpa_tp <$> l' = gpa_tp <$> l.
Proof using Type.
  intros Hm. apply moveOne_some in Hm as (t & l1 & a & l2 & _ & _ & -> & _ & _ & _ & ->).
  by rewrite !fmap_app, !fmap_cons, gpa_tp_assignTo.
Qed.

Lemma moveOne_owned l l' :
  moveOneStickyAssignment l active minLoad maxLoad = Some l' ->
  (forall a, a ∈ l -> owned_by subscribed active a) -> forall a, a ∈ l' -> owned_by subscribed active a.
Proof using Type.
  intros Hm Hown b Hb. apply moveOne_some in Hm as (t & l1 & a & l2 & Ht & _ & -> & _ & _ & Hw & ->).
  apply elem_of_app in Hb as [Hb|[->|Hb]%elem_of_cons].
  - apply Hown, elem_of_app. by left.
  - exists t. split_and!; [done|done|]. done.
  - apply Hown, elem_of_app. right. by right.
Qed.

(** A member that is not overloaded does not lose anything. *)
Lemma moveOne_keeps l l' a :
  moveOneStickyAssignment l active minLoad maxLoad = Some l' ->
  a ∈ l /\ count (gpa_MemberID a) l <= maxLoad -> a ∈ l' /\ count (gpa_MemberID a) l' <= maxLoad.
Proof using Hle.
  intros Hm [Ha Hc]. apply moveOne_some in Hm as (t & l1 & b & l2 & Ht & Hlt & -> & Hne & Hover & Hw & ->).
  assert (a <> b) as Hab by (intros ->; lia). split.
  - set_solver.
  - pose proof (count_move (gpa_MemberID a) t l1 b l2 Hne) as Hm.
    destruct (decide (gpa_MemberID a = cgm_MemberID t)) as [E|E]; [rewrite E in *|]; repeat case_decide; lia.
Qed.

End Balance.

Lemma minLoad_le_maxLoad l active : minLoad_of l active <= maxLoad_of l active.
Proof. unfold maxLoad_of. case_decide; lia. Qed.

Lemma overload_le maxLoad l : overload maxLoad l <= length l.
Proof. unfold overload. apply length_filter. Qed.

Lemma partial_length active partitions l :
  partial_assignment active partitions l -> length l <= length partitions.
Proof.
  intros [Hnd Hin _]. rewrite <- (length_fmap gpa_tp l).
  apply submseteq_length, NoDup_submseteq; [done|]. intros tp (a & -> & Ha)%list_elem_of_fmap. by apply Hin.
Qed.

(** What the sticky strategy builds from a previous assignment. *)
Record sticky_result (active : list ConsumerGroupMember)
    (partitions : list TopicPartition) (l : list GroupPartitionAssignment) : Prop := {
  sr_partial : partial_assignment active partitions l;
  sr_complete : forall tp, tp ∈ partitions -> wanted_by active tp -> tp ∈ gpa_tp <$> l;
  sr_balanced : forall t a, t ∈ active -> count (cgm_MemberID t) l < minLoad_of l active -> a ∈ l -> subscribed t a ->
    gpa_MemberID a = cgm_MemberID t \/ count (gpa_MemberID a) l <= maxLoad_of l active
}.

Lemma sticky_result_exists previous active partitions fuel :
  length partitions < fuel ->
  exists l candidates applied,
    buildCooperativeStickyAssignments fuel previous active partitions
      = Some (sortGroupAssignments l, candidates, applied) /\
    sticky_result active partitions l.
Proof.
  intros Hfuel. unfold buildCooperativeStickyAssignments. cbv zeta.
  set (l0 := retainedStickyAssignments _ _ _).
  assert (partial_assignment active partitions l0) as H0 by apply retainedLoop_spec.
  destruct (assignMissing_spec active partitions l0 (assignedTopicPartitions l0) partitions H0 eq_refl) as (H1 & _ & H3);
    [done|]. unfold assignMissingPartitions. set (l1 := assignMissingLoop _ _ _ _) in *. clearbody l1. clear l0 H0.
  pose proof (partial_length active partitions l1 H1) as Hlen. pose proof (overload_le (maxLoad_of l1 active) l1) as Hov.
  assert (exists l', balanceStickyAssignments fuel l1 active = Some l' /\ gpa_tp <$> l' = gpa_tp <$> l1 /\
            (forall a, a ∈ l' -> owned_by subscribed active a) /\
            (forall t a, t ∈ active -> count (cgm_MemberID t) l' < minLoad_of l' active -> a ∈ l' -> subscribed t a ->
               gpa_MemberID a = cgm_MemberID t \/ count (gpa_MemberID a) l' <= maxLoad_of l' active)) as (l' & -> & Htp & Hown & Hbal).
  { unfold balanceStickyAssignments. destruct l1 as [|a0 l0] eqn:El; [|destruct active as [|m0 ms] eqn:Ea].
    - exists []. split_and!; [done|done|by intros ? ?%elem_of_nil|by intros ? ? _ _ ?%elem_of_nil].
    - exists (a0 :: l0). split_and!; [done|done|apply H1|by intros ? ? ?%elem_of_nil].
    - rewrite <- El, <- Ea in *.
      destruct (balanceLoop_ind active (minLoad_of l1 active) (maxLoad_of l1 active) (minLoad_le_maxLoad _ _)
                  (fun l => gpa_tp <$> l = gpa_tp <$> l1 /\ forall a, a ∈ l -> owned_by subscribed active a) fuel l1)
        as (l' & Hb & [Htp Hown] & Hnone).
      + intros l l'' [Htp Hown] Hm. split; [by rewrite (moveOne_tps _ _ _ _ _ Hm)|by eapply moveOne_owned].
      + split; [done|apply H1].
      + lia.
      + exists l'. split_and!; [done|done|done|].
        assert (length l' = length l1) as Hl by (by rewrite <- (length_fmap gpa_tp l'), Htp, length_fmap).
        unfold minLoad_of, maxLoad_of, minLoad_of in *. rewrite Hl. by apply moveOne_none. }
  simpl. exists l'. eexists _, _. split; [done|]. split; [|by rewrite Htp|done].
  destruct H1 as [Hnd Hin _]. split; [by rewrite Htp| |done].
  intros a Ha. apply (list_elem_of_fmap_2 gpa_tp) in Ha. rewrite Htp in Ha.
  apply list_elem_of_fmap in Ha as (b & -> & Hb). by apply Hin.
Qed.

Lemma balanceLoop_mono fuel fuel' l active minLoad maxLoad l' :
  fuel <= fuel' -> balanceLoop fuel l active minLoad maxLoad = Some l' ->
  balanceLoop fuel' l active minLoad maxLoad = Some l'.
Proof.
  induction fuel as [|fuel IH] in fuel', l |- *; [done|]. destruct fuel' as [|fuel']; [lia|]. intros Hle.
  cbn [balanceLoop]. destruct (moveOneStickyAssignment _ _ _ _); [|done]. apply IH. lia.
Qed.

Lemma sticky_fuel_mono fuel fuel' previous active partitions r :
  fuel <= fuel' -> buildCooperativeStickyAssignments fuel previous active partitions = Some r ->
  buildCooperativeStickyAssignments fuel' previous active partitions = Some r.
Proof.
  intros Hle. unfold buildCooperativeStickyAssignments. cbv zeta. intros (l & Hb & Hr)%bind_Some.
  assert (balanceStickyAssignments fuel' (assignMissingPartitions
     (retainedStickyAssignments previous (activeMemberMap active) (topicPartitionSet partitions)) active partitions) active = Some l) as ->; [|done].
  revert Hb. unfold balanceStickyAssignments. destruct (assignMissingPartitions _ _ _), active; try done.
  by apply balanceLoop_mono.
Qed.

(** ** The sticky strategy changes nothing it does not have to *)

Lemma activeMemberMap_self active m :
  NoDup (cgm_MemberID <$> active) -> m ∈ active -> activeMemberMap active !! cgm_MemberID m = Some m.
Proof.
  intros Hnd Hm.
  assert (forall l (mm : gmap string ConsumerGroupMember), m ∈ l \/ is_Some (mm !! cgm_MemberID m) ->
    is_Some (foldl (fun out member => <[cgm_MemberID member := member]> out) mm l !! cgm_MemberID m)) as His.
  { induction l as [|m' l IH]; intros mm Hor; [destruct Hor as [?%elem_of_nil|?]; done|]. cbn [foldl]. apply IH.
    destruct (decide (cgm_MemberID m' = cgm_MemberID m)) as [E|E]; [right; by rewrite E, lookup_insert_eq|].
    rewrite lookup_insert_ne by done. destruct Hor as [[->|?]%elem_of_cons|?]; [done|by left|by right]. }
  assert (is_Some (activeMemberMap active !! cgm_MemberID m)) as [m' Hm'] by (apply His; by left). rewrite Hm'. apply activeMemberMap_lookup in Hm' as [Hin Hid].
  f_equal. apply list_elem_of_lookup in Hin as [i Hi], Hm as [j Hj].
  assert (i = j) as -> by (apply (NoDup_lookup (cgm_MemberID <$> active) _ _ (cgm_MemberID m));
    [done|by rewrite list_lookup_fmap, Hi, <- Hid|by rewrite list_lookup_fmap, Hj]). congruence.
Qed.

Section StickyFix.
Context (active : list ConsumerGroupMember) (partitions : list TopicPartition) (l : list GroupPartitionAssignment).
Hypothesis Hids : NoDup (cgm_MemberID <$> active).

Lemma retainedLoop_all seen l' :
  partial_assignment active partitions l' -> (forall a, a ∈ l' -> gpa_tp a ∉ seen) ->
  retainedLoop (activeMemberMap active) (topicPartitionSet partitions) seen l' = l'.
Proof using Hids.
  induction l' as [|a l' IH] in seen |- *; [done|]. intros [Hnd Hin Hown] Hseen. cbn [retainedLoop]. cbv zeta.
  rewrite fmap_cons in Hnd. apply NoDup_cons in Hnd as [Ha Hnd].
  rewrite bool_decide_false by (apply Hseen; by left).
  rewrite bool_decide_true by (apply elem_of_list_to_set, Hin; by left). simpl.
  destruct (Hown a) as (m & Hm & <- & Hw); [by left|]. rewrite (activeMemberMap_self _ _ Hids Hm). rewrite Hw.
  f_equal. apply IH.
  - split; [done|intros b Hb; apply Hin; by right|intros b Hb; apply Hown; by right].
  - intros b Hb [E%elem_of_singleton|E]%elem_of_union; [|by apply (Hseen b); [right|]].
    apply Ha. rewrite <- E. by apply (list_elem_of_fmap_2 gpa_tp).
Qed.

Lemma assignMissing_none assigned ps :
  (forall tp, tp ∈ ps -> wanted_by active tp -> tp ∈ assigned) -> assignMissingLoop active l assigned ps = l.
Proof using Type.
  induction ps as [|tp ps IH]; intros Hc; [done|]. cbn [assignMissingLoop].
  assert (assignMissingLoop active l assigned ps = l) as E by (apply IH; intros tp' ?; apply Hc; by right).
  destruct (decide (tp ∈ assigned)) as [Hin|Hin]; [by rewrite bool_decide_true|]. rewrite bool_decide_false by done.
  destruct (leastLoadedEligibleMember l active (tp_Topic tp)) as [m|] eqn:Em; [|done].
  apply leastLoaded_some in Em as [Hw Hm]. destruct Hin. apply Hc; [by left|]. by exists m.
Qed.

Lemma moveOne_balanced minLoad maxLoad :
  (forall t a, t ∈ active -> count (cgm_MemberID t) l < minLoad -> a ∈ l -> subscribed t a ->
     gpa_MemberID a = cgm_MemberID t \/ count (gpa_MemberID a) l <= maxLoad) ->
  moveOneStickyAssignment l active minLoad maxLoad = None.
Proof using Type.
  intros Hb. destruct (moveOneStickyAssignment _ _ _ _) as [l'|] eqn:E; [|done]. exfalso.
  apply moveOne_some in E as (t & l1 & a & l2 & Ht & Hlt & Hl & Hne & Hover & Hw & _).
  destruct (Hb t a) as [?|?]; [done|done|rewrite Hl; apply elem_of_app; by right; left|done|done|lia].
Qed.

End StickyFix.

(** A complete and balanced assignment is kept as it is. *)
Lemma sticky_fixpoint active partitions l fuel :
  NoDup (cgm_MemberID <$> active) -> sticky_result active partitions l -> 0 < fuel ->
  exists c1 c2, buildCooperativeStickyAssignments fuel (sortGroupAssignments l) active partitions
    = Some (sortGroupAssignments l, c1, c2).
Proof.
  intros Hids [Hpa Hc Hb] Hfuel. destruct fuel as [|fuel]; [lia|].
  assert (sortGroupAssignments l ≡ₚ l) as Hp by apply sortGroupAssignments_perm.
  assert (sortGroupAssignments (sortGroupAssignments l) = sortGroupAssignments l) as Hidem
    by apply sortGroupAssignments_idemp.
  set (l1 := sortGroupAssignments l) in *. clearbody l1.
  assert (partial_assignment active partitions l1) as Hpa1.
  { destruct Hpa as [H1 H2 H3]. split; [by rewrite Hp|intros a; rewrite Hp; apply H2|intros a; rewrite Hp; apply H3]. }
  unfold buildCooperativeStickyAssignments, retainedStickyAssignments, assignMissingPartitions. cbv zeta.
  rewrite Hidem, (retainedLoop_all active partitions Hids) by (done || set_solver).
  rewrite assignMissing_none.
  2:{ intros tp Htp Hw. unfold assignedTopicPartitions. rewrite elem_of_list_to_set, Hp. by apply Hc. }
  assert (balanceStickyAssignments (S fuel) l1 active = Some l1) as ->.
  { unfold balanceStickyAssignments. destruct l1 as [|a0 l0] eqn:El; [done|]. destruct active as [|m0 ms] eqn:Ea; [done|].
    rewrite <- El, <- Ea in *. cbn [balanceLoop]. rewrite moveOne_balanced; [done|].
    intros t a Ht Hlt Ha Hs. unfold maxLoad_of, minLoad_of in *. rewrite (Permutation_length Hp) in *.
    rewrite (count_perm _ _ _ Hp) in Hlt. rewrite (count_perm _ _ _ Hp). apply Hb; [done|done|by rewrite <- Hp|done]. }
  simpl. eexists _, _. by rewrite Hidem.
Qed.

(** ** Active members and their partitions *)

(** The members of the group whose lease has not expired. *)
Definition active_member (s : MemoryStore) (group : string) (now : Z) (m : ConsumerGroupMember) : Prop :=
  (exists k, members s !! k = Some m) /\ cgm_Group m = group /\ ExpiredAt m now = false.

#[export] Instance compareMemberID_ord : CmpOrder compareMemberID.
Proof. unfold compareMemberID. solve_cmp_order. Qed.

Lemma elem_of_sortedStrings x l : x ∈ sortedStrings l <-> x ∈ l.
Proof. unfold sortedStrings. by rewrite elem_of_sort_func. Qed.

Lemma activeGroupMembers_spec `{MapRange} s group now :
  keyed (fun m => groupMemberKey (cgm_Group m) (cgm_MemberID m)) (members s) ->
  exists active, activeGroupMembers s group now = Ok active /\
    NoDup (cgm_MemberID <$> active) /\ StronglySorted (cmp_le compareMemberID) active /\
    forall m, m ∈ active <-> exists m0, active_member s group now m0 /\ m = set_Topics (sortedStrings (cgm_Topics m0)) m0.
Proof.
  intros Hkey. unfold activeGroupMembers, ListGroupMembers. simpl. eexists. split; [done|].
  set (f := fun m => set_Topics (sortedStrings (cgm_Topics m)) m). split; [|split; [apply sort_func_sorted, _|]].
  - rewrite sort_func_perm.
    eapply (sublist_NoDup _ (cgm_MemberID <$> sort_func compareMemberID (f <$> _))); [|apply fmap_sublist, sublist_filter].
    rewrite sort_func_perm, <- list_fmap_compose.
    apply (NoDup_values_by (members s) (cgm_MemberID ∘ f) (fun m => cgm_Group m = group)).
    intros k1 v1 k2 v2 H1 H2 <- E Eid. apply Hkey in H1 as ->. apply Hkey in H2 as ->. simpl in Eid. by rewrite E, Eid.
  - intros m. rewrite elem_of_sort_func, list_elem_of_filter, elem_of_sort_func, list_elem_of_fmap. split.
    + intros (He & m0 & -> & Hm0). apply list_elem_of_filter in Hm0 as [Hg Hv]. apply elem_of_values in Hv.
      exists m0. split; [|done]. by split_and!.
    + intros (m0 & (Hv & Hg & He) & ->). split; [exact He|]. exists m0. split; [done|].
      apply list_elem_of_filter. split; [done|]. by apply elem_of_values.
Qed.

#[local] Instance compareTopicPartitions_order : CmpOrder compareTopicPartitions.
Proof. unfold compareTopicPartitions. solve_cmp_order. Qed.

Lemma elem_of_partitionsOf topic tp :
  tp ∈ partitionsOf topic <-> tp_Topic tp = tc_Name topic /\ (0 <= tp_Partition tp < tc_Partitions topic)%Z.
Proof.
  unfold partitionsOf. rewrite list_elem_of_fmap. split.
  - intros (i & -> & Hi). apply elem_of_seq in Hi. cbn. split; [done|lia].
  - intros [Ht Hp]. exists (Z.to_nat (tp_Partition tp)). split.
    + destruct tp as [t p]. simpl in *. subst. f_equal. lia.
    + apply elem_of_seq. lia.
Qed.

Lemma groupPartitions_spec `{MapRange} s active :
  log_inv s ->
  exists partitions, groupPartitions s active = Ok partitions /\ NoDup partitions /\
    (forall tp, tp ∈ partitions <-> exists topic, topics s !! tp_Topic tp = Some topic /\
       (0 <= tp_Partition tp < tc_Partitions topic)%Z /\ wanted_by active tp).
Proof.
  intros Hinv. unfold groupPartitions, ListTopics. simpl. eexists. split; [done|].
  set (wanted := list_to_set (active ≫= cgm_Topics) : gset string).
  assert (forall t, t ∈ wanted <-> exists m, m ∈ active /\ memberWantsTopic m t = true) as Hw.
  { intros t. unfold wanted. rewrite elem_of_list_to_set, list_elem_of_bind.
    unfold memberWantsTopic. setoid_rewrite bool_decide_eq_true. naive_solver. }
  split.
  - rewrite sort_func_perm. apply NoDup_bind.
    + intros t1 t2 tp H1 H2 E1 E2. apply list_elem_of_filter in H1 as [_ H1], H2 as [_ H2].
      apply elem_of_values in H1 as [k1 H1], H2 as [k2 H2].
      apply elem_of_partitionsOf in E1 as [E1 _], E2 as [E2 _].
      pose proof (li_topic s Hinv _ _ H1) as [? _]. pose proof (li_topic s Hinv _ _ H2) as [? _]. congruence.
    + intros t _. unfold partitionsOf. apply NoDup_fmap_2; [|apply NoDup_seq]. intros i j [=]. lia.
    + pose proof (NoDup_values_by (topics s) id (fun topic => tc_Name topic ∈ wanted)) as Hnd.
      rewrite list_fmap_id in Hnd. apply Hnd. intros k1 v1 k2 v2 H1 H2 _ _ E. simpl in E. subst.
      pose proof (li_topic s Hinv _ _ H1) as [<- _]. by pose proof (li_topic s Hinv _ _ H2) as [<- _].
  - intros tp. rewrite elem_of_sort_func, list_elem_of_bind. split.
    + intros (topic & Htp & Hin). apply list_elem_of_filter in Hin as [Hwt Hin]. apply elem_of_values in Hin as [k Hk].
      apply elem_of_partitionsOf in Htp as [Ht Hp]. pose proof (li_topic s Hinv _ _ Hk) as [<- _].
      exists topic. split_and!; [by rewrite Ht|lia|lia|]. unfold wanted_by. rewrite Ht. by apply Hw.
    + intros (topic & Hk & Hp & Hwb). pose proof (li_topic s Hinv _ _ Hk) as [Hn _]. exists topic. split.
      * by apply elem_of_partitionsOf.
      * apply list_elem_of_filter. split; [rewrite Hn; by apply Hw|]. apply elem_of_values. by exists (tp_Topic tp).
Qed.

(** ** Loads *)

(** Round robin balances the whole group: with distinct member ids, the
    numbers of partitions of two members differ by at most one, and no
    partition is lost. *)
Theorem round_robin_balanced active partitions m1 m2 :
  NoDup (cgm_MemberID <$> active) -> m1 ∈ active -> m2 ∈ active ->
  let l := buildRoundRobinAssignments active partitions in
  length l = length partitions /\
  count (cgm_MemberID m1) l <= count (cgm_MemberID m2) l + 1.
Proof.
  intros Hnd [i Hi]%list_elem_of_lookup [j Hj]%list_elem_of_lookup l. unfold l, buildRoundRobinAssignments.
  assert (active <> []) as Hne by (by destruct active). split.
  { by rewrite <- (length_fmap gpa_tp), roundRobin_tps. }
  rewrite (roundRobin_count active Hne 0 partitions i m1), (roundRobin_count active Hne 0 partitions j m2) by done.
  apply lookup_lt_Some in Hi, Hj. rewrite !count_mod by done. repeat case_decide; lia.
Qed.

(** Range assignment splits each topic into even blocks: the [j]-th of
    the members that subscribe to the topic gets the quotient of the number
    of partitions by the number of subscribers, and one more when [j] is
    below the remainder. *)
Theorem range_topic_blocks `{MapRange} active partitions topic j m :
  NoDup (cgm_MemberID <$> active) -> (forall tp, tp ∈ partitions -> wanted_by active tp) ->
  topic ∈ tp_Topic <$> partitions -> eligibleMembers active topic !! j = Some m ->
  let n := length (filter (fun tp => tp_Topic tp = topic) partitions) in
  let k := length (eligibleMembers active topic) in
  count (cgm_MemberID m) (filter (fun a => gpa_Topic a = topic) (buildRangeAssignments active partitions))
  = n / k + (if decide (j < n mod k) then 1 else 0).
Proof.
  intros Hnd Hw Ht Hj n k. rewrite buildRange_topic by done.
  rewrite (appendRange_count _ _ j m); [|eapply sublist_NoDup; [exact Hnd|apply fmap_sublist, sublist_filter]|done].
  unfold n, k, sortedTopicPartitions. by rewrite (length_sort_func comparePartition).
Qed.

(** C24: the sticky strategy terminates and ends balanced where it can be.
    As many steps as there are partitions, and one more, are enough: with any
    larger number of steps the result is the same.  The result assigns every
    wanted partition once and to a subscriber, and no member above the upper
    load holds a partition that a member below the lower load subscribes to. *)
Theorem sticky_terminates previous active partitions :
  exists l c1 c2, sticky_result active partitions l /\
    forall fuel, stickyFuel partitions <= fuel ->
      buildCooperativeStickyAssignments fuel previous active partitions = Some (sortGroupAssignments l, c1, c2).
Proof.
  destruct (sticky_result_exists previous active partitions (stickyFuel partitions)) as (l & c1 & c2 & Hs & Hr);
    [unfold stickyFuel; lia|].
  exists l, c1, c2. split; [done|]. intros fuel Hf. by apply (sticky_fuel_mono (stickyFuel partitions)).
Qed.

(** ** Loads at concrete inputs *)

Definition ex_consumer (id : string) (topics : list string) : ConsumerGroupMember :=
  mkConsumerGroupMember "g" id topics 0 0 0 0 0.

Definition ex_consumers : list ConsumerGroupMember :=
  [ex_consumer "a" ["t"%string]; ex_consumer "b" ["t"%string; "u"%string]; ex_consumer "c" ["t"%string]].

Definition ex_parts : list TopicPartition := NewTopicPartition "t" <$> [0; 1; 2; 3; 4]%Z.

Lemma round_robin_balanced_witness :
  count "a" (buildRoundRobinAssignments ex_consumers ex_parts) <=
  count "c" (buildRoundRobinAssignments ex_consumers ex_parts) + 1.
Proof.
  apply (round_robin_balanced ex_consumers ex_parts (ex_consumer "a" ["t"%string]) (ex_consumer "c" ["t"%string])).
  - apply (bool_decide_unpack _). vm_compute. exact I.
  - left.
  - right. right. left.
Defined.

Lemma range_topic_blocks_witness :
  count "b" (filter (fun a => gpa_Topic a = "t"%string) (@buildRangeAssignments map_to_list_range ex_consumers ex_parts)) = 2.
Proof.
  etransitivity; [apply (@range_topic_blocks map_to_list_range ex_consumers ex_parts "t" 1 (ex_consumer "b" ["t"%string; "u"%string]))|reflexivity].
  - apply (bool_decide_unpack _). vm_compute. exact I.
  - intros tp (p & -> & _)%list_elem_of_fmap. exists (ex_consumer "a" ["t"%string]).
    split; [left|reflexivity].
  - apply (bool_decide_unpack _). vm_compute. exact I.
  - reflexivity.
Defined.
