(* ===== verification/RebalanceSpec.v ===== *)
(** * Rebalancing a consumer group, end to end

    What [applyRebalanceGroup] leaves in the store: every partition of a
    subscribed topic has exactly one owner, an active member of the group;
    rebalancing again without a change of membership changes nothing; a lease
    is granted to the assigned member and to nobody else; a lease of an older
    generation is refused. *)

From stdpp Require Import prelude gmap strings sorting list.
From S2P Require Import Prelude Model MemoryStore LogSpec MetaStore MetaSpec Groups GroupSpec.

#[local] Open Scope nat_scope.

(** ** The assignment a plan carries *)

(** Partitions of the existing topics that some active member subscribes to. *)
Definition assignable (s : MemoryStore) (active : list ConsumerGroupMember) (tp : TopicPartition) : Prop :=
  exists topic, topics s !! tp_Topic tp = Some topic /\
    (0 <= tp_Partition tp < tc_Partitions topic)%Z /\ wanted_by active tp.

(** The strategies that look at subscriptions: range, and sticky. *)
Definition checks_subscription (cfg : GroupConfig) (previous : option ConsumerGroupAssignment) : Prop :=
  (cfg_GroupStickyAssignments cfg = true /\ is_Some previous) \/
  (cfg_GroupAssignmentStrategy cfg = GroupAssignmentRange /\
   (cfg_GroupStickyAssignments cfg = false \/ previous = None)).

Record good_assignment (s : MemoryStore) (active : list ConsumerGroupMember)
    (P : ConsumerGroupMember -> GroupPartitionAssignment -> Prop) (l : list GroupPartitionAssignment) : Prop := {
  ga_nodup : NoDup (gpa_tp <$> l);
  ga_tps : forall tp, tp ∈ gpa_tp <$> l <-> assignable s active tp;
  ga_owned : forall a, a ∈ l -> owned_by P active a
}.

Lemma good_assignment_perm s active P l l' : l ≡ₚ l' -> good_assignment s active P l -> good_assignment s active P l'.
Proof.
  intros Hp [H1 H2 H3]. split; [by rewrite <- Hp|intros tp; by rewrite <- Hp|intros a; rewrite <- Hp; apply H3].
Qed.

Lemma good_assignment_sort s active P l :
  good_assignment s active P l -> good_assignment s active P (sortGroupAssignments l).
Proof. apply good_assignment_perm. unfold sortGroupAssignments. by rewrite sort_func_perm. Qed.

Lemma owned_by_any P active a : owned_by P active a -> owned_by (fun _ _ => True) active a.
Proof. intros (m & ? & ? & _). by exists m. Qed.

Lemma good_assignment_weaken s active P l :
  good_assignment s active P l -> good_assignment s active (fun _ _ => True) l.
Proof. intros [H1 H2 H3]. split; [done|done|]. intros a Ha. by eapply owned_by_any, H3. Qed.

Section Build.
Context `{MapRange} (cfg : GroupConfig) (s : MemoryStore) (active : list ConsumerGroupMember).
Hypothesis Hinv : log_inv s.

Lemma roundRobin_good partitions :
  active <> [] -> NoDup partitions -> (forall tp, tp ∈ partitions <-> assignable s active tp) ->
  good_assignment s active (fun _ _ => True) (buildRoundRobinAssignments active partitions).
Proof using Type.
  intros Hne Hnd Hp. unfold buildRoundRobinAssignments. split.
  - by rewrite roundRobin_tps.
  - intros tp. by rewrite roundRobin_tps.
  - intros a. by apply roundRobin_owned.
Qed.

Lemma range_good partitions :
  NoDup partitions -> (forall tp, tp ∈ partitions <-> assignable s active tp) ->
  good_assignment s active subscribed (buildRangeAssignments active partitions).
Proof using Type.
  intros Hnd Hp. assert (forall tp, tp ∈ partitions -> wanted_by active tp) as Hw.
  { intros tp (? & _ & _ & ?)%Hp. done. }
  split.
  - by rewrite buildRange_tps.
  - intros tp. by rewrite buildRange_tps.
  - intros a. by apply buildRange_owned.
Qed.

Lemma sticky_good partitions l :
  (forall tp, tp ∈ partitions <-> assignable s active tp) ->
  sticky_result active partitions l -> good_assignment s active subscribed l.
Proof using Type.
  intros Hp [[Hnd Hin Hown] Hc _]. split; [done| |done].
  intros tp. rewrite <- Hp. split.
  - intros (a & -> & Ha)%list_elem_of_fmap. by apply Hin.
  - intros Htp. apply Hc; [done|]. by apply Hp in Htp as (? & _ & _ & ?).
Qed.

Lemma buildGroupAssignments_good previous :
  exists l c1 c2,
    buildGroupAssignments cfg s (normalizeGroupAssignmentStrategy (cfg_GroupAssignmentStrategy cfg)) previous active
      = Ok (l, c1, c2) /\
    good_assignment s active (fun _ _ => True) l /\
    (checks_subscription cfg previous -> good_assignment s active subscribed l).
Proof using Hinv.
  destruct (groupPartitions_spec s active Hinv) as (partitions & Hg & Hnd & Hp).
  change (forall tp, tp ∈ partitions <-> assignable s active tp) in Hp.
  unfold buildGroupAssignments, buildStrategyAssignments. destruct active as [|m0 ms] eqn:Ea.
  { assert (good_assignment s [] subscribed []) as Hg0.
    { split; [constructor| |by intros ? ?%elem_of_nil].
      intros tp. split; [by intros ?%elem_of_nil|]. by intros (? & _ & _ & ? & ?%elem_of_nil & _). }
    exists [], 0%Z, 0%Z. split_and!; [done|by eapply good_assignment_weaken|done]. }
  rewrite <- Ea in *. assert (active <> []) as Hne by (by rewrite Ea). clear Ea. rewrite Hg. simpl.
  assert (exists l, buildStrategyAssignments (normalizeGroupAssignmentStrategy (cfg_GroupAssignmentStrategy cfg)) active partitions = l /\
     good_assignment s active (fun _ _ => True) l /\
     (cfg_GroupAssignmentStrategy cfg = GroupAssignmentRange -> good_assignment s active subscribed l)) as (l & Hb & Hl1 & Hl2).
  { eexists. split; [done|]. unfold buildStrategyAssignments, normalizeGroupAssignmentStrategy.
    pose proof (roundRobin_good partitions Hne Hnd Hp) as Hrr. pose proof (range_good partitions Hnd Hp) as Hr.
    destruct (decide (cfg_GroupAssignmentStrategy cfg = GroupAssignmentRoundRobin)) as [E|E].
    { rewrite E. split; [exact Hrr|done]. }
    destruct (decide (cfg_GroupAssignmentStrategy cfg = GroupAssignmentRange)) as [E'|E'].
    { split; [|intros _]; simpl; [eapply good_assignment_weaken|]; exact Hr. }
    split; [exact Hrr|done]. }
  unfold buildStrategyAssignments in Hb. unfold checks_subscription.
  destruct (cfg_GroupStickyAssignments cfg), previous as [prev|]; simpl.
  2-4: exists l, 0%Z, 0%Z; rewrite Hb; split_and!; [done|done|intros [[? [? ?]]|[? _]]; [done|auto]].
  destruct (sticky_result_exists (cga_Assignments prev) active partitions (stickyFuel partitions)) as (l' & c1 & c2 & -> & Hs);
    [unfold stickyFuel; lia|].
  apply (sticky_good _ _ Hp), good_assignment_sort in Hs.
  simpl. eexists _, _, _. split; [done|]. split; [by eapply good_assignment_weaken|done].
Qed.

End Build.

(** ** The plan *)

(** What a plan does to the generation: it stays with an unchanged assignment
    and grows by one otherwise. *)
Definition next_generation (previous : option ConsumerGroupAssignment) (a : ConsumerGroupAssignment) : Prop :=
  match previous with
  | None => cga_Generation a = 1%Z
  | Some p =>
      (cga_Generation a = cga_Generation p /\ cga_UpdatedAtMS a = cga_UpdatedAtMS p /\
       cga_Assignments a ≡ₚ cga_Assignments p) \/
      cga_Generation a = u64 (cga_Generation p + 1)
  end.

Lemma groupAssignmentsEqual_spec l1 l2 : groupAssignmentsEqual l1 l2 = true <-> l1 ≡ₚ l2.
Proof.
  unfold groupAssignmentsEqual. destruct (decide (length l1 = length l2)) as [E|E].
  - rewrite bool_decide_eq_true. split; [|apply sortGroupAssignments_perm_eq].
    intros Hs. by rewrite <- (sortGroupAssignments_perm l1), Hs, sortGroupAssignments_perm.
  - split; [done|]. intros Hp. destruct E. by rewrite Hp.
Qed.

Lemma plan_spec `{MapRange} cfg s group now previous active :
  log_inv s ->
  exists plan, buildGroupRebalancePlan cfg s group now previous active = Ok plan /\
    cga_Group (plan_Assignment plan) = group /\
    next_generation previous (plan_Assignment plan) /\
    good_assignment s active (fun _ _ => True) (cga_Assignments (plan_Assignment plan)) /\
    (checks_subscription cfg previous -> good_assignment s active subscribed (cga_Assignments (plan_Assignment plan))).
Proof.
  intros Hinv. unfold buildGroupRebalancePlan. cbv zeta.
  destruct (buildGroupAssignments_good cfg s active Hinv previous) as (l & c1 & c2 & -> & Hl & Hc).
  simpl. eexists. split; [done|]. simpl. apply good_assignment_sort in Hl.
  assert (checks_subscription cfg previous -> good_assignment s active subscribed (sortGroupAssignments l)) as Hc'
    by (intros E; by apply good_assignment_sort, Hc).
  destruct previous as [p|]; [|by split_and!].
  destruct (groupAssignmentStable _ _ _) eqn:E; split_and!; try done; [left|by right].
  split_and!; [done|done|]. unfold groupAssignmentStable in E.
  destruct (groupAssignmentsEqual _ _) eqn:Eq; [|done]. by apply groupAssignmentsEqual_spec in Eq.
Qed.

(** ** The handler *)

(** What the sweep of expired members leaves. *)
Lemma sweep_frame `{MapRange} s now :
  let s1 := (DeleteExpiredGroupMembers s now).1 in
  topics s1 = topics s /\ assignments s1 = assignments s /\ (log_inv s -> log_inv s1) /\ (meta_inv s -> meta_inv s1).
Proof.
  intros s1. split_and!.
  1,2: unfold s1, DeleteExpiredGroupMembers; by destruct (foldl _ _ _).
  - unfold s1, DeleteExpiredGroupMembers. destruct (foldl _ _ _). intros [H1 H2 H3 H4 H5]. by split.
  - apply meta_step_inv, meta_expire_members.
Qed.

Lemma active_member_sweep `{MapRange} s group now now' m :
  active_member (DeleteExpiredGroupMembers s now).1 group now' m <->
  active_member s group now' m /\ ExpiredAt m now = false.
Proof.
  unfold active_member. setoid_rewrite DeleteExpired_lookup. split.
  - intros ([k Hk] & Hg & He). rewrite bind_Some in Hk. destruct Hk as (m' & Hm & Hx).
    destruct (ExpiredAt m' now) eqn:E; [done|]. injection Hx as ->. split_and!; [by exists k|done|done|done].
  - intros [([k Hk] & Hg & He) He']. split_and!; [|done|done]. exists k. rewrite Hk. simpl. by rewrite He'.
Qed.

(** The members of [active] are the active members of the store, with sorted topics. *)
Definition actives (s : MemoryStore) (group : string) (now : Z) (active : list ConsumerGroupMember) : Prop :=
  NoDup (cgm_MemberID <$> active) /\ StronglySorted (cmp_le compareMemberID) active /\
  forall m, m ∈ active <-> exists m0, active_member s group now m0 /\ m = set_Topics (sortedStrings (cgm_Topics m0)) m0.

(** ** Leases *)

Lemma ownerTable_notin (l : list GroupPartitionAssignment) (m : gmap (string * Z) string) t p :
  NewTopicPartition t p ∉ gpa_tp <$> l ->
  foldl (fun owners a => <[(gpa_Topic a, gpa_Partition a) := gpa_MemberID a]> owners) m l !! (t, p) = m !! (t, p).
Proof.
  induction l as [|a l IH] in m |- *; [done|]. rewrite fmap_cons, not_elem_of_cons. intros [Hne Hin]. cbn [foldl].
  rewrite IH by done. apply lookup_insert_ne. intros [= <- <-]. by destruct Hne.
Qed.

Lemma ownerTable_fold (l : list GroupPartitionAssignment) (m : gmap (string * Z) string) t p owner :
  NoDup (gpa_tp <$> l) ->
  foldl (fun owners a => <[(gpa_Topic a, gpa_Partition a) := gpa_MemberID a]> owners) m l !! (t, p) = Some owner <->
  mkGroupPartitionAssignment owner t p ∈ l \/ (NewTopicPartition t p ∉ gpa_tp <$> l) /\ m !! (t, p) = Some owner.
Proof.
  induction l as [|[id t' p'] l IH] in m |- *; [set_solver|].
  rewrite fmap_cons. intros [Hnin Hnd]%NoDup_cons. cbn [foldl gpa_Topic gpa_Partition gpa_MemberID].
  rewrite elem_of_cons, not_elem_of_cons. unfold gpa_tp at 1 in Hnin. simpl in Hnin.
  destruct (decide ((t', p') = (t, p))) as [[= -> ->]|Hne].
  - rewrite ownerTable_notin, lookup_insert_eq by done. split; [intros [= ->]; by left; left|].
    intros [[[= ->]|Hin]|[[[] _] _]]; [done| |done].
    apply (list_elem_of_fmap_2 gpa_tp) in Hin. done.
  - rewrite IH, lookup_insert_ne by done. split.
    + intros [Hin|[Hn Hm]]; [by left; right|right]. split; [|done]. split; [|done]. by intros [= -> ->].
    + intros [[[= -> -> ->]|Hin]|[[_ Hn] Hm]]; [done|by left|by right].
Qed.

Lemma ownerTable_spec l t p owner :
  NoDup (gpa_tp <$> l) ->
  assignmentOwnerTable l !! (t, p) = Some owner <-> mkGroupPartitionAssignment owner t p ∈ l.
Proof. intros Hnd. unfold assignmentOwnerTable. rewrite ownerTable_fold by done. set_solver. Qed.

Lemma validate_lease_spec s group memberID tp now a :
  group <> ""%string -> memberID <> ""%string -> cga_Generation a <> 0%Z -> NoDup (gpa_tp <$> cga_Assignments a) ->
  assignments s !! group = Some a ->
  validateConsumerGroupLease now s group memberID (cga_Generation a) tp = Ok tt <->
  mkGroupPartitionAssignment memberID (tp_Topic tp) (tp_Partition tp) ∈ cga_Assignments a /\
  exists m, LoadGroupMember s group memberID = Ok (Some m) /\ ExpiredAt m now = false.
Proof.
  intros Hg Hid Hgen Hnd Ha. rewrite <- ownerTable_spec by done.
  unfold validateConsumerGroupLease, loadUnexpiredGroupMember, currentConsumerGroupAssignment,
    validateConsumerGroupPartitionOwner, LoadGroupMember, LoadGroupAssignment.
  rewrite decide_False by tauto. rewrite (proj2 (Z.eqb_neq _ _) Hgen). cbn [mbind result_bind]. rewrite Ha.
  destruct (members s !! groupMemberKey group memberID) as [m|]; cbn [mbind result_bind];
    [|split; [done|by intros (_ & ? & [=] & _)]].
  destruct (ExpiredAt m now) eqn:He; cbn [mbind result_bind]; [split; [done|intros (_ & ? & [= <-] & ?); congruence]|].
  rewrite Z.eqb_refl. cbn [mbind result_bind].
  destruct (assignmentOwnerTable _ !! _) as [owner|]; [|split; [done|by intros [[=] _]]].
  destruct (decide (owner = memberID)) as [->|Hne]; (split; [|try (intros [[=] _])]); try done.
  intros _. split; [done|]. by exists m.
Qed.

Lemma validate_stale s group memberID tp now generation a :
  assignments s !! group = Some a -> cga_Generation a <> generation ->
  validateConsumerGroupLease now s group memberID generation tp = Err CodeInvalidArgument.
Proof.
  intros Ha Hne. unfold validateConsumerGroupLease, loadUnexpiredGroupMember, currentConsumerGroupAssignment,
    LoadGroupMember, LoadGroupAssignment.
  case_decide; [done|]. destruct (generation =? 0)%Z; [done|]. simpl. rewrite Ha.
  destruct (members s !! _) as [m|]; simpl; [|done]. destruct (ExpiredAt m now); simpl; [done|].
  by rewrite (proj2 (Z.eqb_neq _ _) Hne).
Qed.

(** ** Rebalancing again *)

Lemma groupPartitions_topics `{MapRange} s s' active :
  topics s' = topics s -> groupPartitions s' active = groupPartitions s active.
Proof. intros E. unfold groupPartitions, ListTopics. by rewrite E. Qed.

(** The assignments of a plan: none, those of the strategy, or the sticky ones. *)
Lemma plan_assignments `{MapRange} cfg s group now previous active plan :
  buildGroupRebalancePlan cfg s group now previous active = Ok plan ->
  exists l c1 c2,
    buildGroupAssignments cfg s (normalizeGroupAssignmentStrategy (cfg_GroupAssignmentStrategy cfg)) previous active
      = Ok (l, c1, c2) /\
    cga_Assignments (plan_Assignment plan) = sortGroupAssignments l /\
    forall p, previous = Some p -> groupAssignmentStable (cga_Assignments p) (sortGroupAssignments l) active = true ->
      plan_Assignment plan = mkConsumerGroupAssignment group (cga_Generation p) (sortGroupAssignments l) (cga_UpdatedAtMS p).
Proof.
  unfold buildGroupRebalancePlan. cbv zeta. intros ([[l c1] c2] & Hl & Hp)%bind_ok. injection Hp as <-.
  exists l, c1, c2. split; [done|]. simpl. destruct previous as [p|]; [|done].
  destruct (groupAssignmentStable _ _ _) eqn:E; (split; [done|]); intros p' [= <-] E'; [done|congruence].
Qed.

(** Building assignments again from the result of the first time. *)
Lemma rebuild `{MapRange} cfg s s' strategy previous active l c1 c2 p' :
  log_inv s -> NoDup (cgm_MemberID <$> active) -> topics s' = topics s ->
  cfg_GroupStickyAssignments cfg = false \/ is_Some previous ->
  buildGroupAssignments cfg s strategy previous active = Ok (l, c1, c2) ->
  cga_Assignments p' = sortGroupAssignments l ->
  exists l' c1' c2', buildGroupAssignments cfg s' strategy (Some p') active = Ok (l', c1', c2') /\
    sortGroupAssignments l' = sortGroupAssignments l.
Proof.
  intros Hinv Hids Ht Hprev Hb Hp'. unfold buildGroupAssignments in *. destruct active as [|m0 ms] eqn:Ea.
  { injection Hb as <- <- <-. by exists [], 0%Z, 0%Z. }
  rewrite <- Ea in *. rewrite (groupPartitions_topics s s' active Ht).
  destruct (groupPartitions_spec s active Hinv) as (partitions & Hg & _). rewrite Hg in *. simpl in *.
  destruct (cfg_GroupStickyAssignments cfg).
  - destruct Hprev as [|[p ->]]; [done|].
    destruct (sticky_result_exists (cga_Assignments p) active partitions (stickyFuel partitions)) as (l0 & d1 & d2 & E & Hs);
      [unfold stickyFuel; lia|].
    rewrite E in Hb. simpl in Hb. injection Hb as <- <- <-. rewrite sortGroupAssignments_idemp in Hp'. rewrite Hp'.
    destruct (sticky_fixpoint active partitions l0 (stickyFuel partitions) Hids Hs) as (e1 & e2 & ->);
      [unfold stickyFuel; lia|]. simpl. by exists (sortGroupAssignments l0), e1, e2.
  - injection Hb as <- <- <-. by exists (buildStrategyAssignments strategy active partitions), 0%Z, 0%Z.
Qed.

(** Two lists of the active members of a group are the same list. *)
Lemma actives_unique s s' group now now' active active' :
  (forall m, active_member s group now m <-> active_member s' group now' m) ->
  actives s group now active -> actives s' group now' active' -> active = active'.
Proof.
  intros Hm (Hnd & Hs & Hin) (Hnd' & Hs' & Hin').
  assert (forall m, m ∈ active <-> m ∈ active') as Hiff by (intros m; rewrite Hin, Hin'; by setoid_rewrite Hm).
  apply (sorted_perm_eq compareMemberID); [|done|done|].
  - intros x y [i Hi]%list_elem_of_lookup [j Hj]%list_elem_of_lookup E. unfold compareMemberID in E. cmp_eq_inv.
    assert (i = j) as -> by (apply (NoDup_lookup (cgm_MemberID <$> active) _ _ (cgm_MemberID x));
      [done|by rewrite list_lookup_fmap, Hi|by rewrite list_lookup_fmap, Hj; simpl; congruence]). congruence.
  - apply NoDup_Permutation; [by eapply NoDup_fmap_1..|done].
Qed.

Lemma membersMatch active l :
  NoDup (cgm_MemberID <$> active) -> (forall a, a ∈ l -> owned_by (fun _ _ => True) active a) ->
  (forall m, m ∈ active -> exists a, a ∈ l /\ gpa_MemberID a = cgm_MemberID m) ->
  assignmentMembersMatchActive l active = true.
Proof.
  intros Hnd Hown Hall. unfold assignmentMembersMatchActive. cbv zeta.
  assert ((list_to_set (gpa_MemberID <$> l) : gset string) = list_to_set (cgm_MemberID <$> active)) as ->.
  { apply set_eq. intros id. rewrite !elem_of_list_to_set, !list_elem_of_fmap. split.
    - intros (a & -> & (m & Hm & E & _)%Hown). by exists m.
    - intros (m & -> & (a & Ha & E)%Hall). by exists a. }
  rewrite decide_True by (by rewrite size_list_to_set, length_fmap by done).
  apply forallb_forall. intros m Hm%list_elem_of_In. apply bool_decide_eq_true, elem_of_list_to_set.
  by apply list_elem_of_fmap_2.
Qed.

Lemma rebalance_store_inv `{MapRange} s now group a :
  store_inv s -> group <> ""%string -> cga_Group a = group ->
  let s1 := (DeleteExpiredGroupMembers s now).1 in
  store_inv (set_assignments (<[group := a]> (assignments s1)) s1).
Proof.
  intros Hs Hg <- s1. eapply store_steps_inv; [|exact Hs].
  eapply rtc_l; [right; apply (meta_expire_members _ s now)|]. apply rtc_once. right.
  pose proof (meta_save_assignment s1 a) as Hm. unfold SaveGroupAssignment in Hm.
  by rewrite decide_False in Hm by done.
Qed.

Section Handler.
Context `{MapRange} {History : Type} (Push : History -> GroupRebalanceHistorySummary -> History) (cfg : GroupConfig).

Lemma rebalance_spec now s h group :
  log_inv s -> meta_inv s -> group <> ""%string ->
  let s1 := (DeleteExpiredGroupMembers s now).1 in
  exists active plan h',
    activeGroupMembers s1 group now = Ok active /\ actives s group now active /\
    buildGroupRebalancePlan cfg s1 group now (assignments s !! group) active = Ok plan /\
    let a := plan_Assignment plan in
    applyRebalanceGroup Push cfg now (s, h) group
      = ((set_assignments (<[group := a]> (assignments s1)) s1, h'), Ok a) /\
    cga_Group a = group /\ next_generation (assignments s !! group) a /\
    good_assignment s active (fun _ _ => True) (cga_Assignments a) /\
    (checks_subscription cfg (assignments s !! group) -> good_assignment s active subscribed (cga_Assignments a)).
Proof using Type.
  intros Hinv Hmeta Hg s1.
  destruct (sweep_frame s now) as (Ht & Ha & Hl1 & Hm1).
  destruct (activeGroupMembers_spec s1 group now) as (active & Hact & Hnd & Hss & Hin); [exact (mi_members _ (Hm1 Hmeta))|].
  destruct (plan_spec cfg s1 group now (assignments s !! group) active (Hl1 Hinv)) as (plan & Hplan & Hgrp & Hgen & Hg1 & Hg2).
  assert (forall P l, good_assignment s1 active P l -> good_assignment s active P l) as Hgood.
  { intros P l [H1 H2 H3]. split; [done| |done]. intros tp. rewrite H2. unfold assignable, s1. by rewrite Ht. }
  exists active, plan, (recordGroupRebalanceHistory Push h plan). cbv zeta. split_and!; try done.
  - split_and!; [done|done|]. intros m. rewrite Hin. f_equiv. intros m0. unfold s1. rewrite active_member_sweep.
    unfold active_member. tauto.
  - unfold applyRebalanceGroup. destruct (DeleteExpiredGroupMembers s now) as [s1' n]. cbn [fst] in *. subst s1.
    rewrite Hact. cbn [mbind result_bind]. unfold LoadGroupAssignment. rewrite Ha. cbn [mbind result_bind]. rewrite Hplan. unfold SaveGroupAssignment. rewrite Hgrp.
    rewrite decide_False by done. by rewrite Ha.
  - by apply Hgood.
  - intros E. by apply Hgood, Hg2.
Qed.

Lemma active_wants s group now active tp :
  actives s group now active ->
  wanted_by active tp <-> exists m, active_member s group now m /\ tp_Topic tp ∈ cgm_Topics m.
Proof using Type.
  intros (_ & _ & Hact). unfold wanted_by, memberWantsTopic. setoid_rewrite bool_decide_eq_true. split.
  - intros (m & (m0 & Hm0 & ->)%Hact & Hw). exists m0. split; [done|]. exact (proj1 (elem_of_sortedStrings _ _) Hw).
  - intros (m0 & Hm0 & Hw). exists (set_Topics (sortedStrings (cgm_Topics m0)) m0). split.
    + apply Hact. by exists m0.
    + exact (proj2 (elem_of_sortedStrings _ _) Hw).
Qed.

Lemma active_owner s group now active P a :
  actives s group now active -> owned_by P active a ->
  exists m, active_member s group now m /\ cgm_MemberID m = gpa_MemberID a /\
    P (set_Topics (sortedStrings (cgm_Topics m)) m) a.
Proof using Type. intros (_ & _ & Hact) (m & (m0 & Hm0 & ->)%Hact & Hid & HP). by exists m0. Qed.

(** C17: a rebalance assigns every partition exactly once.  In a store built
    by the store's own operations, [applyRebalanceGroup] succeeds and stores
    its result; no partition appears twice; the partitions are exactly those
    of the existing topics that some member with a live lease subscribes to;
    every owner is such a member, and with the range strategy, and the sticky
    strategy once the group has an assignment, one that subscribes to the
    topic.  The rest holds for all three strategies. *)
Theorem rebalance_assigns_once now s h group :
  store_inv s -> group <> ""%string ->
  exists s' h' a,
    applyRebalanceGroup Push cfg now (s, h) group = ((s', h'), Ok a) /\
    LoadGroupAssignment s' group = Ok (Some a) /\ store_inv s' /\
    NoDup (gpa_tp <$> cga_Assignments a) /\
    (forall tp, tp ∈ gpa_tp <$> cga_Assignments a <->
       exists topic m, topics s !! tp_Topic tp = Some topic /\ (0 <= tp_Partition tp < tc_Partitions topic)%Z /\
         active_member s group now m /\ tp_Topic tp ∈ cgm_Topics m) /\
    (forall x, x ∈ cga_Assignments a ->
       exists m, active_member s group now m /\ cgm_MemberID m = gpa_MemberID x) /\
    (checks_subscription cfg (assignments s !! group) -> forall x, x ∈ cga_Assignments a ->
       exists m, active_member s group now m /\ cgm_MemberID m = gpa_MemberID x /\ gpa_Topic x ∈ cgm_Topics m).
Proof using Type.
  intros [Hinv Hmeta] Hg.
  destruct (rebalance_spec now s h group Hinv Hmeta Hg) as (active & plan & h' & _ & Hact & _ & Ha & Hgrp & _ & [Hnd Htps Hown] & Hsub).
  eexists _, h', _. split; [exact Ha|]. split_and!.
  - unfold LoadGroupAssignment. simpl. by rewrite lookup_insert_eq.
  - by apply rebalance_store_inv.
  - done.
  - intros tp. rewrite Htps. unfold assignable. setoid_rewrite (active_wants s group now active tp Hact). naive_solver.
  - intros x Hx. destruct (active_owner s group now active _ x Hact (Hown x Hx)) as (m & ? & ? & _). by exists m.
  - intros [_ _ Hown']%Hsub x Hx. destruct (active_owner s group now active _ x Hact (Hown' x Hx)) as (m & ? & ? & Hs).
    exists m. split_and!; [done|done|]. unfold subscribed, memberWantsTopic in Hs.
    apply bool_decide_eq_true in Hs. exact (proj1 (elem_of_sortedStrings _ _) Hs).
Qed.

(** C19: a lease follows the assignment.  After a rebalance, the check of a
    fetch or acknowledgement with the new generation accepts a member for a
    partition exactly when the assignment gives it that partition and its
    membership has not expired by then; at the time of the rebalance every
    owner passes.  In particular two members never hold one partition. *)
Theorem lease_iff_assigned now now' s h group s' h' a memberID tp :
  store_inv s -> group <> ""%string -> memberID <> ""%string ->
  applyRebalanceGroup Push cfg now (s, h) group = ((s', h'), Ok a) -> cga_Generation a <> 0%Z ->
  let x := mkGroupPartitionAssignment memberID (tp_Topic tp) (tp_Partition tp) in
  (validateConsumerGroupLease now' s' group memberID (cga_Generation a) tp = Ok tt <->
     x ∈ cga_Assignments a /\
     exists m, LoadGroupMember s' group memberID = Ok (Some m) /\ ExpiredAt m now' = false) /\
  (x ∈ cga_Assignments a -> validateConsumerGroupLease now s' group memberID (cga_Generation a) tp = Ok tt).
Proof using Type.
  intros [Hinv Hmeta] Hg Hid Ha Hgen x.
  destruct (rebalance_spec now s h group Hinv Hmeta Hg) as (active & plan & h'' & _ & Hact & _ & Ha' & _ & _ & [Hnd _ Hown] & _).
  rewrite Ha in Ha'. injection Ha' as -> -> ->. set (s' := set_assignments _ _).
  assert (forall t, validateConsumerGroupLease t s' group memberID (cga_Generation (plan_Assignment plan)) tp = Ok tt <->
     x ∈ cga_Assignments (plan_Assignment plan) /\
     exists m, LoadGroupMember s' group memberID = Ok (Some m) /\ ExpiredAt m t = false) as Hiff.
  { intros t. apply validate_lease_spec; [done..|]. unfold s'. simpl. by rewrite lookup_insert_eq. }
  split; [apply Hiff|]. intros Hx. apply Hiff. split; [done|].
  destruct (active_owner s group now active _ x Hact (Hown x Hx)) as (m & ([k Hk] & Hmg & He) & Hmid & _).
  exists m. split; [|done]. unfold LoadGroupMember, s'. cbn [members set_assignments]. f_equal.
  rewrite DeleteExpired_lookup. pose proof (mi_members s Hmeta _ _ Hk) as ->. rewrite Hmg, Hmid in Hk. simpl in Hk.
  rewrite Hk. simpl. by rewrite He.
Qed.

(** C20: generations fence stale owners.  A rebalance of a group with an
    assignment either keeps its generation, and then every partition keeps
    its owner, or moves to the next generation; from then on every lease of
    the old generation is refused, whoever presents it. *)
Theorem generation_fences now s h group p s' h' a :
  store_inv s -> group <> ""%string ->
  assignments s !! group = Some p -> (0 <= cga_Generation p < max_u64)%Z ->
  applyRebalanceGroup Push cfg now (s, h) group = ((s', h'), Ok a) ->
  (cga_Generation a = cga_Generation p /\ cga_Assignments a ≡ₚ cga_Assignments p) \/
  (cga_Generation a = cga_Generation p + 1)%Z /\
  forall now' memberID tp,
    validateConsumerGroupLease now' s' group memberID (cga_Generation p) tp = Err CodeInvalidArgument.
Proof using Type.
  intros [Hinv Hmeta] Hg Hp Hb Ha.
  destruct (rebalance_spec now s h group Hinv Hmeta Hg) as (active & plan & h'' & _ & _ & _ & Ha' & _ & Hgen & _).
  rewrite Ha in Ha'. injection Ha' as -> -> ->. rewrite Hp in Hgen. simpl in Hgen.
  destruct Hgen as [(E1 & _ & E2)|E]; [by left|right].
  rewrite u64_small in E by (unfold is_u64, max_u64 in *; lia). split; [done|]. intros now' memberID tp.
  apply validate_stale with (a := plan_Assignment plan); [|lia]. simpl. by rewrite lookup_insert_eq.
Qed.

(** Rebalancing is idempotent.  Once the group has an assignment (or
    with sticky assignment off), a second rebalance at a time at which the
    same members are live gives every partition to the same member; if
    moreover every live member owns a partition, the stored assignment does
    not change at all: same generation, same update time. *)
Theorem rebalance_idempotent now now' s h h2 group s' h' a :
  store_inv s -> group <> ""%string ->
  cfg_GroupStickyAssignments cfg = false \/ is_Some (assignments s !! group) ->
  applyRebalanceGroup Push cfg now (s, h) group = ((s', h'), Ok a) ->
  (forall m, active_member s group now m <-> active_member s' group now' m) ->
  exists s2 h3 a2,
    applyRebalanceGroup Push cfg now' (s', h2) group = ((s2, h3), Ok a2) /\
    cga_Assignments a2 = cga_Assignments a /\
    ((forall m, active_member s group now m -> exists x, x ∈ cga_Assignments a /\ gpa_MemberID x = cgm_MemberID m) ->
     a2 = a).
Proof using Type.
  intros [Hinv Hmeta] Hg Hprev Ha Hm. destruct (sweep_frame s now) as (Ht1 & _ & Hl1 & Hm1).
  destruct (rebalance_spec now s h group Hinv Hmeta Hg)
    as (active & plan & h'' & _ & Hact & Hplan & Ha' & Hgrp & _ & [_ _ Hown] & _).
  rewrite Ha in Ha'. injection Ha' as -> -> ->. set (a := plan_Assignment plan) in *.
  set (s1 := (DeleteExpiredGroupMembers s now).1) in *. set (s' := set_assignments _ _) in *.
  assert (store_inv s') as [Hinv' Hmeta'] by (by apply rebalance_store_inv).
  destruct (rebalance_spec now' s' h2 group Hinv' Hmeta' Hg)
    as (active' & plan' & h3 & _ & Hact' & Hplan' & Ha2 & Hgrp' & _).
  assert (assignments s' !! group = Some a) as Hprev' by (unfold s'; simpl; apply lookup_insert_eq). rewrite Hprev' in Hplan'.
  assert (active' = active) as -> by (symmetry; eapply actives_unique; eassumption).
  destruct (plan_assignments _ _ _ _ _ _ _ Hplan) as (l & c1 & c2 & Hb & Hl & _).
  destruct (plan_assignments _ _ _ _ _ _ _ Hplan') as (l' & c1' & c2' & Hb' & Hl' & Hstable).
  destruct (sweep_frame s' now') as (Ht2 & _).
  destruct (rebuild cfg s1 (DeleteExpiredGroupMembers s' now').1 _ _ active l c1 c2 a (Hl1 Hinv) (proj1 Hact) Ht2 Hprev Hb Hl)
    as (l2 & e1 & e2 & Hb2 & Hsort).
  rewrite Hb' in Hb2. injection Hb2 as -> -> ->. rewrite Hsort, <- Hl in Hl', Hstable.
  eexists _, h3, _. split; [exact Ha2|]. split; [done|]. intros Hall. rewrite (Hstable a eq_refl).
  - unfold a in *. destruct (plan_Assignment plan). simpl in *. congruence.
  - unfold groupAssignmentStable. rewrite (proj2 (groupAssignmentsEqual_spec _ _)) by done.
    assert (assignmentMembersMatchActive (cga_Assignments a) active = true) as Hmm; [|unfold a in *; by rewrite Hmm].
    apply membersMatch; [apply Hact|done|].
    intros m Hin. apply Hact in Hin as (m0 & Hm0 & ->). exact (Hall m0 Hm0).
Qed.

End Handler.

(** ** Concrete groups *)

Definition ex_history : list GroupRebalanceHistorySummary -> GroupRebalanceHistorySummary -> list GroupRebalanceHistorySummary :=
  fun h x => h ++ [x].

Definition ex_topic (name : string) (partitions : Z) : TopicConfig :=
  let t := NewTopicConfig name in
  mkTopicConfig name partitions (tc_SegmentMaxBytes t) (tc_IndexIntervalBytes t) (tc_RetentionMaxBytes t)
    (tc_CleanupPolicy t) (tc_MaxMessageBytes t) (tc_MaxBatchBytes t) (tc_RetentionMS t) (tc_RetryPolicy t)
    (tc_DeadLetterTopic t) (tc_DelayEnabled t) (tc_MessageTTLMS t) (tc_MessageExpiryAction t)
    (tc_CompactionEnabled t) (tc_CompactionTombstoneRetentionMS t) (tc_OrderingPolicy t) (tc_PriorityPolicy t).

Definition ex_join (id : string) (topics : list string) (s : MemoryStore) : MemoryStore :=
  (applyJoinGroup 100 s (mkJoinGroupCommand "g" id topics 0 0)).1.

(** Two topics, and one member that subscribes to the first. *)
Definition ex_g1 : MemoryStore :=
  ex_join "m1" ["orders"%string] (CreateTopic (CreateTopic NewMemoryStore (ex_topic "orders" 5)).1 (ex_topic "audit" 2)).1.

(** Two more members, one for both topics. *)
Definition ex_g3 (s : MemoryStore) : MemoryStore :=
  ex_join "m3" ["orders"%string] (ex_join "m2" ["orders"%string; "audit"%string] s).

Definition ex_cfg (strategy : string) (sticky : bool) : GroupConfig := mkGroupConfig strategy sticky.
Definition ex_rebalance (cfg : GroupConfig) (now : Z) (s : MemoryStore) :=
  @applyRebalanceGroup (list GroupRebalanceHistorySummary) ex_history map_to_list_range cfg now (s, []) "g".

Lemma ex_join_step `{MapRange} id topics s : id <> ""%string -> store_step s (ex_join id topics s).
Proof.
  intros Hid. right. unfold ex_join, applyJoinGroup. rewrite decide_False by (by intros [?|?]).
  set (m := groupMemberFromCommand _ _). pose proof (meta_save_member s m) as Hm.
  destruct (SaveGroupMember s m) as [s' [?|?]]; exact Hm.
Qed.

Lemma ex_g1_inv : store_inv ex_g1.
Proof.
  apply (@store_reachable_inv map_to_list_range). eapply rtc_r; [|by apply ex_join_step].
  eapply rtc_r; [|left; apply log_step_create]. eapply rtc_once; left; apply log_step_create.
Qed.

Lemma ex_g3_inv s : store_inv s -> store_inv (ex_g3 s).
Proof.
  intros Hs. unfold ex_g3. eapply (@store_step_inv map_to_list_range); [by apply ex_join_step|].
  eapply (@store_step_inv map_to_list_range); [by apply ex_join_step|done].
Qed.

Definition owners (r : result Code ConsumerGroupAssignment) : list (string * string * Z) :=
  match r with
  | Ok a => (fun x => (gpa_MemberID x, gpa_Topic x, gpa_Partition x)) <$> cga_Assignments a
  | Err _ => []
  end.

(** Round robin does not look at subscriptions: [m1] and [m3] get partitions
    of a topic they did not ask for. *)
Lemma round_robin_ignores_subscriptions :
  owners (ex_rebalance (ex_cfg GroupAssignmentRoundRobin false) 101 (ex_g3 ex_g1)).2 =
  [("m1", "audit", 0); ("m2", "audit", 1); ("m3", "orders", 0); ("m1", "orders", 1); ("m2", "orders", 2);
   ("m3", "orders", 3); ("m1", "orders", 4)]%string%Z.
Proof. vm_compute. reflexivity. Qed.

(** A group whose only member owns the five partitions of a topic, and two
    members join: the sticky strategy stops when nobody is below the lower
    load, with [m1] still above the upper load of two. *)
Lemma sticky_leaves_overload :
  let s1 := (ex_rebalance (ex_cfg GroupAssignmentRange true) 101 (ex_join "m1" ["orders"%string] (CreateTopic NewMemoryStore (ex_topic "orders" 5)).1)).1.1 in
  let s2 := ex_join "m3" ["orders"%string] (ex_join "m2" ["orders"%string] s1) in
  owners (ex_rebalance (ex_cfg GroupAssignmentRange true) 102 s2).2 =
  [("m1", "orders", 0); ("m1", "orders", 1); ("m1", "orders", 2); ("m3", "orders", 3); ("m2", "orders", 4)]%string%Z.
Proof. vm_compute. reflexivity. Qed.

Definition ex_rr : GroupConfig := ex_cfg GroupAssignmentRoundRobin true.
Definition ex_range : GroupConfig := ex_cfg GroupAssignmentRange true.

Lemma rebalance_assigns_once_witness :
  owners (ex_rebalance ex_range 101 (ex_g3 ex_g1)).2 =
  [("m2", "audit", 0); ("m2", "audit", 1); ("m1", "orders", 0); ("m1", "orders", 1); ("m2", "orders", 2);
   ("m2", "orders", 3); ("m3", "orders", 4)]%string%Z /\
  exists s' h' a, ex_rebalance ex_range 101 (ex_g3 ex_g1) = ((s', h'), Ok a) /\ NoDup (gpa_tp <$> cga_Assignments a) /\
    forall x, x ∈ cga_Assignments a ->
      exists m, active_member (ex_g3 ex_g1) "g" 101 m /\ cgm_MemberID m = gpa_MemberID x /\ gpa_Topic x ∈ cgm_Topics m.
Proof.
  split; [vm_compute; reflexivity|].
  destruct (@rebalance_assigns_once map_to_list_range _ ex_history ex_range 101 (ex_g3 ex_g1) [] "g"
              (ex_g3_inv _ ex_g1_inv)) as (s' & h' & a & Ha & _ & _ & Hnd & _ & _ & Hsub); [discriminate|].
  exists s', h', a. split; [exact Ha|]. split; [exact Hnd|]. apply Hsub. right. split; [reflexivity|]. right. vm_compute. reflexivity.
Defined.

(** The store and the assignment of the first member alone. *)
Definition ex_r1 := ex_rebalance ex_range 101 ex_g1.
Definition ex_a1 : ConsumerGroupAssignment :=
  match ex_r1.2 with Ok a => a | Err _ => mkConsumerGroupAssignment "" 0 [] 0 end.

Lemma ex_r1_eq : ex_rebalance ex_range 101 ex_g1 = (ex_r1.1.1, ex_r1.1.2, Ok ex_a1).
Proof. vm_compute. reflexivity. Qed.

Lemma ex_r1_inv : store_inv ex_r1.1.1.
Proof.
  destruct (@rebalance_spec map_to_list_range _ ex_history ex_range 101 ex_g1 [] "g" (proj1 ex_g1_inv) (proj2 ex_g1_inv) ltac:(discriminate))
    as (active & plan & h' & _ & _ & _ & Ha & Hg & _).
  unfold ex_r1, ex_rebalance. rewrite Ha. simpl. apply (@rebalance_store_inv map_to_list_range); [apply ex_g1_inv|discriminate|exact Hg].
Qed.

Lemma lease_iff_assigned_witness :
  validateConsumerGroupLease 101 ex_r1.1.1 "g" "m1" 1 (NewTopicPartition "orders" 4) = Ok tt /\
  ~ validateConsumerGroupLease 102 ex_r1.1.1 "g" "m2" 1 (NewTopicPartition "orders" 4) = Ok tt.
Proof.
  split.
  - apply (@lease_iff_assigned map_to_list_range _ ex_history ex_range 101 101 ex_g1 [] "g" ex_r1.1.1 ex_r1.1.2 ex_a1 "m1"
             (NewTopicPartition "orders" 4) ex_g1_inv);
      [discriminate|discriminate|exact ex_r1_eq|vm_compute; discriminate|vm_compute; set_solver].
  - intros Hv. apply (@lease_iff_assigned map_to_list_range _ ex_history ex_range 101 102 ex_g1 [] "g" ex_r1.1.1 ex_r1.1.2 ex_a1 "m2"
             (NewTopicPartition "orders" 4) ex_g1_inv) in Hv as [Hx _];
      [|discriminate|discriminate|exact ex_r1_eq|vm_compute; discriminate].
    revert Hx. vm_compute. set_solver.
Defined.

(** Two members join and take partitions: leases of the first generation end. *)
Definition ex_r2 := ex_rebalance ex_range 102 (ex_g3 ex_r1.1.1).
Definition ex_a2 : ConsumerGroupAssignment :=
  match ex_r2.2 with Ok a => a | Err _ => mkConsumerGroupAssignment "" 0 [] 0 end.

Lemma generation_fences_witness :
  cga_Generation ex_a2 = 2%Z /\
  validateConsumerGroupLease 102 ex_r2.1.1 "g" "m1" 1 (NewTopicPartition "orders" 0) = Err CodeInvalidArgument.
Proof.
  destruct (@generation_fences map_to_list_range _ ex_history ex_range 102 (ex_g3 ex_r1.1.1) [] "g" ex_a1 ex_r2.1.1 ex_r2.1.2 ex_a2)
    as [[Hg _]|[Hg Hf]].
  - exact (ex_g3_inv _ ex_r1_inv).
  - discriminate.
  - vm_compute. reflexivity.
  - vm_compute. split; [discriminate|reflexivity].
  - vm_compute. reflexivity.
  - exfalso. revert Hg. vm_compute. discriminate.
  - split; [exact Hg|exact (Hf 102%Z "m1"%string (NewTopicPartition "orders" 0))].
Defined.

Lemma ex_r2_eq : ex_rebalance ex_range 102 (ex_g3 ex_r1.1.1) = (ex_r2.1.1, ex_r2.1.2, Ok ex_a2).
Proof. vm_compute. reflexivity. Qed.

Lemma live_eq s s' group now now' m :
  members s' = members s -> map_Forall (fun _ m => ExpiredAt m now = false /\ ExpiredAt m now' = false) (members s) ->
  active_member s group now m <-> active_member s' group now' m.
Proof.
  intros E Hf. unfold active_member. rewrite E.
  split; intros ([k Hk] & Hg & _); destruct (Hf k m Hk); (split; [by exists k|done]).
Qed.

Lemma ex_live m :
  active_member (ex_g3 ex_r1.1.1) "g" 102 m <-> active_member ex_r2.1.1 "g" 103 m.
Proof.
  apply live_eq; [vm_compute; reflexivity|]. apply (bool_decide_unpack _). vm_compute. exact I.
Qed.

Lemma rebalance_idempotent_witness :
  exists s2 h3 a2, ex_rebalance ex_range 103 ex_r2.1.1 = ((s2, h3), Ok a2) /\ cga_Assignments a2 = cga_Assignments ex_a2.
Proof.
  destruct (@rebalance_idempotent map_to_list_range _ ex_history ex_range 102 103 (ex_g3 ex_r1.1.1) [] [] "g" ex_r2.1.1 ex_r2.1.2 ex_a2)
    as (s2 & h3 & a2 & Ha & He & _).
  - exact (ex_g3_inv _ ex_r1_inv).
  - discriminate.
  - right. exists ex_a1. vm_compute. reflexivity.
  - exact ex_r2_eq.
  - exact ex_live.
  - exists s2, h3, a2. split; [exact Ha|exact He].
Defined.

(** The handlers of replicated commands read the clock of the replica that
    runs them: the same command on the same store, on two replicas whose
    clocks differ by less than a second, assigns the partitions to different
    members; and the time a poll command carries is not used. *)
Lemma rebalance_depends_on_local_clock :
  owners (ex_rebalance ex_range 30099 ex_g1).2 <> owners (ex_rebalance ex_range 30100 ex_g1).2.
Proof. vm_compute. discriminate. Qed.

Lemma poll_ignores_command_time now s group memberID t t' :
  applyPollGroup now s (mkPollGroupCommand group memberID t) = applyPollGroup now s (mkPollGroupCommand group memberID t').
Proof. reflexivity. Qed.
