(* ===== verification/FrameSpec.v ===== *)
(** * What the handlers of the broker leave alone

    A small frame logic: [keeps T K s s'] says that the topics in [T], with
    their logs, and the committed offsets under the keys in [K] are the same
    in two stores, and [frame T K m] that a handler keeps them, whether it
    succeeds or fails.  The lemmas of this file give the frames of the
    handlers; [solve_frame] composes them along the text of an operation. *)

From stdpp Require Import prelude gmap strings sorting list.
From S2P Require Import Prelude Model MemoryStore LogSpec MetaStore MetaSpec Queue Idempotency IdempotencySpec Headers Produce.
From S2P Require Import ProduceSpec GoStrings Governance Handlers HandlerSpec Acks Groups Transactions.

#[local] Open Scope Z_scope.

Create HintDb frame.

Record keeps (T K : string -> Prop) (s s' : MemoryStore) : Prop := {
  kp_topics : forall n, T n -> topics s' !! n = topics s !! n;
  kp_records : forall tp, T (tp_Topic tp) -> records s' !! tp = records s !! tp;
  kp_next : forall tp, T (tp_Topic tp) -> nextOffsets s' !! tp = nextOffsets s !! tp;
  kp_states : forall k, K k -> offsetStates s' !! k = offsetStates s !! k;
  kp_offsets : forall k, K k -> offsets s' !! k = offsets s !! k
}.

#[export] Instance keeps_preorder T K : PreOrder (keeps T K).
Proof.
  split; [by intros s; split|]. intros s1 s2 s3 [A1 B1 C1 D1 E1] [A2 B2 C2 D2 E2].
  split; intros x Hx; [rewrite A2|rewrite B2|rewrite C2|rewrite D2|rewrite E2]; auto.
Qed.

Lemma keeps_eq T K s s' : log_eq s s' -> committed s' = committed s -> keeps T K s s'.
Proof. intros (E1 & E2 & E3 & E4) [= E5 E6]. split; intros; congruence. Qed.

(** Handlers. *)
Definition frame {A} (T K : string -> Prop) (m : BM A) : Prop := forall b, keeps T K (b_store b) (b_store (m b).1).

Section Frame.
Context (T K : string -> Prop).

Lemma frame_ret {A} (a : A) : frame T K (mret a).
Proof. by intros b. Qed.

Lemma frame_pure {A} (r : result BrokerError A) : frame T K (pure r).
Proof. by intros b. Qed.

Lemma frame_fail {A} e : frame T K (fail (A := A) e).
Proof. by intros b. Qed.

Lemma frame_reads {A} (f : Broker -> result BrokerError A) : frame T K (reads f).
Proof. by intros b. Qed.

Lemma frame_bind {A B} (m : BM A) (k : A -> BM B) : frame T K m -> (forall a, frame T K (k a)) -> frame T K (m ≫= k).
Proof.
  intros Hm Hk b. unfold mbind, BM_bind. specialize (Hm b). destruct (m b) as [b1 [a|e]]; [|done].
  etrans; [exact Hm|apply Hk].
Qed.

Lemma frame_calls {A} (f : MemoryStore -> MemoryStore * result Code A) :
  (forall s, keeps T K s (f s).1) -> frame T K (calls f).
Proof. intros Hf b. unfold calls. specialize (Hf (b_store b)). by destruct (f (b_store b)). Qed.

(** ** Topics *)

Lemma foldl_ensure_keeps initial n ps s : ~ T n -> keeps T K s (foldl (ensurePartition initial n) s ps).
Proof.
  intros Hn. induction ps as [|p ps IH] in s |- *; [reflexivity|]. cbn [foldl]. etrans; [|apply IH].
  split; intros x Hx.
  - by rewrite (proj1 (ensurePartition_frame initial n s p)).
  - rewrite ensurePartition_records. case_decide; [by subst|done].
  - rewrite ensurePartition_next. destruct (nextOffsets s !! x); [done|]. case_decide; [by subst|done].
  - unfold ensurePartition. by repeat case_match.
  - unfold ensurePartition. by repeat case_match.
Qed.

Lemma keeps_set_topic s topic : ~ T (tc_Name topic) ->
  keeps T K s (set_topics (<[tc_Name topic := topic]> (topics s)) (set_topicNames ({[tc_Name topic]} ∪ topicNames s) s)).
Proof. intros Hn. split; [|done..]. intros n Hx. cbn. apply lookup_insert_ne. congruence. Qed.

Lemma keeps_SaveTopicConfig s topic : ~ T (tc_Name topic) -> keeps T K s (SaveTopicConfig s topic).1.
Proof.
  intros Hn. unfold SaveTopicConfig. case_decide; [done|]. cbn [fst].
  etrans; [apply (keeps_set_topic s (normalizeTopic topic)); done|]. by apply foldl_ensure_keeps.
Qed.

Lemma keeps_CreateTopic s topic : ~ T (tc_Name topic) -> keeps T K s (CreateTopic s topic).1.
Proof.
  intros Hn. unfold CreateTopic.
  assert (keeps T K s (MemoryStore.CreateTopic s topic).1) as Hc.
  { unfold MemoryStore.CreateTopic. case_decide; [done|]. case_match; [done|]. case_decide; [done|]. cbn [fst].
    etrans; [apply (keeps_set_topic s (normalizeTopic topic)); done|]. by apply foldl_ensure_keeps. }
  destruct (MemoryStore.CreateTopic s topic) as [s1 [[]|e]]; [|done]. etrans; [exact Hc|]. by apply keeps_SaveTopicConfig.
Qed.

Lemma frame_placements topic : frame T K (ensureTopicShardPlacements topic).
Proof.
  intros b. pose proof (ensureTopicShardPlacements_spec topic b) as Hp.
  destruct (ensureTopicShardPlacements topic b) as [b' r]. destruct Hp as (Hl & (_ & _ & Hc & _) & _). by apply keeps_eq.
Qed.

Lemma frame_applyCreateTopic topic : ~ T (tc_Name topic) -> frame T K (applyCreateTopic topic).
Proof.
  intros Hn. unfold applyCreateTopic. cbv zeta.
  assert (~ T (tc_Name (normalizeTopicPolicies topic))) as Hn' by (unfold normalizeTopicPolicies; by case_decide).
  apply frame_bind; [apply frame_pure|]. intros _. destruct (isInternalTopicName _); [apply frame_fail|].
  apply frame_bind; [apply frame_calls; intros s; by apply keeps_CreateTopic|]. intros _.
  apply frame_bind; [apply frame_placements|]. intros _. apply frame_ret.
Qed.

(** ** Appends *)

Lemma keeps_AppendRecord nowMS s tp ar : ~ T (tp_Topic tp) -> keeps T K s (AppendRecord nowMS s tp ar).1.
Proof.
  intros Hn. unfold AppendRecord. repeat case_match; try done. cbn [fst].
  split; try done; intros x Hx; cbn; rewrite lookup_insert_ne; congruence.
Qed.

Lemma keeps_AppendRecordsBatch clock s tp ars : ~ T (tp_Topic tp) -> keeps T K s (AppendRecordsBatch clock s tp ars).1.
Proof.
  intros Hn. induction ars as [|ar ars IH] in clock, s |- *; [reflexivity|]. cbn [AppendRecordsBatch].
  pose proof (keeps_AppendRecord (clock 0%nat) s tp ar Hn) as Ha.
  destruct (AppendRecord (clock 0%nat) s tp ar) as [s1 [r|e]]; [|done].
  specialize (IH (fun i => clock (S i)) s1). destruct (AppendRecordsBatch _ s1 tp ars) as [s2 out]. by etrans.
Qed.

Lemma deleteBatches_committed s bs : committed (deleteBatches s bs) = committed s.
Proof. unfold deleteBatches. rewrite (foldl_keeps committed); [done|]. intros x b. unfold DeleteProducerBatch. by repeat case_match. Qed.

Context `{MapRange}.

Lemma keeps_saveProducerDedupeBatch nowMS s f id t p rs : keeps T K s (saveProducerDedupeBatch nowMS s f id t p rs).1.
Proof using Type.
  apply keeps_eq; [apply saveProducerDedupeBatch_log|]. unfold saveProducerDedupeBatch.
  destruct (newProducerPublishedBatch nowMS id t p rs) as [batch|]; [|done].
  assert (committed (SaveProducerBatch s batch).1 = committed s) as Hs by (unfold SaveProducerBatch; by repeat case_match).
  destruct (SaveProducerBatch s batch) as [s1 [[]|]]; [|done]. cbn [fst] in Hs. rewrite <- Hs.
  unfold pruneProducerDedupeWindow. destruct (ListProducerBatches s1 f); [|done]. case_match; [done|]. apply deleteBatches_committed.
Qed.

Lemma keeps_appendProduceBatch clock nowMS s t p req : ~ T t -> keeps T K s (appendProduceBatch clock nowMS s t p req).1.
Proof using Type.
  intros Hn. pose proof (keeps_AppendRecordsBatch clock s (NewTopicPartition t p) (pbc_Records req) Hn) as Ha.
  unfold appendProduceBatch, appendIdempotentProduceBatch, PublishBatchRecords. destruct (pbc_Idempotency req) as [id|].
  - destruct (_ ≫= _) as [[f [b|]]|]; [done| |done].
    destruct (AppendRecordsBatch clock s _ _) as [s1 [out|]]; [|done].
    pose proof (keeps_saveProducerDedupeBatch nowMS s1 f id t p out) as Hl.
    destruct (saveProducerDedupeBatch nowMS s1 f id t p out) as [s2 [[]|]]; by etrans.
  - by destruct (AppendRecordsBatch clock s _ _) as [s1 [out|]].
Qed.

Context `{Hash64}.

Lemma frame_Internal clock nowMS req : ~ T (pbc_Topic req) -> frame T K (fun b => applyProduceBatchInternal clock nowMS b req).
Proof using Type.
  intros Hn b. unfold applyProduceBatchInternal. pose proof (selectProducePartition_store b req) as Es.
  destruct (selectProducePartition b req) as [b1 [[q req']|e]] eqn:Eq; cbn [fst] in Es |- *; [|by rewrite Es].
  apply select_req in Eq as [_ Et]. rewrite <- Et in Hn. rewrite <- Es.
  pose proof (keeps_appendProduceBatch clock nowMS (b_store b1) (pbc_Topic req') q req' Hn) as Ha.
  by destruct (appendProduceBatch clock nowMS _ _ _ _).
Qed.

Lemma frame_applyProduceBatch clock nowMS req : ~ T (pbc_Topic req) -> frame T K (fun b => applyProduceBatch clock nowMS b req).
Proof using Type.
  intros Hn b. unfold applyProduceBatch. pose proof (frame_Internal clock nowMS req Hn b) as Hi. cbn beta in Hi.
  by destruct (applyProduceBatchInternal clock nowMS b req).
Qed.

Lemma frame_applyProduce clock nowMS req : ~ T (pc_Topic req) -> frame T K (fun b => applyProduce clock nowMS b req).
Proof using Type.
  intros Hn b. unfold applyProduce. destruct (pc_Idempotency req) as [id|].
  { match goal with |- context [applyProduceBatch clock nowMS b ?r] => pose proof (frame_applyProduceBatch clock nowMS r Hn b) as Hi end.
    cbn beta in Hi. by destruct (applyProduceBatch clock nowMS b _). }
  destruct (prepareProduceRecord b req) as [[[t r] p]|]; [|done].
  destruct (selectPartition (b_cursors b) t p (ra_Key r)) as [c [q|]]; [|done]. unfold PublishRecord.
  pose proof (keeps_AppendRecord (clock O) (b_store b) (NewTopicPartition (pc_Topic req) q) r Hn) as Ha.
  by destruct (AppendRecord (clock O) (b_store b) _ r).
Qed.

(** ** Group commit *)

Lemma plan_topics index b requests b' items planned plans :
  ~ T "" -> Forall (fun req => ~ T (pbc_Topic req)) requests ->
  planProduceBatches index b requests = (b', (items, planned, plans)) ->
  b_store b' = b_store b /\ Forall (fun req => ~ T (pbc_Topic req)) planned /\
  Forall (fun plan => ~ T (tp_Topic (plan_tp plan))) plans.
Proof using Type.
  intros Hempty Hall. revert index b b' items planned plans.
  induction Hall as [|req requests Hreq Hall IH]; intros index b b' items planned plans Hp;
    cbn [planProduceBatches] in Hp; [by simplify_eq|].
  unfold planProduceBatch in Hp. pose proof (selectProducePartition_store b req) as Es.
  destruct (selectProducePartition b req) as [b1 r] eqn:Eq. cbn [fst] in Es.
  destruct (planProduceBatches (S index) b1 requests) as [b2 [[items2 planned2] plans2]] eqn:E2.
  destruct (IH _ _ _ _ _ _ E2) as (Hst & Hpl & Hplans). rewrite Es in Hst.
  destruct r as [[q req']|e]; cbn [mbind result_bind] in Hp; simplify_eq; split_and!; try constructor; try done.
  apply select_req in Eq as [_ Et]. cbn. by rewrite Et.
Qed.

Lemma keeps_foldl {X A} (proj : X -> MemoryStore) (f : X -> A -> X) l x :
  Forall (fun a => forall x, keeps T K (proj x) (proj (f x a))) l -> keeps T K (proj x) (proj (foldl f x l)).
Proof using Type.
  intros Hall. induction Hall as [|a l Ha Hall IH] in x |- *; [reflexivity|]. cbn [foldl]. etrans; [apply Ha|apply IH].
Qed.

Lemma requestAt_topic planned index :
  ~ T "" -> Forall (fun req => ~ T (pbc_Topic req)) planned -> ~ T (pbc_Topic (requestAt planned index)).
Proof using Type.
  intros Hempty Hall. unfold requestAt. destruct (planned !! index) as [req|] eqn:E; [|done]. exact (Forall_lookup_1 _ _ _ _ Hall E).
Qed.

Lemma keeps_group clock nowMS ctxErr b planned group items :
  ~ T "" -> Forall (fun req => ~ T (pbc_Topic req)) planned -> ~ T (tp_Topic (pbg_tp group)) ->
  keeps T K (b_store b) (b_store (applyProduceBatchGroup clock nowMS ctxErr b planned group items).1).
Proof using Type.
  intros Hempty Hpl Hg. unfold applyProduceBatchGroup. case_match; [done|]. case_match.
  - unfold applyProduceBatchGroupIndividually. apply (keeps_foldl (fun acc : Broker * _ => b_store acc.1) _ _ (b, items)).
    apply Forall_forall. intros index _ [b0 items0]. cbn [fst].
    set (req := set_request _ _ _). assert (~ T (pbc_Topic req)) as Hreq by (by apply requestAt_topic).
    pose proof (frame_Internal (clock index) (nowMS index) req Hreq b0) as Hi. cbn beta in Hi.
    by destruct (applyProduceBatchInternal _ _ b0 req) as [b1 [item|e]].
  - unfold PublishBatchRecords.
    match goal with |- context [AppendRecordsBatch ?c ?s ?tp ?rs] => pose proof (keeps_AppendRecordsBatch c s tp rs Hg) as Ha;
      destruct (AppendRecordsBatch c s tp rs) as [s1 [out|e]] end; [|done].
    by destruct (splitProduceBatchGroupRecords planned group out items) as [items1 [[]|e]].
Qed.

Lemma keeps_applyProduceBatches clock nowMS ctxErr b requests :
  ~ T "" -> Forall (fun req => ~ T (pbc_Topic req)) requests ->
  keeps T K (b_store b) (b_store (applyProduceBatches clock nowMS ctxErr b requests).1).
Proof using Type.
  intros Hempty Hall. unfold applyProduceBatches.
  destruct (planProduceBatches 0 b requests) as [b1 [[items planned] plans]] eqn:Ep.
  destruct (plan_topics _ _ _ _ _ _ _ Hempty Hall Ep) as (Es & Hpl & Hplans). rewrite <- Es.
  apply (keeps_foldl (fun acc : Broker * list produceBatchItemResult => b_store acc.1) _ _ (b1, items)).
  apply Forall_forall. intros group Hg [b2 items2]. cbn [fst]. apply keeps_group; [done|done|].
  apply elem_of_values in Hg as [tp Htp]. destruct (group_spec _ _ _ Htp) as [-> _].
  rewrite groupProduceBatchPlans_lookup in Htp.
  destruct (filter _ plans) as [|plan l] eqn:Ef; [done|].
  assert (plan ∈ filter (fun plan => plan_tp plan = tp) plans) as [<- Hin]%list_elem_of_filter by (rewrite Ef; constructor).
  rewrite Forall_forall in Hplans. by apply Hplans.
Qed.

Lemma keeps_publishFanoutScoped clock nowMS ctxErr b topic record partitions :
  ~ T "" -> ~ T topic -> keeps T K (b_store b) (b_store (publishFanoutScoped clock nowMS ctxErr b topic record partitions).1).
Proof using Type.
  intros Hempty Hn. unfold publishFanoutScoped. destruct (intFromUint64 partitions); [|done].
  pose proof (keeps_applyProduceBatches clock nowMS ctxErr b (fanoutRequests topic record partitions) Hempty) as Hb.
  destruct (applyProduceBatches clock nowMS ctxErr b _) as [b1 items]. apply Hb. unfold fanoutRequests.
  apply Forall_fmap, Forall_true. done.
Qed.

(** ** Offsets *)

Lemma keeps_SaveConsumerOffsetState s state :
  ~ K (offsetKey (cos_Consumer state) (ConsumerOffsetState_TopicPartition state)) ->
  keeps T K s (SaveConsumerOffsetState s state).1.
Proof using Type.
  intros Hk. unfold SaveConsumerOffsetState.
  assert (offsetKey (cos_Consumer (NormalizeConsumerOffsetState state)) (ConsumerOffsetState_TopicPartition (NormalizeConsumerOffsetState state))
          = offsetKey (cos_Consumer state) (ConsumerOffsetState_TopicPartition state)) as ->.
  { unfold NormalizeConsumerOffsetState. by destruct (cos_PendingOffsets state). }
  destruct (validateConsumerOffsetState _); [|done]. split; try done; intros k Hx; cbn; rewrite lookup_insert_ne; congruence.
Qed.

Lemma keeps_applyCommitOffset now s req :
  ~ K (offsetKey (coc_Consumer req) (NewTopicPartition (coc_Topic req) (coc_Partition req))) ->
  keeps T K s (applyCommitOffset now s req).1.
Proof using Type.
  intros Hk. unfold applyCommitOffset, applyAckOffset. destruct (coc_AckOffset req) as [ack|].
  - destruct (advanceAckedOffsets _ _ _ _) as [[next pending]|]; [by apply keeps_SaveConsumerOffsetState|done].
  - by apply keeps_SaveConsumerOffsetState.
Qed.

(** ** Commands on the metadata only *)

Lemma keeps_pause s state : keeps T K s (SaveConsumerPause s state).1.
Proof using Type. apply keeps_eq; unfold SaveConsumerPause; by repeat case_match. Qed.

Lemma keeps_resume s consumer tp : keeps T K s (DeleteConsumerPause s consumer tp).1.
Proof using Type. by apply keeps_eq. Qed.

Lemma keeps_SaveGroupMember s member : keeps T K s (SaveGroupMember s member).1.
Proof using Type. apply keeps_eq; unfold SaveGroupMember; by repeat case_match. Qed.

Lemma keeps_applyJoinGroup now s req : keeps T K s (applyJoinGroup now s req).1.
Proof using Type.
  unfold applyJoinGroup. case_decide; [done|]. set (m := groupMemberFromCommand now req).
  pose proof (keeps_SaveGroupMember s m) as Hm. by destruct (SaveGroupMember s m) as [s1 [[]|]].
Qed.

Lemma keeps_applyHeartbeatGroup now s req : keeps T K s (applyHeartbeatGroup now s req).1.
Proof using Type.
  unfold applyHeartbeatGroup. destruct (loadUnexpiredGroupMember s _ _ _) as [member|]; [|done]. cbv zeta.
  match goal with |- context [SaveGroupMember s ?m] => pose proof (keeps_SaveGroupMember s m) as Hm;
    by destruct (SaveGroupMember s m) as [s1 [[]|]] end.
Qed.

Lemma keeps_applyPollGroup now s req : keeps T K s (applyPollGroup now s req).1.
Proof using Type.
  unfold applyPollGroup. destruct (loadUnexpiredGroupMember s _ _ _) as [member|]; [|done]. cbv zeta.
  match goal with |- context [SaveGroupMember s ?m] => pose proof (keeps_SaveGroupMember s m) as Hm;
    by destruct (SaveGroupMember s m) as [s1 [[]|]] end.
Qed.

End Frame.

#[export] Hint Resolve frame_ret frame_pure frame_fail frame_reads frame_calls frame_placements frame_applyCreateTopic : frame.
#[export] Hint Resolve frame_applyProduce frame_applyProduceBatch keeps_applyProduceBatches keeps_publishFanoutScoped : frame.
#[export] Hint Resolve keeps_applyCommitOffset keeps_pause keeps_resume : frame.
#[export] Hint Resolve keeps_applyJoinGroup keeps_applyHeartbeatGroup keeps_applyPollGroup : frame.

(** The frame of an operation, along its text. *)
Ltac frame_step :=
  match goal with
  | |- frame _ _ (_ ≫= _) => apply frame_bind; [|intros ?]
  | |- frame _ _ (match ?x with _ => _ end) => destruct x
  | |- frame _ _ (if ?x then _ else _) => destruct x
  | _ => solve [eauto with frame]
  end.
Ltac solve_frame := cbv zeta; repeat frame_step.
