(* ===== verification/Service.v ===== *)
(** * The operations of the broker

    [src/broker/service_api.go], [service_idempotent_api.go], [fanout.go],
    [offset_metadata.go], [pause.go], [seek.go], [replay.go] and the fetch of
    [transaction_fetch.go]: an operation takes the identity of its context,
    asks the access policies and the quotas, translates the names into the
    scope of the tenant and applies a command.

    The broker applies its commands itself ([routePartitionCommand] and
    [routeMetadataCommand] call the handler).  [allowN] tells whether the rate
    limiter grants the tokens; spans and metrics are left out. *)

From stdpp Require Import prelude gmap strings sorting list.
From S2P Require Import Prelude Model MemoryStore MetaStore Queue Idempotency Headers Produce GoStrings Governance Handlers Acks Transactions Groups.

#[local] Open Scope Z_scope.

(** The part of the configuration of the broker that is about tenants. *)
Record GovernanceConfig := mkGovernanceConfig {
  gc_DefaultTenant : string;
  gc_DefaultNamespace : string;
  gc_TenantDefaults : list TenantDefaultsConfig;
  gc_Quota : QuotaConfig
}.

Section Service.
Context `{MapRange} `{Hash64} (cfg : GovernanceConfig).

(** [b.identity(ctx)] *)
Definition identity_of (ctx : Identity) : Identity := brokerIdentity (gc_DefaultTenant cfg) (gc_DefaultNamespace cfg) ctx.

Definition authorizes (identity : Identity) (action : string) (resource : ACLResource) : BM unit :=
  reads (fun b => authorize (b_store b) identity action resource).

(** ** Quotas *)

Definition checkQuota (allowN : string -> Z -> bool) (req : QuotaRequest) : BM unit :=
  pure (CheckQuota (gc_Quota cfg) allowN
          (mkQuotaRequest (normalizeIdentity (qr_Identity req)) (qr_Action req) (qr_Topic req) (qr_Partitions req) (qr_Records req)
             (qr_Bytes req) (qr_CurrentTopics req) (qr_CurrentPartitions req) (qr_CurrentStorageBytes req)
             (qr_AdditionalStorageBytes req) (qr_CurrentConnections req) (qr_CurrentInflightRequests req))).

Definition storageQuotaUsageNeeded (quota : QuotaConfig) : bool := 0 <? q_MaxStorageBytes quota.

Definition populateStorageQuotaUsage (identity : Identity) : BM Z :=
  if negb (storageQuotaUsageNeeded (gc_Quota cfg)) then mret 0
  else reads (fun b => storageUsageForScope (b_store b) identity).

Definition serviceProduceQuota (allowN : string -> Z -> bool) (identity : Identity) (topic : string)
    (records payloadBytes storageBytes : Z) : BM unit :=
  usage ← populateStorageQuotaUsage identity;
  checkQuota allowN (mkQuotaRequest identity QuotaActionProduce topic 0 records payloadBytes 0 0 usage storageBytes 0 0).

Definition batchPayloadBytes (records : list RecordAppend) : Z :=
  foldl (fun total record => total + len (ra_Payload record)) 0 records.

Definition batchStorageBytes (records : list RecordAppend) : Z :=
  foldl (fun total record => u64 (total + RecordAppendStorageBytes record)) 0 records.

Definition consumeQuota (allowN : string -> Z -> bool) (identity : Identity) (topic : string) (maxRecords : Z) : BM unit :=
  checkQuota allowN (mkQuotaRequest identity QuotaActionConsume topic 0 maxRecords 0 0 0 0 0 0 0).

(** ** Topics *)

Definition CreateTopic (allowN : string -> Z -> bool) (ctx : Identity) (topic : TopicConfig) : BM TopicConfig :=
  let identity := identity_of ctx in
  let scopedTopic := scopedTopicConfig (gc_TenantDefaults cfg) identity topic in
  _ ← authorizes identity ACLActionCreate (topicResource identity (tc_Name topic));
  '(topics, partitions) ← reads (fun b => populateTopicQuotaUsage (gc_Quota cfg) (b_store b) identity);
  _ ← checkQuota allowN (mkQuotaRequest identity QuotaActionCreateTopic (tc_Name topic) (tc_Partitions topic) 0 0 topics partitions 0 0 0 0);
  created ← applyCreateTopic scopedTopic;
  mret (visibleTopicConfig identity created).

(** ** Publishing *)

Definition publishRecordScoped (clock : nat -> Z) (nowMS : Z) (topic : string) (partitioning : PublishPartitioning)
    (record : RecordAppend) : BM ProduceResult :=
  let record := applyPartitioningRoutingKey record partitioning in
  fun b => applyProduce clock nowMS b (mkProduceCommand topic partitioning record None).

Definition PublishRecord (allowN : string -> Z -> bool) (clock : nat -> Z) (nowMS : Z) (ctx : Identity) (topic : string)
    (partitioning : PublishPartitioning) (record : RecordAppend) : BM ProduceResult :=
  let identity := identity_of ctx in
  _ ← authorizes identity ACLActionProduce (topicResource identity topic);
  _ ← serviceProduceQuota allowN identity topic 1 (len (ra_Payload record)) (RecordAppendStorageBytes record);
  publishRecordScoped clock nowMS (scopedTopicName identity topic) partitioning record.

(** A record of [Publish], [PublishIdempotent] and [PublishFanout]. *)
Definition keyedRecord (key : bytes) (tombstone : bool) (payload : bytes) : RecordAppend :=
  let record := NewRecordAppend payload in
  {| ra_TimestampMS := ra_TimestampMS record; ra_Key := key; ra_Headers := ra_Headers record;
     ra_Attributes := if tombstone then Z.lor (ra_Attributes record) RecordAttributeTombstone else ra_Attributes record;
     ra_Transaction := ra_Transaction record; ra_ExpiresAtMS := ra_ExpiresAtMS record; ra_Payload := ra_Payload record |}.

Definition Publish (allowN : string -> Z -> bool) (clock : nat -> Z) (nowMS : Z) (ctx : Identity) (topic : string)
    (partitioning : PublishPartitioning) (key : bytes) (tombstone : bool) (payload : bytes) : BM ProduceResult :=
  PublishRecord allowN clock nowMS ctx topic partitioning (keyedRecord key tombstone payload).

Definition publishBatchScoped (clock : nat -> Z) (nowMS : Z) (topic : string) (partitioning : PublishPartitioning)
    (records : list RecordAppend) : BM ProduceBatchResult :=
  let copied := (fun record => applyPartitioningRoutingKey record partitioning) <$> records in
  fun b => applyProduceBatch clock nowMS b (mkProduceBatchCommand topic partitioning copied None).

Definition PublishBatch (allowN : string -> Z -> bool) (clock : nat -> Z) (nowMS : Z) (ctx : Identity) (topic : string)
    (partitioning : PublishPartitioning) (records : list RecordAppend) : BM ProduceBatchResult :=
  let identity := identity_of ctx in
  _ ← authorizes identity ACLActionProduce (topicResource identity topic);
  _ ← serviceProduceQuota allowN identity topic (len records) (batchPayloadBytes records) (batchStorageBytes records);
  publishBatchScoped clock nowMS (scopedTopicName identity topic) partitioning records.

Definition publishBatchScopedIdempotent (clock : nat -> Z) (nowMS : Z) (topic : string) (partitioning : PublishPartitioning)
    (records : list RecordAppend) (idempotency : ProduceIdempotency) : BM ProduceBatchResult :=
  let copied := (fun record => applyPartitioningRoutingKey record partitioning) <$> records in
  fun b => applyProduceBatch clock nowMS b (mkProduceBatchCommand topic partitioning copied (Some idempotency)).

Definition PublishBatchIdempotent (allowN : string -> Z -> bool) (clock : nat -> Z) (nowMS : Z) (ctx : Identity) (topic : string)
    (partitioning : PublishPartitioning) (records : list RecordAppend) (idempotency : ProduceIdempotency) : BM ProduceBatchResult :=
  let identity := identity_of ctx in
  _ ← authorizes identity ACLActionProduce (topicResource identity topic);
  _ ← serviceProduceQuota allowN identity topic (len records) (batchPayloadBytes records) (batchStorageBytes records);
  publishBatchScopedIdempotent clock nowMS (scopedTopicName identity topic) partitioning records idempotency.

Definition PublishRecordIdempotent (allowN : string -> Z -> bool) (clock : nat -> Z) (nowMS : Z) (ctx : Identity) (topic : string)
    (partitioning : PublishPartitioning) (record : RecordAppend) (idempotency : ProduceIdempotency) : BM ProduceResult :=
  batch ← PublishBatchIdempotent allowN clock nowMS ctx topic partitioning [record] idempotency;
  match pbr_Records batch with
  | [] => fail (StoreError CodeCodec)
  | r :: _ => mret (mkProduceResult (pbr_Partition batch) r)
  end.

Definition PublishIdempotent (allowN : string -> Z -> bool) (clock : nat -> Z) (nowMS : Z) (ctx : Identity) (topic : string)
    (partitioning : PublishPartitioning) (key : bytes) (tombstone : bool) (payload : bytes) (idempotency : ProduceIdempotency)
    : BM ProduceResult :=
  PublishRecordIdempotent allowN clock nowMS ctx topic partitioning (keyedRecord key tombstone payload) idempotency.

(** The requests of [publishBatches] in their scope; a request without a topic
    is refused later, by the handler. *)
Fixpoint scopeRequests (allowN : nat -> string -> Z -> bool) (identity : Identity) (requests : list produceBatchCommand)
    : BM (list produceBatchCommand) :=
  match requests with
  | [] => mret []
  | request :: requests =>
      topic ← (if decide (pbc_Topic request = "") then mret "" else
                 _ ← authorizes identity ACLActionProduce (topicResource identity (pbc_Topic request));
                 _ ← serviceProduceQuota (allowN O) identity (pbc_Topic request) (len (pbc_Records request))
                       (batchPayloadBytes (pbc_Records request)) (batchStorageBytes (pbc_Records request));
                 mret (scopedTopicName identity (pbc_Topic request)));
      rest ← scopeRequests (fun i => allowN (S i)) identity requests;
      mret (mkProduceBatchCommand topic (pbc_Partitioning request)
              (recordsWithPartitioningRoutingKey (pbc_Partitioning request) (pbc_Records request)) (pbc_Idempotency request) :: rest)
  end.

Definition publishBatches (allowN : nat -> string -> Z -> bool) (clock : nat -> nat -> Z) (nowMS : nat -> Z)
    (ctxErr : TopicPartition -> bool) (ctx : Identity) (requests : list produceBatchCommand) : BM (list produceBatchItemResult) :=
  requests ← scopeRequests allowN (identity_of ctx) requests;
  (fun b => let '(b, items) := applyProduceBatches clock nowMS ctxErr b requests in (b, Ok items)) : BM (list produceBatchItemResult).

(** The result of a fan-out carries records also when it fails. *)
Record FanoutResult := mkFanoutResult { fan_Topic : string; fan_Records : list FanoutRecordResult; fan_Error : option BrokerError }.

Definition PublishFanoutRecord (allowN : string -> Z -> bool) (clock : nat -> nat -> Z) (nowMS : nat -> Z)
    (ctxErr : TopicPartition -> bool) (ctx : Identity) (topic : string) (record : RecordAppend) : BM FanoutResult :=
  let identity := identity_of ctx in
  _ ← authorizes identity ACLActionProduce (topicResource identity topic);
  let scopedTopic := scopedTopicName identity topic in
  topicConfig ← reads (fun b => loadTopicConfig b scopedTopic);
  '(records, payloadBytes, storageBytes) ← pure (fanoutQuotaUsage (tc_Partitions topicConfig) record);
  _ ← serviceProduceQuota allowN identity topic records payloadBytes storageBytes;
  (fun b =>
    let '(b, (items, err)) := publishFanoutScoped clock nowMS ctxErr b scopedTopic record (tc_Partitions topicConfig) in
    (b, Ok (mkFanoutResult (visibleTopicName identity scopedTopic) items err))) : BM FanoutResult.

Definition PublishFanout (allowN : string -> Z -> bool) (clock : nat -> nat -> Z) (nowMS : nat -> Z)
    (ctxErr : TopicPartition -> bool) (ctx : Identity) (topic : string) (key : bytes) (tombstone : bool) (payload : bytes)
    : BM FanoutResult :=
  PublishFanoutRecord allowN clock nowMS ctxErr ctx topic (keyedRecord key tombstone payload).

(** ** Fetching *)

(** [Fetch], and [FetchWithIsolation] with the isolation of the request. *)
Definition FetchWithIsolation (allowN : string -> Z -> bool) (ctx : Identity) (consumer topic : string) (partition : Z)
    (offset : option Z) (maxRecords : Z) (isolation : string) : BM PollResult :=
  let identity := identity_of ctx in
  _ ← authorizes identity ACLActionConsume (topicResource identity topic);
  _ ← consumeQuota allowN identity topic maxRecords;
  reads (fun b => fetchWithIsolationScoped b (scopedName identity "consumer" consumer) (scopedTopicName identity topic) partition
                    offset maxRecords isolation).

Definition Fetch (allowN : string -> Z -> bool) (ctx : Identity) (consumer topic : string) (partition : Z)
    (offset : option Z) (maxRecords : Z) : BM PollResult :=
  let identity := identity_of ctx in
  _ ← authorizes identity ACLActionConsume (topicResource identity topic);
  _ ← consumeQuota allowN identity topic maxRecords;
  reads (fun b => fetchScoped b (scopedName identity "consumer" consumer) (scopedTopicName identity topic) partition offset maxRecords).

(** ** Offsets

    [updatedAt] is the time of the request; [now] the time of the store, used
    where the request carries none. *)

Definition routeCommitOffset (now : Z) (req : commitOffsetCommand) : BM unit :=
  calls (fun s => applyCommitOffset now s req).

Definition CommitOffsetWithMetadata (updatedAt now : Z) (ctx : Identity) (consumer topic : string) (partition nextOffset : Z)
    (metadata : string) : BM unit :=
  let identity := identity_of ctx in
  _ ← authorizes identity ACLActionCommit (topicResource identity topic);
  routeCommitOffset now (mkCommitOffsetCommand (scopedName identity "consumer" consumer) (scopedTopicName identity topic) partition
                           nextOffset None metadata updatedAt).

Definition CommitOffset (updatedAt now : Z) (ctx : Identity) (consumer topic : string) (partition nextOffset : Z) : BM unit :=
  CommitOffsetWithMetadata updatedAt now ctx consumer topic partition nextOffset "".

Definition AckRecordWithMetadata (updatedAt now : Z) (ctx : Identity) (consumer topic : string) (partition offset : Z)
    (metadata : string) : BM unit :=
  let identity := identity_of ctx in
  _ ← authorizes identity ACLActionCommit (topicResource identity topic);
  routeCommitOffset now (mkCommitOffsetCommand (scopedName identity "consumer" consumer) (scopedTopicName identity topic) partition
                           (u64 (offset + 1)) (Some offset) metadata updatedAt).

Definition AckRecord (updatedAt now : Z) (ctx : Identity) (consumer topic : string) (partition offset : Z) : BM unit :=
  AckRecordWithMetadata updatedAt now ctx consumer topic partition offset "".

Definition renameOffsetState (consumer topic : string) (state : ConsumerOffsetState) : ConsumerOffsetState :=
  mkConsumerOffsetState consumer topic (cos_Partition state) (cos_NextOffset state) (cos_PendingOffsets state) (cos_Metadata state)
    (cos_UpdatedAtMS state).

Definition visibleConsumerOffsetState (identity : Identity) (state : option ConsumerOffsetState) : option ConsumerOffsetState :=
  (fun out => renameOffsetState (visibleName identity "consumer" (cos_Consumer out)) (visibleTopicName identity (cos_Topic out)) out)
  <$> state.

Definition CommittedOffset (ctx : Identity) (consumer topic : string) (partition : Z) : BM (option ConsumerOffsetState) :=
  let identity := identity_of ctx in
  _ ← authorizes identity ACLActionDescribe (topicResource identity topic);
  state ← reads (fun b => of_store (LoadConsumerOffsetState (b_store b) (scopedName identity "consumer" consumer)
                                      (NewTopicPartition (scopedTopicName identity topic) partition)));
  mret (visibleConsumerOffsetState identity state).

(** ** Seeking *)

Definition minTimestampSeekScanBatch : Z := 100.

Record SeekResult := mkSeekResult { sk_Topic : string; sk_Partition : Z; sk_Offset : Z; sk_TimestampMS : option Z }.

Definition validateSeekTopicPartition (b : Broker) (topic : string) (partition : Z) : result BrokerError unit :=
  cfg ← topicConfig b topic;
  match cfg with
  | None => Err (StoreError CodeTopicNotFound)
  | Some cfg => if tc_Partitions cfg <=? partition then Err (StoreError CodePartitionNotFound) else Ok tt
  end.

Definition seekEndOffset (b : Broker) (topic : string) (partition : Z) : result BrokerError Z :=
  _ ← validateSeekTopicPartition b topic partition;
  lastOffset ← of_store (LastOffset (b_store b) (NewTopicPartition topic partition));
  match lastOffset with
  | None => Ok 0
  | Some last => if last =? max_u64 then Err (StoreError CodeInvalidArgument) else Ok (last + 1)
  end.

Definition seekOffsetScoped (now : Z) (consumer topic : string) (partition offset : Z) : BM SeekResult :=
  endOffset ← reads (fun b => seekEndOffset b topic partition);
  if endOffset <? offset then fail (StoreError CodeInvalidArgument)
  else
    _ ← routeCommitOffset now (mkCommitOffsetCommand consumer topic partition offset None "" 0);
    mret (mkSeekResult topic partition offset None).

(** The first of [records] at or after a time. *)
Fixpoint firstAtOrAfter (records : list Rec) (timestampMS : Z) : option Rec :=
  match records with
  | [] => None
  | record :: records => if timestampMS <=? r_TimestampMS record then Some record else firstAtOrAfter records timestampMS
  end.

(** The scan of a log without a timestamp index: every batch moves the cursor
    behind its last record, so one turn per record and a last one are enough. *)
Fixpoint timestampScan (fuel : nat) (s : MemoryStore) (tp : TopicPartition) (cursor endOffset timestampMS : Z)
    : result BrokerError (Z * option Z) :=
  match fuel with
  | O => Err (BrokerFailure "fuel")
  | S fuel =>
      if endOffset <=? cursor then Ok (endOffset, None)
      else
        records ← of_store (ReadFrom s tp cursor minTimestampSeekScanBatch);
        match last records with
        | None => Ok (endOffset, None)
        | Some final =>
            match firstAtOrAfter records timestampMS with
            | Some record => Ok (r_Offset record, Some (r_TimestampMS record))
            | None => timestampScan fuel s tp (u64 (r_Offset final + 1)) endOffset timestampMS
            end
        end
  end.

Definition fallbackOffsetForTimestamp (s : MemoryStore) (tp : TopicPartition) (timestampMS : Z) : result BrokerError (Z * option Z) :=
  offsets ← of_store (PartitionOffsets s tp);
  timestampScan (S (length (recordsOf s tp))) s tp 0 (pos_NextOffset offsets) timestampMS.

Definition offsetForTimestamp (b : Broker) (topic : string) (partition timestampMS : Z) : result BrokerError (Z * option Z) :=
  fallbackOffsetForTimestamp (b_store b) (NewTopicPartition topic partition) timestampMS.

Definition seekTimestampScoped (now : Z) (consumer topic : string) (partition timestampMS : Z) : BM SeekResult :=
  '(offset, matchedTimestamp) ← reads (fun b => offsetForTimestamp b topic partition timestampMS);
  result ← seekOffsetScoped now consumer topic partition offset;
  mret (mkSeekResult (sk_Topic result) (sk_Partition result) (sk_Offset result) matchedTimestamp).

Definition visibleSeekResult (identity : Identity) (result : SeekResult) : SeekResult :=
  mkSeekResult (visibleTopicName identity (sk_Topic result)) (sk_Partition result) (sk_Offset result) (sk_TimestampMS result).

Definition SeekOffset (now : Z) (ctx : Identity) (consumer topic : string) (partition offset : Z) : BM SeekResult :=
  let identity := identity_of ctx in
  _ ← authorizes identity ACLActionCommit (topicResource identity topic);
  result ← seekOffsetScoped now (scopedName identity "consumer" consumer) (scopedTopicName identity topic) partition offset;
  mret (visibleSeekResult identity result).

Definition SeekTimestamp (now : Z) (ctx : Identity) (consumer topic : string) (partition timestampMS : Z) : BM SeekResult :=
  let identity := identity_of ctx in
  _ ← authorizes identity ACLActionCommit (topicResource identity topic);
  result ← seekTimestampScoped now (scopedName identity "consumer" consumer) (scopedTopicName identity topic) partition timestampMS;
  mret (visibleSeekResult identity result).

(** ** Pausing *)

Record PauseResult := mkPauseResult {
  pau_Consumer : string; pau_Topic : string; pau_Partition : Z; pau_Paused : bool; pau_UpdatedAtMS : Z }.

(** [consumerPauseCommand] has the fields of the stored state. *)
Definition applyConsumerPause (req : ConsumerPauseState) : BM PauseResult :=
  _ ← (if cps_Paused req then calls (fun s => SaveConsumerPause s req)
       else calls (fun s => DeleteConsumerPause s (cps_Consumer req) (NewTopicPartition (cps_Topic req) (cps_Partition req))));
  mret (mkPauseResult (cps_Consumer req) (cps_Topic req) (cps_Partition req) (cps_Paused req) (cps_UpdatedAtMS req)).

Definition setPauseScoped (now : Z) (consumer topic : string) (partition : Z) (paused : bool) : BM PauseResult :=
  _ ← reads (fun b => validateSeekTopicPartition b topic partition);
  applyConsumerPause (mkConsumerPauseState consumer topic partition paused now).

Definition visiblePauseConsumerName (identity : Identity) (consumer : string) : string :=
  match CutPrefix consumer "__group_offset/" with
  | Some group => ("__group_offset/" +:+ visibleName identity "group" group)%string
  | None => visibleName identity "consumer" consumer
  end.

Definition visiblePauseResult (identity : Identity) (result : PauseResult) : PauseResult :=
  mkPauseResult (visiblePauseConsumerName identity (pau_Consumer result)) (visibleTopicName identity (pau_Topic result))
    (pau_Partition result) (pau_Paused result) (pau_UpdatedAtMS result).

Definition setConsumerPause (now : Z) (ctx : Identity) (consumer topic : string) (partition : Z) (paused : bool) : BM PauseResult :=
  let identity := identity_of ctx in
  _ ← authorizes identity ACLActionCommit (topicResource identity topic);
  result ← setPauseScoped now (scopedName identity "consumer" consumer) (scopedTopicName identity topic) partition paused;
  mret (visiblePauseResult identity result).

(** ** Replays *)

Record ReplayResult := mkReplayResult {
  rep_Topic : string; rep_Partition : Z; rep_Offset : Z; rep_NextOffset : Z; rep_Cursor : string; rep_NextCursor : string;
  rep_HasMore : bool; rep_HighWatermark : option Z; rep_Records : list Rec }.

Definition replayHasMore (records : list Rec) (maxRecords : Z) (highWatermark : option Z) : bool :=
  match last records, highWatermark with
  | Some final, Some high => if len records <? maxRecords then false else r_Offset final <? high
  | _, _ => false
  end.

Definition replayResultFromRecords (identity : Identity) (topic : string) (partition : Z) (cursor nextCursor : string) (hasMore : bool)
    (highWatermark : option Z) (records : list Rec) : ReplayResult :=
  let '(first, next) := match records, last records with
                        | r :: _, Some final => (r_Offset r, u64 (r_Offset final + 1))
                        | _, _ => (0, 0)
                        end in
  mkReplayResult (visibleTopicName identity topic) partition first next cursor nextCursor hasMore highWatermark records.

(** The scoped topic and the number of records to read. *)
Definition prepareReplay (ctx : Identity) (topic : string) (maxRecords : Z) : BM (Identity * string * Z) :=
  let identity := identity_of ctx in
  _ ← authorizes identity ACLActionConsume (topicResource identity topic);
  reads (fun b => Ok (identity, scopedTopicName identity topic, clampMaxRecords b maxRecords)).

Definition replayFromOffsetScoped (identity : Identity) (topic : string) (partition offset maxRecords : Z) : BM ReplayResult :=
  reads (fun b =>
    _ ← validateSeekTopicPartition b topic partition;
    let tp := NewTopicPartition topic partition in
    records ← of_store (ReadFrom (b_store b) tp offset maxRecords);
    highWatermark ← of_store (LastOffset (b_store b) tp);
    Ok (replayResultFromRecords identity topic partition "" "" (replayHasMore records maxRecords highWatermark) highWatermark records)).

Definition ReplayFromOffset (ctx : Identity) (topic : string) (partition offset maxRecords : Z) : BM ReplayResult :=
  '(identity, scopedTopic, limit) ← prepareReplay ctx topic maxRecords;
  replayFromOffsetScoped identity scopedTopic partition offset limit.

Definition ReplayFromTimestamp (ctx : Identity) (topic : string) (partition timestampMS maxRecords : Z) : BM ReplayResult :=
  '(identity, scopedTopic, limit) ← prepareReplay ctx topic maxRecords;
  '(position, _) ← reads (fun b => offsetForTimestamp b scopedTopic partition timestampMS);
  replayFromOffsetScoped identity scopedTopic partition position limit.

Definition ReplayFromCursor (ctx : Identity) (topic : string) (partition : Z) (cursor : string) (maxRecords : Z) : BM ReplayResult :=
  '(identity, scopedTopic, limit) ← prepareReplay ctx topic maxRecords;
  let tp := NewTopicPartition scopedTopic partition in
  reads (fun b =>
    page ← of_store (ReadPage (b_store b) tp cursor limit);
    highWatermark ← of_store (LastOffset (b_store b) tp);
    Ok (replayResultFromRecords identity scopedTopic partition cursor (rp_NextCursor page) (rp_HasMore page) highWatermark
          (rp_Records page))).

End Service.

(** * Operations on consumer groups and transactions

    [src/broker/service_groups.go], [transaction_api.go] and the group
    operations of [pause.go] and [seek.go], over the handlers of [Groups] and
    [Transactions]. *)

Section ServiceGroups.
Context `{MapRange} `{Hash64} (cfg : GovernanceConfig).

(** ** Membership *)

Definition visibleGroupMember (identity : Identity) (member : ConsumerGroupMember) : ConsumerGroupMember :=
  {| cgm_Group := visibleName identity "group" (cgm_Group member); cgm_MemberID := cgm_MemberID member;
     cgm_Topics := visibleTopicName identity <$> cgm_Topics member; cgm_SessionTimeoutMS := cgm_SessionTimeoutMS member;
     cgm_MaxPollIntervalMS := cgm_MaxPollIntervalMS member; cgm_JoinedAtMS := cgm_JoinedAtMS member;
     cgm_LastHeartbeatMS := cgm_LastHeartbeatMS member; cgm_LastPollMS := cgm_LastPollMS member |}.

Definition visibleGroupAssignment (identity : Identity) (assignment : ConsumerGroupAssignment) : ConsumerGroupAssignment :=
  mkConsumerGroupAssignment (visibleName identity "group" (cga_Group assignment)) (cga_Generation assignment)
    ((fun a => mkGroupPartitionAssignment (gpa_MemberID a) (visibleTopicName identity (gpa_Topic a)) (gpa_Partition a))
       <$> cga_Assignments assignment)
    (cga_UpdatedAtMS assignment).

Fixpoint scopeTopics (identity : Identity) (topics : list string) : BM (list string) :=
  match topics with
  | [] => mret []
  | topic :: topics =>
      _ ← authorizes identity ACLActionConsume (topicResource identity topic);
      rest ← scopeTopics identity topics;
      mret (scopedTopicName identity topic :: rest)
  end.

Definition JoinConsumerGroupWithOptions (now : Z) (ctx : Identity) (group memberID : string) (topics : list string)
    (sessionTimeoutMS maxPollIntervalMS : Z) : BM ConsumerGroupMember :=
  let identity := identity_of cfg ctx in
  _ ← authorizes identity ACLActionAlter (groupResource identity group);
  scopedTopics ← scopeTopics identity topics;
  member ← calls (fun s => applyJoinGroup now s (mkJoinGroupCommand (scopedName identity "group" group) memberID scopedTopics
                                                   sessionTimeoutMS maxPollIntervalMS));
  mret (visibleGroupMember identity member).

Definition HeartbeatConsumerGroupWithOptions (now : Z) (ctx : Identity) (group memberID : string)
    (sessionTimeoutMS maxPollIntervalMS : option Z) : BM ConsumerGroupMember :=
  let identity := identity_of cfg ctx in
  _ ← authorizes identity ACLActionAlter (groupResource identity group);
  member ← calls (fun s => applyHeartbeatGroup now s (mkHeartbeatGroupCommand (scopedName identity "group" group) memberID
                                                        sessionTimeoutMS maxPollIntervalMS));
  mret (visibleGroupMember identity member).

(** With the rebalance history of the broker beside its store. *)
Definition RebalanceConsumerGroup {History : Type} (Push : History -> GroupRebalanceHistorySummary -> History)
    (groups : GroupConfig) (now : Z) (ctx : Identity) (group : string) (st : Broker * History)
    : (Broker * History) * result BrokerError ConsumerGroupAssignment :=
  let '(b, h) := st in
  let identity := identity_of cfg ctx in
  match authorize (b_store b) identity ACLActionAlter (groupResource identity group) with
  | Err e => (st, Err e)
  | Ok _ =>
      let '((s, h), r) := applyRebalanceGroup Push groups now (b_store b, h) (scopedName identity "group" group) in
      ((set_store s b, h), assignment ← of_store r; Ok (visibleGroupAssignment identity assignment))
  end.

Definition GetConsumerGroupAssignmentFor (ctx : Identity) (group : string) : BM (option ConsumerGroupAssignment) :=
  let identity := identity_of cfg ctx in
  _ ← authorizes identity ACLActionDescribe (groupResource identity group);
  assignment ← reads (fun b => of_store (LoadGroupAssignment (b_store b) (scopedName identity "group" group)));
  mret (visibleGroupAssignment identity <$> assignment).

(** ** Fetching and committing under a lease *)

(** The lease check and the name of the consumer that keeps the offsets. *)
Definition leaseOf (nowMS : Z) (identity : Identity) (group memberID : string) (generation : Z) (topic : string) (partition : Z)
    : BM string :=
  let scopedGroup := scopedName identity "group" group in
  _ ← reads (fun b => of_store (validateConsumerGroupLease nowMS (b_store b) scopedGroup memberID generation
                                  (NewTopicPartition (scopedTopicName identity topic) partition)));
  mret scopedGroup.

Definition recordConsumerGroupPoll (pollAt now : Z) (scopedGroup memberID : string) : BM unit :=
  _ ← calls (fun s => applyPollGroup now s (mkPollGroupCommand scopedGroup memberID pollAt));
  mret tt.

Definition FetchConsumerGroupWithIsolation (leaseNow pollAt pollNow : Z) (ctx : Identity) (group memberID : string) (generation : Z)
    (topic : string) (partition : Z) (offset : option Z) (maxRecords : Z) (isolation : string) : BM PollResult :=
  let identity := identity_of cfg ctx in
  _ ← authorizes identity ACLActionConsume (groupResource identity group);
  scopedGroup ← leaseOf leaseNow identity group memberID generation topic partition;
  poll ← reads (fun b => fetchWithIsolationScoped b (groupConsumer scopedGroup) (scopedTopicName identity topic) partition offset
                           maxRecords isolation);
  _ ← recordConsumerGroupPoll pollAt pollNow scopedGroup memberID;
  mret poll.

Definition CommitConsumerGroupOffsetWithMetadata (leaseNow updatedAt now : Z) (ctx : Identity) (group memberID : string)
    (generation : Z) (topic : string) (partition nextOffset : Z) (metadata : string) : BM unit :=
  let identity := identity_of cfg ctx in
  _ ← authorizes identity ACLActionCommit (groupResource identity group);
  scopedGroup ← leaseOf leaseNow identity group memberID generation topic partition;
  routeCommitOffset now (mkCommitOffsetCommand (groupConsumer scopedGroup) (scopedTopicName identity topic) partition nextOffset
                           None metadata updatedAt).

Definition visibleGroupOffsetState (identity : Identity) (state : option ConsumerOffsetState) : option ConsumerOffsetState :=
  (fun out => renameOffsetState
                (match CutPrefix (cos_Consumer out) "__group_offset/" with
                 | Some group => visibleName identity "group" group
                 | None => cos_Consumer out
                 end) (visibleTopicName identity (cos_Topic out)) out) <$> state.

Definition ConsumerGroupCommittedOffset (ctx : Identity) (group topic : string) (partition : Z) : BM (option ConsumerOffsetState) :=
  let identity := identity_of cfg ctx in
  _ ← authorizes identity ACLActionDescribe (groupResource identity group);
  state ← reads (fun b => of_store (LoadConsumerOffsetState (b_store b) (groupConsumer (scopedName identity "group" group))
                                      (NewTopicPartition (scopedTopicName identity topic) partition)));
  mret (visibleGroupOffsetState identity state).

Definition setConsumerGroupPause (leaseNow now : Z) (ctx : Identity) (group memberID : string) (generation : Z) (topic : string)
    (partition : Z) (paused : bool) : BM PauseResult :=
  let identity := identity_of cfg ctx in
  _ ← authorizes identity ACLActionCommit (groupResource identity group);
  scopedGroup ← leaseOf leaseNow identity group memberID generation topic partition;
  result ← setPauseScoped now (groupConsumer scopedGroup) (scopedTopicName identity topic) partition paused;
  mret (visiblePauseResult identity result).

Definition SeekConsumerGroupOffset (leaseNow now : Z) (ctx : Identity) (group memberID : string) (generation : Z) (topic : string)
    (partition offset : Z) : BM SeekResult :=
  let identity := identity_of cfg ctx in
  _ ← authorizes identity ACLActionCommit (groupResource identity group);
  scopedGroup ← leaseOf leaseNow identity group memberID generation topic partition;
  result ← seekOffsetScoped now (groupConsumer scopedGroup) (scopedTopicName identity topic) partition offset;
  mret (visibleSeekResult identity result).

Definition SeekConsumerGroupTimestamp (leaseNow now : Z) (ctx : Identity) (group memberID : string) (generation : Z) (topic : string)
    (partition timestampMS : Z) : BM SeekResult :=
  let identity := identity_of cfg ctx in
  _ ← authorizes identity ACLActionCommit (groupResource identity group);
  scopedGroup ← leaseOf leaseNow identity group memberID generation topic partition;
  result ← seekTimestampScoped now (groupConsumer scopedGroup) (scopedTopicName identity topic) partition timestampMS;
  mret (visibleSeekResult identity result).

(** ** Transactions *)

Definition BeginTransaction (markers : nat -> nat -> Z) (now : Z) (ctx : Identity) (transactionalID : string) (timeoutMS : Z)
    : BM TransactionBeginResult :=
  let identity := identity_of cfg ctx in
  let transactionalID := TrimSpace transactionalID in
  _ ← authorizes identity ACLActionTransact (txResource identity transactionalID);
  applyTxBegin markers now (mkTxBeginCommand (scopedName identity "tx" transactionalID) timeoutMS).

Definition selectTransactionPartitionFromTopic (topic : TopicConfig) (partitioning : PublishPartitioning) (records : list RecordAppend)
    : BM Z :=
  partitioning ← pure (resolveTopicOrderingPartitioning topic partitioning records);
  (fun b => let '(cursors, r) := selectPartition (b_cursors b) topic partitioning (firstRecordKey records) in
            (set_cursors cursors b, r)) : BM Z.

Definition PublishTransactionalRecord (allowN : string -> Z -> bool) (markers now : nat -> Z) (ctx : Identity)
    (identity : TransactionIdentity) (sequence : Z) (topic : string) (partitioning : PublishPartitioning) (record : RecordAppend)
    : BM TransactionPublishResult :=
  let scope := identity_of cfg ctx in
  _ ← authorizes scope ACLActionProduce (topicResource scope topic);
  _ ← serviceProduceQuota cfg allowN scope topic 1 (len (ra_Payload record)) (RecordAppendStorageBytes record);
  let record := applyPartitioningRoutingKey record partitioning in
  let scopedTopic := scopedTopicName scope topic in
  topicConfig ← reads (fun b => loadTopicConfig b scopedTopic);
  record ← pure (normalizeRecordPriority topicConfig record);
  partition ← selectTransactionPartitionFromTopic topicConfig partitioning [record];
  applyTxPublish markers now (mkTxPublishCommand identity sequence scopedTopic partition record).

Definition PublishTransactionalBatch (allowN : string -> Z -> bool) (markers clock now : nat -> Z) (ctx : Identity)
    (identity : TransactionIdentity) (baseSequence : Z) (topic : string) (partitioning : PublishPartitioning)
    (records : list RecordAppend) : BM TransactionPublishBatchResult :=
  let scope := identity_of cfg ctx in
  _ ← authorizes scope ACLActionProduce (topicResource scope topic);
  _ ← serviceProduceQuota cfg allowN scope topic (len records) (batchPayloadBytes records) (batchStorageBytes records);
  let copied := (fun record => applyPartitioningRoutingKey record partitioning) <$> records in
  let scopedTopic := scopedTopicName scope topic in
  topicConfig ← reads (fun b => loadTopicConfig b scopedTopic);
  normalized ← pure (normalizeRecordsPriority topicConfig copied);
  partition ← selectTransactionPartitionFromTopic topicConfig partitioning normalized;
  applyTxPublishBatch markers clock now (mkTxPublishBatchCommand identity baseSequence scopedTopic partition normalized).

Definition scopedTransactionOffsetConsumer (identity : Identity) (consumer : string) : string :=
  if decide (consumer = "") then "" else scopedName identity "consumer" consumer.

Definition scopedTransactionOffsetGroup (leaseNow : Z) (identity : Identity) (offset : TransactionOffsetCommit) : BM string :=
  if decide (toc_Group offset = "") then mret ""
  else
    _ ← authorizes identity ACLActionCommit (groupResource identity (toc_Group offset));
    leaseOf leaseNow identity (toc_Group offset) (toc_MemberID offset) (toc_Generation offset) (toc_Topic offset) (toc_Partition offset).

Definition CommitTransactionOffset (leaseNow : Z) (markers now : nat -> Z) (ctx : Identity) (identity : TransactionIdentity)
    (offset : TransactionOffsetCommit) : BM (Z * TransactionOffsetCommit) :=
  let scope := identity_of cfg ctx in
  _ ← authorizes scope ACLActionCommit (topicResource scope (toc_Topic offset));
  scopedGroup ← scopedTransactionOffsetGroup leaseNow scope offset;
  applyTxCommitOffset markers now
    (mkTxCommitOffsetCommand identity
       (mkTransactionOffsetCommit (scopedTransactionOffsetConsumer scope (toc_Consumer offset)) scopedGroup (toc_MemberID offset)
          (toc_Generation offset) (scopedTopicName scope (toc_Topic offset)) (toc_Partition offset) (toc_NextOffset offset)
          (toc_Metadata offset))).

(** The resource has no name, and the transaction is not looked up in the
    scope of the tenant. *)
Definition anyTransaction : ACLResource := mkACLResource "transactional_id" "" "" "".

Definition CommitTransaction (markers offsetTimes now : nat -> Z) (ctx : Identity) (identity : TransactionIdentity)
    : BM (Z * string) :=
  _ ← authorizes (identity_of cfg ctx) ACLActionTransact anyTransaction;
  applyTxCommit markers offsetTimes now identity.

Definition AbortTransaction (markers now : nat -> Z) (ctx : Identity) (identity : TransactionIdentity) : BM (Z * string) :=
  _ ← authorizes (identity_of cfg ctx) ACLActionTransact anyTransaction;
  applyTxAbort markers now identity.

End ServiceGroups.
