(* ===== verification/ServiceRedelivery.v ===== *)
(** * Operations on retries, delays, dead letters and poisonous messages

    The operations of [src/broker/retry.go], [delay.go], [dlq.go],
    [dlq_replay.go] and [poison.go] that clients call, over the handlers of
    [Redelivery] and [DeadLetters]; and the passes of the workers over the
    topics. *)

From stdpp Require Import prelude gmap strings sorting list.
From S2P Require Import Prelude Model MemoryStore MetaStore Queue Idempotency Headers Produce GoStrings Governance Handlers.
From S2P Require Import DeadLetters Redelivery Acks Transactions Service.

#[local] Open Scope Z_scope.

Section ServiceRedelivery.
Context `{MapRange} `{Hash64} `{BackOff} (cfg : GovernanceConfig).

(** ** Retries *)

Definition Nack (now stamp : Z) (ctx : Identity) (consumer topic : string) (partition offset : Z) (lastError : option string)
    : BM RetryResult :=
  let identity := identity_of cfg ctx in
  _ ← authorizes identity ACLActionCommit (topicResource identity topic);
  result ← applyNack now stamp (mkNackCommand (scopedName identity "consumer" consumer) (scopedTopicName identity topic) partition
                                  offset lastError);
  mret (mkRetryResult (visibleTopicName identity (rr_RetryTopic result)) (rr_RetryPartition result) (rr_RetryOffset result)
          (rr_RetryNextOffset result) (rr_RetryCount result) (rr_DeliverAtMS result)).

(** No policy is asked. *)
Definition ProcessRetryBatch (now stamps : nat -> Z) (nowMS : Z) (ctx : Identity) (consumer sourceTopic : string)
    (partition maxRecords : Z) : BM ProcessRetryResult :=
  let identity := identity_of cfg ctx in
  result ← applyProcessRetryBatch now stamps
             (mkProcessRetryCommand (scopedName identity "consumer" consumer) (scopedTopicName identity sourceTopic) partition
                maxRecords nowMS);
  mret (mkProcessRetryResult (visibleTopicName identity (prr_RetryTopic result)) (prr_Partition result) (prr_MovedToOrigin result)
          (prr_MovedToDeadLetter result) (prr_CommittedNextOffset result)).

(** [fmt.Sprintf("%s:%s:%d", consumerPrefix, topic, partition)] *)
Definition workerConsumer (consumerPrefix topic : string) (partition : Z) : string :=
  (consumerPrefix +:+ ":" +:+ topic +:+ ":" +:+ fmt_d partition)%string.

(** The loop of the retry worker over the partitions of a topic: the records
    it has moved, and the error that stopped it. *)
Fixpoint retryPartitions (now stamps : nat -> nat -> Z) (nowMS : nat -> Z) (topic consumerPrefix : string)
    (maxRecords moved : Z) (partitions : list Z) (b : Broker) : Broker * (Z * option BrokerError) :=
  match partitions with
  | [] => (b, (moved, None))
  | partition :: partitions =>
      match applyProcessRetryBatch (now O) (stamps O)
              (mkProcessRetryCommand (workerConsumer consumerPrefix topic partition) topic partition maxRecords (nowMS O)) b with
      | (b, Err e) => (b, (moved, Some e))
      | (b, Ok result) =>
          retryPartitions (fun i => now (S i)) (fun i => stamps (S i)) (fun i => nowMS (S i)) topic consumerPrefix maxRecords
            (moved + (prr_MovedToOrigin result + prr_MovedToDeadLetter result)) partitions b
      end
  end.

Definition processRetryTopic (now stamps : nat -> nat -> Z) (nowMS : nat -> Z) (topic : TopicConfig) (consumerPrefix : string)
    (maxRecords : Z) (b : Broker) : Broker * (Z * option BrokerError) :=
  if isInternalTopicName (tc_Name topic) then (b, (0, None))
  else
    match of_store (TopicExists (b_store b) (retryTopicName (tc_Name topic))) with
    | Err e => (b, (0, Some e))
    | Ok false => (b, (0, None))
    | Ok true =>
        retryPartitions now stamps nowMS (tc_Name topic) consumerPrefix maxRecords 0 (seqZ 0 (tc_Partitions topic)) b
    end.

(** ** Delays *)

Definition ScheduleDelay (allowN : string -> Z -> bool) (stamp : Z) (ctx : Identity) (topic : string) (partition : Z)
    (payload : bytes) (deliverAtMS : Z) : BM DelayScheduleResult :=
  let identity := identity_of cfg ctx in
  _ ← authorizes identity ACLActionProduce (topicResource identity topic);
  _ ← serviceProduceQuota cfg allowN identity topic 1 (len payload) (RecordAppendStorageBytes (NewRecordAppend payload));
  result ← applyScheduleDelay stamp (mkScheduleDelayCommand (scopedTopicName identity topic) partition payload deliverAtMS);
  mret (mkDelayScheduleResult (visibleTopicName identity (ds_DelayTopic result)) (ds_Partition result) (ds_Offset result)
          (ds_NextOffset result) (ds_DeliverAtMS result)).

Fixpoint delayPartitions (now stamps : nat -> nat -> Z) (topic defaultTarget consumerPrefix : string) (maxRecords nowMS moved : Z)
    (partitions : list Z) (b : Broker) : Broker * (Z * option BrokerError) :=
  match partitions with
  | [] => (b, (moved, None))
  | partition :: partitions =>
      match applyProcessDelayPartition (now O) (stamps O)
              (mkProcessDelayCommand (workerConsumer consumerPrefix topic partition) topic defaultTarget partition maxRecords nowMS) b with
      | (b, (_, Some e)) => (b, (moved, Some e))
      | (b, (n, None)) =>
          delayPartitions (fun i => now (S i)) (fun i => stamps (S i)) topic defaultTarget consumerPrefix maxRecords nowMS
            (moved + n) partitions b
      end
  end.

Definition processDelayTopic (now stamps : nat -> nat -> Z) (topic : TopicConfig) (consumerPrefix : string)
    (maxRecords nowMS : Z) (b : Broker) : Broker * (Z * option BrokerError) :=
  if negb (isDelayTopicName (tc_Name topic)) then (b, (0, None))
  else
    delayPartitions now stamps (tc_Name topic) (TrimPrefix (tc_Name topic) (internalDelayTopicPrefix +:+ ".")) consumerPrefix
      maxRecords nowMS 0 (seqZ 0 (tc_Partitions topic)) b.

(** ** Dead letters *)

Definition renameDLQRecord (identity : Identity) (record : DLQRecord) : DLQRecord :=
  {| dr_DLQTopic := visibleTopicName identity (dr_DLQTopic record); dr_DLQPartition := dr_DLQPartition record;
     dr_DLQOffset := dr_DLQOffset record; dr_DLQNextOffset := dr_DLQNextOffset record; dr_TimestampMS := dr_TimestampMS record;
     dr_Key := dr_Key record; dr_Headers := dr_Headers record; dr_Payload := dr_Payload record;
     dr_OriginalTopic := visibleTopicName identity (dr_OriginalTopic record);
     dr_OriginalPartition := dr_OriginalPartition record; dr_OriginalOffset := dr_OriginalOffset record;
     dr_RetryCount := dr_RetryCount record; dr_ErrorCode := dr_ErrorCode record; dr_ErrorMessage := dr_ErrorMessage record |}.

Definition prepareDLQQuery (ctx : Identity) (query : DLQQuery) : BM (Identity * string * Z) :=
  if decide (dq_SourceTopic query = "") then fail (StoreError CodeInvalidArgument)
  else
    let identity := identity_of cfg ctx in
    _ ← authorizes identity ACLActionConsume (topicResource identity (dq_SourceTopic query));
    reads (fun b => Ok (identity, scopedTopicName identity (dq_SourceTopic query), clampMaxRecords b (dq_MaxRecords query))).

Definition QueryDLQ (ctx : Identity) (query : DLQQuery) : BM DLQQueryResult :=
  '(identity, scopedSource, limit) ← prepareDLQQuery ctx query;
  dlqTopic ← reads (fun b => dlqTopicForSource b scopedSource);
  result ← queryDLQScoped dlqTopic scopedSource query limit;
  mret (mkDLQQueryResult (visibleTopicName identity (dqr_DLQTopic result)) (dqr_Partition result) (dqr_Offset result)
          (dqr_NextOffset result) (dqr_HasMore result) (dqr_HighWatermark result) (renameDLQRecord identity <$> dqr_Records result)).

Record DLQReplayResult := mkDLQReplayResult {
  drr_DLQTopic : string; drr_DLQPartition : Z; drr_DLQOffset : Z; drr_Topic : string; drr_Partition : Z; drr_Offset : Z;
  drr_NextOffset : Z }.

Definition ReplayDLQ (allowN : string -> Z -> bool) (clock : nat -> Z) (nowMS : Z) (ctx : Identity) (sourceTopic : string)
    (partition offset : Z) : BM DLQReplayResult :=
  let identity := identity_of cfg ctx in
  _ ← authorizes identity ACLActionConsume (topicResource identity sourceTopic);
  _ ← authorizes identity ACLActionProduce (topicResource identity sourceTopic);
  let scopedSource := scopedTopicName identity sourceTopic in
  dlqTopic ← reads (fun b => dlqTopicForSource b scopedSource);
  record ← readRecordAtOffset (NewTopicPartition dlqTopic partition) offset;
  dlqRecord ← pure (dlqRecordFromStore dlqTopic partition record);
  if decide (dr_OriginalTopic dlqRecord <> scopedSource) then fail (StoreError CodeInvalidArgument)
  else
    produced ← PublishRecord cfg allowN clock nowMS ctx (visibleTopicName identity (dr_OriginalTopic dlqRecord))
                 (mkPublishPartitioning PartitionExplicit (dr_OriginalPartition dlqRecord) "") (dlqReplayAppend record);
    mret (mkDLQReplayResult (visibleTopicName identity dlqTopic) partition offset
            (visibleTopicName identity (dr_OriginalTopic dlqRecord)) (por_Partition produced) (r_Offset (por_Record produced))
            (u64 (r_Offset (por_Record produced) + 1))).

Record DLQBulkReplayResult := mkDLQBulkReplayResult {
  dbr_DLQTopic : string; dbr_Partition : Z; dbr_Replayed : list DLQReplayResult; dbr_NextOffset : Z; dbr_HasMore : bool }.

Fixpoint replayRecords (allowN : nat -> string -> Z -> bool) (clock : nat -> nat -> Z) (nowMS : nat -> Z) (ctx : Identity)
    (sourceTopic : string) (records : list DLQRecord) : BM (list DLQReplayResult) :=
  match records with
  | [] => mret []
  | record :: records =>
      item ← ReplayDLQ (allowN O) (clock O) (nowMS O) ctx sourceTopic (dr_DLQPartition record) (dr_DLQOffset record);
      rest ← replayRecords (fun i => allowN (S i)) (fun i => clock (S i)) (fun i => nowMS (S i)) ctx sourceTopic records;
      mret (item :: rest)
  end.

Definition ReplayDLQQuery (allowN : nat -> string -> Z -> bool) (clock : nat -> nat -> Z) (nowMS : nat -> Z) (ctx : Identity)
    (query : DLQQuery) : BM DLQBulkReplayResult :=
  result ← QueryDLQ ctx query;
  replayed ← replayRecords allowN clock nowMS ctx (dq_SourceTopic query) (dqr_Records result);
  mret (mkDLQBulkReplayResult (dqr_DLQTopic result) (dqr_Partition result) replayed (dqr_NextOffset result) (dqr_HasMore result)).

(** ** Poisonous messages *)

Record PoisonMessageResult := mkPoisonMessageResult {
  pmr_Topic : string; pmr_Partition : Z; pmr_Offset : Z; pmr_NextOffset : Z; pmr_Record : option Rec;
  pmr_DeadLetter : option DLQRecord; pmr_Committed : bool; pmr_CommittedNext : option Z; pmr_ReplayResult : option DLQReplayResult }.

Definition InspectPoisonMessage (ctx : Identity) (topic : string) (partition offset : Z) : BM PoisonMessageResult :=
  let identity := identity_of cfg ctx in
  _ ← authorizes identity ACLActionConsume (topicResource identity topic);
  record ← readRecordAtOffset (NewTopicPartition (scopedTopicName identity topic) partition) offset;
  mret (mkPoisonMessageResult topic partition offset (u64 (offset + 1)) (Some record) None false None None).

Definition SkipPoisonMessage (updatedAt now : Z) (ctx : Identity) (consumer topic : string) (partition offset : Z)
    : BM PoisonMessageResult :=
  let nextOffset := u64 (offset + 1) in
  _ ← CommitOffset cfg updatedAt now ctx consumer topic partition nextOffset;
  mret (mkPoisonMessageResult topic partition offset nextOffset None None true (Some nextOffset) None).

Definition IsolatePoisonMessage (updatedAt now stamp : Z) (ctx : Identity) (consumer topic : string) (partition offset : Z)
    (reason : string) : BM PoisonMessageResult :=
  let identity := identity_of cfg ctx in
  _ ← authorizes identity ACLActionConsume (topicResource identity topic);
  _ ← authorizes identity ACLActionCommit (topicResource identity topic);
  let scopedTopic := scopedTopicName identity topic in
  record ← readRecordAtOffset (NewTopicPartition scopedTopic partition) offset;
  deadLetter ← isolatePoisonRecord stamp scopedTopic partition record reason;
  let nextOffset := u64 (offset + 1) in
  _ ← CommitOffset cfg updatedAt now ctx consumer topic partition nextOffset;
  mret (mkPoisonMessageResult topic partition offset nextOffset None (Some (renameDLQRecord identity deadLetter)) true
          (Some nextOffset) None).

Definition ReplayPoisonMessage (allowN : string -> Z -> bool) (clock : nat -> Z) (nowMS : Z) (ctx : Identity)
    (sourceTopic : string) (dlqPartition dlqOffset : Z) : BM PoisonMessageResult :=
  result ← ReplayDLQ allowN clock nowMS ctx sourceTopic dlqPartition dlqOffset;
  mret (mkPoisonMessageResult (drr_Topic result) (drr_Partition result) (drr_Offset result) (drr_NextOffset result) None None false
          None (Some result)).

End ServiceRedelivery.
