(* ===== verification/ServiceSpec.v ===== *)
(** * Requests stay in the scope of their tenant

    The operations of [Service] and [ServiceRedelivery] as
    steps of the broker, and what a tenant keeps whatever the others request;
    the offset a seek to a time finds. *)

From stdpp Require Import prelude gmap strings sorting list.
From S2P Require Import Prelude Model MemoryStore LogSpec MetaStore MetaSpec Queue Idempotency Headers Produce GoStrings Governance.
From S2P Require Import GovernanceSpec ProduceSpec Handlers HandlerSpec DeadLetters Redelivery Acks Transactions Groups FrameSpec.
From S2P Require Import Service ServiceRedelivery.

#[local] Open Scope Z_scope.

(** ** What a tenant owns *)

(** Two scopes, neither of them the default one. *)
Definition foreign (i1 i2 : Identity) : Prop :=
  defaultScope (normalizeIdentity i1) = false /\ defaultScope (normalizeIdentity i2) = false /\
  (id_Tenant (normalizeIdentity i1), id_Namespace (normalizeIdentity i1)) <>
  (id_Tenant (normalizeIdentity i2), id_Namespace (normalizeIdentity i2)).

#[export] Instance foreign_dec i1 i2 : Decision (foreign i1 i2).
Proof. unfold foreign. apply _. Defined.

Definition owned_topic (i : Identity) (n : string) : Prop := exists name, n = scopedTopicName i name.

(** The keys under which the offsets of the consumers and groups are kept. *)
Definition owned_key (i : Identity) (k : string) : Prop :=
  exists name tp, k = offsetKey (scopedName i "consumer" name) tp \/ k = offsetKey (groupConsumer (scopedName i "group" name)) tp.

Lemma scopedName_norm i kind name : scopedName i kind name = scopedName (normalizeIdentity i) kind name.
Proof. unfold scopedName. cbn zeta. by rewrite normalizeIdentity_idemp. Qed.

Section Foreign.
Context (i1 i2 : Identity) (Hf : foreign i1 i2).

Lemma topic_not_owned n : ~ owned_topic i2 (scopedTopicName i1 n).
Proof using Hf.
  destruct Hf as (H1 & H2 & Hne). intros [m E]. destruct (scopedTopicName_scope i1 i2 n m H1 H2 E). congruence.
Qed.

Lemma scoped_not_empty n : scopedTopicName i2 n <> "".
Proof using Hf.
  destruct Hf as (_ & H2 & _). unfold scopedTopicName. cbn zeta. rewrite H2.
  destruct (splitAuxTopicName (TrimSpace n)) as [[p s]|] eqn:E; rewrite scopedName_eq by done.
  - apply splitAux_Some in E as [_ Hp]. intros E. assert (splitAuxTopicName "" = None) as En by done.
    rewrite <- E, splitAux_app in En by done. done.
  - done.
Qed.

Lemma empty_not_owned : ~ owned_topic i2 "".
Proof using Hf. intros [n E]. by eapply scoped_not_empty. Qed.

Lemma delay_not_owned n : ~ owned_topic i2 (delayTopicName (scopedTopicName i1 n)).
Proof using Hf.
  destruct Hf as (H1 & H2 & Hne). intros [m E]. unfold delayTopicName in E.
  assert (splitAuxTopicName (scopedTopicName i2 m) = Some (internalDelayTopicPrefix, scopedTopicName i1 n)) as Es.
  { rewrite <- E. apply splitAux_app. right. by left. }
  unfold scopedTopicName at 1 in Es. cbn zeta in Es. rewrite H2 in Es.
  destruct (splitAuxTopicName (TrimSpace m)) as [[p s]|] eqn:Em; rewrite scopedName_eq in Es by done; [|by rewrite scoped_not_aux in Es].
  apply splitAux_Some in Em as [_ Hp]. rewrite splitAux_app in Es by done. apply (inj Some), (f_equal snd) in Es. cbn [snd] in Es.
  unfold scopedTopicName in Es. cbn zeta in Es. rewrite H1 in Es.
  destruct (splitAuxTopicName (TrimSpace n)) as [[q t]|] eqn:En; rewrite scopedName_eq in Es by done.
  - apply splitAux_Some in En as [_ Hq]. apply (f_equal splitAuxTopicName) in Es. by rewrite splitAux_app, scoped_not_aux in Es.
  - apply scopePrefix_inj in Es as (? & ? & _). congruence.
Qed.

(** A key of a consumer starts with the scope of its tenant, whatever follows. *)
Lemma consumer_key_not_owned name tp : ~ owned_key i2 (offsetKey (scopedName i1 "consumer" name) tp).
Proof using Hf.
  destruct Hf as (H1 & H2 & Hne). intros (name' & tp' & [E|E]); unfold offsetKey in E;
    rewrite scopedName_norm, scopedName_eq in E by done; [rewrite scopedName_norm, scopedName_eq in E by done|done].
  rewrite !string_app_assoc in E. apply scopePrefix_inj in E as (? & ? & _). congruence.
Qed.

Lemma group_key_not_owned name tp : ~ owned_key i2 (offsetKey (groupConsumer (scopedName i1 "group" name)) tp).
Proof using Hf.
  destruct Hf as (H1 & H2 & Hne). intros (name' & tp' & [E|E]); unfold offsetKey, groupConsumer in E;
    [rewrite (scopedName_norm i2), (scopedName_eq i2) in E by done; done|].
  rewrite (scopedName_norm i1), (scopedName_eq i1), (scopedName_norm i2), (scopedName_eq i2), !string_app_assoc in E by done.
  apply (f_equal String.list_ascii_of_string) in E. rewrite !chars_app in E. apply app_inv_head in E.
  rewrite <- !chars_app in E. apply chars_inj in E. apply scopePrefix_inj in E as (? & ? & _). congruence.
Qed.
End Foreign.

(** ** Requests *)

Section Requests.
Context `{MapRange} `{Hash64} (cfg : GovernanceConfig).

(** One request in a context, answered or refused: the broker before and
    after. *)
Inductive serves (ctx : Identity) : Broker -> Broker -> Prop :=
| serve_create allowN topic b :
    serves ctx b (CreateTopic cfg allowN ctx topic b).1
| serve_publish allowN clock nowMS topic partitioning record b :
    serves ctx b (PublishRecord cfg allowN clock nowMS ctx topic partitioning record b).1
| serve_batch allowN clock nowMS topic partitioning records b :
    serves ctx b (PublishBatch cfg allowN clock nowMS ctx topic partitioning records b).1
| serve_idempotent allowN clock nowMS topic partitioning records idempotency b :
    serves ctx b (PublishBatchIdempotent cfg allowN clock nowMS ctx topic partitioning records idempotency b).1
| serve_batches allowN clock nowMS ctxErr requests b :
    serves ctx b (publishBatches cfg allowN clock nowMS ctxErr ctx requests b).1
| serve_fanout allowN clock nowMS ctxErr topic record b :
    serves ctx b (PublishFanoutRecord cfg allowN clock nowMS ctxErr ctx topic record b).1
| serve_delay allowN stamp topic partition payload deliverAtMS b :
    serves ctx b (ScheduleDelay cfg allowN stamp ctx topic partition payload deliverAtMS b).1
| serve_replay allowN clock nowMS topic partition offset b :
    serves ctx b (ReplayDLQ cfg allowN clock nowMS ctx topic partition offset b).1
| serve_commit updatedAt now consumer topic partition nextOffset metadata b :
    serves ctx b (CommitOffsetWithMetadata cfg updatedAt now ctx consumer topic partition nextOffset metadata b).1
| serve_ack updatedAt now consumer topic partition offset metadata b :
    serves ctx b (AckRecordWithMetadata cfg updatedAt now ctx consumer topic partition offset metadata b).1
| serve_seek now consumer topic partition offset b :
    serves ctx b (SeekOffset cfg now ctx consumer topic partition offset b).1
| serve_seek_time now consumer topic partition timestampMS b :
    serves ctx b (SeekTimestamp cfg now ctx consumer topic partition timestampMS b).1
| serve_pause now consumer topic partition paused b :
    serves ctx b (setConsumerPause cfg now ctx consumer topic partition paused b).1
| serve_join now group memberID topics sessionTimeoutMS maxPollIntervalMS b :
    serves ctx b (JoinConsumerGroupWithOptions cfg now ctx group memberID topics sessionTimeoutMS maxPollIntervalMS b).1
| serve_heartbeat now group memberID sessionTimeoutMS maxPollIntervalMS b :
    serves ctx b (HeartbeatConsumerGroupWithOptions cfg now ctx group memberID sessionTimeoutMS maxPollIntervalMS b).1
| serve_group_fetch leaseNow pollAt pollNow group memberID generation topic partition offset maxRecords isolation b :
    serves ctx b (FetchConsumerGroupWithIsolation cfg leaseNow pollAt pollNow ctx group memberID generation topic partition offset
                    maxRecords isolation b).1
| serve_group_commit leaseNow updatedAt now group memberID generation topic partition nextOffset metadata b :
    serves ctx b (CommitConsumerGroupOffsetWithMetadata cfg leaseNow updatedAt now ctx group memberID generation topic partition
                    nextOffset metadata b).1
| serve_group_pause leaseNow now group memberID generation topic partition paused b :
    serves ctx b (setConsumerGroupPause cfg leaseNow now ctx group memberID generation topic partition paused b).1
| serve_group_seek leaseNow now group memberID generation topic partition offset b :
    serves ctx b (SeekConsumerGroupOffset cfg leaseNow now ctx group memberID generation topic partition offset b).1
| serve_group_seek_time leaseNow now group memberID generation topic partition timestampMS b :
    serves ctx b (SeekConsumerGroupTimestamp cfg leaseNow now ctx group memberID generation topic partition timestampMS b).1.

(** *** The frames of the operations *)

Section Frames.
Context (i1 i2 : Identity) (Hf : foreign i1 i2).
Abbreviation T := (owned_topic i2).
Abbreviation K := (owned_key i2).
Abbreviation kept := (frame T K).

#[local] Hint Resolve topic_not_owned empty_not_owned delay_not_owned consumer_key_not_owned group_key_not_owned : frame.
#[local] Hint Extern 0 (foreign _ _) => exact Hf : frame.

Lemma frame_authorizes identity action resource : kept (authorizes identity action resource).
Proof using Type. apply frame_reads. Qed.

Lemma frame_checkQuota allowN req : kept (checkQuota cfg allowN req).
Proof using Type. apply frame_pure. Qed.

Lemma frame_produceQuota allowN identity topic records payloadBytes storageBytes :
  kept (serviceProduceQuota cfg allowN identity topic records payloadBytes storageBytes).
Proof using Type. unfold serviceProduceQuota, populateStorageQuotaUsage. solve_frame. Qed.

#[local] Hint Resolve frame_authorizes frame_checkQuota frame_produceQuota : frame.

Lemma frame_publishRecordScoped clock nowMS topic partitioning record :
  ~ T topic -> kept (publishRecordScoped clock nowMS topic partitioning record).
Proof using Type. intros Hn. by apply frame_applyProduce. Qed.

Lemma frame_publishBatchScoped clock nowMS topic partitioning records :
  ~ T topic -> kept (publishBatchScoped clock nowMS topic partitioning records).
Proof using Type. intros Hn. by apply frame_applyProduceBatch. Qed.

Lemma frame_publishBatchScopedIdempotent clock nowMS topic partitioning records idempotency :
  ~ T topic -> kept (publishBatchScopedIdempotent clock nowMS topic partitioning records idempotency).
Proof using Type. intros Hn. by apply frame_applyProduceBatch. Qed.

Lemma frame_routeCommitOffset now req :
  ~ K (offsetKey (coc_Consumer req) (NewTopicPartition (coc_Topic req) (coc_Partition req))) -> kept (routeCommitOffset now req).
Proof using Type. intros Hk. apply frame_calls. intros s. by apply keeps_applyCommitOffset. Qed.

(** What follows a lease check runs with the scoped name of the group. *)
Lemma frame_leaseOf {A} nowMS identity group memberID generation topic partition (k : string -> BM A) :
  kept (k (scopedName identity "group" group)) -> kept (leaseOf nowMS identity group memberID generation topic partition ≫= k).
Proof using Type.
  intros Hk b. unfold leaseOf, reads, mbind, BM_bind, mret, BM_ret.
  destruct (validateConsumerGroupLease _ _ _ _ _ _) as [[]|]; [apply Hk|done].
Qed.

Lemma frame_seekOffsetScoped now consumer topic partition offset :
  (forall tp, ~ K (offsetKey consumer tp)) -> kept (seekOffsetScoped now consumer topic partition offset).
Proof using Type. intros Hk. unfold seekOffsetScoped. solve_frame. Qed.

Lemma frame_seekTimestampScoped now consumer topic partition timestampMS :
  (forall tp, ~ K (offsetKey consumer tp)) -> kept (seekTimestampScoped now consumer topic partition timestampMS).
Proof using Type. intros Hk. unfold seekTimestampScoped. solve_frame. by apply frame_seekOffsetScoped. Qed.

Lemma frame_setPauseScoped now consumer topic partition paused : kept (setPauseScoped now consumer topic partition paused).
Proof using Type. unfold setPauseScoped, applyConsumerPause. solve_frame. Qed.

#[local] Hint Resolve frame_publishRecordScoped frame_publishBatchScoped frame_publishBatchScopedIdempotent frame_routeCommitOffset : frame.
#[local] Hint Resolve frame_seekOffsetScoped frame_seekTimestampScoped frame_setPauseScoped : frame.

Lemma frame_ensureAuxTopic source aux : ~ T aux -> kept (ensureAuxTopic source aux).
Proof using Type.
  intros Hn. unfold ensureAuxTopic. solve_frame.
  - apply frame_calls. intros s. by apply keeps_SaveTopicConfig.
  - intros b. unfold createTopicUnlessExists. pose proof (frame_calls T K (fun s => Queue.CreateTopic s (auxTopicConfig source aux))) as Hc.
    specialize (Hc ltac:(intros s; by apply keeps_CreateTopic) b).
    destruct (calls _ b) as [b1 [[]|[]]]; try done. by destruct code.
Qed.

Lemma frame_scopeTopics identity topics : kept (scopeTopics identity topics).
Proof using Type. induction topics; cbn [scopeTopics]; solve_frame. Qed.

#[local] Hint Resolve frame_scopeTopics : frame.

(** The requests of a batch stay in the scope, or have no topic. *)
Lemma scopeRequests_spec allowN requests b :
  kept (scopeRequests cfg allowN i1 requests) /\
  (forall b' scoped, scopeRequests cfg allowN i1 requests b = (b', Ok scoped) -> Forall (fun req => ~ T (pbc_Topic req)) scoped).
Proof using Hf.
  split.
  - induction requests as [|req requests IH] in allowN |- *; cbn [scopeRequests]; solve_frame.
  - induction requests as [|req requests IH] in allowN, b |- *; cbn [scopeRequests]; intros b' scoped E; [unfold mret, BM_ret in E; by simplify_eq|].
    unfold mbind, BM_bind, mret, BM_ret in E. destruct (decide (pbc_Topic req = "")) as [Ht|Ht].
    + destruct (scopeRequests _ _ _ _ b) as [b1 [rest|]] eqn:Er; simplify_eq.
      constructor; [by eapply empty_not_owned|by eapply IH].
    + repeat (case_match; simplify_eq). constructor; [by apply topic_not_owned|by eapply IH].
Qed.

#[local] Hint Resolve frame_ensureAuxTopic keeps_AppendRecord : frame.

Lemma frame_publishBatches allowN clock nowMS ctxErr ctx requests :
  identity_of cfg ctx = i1 -> kept (publishBatches cfg allowN clock nowMS ctxErr ctx requests).
Proof using Hf.
  intros Ei b. unfold publishBatches, mbind, BM_bind. rewrite Ei. destruct (scopeRequests_spec allowN requests b) as [Hk Ht].
  specialize (Hk b). destruct (scopeRequests cfg allowN i1 requests b) as [b1 [scoped|e]]; [|done].
  pose proof (keeps_applyProduceBatches T K clock nowMS ctxErr b1 scoped (empty_not_owned i1 i2 Hf) (Ht _ _ eq_refl)) as Hp.
  destruct (applyProduceBatches clock nowMS ctxErr b1 scoped). by etrans.
Qed.

Lemma frame_fanout allowN clock nowMS ctxErr ctx topic record :
  identity_of cfg ctx = i1 -> kept (PublishFanoutRecord cfg allowN clock nowMS ctxErr ctx topic record).
Proof using Hf.
  intros Ei. unfold PublishFanoutRecord. rewrite Ei. solve_frame. intros b.
  match goal with |- context [publishFanoutScoped ?c ?n ?e b ?t ?r ?p] =>
    pose proof (keeps_publishFanoutScoped T K c n e b t r p (empty_not_owned i1 i2 Hf) (topic_not_owned i1 i2 Hf topic)) as Hp;
    by destruct (publishFanoutScoped c n e b t r p) as [b1 [items err]] end.
Qed.

Lemma frame_publishRecord allowN clock nowMS ctx topic partitioning record :
  identity_of cfg ctx = i1 -> kept (PublishRecord cfg allowN clock nowMS ctx topic partitioning record).
Proof using Hf. intros Ei. unfold PublishRecord. rewrite Ei. solve_frame. Qed.

(** From a step to the frame of its operation. *)
Ltac as_frame Ei :=
  match goal with |- keeps _ _ (b_store ?b) (b_store (?m ?b).1) => revert b; change (kept m); rewrite ?Ei end;
  cbv zeta; repeat (apply frame_leaseOf || frame_step).

Lemma serves_keeps ctx b b' : identity_of cfg ctx = i1 -> serves ctx b b' -> keeps T K (b_store b) (b_store b').
Proof using Hf.
  intros Ei Hs. destruct Hs.
  - unfold CreateTopic. as_frame Ei. apply frame_applyCreateTopic. by apply topic_not_owned.
  - by apply frame_publishRecord.
  - unfold PublishBatch. as_frame Ei.
  - unfold PublishBatchIdempotent. as_frame Ei.
  - by apply frame_publishBatches.
  - by apply frame_fanout.
  - unfold ScheduleDelay, applyScheduleDelay. as_frame Ei.
  - unfold ReplayDLQ, readRecordAtOffset. as_frame Ei. all: by apply frame_publishRecord.
  - unfold CommitOffsetWithMetadata. as_frame Ei.
  - unfold AckRecordWithMetadata. as_frame Ei.
  - unfold SeekOffset. as_frame Ei.
  - unfold SeekTimestamp. as_frame Ei.
  - unfold setConsumerPause. as_frame Ei.
  - unfold JoinConsumerGroupWithOptions. as_frame Ei.
  - unfold HeartbeatConsumerGroupWithOptions. as_frame Ei.
  - unfold FetchConsumerGroupWithIsolation, recordConsumerGroupPoll. as_frame Ei.
  - unfold CommitConsumerGroupOffsetWithMetadata. as_frame Ei.
  - unfold setConsumerGroupPause. as_frame Ei.
  - unfold SeekConsumerGroupOffset. as_frame Ei.
  - unfold SeekConsumerGroupTimestamp. as_frame Ei.
Qed.
End Frames.
End Requests.

(** ** Seeking to a time *)

Section Timestamps.
Context (s : MemoryStore) (tp : TopicPartition) (t : Z).
Hypothesis Hinv : log_inv s.
Hypothesis Hvalid : validatePartitionLocked s tp = Ok tt.

#[local] Abbreviation from offset := (filter (fun r => offset <= r_Offset r) (recordsOf s tp)).

Lemma firstAtOrAfter_app l1 l2 : firstAtOrAfter (l1 ++ l2) t =
  match firstAtOrAfter l1 t with Some r => Some r | None => firstAtOrAfter l2 t end.
Proof. induction l1 as [|r l1 IH]; [done|]. cbn [firstAtOrAfter app]. destruct (t <=? r_TimestampMS r); [done|apply IH]. Qed.

Lemma firstAtOrAfter_spec l :
  match firstAtOrAfter l t with
  | Some r => exists l1 l2, l = l1 ++ r :: l2 /\ t <= r_TimestampMS r /\ Forall (fun x => r_TimestampMS x < t) l1
  | None => Forall (fun x => r_TimestampMS x < t) l
  end.
Proof.
  induction l as [|r l IH]; cbn [firstAtOrAfter]; [constructor|]. destruct (Z.leb_spec t (r_TimestampMS r)) as [Hle|Hgt].
  - by exists [], l.
  - destruct (firstAtOrAfter l t) as [x|]; [|by constructor].
    destruct IH as (l1 & l2 & -> & Hx & Hall). exists (r :: l1), l2. split_and!; [done|done|by constructor].
Qed.

Definition timestamp_answer (l : list Rec) : Z * option Z :=
  match firstAtOrAfter l t with Some r => (r_Offset r, Some (r_TimestampMS r)) | None => (nextOffsetOf s tp, None) end.

Lemma timestampScan_ok fuel cursor :
  (length (from cursor) < fuel)%nat ->
  timestampScan fuel s tp cursor (nextOffsetOf s tp) t = Ok (timestamp_answer (from cursor)).
Proof using Hinv Hvalid.
  revert cursor. induction fuel as [|fuel IH]; intros cursor Hfuel; [lia|]. cbn [timestampScan].
  destruct (Z.leb_spec (nextOffsetOf s tp) cursor) as [Hend|Hend].
  { unfold timestamp_answer. rewrite filter_none; [done|]. destruct (log_inv_recordsOf s tp Hinv) as [_ Hb%Forall_fmap].
    eapply Forall_impl; [done|]. simpl. lia. }
  rewrite ReadFrom_ok by done. cbn [of_store mbind result_bind]. remember (Z.to_nat minTimestampSeekScanBatch) as n eqn:En.
  assert (n = 100%nat) as Hn by done. clear En.
  destruct (decide (length (from cursor) = 0%nat)) as [E%length_zero_iff_nil|Hne].
  { unfold timestamp_answer. by rewrite E, take_nil. }
  destruct (take_drop_last (n `min` length (from cursor)) (from cursor)) as (l1 & r & Et & Elast & EF).
  { lia. }
  assert (take (n `min` length (from cursor)) (from cursor) = take n (from cursor)) as Ecut.
  { destruct (Nat.min_spec n (length (from cursor))) as [[_ ->]|[Hle ->]]; [done|]. rewrite !take_ge by lia. done. }
  rewrite Ecut in Elast, Et. rewrite Elast.
  assert (timestamp_answer (from cursor) = match firstAtOrAfter (take n (from cursor)) t with
            | Some r => (r_Offset r, Some (r_TimestampMS r)) | None => timestamp_answer (drop (n `min` length (from cursor)) (from cursor)) end) as ->.
  { rewrite EF at 1. change (r :: ?l) with ([r] ++ l). unfold timestamp_answer. rewrite app_assoc, firstAtOrAfter_app, <- Et.
    by destruct (firstAtOrAfter (take n (from cursor)) t). }
  destruct (firstAtOrAfter (take n (from cursor)) t) as [x|]; [done|].
  assert (0 <= r_Offset r < nextOffsetOf s tp) as Hr.
  { assert (r ∈ from cursor) as [_ Hin]%list_elem_of_filter by (rewrite EF; set_solver).
    destruct (log_inv_recordsOf s tp Hinv) as [_ Hb%Forall_fmap]. rewrite Forall_forall in Hb. by apply (Hb r). }
  pose proof (log_inv_next_u64 s tp Hinv) as Hu. unfold is_u64 in Hu. rewrite u64_small by (unfold is_u64; lia).
  pose proof (from_after s tp cursor _ _ _ Hinv EF) as Hfrom. cbn zeta in Hfrom. rewrite IH; [by rewrite Hfrom|].
  rewrite Hfrom, length_drop. lia.
Qed.

Lemma fallbackOffsetForTimestamp_ok : fallbackOffsetForTimestamp s tp t = Ok (timestamp_answer (recordsOf s tp)).
Proof using Hinv Hvalid.
  unfold fallbackOffsetForTimestamp. rewrite PartitionOffsets_ok by done. cbn [of_store mbind result_bind].
  assert (from 0 = recordsOf s tp) as E0.
  { apply filter_all. destruct (log_inv_recordsOf s tp Hinv) as [_ Hb%Forall_fmap]. eapply Forall_impl; [done|]. simpl. lia. }
  change (pos_NextOffset _) with (nextOffsetOf s tp). rewrite timestampScan_ok by (rewrite E0; lia). by rewrite E0.
Qed.
End Timestamps.

Lemma seekEndOffset_ok b topic partition :
  log_inv (b_store b) -> validatePartitionLocked (b_store b) (NewTopicPartition topic partition) = Ok tt ->
  seekEndOffset b topic partition = Ok (nextOffsetOf (b_store b) (NewTopicPartition topic partition)).
Proof.
  intros Hinv Hv. destruct (validatePartition_ok _ _ Hv) as (cfg & Et & Hp). cbn [tp_Topic tp_Partition] in Et, Hp.
  unfold seekEndOffset, validateSeekTopicPartition, topicConfig, loadTopicConfigDirect, LoadTopicConfig. rewrite Et.
  cbn [of_store mbind result_bind]. rewrite (proj2 (Z.leb_gt _ _) Hp). unfold LastOffset. rewrite PartitionOffsets_ok by done.
  cbn [of_store mbind result_bind]. pose proof (log_inv_next_u64 _ (NewTopicPartition topic partition) Hinv) as Hu.
  unfold is_u64 in Hu. unfold partitionOffsetsFromRecordOffsets. cbn [pos_HighWatermark].
  destruct (Z.ltb_spec 0 (nextOffsetOf (b_store b) (NewTopicPartition topic partition))) as [Hlt|Hle]; cbn.
  - rewrite (proj2 (Z.eqb_neq _ _)) by (unfold max_u64; lia). f_equal. lia.
  - f_equal. lia.
Qed.

(** The position a time is at. *)
Definition at_time (s : MemoryStore) (tp : TopicPartition) (t position : Z) (matched : option Z) : Prop :=
  (forall r, r ∈ recordsOf s tp -> r_Offset r < position -> r_TimestampMS r < t) /\
  match matched with
  | Some ts => t <= ts /\ exists r, r ∈ recordsOf s tp /\ r_Offset r = position /\ r_TimestampMS r = ts
  | None => position = nextOffsetOf s tp
  end.

Lemma timestamp_answer_spec s tp t position matched :
  log_inv s -> timestamp_answer s tp t (recordsOf s tp) = (position, matched) ->
  position <= nextOffsetOf s tp /\ at_time s tp t position matched.
Proof.
  intros Hinv Ea. unfold timestamp_answer in Ea. pose proof (firstAtOrAfter_spec t (recordsOf s tp)) as Hfirst.
  destruct (log_inv_recordsOf s tp Hinv) as [_ Hb%Forall_fmap]. rewrite Forall_forall in Hb.
  destruct (firstAtOrAfter (recordsOf s tp) t) as [r|]; simplify_eq.
  - destruct Hfirst as (l1 & l2 & E & Hr & Hall). assert (r ∈ recordsOf s tp) as Hin by (rewrite E; set_solver).
    split; [apply Hb in Hin; simpl in Hin; lia|]. split; [|split; [done|by exists r]].
    intros x Hx Hlt. rewrite Forall_forall in Hall. apply Hall. rewrite E in Hx.
    pose proof (log_ok_rec_lt _ _ (log_inv_recordsOf _ tp Hinv)) as Hs. rewrite E in Hs.
    apply StronglySorted_app in Hs as (_ & _ & Hs2). inversion Hs2 as [|? ? ? Hgt]; subst. rewrite Forall_forall in Hgt.
    apply elem_of_app in Hx as [Hx|[->|Hx]%elem_of_cons]; [done|lia|]. specialize (Hgt x Hx). simpl in Hgt. lia.
  - split; [lia|]. split; [|done]. intros x Hx _. rewrite Forall_forall in Hfirst. by apply Hfirst.
Qed.

Lemma seekOffsetScoped_ok now consumer topic partition offset b :
  log_inv (b_store b) -> validatePartitionLocked (b_store b) (NewTopicPartition topic partition) = Ok tt ->
  consumer <> "" -> topic <> "" -> offset <= nextOffsetOf (b_store b) (NewTopicPartition topic partition) ->
  exists b', seekOffsetScoped now consumer topic partition offset b = (b', Ok (mkSeekResult topic partition offset None)) /\
    LoadConsumerOffset (b_store b') consumer (NewTopicPartition topic partition) = Ok (Some offset).
Proof.
  intros Hinv Hv Hc Ht Hle. unfold seekOffsetScoped, mbind, BM_bind, reads. rewrite (seekEndOffset_ok b topic partition Hinv Hv).
  rewrite (proj2 (Z.ltb_ge _ _) Hle). unfold routeCommitOffset, calls, applyCommitOffset. cbn [coc_AckOffset].
  unfold SaveConsumerOffsetState_of. cbn -[LoadConsumerOffset]. unfold SaveConsumerOffsetState, validateConsumerOffsetState. cbn.
  rewrite !decide_False by done. eexists. split; [reflexivity|]. unfold LoadConsumerOffset. cbn. by rewrite lookup_insert_eq.
Qed.

(** C14: no request of another scoped tenant reaches into a tenant's data.  Whatever
    sequence of requests to create topics, publish (alone, in batches, with a
    producer id, to all partitions, with a delay, or again from a dead-letter
    topic), commit, acknowledge, seek, pause, and to work in consumer groups
    arrives from other scopes that are not the default one, the configuration,
    the log and the next offset of every topic of a tenant outside the default
    scope, and the committed offsets of its consumers and groups, stay what
    they were.  (Clients of the default scope are left out because they can
    name the topics of a tenant by the reserved prefix,
    [default_scope_reaches_scoped_topic].) *)
Theorem requests_confined `{MapRange} `{Hash64} cfg i b b' name partition consumer tp :
  rtc (fun b b' => exists ctx, foreign (identity_of cfg ctx) i /\ serves cfg ctx b b') b b' ->
  let mine := NewTopicPartition (scopedTopicName i name) partition in
  LoadTopicConfig (b_store b') (scopedTopicName i name) = LoadTopicConfig (b_store b) (scopedTopicName i name) /\
  recordsOf (b_store b') mine = recordsOf (b_store b) mine /\ nextOffsetOf (b_store b') mine = nextOffsetOf (b_store b) mine /\
  LoadConsumerOffsetState (b_store b') (scopedName i "consumer" consumer) tp
  = LoadConsumerOffsetState (b_store b) (scopedName i "consumer" consumer) tp /\
  LoadConsumerOffsetState (b_store b') (groupConsumer (scopedName i "group" consumer)) tp
  = LoadConsumerOffsetState (b_store b) (groupConsumer (scopedName i "group" consumer)) tp.
Proof.
  intros Hsteps mine. assert (keeps (owned_topic i) (owned_key i) (b_store b) (b_store b')) as [K1 K2 K3 K4 K5].
  { induction Hsteps as [|b1 b2 b3 (ctx & Hf & Hs) _ IH]; [done|]. etrans; [|exact IH]. by eapply serves_keeps. }
  assert (owned_topic i (scopedTopicName i name)) as Ht by (by exists name). specialize (K2 mine Ht). specialize (K3 mine Ht).
  unfold LoadTopicConfig, LoadConsumerOffsetState, nextOffsetOf, recordsOf.
  rewrite (K1 _ Ht), K2, K3, !K4, !K5 by (do 2 eexists; eauto). done.
Qed.

(** A seek to a time finds the first record at or after it.  In a known
    partition the seek succeeds within one step per record; every record
    before the position is older, the record at the position has the time
    that is reported, and without such a record the position is the end of
    the log; the consumer continues there. *)
Theorem seek_timestamp_first now consumer topic partition t b :
  log_inv (b_store b) -> validatePartitionLocked (b_store b) (NewTopicPartition topic partition) = Ok tt ->
  consumer <> "" -> topic <> "" ->
  let tp := NewTopicPartition topic partition in
  exists b' position matched,
    seekTimestampScoped now consumer topic partition t b = (b', Ok (mkSeekResult topic partition position matched)) /\
    LoadConsumerOffset (b_store b') consumer tp = Ok (Some position) /\
    at_time (b_store b) tp t position matched.
Proof.
  intros Hinv Hv Hc Ht tp. destruct (timestamp_answer (b_store b) tp t (recordsOf (b_store b) tp)) as [position matched] eqn:Ea.
  pose proof (fallbackOffsetForTimestamp_ok (b_store b) tp t Hinv Hv) as Ef. rewrite Ea in Ef.
  destruct (timestamp_answer_spec _ _ _ _ _ Hinv Ea) as [Hle Hat].
  destruct (seekOffsetScoped_ok now consumer topic partition position b Hinv Hv Hc Ht Hle) as (b' & Es & El).
  exists b', position, matched. split_and!; [|done|done]. unfold seekTimestampScoped, mbind, BM_bind, reads, offsetForTimestamp.
  fold tp. by rewrite Ef, Es.
Qed.

(** ** Examples *)

Definition ex_governance : GovernanceConfig := mkGovernanceConfig "default" "default" [] (mkQuotaConfig 0 0 0 0 0 0 0 0 0 0).
Definition ex_acme : Identity := mkIdentity "alice" "acme" "prod" "" "".
Definition ex_globex : Identity := mkIdentity "mallory" "globex" "prod" "" "".
Definition ex_topic : TopicConfig := NewTopicConfig "orders".
Definition ex_empty : Broker := mkBroker NewMemoryStore ∅ (newBrokerShardResolver 1) (mkBrokerConfig 1000000 100 10 10).
Definition ex_payload (s : string) : RecordAppend := NewRecordAppend (StringBytes s).
Definition ex_first : PublishPartitioning := mkPublishPartitioning PartitionExplicit 0 "".

(** A topic of each tenant, and a record of the first. *)
Definition ex_create (ctx : Identity) (b : Broker) : Broker :=
  (@CreateTopic map_to_list_range ex_governance (fun _ _ => true) ctx ex_topic b).1.
Definition ex_publish (ctx : Identity) (time : Z) (b : Broker) : Broker :=
  (@PublishRecord map_to_list_range ex_hash ex_governance (fun _ _ => true) (fun _ => time) time ctx "orders" ex_first (ex_payload "hello") b).1.
Definition ex_tenants : Broker := ex_publish ex_acme 10 (ex_create ex_acme ex_empty).
Definition ex_orders : TopicPartition := NewTopicPartition (scopedTopicName ex_acme "orders") 0.

Lemma requests_confined_witness :
  let b := ex_publish ex_globex 20 (ex_create ex_globex ex_tenants) in
  recordsOf (b_store b) ex_orders = recordsOf (b_store ex_tenants) ex_orders /\ length (recordsOf (b_store ex_tenants) ex_orders) = 1%nat.
Proof.
  split; [|vm_compute; reflexivity].
  apply (@requests_confined map_to_list_range ex_hash ex_governance ex_acme ex_tenants
           (ex_publish ex_globex 20 (ex_create ex_globex ex_tenants)) "orders" 0 "c" ex_orders).
  apply (rtc_l _ ex_tenants (ex_create ex_globex ex_tenants)).
  - exists ex_globex. split; [apply (bool_decide_unpack _); vm_compute; exact I|].
    apply (serve_create ex_governance ex_globex (fun _ _ => true) ex_topic ex_tenants).
  - apply rtc_once. exists ex_globex. split; [apply (bool_decide_unpack _); vm_compute; exact I|].
    apply (serve_publish ex_governance ex_globex (fun _ _ => true) (fun _ => 20) 20 "orders" ex_first (ex_payload "hello")).
Defined.

(** Three records at times 10, 30 and 20: the first at or after 15 is the
    second one. *)
Definition ex_times : MemoryStore :=
  let append t s := (AppendRecord t s (NewTopicPartition "orders" 0) (ex_payload "x")).1 in
  append 20 (append 30 (append 10 (MemoryStore.CreateTopic NewMemoryStore ex_topic).1)).

Lemma ex_times_inv : log_inv ex_times.
Proof.
  apply ex_inv. do 3 (eapply rtc_r; [|apply log_step_append; vm_compute; reflexivity]). apply rtc_once, log_step_create.
Qed.

Lemma seek_timestamp_first_witness :
  exists b', seekTimestampScoped 5 "c" "orders" 0 15 (set_store ex_times ex_empty) = (b', Ok (mkSeekResult "orders" 0 1 (Some 30))) /\
    LoadConsumerOffset (b_store b') "c" (NewTopicPartition "orders" 0) = Ok (Some 1).
Proof.
  destruct (seek_timestamp_first 5 "c" "orders" 0 15 (set_store ex_times ex_empty) ex_times_inv) as (b' & p & m & E & El & _);
    [vm_compute; reflexivity|done|done|].
  assert ((seekTimestampScoped 5 "c" "orders" 0 15 (set_store ex_times ex_empty)).2 = Ok (mkSeekResult "orders" 0 1 (Some 30))) as Er
    by (vm_compute; reflexivity).
  rewrite E in Er. cbn [snd] in Er. injection Er as -> ->. by exists b'.
Defined.

(** ** Gaps in the checks *)

(** A transaction of one tenant is ended by another, who only has to know its
    numbers: the policies are asked about a resource without a name, and the
    scope of the transaction is not compared. *)
Example foreign_tenant_aborts :
  let '(b, begun) := @BeginTransaction map_to_list_range ex_governance (fun _ _ => 10) 10 ex_acme "billing" 60000 ex_tenants in
  match begun with
  | Ok begun =>
      match @AbortTransaction map_to_list_range ex_governance (fun _ => 20) (fun _ => 20) ex_globex (tbr_Identity begun) b with
      | (b', r) => r = Ok (1, TransactionStatusAborted) /\
                   (ts_TransactionalID <$> (transactions (b_store b') !! 1)) = Some (scopedName ex_acme "tx" "billing")
      end
  | Err _ => False
  end.
Proof. vm_compute. by split. Qed.

(** Processing the retries of a topic asks no policy: a principal who is denied
    everything is refused a commit and still moves them. *)
Definition ex_denied : Broker :=
  let policy id principal effect priority := mkACLPolicy id "acme" "prod" principal "*" "*" ["*"] effect priority 1 in
  set_store (SaveACLPolicy (SaveACLPolicy (b_store ex_tenants) (policy "p1" "*" "allow" 1)).1 (policy "p2" "eve" "deny" 10)).1 ex_tenants.
Definition ex_eve : Identity := mkIdentity "eve" "acme" "prod" "" "".
Definition ex_backoff : BackOff := {| NextBackOff := fun initial _ _ _ => initial |}.

Example retries_ask_no_policy :
  let nacked := (@Nack map_to_list_range ex_backoff ex_governance 10 10 ex_acme "c" "orders" 0 0 None ex_denied).1 in
  is_ok (@CommitOffset map_to_list_range ex_governance 10 10 ex_eve "c" "orders" 0 1 nacked).2 = false /\
  (prr_MovedToOrigin <$> (@ProcessRetryBatch ex_governance (fun _ => 100000000) (fun _ => 100000000) 100000000 ex_eve "w" "orders" 0 10 nacked).2) = Ok 1.
Proof. vm_compute. by split. Qed.
