(* ===== verification/Wire.v ===== *)
(** * The binary wire format: primitives

    [src/protocol/binary_io.go], [binary_numbers.go], [binary_errors.go] and
    [binary_common.go] ([encodeWith] and [decodeWith] are in [Registry]).

    A [binaryWriter] is the buffer written so far and a [binaryReader] the
    input that is left, so both are computations in one state-and-error
    monad [ME E] over [bytes].  [M] is the monad of the wire protocol, whose
    errors are the codes of [oops] errors; the codec of replicated commands
    ([RaftCodec]) uses the same monad with the errors of the broker.
    Writes to the in-memory buffer do not fail, so the [panic]s of the source
    are unreachable and have no counterpart.  [newDecodedList] allocates the
    whole list up front; allocation is not modelled. *)

From stdpp Require Import prelude strings list.
From S2P Require Import Prelude.

#[local] Open Scope Z_scope.

(** ** The monad *)

Definition ME (E A : Type) : Type := bytes -> result E (A * bytes).

#[global] Instance M_ret {E} : MRet (ME E) := fun A a s => Ok (a, s).
#[global] Instance M_bind {E} : MBind (ME E) := fun A B f m s =>
  match m s with Ok (a, s') => f a s' | Err e => Err e end.

Abbreviation M := (ME string).

Definition fail {E A} (e : E) : ME E A := fun _ => Err e.
Definition of_result {E A} (r : result E A) : ME E A :=
  match r with Ok a => mret a | Err e => fail e end.

Definition binary_decode_failed : string := "binary_decode_failed".
Definition binary_value_too_large : string := "binary_value_too_large".

(** ** [encoding/binary.BigEndian] *)

Definition byte_of_Z (z : Z) : Byte.byte := default Byte.x00 (Byte.of_N (Z.to_N (u8 z))).
Definition Z_of_byte (b : Byte.byte) : Z := Z.of_N (Byte.to_N b).

(** [PutUint16], [PutUint32], [PutUint64]: [n] bytes, most significant first. *)
Fixpoint put_be (n : nat) (value : Z) : bytes :=
  match n with
  | O => []
  | S n' => byte_of_Z (Z.shiftr value (8 * Z.of_nat n')) :: put_be n' value
  end.

Definition get_be (raw : bytes) : Z :=
  foldl (fun acc b => Z.lor (Z.shiftl acc 8) (Z_of_byte b)) 0 raw.

(** ** [binary_numbers.go] *)

Definition checkedUint16 (value : Z) : result string Z :=
  if value <? 0 then Err binary_value_too_large
  else if 2 ^ 16 - 1 <? value then Err binary_value_too_large
  else Ok (u16 value).

Definition checkedUint32 (value : Z) : result string Z :=
  if value <? 0 then Err binary_value_too_large
  else if 2 ^ 32 - 1 <? value then Err binary_value_too_large
  else Ok (u32 value).

(** [int] has 64 bits. *)
Definition intFromUint32 (value : Z) : result string Z :=
  if 2 ^ 63 - 1 <? value then Err binary_value_too_large else Ok value.

(** ** [binaryWriter] *)

Definition write {E} (raw : bytes) : ME E unit := fun buf => Ok (tt, buf ++ raw).

Definition writeU8 (value : Z) : M unit := write [byte_of_Z value].
Definition writeBool (value : bool) : M unit := if value then writeU8 1 else writeU8 0.
Definition writeU16 (value : Z) : M unit := write (put_be 2 value).
Definition writeU32 (value : Z) : M unit := write (put_be 4 value).
Definition writeU64 (value : Z) : M unit := write (put_be 8 value).

(** A [float64] is its bit pattern. *)
Definition writeF64 (value : Z) : M unit := writeU64 value.

Definition writeString (value : string) : M unit :=
  size ← of_result (checkedUint16 (slen value));
  writeU16 size;; write (String.list_byte_of_string value).

Definition writeBytes (value : bytes) : M unit :=
  size ← of_result (checkedUint32 (len value));
  writeU32 size;; write value.

Definition writeOptionalU32 (value : option Z) : M unit :=
  match value with None => writeBool false | Some value => writeBool true;; writeU32 value end.

Definition writeOptionalU64 (value : option Z) : M unit :=
  match value with None => writeBool false | Some value => writeBool true;; writeU64 value end.

Definition writeOptionalInt (value : option Z) : M unit :=
  match value with
  | None => writeBool false
  | Some value => out ← of_result (checkedUint32 value); writeBool true;; writeU32 out
  end.

Definition writeOptionalString (value : option string) : M unit :=
  match value with None => writeBool false | Some value => writeBool true;; writeString value end.

Definition writeOptionalBool (value : option bool) : M unit :=
  match value with None => writeBool false | Some value => writeBool true;; writeBool value end.

(** ** [binaryReader] *)

(** [io.ReadFull] into a buffer of [n] bytes, with the error for a short input. *)
Definition ReadFull {E} (short : E) (n : nat) : ME E bytes := fun s =>
  if (n <=? length s)%nat then Ok (take n s, drop n s) else Err short.

Definition readFull (n : nat) : M bytes := ReadFull binary_decode_failed n.

Definition readU8 : M Z := raw ← readFull 1; mret (get_be raw).
Definition readBool : M bool := value ← readU8; mret (negb (value =? 0)).
Definition readU16 : M Z := raw ← readFull 2; mret (get_be raw).
Definition readU32 : M Z := raw ← readFull 4; mret (get_be raw).
Definition readU64 : M Z := raw ← readFull 8; mret (get_be raw).
Definition readF64 : M Z := readU64.

Definition readFixedBytes (size : Z) : M bytes :=
  length ← of_result (intFromUint32 size);
  if length =? 0 then mret [] else readFull (Z.to_nat length).

Definition readString : M string :=
  size ← readU16;
  raw ← readFixedBytes size;
  mret (String.string_of_list_byte raw).

Definition readBytes : M bytes := size ← readU32; readFixedBytes size.

Definition readOptionalU32 : M (option Z) :=
  ok ← readBool; if negb ok then mret None else value ← readU32; mret (Some value).

Definition readOptionalU64 : M (option Z) :=
  ok ← readBool; if negb ok then mret None else value ← readU64; mret (Some value).

Definition readOptionalInt : M (option Z) :=
  ok ← readBool;
  if negb ok then mret None
  else value ← readU32; out ← of_result (intFromUint32 value); mret (Some out).

Definition readOptionalString : M (option string) :=
  ok ← readBool; if negb ok then mret None else value ← readString; mret (Some value).

Definition readOptionalBool : M (option bool) :=
  ok ← readBool; if negb ok then mret None else value ← readBool; mret (Some value).

Definition ensureEOF : M unit := fun s =>
  match s with [] => Ok (tt, s) | _ => Err "binary_trailing_data" end.

(** ** Loops: [for _, item := range items] and [for range size] *)

Fixpoint for_each {E A} (body : A -> ME E unit) (items : list A) : ME E unit :=
  match items with
  | [] => mret tt
  | item :: items => body item;; for_each body items
  end.

Fixpoint for_range {E A} (size : nat) (body : ME E A) : ME E (list A) :=
  match size with
  | O => mret []
  | S size => item ← body; items ← for_range size body; mret (item :: items)
  end.

(** ** Enumerations of [protocol.go] *)

Definition ProducePartitioningExplicit : string := "explicit".
Definition ProducePartitioningRoundRobin : string := "round_robin".
Definition ProducePartitioningKeyHash : string := "key_hash".
Definition ProducePartitioningRoutingKeyHash : string := "routing_key_hash".

Definition FetchIsolationReadUncommitted : string := "read_uncommitted".
Definition FetchIsolationReadCommitted : string := "read_committed".

Definition TransactionStatusOpen : string := "open".
Definition TransactionStatusCommitted : string := "committed".
Definition TransactionStatusAborted : string := "aborted".

Definition TransactionControlNone : string := "".
Definition TransactionControlCommit : string := "commit".
Definition TransactionControlAbort : string := "abort".

Definition TopicCleanupDelete : string := "delete".
Definition TopicCleanupCompact : string := "compact".
Definition TopicCleanupCompactAndDelete : string := "compact_and_delete".

Definition MessageExpiryDelete : string := "delete".
Definition MessageExpiryDLQ : string := "dlq".

Definition TopicOrderingPartition : string := "partition".
Definition TopicOrderingKey : string := "key".
Definition TopicOrderingRoutingKey : string := "routing_key".

Definition writePartitioning (value : string) : M unit :=
  if decide (value = ProducePartitioningExplicit) then writeU8 1
  else if decide (value = ProducePartitioningKeyHash) then writeU8 3
  else if decide (value = ProducePartitioningRoutingKeyHash) then writeU8 4
  else if decide (value = ProducePartitioningRoundRobin) then writeU8 2
  else writeU8 0.

Definition readPartitioning : M string :=
  value ← readU8;
  if value =? 1 then mret ProducePartitioningExplicit
  else if value =? 2 then mret ProducePartitioningRoundRobin
  else if value =? 3 then mret ProducePartitioningKeyHash
  else if value =? 4 then mret ProducePartitioningRoutingKeyHash
  else fail "binary_unknown_partitioning".

Definition writeFetchIsolation (value : string) : M unit :=
  if decide (value = "" \/ value = FetchIsolationReadUncommitted) then writeU8 1
  else if decide (value = FetchIsolationReadCommitted) then writeU8 2
  else writeU8 0.

Definition readFetchIsolation : M string :=
  value ← readU8;
  if value =? 1 then mret FetchIsolationReadUncommitted
  else if value =? 2 then mret FetchIsolationReadCommitted
  else fail "binary_unknown_fetch_isolation".

Definition writeTransactionStatus (status : string) : M unit :=
  if decide (status = "" \/ status = TransactionStatusOpen) then writeU8 1
  else if decide (status = TransactionStatusCommitted) then writeU8 2
  else if decide (status = TransactionStatusAborted) then writeU8 3
  else writeU8 0.

Definition readTransactionStatus : M string :=
  value ← readU8;
  if value =? 1 then mret TransactionStatusOpen
  else if value =? 2 then mret TransactionStatusCommitted
  else if value =? 3 then mret TransactionStatusAborted
  else fail "binary_unknown_transaction_status".

Definition writeTransactionControlType (controlType : string) : M unit :=
  if decide (controlType = TransactionControlNone) then writeU8 0
  else if decide (controlType = TransactionControlCommit) then writeU8 1
  else if decide (controlType = TransactionControlAbort) then writeU8 2
  else writeU8 255.

Definition readTransactionControlType : M string :=
  value ← readU8;
  if value =? 0 then mret TransactionControlNone
  else if value =? 1 then mret TransactionControlCommit
  else if value =? 2 then mret TransactionControlAbort
  else fail "binary_unknown_transaction_control".

Definition writeCleanupPolicy (value : option string) : M unit :=
  match value with
  | None => writeBool false
  | Some value =>
      writeBool true;;
      if decide (value = TopicCleanupDelete) then writeU8 1
      else if decide (value = TopicCleanupCompact) then writeU8 2
      else if decide (value = TopicCleanupCompactAndDelete) then writeU8 3
      else writeU8 0
  end.

Definition readCleanupPolicy : M (option string) :=
  ok ← readBool;
  if negb ok then mret None
  else
    value ← readU8;
    if value =? 1 then mret (Some TopicCleanupDelete)
    else if value =? 2 then mret (Some TopicCleanupCompact)
    else if value =? 3 then mret (Some TopicCleanupCompactAndDelete)
    else fail "binary_unknown_cleanup_policy".

Definition writeMessageExpiryAction (value : option string) : M unit :=
  match value with
  | None => writeBool false
  | Some value =>
      writeBool true;;
      if decide (value = MessageExpiryDelete) then writeU8 1
      else if decide (value = MessageExpiryDLQ) then writeU8 2
      else writeU8 0
  end.

Definition readMessageExpiryAction : M (option string) :=
  ok ← readBool;
  if negb ok then mret None
  else
    value ← readU8;
    if value =? 1 then mret (Some MessageExpiryDelete)
    else if value =? 2 then mret (Some MessageExpiryDLQ)
    else fail "binary_unknown_message_expiry_action".

Definition writeTopicOrderingPolicy (value : option string) : M unit :=
  match value with
  | None => writeBool false
  | Some value =>
      writeBool true;;
      if decide (value = TopicOrderingPartition) then writeU8 1
      else if decide (value = TopicOrderingKey) then writeU8 2
      else if decide (value = TopicOrderingRoutingKey) then writeU8 3
      else writeU8 0
  end.

Definition readTopicOrderingPolicy : M (option string) :=
  ok ← readBool;
  if negb ok then mret None
  else
    value ← readU8;
    if value =? 1 then mret (Some TopicOrderingPartition)
    else if value =? 2 then mret (Some TopicOrderingKey)
    else if value =? 3 then mret (Some TopicOrderingRoutingKey)
    else fail "binary_unknown_topic_ordering_policy".
