(* ===== verification/WireSpec.v ===== *)
(** * The binary wire format: round trips of the primitives

    [rt w r a] says that the bytes the writer [w] appends are read back by [r]
    as [a], whatever follows them.  The lemmas of this file are the rules for
    sequences, loops and each primitive; the tactic [codec] applies them to a
    message codec.  [extends r] says that a successful read does not depend
    on what follows: with a round trip it makes encodings prefix-free, so a
    truncated body is never decoded. *)

From stdpp Require Import prelude strings list.
From S2P Require Import Prelude Wire.

#[local] Open Scope Z_scope.

(** ** Big-endian integers *)

Lemma Z_of_byte_range b : 0 <= Z_of_byte b < 256.
Proof. unfold Z_of_byte. pose proof (Byte.to_N_bounded b). lia. Qed.

Lemma Z_of_byte_of_Z z : Z_of_byte (byte_of_Z z) = z mod 256.
Proof.
  unfold Z_of_byte, byte_of_Z, u8. change (2 ^ 8) with 256.
  pose proof (Z.mod_pos_bound z 256 eq_refl) as Hb.
  destruct (Byte.of_N (Z.to_N (z mod 256))) as [b|] eqn:E; simpl.
  - apply Byte.to_of_N in E. rewrite E. lia.
  - apply Byte.of_N_None_iff in E. lia.
Qed.

Lemma land_shift_byte acc b : 0 <= b < 256 -> Z.land (acc * 256) b = 0.
Proof.
  intros Hb. apply Z.bits_inj'. intros n Hn. rewrite Z.land_spec, Z.bits_0.
  change 256 with (2 ^ 8). destruct (Z.ltb_spec n 8).
  - rewrite Z.mul_pow2_bits_low by lia. done.
  - rewrite (Z.bits_above_log2 b), andb_false_r; [done|lia|].
    destruct (Z.eq_dec b 0) as [->|]; [simpl; lia|]. apply Z.log2_lt_pow2; [lia|].
    apply Z.lt_le_trans with (2 ^ 8); [lia|]. apply Z.pow_le_mono_r; lia.
Qed.

Lemma lor_shift_add acc b : 0 <= b < 256 -> Z.lor (Z.shiftl acc 8) b = acc * 256 + b.
Proof.
  intros Hb. rewrite Z.shiftl_mul_pow2 by lia. change (2 ^ 8) with 256.
  rewrite <- Z.lxor_lor by (by apply land_shift_byte).
  symmetry. by apply Z.add_nocarry_lxor, land_shift_byte.
Qed.

Lemma get_put_be_acc n acc v :
  foldl (fun acc b => Z.lor (Z.shiftl acc 8) (Z_of_byte b)) acc (put_be n v)
  = acc * 256 ^ Z.of_nat n + v mod 256 ^ Z.of_nat n.
Proof.
  induction n as [|n IH] in acc |- *; cbn [put_be foldl].
  { rewrite Z.mod_1_r. lia. }
  rewrite IH, lor_shift_add by apply Z_of_byte_range.
  rewrite Z_of_byte_of_Z, Z.shiftr_div_pow2 by lia.
  replace (2 ^ (8 * Z.of_nat n)) with (256 ^ Z.of_nat n) by (change 256 with (2 ^ 8); by rewrite <- Z.pow_mul_r by lia).
  rewrite Nat2Z.inj_succ, Z.pow_succ_r by lia.
  rewrite (Z.mul_comm 256), (Z.rem_mul_r v (256 ^ Z.of_nat n) 256) by lia. lia.
Qed.

Lemma get_put_be n v : 0 <= v < 256 ^ Z.of_nat n -> get_be (put_be n v) = v.
Proof. intros Hv. unfold get_be. rewrite get_put_be_acc, Z.mod_small by done. lia. Qed.

Lemma length_put_be n v : length (put_be n v) = n.
Proof. induction n; simpl; congruence. Qed.

(** ** Round trips and their rules *)

Definition rt {E A} (w : ME E unit) (r : ME E A) (a : A) : Prop :=
  exists bs, (forall buf, w buf = Ok (tt, buf ++ bs)) /\ (forall rest, r (bs ++ rest) = Ok (a, rest)).

Section Rules.
Context {E A B : Type}.

Lemma rt_seq (w1 w2 : ME E unit) (r1 : ME E A) (k : A -> ME E B) a b :
  rt w1 r1 a -> rt w2 (k a) b -> rt (w1;; w2) (r1 ≫= k) b.
Proof.
  intros (bs1 & Hw1 & Hr1) (bs2 & Hw2 & Hr2). exists (bs1 ++ bs2). split.
  - intros buf. unfold mbind, M_bind. by rewrite Hw1, Hw2, (assoc_L (++)).
  - intros rest. unfold mbind, M_bind. by rewrite <- (assoc_L (++)), Hr1, Hr2.
Qed.

Lemma rt_last (w : ME E unit) (r : ME E A) (k : A -> ME E B) a b :
  rt w r a -> (forall s, k a s = Ok (b, s)) -> rt w (r ≫= k) b.
Proof.
  intros (bs & Hw & Hr) Hk. exists bs. split; [done|].
  intros rest. unfold mbind, M_bind. by rewrite Hr, Hk.
Qed.

(** The end of a codec: nothing is left to write. *)
Lemma rt_done (a b : A) : a = b -> rt (E := E) (mret tt) (mret a) b.
Proof. intros ->. exists []. split; [|done]. intros buf. by rewrite app_nil_r. Qed.

Lemma rt_end (w : ME E unit) (r : ME E A) (k : A -> ME E B) a b :
  rt w r a -> rt (mret tt) (k a) b -> rt w (r ≫= k) b.
Proof.
  intros Hw (bs & Hn & Hk). eapply rt_last; [done|]. intros s.
  pose proof (Hn []) as Hn'. injection Hn' as <-. apply (Hk s).
Qed.

Lemma rt_assoc {C} (w : ME E unit) (r : ME E A) (k1 : A -> ME E B) (k2 : B -> ME E C) c :
  rt w (r ≫= fun a => k1 a ≫= k2) c -> rt w ((r ≫= k1) ≫= k2) c.
Proof.
  intros (bs & Hw & Hr). exists bs. split; [done|]. intros rest. rewrite <- Hr.
  unfold mbind, M_bind. destruct (r (bs ++ rest)) as [[a s]|]; done.
Qed.

Lemma rt_wassoc (w1 w2 w3 : ME E unit) (r : ME E A) a : rt (w1;; w2;; w3) r a -> rt ((w1;; w2);; w3) r a.
Proof.
  intros (bs & Hw & Hr). exists bs. split; [|done]. intros buf. rewrite <- Hw.
  unfold mbind, M_bind. destruct (w1 buf) as [[[] s]|]; done.
Qed.

Lemma rt_ret_l (w : ME E unit) (a : A) (k : A -> ME E B) b : rt w (k a) b -> rt w (mret a ≫= k) b.
Proof. done. Qed.

End Rules.

Section Checks.
Context {A : Type}.

Lemma rt_checked16 v (w : Z -> M unit) (r : M A) a :
  is_u16 v -> rt (w v) r a -> rt (of_result (checkedUint16 v) ≫= w) r a.
Proof.
  unfold is_u16, checkedUint16. intros Hv Hrt.
  destruct (Z.ltb_spec v 0); [lia|]. destruct (Z.ltb_spec (2 ^ 16 - 1) v); [lia|].
  unfold u16. rewrite Z.mod_small by lia. done.
Qed.

Lemma rt_checked32 v (w : Z -> M unit) (r : M A) a :
  is_u32 v -> rt (w v) r a -> rt (of_result (checkedUint32 v) ≫= w) r a.
Proof.
  unfold is_u32, checkedUint32. intros Hv Hrt.
  destruct (Z.ltb_spec v 0); [lia|]. destruct (Z.ltb_spec (2 ^ 32 - 1) v); [lia|].
  rewrite u32_small by (unfold is_u32; lia). done.
Qed.

Lemma rt_int32 v (w : M unit) (k : Z -> M A) a :
  is_u32 v -> rt w (k v) a -> rt w (of_result (intFromUint32 v) ≫= k) a.
Proof.
  unfold is_u32, intFromUint32. intros Hv Hrt. destruct (Z.ltb_spec (2 ^ 63 - 1) v); [lia|done].
Qed.

End Checks.

(** ** Primitives *)

Lemma readFull_app {E} (e : E) n bs rest : length bs = n -> ReadFull e n (bs ++ rest) = Ok (bs, rest).
Proof.
  intros <-. unfold ReadFull. rewrite length_app. destruct (Nat.leb_spec (length bs) (length bs + length rest)); [|lia].
  by rewrite take_app_length, drop_app_length.
Qed.

Lemma rt_be {E} (e : E) n v :
  0 <= v < 256 ^ Z.of_nat n -> rt (write (put_be n v)) (raw ← ReadFull e n; mret (get_be raw)) v.
Proof.
  intros Hv. exists (put_be n v). split; [done|]. intros rest. unfold mbind, M_bind.
  rewrite readFull_app by apply length_put_be. by rewrite get_put_be.
Qed.

Lemma rt_u8 v : is_u8 v -> rt (writeU8 v) readU8 v.
Proof.
  intros Hv. change (writeU8 v) with (write (E := string) [byte_of_Z v]).
  replace [byte_of_Z v] with (put_be 1 v) by (simpl; by rewrite Z.shiftr_0_r). by apply rt_be.
Qed.
Lemma rt_u16 v : is_u16 v -> rt (writeU16 v) readU16 v.
Proof. apply (rt_be _ 2). Qed.
Lemma rt_u32 v : is_u32 v -> rt (writeU32 v) readU32 v.
Proof. apply (rt_be _ 4). Qed.
Lemma rt_u64 v : is_u64 v -> rt (writeU64 v) readU64 v.
Proof. apply (rt_be _ 8). Qed.
Lemma rt_f64 v : is_u64 v -> rt (writeF64 v) readF64 v.
Proof. apply rt_u64. Qed.

Lemma rt_bool b : rt (writeBool b) readBool b.
Proof. destruct b; (eapply rt_last; [by apply rt_u8|done]). Qed.

(** Sizes that the length prefixes can carry. *)
Definition fits_string (s : string) : Prop := is_u16 (slen s).
Definition fits_bytes (b : bytes) : Prop := is_u32 (len b).
Definition fits_list16 {A} (P : A -> Prop) (l : list A) : Prop := is_u16 (len l) /\ Forall P l.
Definition fits_list32 {A} (P : A -> Prop) (l : list A) : Prop := is_u32 (len l) /\ Forall P l.
Definition fits_option {A} (P : A -> Prop) (o : option A) : Prop :=
  match o with Some a => P a | None => True end.
Definition fits_any {A} (a : A) : Prop := True.

Lemma rt_fixed (raw : bytes) : is_u32 (len raw) -> rt (write raw) (readFixedBytes (len raw)) raw.
Proof.
  intros Hl. unfold readFixedBytes. apply rt_int32; [done|]. exists raw. split; [done|]. intros rest.
  destruct (Z.eqb_spec (len raw) 0) as [E|E].
  - destruct raw; [done|]. rewrite len_cons in E. pose proof (len_nonneg raw). lia.
  - unfold len. rewrite Nat2Z.id. by apply readFull_app.
Qed.

Lemma slen_bytes s : slen s = len (String.list_byte_of_string s).
Proof. unfold slen, len. f_equal. induction s as [|c s IH]; [done|]. simpl. f_equal. apply IH. Qed.

Lemma rt_string s : fits_string s -> rt (writeString s) readString s.
Proof.
  unfold fits_string. intros Hs. unfold writeString, readString.
  apply rt_checked16; [done|]. eapply rt_seq; [by apply rt_u16|].
  rewrite slen_bytes in *. eapply rt_last.
  - apply rt_fixed. unfold is_u32, is_u16 in *. lia.
  - intros rest. unfold mret, M_ret. by rewrite String.string_of_list_byte_of_string.
Qed.

Lemma rt_bytes b : fits_bytes b -> rt (writeBytes b) readBytes b.
Proof.
  intros Hb. unfold writeBytes, readBytes. apply rt_checked32; [done|].
  eapply rt_seq; [by apply rt_u32|]. by apply rt_fixed.
Qed.

Lemma rt_optional {A} (P : A -> Prop) (w : A -> M unit) (r : M A) (o : option A) :
  (forall a, P a -> rt (w a) r a) -> fits_option P o ->
  rt (match o with None => writeBool false | Some a => writeBool true;; w a end)
     (ok ← readBool; if negb ok then mret None else value ← r; mret (Some value)) o.
Proof.
  intros Hrt Ho. destruct o as [a|].
  - eapply rt_seq; [apply rt_bool|]. simpl. eapply rt_last; [by apply Hrt|done].
  - eapply rt_last; [apply rt_bool|done].
Qed.

Lemma rt_optional_u32 o : fits_option is_u32 o -> rt (writeOptionalU32 o) readOptionalU32 o.
Proof. apply (rt_optional is_u32 writeU32 readU32), rt_u32. Qed.
Lemma rt_optional_u64 o : fits_option is_u64 o -> rt (writeOptionalU64 o) readOptionalU64 o.
Proof. apply (rt_optional is_u64 writeU64 readU64), rt_u64. Qed.
Lemma rt_optional_string o : fits_option fits_string o -> rt (writeOptionalString o) readOptionalString o.
Proof. apply (rt_optional fits_string writeString readString), rt_string. Qed.
Lemma rt_optional_bool o : rt (writeOptionalBool o) readOptionalBool o.
Proof.
  apply (rt_optional fits_any writeBool readBool); [intros a _; apply rt_bool|by destruct o].
Qed.
Lemma rt_optional_int o : fits_option is_u32 o -> rt (writeOptionalInt o) readOptionalInt o.
Proof.
  intros Ho. unfold writeOptionalInt, readOptionalInt. destruct o as [v|].
  - apply rt_checked32; [done|]. eapply rt_seq; [apply rt_bool|]. simpl.
    eapply rt_last; [by apply rt_u32|]. intros s. unfold mbind, M_bind, intFromUint32.
    simpl in Ho. unfold is_u32 in Ho. destruct (Z.ltb_spec (2 ^ 63 - 1) v); [lia|done].
  - eapply rt_last; [apply rt_bool|done].
Qed.

(** ** Loops *)

(** The value read for an item may be a function of it. *)
Lemma rt_for_map {E A B} (P : A -> Prop) (f : A -> B) (w : A -> ME E unit) (r : ME E B) (l : list A) :
  (forall a, P a -> rt (w a) r (f a)) -> Forall P l -> rt (for_each w l) (for_range (Z.to_nat (len l)) r) (f <$> l).
Proof.
  unfold len. rewrite Nat2Z.id. intros Hrt Hl. induction Hl as [|a l Ha Hl IH]; cbn [for_each for_range length].
  - exists []. split; [|done]. intros buf. by rewrite app_nil_r.
  - eapply rt_seq; [by apply Hrt|]. eapply rt_last; [apply IH|done].
Qed.

Lemma rt_for {E A} (P : A -> Prop) (w : A -> ME E unit) (r : ME E A) (l : list A) :
  (forall a, P a -> rt (w a) r a) -> Forall P l -> rt (for_each w l) (for_range (Z.to_nat (len l)) r) l.
Proof. intros Hrt Hl. rewrite <- (list_fmap_id l) at 3. by eapply rt_for_map. Qed.

(** ** Enumerations: the values that have a code of their own *)

Definition valid_partitioning (v : string) : Prop :=
  v = ProducePartitioningExplicit \/ v = ProducePartitioningRoundRobin \/
  v = ProducePartitioningKeyHash \/ v = ProducePartitioningRoutingKeyHash.
Definition valid_isolation (v : string) : Prop :=
  v = FetchIsolationReadUncommitted \/ v = FetchIsolationReadCommitted.
Definition valid_tx_status (v : string) : Prop :=
  v = TransactionStatusOpen \/ v = TransactionStatusCommitted \/ v = TransactionStatusAborted.
Definition valid_tx_control (v : string) : Prop :=
  v = TransactionControlNone \/ v = TransactionControlCommit \/ v = TransactionControlAbort.
Definition valid_cleanup (v : string) : Prop :=
  v = TopicCleanupDelete \/ v = TopicCleanupCompact \/ v = TopicCleanupCompactAndDelete.
Definition valid_expiry (v : string) : Prop := v = MessageExpiryDelete \/ v = MessageExpiryDLQ.
Definition valid_ordering (v : string) : Prop :=
  v = TopicOrderingPartition \/ v = TopicOrderingKey \/ v = TopicOrderingRoutingKey.

Ltac rt_enum :=
  match goal with |- rt _ (mbind _ readU8) _ => eapply rt_last; [by apply rt_u8|done] end.

Lemma rt_partitioning v : valid_partitioning v -> rt (writePartitioning v) readPartitioning v.
Proof. unfold readPartitioning. intros [->|[->|[->| ->]]]; rt_enum. Qed.
Lemma rt_isolation v : valid_isolation v -> rt (writeFetchIsolation v) readFetchIsolation v.
Proof. unfold readFetchIsolation. intros [->| ->]; rt_enum. Qed.
Lemma rt_tx_status v : valid_tx_status v -> rt (writeTransactionStatus v) readTransactionStatus v.
Proof. unfold readTransactionStatus. intros [->|[->| ->]]; rt_enum. Qed.
Lemma rt_tx_control v : valid_tx_control v -> rt (writeTransactionControlType v) readTransactionControlType v.
Proof. unfold readTransactionControlType. intros [->|[->| ->]]; rt_enum. Qed.

Ltac rt_opt_enum :=
  match goal with
  | |- rt (_;; _) _ _ => eapply rt_seq; [apply rt_bool|]; simpl; rt_enum
  | _ => eapply rt_last; [apply rt_bool|done]
  end.

Lemma rt_cleanup o : fits_option valid_cleanup o -> rt (writeCleanupPolicy o) readCleanupPolicy o.
Proof.
  unfold readCleanupPolicy. destruct o as [v|]; [intros [->|[->| ->]]|intros _]; cbn [writeCleanupPolicy]; rt_opt_enum.
Qed.
Lemma rt_expiry o : fits_option valid_expiry o -> rt (writeMessageExpiryAction o) readMessageExpiryAction o.
Proof.
  unfold readMessageExpiryAction. destruct o as [v|]; [intros [->| ->]|intros _];
    cbn [writeMessageExpiryAction]; rt_opt_enum.
Qed.
Lemma rt_ordering o : fits_option valid_ordering o -> rt (writeTopicOrderingPolicy o) readTopicOrderingPolicy o.
Proof.
  unfold readTopicOrderingPolicy. destruct o as [v|]; [intros [->|[->| ->]]|intros _];
    cbn [writeTopicOrderingPolicy]; rt_opt_enum.
Qed.

Create HintDb codec discriminated.
Create HintDb wf.
#[export] Hint Resolve rt_u8 rt_u16 rt_u32 rt_u64 rt_f64 rt_bool rt_string rt_bytes rt_optional_u32
  rt_optional_u64 rt_optional_string rt_optional_bool rt_optional_int rt_partitioning rt_isolation
  rt_tx_status rt_tx_control rt_cleanup rt_expiry rt_ordering : codec.

(** Proves [rt (write a) read a] for a message codec from the rules above and
    the round trips of its parts. *)
Ltac codec_step :=
  cbv beta iota delta [negb];
  lazymatch goal with
  | |- rt (mbind _ (of_result (checkedUint16 _))) _ _ => apply rt_checked16; [done|]
  | |- rt (mbind _ (of_result (checkedUint32 _))) _ _ => apply rt_checked32; [done|]
  | |- rt _ (mbind _ (of_result (intFromUint32 _))) _ => apply rt_int32; [done|]
  | |- rt _ (mbind _ (mret _)) _ => apply rt_ret_l
  | |- rt _ (mbind _ (mbind _ _)) _ => apply rt_assoc
  | |- rt (mbind _ (mbind _ _)) _ _ => apply rt_wassoc
  | |- rt (match ?o with _ => _ end) _ _ => destruct o eqn:?; cbn [fits_option] in *
  | |- rt (mbind _ _) (mbind _ _) _ => eapply rt_seq; [codec_leaf|]
  | |- rt (mret tt) (mret _) _ => apply rt_done; destruct_record
  | |- rt _ (mbind _ _) _ => eapply rt_end; [codec_leaf|]
  | |- rt _ _ _ => codec_leaf
  end
with codec_leaf :=
  first
    [ solve [eauto 2 with codec]
    | eapply rt_for; [|by eassumption];
      let a := fresh "a" in let Ha := fresh "Ha" in let Hwf := fresh "Hwf" in
      intros a Ha; pose proof Ha as Hwf; autounfold with wf in Hwf; destruct_and?; repeat codec_step ]
with destruct_record :=
  first
    [ reflexivity
    | match goal with |- _ = Some ?a => destruct a; reflexivity end
    | match goal with |- _ = ?a => destruct a; simpl in *; first [reflexivity | subst; reflexivity] end ].

(** Well-formedness of a struct literal whose fields are known to fit. *)
Ltac solve_wf := autounfold with wf; simpl; split_and?; solve [assumption | exact I].

(** Makes the conjuncts of a well-formedness hypothesis available. *)
Ltac codec_hyps :=
  destruct_and?;
  repeat match goal with
  | H : fits_list32 ?P ?l |- _ =>
      lazymatch goal with
      | _ : Forall P l |- _ => fail
      | _ => pose proof (proj1 H); pose proof (proj2 H)
      end
  | H : fits_list16 ?P ?l |- _ =>
      lazymatch goal with
      | _ : Forall P l |- _ => fail
      | _ => pose proof (proj1 H); pose proof (proj2 H)
      end
  end.

(** ** Reads do not depend on what follows *)

Definition extends {E A} (r : ME E A) : Prop :=
  forall s a rest q, r s = Ok (a, rest) -> r (s ++ q) = Ok (a, rest ++ q).

Section Extends.
Context {E A B : Type}.

Lemma extends_ret (a : A) : extends (E := E) (mret a).
Proof. intros s a' rest q [= -> ->]. done. Qed.

Lemma extends_fail e : extends (@fail E A e).
Proof. intros s a rest q [=]. Qed.

Lemma extends_of_result (r : result E A) : extends (of_result r).
Proof. destruct r; [apply extends_ret|apply extends_fail]. Qed.

Lemma extends_bind (r : ME E A) (k : A -> ME E B) :
  extends r -> (forall a, extends (k a)) -> extends (r ≫= k).
Proof.
  intros Hr Hk s b rest q. unfold mbind, M_bind. destruct (r s) as [[a s']|e] eqn:Er; [|done].
  rewrite (Hr _ _ _ q Er). apply Hk.
Qed.

Lemma extends_if (c : bool) (r1 r2 : ME E A) : extends r1 -> extends r2 -> extends (if c then r1 else r2).
Proof. by destruct c. Qed.

End Extends.

Lemma extends_for {E A} n (r : ME E A) : extends r -> extends (for_range n r).
Proof.
  intros Hr. induction n as [|n IH]; cbn [for_range]; [apply extends_ret|].
  apply extends_bind; [done|]. intros a. apply extends_bind; [done|]. intros l. apply extends_ret.
Qed.

Lemma extends_ReadFull {E} (e : E) n : extends (ReadFull e n).
Proof.
  intros s a rest q. unfold ReadFull. rewrite length_app.
  destruct (Nat.leb_spec n (length s)); [|done]. intros [= <- <-].
  destruct (Nat.leb_spec n (length s + length q)); [|lia].
  rewrite take_app_le, drop_app_le by lia. done.
Qed.

Lemma extends_readFull n : extends (readFull n).
Proof. apply extends_ReadFull. Qed.

#[export] Hint Resolve extends_ret extends_fail extends_of_result extends_readFull : codec.

Ltac extends_step :=
  lazymatch goal with
  | |- extends (mbind _ _) => apply extends_bind; [solve [eauto 1 with codec | repeat extends_step]|intros ?]
  | |- extends (if _ then _ else _) => apply extends_if
  | |- extends (match ?p with (_, _) => _ end) => destruct p
  | |- extends (for_range _ _) => apply extends_for
  | |- extends _ => solve [eauto 1 with codec]
  end.

Lemma extends_readU8 : extends readU8.
Proof. unfold readU8. repeat extends_step. Qed.
Lemma extends_readU16 : extends readU16.
Proof. unfold readU16. repeat extends_step. Qed.
Lemma extends_readU32 : extends readU32.
Proof. unfold readU32. repeat extends_step. Qed.
Lemma extends_readU64 : extends readU64.
Proof. unfold readU64. repeat extends_step. Qed.
#[export] Hint Resolve extends_readU8 extends_readU16 extends_readU32 extends_readU64 : codec.
Lemma extends_readF64 : extends readF64.
Proof. apply extends_readU64. Qed.
Lemma extends_readBool : extends readBool.
Proof. unfold readBool. repeat extends_step. Qed.
Lemma extends_readFixedBytes size : extends (readFixedBytes size).
Proof. unfold readFixedBytes. repeat extends_step. Qed.
#[export] Hint Resolve extends_readF64 extends_readBool extends_readFixedBytes : codec.
Lemma extends_readString : extends readString.
Proof. unfold readString. repeat extends_step. Qed.
Lemma extends_readBytes : extends readBytes.
Proof. unfold readBytes. repeat extends_step. Qed.
#[export] Hint Resolve extends_readString extends_readBytes : codec.
Lemma extends_readOptionalU32 : extends readOptionalU32.
Proof. unfold readOptionalU32. repeat extends_step. Qed.
Lemma extends_readOptionalU64 : extends readOptionalU64.
Proof. unfold readOptionalU64. repeat extends_step. Qed.
Lemma extends_readOptionalInt : extends readOptionalInt.
Proof. unfold readOptionalInt. repeat extends_step. Qed.
Lemma extends_readOptionalString : extends readOptionalString.
Proof. unfold readOptionalString. repeat extends_step. Qed.
Lemma extends_readOptionalBool : extends readOptionalBool.
Proof. unfold readOptionalBool. repeat extends_step. Qed.
Lemma extends_readPartitioning : extends readPartitioning.
Proof. unfold readPartitioning. repeat extends_step. Qed.
Lemma extends_readFetchIsolation : extends readFetchIsolation.
Proof. unfold readFetchIsolation. repeat extends_step. Qed.
Lemma extends_readTransactionStatus : extends readTransactionStatus.
Proof. unfold readTransactionStatus. repeat extends_step. Qed.
Lemma extends_readTransactionControlType : extends readTransactionControlType.
Proof. unfold readTransactionControlType. repeat extends_step. Qed.
Lemma extends_readCleanupPolicy : extends readCleanupPolicy.
Proof. unfold readCleanupPolicy. repeat extends_step. Qed.
Lemma extends_readMessageExpiryAction : extends readMessageExpiryAction.
Proof. unfold readMessageExpiryAction. repeat extends_step. Qed.
Lemma extends_readTopicOrderingPolicy : extends readTopicOrderingPolicy.
Proof. unfold readTopicOrderingPolicy. repeat extends_step. Qed.
#[export] Hint Resolve extends_readOptionalU32 extends_readOptionalU64 extends_readOptionalInt
  extends_readOptionalString extends_readOptionalBool extends_readPartitioning extends_readFetchIsolation
  extends_readTransactionStatus extends_readTransactionControlType extends_readCleanupPolicy
  extends_readMessageExpiryAction extends_readTopicOrderingPolicy : codec.
