(* ===== verification/Messages.v ===== *)
(** * Wire protocol: messages

    The message structs of [src/protocol/topic_messages.go],
    [topic_priority.go], [group_messages.go], [transaction_messages.go] and
    [request_reply_messages.go], and the helper structs of [binary_reply.go]
    and [binary_group_commit_batch.go].  A field [F] of a struct [T] is
    [T_F].  [Body] is the Go [any] that [EncodeBody] and [DecodeBody] take: a
    value of one of the message types, with its dynamic type as constructor;
    [ReplyErrorResponse] and [FetchSubjectPatternItemResponse] are Go aliases
    and have no type of their own. *)

From stdpp Require Import prelude strings.
From S2P Require Import Prelude.

#[local] Open Scope Z_scope.

Record HandshakeRequest := mkHandshakeRequest {
  HandshakeRequest_ClientID : string;
  HandshakeRequest_Tenant : string;
  HandshakeRequest_Namespace : string;
  HandshakeRequest_Principal : string;
  HandshakeRequest_AuthToken : string;
  HandshakeRequest_Capabilities : list string
}.

Record HandshakeResponse := mkHandshakeResponse {
  HandshakeResponse_ServerID : string;
  HandshakeResponse_ProtocolVersion : Z;
  HandshakeResponse_Tenant : string;
  HandshakeResponse_Namespace : string;
  HandshakeResponse_Principal : string;
  HandshakeResponse_Capabilities : list string
}.

Record PingRequest := mkPingRequest {
  PingRequest_Nonce : Z
}.

Record PingResponse := mkPingResponse {
  PingResponse_Nonce : Z
}.

Record MessageHeader := mkMessageHeader {
  MessageHeader_Key : string;
  MessageHeader_Value : bytes
}.

Record TopicRetryPolicy := mkTopicRetryPolicy {
  TopicRetryPolicy_MaxAttempts : Z;
  TopicRetryPolicy_BackoffInitialMS : Z;
  TopicRetryPolicy_BackoffMaxMS : Z;
  TopicRetryPolicy_BackoffJitterFactor : Z
}.

Record TopicPriorityPolicy := mkTopicPriorityPolicy {
  TopicPriorityPolicy_Enabled : bool;
  TopicPriorityPolicy_Min : Z;
  TopicPriorityPolicy_Max : Z;
  TopicPriorityPolicy_Default : Z
}.

Record CreateTopicRequest := mkCreateTopicRequest {
  CreateTopicRequest_Topic : string;
  CreateTopicRequest_Partitions : Z;
  CreateTopicRequest_RetentionMaxBytes : option Z;
  CreateTopicRequest_CleanupPolicy : option string;
  CreateTopicRequest_MaxMessageBytes : option Z;
  CreateTopicRequest_MaxBatchBytes : option Z;
  CreateTopicRequest_RetentionMS : option Z;
  CreateTopicRequest_RetryPolicy : option TopicRetryPolicy;
  CreateTopicRequest_DeadLetterTopic : option string;
  CreateTopicRequest_DelayEnabled : option bool;
  CreateTopicRequest_MessageTTLMS : option Z;
  CreateTopicRequest_MessageExpiryAction : option string;
  CreateTopicRequest_CompactionEnabled : option bool;
  CreateTopicRequest_CompactionTombstoneRetentionMS : option Z;
  CreateTopicRequest_OrderingPolicy : option string;
  CreateTopicRequest_PriorityPolicy : option TopicPriorityPolicy
}.

Record CreateTopicResponse := mkCreateTopicResponse {
  CreateTopicResponse_Topic : string;
  CreateTopicResponse_Partitions : Z
}.

Record ListTopicsRequest := mkListTopicsRequest {
  ListTopicsRequest_Pattern : string
}.

Record ProduceIdempotency := mkProduceIdempotency {
  ProduceIdempotency_ProducerID : Z;
  ProduceIdempotency_ProducerEpoch : Z;
  ProduceIdempotency_BaseSequence : Z
}.

Record ProduceRequest := mkProduceRequest {
  ProduceRequest_Topic : string;
  ProduceRequest_Partition : option Z;
  ProduceRequest_Partitioning : string;
  ProduceRequest_RoutingKey : string;
  ProduceRequest_Idempotency : option ProduceIdempotency;
  ProduceRequest_Key : bytes;
  ProduceRequest_Headers : list MessageHeader;
  ProduceRequest_Tombstone : bool;
  ProduceRequest_ExpiresAtMS : option Z;
  ProduceRequest_Payload : bytes
}.

Record ProduceResponse := mkProduceResponse {
  ProduceResponse_Partition : Z;
  ProduceResponse_Offset : Z;
  ProduceResponse_NextOffset : Z
}.

Record ProduceBatchRecord := mkProduceBatchRecord {
  ProduceBatchRecord_RoutingKey : string;
  ProduceBatchRecord_Key : bytes;
  ProduceBatchRecord_Headers : list MessageHeader;
  ProduceBatchRecord_Tombstone : bool;
  ProduceBatchRecord_ExpiresAtMS : option Z;
  ProduceBatchRecord_Payload : bytes
}.

Record TransactionRecordMetadata := mkTransactionRecordMetadata {
  TransactionRecordMetadata_TxID : Z;
  TransactionRecordMetadata_ProducerID : Z;
  TransactionRecordMetadata_ProducerEpoch : Z;
  TransactionRecordMetadata_Sequence : Z;
  TransactionRecordMetadata_ControlType : string
}.

Record ProduceBatchRequest := mkProduceBatchRequest {
  ProduceBatchRequest_Topic : string;
  ProduceBatchRequest_Partition : option Z;
  ProduceBatchRequest_Partitioning : string;
  ProduceBatchRequest_RoutingKey : string;
  ProduceBatchRequest_Idempotency : option ProduceIdempotency;
  ProduceBatchRequest_Payloads : list bytes;
  ProduceBatchRequest_Records : list ProduceBatchRecord
}.

Record ProduceBatchResponse := mkProduceBatchResponse {
  ProduceBatchResponse_Partition : Z;
  ProduceBatchResponse_BaseOffset : Z;
  ProduceBatchResponse_LastOffset : Z;
  ProduceBatchResponse_NextOffset : Z;
  ProduceBatchResponse_Appended : Z
}.

Record ProduceBatchesItemRequest := mkProduceBatchesItemRequest {
  ProduceBatchesItemRequest_Topic : string;
  ProduceBatchesItemRequest_Partition : option Z;
  ProduceBatchesItemRequest_Partitioning : string;
  ProduceBatchesItemRequest_RoutingKey : string;
  ProduceBatchesItemRequest_Idempotency : option ProduceIdempotency;
  ProduceBatchesItemRequest_Payloads : list bytes;
  ProduceBatchesItemRequest_Records : list ProduceBatchRecord
}.

Record ProduceBatchesRequest := mkProduceBatchesRequest {
  ProduceBatchesRequest_Items : list ProduceBatchesItemRequest
}.

Record ProduceBatchesItemResponse := mkProduceBatchesItemResponse {
  ProduceBatchesItemResponse_Topic : string;
  ProduceBatchesItemResponse_Partition : Z;
  ProduceBatchesItemResponse_BaseOffset : Z;
  ProduceBatchesItemResponse_LastOffset : Z;
  ProduceBatchesItemResponse_NextOffset : Z;
  ProduceBatchesItemResponse_Appended : Z;
  ProduceBatchesItemResponse_Error : string
}.

Record ProduceBatchesResponse := mkProduceBatchesResponse {
  ProduceBatchesResponse_Items : list ProduceBatchesItemResponse
}.

Record ProduceFanoutRequest := mkProduceFanoutRequest {
  ProduceFanoutRequest_Topic : string;
  ProduceFanoutRequest_RoutingKey : string;
  ProduceFanoutRequest_Key : bytes;
  ProduceFanoutRequest_Headers : list MessageHeader;
  ProduceFanoutRequest_Tombstone : bool;
  ProduceFanoutRequest_ExpiresAtMS : option Z;
  ProduceFanoutRequest_Payload : bytes
}.

Record ProduceFanoutRecordResponse := mkProduceFanoutRecordResponse {
  ProduceFanoutRecordResponse_Partition : Z;
  ProduceFanoutRecordResponse_Offset : Z;
  ProduceFanoutRecordResponse_NextOffset : Z
}.

Record ProduceFanoutResponse := mkProduceFanoutResponse {
  ProduceFanoutResponse_Records : list ProduceFanoutRecordResponse
}.

Record FetchRequest := mkFetchRequest {
  FetchRequest_Consumer : string;
  FetchRequest_Topic : string;
  FetchRequest_Partition : Z;
  FetchRequest_Offset : option Z;
  FetchRequest_MaxRecords : Z;
  FetchRequest_MinRecords : option Z;
  FetchRequest_MaxWaitMS : option Z;
  FetchRequest_Isolation : string
}.

Record FetchRecord := mkFetchRecord {
  FetchRecord_Offset : Z;
  FetchRecord_TimestampMS : Z;
  FetchRecord_RoutingKey : string;
  FetchRecord_Key : bytes;
  FetchRecord_Headers : list MessageHeader;
  FetchRecord_Tombstone : bool;
  FetchRecord_ExpiresAtMS : option Z;
  FetchRecord_Transaction : option TransactionRecordMetadata;
  FetchRecord_Payload : bytes
}.

Record FetchResponse := mkFetchResponse {
  FetchResponse_Topic : string;
  FetchResponse_Partition : Z;
  FetchResponse_Records : list FetchRecord;
  FetchResponse_NextOffset : Z;
  FetchResponse_HighWatermark : option Z;
  FetchResponse_LowWatermark : option Z;
  FetchResponse_LogStartOffset : Z
}.

Record FetchBatchItemRequest := mkFetchBatchItemRequest {
  FetchBatchItemRequest_Topic : string;
  FetchBatchItemRequest_Partition : Z;
  FetchBatchItemRequest_Offset : option Z;
  FetchBatchItemRequest_MaxRecords : Z
}.

Record FetchBatchRequest := mkFetchBatchRequest {
  FetchBatchRequest_Consumer : string;
  FetchBatchRequest_Items : list FetchBatchItemRequest;
  FetchBatchRequest_MinRecords : option Z;
  FetchBatchRequest_MaxWaitMS : option Z;
  FetchBatchRequest_Isolation : string
}.

Record FetchBatchItemResponse := mkFetchBatchItemResponse {
  FetchBatchItemResponse_Topic : string;
  FetchBatchItemResponse_Partition : Z;
  FetchBatchItemResponse_Records : list FetchRecord;
  FetchBatchItemResponse_NextOffset : Z;
  FetchBatchItemResponse_HighWatermark : option Z;
  FetchBatchItemResponse_LowWatermark : option Z;
  FetchBatchItemResponse_LogStartOffset : Z
}.

Record FetchBatchResponse := mkFetchBatchResponse {
  FetchBatchResponse_Items : list FetchBatchItemResponse
}.

Record FetchSubjectPatternRequest := mkFetchSubjectPatternRequest {
  FetchSubjectPatternRequest_Consumer : string;
  FetchSubjectPatternRequest_Pattern : string;
  FetchSubjectPatternRequest_MaxRecords : Z;
  FetchSubjectPatternRequest_Isolation : string
}.

Record FetchSubjectPatternResponse := mkFetchSubjectPatternResponse {
  FetchSubjectPatternResponse_Pattern : string;
  FetchSubjectPatternResponse_Items : list FetchBatchItemResponse
}.

Record CommitOffsetRequest := mkCommitOffsetRequest {
  CommitOffsetRequest_Consumer : string;
  CommitOffsetRequest_Topic : string;
  CommitOffsetRequest_Partition : Z;
  CommitOffsetRequest_NextOffset : Z;
  CommitOffsetRequest_Metadata : string
}.

Record CommitOffsetResponse := mkCommitOffsetResponse {
  CommitOffsetResponse_Consumer : string;
  CommitOffsetResponse_Topic : string;
  CommitOffsetResponse_Partition : Z;
  CommitOffsetResponse_NextOffset : Z;
  CommitOffsetResponse_Metadata : string
}.

Record TopicMetadata := mkTopicMetadata {
  TopicMetadata_Topic : string;
  TopicMetadata_Partitions : Z
}.

Record ListTopicsResponse := mkListTopicsResponse {
  ListTopicsResponse_Topics : list TopicMetadata
}.

Record SendDirectRequest := mkSendDirectRequest {
  SendDirectRequest_Sender : string;
  SendDirectRequest_Recipient : string;
  SendDirectRequest_ConversationID : option string;
  SendDirectRequest_Payload : bytes
}.

Record SendDirectResponse := mkSendDirectResponse {
  SendDirectResponse_MessageID : string;
  SendDirectResponse_ConversationID : string;
  SendDirectResponse_Offset : Z;
  SendDirectResponse_NextOffset : Z
}.

Record FetchInboxRequest := mkFetchInboxRequest {
  FetchInboxRequest_Recipient : string;
  FetchInboxRequest_MaxRecords : Z
}.

Record DirectMessageRecord := mkDirectMessageRecord {
  DirectMessageRecord_Offset : Z;
  DirectMessageRecord_MessageID : string;
  DirectMessageRecord_ConversationID : string;
  DirectMessageRecord_Sender : string;
  DirectMessageRecord_Recipient : string;
  DirectMessageRecord_TimestampMS : Z;
  DirectMessageRecord_Payload : bytes
}.

Record FetchInboxResponse := mkFetchInboxResponse {
  FetchInboxResponse_Recipient : string;
  FetchInboxResponse_Records : list DirectMessageRecord;
  FetchInboxResponse_NextOffset : Z;
  FetchInboxResponse_HighWatermark : option Z;
  FetchInboxResponse_LowWatermark : option Z;
  FetchInboxResponse_LogStartOffset : Z
}.

Record AckDirectRequest := mkAckDirectRequest {
  AckDirectRequest_Recipient : string;
  AckDirectRequest_NextOffset : Z
}.

Record AckDirectResponse := mkAckDirectResponse {
  AckDirectResponse_Recipient : string;
  AckDirectResponse_NextOffset : Z
}.

Record JoinConsumerGroupRequest := mkJoinConsumerGroupRequest {
  JoinConsumerGroupRequest_Group : string;
  JoinConsumerGroupRequest_MemberID : string;
  JoinConsumerGroupRequest_Topics : list string;
  JoinConsumerGroupRequest_SessionTimeoutMS : Z;
  JoinConsumerGroupRequest_MaxPollIntervalMS : Z
}.

Record ConsumerGroupMemberLease := mkConsumerGroupMemberLease {
  ConsumerGroupMemberLease_Group : string;
  ConsumerGroupMemberLease_MemberID : string;
  ConsumerGroupMemberLease_Topics : list string;
  ConsumerGroupMemberLease_SessionTimeoutMS : Z;
  ConsumerGroupMemberLease_MaxPollIntervalMS : Z;
  ConsumerGroupMemberLease_JoinedAtMS : Z;
  ConsumerGroupMemberLease_LastHeartbeatMS : Z;
  ConsumerGroupMemberLease_LastPollMS : Z;
  ConsumerGroupMemberLease_ExpiresAtMS : Z;
  ConsumerGroupMemberLease_PollExpiresAtMS : Z
}.

Record JoinConsumerGroupResponse := mkJoinConsumerGroupResponse {
  JoinConsumerGroupResponse_Lease : ConsumerGroupMemberLease
}.

Record HeartbeatConsumerGroupRequest := mkHeartbeatConsumerGroupRequest {
  HeartbeatConsumerGroupRequest_Group : string;
  HeartbeatConsumerGroupRequest_MemberID : string;
  HeartbeatConsumerGroupRequest_SessionTimeoutMS : option Z;
  HeartbeatConsumerGroupRequest_MaxPollIntervalMS : option Z
}.

Record HeartbeatConsumerGroupResponse := mkHeartbeatConsumerGroupResponse {
  HeartbeatConsumerGroupResponse_Lease : ConsumerGroupMemberLease
}.

Record GroupPartitionAssignment := mkGroupPartitionAssignment {
  GroupPartitionAssignment_MemberID : string;
  GroupPartitionAssignment_Topic : string;
  GroupPartitionAssignment_Partition : Z
}.

Record ConsumerGroupAssignment := mkConsumerGroupAssignment {
  ConsumerGroupAssignment_Group : string;
  ConsumerGroupAssignment_Generation : Z;
  ConsumerGroupAssignment_Assignments : list GroupPartitionAssignment;
  ConsumerGroupAssignment_UpdatedAtMS : Z
}.

Record RebalanceConsumerGroupRequest := mkRebalanceConsumerGroupRequest {
  RebalanceConsumerGroupRequest_Group : string
}.

Record RebalanceConsumerGroupResponse := mkRebalanceConsumerGroupResponse {
  RebalanceConsumerGroupResponse_Assignment : ConsumerGroupAssignment
}.

Record GetConsumerGroupAssignmentRequest := mkGetConsumerGroupAssignmentRequest {
  GetConsumerGroupAssignmentRequest_Group : string
}.

Record GetConsumerGroupAssignmentResponse := mkGetConsumerGroupAssignmentResponse {
  GetConsumerGroupAssignmentResponse_Assignment : option ConsumerGroupAssignment
}.

Record FetchConsumerGroupRequest := mkFetchConsumerGroupRequest {
  FetchConsumerGroupRequest_Group : string;
  FetchConsumerGroupRequest_MemberID : string;
  FetchConsumerGroupRequest_Generation : Z;
  FetchConsumerGroupRequest_Topic : string;
  FetchConsumerGroupRequest_Partition : Z;
  FetchConsumerGroupRequest_Offset : option Z;
  FetchConsumerGroupRequest_MaxRecords : Z;
  FetchConsumerGroupRequest_MinRecords : option Z;
  FetchConsumerGroupRequest_MaxWaitMS : option Z;
  FetchConsumerGroupRequest_Isolation : string
}.

Record FetchConsumerGroupResponse := mkFetchConsumerGroupResponse {
  FetchConsumerGroupResponse_Group : string;
  FetchConsumerGroupResponse_MemberID : string;
  FetchConsumerGroupResponse_Generation : Z;
  FetchConsumerGroupResponse_Topic : string;
  FetchConsumerGroupResponse_Partition : Z;
  FetchConsumerGroupResponse_Records : list FetchRecord;
  FetchConsumerGroupResponse_NextOffset : Z;
  FetchConsumerGroupResponse_HighWatermark : option Z;
  FetchConsumerGroupResponse_LowWatermark : option Z;
  FetchConsumerGroupResponse_LogStartOffset : Z
}.

Record CommitConsumerGroupOffsetRequest := mkCommitConsumerGroupOffsetRequest {
  CommitConsumerGroupOffsetRequest_Group : string;
  CommitConsumerGroupOffsetRequest_MemberID : string;
  CommitConsumerGroupOffsetRequest_Generation : Z;
  CommitConsumerGroupOffsetRequest_Topic : string;
  CommitConsumerGroupOffsetRequest_Partition : Z;
  CommitConsumerGroupOffsetRequest_NextOffset : Z;
  CommitConsumerGroupOffsetRequest_Metadata : string
}.

Record CommitConsumerGroupOffsetResponse := mkCommitConsumerGroupOffsetResponse {
  CommitConsumerGroupOffsetResponse_Group : string;
  CommitConsumerGroupOffsetResponse_MemberID : string;
  CommitConsumerGroupOffsetResponse_Generation : Z;
  CommitConsumerGroupOffsetResponse_Topic : string;
  CommitConsumerGroupOffsetResponse_Partition : Z;
  CommitConsumerGroupOffsetResponse_NextOffset : Z;
  CommitConsumerGroupOffsetResponse_Metadata : string
}.

Record FetchConsumerGroupBatchRequest := mkFetchConsumerGroupBatchRequest {
  FetchConsumerGroupBatchRequest_Group : string;
  FetchConsumerGroupBatchRequest_MemberID : string;
  FetchConsumerGroupBatchRequest_Generation : Z;
  FetchConsumerGroupBatchRequest_Items : list FetchBatchItemRequest;
  FetchConsumerGroupBatchRequest_MinRecords : option Z;
  FetchConsumerGroupBatchRequest_MaxWaitMS : option Z;
  FetchConsumerGroupBatchRequest_Isolation : string
}.

Record FetchConsumerGroupBatchItemResponse := mkFetchConsumerGroupBatchItemResponse {
  FetchConsumerGroupBatchItemResponse_Topic : string;
  FetchConsumerGroupBatchItemResponse_Partition : Z;
  FetchConsumerGroupBatchItemResponse_Records : list FetchRecord;
  FetchConsumerGroupBatchItemResponse_NextOffset : Z;
  FetchConsumerGroupBatchItemResponse_HighWatermark : option Z;
  FetchConsumerGroupBatchItemResponse_LowWatermark : option Z;
  FetchConsumerGroupBatchItemResponse_LogStartOffset : Z
}.

Record FetchConsumerGroupBatchResponse := mkFetchConsumerGroupBatchResponse {
  FetchConsumerGroupBatchResponse_Group : string;
  FetchConsumerGroupBatchResponse_MemberID : string;
  FetchConsumerGroupBatchResponse_Generation : Z;
  FetchConsumerGroupBatchResponse_Items : list FetchConsumerGroupBatchItemResponse
}.

Record NackRequest := mkNackRequest {
  NackRequest_Consumer : string;
  NackRequest_Topic : string;
  NackRequest_Partition : Z;
  NackRequest_Offset : Z;
  NackRequest_LastError : option string
}.

Record NackResponse := mkNackResponse {
  NackResponse_RetryTopic : string;
  NackResponse_RetryPartition : Z;
  NackResponse_RetryOffset : Z;
  NackResponse_RetryNextOffset : Z;
  NackResponse_RetryCount : Z
}.

Record ProcessRetryRequest := mkProcessRetryRequest {
  ProcessRetryRequest_Consumer : string;
  ProcessRetryRequest_SourceTopic : string;
  ProcessRetryRequest_Partition : Z;
  ProcessRetryRequest_MaxRecords : Z
}.

Record ProcessRetryResponse := mkProcessRetryResponse {
  ProcessRetryResponse_RetryTopic : string;
  ProcessRetryResponse_Partition : Z;
  ProcessRetryResponse_MovedToOrigin : Z;
  ProcessRetryResponse_MovedToDeadLetter : Z;
  ProcessRetryResponse_CommittedNextOffset : option Z
}.

Record ScheduleDelayRequest := mkScheduleDelayRequest {
  ScheduleDelayRequest_Topic : string;
  ScheduleDelayRequest_Partition : Z;
  ScheduleDelayRequest_Payload : bytes;
  ScheduleDelayRequest_DeliverAtMS : Z
}.

Record ScheduleDelayResponse := mkScheduleDelayResponse {
  ScheduleDelayResponse_DelayTopic : string;
  ScheduleDelayResponse_Partition : Z;
  ScheduleDelayResponse_Offset : Z;
  ScheduleDelayResponse_NextOffset : Z;
  ScheduleDelayResponse_DeliverAtMS : Z
}.

Record ErrorResponse := mkErrorResponse {
  ErrorResponse_Code : string;
  ErrorResponse_Message : string
}.

Record TransactionIdentity := mkTransactionIdentity {
  TransactionIdentity_TxID : Z;
  TransactionIdentity_ProducerID : Z;
  TransactionIdentity_ProducerEpoch : Z
}.

Record TxBeginRequest := mkTxBeginRequest {
  TxBeginRequest_TransactionalID : string;
  TxBeginRequest_TimeoutMS : Z
}.

Record TxBeginResponse := mkTxBeginResponse {
  TxBeginResponse_Identity : TransactionIdentity;
  TxBeginResponse_ExpiresAtMS : Z;
  TxBeginResponse_Status : string
}.

Record TxPublishRequest := mkTxPublishRequest {
  TxPublishRequest_Identity : TransactionIdentity;
  TxPublishRequest_Sequence : Z;
  TxPublishRequest_Topic : string;
  TxPublishRequest_Partition : option Z;
  TxPublishRequest_Partitioning : string;
  TxPublishRequest_RoutingKey : string;
  TxPublishRequest_Key : bytes;
  TxPublishRequest_Headers : list MessageHeader;
  TxPublishRequest_Tombstone : bool;
  TxPublishRequest_Payload : bytes
}.

Record TxPublishResponse := mkTxPublishResponse {
  TxPublishResponse_TxID : Z;
  TxPublishResponse_Partition : Z;
  TxPublishResponse_Offset : Z;
  TxPublishResponse_NextOffset : Z
}.

Record TxPublishBatchRequest := mkTxPublishBatchRequest {
  TxPublishBatchRequest_Identity : TransactionIdentity;
  TxPublishBatchRequest_BaseSequence : Z;
  TxPublishBatchRequest_Topic : string;
  TxPublishBatchRequest_Partition : option Z;
  TxPublishBatchRequest_Partitioning : string;
  TxPublishBatchRequest_RoutingKey : string;
  TxPublishBatchRequest_Payloads : list bytes;
  TxPublishBatchRequest_Records : list ProduceBatchRecord
}.

Record TxPublishBatchResponse := mkTxPublishBatchResponse {
  TxPublishBatchResponse_TxID : Z;
  TxPublishBatchResponse_Partition : Z;
  TxPublishBatchResponse_BaseOffset : Z;
  TxPublishBatchResponse_LastOffset : Z;
  TxPublishBatchResponse_NextOffset : Z;
  TxPublishBatchResponse_Appended : Z
}.

Record TxCommitOffsetRequest := mkTxCommitOffsetRequest {
  TxCommitOffsetRequest_Identity : TransactionIdentity;
  TxCommitOffsetRequest_Consumer : string;
  TxCommitOffsetRequest_Group : string;
  TxCommitOffsetRequest_MemberID : string;
  TxCommitOffsetRequest_Generation : Z;
  TxCommitOffsetRequest_Topic : string;
  TxCommitOffsetRequest_Partition : Z;
  TxCommitOffsetRequest_NextOffset : Z;
  TxCommitOffsetRequest_Metadata : string
}.

Record TxCommitOffsetResponse := mkTxCommitOffsetResponse {
  TxCommitOffsetResponse_TxID : Z;
  TxCommitOffsetResponse_Consumer : string;
  TxCommitOffsetResponse_Group : string;
  TxCommitOffsetResponse_Topic : string;
  TxCommitOffsetResponse_Partition : Z;
  TxCommitOffsetResponse_NextOffset : Z;
  TxCommitOffsetResponse_Metadata : string
}.

Record TxCommitRequest := mkTxCommitRequest {
  TxCommitRequest_Identity : TransactionIdentity
}.

Record TxCommitResponse := mkTxCommitResponse {
  TxCommitResponse_TxID : Z;
  TxCommitResponse_Status : string
}.

Record TxAbortRequest := mkTxAbortRequest {
  TxAbortRequest_Identity : TransactionIdentity
}.

Record TxAbortResponse := mkTxAbortResponse {
  TxAbortResponse_TxID : Z;
  TxAbortResponse_Status : string
}.

Record StartRequestRequest := mkStartRequestRequest {
  StartRequestRequest_Subject : string;
  StartRequestRequest_InstanceID : string;
  StartRequestRequest_TimeoutMS : option Z;
  StartRequestRequest_PollIntervalMS : option Z;
  StartRequestRequest_Partition : option Z;
  StartRequestRequest_Partitioning : string;
  StartRequestRequest_ReplyMode : string;
  StartRequestRequest_Headers : list MessageHeader;
  StartRequestRequest_Payload : bytes
}.

Record StartRequestResponse := mkStartRequestResponse {
  StartRequestResponse_Subject : string;
  StartRequestResponse_InstanceID : string;
  StartRequestResponse_ReplyTo : string;
  StartRequestResponse_CorrelationID : string;
  StartRequestResponse_ExpiresAtMS : Z;
  StartRequestResponse_ReplyMode : string;
  StartRequestResponse_Partition : Z;
  StartRequestResponse_Offset : Z;
  StartRequestResponse_NextOffset : Z
}.

Record FetchRequestsRequest := mkFetchRequestsRequest {
  FetchRequestsRequest_Consumer : string;
  FetchRequestsRequest_Subject : string;
  FetchRequestsRequest_Partition : Z;
  FetchRequestsRequest_Offset : option Z;
  FetchRequestsRequest_MaxRecords : Z;
  FetchRequestsRequest_MinRecords : option Z;
  FetchRequestsRequest_MaxWaitMS : option Z;
  FetchRequestsRequest_Isolation : string
}.

Record RequestRecord := mkRequestRecord {
  RequestRecord_Offset : Z;
  RequestRecord_TimestampMS : Z;
  RequestRecord_Subject : string;
  RequestRecord_ReplyTo : string;
  RequestRecord_CorrelationID : string;
  RequestRecord_SenderID : string;
  RequestRecord_ExpiresAtMS : Z;
  RequestRecord_ReplyMode : string;
  RequestRecord_Headers : list MessageHeader;
  RequestRecord_Payload : bytes
}.

Record FetchRequestsResponse := mkFetchRequestsResponse {
  FetchRequestsResponse_Subject : string;
  FetchRequestsResponse_Partition : Z;
  FetchRequestsResponse_Requests : list RequestRecord;
  FetchRequestsResponse_NextOffset : Z;
  FetchRequestsResponse_HighWatermark : option Z;
  FetchRequestsResponse_LowWatermark : option Z;
  FetchRequestsResponse_LogStartOffset : Z
}.

Record ReplyRequest := mkReplyRequest {
  ReplyRequest_Subject : string;
  ReplyRequest_ReplyTo : string;
  ReplyRequest_CorrelationID : string;
  ReplyRequest_ExpiresAtMS : Z;
  ReplyRequest_ResponderID : string;
  ReplyRequest_Payload : bytes
}.

Record ReplyResponse := mkReplyResponse {
  ReplyResponse_MessageID : string;
  ReplyResponse_ConversationID : string;
  ReplyResponse_Offset : Z;
  ReplyResponse_NextOffset : Z
}.

Record ReplyErrorRequest := mkReplyErrorRequest {
  ReplyErrorRequest_Subject : string;
  ReplyErrorRequest_ReplyTo : string;
  ReplyErrorRequest_CorrelationID : string;
  ReplyErrorRequest_ExpiresAtMS : Z;
  ReplyErrorRequest_ResponderID : string;
  ReplyErrorRequest_Error : string
}.

Record AwaitReplyRequest := mkAwaitReplyRequest {
  AwaitReplyRequest_ReplyTo : string;
  AwaitReplyRequest_CorrelationID : string;
  AwaitReplyRequest_ExpiresAtMS : Z;
  AwaitReplyRequest_TimeoutMS : option Z;
  AwaitReplyRequest_PollIntervalMS : option Z
}.

Record AwaitRepliesRequest := mkAwaitRepliesRequest {
  AwaitRepliesRequest_ReplyTo : string;
  AwaitRepliesRequest_CorrelationID : string;
  AwaitRepliesRequest_ExpiresAtMS : Z;
  AwaitRepliesRequest_TimeoutMS : option Z;
  AwaitRepliesRequest_PollIntervalMS : option Z;
  AwaitRepliesRequest_MaxReplies : Z
}.

Record ReplyRecord := mkReplyRecord {
  ReplyRecord_Offset : Z;
  ReplyRecord_MessageID : string;
  ReplyRecord_TimestampMS : Z;
  ReplyRecord_Subject : string;
  ReplyRecord_CorrelationID : string;
  ReplyRecord_ResponderID : string;
  ReplyRecord_Error : option string;
  ReplyRecord_Payload : bytes
}.

Record AwaitReplyResponse := mkAwaitReplyResponse {
  AwaitReplyResponse_Reply : ReplyRecord
}.

Record AwaitRepliesResponse := mkAwaitRepliesResponse {
  AwaitRepliesResponse_Replies : list ReplyRecord
}.

Record replyRoutingFields := mkreplyRoutingFields {
  replyRoutingFields_subject : string;
  replyRoutingFields_replyTo : string;
  replyRoutingFields_correlationID : string;
  replyRoutingFields_expiresAtMS : Z;
  replyRoutingFields_responderID : string
}.

Record replyFields := mkreplyFields {
  replyFields_routing : replyRoutingFields;
  replyFields_payload : bytes
}.

Record groupOffsetFields := mkgroupOffsetFields {
  groupOffsetFields_group : string;
  groupOffsetFields_memberID : string;
  groupOffsetFields_generation : Z;
  groupOffsetFields_topic : string;
  groupOffsetFields_partition : Z;
  groupOffsetFields_nextOffset : Z;
  groupOffsetFields_metadata : string
}.

(** ** [any] *)

Inductive Body :=
| Body_HandshakeRequest (v : HandshakeRequest)
| Body_HandshakeResponse (v : HandshakeResponse)
| Body_PingRequest (v : PingRequest)
| Body_PingResponse (v : PingResponse)
| Body_CreateTopicRequest (v : CreateTopicRequest)
| Body_CreateTopicResponse (v : CreateTopicResponse)
| Body_ListTopicsRequest (v : ListTopicsRequest)
| Body_ListTopicsResponse (v : ListTopicsResponse)
| Body_ProduceRequest (v : ProduceRequest)
| Body_ProduceResponse (v : ProduceResponse)
| Body_ProduceBatchRequest (v : ProduceBatchRequest)
| Body_ProduceBatchResponse (v : ProduceBatchResponse)
| Body_ProduceBatchesRequest (v : ProduceBatchesRequest)
| Body_ProduceBatchesResponse (v : ProduceBatchesResponse)
| Body_ProduceFanoutRequest (v : ProduceFanoutRequest)
| Body_ProduceFanoutResponse (v : ProduceFanoutResponse)
| Body_FetchRequest (v : FetchRequest)
| Body_FetchResponse (v : FetchResponse)
| Body_FetchBatchRequest (v : FetchBatchRequest)
| Body_FetchBatchResponse (v : FetchBatchResponse)
| Body_FetchSubjectPatternRequest (v : FetchSubjectPatternRequest)
| Body_FetchSubjectPatternResponse (v : FetchSubjectPatternResponse)
| Body_CommitOffsetRequest (v : CommitOffsetRequest)
| Body_CommitOffsetResponse (v : CommitOffsetResponse)
| Body_SendDirectRequest (v : SendDirectRequest)
| Body_SendDirectResponse (v : SendDirectResponse)
| Body_FetchInboxRequest (v : FetchInboxRequest)
| Body_FetchInboxResponse (v : FetchInboxResponse)
| Body_AckDirectRequest (v : AckDirectRequest)
| Body_AckDirectResponse (v : AckDirectResponse)
| Body_JoinConsumerGroupRequest (v : JoinConsumerGroupRequest)
| Body_JoinConsumerGroupResponse (v : JoinConsumerGroupResponse)
| Body_HeartbeatConsumerGroupRequest (v : HeartbeatConsumerGroupRequest)
| Body_HeartbeatConsumerGroupResponse (v : HeartbeatConsumerGroupResponse)
| Body_RebalanceConsumerGroupRequest (v : RebalanceConsumerGroupRequest)
| Body_RebalanceConsumerGroupResponse (v : RebalanceConsumerGroupResponse)
| Body_GetConsumerGroupAssignmentRequest (v : GetConsumerGroupAssignmentRequest)
| Body_GetConsumerGroupAssignmentResponse (v : GetConsumerGroupAssignmentResponse)
| Body_FetchConsumerGroupRequest (v : FetchConsumerGroupRequest)
| Body_FetchConsumerGroupResponse (v : FetchConsumerGroupResponse)
| Body_CommitConsumerGroupOffsetRequest (v : CommitConsumerGroupOffsetRequest)
| Body_CommitConsumerGroupOffsetResponse (v : CommitConsumerGroupOffsetResponse)
| Body_FetchConsumerGroupBatchRequest (v : FetchConsumerGroupBatchRequest)
| Body_FetchConsumerGroupBatchResponse (v : FetchConsumerGroupBatchResponse)
| Body_NackRequest (v : NackRequest)
| Body_NackResponse (v : NackResponse)
| Body_ProcessRetryRequest (v : ProcessRetryRequest)
| Body_ProcessRetryResponse (v : ProcessRetryResponse)
| Body_ScheduleDelayRequest (v : ScheduleDelayRequest)
| Body_ScheduleDelayResponse (v : ScheduleDelayResponse)
| Body_TxBeginRequest (v : TxBeginRequest)
| Body_TxBeginResponse (v : TxBeginResponse)
| Body_TxPublishRequest (v : TxPublishRequest)
| Body_TxPublishResponse (v : TxPublishResponse)
| Body_TxPublishBatchRequest (v : TxPublishBatchRequest)
| Body_TxPublishBatchResponse (v : TxPublishBatchResponse)
| Body_TxCommitOffsetRequest (v : TxCommitOffsetRequest)
| Body_TxCommitOffsetResponse (v : TxCommitOffsetResponse)
| Body_TxCommitRequest (v : TxCommitRequest)
| Body_TxCommitResponse (v : TxCommitResponse)
| Body_TxAbortRequest (v : TxAbortRequest)
| Body_TxAbortResponse (v : TxAbortResponse)
| Body_StartRequestRequest (v : StartRequestRequest)
| Body_StartRequestResponse (v : StartRequestResponse)
| Body_FetchRequestsRequest (v : FetchRequestsRequest)
| Body_FetchRequestsResponse (v : FetchRequestsResponse)
| Body_ReplyRequest (v : ReplyRequest)
| Body_ReplyResponse (v : ReplyResponse)
| Body_ReplyErrorRequest (v : ReplyErrorRequest)
| Body_AwaitReplyRequest (v : AwaitReplyRequest)
| Body_AwaitReplyResponse (v : AwaitReplyResponse)
| Body_AwaitRepliesRequest (v : AwaitRepliesRequest)
| Body_AwaitRepliesResponse (v : AwaitRepliesResponse)
| Body_ErrorResponse (v : ErrorResponse).

(** The type assertion [value.(T)]. *)
Class Message (T : Type) := {
  inject : T -> Body;
  assert_type : Body -> option T;
  assert_inject : forall v, assert_type (inject v) = Some v;
  inject_assert : forall b v, assert_type b = Some v -> b = inject v
}.

Ltac message_laws := [> done | intros b v E; destruct b; congruence ].

#[global] Instance Message_HandshakeRequest : Message HandshakeRequest.
Proof.
  refine {| inject := Body_HandshakeRequest; assert_type := fun b => match b with Body_HandshakeRequest v => Some v | _ => None end |};
    message_laws.
Defined.

#[global] Instance Message_HandshakeResponse : Message HandshakeResponse.
Proof.
  refine {| inject := Body_HandshakeResponse; assert_type := fun b => match b with Body_HandshakeResponse v => Some v | _ => None end |};
    message_laws.
Defined.

#[global] Instance Message_PingRequest : Message PingRequest.
Proof.
  refine {| inject := Body_PingRequest; assert_type := fun b => match b with Body_PingRequest v => Some v | _ => None end |};
    message_laws.
Defined.

#[global] Instance Message_PingResponse : Message PingResponse.
Proof.
  refine {| inject := Body_PingResponse; assert_type := fun b => match b with Body_PingResponse v => Some v | _ => None end |};
    message_laws.
Defined.

#[global] Instance Message_CreateTopicRequest : Message CreateTopicRequest.
Proof.
  refine {| inject := Body_CreateTopicRequest; assert_type := fun b => match b with Body_CreateTopicRequest v => Some v | _ => None end |};
    message_laws.
Defined.

#[global] Instance Message_CreateTopicResponse : Message CreateTopicResponse.
Proof.
  refine {| inject := Body_CreateTopicResponse; assert_type := fun b => match b with Body_CreateTopicResponse v => Some v | _ => None end |};
    message_laws.
Defined.

#[global] Instance Message_ListTopicsRequest : Message ListTopicsRequest.
Proof.
  refine {| inject := Body_ListTopicsRequest; assert_type := fun b => match b with Body_ListTopicsRequest v => Some v | _ => None end |};
    message_laws.
Defined.

#[global] Instance Message_ListTopicsResponse : Message ListTopicsResponse.
Proof.
  refine {| inject := Body_ListTopicsResponse; assert_type := fun b => match b with Body_ListTopicsResponse v => Some v | _ => None end |};
    message_laws.
Defined.

#[global] Instance Message_ProduceRequest : Message ProduceRequest.
Proof.
  refine {| inject := Body_ProduceRequest; assert_type := fun b => match b with Body_ProduceRequest v => Some v | _ => None end |};
    message_laws.
Defined.

#[global] Instance Message_ProduceResponse : Message ProduceResponse.
Proof.
  refine {| inject := Body_ProduceResponse; assert_type := fun b => match b with Body_ProduceResponse v => Some v | _ => None end |};
    message_laws.
Defined.

#[global] Instance Message_ProduceBatchRequest : Message ProduceBatchRequest.
Proof.
  refine {| inject := Body_ProduceBatchRequest; assert_type := fun b => match b with Body_ProduceBatchRequest v => Some v | _ => None end |};
    message_laws.
Defined.

#[global] Instance Message_ProduceBatchResponse : Message ProduceBatchResponse.
Proof.
  refine {| inject := Body_ProduceBatchResponse; assert_type := fun b => match b with Body_ProduceBatchResponse v => Some v | _ => None end |};
    message_laws.
Defined.

#[global] Instance Message_ProduceBatchesRequest : Message ProduceBatchesRequest.
Proof.
  refine {| inject := Body_ProduceBatchesRequest; assert_type := fun b => match b with Body_ProduceBatchesRequest v => Some v | _ => None end |};
    message_laws.
Defined.

#[global] Instance Message_ProduceBatchesResponse : Message ProduceBatchesResponse.
Proof.
  refine {| inject := Body_ProduceBatchesResponse; assert_type := fun b => match b with Body_ProduceBatchesResponse v => Some v | _ => None end |};
    message_laws.
Defined.

#[global] Instance Message_ProduceFanoutRequest : Message ProduceFanoutRequest.
Proof.
  refine {| inject := Body_ProduceFanoutRequest; assert_type := fun b => match b with Body_ProduceFanoutRequest v => Some v | _ => None end |};
    message_laws.
Defined.

#[global] Instance Message_ProduceFanoutResponse : Message ProduceFanoutResponse.
Proof.
  refine {| inject := Body_ProduceFanoutResponse; assert_type := fun b => match b with Body_ProduceFanoutResponse v => Some v | _ => None end |};
    message_laws.
Defined.

#[global] Instance Message_FetchRequest : Message FetchRequest.
Proof.
  refine {| inject := Body_FetchRequest; assert_type := fun b => match b with Body_FetchRequest v => Some v | _ => None end |};
    message_laws.
Defined.

#[global] Instance Message_FetchResponse : Message FetchResponse.
Proof.
  refine {| inject := Body_FetchResponse; assert_type := fun b => match b with Body_FetchResponse v => Some v | _ => None end |};
    message_laws.
Defined.

#[global] Instance Message_FetchBatchRequest : Message FetchBatchRequest.
Proof.
  refine {| inject := Body_FetchBatchRequest; assert_type := fun b => match b with Body_FetchBatchRequest v => Some v | _ => None end |};
    message_laws.
Defined.

#[global] Instance Message_FetchBatchResponse : Message FetchBatchResponse.
Proof.
  refine {| inject := Body_FetchBatchResponse; assert_type := fun b => match b with Body_FetchBatchResponse v => Some v | _ => None end |};
    message_laws.
Defined.

#[global] Instance Message_FetchSubjectPatternRequest : Message FetchSubjectPatternRequest.
Proof.
  refine {| inject := Body_FetchSubjectPatternRequest; assert_type := fun b => match b with Body_FetchSubjectPatternRequest v => Some v | _ => None end |};
    message_laws.
Defined.

#[global] Instance Message_FetchSubjectPatternResponse : Message FetchSubjectPatternResponse.
Proof.
  refine {| inject := Body_FetchSubjectPatternResponse; assert_type := fun b => match b with Body_FetchSubjectPatternResponse v => Some v | _ => None end |};
    message_laws.
Defined.

#[global] Instance Message_CommitOffsetRequest : Message CommitOffsetRequest.
Proof.
  refine {| inject := Body_CommitOffsetRequest; assert_type := fun b => match b with Body_CommitOffsetRequest v => Some v | _ => None end |};
    message_laws.
Defined.

#[global] Instance Message_CommitOffsetResponse : Message CommitOffsetResponse.
Proof.
  refine {| inject := Body_CommitOffsetResponse; assert_type := fun b => match b with Body_CommitOffsetResponse v => Some v | _ => None end |};
    message_laws.
Defined.

#[global] Instance Message_SendDirectRequest : Message SendDirectRequest.
Proof.
  refine {| inject := Body_SendDirectRequest; assert_type := fun b => match b with Body_SendDirectRequest v => Some v | _ => None end |};
    message_laws.
Defined.

#[global] Instance Message_SendDirectResponse : Message SendDirectResponse.
Proof.
  refine {| inject := Body_SendDirectResponse; assert_type := fun b => match b with Body_SendDirectResponse v => Some v | _ => None end |};
    message_laws.
Defined.

#[global] Instance Message_FetchInboxRequest : Message FetchInboxRequest.
Proof.
  refine {| inject := Body_FetchInboxRequest; assert_type := fun b => match b with Body_FetchInboxRequest v => Some v | _ => None end |};
    message_laws.
Defined.

#[global] Instance Message_FetchInboxResponse : Message FetchInboxResponse.
Proof.
  refine {| inject := Body_FetchInboxResponse; assert_type := fun b => match b with Body_FetchInboxResponse v => Some v | _ => None end |};
    message_laws.
Defined.

#[global] Instance Message_AckDirectRequest : Message AckDirectRequest.
Proof.
  refine {| inject := Body_AckDirectRequest; assert_type := fun b => match b with Body_AckDirectRequest v => Some v | _ => None end |};
    message_laws.
Defined.

#[global] Instance Message_AckDirectResponse : Message AckDirectResponse.
Proof.
  refine {| inject := Body_AckDirectResponse; assert_type := fun b => match b with Body_AckDirectResponse v => Some v | _ => None end |};
    message_laws.
Defined.

#[global] Instance Message_JoinConsumerGroupRequest : Message JoinConsumerGroupRequest.
Proof.
  refine {| inject := Body_JoinConsumerGroupRequest; assert_type := fun b => match b with Body_JoinConsumerGroupRequest v => Some v | _ => None end |};
    message_laws.
Defined.

#[global] Instance Message_JoinConsumerGroupResponse : Message JoinConsumerGroupResponse.
Proof.
  refine {| inject := Body_JoinConsumerGroupResponse; assert_type := fun b => match b with Body_JoinConsumerGroupResponse v => Some v | _ => None end |};
    message_laws.
Defined.

#[global] Instance Message_HeartbeatConsumerGroupRequest : Message HeartbeatConsumerGroupRequest.
Proof.
  refine {| inject := Body_HeartbeatConsumerGroupRequest; assert_type := fun b => match b with Body_HeartbeatConsumerGroupRequest v => Some v | _ => None end |};
    message_laws.
Defined.

#[global] Instance Message_HeartbeatConsumerGroupResponse : Message HeartbeatConsumerGroupResponse.
Proof.
  refine {| inject := Body_HeartbeatConsumerGroupResponse; assert_type := fun b => match b with Body_HeartbeatConsumerGroupResponse v => Some v | _ => None end |};
    message_laws.
Defined.

#[global] Instance Message_RebalanceConsumerGroupRequest : Message RebalanceConsumerGroupRequest.
Proof.
  refine {| inject := Body_RebalanceConsumerGroupRequest; assert_type := fun b => match b with Body_RebalanceConsumerGroupRequest v => Some v | _ => None end |};
    message_laws.
Defined.

#[global] Instance Message_RebalanceConsumerGroupResponse : Message RebalanceConsumerGroupResponse.
Proof.
  refine {| inject := Body_RebalanceConsumerGroupResponse; assert_type := fun b => match b with Body_RebalanceConsumerGroupResponse v => Some v | _ => None end |};
    message_laws.
Defined.

#[global] Instance Message_GetConsumerGroupAssignmentRequest : Message GetConsumerGroupAssignmentRequest.
Proof.
  refine {| inject := Body_GetConsumerGroupAssignmentRequest; assert_type := fun b => match b with Body_GetConsumerGroupAssignmentRequest v => Some v | _ => None end |};
    message_laws.
Defined.

#[global] Instance Message_GetConsumerGroupAssignmentResponse : Message GetConsumerGroupAssignmentResponse.
Proof.
  refine {| inject := Body_GetConsumerGroupAssignmentResponse; assert_type := fun b => match b with Body_GetConsumerGroupAssignmentResponse v => Some v | _ => None end |};
    message_laws.
Defined.

#[global] Instance Message_FetchConsumerGroupRequest : Message FetchConsumerGroupRequest.
Proof.
  refine {| inject := Body_FetchConsumerGroupRequest; assert_type := fun b => match b with Body_FetchConsumerGroupRequest v => Some v | _ => None end |};
    message_laws.
Defined.

#[global] Instance Message_FetchConsumerGroupResponse : Message FetchConsumerGroupResponse.
Proof.
  refine {| inject := Body_FetchConsumerGroupResponse; assert_type := fun b => match b with Body_FetchConsumerGroupResponse v => Some v | _ => None end |};
    message_laws.
Defined.

#[global] Instance Message_CommitConsumerGroupOffsetRequest : Message CommitConsumerGroupOffsetRequest.
Proof.
  refine {| inject := Body_CommitConsumerGroupOffsetRequest; assert_type := fun b => match b with Body_CommitConsumerGroupOffsetRequest v => Some v | _ => None end |};
    message_laws.
Defined.

#[global] Instance Message_CommitConsumerGroupOffsetResponse : Message CommitConsumerGroupOffsetResponse.
Proof.
  refine {| inject := Body_CommitConsumerGroupOffsetResponse; assert_type := fun b => match b with Body_CommitConsumerGroupOffsetResponse v => Some v | _ => None end |};
    message_laws.
Defined.

#[global] Instance Message_FetchConsumerGroupBatchRequest : Message FetchConsumerGroupBatchRequest.
Proof.
  refine {| inject := Body_FetchConsumerGroupBatchRequest; assert_type := fun b => match b with Body_FetchConsumerGroupBatchRequest v => Some v | _ => None end |};
    message_laws.
Defined.

#[global] Instance Message_FetchConsumerGroupBatchResponse : Message FetchConsumerGroupBatchResponse.
Proof.
  refine {| inject := Body_FetchConsumerGroupBatchResponse; assert_type := fun b => match b with Body_FetchConsumerGroupBatchResponse v => Some v | _ => None end |};
    message_laws.
Defined.

#[global] Instance Message_NackRequest : Message NackRequest.
Proof.
  refine {| inject := Body_NackRequest; assert_type := fun b => match b with Body_NackRequest v => Some v | _ => None end |};
    message_laws.
Defined.

#[global] Instance Message_NackResponse : Message NackResponse.
Proof.
  refine {| inject := Body_NackResponse; assert_type := fun b => match b with Body_NackResponse v => Some v | _ => None end |};
    message_laws.
Defined.

#[global] Instance Message_ProcessRetryRequest : Message ProcessRetryRequest.
Proof.
  refine {| inject := Body_ProcessRetryRequest; assert_type := fun b => match b with Body_ProcessRetryRequest v => Some v | _ => None end |};
    message_laws.
Defined.

#[global] Instance Message_ProcessRetryResponse : Message ProcessRetryResponse.
Proof.
  refine {| inject := Body_ProcessRetryResponse; assert_type := fun b => match b with Body_ProcessRetryResponse v => Some v | _ => None end |};
    message_laws.
Defined.

#[global] Instance Message_ScheduleDelayRequest : Message ScheduleDelayRequest.
Proof.
  refine {| inject := Body_ScheduleDelayRequest; assert_type := fun b => match b with Body_ScheduleDelayRequest v => Some v | _ => None end |};
    message_laws.
Defined.

#[global] Instance Message_ScheduleDelayResponse : Message ScheduleDelayResponse.
Proof.
  refine {| inject := Body_ScheduleDelayResponse; assert_type := fun b => match b with Body_ScheduleDelayResponse v => Some v | _ => None end |};
    message_laws.
Defined.

#[global] Instance Message_TxBeginRequest : Message TxBeginRequest.
Proof.
  refine {| inject := Body_TxBeginRequest; assert_type := fun b => match b with Body_TxBeginRequest v => Some v | _ => None end |};
    message_laws.
Defined.

#[global] Instance Message_TxBeginResponse : Message TxBeginResponse.
Proof.
  refine {| inject := Body_TxBeginResponse; assert_type := fun b => match b with Body_TxBeginResponse v => Some v | _ => None end |};
    message_laws.
Defined.

#[global] Instance Message_TxPublishRequest : Message TxPublishRequest.
Proof.
  refine {| inject := Body_TxPublishRequest; assert_type := fun b => match b with Body_TxPublishRequest v => Some v | _ => None end |};
    message_laws.
Defined.

#[global] Instance Message_TxPublishResponse : Message TxPublishResponse.
Proof.
  refine {| inject := Body_TxPublishResponse; assert_type := fun b => match b with Body_TxPublishResponse v => Some v | _ => None end |};
    message_laws.
Defined.

#[global] Instance Message_TxPublishBatchRequest : Message TxPublishBatchRequest.
Proof.
  refine {| inject := Body_TxPublishBatchRequest; assert_type := fun b => match b with Body_TxPublishBatchRequest v => Some v | _ => None end |};
    message_laws.
Defined.

#[global] Instance Message_TxPublishBatchResponse : Message TxPublishBatchResponse.
Proof.
  refine {| inject := Body_TxPublishBatchResponse; assert_type := fun b => match b with Body_TxPublishBatchResponse v => Some v | _ => None end |};
    message_laws.
Defined.

#[global] Instance Message_TxCommitOffsetRequest : Message TxCommitOffsetRequest.
Proof.
  refine {| inject := Body_TxCommitOffsetRequest; assert_type := fun b => match b with Body_TxCommitOffsetRequest v => Some v | _ => None end |};
    message_laws.
Defined.

#[global] Instance Message_TxCommitOffsetResponse : Message TxCommitOffsetResponse.
Proof.
  refine {| inject := Body_TxCommitOffsetResponse; assert_type := fun b => match b with Body_TxCommitOffsetResponse v => Some v | _ => None end |};
    message_laws.
Defined.

#[global] Instance Message_TxCommitRequest : Message TxCommitRequest.
Proof.
  refine {| inject := Body_TxCommitRequest; assert_type := fun b => match b with Body_TxCommitRequest v => Some v | _ => None end |};
    message_laws.
Defined.

#[global] Instance Message_TxCommitResponse : Message TxCommitResponse.
Proof.
  refine {| inject := Body_TxCommitResponse; assert_type := fun b => match b with Body_TxCommitResponse v => Some v | _ => None end |};
    message_laws.
Defined.

#[global] Instance Message_TxAbortRequest : Message TxAbortRequest.
Proof.
  refine {| inject := Body_TxAbortRequest; assert_type := fun b => match b with Body_TxAbortRequest v => Some v | _ => None end |};
    message_laws.
Defined.

#[global] Instance Message_TxAbortResponse : Message TxAbortResponse.
Proof.
  refine {| inject := Body_TxAbortResponse; assert_type := fun b => match b with Body_TxAbortResponse v => Some v | _ => None end |};
    message_laws.
Defined.

#[global] Instance Message_StartRequestRequest : Message StartRequestRequest.
Proof.
  refine {| inject := Body_StartRequestRequest; assert_type := fun b => match b with Body_StartRequestRequest v => Some v | _ => None end |};
    message_laws.
Defined.

#[global] Instance Message_StartRequestResponse : Message StartRequestResponse.
Proof.
  refine {| inject := Body_StartRequestResponse; assert_type := fun b => match b with Body_StartRequestResponse v => Some v | _ => None end |};
    message_laws.
Defined.

#[global] Instance Message_FetchRequestsRequest : Message FetchRequestsRequest.
Proof.
  refine {| inject := Body_FetchRequestsRequest; assert_type := fun b => match b with Body_FetchRequestsRequest v => Some v | _ => None end |};
    message_laws.
Defined.

#[global] Instance Message_FetchRequestsResponse : Message FetchRequestsResponse.
Proof.
  refine {| inject := Body_FetchRequestsResponse; assert_type := fun b => match b with Body_FetchRequestsResponse v => Some v | _ => None end |};
    message_laws.
Defined.

#[global] Instance Message_ReplyRequest : Message ReplyRequest.
Proof.
  refine {| inject := Body_ReplyRequest; assert_type := fun b => match b with Body_ReplyRequest v => Some v | _ => None end |};
    message_laws.
Defined.

#[global] Instance Message_ReplyResponse : Message ReplyResponse.
Proof.
  refine {| inject := Body_ReplyResponse; assert_type := fun b => match b with Body_ReplyResponse v => Some v | _ => None end |};
    message_laws.
Defined.

#[global] Instance Message_ReplyErrorRequest : Message ReplyErrorRequest.
Proof.
  refine {| inject := Body_ReplyErrorRequest; assert_type := fun b => match b with Body_ReplyErrorRequest v => Some v | _ => None end |};
    message_laws.
Defined.

#[global] Instance Message_AwaitReplyRequest : Message AwaitReplyRequest.
Proof.
  refine {| inject := Body_AwaitReplyRequest; assert_type := fun b => match b with Body_AwaitReplyRequest v => Some v | _ => None end |};
    message_laws.
Defined.

#[global] Instance Message_AwaitReplyResponse : Message AwaitReplyResponse.
Proof.
  refine {| inject := Body_AwaitReplyResponse; assert_type := fun b => match b with Body_AwaitReplyResponse v => Some v | _ => None end |};
    message_laws.
Defined.

#[global] Instance Message_AwaitRepliesRequest : Message AwaitRepliesRequest.
Proof.
  refine {| inject := Body_AwaitRepliesRequest; assert_type := fun b => match b with Body_AwaitRepliesRequest v => Some v | _ => None end |};
    message_laws.
Defined.

#[global] Instance Message_AwaitRepliesResponse : Message AwaitRepliesResponse.
Proof.
  refine {| inject := Body_AwaitRepliesResponse; assert_type := fun b => match b with Body_AwaitRepliesResponse v => Some v | _ => None end |};
    message_laws.
Defined.

#[global] Instance Message_ErrorResponse : Message ErrorResponse.
Proof.
  refine {| inject := Body_ErrorResponse; assert_type := fun b => match b with Body_ErrorResponse v => Some v | _ => None end |};
    message_laws.
Defined.

