(* ===== verification/CodecsTopic.v ===== *)
(** * Wire protocol: topic, produce and connection codecs

    [binary_common.go], [binary_topic_priority.go], [binary_topic.go],
    [binary_produce_idempotency.go], [binary_topic_records.go],
    [binary_produce_batches.go], [binary_fanout.go],
    [binary_connection.go], [binary_retry_delay.go], [binary_offsets.go]
    of [src/protocol]; an anonymous function of [encodeX] or [decodeX]
    is [encodeX_func1] or [decodeX_func1]. *)

From stdpp Require Import prelude strings list.
From S2P Require Import Prelude Wire Messages.

#[local] Open Scope Z_scope.

(** ** [binary_common.go]: type assertions around a codec *)

Definition encodeWith {T} `{Message T} (write : T -> M unit) (value : Body) : result string bytes :=
  match assert_type value with
  | None => Err "binary_type_mismatch"
  | Some typed =>
      match write typed [] with
      | Err e => Err e
      | Ok (_, buf) => Ok buf
      end
  end.

(** The target is a pointer to a value of a message type; a successful decode
    overwrites that value. *)
Definition decodeWith {T} `{Message T} (read : M T) (data : bytes) (target : Body) : result string Body :=
  match (assert_type target : option T) with
  | None => Err "binary_type_mismatch"
  | Some _ =>
      match read data with
      | Err e => Err e
      | Ok (value, rest) =>
          match ensureEOF rest with
          | Err e => Err e
          | Ok _ => Ok (inject value)
          end
      end
  end.

(** ** [binary_common.go] *)

Definition writeHeaders (headers : list MessageHeader) : M unit :=
  count ← of_result (checkedUint16 (len headers));
  writeU16 count;;
  for_each (fun header =>
    writeString (MessageHeader_Key header);;
    writeBytes (MessageHeader_Value header)) headers.

Definition readHeaders : M (list MessageHeader) :=
  count ← readU16;
  headers ← for_range (Z.to_nat count) (
    key ← readString;
    value ← readBytes;
    mret {| MessageHeader_Key := key; MessageHeader_Value := value |});
  mret headers.

Definition writeStringSlice (values : list string) : M unit :=
  count ← of_result (checkedUint32 (len values));
  writeU32 count;;
  for_each (fun value => writeString value) values.

Definition readStringSlice : M (list string) :=
  count ← readU32;
  size ← of_result (intFromUint32 count);
  out ← for_range (Z.to_nat size) (
    value ← readString;
    mret value);
  mret out.

(** ** [binary_topic_priority.go] *)

Definition writeTopicPriorityPolicy (value : option TopicPriorityPolicy) : M unit :=
  match value with
  | None => writeBool false
  | Some value =>
      writeBool true;;
      writeBool (TopicPriorityPolicy_Enabled value);;
      writeU8 (TopicPriorityPolicy_Min value);;
      writeU8 (TopicPriorityPolicy_Max value);;
      writeU8 (TopicPriorityPolicy_Default value)
  end.

Definition readTopicPriorityPolicy : M (option TopicPriorityPolicy) :=
  ok ← readBool;
  if negb ok then mret None
  else
    enabled ← readBool;
    minPriority ← readU8;
    maxPriority ← readU8;
    defaultPriority ← readU8;
    mret (Some {| TopicPriorityPolicy_Enabled := enabled; TopicPriorityPolicy_Min := minPriority;
       TopicPriorityPolicy_Max := maxPriority; TopicPriorityPolicy_Default := defaultPriority |}).

(** ** [binary_topic.go] *)

Definition writeOptionalRetryPolicy (policy : option TopicRetryPolicy) : M unit :=
  match policy with
  | None => writeBool false
  | Some policy =>
      writeBool true;;
      writeU32 (TopicRetryPolicy_MaxAttempts policy);;
      writeU64 (TopicRetryPolicy_BackoffInitialMS policy);;
      writeU64 (TopicRetryPolicy_BackoffMaxMS policy);;
      writeF64 (TopicRetryPolicy_BackoffJitterFactor policy)
  end.

Definition writeCreateTopicRequest (req : CreateTopicRequest) : M unit :=
  writeString (CreateTopicRequest_Topic req);;
  writeU32 (CreateTopicRequest_Partitions req);;
  writeOptionalU64 (CreateTopicRequest_RetentionMaxBytes req);;
  writeCleanupPolicy (CreateTopicRequest_CleanupPolicy req);;
  writeOptionalU32 (CreateTopicRequest_MaxMessageBytes req);;
  writeOptionalU32 (CreateTopicRequest_MaxBatchBytes req);;
  writeOptionalU64 (CreateTopicRequest_RetentionMS req);;
  writeOptionalRetryPolicy (CreateTopicRequest_RetryPolicy req);;
  writeOptionalString (CreateTopicRequest_DeadLetterTopic req);;
  writeOptionalBool (CreateTopicRequest_DelayEnabled req);;
  writeOptionalU64 (CreateTopicRequest_MessageTTLMS req);;
  writeMessageExpiryAction (CreateTopicRequest_MessageExpiryAction req);;
  writeOptionalBool (CreateTopicRequest_CompactionEnabled req);;
  writeOptionalU64 (CreateTopicRequest_CompactionTombstoneRetentionMS req);;
  writeTopicOrderingPolicy (CreateTopicRequest_OrderingPolicy req);;
  writeTopicPriorityPolicy (CreateTopicRequest_PriorityPolicy req).

Definition encodeCreateTopicRequest (value : Body) : result string bytes :=
  encodeWith writeCreateTopicRequest value.

Definition readOptionalRetryPolicy : M (option TopicRetryPolicy) :=
  ok ← readBool;
  if negb ok then mret None
  else
    maxAttempts ← readU32;
    backoffInitialMS ← readU64;
    backoffMaxMS ← readU64;
    backoffJitterFactor ← readF64;
    mret (Some {| TopicRetryPolicy_MaxAttempts := maxAttempts;
       TopicRetryPolicy_BackoffInitialMS := backoffInitialMS;
       TopicRetryPolicy_BackoffMaxMS := backoffMaxMS;
       TopicRetryPolicy_BackoffJitterFactor := backoffJitterFactor |}).

Definition readCreateTopicRemainingOptions (req : CreateTopicRequest) : M CreateTopicRequest :=
  retryPolicy ← readOptionalRetryPolicy;
  deadLetterTopic ← readOptionalString;
  delayEnabled ← readOptionalBool;
  messageTTLMS ← readOptionalU64;
  messageExpiryAction ← readMessageExpiryAction;
  compactionEnabled ← readOptionalBool;
  compactionTombstoneRetentionMS ← readOptionalU64;
  orderingPolicy ← readTopicOrderingPolicy;
  priorityPolicy ← readTopicPriorityPolicy;
  mret {| CreateTopicRequest_Topic := CreateTopicRequest_Topic req;
     CreateTopicRequest_Partitions := CreateTopicRequest_Partitions req;
     CreateTopicRequest_RetentionMaxBytes := CreateTopicRequest_RetentionMaxBytes req;
     CreateTopicRequest_CleanupPolicy := CreateTopicRequest_CleanupPolicy req;
     CreateTopicRequest_MaxMessageBytes := CreateTopicRequest_MaxMessageBytes req;
     CreateTopicRequest_MaxBatchBytes := CreateTopicRequest_MaxBatchBytes req;
     CreateTopicRequest_RetentionMS := CreateTopicRequest_RetentionMS req;
     CreateTopicRequest_RetryPolicy := retryPolicy;
     CreateTopicRequest_DeadLetterTopic := deadLetterTopic;
     CreateTopicRequest_DelayEnabled := delayEnabled;
     CreateTopicRequest_MessageTTLMS := messageTTLMS;
     CreateTopicRequest_MessageExpiryAction := messageExpiryAction;
     CreateTopicRequest_CompactionEnabled := compactionEnabled;
     CreateTopicRequest_CompactionTombstoneRetentionMS := compactionTombstoneRetentionMS;
     CreateTopicRequest_OrderingPolicy := orderingPolicy;
     CreateTopicRequest_PriorityPolicy := priorityPolicy |}.

Definition readCreateTopicOptions (req : CreateTopicRequest) : M CreateTopicRequest :=
  retentionMaxBytes ← readOptionalU64;
  cleanupPolicy ← readCleanupPolicy;
  maxMessageBytes ← readOptionalU32;
  maxBatchBytes ← readOptionalU32;
  retentionMS ← readOptionalU64;
  readCreateTopicRemainingOptions {| CreateTopicRequest_Topic := CreateTopicRequest_Topic req;
     CreateTopicRequest_Partitions := CreateTopicRequest_Partitions req;
     CreateTopicRequest_RetentionMaxBytes := retentionMaxBytes;
     CreateTopicRequest_CleanupPolicy := cleanupPolicy;
     CreateTopicRequest_MaxMessageBytes := maxMessageBytes;
     CreateTopicRequest_MaxBatchBytes := maxBatchBytes;
     CreateTopicRequest_RetentionMS := retentionMS;
     CreateTopicRequest_RetryPolicy := CreateTopicRequest_RetryPolicy req;
     CreateTopicRequest_DeadLetterTopic := CreateTopicRequest_DeadLetterTopic req;
     CreateTopicRequest_DelayEnabled := CreateTopicRequest_DelayEnabled req;
     CreateTopicRequest_MessageTTLMS := CreateTopicRequest_MessageTTLMS req;
     CreateTopicRequest_MessageExpiryAction := CreateTopicRequest_MessageExpiryAction req;
     CreateTopicRequest_CompactionEnabled := CreateTopicRequest_CompactionEnabled req;
     CreateTopicRequest_CompactionTombstoneRetentionMS := CreateTopicRequest_CompactionTombstoneRetentionMS req;
     CreateTopicRequest_OrderingPolicy := CreateTopicRequest_OrderingPolicy req;
     CreateTopicRequest_PriorityPolicy := CreateTopicRequest_PriorityPolicy req |}.

Definition readCreateTopicRequest : M CreateTopicRequest :=
  topic ← readString;
  partitions ← readU32;
  readCreateTopicOptions {| CreateTopicRequest_Topic := topic; CreateTopicRequest_Partitions := partitions;
     CreateTopicRequest_RetentionMaxBytes := None; CreateTopicRequest_CleanupPolicy := None;
     CreateTopicRequest_MaxMessageBytes := None; CreateTopicRequest_MaxBatchBytes := None;
     CreateTopicRequest_RetentionMS := None; CreateTopicRequest_RetryPolicy := None;
     CreateTopicRequest_DeadLetterTopic := None; CreateTopicRequest_DelayEnabled := None;
     CreateTopicRequest_MessageTTLMS := None; CreateTopicRequest_MessageExpiryAction := None;
     CreateTopicRequest_CompactionEnabled := None;
     CreateTopicRequest_CompactionTombstoneRetentionMS := None;
     CreateTopicRequest_OrderingPolicy := None; CreateTopicRequest_PriorityPolicy := None |}.

Definition decodeCreateTopicRequest (data : bytes) (target : Body) : result string Body :=
  decodeWith readCreateTopicRequest data target.

Definition encodeCreateTopicResponse_func1 (resp : CreateTopicResponse) : M unit :=
  writeString (CreateTopicResponse_Topic resp);;
  writeU32 (CreateTopicResponse_Partitions resp).

Definition encodeCreateTopicResponse (value : Body) : result string bytes :=
  encodeWith encodeCreateTopicResponse_func1 value.

Definition decodeCreateTopicResponse_func1 : M CreateTopicResponse :=
  topic ← readString;
  partitions ← readU32;
  mret {| CreateTopicResponse_Topic := topic; CreateTopicResponse_Partitions := partitions |}.

Definition decodeCreateTopicResponse (data : bytes) (target : Body) : result string Body :=
  decodeWith decodeCreateTopicResponse_func1 data target.

Definition encodeListTopicsRequest_func1 (req : ListTopicsRequest) : M unit :=
  writeString (ListTopicsRequest_Pattern req).

Definition encodeListTopicsRequest (value : Body) : result string bytes :=
  encodeWith encodeListTopicsRequest_func1 value.

Definition decodeListTopicsRequest_func1 : M ListTopicsRequest :=
  pattern ← readString;
  mret {| ListTopicsRequest_Pattern := pattern |}.

Definition decodeListTopicsRequest (data : bytes) (target : Body) : result string Body :=
  decodeWith decodeListTopicsRequest_func1 data target.

Definition encodeListTopicsResponse_func1 (resp : ListTopicsResponse) : M unit :=
  count ← of_result (checkedUint32 (len (ListTopicsResponse_Topics resp)));
  writeU32 count;;
  for_each (fun topic =>
    writeString (TopicMetadata_Topic topic);;
    writeU32 (TopicMetadata_Partitions topic)) (ListTopicsResponse_Topics resp).

Definition encodeListTopicsResponse (value : Body) : result string bytes :=
  encodeWith encodeListTopicsResponse_func1 value.

Definition readListTopicsResponse : M ListTopicsResponse :=
  count ← readU32;
  size ← of_result (intFromUint32 count);
  topics ← for_range (Z.to_nat size) (
    name ← readString;
    partitions ← readU32;
    mret {| TopicMetadata_Topic := name; TopicMetadata_Partitions := partitions |});
  mret {| ListTopicsResponse_Topics := topics |}.

Definition decodeListTopicsResponse (data : bytes) (target : Body) : result string Body :=
  decodeWith readListTopicsResponse data target.

Definition encodeErrorResponse_func1 (resp : ErrorResponse) : M unit :=
  writeString (ErrorResponse_Code resp);;
  writeString (ErrorResponse_Message resp).

Definition encodeErrorResponse (value : Body) : result string bytes :=
  encodeWith encodeErrorResponse_func1 value.

Definition decodeErrorResponse_func1 : M ErrorResponse :=
  code ← readString;
  message ← readString;
  mret {| ErrorResponse_Code := code; ErrorResponse_Message := message |}.

Definition decodeErrorResponse (data : bytes) (target : Body) : result string Body :=
  decodeWith decodeErrorResponse_func1 data target.

(** ** [binary_produce_idempotency.go] *)

Definition writeProduceIdempotency (id : option ProduceIdempotency) : M unit :=
  match id with
  | None => writeBool false
  | Some id =>
      writeBool true;;
      writeU64 (ProduceIdempotency_ProducerID id);;
      writeU64 (ProduceIdempotency_ProducerEpoch id);;
      writeU64 (ProduceIdempotency_BaseSequence id)
  end.

Definition readProduceIdempotency : M (option ProduceIdempotency) :=
  ok ← readBool;
  if negb ok then mret None
  else
    producerID ← readU64;
    producerEpoch ← readU64;
    baseSequence ← readU64;
    mret (Some {| ProduceIdempotency_ProducerID := producerID; ProduceIdempotency_ProducerEpoch := producerEpoch;
       ProduceIdempotency_BaseSequence := baseSequence |}).

(** ** [binary_topic_records.go] *)

Definition writeProduceRequest (req : ProduceRequest) : M unit :=
  writeString (ProduceRequest_Topic req);;
  writeOptionalU32 (ProduceRequest_Partition req);;
  writePartitioning (ProduceRequest_Partitioning req);;
  writeString (ProduceRequest_RoutingKey req);;
  writeProduceIdempotency (ProduceRequest_Idempotency req);;
  writeBytes (ProduceRequest_Key req);;
  writeHeaders (ProduceRequest_Headers req);;
  writeBool (ProduceRequest_Tombstone req);;
  writeOptionalU64 (ProduceRequest_ExpiresAtMS req);;
  writeBytes (ProduceRequest_Payload req).

Definition encodeProduceRequest (value : Body) : result string bytes :=
  encodeWith writeProduceRequest value.

Definition readProduceRequestTail (req : ProduceRequest) : M ProduceRequest :=
  partition ← readOptionalU32;
  partitioning ← readPartitioning;
  routingKey ← readString;
  idempotency ← readProduceIdempotency;
  key ← readBytes;
  headers ← readHeaders;
  tombstone ← readBool;
  expiresAtMS ← readOptionalU64;
  payload ← readBytes;
  mret {| ProduceRequest_Topic := ProduceRequest_Topic req; ProduceRequest_Partition := partition;
     ProduceRequest_Partitioning := partitioning; ProduceRequest_RoutingKey := routingKey;
     ProduceRequest_Idempotency := idempotency; ProduceRequest_Key := key;
     ProduceRequest_Headers := headers; ProduceRequest_Tombstone := tombstone;
     ProduceRequest_ExpiresAtMS := expiresAtMS; ProduceRequest_Payload := payload |}.

Definition readProduceRequest : M ProduceRequest :=
  topic ← readString;
  readProduceRequestTail {| ProduceRequest_Topic := topic; ProduceRequest_Partition := None;
     ProduceRequest_Partitioning := ""; ProduceRequest_RoutingKey := "";
     ProduceRequest_Idempotency := None; ProduceRequest_Key := []; ProduceRequest_Headers := [];
     ProduceRequest_Tombstone := false; ProduceRequest_ExpiresAtMS := None;
     ProduceRequest_Payload := [] |}.

Definition decodeProduceRequest (data : bytes) (target : Body) : result string Body :=
  decodeWith readProduceRequest data target.

Definition encodeProduceResponse_func1 (resp : ProduceResponse) : M unit :=
  writeU32 (ProduceResponse_Partition resp);;
  writeU64 (ProduceResponse_Offset resp);;
  writeU64 (ProduceResponse_NextOffset resp).

Definition encodeProduceResponse (value : Body) : result string bytes :=
  encodeWith encodeProduceResponse_func1 value.

Definition decodeProduceResponse_func1 : M ProduceResponse :=
  partition ← readU32;
  offset ← readU64;
  nextOffset ← readU64;
  mret {| ProduceResponse_Partition := partition; ProduceResponse_Offset := offset;
     ProduceResponse_NextOffset := nextOffset |}.

Definition decodeProduceResponse (data : bytes) (target : Body) : result string Body :=
  decodeWith decodeProduceResponse_func1 data target.

Definition writeBatchRecord (record : ProduceBatchRecord) : M unit :=
  writeString (ProduceBatchRecord_RoutingKey record);;
  writeBytes (ProduceBatchRecord_Key record);;
  writeHeaders (ProduceBatchRecord_Headers record);;
  writeBool (ProduceBatchRecord_Tombstone record);;
  writeOptionalU64 (ProduceBatchRecord_ExpiresAtMS record);;
  writeBytes (ProduceBatchRecord_Payload record).

Definition writeBatchRecords (records : list ProduceBatchRecord) : M unit :=
  count ← of_result (checkedUint32 (len records));
  writeU32 count;;
  for_each (fun record => writeBatchRecord record) records.

Definition writePayloads (payloads : list bytes) : M unit :=
  count ← of_result (checkedUint32 (len payloads));
  writeU32 count;;
  for_each (fun payload => writeBytes payload) payloads.

Definition writeProduceBatchRequest (req : ProduceBatchRequest) : M unit :=
  writeString (ProduceBatchRequest_Topic req);;
  writeOptionalU32 (ProduceBatchRequest_Partition req);;
  writePartitioning (ProduceBatchRequest_Partitioning req);;
  writeString (ProduceBatchRequest_RoutingKey req);;
  writeProduceIdempotency (ProduceBatchRequest_Idempotency req);;
  writePayloads (ProduceBatchRequest_Payloads req);;
  writeBatchRecords (ProduceBatchRequest_Records req).

Definition encodeProduceBatchRequest (value : Body) : result string bytes :=
  encodeWith writeProduceBatchRequest value.

Definition readBatchRecord : M ProduceBatchRecord :=
  routingKey ← readString;
  key ← readBytes;
  headers ← readHeaders;
  tombstone ← readBool;
  expiresAtMS ← readOptionalU64;
  payload ← readBytes;
  mret {| ProduceBatchRecord_RoutingKey := routingKey; ProduceBatchRecord_Key := key;
     ProduceBatchRecord_Headers := headers; ProduceBatchRecord_Tombstone := tombstone;
     ProduceBatchRecord_ExpiresAtMS := expiresAtMS; ProduceBatchRecord_Payload := payload |}.

Definition readBatchRecords : M (list ProduceBatchRecord) :=
  count ← readU32;
  size ← of_result (intFromUint32 count);
  out ← for_range (Z.to_nat size) (
    record ← readBatchRecord;
    mret record);
  mret out.

Definition readPayloads : M (list bytes) :=
  count ← readU32;
  size ← of_result (intFromUint32 count);
  out ← for_range (Z.to_nat size) (
    payload ← readBytes;
    mret payload);
  mret out.

Definition readProduceBatchRequest : M ProduceBatchRequest :=
  topic ← readString;
  partition ← readOptionalU32;
  partitioning ← readPartitioning;
  routingKey ← readString;
  idempotency ← readProduceIdempotency;
  payloads ← readPayloads;
  records ← readBatchRecords;
  mret {| ProduceBatchRequest_Topic := topic; ProduceBatchRequest_Partition := partition;
     ProduceBatchRequest_Partitioning := partitioning; ProduceBatchRequest_RoutingKey := routingKey;
     ProduceBatchRequest_Idempotency := idempotency; ProduceBatchRequest_Payloads := payloads;
     ProduceBatchRequest_Records := records |}.

Definition decodeProduceBatchRequest (data : bytes) (target : Body) : result string Body :=
  decodeWith readProduceBatchRequest data target.

Definition encodeProduceBatchResponse_func1 (resp : ProduceBatchResponse) : M unit :=
  appended ← of_result (checkedUint32 (ProduceBatchResponse_Appended resp));
  writeU32 (ProduceBatchResponse_Partition resp);;
  writeU64 (ProduceBatchResponse_BaseOffset resp);;
  writeU64 (ProduceBatchResponse_LastOffset resp);;
  writeU64 (ProduceBatchResponse_NextOffset resp);;
  writeU32 appended.

Definition encodeProduceBatchResponse (value : Body) : result string bytes :=
  encodeWith encodeProduceBatchResponse_func1 value.

Definition readProduceBatchResponse : M ProduceBatchResponse :=
  partition ← readU32;
  baseOffset ← readU64;
  lastOffset ← readU64;
  nextOffset ← readU64;
  appended ← readU32;
  appended ← of_result (intFromUint32 appended);
  mret {| ProduceBatchResponse_Partition := partition; ProduceBatchResponse_BaseOffset := baseOffset;
     ProduceBatchResponse_LastOffset := lastOffset; ProduceBatchResponse_NextOffset := nextOffset;
     ProduceBatchResponse_Appended := appended |}.

Definition decodeProduceBatchResponse (data : bytes) (target : Body) : result string Body :=
  decodeWith readProduceBatchResponse data target.

(** ** [binary_produce_batches.go] *)

Definition writeProduceBatchesItemRequest (item : ProduceBatchesItemRequest) : M unit :=
  writeString (ProduceBatchesItemRequest_Topic item);;
  writeOptionalU32 (ProduceBatchesItemRequest_Partition item);;
  writePartitioning (ProduceBatchesItemRequest_Partitioning item);;
  writeString (ProduceBatchesItemRequest_RoutingKey item);;
  writeProduceIdempotency (ProduceBatchesItemRequest_Idempotency item);;
  writePayloads (ProduceBatchesItemRequest_Payloads item);;
  writeBatchRecords (ProduceBatchesItemRequest_Records item).

Definition writeProduceBatchesRequest (req : ProduceBatchesRequest) : M unit :=
  count ← of_result (checkedUint32 (len (ProduceBatchesRequest_Items req)));
  writeU32 count;;
  for_each (fun item => writeProduceBatchesItemRequest item) (ProduceBatchesRequest_Items req).

Definition encodeProduceBatchesRequest (value : Body) : result string bytes :=
  encodeWith writeProduceBatchesRequest value.

Definition readProduceBatchesItemRequest : M ProduceBatchesItemRequest :=
  topic ← readString;
  partition ← readOptionalU32;
  partitioning ← readPartitioning;
  routingKey ← readString;
  idempotency ← readProduceIdempotency;
  payloads ← readPayloads;
  records ← readBatchRecords;
  mret {| ProduceBatchesItemRequest_Topic := topic; ProduceBatchesItemRequest_Partition := partition;
     ProduceBatchesItemRequest_Partitioning := partitioning;
     ProduceBatchesItemRequest_RoutingKey := routingKey;
     ProduceBatchesItemRequest_Idempotency := idempotency;
     ProduceBatchesItemRequest_Payloads := payloads; ProduceBatchesItemRequest_Records := records |}.

Definition readProduceBatchesRequest : M ProduceBatchesRequest :=
  count ← readU32;
  size ← of_result (intFromUint32 count);
  items ← for_range (Z.to_nat size) (
    item ← readProduceBatchesItemRequest;
    mret item);
  mret {| ProduceBatchesRequest_Items := items |}.

Definition decodeProduceBatchesRequest (data : bytes) (target : Body) : result string Body :=
  decodeWith readProduceBatchesRequest data target.

Definition writeProduceBatchesItemResponse (item : ProduceBatchesItemResponse) : M unit :=
  appended ← of_result (checkedUint32 (ProduceBatchesItemResponse_Appended item));
  writeString (ProduceBatchesItemResponse_Topic item);;
  writeU32 (ProduceBatchesItemResponse_Partition item);;
  writeU64 (ProduceBatchesItemResponse_BaseOffset item);;
  writeU64 (ProduceBatchesItemResponse_LastOffset item);;
  writeU64 (ProduceBatchesItemResponse_NextOffset item);;
  writeU32 appended;;
  writeString (ProduceBatchesItemResponse_Error item).

Definition writeProduceBatchesResponse (resp : ProduceBatchesResponse) : M unit :=
  count ← of_result (checkedUint32 (len (ProduceBatchesResponse_Items resp)));
  writeU32 count;;
  for_each (fun item => writeProduceBatchesItemResponse item) (ProduceBatchesResponse_Items resp).

Definition encodeProduceBatchesResponse (value : Body) : result string bytes :=
  encodeWith writeProduceBatchesResponse value.

Definition readProduceBatchesItemResponse : M ProduceBatchesItemResponse :=
  topic ← readString;
  partition ← readU32;
  baseOffset ← readU64;
  lastOffset ← readU64;
  nextOffset ← readU64;
  appended ← readU32;
  appended ← of_result (intFromUint32 appended);
  error ← readString;
  mret {| ProduceBatchesItemResponse_Topic := topic; ProduceBatchesItemResponse_Partition := partition;
     ProduceBatchesItemResponse_BaseOffset := baseOffset;
     ProduceBatchesItemResponse_LastOffset := lastOffset;
     ProduceBatchesItemResponse_NextOffset := nextOffset;
     ProduceBatchesItemResponse_Appended := appended; ProduceBatchesItemResponse_Error := error |}.

Definition readProduceBatchesResponse : M ProduceBatchesResponse :=
  count ← readU32;
  size ← of_result (intFromUint32 count);
  items ← for_range (Z.to_nat size) (
    item ← readProduceBatchesItemResponse;
    mret item);
  mret {| ProduceBatchesResponse_Items := items |}.

Definition decodeProduceBatchesResponse (data : bytes) (target : Body) : result string Body :=
  decodeWith readProduceBatchesResponse data target.

(** ** [binary_fanout.go] *)

Definition writeProduceFanoutRequest (req : ProduceFanoutRequest) : M unit :=
  writeString (ProduceFanoutRequest_Topic req);;
  writeString (ProduceFanoutRequest_RoutingKey req);;
  writeBytes (ProduceFanoutRequest_Key req);;
  writeHeaders (ProduceFanoutRequest_Headers req);;
  writeBool (ProduceFanoutRequest_Tombstone req);;
  writeOptionalU64 (ProduceFanoutRequest_ExpiresAtMS req);;
  writeBytes (ProduceFanoutRequest_Payload req).

Definition encodeProduceFanoutRequest (value : Body) : result string bytes :=
  encodeWith writeProduceFanoutRequest value.

Definition readProduceFanoutRequest : M ProduceFanoutRequest :=
  topic ← readString;
  routingKey ← readString;
  key ← readBytes;
  headers ← readHeaders;
  tombstone ← readBool;
  expiresAtMS ← readOptionalU64;
  payload ← readBytes;
  mret {| ProduceFanoutRequest_Topic := topic; ProduceFanoutRequest_RoutingKey := routingKey;
     ProduceFanoutRequest_Key := key; ProduceFanoutRequest_Headers := headers;
     ProduceFanoutRequest_Tombstone := tombstone; ProduceFanoutRequest_ExpiresAtMS := expiresAtMS;
     ProduceFanoutRequest_Payload := payload |}.

Definition decodeProduceFanoutRequest (data : bytes) (target : Body) : result string Body :=
  decodeWith readProduceFanoutRequest data target.

Definition writeProduceFanoutResponse (resp : ProduceFanoutResponse) : M unit :=
  count ← of_result (checkedUint32 (len (ProduceFanoutResponse_Records resp)));
  writeU32 count;;
  for_each (fun record =>
    writeU32 (ProduceFanoutRecordResponse_Partition record);;
    writeU64 (ProduceFanoutRecordResponse_Offset record);;
    writeU64 (ProduceFanoutRecordResponse_NextOffset record)) (ProduceFanoutResponse_Records resp).

Definition encodeProduceFanoutResponse (value : Body) : result string bytes :=
  encodeWith writeProduceFanoutResponse value.

Definition readProduceFanoutRecordResponse : M ProduceFanoutRecordResponse :=
  partition ← readU32;
  offset ← readU64;
  nextOffset ← readU64;
  mret {| ProduceFanoutRecordResponse_Partition := partition;
     ProduceFanoutRecordResponse_Offset := offset;
     ProduceFanoutRecordResponse_NextOffset := nextOffset |}.

Definition readProduceFanoutResponse : M ProduceFanoutResponse :=
  count ← readU32;
  size ← of_result (intFromUint32 count);
  records ← for_range (Z.to_nat size) (
    record ← readProduceFanoutRecordResponse;
    mret record);
  mret {| ProduceFanoutResponse_Records := records |}.

Definition decodeProduceFanoutResponse (data : bytes) (target : Body) : result string Body :=
  decodeWith readProduceFanoutResponse data target.

(** ** [binary_connection.go] *)

Definition encodeHandshakeRequest_func1 (req : HandshakeRequest) : M unit :=
  writeString (HandshakeRequest_ClientID req);;
  writeString (HandshakeRequest_Tenant req);;
  writeString (HandshakeRequest_Namespace req);;
  writeString (HandshakeRequest_Principal req);;
  writeString (HandshakeRequest_AuthToken req);;
  writeStringSlice (HandshakeRequest_Capabilities req).

Definition encodeHandshakeRequest (value : Body) : result string bytes :=
  encodeWith encodeHandshakeRequest_func1 value.

Definition decodeHandshakeRequest_func1 : M HandshakeRequest :=
  clientID ← readString;
  tenant ← readString;
  namespace ← readString;
  principal ← readString;
  authToken ← readString;
  capabilities ← readStringSlice;
  mret {| HandshakeRequest_ClientID := clientID; HandshakeRequest_Tenant := tenant;
     HandshakeRequest_Namespace := namespace; HandshakeRequest_Principal := principal;
     HandshakeRequest_AuthToken := authToken; HandshakeRequest_Capabilities := capabilities |}.

Definition decodeHandshakeRequest (data : bytes) (target : Body) : result string Body :=
  decodeWith decodeHandshakeRequest_func1 data target.

Definition encodeHandshakeResponse_func1 (resp : HandshakeResponse) : M unit :=
  writeString (HandshakeResponse_ServerID resp);;
  writeU8 (HandshakeResponse_ProtocolVersion resp);;
  writeString (HandshakeResponse_Tenant resp);;
  writeString (HandshakeResponse_Namespace resp);;
  writeString (HandshakeResponse_Principal resp);;
  writeStringSlice (HandshakeResponse_Capabilities resp).

Definition encodeHandshakeResponse (value : Body) : result string bytes :=
  encodeWith encodeHandshakeResponse_func1 value.

Definition decodeHandshakeResponse_func1 : M HandshakeResponse :=
  serverID ← readString;
  version ← readU8;
  tenant ← readString;
  namespace ← readString;
  principal ← readString;
  capabilities ← readStringSlice;
  mret {| HandshakeResponse_ServerID := serverID; HandshakeResponse_ProtocolVersion := version;
     HandshakeResponse_Tenant := tenant; HandshakeResponse_Namespace := namespace;
     HandshakeResponse_Principal := principal; HandshakeResponse_Capabilities := capabilities |}.

Definition decodeHandshakeResponse (data : bytes) (target : Body) : result string Body :=
  decodeWith decodeHandshakeResponse_func1 data target.

Definition encodePingRequest_func1 (req : PingRequest) : M unit :=
  writeU64 (PingRequest_Nonce req).

Definition encodePingRequest (value : Body) : result string bytes :=
  encodeWith encodePingRequest_func1 value.

Definition decodePingRequest_func1 : M PingRequest :=
  nonce ← readU64;
  mret {| PingRequest_Nonce := nonce |}.

Definition decodePingRequest (data : bytes) (target : Body) : result string Body :=
  decodeWith decodePingRequest_func1 data target.

Definition encodePingResponse_func1 (resp : PingResponse) : M unit :=
  writeU64 (PingResponse_Nonce resp).

Definition encodePingResponse (value : Body) : result string bytes :=
  encodeWith encodePingResponse_func1 value.

Definition decodePingResponse_func1 : M PingResponse :=
  nonce ← readU64;
  mret {| PingResponse_Nonce := nonce |}.

Definition decodePingResponse (data : bytes) (target : Body) : result string Body :=
  decodeWith decodePingResponse_func1 data target.

(** ** [binary_retry_delay.go] *)

Definition encodeProcessRetryRequest_func1 (req : ProcessRetryRequest) : M unit :=
  maxRecords ← of_result (checkedUint32 (ProcessRetryRequest_MaxRecords req));
  writeString (ProcessRetryRequest_Consumer req);;
  writeString (ProcessRetryRequest_SourceTopic req);;
  writeU32 (ProcessRetryRequest_Partition req);;
  writeU32 maxRecords.

Definition encodeProcessRetryRequest (value : Body) : result string bytes :=
  encodeWith encodeProcessRetryRequest_func1 value.

Definition decodeProcessRetryRequest_func1 : M ProcessRetryRequest :=
  consumer ← readString;
  sourceTopic ← readString;
  partition ← readU32;
  maxRecords ← readU32;
  maxRecords ← of_result (intFromUint32 maxRecords);
  mret {| ProcessRetryRequest_Consumer := consumer; ProcessRetryRequest_SourceTopic := sourceTopic;
     ProcessRetryRequest_Partition := partition; ProcessRetryRequest_MaxRecords := maxRecords |}.

Definition decodeProcessRetryRequest (data : bytes) (target : Body) : result string Body :=
  decodeWith decodeProcessRetryRequest_func1 data target.

Definition encodeProcessRetryResponse_func1 (resp : ProcessRetryResponse) : M unit :=
  movedToOrigin ← of_result (checkedUint32 (ProcessRetryResponse_MovedToOrigin resp));
  movedToDeadLetter ← of_result (checkedUint32 (ProcessRetryResponse_MovedToDeadLetter resp));
  writeString (ProcessRetryResponse_RetryTopic resp);;
  writeU32 (ProcessRetryResponse_Partition resp);;
  writeU32 movedToOrigin;;
  writeU32 movedToDeadLetter;;
  writeOptionalU64 (ProcessRetryResponse_CommittedNextOffset resp).

Definition encodeProcessRetryResponse (value : Body) : result string bytes :=
  encodeWith encodeProcessRetryResponse_func1 value.

Definition readProcessRetryResponse : M ProcessRetryResponse :=
  topic ← readString;
  partition ← readU32;
  movedToOrigin ← readU32;
  movedToOrigin ← of_result (intFromUint32 movedToOrigin);
  movedToDeadLetter ← readU32;
  movedToDeadLetter ← of_result (intFromUint32 movedToDeadLetter);
  committedNextOffset ← readOptionalU64;
  mret {| ProcessRetryResponse_RetryTopic := topic; ProcessRetryResponse_Partition := partition;
     ProcessRetryResponse_MovedToOrigin := movedToOrigin;
     ProcessRetryResponse_MovedToDeadLetter := movedToDeadLetter;
     ProcessRetryResponse_CommittedNextOffset := committedNextOffset |}.

Definition decodeProcessRetryResponse (data : bytes) (target : Body) : result string Body :=
  decodeWith readProcessRetryResponse data target.

Definition encodeScheduleDelayRequest_func1 (req : ScheduleDelayRequest) : M unit :=
  writeString (ScheduleDelayRequest_Topic req);;
  writeU32 (ScheduleDelayRequest_Partition req);;
  writeBytes (ScheduleDelayRequest_Payload req);;
  writeU64 (ScheduleDelayRequest_DeliverAtMS req).

Definition encodeScheduleDelayRequest (value : Body) : result string bytes :=
  encodeWith encodeScheduleDelayRequest_func1 value.

Definition decodeScheduleDelayRequest_func1 : M ScheduleDelayRequest :=
  topic ← readString;
  partition ← readU32;
  payload ← readBytes;
  deliverAtMS ← readU64;
  mret {| ScheduleDelayRequest_Topic := topic; ScheduleDelayRequest_Partition := partition;
     ScheduleDelayRequest_Payload := payload; ScheduleDelayRequest_DeliverAtMS := deliverAtMS |}.

Definition decodeScheduleDelayRequest (data : bytes) (target : Body) : result string Body :=
  decodeWith decodeScheduleDelayRequest_func1 data target.

Definition encodeScheduleDelayResponse_func1 (resp : ScheduleDelayResponse) : M unit :=
  writeString (ScheduleDelayResponse_DelayTopic resp);;
  writeU32 (ScheduleDelayResponse_Partition resp);;
  writeU64 (ScheduleDelayResponse_Offset resp);;
  writeU64 (ScheduleDelayResponse_NextOffset resp);;
  writeU64 (ScheduleDelayResponse_DeliverAtMS resp).

Definition encodeScheduleDelayResponse (value : Body) : result string bytes :=
  encodeWith encodeScheduleDelayResponse_func1 value.

Definition decodeScheduleDelayResponse_func1 : M ScheduleDelayResponse :=
  topic ← readString;
  partition ← readU32;
  offset ← readU64;
  nextOffset ← readU64;
  deliverAtMS ← readU64;
  mret {| ScheduleDelayResponse_DelayTopic := topic; ScheduleDelayResponse_Partition := partition;
     ScheduleDelayResponse_Offset := offset; ScheduleDelayResponse_NextOffset := nextOffset;
     ScheduleDelayResponse_DeliverAtMS := deliverAtMS |}.

Definition decodeScheduleDelayResponse (data : bytes) (target : Body) : result string Body :=
  decodeWith decodeScheduleDelayResponse_func1 data target.

(** ** [binary_offsets.go] *)

Definition writeCommitOffsetRequest (req : CommitOffsetRequest) : M unit :=
  writeString (CommitOffsetRequest_Consumer req);;
  writeString (CommitOffsetRequest_Topic req);;
  writeU32 (CommitOffsetRequest_Partition req);;
  writeU64 (CommitOffsetRequest_NextOffset req);;
  writeString (CommitOffsetRequest_Metadata req).

Definition encodeCommitOffsetRequest (value : Body) : result string bytes :=
  encodeWith writeCommitOffsetRequest value.

Definition readCommitOffsetRequest : M CommitOffsetRequest :=
  consumer ← readString;
  topic ← readString;
  partition ← readU32;
  nextOffset ← readU64;
  metadata ← readString;
  mret {| CommitOffsetRequest_Consumer := consumer; CommitOffsetRequest_Topic := topic;
     CommitOffsetRequest_Partition := partition; CommitOffsetRequest_NextOffset := nextOffset;
     CommitOffsetRequest_Metadata := metadata |}.

Definition decodeCommitOffsetRequest (data : bytes) (target : Body) : result string Body :=
  decodeWith readCommitOffsetRequest data target.

Definition writeCommitOffsetResponse (resp : CommitOffsetResponse) : M unit :=
  writeCommitOffsetRequest {| CommitOffsetRequest_Consumer := CommitOffsetResponse_Consumer resp;
     CommitOffsetRequest_Topic := CommitOffsetResponse_Topic resp;
     CommitOffsetRequest_Partition := CommitOffsetResponse_Partition resp;
     CommitOffsetRequest_NextOffset := CommitOffsetResponse_NextOffset resp;
     CommitOffsetRequest_Metadata := CommitOffsetResponse_Metadata resp |}.

Definition encodeCommitOffsetResponse (value : Body) : result string bytes :=
  encodeWith writeCommitOffsetResponse value.

Definition decodeCommitOffsetResponse_func1 : M CommitOffsetResponse :=
  req ← readCommitOffsetRequest;
  mret {| CommitOffsetResponse_Consumer := CommitOffsetRequest_Consumer req;
     CommitOffsetResponse_Topic := CommitOffsetRequest_Topic req;
     CommitOffsetResponse_Partition := CommitOffsetRequest_Partition req;
     CommitOffsetResponse_NextOffset := CommitOffsetRequest_NextOffset req;
     CommitOffsetResponse_Metadata := CommitOffsetRequest_Metadata req |}.

Definition decodeCommitOffsetResponse (data : bytes) (target : Body) : result string Body :=
  decodeWith decodeCommitOffsetResponse_func1 data target.

Definition encodeNackRequest_func1 (req : NackRequest) : M unit :=
  writeString (NackRequest_Consumer req);;
  writeString (NackRequest_Topic req);;
  writeU32 (NackRequest_Partition req);;
  writeU64 (NackRequest_Offset req);;
  writeOptionalString (NackRequest_LastError req).

Definition encodeNackRequest (value : Body) : result string bytes :=
  encodeWith encodeNackRequest_func1 value.

Definition decodeNackRequest_func1 : M NackRequest :=
  consumer ← readString;
  topic ← readString;
  partition ← readU32;
  offset ← readU64;
  lastError ← readOptionalString;
  mret {| NackRequest_Consumer := consumer; NackRequest_Topic := topic;
     NackRequest_Partition := partition; NackRequest_Offset := offset;
     NackRequest_LastError := lastError |}.

Definition decodeNackRequest (data : bytes) (target : Body) : result string Body :=
  decodeWith decodeNackRequest_func1 data target.

Definition encodeNackResponse_func1 (resp : NackResponse) : M unit :=
  writeString (NackResponse_RetryTopic resp);;
  writeU32 (NackResponse_RetryPartition resp);;
  writeU64 (NackResponse_RetryOffset resp);;
  writeU64 (NackResponse_RetryNextOffset resp);;
  writeU32 (NackResponse_RetryCount resp).

Definition encodeNackResponse (value : Body) : result string bytes :=
  encodeWith encodeNackResponse_func1 value.

Definition decodeNackResponse_func1 : M NackResponse :=
  topic ← readString;
  retryPartition ← readU32;
  retryOffset ← readU64;
  retryNextOffset ← readU64;
  retryCount ← readU32;
  mret {| NackResponse_RetryTopic := topic; NackResponse_RetryPartition := retryPartition;
     NackResponse_RetryOffset := retryOffset; NackResponse_RetryNextOffset := retryNextOffset;
     NackResponse_RetryCount := retryCount |}.

Definition decodeNackResponse (data : bytes) (target : Body) : result string Body :=
  decodeWith decodeNackResponse_func1 data target.
