(* ===== verification/CodecsFetch.v ===== *)
(** * Wire protocol: fetch, direct-message and request/reply codecs

    [binary_fetch.go], [binary_fetch_batch.go],
    [binary_subject_pattern.go], [binary_direct.go],
    [binary_direct_ack.go], [binary_request_reply.go],
    [binary_request_reply_fetch.go], [binary_reply.go],
    [binary_await_reply.go] of [src/protocol]; an anonymous function of
    [encodeX] or [decodeX] is [encodeX_func1] or [decodeX_func1]. *)

From stdpp Require Import prelude strings list.
From S2P Require Import Prelude Wire Messages CodecsTopic.

#[local] Open Scope Z_scope.

(** The results go to three out-pointers. *)
Definition readFetchWatermarks : M (option Z * option Z * Z) :=
  high ← readOptionalU64;
  low ← readOptionalU64;
  logStart ← readU64;
  mret (high, low, logStart).

(** ** [binary_fetch.go] *)

Definition writeFetchRequest (req : FetchRequest) : M unit :=
  maxRecords ← of_result (checkedUint32 (FetchRequest_MaxRecords req));
  writeString (FetchRequest_Consumer req);;
  writeString (FetchRequest_Topic req);;
  writeU32 (FetchRequest_Partition req);;
  writeOptionalU64 (FetchRequest_Offset req);;
  writeU32 maxRecords;;
  writeOptionalInt (FetchRequest_MinRecords req);;
  writeOptionalU64 (FetchRequest_MaxWaitMS req);;
  writeFetchIsolation (FetchRequest_Isolation req).

Definition encodeFetchRequest (value : Body) : result string bytes :=
  encodeWith writeFetchRequest value.

Definition readFetchRequest : M FetchRequest :=
  consumer ← readString;
  topic ← readString;
  partition ← readU32;
  offset ← readOptionalU64;
  maxRecords ← readU32;
  maxRecords ← of_result (intFromUint32 maxRecords);
  minRecords ← readOptionalInt;
  maxWaitMS ← readOptionalU64;
  isolation ← readFetchIsolation;
  mret {| FetchRequest_Consumer := consumer; FetchRequest_Topic := topic;
     FetchRequest_Partition := partition; FetchRequest_Offset := offset;
     FetchRequest_MaxRecords := maxRecords; FetchRequest_MinRecords := minRecords;
     FetchRequest_MaxWaitMS := maxWaitMS; FetchRequest_Isolation := isolation |}.

Definition decodeFetchRequest (data : bytes) (target : Body) : result string Body :=
  decodeWith readFetchRequest data target.

Definition writeOptionalTransactionRecordMetadata (tx : option TransactionRecordMetadata) : M unit :=
  match tx with
  | None => writeBool false
  | Some tx =>
      writeBool true;;
      writeU64 (TransactionRecordMetadata_TxID tx);;
      writeU64 (TransactionRecordMetadata_ProducerID tx);;
      writeU64 (TransactionRecordMetadata_ProducerEpoch tx);;
      writeU64 (TransactionRecordMetadata_Sequence tx);;
      writeTransactionControlType (TransactionRecordMetadata_ControlType tx)
  end.

Definition writeFetchRecord (record : FetchRecord) : M unit :=
  writeU64 (FetchRecord_Offset record);;
  writeU64 (FetchRecord_TimestampMS record);;
  writeOptionalU64 (FetchRecord_ExpiresAtMS record);;
  writeString (FetchRecord_RoutingKey record);;
  writeBytes (FetchRecord_Key record);;
  writeHeaders (FetchRecord_Headers record);;
  writeBool (FetchRecord_Tombstone record);;
  writeOptionalTransactionRecordMetadata (FetchRecord_Transaction record);;
  writeBytes (FetchRecord_Payload record).

Definition writeFetchRecords (records : list FetchRecord) : M unit :=
  count ← of_result (checkedUint32 (len records));
  writeU32 count;;
  for_each (fun record => writeFetchRecord record) records.

Definition writeFetchWatermarks (high : option Z) (low : option Z) (logStart : Z) : M unit :=
  writeOptionalU64 high;;
  writeOptionalU64 low;;
  writeU64 logStart.

Definition encodeFetchResponse_func1 (resp : FetchResponse) : M unit :=
  writeString (FetchResponse_Topic resp);;
  writeU32 (FetchResponse_Partition resp);;
  writeFetchRecords (FetchResponse_Records resp);;
  writeU64 (FetchResponse_NextOffset resp);;
  writeFetchWatermarks (FetchResponse_HighWatermark resp) (FetchResponse_LowWatermark resp) (FetchResponse_LogStartOffset resp).

Definition encodeFetchResponse (value : Body) : result string bytes :=
  encodeWith encodeFetchResponse_func1 value.

Definition readOptionalTransactionRecordMetadata : M (option TransactionRecordMetadata) :=
  ok ← readBool;
  if negb ok then mret None
  else
    txID ← readU64;
    producerID ← readU64;
    producerEpoch ← readU64;
    sequence ← readU64;
    controlType ← readTransactionControlType;
    mret (Some {| TransactionRecordMetadata_TxID := txID; TransactionRecordMetadata_ProducerID := producerID;
       TransactionRecordMetadata_ProducerEpoch := producerEpoch;
       TransactionRecordMetadata_Sequence := sequence;
       TransactionRecordMetadata_ControlType := controlType |}).

Definition readFetchRecord : M FetchRecord :=
  offset ← readU64;
  timestampMS ← readU64;
  expiresAtMS ← readOptionalU64;
  routingKey ← readString;
  key ← readBytes;
  headers ← readHeaders;
  tombstone ← readBool;
  transaction ← readOptionalTransactionRecordMetadata;
  payload ← readBytes;
  mret {| FetchRecord_Offset := offset; FetchRecord_TimestampMS := timestampMS;
     FetchRecord_RoutingKey := routingKey; FetchRecord_Key := key; FetchRecord_Headers := headers;
     FetchRecord_Tombstone := tombstone; FetchRecord_ExpiresAtMS := expiresAtMS;
     FetchRecord_Transaction := transaction; FetchRecord_Payload := payload |}.

Definition readFetchRecords : M (list FetchRecord) :=
  count ← readU32;
  size ← of_result (intFromUint32 count);
  records ← for_range (Z.to_nat size) (
    record ← readFetchRecord;
    mret record);
  mret records.

Definition readFetchResponse : M FetchResponse :=
  topic ← readString;
  partition ← readU32;
  records ← readFetchRecords;
  nextOffset ← readU64;
  '(highWatermark, lowWatermark, logStartOffset) ← readFetchWatermarks;
  mret {| FetchResponse_Topic := topic; FetchResponse_Partition := partition;
     FetchResponse_Records := records; FetchResponse_NextOffset := nextOffset;
     FetchResponse_HighWatermark := highWatermark; FetchResponse_LowWatermark := lowWatermark;
     FetchResponse_LogStartOffset := logStartOffset |}.

Definition decodeFetchResponse (data : bytes) (target : Body) : result string Body :=
  decodeWith readFetchResponse data target.

(** ** [binary_fetch_batch.go] *)

Definition writeFetchBatchItem (item : FetchBatchItemRequest) : M unit :=
  maxRecords ← of_result (checkedUint32 (FetchBatchItemRequest_MaxRecords item));
  writeString (FetchBatchItemRequest_Topic item);;
  writeU32 (FetchBatchItemRequest_Partition item);;
  writeOptionalU64 (FetchBatchItemRequest_Offset item);;
  writeU32 maxRecords.

Definition writeFetchBatchItems (items : list FetchBatchItemRequest) : M unit :=
  count ← of_result (checkedUint32 (len items));
  writeU32 count;;
  for_each (fun item => writeFetchBatchItem item) items.

Definition encodeFetchBatchRequest_func1 (req : FetchBatchRequest) : M unit :=
  writeString (FetchBatchRequest_Consumer req);;
  writeFetchBatchItems (FetchBatchRequest_Items req);;
  writeOptionalInt (FetchBatchRequest_MinRecords req);;
  writeOptionalU64 (FetchBatchRequest_MaxWaitMS req);;
  writeFetchIsolation (FetchBatchRequest_Isolation req).

Definition encodeFetchBatchRequest (value : Body) : result string bytes :=
  encodeWith encodeFetchBatchRequest_func1 value.

Definition readFetchBatchItem : M FetchBatchItemRequest :=
  topic ← readString;
  partition ← readU32;
  offset ← readOptionalU64;
  maxRecords ← readU32;
  maxRecords ← of_result (intFromUint32 maxRecords);
  mret {| FetchBatchItemRequest_Topic := topic; FetchBatchItemRequest_Partition := partition;
     FetchBatchItemRequest_Offset := offset; FetchBatchItemRequest_MaxRecords := maxRecords |}.

Definition readFetchBatchItems : M (list FetchBatchItemRequest) :=
  count ← readU32;
  size ← of_result (intFromUint32 count);
  items ← for_range (Z.to_nat size) (
    item ← readFetchBatchItem;
    mret item);
  mret items.

Definition readFetchBatchRequest : M FetchBatchRequest :=
  consumer ← readString;
  items ← readFetchBatchItems;
  minRecords ← readOptionalInt;
  maxWaitMS ← readOptionalU64;
  isolation ← readFetchIsolation;
  mret {| FetchBatchRequest_Consumer := consumer; FetchBatchRequest_Items := items;
     FetchBatchRequest_MinRecords := minRecords; FetchBatchRequest_MaxWaitMS := maxWaitMS;
     FetchBatchRequest_Isolation := isolation |}.

Definition decodeFetchBatchRequest (data : bytes) (target : Body) : result string Body :=
  decodeWith readFetchBatchRequest data target.

Definition writeFetchBatchItemResponse (item : FetchBatchItemResponse) : M unit :=
  writeString (FetchBatchItemResponse_Topic item);;
  writeU32 (FetchBatchItemResponse_Partition item);;
  writeFetchRecords (FetchBatchItemResponse_Records item);;
  writeU64 (FetchBatchItemResponse_NextOffset item);;
  writeFetchWatermarks (FetchBatchItemResponse_HighWatermark item) (FetchBatchItemResponse_LowWatermark item) (FetchBatchItemResponse_LogStartOffset item).

Definition encodeFetchBatchResponse_func1 (resp : FetchBatchResponse) : M unit :=
  count ← of_result (checkedUint32 (len (FetchBatchResponse_Items resp)));
  writeU32 count;;
  for_each (fun item => writeFetchBatchItemResponse item) (FetchBatchResponse_Items resp).

Definition encodeFetchBatchResponse (value : Body) : result string bytes :=
  encodeWith encodeFetchBatchResponse_func1 value.

Definition readFetchBatchItemResponse : M FetchBatchItemResponse :=
  topic ← readString;
  partition ← readU32;
  records ← readFetchRecords;
  nextOffset ← readU64;
  '(highWatermark, lowWatermark, logStartOffset) ← readFetchWatermarks;
  mret {| FetchBatchItemResponse_Topic := topic; FetchBatchItemResponse_Partition := partition;
     FetchBatchItemResponse_Records := records; FetchBatchItemResponse_NextOffset := nextOffset;
     FetchBatchItemResponse_HighWatermark := highWatermark;
     FetchBatchItemResponse_LowWatermark := lowWatermark;
     FetchBatchItemResponse_LogStartOffset := logStartOffset |}.

Definition readFetchBatchResponse : M FetchBatchResponse :=
  count ← readU32;
  size ← of_result (intFromUint32 count);
  items ← for_range (Z.to_nat size) (
    item ← readFetchBatchItemResponse;
    mret item);
  mret {| FetchBatchResponse_Items := items |}.

Definition decodeFetchBatchResponse (data : bytes) (target : Body) : result string Body :=
  decodeWith readFetchBatchResponse data target.

(** ** [binary_subject_pattern.go] *)

Definition writeFetchSubjectPatternRequest (req : FetchSubjectPatternRequest) : M unit :=
  maxRecords ← of_result (checkedUint32 (FetchSubjectPatternRequest_MaxRecords req));
  writeString (FetchSubjectPatternRequest_Consumer req);;
  writeString (FetchSubjectPatternRequest_Pattern req);;
  writeU32 maxRecords;;
  writeFetchIsolation (FetchSubjectPatternRequest_Isolation req).

Definition encodeFetchSubjectPatternRequest (value : Body) : result string bytes :=
  encodeWith writeFetchSubjectPatternRequest value.

Definition readFetchSubjectPatternRequest : M FetchSubjectPatternRequest :=
  consumer ← readString;
  pattern ← readString;
  maxRecords ← readU32;
  maxRecords ← of_result (intFromUint32 maxRecords);
  isolation ← readFetchIsolation;
  mret {| FetchSubjectPatternRequest_Consumer := consumer; FetchSubjectPatternRequest_Pattern := pattern;
     FetchSubjectPatternRequest_MaxRecords := maxRecords;
     FetchSubjectPatternRequest_Isolation := isolation |}.

Definition decodeFetchSubjectPatternRequest (data : bytes) (target : Body) : result string Body :=
  decodeWith readFetchSubjectPatternRequest data target.

Definition writeFetchSubjectPatternResponse (resp : FetchSubjectPatternResponse) : M unit :=
  writeString (FetchSubjectPatternResponse_Pattern resp);;
  count ← of_result (checkedUint32 (len (FetchSubjectPatternResponse_Items resp)));
  writeU32 count;;
  for_each (fun record => writeFetchBatchItemResponse record) (FetchSubjectPatternResponse_Items resp).

Definition encodeFetchSubjectPatternResponse (value : Body) : result string bytes :=
  encodeWith writeFetchSubjectPatternResponse value.

Definition readFetchSubjectPatternResponse : M FetchSubjectPatternResponse :=
  pattern ← readString;
  count ← readU32;
  size ← of_result (intFromUint32 count);
  items ← for_range (Z.to_nat size) (
    item ← readFetchBatchItemResponse;
    mret item);
  mret {| FetchSubjectPatternResponse_Pattern := pattern; FetchSubjectPatternResponse_Items := items |}.

Definition decodeFetchSubjectPatternResponse (data : bytes) (target : Body) : result string Body :=
  decodeWith readFetchSubjectPatternResponse data target.

(** ** [binary_direct.go] *)

Definition encodeSendDirectRequest_func1 (req : SendDirectRequest) : M unit :=
  writeString (SendDirectRequest_Sender req);;
  writeString (SendDirectRequest_Recipient req);;
  writeOptionalString (SendDirectRequest_ConversationID req);;
  writeBytes (SendDirectRequest_Payload req).

Definition encodeSendDirectRequest (value : Body) : result string bytes :=
  encodeWith encodeSendDirectRequest_func1 value.

Definition decodeSendDirectRequest_func1 : M SendDirectRequest :=
  sender ← readString;
  recipient ← readString;
  conversationID ← readOptionalString;
  payload ← readBytes;
  mret {| SendDirectRequest_Sender := sender; SendDirectRequest_Recipient := recipient;
     SendDirectRequest_ConversationID := conversationID; SendDirectRequest_Payload := payload |}.

Definition decodeSendDirectRequest (data : bytes) (target : Body) : result string Body :=
  decodeWith decodeSendDirectRequest_func1 data target.

Definition writeSendDirectResponse (resp : SendDirectResponse) : M unit :=
  writeString (SendDirectResponse_MessageID resp);;
  writeString (SendDirectResponse_ConversationID resp);;
  writeU64 (SendDirectResponse_Offset resp);;
  writeU64 (SendDirectResponse_NextOffset resp).

Definition encodeSendDirectResponse (value : Body) : result string bytes :=
  encodeWith writeSendDirectResponse value.

Definition readSendDirectResponse : M SendDirectResponse :=
  messageID ← readString;
  conversationID ← readString;
  offset ← readU64;
  nextOffset ← readU64;
  mret {| SendDirectResponse_MessageID := messageID; SendDirectResponse_ConversationID := conversationID;
     SendDirectResponse_Offset := offset; SendDirectResponse_NextOffset := nextOffset |}.

Definition decodeSendDirectResponse (data : bytes) (target : Body) : result string Body :=
  decodeWith readSendDirectResponse data target.

Definition encodeFetchInboxRequest_func1 (req : FetchInboxRequest) : M unit :=
  maxRecords ← of_result (checkedUint32 (FetchInboxRequest_MaxRecords req));
  writeString (FetchInboxRequest_Recipient req);;
  writeU32 maxRecords.

Definition encodeFetchInboxRequest (value : Body) : result string bytes :=
  encodeWith encodeFetchInboxRequest_func1 value.

Definition decodeFetchInboxRequest_func1 : M FetchInboxRequest :=
  recipient ← readString;
  maxRecords ← readU32;
  out ← of_result (intFromUint32 maxRecords);
  mret {| FetchInboxRequest_Recipient := recipient; FetchInboxRequest_MaxRecords := out |}.

Definition decodeFetchInboxRequest (data : bytes) (target : Body) : result string Body :=
  decodeWith decodeFetchInboxRequest_func1 data target.

Definition writeDirectMessageRecord (record : DirectMessageRecord) : M unit :=
  writeU64 (DirectMessageRecord_Offset record);;
  writeString (DirectMessageRecord_MessageID record);;
  writeString (DirectMessageRecord_ConversationID record);;
  writeString (DirectMessageRecord_Sender record);;
  writeString (DirectMessageRecord_Recipient record);;
  writeU64 (DirectMessageRecord_TimestampMS record);;
  writeBytes (DirectMessageRecord_Payload record).

Definition writeDirectMessageRecords (records : list DirectMessageRecord) : M unit :=
  count ← of_result (checkedUint32 (len records));
  writeU32 count;;
  for_each (fun record => writeDirectMessageRecord record) records.

Definition encodeFetchInboxResponse_func1 (resp : FetchInboxResponse) : M unit :=
  writeString (FetchInboxResponse_Recipient resp);;
  writeDirectMessageRecords (FetchInboxResponse_Records resp);;
  writeU64 (FetchInboxResponse_NextOffset resp);;
  writeFetchWatermarks (FetchInboxResponse_HighWatermark resp) (FetchInboxResponse_LowWatermark resp) (FetchInboxResponse_LogStartOffset resp).

Definition encodeFetchInboxResponse (value : Body) : result string bytes :=
  encodeWith encodeFetchInboxResponse_func1 value.

Definition readDirectMessageRecordStrings (record : DirectMessageRecord) : M DirectMessageRecord :=
  messageID ← readString;
  conversationID ← readString;
  sender ← readString;
  recipient ← readString;
  timestampMS ← readU64;
  payload ← readBytes;
  mret {| DirectMessageRecord_Offset := DirectMessageRecord_Offset record;
     DirectMessageRecord_MessageID := messageID;
     DirectMessageRecord_ConversationID := conversationID; DirectMessageRecord_Sender := sender;
     DirectMessageRecord_Recipient := recipient; DirectMessageRecord_TimestampMS := timestampMS;
     DirectMessageRecord_Payload := payload |}.

Definition readDirectMessageRecord : M DirectMessageRecord :=
  offset ← readU64;
  readDirectMessageRecordStrings {| DirectMessageRecord_Offset := offset; DirectMessageRecord_MessageID := "";
     DirectMessageRecord_ConversationID := ""; DirectMessageRecord_Sender := "";
     DirectMessageRecord_Recipient := ""; DirectMessageRecord_TimestampMS := 0;
     DirectMessageRecord_Payload := [] |}.

Definition readDirectMessageRecords : M (list DirectMessageRecord) :=
  count ← readU32;
  size ← of_result (intFromUint32 count);
  records ← for_range (Z.to_nat size) (
    record ← readDirectMessageRecord;
    mret record);
  mret records.

Definition readFetchInboxResponse : M FetchInboxResponse :=
  recipient ← readString;
  records ← readDirectMessageRecords;
  nextOffset ← readU64;
  '(highWatermark, lowWatermark, logStartOffset) ← readFetchWatermarks;
  mret {| FetchInboxResponse_Recipient := recipient; FetchInboxResponse_Records := records;
     FetchInboxResponse_NextOffset := nextOffset; FetchInboxResponse_HighWatermark := highWatermark;
     FetchInboxResponse_LowWatermark := lowWatermark;
     FetchInboxResponse_LogStartOffset := logStartOffset |}.

Definition decodeFetchInboxResponse (data : bytes) (target : Body) : result string Body :=
  decodeWith readFetchInboxResponse data target.

(** ** [binary_direct_ack.go] *)

Definition encodeAckDirectRequest_func1 (req : AckDirectRequest) : M unit :=
  writeString (AckDirectRequest_Recipient req);;
  writeU64 (AckDirectRequest_NextOffset req).

Definition encodeAckDirectRequest (value : Body) : result string bytes :=
  encodeWith encodeAckDirectRequest_func1 value.

Definition decodeAckDirectRequest_func1 : M AckDirectRequest :=
  recipient ← readString;
  nextOffset ← readU64;
  mret {| AckDirectRequest_Recipient := recipient; AckDirectRequest_NextOffset := nextOffset |}.

Definition decodeAckDirectRequest (data : bytes) (target : Body) : result string Body :=
  decodeWith decodeAckDirectRequest_func1 data target.

Definition encodeAckDirectResponse_func1 (resp : AckDirectResponse) : M unit :=
  writeString (AckDirectResponse_Recipient resp);;
  writeU64 (AckDirectResponse_NextOffset resp).

Definition encodeAckDirectResponse (value : Body) : result string bytes :=
  encodeWith encodeAckDirectResponse_func1 value.

Definition decodeAckDirectResponse_func1 : M AckDirectResponse :=
  recipient ← readString;
  nextOffset ← readU64;
  mret {| AckDirectResponse_Recipient := recipient; AckDirectResponse_NextOffset := nextOffset |}.

Definition decodeAckDirectResponse (data : bytes) (target : Body) : result string Body :=
  decodeWith decodeAckDirectResponse_func1 data target.

(** ** [binary_request_reply.go] *)

Definition encodeStartRequestRequest_func1 (req : StartRequestRequest) : M unit :=
  writeString (StartRequestRequest_Subject req);;
  writeString (StartRequestRequest_InstanceID req);;
  writeOptionalU64 (StartRequestRequest_TimeoutMS req);;
  writeOptionalU64 (StartRequestRequest_PollIntervalMS req);;
  writeOptionalU32 (StartRequestRequest_Partition req);;
  writePartitioning (StartRequestRequest_Partitioning req);;
  writeString (StartRequestRequest_ReplyMode req);;
  writeHeaders (StartRequestRequest_Headers req);;
  writeBytes (StartRequestRequest_Payload req).

Definition encodeStartRequestRequest (value : Body) : result string bytes :=
  encodeWith encodeStartRequestRequest_func1 value.

Definition readStartRequestRequestTail (req : StartRequestRequest) : M StartRequestRequest :=
  timeoutMS ← readOptionalU64;
  pollIntervalMS ← readOptionalU64;
  partition ← readOptionalU32;
  partitioning ← readPartitioning;
  replyMode ← readString;
  headers ← readHeaders;
  payload ← readBytes;
  mret {| StartRequestRequest_Subject := StartRequestRequest_Subject req;
     StartRequestRequest_InstanceID := StartRequestRequest_InstanceID req;
     StartRequestRequest_TimeoutMS := timeoutMS;
     StartRequestRequest_PollIntervalMS := pollIntervalMS;
     StartRequestRequest_Partition := partition; StartRequestRequest_Partitioning := partitioning;
     StartRequestRequest_ReplyMode := replyMode; StartRequestRequest_Headers := headers;
     StartRequestRequest_Payload := payload |}.

Definition readStartRequestRequest : M StartRequestRequest :=
  subject ← readString;
  instanceID ← readString;
  readStartRequestRequestTail {| StartRequestRequest_Subject := subject; StartRequestRequest_InstanceID := instanceID;
     StartRequestRequest_TimeoutMS := None; StartRequestRequest_PollIntervalMS := None;
     StartRequestRequest_Partition := None; StartRequestRequest_Partitioning := "";
     StartRequestRequest_ReplyMode := ""; StartRequestRequest_Headers := [];
     StartRequestRequest_Payload := [] |}.

Definition decodeStartRequestRequest (data : bytes) (target : Body) : result string Body :=
  decodeWith readStartRequestRequest data target.

Definition writeStartRequestResponse (resp : StartRequestResponse) : M unit :=
  writeString (StartRequestResponse_Subject resp);;
  writeString (StartRequestResponse_InstanceID resp);;
  writeString (StartRequestResponse_ReplyTo resp);;
  writeString (StartRequestResponse_CorrelationID resp);;
  writeU64 (StartRequestResponse_ExpiresAtMS resp);;
  writeString (StartRequestResponse_ReplyMode resp);;
  writeU32 (StartRequestResponse_Partition resp);;
  writeU64 (StartRequestResponse_Offset resp);;
  writeU64 (StartRequestResponse_NextOffset resp).

Definition encodeStartRequestResponse (value : Body) : result string bytes :=
  encodeWith writeStartRequestResponse value.

Definition readStartRequestResponseTail (resp : StartRequestResponse) : M StartRequestResponse :=
  replyTo ← readString;
  correlationID ← readString;
  expiresAtMS ← readU64;
  replyMode ← readString;
  partition ← readU32;
  offset ← readU64;
  nextOffset ← readU64;
  mret {| StartRequestResponse_Subject := StartRequestResponse_Subject resp;
     StartRequestResponse_InstanceID := StartRequestResponse_InstanceID resp;
     StartRequestResponse_ReplyTo := replyTo; StartRequestResponse_CorrelationID := correlationID;
     StartRequestResponse_ExpiresAtMS := expiresAtMS; StartRequestResponse_ReplyMode := replyMode;
     StartRequestResponse_Partition := partition; StartRequestResponse_Offset := offset;
     StartRequestResponse_NextOffset := nextOffset |}.

Definition readStartRequestResponse : M StartRequestResponse :=
  subject ← readString;
  instanceID ← readString;
  readStartRequestResponseTail {| StartRequestResponse_Subject := subject; StartRequestResponse_InstanceID := instanceID;
     StartRequestResponse_ReplyTo := ""; StartRequestResponse_CorrelationID := "";
     StartRequestResponse_ExpiresAtMS := 0; StartRequestResponse_ReplyMode := "";
     StartRequestResponse_Partition := 0; StartRequestResponse_Offset := 0;
     StartRequestResponse_NextOffset := 0 |}.

Definition decodeStartRequestResponse (data : bytes) (target : Body) : result string Body :=
  decodeWith readStartRequestResponse data target.

(** ** [binary_request_reply_fetch.go] *)

Definition encodeFetchRequestsRequest_func1 (req : FetchRequestsRequest) : M unit :=
  maxRecords ← of_result (checkedUint32 (FetchRequestsRequest_MaxRecords req));
  writeString (FetchRequestsRequest_Consumer req);;
  writeString (FetchRequestsRequest_Subject req);;
  writeU32 (FetchRequestsRequest_Partition req);;
  writeOptionalU64 (FetchRequestsRequest_Offset req);;
  writeU32 maxRecords;;
  writeOptionalInt (FetchRequestsRequest_MinRecords req);;
  writeOptionalU64 (FetchRequestsRequest_MaxWaitMS req);;
  writeFetchIsolation (FetchRequestsRequest_Isolation req).

Definition encodeFetchRequestsRequest (value : Body) : result string bytes :=
  encodeWith encodeFetchRequestsRequest_func1 value.

Definition decodeFetchRequestsRequest_func1 : M FetchRequestsRequest :=
  fetch ← readFetchRequest;
  mret {| FetchRequestsRequest_Consumer := FetchRequest_Consumer fetch;
     FetchRequestsRequest_Subject := FetchRequest_Topic fetch;
     FetchRequestsRequest_Partition := FetchRequest_Partition fetch;
     FetchRequestsRequest_Offset := FetchRequest_Offset fetch;
     FetchRequestsRequest_MaxRecords := FetchRequest_MaxRecords fetch;
     FetchRequestsRequest_MinRecords := FetchRequest_MinRecords fetch;
     FetchRequestsRequest_MaxWaitMS := FetchRequest_MaxWaitMS fetch;
     FetchRequestsRequest_Isolation := FetchRequest_Isolation fetch |}.

Definition decodeFetchRequestsRequest (data : bytes) (target : Body) : result string Body :=
  decodeWith decodeFetchRequestsRequest_func1 data target.

Definition writeRequestRecord (record : RequestRecord) : M unit :=
  writeU64 (RequestRecord_Offset record);;
  writeU64 (RequestRecord_TimestampMS record);;
  writeString (RequestRecord_Subject record);;
  writeString (RequestRecord_ReplyTo record);;
  writeString (RequestRecord_CorrelationID record);;
  writeString (RequestRecord_SenderID record);;
  writeU64 (RequestRecord_ExpiresAtMS record);;
  writeString (RequestRecord_ReplyMode record);;
  writeHeaders (RequestRecord_Headers record);;
  writeBytes (RequestRecord_Payload record).

Definition writeRequestRecords (records : list RequestRecord) : M unit :=
  count ← of_result (checkedUint32 (len records));
  writeU32 count;;
  for_each (fun record => writeRequestRecord record) records.

Definition encodeFetchRequestsResponse_func1 (resp : FetchRequestsResponse) : M unit :=
  writeString (FetchRequestsResponse_Subject resp);;
  writeU32 (FetchRequestsResponse_Partition resp);;
  writeRequestRecords (FetchRequestsResponse_Requests resp);;
  writeU64 (FetchRequestsResponse_NextOffset resp);;
  writeFetchWatermarks (FetchRequestsResponse_HighWatermark resp) (FetchRequestsResponse_LowWatermark resp) (FetchRequestsResponse_LogStartOffset resp).

Definition encodeFetchRequestsResponse (value : Body) : result string bytes :=
  encodeWith encodeFetchRequestsResponse_func1 value.

Definition readRequestRecordTail (record : RequestRecord) : M RequestRecord :=
  subject ← readString;
  replyTo ← readString;
  correlationID ← readString;
  senderID ← readString;
  expiresAtMS ← readU64;
  replyMode ← readString;
  headers ← readHeaders;
  payload ← readBytes;
  mret {| RequestRecord_Offset := RequestRecord_Offset record;
     RequestRecord_TimestampMS := RequestRecord_TimestampMS record;
     RequestRecord_Subject := subject; RequestRecord_ReplyTo := replyTo;
     RequestRecord_CorrelationID := correlationID; RequestRecord_SenderID := senderID;
     RequestRecord_ExpiresAtMS := expiresAtMS; RequestRecord_ReplyMode := replyMode;
     RequestRecord_Headers := headers; RequestRecord_Payload := payload |}.

Definition readRequestRecord : M RequestRecord :=
  offset ← readU64;
  timestampMS ← readU64;
  readRequestRecordTail {| RequestRecord_Offset := offset; RequestRecord_TimestampMS := timestampMS;
     RequestRecord_Subject := ""; RequestRecord_ReplyTo := ""; RequestRecord_CorrelationID := "";
     RequestRecord_SenderID := ""; RequestRecord_ExpiresAtMS := 0; RequestRecord_ReplyMode := "";
     RequestRecord_Headers := []; RequestRecord_Payload := [] |}.

Definition readRequestRecords : M (list RequestRecord) :=
  count ← readU32;
  size ← of_result (intFromUint32 count);
  records ← for_range (Z.to_nat size) (
    record ← readRequestRecord;
    mret record);
  mret records.

Definition readFetchRequestsResponse : M FetchRequestsResponse :=
  subject ← readString;
  partition ← readU32;
  requests ← readRequestRecords;
  nextOffset ← readU64;
  '(highWatermark, lowWatermark, logStartOffset) ← readFetchWatermarks;
  mret {| FetchRequestsResponse_Subject := subject; FetchRequestsResponse_Partition := partition;
     FetchRequestsResponse_Requests := requests; FetchRequestsResponse_NextOffset := nextOffset;
     FetchRequestsResponse_HighWatermark := highWatermark;
     FetchRequestsResponse_LowWatermark := lowWatermark;
     FetchRequestsResponse_LogStartOffset := logStartOffset |}.

Definition decodeFetchRequestsResponse (data : bytes) (target : Body) : result string Body :=
  decodeWith readFetchRequestsResponse data target.

(** ** [binary_reply.go] *)

Definition writeReplyRouting (fields : replyRoutingFields) : M unit :=
  writeString (replyRoutingFields_subject fields);;
  writeString (replyRoutingFields_replyTo fields);;
  writeString (replyRoutingFields_correlationID fields);;
  writeU64 (replyRoutingFields_expiresAtMS fields);;
  writeString (replyRoutingFields_responderID fields).

Definition writeReplyFields (fields : replyFields) : M unit :=
  writeReplyRouting (replyFields_routing fields);;
  writeBytes (replyFields_payload fields).

Definition encodeReplyRequest_func1 (req : ReplyRequest) : M unit :=
  writeReplyFields {| replyFields_routing := {| replyRoutingFields_subject := ReplyRequest_Subject req;
     replyRoutingFields_replyTo := ReplyRequest_ReplyTo req;
     replyRoutingFields_correlationID := ReplyRequest_CorrelationID req;
     replyRoutingFields_expiresAtMS := ReplyRequest_ExpiresAtMS req;
     replyRoutingFields_responderID := ReplyRequest_ResponderID req |};
     replyFields_payload := ReplyRequest_Payload req |}.

Definition encodeReplyRequest (value : Body) : result string bytes :=
  encodeWith encodeReplyRequest_func1 value.

Definition readReplyRouting : M replyRoutingFields :=
  subject ← readString;
  replyTo ← readString;
  correlationID ← readString;
  expiresAtMS ← readU64;
  responderID ← readString;
  mret {| replyRoutingFields_subject := subject; replyRoutingFields_replyTo := replyTo;
     replyRoutingFields_correlationID := correlationID;
     replyRoutingFields_expiresAtMS := expiresAtMS; replyRoutingFields_responderID := responderID |}.

Definition readReplyFields : M replyFields :=
  routing ← readReplyRouting;
  payload ← readBytes;
  mret {| replyFields_routing := routing; replyFields_payload := payload |}.

Definition decodeReplyRequest_func1 : M ReplyRequest :=
  fields ← readReplyFields;
  mret {| ReplyRequest_Subject := replyRoutingFields_subject (replyFields_routing fields);
     ReplyRequest_ReplyTo := replyRoutingFields_replyTo (replyFields_routing fields);
     ReplyRequest_CorrelationID := replyRoutingFields_correlationID (replyFields_routing fields);
     ReplyRequest_ExpiresAtMS := replyRoutingFields_expiresAtMS (replyFields_routing fields);
     ReplyRequest_ResponderID := replyRoutingFields_responderID (replyFields_routing fields);
     ReplyRequest_Payload := replyFields_payload fields |}.

Definition decodeReplyRequest (data : bytes) (target : Body) : result string Body :=
  decodeWith decodeReplyRequest_func1 data target.

Definition encodeReplyResponse_func1 (resp : ReplyResponse) : M unit :=
  writeSendDirectResponse {| SendDirectResponse_MessageID := ReplyResponse_MessageID resp;
     SendDirectResponse_ConversationID := ReplyResponse_ConversationID resp;
     SendDirectResponse_Offset := ReplyResponse_Offset resp;
     SendDirectResponse_NextOffset := ReplyResponse_NextOffset resp |}.

Definition encodeReplyResponse (value : Body) : result string bytes :=
  encodeWith encodeReplyResponse_func1 value.

Definition decodeReplyResponse_func1 : M ReplyResponse :=
  resp ← readSendDirectResponse;
  mret {| ReplyResponse_MessageID := SendDirectResponse_MessageID resp;
     ReplyResponse_ConversationID := SendDirectResponse_ConversationID resp;
     ReplyResponse_Offset := SendDirectResponse_Offset resp;
     ReplyResponse_NextOffset := SendDirectResponse_NextOffset resp |}.

Definition decodeReplyResponse (data : bytes) (target : Body) : result string Body :=
  decodeWith decodeReplyResponse_func1 data target.

Definition encodeReplyErrorRequest_func1 (req : ReplyErrorRequest) : M unit :=
  writeReplyRouting {| replyRoutingFields_subject := ReplyErrorRequest_Subject req;
     replyRoutingFields_replyTo := ReplyErrorRequest_ReplyTo req;
     replyRoutingFields_correlationID := ReplyErrorRequest_CorrelationID req;
     replyRoutingFields_expiresAtMS := ReplyErrorRequest_ExpiresAtMS req;
     replyRoutingFields_responderID := ReplyErrorRequest_ResponderID req |};;
  writeString (ReplyErrorRequest_Error req).

Definition encodeReplyErrorRequest (value : Body) : result string bytes :=
  encodeWith encodeReplyErrorRequest_func1 value.

Definition decodeReplyErrorRequest_func1 : M ReplyErrorRequest :=
  routing ← readReplyRouting;
  errorMessage ← readString;
  mret {| ReplyErrorRequest_Subject := replyRoutingFields_subject routing;
     ReplyErrorRequest_ReplyTo := replyRoutingFields_replyTo routing;
     ReplyErrorRequest_CorrelationID := replyRoutingFields_correlationID routing;
     ReplyErrorRequest_ExpiresAtMS := replyRoutingFields_expiresAtMS routing;
     ReplyErrorRequest_ResponderID := replyRoutingFields_responderID routing;
     ReplyErrorRequest_Error := errorMessage |}.

Definition decodeReplyErrorRequest (data : bytes) (target : Body) : result string Body :=
  decodeWith decodeReplyErrorRequest_func1 data target.

Definition encodeReplyErrorResponse (value : Body) : result string bytes := encodeReplyResponse value.

Definition decodeReplyErrorResponse (data : bytes) (target : Body) : result string Body := decodeReplyResponse data target.

(** ** [binary_await_reply.go] *)

Definition encodeAwaitReplyRequest_func1 (req : AwaitReplyRequest) : M unit :=
  writeString (AwaitReplyRequest_ReplyTo req);;
  writeString (AwaitReplyRequest_CorrelationID req);;
  writeU64 (AwaitReplyRequest_ExpiresAtMS req);;
  writeOptionalU64 (AwaitReplyRequest_TimeoutMS req);;
  writeOptionalU64 (AwaitReplyRequest_PollIntervalMS req).

Definition encodeAwaitReplyRequest (value : Body) : result string bytes :=
  encodeWith encodeAwaitReplyRequest_func1 value.

Definition readAwaitReplyRequest : M AwaitReplyRequest :=
  replyTo ← readString;
  correlationID ← readString;
  expiresAtMS ← readU64;
  timeoutMS ← readOptionalU64;
  pollIntervalMS ← readOptionalU64;
  mret {| AwaitReplyRequest_ReplyTo := replyTo; AwaitReplyRequest_CorrelationID := correlationID;
     AwaitReplyRequest_ExpiresAtMS := expiresAtMS; AwaitReplyRequest_TimeoutMS := timeoutMS;
     AwaitReplyRequest_PollIntervalMS := pollIntervalMS |}.

Definition decodeAwaitReplyRequest (data : bytes) (target : Body) : result string Body :=
  decodeWith readAwaitReplyRequest data target.

Definition writeReplyRecord (record : ReplyRecord) : M unit :=
  writeU64 (ReplyRecord_Offset record);;
  writeString (ReplyRecord_MessageID record);;
  writeU64 (ReplyRecord_TimestampMS record);;
  writeString (ReplyRecord_Subject record);;
  writeString (ReplyRecord_CorrelationID record);;
  writeString (ReplyRecord_ResponderID record);;
  writeOptionalString (ReplyRecord_Error record);;
  writeBytes (ReplyRecord_Payload record).

Definition encodeAwaitReplyResponse_func1 (resp : AwaitReplyResponse) : M unit :=
  writeReplyRecord (AwaitReplyResponse_Reply resp).

Definition encodeAwaitReplyResponse (value : Body) : result string bytes :=
  encodeWith encodeAwaitReplyResponse_func1 value.

Definition readReplyRecordTail (record : ReplyRecord) : M ReplyRecord :=
  subject ← readString;
  correlationID ← readString;
  responderID ← readString;
  error ← readOptionalString;
  payload ← readBytes;
  mret {| ReplyRecord_Offset := ReplyRecord_Offset record;
     ReplyRecord_MessageID := ReplyRecord_MessageID record;
     ReplyRecord_TimestampMS := ReplyRecord_TimestampMS record; ReplyRecord_Subject := subject;
     ReplyRecord_CorrelationID := correlationID; ReplyRecord_ResponderID := responderID;
     ReplyRecord_Error := error; ReplyRecord_Payload := payload |}.

Definition readReplyRecord : M ReplyRecord :=
  offset ← readU64;
  messageID ← readString;
  timestampMS ← readU64;
  readReplyRecordTail {| ReplyRecord_Offset := offset; ReplyRecord_MessageID := messageID;
     ReplyRecord_TimestampMS := timestampMS; ReplyRecord_Subject := "";
     ReplyRecord_CorrelationID := ""; ReplyRecord_ResponderID := ""; ReplyRecord_Error := None;
     ReplyRecord_Payload := [] |}.

Definition decodeAwaitReplyResponse_func1 : M AwaitReplyResponse :=
  reply ← readReplyRecord;
  mret {| AwaitReplyResponse_Reply := reply |}.

Definition decodeAwaitReplyResponse (data : bytes) (target : Body) : result string Body :=
  decodeWith decodeAwaitReplyResponse_func1 data target.

Definition encodeAwaitRepliesRequest_func1 (req : AwaitRepliesRequest) : M unit :=
  maxReplies ← of_result (checkedUint32 (AwaitRepliesRequest_MaxReplies req));
  writeString (AwaitRepliesRequest_ReplyTo req);;
  writeString (AwaitRepliesRequest_CorrelationID req);;
  writeU64 (AwaitRepliesRequest_ExpiresAtMS req);;
  writeOptionalU64 (AwaitRepliesRequest_TimeoutMS req);;
  writeOptionalU64 (AwaitRepliesRequest_PollIntervalMS req);;
  writeU32 maxReplies.

Definition encodeAwaitRepliesRequest (value : Body) : result string bytes :=
  encodeWith encodeAwaitRepliesRequest_func1 value.

Definition decodeAwaitRepliesRequest_func1 : M AwaitRepliesRequest :=
  await ← readAwaitReplyRequest;
  maxReplies ← readU32;
  out ← of_result (intFromUint32 maxReplies);
  mret {| AwaitRepliesRequest_ReplyTo := AwaitReplyRequest_ReplyTo await;
     AwaitRepliesRequest_CorrelationID := AwaitReplyRequest_CorrelationID await;
     AwaitRepliesRequest_ExpiresAtMS := AwaitReplyRequest_ExpiresAtMS await;
     AwaitRepliesRequest_TimeoutMS := AwaitReplyRequest_TimeoutMS await;
     AwaitRepliesRequest_PollIntervalMS := AwaitReplyRequest_PollIntervalMS await;
     AwaitRepliesRequest_MaxReplies := out |}.

Definition decodeAwaitRepliesRequest (data : bytes) (target : Body) : result string Body :=
  decodeWith decodeAwaitRepliesRequest_func1 data target.

Definition writeReplyRecords (records : list ReplyRecord) : M unit :=
  count ← of_result (checkedUint32 (len records));
  writeU32 count;;
  for_each (fun record => writeReplyRecord record) records.

Definition encodeAwaitRepliesResponse_func1 (resp : AwaitRepliesResponse) : M unit :=
  writeReplyRecords (AwaitRepliesResponse_Replies resp).

Definition encodeAwaitRepliesResponse (value : Body) : result string bytes :=
  encodeWith encodeAwaitRepliesResponse_func1 value.

Definition readReplyRecords : M (list ReplyRecord) :=
  count ← readU32;
  size ← of_result (intFromUint32 count);
  records ← for_range (Z.to_nat size) (
    record ← readReplyRecord;
    mret record);
  mret records.

Definition decodeAwaitRepliesResponse_func1 : M AwaitRepliesResponse :=
  replies ← readReplyRecords;
  mret {| AwaitRepliesResponse_Replies := replies |}.

Definition decodeAwaitRepliesResponse (data : bytes) (target : Body) : result string Body :=
  decodeWith decodeAwaitRepliesResponse_func1 data target.
