(* ===== verification/CodecsGroup.v ===== *)
(** * Wire protocol: consumer-group and transaction codecs

    [binary_group.go], [binary_group_assignment.go],
    [binary_group_fetch.go], [binary_group_commit_batch.go],
    [binary_group_batch_response.go], [binary_transaction.go],
    [binary_transaction_commit.go] of [src/protocol]; an anonymous
    function of [encodeX] or [decodeX] is [encodeX_func1] or
    [decodeX_func1]. *)

From stdpp Require Import prelude strings list.
From S2P Require Import Prelude Wire Messages CodecsTopic CodecsFetch.

#[local] Open Scope Z_scope.

(** A [[7]uint64] array, filled by the loop. *)
Definition readLeaseTimingFields : M (list Z) := for_range 7 readU64.

(** ** [binary_group.go] *)

Definition encodeJoinConsumerGroupRequest_func1 (req : JoinConsumerGroupRequest) : M unit :=
  writeString (JoinConsumerGroupRequest_Group req);;
  writeString (JoinConsumerGroupRequest_MemberID req);;
  writeStringSlice (JoinConsumerGroupRequest_Topics req);;
  writeU64 (JoinConsumerGroupRequest_SessionTimeoutMS req);;
  writeU64 (JoinConsumerGroupRequest_MaxPollIntervalMS req).

Definition encodeJoinConsumerGroupRequest (value : Body) : result string bytes :=
  encodeWith encodeJoinConsumerGroupRequest_func1 value.

Definition decodeJoinConsumerGroupRequest_func1 : M JoinConsumerGroupRequest :=
  group ← readString;
  memberID ← readString;
  topics ← readStringSlice;
  timeout ← readU64;
  maxPollInterval ← readU64;
  mret {| JoinConsumerGroupRequest_Group := group; JoinConsumerGroupRequest_MemberID := memberID;
     JoinConsumerGroupRequest_Topics := topics;
     JoinConsumerGroupRequest_SessionTimeoutMS := timeout;
     JoinConsumerGroupRequest_MaxPollIntervalMS := maxPollInterval |}.

Definition decodeJoinConsumerGroupRequest (data : bytes) (target : Body) : result string Body :=
  decodeWith decodeJoinConsumerGroupRequest_func1 data target.

Definition writeLease (lease : ConsumerGroupMemberLease) : M unit :=
  writeString (ConsumerGroupMemberLease_Group lease);;
  writeString (ConsumerGroupMemberLease_MemberID lease);;
  writeStringSlice (ConsumerGroupMemberLease_Topics lease);;
  writeU64 (ConsumerGroupMemberLease_SessionTimeoutMS lease);;
  writeU64 (ConsumerGroupMemberLease_MaxPollIntervalMS lease);;
  writeU64 (ConsumerGroupMemberLease_JoinedAtMS lease);;
  writeU64 (ConsumerGroupMemberLease_LastHeartbeatMS lease);;
  writeU64 (ConsumerGroupMemberLease_LastPollMS lease);;
  writeU64 (ConsumerGroupMemberLease_ExpiresAtMS lease);;
  writeU64 (ConsumerGroupMemberLease_PollExpiresAtMS lease).

Definition encodeJoinConsumerGroupResponse_func1 (resp : JoinConsumerGroupResponse) : M unit :=
  writeLease (JoinConsumerGroupResponse_Lease resp).

Definition encodeJoinConsumerGroupResponse (value : Body) : result string bytes :=
  encodeWith encodeJoinConsumerGroupResponse_func1 value.

Definition readLease : M ConsumerGroupMemberLease :=
  group ← readString;
  memberID ← readString;
  topics ← readStringSlice;
  fields ← readLeaseTimingFields;
  mret {| ConsumerGroupMemberLease_Group := group; ConsumerGroupMemberLease_MemberID := memberID;
     ConsumerGroupMemberLease_Topics := topics;
     ConsumerGroupMemberLease_SessionTimeoutMS := nth 0 fields 0;
     ConsumerGroupMemberLease_MaxPollIntervalMS := nth 1 fields 0;
     ConsumerGroupMemberLease_JoinedAtMS := nth 2 fields 0;
     ConsumerGroupMemberLease_LastHeartbeatMS := nth 3 fields 0;
     ConsumerGroupMemberLease_LastPollMS := nth 4 fields 0;
     ConsumerGroupMemberLease_ExpiresAtMS := nth 5 fields 0;
     ConsumerGroupMemberLease_PollExpiresAtMS := nth 6 fields 0 |}.

Definition decodeJoinConsumerGroupResponse_func1 : M JoinConsumerGroupResponse :=
  lease ← readLease;
  mret {| JoinConsumerGroupResponse_Lease := lease |}.

Definition decodeJoinConsumerGroupResponse (data : bytes) (target : Body) : result string Body :=
  decodeWith decodeJoinConsumerGroupResponse_func1 data target.

Definition encodeHeartbeatConsumerGroupRequest_func1 (req : HeartbeatConsumerGroupRequest) : M unit :=
  writeString (HeartbeatConsumerGroupRequest_Group req);;
  writeString (HeartbeatConsumerGroupRequest_MemberID req);;
  writeOptionalU64 (HeartbeatConsumerGroupRequest_SessionTimeoutMS req);;
  writeOptionalU64 (HeartbeatConsumerGroupRequest_MaxPollIntervalMS req).

Definition encodeHeartbeatConsumerGroupRequest (value : Body) : result string bytes :=
  encodeWith encodeHeartbeatConsumerGroupRequest_func1 value.

Definition decodeHeartbeatConsumerGroupRequest_func1 : M HeartbeatConsumerGroupRequest :=
  group ← readString;
  memberID ← readString;
  timeout ← readOptionalU64;
  maxPollInterval ← readOptionalU64;
  mret {| HeartbeatConsumerGroupRequest_Group := group;
     HeartbeatConsumerGroupRequest_MemberID := memberID;
     HeartbeatConsumerGroupRequest_SessionTimeoutMS := timeout;
     HeartbeatConsumerGroupRequest_MaxPollIntervalMS := maxPollInterval |}.

Definition decodeHeartbeatConsumerGroupRequest (data : bytes) (target : Body) : result string Body :=
  decodeWith decodeHeartbeatConsumerGroupRequest_func1 data target.

Definition encodeHeartbeatConsumerGroupResponse_func1 (resp : HeartbeatConsumerGroupResponse) : M unit :=
  writeLease (HeartbeatConsumerGroupResponse_Lease resp).

Definition encodeHeartbeatConsumerGroupResponse (value : Body) : result string bytes :=
  encodeWith encodeHeartbeatConsumerGroupResponse_func1 value.

Definition decodeHeartbeatConsumerGroupResponse_func1 : M HeartbeatConsumerGroupResponse :=
  lease ← readLease;
  mret {| HeartbeatConsumerGroupResponse_Lease := lease |}.

Definition decodeHeartbeatConsumerGroupResponse (data : bytes) (target : Body) : result string Body :=
  decodeWith decodeHeartbeatConsumerGroupResponse_func1 data target.

Definition encodeRebalanceConsumerGroupRequest_func1 (req : RebalanceConsumerGroupRequest) : M unit :=
  writeString (RebalanceConsumerGroupRequest_Group req).

Definition encodeRebalanceConsumerGroupRequest (value : Body) : result string bytes :=
  encodeWith encodeRebalanceConsumerGroupRequest_func1 value.

Definition decodeRebalanceConsumerGroupRequest_func1 : M RebalanceConsumerGroupRequest :=
  group ← readString;
  mret {| RebalanceConsumerGroupRequest_Group := group |}.

Definition decodeRebalanceConsumerGroupRequest (data : bytes) (target : Body) : result string Body :=
  decodeWith decodeRebalanceConsumerGroupRequest_func1 data target.

(** ** [binary_group_assignment.go] *)

Definition writeAssignment (assignment : ConsumerGroupAssignment) : M unit :=
  writeString (ConsumerGroupAssignment_Group assignment);;
  writeU64 (ConsumerGroupAssignment_Generation assignment);;
  count ← of_result (checkedUint32 (len (ConsumerGroupAssignment_Assignments assignment)));
  writeU32 count;;
  for_each (fun item =>
    writeString (GroupPartitionAssignment_MemberID item);;
    writeString (GroupPartitionAssignment_Topic item);;
    writeU32 (GroupPartitionAssignment_Partition item)) (ConsumerGroupAssignment_Assignments assignment);;
  writeU64 (ConsumerGroupAssignment_UpdatedAtMS assignment).

(** ** [binary_group.go] *)

Definition encodeRebalanceConsumerGroupResponse_func1 (resp : RebalanceConsumerGroupResponse) : M unit :=
  writeAssignment (RebalanceConsumerGroupResponse_Assignment resp).

Definition encodeRebalanceConsumerGroupResponse (value : Body) : result string bytes :=
  encodeWith encodeRebalanceConsumerGroupResponse_func1 value.

(** ** [binary_group_assignment.go] *)

Definition readAssignmentItem : M GroupPartitionAssignment :=
  memberID ← readString;
  topic ← readString;
  partition ← readU32;
  mret {| GroupPartitionAssignment_MemberID := memberID; GroupPartitionAssignment_Topic := topic;
     GroupPartitionAssignment_Partition := partition |}.

Definition readAssignmentItems : M (list GroupPartitionAssignment) :=
  count ← readU32;
  size ← of_result (intFromUint32 count);
  items ← for_range (Z.to_nat size) (
    item ← readAssignmentItem;
    mret item);
  mret items.

Definition readAssignment : M ConsumerGroupAssignment :=
  group ← readString;
  generation ← readU64;
  assignments ← readAssignmentItems;
  updatedAtMS ← readU64;
  mret {| ConsumerGroupAssignment_Group := group; ConsumerGroupAssignment_Generation := generation;
     ConsumerGroupAssignment_Assignments := assignments;
     ConsumerGroupAssignment_UpdatedAtMS := updatedAtMS |}.

(** ** [binary_group.go] *)

Definition decodeRebalanceConsumerGroupResponse_func1 : M RebalanceConsumerGroupResponse :=
  assignment ← readAssignment;
  mret {| RebalanceConsumerGroupResponse_Assignment := assignment |}.

Definition decodeRebalanceConsumerGroupResponse (data : bytes) (target : Body) : result string Body :=
  decodeWith decodeRebalanceConsumerGroupResponse_func1 data target.

(** ** [binary_group_assignment.go] *)

Definition encodeGetConsumerGroupAssignmentRequest_func1 (req : GetConsumerGroupAssignmentRequest) : M unit :=
  writeString (GetConsumerGroupAssignmentRequest_Group req).

Definition encodeGetConsumerGroupAssignmentRequest (value : Body) : result string bytes :=
  encodeWith encodeGetConsumerGroupAssignmentRequest_func1 value.

Definition decodeGetConsumerGroupAssignmentRequest_func1 : M GetConsumerGroupAssignmentRequest :=
  group ← readString;
  mret {| GetConsumerGroupAssignmentRequest_Group := group |}.

Definition decodeGetConsumerGroupAssignmentRequest (data : bytes) (target : Body) : result string Body :=
  decodeWith decodeGetConsumerGroupAssignmentRequest_func1 data target.

Definition encodeGetConsumerGroupAssignmentResponse_func1 (resp : GetConsumerGroupAssignmentResponse) : M unit :=
  match GetConsumerGroupAssignmentResponse_Assignment resp with
  | None => writeBool false
  | Some assignment =>
      writeBool true;;
      writeAssignment assignment
  end.

Definition encodeGetConsumerGroupAssignmentResponse (value : Body) : result string bytes :=
  encodeWith encodeGetConsumerGroupAssignmentResponse_func1 value.

Definition decodeGetConsumerGroupAssignmentResponse_func1 : M GetConsumerGroupAssignmentResponse :=
  ok ← readBool;
  if negb ok then mret {| GetConsumerGroupAssignmentResponse_Assignment := None |}
  else
    assignment ← readAssignment;
    mret {| GetConsumerGroupAssignmentResponse_Assignment := Some assignment |}.

Definition decodeGetConsumerGroupAssignmentResponse (data : bytes) (target : Body) : result string Body :=
  decodeWith decodeGetConsumerGroupAssignmentResponse_func1 data target.

(** ** [binary_group_fetch.go] *)

Definition encodeFetchConsumerGroupRequest_func1 (req : FetchConsumerGroupRequest) : M unit :=
  maxRecords ← of_result (checkedUint32 (FetchConsumerGroupRequest_MaxRecords req));
  writeString (FetchConsumerGroupRequest_Group req);;
  writeString (FetchConsumerGroupRequest_MemberID req);;
  writeU64 (FetchConsumerGroupRequest_Generation req);;
  writeString (FetchConsumerGroupRequest_Topic req);;
  writeU32 (FetchConsumerGroupRequest_Partition req);;
  writeOptionalU64 (FetchConsumerGroupRequest_Offset req);;
  writeU32 maxRecords;;
  writeOptionalInt (FetchConsumerGroupRequest_MinRecords req);;
  writeOptionalU64 (FetchConsumerGroupRequest_MaxWaitMS req);;
  writeFetchIsolation (FetchConsumerGroupRequest_Isolation req).

Definition encodeFetchConsumerGroupRequest (value : Body) : result string bytes :=
  encodeWith encodeFetchConsumerGroupRequest_func1 value.

Definition readFetchConsumerGroupTail (req : FetchConsumerGroupRequest) : M FetchConsumerGroupRequest :=
  partition ← readU32;
  offset ← readOptionalU64;
  maxRecords ← readU32;
  maxRecords ← of_result (intFromUint32 maxRecords);
  minRecords ← readOptionalInt;
  maxWaitMS ← readOptionalU64;
  isolation ← readFetchIsolation;
  mret {| FetchConsumerGroupRequest_Group := FetchConsumerGroupRequest_Group req;
     FetchConsumerGroupRequest_MemberID := FetchConsumerGroupRequest_MemberID req;
     FetchConsumerGroupRequest_Generation := FetchConsumerGroupRequest_Generation req;
     FetchConsumerGroupRequest_Topic := FetchConsumerGroupRequest_Topic req;
     FetchConsumerGroupRequest_Partition := partition; FetchConsumerGroupRequest_Offset := offset;
     FetchConsumerGroupRequest_MaxRecords := maxRecords;
     FetchConsumerGroupRequest_MinRecords := minRecords;
     FetchConsumerGroupRequest_MaxWaitMS := maxWaitMS;
     FetchConsumerGroupRequest_Isolation := isolation |}.

Definition readFetchConsumerGroupRequest : M FetchConsumerGroupRequest :=
  group ← readString;
  memberID ← readString;
  generation ← readU64;
  topic ← readString;
  readFetchConsumerGroupTail {| FetchConsumerGroupRequest_Group := group; FetchConsumerGroupRequest_MemberID := memberID;
     FetchConsumerGroupRequest_Generation := generation; FetchConsumerGroupRequest_Topic := topic;
     FetchConsumerGroupRequest_Partition := 0; FetchConsumerGroupRequest_Offset := None;
     FetchConsumerGroupRequest_MaxRecords := 0; FetchConsumerGroupRequest_MinRecords := None;
     FetchConsumerGroupRequest_MaxWaitMS := None; FetchConsumerGroupRequest_Isolation := "" |}.

Definition decodeFetchConsumerGroupRequest (data : bytes) (target : Body) : result string Body :=
  decodeWith readFetchConsumerGroupRequest data target.

Definition encodeFetchConsumerGroupResponse_func1 (resp : FetchConsumerGroupResponse) : M unit :=
  writeString (FetchConsumerGroupResponse_Group resp);;
  writeString (FetchConsumerGroupResponse_MemberID resp);;
  writeU64 (FetchConsumerGroupResponse_Generation resp);;
  writeString (FetchConsumerGroupResponse_Topic resp);;
  writeU32 (FetchConsumerGroupResponse_Partition resp);;
  writeFetchRecords (FetchConsumerGroupResponse_Records resp);;
  writeU64 (FetchConsumerGroupResponse_NextOffset resp);;
  writeFetchWatermarks (FetchConsumerGroupResponse_HighWatermark resp) (FetchConsumerGroupResponse_LowWatermark resp) (FetchConsumerGroupResponse_LogStartOffset resp).

Definition encodeFetchConsumerGroupResponse (value : Body) : result string bytes :=
  encodeWith encodeFetchConsumerGroupResponse_func1 value.

Definition readFetchConsumerGroupResponseTail (resp : FetchConsumerGroupResponse) : M FetchConsumerGroupResponse :=
  partition ← readU32;
  records ← readFetchRecords;
  nextOffset ← readU64;
  '(highWatermark, lowWatermark, logStartOffset) ← readFetchWatermarks;
  mret {| FetchConsumerGroupResponse_Group := FetchConsumerGroupResponse_Group resp;
     FetchConsumerGroupResponse_MemberID := FetchConsumerGroupResponse_MemberID resp;
     FetchConsumerGroupResponse_Generation := FetchConsumerGroupResponse_Generation resp;
     FetchConsumerGroupResponse_Topic := FetchConsumerGroupResponse_Topic resp;
     FetchConsumerGroupResponse_Partition := partition;
     FetchConsumerGroupResponse_Records := records;
     FetchConsumerGroupResponse_NextOffset := nextOffset;
     FetchConsumerGroupResponse_HighWatermark := highWatermark;
     FetchConsumerGroupResponse_LowWatermark := lowWatermark;
     FetchConsumerGroupResponse_LogStartOffset := logStartOffset |}.

Definition readFetchConsumerGroupResponse : M FetchConsumerGroupResponse :=
  group ← readString;
  memberID ← readString;
  generation ← readU64;
  topic ← readString;
  readFetchConsumerGroupResponseTail {| FetchConsumerGroupResponse_Group := group; FetchConsumerGroupResponse_MemberID := memberID;
     FetchConsumerGroupResponse_Generation := generation; FetchConsumerGroupResponse_Topic := topic;
     FetchConsumerGroupResponse_Partition := 0; FetchConsumerGroupResponse_Records := [];
     FetchConsumerGroupResponse_NextOffset := 0; FetchConsumerGroupResponse_HighWatermark := None;
     FetchConsumerGroupResponse_LowWatermark := None;
     FetchConsumerGroupResponse_LogStartOffset := 0 |}.

Definition decodeFetchConsumerGroupResponse (data : bytes) (target : Body) : result string Body :=
  decodeWith readFetchConsumerGroupResponse data target.

(** ** [binary_group_commit_batch.go] *)

Definition writeGroupOffset (fields : groupOffsetFields) : M unit :=
  writeString (groupOffsetFields_group fields);;
  writeString (groupOffsetFields_memberID fields);;
  writeU64 (groupOffsetFields_generation fields);;
  writeString (groupOffsetFields_topic fields);;
  writeU32 (groupOffsetFields_partition fields);;
  writeU64 (groupOffsetFields_nextOffset fields);;
  writeString (groupOffsetFields_metadata fields).

Definition encodeCommitConsumerGroupOffsetRequest_func1 (req : CommitConsumerGroupOffsetRequest) : M unit :=
  writeGroupOffset {| groupOffsetFields_group := CommitConsumerGroupOffsetRequest_Group req;
     groupOffsetFields_memberID := CommitConsumerGroupOffsetRequest_MemberID req;
     groupOffsetFields_generation := CommitConsumerGroupOffsetRequest_Generation req;
     groupOffsetFields_topic := CommitConsumerGroupOffsetRequest_Topic req;
     groupOffsetFields_partition := CommitConsumerGroupOffsetRequest_Partition req;
     groupOffsetFields_nextOffset := CommitConsumerGroupOffsetRequest_NextOffset req;
     groupOffsetFields_metadata := CommitConsumerGroupOffsetRequest_Metadata req |}.

Definition encodeCommitConsumerGroupOffsetRequest (value : Body) : result string bytes :=
  encodeWith encodeCommitConsumerGroupOffsetRequest_func1 value.

Definition readGroupOffsetTail (fields : groupOffsetFields) : M groupOffsetFields :=
  topic ← readString;
  partition ← readU32;
  nextOffset ← readU64;
  metadata ← readString;
  mret {| groupOffsetFields_group := groupOffsetFields_group fields;
     groupOffsetFields_memberID := groupOffsetFields_memberID fields;
     groupOffsetFields_generation := groupOffsetFields_generation fields;
     groupOffsetFields_topic := topic; groupOffsetFields_partition := partition;
     groupOffsetFields_nextOffset := nextOffset; groupOffsetFields_metadata := metadata |}.

Definition readGroupOffset : M groupOffsetFields :=
  group ← readString;
  memberID ← readString;
  generation ← readU64;
  readGroupOffsetTail {| groupOffsetFields_group := group; groupOffsetFields_memberID := memberID;
     groupOffsetFields_generation := generation; groupOffsetFields_topic := "";
     groupOffsetFields_partition := 0; groupOffsetFields_nextOffset := 0;
     groupOffsetFields_metadata := "" |}.

Definition decodeCommitConsumerGroupOffsetRequest_func1 : M CommitConsumerGroupOffsetRequest :=
  fields ← readGroupOffset;
  mret {| CommitConsumerGroupOffsetRequest_Group := groupOffsetFields_group fields;
     CommitConsumerGroupOffsetRequest_MemberID := groupOffsetFields_memberID fields;
     CommitConsumerGroupOffsetRequest_Generation := groupOffsetFields_generation fields;
     CommitConsumerGroupOffsetRequest_Topic := groupOffsetFields_topic fields;
     CommitConsumerGroupOffsetRequest_Partition := groupOffsetFields_partition fields;
     CommitConsumerGroupOffsetRequest_NextOffset := groupOffsetFields_nextOffset fields;
     CommitConsumerGroupOffsetRequest_Metadata := groupOffsetFields_metadata fields |}.

Definition decodeCommitConsumerGroupOffsetRequest (data : bytes) (target : Body) : result string Body :=
  decodeWith decodeCommitConsumerGroupOffsetRequest_func1 data target.

Definition encodeCommitConsumerGroupOffsetResponse_func1 (resp : CommitConsumerGroupOffsetResponse) : M unit :=
  writeGroupOffset {| groupOffsetFields_group := CommitConsumerGroupOffsetResponse_Group resp;
     groupOffsetFields_memberID := CommitConsumerGroupOffsetResponse_MemberID resp;
     groupOffsetFields_generation := CommitConsumerGroupOffsetResponse_Generation resp;
     groupOffsetFields_topic := CommitConsumerGroupOffsetResponse_Topic resp;
     groupOffsetFields_partition := CommitConsumerGroupOffsetResponse_Partition resp;
     groupOffsetFields_nextOffset := CommitConsumerGroupOffsetResponse_NextOffset resp;
     groupOffsetFields_metadata := CommitConsumerGroupOffsetResponse_Metadata resp |}.

Definition encodeCommitConsumerGroupOffsetResponse (value : Body) : result string bytes :=
  encodeWith encodeCommitConsumerGroupOffsetResponse_func1 value.

Definition decodeCommitConsumerGroupOffsetResponse_func1 : M CommitConsumerGroupOffsetResponse :=
  fields ← readGroupOffset;
  mret {| CommitConsumerGroupOffsetResponse_Group := groupOffsetFields_group fields;
     CommitConsumerGroupOffsetResponse_MemberID := groupOffsetFields_memberID fields;
     CommitConsumerGroupOffsetResponse_Generation := groupOffsetFields_generation fields;
     CommitConsumerGroupOffsetResponse_Topic := groupOffsetFields_topic fields;
     CommitConsumerGroupOffsetResponse_Partition := groupOffsetFields_partition fields;
     CommitConsumerGroupOffsetResponse_NextOffset := groupOffsetFields_nextOffset fields;
     CommitConsumerGroupOffsetResponse_Metadata := groupOffsetFields_metadata fields |}.

Definition decodeCommitConsumerGroupOffsetResponse (data : bytes) (target : Body) : result string Body :=
  decodeWith decodeCommitConsumerGroupOffsetResponse_func1 data target.

Definition encodeFetchConsumerGroupBatchRequest_func1 (req : FetchConsumerGroupBatchRequest) : M unit :=
  writeString (FetchConsumerGroupBatchRequest_Group req);;
  writeString (FetchConsumerGroupBatchRequest_MemberID req);;
  writeU64 (FetchConsumerGroupBatchRequest_Generation req);;
  writeFetchBatchItems (FetchConsumerGroupBatchRequest_Items req);;
  writeOptionalInt (FetchConsumerGroupBatchRequest_MinRecords req);;
  writeOptionalU64 (FetchConsumerGroupBatchRequest_MaxWaitMS req);;
  writeFetchIsolation (FetchConsumerGroupBatchRequest_Isolation req).

Definition encodeFetchConsumerGroupBatchRequest (value : Body) : result string bytes :=
  encodeWith encodeFetchConsumerGroupBatchRequest_func1 value.

Definition readFetchConsumerGroupBatchRequest : M FetchConsumerGroupBatchRequest :=
  group ← readString;
  memberID ← readString;
  generation ← readU64;
  items ← readFetchBatchItems;
  minRecords ← readOptionalInt;
  maxWaitMS ← readOptionalU64;
  isolation ← readFetchIsolation;
  mret {| FetchConsumerGroupBatchRequest_Group := group;
     FetchConsumerGroupBatchRequest_MemberID := memberID;
     FetchConsumerGroupBatchRequest_Generation := generation;
     FetchConsumerGroupBatchRequest_Items := items;
     FetchConsumerGroupBatchRequest_MinRecords := minRecords;
     FetchConsumerGroupBatchRequest_MaxWaitMS := maxWaitMS;
     FetchConsumerGroupBatchRequest_Isolation := isolation |}.

Definition decodeFetchConsumerGroupBatchRequest (data : bytes) (target : Body) : result string Body :=
  decodeWith readFetchConsumerGroupBatchRequest data target.

(** ** [binary_group_batch_response.go] *)

Definition writeConsumerGroupBatchItem (item : FetchConsumerGroupBatchItemResponse) : M unit :=
  writeString (FetchConsumerGroupBatchItemResponse_Topic item);;
  writeU32 (FetchConsumerGroupBatchItemResponse_Partition item);;
  writeFetchRecords (FetchConsumerGroupBatchItemResponse_Records item);;
  writeU64 (FetchConsumerGroupBatchItemResponse_NextOffset item);;
  writeFetchWatermarks (FetchConsumerGroupBatchItemResponse_HighWatermark item) (FetchConsumerGroupBatchItemResponse_LowWatermark item) (FetchConsumerGroupBatchItemResponse_LogStartOffset item).

Definition writeConsumerGroupBatchItems (items : list FetchConsumerGroupBatchItemResponse) : M unit :=
  count ← of_result (checkedUint32 (len items));
  writeU32 count;;
  for_each (fun item => writeConsumerGroupBatchItem item) items.

Definition writeFetchConsumerGroupBatchResponse (resp : FetchConsumerGroupBatchResponse) : M unit :=
  writeString (FetchConsumerGroupBatchResponse_Group resp);;
  writeString (FetchConsumerGroupBatchResponse_MemberID resp);;
  writeU64 (FetchConsumerGroupBatchResponse_Generation resp);;
  writeConsumerGroupBatchItems (FetchConsumerGroupBatchResponse_Items resp).

Definition encodeFetchConsumerGroupBatchResponse (value : Body) : result string bytes :=
  encodeWith writeFetchConsumerGroupBatchResponse value.

Definition readConsumerGroupBatchItem : M FetchConsumerGroupBatchItemResponse :=
  topic ← readString;
  partition ← readU32;
  records ← readFetchRecords;
  nextOffset ← readU64;
  '(highWatermark, lowWatermark, logStartOffset) ← readFetchWatermarks;
  mret {| FetchConsumerGroupBatchItemResponse_Topic := topic;
     FetchConsumerGroupBatchItemResponse_Partition := partition;
     FetchConsumerGroupBatchItemResponse_Records := records;
     FetchConsumerGroupBatchItemResponse_NextOffset := nextOffset;
     FetchConsumerGroupBatchItemResponse_HighWatermark := highWatermark;
     FetchConsumerGroupBatchItemResponse_LowWatermark := lowWatermark;
     FetchConsumerGroupBatchItemResponse_LogStartOffset := logStartOffset |}.

Definition readConsumerGroupBatchItems : M (list FetchConsumerGroupBatchItemResponse) :=
  count ← readU32;
  size ← of_result (intFromUint32 count);
  items ← for_range (Z.to_nat size) (
    item ← readConsumerGroupBatchItem;
    mret item);
  mret items.

Definition readFetchConsumerGroupBatchResponse : M FetchConsumerGroupBatchResponse :=
  group ← readString;
  memberID ← readString;
  generation ← readU64;
  items ← readConsumerGroupBatchItems;
  mret {| FetchConsumerGroupBatchResponse_Group := group;
     FetchConsumerGroupBatchResponse_MemberID := memberID;
     FetchConsumerGroupBatchResponse_Generation := generation;
     FetchConsumerGroupBatchResponse_Items := items |}.

Definition decodeFetchConsumerGroupBatchResponse (data : bytes) (target : Body) : result string Body :=
  decodeWith readFetchConsumerGroupBatchResponse data target.

(** ** [binary_transaction.go] *)

Definition encodeTxBeginRequest_func1 (req : TxBeginRequest) : M unit :=
  writeString (TxBeginRequest_TransactionalID req);;
  writeU64 (TxBeginRequest_TimeoutMS req).

Definition encodeTxBeginRequest (value : Body) : result string bytes :=
  encodeWith encodeTxBeginRequest_func1 value.

Definition decodeTxBeginRequest_func1 : M TxBeginRequest :=
  transactionalID ← readString;
  timeoutMS ← readU64;
  mret {| TxBeginRequest_TransactionalID := transactionalID; TxBeginRequest_TimeoutMS := timeoutMS |}.

Definition decodeTxBeginRequest (data : bytes) (target : Body) : result string Body :=
  decodeWith decodeTxBeginRequest_func1 data target.

(** ** [binary_transaction_commit.go] *)

Definition writeTransactionIdentity (identity : TransactionIdentity) : M unit :=
  writeU64 (TransactionIdentity_TxID identity);;
  writeU64 (TransactionIdentity_ProducerID identity);;
  writeU64 (TransactionIdentity_ProducerEpoch identity).

(** ** [binary_transaction.go] *)

Definition encodeTxBeginResponse_func1 (resp : TxBeginResponse) : M unit :=
  writeTransactionIdentity (TxBeginResponse_Identity resp);;
  writeU64 (TxBeginResponse_ExpiresAtMS resp);;
  writeTransactionStatus (TxBeginResponse_Status resp).

Definition encodeTxBeginResponse (value : Body) : result string bytes :=
  encodeWith encodeTxBeginResponse_func1 value.

(** ** [binary_transaction_commit.go] *)

Definition readTransactionIdentity : M TransactionIdentity :=
  txID ← readU64;
  producerID ← readU64;
  producerEpoch ← readU64;
  mret {| TransactionIdentity_TxID := txID; TransactionIdentity_ProducerID := producerID;
     TransactionIdentity_ProducerEpoch := producerEpoch |}.

(** ** [binary_transaction.go] *)

Definition decodeTxBeginResponse_func1 : M TxBeginResponse :=
  identity ← readTransactionIdentity;
  expiresAtMS ← readU64;
  status ← readTransactionStatus;
  mret {| TxBeginResponse_Identity := identity; TxBeginResponse_ExpiresAtMS := expiresAtMS;
     TxBeginResponse_Status := status |}.

Definition decodeTxBeginResponse (data : bytes) (target : Body) : result string Body :=
  decodeWith decodeTxBeginResponse_func1 data target.

Definition writeTxPublishRequest (req : TxPublishRequest) : M unit :=
  writeTransactionIdentity (TxPublishRequest_Identity req);;
  writeU64 (TxPublishRequest_Sequence req);;
  writeString (TxPublishRequest_Topic req);;
  writeOptionalU32 (TxPublishRequest_Partition req);;
  writePartitioning (TxPublishRequest_Partitioning req);;
  writeString (TxPublishRequest_RoutingKey req);;
  writeBytes (TxPublishRequest_Key req);;
  writeHeaders (TxPublishRequest_Headers req);;
  writeBool (TxPublishRequest_Tombstone req);;
  writeBytes (TxPublishRequest_Payload req).

Definition encodeTxPublishRequest (value : Body) : result string bytes :=
  encodeWith writeTxPublishRequest value.

Definition readTxPublishRequestTail (req : TxPublishRequest) : M TxPublishRequest :=
  partition ← readOptionalU32;
  partitioning ← readPartitioning;
  routingKey ← readString;
  key ← readBytes;
  headers ← readHeaders;
  tombstone ← readBool;
  payload ← readBytes;
  mret {| TxPublishRequest_Identity := TxPublishRequest_Identity req;
     TxPublishRequest_Sequence := TxPublishRequest_Sequence req;
     TxPublishRequest_Topic := TxPublishRequest_Topic req; TxPublishRequest_Partition := partition;
     TxPublishRequest_Partitioning := partitioning; TxPublishRequest_RoutingKey := routingKey;
     TxPublishRequest_Key := key; TxPublishRequest_Headers := headers;
     TxPublishRequest_Tombstone := tombstone; TxPublishRequest_Payload := payload |}.

Definition readTxPublishRequest : M TxPublishRequest :=
  identity ← readTransactionIdentity;
  sequence ← readU64;
  topic ← readString;
  readTxPublishRequestTail {| TxPublishRequest_Identity := identity; TxPublishRequest_Sequence := sequence;
     TxPublishRequest_Topic := topic; TxPublishRequest_Partition := None;
     TxPublishRequest_Partitioning := ""; TxPublishRequest_RoutingKey := "";
     TxPublishRequest_Key := []; TxPublishRequest_Headers := [];
     TxPublishRequest_Tombstone := false; TxPublishRequest_Payload := [] |}.

Definition decodeTxPublishRequest (data : bytes) (target : Body) : result string Body :=
  decodeWith readTxPublishRequest data target.

Definition encodeTxPublishResponse_func1 (resp : TxPublishResponse) : M unit :=
  writeU64 (TxPublishResponse_TxID resp);;
  writeU32 (TxPublishResponse_Partition resp);;
  writeU64 (TxPublishResponse_Offset resp);;
  writeU64 (TxPublishResponse_NextOffset resp).

Definition encodeTxPublishResponse (value : Body) : result string bytes :=
  encodeWith encodeTxPublishResponse_func1 value.

Definition decodeTxPublishResponse_func1 : M TxPublishResponse :=
  txID ← readU64;
  partition ← readU32;
  offset ← readU64;
  nextOffset ← readU64;
  mret {| TxPublishResponse_TxID := txID; TxPublishResponse_Partition := partition;
     TxPublishResponse_Offset := offset; TxPublishResponse_NextOffset := nextOffset |}.

Definition decodeTxPublishResponse (data : bytes) (target : Body) : result string Body :=
  decodeWith decodeTxPublishResponse_func1 data target.

Definition encodeTxPublishBatchRequest_func1 (req : TxPublishBatchRequest) : M unit :=
  writeTransactionIdentity (TxPublishBatchRequest_Identity req);;
  writeU64 (TxPublishBatchRequest_BaseSequence req);;
  writeProduceBatchRequest {| ProduceBatchRequest_Topic := TxPublishBatchRequest_Topic req;
     ProduceBatchRequest_Partition := TxPublishBatchRequest_Partition req;
     ProduceBatchRequest_Partitioning := TxPublishBatchRequest_Partitioning req;
     ProduceBatchRequest_RoutingKey := TxPublishBatchRequest_RoutingKey req;
     ProduceBatchRequest_Idempotency := None;
     ProduceBatchRequest_Payloads := TxPublishBatchRequest_Payloads req;
     ProduceBatchRequest_Records := TxPublishBatchRequest_Records req |}.

Definition encodeTxPublishBatchRequest (value : Body) : result string bytes :=
  encodeWith encodeTxPublishBatchRequest_func1 value.

Definition decodeTxPublishBatchRequest_func1 : M TxPublishBatchRequest :=
  identity ← readTransactionIdentity;
  baseSequence ← readU64;
  batch ← readProduceBatchRequest;
  mret {| TxPublishBatchRequest_Identity := identity; TxPublishBatchRequest_BaseSequence := baseSequence;
     TxPublishBatchRequest_Topic := ProduceBatchRequest_Topic batch;
     TxPublishBatchRequest_Partition := ProduceBatchRequest_Partition batch;
     TxPublishBatchRequest_Partitioning := ProduceBatchRequest_Partitioning batch;
     TxPublishBatchRequest_RoutingKey := ProduceBatchRequest_RoutingKey batch;
     TxPublishBatchRequest_Payloads := ProduceBatchRequest_Payloads batch;
     TxPublishBatchRequest_Records := ProduceBatchRequest_Records batch |}.

Definition decodeTxPublishBatchRequest (data : bytes) (target : Body) : result string Body :=
  decodeWith decodeTxPublishBatchRequest_func1 data target.

Definition encodeTxPublishBatchResponse_func1 (resp : TxPublishBatchResponse) : M unit :=
  appended ← of_result (checkedUint32 (TxPublishBatchResponse_Appended resp));
  writeU64 (TxPublishBatchResponse_TxID resp);;
  writeU32 (TxPublishBatchResponse_Partition resp);;
  writeU64 (TxPublishBatchResponse_BaseOffset resp);;
  writeU64 (TxPublishBatchResponse_LastOffset resp);;
  writeU64 (TxPublishBatchResponse_NextOffset resp);;
  writeU32 appended.

Definition encodeTxPublishBatchResponse (value : Body) : result string bytes :=
  encodeWith encodeTxPublishBatchResponse_func1 value.

Definition readTxPublishBatchResponseTail (resp : TxPublishBatchResponse) : M TxPublishBatchResponse :=
  baseOffset ← readU64;
  lastOffset ← readU64;
  nextOffset ← readU64;
  appended ← readU32;
  appended ← of_result (intFromUint32 appended);
  mret {| TxPublishBatchResponse_TxID := TxPublishBatchResponse_TxID resp;
     TxPublishBatchResponse_Partition := TxPublishBatchResponse_Partition resp;
     TxPublishBatchResponse_BaseOffset := baseOffset;
     TxPublishBatchResponse_LastOffset := lastOffset;
     TxPublishBatchResponse_NextOffset := nextOffset; TxPublishBatchResponse_Appended := appended |}.

Definition readTxPublishBatchResponse : M TxPublishBatchResponse :=
  txID ← readU64;
  partition ← readU32;
  readTxPublishBatchResponseTail {| TxPublishBatchResponse_TxID := txID; TxPublishBatchResponse_Partition := partition;
     TxPublishBatchResponse_BaseOffset := 0; TxPublishBatchResponse_LastOffset := 0;
     TxPublishBatchResponse_NextOffset := 0; TxPublishBatchResponse_Appended := 0 |}.

Definition decodeTxPublishBatchResponse (data : bytes) (target : Body) : result string Body :=
  decodeWith readTxPublishBatchResponse data target.

(** ** [binary_transaction_commit.go] *)

Definition writeTxCommitOffsetFields (req : TxCommitOffsetRequest) : M unit :=
  writeString (TxCommitOffsetRequest_Consumer req);;
  writeString (TxCommitOffsetRequest_Group req);;
  writeString (TxCommitOffsetRequest_MemberID req);;
  writeU64 (TxCommitOffsetRequest_Generation req);;
  writeString (TxCommitOffsetRequest_Topic req);;
  writeU32 (TxCommitOffsetRequest_Partition req);;
  writeU64 (TxCommitOffsetRequest_NextOffset req);;
  writeString (TxCommitOffsetRequest_Metadata req).

Definition encodeTxCommitOffsetRequest_func1 (req : TxCommitOffsetRequest) : M unit :=
  writeTransactionIdentity (TxCommitOffsetRequest_Identity req);;
  writeTxCommitOffsetFields req.

Definition encodeTxCommitOffsetRequest (value : Body) : result string bytes :=
  encodeWith encodeTxCommitOffsetRequest_func1 value.

Definition readTxCommitOffsetFields (req : TxCommitOffsetRequest) : M TxCommitOffsetRequest :=
  consumer ← readString;
  group ← readString;
  memberID ← readString;
  generation ← readU64;
  topic ← readString;
  partition ← readU32;
  nextOffset ← readU64;
  metadata ← readString;
  mret {| TxCommitOffsetRequest_Identity := TxCommitOffsetRequest_Identity req;
     TxCommitOffsetRequest_Consumer := consumer; TxCommitOffsetRequest_Group := group;
     TxCommitOffsetRequest_MemberID := memberID; TxCommitOffsetRequest_Generation := generation;
     TxCommitOffsetRequest_Topic := topic; TxCommitOffsetRequest_Partition := partition;
     TxCommitOffsetRequest_NextOffset := nextOffset; TxCommitOffsetRequest_Metadata := metadata |}.

Definition decodeTxCommitOffsetRequest_func1 : M TxCommitOffsetRequest :=
  identity ← readTransactionIdentity;
  readTxCommitOffsetFields {| TxCommitOffsetRequest_Identity := identity; TxCommitOffsetRequest_Consumer := "";
     TxCommitOffsetRequest_Group := ""; TxCommitOffsetRequest_MemberID := "";
     TxCommitOffsetRequest_Generation := 0; TxCommitOffsetRequest_Topic := "";
     TxCommitOffsetRequest_Partition := 0; TxCommitOffsetRequest_NextOffset := 0;
     TxCommitOffsetRequest_Metadata := "" |}.

Definition decodeTxCommitOffsetRequest (data : bytes) (target : Body) : result string Body :=
  decodeWith decodeTxCommitOffsetRequest_func1 data target.

Definition encodeTxCommitOffsetResponse_func1 (resp : TxCommitOffsetResponse) : M unit :=
  writeU64 (TxCommitOffsetResponse_TxID resp);;
  writeString (TxCommitOffsetResponse_Consumer resp);;
  writeString (TxCommitOffsetResponse_Group resp);;
  writeString (TxCommitOffsetResponse_Topic resp);;
  writeU32 (TxCommitOffsetResponse_Partition resp);;
  writeU64 (TxCommitOffsetResponse_NextOffset resp);;
  writeString (TxCommitOffsetResponse_Metadata resp).

Definition encodeTxCommitOffsetResponse (value : Body) : result string bytes :=
  encodeWith encodeTxCommitOffsetResponse_func1 value.

Definition readTxCommitOffsetResponseTail (resp : TxCommitOffsetResponse) : M TxCommitOffsetResponse :=
  consumer ← readString;
  group ← readString;
  topic ← readString;
  partition ← readU32;
  nextOffset ← readU64;
  metadata ← readString;
  mret {| TxCommitOffsetResponse_TxID := TxCommitOffsetResponse_TxID resp;
     TxCommitOffsetResponse_Consumer := consumer; TxCommitOffsetResponse_Group := group;
     TxCommitOffsetResponse_Topic := topic; TxCommitOffsetResponse_Partition := partition;
     TxCommitOffsetResponse_NextOffset := nextOffset; TxCommitOffsetResponse_Metadata := metadata |}.

Definition decodeTxCommitOffsetResponse_func1 : M TxCommitOffsetResponse :=
  txID ← readU64;
  readTxCommitOffsetResponseTail {| TxCommitOffsetResponse_TxID := txID; TxCommitOffsetResponse_Consumer := "";
     TxCommitOffsetResponse_Group := ""; TxCommitOffsetResponse_Topic := "";
     TxCommitOffsetResponse_Partition := 0; TxCommitOffsetResponse_NextOffset := 0;
     TxCommitOffsetResponse_Metadata := "" |}.

Definition decodeTxCommitOffsetResponse (data : bytes) (target : Body) : result string Body :=
  decodeWith decodeTxCommitOffsetResponse_func1 data target.

Definition encodeTxCommitRequest_func1 (req : TxCommitRequest) : M unit :=
  writeTransactionIdentity (TxCommitRequest_Identity req).

Definition encodeTxCommitRequest (value : Body) : result string bytes :=
  encodeWith encodeTxCommitRequest_func1 value.

Definition decodeTxCommitRequest_func1 : M TxCommitRequest :=
  identity ← readTransactionIdentity;
  mret {| TxCommitRequest_Identity := identity |}.

Definition decodeTxCommitRequest (data : bytes) (target : Body) : result string Body :=
  decodeWith decodeTxCommitRequest_func1 data target.

Definition encodeTxCommitResponse_func1 (resp : TxCommitResponse) : M unit :=
  writeU64 (TxCommitResponse_TxID resp);;
  writeTransactionStatus (TxCommitResponse_Status resp).

Definition encodeTxCommitResponse (value : Body) : result string bytes :=
  encodeWith encodeTxCommitResponse_func1 value.

Definition decodeTxCommitResponse_func1 : M TxCommitResponse :=
  txID ← readU64;
  status ← readTransactionStatus;
  mret {| TxCommitResponse_TxID := txID; TxCommitResponse_Status := status |}.

Definition decodeTxCommitResponse (data : bytes) (target : Body) : result string Body :=
  decodeWith decodeTxCommitResponse_func1 data target.

Definition encodeTxAbortRequest_func1 (req : TxAbortRequest) : M unit :=
  writeTransactionIdentity (TxAbortRequest_Identity req).

Definition encodeTxAbortRequest (value : Body) : result string bytes :=
  encodeWith encodeTxAbortRequest_func1 value.

Definition decodeTxAbortRequest_func1 : M TxAbortRequest :=
  identity ← readTransactionIdentity;
  mret {| TxAbortRequest_Identity := identity |}.

Definition decodeTxAbortRequest (data : bytes) (target : Body) : result string Body :=
  decodeWith decodeTxAbortRequest_func1 data target.

Definition encodeTxAbortResponse_func1 (resp : TxAbortResponse) : M unit :=
  writeU64 (TxAbortResponse_TxID resp);;
  writeTransactionStatus (TxAbortResponse_Status resp).

Definition encodeTxAbortResponse (value : Body) : result string bytes :=
  encodeWith encodeTxAbortResponse_func1 value.

Definition decodeTxAbortResponse_func1 : M TxAbortResponse :=
  txID ← readU64;
  status ← readTransactionStatus;
  mret {| TxAbortResponse_TxID := txID; TxAbortResponse_Status := status |}.

Definition decodeTxAbortResponse (data : bytes) (target : Body) : result string Body :=
  decodeWith decodeTxAbortResponse_func1 data target.
