(* ===== verification/Registry.v ===== *)
(** * Wire protocol: the codec registry

    [src/protocol/binary_registry.go], [binary_registry_entries.go] and the
    command ids of [protocol.go]. *)

From stdpp Require Import prelude gmap strings list.
From S2P Require Import Prelude Wire Messages CodecsTopic CodecsFetch CodecsGroup.

#[local] Open Scope Z_scope.

Definition Version : Z := 1.

(** ** Command ids *)

Definition CmdHandshakeRequest : Z := 1.
Definition CmdPingRequest : Z := 2.
Definition CmdCreateTopicRequest : Z := 10.
Definition CmdListTopicsRequest : Z := 11.
Definition CmdProduceRequest : Z := 20.
Definition CmdProduceBatchRequest : Z := 21.
Definition CmdFetchRequest : Z := 22.
Definition CmdFetchBatchRequest : Z := 23.
Definition CmdCommitOffsetRequest : Z := 24.
Definition CmdProduceBatchesRequest : Z := 25.
Definition CmdProduceFanoutRequest : Z := 26.
Definition CmdFetchSubjectPatternRequest : Z := 27.
Definition CmdNackRequest : Z := 30.
Definition CmdProcessRetryRequest : Z := 31.
Definition CmdScheduleDelayRequest : Z := 32.
Definition CmdSendDirectRequest : Z := 40.
Definition CmdFetchInboxRequest : Z := 41.
Definition CmdAckDirectRequest : Z := 42.
Definition CmdStartRequestRequest : Z := 50.
Definition CmdFetchRequestsRequest : Z := 51.
Definition CmdReplyRequest : Z := 52.
Definition CmdReplyErrorRequest : Z := 53.
Definition CmdAwaitReplyRequest : Z := 54.
Definition CmdAwaitRepliesRequest : Z := 55.
Definition CmdJoinConsumerGroupRequest : Z := 60.
Definition CmdHeartbeatConsumerGroupRequest : Z := 61.
Definition CmdRebalanceConsumerGroupRequest : Z := 62.
Definition CmdGetConsumerGroupAssignmentRequest : Z := 63.
Definition CmdFetchConsumerGroupRequest : Z := 64.
Definition CmdCommitConsumerGroupOffsetRequest : Z := 65.
Definition CmdFetchConsumerGroupBatchRequest : Z := 66.
Definition CmdTxBeginRequest : Z := 70.
Definition CmdTxPublishRequest : Z := 71.
Definition CmdTxPublishBatchRequest : Z := 72.
Definition CmdTxCommitOffsetRequest : Z := 73.
Definition CmdTxCommitRequest : Z := 74.
Definition CmdTxAbortRequest : Z := 75.
Definition CmdHandshakeResponse : Z := 1001.
Definition CmdPingResponse : Z := 1002.
Definition CmdCreateTopicResponse : Z := 1010.
Definition CmdListTopicsResponse : Z := 1011.
Definition CmdProduceResponse : Z := 1020.
Definition CmdProduceBatchResponse : Z := 1021.
Definition CmdFetchResponse : Z := 1022.
Definition CmdFetchBatchResponse : Z := 1023.
Definition CmdCommitOffsetResponse : Z := 1024.
Definition CmdProduceBatchesResponse : Z := 1025.
Definition CmdProduceFanoutResponse : Z := 1026.
Definition CmdFetchSubjectPatternResponse : Z := 1027.
Definition CmdNackResponse : Z := 1030.
Definition CmdProcessRetryResponse : Z := 1031.
Definition CmdScheduleDelayResponse : Z := 1032.
Definition CmdSendDirectResponse : Z := 1040.
Definition CmdFetchInboxResponse : Z := 1041.
Definition CmdAckDirectResponse : Z := 1042.
Definition CmdStartRequestResponse : Z := 1050.
Definition CmdFetchRequestsResponse : Z := 1051.
Definition CmdReplyResponse : Z := 1052.
Definition CmdReplyErrorResponse : Z := 1053.
Definition CmdAwaitReplyResponse : Z := 1054.
Definition CmdAwaitRepliesResponse : Z := 1055.
Definition CmdJoinConsumerGroupResponse : Z := 1060.
Definition CmdHeartbeatConsumerGroupResponse : Z := 1061.
Definition CmdRebalanceConsumerGroupResponse : Z := 1062.
Definition CmdGetConsumerGroupAssignmentResponse : Z := 1063.
Definition CmdFetchConsumerGroupResponse : Z := 1064.
Definition CmdCommitConsumerGroupOffsetResponse : Z := 1065.
Definition CmdFetchConsumerGroupBatchResponse : Z := 1066.
Definition CmdTxBeginResponse : Z := 1070.
Definition CmdTxPublishResponse : Z := 1071.
Definition CmdTxPublishBatchResponse : Z := 1072.
Definition CmdTxCommitOffsetResponse : Z := 1073.
Definition CmdTxCommitResponse : Z := 1074.
Definition CmdTxAbortResponse : Z := 1075.
Definition CmdErrorResponse : Z := 1500.

(** ** The registry *)

Record bodyCodecEntry := mkBodyCodecEntry {
  entry_command : Z;
  entry_encode : Body -> result string bytes;
  entry_decode : bytes -> Body -> result string Body
}.

Definition bodyCodecEntries : list bodyCodecEntry := [
  mkBodyCodecEntry CmdHandshakeRequest encodeHandshakeRequest decodeHandshakeRequest;
  mkBodyCodecEntry CmdHandshakeResponse encodeHandshakeResponse decodeHandshakeResponse;
  mkBodyCodecEntry CmdPingRequest encodePingRequest decodePingRequest;
  mkBodyCodecEntry CmdPingResponse encodePingResponse decodePingResponse;
  mkBodyCodecEntry CmdCreateTopicRequest encodeCreateTopicRequest decodeCreateTopicRequest;
  mkBodyCodecEntry CmdCreateTopicResponse encodeCreateTopicResponse decodeCreateTopicResponse;
  mkBodyCodecEntry CmdListTopicsRequest encodeListTopicsRequest decodeListTopicsRequest;
  mkBodyCodecEntry CmdListTopicsResponse encodeListTopicsResponse decodeListTopicsResponse;
  mkBodyCodecEntry CmdProduceRequest encodeProduceRequest decodeProduceRequest;
  mkBodyCodecEntry CmdProduceResponse encodeProduceResponse decodeProduceResponse;
  mkBodyCodecEntry CmdProduceBatchRequest encodeProduceBatchRequest decodeProduceBatchRequest;
  mkBodyCodecEntry CmdProduceBatchResponse encodeProduceBatchResponse decodeProduceBatchResponse;
  mkBodyCodecEntry CmdProduceBatchesRequest encodeProduceBatchesRequest decodeProduceBatchesRequest;
  mkBodyCodecEntry CmdProduceBatchesResponse encodeProduceBatchesResponse decodeProduceBatchesResponse;
  mkBodyCodecEntry CmdProduceFanoutRequest encodeProduceFanoutRequest decodeProduceFanoutRequest;
  mkBodyCodecEntry CmdProduceFanoutResponse encodeProduceFanoutResponse decodeProduceFanoutResponse;
  mkBodyCodecEntry CmdFetchRequest encodeFetchRequest decodeFetchRequest;
  mkBodyCodecEntry CmdFetchResponse encodeFetchResponse decodeFetchResponse;
  mkBodyCodecEntry CmdFetchBatchRequest encodeFetchBatchRequest decodeFetchBatchRequest;
  mkBodyCodecEntry CmdFetchBatchResponse encodeFetchBatchResponse decodeFetchBatchResponse;
  mkBodyCodecEntry CmdFetchSubjectPatternRequest encodeFetchSubjectPatternRequest decodeFetchSubjectPatternRequest;
  mkBodyCodecEntry CmdFetchSubjectPatternResponse encodeFetchSubjectPatternResponse decodeFetchSubjectPatternResponse;
  mkBodyCodecEntry CmdCommitOffsetRequest encodeCommitOffsetRequest decodeCommitOffsetRequest;
  mkBodyCodecEntry CmdCommitOffsetResponse encodeCommitOffsetResponse decodeCommitOffsetResponse;
  mkBodyCodecEntry CmdSendDirectRequest encodeSendDirectRequest decodeSendDirectRequest;
  mkBodyCodecEntry CmdSendDirectResponse encodeSendDirectResponse decodeSendDirectResponse;
  mkBodyCodecEntry CmdFetchInboxRequest encodeFetchInboxRequest decodeFetchInboxRequest;
  mkBodyCodecEntry CmdFetchInboxResponse encodeFetchInboxResponse decodeFetchInboxResponse;
  mkBodyCodecEntry CmdAckDirectRequest encodeAckDirectRequest decodeAckDirectRequest;
  mkBodyCodecEntry CmdAckDirectResponse encodeAckDirectResponse decodeAckDirectResponse;
  mkBodyCodecEntry CmdJoinConsumerGroupRequest encodeJoinConsumerGroupRequest decodeJoinConsumerGroupRequest;
  mkBodyCodecEntry CmdJoinConsumerGroupResponse encodeJoinConsumerGroupResponse decodeJoinConsumerGroupResponse;
  mkBodyCodecEntry CmdHeartbeatConsumerGroupRequest encodeHeartbeatConsumerGroupRequest decodeHeartbeatConsumerGroupRequest;
  mkBodyCodecEntry CmdHeartbeatConsumerGroupResponse encodeHeartbeatConsumerGroupResponse decodeHeartbeatConsumerGroupResponse;
  mkBodyCodecEntry CmdRebalanceConsumerGroupRequest encodeRebalanceConsumerGroupRequest decodeRebalanceConsumerGroupRequest;
  mkBodyCodecEntry CmdRebalanceConsumerGroupResponse encodeRebalanceConsumerGroupResponse decodeRebalanceConsumerGroupResponse;
  mkBodyCodecEntry CmdGetConsumerGroupAssignmentRequest encodeGetConsumerGroupAssignmentRequest decodeGetConsumerGroupAssignmentRequest;
  mkBodyCodecEntry CmdGetConsumerGroupAssignmentResponse encodeGetConsumerGroupAssignmentResponse decodeGetConsumerGroupAssignmentResponse;
  mkBodyCodecEntry CmdFetchConsumerGroupRequest encodeFetchConsumerGroupRequest decodeFetchConsumerGroupRequest;
  mkBodyCodecEntry CmdFetchConsumerGroupResponse encodeFetchConsumerGroupResponse decodeFetchConsumerGroupResponse;
  mkBodyCodecEntry CmdCommitConsumerGroupOffsetRequest encodeCommitConsumerGroupOffsetRequest decodeCommitConsumerGroupOffsetRequest;
  mkBodyCodecEntry CmdCommitConsumerGroupOffsetResponse encodeCommitConsumerGroupOffsetResponse decodeCommitConsumerGroupOffsetResponse;
  mkBodyCodecEntry CmdFetchConsumerGroupBatchRequest encodeFetchConsumerGroupBatchRequest decodeFetchConsumerGroupBatchRequest;
  mkBodyCodecEntry CmdFetchConsumerGroupBatchResponse encodeFetchConsumerGroupBatchResponse decodeFetchConsumerGroupBatchResponse;
  mkBodyCodecEntry CmdNackRequest encodeNackRequest decodeNackRequest;
  mkBodyCodecEntry CmdNackResponse encodeNackResponse decodeNackResponse;
  mkBodyCodecEntry CmdProcessRetryRequest encodeProcessRetryRequest decodeProcessRetryRequest;
  mkBodyCodecEntry CmdProcessRetryResponse encodeProcessRetryResponse decodeProcessRetryResponse;
  mkBodyCodecEntry CmdScheduleDelayRequest encodeScheduleDelayRequest decodeScheduleDelayRequest;
  mkBodyCodecEntry CmdScheduleDelayResponse encodeScheduleDelayResponse decodeScheduleDelayResponse;
  mkBodyCodecEntry CmdTxBeginRequest encodeTxBeginRequest decodeTxBeginRequest;
  mkBodyCodecEntry CmdTxBeginResponse encodeTxBeginResponse decodeTxBeginResponse;
  mkBodyCodecEntry CmdTxPublishRequest encodeTxPublishRequest decodeTxPublishRequest;
  mkBodyCodecEntry CmdTxPublishResponse encodeTxPublishResponse decodeTxPublishResponse;
  mkBodyCodecEntry CmdTxPublishBatchRequest encodeTxPublishBatchRequest decodeTxPublishBatchRequest;
  mkBodyCodecEntry CmdTxPublishBatchResponse encodeTxPublishBatchResponse decodeTxPublishBatchResponse;
  mkBodyCodecEntry CmdTxCommitOffsetRequest encodeTxCommitOffsetRequest decodeTxCommitOffsetRequest;
  mkBodyCodecEntry CmdTxCommitOffsetResponse encodeTxCommitOffsetResponse decodeTxCommitOffsetResponse;
  mkBodyCodecEntry CmdTxCommitRequest encodeTxCommitRequest decodeTxCommitRequest;
  mkBodyCodecEntry CmdTxCommitResponse encodeTxCommitResponse decodeTxCommitResponse;
  mkBodyCodecEntry CmdTxAbortRequest encodeTxAbortRequest decodeTxAbortRequest;
  mkBodyCodecEntry CmdTxAbortResponse encodeTxAbortResponse decodeTxAbortResponse;
  mkBodyCodecEntry CmdStartRequestRequest encodeStartRequestRequest decodeStartRequestRequest;
  mkBodyCodecEntry CmdStartRequestResponse encodeStartRequestResponse decodeStartRequestResponse;
  mkBodyCodecEntry CmdFetchRequestsRequest encodeFetchRequestsRequest decodeFetchRequestsRequest;
  mkBodyCodecEntry CmdFetchRequestsResponse encodeFetchRequestsResponse decodeFetchRequestsResponse;
  mkBodyCodecEntry CmdReplyRequest encodeReplyRequest decodeReplyRequest;
  mkBodyCodecEntry CmdReplyResponse encodeReplyResponse decodeReplyResponse;
  mkBodyCodecEntry CmdReplyErrorRequest encodeReplyErrorRequest decodeReplyErrorRequest;
  mkBodyCodecEntry CmdReplyErrorResponse encodeReplyErrorResponse decodeReplyErrorResponse;
  mkBodyCodecEntry CmdAwaitReplyRequest encodeAwaitReplyRequest decodeAwaitReplyRequest;
  mkBodyCodecEntry CmdAwaitReplyResponse encodeAwaitReplyResponse decodeAwaitReplyResponse;
  mkBodyCodecEntry CmdAwaitRepliesRequest encodeAwaitRepliesRequest decodeAwaitRepliesRequest;
  mkBodyCodecEntry CmdAwaitRepliesResponse encodeAwaitRepliesResponse decodeAwaitRepliesResponse;
  mkBodyCodecEntry CmdErrorResponse encodeErrorResponse decodeErrorResponse
].

Record bodyCodecRegistry := mkBodyCodecRegistry {
  encoders : gmap Z (Body -> result string bytes);
  decoders : gmap Z (bytes -> Body -> result string Body);
  commands : list Z
}.

Definition newBodyCodecRegistry : bodyCodecRegistry :=
  foldl (fun r entry =>
           {| encoders := <[entry_command entry := entry_encode entry]> (encoders r);
              decoders := <[entry_command entry := entry_decode entry]> (decoders r);
              commands := commands r ++ [entry_command entry] |})
    {| encoders := ∅; decoders := ∅; commands := [] |} bodyCodecEntries.

Definition EncodeBody (command : Z) (value : Body) : result string bytes :=
  match encoders newBodyCodecRegistry !! command with
  | None => Err "unsupported_command"
  | Some encoder => encoder value
  end.

Definition DecodeBody (command : Z) (data : bytes) (target : Body) : result string Body :=
  match decoders newBodyCodecRegistry !! command with
  | None => Err "unsupported_command"
  | Some decoder => decoder data target
  end.

Definition registeredCommandIDs : list Z := commands newBodyCodecRegistry.

Definition CommandIDs : list Z := registeredCommandIDs.
