(* ===== verification/CodecSpec.v ===== *)
(** * Wire protocol: round trips of every message

    [wf_T] says that a message of type [T] can be represented: integers have
    their width, strings and lists fit their length prefixes, and enumeration
    fields hold a value that has a code.  [rt_*] are the round trips of the
    message codecs and of their parts. *)

From stdpp Require Import prelude strings list.
From S2P Require Import Prelude Wire WireSpec Messages CodecsTopic CodecsFetch CodecsGroup.

#[local] Open Scope Z_scope.

(** ** Representable messages *)

Definition wf_HandshakeRequest (v : HandshakeRequest) : Prop :=
  fits_string (HandshakeRequest_ClientID v) /\
  fits_string (HandshakeRequest_Tenant v) /\
  fits_string (HandshakeRequest_Namespace v) /\
  fits_string (HandshakeRequest_Principal v) /\
  fits_string (HandshakeRequest_AuthToken v) /\
  fits_list32 fits_string (HandshakeRequest_Capabilities v).
#[export] Hint Unfold wf_HandshakeRequest : wf.
#[export] Hint Extern 4 (wf_HandshakeRequest _) => solve_wf : codec.

Definition wf_HandshakeResponse (v : HandshakeResponse) : Prop :=
  fits_string (HandshakeResponse_ServerID v) /\
  is_u8 (HandshakeResponse_ProtocolVersion v) /\
  fits_string (HandshakeResponse_Tenant v) /\
  fits_string (HandshakeResponse_Namespace v) /\
  fits_string (HandshakeResponse_Principal v) /\
  fits_list32 fits_string (HandshakeResponse_Capabilities v).
#[export] Hint Unfold wf_HandshakeResponse : wf.
#[export] Hint Extern 4 (wf_HandshakeResponse _) => solve_wf : codec.

Definition wf_PingRequest (v : PingRequest) : Prop :=
  is_u64 (PingRequest_Nonce v).
#[export] Hint Unfold wf_PingRequest : wf.
#[export] Hint Extern 4 (wf_PingRequest _) => solve_wf : codec.

Definition wf_PingResponse (v : PingResponse) : Prop :=
  is_u64 (PingResponse_Nonce v).
#[export] Hint Unfold wf_PingResponse : wf.
#[export] Hint Extern 4 (wf_PingResponse _) => solve_wf : codec.

Definition wf_MessageHeader (v : MessageHeader) : Prop :=
  fits_string (MessageHeader_Key v) /\
  fits_bytes (MessageHeader_Value v).
#[export] Hint Unfold wf_MessageHeader : wf.
#[export] Hint Extern 4 (wf_MessageHeader _) => solve_wf : codec.

Definition wf_TopicRetryPolicy (v : TopicRetryPolicy) : Prop :=
  is_u32 (TopicRetryPolicy_MaxAttempts v) /\
  is_u64 (TopicRetryPolicy_BackoffInitialMS v) /\
  is_u64 (TopicRetryPolicy_BackoffMaxMS v) /\
  is_u64 (TopicRetryPolicy_BackoffJitterFactor v).
#[export] Hint Unfold wf_TopicRetryPolicy : wf.
#[export] Hint Extern 4 (wf_TopicRetryPolicy _) => solve_wf : codec.

Definition wf_TopicPriorityPolicy (v : TopicPriorityPolicy) : Prop :=
  is_u8 (TopicPriorityPolicy_Min v) /\
  is_u8 (TopicPriorityPolicy_Max v) /\
  is_u8 (TopicPriorityPolicy_Default v).
#[export] Hint Unfold wf_TopicPriorityPolicy : wf.
#[export] Hint Extern 4 (wf_TopicPriorityPolicy _) => solve_wf : codec.

Definition wf_CreateTopicRequest (v : CreateTopicRequest) : Prop :=
  fits_string (CreateTopicRequest_Topic v) /\
  is_u32 (CreateTopicRequest_Partitions v) /\
  fits_option is_u64 (CreateTopicRequest_RetentionMaxBytes v) /\
  fits_option valid_cleanup (CreateTopicRequest_CleanupPolicy v) /\
  fits_option is_u32 (CreateTopicRequest_MaxMessageBytes v) /\
  fits_option is_u32 (CreateTopicRequest_MaxBatchBytes v) /\
  fits_option is_u64 (CreateTopicRequest_RetentionMS v) /\
  fits_option wf_TopicRetryPolicy (CreateTopicRequest_RetryPolicy v) /\
  fits_option fits_string (CreateTopicRequest_DeadLetterTopic v) /\
  fits_option is_u64 (CreateTopicRequest_MessageTTLMS v) /\
  fits_option valid_expiry (CreateTopicRequest_MessageExpiryAction v) /\
  fits_option is_u64 (CreateTopicRequest_CompactionTombstoneRetentionMS v) /\
  fits_option valid_ordering (CreateTopicRequest_OrderingPolicy v) /\
  fits_option wf_TopicPriorityPolicy (CreateTopicRequest_PriorityPolicy v).
#[export] Hint Unfold wf_CreateTopicRequest : wf.
#[export] Hint Extern 4 (wf_CreateTopicRequest _) => solve_wf : codec.

Definition wf_CreateTopicResponse (v : CreateTopicResponse) : Prop :=
  fits_string (CreateTopicResponse_Topic v) /\
  is_u32 (CreateTopicResponse_Partitions v).
#[export] Hint Unfold wf_CreateTopicResponse : wf.
#[export] Hint Extern 4 (wf_CreateTopicResponse _) => solve_wf : codec.

Definition wf_ListTopicsRequest (v : ListTopicsRequest) : Prop :=
  fits_string (ListTopicsRequest_Pattern v).
#[export] Hint Unfold wf_ListTopicsRequest : wf.
#[export] Hint Extern 4 (wf_ListTopicsRequest _) => solve_wf : codec.

Definition wf_ProduceIdempotency (v : ProduceIdempotency) : Prop :=
  is_u64 (ProduceIdempotency_ProducerID v) /\
  is_u64 (ProduceIdempotency_ProducerEpoch v) /\
  is_u64 (ProduceIdempotency_BaseSequence v).
#[export] Hint Unfold wf_ProduceIdempotency : wf.
#[export] Hint Extern 4 (wf_ProduceIdempotency _) => solve_wf : codec.

Definition wf_ProduceRequest (v : ProduceRequest) : Prop :=
  fits_string (ProduceRequest_Topic v) /\
  fits_option is_u32 (ProduceRequest_Partition v) /\
  valid_partitioning (ProduceRequest_Partitioning v) /\
  fits_string (ProduceRequest_RoutingKey v) /\
  fits_option wf_ProduceIdempotency (ProduceRequest_Idempotency v) /\
  fits_bytes (ProduceRequest_Key v) /\
  fits_list16 wf_MessageHeader (ProduceRequest_Headers v) /\
  fits_option is_u64 (ProduceRequest_ExpiresAtMS v) /\
  fits_bytes (ProduceRequest_Payload v).
#[export] Hint Unfold wf_ProduceRequest : wf.
#[export] Hint Extern 4 (wf_ProduceRequest _) => solve_wf : codec.

Definition wf_ProduceResponse (v : ProduceResponse) : Prop :=
  is_u32 (ProduceResponse_Partition v) /\
  is_u64 (ProduceResponse_Offset v) /\
  is_u64 (ProduceResponse_NextOffset v).
#[export] Hint Unfold wf_ProduceResponse : wf.
#[export] Hint Extern 4 (wf_ProduceResponse _) => solve_wf : codec.

Definition wf_ProduceBatchRecord (v : ProduceBatchRecord) : Prop :=
  fits_string (ProduceBatchRecord_RoutingKey v) /\
  fits_bytes (ProduceBatchRecord_Key v) /\
  fits_list16 wf_MessageHeader (ProduceBatchRecord_Headers v) /\
  fits_option is_u64 (ProduceBatchRecord_ExpiresAtMS v) /\
  fits_bytes (ProduceBatchRecord_Payload v).
#[export] Hint Unfold wf_ProduceBatchRecord : wf.
#[export] Hint Extern 4 (wf_ProduceBatchRecord _) => solve_wf : codec.

Definition wf_TransactionRecordMetadata (v : TransactionRecordMetadata) : Prop :=
  is_u64 (TransactionRecordMetadata_TxID v) /\
  is_u64 (TransactionRecordMetadata_ProducerID v) /\
  is_u64 (TransactionRecordMetadata_ProducerEpoch v) /\
  is_u64 (TransactionRecordMetadata_Sequence v) /\
  valid_tx_control (TransactionRecordMetadata_ControlType v).
#[export] Hint Unfold wf_TransactionRecordMetadata : wf.
#[export] Hint Extern 4 (wf_TransactionRecordMetadata _) => solve_wf : codec.

Definition wf_ProduceBatchRequest (v : ProduceBatchRequest) : Prop :=
  fits_string (ProduceBatchRequest_Topic v) /\
  fits_option is_u32 (ProduceBatchRequest_Partition v) /\
  valid_partitioning (ProduceBatchRequest_Partitioning v) /\
  fits_string (ProduceBatchRequest_RoutingKey v) /\
  fits_option wf_ProduceIdempotency (ProduceBatchRequest_Idempotency v) /\
  fits_list32 fits_bytes (ProduceBatchRequest_Payloads v) /\
  fits_list32 wf_ProduceBatchRecord (ProduceBatchRequest_Records v).
#[export] Hint Unfold wf_ProduceBatchRequest : wf.
#[export] Hint Extern 4 (wf_ProduceBatchRequest _) => solve_wf : codec.

Definition wf_ProduceBatchResponse (v : ProduceBatchResponse) : Prop :=
  is_u32 (ProduceBatchResponse_Partition v) /\
  is_u64 (ProduceBatchResponse_BaseOffset v) /\
  is_u64 (ProduceBatchResponse_LastOffset v) /\
  is_u64 (ProduceBatchResponse_NextOffset v) /\
  is_u32 (ProduceBatchResponse_Appended v).
#[export] Hint Unfold wf_ProduceBatchResponse : wf.
#[export] Hint Extern 4 (wf_ProduceBatchResponse _) => solve_wf : codec.

Definition wf_ProduceBatchesItemRequest (v : ProduceBatchesItemRequest) : Prop :=
  fits_string (ProduceBatchesItemRequest_Topic v) /\
  fits_option is_u32 (ProduceBatchesItemRequest_Partition v) /\
  valid_partitioning (ProduceBatchesItemRequest_Partitioning v) /\
  fits_string (ProduceBatchesItemRequest_RoutingKey v) /\
  fits_option wf_ProduceIdempotency (ProduceBatchesItemRequest_Idempotency v) /\
  fits_list32 fits_bytes (ProduceBatchesItemRequest_Payloads v) /\
  fits_list32 wf_ProduceBatchRecord (ProduceBatchesItemRequest_Records v).
#[export] Hint Unfold wf_ProduceBatchesItemRequest : wf.
#[export] Hint Extern 4 (wf_ProduceBatchesItemRequest _) => solve_wf : codec.

Definition wf_ProduceBatchesRequest (v : ProduceBatchesRequest) : Prop :=
  fits_list32 wf_ProduceBatchesItemRequest (ProduceBatchesRequest_Items v).
#[export] Hint Unfold wf_ProduceBatchesRequest : wf.
#[export] Hint Extern 4 (wf_ProduceBatchesRequest _) => solve_wf : codec.

Definition wf_ProduceBatchesItemResponse (v : ProduceBatchesItemResponse) : Prop :=
  fits_string (ProduceBatchesItemResponse_Topic v) /\
  is_u32 (ProduceBatchesItemResponse_Partition v) /\
  is_u64 (ProduceBatchesItemResponse_BaseOffset v) /\
  is_u64 (ProduceBatchesItemResponse_LastOffset v) /\
  is_u64 (ProduceBatchesItemResponse_NextOffset v) /\
  is_u32 (ProduceBatchesItemResponse_Appended v) /\
  fits_string (ProduceBatchesItemResponse_Error v).
#[export] Hint Unfold wf_ProduceBatchesItemResponse : wf.
#[export] Hint Extern 4 (wf_ProduceBatchesItemResponse _) => solve_wf : codec.

Definition wf_ProduceBatchesResponse (v : ProduceBatchesResponse) : Prop :=
  fits_list32 wf_ProduceBatchesItemResponse (ProduceBatchesResponse_Items v).
#[export] Hint Unfold wf_ProduceBatchesResponse : wf.
#[export] Hint Extern 4 (wf_ProduceBatchesResponse _) => solve_wf : codec.

Definition wf_ProduceFanoutRequest (v : ProduceFanoutRequest) : Prop :=
  fits_string (ProduceFanoutRequest_Topic v) /\
  fits_string (ProduceFanoutRequest_RoutingKey v) /\
  fits_bytes (ProduceFanoutRequest_Key v) /\
  fits_list16 wf_MessageHeader (ProduceFanoutRequest_Headers v) /\
  fits_option is_u64 (ProduceFanoutRequest_ExpiresAtMS v) /\
  fits_bytes (ProduceFanoutRequest_Payload v).
#[export] Hint Unfold wf_ProduceFanoutRequest : wf.
#[export] Hint Extern 4 (wf_ProduceFanoutRequest _) => solve_wf : codec.

Definition wf_ProduceFanoutRecordResponse (v : ProduceFanoutRecordResponse) : Prop :=
  is_u32 (ProduceFanoutRecordResponse_Partition v) /\
  is_u64 (ProduceFanoutRecordResponse_Offset v) /\
  is_u64 (ProduceFanoutRecordResponse_NextOffset v).
#[export] Hint Unfold wf_ProduceFanoutRecordResponse : wf.
#[export] Hint Extern 4 (wf_ProduceFanoutRecordResponse _) => solve_wf : codec.

Definition wf_ProduceFanoutResponse (v : ProduceFanoutResponse) : Prop :=
  fits_list32 wf_ProduceFanoutRecordResponse (ProduceFanoutResponse_Records v).
#[export] Hint Unfold wf_ProduceFanoutResponse : wf.
#[export] Hint Extern 4 (wf_ProduceFanoutResponse _) => solve_wf : codec.

Definition wf_FetchRequest (v : FetchRequest) : Prop :=
  fits_string (FetchRequest_Consumer v) /\
  fits_string (FetchRequest_Topic v) /\
  is_u32 (FetchRequest_Partition v) /\
  fits_option is_u64 (FetchRequest_Offset v) /\
  is_u32 (FetchRequest_MaxRecords v) /\
  fits_option is_u32 (FetchRequest_MinRecords v) /\
  fits_option is_u64 (FetchRequest_MaxWaitMS v) /\
  valid_isolation (FetchRequest_Isolation v).
#[export] Hint Unfold wf_FetchRequest : wf.
#[export] Hint Extern 4 (wf_FetchRequest _) => solve_wf : codec.

Definition wf_FetchRecord (v : FetchRecord) : Prop :=
  is_u64 (FetchRecord_Offset v) /\
  is_u64 (FetchRecord_TimestampMS v) /\
  fits_string (FetchRecord_RoutingKey v) /\
  fits_bytes (FetchRecord_Key v) /\
  fits_list16 wf_MessageHeader (FetchRecord_Headers v) /\
  fits_option is_u64 (FetchRecord_ExpiresAtMS v) /\
  fits_option wf_TransactionRecordMetadata (FetchRecord_Transaction v) /\
  fits_bytes (FetchRecord_Payload v).
#[export] Hint Unfold wf_FetchRecord : wf.
#[export] Hint Extern 4 (wf_FetchRecord _) => solve_wf : codec.

Definition wf_FetchResponse (v : FetchResponse) : Prop :=
  fits_string (FetchResponse_Topic v) /\
  is_u32 (FetchResponse_Partition v) /\
  fits_list32 wf_FetchRecord (FetchResponse_Records v) /\
  is_u64 (FetchResponse_NextOffset v) /\
  fits_option is_u64 (FetchResponse_HighWatermark v) /\
  fits_option is_u64 (FetchResponse_LowWatermark v) /\
  is_u64 (FetchResponse_LogStartOffset v).
#[export] Hint Unfold wf_FetchResponse : wf.
#[export] Hint Extern 4 (wf_FetchResponse _) => solve_wf : codec.

Definition wf_FetchBatchItemRequest (v : FetchBatchItemRequest) : Prop :=
  fits_string (FetchBatchItemRequest_Topic v) /\
  is_u32 (FetchBatchItemRequest_Partition v) /\
  fits_option is_u64 (FetchBatchItemRequest_Offset v) /\
  is_u32 (FetchBatchItemRequest_MaxRecords v).
#[export] Hint Unfold wf_FetchBatchItemRequest : wf.
#[export] Hint Extern 4 (wf_FetchBatchItemRequest _) => solve_wf : codec.

Definition wf_FetchBatchRequest (v : FetchBatchRequest) : Prop :=
  fits_string (FetchBatchRequest_Consumer v) /\
  fits_list32 wf_FetchBatchItemRequest (FetchBatchRequest_Items v) /\
  fits_option is_u32 (FetchBatchRequest_MinRecords v) /\
  fits_option is_u64 (FetchBatchRequest_MaxWaitMS v) /\
  valid_isolation (FetchBatchRequest_Isolation v).
#[export] Hint Unfold wf_FetchBatchRequest : wf.
#[export] Hint Extern 4 (wf_FetchBatchRequest _) => solve_wf : codec.

Definition wf_FetchBatchItemResponse (v : FetchBatchItemResponse) : Prop :=
  fits_string (FetchBatchItemResponse_Topic v) /\
  is_u32 (FetchBatchItemResponse_Partition v) /\
  fits_list32 wf_FetchRecord (FetchBatchItemResponse_Records v) /\
  is_u64 (FetchBatchItemResponse_NextOffset v) /\
  fits_option is_u64 (FetchBatchItemResponse_HighWatermark v) /\
  fits_option is_u64 (FetchBatchItemResponse_LowWatermark v) /\
  is_u64 (FetchBatchItemResponse_LogStartOffset v).
#[export] Hint Unfold wf_FetchBatchItemResponse : wf.
#[export] Hint Extern 4 (wf_FetchBatchItemResponse _) => solve_wf : codec.

Definition wf_FetchBatchResponse (v : FetchBatchResponse) : Prop :=
  fits_list32 wf_FetchBatchItemResponse (FetchBatchResponse_Items v).
#[export] Hint Unfold wf_FetchBatchResponse : wf.
#[export] Hint Extern 4 (wf_FetchBatchResponse _) => solve_wf : codec.

Definition wf_FetchSubjectPatternRequest (v : FetchSubjectPatternRequest) : Prop :=
  fits_string (FetchSubjectPatternRequest_Consumer v) /\
  fits_string (FetchSubjectPatternRequest_Pattern v) /\
  is_u32 (FetchSubjectPatternRequest_MaxRecords v) /\
  valid_isolation (FetchSubjectPatternRequest_Isolation v).
#[export] Hint Unfold wf_FetchSubjectPatternRequest : wf.
#[export] Hint Extern 4 (wf_FetchSubjectPatternRequest _) => solve_wf : codec.

Definition wf_FetchSubjectPatternResponse (v : FetchSubjectPatternResponse) : Prop :=
  fits_string (FetchSubjectPatternResponse_Pattern v) /\
  fits_list32 wf_FetchBatchItemResponse (FetchSubjectPatternResponse_Items v).
#[export] Hint Unfold wf_FetchSubjectPatternResponse : wf.
#[export] Hint Extern 4 (wf_FetchSubjectPatternResponse _) => solve_wf : codec.

Definition wf_CommitOffsetRequest (v : CommitOffsetRequest) : Prop :=
  fits_string (CommitOffsetRequest_Consumer v) /\
  fits_string (CommitOffsetRequest_Topic v) /\
  is_u32 (CommitOffsetRequest_Partition v) /\
  is_u64 (CommitOffsetRequest_NextOffset v) /\
  fits_string (CommitOffsetRequest_Metadata v).
#[export] Hint Unfold wf_CommitOffsetRequest : wf.
#[export] Hint Extern 4 (wf_CommitOffsetRequest _) => solve_wf : codec.

Definition wf_CommitOffsetResponse (v : CommitOffsetResponse) : Prop :=
  fits_string (CommitOffsetResponse_Consumer v) /\
  fits_string (CommitOffsetResponse_Topic v) /\
  is_u32 (CommitOffsetResponse_Partition v) /\
  is_u64 (CommitOffsetResponse_NextOffset v) /\
  fits_string (CommitOffsetResponse_Metadata v).
#[export] Hint Unfold wf_CommitOffsetResponse : wf.
#[export] Hint Extern 4 (wf_CommitOffsetResponse _) => solve_wf : codec.

Definition wf_TopicMetadata (v : TopicMetadata) : Prop :=
  fits_string (TopicMetadata_Topic v) /\
  is_u32 (TopicMetadata_Partitions v).
#[export] Hint Unfold wf_TopicMetadata : wf.
#[export] Hint Extern 4 (wf_TopicMetadata _) => solve_wf : codec.

Definition wf_ListTopicsResponse (v : ListTopicsResponse) : Prop :=
  fits_list32 wf_TopicMetadata (ListTopicsResponse_Topics v).
#[export] Hint Unfold wf_ListTopicsResponse : wf.
#[export] Hint Extern 4 (wf_ListTopicsResponse _) => solve_wf : codec.

Definition wf_SendDirectRequest (v : SendDirectRequest) : Prop :=
  fits_string (SendDirectRequest_Sender v) /\
  fits_string (SendDirectRequest_Recipient v) /\
  fits_option fits_string (SendDirectRequest_ConversationID v) /\
  fits_bytes (SendDirectRequest_Payload v).
#[export] Hint Unfold wf_SendDirectRequest : wf.
#[export] Hint Extern 4 (wf_SendDirectRequest _) => solve_wf : codec.

Definition wf_SendDirectResponse (v : SendDirectResponse) : Prop :=
  fits_string (SendDirectResponse_MessageID v) /\
  fits_string (SendDirectResponse_ConversationID v) /\
  is_u64 (SendDirectResponse_Offset v) /\
  is_u64 (SendDirectResponse_NextOffset v).
#[export] Hint Unfold wf_SendDirectResponse : wf.
#[export] Hint Extern 4 (wf_SendDirectResponse _) => solve_wf : codec.

Definition wf_FetchInboxRequest (v : FetchInboxRequest) : Prop :=
  fits_string (FetchInboxRequest_Recipient v) /\
  is_u32 (FetchInboxRequest_MaxRecords v).
#[export] Hint Unfold wf_FetchInboxRequest : wf.
#[export] Hint Extern 4 (wf_FetchInboxRequest _) => solve_wf : codec.

Definition wf_DirectMessageRecord (v : DirectMessageRecord) : Prop :=
  is_u64 (DirectMessageRecord_Offset v) /\
  fits_string (DirectMessageRecord_MessageID v) /\
  fits_string (DirectMessageRecord_ConversationID v) /\
  fits_string (DirectMessageRecord_Sender v) /\
  fits_string (DirectMessageRecord_Recipient v) /\
  is_u64 (DirectMessageRecord_TimestampMS v) /\
  fits_bytes (DirectMessageRecord_Payload v).
#[export] Hint Unfold wf_DirectMessageRecord : wf.
#[export] Hint Extern 4 (wf_DirectMessageRecord _) => solve_wf : codec.

Definition wf_FetchInboxResponse (v : FetchInboxResponse) : Prop :=
  fits_string (FetchInboxResponse_Recipient v) /\
  fits_list32 wf_DirectMessageRecord (FetchInboxResponse_Records v) /\
  is_u64 (FetchInboxResponse_NextOffset v) /\
  fits_option is_u64 (FetchInboxResponse_HighWatermark v) /\
  fits_option is_u64 (FetchInboxResponse_LowWatermark v) /\
  is_u64 (FetchInboxResponse_LogStartOffset v).
#[export] Hint Unfold wf_FetchInboxResponse : wf.
#[export] Hint Extern 4 (wf_FetchInboxResponse _) => solve_wf : codec.

Definition wf_AckDirectRequest (v : AckDirectRequest) : Prop :=
  fits_string (AckDirectRequest_Recipient v) /\
  is_u64 (AckDirectRequest_NextOffset v).
#[export] Hint Unfold wf_AckDirectRequest : wf.
#[export] Hint Extern 4 (wf_AckDirectRequest _) => solve_wf : codec.

Definition wf_AckDirectResponse (v : AckDirectResponse) : Prop :=
  fits_string (AckDirectResponse_Recipient v) /\
  is_u64 (AckDirectResponse_NextOffset v).
#[export] Hint Unfold wf_AckDirectResponse : wf.
#[export] Hint Extern 4 (wf_AckDirectResponse _) => solve_wf : codec.

Definition wf_JoinConsumerGroupRequest (v : JoinConsumerGroupRequest) : Prop :=
  fits_string (JoinConsumerGroupRequest_Group v) /\
  fits_string (JoinConsumerGroupRequest_MemberID v) /\
  fits_list32 fits_string (JoinConsumerGroupRequest_Topics v) /\
  is_u64 (JoinConsumerGroupRequest_SessionTimeoutMS v) /\
  is_u64 (JoinConsumerGroupRequest_MaxPollIntervalMS v).
#[export] Hint Unfold wf_JoinConsumerGroupRequest : wf.
#[export] Hint Extern 4 (wf_JoinConsumerGroupRequest _) => solve_wf : codec.

Definition wf_ConsumerGroupMemberLease (v : ConsumerGroupMemberLease) : Prop :=
  fits_string (ConsumerGroupMemberLease_Group v) /\
  fits_string (ConsumerGroupMemberLease_MemberID v) /\
  fits_list32 fits_string (ConsumerGroupMemberLease_Topics v) /\
  is_u64 (ConsumerGroupMemberLease_SessionTimeoutMS v) /\
  is_u64 (ConsumerGroupMemberLease_MaxPollIntervalMS v) /\
  is_u64 (ConsumerGroupMemberLease_JoinedAtMS v) /\
  is_u64 (ConsumerGroupMemberLease_LastHeartbeatMS v) /\
  is_u64 (ConsumerGroupMemberLease_LastPollMS v) /\
  is_u64 (ConsumerGroupMemberLease_ExpiresAtMS v) /\
  is_u64 (ConsumerGroupMemberLease_PollExpiresAtMS v).
#[export] Hint Unfold wf_ConsumerGroupMemberLease : wf.
#[export] Hint Extern 4 (wf_ConsumerGroupMemberLease _) => solve_wf : codec.

Definition wf_JoinConsumerGroupResponse (v : JoinConsumerGroupResponse) : Prop :=
  wf_ConsumerGroupMemberLease (JoinConsumerGroupResponse_Lease v).
#[export] Hint Unfold wf_JoinConsumerGroupResponse : wf.
#[export] Hint Extern 4 (wf_JoinConsumerGroupResponse _) => solve_wf : codec.

Definition wf_HeartbeatConsumerGroupRequest (v : HeartbeatConsumerGroupRequest) : Prop :=
  fits_string (HeartbeatConsumerGroupRequest_Group v) /\
  fits_string (HeartbeatConsumerGroupRequest_MemberID v) /\
  fits_option is_u64 (HeartbeatConsumerGroupRequest_SessionTimeoutMS v) /\
  fits_option is_u64 (HeartbeatConsumerGroupRequest_MaxPollIntervalMS v).
#[export] Hint Unfold wf_HeartbeatConsumerGroupRequest : wf.
#[export] Hint Extern 4 (wf_HeartbeatConsumerGroupRequest _) => solve_wf : codec.

Definition wf_HeartbeatConsumerGroupResponse (v : HeartbeatConsumerGroupResponse) : Prop :=
  wf_ConsumerGroupMemberLease (HeartbeatConsumerGroupResponse_Lease v).
#[export] Hint Unfold wf_HeartbeatConsumerGroupResponse : wf.
#[export] Hint Extern 4 (wf_HeartbeatConsumerGroupResponse _) => solve_wf : codec.

Definition wf_GroupPartitionAssignment (v : GroupPartitionAssignment) : Prop :=
  fits_string (GroupPartitionAssignment_MemberID v) /\
  fits_string (GroupPartitionAssignment_Topic v) /\
  is_u32 (GroupPartitionAssignment_Partition v).
#[export] Hint Unfold wf_GroupPartitionAssignment : wf.
#[export] Hint Extern 4 (wf_GroupPartitionAssignment _) => solve_wf : codec.

Definition wf_ConsumerGroupAssignment (v : ConsumerGroupAssignment) : Prop :=
  fits_string (ConsumerGroupAssignment_Group v) /\
  is_u64 (ConsumerGroupAssignment_Generation v) /\
  fits_list32 wf_GroupPartitionAssignment (ConsumerGroupAssignment_Assignments v) /\
  is_u64 (ConsumerGroupAssignment_UpdatedAtMS v).
#[export] Hint Unfold wf_ConsumerGroupAssignment : wf.
#[export] Hint Extern 4 (wf_ConsumerGroupAssignment _) => solve_wf : codec.

Definition wf_RebalanceConsumerGroupRequest (v : RebalanceConsumerGroupRequest) : Prop :=
  fits_string (RebalanceConsumerGroupRequest_Group v).
#[export] Hint Unfold wf_RebalanceConsumerGroupRequest : wf.
#[export] Hint Extern 4 (wf_RebalanceConsumerGroupRequest _) => solve_wf : codec.

Definition wf_RebalanceConsumerGroupResponse (v : RebalanceConsumerGroupResponse) : Prop :=
  wf_ConsumerGroupAssignment (RebalanceConsumerGroupResponse_Assignment v).
#[export] Hint Unfold wf_RebalanceConsumerGroupResponse : wf.
#[export] Hint Extern 4 (wf_RebalanceConsumerGroupResponse _) => solve_wf : codec.

Definition wf_GetConsumerGroupAssignmentRequest (v : GetConsumerGroupAssignmentRequest) : Prop :=
  fits_string (GetConsumerGroupAssignmentRequest_Group v).
#[export] Hint Unfold wf_GetConsumerGroupAssignmentRequest : wf.
#[export] Hint Extern 4 (wf_GetConsumerGroupAssignmentRequest _) => solve_wf : codec.

Definition wf_GetConsumerGroupAssignmentResponse (v : GetConsumerGroupAssignmentResponse) : Prop :=
  fits_option wf_ConsumerGroupAssignment (GetConsumerGroupAssignmentResponse_Assignment v).
#[export] Hint Unfold wf_GetConsumerGroupAssignmentResponse : wf.
#[export] Hint Extern 4 (wf_GetConsumerGroupAssignmentResponse _) => solve_wf : codec.

Definition wf_FetchConsumerGroupRequest (v : FetchConsumerGroupRequest) : Prop :=
  fits_string (FetchConsumerGroupRequest_Group v) /\
  fits_string (FetchConsumerGroupRequest_MemberID v) /\
  is_u64 (FetchConsumerGroupRequest_Generation v) /\
  fits_string (FetchConsumerGroupRequest_Topic v) /\
  is_u32 (FetchConsumerGroupRequest_Partition v) /\
  fits_option is_u64 (FetchConsumerGroupRequest_Offset v) /\
  is_u32 (FetchConsumerGroupRequest_MaxRecords v) /\
  fits_option is_u32 (FetchConsumerGroupRequest_MinRecords v) /\
  fits_option is_u64 (FetchConsumerGroupRequest_MaxWaitMS v) /\
  valid_isolation (FetchConsumerGroupRequest_Isolation v).
#[export] Hint Unfold wf_FetchConsumerGroupRequest : wf.
#[export] Hint Extern 4 (wf_FetchConsumerGroupRequest _) => solve_wf : codec.

Definition wf_FetchConsumerGroupResponse (v : FetchConsumerGroupResponse) : Prop :=
  fits_string (FetchConsumerGroupResponse_Group v) /\
  fits_string (FetchConsumerGroupResponse_MemberID v) /\
  is_u64 (FetchConsumerGroupResponse_Generation v) /\
  fits_string (FetchConsumerGroupResponse_Topic v) /\
  is_u32 (FetchConsumerGroupResponse_Partition v) /\
  fits_list32 wf_FetchRecord (FetchConsumerGroupResponse_Records v) /\
  is_u64 (FetchConsumerGroupResponse_NextOffset v) /\
  fits_option is_u64 (FetchConsumerGroupResponse_HighWatermark v) /\
  fits_option is_u64 (FetchConsumerGroupResponse_LowWatermark v) /\
  is_u64 (FetchConsumerGroupResponse_LogStartOffset v).
#[export] Hint Unfold wf_FetchConsumerGroupResponse : wf.
#[export] Hint Extern 4 (wf_FetchConsumerGroupResponse _) => solve_wf : codec.

Definition wf_CommitConsumerGroupOffsetRequest (v : CommitConsumerGroupOffsetRequest) : Prop :=
  fits_string (CommitConsumerGroupOffsetRequest_Group v) /\
  fits_string (CommitConsumerGroupOffsetRequest_MemberID v) /\
  is_u64 (CommitConsumerGroupOffsetRequest_Generation v) /\
  fits_string (CommitConsumerGroupOffsetRequest_Topic v) /\
  is_u32 (CommitConsumerGroupOffsetRequest_Partition v) /\
  is_u64 (CommitConsumerGroupOffsetRequest_NextOffset v) /\
  fits_string (CommitConsumerGroupOffsetRequest_Metadata v).
#[export] Hint Unfold wf_CommitConsumerGroupOffsetRequest : wf.
#[export] Hint Extern 4 (wf_CommitConsumerGroupOffsetRequest _) => solve_wf : codec.

Definition wf_CommitConsumerGroupOffsetResponse (v : CommitConsumerGroupOffsetResponse) : Prop :=
  fits_string (CommitConsumerGroupOffsetResponse_Group v) /\
  fits_string (CommitConsumerGroupOffsetResponse_MemberID v) /\
  is_u64 (CommitConsumerGroupOffsetResponse_Generation v) /\
  fits_string (CommitConsumerGroupOffsetResponse_Topic v) /\
  is_u32 (CommitConsumerGroupOffsetResponse_Partition v) /\
  is_u64 (CommitConsumerGroupOffsetResponse_NextOffset v) /\
  fits_string (CommitConsumerGroupOffsetResponse_Metadata v).
#[export] Hint Unfold wf_CommitConsumerGroupOffsetResponse : wf.
#[export] Hint Extern 4 (wf_CommitConsumerGroupOffsetResponse _) => solve_wf : codec.

Definition wf_FetchConsumerGroupBatchRequest (v : FetchConsumerGroupBatchRequest) : Prop :=
  fits_string (FetchConsumerGroupBatchRequest_Group v) /\
  fits_string (FetchConsumerGroupBatchRequest_MemberID v) /\
  is_u64 (FetchConsumerGroupBatchRequest_Generation v) /\
  fits_list32 wf_FetchBatchItemRequest (FetchConsumerGroupBatchRequest_Items v) /\
  fits_option is_u32 (FetchConsumerGroupBatchRequest_MinRecords v) /\
  fits_option is_u64 (FetchConsumerGroupBatchRequest_MaxWaitMS v) /\
  valid_isolation (FetchConsumerGroupBatchRequest_Isolation v).
#[export] Hint Unfold wf_FetchConsumerGroupBatchRequest : wf.
#[export] Hint Extern 4 (wf_FetchConsumerGroupBatchRequest _) => solve_wf : codec.

Definition wf_FetchConsumerGroupBatchItemResponse (v : FetchConsumerGroupBatchItemResponse) : Prop :=
  fits_string (FetchConsumerGroupBatchItemResponse_Topic v) /\
  is_u32 (FetchConsumerGroupBatchItemResponse_Partition v) /\
  fits_list32 wf_FetchRecord (FetchConsumerGroupBatchItemResponse_Records v) /\
  is_u64 (FetchConsumerGroupBatchItemResponse_NextOffset v) /\
  fits_option is_u64 (FetchConsumerGroupBatchItemResponse_HighWatermark v) /\
  fits_option is_u64 (FetchConsumerGroupBatchItemResponse_LowWatermark v) /\
  is_u64 (FetchConsumerGroupBatchItemResponse_LogStartOffset v).
#[export] Hint Unfold wf_FetchConsumerGroupBatchItemResponse : wf.
#[export] Hint Extern 4 (wf_FetchConsumerGroupBatchItemResponse _) => solve_wf : codec.

Definition wf_FetchConsumerGroupBatchResponse (v : FetchConsumerGroupBatchResponse) : Prop :=
  fits_string (FetchConsumerGroupBatchResponse_Group v) /\
  fits_string (FetchConsumerGroupBatchResponse_MemberID v) /\
  is_u64 (FetchConsumerGroupBatchResponse_Generation v) /\
  fits_list32 wf_FetchConsumerGroupBatchItemResponse (FetchConsumerGroupBatchResponse_Items v).
#[export] Hint Unfold wf_FetchConsumerGroupBatchResponse : wf.
#[export] Hint Extern 4 (wf_FetchConsumerGroupBatchResponse _) => solve_wf : codec.

Definition wf_NackRequest (v : NackRequest) : Prop :=
  fits_string (NackRequest_Consumer v) /\
  fits_string (NackRequest_Topic v) /\
  is_u32 (NackRequest_Partition v) /\
  is_u64 (NackRequest_Offset v) /\
  fits_option fits_string (NackRequest_LastError v).
#[export] Hint Unfold wf_NackRequest : wf.
#[export] Hint Extern 4 (wf_NackRequest _) => solve_wf : codec.

Definition wf_NackResponse (v : NackResponse) : Prop :=
  fits_string (NackResponse_RetryTopic v) /\
  is_u32 (NackResponse_RetryPartition v) /\
  is_u64 (NackResponse_RetryOffset v) /\
  is_u64 (NackResponse_RetryNextOffset v) /\
  is_u32 (NackResponse_RetryCount v).
#[export] Hint Unfold wf_NackResponse : wf.
#[export] Hint Extern 4 (wf_NackResponse _) => solve_wf : codec.

Definition wf_ProcessRetryRequest (v : ProcessRetryRequest) : Prop :=
  fits_string (ProcessRetryRequest_Consumer v) /\
  fits_string (ProcessRetryRequest_SourceTopic v) /\
  is_u32 (ProcessRetryRequest_Partition v) /\
  is_u32 (ProcessRetryRequest_MaxRecords v).
#[export] Hint Unfold wf_ProcessRetryRequest : wf.
#[export] Hint Extern 4 (wf_ProcessRetryRequest _) => solve_wf : codec.

Definition wf_ProcessRetryResponse (v : ProcessRetryResponse) : Prop :=
  fits_string (ProcessRetryResponse_RetryTopic v) /\
  is_u32 (ProcessRetryResponse_Partition v) /\
  is_u32 (ProcessRetryResponse_MovedToOrigin v) /\
  is_u32 (ProcessRetryResponse_MovedToDeadLetter v) /\
  fits_option is_u64 (ProcessRetryResponse_CommittedNextOffset v).
#[export] Hint Unfold wf_ProcessRetryResponse : wf.
#[export] Hint Extern 4 (wf_ProcessRetryResponse _) => solve_wf : codec.

Definition wf_ScheduleDelayRequest (v : ScheduleDelayRequest) : Prop :=
  fits_string (ScheduleDelayRequest_Topic v) /\
  is_u32 (ScheduleDelayRequest_Partition v) /\
  fits_bytes (ScheduleDelayRequest_Payload v) /\
  is_u64 (ScheduleDelayRequest_DeliverAtMS v).
#[export] Hint Unfold wf_ScheduleDelayRequest : wf.
#[export] Hint Extern 4 (wf_ScheduleDelayRequest _) => solve_wf : codec.

Definition wf_ScheduleDelayResponse (v : ScheduleDelayResponse) : Prop :=
  fits_string (ScheduleDelayResponse_DelayTopic v) /\
  is_u32 (ScheduleDelayResponse_Partition v) /\
  is_u64 (ScheduleDelayResponse_Offset v) /\
  is_u64 (ScheduleDelayResponse_NextOffset v) /\
  is_u64 (ScheduleDelayResponse_DeliverAtMS v).
#[export] Hint Unfold wf_ScheduleDelayResponse : wf.
#[export] Hint Extern 4 (wf_ScheduleDelayResponse _) => solve_wf : codec.

Definition wf_ErrorResponse (v : ErrorResponse) : Prop :=
  fits_string (ErrorResponse_Code v) /\
  fits_string (ErrorResponse_Message v).
#[export] Hint Unfold wf_ErrorResponse : wf.
#[export] Hint Extern 4 (wf_ErrorResponse _) => solve_wf : codec.

Definition wf_TransactionIdentity (v : TransactionIdentity) : Prop :=
  is_u64 (TransactionIdentity_TxID v) /\
  is_u64 (TransactionIdentity_ProducerID v) /\
  is_u64 (TransactionIdentity_ProducerEpoch v).
#[export] Hint Unfold wf_TransactionIdentity : wf.
#[export] Hint Extern 4 (wf_TransactionIdentity _) => solve_wf : codec.

Definition wf_TxBeginRequest (v : TxBeginRequest) : Prop :=
  fits_string (TxBeginRequest_TransactionalID v) /\
  is_u64 (TxBeginRequest_TimeoutMS v).
#[export] Hint Unfold wf_TxBeginRequest : wf.
#[export] Hint Extern 4 (wf_TxBeginRequest _) => solve_wf : codec.

Definition wf_TxBeginResponse (v : TxBeginResponse) : Prop :=
  wf_TransactionIdentity (TxBeginResponse_Identity v) /\
  is_u64 (TxBeginResponse_ExpiresAtMS v) /\
  valid_tx_status (TxBeginResponse_Status v).
#[export] Hint Unfold wf_TxBeginResponse : wf.
#[export] Hint Extern 4 (wf_TxBeginResponse _) => solve_wf : codec.

Definition wf_TxPublishRequest (v : TxPublishRequest) : Prop :=
  wf_TransactionIdentity (TxPublishRequest_Identity v) /\
  is_u64 (TxPublishRequest_Sequence v) /\
  fits_string (TxPublishRequest_Topic v) /\
  fits_option is_u32 (TxPublishRequest_Partition v) /\
  valid_partitioning (TxPublishRequest_Partitioning v) /\
  fits_string (TxPublishRequest_RoutingKey v) /\
  fits_bytes (TxPublishRequest_Key v) /\
  fits_list16 wf_MessageHeader (TxPublishRequest_Headers v) /\
  fits_bytes (TxPublishRequest_Payload v).
#[export] Hint Unfold wf_TxPublishRequest : wf.
#[export] Hint Extern 4 (wf_TxPublishRequest _) => solve_wf : codec.

Definition wf_TxPublishResponse (v : TxPublishResponse) : Prop :=
  is_u64 (TxPublishResponse_TxID v) /\
  is_u32 (TxPublishResponse_Partition v) /\
  is_u64 (TxPublishResponse_Offset v) /\
  is_u64 (TxPublishResponse_NextOffset v).
#[export] Hint Unfold wf_TxPublishResponse : wf.
#[export] Hint Extern 4 (wf_TxPublishResponse _) => solve_wf : codec.

Definition wf_TxPublishBatchRequest (v : TxPublishBatchRequest) : Prop :=
  wf_TransactionIdentity (TxPublishBatchRequest_Identity v) /\
  is_u64 (TxPublishBatchRequest_BaseSequence v) /\
  fits_string (TxPublishBatchRequest_Topic v) /\
  fits_option is_u32 (TxPublishBatchRequest_Partition v) /\
  valid_partitioning (TxPublishBatchRequest_Partitioning v) /\
  fits_string (TxPublishBatchRequest_RoutingKey v) /\
  fits_list32 fits_bytes (TxPublishBatchRequest_Payloads v) /\
  fits_list32 wf_ProduceBatchRecord (TxPublishBatchRequest_Records v).
#[export] Hint Unfold wf_TxPublishBatchRequest : wf.
#[export] Hint Extern 4 (wf_TxPublishBatchRequest _) => solve_wf : codec.

Definition wf_TxPublishBatchResponse (v : TxPublishBatchResponse) : Prop :=
  is_u64 (TxPublishBatchResponse_TxID v) /\
  is_u32 (TxPublishBatchResponse_Partition v) /\
  is_u64 (TxPublishBatchResponse_BaseOffset v) /\
  is_u64 (TxPublishBatchResponse_LastOffset v) /\
  is_u64 (TxPublishBatchResponse_NextOffset v) /\
  is_u32 (TxPublishBatchResponse_Appended v).
#[export] Hint Unfold wf_TxPublishBatchResponse : wf.
#[export] Hint Extern 4 (wf_TxPublishBatchResponse _) => solve_wf : codec.

Definition wf_TxCommitOffsetRequest (v : TxCommitOffsetRequest) : Prop :=
  wf_TransactionIdentity (TxCommitOffsetRequest_Identity v) /\
  fits_string (TxCommitOffsetRequest_Consumer v) /\
  fits_string (TxCommitOffsetRequest_Group v) /\
  fits_string (TxCommitOffsetRequest_MemberID v) /\
  is_u64 (TxCommitOffsetRequest_Generation v) /\
  fits_string (TxCommitOffsetRequest_Topic v) /\
  is_u32 (TxCommitOffsetRequest_Partition v) /\
  is_u64 (TxCommitOffsetRequest_NextOffset v) /\
  fits_string (TxCommitOffsetRequest_Metadata v).
#[export] Hint Unfold wf_TxCommitOffsetRequest : wf.
#[export] Hint Extern 4 (wf_TxCommitOffsetRequest _) => solve_wf : codec.

Definition wf_TxCommitOffsetResponse (v : TxCommitOffsetResponse) : Prop :=
  is_u64 (TxCommitOffsetResponse_TxID v) /\
  fits_string (TxCommitOffsetResponse_Consumer v) /\
  fits_string (TxCommitOffsetResponse_Group v) /\
  fits_string (TxCommitOffsetResponse_Topic v) /\
  is_u32 (TxCommitOffsetResponse_Partition v) /\
  is_u64 (TxCommitOffsetResponse_NextOffset v) /\
  fits_string (TxCommitOffsetResponse_Metadata v).
#[export] Hint Unfold wf_TxCommitOffsetResponse : wf.
#[export] Hint Extern 4 (wf_TxCommitOffsetResponse _) => solve_wf : codec.

Definition wf_TxCommitRequest (v : TxCommitRequest) : Prop :=
  wf_TransactionIdentity (TxCommitRequest_Identity v).
#[export] Hint Unfold wf_TxCommitRequest : wf.
#[export] Hint Extern 4 (wf_TxCommitRequest _) => solve_wf : codec.

Definition wf_TxCommitResponse (v : TxCommitResponse) : Prop :=
  is_u64 (TxCommitResponse_TxID v) /\
  valid_tx_status (TxCommitResponse_Status v).
#[export] Hint Unfold wf_TxCommitResponse : wf.
#[export] Hint Extern 4 (wf_TxCommitResponse _) => solve_wf : codec.

Definition wf_TxAbortRequest (v : TxAbortRequest) : Prop :=
  wf_TransactionIdentity (TxAbortRequest_Identity v).
#[export] Hint Unfold wf_TxAbortRequest : wf.
#[export] Hint Extern 4 (wf_TxAbortRequest _) => solve_wf : codec.

Definition wf_TxAbortResponse (v : TxAbortResponse) : Prop :=
  is_u64 (TxAbortResponse_TxID v) /\
  valid_tx_status (TxAbortResponse_Status v).
#[export] Hint Unfold wf_TxAbortResponse : wf.
#[export] Hint Extern 4 (wf_TxAbortResponse _) => solve_wf : codec.

Definition wf_StartRequestRequest (v : StartRequestRequest) : Prop :=
  fits_string (StartRequestRequest_Subject v) /\
  fits_string (StartRequestRequest_InstanceID v) /\
  fits_option is_u64 (StartRequestRequest_TimeoutMS v) /\
  fits_option is_u64 (StartRequestRequest_PollIntervalMS v) /\
  fits_option is_u32 (StartRequestRequest_Partition v) /\
  valid_partitioning (StartRequestRequest_Partitioning v) /\
  fits_string (StartRequestRequest_ReplyMode v) /\
  fits_list16 wf_MessageHeader (StartRequestRequest_Headers v) /\
  fits_bytes (StartRequestRequest_Payload v).
#[export] Hint Unfold wf_StartRequestRequest : wf.
#[export] Hint Extern 4 (wf_StartRequestRequest _) => solve_wf : codec.

Definition wf_StartRequestResponse (v : StartRequestResponse) : Prop :=
  fits_string (StartRequestResponse_Subject v) /\
  fits_string (StartRequestResponse_InstanceID v) /\
  fits_string (StartRequestResponse_ReplyTo v) /\
  fits_string (StartRequestResponse_CorrelationID v) /\
  is_u64 (StartRequestResponse_ExpiresAtMS v) /\
  fits_string (StartRequestResponse_ReplyMode v) /\
  is_u32 (StartRequestResponse_Partition v) /\
  is_u64 (StartRequestResponse_Offset v) /\
  is_u64 (StartRequestResponse_NextOffset v).
#[export] Hint Unfold wf_StartRequestResponse : wf.
#[export] Hint Extern 4 (wf_StartRequestResponse _) => solve_wf : codec.

Definition wf_FetchRequestsRequest (v : FetchRequestsRequest) : Prop :=
  fits_string (FetchRequestsRequest_Consumer v) /\
  fits_string (FetchRequestsRequest_Subject v) /\
  is_u32 (FetchRequestsRequest_Partition v) /\
  fits_option is_u64 (FetchRequestsRequest_Offset v) /\
  is_u32 (FetchRequestsRequest_MaxRecords v) /\
  fits_option is_u32 (FetchRequestsRequest_MinRecords v) /\
  fits_option is_u64 (FetchRequestsRequest_MaxWaitMS v) /\
  valid_isolation (FetchRequestsRequest_Isolation v).
#[export] Hint Unfold wf_FetchRequestsRequest : wf.
#[export] Hint Extern 4 (wf_FetchRequestsRequest _) => solve_wf : codec.

Definition wf_RequestRecord (v : RequestRecord) : Prop :=
  is_u64 (RequestRecord_Offset v) /\
  is_u64 (RequestRecord_TimestampMS v) /\
  fits_string (RequestRecord_Subject v) /\
  fits_string (RequestRecord_ReplyTo v) /\
  fits_string (RequestRecord_CorrelationID v) /\
  fits_string (RequestRecord_SenderID v) /\
  is_u64 (RequestRecord_ExpiresAtMS v) /\
  fits_string (RequestRecord_ReplyMode v) /\
  fits_list16 wf_MessageHeader (RequestRecord_Headers v) /\
  fits_bytes (RequestRecord_Payload v).
#[export] Hint Unfold wf_RequestRecord : wf.
#[export] Hint Extern 4 (wf_RequestRecord _) => solve_wf : codec.

Definition wf_FetchRequestsResponse (v : FetchRequestsResponse) : Prop :=
  fits_string (FetchRequestsResponse_Subject v) /\
  is_u32 (FetchRequestsResponse_Partition v) /\
  fits_list32 wf_RequestRecord (FetchRequestsResponse_Requests v) /\
  is_u64 (FetchRequestsResponse_NextOffset v) /\
  fits_option is_u64 (FetchRequestsResponse_HighWatermark v) /\
  fits_option is_u64 (FetchRequestsResponse_LowWatermark v) /\
  is_u64 (FetchRequestsResponse_LogStartOffset v).
#[export] Hint Unfold wf_FetchRequestsResponse : wf.
#[export] Hint Extern 4 (wf_FetchRequestsResponse _) => solve_wf : codec.

Definition wf_ReplyRequest (v : ReplyRequest) : Prop :=
  fits_string (ReplyRequest_Subject v) /\
  fits_string (ReplyRequest_ReplyTo v) /\
  fits_string (ReplyRequest_CorrelationID v) /\
  is_u64 (ReplyRequest_ExpiresAtMS v) /\
  fits_string (ReplyRequest_ResponderID v) /\
  fits_bytes (ReplyRequest_Payload v).
#[export] Hint Unfold wf_ReplyRequest : wf.
#[export] Hint Extern 4 (wf_ReplyRequest _) => solve_wf : codec.

Definition wf_ReplyResponse (v : ReplyResponse) : Prop :=
  fits_string (ReplyResponse_MessageID v) /\
  fits_string (ReplyResponse_ConversationID v) /\
  is_u64 (ReplyResponse_Offset v) /\
  is_u64 (ReplyResponse_NextOffset v).
#[export] Hint Unfold wf_ReplyResponse : wf.
#[export] Hint Extern 4 (wf_ReplyResponse _) => solve_wf : codec.

Definition wf_ReplyErrorRequest (v : ReplyErrorRequest) : Prop :=
  fits_string (ReplyErrorRequest_Subject v) /\
  fits_string (ReplyErrorRequest_ReplyTo v) /\
  fits_string (ReplyErrorRequest_CorrelationID v) /\
  is_u64 (ReplyErrorRequest_ExpiresAtMS v) /\
  fits_string (ReplyErrorRequest_ResponderID v) /\
  fits_string (ReplyErrorRequest_Error v).
#[export] Hint Unfold wf_ReplyErrorRequest : wf.
#[export] Hint Extern 4 (wf_ReplyErrorRequest _) => solve_wf : codec.

Definition wf_AwaitReplyRequest (v : AwaitReplyRequest) : Prop :=
  fits_string (AwaitReplyRequest_ReplyTo v) /\
  fits_string (AwaitReplyRequest_CorrelationID v) /\
  is_u64 (AwaitReplyRequest_ExpiresAtMS v) /\
  fits_option is_u64 (AwaitReplyRequest_TimeoutMS v) /\
  fits_option is_u64 (AwaitReplyRequest_PollIntervalMS v).
#[export] Hint Unfold wf_AwaitReplyRequest : wf.
#[export] Hint Extern 4 (wf_AwaitReplyRequest _) => solve_wf : codec.

Definition wf_AwaitRepliesRequest (v : AwaitRepliesRequest) : Prop :=
  fits_string (AwaitRepliesRequest_ReplyTo v) /\
  fits_string (AwaitRepliesRequest_CorrelationID v) /\
  is_u64 (AwaitRepliesRequest_ExpiresAtMS v) /\
  fits_option is_u64 (AwaitRepliesRequest_TimeoutMS v) /\
  fits_option is_u64 (AwaitRepliesRequest_PollIntervalMS v) /\
  is_u32 (AwaitRepliesRequest_MaxReplies v).
#[export] Hint Unfold wf_AwaitRepliesRequest : wf.
#[export] Hint Extern 4 (wf_AwaitRepliesRequest _) => solve_wf : codec.

Definition wf_ReplyRecord (v : ReplyRecord) : Prop :=
  is_u64 (ReplyRecord_Offset v) /\
  fits_string (ReplyRecord_MessageID v) /\
  is_u64 (ReplyRecord_TimestampMS v) /\
  fits_string (ReplyRecord_Subject v) /\
  fits_string (ReplyRecord_CorrelationID v) /\
  fits_string (ReplyRecord_ResponderID v) /\
  fits_option fits_string (ReplyRecord_Error v) /\
  fits_bytes (ReplyRecord_Payload v).
#[export] Hint Unfold wf_ReplyRecord : wf.
#[export] Hint Extern 4 (wf_ReplyRecord _) => solve_wf : codec.

Definition wf_AwaitReplyResponse (v : AwaitReplyResponse) : Prop :=
  wf_ReplyRecord (AwaitReplyResponse_Reply v).
#[export] Hint Unfold wf_AwaitReplyResponse : wf.
#[export] Hint Extern 4 (wf_AwaitReplyResponse _) => solve_wf : codec.

Definition wf_AwaitRepliesResponse (v : AwaitRepliesResponse) : Prop :=
  fits_list32 wf_ReplyRecord (AwaitRepliesResponse_Replies v).
#[export] Hint Unfold wf_AwaitRepliesResponse : wf.
#[export] Hint Extern 4 (wf_AwaitRepliesResponse _) => solve_wf : codec.

Definition wf_replyRoutingFields (v : replyRoutingFields) : Prop :=
  fits_string (replyRoutingFields_subject v) /\
  fits_string (replyRoutingFields_replyTo v) /\
  fits_string (replyRoutingFields_correlationID v) /\
  is_u64 (replyRoutingFields_expiresAtMS v) /\
  fits_string (replyRoutingFields_responderID v).
#[export] Hint Unfold wf_replyRoutingFields : wf.
#[export] Hint Extern 4 (wf_replyRoutingFields _) => solve_wf : codec.

Definition wf_replyFields (v : replyFields) : Prop :=
  wf_replyRoutingFields (replyFields_routing v) /\
  fits_bytes (replyFields_payload v).
#[export] Hint Unfold wf_replyFields : wf.
#[export] Hint Extern 4 (wf_replyFields _) => solve_wf : codec.

Definition wf_groupOffsetFields (v : groupOffsetFields) : Prop :=
  fits_string (groupOffsetFields_group v) /\
  fits_string (groupOffsetFields_memberID v) /\
  is_u64 (groupOffsetFields_generation v) /\
  fits_string (groupOffsetFields_topic v) /\
  is_u32 (groupOffsetFields_partition v) /\
  is_u64 (groupOffsetFields_nextOffset v) /\
  fits_string (groupOffsetFields_metadata v).
#[export] Hint Unfold wf_groupOffsetFields : wf.
#[export] Hint Extern 4 (wf_groupOffsetFields _) => solve_wf : codec.

(** ** Parts of messages *)

Lemma rt_FetchWatermarks high low logStart :
  fits_option is_u64 high -> fits_option is_u64 low -> is_u64 logStart ->
  rt (writeFetchWatermarks high low logStart) readFetchWatermarks (high, low, logStart).
Proof. intros. unfold writeFetchWatermarks, readFetchWatermarks. repeat codec_step. Qed.

#[export] Hint Resolve rt_FetchWatermarks : codec.

Lemma rt_Headers (v : list MessageHeader) : (fits_list16 wf_MessageHeader) v -> rt (writeHeaders v) readHeaders v.
Proof.
  intros H. codec_hyps;
  unfold writeHeaders, readHeaders;
  repeat codec_step.
Qed.

#[export] Hint Resolve rt_Headers : codec.

Lemma rt_StringSlice (v : list string) : (fits_list32 fits_string) v -> rt (writeStringSlice v) readStringSlice v.
Proof.
  intros H. codec_hyps;
  unfold writeStringSlice, readStringSlice;
  repeat codec_step.
Qed.

#[export] Hint Resolve rt_StringSlice : codec.

Lemma rt_TopicPriorityPolicy (v : option TopicPriorityPolicy) : (fits_option wf_TopicPriorityPolicy) v -> rt (writeTopicPriorityPolicy v) readTopicPriorityPolicy v.
Proof.
  intros H. destruct v as [v|]; simpl in H; try unfold wf_TopicPriorityPolicy in H; codec_hyps;
  unfold writeTopicPriorityPolicy, readTopicPriorityPolicy;
  repeat codec_step.
Qed.

#[export] Hint Resolve rt_TopicPriorityPolicy : codec.

Lemma rt_OptionalRetryPolicy (v : option TopicRetryPolicy) : (fits_option wf_TopicRetryPolicy) v -> rt (writeOptionalRetryPolicy v) readOptionalRetryPolicy v.
Proof.
  intros H. destruct v as [v|]; simpl in H; try unfold wf_TopicRetryPolicy in H; codec_hyps;
  unfold writeOptionalRetryPolicy, readOptionalRetryPolicy;
  repeat codec_step.
Qed.

#[export] Hint Resolve rt_OptionalRetryPolicy : codec.

Lemma rt_CreateTopicRequest (v : CreateTopicRequest) : wf_CreateTopicRequest v -> rt (writeCreateTopicRequest v) readCreateTopicRequest v.
Proof.
  intros H. try unfold wf_CreateTopicRequest in H; codec_hyps;
  unfold writeCreateTopicRequest, readCreateTopicRequest, readCreateTopicOptions, readCreateTopicRemainingOptions;
  repeat codec_step.
Qed.

#[export] Hint Resolve rt_CreateTopicRequest : codec.

Lemma rt_CreateTopicResponse (v : CreateTopicResponse) : wf_CreateTopicResponse v -> rt (encodeCreateTopicResponse_func1 v) decodeCreateTopicResponse_func1 v.
Proof.
  intros H. try unfold wf_CreateTopicResponse in H; codec_hyps;
  unfold encodeCreateTopicResponse_func1, decodeCreateTopicResponse_func1;
  repeat codec_step.
Qed.

#[export] Hint Resolve rt_CreateTopicResponse : codec.

Lemma rt_ListTopicsRequest (v : ListTopicsRequest) : wf_ListTopicsRequest v -> rt (encodeListTopicsRequest_func1 v) decodeListTopicsRequest_func1 v.
Proof.
  intros H. try unfold wf_ListTopicsRequest in H; codec_hyps;
  unfold encodeListTopicsRequest_func1, decodeListTopicsRequest_func1;
  repeat codec_step.
Qed.

#[export] Hint Resolve rt_ListTopicsRequest : codec.

Lemma rt_ListTopicsResponse (v : ListTopicsResponse) : wf_ListTopicsResponse v -> rt (encodeListTopicsResponse_func1 v) readListTopicsResponse v.
Proof.
  intros H. try unfold wf_ListTopicsResponse in H; codec_hyps;
  unfold encodeListTopicsResponse_func1, readListTopicsResponse;
  repeat codec_step.
Qed.

#[export] Hint Resolve rt_ListTopicsResponse : codec.

Lemma rt_ErrorResponse (v : ErrorResponse) : wf_ErrorResponse v -> rt (encodeErrorResponse_func1 v) decodeErrorResponse_func1 v.
Proof.
  intros H. try unfold wf_ErrorResponse in H; codec_hyps;
  unfold encodeErrorResponse_func1, decodeErrorResponse_func1;
  repeat codec_step.
Qed.

#[export] Hint Resolve rt_ErrorResponse : codec.

Lemma rt_ProduceIdempotency (v : option ProduceIdempotency) : (fits_option wf_ProduceIdempotency) v -> rt (writeProduceIdempotency v) readProduceIdempotency v.
Proof.
  intros H. destruct v as [v|]; simpl in H; try unfold wf_ProduceIdempotency in H; codec_hyps;
  unfold writeProduceIdempotency, readProduceIdempotency;
  repeat codec_step.
Qed.

#[export] Hint Resolve rt_ProduceIdempotency : codec.

Lemma rt_ProduceRequest (v : ProduceRequest) : wf_ProduceRequest v -> rt (writeProduceRequest v) readProduceRequest v.
Proof.
  intros H. try unfold wf_ProduceRequest in H; codec_hyps;
  unfold writeProduceRequest, readProduceRequest, readProduceRequestTail;
  repeat codec_step.
Qed.

#[export] Hint Resolve rt_ProduceRequest : codec.

Lemma rt_ProduceResponse (v : ProduceResponse) : wf_ProduceResponse v -> rt (encodeProduceResponse_func1 v) decodeProduceResponse_func1 v.
Proof.
  intros H. try unfold wf_ProduceResponse in H; codec_hyps;
  unfold encodeProduceResponse_func1, decodeProduceResponse_func1;
  repeat codec_step.
Qed.

#[export] Hint Resolve rt_ProduceResponse : codec.

Lemma rt_BatchRecord (v : ProduceBatchRecord) : wf_ProduceBatchRecord v -> rt (writeBatchRecord v) readBatchRecord v.
Proof.
  intros H. try unfold wf_ProduceBatchRecord in H; codec_hyps;
  unfold writeBatchRecord, readBatchRecord;
  repeat codec_step.
Qed.

#[export] Hint Resolve rt_BatchRecord : codec.

Lemma rt_BatchRecords (v : list ProduceBatchRecord) : (fits_list32 wf_ProduceBatchRecord) v -> rt (writeBatchRecords v) readBatchRecords v.
Proof.
  intros H. codec_hyps;
  unfold writeBatchRecords, readBatchRecords;
  repeat codec_step.
Qed.

#[export] Hint Resolve rt_BatchRecords : codec.

Lemma rt_Payloads (v : list bytes) : (fits_list32 fits_bytes) v -> rt (writePayloads v) readPayloads v.
Proof.
  intros H. codec_hyps;
  unfold writePayloads, readPayloads;
  repeat codec_step.
Qed.

#[export] Hint Resolve rt_Payloads : codec.

Lemma rt_ProduceBatchRequest (v : ProduceBatchRequest) : wf_ProduceBatchRequest v -> rt (writeProduceBatchRequest v) readProduceBatchRequest v.
Proof.
  intros H. try unfold wf_ProduceBatchRequest in H; codec_hyps;
  unfold writeProduceBatchRequest, readProduceBatchRequest;
  repeat codec_step.
Qed.

#[export] Hint Resolve rt_ProduceBatchRequest : codec.

Lemma rt_ProduceBatchResponse (v : ProduceBatchResponse) : wf_ProduceBatchResponse v -> rt (encodeProduceBatchResponse_func1 v) readProduceBatchResponse v.
Proof.
  intros H. try unfold wf_ProduceBatchResponse in H; codec_hyps;
  unfold encodeProduceBatchResponse_func1, readProduceBatchResponse;
  repeat codec_step.
Qed.

#[export] Hint Resolve rt_ProduceBatchResponse : codec.

Lemma rt_ProduceBatchesItemRequest (v : ProduceBatchesItemRequest) : wf_ProduceBatchesItemRequest v -> rt (writeProduceBatchesItemRequest v) readProduceBatchesItemRequest v.
Proof.
  intros H. try unfold wf_ProduceBatchesItemRequest in H; codec_hyps;
  unfold writeProduceBatchesItemRequest, readProduceBatchesItemRequest;
  repeat codec_step.
Qed.

#[export] Hint Resolve rt_ProduceBatchesItemRequest : codec.

Lemma rt_ProduceBatchesRequest (v : ProduceBatchesRequest) : wf_ProduceBatchesRequest v -> rt (writeProduceBatchesRequest v) readProduceBatchesRequest v.
Proof.
  intros H. try unfold wf_ProduceBatchesRequest in H; codec_hyps;
  unfold writeProduceBatchesRequest, readProduceBatchesRequest;
  repeat codec_step.
Qed.

#[export] Hint Resolve rt_ProduceBatchesRequest : codec.

Lemma rt_ProduceBatchesItemResponse (v : ProduceBatchesItemResponse) : wf_ProduceBatchesItemResponse v -> rt (writeProduceBatchesItemResponse v) readProduceBatchesItemResponse v.
Proof.
  intros H. try unfold wf_ProduceBatchesItemResponse in H; codec_hyps;
  unfold writeProduceBatchesItemResponse, readProduceBatchesItemResponse;
  repeat codec_step.
Qed.

#[export] Hint Resolve rt_ProduceBatchesItemResponse : codec.

Lemma rt_ProduceBatchesResponse (v : ProduceBatchesResponse) : wf_ProduceBatchesResponse v -> rt (writeProduceBatchesResponse v) readProduceBatchesResponse v.
Proof.
  intros H. try unfold wf_ProduceBatchesResponse in H; codec_hyps;
  unfold writeProduceBatchesResponse, readProduceBatchesResponse;
  repeat codec_step.
Qed.

#[export] Hint Resolve rt_ProduceBatchesResponse : codec.

Lemma rt_ProduceFanoutRequest (v : ProduceFanoutRequest) : wf_ProduceFanoutRequest v -> rt (writeProduceFanoutRequest v) readProduceFanoutRequest v.
Proof.
  intros H. try unfold wf_ProduceFanoutRequest in H; codec_hyps;
  unfold writeProduceFanoutRequest, readProduceFanoutRequest;
  repeat codec_step.
Qed.

#[export] Hint Resolve rt_ProduceFanoutRequest : codec.

Lemma rt_ProduceFanoutResponse (v : ProduceFanoutResponse) : wf_ProduceFanoutResponse v -> rt (writeProduceFanoutResponse v) readProduceFanoutResponse v.
Proof.
  intros H. try unfold wf_ProduceFanoutResponse in H; codec_hyps;
  unfold writeProduceFanoutResponse, readProduceFanoutResponse, readProduceFanoutRecordResponse;
  repeat codec_step.
Qed.

#[export] Hint Resolve rt_ProduceFanoutResponse : codec.

Lemma rt_HandshakeRequest (v : HandshakeRequest) : wf_HandshakeRequest v -> rt (encodeHandshakeRequest_func1 v) decodeHandshakeRequest_func1 v.
Proof.
  intros H. try unfold wf_HandshakeRequest in H; codec_hyps;
  unfold encodeHandshakeRequest_func1, decodeHandshakeRequest_func1;
  repeat codec_step.
Qed.

#[export] Hint Resolve rt_HandshakeRequest : codec.

Lemma rt_HandshakeResponse (v : HandshakeResponse) : wf_HandshakeResponse v -> rt (encodeHandshakeResponse_func1 v) decodeHandshakeResponse_func1 v.
Proof.
  intros H. try unfold wf_HandshakeResponse in H; codec_hyps;
  unfold encodeHandshakeResponse_func1, decodeHandshakeResponse_func1;
  repeat codec_step.
Qed.

#[export] Hint Resolve rt_HandshakeResponse : codec.

Lemma rt_PingRequest (v : PingRequest) : wf_PingRequest v -> rt (encodePingRequest_func1 v) decodePingRequest_func1 v.
Proof.
  intros H. try unfold wf_PingRequest in H; codec_hyps;
  unfold encodePingRequest_func1, decodePingRequest_func1;
  repeat codec_step.
Qed.

#[export] Hint Resolve rt_PingRequest : codec.

Lemma rt_PingResponse (v : PingResponse) : wf_PingResponse v -> rt (encodePingResponse_func1 v) decodePingResponse_func1 v.
Proof.
  intros H. try unfold wf_PingResponse in H; codec_hyps;
  unfold encodePingResponse_func1, decodePingResponse_func1;
  repeat codec_step.
Qed.

#[export] Hint Resolve rt_PingResponse : codec.

Lemma rt_ProcessRetryRequest (v : ProcessRetryRequest) : wf_ProcessRetryRequest v -> rt (encodeProcessRetryRequest_func1 v) decodeProcessRetryRequest_func1 v.
Proof.
  intros H. try unfold wf_ProcessRetryRequest in H; codec_hyps;
  unfold encodeProcessRetryRequest_func1, decodeProcessRetryRequest_func1;
  repeat codec_step.
Qed.

#[export] Hint Resolve rt_ProcessRetryRequest : codec.

Lemma rt_ProcessRetryResponse (v : ProcessRetryResponse) : wf_ProcessRetryResponse v -> rt (encodeProcessRetryResponse_func1 v) readProcessRetryResponse v.
Proof.
  intros H. try unfold wf_ProcessRetryResponse in H; codec_hyps;
  unfold encodeProcessRetryResponse_func1, readProcessRetryResponse;
  repeat codec_step.
Qed.

#[export] Hint Resolve rt_ProcessRetryResponse : codec.

Lemma rt_ScheduleDelayRequest (v : ScheduleDelayRequest) : wf_ScheduleDelayRequest v -> rt (encodeScheduleDelayRequest_func1 v) decodeScheduleDelayRequest_func1 v.
Proof.
  intros H. try unfold wf_ScheduleDelayRequest in H; codec_hyps;
  unfold encodeScheduleDelayRequest_func1, decodeScheduleDelayRequest_func1;
  repeat codec_step.
Qed.

#[export] Hint Resolve rt_ScheduleDelayRequest : codec.

Lemma rt_ScheduleDelayResponse (v : ScheduleDelayResponse) : wf_ScheduleDelayResponse v -> rt (encodeScheduleDelayResponse_func1 v) decodeScheduleDelayResponse_func1 v.
Proof.
  intros H. try unfold wf_ScheduleDelayResponse in H; codec_hyps;
  unfold encodeScheduleDelayResponse_func1, decodeScheduleDelayResponse_func1;
  repeat codec_step.
Qed.

#[export] Hint Resolve rt_ScheduleDelayResponse : codec.

Lemma rt_CommitOffsetRequest (v : CommitOffsetRequest) : wf_CommitOffsetRequest v -> rt (writeCommitOffsetRequest v) readCommitOffsetRequest v.
Proof.
  intros H. try unfold wf_CommitOffsetRequest in H; codec_hyps;
  unfold writeCommitOffsetRequest, readCommitOffsetRequest;
  repeat codec_step.
Qed.

#[export] Hint Resolve rt_CommitOffsetRequest : codec.

Lemma rt_CommitOffsetResponse (v : CommitOffsetResponse) : wf_CommitOffsetResponse v -> rt (writeCommitOffsetResponse v) decodeCommitOffsetResponse_func1 v.
Proof.
  intros H. try unfold wf_CommitOffsetResponse in H; codec_hyps;
  unfold writeCommitOffsetResponse, decodeCommitOffsetResponse_func1;
  repeat codec_step.
Qed.

#[export] Hint Resolve rt_CommitOffsetResponse : codec.

Lemma rt_NackRequest (v : NackRequest) : wf_NackRequest v -> rt (encodeNackRequest_func1 v) decodeNackRequest_func1 v.
Proof.
  intros H. try unfold wf_NackRequest in H; codec_hyps;
  unfold encodeNackRequest_func1, decodeNackRequest_func1;
  repeat codec_step.
Qed.

#[export] Hint Resolve rt_NackRequest : codec.

Lemma rt_NackResponse (v : NackResponse) : wf_NackResponse v -> rt (encodeNackResponse_func1 v) decodeNackResponse_func1 v.
Proof.
  intros H. try unfold wf_NackResponse in H; codec_hyps;
  unfold encodeNackResponse_func1, decodeNackResponse_func1;
  repeat codec_step.
Qed.

#[export] Hint Resolve rt_NackResponse : codec.

Lemma rt_FetchRequest (v : FetchRequest) : wf_FetchRequest v -> rt (writeFetchRequest v) readFetchRequest v.
Proof.
  intros H. try unfold wf_FetchRequest in H; codec_hyps;
  unfold writeFetchRequest, readFetchRequest;
  repeat codec_step.
Qed.

#[export] Hint Resolve rt_FetchRequest : codec.

Lemma rt_OptionalTransactionRecordMetadata (v : option TransactionRecordMetadata) : (fits_option wf_TransactionRecordMetadata) v -> rt (writeOptionalTransactionRecordMetadata v) readOptionalTransactionRecordMetadata v.
Proof.
  intros H. destruct v as [v|]; simpl in H; try unfold wf_TransactionRecordMetadata in H; codec_hyps;
  unfold writeOptionalTransactionRecordMetadata, readOptionalTransactionRecordMetadata;
  repeat codec_step.
Qed.

#[export] Hint Resolve rt_OptionalTransactionRecordMetadata : codec.

Lemma rt_FetchRecord (v : FetchRecord) : wf_FetchRecord v -> rt (writeFetchRecord v) readFetchRecord v.
Proof.
  intros H. try unfold wf_FetchRecord in H; codec_hyps;
  unfold writeFetchRecord, readFetchRecord;
  repeat codec_step.
Qed.

#[export] Hint Resolve rt_FetchRecord : codec.

Lemma rt_FetchRecords (v : list FetchRecord) : (fits_list32 wf_FetchRecord) v -> rt (writeFetchRecords v) readFetchRecords v.
Proof.
  intros H. codec_hyps;
  unfold writeFetchRecords, readFetchRecords;
  repeat codec_step.
Qed.

#[export] Hint Resolve rt_FetchRecords : codec.

Lemma rt_FetchResponse (v : FetchResponse) : wf_FetchResponse v -> rt (encodeFetchResponse_func1 v) readFetchResponse v.
Proof.
  intros H. try unfold wf_FetchResponse in H; codec_hyps;
  unfold encodeFetchResponse_func1, readFetchResponse;
  repeat codec_step.
Qed.

#[export] Hint Resolve rt_FetchResponse : codec.

Lemma rt_FetchBatchItem (v : FetchBatchItemRequest) : wf_FetchBatchItemRequest v -> rt (writeFetchBatchItem v) readFetchBatchItem v.
Proof.
  intros H. try unfold wf_FetchBatchItemRequest in H; codec_hyps;
  unfold writeFetchBatchItem, readFetchBatchItem;
  repeat codec_step.
Qed.

#[export] Hint Resolve rt_FetchBatchItem : codec.

Lemma rt_FetchBatchItems (v : list FetchBatchItemRequest) : (fits_list32 wf_FetchBatchItemRequest) v -> rt (writeFetchBatchItems v) readFetchBatchItems v.
Proof.
  intros H. codec_hyps;
  unfold writeFetchBatchItems, readFetchBatchItems;
  repeat codec_step.
Qed.

#[export] Hint Resolve rt_FetchBatchItems : codec.

Lemma rt_FetchBatchRequest (v : FetchBatchRequest) : wf_FetchBatchRequest v -> rt (encodeFetchBatchRequest_func1 v) readFetchBatchRequest v.
Proof.
  intros H. try unfold wf_FetchBatchRequest in H; codec_hyps;
  unfold encodeFetchBatchRequest_func1, readFetchBatchRequest;
  repeat codec_step.
Qed.

#[export] Hint Resolve rt_FetchBatchRequest : codec.

Lemma rt_FetchBatchItemResponse (v : FetchBatchItemResponse) : wf_FetchBatchItemResponse v -> rt (writeFetchBatchItemResponse v) readFetchBatchItemResponse v.
Proof.
  intros H. try unfold wf_FetchBatchItemResponse in H; codec_hyps;
  unfold writeFetchBatchItemResponse, readFetchBatchItemResponse;
  repeat codec_step.
Qed.

#[export] Hint Resolve rt_FetchBatchItemResponse : codec.

Lemma rt_FetchBatchResponse (v : FetchBatchResponse) : wf_FetchBatchResponse v -> rt (encodeFetchBatchResponse_func1 v) readFetchBatchResponse v.
Proof.
  intros H. try unfold wf_FetchBatchResponse in H; codec_hyps;
  unfold encodeFetchBatchResponse_func1, readFetchBatchResponse;
  repeat codec_step.
Qed.

#[export] Hint Resolve rt_FetchBatchResponse : codec.

Lemma rt_FetchSubjectPatternRequest (v : FetchSubjectPatternRequest) : wf_FetchSubjectPatternRequest v -> rt (writeFetchSubjectPatternRequest v) readFetchSubjectPatternRequest v.
Proof.
  intros H. try unfold wf_FetchSubjectPatternRequest in H; codec_hyps;
  unfold writeFetchSubjectPatternRequest, readFetchSubjectPatternRequest;
  repeat codec_step.
Qed.

#[export] Hint Resolve rt_FetchSubjectPatternRequest : codec.

Lemma rt_FetchSubjectPatternResponse (v : FetchSubjectPatternResponse) : wf_FetchSubjectPatternResponse v -> rt (writeFetchSubjectPatternResponse v) readFetchSubjectPatternResponse v.
Proof.
  intros H. try unfold wf_FetchSubjectPatternResponse in H; codec_hyps;
  unfold writeFetchSubjectPatternResponse, readFetchSubjectPatternResponse;
  repeat codec_step.
Qed.

#[export] Hint Resolve rt_FetchSubjectPatternResponse : codec.

Lemma rt_SendDirectRequest (v : SendDirectRequest) : wf_SendDirectRequest v -> rt (encodeSendDirectRequest_func1 v) decodeSendDirectRequest_func1 v.
Proof.
  intros H. try unfold wf_SendDirectRequest in H; codec_hyps;
  unfold encodeSendDirectRequest_func1, decodeSendDirectRequest_func1;
  repeat codec_step.
Qed.

#[export] Hint Resolve rt_SendDirectRequest : codec.

Lemma rt_SendDirectResponse (v : SendDirectResponse) : wf_SendDirectResponse v -> rt (writeSendDirectResponse v) readSendDirectResponse v.
Proof.
  intros H. try unfold wf_SendDirectResponse in H; codec_hyps;
  unfold writeSendDirectResponse, readSendDirectResponse;
  repeat codec_step.
Qed.

#[export] Hint Resolve rt_SendDirectResponse : codec.

Lemma rt_FetchInboxRequest (v : FetchInboxRequest) : wf_FetchInboxRequest v -> rt (encodeFetchInboxRequest_func1 v) decodeFetchInboxRequest_func1 v.
Proof.
  intros H. try unfold wf_FetchInboxRequest in H; codec_hyps;
  unfold encodeFetchInboxRequest_func1, decodeFetchInboxRequest_func1;
  repeat codec_step.
Qed.

#[export] Hint Resolve rt_FetchInboxRequest : codec.

Lemma rt_DirectMessageRecord (v : DirectMessageRecord) : wf_DirectMessageRecord v -> rt (writeDirectMessageRecord v) readDirectMessageRecord v.
Proof.
  intros H. try unfold wf_DirectMessageRecord in H; codec_hyps;
  unfold writeDirectMessageRecord, readDirectMessageRecord, readDirectMessageRecordStrings;
  repeat codec_step.
Qed.

#[export] Hint Resolve rt_DirectMessageRecord : codec.

Lemma rt_DirectMessageRecords (v : list DirectMessageRecord) : (fits_list32 wf_DirectMessageRecord) v -> rt (writeDirectMessageRecords v) readDirectMessageRecords v.
Proof.
  intros H. codec_hyps;
  unfold writeDirectMessageRecords, readDirectMessageRecords;
  repeat codec_step.
Qed.

#[export] Hint Resolve rt_DirectMessageRecords : codec.

Lemma rt_FetchInboxResponse (v : FetchInboxResponse) : wf_FetchInboxResponse v -> rt (encodeFetchInboxResponse_func1 v) readFetchInboxResponse v.
Proof.
  intros H. try unfold wf_FetchInboxResponse in H; codec_hyps;
  unfold encodeFetchInboxResponse_func1, readFetchInboxResponse;
  repeat codec_step.
Qed.

#[export] Hint Resolve rt_FetchInboxResponse : codec.

Lemma rt_AckDirectRequest (v : AckDirectRequest) : wf_AckDirectRequest v -> rt (encodeAckDirectRequest_func1 v) decodeAckDirectRequest_func1 v.
Proof.
  intros H. try unfold wf_AckDirectRequest in H; codec_hyps;
  unfold encodeAckDirectRequest_func1, decodeAckDirectRequest_func1;
  repeat codec_step.
Qed.

#[export] Hint Resolve rt_AckDirectRequest : codec.

Lemma rt_AckDirectResponse (v : AckDirectResponse) : wf_AckDirectResponse v -> rt (encodeAckDirectResponse_func1 v) decodeAckDirectResponse_func1 v.
Proof.
  intros H. try unfold wf_AckDirectResponse in H; codec_hyps;
  unfold encodeAckDirectResponse_func1, decodeAckDirectResponse_func1;
  repeat codec_step.
Qed.

#[export] Hint Resolve rt_AckDirectResponse : codec.

Lemma rt_StartRequestRequest (v : StartRequestRequest) : wf_StartRequestRequest v -> rt (encodeStartRequestRequest_func1 v) readStartRequestRequest v.
Proof.
  intros H. try unfold wf_StartRequestRequest in H; codec_hyps;
  unfold encodeStartRequestRequest_func1, readStartRequestRequest, readStartRequestRequestTail;
  repeat codec_step.
Qed.

#[export] Hint Resolve rt_StartRequestRequest : codec.

Lemma rt_StartRequestResponse (v : StartRequestResponse) : wf_StartRequestResponse v -> rt (writeStartRequestResponse v) readStartRequestResponse v.
Proof.
  intros H. try unfold wf_StartRequestResponse in H; codec_hyps;
  unfold writeStartRequestResponse, readStartRequestResponse, readStartRequestResponseTail;
  repeat codec_step.
Qed.

#[export] Hint Resolve rt_StartRequestResponse : codec.

Lemma rt_FetchRequestsRequest (v : FetchRequestsRequest) : wf_FetchRequestsRequest v -> rt (encodeFetchRequestsRequest_func1 v) decodeFetchRequestsRequest_func1 v.
Proof.
  intros H. try unfold wf_FetchRequestsRequest in H; codec_hyps;
  unfold encodeFetchRequestsRequest_func1, decodeFetchRequestsRequest_func1, readFetchRequest;
  repeat codec_step.
Qed.

#[export] Hint Resolve rt_FetchRequestsRequest : codec.

Lemma rt_RequestRecord (v : RequestRecord) : wf_RequestRecord v -> rt (writeRequestRecord v) readRequestRecord v.
Proof.
  intros H. try unfold wf_RequestRecord in H; codec_hyps;
  unfold writeRequestRecord, readRequestRecord, readRequestRecordTail;
  repeat codec_step.
Qed.

#[export] Hint Resolve rt_RequestRecord : codec.

Lemma rt_RequestRecords (v : list RequestRecord) : (fits_list32 wf_RequestRecord) v -> rt (writeRequestRecords v) readRequestRecords v.
Proof.
  intros H. codec_hyps;
  unfold writeRequestRecords, readRequestRecords;
  repeat codec_step.
Qed.

#[export] Hint Resolve rt_RequestRecords : codec.

Lemma rt_FetchRequestsResponse (v : FetchRequestsResponse) : wf_FetchRequestsResponse v -> rt (encodeFetchRequestsResponse_func1 v) readFetchRequestsResponse v.
Proof.
  intros H. try unfold wf_FetchRequestsResponse in H; codec_hyps;
  unfold encodeFetchRequestsResponse_func1, readFetchRequestsResponse;
  repeat codec_step.
Qed.

#[export] Hint Resolve rt_FetchRequestsResponse : codec.

Lemma rt_ReplyRouting (v : replyRoutingFields) : wf_replyRoutingFields v -> rt (writeReplyRouting v) readReplyRouting v.
Proof.
  intros H. try unfold wf_replyRoutingFields in H; codec_hyps;
  unfold writeReplyRouting, readReplyRouting;
  repeat codec_step.
Qed.

#[export] Hint Resolve rt_ReplyRouting : codec.

Lemma rt_ReplyFields (v : replyFields) : wf_replyFields v -> rt (writeReplyFields v) readReplyFields v.
Proof.
  intros H. try unfold wf_replyFields in H; codec_hyps;
  unfold writeReplyFields, readReplyFields;
  repeat codec_step.
Qed.

#[export] Hint Resolve rt_ReplyFields : codec.

Lemma rt_ReplyRequest (v : ReplyRequest) : wf_ReplyRequest v -> rt (encodeReplyRequest_func1 v) decodeReplyRequest_func1 v.
Proof.
  intros H. try unfold wf_ReplyRequest in H; codec_hyps;
  unfold encodeReplyRequest_func1, decodeReplyRequest_func1;
  repeat codec_step.
Qed.

#[export] Hint Resolve rt_ReplyRequest : codec.

Lemma rt_ReplyResponse (v : ReplyResponse) : wf_ReplyResponse v -> rt (encodeReplyResponse_func1 v) decodeReplyResponse_func1 v.
Proof.
  intros H. try unfold wf_ReplyResponse in H; codec_hyps;
  unfold encodeReplyResponse_func1, decodeReplyResponse_func1;
  repeat codec_step.
Qed.

#[export] Hint Resolve rt_ReplyResponse : codec.

Lemma rt_ReplyErrorRequest (v : ReplyErrorRequest) : wf_ReplyErrorRequest v -> rt (encodeReplyErrorRequest_func1 v) decodeReplyErrorRequest_func1 v.
Proof.
  intros H. try unfold wf_ReplyErrorRequest in H; codec_hyps;
  unfold encodeReplyErrorRequest_func1, decodeReplyErrorRequest_func1;
  repeat codec_step.
Qed.

#[export] Hint Resolve rt_ReplyErrorRequest : codec.

Lemma rt_AwaitReplyRequest (v : AwaitReplyRequest) : wf_AwaitReplyRequest v -> rt (encodeAwaitReplyRequest_func1 v) readAwaitReplyRequest v.
Proof.
  intros H. try unfold wf_AwaitReplyRequest in H; codec_hyps;
  unfold encodeAwaitReplyRequest_func1, readAwaitReplyRequest;
  repeat codec_step.
Qed.

#[export] Hint Resolve rt_AwaitReplyRequest : codec.

Lemma rt_ReplyRecord (v : ReplyRecord) : wf_ReplyRecord v -> rt (writeReplyRecord v) readReplyRecord v.
Proof.
  intros H. try unfold wf_ReplyRecord in H; codec_hyps;
  unfold writeReplyRecord, readReplyRecord, readReplyRecordTail;
  repeat codec_step.
Qed.

#[export] Hint Resolve rt_ReplyRecord : codec.

Lemma rt_AwaitReplyResponse (v : AwaitReplyResponse) : wf_AwaitReplyResponse v -> rt (encodeAwaitReplyResponse_func1 v) decodeAwaitReplyResponse_func1 v.
Proof.
  intros H. try unfold wf_AwaitReplyResponse in H; codec_hyps;
  unfold encodeAwaitReplyResponse_func1, decodeAwaitReplyResponse_func1;
  repeat codec_step.
Qed.

#[export] Hint Resolve rt_AwaitReplyResponse : codec.

Lemma rt_AwaitRepliesRequest (v : AwaitRepliesRequest) : wf_AwaitRepliesRequest v -> rt (encodeAwaitRepliesRequest_func1 v) decodeAwaitRepliesRequest_func1 v.
Proof.
  intros H. try unfold wf_AwaitRepliesRequest in H; codec_hyps;
  unfold encodeAwaitRepliesRequest_func1, decodeAwaitRepliesRequest_func1, readAwaitReplyRequest;
  repeat codec_step.
Qed.

#[export] Hint Resolve rt_AwaitRepliesRequest : codec.

Lemma rt_ReplyRecords (v : list ReplyRecord) : (fits_list32 wf_ReplyRecord) v -> rt (writeReplyRecords v) readReplyRecords v.
Proof.
  intros H. codec_hyps;
  unfold writeReplyRecords, readReplyRecords;
  repeat codec_step.
Qed.

#[export] Hint Resolve rt_ReplyRecords : codec.

Lemma rt_AwaitRepliesResponse (v : AwaitRepliesResponse) : wf_AwaitRepliesResponse v -> rt (encodeAwaitRepliesResponse_func1 v) decodeAwaitRepliesResponse_func1 v.
Proof.
  intros H. try unfold wf_AwaitRepliesResponse in H; codec_hyps;
  unfold encodeAwaitRepliesResponse_func1, decodeAwaitRepliesResponse_func1;
  repeat codec_step.
Qed.

#[export] Hint Resolve rt_AwaitRepliesResponse : codec.

Lemma rt_JoinConsumerGroupRequest (v : JoinConsumerGroupRequest) : wf_JoinConsumerGroupRequest v -> rt (encodeJoinConsumerGroupRequest_func1 v) decodeJoinConsumerGroupRequest_func1 v.
Proof.
  intros H. try unfold wf_JoinConsumerGroupRequest in H; codec_hyps;
  unfold encodeJoinConsumerGroupRequest_func1, decodeJoinConsumerGroupRequest_func1;
  repeat codec_step.
Qed.

#[export] Hint Resolve rt_JoinConsumerGroupRequest : codec.

Lemma rt_Lease (v : ConsumerGroupMemberLease) : wf_ConsumerGroupMemberLease v -> rt (writeLease v) readLease v.
Proof.
  intros H. try unfold wf_ConsumerGroupMemberLease in H; codec_hyps;
  unfold writeLease, readLease, readLeaseTimingFields; cbn [for_range];
  repeat codec_step.
Qed.

#[export] Hint Resolve rt_Lease : codec.

Lemma rt_JoinConsumerGroupResponse (v : JoinConsumerGroupResponse) : wf_JoinConsumerGroupResponse v -> rt (encodeJoinConsumerGroupResponse_func1 v) decodeJoinConsumerGroupResponse_func1 v.
Proof.
  intros H. try unfold wf_JoinConsumerGroupResponse in H; codec_hyps;
  unfold encodeJoinConsumerGroupResponse_func1, decodeJoinConsumerGroupResponse_func1;
  repeat codec_step.
Qed.

#[export] Hint Resolve rt_JoinConsumerGroupResponse : codec.

Lemma rt_HeartbeatConsumerGroupRequest (v : HeartbeatConsumerGroupRequest) : wf_HeartbeatConsumerGroupRequest v -> rt (encodeHeartbeatConsumerGroupRequest_func1 v) decodeHeartbeatConsumerGroupRequest_func1 v.
Proof.
  intros H. try unfold wf_HeartbeatConsumerGroupRequest in H; codec_hyps;
  unfold encodeHeartbeatConsumerGroupRequest_func1, decodeHeartbeatConsumerGroupRequest_func1;
  repeat codec_step.
Qed.

#[export] Hint Resolve rt_HeartbeatConsumerGroupRequest : codec.

Lemma rt_HeartbeatConsumerGroupResponse (v : HeartbeatConsumerGroupResponse) : wf_HeartbeatConsumerGroupResponse v -> rt (encodeHeartbeatConsumerGroupResponse_func1 v) decodeHeartbeatConsumerGroupResponse_func1 v.
Proof.
  intros H. try unfold wf_HeartbeatConsumerGroupResponse in H; codec_hyps;
  unfold encodeHeartbeatConsumerGroupResponse_func1, decodeHeartbeatConsumerGroupResponse_func1;
  repeat codec_step.
Qed.

#[export] Hint Resolve rt_HeartbeatConsumerGroupResponse : codec.

Lemma rt_RebalanceConsumerGroupRequest (v : RebalanceConsumerGroupRequest) : wf_RebalanceConsumerGroupRequest v -> rt (encodeRebalanceConsumerGroupRequest_func1 v) decodeRebalanceConsumerGroupRequest_func1 v.
Proof.
  intros H. try unfold wf_RebalanceConsumerGroupRequest in H; codec_hyps;
  unfold encodeRebalanceConsumerGroupRequest_func1, decodeRebalanceConsumerGroupRequest_func1;
  repeat codec_step.
Qed.

#[export] Hint Resolve rt_RebalanceConsumerGroupRequest : codec.

Lemma rt_Assignment (v : ConsumerGroupAssignment) : wf_ConsumerGroupAssignment v -> rt (writeAssignment v) readAssignment v.
Proof.
  intros H. try unfold wf_ConsumerGroupAssignment in H; codec_hyps;
  unfold writeAssignment, readAssignment, readAssignmentItems, readAssignmentItem;
  repeat codec_step.
Qed.

#[export] Hint Resolve rt_Assignment : codec.

Lemma rt_RebalanceConsumerGroupResponse (v : RebalanceConsumerGroupResponse) : wf_RebalanceConsumerGroupResponse v -> rt (encodeRebalanceConsumerGroupResponse_func1 v) decodeRebalanceConsumerGroupResponse_func1 v.
Proof.
  intros H. try unfold wf_RebalanceConsumerGroupResponse in H; codec_hyps;
  unfold encodeRebalanceConsumerGroupResponse_func1, decodeRebalanceConsumerGroupResponse_func1;
  repeat codec_step.
Qed.

#[export] Hint Resolve rt_RebalanceConsumerGroupResponse : codec.

Lemma rt_GetConsumerGroupAssignmentRequest (v : GetConsumerGroupAssignmentRequest) : wf_GetConsumerGroupAssignmentRequest v -> rt (encodeGetConsumerGroupAssignmentRequest_func1 v) decodeGetConsumerGroupAssignmentRequest_func1 v.
Proof.
  intros H. try unfold wf_GetConsumerGroupAssignmentRequest in H; codec_hyps;
  unfold encodeGetConsumerGroupAssignmentRequest_func1, decodeGetConsumerGroupAssignmentRequest_func1;
  repeat codec_step.
Qed.

#[export] Hint Resolve rt_GetConsumerGroupAssignmentRequest : codec.

Lemma rt_GetConsumerGroupAssignmentResponse (v : GetConsumerGroupAssignmentResponse) : wf_GetConsumerGroupAssignmentResponse v -> rt (encodeGetConsumerGroupAssignmentResponse_func1 v) decodeGetConsumerGroupAssignmentResponse_func1 v.
Proof.
  intros H. try unfold wf_GetConsumerGroupAssignmentResponse in H; codec_hyps;
  unfold encodeGetConsumerGroupAssignmentResponse_func1, decodeGetConsumerGroupAssignmentResponse_func1;
  repeat codec_step.
Qed.

#[export] Hint Resolve rt_GetConsumerGroupAssignmentResponse : codec.

Lemma rt_FetchConsumerGroupRequest (v : FetchConsumerGroupRequest) : wf_FetchConsumerGroupRequest v -> rt (encodeFetchConsumerGroupRequest_func1 v) readFetchConsumerGroupRequest v.
Proof.
  intros H. try unfold wf_FetchConsumerGroupRequest in H; codec_hyps;
  unfold encodeFetchConsumerGroupRequest_func1, readFetchConsumerGroupRequest, readFetchConsumerGroupTail;
  repeat codec_step.
Qed.

#[export] Hint Resolve rt_FetchConsumerGroupRequest : codec.

Lemma rt_FetchConsumerGroupResponse (v : FetchConsumerGroupResponse) : wf_FetchConsumerGroupResponse v -> rt (encodeFetchConsumerGroupResponse_func1 v) readFetchConsumerGroupResponse v.
Proof.
  intros H. try unfold wf_FetchConsumerGroupResponse in H; codec_hyps;
  unfold encodeFetchConsumerGroupResponse_func1, readFetchConsumerGroupResponse, readFetchConsumerGroupResponseTail;
  repeat codec_step.
Qed.

#[export] Hint Resolve rt_FetchConsumerGroupResponse : codec.

Lemma rt_GroupOffset (v : groupOffsetFields) : wf_groupOffsetFields v -> rt (writeGroupOffset v) readGroupOffset v.
Proof.
  intros H. try unfold wf_groupOffsetFields in H; codec_hyps;
  unfold writeGroupOffset, readGroupOffset, readGroupOffsetTail;
  repeat codec_step.
Qed.

#[export] Hint Resolve rt_GroupOffset : codec.

Lemma rt_CommitConsumerGroupOffsetRequest (v : CommitConsumerGroupOffsetRequest) : wf_CommitConsumerGroupOffsetRequest v -> rt (encodeCommitConsumerGroupOffsetRequest_func1 v) decodeCommitConsumerGroupOffsetRequest_func1 v.
Proof.
  intros H. try unfold wf_CommitConsumerGroupOffsetRequest in H; codec_hyps;
  unfold encodeCommitConsumerGroupOffsetRequest_func1, decodeCommitConsumerGroupOffsetRequest_func1;
  repeat codec_step.
Qed.

#[export] Hint Resolve rt_CommitConsumerGroupOffsetRequest : codec.

Lemma rt_CommitConsumerGroupOffsetResponse (v : CommitConsumerGroupOffsetResponse) : wf_CommitConsumerGroupOffsetResponse v -> rt (encodeCommitConsumerGroupOffsetResponse_func1 v) decodeCommitConsumerGroupOffsetResponse_func1 v.
Proof.
  intros H. try unfold wf_CommitConsumerGroupOffsetResponse in H; codec_hyps;
  unfold encodeCommitConsumerGroupOffsetResponse_func1, decodeCommitConsumerGroupOffsetResponse_func1;
  repeat codec_step.
Qed.

#[export] Hint Resolve rt_CommitConsumerGroupOffsetResponse : codec.

Lemma rt_FetchConsumerGroupBatchRequest (v : FetchConsumerGroupBatchRequest) : wf_FetchConsumerGroupBatchRequest v -> rt (encodeFetchConsumerGroupBatchRequest_func1 v) readFetchConsumerGroupBatchRequest v.
Proof.
  intros H. try unfold wf_FetchConsumerGroupBatchRequest in H; codec_hyps;
  unfold encodeFetchConsumerGroupBatchRequest_func1, readFetchConsumerGroupBatchRequest;
  repeat codec_step.
Qed.

#[export] Hint Resolve rt_FetchConsumerGroupBatchRequest : codec.

Lemma rt_ConsumerGroupBatchItem (v : FetchConsumerGroupBatchItemResponse) : wf_FetchConsumerGroupBatchItemResponse v -> rt (writeConsumerGroupBatchItem v) readConsumerGroupBatchItem v.
Proof.
  intros H. try unfold wf_FetchConsumerGroupBatchItemResponse in H; codec_hyps;
  unfold writeConsumerGroupBatchItem, readConsumerGroupBatchItem;
  repeat codec_step.
Qed.

#[export] Hint Resolve rt_ConsumerGroupBatchItem : codec.

Lemma rt_ConsumerGroupBatchItems (v : list FetchConsumerGroupBatchItemResponse) : (fits_list32 wf_FetchConsumerGroupBatchItemResponse) v -> rt (writeConsumerGroupBatchItems v) readConsumerGroupBatchItems v.
Proof.
  intros H. codec_hyps;
  unfold writeConsumerGroupBatchItems, readConsumerGroupBatchItems;
  repeat codec_step.
Qed.

#[export] Hint Resolve rt_ConsumerGroupBatchItems : codec.

Lemma rt_FetchConsumerGroupBatchResponse (v : FetchConsumerGroupBatchResponse) : wf_FetchConsumerGroupBatchResponse v -> rt (writeFetchConsumerGroupBatchResponse v) readFetchConsumerGroupBatchResponse v.
Proof.
  intros H. try unfold wf_FetchConsumerGroupBatchResponse in H; codec_hyps;
  unfold writeFetchConsumerGroupBatchResponse, readFetchConsumerGroupBatchResponse;
  repeat codec_step.
Qed.

#[export] Hint Resolve rt_FetchConsumerGroupBatchResponse : codec.

Lemma rt_TxBeginRequest (v : TxBeginRequest) : wf_TxBeginRequest v -> rt (encodeTxBeginRequest_func1 v) decodeTxBeginRequest_func1 v.
Proof.
  intros H. try unfold wf_TxBeginRequest in H; codec_hyps;
  unfold encodeTxBeginRequest_func1, decodeTxBeginRequest_func1;
  repeat codec_step.
Qed.

#[export] Hint Resolve rt_TxBeginRequest : codec.

Lemma rt_TransactionIdentity (v : TransactionIdentity) : wf_TransactionIdentity v -> rt (writeTransactionIdentity v) readTransactionIdentity v.
Proof.
  intros H. try unfold wf_TransactionIdentity in H; codec_hyps;
  unfold writeTransactionIdentity, readTransactionIdentity;
  repeat codec_step.
Qed.

#[export] Hint Resolve rt_TransactionIdentity : codec.

Lemma rt_TxBeginResponse (v : TxBeginResponse) : wf_TxBeginResponse v -> rt (encodeTxBeginResponse_func1 v) decodeTxBeginResponse_func1 v.
Proof.
  intros H. try unfold wf_TxBeginResponse in H; codec_hyps;
  unfold encodeTxBeginResponse_func1, decodeTxBeginResponse_func1;
  repeat codec_step.
Qed.

#[export] Hint Resolve rt_TxBeginResponse : codec.

Lemma rt_TxPublishRequest (v : TxPublishRequest) : wf_TxPublishRequest v -> rt (writeTxPublishRequest v) readTxPublishRequest v.
Proof.
  intros H. try unfold wf_TxPublishRequest in H; codec_hyps;
  unfold writeTxPublishRequest, readTxPublishRequest, readTxPublishRequestTail;
  repeat codec_step.
Qed.

#[export] Hint Resolve rt_TxPublishRequest : codec.

Lemma rt_TxPublishResponse (v : TxPublishResponse) : wf_TxPublishResponse v -> rt (encodeTxPublishResponse_func1 v) decodeTxPublishResponse_func1 v.
Proof.
  intros H. try unfold wf_TxPublishResponse in H; codec_hyps;
  unfold encodeTxPublishResponse_func1, decodeTxPublishResponse_func1;
  repeat codec_step.
Qed.

#[export] Hint Resolve rt_TxPublishResponse : codec.

Lemma rt_TxPublishBatchRequest (v : TxPublishBatchRequest) : wf_TxPublishBatchRequest v -> rt (encodeTxPublishBatchRequest_func1 v) decodeTxPublishBatchRequest_func1 v.
Proof.
  intros H. try unfold wf_TxPublishBatchRequest in H; codec_hyps;
  unfold encodeTxPublishBatchRequest_func1, decodeTxPublishBatchRequest_func1;
  repeat codec_step.
Qed.

#[export] Hint Resolve rt_TxPublishBatchRequest : codec.

Lemma rt_TxPublishBatchResponse (v : TxPublishBatchResponse) : wf_TxPublishBatchResponse v -> rt (encodeTxPublishBatchResponse_func1 v) readTxPublishBatchResponse v.
Proof.
  intros H. try unfold wf_TxPublishBatchResponse in H; codec_hyps;
  unfold encodeTxPublishBatchResponse_func1, readTxPublishBatchResponse, readTxPublishBatchResponseTail;
  repeat codec_step.
Qed.

#[export] Hint Resolve rt_TxPublishBatchResponse : codec.

Lemma rt_TxCommitOffsetRequest (v : TxCommitOffsetRequest) : wf_TxCommitOffsetRequest v -> rt (encodeTxCommitOffsetRequest_func1 v) decodeTxCommitOffsetRequest_func1 v.
Proof.
  intros H. try unfold wf_TxCommitOffsetRequest in H; codec_hyps;
  unfold encodeTxCommitOffsetRequest_func1, decodeTxCommitOffsetRequest_func1, readTxCommitOffsetFields, writeTxCommitOffsetFields;
  repeat codec_step.
Qed.

#[export] Hint Resolve rt_TxCommitOffsetRequest : codec.

Lemma rt_TxCommitOffsetResponse (v : TxCommitOffsetResponse) : wf_TxCommitOffsetResponse v -> rt (encodeTxCommitOffsetResponse_func1 v) decodeTxCommitOffsetResponse_func1 v.
Proof.
  intros H. try unfold wf_TxCommitOffsetResponse in H; codec_hyps;
  unfold encodeTxCommitOffsetResponse_func1, decodeTxCommitOffsetResponse_func1, readTxCommitOffsetResponseTail;
  repeat codec_step.
Qed.

#[export] Hint Resolve rt_TxCommitOffsetResponse : codec.

Lemma rt_TxCommitRequest (v : TxCommitRequest) : wf_TxCommitRequest v -> rt (encodeTxCommitRequest_func1 v) decodeTxCommitRequest_func1 v.
Proof.
  intros H. try unfold wf_TxCommitRequest in H; codec_hyps;
  unfold encodeTxCommitRequest_func1, decodeTxCommitRequest_func1;
  repeat codec_step.
Qed.

#[export] Hint Resolve rt_TxCommitRequest : codec.

Lemma rt_TxCommitResponse (v : TxCommitResponse) : wf_TxCommitResponse v -> rt (encodeTxCommitResponse_func1 v) decodeTxCommitResponse_func1 v.
Proof.
  intros H. try unfold wf_TxCommitResponse in H; codec_hyps;
  unfold encodeTxCommitResponse_func1, decodeTxCommitResponse_func1;
  repeat codec_step.
Qed.

#[export] Hint Resolve rt_TxCommitResponse : codec.

Lemma rt_TxAbortRequest (v : TxAbortRequest) : wf_TxAbortRequest v -> rt (encodeTxAbortRequest_func1 v) decodeTxAbortRequest_func1 v.
Proof.
  intros H. try unfold wf_TxAbortRequest in H; codec_hyps;
  unfold encodeTxAbortRequest_func1, decodeTxAbortRequest_func1;
  repeat codec_step.
Qed.

#[export] Hint Resolve rt_TxAbortRequest : codec.

Lemma rt_TxAbortResponse (v : TxAbortResponse) : wf_TxAbortResponse v -> rt (encodeTxAbortResponse_func1 v) decodeTxAbortResponse_func1 v.
Proof.
  intros H. try unfold wf_TxAbortResponse in H; codec_hyps;
  unfold encodeTxAbortResponse_func1, decodeTxAbortResponse_func1;
  repeat codec_step.
Qed.

#[export] Hint Resolve rt_TxAbortResponse : codec.

