(* ===== verification/CodecPrefix.v ===== *)
(** * Wire protocol: message readers ignore what follows

    [extends] for every reader of the message codecs: a reader that succeeds
    on some input succeeds with the same value on every extension of it. *)

From stdpp Require Import prelude strings list.
From S2P Require Import Prelude Wire WireSpec Messages CodecsTopic CodecsFetch CodecsGroup.

Lemma extends_readHeaders : extends readHeaders.
Proof. unfold readHeaders. repeat extends_step. Qed.
#[export] Hint Resolve extends_readHeaders : codec.

Lemma extends_readStringSlice : extends readStringSlice.
Proof. unfold readStringSlice. repeat extends_step. Qed.
#[export] Hint Resolve extends_readStringSlice : codec.

Lemma extends_readTopicPriorityPolicy : extends readTopicPriorityPolicy.
Proof. unfold readTopicPriorityPolicy. repeat extends_step. Qed.
#[export] Hint Resolve extends_readTopicPriorityPolicy : codec.

Lemma extends_readOptionalRetryPolicy : extends readOptionalRetryPolicy.
Proof. unfold readOptionalRetryPolicy. repeat extends_step. Qed.
#[export] Hint Resolve extends_readOptionalRetryPolicy : codec.

Lemma extends_readCreateTopicRemainingOptions req : extends (readCreateTopicRemainingOptions req).
Proof. unfold readCreateTopicRemainingOptions. repeat extends_step. Qed.
#[export] Hint Resolve extends_readCreateTopicRemainingOptions : codec.

Lemma extends_readCreateTopicOptions req : extends (readCreateTopicOptions req).
Proof. unfold readCreateTopicOptions. repeat extends_step. Qed.
#[export] Hint Resolve extends_readCreateTopicOptions : codec.

Lemma extends_readCreateTopicRequest : extends readCreateTopicRequest.
Proof. unfold readCreateTopicRequest. repeat extends_step. Qed.
#[export] Hint Resolve extends_readCreateTopicRequest : codec.

Lemma extends_decodeCreateTopicResponse_func1 : extends decodeCreateTopicResponse_func1.
Proof. unfold decodeCreateTopicResponse_func1. repeat extends_step. Qed.
#[export] Hint Resolve extends_decodeCreateTopicResponse_func1 : codec.

Lemma extends_decodeListTopicsRequest_func1 : extends decodeListTopicsRequest_func1.
Proof. unfold decodeListTopicsRequest_func1. repeat extends_step. Qed.
#[export] Hint Resolve extends_decodeListTopicsRequest_func1 : codec.

Lemma extends_readListTopicsResponse : extends readListTopicsResponse.
Proof. unfold readListTopicsResponse. repeat extends_step. Qed.
#[export] Hint Resolve extends_readListTopicsResponse : codec.

Lemma extends_decodeErrorResponse_func1 : extends decodeErrorResponse_func1.
Proof. unfold decodeErrorResponse_func1. repeat extends_step. Qed.
#[export] Hint Resolve extends_decodeErrorResponse_func1 : codec.

Lemma extends_readProduceIdempotency : extends readProduceIdempotency.
Proof. unfold readProduceIdempotency. repeat extends_step. Qed.
#[export] Hint Resolve extends_readProduceIdempotency : codec.

Lemma extends_readProduceRequestTail req : extends (readProduceRequestTail req).
Proof. unfold readProduceRequestTail. repeat extends_step. Qed.
#[export] Hint Resolve extends_readProduceRequestTail : codec.

Lemma extends_readProduceRequest : extends readProduceRequest.
Proof. unfold readProduceRequest. repeat extends_step. Qed.
#[export] Hint Resolve extends_readProduceRequest : codec.

Lemma extends_decodeProduceResponse_func1 : extends decodeProduceResponse_func1.
Proof. unfold decodeProduceResponse_func1. repeat extends_step. Qed.
#[export] Hint Resolve extends_decodeProduceResponse_func1 : codec.

Lemma extends_readBatchRecord : extends readBatchRecord.
Proof. unfold readBatchRecord. repeat extends_step. Qed.
#[export] Hint Resolve extends_readBatchRecord : codec.

Lemma extends_readBatchRecords : extends readBatchRecords.
Proof. unfold readBatchRecords. repeat extends_step. Qed.
#[export] Hint Resolve extends_readBatchRecords : codec.

Lemma extends_readPayloads : extends readPayloads.
Proof. unfold readPayloads. repeat extends_step. Qed.
#[export] Hint Resolve extends_readPayloads : codec.

Lemma extends_readProduceBatchRequest : extends readProduceBatchRequest.
Proof. unfold readProduceBatchRequest. repeat extends_step. Qed.
#[export] Hint Resolve extends_readProduceBatchRequest : codec.

Lemma extends_readProduceBatchResponse : extends readProduceBatchResponse.
Proof. unfold readProduceBatchResponse. repeat extends_step. Qed.
#[export] Hint Resolve extends_readProduceBatchResponse : codec.

Lemma extends_readProduceBatchesItemRequest : extends readProduceBatchesItemRequest.
Proof. unfold readProduceBatchesItemRequest. repeat extends_step. Qed.
#[export] Hint Resolve extends_readProduceBatchesItemRequest : codec.

Lemma extends_readProduceBatchesRequest : extends readProduceBatchesRequest.
Proof. unfold readProduceBatchesRequest. repeat extends_step. Qed.
#[export] Hint Resolve extends_readProduceBatchesRequest : codec.

Lemma extends_readProduceBatchesItemResponse : extends readProduceBatchesItemResponse.
Proof. unfold readProduceBatchesItemResponse. repeat extends_step. Qed.
#[export] Hint Resolve extends_readProduceBatchesItemResponse : codec.

Lemma extends_readProduceBatchesResponse : extends readProduceBatchesResponse.
Proof. unfold readProduceBatchesResponse. repeat extends_step. Qed.
#[export] Hint Resolve extends_readProduceBatchesResponse : codec.

Lemma extends_readProduceFanoutRequest : extends readProduceFanoutRequest.
Proof. unfold readProduceFanoutRequest. repeat extends_step. Qed.
#[export] Hint Resolve extends_readProduceFanoutRequest : codec.

Lemma extends_readProduceFanoutRecordResponse : extends readProduceFanoutRecordResponse.
Proof. unfold readProduceFanoutRecordResponse. repeat extends_step. Qed.
#[export] Hint Resolve extends_readProduceFanoutRecordResponse : codec.

Lemma extends_readProduceFanoutResponse : extends readProduceFanoutResponse.
Proof. unfold readProduceFanoutResponse. repeat extends_step. Qed.
#[export] Hint Resolve extends_readProduceFanoutResponse : codec.

Lemma extends_decodeHandshakeRequest_func1 : extends decodeHandshakeRequest_func1.
Proof. unfold decodeHandshakeRequest_func1. repeat extends_step. Qed.
#[export] Hint Resolve extends_decodeHandshakeRequest_func1 : codec.

Lemma extends_decodeHandshakeResponse_func1 : extends decodeHandshakeResponse_func1.
Proof. unfold decodeHandshakeResponse_func1. repeat extends_step. Qed.
#[export] Hint Resolve extends_decodeHandshakeResponse_func1 : codec.

Lemma extends_decodePingRequest_func1 : extends decodePingRequest_func1.
Proof. unfold decodePingRequest_func1. repeat extends_step. Qed.
#[export] Hint Resolve extends_decodePingRequest_func1 : codec.

Lemma extends_decodePingResponse_func1 : extends decodePingResponse_func1.
Proof. unfold decodePingResponse_func1. repeat extends_step. Qed.
#[export] Hint Resolve extends_decodePingResponse_func1 : codec.

Lemma extends_decodeProcessRetryRequest_func1 : extends decodeProcessRetryRequest_func1.
Proof. unfold decodeProcessRetryRequest_func1. repeat extends_step. Qed.
#[export] Hint Resolve extends_decodeProcessRetryRequest_func1 : codec.

Lemma extends_readProcessRetryResponse : extends readProcessRetryResponse.
Proof. unfold readProcessRetryResponse. repeat extends_step. Qed.
#[export] Hint Resolve extends_readProcessRetryResponse : codec.

Lemma extends_decodeScheduleDelayRequest_func1 : extends decodeScheduleDelayRequest_func1.
Proof. unfold decodeScheduleDelayRequest_func1. repeat extends_step. Qed.
#[export] Hint Resolve extends_decodeScheduleDelayRequest_func1 : codec.

Lemma extends_decodeScheduleDelayResponse_func1 : extends decodeScheduleDelayResponse_func1.
Proof. unfold decodeScheduleDelayResponse_func1. repeat extends_step. Qed.
#[export] Hint Resolve extends_decodeScheduleDelayResponse_func1 : codec.

Lemma extends_readCommitOffsetRequest : extends readCommitOffsetRequest.
Proof. unfold readCommitOffsetRequest. repeat extends_step. Qed.
#[export] Hint Resolve extends_readCommitOffsetRequest : codec.

Lemma extends_decodeCommitOffsetResponse_func1 : extends decodeCommitOffsetResponse_func1.
Proof. unfold decodeCommitOffsetResponse_func1. repeat extends_step. Qed.
#[export] Hint Resolve extends_decodeCommitOffsetResponse_func1 : codec.

Lemma extends_decodeNackRequest_func1 : extends decodeNackRequest_func1.
Proof. unfold decodeNackRequest_func1. repeat extends_step. Qed.
#[export] Hint Resolve extends_decodeNackRequest_func1 : codec.

Lemma extends_decodeNackResponse_func1 : extends decodeNackResponse_func1.
Proof. unfold decodeNackResponse_func1. repeat extends_step. Qed.
#[export] Hint Resolve extends_decodeNackResponse_func1 : codec.

Lemma extends_readFetchWatermarks : extends readFetchWatermarks.
Proof. unfold readFetchWatermarks. repeat extends_step. Qed.
#[export] Hint Resolve extends_readFetchWatermarks : codec.

Lemma extends_readFetchRequest : extends readFetchRequest.
Proof. unfold readFetchRequest. repeat extends_step. Qed.
#[export] Hint Resolve extends_readFetchRequest : codec.

Lemma extends_readOptionalTransactionRecordMetadata : extends readOptionalTransactionRecordMetadata.
Proof. unfold readOptionalTransactionRecordMetadata. repeat extends_step. Qed.
#[export] Hint Resolve extends_readOptionalTransactionRecordMetadata : codec.

Lemma extends_readFetchRecord : extends readFetchRecord.
Proof. unfold readFetchRecord. repeat extends_step. Qed.
#[export] Hint Resolve extends_readFetchRecord : codec.

Lemma extends_readFetchRecords : extends readFetchRecords.
Proof. unfold readFetchRecords. repeat extends_step. Qed.
#[export] Hint Resolve extends_readFetchRecords : codec.

Lemma extends_readFetchResponse : extends readFetchResponse.
Proof. unfold readFetchResponse. repeat extends_step. Qed.
#[export] Hint Resolve extends_readFetchResponse : codec.

Lemma extends_readFetchBatchItem : extends readFetchBatchItem.
Proof. unfold readFetchBatchItem. repeat extends_step. Qed.
#[export] Hint Resolve extends_readFetchBatchItem : codec.

Lemma extends_readFetchBatchItems : extends readFetchBatchItems.
Proof. unfold readFetchBatchItems. repeat extends_step. Qed.
#[export] Hint Resolve extends_readFetchBatchItems : codec.

Lemma extends_readFetchBatchRequest : extends readFetchBatchRequest.
Proof. unfold readFetchBatchRequest. repeat extends_step. Qed.
#[export] Hint Resolve extends_readFetchBatchRequest : codec.

Lemma extends_readFetchBatchItemResponse : extends readFetchBatchItemResponse.
Proof. unfold readFetchBatchItemResponse. repeat extends_step. Qed.
#[export] Hint Resolve extends_readFetchBatchItemResponse : codec.

Lemma extends_readFetchBatchResponse : extends readFetchBatchResponse.
Proof. unfold readFetchBatchResponse. repeat extends_step. Qed.
#[export] Hint Resolve extends_readFetchBatchResponse : codec.

Lemma extends_readFetchSubjectPatternRequest : extends readFetchSubjectPatternRequest.
Proof. unfold readFetchSubjectPatternRequest. repeat extends_step. Qed.
#[export] Hint Resolve extends_readFetchSubjectPatternRequest : codec.

Lemma extends_readFetchSubjectPatternResponse : extends readFetchSubjectPatternResponse.
Proof. unfold readFetchSubjectPatternResponse. repeat extends_step. Qed.
#[export] Hint Resolve extends_readFetchSubjectPatternResponse : codec.

Lemma extends_decodeSendDirectRequest_func1 : extends decodeSendDirectRequest_func1.
Proof. unfold decodeSendDirectRequest_func1. repeat extends_step. Qed.
#[export] Hint Resolve extends_decodeSendDirectRequest_func1 : codec.

Lemma extends_readSendDirectResponse : extends readSendDirectResponse.
Proof. unfold readSendDirectResponse. repeat extends_step. Qed.
#[export] Hint Resolve extends_readSendDirectResponse : codec.

Lemma extends_decodeFetchInboxRequest_func1 : extends decodeFetchInboxRequest_func1.
Proof. unfold decodeFetchInboxRequest_func1. repeat extends_step. Qed.
#[export] Hint Resolve extends_decodeFetchInboxRequest_func1 : codec.

Lemma extends_readDirectMessageRecordStrings record : extends (readDirectMessageRecordStrings record).
Proof. unfold readDirectMessageRecordStrings. repeat extends_step. Qed.
#[export] Hint Resolve extends_readDirectMessageRecordStrings : codec.

Lemma extends_readDirectMessageRecord : extends readDirectMessageRecord.
Proof. unfold readDirectMessageRecord. repeat extends_step. Qed.
#[export] Hint Resolve extends_readDirectMessageRecord : codec.

Lemma extends_readDirectMessageRecords : extends readDirectMessageRecords.
Proof. unfold readDirectMessageRecords. repeat extends_step. Qed.
#[export] Hint Resolve extends_readDirectMessageRecords : codec.

Lemma extends_readFetchInboxResponse : extends readFetchInboxResponse.
Proof. unfold readFetchInboxResponse. repeat extends_step. Qed.
#[export] Hint Resolve extends_readFetchInboxResponse : codec.

Lemma extends_decodeAckDirectRequest_func1 : extends decodeAckDirectRequest_func1.
Proof. unfold decodeAckDirectRequest_func1. repeat extends_step. Qed.
#[export] Hint Resolve extends_decodeAckDirectRequest_func1 : codec.

Lemma extends_decodeAckDirectResponse_func1 : extends decodeAckDirectResponse_func1.
Proof. unfold decodeAckDirectResponse_func1. repeat extends_step. Qed.
#[export] Hint Resolve extends_decodeAckDirectResponse_func1 : codec.

Lemma extends_readStartRequestRequestTail req : extends (readStartRequestRequestTail req).
Proof. unfold readStartRequestRequestTail. repeat extends_step. Qed.
#[export] Hint Resolve extends_readStartRequestRequestTail : codec.

Lemma extends_readStartRequestRequest : extends readStartRequestRequest.
Proof. unfold readStartRequestRequest. repeat extends_step. Qed.
#[export] Hint Resolve extends_readStartRequestRequest : codec.

Lemma extends_readStartRequestResponseTail resp : extends (readStartRequestResponseTail resp).
Proof. unfold readStartRequestResponseTail. repeat extends_step. Qed.
#[export] Hint Resolve extends_readStartRequestResponseTail : codec.

Lemma extends_readStartRequestResponse : extends readStartRequestResponse.
Proof. unfold readStartRequestResponse. repeat extends_step. Qed.
#[export] Hint Resolve extends_readStartRequestResponse : codec.

Lemma extends_decodeFetchRequestsRequest_func1 : extends decodeFetchRequestsRequest_func1.
Proof. unfold decodeFetchRequestsRequest_func1. repeat extends_step. Qed.
#[export] Hint Resolve extends_decodeFetchRequestsRequest_func1 : codec.

Lemma extends_readRequestRecordTail record : extends (readRequestRecordTail record).
Proof. unfold readRequestRecordTail. repeat extends_step. Qed.
#[export] Hint Resolve extends_readRequestRecordTail : codec.

Lemma extends_readRequestRecord : extends readRequestRecord.
Proof. unfold readRequestRecord. repeat extends_step. Qed.
#[export] Hint Resolve extends_readRequestRecord : codec.

Lemma extends_readRequestRecords : extends readRequestRecords.
Proof. unfold readRequestRecords. repeat extends_step. Qed.
#[export] Hint Resolve extends_readRequestRecords : codec.

Lemma extends_readFetchRequestsResponse : extends readFetchRequestsResponse.
Proof. unfold readFetchRequestsResponse. repeat extends_step. Qed.
#[export] Hint Resolve extends_readFetchRequestsResponse : codec.

Lemma extends_readReplyRouting : extends readReplyRouting.
Proof. unfold readReplyRouting. repeat extends_step. Qed.
#[export] Hint Resolve extends_readReplyRouting : codec.

Lemma extends_readReplyFields : extends readReplyFields.
Proof. unfold readReplyFields. repeat extends_step. Qed.
#[export] Hint Resolve extends_readReplyFields : codec.

Lemma extends_decodeReplyRequest_func1 : extends decodeReplyRequest_func1.
Proof. unfold decodeReplyRequest_func1. repeat extends_step. Qed.
#[export] Hint Resolve extends_decodeReplyRequest_func1 : codec.

Lemma extends_decodeReplyResponse_func1 : extends decodeReplyResponse_func1.
Proof. unfold decodeReplyResponse_func1. repeat extends_step. Qed.
#[export] Hint Resolve extends_decodeReplyResponse_func1 : codec.

Lemma extends_decodeReplyErrorRequest_func1 : extends decodeReplyErrorRequest_func1.
Proof. unfold decodeReplyErrorRequest_func1. repeat extends_step. Qed.
#[export] Hint Resolve extends_decodeReplyErrorRequest_func1 : codec.

Lemma extends_readAwaitReplyRequest : extends readAwaitReplyRequest.
Proof. unfold readAwaitReplyRequest. repeat extends_step. Qed.
#[export] Hint Resolve extends_readAwaitReplyRequest : codec.

Lemma extends_readReplyRecordTail record : extends (readReplyRecordTail record).
Proof. unfold readReplyRecordTail. repeat extends_step. Qed.
#[export] Hint Resolve extends_readReplyRecordTail : codec.

Lemma extends_readReplyRecord : extends readReplyRecord.
Proof. unfold readReplyRecord. repeat extends_step. Qed.
#[export] Hint Resolve extends_readReplyRecord : codec.

Lemma extends_decodeAwaitReplyResponse_func1 : extends decodeAwaitReplyResponse_func1.
Proof. unfold decodeAwaitReplyResponse_func1. repeat extends_step. Qed.
#[export] Hint Resolve extends_decodeAwaitReplyResponse_func1 : codec.

Lemma extends_decodeAwaitRepliesRequest_func1 : extends decodeAwaitRepliesRequest_func1.
Proof. unfold decodeAwaitRepliesRequest_func1. repeat extends_step. Qed.
#[export] Hint Resolve extends_decodeAwaitRepliesRequest_func1 : codec.

Lemma extends_readReplyRecords : extends readReplyRecords.
Proof. unfold readReplyRecords. repeat extends_step. Qed.
#[export] Hint Resolve extends_readReplyRecords : codec.

Lemma extends_decodeAwaitRepliesResponse_func1 : extends decodeAwaitRepliesResponse_func1.
Proof. unfold decodeAwaitRepliesResponse_func1. repeat extends_step. Qed.
#[export] Hint Resolve extends_decodeAwaitRepliesResponse_func1 : codec.

Lemma extends_readLeaseTimingFields : extends readLeaseTimingFields.
Proof. unfold readLeaseTimingFields. repeat extends_step. Qed.
#[export] Hint Resolve extends_readLeaseTimingFields : codec.

Lemma extends_decodeJoinConsumerGroupRequest_func1 : extends decodeJoinConsumerGroupRequest_func1.
Proof. unfold decodeJoinConsumerGroupRequest_func1. repeat extends_step. Qed.
#[export] Hint Resolve extends_decodeJoinConsumerGroupRequest_func1 : codec.

Lemma extends_readLease : extends readLease.
Proof. unfold readLease. repeat extends_step. Qed.
#[export] Hint Resolve extends_readLease : codec.

Lemma extends_decodeJoinConsumerGroupResponse_func1 : extends decodeJoinConsumerGroupResponse_func1.
Proof. unfold decodeJoinConsumerGroupResponse_func1. repeat extends_step. Qed.
#[export] Hint Resolve extends_decodeJoinConsumerGroupResponse_func1 : codec.

Lemma extends_decodeHeartbeatConsumerGroupRequest_func1 : extends decodeHeartbeatConsumerGroupRequest_func1.
Proof. unfold decodeHeartbeatConsumerGroupRequest_func1. repeat extends_step. Qed.
#[export] Hint Resolve extends_decodeHeartbeatConsumerGroupRequest_func1 : codec.

Lemma extends_decodeHeartbeatConsumerGroupResponse_func1 : extends decodeHeartbeatConsumerGroupResponse_func1.
Proof. unfold decodeHeartbeatConsumerGroupResponse_func1. repeat extends_step. Qed.
#[export] Hint Resolve extends_decodeHeartbeatConsumerGroupResponse_func1 : codec.

Lemma extends_decodeRebalanceConsumerGroupRequest_func1 : extends decodeRebalanceConsumerGroupRequest_func1.
Proof. unfold decodeRebalanceConsumerGroupRequest_func1. repeat extends_step. Qed.
#[export] Hint Resolve extends_decodeRebalanceConsumerGroupRequest_func1 : codec.

Lemma extends_readAssignmentItem : extends readAssignmentItem.
Proof. unfold readAssignmentItem. repeat extends_step. Qed.
#[export] Hint Resolve extends_readAssignmentItem : codec.

Lemma extends_readAssignmentItems : extends readAssignmentItems.
Proof. unfold readAssignmentItems. repeat extends_step. Qed.
#[export] Hint Resolve extends_readAssignmentItems : codec.

Lemma extends_readAssignment : extends readAssignment.
Proof. unfold readAssignment. repeat extends_step. Qed.
#[export] Hint Resolve extends_readAssignment : codec.

Lemma extends_decodeRebalanceConsumerGroupResponse_func1 : extends decodeRebalanceConsumerGroupResponse_func1.
Proof. unfold decodeRebalanceConsumerGroupResponse_func1. repeat extends_step. Qed.
#[export] Hint Resolve extends_decodeRebalanceConsumerGroupResponse_func1 : codec.

Lemma extends_decodeGetConsumerGroupAssignmentRequest_func1 : extends decodeGetConsumerGroupAssignmentRequest_func1.
Proof. unfold decodeGetConsumerGroupAssignmentRequest_func1. repeat extends_step. Qed.
#[export] Hint Resolve extends_decodeGetConsumerGroupAssignmentRequest_func1 : codec.

Lemma extends_decodeGetConsumerGroupAssignmentResponse_func1 : extends decodeGetConsumerGroupAssignmentResponse_func1.
Proof. unfold decodeGetConsumerGroupAssignmentResponse_func1. repeat extends_step. Qed.
#[export] Hint Resolve extends_decodeGetConsumerGroupAssignmentResponse_func1 : codec.

Lemma extends_readFetchConsumerGroupTail req : extends (readFetchConsumerGroupTail req).
Proof. unfold readFetchConsumerGroupTail. repeat extends_step. Qed.
#[export] Hint Resolve extends_readFetchConsumerGroupTail : codec.

Lemma extends_readFetchConsumerGroupRequest : extends readFetchConsumerGroupRequest.
Proof. unfold readFetchConsumerGroupRequest. repeat extends_step. Qed.
#[export] Hint Resolve extends_readFetchConsumerGroupRequest : codec.

Lemma extends_readFetchConsumerGroupResponseTail resp : extends (readFetchConsumerGroupResponseTail resp).
Proof. unfold readFetchConsumerGroupResponseTail. repeat extends_step. Qed.
#[export] Hint Resolve extends_readFetchConsumerGroupResponseTail : codec.

Lemma extends_readFetchConsumerGroupResponse : extends readFetchConsumerGroupResponse.
Proof. unfold readFetchConsumerGroupResponse. repeat extends_step. Qed.
#[export] Hint Resolve extends_readFetchConsumerGroupResponse : codec.

Lemma extends_readGroupOffsetTail fields : extends (readGroupOffsetTail fields).
Proof. unfold readGroupOffsetTail. repeat extends_step. Qed.
#[export] Hint Resolve extends_readGroupOffsetTail : codec.

Lemma extends_readGroupOffset : extends readGroupOffset.
Proof. unfold readGroupOffset. repeat extends_step. Qed.
#[export] Hint Resolve extends_readGroupOffset : codec.

Lemma extends_decodeCommitConsumerGroupOffsetRequest_func1 : extends decodeCommitConsumerGroupOffsetRequest_func1.
Proof. unfold decodeCommitConsumerGroupOffsetRequest_func1. repeat extends_step. Qed.
#[export] Hint Resolve extends_decodeCommitConsumerGroupOffsetRequest_func1 : codec.

Lemma extends_decodeCommitConsumerGroupOffsetResponse_func1 : extends decodeCommitConsumerGroupOffsetResponse_func1.
Proof. unfold decodeCommitConsumerGroupOffsetResponse_func1. repeat extends_step. Qed.
#[export] Hint Resolve extends_decodeCommitConsumerGroupOffsetResponse_func1 : codec.

Lemma extends_readFetchConsumerGroupBatchRequest : extends readFetchConsumerGroupBatchRequest.
Proof. unfold readFetchConsumerGroupBatchRequest. repeat extends_step. Qed.
#[export] Hint Resolve extends_readFetchConsumerGroupBatchRequest : codec.

Lemma extends_readConsumerGroupBatchItem : extends readConsumerGroupBatchItem.
Proof. unfold readConsumerGroupBatchItem. repeat extends_step. Qed.
#[export] Hint Resolve extends_readConsumerGroupBatchItem : codec.

Lemma extends_readConsumerGroupBatchItems : extends readConsumerGroupBatchItems.
Proof. unfold readConsumerGroupBatchItems. repeat extends_step. Qed.
#[export] Hint Resolve extends_readConsumerGroupBatchItems : codec.

Lemma extends_readFetchConsumerGroupBatchResponse : extends readFetchConsumerGroupBatchResponse.
Proof. unfold readFetchConsumerGroupBatchResponse. repeat extends_step. Qed.
#[export] Hint Resolve extends_readFetchConsumerGroupBatchResponse : codec.

Lemma extends_decodeTxBeginRequest_func1 : extends decodeTxBeginRequest_func1.
Proof. unfold decodeTxBeginRequest_func1. repeat extends_step. Qed.
#[export] Hint Resolve extends_decodeTxBeginRequest_func1 : codec.

Lemma extends_readTransactionIdentity : extends readTransactionIdentity.
Proof. unfold readTransactionIdentity. repeat extends_step. Qed.
#[export] Hint Resolve extends_readTransactionIdentity : codec.

Lemma extends_decodeTxBeginResponse_func1 : extends decodeTxBeginResponse_func1.
Proof. unfold decodeTxBeginResponse_func1. repeat extends_step. Qed.
#[export] Hint Resolve extends_decodeTxBeginResponse_func1 : codec.

Lemma extends_readTxPublishRequestTail req : extends (readTxPublishRequestTail req).
Proof. unfold readTxPublishRequestTail. repeat extends_step. Qed.
#[export] Hint Resolve extends_readTxPublishRequestTail : codec.

Lemma extends_readTxPublishRequest : extends readTxPublishRequest.
Proof. unfold readTxPublishRequest. repeat extends_step. Qed.
#[export] Hint Resolve extends_readTxPublishRequest : codec.

Lemma extends_decodeTxPublishResponse_func1 : extends decodeTxPublishResponse_func1.
Proof. unfold decodeTxPublishResponse_func1. repeat extends_step. Qed.
#[export] Hint Resolve extends_decodeTxPublishResponse_func1 : codec.

Lemma extends_decodeTxPublishBatchRequest_func1 : extends decodeTxPublishBatchRequest_func1.
Proof. unfold decodeTxPublishBatchRequest_func1. repeat extends_step. Qed.
#[export] Hint Resolve extends_decodeTxPublishBatchRequest_func1 : codec.

Lemma extends_readTxPublishBatchResponseTail resp : extends (readTxPublishBatchResponseTail resp).
Proof. unfold readTxPublishBatchResponseTail. repeat extends_step. Qed.
#[export] Hint Resolve extends_readTxPublishBatchResponseTail : codec.

Lemma extends_readTxPublishBatchResponse : extends readTxPublishBatchResponse.
Proof. unfold readTxPublishBatchResponse. repeat extends_step. Qed.
#[export] Hint Resolve extends_readTxPublishBatchResponse : codec.

Lemma extends_readTxCommitOffsetFields req : extends (readTxCommitOffsetFields req).
Proof. unfold readTxCommitOffsetFields. repeat extends_step. Qed.
#[export] Hint Resolve extends_readTxCommitOffsetFields : codec.

Lemma extends_decodeTxCommitOffsetRequest_func1 : extends decodeTxCommitOffsetRequest_func1.
Proof. unfold decodeTxCommitOffsetRequest_func1. repeat extends_step. Qed.
#[export] Hint Resolve extends_decodeTxCommitOffsetRequest_func1 : codec.

Lemma extends_readTxCommitOffsetResponseTail resp : extends (readTxCommitOffsetResponseTail resp).
Proof. unfold readTxCommitOffsetResponseTail. repeat extends_step. Qed.
#[export] Hint Resolve extends_readTxCommitOffsetResponseTail : codec.

Lemma extends_decodeTxCommitOffsetResponse_func1 : extends decodeTxCommitOffsetResponse_func1.
Proof. unfold decodeTxCommitOffsetResponse_func1. repeat extends_step. Qed.
#[export] Hint Resolve extends_decodeTxCommitOffsetResponse_func1 : codec.

Lemma extends_decodeTxCommitRequest_func1 : extends decodeTxCommitRequest_func1.
Proof. unfold decodeTxCommitRequest_func1. repeat extends_step. Qed.
#[export] Hint Resolve extends_decodeTxCommitRequest_func1 : codec.

Lemma extends_decodeTxCommitResponse_func1 : extends decodeTxCommitResponse_func1.
Proof. unfold decodeTxCommitResponse_func1. repeat extends_step. Qed.
#[export] Hint Resolve extends_decodeTxCommitResponse_func1 : codec.

Lemma extends_decodeTxAbortRequest_func1 : extends decodeTxAbortRequest_func1.
Proof. unfold decodeTxAbortRequest_func1. repeat extends_step. Qed.
#[export] Hint Resolve extends_decodeTxAbortRequest_func1 : codec.

Lemma extends_decodeTxAbortResponse_func1 : extends decodeTxAbortResponse_func1.
Proof. unfold decodeTxAbortResponse_func1. repeat extends_step. Qed.
#[export] Hint Resolve extends_decodeTxAbortResponse_func1 : codec.
