(* ===== verification/RegistrySpec.v ===== *)
(** * Wire protocol: the codec registry is faithful

    Every message that can be represented survives [EncodeBody] and
    [DecodeBody] under the command that carries it; truncated bodies, bodies
    with trailing bytes, unknown commands and values of another type are
    rejected; command ids are distinct. *)

From stdpp Require Import prelude gmap strings list.
From S2P Require Import Prelude Wire WireSpec Messages CodecsTopic CodecsFetch CodecsGroup CodecSpec CodecPrefix Registry.

#[local] Open Scope Z_scope.

(** ** Commands and the messages they carry *)

Definition wf_body (value : Body) : Prop :=
  match value with
  | Body_HandshakeRequest v => wf_HandshakeRequest v
  | Body_HandshakeResponse v => wf_HandshakeResponse v
  | Body_PingRequest v => wf_PingRequest v
  | Body_PingResponse v => wf_PingResponse v
  | Body_CreateTopicRequest v => wf_CreateTopicRequest v
  | Body_CreateTopicResponse v => wf_CreateTopicResponse v
  | Body_ListTopicsRequest v => wf_ListTopicsRequest v
  | Body_ListTopicsResponse v => wf_ListTopicsResponse v
  | Body_ProduceRequest v => wf_ProduceRequest v
  | Body_ProduceResponse v => wf_ProduceResponse v
  | Body_ProduceBatchRequest v => wf_ProduceBatchRequest v
  | Body_ProduceBatchResponse v => wf_ProduceBatchResponse v
  | Body_ProduceBatchesRequest v => wf_ProduceBatchesRequest v
  | Body_ProduceBatchesResponse v => wf_ProduceBatchesResponse v
  | Body_ProduceFanoutRequest v => wf_ProduceFanoutRequest v
  | Body_ProduceFanoutResponse v => wf_ProduceFanoutResponse v
  | Body_FetchRequest v => wf_FetchRequest v
  | Body_FetchResponse v => wf_FetchResponse v
  | Body_FetchBatchRequest v => wf_FetchBatchRequest v
  | Body_FetchBatchResponse v => wf_FetchBatchResponse v
  | Body_FetchSubjectPatternRequest v => wf_FetchSubjectPatternRequest v
  | Body_FetchSubjectPatternResponse v => wf_FetchSubjectPatternResponse v
  | Body_CommitOffsetRequest v => wf_CommitOffsetRequest v
  | Body_CommitOffsetResponse v => wf_CommitOffsetResponse v
  | Body_SendDirectRequest v => wf_SendDirectRequest v
  | Body_SendDirectResponse v => wf_SendDirectResponse v
  | Body_FetchInboxRequest v => wf_FetchInboxRequest v
  | Body_FetchInboxResponse v => wf_FetchInboxResponse v
  | Body_AckDirectRequest v => wf_AckDirectRequest v
  | Body_AckDirectResponse v => wf_AckDirectResponse v
  | Body_JoinConsumerGroupRequest v => wf_JoinConsumerGroupRequest v
  | Body_JoinConsumerGroupResponse v => wf_JoinConsumerGroupResponse v
  | Body_HeartbeatConsumerGroupRequest v => wf_HeartbeatConsumerGroupRequest v
  | Body_HeartbeatConsumerGroupResponse v => wf_HeartbeatConsumerGroupResponse v
  | Body_RebalanceConsumerGroupRequest v => wf_RebalanceConsumerGroupRequest v
  | Body_RebalanceConsumerGroupResponse v => wf_RebalanceConsumerGroupResponse v
  | Body_GetConsumerGroupAssignmentRequest v => wf_GetConsumerGroupAssignmentRequest v
  | Body_GetConsumerGroupAssignmentResponse v => wf_GetConsumerGroupAssignmentResponse v
  | Body_FetchConsumerGroupRequest v => wf_FetchConsumerGroupRequest v
  | Body_FetchConsumerGroupResponse v => wf_FetchConsumerGroupResponse v
  | Body_CommitConsumerGroupOffsetRequest v => wf_CommitConsumerGroupOffsetRequest v
  | Body_CommitConsumerGroupOffsetResponse v => wf_CommitConsumerGroupOffsetResponse v
  | Body_FetchConsumerGroupBatchRequest v => wf_FetchConsumerGroupBatchRequest v
  | Body_FetchConsumerGroupBatchResponse v => wf_FetchConsumerGroupBatchResponse v
  | Body_NackRequest v => wf_NackRequest v
  | Body_NackResponse v => wf_NackResponse v
  | Body_ProcessRetryRequest v => wf_ProcessRetryRequest v
  | Body_ProcessRetryResponse v => wf_ProcessRetryResponse v
  | Body_ScheduleDelayRequest v => wf_ScheduleDelayRequest v
  | Body_ScheduleDelayResponse v => wf_ScheduleDelayResponse v
  | Body_TxBeginRequest v => wf_TxBeginRequest v
  | Body_TxBeginResponse v => wf_TxBeginResponse v
  | Body_TxPublishRequest v => wf_TxPublishRequest v
  | Body_TxPublishResponse v => wf_TxPublishResponse v
  | Body_TxPublishBatchRequest v => wf_TxPublishBatchRequest v
  | Body_TxPublishBatchResponse v => wf_TxPublishBatchResponse v
  | Body_TxCommitOffsetRequest v => wf_TxCommitOffsetRequest v
  | Body_TxCommitOffsetResponse v => wf_TxCommitOffsetResponse v
  | Body_TxCommitRequest v => wf_TxCommitRequest v
  | Body_TxCommitResponse v => wf_TxCommitResponse v
  | Body_TxAbortRequest v => wf_TxAbortRequest v
  | Body_TxAbortResponse v => wf_TxAbortResponse v
  | Body_StartRequestRequest v => wf_StartRequestRequest v
  | Body_StartRequestResponse v => wf_StartRequestResponse v
  | Body_FetchRequestsRequest v => wf_FetchRequestsRequest v
  | Body_FetchRequestsResponse v => wf_FetchRequestsResponse v
  | Body_ReplyRequest v => wf_ReplyRequest v
  | Body_ReplyResponse v => wf_ReplyResponse v
  | Body_ReplyErrorRequest v => wf_ReplyErrorRequest v
  | Body_AwaitReplyRequest v => wf_AwaitReplyRequest v
  | Body_AwaitReplyResponse v => wf_AwaitReplyResponse v
  | Body_AwaitRepliesRequest v => wf_AwaitRepliesRequest v
  | Body_AwaitRepliesResponse v => wf_AwaitRepliesResponse v
  | Body_ErrorResponse v => wf_ErrorResponse v
  end.

Definition carries (command : Z) (value : Body) : bool :=
  match value with
  | Body_HandshakeRequest _ => (command =? CmdHandshakeRequest)
  | Body_HandshakeResponse _ => (command =? CmdHandshakeResponse)
  | Body_PingRequest _ => (command =? CmdPingRequest)
  | Body_PingResponse _ => (command =? CmdPingResponse)
  | Body_CreateTopicRequest _ => (command =? CmdCreateTopicRequest)
  | Body_CreateTopicResponse _ => (command =? CmdCreateTopicResponse)
  | Body_ListTopicsRequest _ => (command =? CmdListTopicsRequest)
  | Body_ListTopicsResponse _ => (command =? CmdListTopicsResponse)
  | Body_ProduceRequest _ => (command =? CmdProduceRequest)
  | Body_ProduceResponse _ => (command =? CmdProduceResponse)
  | Body_ProduceBatchRequest _ => (command =? CmdProduceBatchRequest)
  | Body_ProduceBatchResponse _ => (command =? CmdProduceBatchResponse)
  | Body_ProduceBatchesRequest _ => (command =? CmdProduceBatchesRequest)
  | Body_ProduceBatchesResponse _ => (command =? CmdProduceBatchesResponse)
  | Body_ProduceFanoutRequest _ => (command =? CmdProduceFanoutRequest)
  | Body_ProduceFanoutResponse _ => (command =? CmdProduceFanoutResponse)
  | Body_FetchRequest _ => (command =? CmdFetchRequest)
  | Body_FetchResponse _ => (command =? CmdFetchResponse)
  | Body_FetchBatchRequest _ => (command =? CmdFetchBatchRequest)
  | Body_FetchBatchResponse _ => (command =? CmdFetchBatchResponse)
  | Body_FetchSubjectPatternRequest _ => (command =? CmdFetchSubjectPatternRequest)
  | Body_FetchSubjectPatternResponse _ => (command =? CmdFetchSubjectPatternResponse)
  | Body_CommitOffsetRequest _ => (command =? CmdCommitOffsetRequest)
  | Body_CommitOffsetResponse _ => (command =? CmdCommitOffsetResponse)
  | Body_SendDirectRequest _ => (command =? CmdSendDirectRequest)
  | Body_SendDirectResponse _ => (command =? CmdSendDirectResponse)
  | Body_FetchInboxRequest _ => (command =? CmdFetchInboxRequest)
  | Body_FetchInboxResponse _ => (command =? CmdFetchInboxResponse)
  | Body_AckDirectRequest _ => (command =? CmdAckDirectRequest)
  | Body_AckDirectResponse _ => (command =? CmdAckDirectResponse)
  | Body_JoinConsumerGroupRequest _ => (command =? CmdJoinConsumerGroupRequest)
  | Body_JoinConsumerGroupResponse _ => (command =? CmdJoinConsumerGroupResponse)
  | Body_HeartbeatConsumerGroupRequest _ => (command =? CmdHeartbeatConsumerGroupRequest)
  | Body_HeartbeatConsumerGroupResponse _ => (command =? CmdHeartbeatConsumerGroupResponse)
  | Body_RebalanceConsumerGroupRequest _ => (command =? CmdRebalanceConsumerGroupRequest)
  | Body_RebalanceConsumerGroupResponse _ => (command =? CmdRebalanceConsumerGroupResponse)
  | Body_GetConsumerGroupAssignmentRequest _ => (command =? CmdGetConsumerGroupAssignmentRequest)
  | Body_GetConsumerGroupAssignmentResponse _ => (command =? CmdGetConsumerGroupAssignmentResponse)
  | Body_FetchConsumerGroupRequest _ => (command =? CmdFetchConsumerGroupRequest)
  | Body_FetchConsumerGroupResponse _ => (command =? CmdFetchConsumerGroupResponse)
  | Body_CommitConsumerGroupOffsetRequest _ => (command =? CmdCommitConsumerGroupOffsetRequest)
  | Body_CommitConsumerGroupOffsetResponse _ => (command =? CmdCommitConsumerGroupOffsetResponse)
  | Body_FetchConsumerGroupBatchRequest _ => (command =? CmdFetchConsumerGroupBatchRequest)
  | Body_FetchConsumerGroupBatchResponse _ => (command =? CmdFetchConsumerGroupBatchResponse)
  | Body_NackRequest _ => (command =? CmdNackRequest)
  | Body_NackResponse _ => (command =? CmdNackResponse)
  | Body_ProcessRetryRequest _ => (command =? CmdProcessRetryRequest)
  | Body_ProcessRetryResponse _ => (command =? CmdProcessRetryResponse)
  | Body_ScheduleDelayRequest _ => (command =? CmdScheduleDelayRequest)
  | Body_ScheduleDelayResponse _ => (command =? CmdScheduleDelayResponse)
  | Body_TxBeginRequest _ => (command =? CmdTxBeginRequest)
  | Body_TxBeginResponse _ => (command =? CmdTxBeginResponse)
  | Body_TxPublishRequest _ => (command =? CmdTxPublishRequest)
  | Body_TxPublishResponse _ => (command =? CmdTxPublishResponse)
  | Body_TxPublishBatchRequest _ => (command =? CmdTxPublishBatchRequest)
  | Body_TxPublishBatchResponse _ => (command =? CmdTxPublishBatchResponse)
  | Body_TxCommitOffsetRequest _ => (command =? CmdTxCommitOffsetRequest)
  | Body_TxCommitOffsetResponse _ => (command =? CmdTxCommitOffsetResponse)
  | Body_TxCommitRequest _ => (command =? CmdTxCommitRequest)
  | Body_TxCommitResponse _ => (command =? CmdTxCommitResponse)
  | Body_TxAbortRequest _ => (command =? CmdTxAbortRequest)
  | Body_TxAbortResponse _ => (command =? CmdTxAbortResponse)
  | Body_StartRequestRequest _ => (command =? CmdStartRequestRequest)
  | Body_StartRequestResponse _ => (command =? CmdStartRequestResponse)
  | Body_FetchRequestsRequest _ => (command =? CmdFetchRequestsRequest)
  | Body_FetchRequestsResponse _ => (command =? CmdFetchRequestsResponse)
  | Body_ReplyRequest _ => (command =? CmdReplyRequest)
  | Body_ReplyResponse _ => (command =? CmdReplyResponse) || (command =? CmdReplyErrorResponse)
  | Body_ReplyErrorRequest _ => (command =? CmdReplyErrorRequest)
  | Body_AwaitReplyRequest _ => (command =? CmdAwaitReplyRequest)
  | Body_AwaitReplyResponse _ => (command =? CmdAwaitReplyResponse)
  | Body_AwaitRepliesRequest _ => (command =? CmdAwaitRepliesRequest)
  | Body_AwaitRepliesResponse _ => (command =? CmdAwaitRepliesResponse)
  | Body_ErrorResponse _ => (command =? CmdErrorResponse)
  end.

(** What the registry holds for a command that carries [value]: a writer and
    a reader of its type that are inverse to each other, the reader being
    independent of what follows. *)
Inductive registered (command : Z) (value : Body) : Prop :=
| registered_intro (T : Type) (HT : Message T) (w : T -> M unit) (r : M T) (v : T) :
    value = inject v ->
    encoders newBodyCodecRegistry !! command = Some (encodeWith w) ->
    decoders newBodyCodecRegistry !! command = Some (decodeWith r) ->
    (wf_body value -> rt (w v) r v) ->
    extends r ->
    (forall target, carries command target = true -> is_Some (assert_type target : option T)) ->
    registered command value.

Ltac registered_case v :=
  let T := type of v in
  let HT := constr:(ltac:(typeclasses eauto) : Message T) in
  eapply (@registered_intro _ _ T HT _ _ v);
  [ reflexivity | reflexivity | reflexivity | eauto 2 with codec | solve [eauto 1 with codec]
  | intros target Ht; destruct target; try discriminate Ht; eexists; reflexivity ].

Lemma carries_registered command value : carries command value = true -> registered command value.
Proof.
  intros Hc. destruct value; cbn [carries] in Hc;
    repeat (apply orb_true_iff in Hc as [Hc|Hc]); apply Z.eqb_eq in Hc as ->; registered_case v.
Qed.

(** ** Encoding and decoding with one codec *)

Lemma encodeWith_ok {T} `{Message T} (w : T -> M unit) (v : T) bs :
  (forall buf, w v buf = Ok (tt, buf ++ bs)) -> encodeWith w (inject v) = Ok bs.
Proof. intros Hw. unfold encodeWith. by rewrite assert_inject, (Hw []). Qed.

Lemma decodeWith_ok {T} `{Message T} (r : M T) (target : Body) data v rest :
  is_Some (assert_type target : option T) -> r data = Ok (v, rest) ->
  decodeWith r data target = if decide (rest = []) then Ok (inject v) else Err "binary_trailing_data".
Proof. intros [t Ht] Hr. unfold decodeWith. rewrite Ht, Hr. by destruct rest. Qed.

Lemma decodeWith_inv {T} `{Message T} (r : M T) (target : Body) data b :
  decodeWith r data target = Ok b -> exists v, r data = Ok (v, []) /\ b = inject v.
Proof.
  unfold decodeWith. destruct (assert_type target); [|done].
  destruct (r data) as [[v [|]]|]; simpl; [|done..]. intros [= <-]. by exists v.
Qed.

(** What was encoded is decoded. *)
Lemma encoded_decodes command value target data :
  wf_body value -> carries command value = true -> carries command target = true -> EncodeBody command value = Ok data ->
  DecodeBody command data target = Ok value.
Proof.
  intros Hwf Hc Ht. destruct (carries_registered _ _ Hc) as [T HT w r v -> He Hd Hrt _ Htarget].
  destruct (Hrt Hwf) as (bs & Hw & Hr). unfold EncodeBody, DecodeBody. rewrite He, Hd.
  rewrite (encodeWith_ok w v bs Hw). intros [= <-]. specialize (Hr []). rewrite app_nil_r in Hr.
  by rewrite (decodeWith_ok r target bs v []) by auto.
Qed.

(** C12: messages survive the wire.  For every command of the protocol and
    every message of the type it carries whose fields can be represented,
    [EncodeBody] succeeds and [DecodeBody] of the bytes returns the message. *)
Theorem body_roundtrip command value target :
  wf_body value -> carries command value = true -> carries command target = true ->
  exists data, EncodeBody command value = Ok data /\ DecodeBody command data target = Ok value.
Proof.
  intros Hwf Hc Ht. destruct (carries_registered _ _ Hc) as [T HT w r v -> He Hd Hrt _ Htarget].
  destruct (Hrt Hwf) as (bs & Hw & Hr). exists bs. unfold EncodeBody, DecodeBody. rewrite He, Hd.
  split; [by apply encodeWith_ok|]. specialize (Hr []). rewrite app_nil_r in Hr.
  by rewrite (decodeWith_ok r target bs v []) by auto.
Qed.

(** C13: damaged bodies are rejected.  Cutting any number of bytes off the end
    of an encoded message makes [DecodeBody] fail, and appending bytes to it
    is reported as trailing data. *)
Theorem damaged_body_rejected command value target data :
  wf_body value -> carries command value = true -> carries command target = true ->
  EncodeBody command value = Ok data ->
  (forall p q, data = p ++ q -> q <> [] -> is_ok (DecodeBody command p target) = false) /\
  (forall q, q <> [] -> DecodeBody command (data ++ q) target = Err "binary_trailing_data").
Proof.
  intros Hwf Hc Ht Henc. destruct (carries_registered _ _ Hc) as [T HT w r v -> He Hd Hrt Hext Htarget].
  destruct (Hrt Hwf) as (bs & Hw & Hr). unfold EncodeBody, DecodeBody in *. rewrite He in Henc. rewrite Hd.
  rewrite (encodeWith_ok w v bs Hw) in Henc. injection Henc as ->. split.
  - intros p q -> Hq. destruct (decodeWith r p target) as [b|] eqn:E; [|done]. exfalso.
    apply decodeWith_inv in E as (v' & E & _). apply (Hext _ _ _ q) in E.
    specialize (Hr []). rewrite app_nil_r in Hr. rewrite Hr in E. simpl in E. congruence.
  - intros q Hq. rewrite (decodeWith_ok r target (data ++ q) v q) by auto. by rewrite decide_False.
Qed.

(** ** Command ids *)

Definition register (r : bodyCodecRegistry) (entry : bodyCodecEntry) : bodyCodecRegistry :=
  {| encoders := <[entry_command entry := entry_encode entry]> (encoders r);
     decoders := <[entry_command entry := entry_decode entry]> (decoders r);
     commands := commands r ++ [entry_command entry] |}.

Lemma register_commands l r : commands (foldl register r l) = commands r ++ (entry_command <$> l).
Proof.
  induction l as [|e l IH] in r |- *; [by rewrite app_nil_r|]. cbn [foldl]. rewrite IH. simpl.
  by rewrite <- (assoc_L (++)).
Qed.

Lemma register_notin l r command :
  command ∉ entry_command <$> l ->
  encoders (foldl register r l) !! command = encoders r !! command /\
  decoders (foldl register r l) !! command = decoders r !! command.
Proof.
  induction l as [|e l IH] in r |- *; [done|]. rewrite fmap_cons, not_elem_of_cons. intros [Hne Hl].
  cbn [foldl]. destruct (IH (register r e) Hl) as [-> ->]. simpl. by rewrite !lookup_insert_ne by congruence.
Qed.

Lemma register_in l r entry :
  NoDup (entry_command <$> l) -> entry ∈ l ->
  encoders (foldl register r l) !! entry_command entry = Some (entry_encode entry) /\
  decoders (foldl register r l) !! entry_command entry = Some (entry_decode entry).
Proof.
  induction l as [|e l IH] in r |- *; [by intros _ ?%elem_of_nil|].
  rewrite fmap_cons. intros [Hn Hd]%NoDup_cons [->|Hin]%elem_of_cons; cbn [foldl]; [|by apply IH].
  destruct (register_notin l (register r e) _ Hn) as [-> ->]. simpl. by rewrite !lookup_insert_eq.
Qed.

Lemma CommandIDs_entries : CommandIDs = entry_command <$> bodyCodecEntries.
Proof. apply (register_commands bodyCodecEntries {| encoders := ∅; decoders := ∅; commands := [] |}). Qed.

Lemma NoDup_CommandIDs : NoDup CommandIDs.
Proof. rewrite CommandIDs_entries. apply (bool_decide_unpack _). vm_compute. exact I. Qed.

Lemma entry_lookup entry :
  entry ∈ bodyCodecEntries ->
  encoders newBodyCodecRegistry !! entry_command entry = Some (entry_encode entry) /\
  decoders newBodyCodecRegistry !! entry_command entry = Some (entry_decode entry).
Proof. apply register_in. rewrite <- CommandIDs_entries. apply NoDup_CommandIDs. Qed.

Lemma registry_notin command :
  command ∉ entry_command <$> bodyCodecEntries ->
  encoders newBodyCodecRegistry !! command = None /\ decoders newBodyCodecRegistry !! command = None.
Proof.
  intros Hn. destruct (register_notin _ {| encoders := ∅; decoders := ∅; commands := [] |} _ Hn) as [He Hd].
  split; [exact He|exact Hd].
Qed.

Lemma entries_typed :
  Forall (fun e => forall v, carries (entry_command e) v = false ->
            entry_encode e v = Err "binary_type_mismatch" /\
            forall data, entry_decode e data v = Err "binary_type_mismatch") bodyCodecEntries.
Proof.
  unfold bodyCodecEntries. repeat (constructor; [intros v Hv; destruct v; first [discriminate Hv|done]|]).
  constructor.
Qed.

(** The registry is complete and strict.  No command id is used twice;
    a command outside [CommandIDs] is unsupported by both directions; and a
    value or a target of a type the command does not carry is refused. *)
Theorem registry_strict :
  NoDup CommandIDs /\
  (forall command value data, command ∉ CommandIDs ->
     EncodeBody command value = Err "unsupported_command" /\
     DecodeBody command data value = Err "unsupported_command") /\
  (forall command value data, command ∈ CommandIDs -> carries command value = false ->
     EncodeBody command value = Err "binary_type_mismatch" /\
     DecodeBody command data value = Err "binary_type_mismatch").
Proof.
  split; [apply NoDup_CommandIDs|]. split; intros command value data.
  - rewrite CommandIDs_entries. intros Hn. unfold EncodeBody, DecodeBody.
    by destruct (registry_notin command Hn) as [-> ->].
  - rewrite CommandIDs_entries. intros (e & -> & Hin)%list_elem_of_fmap Hv. unfold EncodeBody, DecodeBody.
    destruct (entry_lookup e Hin) as [-> ->].
    pose proof entries_typed as Hall. rewrite Forall_forall in Hall. destruct (Hall e Hin value Hv). done.
Qed.

(** ** The properties at a concrete message *)

Definition ex_request : Body :=
  Body_FetchRequest
    {| FetchRequest_Consumer := "worker"; FetchRequest_Topic := "orders"; FetchRequest_Partition := 3;
       FetchRequest_Offset := Some 41; FetchRequest_MaxRecords := 100; FetchRequest_MinRecords := None;
       FetchRequest_MaxWaitMS := Some 250; FetchRequest_Isolation := FetchIsolationReadCommitted |}.

Definition ex_data : bytes := match EncodeBody CmdFetchRequest ex_request with Ok data => data | Err _ => [] end.

Lemma ex_request_wf : wf_body ex_request.
Proof. unfold ex_request, wf_body, wf_FetchRequest. split_and!; first [by right|exact I|vm_compute; intuition congruence]. Qed.

Lemma body_roundtrip_witness :
  exists data, EncodeBody CmdFetchRequest ex_request = Ok data /\
               DecodeBody CmdFetchRequest data ex_request = Ok ex_request.
Proof.
  apply (body_roundtrip CmdFetchRequest ex_request ex_request); [apply ex_request_wf|reflexivity|reflexivity].
Defined.

Lemma damaged_body_rejected_witness :
  length ex_data = 44%nat /\
  DecodeBody CmdFetchRequest (ex_data ++ [Byte.x00]) ex_request = Err "binary_trailing_data".
Proof.
  split; [reflexivity|].
  apply (damaged_body_rejected CmdFetchRequest ex_request ex_request ex_data);
    [apply ex_request_wf|reflexivity|reflexivity|reflexivity|done].
Defined.

(** An enumeration field that is left empty: the fetch isolation defaults to
    reading uncommitted records, the partitioning has no default and the
    encoded request cannot be decoded. *)
Definition ex_produce (partitioning : string) : Body :=
  Body_ProduceRequest
    {| ProduceRequest_Topic := "orders"; ProduceRequest_Partition := None;
       ProduceRequest_Partitioning := partitioning; ProduceRequest_RoutingKey := "";
       ProduceRequest_Idempotency := None; ProduceRequest_Key := []; ProduceRequest_Headers := [];
       ProduceRequest_Tombstone := false; ProduceRequest_ExpiresAtMS := None; ProduceRequest_Payload := [] |}.

Lemma empty_partitioning_undecodable :
  exists data, EncodeBody CmdProduceRequest (ex_produce "") = Ok data /\
               DecodeBody CmdProduceRequest data (ex_produce "") = Err "binary_unknown_partitioning".
Proof. eexists. split; reflexivity. Qed.

Lemma registry_strict_witness :
  EncodeBody 9999 ex_request = Err "unsupported_command" /\
  DecodeBody CmdProduceRequest ex_data ex_request = Err "binary_type_mismatch".
Proof.
  destruct registry_strict as (_ & Hu & Ht). split.
  - apply (Hu 9999 ex_request []). apply (bool_decide_unpack _). vm_compute. exact I.
  - apply (Ht CmdProduceRequest ex_request ex_data); [apply (bool_decide_unpack _); vm_compute; exact I|reflexivity].
Defined.
