(* ===== verification/Transport.v ===== *)
(** * Frames and the buffer pool

    [src/transport/transport.go] and [src/internal/bufferpool/bufferpool.go].

    Frame bodies live in pooled buffers, so the model keeps a heap: byte
    arrays, and the buffer objects ([bytebufferpool.ByteBuffer]) whose field
    [B] is a slice of an array.  A frame body is a slice, not a value: what it
    holds is read from the heap when it is used.  The pool itself is a
    third-party package: the class [BufferPool] states what its documentation
    promises.

    An [io.Reader] is the bytes it will still deliver before it ends.  An
    [io.Writer] is an instance of the class [Writer]. *)

From stdpp Require Import prelude gmap fin_sets list.
From S2P Require Import Prelude Wire.

#[local] Open Scope Z_scope.

(** ** Headers *)

Definition Magic : Z := 0x45434830.
Definition HeaderLen : Z := 28.
Definition StatusOK : Z := 0.
Definition StatusError : Z := 1.

Record FrameHeader := mkFrameHeader {
  fh_Magic : Z;
  fh_Version : Z;
  fh_HeaderLen : Z;
  fh_Flags : Z;
  fh_Command : Z;
  fh_Status : Z;
  fh_RequestID : Z;
  fh_BodyLen : Z;
  fh_Reserved : Z
}.

Definition NewFrameHeader (version command bodyLen : Z) : FrameHeader := {|
  fh_Magic := Magic;
  fh_Version := version;
  fh_HeaderLen := HeaderLen;
  fh_Flags := 0;
  fh_Command := command;
  fh_Status := StatusOK;
  fh_RequestID := 0;
  fh_BodyLen := bodyLen;
  fh_Reserved := 0
|}.

(** The ten writes fill the 28 bytes of the array in order. *)
Definition Encode (h : FrameHeader) : bytes :=
  put_be 4 (fh_Magic h) ++ [byte_of_Z (fh_Version h)] ++ [byte_of_Z (fh_HeaderLen h)] ++
  put_be 2 (fh_Flags h) ++ put_be 2 (fh_Command h) ++ put_be 2 (fh_Status h) ++
  put_be 8 (fh_RequestID h) ++ put_be 4 (fh_BodyLen h) ++ put_be 4 (fh_Reserved h).

(** [data[a:b]] *)
Definition subslice (a b : nat) (data : bytes) : bytes := take (b - a) (drop a data).

Definition DecodeHeader (data : bytes) : FrameHeader := {|
  fh_Magic := get_be (subslice 0 4 data);
  fh_Version := get_be (subslice 4 5 data);
  fh_HeaderLen := get_be (subslice 5 6 data);
  fh_Flags := get_be (subslice 6 8 data);
  fh_Command := get_be (subslice 8 10 data);
  fh_Status := get_be (subslice 10 12 data);
  fh_RequestID := get_be (subslice 12 20 data);
  fh_BodyLen := get_be (subslice 20 24 data);
  fh_Reserved := get_be (subslice 24 28 data)
|}.

(** The codes of the [oops] errors of the package. *)
Inductive TransportError :=
| frame_header_read_failed
| frame_body_read_failed
| frame_body_too_large
| frame_bad_magic
| frame_bad_header_len
| frame_header_write_failed
| frame_body_write_failed.

Definition validateHeader (header : FrameHeader) : result TransportError unit :=
  if negb (fh_Magic header =? Magic) then Err frame_bad_magic
  else if negb (fh_HeaderLen header =? HeaderLen) then Err frame_bad_header_len
  else Ok tt.

(** ** The heap *)

Definition loc := nat.

(** A slice that starts at the first element of its array; [None] is [nil]. *)
Record Slice := mkSlice { sl_array : option loc; sl_len : nat }.
Definition nil_slice : Slice := mkSlice None 0.

Record Heap := mkHeap {
  arrays : gmap loc bytes;
  buffers : gmap loc Slice
}.

Definition array_of (h : Heap) (sl : Slice) : bytes :=
  match sl_array sl with Some l => default [] (arrays h !! l) | None => [] end.
Definition slice_bytes (h : Heap) (sl : Slice) : bytes := take (sl_len sl) (array_of h sl).
Definition slice_cap (h : Heap) (sl : Slice) : nat := length (array_of h sl).

(** [copy(sl, bs)] for [bs] no longer than the slice. *)
Definition store_bytes (h : Heap) (sl : Slice) (bs : bytes) : Heap :=
  match sl_array sl with
  | None => h
  | Some l => mkHeap (<[l := bs ++ drop (length bs) (array_of h sl)]> (arrays h)) (buffers h)
  end.

(** [make([]byte, n)] *)
Definition make_bytes (h : Heap) (n : nat) : Heap * Slice :=
  let l := fresh (dom (arrays h)) in
  (mkHeap (<[l := replicate n Byte.x00]> (arrays h)) (buffers h), mkSlice (Some l) n).

Definition set_B (h : Heap) (b : loc) (sl : Slice) : Heap := mkHeap (arrays h) (<[b := sl]> (buffers h)).
Definition get_B (h : Heap) (b : loc) : Slice := default nil_slice (buffers h !! b).

(** ** The buffer pool *)

(** [bytebufferpool]: [Get] returns a buffer from the pool or, when it has
    none, a new one; [Put] hands a buffer to the pool, which may keep it. *)
Class BufferPool := {
  Pool : Type;
  pool_contents : Pool -> gset loc;
  pool_get : Pool -> option loc * Pool;
  pool_put : loc -> Pool -> Pool;
  pool_get_some : forall p b p', pool_get p = (Some b, p') ->
    b ∈ pool_contents p /\ pool_contents p' ⊆ pool_contents p ∖ {[b]};
  pool_get_none : forall p p', pool_get p = (None, p') -> pool_contents p' ⊆ pool_contents p;
  pool_put_contents : forall b p, pool_contents (pool_put b p) ⊆ {[b]} ∪ pool_contents p
}.

Section Pooled.
Context `{BufferPool}.

Record World := mkWorld { w_heap : Heap; w_pool : Pool }.

(** [bufferpool.Get]: a buffer, emptied by [Reset]. *)
Definition Get (w : World) : World * loc :=
  match pool_get (w_pool w) with
  | (Some b, pool) =>
      let h := w_heap w in
      (mkWorld (set_B h b (mkSlice (sl_array (get_B h b)) 0)) pool, b)
  | (None, pool) =>
      let h := w_heap w in
      let b := fresh (dom (buffers h)) in
      (mkWorld (set_B h b nil_slice) pool, b)
  end.

(** [bufferpool.Put] of a non-nil buffer. *)
Definition Put (w : World) (b : loc) : World := mkWorld (w_heap w) (pool_put b (w_pool w)).

(** [bufferpool.CopyAndPut]: the bytes of a new slice ([None] is [nil]). *)
Definition CopyAndPut (w : World) (buf : option loc) : World * option bytes :=
  match buf with
  | None => (w, None)
  | Some b =>
      match slice_bytes (w_heap w) (get_B (w_heap w) b) with
      | [] => (Put w b, None)
      | out => (Put w b, Some out)
      end
  end.

(** ** Frames *)

Record Frame := mkFrame { f_Header : FrameHeader; f_Body : Slice }.
Record PooledFrame := mkPooledFrame { pf_Frame : Frame; pf_release : option loc }.

(** The second call of [Release] does nothing: the field is cleared. *)
Definition Release (w : World) (f : PooledFrame) : World * PooledFrame :=
  match pf_release f with
  | None => (w, f)
  | Some b => (Put w b, mkPooledFrame (pf_Frame f) None)
  end.

Definition frameBodyLen (body : Slice) : result TransportError Z :=
  let bodyLen := Z.of_nat (sl_len body) in
  if 2 ^ 32 - 1 <? bodyLen then Err frame_body_too_large else Ok (u32 bodyLen).

Definition NewFrame (version command : Z) (body : Slice) : result TransportError Frame :=
  bodyLen ← frameBodyLen body;
  Ok (mkFrame (NewFrameHeader version command bodyLen) body).

(** [io.ReadFull] into a slice of [n] bytes: the bytes it stores there, the
    reader afterwards, and whether it got all of them. *)
Definition ReadFull (n : nat) (r : bytes) : bytes * bytes * bool :=
  (take n r, drop n r, (n <=? length r)%nat).

Definition ReadFrameWithLimitPooled (w : World) (r : bytes) (maxBodyBytes : Z)
    : World * bytes * result TransportError PooledFrame :=
  match ReadFull (Z.to_nat HeaderLen) r with
  | (_, r, false) => (w, r, Err frame_header_read_failed)
  | (headerBytes, r, true) =>
      let header := DecodeHeader headerBytes in
      match validateHeader header with
      | Err e => (w, r, Err e)
      | Ok _ =>
          if (0 <? maxBodyBytes) && (maxBodyBytes <? fh_BodyLen header) then (w, r, Err frame_body_too_large)
          else if 2 ^ 63 - 1 <? fh_BodyLen header then (w, r, Err frame_body_too_large)
          else if fh_BodyLen header =? 0 then
            (w, r, Ok (mkPooledFrame (mkFrame header nil_slice) None))
          else
            let n := Z.to_nat (fh_BodyLen header) in
            let '(w, buffer) := Get w in
            let h := w_heap w in
            let h :=
              if (slice_cap h (get_B h buffer) <? n)%nat
              then let '(h, sl) := make_bytes h n in set_B h buffer sl
              else set_B h buffer (mkSlice (sl_array (get_B h buffer)) n) in
            let '(raw, r, ok) := ReadFull n r in
            let w := mkWorld (store_bytes h (get_B h buffer) raw) (w_pool w) in
            if ok then
              (w, r, Ok (mkPooledFrame (mkFrame header (get_B (w_heap w) buffer)) (Some buffer)))
            else (Put w buffer, r, Err frame_body_read_failed)
      end
  end.

Definition ReadFrameWithLimit (w : World) (r : bytes) (maxBodyBytes : Z)
    : World * bytes * result TransportError Frame :=
  match ReadFrameWithLimitPooled w r maxBodyBytes with
  | (w, r, Err e) => (w, r, Err e)
  | (w, r, Ok out) =>
      let frame := pf_Frame out in
      let '(w, _) := Release w out in
      (w, r, Ok frame)
  end.

Definition ReadFrame (w : World) (r : bytes) : World * bytes * result TransportError Frame :=
  ReadFrameWithLimit w r 0.

End Pooled.

(** ** Writing *)

Class Writer (W : Type) := {
  Write : W -> bytes -> W * option unit
}.

(** A [bytes.Buffer] accepts everything. *)
#[global] Instance buffer_writer : Writer bytes := { Write := fun w bs => (w ++ bs, Some tt) }.

Definition WriteFrame {W} `{Writer W} (h : Heap) (w : W) (frame : Frame) : W * result TransportError unit :=
  match Write w (Encode (f_Header frame)) with
  | (w, None) => (w, Err frame_header_write_failed)
  | (w, Some _) =>
      if decide (sl_len (f_Body frame) = 0%nat) then (w, Ok tt)
      else
        match Write w (slice_bytes h (f_Body frame)) with
        | (w, None) => (w, Err frame_body_write_failed)
        | (w, Some _) => (w, Ok tt)
        end
  end.
