(* ===== verification/TransportSpec.v ===== *)
(** * Frames: round trips, limits, and who owns a frame body

    The header is a bijection between headers in range and 28 bytes; a frame
    that was written is read back; a reader never accepts more than its limit.
    The body of a pooled frame does not change until the frame is released,
    whatever other frames are read, released or encoded in the meantime.  The
    body of a frame returned by [ReadFrameWithLimit] can change at once. *)

From stdpp Require Import prelude gmap fin_sets list.
From S2P Require Import Prelude Wire WireSpec Transport.

#[local] Open Scope Z_scope.

(** ** Headers *)

Definition header_fits (h : FrameHeader) : Prop :=
  is_u32 (fh_Magic h) /\ is_u8 (fh_Version h) /\ is_u8 (fh_HeaderLen h) /\ is_u16 (fh_Flags h) /\
  is_u16 (fh_Command h) /\ is_u16 (fh_Status h) /\ is_u64 (fh_RequestID h) /\ is_u32 (fh_BodyLen h) /\
  is_u32 (fh_Reserved h).

Lemma length_Encode h : length (Encode h) = 28%nat.
Proof. reflexivity. Qed.

Lemma DecodeHeader_Encode h : header_fits h -> DecodeHeader (Encode h) = h.
Proof.
  destruct h as [m v l f c s r b x]. intros (H1 & H2 & H3 & H4 & H5 & H6 & H7 & H8 & H9). simpl in *.
  unfold DecodeHeader. f_equal.
  - change (get_be (put_be 4 m) = m). by apply get_put_be.
  - change (get_be (put_be 1 v) = v). by apply get_put_be.
  - change (get_be (put_be 1 l) = l). by apply get_put_be.
  - change (get_be (put_be 2 f) = f). by apply get_put_be.
  - change (get_be (put_be 2 c) = c). by apply get_put_be.
  - change (get_be (put_be 2 s) = s). by apply get_put_be.
  - change (get_be (put_be 8 r) = r). by apply get_put_be.
  - change (get_be (put_be 4 b) = b). by apply get_put_be.
  - change (get_be (put_be 4 x) = x). by apply get_put_be.
Qed.

(** The bytes of a number in range are determined by it. *)
Lemma put_be_mod n v : put_be n (v mod 256 ^ Z.of_nat n) = put_be n v.
Proof.
  assert (forall k, (k <= n)%nat -> put_be k (v mod 256 ^ Z.of_nat n) = put_be k v) as Hk; [|by apply Hk].
  induction k as [|k IH]; intros Hle; [done|]. cbn [put_be]. rewrite IH by lia. f_equal.
  unfold byte_of_Z, u8. do 3 f_equal.
  rewrite !Z.shiftr_div_pow2 by lia.
  replace (2 ^ (8 * Z.of_nat k)) with (256 ^ Z.of_nat k) by (change 256 with (2 ^ 8); by rewrite <- Z.pow_mul_r by lia).
  replace (Z.of_nat n) with (Z.of_nat k + (1 + (Z.of_nat n - Z.of_nat k - 1))) by lia.
  rewrite Z.pow_add_r by lia. set (a := 256 ^ Z.of_nat k). assert (0 < a) by (unfold a; lia).
  rewrite Z.pow_add_r by lia. set (c := 256 ^ _). assert (0 < c) by (unfold c; lia). change (256 ^ 1) with 256. change (2 ^ 8) with 256.
  rewrite Z.rem_mul_r by lia. rewrite Z.mul_comm, Z.div_add by lia. rewrite (Z.div_small (v mod a)) by (apply Z.mod_pos_bound; lia).
  rewrite Z.add_0_l. rewrite Z.rem_mul_r by lia. rewrite Z.mul_comm. rewrite Z.add_mod, (Z.mul_comm _ 256), Z.mul_mod, Z.mod_same by lia.
  rewrite Z.mul_0_l, Z.mod_0_l, Z.add_0_r by lia. by rewrite !Z.mod_mod by lia.
Qed.

Lemma byte_of_Z_of_byte b : byte_of_Z (Z_of_byte b) = b.
Proof. by destruct b. Qed.

Lemma get_be_cons b bs : get_be (b :: bs) = Z_of_byte b * 256 ^ len bs + get_be bs.
Proof.
  unfold get_be. cbn [foldl]. rewrite lor_shift_add by apply Z_of_byte_range. rewrite Z.mul_0_l, Z.add_0_l.
  assert (forall acc, foldl (fun acc b => Z.lor (Z.shiftl acc 8) (Z_of_byte b)) acc bs
    = acc * 256 ^ len bs + foldl (fun acc b => Z.lor (Z.shiftl acc 8) (Z_of_byte b)) 0 bs) as Hf; [|apply Hf].
  induction bs as [|b' bs IH]; intros acc; cbn [foldl]; [rewrite len_nil; lia|].
  rewrite IH, (IH (Z.lor _ _)), !lor_shift_add by apply Z_of_byte_range. rewrite len_cons.
  rewrite Z.pow_add_r by (pose proof (len_nonneg bs); lia). lia.
Qed.

Lemma get_be_range bs : 0 <= get_be bs < 256 ^ len bs.
Proof.
  induction bs as [|b bs IH]; [done|]. rewrite get_be_cons, len_cons. pose proof (Z_of_byte_range b).
  rewrite Z.pow_add_r by (pose proof (len_nonneg bs); lia). change (256 ^ 1) with 256. nia.
Qed.

Lemma put_get_be bs : put_be (length bs) (get_be bs) = bs.
Proof.
  induction bs as [|b bs IH]; [done|]. cbn [length put_be]. rewrite get_be_cons. pose proof (get_be_range bs) as Hr.
  f_equal.
  - rewrite Z.shiftr_div_pow2 by lia.
    replace (2 ^ (8 * Z.of_nat (length bs))) with (256 ^ len bs) by (unfold len; change 256 with (2 ^ 8); by rewrite <- Z.pow_mul_r by lia).
    rewrite Z.div_add_l, Z.div_small by lia. rewrite Z.add_0_r. apply byte_of_Z_of_byte.
  - rewrite <- put_be_mod. fold (len bs). rewrite Z.add_comm, Z.mod_add by lia. by rewrite Z.mod_small, IH by lia.
Qed.

Lemma put_get_sub n data a b : (b - a = n)%nat -> (b <= length data)%nat ->
  put_be n (get_be (subslice a b data)) = subslice a b data.
Proof.
  intros <- Hb. replace (b - a)%nat with (length (subslice a b data)) at 1; [apply put_get_be|].
  unfold subslice. rewrite length_take, length_drop. lia.
Qed.

Lemma get_sub_range n data a b : (b - a = n)%nat -> (b <= length data)%nat ->
  0 <= get_be (subslice a b data) < 256 ^ Z.of_nat n.
Proof.
  intros <- Hb. pose proof (get_be_range (subslice a b data)) as Hr. unfold len, subslice in *.
  rewrite length_take, length_drop in Hr. by replace ((b - a) `min` (length data - a))%nat with (b - a)%nat in Hr by lia.
Qed.

Lemma Encode_DecodeHeader data : length data = 28%nat ->
  header_fits (DecodeHeader data) /\ Encode (DecodeHeader data) = data.
Proof.
  intros Hl. split.
  - unfold header_fits, is_u32, is_u8, is_u16, is_u64. split_and!;
      first [apply (get_sub_range 4); solve [done|lia]|apply (get_sub_range 1); solve [done|lia]
            |apply (get_sub_range 2); solve [done|lia]|apply (get_sub_range 8); solve [done|lia]].
  - unfold Encode. cbn [fh_Magic fh_Version fh_HeaderLen fh_Flags fh_Command fh_Status fh_RequestID fh_BodyLen fh_Reserved DecodeHeader].
    change ([byte_of_Z (get_be (subslice 4 5 data))]) with (put_be 1 (get_be (subslice 4 5 data))).
    change ([byte_of_Z (get_be (subslice 5 6 data))]) with (put_be 1 (get_be (subslice 5 6 data))).
    rewrite !put_get_sub by (done || lia). do 28 (destruct data as [|? data]; [done|]). by destruct data.
Qed.

(** The 28-byte frame header is a bijection.  Decoding an encoded header
    whose fields fit gives it back; any 28 bytes decode to a header whose
    fields fit and which encodes to those bytes. *)
Theorem header_roundtrip h data :
  header_fits h -> length data = 28%nat ->
  DecodeHeader (Encode h) = h /\ header_fits (DecodeHeader data) /\ Encode (DecodeHeader data) = data.
Proof. intros Hh Hd. split; [by apply DecodeHeader_Encode|by apply Encode_DecodeHeader]. Qed.

(** ** The heap *)

Lemma take_length_app {A} (l k : list A) : take (length l) (l ++ k) = l.
Proof. by rewrite take_app_length. Qed.

(** Making room for [n] bytes in a buffer, as the reader does. *)
Definition reserve (h : Heap) (b : loc) (n : nat) : Heap :=
  if (slice_cap h (get_B h b) <? n)%nat
  then let '(h, sl) := make_bytes h n in set_B h b sl
  else set_B h b (mkSlice (sl_array (get_B h b)) n).

Lemma get_set_B h b sl : get_B (set_B h b sl) b = sl.
Proof. unfold get_B, set_B. simpl. by rewrite lookup_insert_eq. Qed.

Lemma get_set_B_ne h b b' sl : b <> b' -> get_B (set_B h b sl) b' = get_B h b'.
Proof. intros Hne. unfold get_B, set_B. simpl. by rewrite lookup_insert_ne. Qed.

(** Different buffers have different arrays, which exist. *)
Record heap_ok (h : Heap) : Prop := {
  ho_array : forall b sl l, buffers h !! b = Some sl -> sl_array sl = Some l ->
    exists data, arrays h !! l = Some data /\ (sl_len sl <= length data)%nat;
  ho_nil : forall b sl, buffers h !! b = Some sl -> sl_array sl = None -> sl_len sl = 0%nat;
  ho_inj : forall b1 b2 sl1 sl2 l, buffers h !! b1 = Some sl1 -> buffers h !! b2 = Some sl2 ->
    sl_array sl1 = Some l -> sl_array sl2 = Some l -> b1 = b2
}.

(** A heap differs from another at most in the buffer [b]: the other buffers
    keep their slices and their contents. *)
Definition only_buffer (b : loc) (h h' : Heap) : Prop :=
  dom (buffers h') = dom (buffers h) ∪ {[b]} /\
  forall b' sl, b' <> b -> buffers h !! b' = Some sl ->
    buffers h' !! b' = Some sl /\ array_of h' sl = array_of h sl.

#[export] Instance only_buffer_refl_trans b : Transitive (only_buffer b).
Proof.
  intros h1 h2 h3 [D1 H1] [D2 H2]. split; [set_solver|]. intros b' sl Hne Hb.
  destruct (H1 b' sl Hne Hb) as [Hb2 E2]. destruct (H2 b' sl Hne Hb2) as [Hb3 E3]. split; [done|congruence].
Qed.

Lemma fresh_array h : heap_ok h -> forall b sl, buffers h !! b = Some sl -> sl_array sl <> Some (fresh (dom (arrays h))).
Proof.
  intros Hok b sl Hb E. destruct (ho_array h Hok b sl _ Hb E) as (data & Hd & _).
  apply elem_of_dom_2 in Hd. by apply is_fresh in Hd.
Qed.

(** Giving a buffer a slice of an array no other buffer uses. *)
Lemma set_B_ok h b sl :
  heap_ok h -> (sl_array sl = None -> sl_len sl = 0%nat) ->
  (forall l, sl_array sl = Some l ->
     (exists data, arrays h !! l = Some data /\ (sl_len sl <= length data)%nat) /\
     forall b' sl', b' <> b -> buffers h !! b' = Some sl' -> sl_array sl' <> Some l) ->
  heap_ok (set_B h b sl) /\ only_buffer b h (set_B h b sl).
Proof.
  intros Hok Hnil Hsome. split; [split; simpl|split; [simpl; set_solver|]].
  - intros b' sl' l. rewrite lookup_insert_Some. intros [[<- <-]|[Hne Hb']] E; [by apply Hsome|by eapply ho_array].
  - intros b' sl'. rewrite lookup_insert_Some. intros [[<- <-]|[Hne Hb']] E; [by apply Hnil|by eapply ho_nil].
  - intros b1 b2 sl1 sl2 l. rewrite !lookup_insert_Some.
    intros [[<- <-]|[Hne1 H1]] [[<- <-]|[Hne2 H2]] E1 E2; [done| | |by eapply ho_inj]; exfalso.
    + by destruct (Hsome l E1) as [_ Hn]; eapply Hn.
    + by destruct (Hsome l E2) as [_ Hn]; eapply Hn.
  - intros b' sl' Hne Hb'. simpl. by rewrite lookup_insert_ne.
Qed.

(** Re-slicing a buffer within its array. *)
Lemma reslice_ok h b sl n :
  heap_ok h -> buffers h !! b = Some sl -> (n <= slice_cap h sl)%nat ->
  heap_ok (set_B h b (mkSlice (sl_array sl) n)) /\ only_buffer b h (set_B h b (mkSlice (sl_array sl) n)).
Proof.
  intros Hok Hb Hn. unfold slice_cap, array_of in Hn. apply set_B_ok; [done|simpl..].
  - intros E. rewrite E in Hn. simpl in Hn. lia.
  - intros l E. destruct (ho_array h Hok b sl l Hb E) as (data & Hd & _). rewrite E, Hd in Hn. split; [by exists data|].
    intros b' sl' Hne Hb' E'. by apply Hne, (ho_inj h Hok b' b sl' sl l).
Qed.

(** A new array changes nothing that is in use. *)
Lemma make_bytes_ok h n :
  heap_ok h ->
  let h' := (make_bytes h n).1 in
  heap_ok h' /\ buffers h' = buffers h /\
  forall b sl, buffers h !! b = Some sl -> array_of h' sl = array_of h sl.
Proof.
  intros Hok h'. pose proof (fresh_array h Hok) as Hfr. unfold h', make_bytes. simpl.
  set (l := fresh (dom (arrays h))) in *. split_and!; [split; simpl|done|].
  - intros b sl l' Hb E. rewrite lookup_insert_ne; [by eapply ho_array|]. intros ->. by apply (Hfr b sl).
  - apply ho_nil, Hok.
  - apply ho_inj, Hok.
  - intros b sl Hb. unfold array_of. simpl. destruct (sl_array sl) as [l'|] eqn:E; [|done].
    rewrite lookup_insert_ne; [done|]. intros ->. by apply (Hfr b sl).
Qed.

Lemma reserve_ok h b n sl :
  heap_ok h -> buffers h !! b = Some sl ->
  heap_ok (reserve h b n) /\ only_buffer b h (reserve h b n) /\
  exists sl', buffers (reserve h b n) !! b = Some sl' /\ sl_len sl' = n /\ (n <= slice_cap (reserve h b n) sl')%nat.
Proof.
  intros Hok Hb. unfold reserve. assert (get_B h b = sl) as Hg by (unfold get_B; by rewrite Hb). rewrite Hg.
  destruct (Nat.ltb_spec (slice_cap h sl) n) as [Hlt|Hge].
  - destruct (make_bytes_ok h n Hok) as (Hok1 & Hb1 & Ha1). pose proof (fresh_array h Hok) as Hfr.
    unfold make_bytes in *. simpl in Hok1, Hb1, Ha1. set (l := fresh (dom (arrays h))) in *. set (h1 := mkHeap _ _) in *.
    assert (arrays h1 !! l = Some (replicate n Byte.x00)) as Hl by apply lookup_insert_eq.
    destruct (set_B_ok h1 b (mkSlice (Some l) n) Hok1) as [Hok2 [Hd Ho]]; [done| |].
    { intros l' [= <-]. split; [exists (replicate n Byte.x00); by rewrite length_replicate|]. intros b' sl' _. apply Hfr. }
    split_and!; [done| |].
    + split; [exact Hd|]. intros b' sl' Hne Hb'. destruct (Ho b' sl' Hne Hb') as [? E]. split; [done|].
      rewrite E. by apply (Ha1 b').
    + simpl. rewrite lookup_insert_eq. eexists. split_and!; [done|done|].
      unfold slice_cap, array_of. cbn. fold l. rewrite lookup_insert_eq. simpl. by rewrite length_replicate.
  - destruct (reslice_ok h b sl n Hok Hb Hge) as [Hok' Ho]. split_and!; [done|done|].
    simpl. rewrite lookup_insert_eq. by eexists.
Qed.

Lemma store_bytes_ok h b sl bs :
  heap_ok h -> buffers h !! b = Some sl -> (length bs <= slice_cap h sl)%nat ->
  let h' := store_bytes h sl bs in
  heap_ok h' /\ only_buffer b h h' /\ buffers h' = buffers h /\ take (length bs) (array_of h' sl) = bs.
Proof.
  intros Hok Hb Hlen h'. unfold h', store_bytes, slice_cap, array_of in *.
  destruct (sl_array sl) as [l|] eqn:E.
  2:{ destruct bs; simpl in *; [|lia]. split_and!; [done| |done|done].
      split; [apply elem_of_dom_2 in Hb; set_solver|done]. }
  destruct (ho_array h Hok b sl l Hb E) as (data & Hd & Hle). rewrite Hd in *. simpl in *. split_and!.
  - split; simpl; [|apply ho_nil, Hok|apply ho_inj, Hok].
    intros b' sl' l' Hb' E'. destruct (decide (l' = l)) as [->|Hl].
    + rewrite lookup_insert_eq. eexists. split; [done|]. rewrite length_app, length_drop.
      destruct (ho_array h Hok b' sl' l Hb' E') as (data' & Hd' & Hle'). assert (data' = data) as -> by congruence. lia.
    + rewrite lookup_insert_ne by done. by eapply ho_array.
  - split; [simpl; apply elem_of_dom_2 in Hb; set_solver|]. intros b' sl' Hbne Hb'. simpl. split; [done|].
    unfold array_of. simpl. destruct (sl_array sl') as [l'|] eqn:E'; [|done]. rewrite lookup_insert_ne; [done|].
    intros ->. apply Hbne. by eapply (ho_inj h Hok b' b).
  - done.
  - rewrite lookup_insert_eq. simpl. apply take_length_app.
Qed.

(** ** Owners of buffers *)

Section Owners.
Context `{BufferPool}.

(** [held] maps the buffers that are in use to the frame that uses them. *)
Record owners_ok (w : World) (held : gmap loc Frame) : Prop := {
  oo_heap : heap_ok (w_heap w);
  oo_pool : pool_contents (w_pool w) ⊆ dom (buffers (w_heap w));
  oo_held : forall b f, held !! b = Some f ->
    (b ∉ pool_contents (w_pool w)) /\ buffers (w_heap w) !! b = Some (f_Body f)
}.

(** Buffer [b] belongs to the caller: not held, not in the pool. *)
Record taken (w : World) (held : gmap loc Frame) (b : loc) : Prop := {
  tk_ok : owners_ok w held;
  tk_held : held !! b = None;
  tk_pool : b ∉ pool_contents (w_pool w);
  tk_buf : exists sl, buffers (w_heap w) !! b = Some sl
}.

(** The held frames keep their bodies. *)
Definition bodies_kept (held : gmap loc Frame) (w w' : World) : Prop :=
  forall b f, held !! b = Some f -> slice_bytes (w_heap w') (f_Body f) = slice_bytes (w_heap w) (f_Body f).

Lemma only_buffer_kept w w' held b :
  owners_ok w held -> held !! b = None -> only_buffer b (w_heap w) (w_heap w') -> bodies_kept held w w'.
Proof using Type.
  intros Hok Hb [_ Ho] b' f Hf. destruct (oo_held w held Hok b' f Hf) as [_ Hbuf].
  assert (b' <> b) as Hne by congruence. destruct (Ho b' _ Hne Hbuf) as [_ E]. unfold slice_bytes. by rewrite E.
Qed.

(** A buffer that is not held, taken out of the pool. *)
Lemma taken_intro w held b h' p :
  owners_ok w held -> held !! b = None -> pool_contents p ⊆ pool_contents (w_pool w) -> b ∉ pool_contents p ->
  heap_ok h' -> only_buffer b (w_heap w) h' -> taken (mkWorld h' p) held b.
Proof using Type.
  intros [H1 H2 H3] Hn Hp Hb Hok [Hd Ho]. split; simpl; [split; simpl|done|done|].
  - done.
  - set_solver.
  - intros b' f Hf. destruct (H3 b' f Hf) as [Hp' Hb']. split; [set_solver|]. apply Ho; [congruence|done].
  - apply elem_of_dom. rewrite Hd. set_solver.
Qed.

(** Changing only a taken buffer keeps it taken. *)
Lemma taken_update w held b h' :
  taken w held b -> heap_ok h' -> only_buffer b (w_heap w) h' -> taken (mkWorld h' (w_pool w)) held b.
Proof using Type.
  intros [Hw Hn Hp _] Hok Ho. by apply taken_intro with (w := w).
Qed.

Lemma Get_taken w held :
  owners_ok w held -> taken (Get w).1 held (Get w).2 /\ bodies_kept held w (Get w).1.
Proof using Type.
  intros Hw. pose proof Hw as [Hok Hpool Hheld]. unfold Get.
  destruct (pool_get (w_pool w)) as [[b|] p] eqn:Hg; cbn [fst snd].
  - apply pool_get_some in Hg as [Hb Hp]. pose proof (Hpool b Hb) as [sl Hsl]%elem_of_dom.
    assert (held !! b = None) as Hnone.
    { destruct (held !! b) as [f|] eqn:E; [|done]. by destruct (Hheld b f E). }
    assert (get_B (w_heap w) b = sl) as Hgb by (unfold get_B; by rewrite Hsl). rewrite Hgb.
    destruct (reslice_ok (w_heap w) b sl 0 Hok Hsl) as [Hok' Ho]; [lia|].
    split; [|by eapply only_buffer_kept]. by apply taken_intro with (w := w); [| |set_solver..].
  - apply pool_get_none in Hg. set (b := fresh (dom (buffers (w_heap w)))).
    assert (b ∉ dom (buffers (w_heap w))) as Hb by apply is_fresh.
    assert (held !! b = None) as Hnone.
    { destruct (held !! b) as [f|] eqn:E; [|done]. destruct (Hheld b f E) as [_ Hbuf]. by apply elem_of_dom_2 in Hbuf. }
    destruct (set_B_ok (w_heap w) b nil_slice Hok) as [Hok' Ho]; [done|done|].
    split; [|by eapply only_buffer_kept]. by apply taken_intro with (w := w); [| |set_solver..].
Qed.

Lemma Put_ok w held b : taken w held b -> owners_ok (Put w b) held.
Proof using Type.
  intros [[H1 H2 H3] Hn Hp [sl Hb]]. pose proof (pool_put_contents b (w_pool w)) as Hc.
  split; simpl; [done|apply elem_of_dom_2 in Hb; set_solver|].
  intros b' f Hf. destruct (H3 b' f Hf) as [Hp' Hb']. split; [|done]. intros Hin%Hc. set_solver.
Qed.

(** ** Reading refines parsing *)

(** What the reader makes of a byte stream, without the heap. *)
Definition parseFrame (r : bytes) (maxBodyBytes : Z) : result TransportError (FrameHeader * bytes) * bytes :=
  if (length r <? 28)%nat then (Err frame_header_read_failed, [])
  else
    let header := DecodeHeader (take 28 r) in
    let r := drop 28 r in
    match validateHeader header with
    | Err e => (Err e, r)
    | Ok _ =>
        if (0 <? maxBodyBytes) && (maxBodyBytes <? fh_BodyLen header) then (Err frame_body_too_large, r)
        else if (length r <? Z.to_nat (fh_BodyLen header))%nat then (Err frame_body_read_failed, [])
        else (Ok (header, take (Z.to_nat (fh_BodyLen header)) r), drop (Z.to_nat (fh_BodyLen header)) r)
    end.

(** Filling a taken buffer. *)
Lemma fill_taken w held b n raw :
  taken w held b -> (length raw <= n)%nat ->
  let h1 := reserve (w_heap w) b n in
  let w' := mkWorld (store_bytes h1 (get_B h1 b) raw) (w_pool w) in
  taken w' held b /\ bodies_kept held w w' /\
  (length raw = n -> slice_bytes (w_heap w') (get_B (w_heap w') b) = raw).
Proof using Type.
  intros Ht Hraw h1 w'. pose proof Ht as [Hw Hn _ [sl Hb]].
  destruct (reserve_ok (w_heap w) b n sl (oo_heap _ _ Hw) Hb) as (Hok1 & Ho1 & sl1 & Hb1 & Hl1 & Hc1).
  fold h1 in Hok1, Ho1, Hb1, Hc1. assert (get_B h1 b = sl1) as Hg1 by (unfold get_B; by rewrite Hb1).
  destruct (store_bytes_ok h1 b sl1 raw Hok1 Hb1) as (Hok2 & Ho2 & Hb2 & Htake); [lia|]. rewrite <- Hg1 in Hok2, Ho2.
  assert (only_buffer b (w_heap w) (w_heap w')) as Ho by (by etrans).
  split_and!; [by apply taken_update|by eapply only_buffer_kept|].
  intros Hn'. unfold w'. cbn [w_heap]. rewrite Hg1.
  assert (get_B (store_bytes h1 sl1 raw) b = sl1) as -> by (unfold get_B; by rewrite Hb2, Hb1).
  unfold slice_bytes. rewrite Hl1, <- Hn'. exact Htake.
Qed.

(** Holding a taken buffer. *)
Lemma hold w held b f : taken w held b -> get_B (w_heap w) b = f_Body f -> owners_ok w (<[b := f]> held).
Proof using Type.
  intros [[H1 H2 H3] Hn Hp [sl Hb]] Hf. split; [done|done|].
  intros b' f'. rewrite lookup_insert_Some. intros [[<- <-]|[Hne Hf']]; [|by apply H3].
  split; [done|]. unfold get_B in Hf. rewrite Hb in Hf. simpl in Hf. by rewrite Hb, Hf.
Qed.

Lemma decoded_body_len r : (28 <= length r)%nat -> is_u32 (fh_BodyLen (DecodeHeader (take 28 r))).
Proof using Type.
  intros Hl. assert (length (take 28 r) = 28%nat) as E by (rewrite length_take; lia).
  destruct (Encode_DecodeHeader _ E) as [Hf _]. unfold header_fits in Hf. tauto.
Qed.

(** What a read returns, in terms of the stream. *)
Definition read_matches (held : gmap loc Frame) (p : result TransportError (FrameHeader * bytes)) (w' : World)
    (res : result TransportError PooledFrame) : Prop :=
  match res with
  | Err e => p = Err e /\ owners_ok w' held
  | Ok pf =>
      p = Ok (f_Header (pf_Frame pf), slice_bytes (w_heap w') (f_Body (pf_Frame pf))) /\
      match pf_release pf with
      | None => f_Body (pf_Frame pf) = nil_slice /\ owners_ok w' held
      | Some b => held !! b = None /\ owners_ok w' (<[b := pf_Frame pf]> held)
      end
  end.

Lemma read_refines w held r maxBodyBytes :
  owners_ok w held ->
  let '(w', r', res) := ReadFrameWithLimitPooled w r maxBodyBytes in
  r' = (parseFrame r maxBodyBytes).2 /\ bodies_kept held w w' /\
  read_matches held (parseFrame r maxBodyBytes).1 w' res.
Proof using Type.
  intros Hw. unfold ReadFrameWithLimitPooled, parseFrame, ReadFull. change (Z.to_nat HeaderLen) with 28%nat.
  destruct (Nat.leb_spec 28 (length r)) as [Hl|Hl].
  2:{ rewrite (proj2 (Nat.ltb_lt _ _)) by lia. rewrite drop_ge by lia. done. }
  rewrite (proj2 (Nat.ltb_ge _ _)) by lia. pose proof (decoded_body_len r Hl) as Hbl.
  set (hd := DecodeHeader (take 28 r)) in *. cbv zeta. destruct (validateHeader hd) as [[]|e]; [|done].
  destruct ((0 <? maxBodyBytes) && (maxBodyBytes <? fh_BodyLen hd)); [done|].
  unfold is_u32 in Hbl. rewrite (proj2 (Z.ltb_ge (2 ^ 63 - 1) _)) by lia.
  destruct (Z.eqb_spec (fh_BodyLen hd) 0) as [E|E].
  { rewrite E. simpl. done. }
  set (n := Z.to_nat (fh_BodyLen hd)). destruct (Get_taken w held Hw) as [Ht Hk].
  destruct (Get w) as [w1 b]. cbn [fst snd] in *. fold (reserve (w_heap w1) b n).
  destruct (fill_taken w1 held b n (take n (drop 28 r)) Ht) as (Ht2 & Hk2 & Hs); [rewrite length_take; lia|].
  set (w2 := mkWorld _ _) in *.
  assert (bodies_kept held w w2) as Hkept by (intros b' f Hf; by rewrite (Hk2 b' f Hf), (Hk b' f Hf)).
  destruct (Nat.leb_spec n (length (drop 28 r))) as [Hn|Hn].
  - rewrite (proj2 (Nat.ltb_ge _ _)) by done. split_and!; [done|done|]. simpl. split.
    + do 2 f_equal. symmetry. apply Hs. rewrite length_take. lia.
    + split; [apply Ht2|by apply hold].
  - rewrite (proj2 (Nat.ltb_lt _ _)) by done. split_and!; [by rewrite drop_ge by lia|done|]. simpl. split; [done|].
    by apply Put_ok.
Qed.

Lemma parse_encoded hd body rest maxBodyBytes :
  header_fits hd -> validateHeader hd = Ok tt -> fh_BodyLen hd = len body ->
  maxBodyBytes = 0 \/ fh_BodyLen hd <= maxBodyBytes ->
  parseFrame (Encode hd ++ body ++ rest) maxBodyBytes = (Ok (hd, body), rest).
Proof using Type.
  intros Hf Hv Hb Hm. unfold parseFrame. rewrite length_app, length_Encode.
  rewrite (proj2 (Nat.ltb_ge _ _)) by lia.
  rewrite (take_app_le _ _ 28), (take_ge _ 28), (drop_app_ge _ _ 28), length_Encode, drop_0 by (rewrite ?length_Encode; lia).
  rewrite DecodeHeader_Encode, Hv by done.
  replace ((0 <? maxBodyBytes) && (maxBodyBytes <? fh_BodyLen hd)) with false.
  2:{ symmetry. apply andb_false_iff. destruct Hm; [left|right]; apply Z.ltb_ge; lia. }
  unfold len in Hb. rewrite Hb, Nat2Z.id, length_app. rewrite (proj2 (Nat.ltb_ge _ _)) by lia.
  by rewrite take_app_length, drop_app_length.
Qed.

Lemma parse_sound r maxBodyBytes hd body r' :
  parseFrame r maxBodyBytes = (Ok (hd, body), r') ->
  r = Encode hd ++ body ++ r' /\ header_fits hd /\ validateHeader hd = Ok tt /\ fh_BodyLen hd = len body /\
  (0 < maxBodyBytes -> len body <= maxBodyBytes).
Proof using Type.
  unfold parseFrame. destruct (Nat.ltb_spec (length r) 28) as [|Hl]; [done|]. cbv zeta.
  assert (length (take 28 r) = 28%nat) as E by (rewrite length_take; lia).
  destruct (Encode_DecodeHeader _ E) as [Hf He]. pose proof (decoded_body_len r Hl) as Hbl.
  generalize dependent (DecodeHeader (take 28 r)). intros h Hf He Hbl. unfold is_u32 in Hbl.
  destruct (validateHeader h) as [[]|] eqn:Hv; [|done].
  destruct ((0 <? maxBodyBytes) && (maxBodyBytes <? fh_BodyLen h)) eqn:Hm; [done|].
  destruct (Nat.ltb_spec (length (drop 28 r)) (Z.to_nat (fh_BodyLen h))) as [|Hn]; [done|]. intros [= <- <- <-].
  assert (len (take (Z.to_nat (fh_BodyLen h)) (drop 28 r)) = fh_BodyLen h) as Hlen
    by (unfold len; rewrite length_take; lia).
  split_and!; [by rewrite He, !take_drop|done|done|done|]. intros Hpos. rewrite Hlen.
  apply andb_false_iff in Hm as [?%Z.ltb_ge|?%Z.ltb_ge]; lia.
Qed.

(** A written frame is read back.  [WriteFrame] to a buffer followed by
    [ReadFrameWithLimitPooled] with a limit that admits the body returns the
    same header and the same body, and leaves the reader just behind the
    frame. *)
Theorem frame_roundtrip w held heap frame out rest maxBodyBytes :
  owners_ok w held -> header_fits (f_Header frame) -> validateHeader (f_Header frame) = Ok tt ->
  (sl_len (f_Body frame) <= slice_cap heap (f_Body frame))%nat ->
  fh_BodyLen (f_Header frame) = Z.of_nat (sl_len (f_Body frame)) ->
  maxBodyBytes = 0 \/ fh_BodyLen (f_Header frame) <= maxBodyBytes ->
  WriteFrame heap [] frame = (out, Ok tt) ->
  exists w' pf, ReadFrameWithLimitPooled w (out ++ rest) maxBodyBytes = (w', rest, Ok pf) /\
    f_Header (pf_Frame pf) = f_Header frame /\
    slice_bytes (w_heap w') (f_Body (pf_Frame pf)) = slice_bytes heap (f_Body frame).
Proof using Type.
  intros Hw Hf Hv Hcap Hlen Hm Hout. set (body := slice_bytes heap (f_Body frame)).
  assert (len body = fh_BodyLen (f_Header frame)) as Hb.
  { unfold body, slice_bytes, len, slice_cap in *. rewrite length_take, Hlen. lia. }
  assert (out = Encode (f_Header frame) ++ body) as ->.
  { unfold WriteFrame, Write in Hout. simpl in Hout. destruct (decide _) as [E|E].
    - injection Hout as <-. unfold body, slice_bytes. by rewrite E, app_nil_r.
    - by injection Hout as <-. }
  rewrite <- app_assoc. pose proof (read_refines w held (Encode (f_Header frame) ++ body ++ rest) maxBodyBytes Hw) as Hr.
  destruct (ReadFrameWithLimitPooled _ _ _) as [[w' r'] res].
  rewrite (parse_encoded _ _ _ _ Hf Hv) in Hr by done. destruct Hr as (-> & _ & Hmatch). simpl in *.
  destruct res as [pf|e]; simpl in Hmatch; [|by destruct Hmatch]. destruct Hmatch as [[= E1 E2] _].
  by exists w', pf.
Qed.

(** What a reader accepts.  A frame that is read starts with the magic
    number and the supported header length; its body has the length the
    header announces, at most the limit; header and body are the bytes
    consumed from the stream, and nothing more is consumed. *)
Theorem read_accepts_only_frames w held r maxBodyBytes w' r' pf :
  owners_ok w held -> ReadFrameWithLimitPooled w r maxBodyBytes = (w', r', Ok pf) ->
  let hd := f_Header (pf_Frame pf) in
  let body := slice_bytes (w_heap w') (f_Body (pf_Frame pf)) in
  r = Encode hd ++ body ++ r' /\ fh_Magic hd = Magic /\ fh_HeaderLen hd = HeaderLen /\
  fh_BodyLen hd = len body /\ (0 < maxBodyBytes -> len body <= maxBodyBytes).
Proof using Type.
  intros Hw Hr hd body. pose proof (read_refines w held r maxBodyBytes Hw) as Href. rewrite Hr in Href.
  destruct (parseFrame r maxBodyBytes) as [p r1] eqn:Hp. destruct Href as (-> & _ & Hmatch). simpl in Hmatch.
  destruct Hmatch as [-> _]. apply parse_sound in Hp as (E & _ & Hv & Hl & Hm).
  unfold validateHeader in Hv. destruct (Z.eqb_spec (fh_Magic (f_Header (pf_Frame pf))) Magic); [|done].
  destruct (Z.eqb_spec (fh_HeaderLen (f_Header (pf_Frame pf))) HeaderLen); [|done]. by split_and!.
Qed.

(** ** Who may change a body *)

(** Steps of a process that reads and releases frames: [held] are the pooled
    frames it has not released. *)
Inductive io_step : World * gmap loc Frame -> World * gmap loc Frame -> Prop :=
| io_read w held r maxBodyBytes w' r' pf b :
    ReadFrameWithLimitPooled w r maxBodyBytes = (w', r', Ok pf) -> pf_release pf = Some b ->
    io_step (w, held) (w', <[b := pf_Frame pf]> held)
| io_read_empty w held r maxBodyBytes w' r' pf :
    ReadFrameWithLimitPooled w r maxBodyBytes = (w', r', Ok pf) -> pf_release pf = None ->
    io_step (w, held) (w', held)
| io_read_error w held r maxBodyBytes w' r' e :
    ReadFrameWithLimitPooled w r maxBodyBytes = (w', r', Err e) -> io_step (w, held) (w', held)
| io_release w held b f :
    held !! b = Some f -> io_step (w, held) ((Release w (mkPooledFrame f (Some b))).1, delete b held)
| io_copy w held b n raw :
    (Get w).2 = b -> length raw = n ->
    let w1 := (Get w).1 in
    let h1 := reserve (w_heap w1) b n in
    let w2 := mkWorld (store_bytes h1 (get_B h1 b) raw) (w_pool w1) in
    io_step (w, held) ((CopyAndPut w2 (Some b)).1, held).

Lemma release_ok w held b f : owners_ok w held -> held !! b = Some f -> owners_ok (Put w b) (delete b held).
Proof using Type.
  intros [H1 H2 H3] Hb. apply Put_ok. destruct (H3 b f Hb) as [Hp Hbuf]. split; [split|..].
  - done.
  - done.
  - intros b' f'. rewrite lookup_delete_Some. intros [_ ?]. by apply H3.
  - apply lookup_delete_eq.
  - done.
  - by eexists.
Qed.

(** A step keeps the invariant, and the bodies of the frames held before it. *)
Lemma io_step_ok x y : io_step x y -> owners_ok x.1 x.2 -> owners_ok y.1 y.2 /\ bodies_kept x.2 x.1 y.1.
Proof using Type.
  intros Hstep Hw. destruct Hstep as [w held r m w' r' pf b Hr Hb|w held r m w' r' pf Hr Hb|w held r m w' r' e Hr|w held b f Hb|w held b n raw Hb Hn w1 h1 w2];
    cbn [fst snd] in *.
  1-3: pose proof (read_refines w held r m Hw) as Href; rewrite Hr in Href; destruct Href as (_ & Hk & Hm).
  - split; [|done]. simpl in Hm. rewrite Hb in Hm. apply Hm.
  - split; [|done]. simpl in Hm. rewrite Hb in Hm. apply Hm.
  - split; [|done]. apply Hm.
  - split; [by eapply release_ok|done].
  - destruct (Get_taken w held Hw) as [Ht Hk]. rewrite Hb in Ht. fold w1 in Ht, Hk.
    destruct (fill_taken w1 held b n raw Ht) as (Ht2 & Hk2 & _); [lia|]. fold h1 in Ht2, Hk2. fold w2 in Ht2, Hk2.
    assert (bodies_kept held w w2) as Hkept by (intros b' f Hf; by rewrite (Hk2 b' f Hf), (Hk b' f Hf)).
    unfold CopyAndPut. destruct (slice_bytes _ _); (split; [by apply Put_ok|done]).
Qed.

Lemma io_steps_ok x y : rtc io_step x y -> owners_ok x.1 x.2 -> owners_ok y.1 y.2.
Proof using Type. induction 1 as [|x y z Hs _ IH]; [done|]. intros Hx. apply IH. by eapply io_step_ok. Qed.

(** C28: a pooled frame owns its body.  From an empty heap, after any reads,
    releases and uses of scratch buffers, the body of a frame that has not
    been released stays what it was while any further such steps run that do
    not release it, whatever the pool does with the buffers it was given. *)
Theorem pooled_body_stable pool x y b f :
  pool_contents pool = ∅ ->
  rtc io_step (mkWorld (mkHeap ∅ ∅) pool, ∅) x -> x.2 !! b = Some f ->
  rtc (fun x y => io_step x y /\ y.2 !! b = Some f) x y ->
  slice_bytes (w_heap y.1) (f_Body f) = slice_bytes (w_heap x.1) (f_Body f).
Proof using Type.
  intros Hp Hx Hb Hy. apply io_steps_ok in Hx.
  2:{ split; simpl; [by split|set_solver|done]. }
  induction Hy as [|x y z [Hs Hby] _ IH]; [done|]. destruct (io_step_ok _ _ Hs Hx) as [Hok Hk].
  rewrite IH by done. by apply (Hk b).
Qed.

End Owners.

(** ** A pool that always reuses *)

Definition set_get (p : gset loc) : option loc * gset loc :=
  match elements p with [] => (None, p) | b :: _ => (Some b, p ∖ {[b]}) end.

Lemma set_get_some p b p' : set_get p = (Some b, p') -> b ∈ p /\ p' ⊆ p ∖ {[b]}.
Proof.
  unfold set_get. destruct (elements p) as [|b' l] eqn:E; [done|]. intros [= <- <-]. split; [|done].
  apply elem_of_elements. rewrite E. by left.
Qed.

Lemma set_get_none p p' : set_get p = (None, p') -> p' ⊆ p.
Proof. unfold set_get. by destruct (elements p); intros [= <-]. Qed.

Lemma set_put_contents (b : loc) (p : gset loc) : {[b]} ∪ p ⊆ {[b]} ∪ p.
Proof. done. Qed.

#[export] Instance set_pool : BufferPool :=
  {| Pool := gset loc;
     pool_contents := fun p => p;
     pool_get := set_get;
     pool_put := fun b p => {[b]} ∪ p;
     pool_get_some := set_get_some;
     pool_get_none := set_get_none;
     pool_put_contents := set_put_contents |}.

Lemma triple_eta {A B C} (x : A * B * C) c : x.2 = c -> x = (x.1.1, x.1.2, c).
Proof. intros <-. by destruct x as [[? ?] ?]. Qed.

Definition ex_world : World := mkWorld (mkHeap ∅ ∅) (∅ : gset loc).
Definition ex_frame_bytes (body : bytes) : bytes := Encode (NewFrameHeader 1 7 (len body)) ++ body.

(** Two frames of the same length on one connection.  The frame returned by
    the first [ReadFrame] says one thing before the second [ReadFrame] and
    another after it: its buffer went back to the pool with the body still in
    use. *)
Lemma read_frame_body_overwritten :
  let '(w1, r1, res1) :=
    ReadFrame ex_world (ex_frame_bytes [Byte.x61; Byte.x62] ++ ex_frame_bytes [Byte.x63; Byte.x64]) in
  let '(w2, _, _) := ReadFrame w1 r1 in
  exists f1, res1 = Ok f1 /\
    slice_bytes (w_heap w1) (f_Body f1) = [Byte.x61; Byte.x62] /\
    slice_bytes (w_heap w2) (f_Body f1) = [Byte.x63; Byte.x64].
Proof. vm_compute. eexists. split; [reflexivity|]. split; reflexivity. Qed.

Lemma header_roundtrip_witness :
  DecodeHeader (Encode (NewFrameHeader 1 7 300)) = NewFrameHeader 1 7 300.
Proof.
  apply (header_roundtrip (NewFrameHeader 1 7 300) (replicate 28 Byte.x00)); [|reflexivity].
  apply (bool_decide_unpack _). vm_compute. exact I.
Defined.

Lemma ex_world_ok : owners_ok ex_world ∅.
Proof. split; simpl; [by split|done|done]. Qed.

Definition ex_heap : Heap := mkHeap {[0%nat := [Byte.x61; Byte.x62]]} ∅.
Definition ex_frame : Frame := mkFrame (NewFrameHeader 1 7 2) (mkSlice (Some 0%nat) 2).

Lemma frame_roundtrip_witness :
  exists w' pf,
    ReadFrameWithLimitPooled ex_world (ex_frame_bytes [Byte.x61; Byte.x62] ++ [Byte.x00]) 2 = (w', [Byte.x00], Ok pf) /\
    slice_bytes (w_heap w') (f_Body (pf_Frame pf)) = [Byte.x61; Byte.x62].
Proof.
  destruct (frame_roundtrip ex_world ∅ ex_heap ex_frame (ex_frame_bytes [Byte.x61; Byte.x62]) [Byte.x00] 2) as (w' & pf & Hr & _ & Hb).
  - exact ex_world_ok.
  - apply (bool_decide_unpack _). vm_compute. exact I.
  - reflexivity.
  - vm_compute. lia.
  - reflexivity.
  - right. vm_compute. discriminate.
  - reflexivity.
  - exists w', pf. split; [exact Hr|exact Hb].
Defined.

Definition ex_stream : bytes := ex_frame_bytes [Byte.x61; Byte.x62] ++ ex_frame_bytes [Byte.x63; Byte.x64].
Definition ex_read1 := ReadFrameWithLimitPooled ex_world ex_stream 8.
Definition ex_pf1 : PooledFrame :=
  match ex_read1.2 with Ok pf => pf | Err _ => mkPooledFrame ex_frame None end.
Definition ex_read2 := ReadFrameWithLimitPooled ex_read1.1.1 ex_read1.1.2 8.
Definition ex_pf2 : PooledFrame :=
  match ex_read2.2 with Ok pf => pf | Err _ => mkPooledFrame ex_frame None end.

Lemma ex_read1_eq : ex_read1 = (ex_read1.1.1, ex_read1.1.2, Ok ex_pf1).
Proof. apply triple_eta. vm_compute. reflexivity. Qed.

Lemma ex_read2_eq : ex_read2 = (ex_read2.1.1, ex_read2.1.2, Ok ex_pf2).
Proof. apply triple_eta. vm_compute. reflexivity. Qed.

Lemma read_accepts_only_frames_witness :
  fh_Magic (f_Header (pf_Frame ex_pf1)) = Magic /\ 2 <= 8.
Proof.
  split; [|lia].
  apply (read_accepts_only_frames ex_world ∅ ex_stream 8
           ex_read1.1.1 ex_read1.1.2 ex_pf1); [exact ex_world_ok|exact ex_read1_eq].
Defined.

(** Reading the second frame before the first is released. *)
Lemma pooled_body_stable_witness :
  slice_bytes (w_heap ex_read2.1.1) (f_Body (pf_Frame ex_pf1)) = [Byte.x61; Byte.x62].
Proof.
  assert (pf_release ex_pf1 = Some 0%nat) as Hb1 by (vm_compute; reflexivity).
  assert (pf_release ex_pf2 = Some 1%nat) as Hb2 by (vm_compute; reflexivity).
  etransitivity.
  - apply (@pooled_body_stable set_pool (∅ : gset loc) (ex_read1.1.1, <[0%nat := pf_Frame ex_pf1]> ∅)
             (ex_read2.1.1, <[1%nat := pf_Frame ex_pf2]> (<[0%nat := pf_Frame ex_pf1]> ∅)) 0%nat).
    + reflexivity.
    + apply rtc_once. apply (io_read ex_world ∅ ex_stream 8 ex_read1.1.1 ex_read1.1.2 ex_pf1); [exact ex_read1_eq|exact Hb1].
    + reflexivity.
    + apply rtc_once. split; [|reflexivity].
      apply (io_read ex_read1.1.1 (<[0%nat := pf_Frame ex_pf1]> ∅) ex_read1.1.2 8 ex_read2.1.1 ex_read2.1.2 ex_pf2); [exact ex_read2_eq|exact Hb2].
  - vm_compute. reflexivity.
Defined.
