(* ===== verification/RaftCodec.v ===== *)
(** * The binary codec of replicated commands

    [src/broker/raft_binary_codec.go], [raft_binary_produce_codec.go],
    [raft_binary_commit_codec.go], [raft_binary_transaction_codec.go] and the
    binary branch of [applyRaftCommand] in [service_raft_commands.go].

    Batches of produce requests and of offset commits, which the broker
    proposes to the replicas most often, have a binary form; every other
    command is proposed as JSON.  A payload is an [any] in the source: here a
    [raftPayload], the two typed payloads and [OtherPayload] for the rest.
    What a replica answers is a [raftValue].  The stages recorded for metrics
    are not state. *)

From stdpp Require Import prelude gmap strings list.
From S2P Require Import Prelude Model MemoryStore MetaStore Idempotency Produce Acks Wire.

#[local] Open Scope Z_scope.

(** * The binary format of replicated commands: primitives

    [src/broker/raft_binary_io.go].  A [raftBinaryWriter] is the buffer written
    so far and a [raftBinaryReader] the input that is left, both computations of
    the monad of [Wire] with the errors of the broker: a short input is
    [raft_binary_read_failed], a length that does not fit its prefix and
    trailing bytes are codec errors of the store.  Writes to the in-memory
    buffer do not fail, so the [panic]s of the source are unreachable. *)

(** The monad of the codec. *)
Abbreviation RM := (ME BrokerError).

Definition raft_binary_read_failed : BrokerError := BrokerFailure "raft_binary_read_failed".

Definition checkedRaftUint16 (value : Z) : result BrokerError Z :=
  if (value <? 0) || (2 ^ 16 - 1 <? value) then Err (StoreError CodeCodec) else Ok (u16 value).

Definition checkedRaftUint32 (value : Z) : result BrokerError Z :=
  if (value <? 0) || (2 ^ 32 - 1 <? value) then Err (StoreError CodeCodec) else Ok (u32 value).

(** [int] has 64 bits. *)
Definition intFromRaftUint32 (value : Z) : result BrokerError Z :=
  let maxInt := 2 ^ 63 - 1 in
  if maxInt <? value then Err (BrokerFailure "raft_binary_length_convert_failed") else Ok value.

(** ** [raftBinaryWriter] *)

Definition writeRaw (value : bytes) : RM unit := write value.

Definition writeU8 (value : Z) : RM unit := writeRaw [byte_of_Z value].
Definition writeBool (value : bool) : RM unit := if value then writeU8 1 else writeU8 0.
Definition writeU16 (value : Z) : RM unit := writeRaw (put_be 2 value).
Definition writeU32 (value : Z) : RM unit := writeRaw (put_be 4 value).
Definition writeU64 (value : Z) : RM unit := writeRaw (put_be 8 value).

Definition writeOptionalU64 (value : option Z) : RM unit :=
  match value with None => writeBool false | Some value => writeBool true;; writeU64 value end.

Definition writeString (value : string) : RM unit :=
  let raw := String.list_byte_of_string value in
  size ← of_result (checkedRaftUint16 (len raw));
  writeU16 size;; writeRaw raw.

Definition writeBytes (value : bytes) : RM unit :=
  size ← of_result (checkedRaftUint32 (len value));
  writeU32 size;; writeRaw value.

(** ** [raftBinaryReader] *)

Definition readU8 : RM Z := raw ← ReadFull raft_binary_read_failed 1; mret (get_be raw).
Definition readBool : RM bool := value ← readU8; mret (negb (value =? 0)).
Definition readU16 : RM Z := raw ← ReadFull raft_binary_read_failed 2; mret (get_be raw).
Definition readU32 : RM Z := raw ← ReadFull raft_binary_read_failed 4; mret (get_be raw).
Definition readU64 : RM Z := raw ← ReadFull raft_binary_read_failed 8; mret (get_be raw).

Definition readOptionalU64 : RM (option Z) :=
  ok ← readBool; if negb ok then mret None else value ← readU64; mret (Some value).

Definition readFixedBytes (size : Z) : RM bytes :=
  length ← of_result (intFromRaftUint32 size);
  if length =? 0 then mret [] else ReadFull raft_binary_read_failed (Z.to_nat length).

Definition readString : RM string :=
  size ← readU16;
  raw ← readFixedBytes size;
  mret (String.string_of_list_byte raw).

Definition readBytes : RM bytes := size ← readU32; readFixedBytes size.

Definition ensureEOF : RM unit := fun s =>
  if negb (len s =? 0) then Err (StoreError CodeCodec) else Ok (tt, s).

(** [wrapBroker]: an error keeps the store code it wraps, which is what
    [store.ErrorCode] reports; any other error takes the code of the wrapper. *)
Definition wrapBroker (code : string) (e : BrokerError) : BrokerError :=
  match e with StoreError c => StoreError c | BrokerFailure _ => BrokerFailure code end.

(** The bytes of a writer that starts empty. *)
Definition writer_bytes (w : RM unit) : result BrokerError bytes := '(_, buf) ← w []; Ok buf.

(** The value read from the whole of [data]. *)
Definition read_all {A} (r : RM A) (data : bytes) : result BrokerError A :=
  '(a, _) ← (a ← r; ensureEOF;; mret a) data; Ok a.

(** ** Partitioning *)

Definition raftPartitioningDefault : Z := 0.
Definition raftPartitioningExplicit : Z := 1.
Definition raftPartitioningRoundRobin : Z := 2.
Definition raftPartitioningKeyHash : Z := 3.
Definition raftPartitioningRoutingKey : Z := 4.

Definition encodeRaftPartitioning (mode : string) : Z :=
  if decide (mode = PartitionExplicit) then raftPartitioningExplicit
  else if decide (mode = PartitionRoundRobin) then raftPartitioningRoundRobin
  else if decide (mode = PartitionKeyHash) then raftPartitioningKeyHash
  else if decide (mode = PartitionRoutingKeyHash) then raftPartitioningRoutingKey
  else raftPartitioningDefault.

Definition readRaftPartitioning : RM PublishPartitioning :=
  mode ← readU8;
  partition ← readU32;
  if mode =? raftPartitioningDefault then mret (mkPublishPartitioning "" partition "")
  else if mode =? raftPartitioningExplicit then mret (mkPublishPartitioning PartitionExplicit partition "")
  else if mode =? raftPartitioningRoundRobin then mret (mkPublishPartitioning PartitionRoundRobin partition "")
  else if mode =? raftPartitioningKeyHash then mret (mkPublishPartitioning PartitionKeyHash partition "")
  else if mode =? raftPartitioningRoutingKey then mret (mkPublishPartitioning PartitionRoutingKeyHash partition "")
  else fail (StoreError CodeCodec).

(** ** Transactions *)

Definition encodeRaftTransactionControl (controlType : string) : Z :=
  if decide (controlType = TransactionControlNone) then 0
  else if decide (controlType = TransactionControlCommit) then 1
  else if decide (controlType = TransactionControlAbort) then 2
  else 0.

Definition readRaftTransactionControl : RM string :=
  value ← readU8;
  if value =? 0 then mret TransactionControlNone
  else if value =? 1 then mret TransactionControlCommit
  else if value =? 2 then mret TransactionControlAbort
  else fail (StoreError CodeCodec).

Definition writeBinaryTransactionRecordMetadata (metadata : option TransactionRecordMetadata) : RM unit :=
  match metadata with
  | None => writeBool false
  | Some metadata =>
      writeBool true;;
      writeU64 (trm_TxID metadata);;
      writeU64 (trm_ProducerID metadata);;
      writeU64 (trm_ProducerEpoch metadata);;
      writeU64 (trm_Sequence metadata);;
      writeU8 (encodeRaftTransactionControl (trm_ControlType metadata))
  end.

Definition readBinaryTransactionRecordMetadata : RM (option TransactionRecordMetadata) :=
  ok ← readBool;
  if negb ok then mret None
  else
    txID ← readU64;
    producerID ← readU64;
    producerEpoch ← readU64;
    sequence ← readU64;
    controlType ← readRaftTransactionControl;
    mret (Some (mkTransactionRecordMetadata txID producerID producerEpoch sequence controlType)).

(** ** Records *)

Definition writeBinaryRecordHeader (header : RecordHeader) : RM unit :=
  writeString (rh_Key header);; writeBytes (rh_Value header).

Definition writeBinaryRecordHeaders (headers : list RecordHeader) : RM unit :=
  count ← of_result (checkedRaftUint16 (len headers));
  writeU16 count;;
  for_each writeBinaryRecordHeader headers.

Definition readBinaryRecordHeader : RM RecordHeader :=
  key ← readString; value ← readBytes; mret (mkRecordHeader key value).

Definition readBinaryRecordHeaders : RM (list RecordHeader) :=
  count ← readU16;
  for_range (Z.to_nat count) readBinaryRecordHeader.

Definition writeBinaryRecordAppend (record : RecordAppend) : RM unit :=
  writeOptionalU64 (ra_TimestampMS record);;
  writeOptionalU64 (ra_ExpiresAtMS record);;
  writeBytes (ra_Key record);;
  writeBinaryRecordHeaders (ra_Headers record);;
  writeU16 (ra_Attributes record);;
  writeBinaryTransactionRecordMetadata (ra_Transaction record);;
  writeBytes (ra_Payload record).

Definition readBinaryRecordAppend : RM RecordAppend :=
  timestampMS ← readOptionalU64;
  expiresAtMS ← readOptionalU64;
  key ← readBytes;
  headers ← readBinaryRecordHeaders;
  attributes ← readU16;
  transaction ← readBinaryTransactionRecordMetadata;
  payload ← readBytes;
  mret (mkRecordAppend timestampMS key headers attributes transaction expiresAtMS payload).

Definition readBinaryRecordAppends : RM (list RecordAppend) :=
  count ← readU32;
  size ← of_result (intFromRaftUint32 count);
  for_range (Z.to_nat size) readBinaryRecordAppend.

(** ** Batches of produce requests *)

Definition writeBinaryProduceIdempotency (id : option ProduceIdempotency) : RM unit :=
  match id with
  | None => writeBool false
  | Some id =>
      writeBool true;;
      writeU64 (pi_ProducerID id);;
      writeU64 (pi_ProducerEpoch id);;
      writeU64 (pi_BaseSequence id)
  end.

Definition readBinaryProduceIdempotency : RM (option ProduceIdempotency) :=
  ok ← readBool;
  if negb ok then mret None
  else
    producerID ← readU64;
    producerEpoch ← readU64;
    baseSequence ← readU64;
    mret (Some (mkProduceIdempotency producerID producerEpoch baseSequence)).

Definition writeBinaryProduceBatch (item : produceBatchCommand) : RM unit :=
  writeString (pbc_Topic item);;
  writeU8 (encodeRaftPartitioning (pp_Mode (pbc_Partitioning item)));;
  writeU32 (pp_Partition (pbc_Partitioning item));;
  writeBinaryProduceIdempotency (pbc_Idempotency item);;
  recordCount ← of_result (checkedRaftUint32 (len (pbc_Records item)));
  writeU32 recordCount;;
  for_each writeBinaryRecordAppend (pbc_Records item).

Definition readBinaryProduceBatch : RM produceBatchCommand :=
  topic ← readString;
  partitioning ← readRaftPartitioning;
  idempotency ← readBinaryProduceIdempotency;
  records ← readBinaryRecordAppends;
  mret (mkProduceBatchCommand topic partitioning records idempotency).

Definition writeBinaryProduceBatchRequests (requests : list produceBatchCommand) : RM unit :=
  count ← of_result (checkedRaftUint32 (len requests));
  writeU32 count;;
  for_each writeBinaryProduceBatch requests.

Definition readBinaryProduceBatchRequests : RM (list produceBatchCommand) :=
  count ← readU32;
  size ← of_result (intFromRaftUint32 count);
  for_range (Z.to_nat size) readBinaryProduceBatch.

Definition encodeBinaryProduceBatchesCommand (requests : list produceBatchCommand) : result BrokerError bytes :=
  writer_bytes (writeBinaryProduceBatchRequests requests).

Definition decodeBinaryProduceBatchesCommand (data : bytes) : result BrokerError (list produceBatchCommand) :=
  read_all readBinaryProduceBatchRequests data.

(** ** Batches of commits *)

Definition writeBinaryCommitOffsetCommand (item : commitOffsetCommand) : RM unit :=
  writeString (coc_Consumer item);;
  writeString (coc_Topic item);;
  writeU32 (coc_Partition item);;
  writeU64 (coc_NextOffset item);;
  writeOptionalU64 (coc_AckOffset item);;
  writeU64 (coc_UpdatedAtMS item);;
  writeString (coc_Metadata item).

Definition readBinaryCommitOffsetCommand : RM commitOffsetCommand :=
  consumer ← readString;
  topic ← readString;
  partition ← readU32;
  nextOffset ← readU64;
  ackOffset ← readOptionalU64;
  updatedAtMS ← readU64;
  metadata ← readString;
  mret (mkCommitOffsetCommand consumer topic partition nextOffset ackOffset metadata updatedAtMS).

Definition readBinaryCommitOffsetCommands : RM (list commitOffsetCommand) :=
  count ← readU32;
  size ← of_result (intFromRaftUint32 count);
  for_range (Z.to_nat size) readBinaryCommitOffsetCommand.

Definition writeBinaryCommitOffsetCommands (requests : list commitOffsetCommand) : RM unit :=
  count ← of_result (checkedRaftUint32 (len requests));
  writeU32 count;;
  for_each writeBinaryCommitOffsetCommand requests.

Definition encodeBinaryCommitOffsetsCommand (requests : list commitOffsetCommand) : result BrokerError bytes :=
  writer_bytes (writeBinaryCommitOffsetCommands requests).

Definition decodeBinaryCommitOffsetsCommand (data : bytes) : result BrokerError (list commitOffsetCommand) :=
  read_all readBinaryCommitOffsetCommands data.

(** ** The envelope *)

Definition raftCommandProduceBatches : string := "produce_batches".
Definition raftCommandCommitOffsets : string := "commit_offsets".

Definition raftBinaryMagic : Z := 0x45523031.
Definition raftBinaryCommandProduceBatches : Z := 1.
Definition raftBinaryCommandCommitOffsets : Z := 2.

Inductive raftPayload :=
| ProduceBatchesPayload (requests : list produceBatchCommand)
| CommitOffsetsPayload (requests : list commitOffsetCommand)
| OtherPayload.

Definition payloadAsProduceBatches (payload : raftPayload) : result BrokerError (list produceBatchCommand) :=
  match payload with ProduceBatchesPayload requests => Ok requests | _ => Err (StoreError CodeCodec) end.

Definition payloadAsCommitOffsets (payload : raftPayload) : result BrokerError (list commitOffsetCommand) :=
  match payload with CommitOffsetsPayload requests => Ok requests | _ => Err (StoreError CodeCodec) end.

Definition writeEnvelope (commandID : Z) (body : bytes) : RM unit :=
  writeU32 raftBinaryMagic;; writeU8 commandID;; writeRaw body.

(** [Ok None] for a command without a binary form. *)
Definition encodeBinaryRaftCommand (commandType : string) (payload : raftPayload) : result BrokerError (option bytes) :=
  if decide (commandType = raftCommandProduceBatches) then
    req ← payloadAsProduceBatches payload;
    body ← encodeBinaryProduceBatchesCommand req;
    data ← writer_bytes (writeEnvelope raftBinaryCommandProduceBatches body);
    Ok (Some data)
  else if decide (commandType = raftCommandCommitOffsets) then
    req ← payloadAsCommitOffsets payload;
    body ← encodeBinaryCommitOffsetsCommand req;
    data ← writer_bytes (writeEnvelope raftBinaryCommandCommitOffsets body);
    Ok (Some data)
  else Ok None.

(** [marshalPayload] and [marshalCommand] are the JSON encoders of the payload
    and of the envelope with its type. *)
Definition encodeRaftCommand (marshalPayload : raftPayload -> option bytes) (marshalCommand : string -> bytes -> option bytes)
    (commandType : string) (payload : raftPayload) : result BrokerError bytes :=
  match encodeBinaryRaftCommand commandType payload with
  | Err e => Err (wrapBroker "raft_binary_command_encode_failed" e)
  | Ok (Some encoded) => Ok encoded
  | Ok None =>
      match marshalPayload payload with
      | None => Err (BrokerFailure "raft_payload_encode_failed")
      | Some raw =>
          match marshalCommand commandType raw with
          | None => Err (BrokerFailure "raft_command_encode_failed")
          | Some encoded => Ok encoded
          end
      end
  end.

Definition isBinaryRaftCommand (data : bytes) : bool :=
  if len data <? 4 then false else get_be (take 4 data) =? raftBinaryMagic.

Definition binaryRaftCommandType (commandID : Z) : result BrokerError string :=
  if commandID =? raftBinaryCommandProduceBatches then Ok raftCommandProduceBatches
  else if commandID =? raftBinaryCommandCommitOffsets then Ok raftCommandCommitOffsets
  else Err (StoreError CodeCodec).

(** [None] when the data is not a binary command; else its type and body. *)
Definition decodeBinaryRaftEnvelope (data : bytes) : option (result BrokerError (string * bytes)) :=
  if negb (isBinaryRaftCommand data) then None
  else Some (
    '(commandType, _) ← (_ ← readU32; commandID ← readU8; of_result (binaryRaftCommandType commandID)) data;
    Ok (commandType, drop 5 data)).

(** ** Applying on a replica *)

Inductive raftValue :=
| ProduceBatchesValue (items : list produceBatchItemResult)
| CommitOffsetsValue (items : list (option BrokerError)).

(** What the two handlers read of their surroundings while they run: the
    clock during appends and commits, and the state of the context. *)
Record applyEnv := mkApplyEnv {
  env_clock : nat -> nat -> Z;
  env_nowMS : nat -> Z;
  env_commitNowMS : Z;
  env_ctxErr : TopicPartition -> bool
}.

Section Apply.
Context `{MapRange} `{Hash64}.

Definition applyBinaryProduceBatches (env : applyEnv) (b : Broker) (req : list produceBatchCommand)
    : Broker * result BrokerError raftValue :=
  let '(b, items) := applyProduceBatches (env_clock env) (env_nowMS env) (env_ctxErr env) b req in
  (b, Ok (ProduceBatchesValue items)).

Definition applyBinaryCommitOffsets (env : applyEnv) (b : Broker) (req : list commitOffsetCommand)
    : Broker * result BrokerError raftValue :=
  let '(s, items) := applyCommitOffsets (env_commitNowMS env) (b_store b) req in
  (set_store s b, Ok (CommitOffsetsValue (option_map StoreError <$> items))).

Definition applyBinaryRaftCommand (env : applyEnv) (b : Broker) (commandType : string) (body : bytes)
    : Broker * result BrokerError raftValue :=
  if decide (commandType = raftCommandProduceBatches) then
    match decodeBinaryProduceBatchesCommand body with
    | Err e => (b, Err (wrapBroker "raft_payload_decode_failed" e))
    | Ok req => applyBinaryProduceBatches env b req
    end
  else if decide (commandType = raftCommandCommitOffsets) then
    match decodeBinaryCommitOffsetsCommand body with
    | Err e => (b, Err (wrapBroker "raft_payload_decode_failed" e))
    | Ok req => applyBinaryCommitOffsets env b req
    end
  else (b, Err (StoreError CodeCodec)).

(** The binary branch of [applyRaftCommand]; [None] when the JSON branch is
    taken. *)
Definition applyRaftCommandBinary (env : applyEnv) (b : Broker) (data : bytes)
    : option (Broker * result BrokerError raftValue) :=
  match decodeBinaryRaftEnvelope data with
  | None => None
  | Some (Err e) => Some (b, Err (wrapBroker "raft_command_decode_failed" e))
  | Some (Ok (commandType, body)) => Some (applyBinaryRaftCommand env b commandType body)
  end.

End Apply.
