(* ===== verification/RaftCodecSpec.v ===== *)
(** * The binary codec of replicated commands: properties

    Round trips of [RaftCodec] with the rules of [WireSpec], which hold for
    every error type, and what a replica does with an encoded command.  The
    codec does not carry the routing key of a request and knows five
    partitioning modes: what is read back is the request [replicated].  The
    broker writes the routing key into the headers of the records before it
    proposes, and an unknown mode selects partitions as no mode does, so
    applying [replicated] requests has the effect of applying the requests. *)

From stdpp Require Import prelude gmap strings list.
From S2P Require Import Prelude Wire WireSpec Model MemoryStore MetaStore Queue Idempotency Headers Produce ProduceSpec Acks RaftCodec.

#[local] Open Scope Z_scope.

(** ** Primitives *)

Lemma rrt_u8 v : is_u8 v -> rt (writeU8 v) readU8 v.
Proof.
  intros Hv. change (writeU8 v) with (write (E := BrokerError) [byte_of_Z v]).
  replace [byte_of_Z v] with (put_be 1 v) by (simpl; by rewrite Z.shiftr_0_r). by apply rt_be.
Qed.
Lemma rrt_u16 v : is_u16 v -> rt (writeU16 v) readU16 v.
Proof. apply (rt_be _ 2). Qed.
Lemma rrt_u32 v : is_u32 v -> rt (writeU32 v) readU32 v.
Proof. apply (rt_be _ 4). Qed.
Lemma rrt_u64 v : is_u64 v -> rt (writeU64 v) readU64 v.
Proof. apply (rt_be _ 8). Qed.

Lemma rrt_bool b : rt (writeBool b) readBool b.
Proof. destruct b; (eapply rt_last; [by apply rrt_u8|done]). Qed.

Lemma rrt_checked16 {A} v (w : Z -> RM unit) (r : RM A) a :
  is_u16 v -> rt (w v) r a -> rt (of_result (checkedRaftUint16 v) ≫= w) r a.
Proof.
  unfold is_u16, checkedRaftUint16. intros Hv Hrt.
  destruct (Z.ltb_spec v 0); [lia|]. destruct (Z.ltb_spec (2 ^ 16 - 1) v); [lia|].
  unfold u16. cbn [orb]. rewrite Z.mod_small by lia. done.
Qed.

Lemma rrt_checked32 {A} v (w : Z -> RM unit) (r : RM A) a :
  is_u32 v -> rt (w v) r a -> rt (of_result (checkedRaftUint32 v) ≫= w) r a.
Proof.
  unfold is_u32, checkedRaftUint32. intros Hv Hrt.
  destruct (Z.ltb_spec v 0); [lia|]. destruct (Z.ltb_spec (2 ^ 32 - 1) v); [lia|].
  cbn [orb]. rewrite u32_small by (unfold is_u32; lia). done.
Qed.

Lemma rrt_int32 {A} v (w : RM unit) (k : Z -> RM A) a :
  is_u32 v -> rt w (k v) a -> rt w (of_result (intFromRaftUint32 v) ≫= k) a.
Proof.
  unfold is_u32, intFromRaftUint32. intros Hv Hrt. cbv zeta. destruct (Z.ltb_spec (2 ^ 63 - 1) v); [lia|done].
Qed.

Lemma rrt_fixed (raw : bytes) : is_u32 (len raw) -> rt (writeRaw raw) (readFixedBytes (len raw)) raw.
Proof.
  intros Hl. unfold readFixedBytes. apply rrt_int32; [done|]. exists raw. split; [done|]. intros rest.
  destruct (Z.eqb_spec (len raw) 0) as [E|E].
  - destruct raw; [done|]. rewrite len_cons in E. pose proof (len_nonneg raw). lia.
  - unfold len. rewrite Nat2Z.id. by apply readFull_app.
Qed.

Lemma rrt_string s : fits_string s -> rt (writeString s) readString s.
Proof.
  unfold fits_string. rewrite slen_bytes. intros Hs. unfold writeString, readString.
  apply rrt_checked16; [done|]. eapply rt_seq; [by apply rrt_u16|]. eapply rt_last.
  - apply rrt_fixed. unfold is_u32, is_u16 in *. lia.
  - intros rest. unfold mret, M_ret. by rewrite String.string_of_list_byte_of_string.
Qed.

Lemma rrt_bytes b : fits_bytes b -> rt (writeBytes b) readBytes b.
Proof.
  intros Hb. unfold writeBytes, readBytes. apply rrt_checked32; [done|].
  eapply rt_seq; [by apply rrt_u32|]. by apply rrt_fixed.
Qed.

Lemma rrt_optional_u64 o : fits_option is_u64 o -> rt (writeOptionalU64 o) readOptionalU64 o.
Proof.
  intros Ho. destruct o as [a|]; cbn [writeOptionalU64].
  - eapply rt_seq; [apply rrt_bool|]. simpl. eapply rt_last; [by apply rrt_u64|done].
  - eapply rt_last; [apply rrt_bool|done].
Qed.

Create HintDb raft_codec.
Create HintDb raft_extends.
#[export] Hint Resolve rrt_u8 rrt_u16 rrt_u32 rrt_u64 rrt_bool rrt_string rrt_bytes rrt_optional_u64 : raft_codec.

(** One step through the two halves of a codec, the parts by [raft_codec]. *)
Ltac raft_step :=
  cbv beta iota delta [negb];
  lazymatch goal with
  | |- rt (mbind _ (of_result (checkedRaftUint16 _))) _ _ => apply rrt_checked16; [done|]
  | |- rt (mbind _ (of_result (checkedRaftUint32 _))) _ _ => apply rrt_checked32; [done|]
  | |- rt _ (mbind _ (of_result (intFromRaftUint32 _))) _ => apply rrt_int32; [done|]
  | |- rt _ (mbind _ (mbind _ _)) _ => apply rt_assoc
  | |- rt (mbind _ _) (mbind _ _) _ => eapply rt_seq; [solve [eauto 2 with raft_codec]|]
  | |- rt _ (mbind _ _) _ => eapply rt_end; [solve [eauto 2 with raft_codec]|]
  | |- rt (mret tt) (mret _) _ => apply rt_done
  | |- rt (for_each _ _) (for_range _ _) _ => eapply rt_for; [|by eassumption]
  end.

(** ** Representable commands *)

Definition fits_header (h : RecordHeader) : Prop := fits_string (rh_Key h) /\ fits_bytes (rh_Value h).

Definition valid_control (c : string) : Prop :=
  c = TransactionControlNone \/ c = TransactionControlCommit \/ c = TransactionControlAbort.

Definition fits_metadata (m : TransactionRecordMetadata) : Prop :=
  is_u64 (trm_TxID m) /\ is_u64 (trm_ProducerID m) /\ is_u64 (trm_ProducerEpoch m) /\ is_u64 (trm_Sequence m) /\
  valid_control (trm_ControlType m).

Definition fits_record (r : RecordAppend) : Prop :=
  fits_option is_u64 (ra_TimestampMS r) /\ fits_option is_u64 (ra_ExpiresAtMS r) /\ fits_bytes (ra_Key r) /\
  is_u16 (len (ra_Headers r)) /\ Forall fits_header (ra_Headers r) /\ is_u16 (ra_Attributes r) /\
  fits_option fits_metadata (ra_Transaction r) /\ fits_bytes (ra_Payload r).

Definition fits_idempotency (id : ProduceIdempotency) : Prop :=
  is_u64 (pi_ProducerID id) /\ is_u64 (pi_ProducerEpoch id) /\ is_u64 (pi_BaseSequence id).

Definition fits_batch (item : produceBatchCommand) : Prop :=
  fits_string (pbc_Topic item) /\ is_u32 (pp_Partition (pbc_Partitioning item)) /\
  fits_option fits_idempotency (pbc_Idempotency item) /\
  is_u32 (len (pbc_Records item)) /\ Forall fits_record (pbc_Records item).

Definition fits_commit (item : commitOffsetCommand) : Prop :=
  fits_string (coc_Consumer item) /\ fits_string (coc_Topic item) /\ is_u32 (coc_Partition item) /\
  is_u64 (coc_NextOffset item) /\ fits_option is_u64 (coc_AckOffset item) /\ is_u64 (coc_UpdatedAtMS item) /\
  fits_string (coc_Metadata item).

(** The request a replica reads. *)
Definition replicatedMode (mode : string) : string :=
  if decide (mode = PartitionExplicit \/ mode = PartitionRoundRobin \/ mode = PartitionKeyHash \/
             mode = PartitionRoutingKeyHash) then mode else "".

Lemma replicatedMode_unknown mode :
  mode <> PartitionExplicit -> mode <> PartitionRoundRobin -> mode <> PartitionKeyHash ->
  mode <> PartitionRoutingKeyHash -> replicatedMode mode = "".
Proof. intros. unfold replicatedMode. rewrite decide_False; [done|tauto]. Qed.

Definition replicatedPartitioning (p : PublishPartitioning) : PublishPartitioning :=
  mkPublishPartitioning (replicatedMode (pp_Mode p)) (pp_Partition p) "".

Definition replicated (item : produceBatchCommand) : produceBatchCommand :=
  mkProduceBatchCommand (pbc_Topic item) (replicatedPartitioning (pbc_Partitioning item)) (pbc_Records item)
    (pbc_Idempotency item).

(** ** Round trips of the parts *)

Lemma rrt_control c : valid_control c -> rt (writeU8 (encodeRaftTransactionControl c)) readRaftTransactionControl c.
Proof. intros [-> | [-> | ->]]; (eapply rt_last; [by apply rrt_u8|done]). Qed.
#[export] Hint Resolve rrt_control : raft_codec.

Lemma rrt_metadata o :
  fits_option fits_metadata o -> rt (writeBinaryTransactionRecordMetadata o) readBinaryTransactionRecordMetadata o.
Proof.
  intros Ho. unfold readBinaryTransactionRecordMetadata. destruct o as [m|]; cbn [writeBinaryTransactionRecordMetadata].
  - destruct Ho as (? & ? & ? & ? & ?). repeat raft_step. by destruct m.
  - eapply rt_last; [apply rrt_bool|done].
Qed.

Lemma rrt_header h : fits_header h -> rt (writeBinaryRecordHeader h) readBinaryRecordHeader h.
Proof.
  intros [? ?]. unfold writeBinaryRecordHeader, readBinaryRecordHeader. repeat raft_step. by destruct h.
Qed.

Lemma rrt_headers hs :
  is_u16 (len hs) -> Forall fits_header hs -> rt (writeBinaryRecordHeaders hs) readBinaryRecordHeaders hs.
Proof.
  intros ? ?. unfold writeBinaryRecordHeaders, readBinaryRecordHeaders. repeat raft_step. apply rrt_header.
Qed.
#[export] Hint Resolve rrt_metadata rrt_headers : raft_codec.

Lemma rrt_record r : fits_record r -> rt (writeBinaryRecordAppend r) readBinaryRecordAppend r.
Proof.
  intros (? & ? & ? & ? & ? & ? & ? & ?). unfold writeBinaryRecordAppend, readBinaryRecordAppend.
  repeat raft_step. by destruct r.
Qed.

Lemma rrt_idempotency o :
  fits_option fits_idempotency o -> rt (writeBinaryProduceIdempotency o) readBinaryProduceIdempotency o.
Proof.
  intros Ho. unfold readBinaryProduceIdempotency. destruct o as [id|]; cbn [writeBinaryProduceIdempotency].
  - destruct Ho as (? & ? & ?). repeat raft_step. by destruct id.
  - eapply rt_last; [apply rrt_bool|done].
Qed.
#[export] Hint Resolve rrt_idempotency : raft_codec.

(** The two fields of a partitioning are written one after the other. *)
Lemma rrt_partitioning p {B} (w : RM unit) (k : PublishPartitioning -> RM B) b :
  is_u32 (pp_Partition p) -> rt w (k (replicatedPartitioning p)) b ->
  rt (writeU8 (encodeRaftPartitioning (pp_Mode p));; writeU32 (pp_Partition p);; w) (readRaftPartitioning ≫= k) b.
Proof.
  intros Hp Hw. unfold readRaftPartitioning. apply rt_assoc. eapply rt_seq.
  { apply rrt_u8. unfold encodeRaftPartitioning. repeat case_decide; done. }
  apply rt_assoc. eapply rt_seq; [by apply rrt_u32|].
  unfold replicatedPartitioning in Hw. unfold encodeRaftPartitioning.
  destruct p as [mode partition rk]; cbn [pp_Mode pp_Partition] in *.
  destruct (decide (mode = PartitionExplicit)) as [-> |]; [exact Hw|].
  destruct (decide (mode = PartitionRoundRobin)) as [-> |]; [exact Hw|].
  destruct (decide (mode = PartitionKeyHash)) as [-> |]; [exact Hw|].
  destruct (decide (mode = PartitionRoutingKeyHash)) as [-> |]; [exact Hw|].
  rewrite replicatedMode_unknown in Hw by done. exact Hw.
Qed.

(** A list behind its 32-bit count. *)
Lemma rrt_counted {A B} (P : A -> Prop) (f : A -> B) (w : A -> RM unit) (r : RM B) (l : list A) :
  (forall a, P a -> rt (w a) r (f a)) -> is_u32 (len l) -> Forall P l ->
  rt (count ← of_result (checkedRaftUint32 (len l)); writeU32 count;; for_each w l)
     (count ← readU32; size ← of_result (intFromRaftUint32 count); for_range (Z.to_nat size) r) (f <$> l).
Proof. intros Hrt Hn Hl. repeat raft_step. by eapply rt_for_map. Qed.

Lemma rrt_batch item : fits_batch item -> rt (writeBinaryProduceBatch item) readBinaryProduceBatch (replicated item).
Proof.
  intros (? & ? & ? & Hn & Hl). unfold writeBinaryProduceBatch, readBinaryProduceBatch. raft_step.
  apply rrt_partitioning; [done|]. raft_step. eapply rt_end; [exact (rrt_counted _ id _ _ _ rrt_record Hn Hl)|].
  apply rt_done. by rewrite list_fmap_id.
Qed.

Lemma rrt_commit item : fits_commit item -> rt (writeBinaryCommitOffsetCommand item) readBinaryCommitOffsetCommand item.
Proof.
  intros (? & ? & ? & ? & ? & ? & ?). unfold writeBinaryCommitOffsetCommand, readBinaryCommitOffsetCommand.
  repeat raft_step. by destruct item.
Qed.

(** ** Whole commands *)

Lemma read_all_written {A} (w : RM unit) (r : RM A) a :
  rt w r a -> exists data, writer_bytes w = Ok data /\ read_all r data = Ok a.
Proof.
  intros (bs & Hw & Hr). exists bs. unfold writer_bytes, read_all, mbind, result_bind, M_bind. rewrite Hw. split; [done|].
  pose proof (Hr []) as E. rewrite app_nil_r in E. by rewrite E.
Qed.

Lemma produce_command_roundtrip requests :
  is_u32 (len requests) -> Forall fits_batch requests ->
  exists body, encodeBinaryProduceBatchesCommand requests = Ok body /\
    decodeBinaryProduceBatchesCommand body = Ok (replicated <$> requests).
Proof. intros Hn Hl. apply read_all_written, (rrt_counted _ _ _ _ _ rrt_batch Hn Hl). Qed.

Lemma commit_command_roundtrip requests :
  is_u32 (len requests) -> Forall fits_commit requests ->
  exists body, encodeBinaryCommitOffsetsCommand requests = Ok body /\
    decodeBinaryCommitOffsetsCommand body = Ok requests.
Proof.
  intros Hn Hl. apply read_all_written. rewrite <- (list_fmap_id requests) at 2.
  apply (rrt_counted _ id _ _ _ rrt_commit Hn Hl).
Qed.

Definition envelopeHeader (commandID : Z) : bytes := put_be 4 raftBinaryMagic ++ [byte_of_Z commandID].

Lemma envelope_written commandID body : writer_bytes (writeEnvelope commandID body) = Ok (envelopeHeader commandID ++ body).
Proof. done. Qed.

Lemma envelope_read commandID commandType body :
  is_u8 commandID -> binaryRaftCommandType commandID = Ok commandType ->
  decodeBinaryRaftEnvelope (envelopeHeader commandID ++ body) = Some (Ok (commandType, body)).
Proof.
  intros Hid Ht. unfold envelopeHeader. rewrite <- app_assoc. cbn [app].
  unfold decodeBinaryRaftEnvelope, isBinaryRaftCommand.
  replace (len _ <? 4) with false.
  2:{ symmetry. apply Z.ltb_ge. unfold len. rewrite length_app, length_put_be. lia. }
  rewrite take_app_length' by done. cbn [negb].
  replace (get_be (put_be 4 raftBinaryMagic) =? raftBinaryMagic) with true by done. cbn [negb].
  assert (readU8 (byte_of_Z commandID :: body) = Ok (commandID, body)) as Hr.
  { destruct (rrt_u8 commandID Hid) as (bs & Hw & Hr). pose proof (Hw []) as E. injection E as <-. apply Hr. }
  assert (readU32 (put_be 4 raftBinaryMagic ++ byte_of_Z commandID :: body)
          = Ok (raftBinaryMagic, byte_of_Z commandID :: body)) as Hm by done.
  unfold mbind, result_bind, M_bind. rewrite Hm, Hr, Ht. done.
Qed.

(** ** Damaged commands *)

#[export] Hint Resolve extends_ret extends_fail extends_of_result extends_ReadFull : raft_extends.

Ltac raft_extends :=
  lazymatch goal with
  | |- extends (mbind _ _) => apply extends_bind; [solve [eauto 1 with raft_extends | repeat raft_extends]|intros ?]
  | |- extends (if _ then _ else _) => apply extends_if
  | |- extends (for_range _ _) => apply extends_for
  | |- extends _ => solve [eauto 1 with raft_extends]
  end.

Lemma extends_raftU8 : extends readU8.
Proof. unfold readU8. repeat raft_extends. Qed.
Lemma extends_raftU16 : extends readU16.
Proof. unfold readU16. repeat raft_extends. Qed.
Lemma extends_raftU32 : extends readU32.
Proof. unfold readU32. repeat raft_extends. Qed.
Lemma extends_raftU64 : extends readU64.
Proof. unfold readU64. repeat raft_extends. Qed.
Lemma extends_raftFixed size : extends (readFixedBytes size).
Proof. unfold readFixedBytes. repeat raft_extends. Qed.
#[export] Hint Resolve extends_raftU8 extends_raftU16 extends_raftU32 extends_raftU64 extends_raftFixed : raft_extends.

Lemma extends_raftBool : extends readBool.
Proof. unfold readBool. repeat raft_extends. Qed.
Lemma extends_raftString : extends readString.
Proof. unfold readString. repeat raft_extends. Qed.
Lemma extends_raftBytes : extends readBytes.
Proof. unfold readBytes. repeat raft_extends. Qed.
#[export] Hint Resolve extends_raftBool extends_raftString extends_raftBytes : raft_extends.

Lemma extends_raftOptionalU64 : extends readOptionalU64.
Proof. unfold readOptionalU64. repeat raft_extends. Qed.
Lemma extends_raftControl : extends readRaftTransactionControl.
Proof. unfold readRaftTransactionControl. repeat raft_extends. Qed.
Lemma extends_raftHeader : extends readBinaryRecordHeader.
Proof. unfold readBinaryRecordHeader. repeat raft_extends. Qed.
Lemma extends_raftPartitioning : extends readRaftPartitioning.
Proof. unfold readRaftPartitioning. repeat raft_extends. Qed.
Lemma extends_raftIdempotency : extends readBinaryProduceIdempotency.
Proof. unfold readBinaryProduceIdempotency. repeat raft_extends. Qed.
#[export] Hint Resolve extends_raftOptionalU64 extends_raftControl extends_raftHeader extends_raftPartitioning
  extends_raftIdempotency : raft_extends.

Lemma extends_raftMetadata : extends readBinaryTransactionRecordMetadata.
Proof. unfold readBinaryTransactionRecordMetadata. repeat raft_extends. Qed.
Lemma extends_raftHeaders : extends readBinaryRecordHeaders.
Proof. unfold readBinaryRecordHeaders. repeat raft_extends. Qed.
#[export] Hint Resolve extends_raftMetadata extends_raftHeaders : raft_extends.

Lemma extends_raftRecord : extends readBinaryRecordAppend.
Proof. unfold readBinaryRecordAppend. repeat raft_extends. Qed.
#[export] Hint Resolve extends_raftRecord : raft_extends.
Lemma extends_raftRecords : extends readBinaryRecordAppends.
Proof. unfold readBinaryRecordAppends. repeat raft_extends. Qed.
#[export] Hint Resolve extends_raftRecords : raft_extends.
Lemma extends_raftBatch : extends readBinaryProduceBatch.
Proof. unfold readBinaryProduceBatch. repeat raft_extends. Qed.
Lemma extends_raftCommit : extends readBinaryCommitOffsetCommand.
Proof. unfold readBinaryCommitOffsetCommand. repeat raft_extends. Qed.
#[export] Hint Resolve extends_raftBatch extends_raftCommit : raft_extends.
Lemma extends_raftBatches : extends readBinaryProduceBatchRequests.
Proof. unfold readBinaryProduceBatchRequests. repeat raft_extends. Qed.
Lemma extends_raftCommits : extends readBinaryCommitOffsetCommands.
Proof. unfold readBinaryCommitOffsetCommands. repeat raft_extends. Qed.

Lemma read_all_ok {A} (r : RM A) data a : read_all r data = Ok a -> r data = Ok (a, []).
Proof.
  unfold read_all, mbind, result_bind, M_bind. destruct (r data) as [[a' [|x rest]]|]; [by intros [= ->]| |done].
  unfold ensureEOF. destruct (Z.eqb_spec (len (x :: rest)) 0) as [E|E]; [|done].
  rewrite len_cons in E. pose proof (len_nonneg rest). lia.
Qed.

Lemma read_all_short {A} (r : RM A) data a n :
  extends r -> read_all r data = Ok a -> (n < length data)%nat -> exists e, read_all r (take n data) = Err e.
Proof.
  intros Hext Ha%read_all_ok Hn. destruct (read_all r (take n data)) as [a'|e] eqn:E; [|by exists e].
  apply read_all_ok in E. apply (Hext _ _ _ (drop n data)) in E. rewrite take_drop in E. rewrite E in Ha.
  injection Ha as _ Hd. apply (f_equal length) in Hd. rewrite length_drop in Hd. simpl in Hd. lia.
Qed.

Lemma read_all_extra {A} (r : RM A) data a extra :
  extends r -> read_all r data = Ok a -> extra <> [] -> read_all r (data ++ extra) = Err (StoreError CodeCodec).
Proof.
  intros Hext Ha%read_all_ok Hx. apply (Hext _ _ _ extra) in Ha. unfold read_all, mbind, result_bind, M_bind. rewrite Ha.
  destruct extra as [|x extra]; [done|]. unfold ensureEOF. cbn [app].
  destruct (Z.eqb_spec (len (x :: extra)) 0) as [E|E]; [|done].
  rewrite len_cons in E. pose proof (len_nonneg extra). lia.
Qed.

(** ** Applying what was read

    Two requests do the same [work] when they differ in their partitioning
    only. *)

Definition work (item : produceBatchCommand) : string * list RecordAppend * option ProduceIdempotency :=
  (pbc_Topic item, pbc_Records item, pbc_Idempotency item).

(** The first record carries the routing key of the request, as
    [applyPartitioningRoutingKey] leaves it. *)
Definition routed (item : produceBatchCommand) : Prop :=
  pp_RoutingKey (pbc_Partitioning item) = "" \/
  firstRoutingKey (pbc_Records item) = pp_RoutingKey (pbc_Partitioning item).

(** Requests built by the publishing operations are [routed]. *)
Lemma published_routed topic p records id :
  records <> [] -> routed (mkProduceBatchCommand topic p (recordsWithPartitioningRoutingKey p records) id).
Proof.
  intros Hne. unfold routed, recordsWithPartitioningRoutingKey. cbn [pbc_Partitioning pbc_Records].
  destruct (decide (pp_RoutingKey p = "")) as [E|E]; [by left|]. right. rewrite decide_False by tauto.
  destruct records as [|r records]; [done|]. rewrite fmap_cons. cbn [firstRoutingKey].
  assert (appendRoutingKey (applyPartitioningRoutingKey r p) = pp_RoutingKey p) as ->; [|by rewrite decide_False].
  unfold applyPartitioningRoutingKey, applyRoutingKey. rewrite decide_False by done. apply routingKey_upsert_same.
Qed.

Section Replica.
Context `{MapRange} `{Hash64}.

Lemma normalized_routing_key topic rs rs' :
  normalizeRecordsPriority topic rs = Ok rs' -> firstRoutingKey rs' = firstRoutingKey rs.
Proof.
  intros Hn%normalizeRecordsPriority_keys. induction Hn as [|r r' rs rs' (_ & _ & Hk) _ IH]; [done|].
  cbn [firstRoutingKey]. by rewrite Hk, IH.
Qed.

(** Partitionings that select the same partition. *)
Definition selects_alike (p p' : PublishPartitioning) : Prop :=
  forall cursors topic key, selectPartition cursors topic p key = selectPartition cursors topic p' key.

Lemma replicated_alike p rk :
  (pp_Mode p = PartitionRoutingKeyHash -> rk = pp_RoutingKey p) ->
  selects_alike (mkPublishPartitioning (replicatedMode (pp_Mode p)) (pp_Partition p) rk) p.
Proof.
  intros Hrk cursors topic key. unfold selectPartition. cbn [pp_Mode pp_Partition pp_RoutingKey].
  destruct p as [mode partition rk']; cbn [pp_Mode pp_Partition pp_RoutingKey] in *.
  destruct (decide (mode = PartitionExplicit)) as [-> |]; [done|].
  destruct (decide (mode = PartitionRoundRobin)) as [-> |]; [done|].
  destruct (decide (mode = PartitionKeyHash)) as [-> |]; [done|].
  destruct (decide (mode = PartitionRoutingKeyHash)) as [-> |]; [by rewrite Hrk|].
  by rewrite replicatedMode_unknown.
Qed.

Definition alike_result (r r' : result BrokerError PublishPartitioning) : Prop :=
  match r, r' with
  | Ok p, Ok p' => selects_alike p p'
  | Err e, Err e' => e = e'
  | _, _ => False
  end.

Lemma replicated_mode_routing mode : replicatedMode mode = PartitionRoutingKeyHash <-> mode = PartitionRoutingKeyHash.
Proof. unfold replicatedMode. case_decide; [done|]. split; [done|]. intros ->. naive_solver. Qed.

(** The ordering policy resolves both partitionings to the same choice. *)
Lemma resolve_replicated topic p rs :
  pp_RoutingKey p = "" \/ firstRoutingKey rs = pp_RoutingKey p ->
  alike_result (resolveTopicOrderingPartitioning topic (replicatedPartitioning p) rs)
               (resolveTopicOrderingPartitioning topic p rs).
Proof.
  intros Hr.
  assert (partitionRoutingKey (replicatedPartitioning p) rs = partitionRoutingKey p rs) as Ek.
  { unfold partitionRoutingKey. cbn [replicatedPartitioning pp_RoutingKey]. rewrite decide_True by done.
    destruct Hr as [E|E]; case_decide; congruence. }
  unfold resolveTopicOrderingPartitioning. case_decide.
  { simpl. unfold withResolvedRoutingKey. rewrite Ek. cbn [replicatedPartitioning pp_Mode pp_Partition pp_RoutingKey].
    destruct (decide (pp_Mode p = PartitionRoutingKeyHash)) as [Em|Em].
    - rewrite (decide_False (P := _ \/ "" <> "")) by (rewrite replicated_mode_routing; naive_solver).
      destruct (decide (pp_RoutingKey p = "")) as [E|E].
      + rewrite decide_False by naive_solver. apply (replicated_alike (mkPublishPartitioning _ _ _)). done.
      + rewrite decide_True by tauto. apply replicated_alike. intros _. unfold partitionRoutingKey. by rewrite decide_False.
    - rewrite !decide_True by (rewrite ?replicated_mode_routing; tauto). apply replicated_alike. done. }
  case_decide. { destruct (singleOrderingKey rs); [|done]. intros c t k. done. }
  case_decide; [|done]. unfold singleOrderingRoutingKey. rewrite Ek.
  case_decide; [done|]. destruct (forallb _ rs); [|done]. intros c t k. done.
Qed.

Definition same_plan (r r' : result BrokerError produceBatchPlan) : Prop :=
  match r, r' with
  | Ok p, Ok p' => plan_index p = plan_index p' /\ plan_tp p = plan_tp p' /\ work (plan_request p) = work (plan_request p')
  | Err e, Err e' => e = e'
  | _, _ => False
  end.

Lemma plan_replicated index b item :
  routed item ->
  (planProduceBatch index b (replicated item)).1 = (planProduceBatch index b item).1 /\
  same_plan (planProduceBatch index b (replicated item)).2 (planProduceBatch index b item).2.
Proof.
  intros Hr. unfold planProduceBatch, selectProducePartition, resolveProduceBatch.
  cbn [replicated pbc_Topic pbc_Partitioning pbc_Records pbc_Idempotency].
  destruct (topicConfig b (pbc_Topic item)) as [[topic|]|e]; cbn [mbind result_bind]; [|done|done].
  destruct (validateBatchPayload b (pbc_Records item)); cbn [mbind result_bind]; [|done].
  destruct (normalizeRecordsPriority topic (pbc_Records item)) as [rs|] eqn:En; cbn [mbind result_bind]; [|done].
  apply normalized_routing_key in En. unfold routed in Hr. rewrite <- En in Hr.
  apply (resolve_replicated topic) in Hr. unfold alike_result in Hr.
  destruct (resolveTopicOrderingPartitioning topic (replicatedPartitioning _) rs) as [p|],
    (resolveTopicOrderingPartitioning topic (pbc_Partitioning item) rs) as [p'|]; cbn [mbind result_bind]; try done.
  cbn [set_request pbc_Partitioning pbc_Records]. rewrite (Hr (b_cursors b) topic (firstRecordKey rs)).
  destruct (selectPartition _ _ _ _) as [c [q|]]; done.
Qed.

Lemma plans_replicated index b items :
  Forall routed items ->
  let '(b1, (res1, planned1, plans1)) := planProduceBatches index b (replicated <$> items) in
  let '(b2, (res2, planned2, plans2)) := planProduceBatches index b items in
  b1 = b2 /\ res1 = res2 /\ work <$> planned1 = work <$> planned2 /\
  ((fun p => (plan_index p, plan_tp p)) <$> plans1) = ((fun p => (plan_index p, plan_tp p)) <$> plans2).
Proof.
  intros Hf. induction Hf as [|item items Hi Hf IH] in index, b |- *; [done|]. rewrite fmap_cons. cbn [planProduceBatches].
  destruct (plan_replicated index b item Hi) as [Eb Hp].
  destruct (planProduceBatch index b (replicated item)) as [b1 r1], (planProduceBatch index b item) as [b2 r2].
  cbn [fst snd] in *. subst b2. specialize (IH (S index) b1).
  destruct (planProduceBatches (S index) b1 (replicated <$> items)) as [b3 [[res3 planned3] plans3]],
    (planProduceBatches (S index) b1 items) as [b4 [[res4 planned4] plans4]].
  destruct IH as (-> & -> & Hw & Hpl). unfold same_plan in Hp. destruct r1 as [p1|e1], r2 as [p2|e2]; try done.
  - destruct Hp as (E1 & E2 & E3). split_and!; [done|done| |]; rewrite !fmap_cons; congruence.
  - subst. split_and!; [done|done| |done]; rewrite !fmap_cons; congruence.
Qed.

(** Groups of plans and what is done with them. *)
Lemma groups_by_key plans1 plans2 :
  ((fun p => (plan_index p, plan_tp p)) <$> plans1) = ((fun p => (plan_index p, plan_tp p)) <$> plans2) ->
  groupProduceBatchPlans plans1 = groupProduceBatchPlans plans2.
Proof.
  unfold groupProduceBatchPlans. generalize (∅ : gmap TopicPartition produceBatchGroup).
  induction plans1 as [|p1 plans1 IH] in plans2 |- *; intros m; destruct plans2 as [|p2 plans2]; try done.
  rewrite !fmap_cons. intros E. injection E as Ei Et E. cbn [foldl]. rewrite Ei, Et. by apply IH.
Qed.

Lemma work_at rs1 rs2 i : work <$> rs1 = work <$> rs2 -> work (requestAt rs1 i) = work (requestAt rs2 i).
Proof.
  intros E. unfold requestAt. assert (work <$> (rs1 !! i) = work <$> (rs2 !! i)) as Ei by (by rewrite <- !list_lookup_fmap, E).
  destruct (rs1 !! i), (rs2 !! i); simpl in *; congruence.
Qed.

Lemma work_fields r1 r2 :
  work r1 = work r2 -> pbc_Topic r1 = pbc_Topic r2 /\ pbc_Records r1 = pbc_Records r2 /\ pbc_Idempotency r1 = pbc_Idempotency r2.
Proof. intros E. injection E as -> -> ->. done. Qed.

Lemma splitLoop_work rs1 rs2 partition indexes records items :
  work <$> rs1 = work <$> rs2 ->
  splitLoop rs1 partition indexes records items = splitLoop rs2 partition indexes records items.
Proof.
  intros E. induction indexes as [|i indexes IH] in records, items |- *; [done|]. cbn [splitLoop].
  destruct (work_fields _ _ (work_at _ _ i E)) as (_ & -> & _). destruct (_ <? _)%nat; [done|]. apply IH.
Qed.

Lemma group_work clock nowMS ctxErr b rs1 rs2 group items :
  work <$> rs1 = work <$> rs2 ->
  applyProduceBatchGroup clock nowMS ctxErr b rs1 group items = applyProduceBatchGroup clock nowMS ctxErr b rs2 group items.
Proof.
  intros E. unfold applyProduceBatchGroup. destruct (ctxErr _); [done|].
  assert (groupHasIdempotentProduce rs1 (pbg_indexes group) = groupHasIdempotentProduce rs2 (pbg_indexes group)) as ->.
  { unfold groupHasIdempotentProduce. induction (pbg_indexes group) as [|i l IH]; [done|]. cbn [existsb].
    destruct (work_fields _ _ (work_at _ _ i E)) as (_ & _ & ->). by rewrite IH. }
  assert (groupRecords rs1 (pbg_indexes group) = groupRecords rs2 (pbg_indexes group)) as ->.
  { unfold groupRecords. induction (pbg_indexes group) as [|i l IH]; [done|]. rewrite !bind_cons, IH.
    destruct (work_fields _ _ (work_at _ _ i E)) as (_ & -> & _). done. }
  destruct (groupHasIdempotentProduce _ _).
  - unfold applyProduceBatchGroupIndividually. generalize (b, items).
    induction (pbg_indexes group) as [|i l IH]; intros acc; [done|]. cbn [foldl]. rewrite <- IH. f_equal.
    destruct acc as [b1 items1]. unfold set_request. by destruct (work_fields _ _ (work_at _ _ i E)) as (-> & -> & ->).
  - destruct (PublishBatchRecords _ _ _ _ _) as [s [records|]]; [|done]. unfold splitProduceBatchGroupRecords.
    by rewrite (splitLoop_work rs1 rs2).
Qed.

Lemma batches_replicated clock nowMS ctxErr b items :
  Forall routed items ->
  applyProduceBatches clock nowMS ctxErr b (replicated <$> items) = applyProduceBatches clock nowMS ctxErr b items.
Proof.
  intros Hf%(plans_replicated 0 b). unfold applyProduceBatches.
  destruct (planProduceBatches 0 b (replicated <$> items)) as [b1 [[res1 planned1] plans1]],
    (planProduceBatches 0 b items) as [b2 [[res2 planned2] plans2]].
  destruct Hf as (-> & -> & Hw & Hp). rewrite (groups_by_key _ _ Hp). generalize (b2, res2).
  induction (values (groupProduceBatchPlans plans2)) as [|g l IH]; intros [b3 items3]; [done|]. cbn [foldl].
  by rewrite (group_work _ _ _ _ _ _ _ _ Hw), IH.
Qed.

(** ** Proposals *)

(** A payload that fits its binary form, and the command it belongs to. *)
Definition proposable (commandType : string) (payload : raftPayload) : Prop :=
  match payload with
  | ProduceBatchesPayload requests =>
      commandType = raftCommandProduceBatches /\ is_u32 (len requests) /\ Forall fits_batch requests /\ Forall routed requests
  | CommitOffsetsPayload requests =>
      commandType = raftCommandCommitOffsets /\ is_u32 (len requests) /\ Forall fits_commit requests
  | OtherPayload => False
  end.

(** What the broker would do with the payload itself. *)
Definition applyPayload (env : applyEnv) (b : Broker) (payload : raftPayload) : Broker * result BrokerError raftValue :=
  match payload with
  | ProduceBatchesPayload requests => applyBinaryProduceBatches env b requests
  | CommitOffsetsPayload requests => applyBinaryCommitOffsets env b requests
  | OtherPayload => (b, Err (StoreError CodeCodec))
  end.

(** The bytes of a proposal: the header of its command and a body which the
    replica applies as the payload, and refuses when it is cut or extended. *)
Lemma proposal_spec env b commandType payload :
  proposable commandType payload ->
  exists commandID body,
    encodeBinaryRaftCommand commandType payload = Ok (Some (envelopeHeader commandID ++ body)) /\
    (forall body', decodeBinaryRaftEnvelope (envelopeHeader commandID ++ body') = Some (Ok (commandType, body'))) /\
    applyBinaryRaftCommand env b commandType body = applyPayload env b payload /\
    (forall n, (n < length body)%nat -> exists e, applyBinaryRaftCommand env b commandType (take n body) = (b, Err e)) /\
    (forall extra, extra <> [] -> applyBinaryRaftCommand env b commandType (body ++ extra) = (b, Err (StoreError CodeCodec))).
Proof.
  unfold encodeBinaryRaftCommand, applyBinaryRaftCommand.
  destruct payload as [requests|requests|]; [intros (-> & Hn & Hl & Hr)|intros (-> & Hn & Hl)|done].
  - destruct (produce_command_roundtrip requests Hn Hl) as (body & He & Hd).
    exists raftBinaryCommandProduceBatches, body. rewrite !decide_True by done. cbn [payloadAsProduceBatches mbind result_bind].
    rewrite He. cbn [mbind result_bind]. rewrite envelope_written. split_and!; [done|by intros; apply envelope_read| | |].
    + rewrite Hd. unfold applyPayload, applyBinaryProduceBatches. by rewrite batches_replicated.
    + intros n Hlt. destruct (read_all_short _ _ _ n extends_raftBatches Hd Hlt) as [e E].
      rewrite decide_True by done. unfold decodeBinaryProduceBatchesCommand. rewrite E. by eexists.
    + intros extra Hx. rewrite decide_True by done. unfold decodeBinaryProduceBatchesCommand.
      by rewrite (read_all_extra _ _ _ extra extends_raftBatches Hd Hx).
  - destruct (commit_command_roundtrip requests Hn Hl) as (body & He & Hd).
    exists raftBinaryCommandCommitOffsets, body. rewrite !(decide_False (P := _ = raftCommandProduceBatches)), !decide_True by done.
    cbn [payloadAsCommitOffsets mbind result_bind].
    rewrite He. cbn [mbind result_bind]. rewrite envelope_written. split_and!; [done|by intros; apply envelope_read| | |].
    + by rewrite Hd.
    + intros n Hlt. destruct (read_all_short _ _ _ n extends_raftCommits Hd Hlt) as [e E].
      unfold decodeBinaryCommitOffsetsCommand. rewrite decide_False, decide_True by done. rewrite E. by eexists.
    + intros extra Hx. unfold decodeBinaryCommitOffsetsCommand. rewrite decide_False, decide_True by done.
      by rewrite (read_all_extra _ _ _ extra extends_raftCommits Hd Hx).
Qed.

(** C23: what is proposed is what every replica applies.  A batch of produce
    requests or of commits that fits the lengths of the binary format is encoded
    without error, and the bytes, applied by a replica, have the effect and the
    answer that applying the requests directly has there: the routing key and the
    unknown partitioning modes the format drops make no difference to where the
    records go.  A replica that gets the command cut behind its magic number or
    with bytes added reports an error and stays as it is. *)
Theorem replica_applies_proposal marshalPayload marshalCommand env b commandType payload :
  proposable commandType payload ->
  exists data, encodeRaftCommand marshalPayload marshalCommand commandType payload = Ok data /\
    applyRaftCommandBinary env b data = Some (applyPayload env b payload) /\
    (forall n, (4 <= n < length data)%nat -> exists e, applyRaftCommandBinary env b (take n data) = Some (b, Err e)) /\
    (forall extra, extra <> [] -> applyRaftCommandBinary env b (data ++ extra) = Some (b, Err (StoreError CodeCodec))).
Proof.
  intros (commandID & body & He & Henv & Happ & Hshort & Hextra)%(proposal_spec env b).
  exists (envelopeHeader commandID ++ body). unfold encodeRaftCommand, applyRaftCommandBinary. rewrite He, Henv, Happ.
  split_and!; [done|done| |].
  - intros n [Hn Hlt]. destruct (decide (n = 4)%nat) as [-> |Hne]; [by eexists|].
    change (length (envelopeHeader commandID ++ body)) with (5 + length body)%nat in Hlt.
    rewrite take_app_ge by (cbn; lia). rewrite Henv. change (length (envelopeHeader commandID)) with 5%nat.
    destruct (Hshort (n - 5)%nat) as [e E]; [lia|]. rewrite E. by eexists.
  - intros extra Hx. rewrite <- app_assoc, Henv. by rewrite Hextra.
Qed.

End Replica.

(** ** Examples *)

Definition ex_env : applyEnv := mkApplyEnv (fun _ _ => 5) (fun _ => 5) 5 (fun _ => false).

(** Two records with a routing key, in the form the service proposes them. *)
Definition ex_routed : produceBatchCommand :=
  let p := mkPublishPartitioning PartitionRoutingKeyHash 0 "eu" in
  mkProduceBatchCommand "orders" p
    (recordsWithPartitioningRoutingKey p [NewRecordAppend (StringBytes "a"); NewRecordAppend (StringBytes "b")])
    (Some (mkProduceIdempotency 7 1 0)).

Definition ex_plain_topic : TopicConfig :=
  mkTopicConfig "orders" 4 0 0 1000 "" 0 0 None DefaultTopicRetryPolicy None false None "" false None TopicOrderingNone
    (mkTopicPriorityPolicy true 0 9 5).

Definition ex_replica : Broker :=
  mkBroker (MemoryStore.CreateTopic NewMemoryStore ex_plain_topic).1 ∅ (newBrokerShardResolver 1) ex_cfg.

Lemma replica_applies_proposal_witness :
  let payload := ProduceBatchesPayload [ex_routed] in
  exists data,
    encodeRaftCommand (fun _ => None) (fun _ _ => None) raftCommandProduceBatches payload = Ok data /\
    @applyRaftCommandBinary map_to_list_range ex_hash ex_env ex_replica data
    = Some (@applyPayload map_to_list_range ex_hash ex_env ex_replica payload).
Proof.
  intros payload.
  destruct (@replica_applies_proposal map_to_list_range ex_hash (fun _ => None) (fun _ _ => None) ex_env ex_replica
              raftCommandProduceBatches payload) as (data & He & Ha & _); [|by exists data].
  split_and!; [done|done| |constructor; [|constructor]; by apply published_routed].
  constructor; [|constructor]. split_and!; [done|done|done|done|].
  repeat constructor; cbv; done.
Defined.

Definition errors_of (r : option (Broker * result BrokerError raftValue)) : list (option BrokerError) :=
  match r with Some (_, Ok (ProduceBatchesValue items)) => pbi_Error <$> items | _ => [] end.

Definition apply_encoded (item : produceBatchCommand) : list (option BrokerError) :=
  match encodeBinaryRaftCommand raftCommandProduceBatches (ProduceBatchesPayload [item]) with
  | Ok (Some data) => errors_of (@applyRaftCommandBinary map_to_list_range ex_hash ex_env ex_replica data)
  | _ => []
  end.

(** A request whose records do not carry its routing key, which the publishing
    operations never propose, would be refused by the replicas. *)
Example unrouted_refused :
  let p := mkPublishPartitioning PartitionRoutingKeyHash 0 "eu" in
  apply_encoded ex_routed = [None] /\
  apply_encoded (mkProduceBatchCommand "orders" p [NewRecordAppend (StringBytes "a")] None) = [Some (StoreError CodeInvalidArgument)].
Proof. vm_compute. done. Qed.
