(* ===== verification/Coalescer.v ===== *)
(** * Coalescing proposals

    [src/broker/raft_batcher.go] and [raft_commit_batcher.go]: concurrent calls
    enqueue their requests, one runner drains them, proposes them together and
    answers each call on its channel.

    The two batchers have the same code over different requests and answers,
    so the machine is written once, over the types and the proposal; the
    definitions at the end are its instances.  The mutex makes [enqueue],
    [drain] and [finishIfIdle] atomic.  A [work] is named by its channel, a
    number; [cancelled] says which contexts are done when a batch is applied.
    The window [waitRaftCoalesceWindow] sleeps before a drain: the steps of
    other goroutines may come in between any two steps, so it has no
    counterpart. *)

From stdpp Require Import prelude gmap strings list.
From S2P Require Import Prelude Model MemoryStore Idempotency Produce RaftCodec.

#[local] Open Scope Z_scope.

Section Batcher.
Context {World Req Item Ans : Type}.

(** [applyCoalescedRaftCommand] with [raftValueAs], the answer in an item, and
    the error of a context that is done. *)
Context (propose : World -> list Req -> World * result BrokerError (list Item)).
Context (answerOf : Item -> result BrokerError Ans).
Context (contextDone : BrokerError).

Record work := mkWork { w_ch : nat; w_req : Req }.

Record batcher := mkBatcher { running : bool; pending : list work }.

Definition newBatcher : batcher := mkBatcher false [].

(** [true]: the caller starts the runner. *)
Definition enqueue (q : batcher) (w : work) : batcher * bool :=
  let pending := pending q ++ [w] in
  if running q then (mkBatcher true pending, false) else (mkBatcher true pending, true).

Definition drain (q : batcher) : batcher * list work := (mkBatcher (running q) [], pending q).

Definition finishIfIdle (q : batcher) : batcher * bool :=
  if (0 <? length (pending q))%nat then (q, false) else (mkBatcher false (pending q), true).

(** What is sent, and on which channel. *)
Definition answer : Type := nat * result BrokerError Ans.

Definition deliverError (works : list work) (e : BrokerError) : list answer := (fun w => (w_ch w, Err e)) <$> works.

Definition deliverResults (works : list work) (items : list Item) : list answer :=
  if negb (length items =? length works)%nat then deliverError works (StoreError CodeCodec)
  else zip_with (fun w item => (w_ch w, answerOf item)) works items.

Definition applyWorks (cancelled : nat -> bool) (s : World) (works : list work) : World * list answer :=
  let done := filter (fun w => cancelled (w_ch w) = true) works in
  let active := filter (fun w => cancelled (w_ch w) = false) works in
  match active with
  | [] => (s, deliverError done contextDone)
  | _ =>
      match propose s (w_req <$> active) with
      | (s, Err e) => (s, deliverError done contextDone ++ deliverError active e)
      | (s, Ok items) => (s, deliverError done contextDone ++ deliverResults active items)
      end
  end.

(** ** The goroutines

    The runner is before [drain], between [drain] and the end of the batch, or
    before [finishIfIdle].  The calls made so far are numbered by their
    channels. *)

Inductive runner := Draining | Applying (works : list work) | Finishing.

Record system := mkSystem {
  sys_batcher : batcher;
  sys_runners : list runner;
  sys_world : World;
  sys_calls : list Req;
  sys_answers : list answer
}.

Definition initial (s : World) : system := mkSystem newBatcher [] s [] [].

(** A call up to the point where it waits for its answer. *)
Definition call (req : Req) (s : system) : system :=
  let '(q, start) := enqueue (sys_batcher s) (mkWork (length (sys_calls s)) req) in
  mkSystem q (if start then sys_runners s ++ [Draining] else sys_runners s) (sys_world s)
    (sys_calls s ++ [req]) (sys_answers s).

(** One atomic step of a runner; a runner that is done is no more. *)
Definition runnerStep (cancelled : nat -> bool) (r : runner) (s : system) : option runner * system :=
  match r with
  | Draining =>
      let '(q, works) := drain (sys_batcher s) in
      let s := mkSystem q (sys_runners s) (sys_world s) (sys_calls s) (sys_answers s) in
      if (0 <? length works)%nat then (Some (Applying works), s) else (Some Finishing, s)
  | Applying works =>
      let '(world, answers) := applyWorks cancelled (sys_world s) works in
      (Some Finishing, mkSystem (sys_batcher s) (sys_runners s) world (sys_calls s) (sys_answers s ++ answers))
  | Finishing =>
      let '(q, idle) := finishIfIdle (sys_batcher s) in
      let s := mkSystem q (sys_runners s) (sys_world s) (sys_calls s) (sys_answers s) in
      if idle then (None, s) else (Some Draining, s)
  end.

(** The runner at position [i] takes a step. *)
Definition advance (cancelled : nat -> bool) (i : nat) (s : system) : option system :=
  r ← sys_runners s !! i;
  let '(r', s') := runnerStep cancelled r s in
  Some (mkSystem (sys_batcher s')
          (match r' with Some r' => <[i := r']> (sys_runners s') | None => delete i (sys_runners s') end)
          (sys_world s') (sys_calls s') (sys_answers s')).

(** Callers, runners and the rest of the broker in any order. *)
Inductive step : system -> system -> Prop :=
| step_call req s : step s (call req s)
| step_runner cancelled i s s' : advance cancelled i s = Some s' -> step s s'
| step_world world s :
    step s (mkSystem (sys_batcher s) (sys_runners s) world (sys_calls s) (sys_answers s)).

(** What the call on channel [ch] may return: the answer sent to it, or the
    error of its context. *)
Inductive returns (s : system) (ch : nat) : result BrokerError Ans -> Prop :=
| return_answer r : (ch, r) ∈ sys_answers s -> returns s ch r
| return_done : returns s ch (Err contextDone).

End Batcher.

Arguments work : clear implicits.
Arguments batcher : clear implicits.
Arguments system : clear implicits.
Arguments runner : clear implicits.

(** ** The two batchers *)

Definition produceBatchAnswer (item : produceBatchItemResult) : result BrokerError ProduceBatchResult :=
  match pbi_Error item with None => Ok (pbi_Result item) | Some e => Err e end.

Definition commitOffsetAnswer (item : option BrokerError) : result BrokerError unit :=
  match item with None => Ok tt | Some e => Err e end.

Definition raft_produce_batch_context_done : BrokerError := BrokerFailure "raft_produce_batch_context_done".
Definition raft_commit_offset_context_done : BrokerError := BrokerFailure "raft_commit_offset_context_done".
