(* ===== verification/CoalescerSpec.v ===== *)
(** * Coalescing proposals: properties

    An invariant of every interleaving of callers, runners and the rest of the
    broker: at most one runner, no request without one, each request in one
    place, each answer its own.  The steps of the runner alone bring the machine
    to rest, so no call waits for ever for its channel. *)

From stdpp Require Import prelude gmap strings list relations.
From S2P Require Import Prelude Model MemoryStore MetaStore Queue Idempotency Headers Produce ProduceSpec Acks RaftCodec RaftCodecSpec Coalescer.

Section Machine.
Context {World Req Item Ans : Type}.
Context (propose : World -> list Req -> World * result BrokerError (list Item)).
Context (answerOf : Item -> result BrokerError Ans).
Context (contextDone : BrokerError).

#[local] Abbreviation System := (system World Req Ans).
#[local] Abbreviation Step := (@step World Req Item Ans propose answerOf contextDone).
#[local] Abbreviation Advance := (advance propose answerOf contextDone).

(** An answer to [req]: its context was done, or it was proposed in a batch and
    the answer is the error of the batch, the error of a response of another
    length, or what the response has in its place. *)
Definition justified (req : Req) (r : result BrokerError Ans) : Prop :=
  r = Err contextDone \/
  exists world batch k, batch !! k = Some req /\
    match (propose world batch).2 with
    | Err e => r = Err e
    | Ok items =>
        if (length items =? length batch)%nat then exists item, items !! k = Some item /\ r = answerOf item
        else r = Err (StoreError CodeCodec)
    end.

Definition held (r : runner Req) : list (work Req) := match r with Applying works => works | _ => [] end.

(** The requests that have no answer yet. *)
Definition unanswered (s : System) : list (work Req) := pending (sys_batcher s) ++ (sys_runners s ≫= held).

Record inv (s : System) : Prop := {
  inv_runner : length (sys_runners s) = if running (sys_batcher s) then 1 else 0;
  inv_pending : running (sys_batcher s) = false -> pending (sys_batcher s) = [];
  inv_places : ((@w_ch Req) <$> unanswered s) ++ (sys_answers s).*1 ≡ₚ seq 0 (length (sys_calls s));
  inv_request : Forall (fun w => sys_calls s !! w_ch w = Some (w_req w)) (unanswered s);
  inv_answer : Forall (fun a => exists req, sys_calls s !! a.1 = Some req /\ justified req a.2) (sys_answers s)
}.

(** ** One batch *)

Lemma deliverError_channels (works : list (work Req)) e : (deliverError (Ans := Ans) works e).*1 = (@w_ch Req) <$> works.
Proof. unfold deliverError. rewrite <- list_fmap_compose. done. Qed.

Lemma deliverResults_channels works items : (deliverResults answerOf works items).*1 = (@w_ch Req) <$> works.
Proof.
  unfold deliverResults. destruct (Nat.eqb_spec (length items) (length works)) as [E|E]; cbn [negb]; [|apply deliverError_channels].
  revert items E. induction works as [|w works IH]; intros [|item items] E; try done. cbn [zip_with].
  rewrite !fmap_cons. f_equal. apply IH. by injection E.
Qed.

Lemma filter_flag {A} (f : A -> bool) (l : list A) :
  filter (fun x => f x = true) l ++ filter (fun x => f x = false) l ≡ₚ l.
Proof.
  induction l as [|x l IH]; [done|]. rewrite !filter_cons. destruct (f x).
  - rewrite decide_True, decide_False by done. cbn [app]. by rewrite IH.
  - rewrite decide_False, decide_True by done. by rewrite <- Permutation_middle, IH.
Qed.

(** Every work of a batch is answered once. *)
Lemma applyWorks_channels cancelled world works :
  (applyWorks propose answerOf contextDone cancelled world works).2.*1 ≡ₚ (@w_ch Req) <$> works.
Proof.
  unfold applyWorks. 
  set (done := filter (fun w => cancelled (w_ch w) = true) works). set (active := filter (fun w => cancelled (w_ch w) = false) works).
  assert (done ++ active ≡ₚ works) as Hp by apply (filter_flag (fun w => cancelled (w_ch w))).
  rewrite <- Hp. clearbody done active. rewrite fmap_app.
  assert (forall l, (deliverError (Ans := Ans) done contextDone ++ l).*1 = ((@w_ch Req) <$> done) ++ l.*1) as Hd.
  { intros l. by rewrite fmap_app, deliverError_channels. }
  destruct active as [|w active]; [cbn; by rewrite deliverError_channels, app_nil_r|].
  destruct (propose world _) as [world' [items|e]]; cbn [snd]; rewrite Hd.
  - by rewrite deliverResults_channels.
  - by rewrite deliverError_channels.
Qed.

Lemma applyWorks_justified cancelled world works :
  Forall (fun a => exists w, w ∈ works /\ a.1 = w_ch w /\ justified (w_req w) a.2)
    (applyWorks propose answerOf contextDone cancelled world works).2.
Proof.
  unfold applyWorks. set (active := filter (fun w => cancelled (w_ch w) = false) works).
  assert (Forall (fun a => exists w, w ∈ works /\ a.1 = w_ch w /\ justified (w_req w) a.2)
            (deliverError (Ans := Ans) (filter (fun w => cancelled (w_ch w) = true) works) contextDone)) as Hdone.
  { apply Forall_fmap, Forall_forall. intros w [_ Hw]%list_elem_of_filter. exists w. split_and!; [done|done|by left]. }
  assert (forall k w, active !! k = Some w -> w ∈ works /\ (w_req <$> active) !! k = Some (w_req w)) as Hact.
  { intros k w Hk. rewrite list_lookup_fmap, Hk. split; [|done]. apply list_elem_of_lookup_2, list_elem_of_filter in Hk. tauto. }
  assert (length (w_req <$> active) = length active) as Hlen by apply length_fmap.
  clearbody active. destruct active as [|w0 active]; [done|].
  destruct (propose world (w_req <$> w0 :: active)) as [world' [items|e]] eqn:Ep; cbn [snd]; apply Forall_app; (split; [done|]).
  - unfold deliverResults. destruct (Nat.eqb_spec (length items) (length (w0 :: active))) as [E|E]; cbn [negb].
    + apply Forall_lookup. intros k a (w & item & -> & Hw & Hi)%lookup_zip_with_Some. destruct (Hact k w Hw) as [Hin Hreq].
      exists w. split_and!; [done|done|]. right. exists world, (w_req <$> w0 :: active), k. split; [exact Hreq|]. rewrite Ep. cbn [snd].
      rewrite Hlen, E, Nat.eqb_refl. by exists item.
    + apply Forall_fmap, Forall_lookup. intros k w Hw. destruct (Hact k w Hw) as [Hin Hreq].
      exists w. split_and!; [done|done|]. right. exists world, (w_req <$> w0 :: active), k. split; [exact Hreq|]. rewrite Ep. cbn [snd].
      apply Nat.eqb_neq in E. by rewrite Hlen, E.
  - apply Forall_fmap, Forall_lookup. intros k w Hw. destruct (Hact k w Hw) as [Hin Hreq].
    exists w. split_and!; [done|done|]. right. exists world, (w_req <$> w0 :: active), k. split; [exact Hreq|]. by rewrite Ep.
Qed.

(** ** The invariant is kept *)

Lemma inv_initial world : inv (initial world).
Proof. by split. Qed.

Lemma inv_call req s : inv s -> inv (call req s).
Proof.
  intros [Hr Hp Hpl Hreq Hans]. unfold call, enqueue.
  set (w := mkWork (length (sys_calls s)) req).
  assert (forall start runners, runners = (if start : bool then sys_runners s ++ [Draining] else sys_runners s) ->
            length runners = 1 ->
            inv (mkSystem (mkBatcher true (pending (sys_batcher s) ++ [w])) runners (sys_world s) (sys_calls s ++ [req]) (sys_answers s)))
    as Hgen.
  { intros start runners Erun Hone.
    assert (pending (sys_batcher s) ++ [w] ++ (runners ≫= held) ≡ₚ w :: unanswered s) as Hun.
    { rewrite Erun. unfold unanswered. destruct start; rewrite ?bind_app; cbn; rewrite ?app_nil_r; by rewrite <- Permutation_middle. }
    split; cbn [sys_runners sys_batcher sys_calls sys_answers running pending]; [done|done| | |].
    - unfold unanswered. cbn [sys_runners sys_batcher pending]. rewrite <- app_assoc, Hun. rewrite fmap_cons. cbn [app].
      rewrite Hpl, length_app. cbn [length]. rewrite Nat.add_1_r, seq_S. by rewrite <- Permutation_cons_append.
    - unfold unanswered. cbn [sys_runners sys_batcher pending]. rewrite <- app_assoc, Hun. constructor.
      + subst w. cbn. by rewrite list_lookup_middle.
      + eapply Forall_impl; [exact Hreq|]. intros w' Hw'. by apply lookup_app_l_Some.
    - eapply Forall_impl; [exact Hans|]. intros a (r & Hc & Hj). exists r. split; [by apply lookup_app_l_Some|done]. }
  destruct (running (sys_batcher s)) eqn:Er.
  - by apply (Hgen false).
  - apply (Hgen true); [done|]. rewrite length_app. cbn. lia.
Qed.

(** With the invariant there is at most one runner, at position 0. *)
Lemma inv_one_runner s i r :
  inv s -> sys_runners s !! i = Some r -> i = 0 /\ sys_runners s = [r] /\ running (sys_batcher s) = true.
Proof.
  intros Hi Hr. pose proof (inv_runner s Hi) as Hl. destruct (running _); [|apply lookup_lt_Some in Hr; lia].
  destruct (sys_runners s) as [|r' [|]]; try done. destruct i; [|done]. injection Hr as ->. done.
Qed.

Lemma inv_advance cancelled i s s' : inv s -> Advance cancelled i s = Some s' -> inv s'.
Proof.
  intros Hi. unfold advance. destruct (sys_runners s !! i) as [r|] eqn:Er; [|done].
  destruct (inv_one_runner s i r Hi Er) as (-> & Hone & Hrun). destruct Hi as [Hr Hp Hpl Hreq Hans].
  unfold unanswered in Hpl, Hreq. rewrite Hone in Hr, Hpl, Hreq.
  cbn [mbind option_bind]. destruct r as [|works|]; cbn [runnerStep drain]; unfold finishIfIdle.
  - rewrite app_nil_r in Hpl, Hreq. cbn [mbind list_bind held] in Hpl, Hreq.
    destruct (Nat.ltb_spec 0 (length (pending (sys_batcher s)))) as [Hlt|Hlt]; cbn; intros [= <-]; rewrite Hone; cbn.
    + split; cbn; rewrite ?Hrun; unfold unanswered; cbn; rewrite ?app_nil_r; done.
    + destruct (pending (sys_batcher s)); [|cbn in Hlt; lia].
      split; cbn; rewrite ?Hrun; unfold unanswered; cbn; done.
  - pose proof (applyWorks_channels cancelled (sys_world s) works) as Hch.
    pose proof (applyWorks_justified cancelled (sys_world s) works) as Hj.
    destruct (applyWorks _ _ _ cancelled (sys_world s) works) as [world answers]. cbn in Hch, Hj |- *. intros [= <-].
    cbn [mbind list_bind held] in Hpl, Hreq. rewrite app_nil_r in Hpl, Hreq. apply Forall_app in Hreq as [Hreqp Hreqw].
    rewrite Hone. split; cbn [sys_batcher sys_runners sys_calls sys_answers]; unfold unanswered; cbn [sys_batcher sys_runners].
    + by rewrite Hrun.
    + done.
    + cbn. rewrite <- Hpl, fmap_app, app_nil_r, fmap_app, Hch, (fmap_app _ _ works), <- app_assoc. by rewrite (Permutation_app_comm (sys_answers s).*1).
    + cbn. by rewrite app_nil_r.
    + apply Forall_app. split; [done|]. eapply Forall_impl; [exact Hj|]. intros a (w & Hw & -> & Hjw).
      exists (w_req w). split; [|done]. rewrite Forall_forall in Hreqw. by apply Hreqw.
  - destruct (Nat.ltb_spec 0 (length (pending (sys_batcher s)))) as [Hlt|Hlt]; cbn; intros [= <-]; rewrite Hone.
    + cbn [mbind list_bind held] in Hpl, Hreq. split; cbn; rewrite ?Hrun; unfold unanswered; cbn; done.
    + destruct (pending (sys_batcher s)) eqn:Ep; [|cbn in Hlt; lia].
      split; cbn; unfold unanswered; cbn; rewrite ?Ep; done.
Qed.

Lemma inv_step s s' : inv s -> Step s s' -> inv s'.
Proof.
  intros Hi Hs. destruct Hs as [req s|cancelled i s s' Ha|world s].
  - by apply inv_call.
  - by eapply inv_advance.
  - by destruct Hi.
Qed.

Lemma inv_reachable world s : rtc Step (initial world) s -> inv s.
Proof.
  intros Hs. remember (initial world) as s0 eqn:E. assert (inv s0) as Hi by (subst; apply inv_initial).
  clear E. induction Hs as [|s0 s1 s2 H1 _ IH]; [done|]. eauto using inv_step.
Qed.

(** ** The runner comes to rest *)

(** How many steps of the runner are left when no call comes in. *)
Definition work_left (s : System) : nat :=
  match sys_runners s with
  | [] => 0
  | r :: _ =>
      let again := match pending (sys_batcher s) with [] => 0 | _ => 3 end in
      match r with
      | Draining => match pending (sys_batcher s) with [] => 2 | _ => 3 end
      | Applying _ => 2 + again
      | Finishing => 1 + again
      end
  end.

(** Whatever contexts are done when the batch is applied, a runner can take its
    next step, and has one step less to take. *)
Lemma advance_progress cancelled s :
  inv s -> sys_runners s <> [] -> exists s', Advance cancelled 0 s = Some s' /\ work_left s' < work_left s.
Proof.
  intros Hi Hne. pose proof (inv_runner s Hi) as Hl. destruct (running (sys_batcher s)) eqn:Er; [|by destruct (sys_runners s)].
  destruct (sys_runners s) as [|r [|]] eqn:Hone; try done. unfold advance, work_left. rewrite Hone. cbn [lookup list_lookup mbind option_bind].
  destruct r as [|works|]; cbn [runnerStep drain]; unfold finishIfIdle.
  - destruct (pending (sys_batcher s)) eqn:Ep; cbn; (eexists; split; [done|]); cbn; rewrite Hone; cbn; lia.
  - destruct (applyWorks _ _ _ _ _ _) as [world answers]. eexists; (split; [done|]). cbn. rewrite Hone. cbn. lia.
  - destruct (pending (sys_batcher s)) eqn:Ep; cbn; (eexists; split; [done|]); cbn; rewrite ?Hone, ?Ep; cbn; lia.
Qed.

(** The runner alone, with any contexts done at its steps. *)
Fixpoint runAlone (cancelled : nat -> nat -> bool) (fuel : nat) (s : System) : System :=
  match fuel with
  | O => s
  | S fuel => match Advance (cancelled fuel) 0 s with Some s' => runAlone cancelled fuel s' | None => s end
  end.

Lemma runAlone_rests cancelled fuel s :
  inv s -> work_left s <= fuel -> inv (runAlone cancelled fuel s) /\ sys_runners (runAlone cancelled fuel s) = [] /\
  sys_calls (runAlone cancelled fuel s) = sys_calls s.
Proof.
  induction fuel as [|fuel IH] in s |- *; intros Hi Hle; cbn [runAlone].
  - split_and!; [done| |done]. destruct (sys_runners s) as [|r l] eqn:E; [done|].
    unfold work_left in Hle. rewrite E in Hle. destruct r; repeat case_match; lia.
  - destruct (decide (sys_runners s = [])) as [E|E].
    + unfold advance. rewrite E. done.
    + destruct (advance_progress (cancelled fuel) s Hi E) as (s' & Ha & Hlt). rewrite Ha.
      destruct (IH s') as (H1 & H2 & H3); [by eapply inv_advance|lia|]. split_and!; [done|done|]. rewrite H3.
      revert Ha. unfold advance. destruct (sys_runners s !! 0) as [r|]; [|done]. cbn [mbind option_bind].
      destruct r; cbn [runnerStep drain]; unfold finishIfIdle; repeat case_match; intros [= <-]; by simplify_eq/=.
Qed.

Lemma work_left_bound s : work_left s <= 5.
Proof. unfold work_left. repeat case_match; lia. Qed.

Lemma rest_answered s : inv s -> sys_runners s = [] -> (sys_answers s).*1 ≡ₚ seq 0 (length (sys_calls s)).
Proof.
  intros [Hr Hp Hpl _ _] E. rewrite E in Hr. destruct (running (sys_batcher s)); [done|].
  rewrite <- Hpl. unfold unanswered. by rewrite E, Hp.
Qed.

(** C31: concurrent requests are coalesced without losing one.  In every state
    that callers, the runner and the rest of the broker can reach: there is one
    runner while requests wait and never two; no channel has been sent more than
    one answer, so a send on a channel of capacity one never blocks, also when
    its caller is gone; every answer is the one to the request of its call, from
    the place of that request in the batch it was proposed in; and within five
    further steps of the runner alone, whichever contexts end meanwhile, the
    runner has stopped and every call made so far has its answer. *)
Theorem coalesced_calls_answered world s cancelled :
  rtc Step (initial world) s ->
  (length (sys_runners s) <= 1 /\ (pending (sys_batcher s) <> [] -> length (sys_runners s) = 1)) /\
  NoDup (sys_answers s).*1 /\
  (forall ch r, (ch, r) ∈ sys_answers s -> exists req, sys_calls s !! ch = Some req /\ justified req r) /\
  let s' := runAlone cancelled 5 s in
  sys_runners s' = [] /\ sys_calls s' = sys_calls s /\
  forall ch, ch < length (sys_calls s) -> exists r, (ch, r) ∈ sys_answers s'.
Proof.
  intros Hi%inv_reachable. split_and!.
  - rewrite (inv_runner s Hi). destruct (running _); lia.
  - intros Hp. rewrite (inv_runner s Hi). destruct (running _) eqn:E; [done|]. by destruct (Hp (inv_pending s Hi E)).
  - pose proof (NoDup_seq 0 (length (sys_calls s))) as Hnd. rewrite <- (inv_places s Hi) in Hnd. by apply NoDup_app in Hnd as (_ & _ & Hnd).
  - intros ch r Hin. pose proof (inv_answer s Hi) as Ha. rewrite Forall_forall in Ha. exact (Ha _ Hin).
  - destruct (runAlone_rests cancelled 5 s Hi (work_left_bound s)) as (Hi' & E & Hc). split_and!; [done|done|].
    intros ch Hch. pose proof (rest_answered _ Hi' E) as Hp. rewrite Hc in Hp.
    assert (ch ∈ (sys_answers (runAlone cancelled 5 s)).*1) as Hin by (rewrite Hp; apply elem_of_seq; lia).
    apply list_elem_of_fmap in Hin as ([ch' r] & -> & Hin). by exists r.
Qed.

End Machine.

(** ** Example *)

(** Requests applied directly. *)
Definition ex_propose (b : Broker) (requests : list produceBatchCommand) : Broker * result BrokerError (list produceBatchItemResult) :=
  let '(b, items) := @applyProduceBatches map_to_list_range ex_hash (fun _ _ => 5%Z) (fun _ => 5%Z) (fun _ => false) b requests in
  (b, Ok items).

#[local] Abbreviation ex_advance := (advance ex_propose produceBatchAnswer raft_produce_batch_context_done).

(** Two calls, a drain, and a third call while the batch is applied. *)
Definition ex_state : system Broker produceBatchCommand ProduceBatchResult :=
  let s := call ex_routed (call ex_routed (initial ex_replica)) in
  call ex_routed (default s (ex_advance (fun _ => false) 0 s)).

Lemma coalesced_calls_answered_witness :
  let s' := runAlone ex_propose produceBatchAnswer raft_produce_batch_context_done (fun _ ch => bool_decide (ch = 1)) 5 ex_state in
  length (sys_calls s') = 3 /\ exists r, (2, r) ∈ sys_answers s'.
Proof.
  destruct (coalesced_calls_answered ex_propose produceBatchAnswer raft_produce_batch_context_done
    ex_replica ex_state (fun _ ch => bool_decide (ch = 1))) as (_ & _ & _ & _ & Hc & Hans).
  - eapply rtc_l; [apply (step_call _ _ _ ex_routed)|]. eapply rtc_l; [apply (step_call _ _ _ ex_routed)|].
    eapply rtc_l; [|apply rtc_once, (step_call _ _ _ ex_routed)].
    apply (step_runner _ _ _ (fun _ => false) 0). reflexivity.
  - split; [rewrite Hc; reflexivity|]. apply Hans. vm_compute. lia.
Defined.

(** The second call's context is done when its batch is applied; the third call
    repeats the idempotent request of the first in the next batch, and gets its
    records. *)
Example ex_answers :
  (fun a => (a.1, match a.2 with Ok r => Ok (r_Offset <$> pbr_Records r) | Err e => Err e end)) <$>
    sys_answers (runAlone ex_propose produceBatchAnswer raft_produce_batch_context_done (fun _ ch => bool_decide (ch = 1)) 5 ex_state)
  = [(1, Err raft_produce_batch_context_done); (0, Ok [0; 1]%Z); (2, Ok [0; 1]%Z)].
Proof. vm_compute. reflexivity. Qed.
