(* ===== verification/Routing.v ===== *)
(** * Routing commands to replicas and shards

    [src/broker/command_router.go], [cluster_router.go],
    [cluster_coalesced_router.go], the registry of [data_shard_runtime.go],
    the bounded loop of [concurrency.go] and the proposal path of [raft.go].

    A router either applies a command where it is, by the function it is given,
    or proposes it to a replicated group.  [dragonboat] is the parameter
    [SyncPropose], which proposes bytes to a group and returns what the state
    machine of this replica made of them; every group drives the same broker.
    An error that comes back from a replica is a message; as in the items of a
    batch, the model keeps the error it was made of. *)

From stdpp Require Import prelude gmap strings list.
From S2P Require Import Prelude Wire Model MemoryStore MetaStore Idempotency Produce Acks RaftCodec Coalescer.

#[local] Open Scope Z_scope.

(** ** Targets *)

Record partitionCommandTarget := mkTarget {
  pct_Topic : string;
  pct_Partition : Z;
  pct_PartitionKnown : bool;
  pct_ShardID : Z;
  pct_ShardKnown : bool
}.

Definition zeroTarget : partitionCommandTarget := mkTarget "" 0 false 0 false.

Definition topicCommandTarget (topic : string) : partitionCommandTarget := mkTarget topic 0 false 0 false.

Definition exactPartitionCommandTarget (topic : string) (partition : Z) : partitionCommandTarget :=
  mkTarget topic partition true 0 false.

Definition shardCommandTarget (shardID : Z) : partitionCommandTarget := mkTarget "" 0 false shardID true.

Definition publishPartitionCommandTarget (topic : string) (partitioning : PublishPartitioning) : partitionCommandTarget :=
  if decide (pp_Mode partitioning = PartitionExplicit) then exactPartitionCommandTarget topic (pp_Partition partitioning)
  else topicCommandTarget topic.

Definition target_validate (target : partitionCommandTarget) : result BrokerError unit :=
  if pct_PartitionKnown target && bool_decide (pct_Topic target = "") then Err (StoreError CodeInvalidArgument) else Ok tt.

Definition produceBatchesCommandTarget (requests : list produceBatchCommand) : partitionCommandTarget :=
  match requests with
  | [item] => publishPartitionCommandTarget (pbc_Topic item) (pbc_Partitioning item)
  | _ => zeroTarget
  end.

Definition commitOffsetsCommandTarget (requests : list commitOffsetCommand) : partitionCommandTarget :=
  match requests with
  | [item] => exactPartitionCommandTarget (coc_Topic item) (coc_Partition item)
  | _ => zeroTarget
  end.

(** ** Proposing *)

Definition commandApplyFunc : Type := Broker -> Broker * result BrokerError raftValue.

(** The result of [f] with its error wrapped. *)
Definition wrapErr (code : string) (f : commandApplyFunc) : commandApplyFunc := fun b =>
  match f b with (b, Err e) => (b, Err (wrapBroker code e)) | (b, Ok v) => (b, Ok v) end.

Inductive syncError := ErrShardNotReady | ErrShardNotInitialized | ErrTimeout | ErrSystemBusy | ErrOther.

Definition raftApplyError (e : syncError) : BrokerError :=
  match e with
  | ErrShardNotReady | ErrShardNotInitialized => StoreError CodeNotLeader
  | ErrTimeout | ErrSystemBusy => StoreError CodeUnavailable
  | ErrOther => BrokerFailure "raft_apply_failed"
  end.

Definition raftMetadataGroupID : Z := 1.
Definition raftDataGroupBaseID : Z := 10000.
Definition dataShardRaftGroupID (shardID : Z) : Z := u64 (raftDataGroupBaseID + u64 shardID).

(** What [SyncPropose] returns: its own error, or what the state machine made
    of the command. *)
Definition syncResult : Type := syncError + result BrokerError raftValue.

Record raftNode := mkRaftNode {
  node_marshalPayload : raftPayload -> option bytes;
  node_marshalCommand : string -> bytes -> option bytes;
  node_SyncPropose : Z -> bytes -> Broker -> Broker * syncResult
}.

(** [ctxDone]: the context is done before the command is encoded. *)
Definition ApplyGroup (n : raftNode) (ctxDone : bool) (groupID : Z) (commandType : string) (payload : raftPayload)
    : commandApplyFunc := fun b =>
  if ctxDone then (b, Err (BrokerFailure "raft_apply_context_done"))
  else
    match encodeRaftCommand (node_marshalPayload n) (node_marshalCommand n) commandType payload with
    | Err e => (b, Err e)
    | Ok encoded =>
        match node_SyncPropose n groupID encoded b with
        | (b, inl e) => (b, Err (raftApplyError e))
        | (b, inr r) => (b, r)
        end
    end.

Definition Apply (n : raftNode) (ctxDone : bool) (commandType : string) (payload : raftPayload) : commandApplyFunc :=
  ApplyGroup n ctxDone raftMetadataGroupID commandType payload.

(** ** Routers *)

Record brokerCommandRouter := mkRouter {
  UsesCluster : bool;
  ApplyMetadataCommand : string -> raftPayload -> commandApplyFunc -> commandApplyFunc;
  ApplyPartitionCommand : partitionCommandTarget -> string -> raftPayload -> commandApplyFunc -> commandApplyFunc
}.

(** [node] is the started raft node, if any. *)
Definition singleGroupApply (node : option raftNode) (ctxDone : bool) (commandType : string) (payload : raftPayload)
    (local : commandApplyFunc) : commandApplyFunc :=
  match node with
  | None => local
  | Some node => Apply node ctxDone commandType payload
  end.

Definition newSingleGroupCommandRouter (node : option raftNode) (ctxDone : bool) : brokerCommandRouter := {|
  UsesCluster := match node with Some _ => true | None => false end;
  ApplyMetadataCommand := singleGroupApply node ctxDone;
  ApplyPartitionCommand := fun target commandType payload local b =>
    match target_validate target with
    | Err e => (b, Err e)
    | Ok _ => singleGroupApply node ctxDone commandType payload local b
    end
|}.

Definition newMetadataOnlyCommandRouter (metadata : brokerCommandRouter) : brokerCommandRouter := {|
  UsesCluster := false;
  ApplyMetadataCommand := fun commandType payload local =>
    wrapErr "metadata_only_command_route_failed" (ApplyMetadataCommand metadata commandType payload local);
  ApplyPartitionCommand := fun target _ _ local b =>
    match target_validate target with Err e => (b, Err e) | Ok _ => local b end
|}.

(** ** Data shards *)

Record dataShardCommand := mkDataShardCommand {
  dsc_ShardID : Z;
  dsc_Target : partitionCommandTarget;
  dsc_CommandType : string;
  dsc_Payload : raftPayload;
  dsc_Local : option commandApplyFunc
}.

(** [ApplyDataShardCommand] of a [dataShardRuntime]. *)
Definition dataShardRuntime : Type := dataShardCommand -> commandApplyFunc.

Definition localDataShardRuntime : dataShardRuntime := fun cmd b =>
  match dsc_Local cmd with None => (b, Err (StoreError CodeUnavailable)) | Some local => local b end.

Definition raftDataShardRuntime (node : option raftNode) (ctxDone : bool) (shardID : Z) : dataShardRuntime := fun cmd b =>
  match node with
  | None => match dsc_Local cmd with Some local => local b | None => (b, Err (StoreError CodeUnavailable)) end
  | Some node => ApplyGroup node ctxDone (dataShardRaftGroupID shardID) (dsc_CommandType cmd) (dsc_Payload cmd) b
  end.

Definition dataShardRegistry : Type := gmap Z dataShardRuntime.

(** The shards of [specs], or shard 0 when there are none. *)
Definition newRegistry (runtime : Z -> dataShardRuntime) (specs : list Z) : dataShardRegistry :=
  let specs := match specs with [] => [0] | _ => specs end in
  foldl (fun runtimes shardID => <[shardID := runtime shardID]> runtimes) ∅ specs.

Definition newLocalDataShardRegistry (specs : list Z) : dataShardRegistry := newRegistry (fun _ => localDataShardRuntime) specs.

Definition newRaftDataShardRegistry (node : option raftNode) (ctxDone : bool) (specs : list Z) : dataShardRegistry :=
  newRegistry (raftDataShardRuntime node ctxDone) specs.

Definition ApplyDataShardCommand (r : dataShardRegistry) (cmd : dataShardCommand) : commandApplyFunc := fun b =>
  match r !! dsc_ShardID cmd with
  | None => (b, Err (StoreError CodeInvalidArgument))
  | Some runtime => wrapErr "data_shard_runtime_apply_failed" (runtime cmd) b
  end.

(** The shard specifications of a configuration. *)
Definition buildDataShardSpecs (dataShardCount : Z) : list Z :=
  let shardCount := if dataShardCount =? 0 then 1 else dataShardCount in seqZ 0 shardCount.

(** ** The cluster router *)

(** [b.shards.Resolve], which may fill the cache of the resolver. *)
Definition resolveShard (b : Broker) (tp : TopicPartition) : Broker * result BrokerError ShardPlacement :=
  let '(r, placement) := Resolve (b_shards b) (b_store b) tp in (set_shards r b, placement).

Definition resolveTarget (target : partitionCommandTarget) (b : Broker) : Broker * result BrokerError partitionCommandTarget :=
  match target_validate target with
  | Err e => (b, Err e)
  | Ok _ =>
      if pct_ShardKnown target || negb (pct_PartitionKnown target) then (b, Ok target)
      else
        match resolveShard b (NewTopicPartition (pct_Topic target) (pct_Partition target)) with
        | (b, Err e) => (b, Err e)
        | (b, Ok placement) =>
            (b, Ok (mkTarget (pct_Topic target) (pct_Partition target) (pct_PartitionKnown target) (sp_ShardID placement) true))
        end
  end.

Definition applyResolvedPartitionCommand (metadata : brokerCommandRouter) (data : option dataShardRegistry)
    (target : partitionCommandTarget) (commandType : string) (payload : raftPayload) (local : commandApplyFunc)
    : commandApplyFunc :=
  match data with
  | Some data =>
      if pct_ShardKnown target then
        wrapErr "data_shard_command_apply_failed"
          (ApplyDataShardCommand data (mkDataShardCommand (pct_ShardID target) target commandType payload (Some local)))
      else wrapErr "partition_command_metadata_fallback_failed" (ApplyPartitionCommand metadata target commandType payload local)
  | None => wrapErr "partition_command_metadata_fallback_failed" (ApplyPartitionCommand metadata target commandType payload local)
  end.

Definition newClusterCommandRouter (metadata : brokerCommandRouter) (data : option dataShardRegistry) : brokerCommandRouter := {|
  UsesCluster := UsesCluster metadata;
  ApplyMetadataCommand := fun commandType payload local =>
    wrapErr "metadata_command_route_failed" (ApplyMetadataCommand metadata commandType payload local);
  ApplyPartitionCommand := fun target commandType payload local b =>
    match resolveTarget target b with
    | (b, Err e) => (b, Err (wrapBroker "partition_command_target_resolve_failed" e))
    | (b, Ok resolved) =>
        wrapErr "partition_command_route_failed" (applyResolvedPartitionCommand metadata data resolved commandType payload local) b
    end
|}.

(** ** Coalesced commands *)

Definition applyRoutedPartitionCommand (router : brokerCommandRouter) (target : partitionCommandTarget) (commandType : string)
    (payload : raftPayload) (local : commandApplyFunc) : commandApplyFunc :=
  wrapErr "partition_command_route_failed" (ApplyPartitionCommand router target commandType payload local).

(** [raftValueAs] at the two result types. *)
Definition raftValueAsProduce (value : raftValue) : result BrokerError (list produceBatchItemResult) :=
  match value with ProduceBatchesValue items => Ok items | _ => Err (BrokerFailure "raft_result_decode_failed") end.

Definition raftValueAsCommit (value : raftValue) : result BrokerError (list (option BrokerError)) :=
  match value with CommitOffsetsValue items => Ok items | _ => Err (BrokerFailure "raft_result_decode_failed") end.

(** [runBounded] of tasks that do not fail, as many workers as tasks:
    [submit i] is the error that keeps task [i] from being submitted.  The
    tasks write to places of their own; they are run in the order they are
    listed, which is the order of a map and so any order. *)
Fixpoint runBounded {S A} (submit : nat -> option BrokerError) (run : S -> A -> S) (s : S) (tasks : list A)
    : S * option BrokerError :=
  match tasks with
  | [] => (s, None)
  | task :: tasks =>
      match submit O with
      | Some e => (s, Some e)
      | None => runBounded (fun i => submit (Datatypes.S i)) run (run s task) tasks
      end
  end.

(** *** Groups by shard

    The code for the two commands differs in its types. *)

Section ShardGroups.
Context {Req Item : Type}.

Record shardGroup := mkShardGroup { sg_shardID : Z; sg_indexes : list nat; sg_requests : list Req }.

Definition addToGroup (groups : gmap Z shardGroup) (shardID : Z) (index : nat) (planned : Req) : gmap Z shardGroup :=
  let group := default (mkShardGroup shardID [] []) (groups !! shardID) in
  <[shardID := mkShardGroup (sg_shardID group) (sg_indexes group ++ [index]) (sg_requests group ++ [planned])]> groups.

Context (plan : Broker -> Req -> Broker * result BrokerError (Z * Req)).
Context (zero : Item) (setError : BrokerError -> Item -> Item).

Fixpoint planShardGroups (index : nat) (b : Broker) (groups : gmap Z shardGroup) (requests : list Req)
    : Broker * (gmap Z shardGroup * list Item) :=
  match requests with
  | [] => (b, (groups, []))
  | command :: requests =>
      match plan b command with
      | (b, Err e) =>
          let '(b, (groups, items)) := planShardGroups (S index) b groups requests in (b, (groups, setError e zero :: items))
      | (b, Ok (shardID, planned)) =>
          let '(b, (groups, items)) := planShardGroups (S index) b (addToGroup groups shardID index planned) requests in
          (b, (groups, zero :: items))
      end
  end.

Definition setGroupError (items : list Item) (indexes : list nat) (e : BrokerError) : list Item :=
  foldl (fun items index => alter (setError e) index items) items indexes.

Definition mergeGroupResult (group : shardGroup) (response : list Item) (items : list Item) : list Item :=
  if negb (length response =? length (sg_indexes group))%nat then setGroupError items (sg_indexes group) (StoreError CodeCodec)
  else foldl (fun items entry => <[entry.1 := entry.2]> items) items (zip (sg_indexes group) response).

Context (send : Broker -> Z -> list Req -> Broker * result BrokerError (list Item)).

Definition routeShardGroup (acc : Broker * list Item) (group : shardGroup) : Broker * list Item :=
  let '(b, items) := acc in
  match send b (sg_shardID group) (sg_requests group) with
  | (b, Err e) => (b, setGroupError items (sg_indexes group) e)
  | (b, Ok response) => (b, mergeGroupResult group response items)
  end.

Definition routeByShard `{MapRange} (submit : nat -> option BrokerError) (b : Broker) (requests : list Req)
    : Broker * result BrokerError (list Item) :=
  let '(b, (groups, items)) := planShardGroups O b ∅ requests in
  match runBounded submit routeShardGroup (b, items) (values groups) with
  | ((b, _), Some e) => (b, Err e)
  | ((b, items), None) => (b, Ok items)
  end.

End ShardGroups.

Arguments shardGroup : clear implicits.

Section Coalesced.
Context `{MapRange} `{Hash64} (router : brokerCommandRouter) (submit : nat -> option BrokerError) (env : applyEnv).

Definition sendProduceBatches (target : partitionCommandTarget) (b : Broker) (requests : list produceBatchCommand)
    : Broker * result BrokerError (list produceBatchItemResult) :=
  match applyRoutedPartitionCommand router target raftCommandProduceBatches (ProduceBatchesPayload requests)
          (fun b => applyBinaryProduceBatches env b requests) b with
  | (b, Err e) => (b, Err e)
  | (b, Ok value) => (b, raftValueAsProduce value)
  end.

Definition sendCommitOffsets (target : partitionCommandTarget) (b : Broker) (requests : list commitOffsetCommand)
    : Broker * result BrokerError (list (option BrokerError)) :=
  match applyRoutedPartitionCommand router target raftCommandCommitOffsets (CommitOffsetsPayload requests)
          (fun b => applyBinaryCommitOffsets env b requests) b with
  | (b, Err e) => (b, Err e)
  | (b, Ok value) => (b, raftValueAsCommit value)
  end.

Definition routeProduceBatchesSingle (b : Broker) (requests : list produceBatchCommand)
    : Broker * result BrokerError (list produceBatchItemResult) :=
  sendProduceBatches (produceBatchesCommandTarget requests) b requests.

Definition routeCommitOffsetsSingle (b : Broker) (requests : list commitOffsetCommand)
    : Broker * result BrokerError (list (option BrokerError)) :=
  sendCommitOffsets (commitOffsetsCommandTarget requests) b requests.

Definition planProduceBatchShardCommand (b : Broker) (req : produceBatchCommand)
    : Broker * result BrokerError (Z * produceBatchCommand) :=
  match planProduceBatch O b req with
  | (b, Err e) => (b, Err e)
  | (b, Ok plan) =>
      match resolveShard b (plan_tp plan) with
      | (b, Err e) => (b, Err e)
      | (b, Ok placement) =>
          let explicit := mkPublishPartitioning PartitionExplicit (tp_Partition (plan_tp plan)) "" in
          (b, Ok (sp_ShardID placement, set_request explicit (pbc_Records (plan_request plan)) (plan_request plan)))
      end
  end.

Definition planCommitOffsetShardCommand (b : Broker) (command : commitOffsetCommand)
    : Broker * result BrokerError (Z * commitOffsetCommand) :=
  match resolveShard b (NewTopicPartition (coc_Topic command) (coc_Partition command)) with
  | (b, Err e) => (b, Err e)
  | (b, Ok placement) => (b, Ok (sp_ShardID placement, command))
  end.

Definition routeProduceBatchesByShard (b : Broker) (requests : list produceBatchCommand)
    : Broker * result BrokerError (list produceBatchItemResult) :=
  routeByShard planProduceBatchShardCommand zeroItem set_Error
    (fun b shardID => sendProduceBatches (shardCommandTarget shardID) b) submit b requests.

Definition routeCommitOffsetsByShard (b : Broker) (requests : list commitOffsetCommand)
    : Broker * result BrokerError (list (option BrokerError)) :=
  routeByShard planCommitOffsetShardCommand None (fun e _ => Some e)
    (fun b shardID => sendCommitOffsets (shardCommandTarget shardID) b) submit b requests.

(** [NewBroker] gives every broker a shard resolver. *)
Definition canRouteCoalescedByShard : bool := UsesCluster router.

Definition routeProduceBatchesCommand (b : Broker) (requests : list produceBatchCommand)
    : Broker * result BrokerError (list produceBatchItemResult) :=
  if canRouteCoalescedByShard then routeProduceBatchesByShard b requests else routeProduceBatchesSingle b requests.

Definition routeCommitOffsetsCommand (b : Broker) (requests : list commitOffsetCommand)
    : Broker * result BrokerError (list (option BrokerError)) :=
  if canRouteCoalescedByShard then routeCommitOffsetsByShard b requests else routeCommitOffsetsSingle b requests.

(** ** The batchers of a broker *)

Definition applyProduceBatchWorks :=
  applyWorks routeProduceBatchesCommand produceBatchAnswer raft_produce_batch_context_done.

Definition applyCommitOffsetWorks :=
  applyWorks routeCommitOffsetsCommand commitOffsetAnswer raft_commit_offset_context_done.

Definition produceBatcherStep :=
  step routeProduceBatchesCommand produceBatchAnswer raft_produce_batch_context_done.

Definition commitBatcherStep :=
  step routeCommitOffsetsCommand commitOffsetAnswer raft_commit_offset_context_done.

End Coalesced.
