(* ===== verification/RoutingSpec.v ===== *)
(** * Routing commands: properties

    A coalesced batch is split by shard, each part is proposed once to the group
    of its shard, and the responses are put back in the places of their
    requests.  Nothing is assumed of what the group answers: it may refuse,
    time out or answer anything. *)

From stdpp Require Import prelude gmap strings list.
From S2P Require Import Prelude Wire Model MemoryStore MetaStore Queue Idempotency Headers Produce ProduceSpec Acks RaftCodec RaftCodecSpec Coalescer Routing.

(** ** Groups by shard *)

Section Groups.
Context {Req Item : Type} `{MapRange}.
Context (plan : Broker -> Req -> Broker * result BrokerError (Z * Req)).
Context (zero : Item) (setError : BrokerError -> Item -> Item).
Context (send : Broker -> Z -> list Req -> Broker * result BrokerError (list Item)).

(** What planning makes of each request, in order. *)
Fixpoint planned_of (b : Broker) (requests : list Req) : list (result BrokerError (Z * Req)) :=
  match requests with
  | [] => []
  | command :: requests => (plan b command).2 :: planned_of (plan b command).1 requests
  end.

(** The requests planned so far: place, shard, planned request. *)
Definition entry : Type := nat * Z * Req.

Definition of_shard (shardID : Z) (entries : list entry) : list entry := filter (fun e => e.1.2 = shardID) entries.

Definition groups_of (groups : gmap Z (shardGroup Req)) (entries : list entry) : Prop :=
  forall shardID, groups !! shardID =
    match of_shard shardID entries with
    | [] => None
    | l => Some (mkShardGroup shardID ((fun e => e.1.1) <$> l) (snd <$> l))
    end.

Lemma of_shard_app shardID l1 l2 : of_shard shardID (l1 ++ l2) = of_shard shardID l1 ++ of_shard shardID l2.
Proof. apply filter_app. Qed.

Lemma groups_of_add groups entries shardID index planned :
  groups_of groups entries -> groups_of (addToGroup groups shardID index planned) (entries ++ [(index, shardID, planned)]).
Proof.
  intros Hg s. rewrite of_shard_app. unfold addToGroup. pose proof (Hg shardID) as Hs. destruct (decide (s = shardID)) as [-> |Hne].
  - rewrite lookup_insert_eq, Hs. replace (of_shard shardID [(index, shardID, planned)]) with [(index, shardID, planned)]
      by (unfold of_shard; by rewrite filter_cons_True).
    destruct (of_shard shardID entries) as [|e l]; [done|]. cbn. by rewrite !fmap_app.
  - rewrite lookup_insert_ne by done. replace (of_shard s [(index, shardID, planned)]) with ([] : list entry)
      by (unfold of_shard; by rewrite filter_cons_False).
    rewrite app_nil_r. apply Hg.
Qed.

(** The entries the requests from place [index] on add. *)
Fixpoint entries_from (index : nat) (planned : list (result BrokerError (Z * Req))) : list entry :=
  match planned with
  | [] => []
  | Ok (shardID, req) :: planned => (index, shardID, req) :: entries_from (S index) planned
  | Err _ :: planned => entries_from (S index) planned
  end.

Definition first_item (r : result BrokerError (Z * Req)) : Item := match r with Ok _ => zero | Err e => setError e zero end.

Lemma planShardGroups_spec requests index b groups entries :
  groups_of groups entries ->
  let '(_, (groups', items)) := planShardGroups plan zero setError index b groups requests in
  groups_of groups' (entries ++ entries_from index (planned_of b requests)) /\ items = first_item <$> planned_of b requests.
Proof.
  induction requests as [|command requests IH] in index, b, groups, entries |- *; intros Hg; cbn [planShardGroups planned_of].
  - cbn. by rewrite app_nil_r.
  - destruct (plan b command) as [b1 [[shardID planned]|e]]; cbn [snd fst entries_from].
    + specialize (IH (S index) b1 _ _ (groups_of_add _ _ shardID index planned Hg)).
      destruct (planShardGroups _ _ _ _ _ _ _) as [b2 [groups2 items]]. destruct IH as [IH1 ->].
      rewrite <- app_assoc in IH1. done.
    + specialize (IH (S index) b1 _ _ Hg). destruct (planShardGroups _ _ _ _ _ _ _) as [b2 [groups2 items]].
      destruct IH as [IH1 ->]. done.
Qed.

Lemma entries_lookup index planned i shardID req :
  (i, shardID, req) ∈ entries_from index planned <-> index <= i /\ planned !! (i - index) = Some (Ok (shardID, req)).
Proof.
  induction planned as [|r planned IH] in index |- *; cbn [entries_from].
  - rewrite lookup_nil. split; [by intros ?%not_elem_of_nil|by intros []].
  - assert ((i, shardID, req) ∈ entries_from (S index) planned <->
            S index <= i /\ (r :: planned) !! (i - index) = Some (Ok (shardID, req))) as IH'.
    { rewrite IH. split; intros [Hle Hl]; (split; [done|]).
      - replace (i - index) with (S (i - S index)) by lia. done.
      - replace (i - index) with (S (i - S index)) in Hl by lia. done. }
    destruct r as [[s q]|e].
    + rewrite elem_of_cons, IH'. split.
      * intros [[= -> -> ->]|[Hle Hl]]; [|split; [lia|done]]. rewrite Nat.sub_diag. done.
      * intros [Hle Hl]. destruct (decide (i = index)) as [-> |Hne]; [left|right; split; [lia|done]].
        rewrite Nat.sub_diag in Hl. injection Hl as -> ->. done.
    + rewrite IH'. split; [intros [Hle Hl]; split; [lia|done]|]. intros [Hle Hl].
      destruct (decide (i = index)) as [-> |Hne]; [by rewrite Nat.sub_diag in Hl|]. split; [lia|done].
Qed.

Lemma entries_places_bound index planned : Forall (fun i => index <= i) ((fun e => e.1.1) <$> entries_from index planned).
Proof.
  apply Forall_fmap, Forall_forall. intros [[i s] q] Hin. apply entries_lookup in Hin as [Hle _]. done.
Qed.

Lemma entries_places_NoDup index planned : NoDup ((fun e => e.1.1) <$> entries_from index planned).
Proof.
  induction planned as [|[[s q]|e] planned IH] in index |- *; cbn [entries_from]; [constructor| |apply IH].
  rewrite fmap_cons. constructor; [|apply IH]. intros Hin. pose proof (entries_places_bound (S index) planned) as Hb.
  rewrite Forall_forall in Hb. specialize (Hb _ Hin). cbn in Hb. lia.
Qed.

(** ** Putting responses in place *)

Lemma setGroupError_other items indexes e i : i ∉ indexes -> setGroupError setError items indexes e !! i = items !! i.
Proof.
  unfold setGroupError. induction indexes as [|j l IH] in items |- *; [done|]. intros [Hne Hni]%not_elem_of_cons. cbn [foldl].
  rewrite IH by done. by rewrite list_lookup_alter_ne.
Qed.

Lemma setGroupError_at items indexes e i :
  NoDup indexes -> i ∈ indexes -> setGroupError setError items indexes e !! i = setError e <$> items !! i.
Proof.
  induction indexes as [|j l IH] in items |- *; [by intros _ ?%not_elem_of_nil|].
  intros [Hni Hnd]%NoDup_cons [-> |Hin]%elem_of_cons; cbn [foldl].
  - change (setGroupError setError items (j :: l) e) with (setGroupError setError (alter (setError e) j items) l e).
    rewrite setGroupError_other by done. apply list_lookup_alter_eq.
  - change (setGroupError setError items (j :: l) e) with (setGroupError setError (alter (setError e) j items) l e).
    rewrite IH by done. rewrite list_lookup_alter_ne; [done|]. intros ->. done.
Qed.

Lemma placed_other (items : list Item) (l : list (nat * Item)) i :
  i ∉ l.*1 -> foldl (fun items entry => <[entry.1 := entry.2]> items) items l !! i = items !! i.
Proof.
  induction l as [|[j x] l IH] in items |- *; [done|]. rewrite fmap_cons. intros [Hne Hni]%not_elem_of_cons. cbn [foldl fst snd].
  rewrite IH by done. by rewrite list_lookup_insert_ne.
Qed.

Lemma placed_at (items : list Item) (l : list (nat * Item)) k i x :
  NoDup l.*1 -> l !! k = Some (i, x) -> i < length items ->
  foldl (fun items entry => <[entry.1 := entry.2]> items) items l !! i = Some x.
Proof.
  induction l as [|[j y] l IH] in items, k |- *; [done|]. rewrite fmap_cons. intros [Hni Hnd]%NoDup_cons Hk Hi. cbn [foldl fst snd].
  destruct k as [|k]; cbn in Hk.
  - injection Hk as -> ->. rewrite placed_other by done. by apply list_lookup_insert_eq.
  - eapply IH; [done|exact Hk|by rewrite length_insert].
Qed.

(** The item a reply to a batch of [size] requests has for the request at
    place [k] of the batch. *)
Definition item_in_reply (reply : result BrokerError (list Item)) (size k : nat) (item : Item) : Prop :=
  match reply with
  | Err e => item = setError e zero
  | Ok response =>
      if (length response =? size)%nat then response !! k = Some item else item = setError (StoreError CodeCodec) zero
  end.

(** The batches are sent one after the other, each on the broker the one
    before left. *)
Fixpoint send_all (b : Broker) (batches : list (Z * list Req)) : Broker * list (Z * result BrokerError (list Item)) :=
  match batches with
  | [] => (b, [])
  | (shardID, batch) :: batches =>
      let '(b, reply) := send b shardID batch in
      let '(b, replies) := send_all b batches in (b, (shardID, reply) :: replies)
  end.

Definition batch_of_group (g : shardGroup Req) : Z * list Req := (sg_shardID g, sg_requests g).

Lemma route_other acc g i : i ∉ sg_indexes g -> (routeShardGroup setError send acc g).2 !! i = acc.2 !! i.
Proof.
  intros Hni. destruct acc as [b items]. unfold routeShardGroup, mergeGroupResult.
  destruct (send b _ _) as [b1 [response|e]]; cbn [snd]; [|by apply setGroupError_other].
  destruct (negb _); [by apply setGroupError_other|]. apply placed_other. intros Hin. apply Hni.
  apply list_elem_of_fmap in Hin as ([j x] & -> & Hin). by apply elem_of_zip_l in Hin.
Qed.

Lemma route_state acc g : (routeShardGroup setError send acc g).1 = (send acc.1 (sg_shardID g) (sg_requests g)).1.
Proof. destruct acc as [b items]. unfold routeShardGroup. cbn [fst]. by destruct (send b _ _) as [b1 [response|e]]. Qed.

Lemma route_at acc g k i :
  NoDup (sg_indexes g) -> length (sg_indexes g) = length (sg_requests g) ->
  sg_indexes g !! k = Some i -> acc.2 !! i = Some zero ->
  exists item, (routeShardGroup setError send acc g).2 !! i = Some item /\
    item_in_reply (send acc.1 (sg_shardID g) (sg_requests g)).2 (length (sg_requests g)) k item.
Proof.
  intros Hnd Hlen Hi Hz. destruct acc as [b items]. cbn [fst snd] in *. unfold routeShardGroup, mergeGroupResult, item_in_reply.
  pose proof (list_elem_of_lookup_2 _ _ _ Hi) as Hin. rewrite <- Hlen.
  destruct (send b _ _) as [b1 [response|e]]; cbn [snd].
  - destruct (Nat.eqb_spec (length response) (length (sg_indexes g))) as [E|E]; cbn [negb].
    + destruct (lookup_lt_is_Some_2 response k) as [item Hr]; [rewrite E; by eapply lookup_lt_Some|].
      exists item. split; [|done]. eapply placed_at; [|by apply lookup_zip_with_Some; eauto|by eapply lookup_lt_Some].
      rewrite fst_zip by lia. done.
    + eexists. split; [by rewrite setGroupError_at, Hz|done].
  - eexists. split; [by rewrite setGroupError_at, Hz|done].
Qed.

Lemma runBounded_all {S A} (run : S -> A -> S) s tasks : runBounded (fun _ => None) run s tasks = (foldl run s tasks, None).
Proof. induction tasks as [|t tasks IH] in s |- *; [done|]. cbn [runBounded foldl]. apply IH. Qed.

Lemma routes_other acc groups i :
  Forall (fun g => i ∉ sg_indexes g) groups -> (foldl (routeShardGroup setError send) acc groups).2 !! i = acc.2 !! i.
Proof.
  induction groups as [|g groups IH] in acc |- *; [done|]. intros [Hg Hgs]%Forall_cons. cbn [foldl]. rewrite IH by done.
  by apply route_other.
Qed.

Lemma send_all_app b l1 l2 :
  send_all b (l1 ++ l2) =
  let '(b, replies1) := send_all b l1 in let '(b, replies2) := send_all b l2 in (b, replies1 ++ replies2).
Proof.
  induction l1 as [|[s batch] l1 IH] in b |- *; cbn [app send_all]; [by destruct (send_all b l2)|].
  destruct (send b s batch) as [b1 reply]. rewrite IH. destruct (send_all b1 l1) as [b2 r1]. by destruct (send_all b2 l2).
Qed.

Lemma routes_state acc groups : (foldl (routeShardGroup setError send) acc groups).1 = (send_all acc.1 (batch_of_group <$> groups)).1.
Proof.
  induction groups as [|g groups IH] in acc |- *; [done|]. cbn [foldl]. rewrite IH, route_state, fmap_cons. cbn [send_all batch_of_group].
  destruct (send _ _ _) as [b1 reply]. cbn [fst]. by destruct (send_all b1 _).
Qed.

Lemma routes_at acc groups g k i :
  NoDup groups -> g ∈ groups -> (forall g', g' ∈ groups -> i ∈ sg_indexes g' -> g' = g) ->
  NoDup (sg_indexes g) -> length (sg_indexes g) = length (sg_requests g) ->
  sg_indexes g !! k = Some i -> acc.2 !! i = Some zero ->
  exists item reply, (foldl (routeShardGroup setError send) acc groups).2 !! i = Some item /\
    (sg_shardID g, reply) ∈ (send_all acc.1 (batch_of_group <$> groups)).2 /\
    item_in_reply reply (length (sg_requests g)) k item.
Proof.
  intros Hnd Hin Hone Hndi Hlen Hi Hz. apply list_elem_of_split in Hin as (l1 & l2 & ->).
  apply NoDup_app in Hnd as (_ & Hd & Hnd2). apply NoDup_cons in Hnd2 as [Hn2 _].
  rewrite foldl_app. cbn [foldl]. set (acc1 := foldl _ acc l1).
  destruct (route_at acc1 g k i Hndi Hlen Hi) as (item & Hitem & Hrep).
  { unfold acc1. rewrite routes_other; [done|]. apply Forall_forall. intros g' Hg' Hin'.
    assert (g' = g) as -> by (apply Hone; [set_solver|done]). apply (Hd g); [done|set_solver]. }
  exists item, (send acc1.1 (sg_shardID g) (sg_requests g)).2. split_and!; [|..|done].
  - rewrite routes_other; [done|]. apply Forall_forall. intros g' Hg' Hin'.
    assert (g' = g) as -> by (apply Hone; [set_solver|done]). done.
  - rewrite fmap_app, send_all_app, fmap_cons. unfold acc1. rewrite routes_state.
    destruct (send_all acc.1 _) as [b1 replies1]. cbn [fst send_all batch_of_group]. destruct (send b1 _ _) as [b2 reply].
    destruct (send_all b2 _) as [b3 replies3]. cbn [snd]. set_solver.
Qed.

Lemma route_length acc g : length (routeShardGroup setError send acc g).2 = length acc.2.
Proof.
  assert (forall items indexes e, length (setGroupError setError items indexes e) = length items) as Hs.
  { intros items indexes e. unfold setGroupError. induction indexes as [|j l IH] in items |- *; [done|]. cbn [foldl].
    by rewrite IH, length_alter. }
  destruct acc as [b items]. unfold routeShardGroup, mergeGroupResult. destruct (send b _ _) as [b1 [response|e]]; cbn [snd]; [|apply Hs].
  destruct (negb _); [apply Hs|]. generalize (zip (sg_indexes g) response). intros l.
  induction l as [|x l IH] in items |- *; [done|]. cbn [foldl]. by rewrite IH, length_insert.
Qed.

Lemma routes_length acc groups : length (foldl (routeShardGroup setError send) acc groups).2 = length acc.2.
Proof. induction groups as [|g groups IH] in acc |- *; [done|]. cbn [foldl]. by rewrite IH, route_length. Qed.

Section Planned.
Context (groups : gmap Z (shardGroup Req)) (planned : list (result BrokerError (Z * Req))).
Hypothesis Hg : groups_of groups (entries_from 0 planned).

Lemma group_fields shardID g :
  groups !! shardID = Some g ->
  sg_shardID g = shardID /\ sg_indexes g = (fun e => e.1.1) <$> of_shard shardID (entries_from 0 planned) /\
  sg_requests g = snd <$> of_shard shardID (entries_from 0 planned).
Proof using Hg. rewrite (Hg shardID). destruct (of_shard _ _); [done|]. by intros [= <-]. Qed.

Lemma group_member shardID g i :
  groups !! shardID = Some g -> i ∈ sg_indexes g -> exists req, planned !! i = Some (Ok (shardID, req)).
Proof using Hg.
  intros Hs Hi. destruct (group_fields _ _ Hs) as (_ & Ei & _). rewrite Ei in Hi.
  apply list_elem_of_fmap in Hi as ([[j s] q] & -> & [Hsh Hin]%list_elem_of_filter). cbn in Hsh. subst s.
  apply entries_lookup in Hin as [_ Hl]. rewrite Nat.sub_0_r in Hl. by exists q.
Qed.

(** The planned requests of a shard, in the order of the requests. *)
Definition shard_batch (shardID : Z) : list Req := snd <$> of_shard shardID (entries_from 0 planned).

Lemma entries_app index l1 l2 : entries_from index (l1 ++ l2) = entries_from index l1 ++ entries_from (index + length l1) l2.
Proof.
  induction l1 as [|[[s q]|e] l1 IH] in index |- *; cbn [app entries_from length]; [by rewrite Nat.add_0_r|..];
    rewrite IH; by rewrite Nat.add_succ_r.
Qed.

(** The requests planned for a shard before place [i]. *)
Definition place_in_batch (shardID : Z) (i : nat) : nat := length (of_shard shardID (entries_from 0 (take i planned))).

Lemma group_of_request i shardID req :
  planned !! i = Some (Ok (shardID, req)) ->
  exists g, groups !! shardID = Some g /\ sg_shardID g = shardID /\ sg_requests g = shard_batch shardID /\ NoDup (sg_indexes g) /\
    length (sg_indexes g) = length (sg_requests g) /\ sg_indexes g !! place_in_batch shardID i = Some i /\
    sg_requests g !! place_in_batch shardID i = Some req.
Proof using Hg.
  intros Hl.
  assert (of_shard shardID (entries_from 0 planned) !! place_in_batch shardID i = Some (i, shardID, req)) as Hk.
  { unfold place_in_batch. rewrite <- (take_drop_middle planned i _ Hl) at 2. rewrite entries_app, of_shard_app.
    rewrite lookup_app_r by done. rewrite Nat.sub_diag, length_take_le by (by apply Nat.lt_le_incl; eapply lookup_lt_Some).
    cbn [Nat.add entries_from]. unfold of_shard. by rewrite filter_cons_True. }
  pose proof (Hg shardID) as Hs.
  destruct (of_shard shardID (entries_from 0 planned)) as [|e l] eqn:Eo; [done|]. rewrite <- Eo in Hs, Hk.
  eexists _. split; [exact Hs|]. cbn [sg_shardID sg_indexes sg_requests]. split_and!; [done|done| | | |].
  - eapply sublist_NoDup; [apply (entries_places_NoDup 0 planned)|]. apply fmap_sublist, sublist_filter.
  - by rewrite !length_fmap.
  - rewrite list_lookup_fmap. exact (f_equal (fmap (M := option) (fun e : entry => e.1.1)) Hk).
  - rewrite list_lookup_fmap. exact (f_equal (fmap (M := option) (fun e : entry => e.2)) Hk).
Qed.

Lemma groups_NoDup : NoDup (values groups).
Proof using Hg.
  apply (NoDup_fmap_1 sg_shardID). rewrite values_perm, <- list_fmap_compose.
  assert ((sg_shardID ∘ snd) <$> map_to_list groups = fst <$> map_to_list groups) as ->; [|apply NoDup_fst_map_to_list].
  apply list_fmap_ext. intros k [s g] Hk%list_elem_of_lookup_2%elem_of_map_to_list. cbn. by apply (group_fields s g).
Qed.

End Planned.

(** The state after planning. *)
Fixpoint after_planning (b : Broker) (requests : list Req) : Broker :=
  match requests with [] => b | command :: requests => after_planning (plan b command).1 requests end.

Lemma planShardGroups_state requests index b groups :
  (planShardGroups plan zero setError index b groups requests).1 = after_planning b requests.
Proof.
  induction requests as [|command requests IH] in index, b, groups |- *; [done|]. cbn [planShardGroups after_planning].
  destruct (plan b command) as [b1 [[shardID planned]|e]]; cbn [fst].
  - specialize (IH (S index) b1 (addToGroup groups shardID index planned)). by destruct (planShardGroups _ _ _ _ _ _ _) as [b2 [groups2 items]].
  - specialize (IH (S index) b1 groups). by destruct (planShardGroups _ _ _ _ _ _ _) as [b2 [groups2 items]].
Qed.

(** The planned requests of every shard that has some are sent to it, each
    shard once; every request is answered in its place: with the error of
    planning it, or with what its shard answered at its place among the
    requests of the shard. *)
Lemma routeByShard_spec b requests :
  let plans := planned_of b requests in
  exists shards items,
    NoDup shards /\ (forall shardID, shardID ∈ shards <-> exists req, Ok (shardID, req) ∈ plans) /\
    let '(b', replies) := send_all (after_planning b requests) ((fun s => (s, shard_batch plans s)) <$> shards) in
    routeByShard plan zero setError send (fun _ => None) b requests = (b', Ok items) /\
    length items = length requests /\
    forall i r, plans !! i = Some r -> exists item, items !! i = Some item /\
      match r with
      | Err e => item = setError e zero
      | Ok (shardID, req) =>
          exists reply, (shardID, reply) ∈ replies /\ shard_batch plans shardID !! place_in_batch plans shardID i = Some req /\
            item_in_reply reply (length (shard_batch plans shardID)) (place_in_batch plans shardID i) item
      end.
Proof.
  intros plans. unfold routeByShard. pose proof (planShardGroups_spec requests 0 b ∅ [] (fun _ => eq_refl)) as Hp.
  pose proof (planShardGroups_state requests 0 b ∅) as Hst.
  destruct (planShardGroups _ _ _ _ _ _ _) as [b1 [groups items]]. destruct Hp as [Hg ->]. cbn [app fst] in Hg, Hst. fold plans in Hg |- *.
  rewrite runBounded_all. set (acc := (b1, first_item <$> plans)).
  exists (sg_shardID <$> values groups), (foldl (routeShardGroup setError send) acc (values groups)).2.
  assert (forall g, g ∈ values groups -> groups !! sg_shardID g = Some g /\ sg_requests g = shard_batch plans (sg_shardID g)) as Hval.
  { intros g [s Hs]%elem_of_values. destruct (group_fields _ _ Hg s g Hs) as (-> & _ & E). done. }
  assert ((fun s => (s, shard_batch plans s)) <$> (sg_shardID <$> values groups) = batch_of_group <$> values groups) as Eb.
  { rewrite <- list_fmap_compose. apply list_fmap_ext. intros k g Hk%list_elem_of_lookup_2. cbn. by rewrite <- (proj2 (Hval g Hk)). }
  split.
  { rewrite values_perm, <- list_fmap_compose.
    assert ((sg_shardID ∘ snd) <$> map_to_list groups = fst <$> map_to_list groups) as ->; [|apply NoDup_fst_map_to_list].
    apply list_fmap_ext. intros k [s g] Hk%list_elem_of_lookup_2%elem_of_map_to_list. cbn. by apply (group_fields _ _ Hg s g). }
  split.
  { intros shardID. split.
    - intros (g & -> & [Hs Er]%Hval)%list_elem_of_fmap. pose proof (Hg (sg_shardID g)) as Hgs. rewrite Hs in Hgs.
      destruct (of_shard _ _) as [|[[j s] q] l] eqn:Eo; [done|].
      assert ((j, s, q) ∈ of_shard (sg_shardID g) (entries_from 0 plans)) as [Hsh Hin]%list_elem_of_filter by (rewrite Eo; by left).
      cbn in Hsh. subst s. exists q. apply entries_lookup in Hin as [_ Hl]. by eapply list_elem_of_lookup_2.
    - intros [req [i Hi]%list_elem_of_lookup_1]. destruct (group_of_request _ _ Hg i shardID req Hi) as (g & Hs & <- & _).
      apply list_elem_of_fmap_2, elem_of_values. by eexists. }
  rewrite Eb, <- Hst. pose proof (routes_state acc (values groups)) as Hrs. cbn [fst acc] in Hrs.
  destruct (foldl (routeShardGroup setError send) acc (values groups)) as [b2 items] eqn:Ef.
  destruct (send_all b1 (batch_of_group <$> values groups)) as [b3 replies] eqn:Esend. cbn [fst snd] in *. subst b3.
  assert (items = (foldl (routeShardGroup setError send) acc (values groups)).2) as Eitems by (by rewrite Ef).
  split_and!; [done| |].
  - rewrite Eitems, routes_length. cbn. rewrite length_fmap. unfold plans. clear.
    induction requests as [|r rs IH] in b |- *; [done|]. cbn. by rewrite IH.
  - intros i r Hr. rewrite Eitems. assert (acc.2 !! i = Some (first_item r)) as Hz by (cbn; by rewrite list_lookup_fmap, Hr). destruct r as [[shardID req]|e].
    + destruct (group_of_request _ _ Hg i shardID req Hr) as (g & Hs & Esh & Ebat & Hnd & Hlen & Hi & Hq).
      destruct (routes_at acc (values groups) g (place_in_batch plans shardID i) i) as (item & reply & Hitem & Hrep & Hin); try done.
      { by eapply groups_NoDup. }
      { apply elem_of_values. by exists shardID. }
      { intros g' [s' Hs']%elem_of_values Hin. destruct (group_member _ _ Hg s' g' i Hs' Hin) as [q Hq']. congruence. }
      exists item. split; [done|]. exists reply. rewrite <- Ebat. split_and!; [|done|done].
      cbn [fst acc] in Hrep. by rewrite Esend, Esh in Hrep.
    + eexists. split; [|done]. rewrite routes_other; [exact Hz|]. apply Forall_forall. intros g [s Hs]%elem_of_values Hin.
      destruct (group_member _ _ Hg s g i Hs Hin) as [q Hq]. congruence.
Qed.

End Groups.

(** ** A cluster *)

Section Cluster.
Context `{MapRange} `{Hash64} (env : applyEnv) (n : raftNode) (specs : list Z).

(** The router [NewBroker] builds for a broker with a raft node. *)
Definition clusterRouter : brokerCommandRouter :=
  newClusterCommandRouter (newSingleGroupCommandRouter (Some n) false) (Some (newRaftDataShardRegistry (Some n) false specs)).

Lemma newRegistry_lookup runtime (l : list Z) shardID :
  shardID ∈ l -> newRegistry runtime l !! shardID = Some (runtime shardID).
Proof.
  intros Hin. unfold newRegistry. replace (match l with [] => [0%Z] | _ => l end) with l by (by destruct l; [apply not_elem_of_nil in Hin|]).
  generalize (∅ : dataShardRegistry). induction l as [|s l IH] using rev_ind; [by apply not_elem_of_nil in Hin|].
  intros m. rewrite foldl_app. cbn [foldl]. destruct (decide (s = shardID)) as [-> |Hne].
  - apply lookup_insert_eq.
  - etrans; [by apply lookup_insert_ne|]. apply IH. apply elem_of_app in Hin as [Hin|Hin]; [done|].
    apply list_elem_of_singleton in Hin. congruence.
Qed.

(** An error of the group, through the layers of the router. *)
Definition routed_error (e : BrokerError) : BrokerError :=
  wrapBroker "partition_command_route_failed" (wrapBroker "partition_command_route_failed"
    (wrapBroker "data_shard_command_apply_failed" (wrapBroker "data_shard_runtime_apply_failed" e))).

(** What a caller gets of an answer of [SyncPropose] to a batch. *)
Definition batch_reply (answer : syncResult) : result BrokerError (list produceBatchItemResult) :=
  match answer with
  | inl e => Err (routed_error (raftApplyError e))
  | inr (Err e) => Err (routed_error e)
  | inr (Ok (ProduceBatchesValue items)) => Ok items
  | inr (Ok _) => Err (BrokerFailure "raft_result_decode_failed")
  end.

(** The bytes are the proposal of a batch: every replica that applies them
    applies the batch. *)
Definition proposes (data : bytes) (batch : list produceBatchCommand) : Prop :=
  forall replicaEnv replica,
    applyRaftCommandBinary replicaEnv replica data =
      Some (let '(replica, items) :=
              applyProduceBatches (env_clock replicaEnv) (env_nowMS replicaEnv) (env_ctxErr replicaEnv) replica batch in
            (replica, Ok (ProduceBatchesValue items))).

(** The bytes of the proposal of a batch. *)
Definition batch_bytes (batch : list produceBatchCommand) : bytes :=
  match encodeBinaryRaftCommand raftCommandProduceBatches (ProduceBatchesPayload batch) with Ok (Some data) => data | _ => [] end.

Lemma batch_bytes_proposes batch :
  proposable raftCommandProduceBatches (ProduceBatchesPayload batch) -> proposes (batch_bytes batch) batch.
Proof.
  intros Hp replicaEnv replica. destruct (proposal_spec replicaEnv replica _ _ Hp) as (id & body & He & Henv & Happ & _).
  unfold batch_bytes. rewrite He. unfold applyRaftCommandBinary. by rewrite Henv, Happ.
Qed.

(** A batch for a registered shard is proposed to the group of the shard. *)
Lemma send_proposes batch shardID b :
  shardID ∈ specs -> proposable raftCommandProduceBatches (ProduceBatchesPayload batch) ->
  sendProduceBatches clusterRouter env (shardCommandTarget shardID) b batch =
  let '(b, answer) := node_SyncPropose n (dataShardRaftGroupID shardID) (batch_bytes batch) b in (b, batch_reply answer).
Proof.
  intros Hin Hp. unfold sendProduceBatches, applyRoutedPartitionCommand, clusterRouter, newClusterCommandRouter. cbn [ApplyPartitionCommand].
  unfold wrapErr, resolveTarget, applyResolvedPartitionCommand, wrapErr, ApplyDataShardCommand, wrapErr.
  change (target_validate (shardCommandTarget shardID)) with (Ok tt : result BrokerError unit).
  cbn [shardCommandTarget pct_ShardKnown pct_ShardID orb dsc_ShardID].
  unfold newRaftDataShardRegistry. rewrite newRegistry_lookup by done. cbn [raftDataShardRuntime dsc_CommandType dsc_Payload].
  destruct (proposal_spec env b _ _ Hp) as (id & body & He & _).
  unfold ApplyGroup, encodeRaftCommand, batch_bytes. rewrite He. destruct (node_SyncPropose n _ _ b) as [b' [e|[v|e]]]; [done| |done].
  by destruct v.
Qed.

(** The plans of a batch, and those of one shard. *)
Definition plansOf (b : Broker) (requests : list produceBatchCommand) := planned_of planProduceBatchShardCommand b requests.
Definition batchOf (b : Broker) (requests : list produceBatchCommand) (shardID : Z) : list produceBatchCommand :=
  shard_batch (plansOf b requests) shardID.

Lemma planned_routed b req b' shardID planned :
  planProduceBatchShardCommand b req = (b', Ok (shardID, planned)) -> routed planned.
Proof.
  unfold planProduceBatchShardCommand. destruct (planProduceBatch 0 b req) as [b1 [p|]]; [|done].
  destruct (resolveShard b1 _) as [b2 [placement|]]; [|done]. intros [= <- <- <-]. by left.
Qed.

Lemma plansOf_routed b requests shardID planned : Ok (shardID, planned) ∈ plansOf b requests -> routed planned.
Proof.
  unfold plansOf. induction requests as [|req requests IH] in b |- *; cbn [planned_of]; [by intros ?%not_elem_of_nil|].
  intros [E|Hin]%elem_of_cons; [|by apply (IH _ Hin)].
  destruct (planProduceBatchShardCommand b req) as [b1 r] eqn:Ep. cbn in E. subst r. by eapply planned_routed.
Qed.

Lemma batchOf_members b requests shardID req : req ∈ batchOf b requests shardID -> Ok (shardID, req) ∈ plansOf b requests.
Proof.
  unfold batchOf, shard_batch. intros ([[i s] q] & -> & [Hs Hin]%list_elem_of_filter)%list_elem_of_fmap. cbn in Hs. subst s.
  apply entries_lookup in Hin as [_ Hl]. by eapply list_elem_of_lookup_2.
Qed.

Lemma batchOf_length b requests shardID : length (batchOf b requests shardID) <= length requests.
Proof.
  unfold batchOf, shard_batch. rewrite length_fmap. etrans; [apply length_filter|].
  assert (forall index planned, length (entries_from (Req := produceBatchCommand) index planned) <= length planned) as He.
  { intros index planned. induction planned as [|[[s q]|e] planned IH] in index |- *; cbn; [done| |]; specialize (IH (S index)); lia. }
  etrans; [apply He|]. unfold plansOf. clear. induction requests as [|r rs IH] in b |- *; [done|]. cbn. specialize (IH (planProduceBatchShardCommand b r).1). lia.
Qed.

(** The state after planning all requests, and the place of a request among
    those of its shard. *)
Definition afterPlanning (b : Broker) (requests : list produceBatchCommand) : Broker :=
  after_planning planProduceBatchShardCommand b requests.
Definition placeOf (b : Broker) (requests : list produceBatchCommand) (shardID : Z) (i : nat) : nat :=
  place_in_batch (plansOf b requests) shardID i.

(** One proposal after the other, to the group of each shard. *)
Fixpoint propose_all (batch : Z -> list produceBatchCommand) (b : Broker) (shards : list Z) : Broker * list (Z * syncResult) :=
  match shards with
  | [] => (b, [])
  | shardID :: shards =>
      let '(b, answer) := node_SyncPropose n (dataShardRaftGroupID shardID) (batch_bytes (batch shardID)) b in
      let '(b, answers) := propose_all batch b shards in (b, (shardID, answer) :: answers)
  end.

Lemma send_all_proposes batch shards b :
  Forall (fun s => s ∈ specs /\ proposable raftCommandProduceBatches (ProduceBatchesPayload (batch s))) shards ->
  send_all (fun b s => sendProduceBatches clusterRouter env (shardCommandTarget s) b) b ((fun s => (s, batch s)) <$> shards) =
  let '(b, answers) := propose_all batch b shards in (b, prod_map id batch_reply <$> answers).
Proof.
  induction shards as [|s shards IH] in b |- *; intros Hs; [done|]. apply Forall_cons in Hs as [[Hs Hp] Hss].
  rewrite fmap_cons. cbn [send_all propose_all]. rewrite send_proposes by done. destruct (node_SyncPropose n _ _ b) as [b1 answer].
  rewrite IH by done. by destruct (propose_all batch b1 shards).
Qed.

Lemma batches_proposable b requests :
  is_u32 (len requests) ->
  (forall shardID req, Ok (shardID, req) ∈ plansOf b requests -> shardID ∈ specs /\ fits_batch req) ->
  forall shardID, proposable raftCommandProduceBatches (ProduceBatchesPayload (batchOf b requests shardID)).
Proof.
  intros Hn Hfit shardID. split_and!; [done| | |].
  - pose proof (batchOf_length b requests shardID). unfold is_u32, len in *. lia.
  - apply Forall_forall. intros q Hq. by eapply Hfit, batchOf_members.
  - apply Forall_forall. intros q Hq. by eapply plansOf_routed, batchOf_members.
Qed.

(** C10: publishing a batch through a cluster.  On a broker whose calls are not
    cancelled, and for planned requests that fit the binary format and whose
    shards are registered, the requests planned for each shard are proposed
    once, in their order, to the raft group of that shard, as bytes that every
    replica applies as this batch; and the call returns one item for each
    request, in order: the error of planning it, or what the answer to the
    proposal of its shard holds for it - its own item, when the answer has an
    item for every request of the shard, and otherwise the error the proposal
    was answered with.  What the groups answer is arbitrary. *)
Theorem cluster_answers_in_place b requests :
  is_u32 (len requests) ->
  (forall shardID req, Ok (shardID, req) ∈ plansOf b requests -> shardID ∈ specs /\ fits_batch req) ->
  exists shards items,
    NoDup shards /\ (forall shardID, shardID ∈ shards <-> exists req, Ok (shardID, req) ∈ plansOf b requests) /\
    (forall shardID, shardID ∈ shards -> proposes (batch_bytes (batchOf b requests shardID)) (batchOf b requests shardID)) /\
    let '(b', answers) := propose_all (batchOf b requests) (afterPlanning b requests) shards in
    routeProduceBatchesCommand clusterRouter (fun _ => None) env b requests = (b', Ok items) /\
    length items = length requests /\
    forall i r, plansOf b requests !! i = Some r -> exists item, items !! i = Some item /\
      match r with
      | Err e => item = set_Error e zeroItem
      | Ok (shardID, req) =>
          exists answer, (shardID, answer) ∈ answers /\
            batchOf b requests shardID !! placeOf b requests shardID i = Some req /\
            item_in_reply zeroItem set_Error (batch_reply answer) (length (batchOf b requests shardID)) (placeOf b requests shardID i) item
      end.
Proof.
  intros Hn Hfit.
  destruct (routeByShard_spec planProduceBatchShardCommand zeroItem set_Error
              (fun b shardID => sendProduceBatches clusterRouter env (shardCommandTarget shardID) b) b requests)
    as (shards & items & Hnd & Hsh & Hroute).
  pose proof (batches_proposable b requests Hn Hfit) as Hp.
  exists shards, items. split_and!; [done|done|by intros s Hs; apply batch_bytes_proposes|].
  fold (afterPlanning b requests) in Hroute. fold (plansOf b requests) in Hroute.
  change (fun s => (s, shard_batch (plansOf b requests) s)) with (fun s => (s, batchOf b requests s)) in Hroute.
  rewrite (send_all_proposes (batchOf b requests)) in Hroute.
  2: { apply Forall_forall. intros s [req Hreq]%Hsh. split; [by eapply Hfit|done]. }
  destruct (propose_all (batchOf b requests) (afterPlanning b requests) shards) as [b' answers]. destruct Hroute as (Hroute & Hlen & Hat).
  split_and!; [|done|].
  - unfold routeProduceBatchesCommand. change (canRouteCoalescedByShard clusterRouter) with true. exact Hroute.
  - intros i r Hr. destruct (Hat i r Hr) as (item & Hi & Hout). exists item. split; [done|]. destruct r as [[shardID req]|e]; [|done].
    destruct Hout as (reply & ([s answer] & [= -> ->] & Hin)%list_elem_of_fmap & Hreq & Hitem). by exists answer.
Qed.

End Cluster.

(** ** Example *)

(** The group of shard 0 applies what is proposed at once; the others time out. *)
Definition ex_node : raftNode :=
  mkRaftNode (fun _ => None) (fun _ _ => None)
    (fun groupID data b => if negb (groupID =? 10000)%Z then (b, inl ErrTimeout) else
                     match @applyRaftCommandBinary map_to_list_range ex_hash ex_env b data with
                     | Some (b, r) => (b, inr r) | None => (b, inl ErrOther) end).

Definition ex_batch : list produceBatchCommand :=
  [ex_routed; mkProduceBatchCommand "unknown" (mkPublishPartitioning "" 0 "") [NewRecordAppend (StringBytes "x")] None; ex_routed].

Definition ex_plans : list (result BrokerError (Z * produceBatchCommand)) :=
  Eval vm_compute in @plansOf ex_hash ex_replica ex_batch.

Lemma ex_plans_fit shardID req : Ok (shardID, req) ∈ @plansOf ex_hash ex_replica ex_batch -> shardID ∈ [0%Z] /\ fits_batch req.
Proof.
  replace (@plansOf ex_hash ex_replica ex_batch) with ex_plans by (vm_compute; reflexivity). intros Hin.
  assert (Forall (fun r => match r with Ok (shardID, req) => shardID ∈ [0%Z] /\ fits_batch req | Err _ => True end) ex_plans) as Hf.
  { unfold ex_plans. repeat constructor; cbv; done. }
  rewrite Forall_forall in Hf. exact (Hf _ Hin).
Qed.

Lemma cluster_answers_in_place_witness :
  exists b' items item0 item1,
    @routeProduceBatchesCommand map_to_list_range ex_hash (clusterRouter ex_node [0%Z]) (fun _ => None) ex_env ex_replica ex_batch
    = (b', Ok items) /\ length items = length ex_batch /\
    items !! 0 = Some item0 /\ pbi_Error item0 = None /\
    items !! 1 = Some item1 /\ item1 = set_Error (StoreError CodeTopicNotFound) zeroItem.
Proof.
  pose proof (@cluster_answers_in_place map_to_list_range ex_hash ex_env ex_node [0%Z] ex_replica ex_batch) as T.
  specialize (T ltac:(done) ex_plans_fit). destruct T as (shards & items & _ & _ & _ & T).
  destruct (propose_all ex_node _ _ shards) as [b' answers] eqn:Ea. destruct T as (E & Hl & Hat).
  destruct (Hat 1 (Err (StoreError CodeTopicNotFound)) ltac:(by vm_compute)) as (item1 & H1 & E1).
  destruct (lookup_lt_is_Some_2 items 0) as [item0 H0]; [rewrite Hl; vm_compute; lia|].
  exists b', items, item0, item1. split_and!; [exact E|exact Hl|exact H0| |exact H1|exact E1].
  enough ((pbi_Error <$> match (@routeProduceBatchesCommand map_to_list_range ex_hash (clusterRouter ex_node [0%Z]) (fun _ => None) ex_env ex_replica ex_batch).2
           with Ok items => items !! 0 | Err _ => None end) = Some None) as Hc by (rewrite E in Hc; cbn in Hc; rewrite H0 in Hc; by injection Hc).
  by vm_compute.
Defined.
