(* ===== verification/SegmentFrame.v ===== *)
(** * The segment file format: record frames

    [src/store/segment_frame.go], [segment_frame_decode.go],
    [segment_record_decoder.go], [segment_transaction_decode.go],
    [segment_length_decode.go], [segment_number.go], [segment_zstd.go] and
    [storx_log_options.go].

    A segment file is a sequence of frames.  A frame is a magic number, the
    CRC-32 of its body, the length of the body and the body, which holds one
    record or a batch of records and may be compressed.  The writers append
    to a buffer.  A [segmentRecordDecoder] is a body and a cursor into it; it
    is modelled by the bytes after the cursor, in the state-and-error monad
    of [Wire], so [remaining] is their number.

    [hash/crc32] and [encoding/binary] are the language's library and are
    modelled; [klauspost/compress/zstd] is a third-party package and the
    class [Zstd] is what the code relies on: decoding an encoding gives the
    input back.  [int] has 64 bits.  [bufferpool] only recycles buffers. *)

From stdpp Require Import prelude strings list.
From S2P Require Import Prelude Wire GoStrings Model.

#[local] Open Scope Z_scope.

(** ** Constants *)

Definition segmentFrameMagic : Z := 0x45434831.
Definition segmentFrameZstdMagic : Z := 0x45435a31.
Definition segmentBatchMagic : Z := 0x45434231.
Definition segmentBatchZstdMagic : Z := 0x45425a31.
Definition segmentFrameHeader : Z := 12.
Definition segmentFrameLegacyHeader : Z := 8.
Definition segmentBatchHeader : Z := 4.
Definition segmentBatchItemHeader : Z := 4.

Definition legacySegmentFrameMagic : Z := 0x45434830.
Definition legacySegmentFrameZstdMagic : Z := 0x45435a30.
Definition legacySegmentBatchMagic : Z := 0x45434230.
Definition legacySegmentBatchZstdMagic : Z := 0x4543425a.

(** ** [crc32.ChecksumIEEE] *)

Definition crcPolynomial : Z := 0xEDB88320.

(** One bit of the reflected division. *)
Definition crcBit (c : Z) : Z :=
  if Z.testbit c 0 then Z.lxor (Z.shiftr c 1) crcPolynomial else Z.shiftr c 1.

Definition crcByte (c : Z) (b : Byte.byte) : Z := Nat.iter 8 crcBit (Z.lxor c (Z_of_byte b)).

Definition ChecksumIEEE (data : bytes) : Z :=
  Z.lxor (foldl crcByte 0xFFFFFFFF data) 0xFFFFFFFF.

(** ** Numbers ([segment_number.go], [segment_length_decode.go]) *)

Definition maxSegmentInt : Z := 2 ^ 63 - 1.

Definition segmentIntToU32 (value : Z) : result Code Z :=
  if value <? 0 then Err CodeCodec
  else if 2 ^ 32 - 1 <? value then Err CodeCodec
  else Ok (get_be (drop 4 (put_be 8 value))).

(** [strconv.IntSize] is 64. *)
Definition segmentU32ToInt (value : Z) : result Code Z := Ok value.

Definition finishSegmentInt (length digits : Z) : result Code Z :=
  if digits =? 0 then Err CodeCodec else Ok length.

Definition segmentLengthDigit (digit : Byte.byte) : option Z :=
  let d := Z_of_byte digit in
  if (d <? 48) || (57 <? d) then None else Some (d - 48).

Definition appendSegmentLengthDigit (length digit : Z) : result Code Z :=
  if (maxSegmentInt - digit) / 10 <? length then Err CodeCodec else Ok (length * 10 + digit).

(** ** Compression ([storx_log_options.go], [segment_zstd.go]) *)

Class Zstd := {
  EncodeAll : bytes -> bytes;
  DecodeAll : bytes -> option bytes;
  DecodeAll_EncodeAll : forall body, DecodeAll (EncodeAll body) = Some body
}.

Definition SegmentCompressionNone : string := "none".
Definition SegmentCompressionZstd : string := "zstd".
Definition SegmentReadModePread : string := "pread".
Definition SegmentReadModeMmap : string := "mmap".

(** [strings.ToLower] of an ASCII letter.  No other character has a lower
    case among the letters of the names compared with. *)
Definition lowerChar (c : Ascii.ascii) : Ascii.ascii :=
  let n := Ascii.nat_of_ascii c in
  if (65 <=? n)%nat && (n <=? 90)%nat then Ascii.ascii_of_nat (n + 32) else c.

Definition ToLower (s : string) : string :=
  String.string_of_list_ascii (lowerChar <$> String.list_ascii_of_string s).

Definition normalizeSegmentCompression (value : string) : result Code string :=
  let normalized := ToLower (TrimSpace value) in
  if decide (normalized = "") then Ok SegmentCompressionZstd
  else if decide (normalized = SegmentCompressionNone) then Ok SegmentCompressionNone
  else if decide (normalized = SegmentCompressionZstd) then Ok SegmentCompressionZstd
  else Err CodeInvalidArgument.

Definition normalizeSegmentReadMode (value : string) : result Code string :=
  let normalized := ToLower (TrimSpace value) in
  if decide (normalized = "") then Ok SegmentReadModePread
  else if decide (normalized = SegmentReadModePread) then Ok SegmentReadModePread
  else if decide (normalized = SegmentReadModeMmap) then Ok SegmentReadModeMmap
  else Err CodeInvalidArgument.

Record StorxLogOptions := mkStorxLogOptions { slo_Compression : string; slo_ReadMode : string }.

Definition StorxLogOptions_normalize (o : StorxLogOptions) : result Code StorxLogOptions :=
  compression ← normalizeSegmentCompression (slo_Compression o);
  readMode ← normalizeSegmentReadMode (slo_ReadMode o);
  Ok (mkStorxLogOptions compression readMode).

(** [sfc_encoder] is whether the encoder is not [nil]. *)
Record segmentFrameCompression := mkSegmentFrameCompression { sfc_kind : string; sfc_encoder : bool }.

(** [zstd.NewWriter] with the fixed options of the code does not fail. *)
Definition newSegmentFrameCompression (kind : string) : result Code segmentFrameCompression :=
  normalized ← normalizeSegmentCompression kind;
  if negb (bool_decide (normalized = SegmentCompressionZstd))
  then Ok (mkSegmentFrameCompression normalized false)
  else Ok (mkSegmentFrameCompression normalized true).

Section Compression.
Context `{Zstd}.

Definition encodeWithMagic (c : segmentFrameCompression) (body : bytes) (plainMagic zstdMagic : Z)
    : result Code (Z * bytes) :=
  if decide (sfc_kind c = SegmentCompressionNone) then Ok (plainMagic, body)
  else if decide (sfc_kind c = SegmentCompressionZstd) then
    if negb (sfc_encoder c) then Err CodeInvalidArgument else Ok (zstdMagic, EncodeAll body)
  else Err CodeInvalidArgument.

Definition encode (c : segmentFrameCompression) (body : bytes) : result Code (Z * bytes) :=
  encodeWithMagic c body segmentFrameMagic segmentFrameZstdMagic.

Definition encodeBatch (c : segmentFrameCompression) (body : bytes) : result Code (Z * bytes) :=
  encodeWithMagic c body segmentBatchMagic segmentBatchZstdMagic.

(** [segmentFrameCompression.close] *)
Definition closeCompression (c : segmentFrameCompression) : segmentFrameCompression :=
  mkSegmentFrameCompression (sfc_kind c) false.

(** The error of the package gets the code of [wrapExternal]. *)
Definition decompressSegmentFrameZstd (body : bytes) : result Code bytes :=
  match DecodeAll body with Some decoded => Ok decoded | None => Err CodeUnavailable end.

End Compression.

(** ** Writing a record body ([segment_frame.go]) *)

Definition appendSegmentIntBytes (out : bytes) (value : Z) : bytes :=
  out ++ String.list_byte_of_string (fmt_d value) ++ [Byte.x3a].

Definition appendSegmentBytes (out value : bytes) : bytes :=
  appendSegmentIntBytes out (len value) ++ value.

Definition appendSegmentString (out : bytes) (value : string) : bytes :=
  appendSegmentIntBytes out (slen value) ++ String.list_byte_of_string value.

Definition appendSegmentOptionalU64 (out : bytes) (value : option Z) : bytes :=
  match value with
  | None => out ++ [Byte.x00]
  | Some value => (out ++ [Byte.x01]) ++ put_be 8 value
  end.

Definition appendSegmentRecordFields (out : bytes) (record : Rec) : bytes :=
  let out := out ++ put_be 8 (r_Offset record) in
  let out := out ++ put_be 8 (r_TimestampMS record) in
  let out := appendSegmentOptionalU64 out (r_ExpiresAtMS record) in
  let out := out ++ put_be 2 (r_Attributes record) in
  appendSegmentBytes out (r_Key record).

Definition encodeSegmentTransactionControl (controlType : string) : Byte.byte :=
  if decide (controlType = TransactionControlNone) then Byte.x00
  else if decide (controlType = TransactionControlCommit) then Byte.x01
  else if decide (controlType = TransactionControlAbort) then Byte.x02
  else Byte.x00.

Definition appendSegmentTransaction (out : bytes) (metadata : option TransactionRecordMetadata) : bytes :=
  match metadata with
  | None => out ++ [Byte.x00]
  | Some metadata =>
      let out := out ++ [Byte.x01] in
      let out := out ++ put_be 8 (trm_TxID metadata) in
      let out := out ++ put_be 8 (trm_ProducerID metadata) in
      let out := out ++ put_be 8 (trm_ProducerEpoch metadata) in
      let out := out ++ put_be 8 (trm_Sequence metadata) in
      out ++ [encodeSegmentTransactionControl (trm_ControlType metadata)]
  end.

Definition appendSegmentHeaders (out : bytes) (headers : list RecordHeader) : bytes :=
  foldl (fun out header => appendSegmentBytes (appendSegmentString out (rh_Key header)) (rh_Value header))
    (appendSegmentIntBytes out (len headers)) headers.

Definition appendSegmentRecordBody (out : bytes) (record : Rec) : bytes :=
  let out := appendSegmentRecordFields out record in
  let out := appendSegmentTransaction out (r_Transaction record) in
  let out := appendSegmentHeaders out (r_Headers record) in
  appendSegmentBytes out (r_Payload record).

(** *** Its size *)

(** The loop of [segmentIntEncodedLen]; an [int] has at most 19 digits. *)
Fixpoint digitsLoop (fuel : nat) (value digits : Z) : Z :=
  match fuel with
  | O => digits
  | S fuel => if 0 <? value then digitsLoop fuel (value / 10) (digits + 1) else digits
  end.

Definition segmentIntEncodedLen (value : Z) : Z :=
  if value =? 0 then 2 else digitsLoop 20 value 0 + 1.

Definition segmentBytesEncodedLen (length : Z) : Z := segmentIntEncodedLen length + length.
Definition segmentStringEncodedLen (value : string) : Z := segmentIntEncodedLen (slen value) + slen value.

Definition segmentRecordBodySize (record : Rec) : Z :=
  let size := 8 + 8 + 1 + 2 in
  let size := match r_ExpiresAtMS record with Some _ => size + 8 | None => size end in
  let size := size + segmentBytesEncodedLen (len (r_Key record)) in
  let size := size + 1 in
  let size := match r_Transaction record with Some _ => size + (8 + 8 + 8 + 8 + 1) | None => size end in
  let size := size + segmentIntEncodedLen (len (r_Headers record)) in
  let size := foldl (fun size header =>
                       size + segmentStringEncodedLen (rh_Key header)
                       + segmentBytesEncodedLen (len (rh_Value header))) size (r_Headers record) in
  size + segmentBytesEncodedLen (len (r_Payload record)).

Definition estimatedSegmentFrameSize (record : Rec) : Z :=
  segmentFrameHeader + segmentBatchHeader + segmentBatchItemHeader + segmentRecordBodySize record.

(** ** Writing a frame *)

Definition encodeSegmentFrameEnvelope (magic : Z) (body : bytes) : result Code bytes :=
  bodyLen ← segmentIntToU32 (len body);
  Ok (put_be 4 magic ++ put_be 4 (ChecksumIEEE body) ++ put_be 4 bodyLen ++ body).

(** The loop over the records of a batch: the size of a record is written
    into the four bytes before it. *)
Fixpoint batchItems (out : bytes) (records : list Rec) : result Code bytes :=
  match records with
  | [] => Ok out
  | record :: records =>
      let item := appendSegmentRecordBody [] record in
      size ← segmentIntToU32 (len item);
      batchItems (out ++ put_be 4 size ++ item) records
  end.

Section Encode.
Context `{Zstd}.

Definition encodeSegmentFrameWithCompression (record : Rec) (compression : segmentFrameCompression)
    : result Code bytes :=
  '(magic, payload) ← encode compression (appendSegmentRecordBody [] record);
  encodeSegmentFrameEnvelope magic payload.

Definition encodeSegmentBatchFrameWithCompression (records : list Rec) (compression : segmentFrameCompression)
    : result Code bytes :=
  match records with
  | [record] => encodeSegmentFrameWithCompression record compression
  | _ =>
      count ← segmentIntToU32 (len records);
      body ← batchItems (put_be 4 count) records;
      '(magic, payload) ← encodeBatch compression body;
      encodeSegmentFrameEnvelope magic payload
  end.

End Encode.

(** ** Reading a record body ([segment_record_decoder.go]) *)

Definition remaining (d : bytes) : Z := len d.

(** The decoder itself, to ask for its [remaining]. *)
Definition unread : ME Code bytes := fun d => Ok (d, d).

Definition readByte : ME Code Byte.byte := fun d =>
  match d with [] => Err CodeCodec | value :: d => Ok (value, d) end.

Definition readFixed (length : Z) : ME Code bytes := fun d =>
  if remaining d <? length then Err CodeCodec
  else Ok (take (Z.to_nat length) d, drop (Z.to_nat length) d).

Definition readU64 : ME Code Z := raw ← readFixed 8; mret (get_be raw).
Definition readU32 : ME Code Z := raw ← readFixed 4; mret (get_be raw).
Definition readU16 : ME Code Z := raw ← readFixed 2; mret (get_be raw).

Definition readOptionalU64 : ME Code (option Z) :=
  present ← readByte;
  if decide (present = Byte.x00) then mret None
  else if negb (bool_decide (present = Byte.x01)) then fail CodeCodec
  else value ← readU64; mret (Some value).

(** The loop of [readInt]. *)
Fixpoint readIntLoop (length digits : Z) (d : bytes) : result Code (Z * bytes) :=
  match d with
  | [] => Err CodeCodec
  | digit :: d =>
      if decide (digit = Byte.x3a) then length ← finishSegmentInt length digits; Ok (length, d)
      else match segmentLengthDigit digit with
           | None => Err CodeCodec
           | Some nextDigit =>
               length ← appendSegmentLengthDigit length nextDigit;
               readIntLoop length (digits + 1) d
           end
  end.

Definition readInt : ME Code Z := readIntLoop 0 0.

Definition readBytes : ME Code bytes := length ← readInt; readFixed length.

Definition readBytesU32 : ME Code bytes :=
  length ← readU32;
  lengthInt ← of_result (segmentU32ToInt length);
  readFixed lengthInt.

Definition readHeader : ME Code RecordHeader :=
  key ← readBytes;
  value ← readBytes;
  mret (mkRecordHeader (String.string_of_list_byte key) value).

Definition readHeaders : ME Code (list RecordHeader) :=
  count ← readInt;
  left ← unread;
  if remaining left / 4 <? count then fail CodeCodec else for_range (Z.to_nat count) readHeader.

Definition readTransactionControl : ME Code string :=
  raw ← readByte;
  if decide (raw = Byte.x00) then mret TransactionControlNone
  else if decide (raw = Byte.x01) then mret TransactionControlCommit
  else if decide (raw = Byte.x02) then mret TransactionControlAbort
  else fail CodeCodec.

Definition readTransaction : ME Code (option TransactionRecordMetadata) :=
  present ← readByte;
  if decide (present = Byte.x00) then mret None
  else
    txID ← readU64;
    producerID ← readU64;
    producerEpoch ← readU64;
    sequence ← readU64;
    control ← readTransactionControl;
    mret (Some (mkTransactionRecordMetadata txID producerID producerEpoch sequence control)).

(** [readRecordFields] sets the fields of the record it is given. *)
Definition readRecordFields (record : Rec) : ME Code Rec :=
  offset ← readU64;
  timestamp ← readU64;
  expiresAt ← readOptionalU64;
  attributes ← readU16;
  key ← readBytes;
  mret {| r_Offset := offset; r_TimestampMS := timestamp; r_Key := key;
          r_Headers := r_Headers record; r_Attributes := attributes;
          r_Transaction := r_Transaction record; r_ExpiresAtMS := expiresAt;
          r_Payload := r_Payload record |}.

(** [Record{}] *)
Definition zeroRec : Rec := mkRec 0 0 [] [] 0 None None [].

Definition recordBody : ME Code Rec :=
  record ← readRecordFields zeroRec;
  transaction ← readTransaction;
  headers ← readHeaders;
  payload ← readBytes;
  mret {| r_Offset := r_Offset record; r_TimestampMS := r_TimestampMS record; r_Key := r_Key record;
          r_Headers := headers; r_Attributes := r_Attributes record;
          r_Transaction := transaction; r_ExpiresAtMS := r_ExpiresAtMS record;
          r_Payload := payload |}.

(** What follows the payload is not looked at. *)
Definition decodeSegmentRecordBody (body : bytes) : result Code Rec :=
  '(record, _) ← recordBody body;
  Ok record.

(** ** Reading a frame ([segment_frame_decode.go]) *)

Definition sizedSegmentFrameMagic (magic : Z) : bool :=
  (magic =? segmentFrameMagic) || (magic =? segmentFrameZstdMagic) ||
  (magic =? segmentBatchMagic) || (magic =? segmentBatchZstdMagic).

Definition validSegmentFrameMagic (magic : Z) : bool :=
  (magic =? segmentFrameMagic) || (magic =? segmentFrameZstdMagic) ||
  (magic =? segmentBatchMagic) || (magic =? segmentBatchZstdMagic) ||
  (magic =? legacySegmentFrameMagic) || (magic =? legacySegmentFrameZstdMagic) ||
  (magic =? legacySegmentBatchMagic) || (magic =? legacySegmentBatchZstdMagic).

Definition segmentFrameMagicIsBatch (magic : Z) : bool :=
  (magic =? segmentBatchMagic) || (magic =? segmentBatchZstdMagic) ||
  (magic =? legacySegmentBatchMagic) || (magic =? legacySegmentBatchZstdMagic).

(** [data[from:to]] *)
Definition slice (data : bytes) (from to : Z) : bytes :=
  take (Z.to_nat (to - from)) (drop (Z.to_nat from) data).

Definition segmentFrameBody (magic : Z) (frame : bytes) : result Code bytes :=
  if negb (sizedSegmentFrameMagic magic) then Ok (drop (Z.to_nat segmentFrameLegacyHeader) frame)
  else if len frame <? segmentFrameHeader then Err CodeCodec
  else
    let bodyLen := get_be (slice frame 8 12) in
    length ← segmentU32ToInt bodyLen;
    if negb (len frame =? segmentFrameHeader + length) then Err CodeCodec
    else Ok (drop (Z.to_nat segmentFrameHeader) frame).

(** The loop of [decodeSegmentBatchBody]. *)
Definition batchRecord : ME Code Rec :=
  item ← readBytesU32;
  of_result (decodeSegmentRecordBody item).

Definition decodeSegmentBatchBody (body : bytes) : result Code (list Rec) :=
  '(records, rest) ←
    (count ← readU32;
     size ← of_result (segmentU32ToInt count);
     for_range (Z.to_nat size) batchRecord) body;
  if negb (remaining rest =? 0) then Err CodeCodec else Ok records.

Section Decode.
Context `{Zstd}.

Definition decodeSegmentFramePayload (magic : Z) (body : bytes) : result Code bytes :=
  if (magic =? segmentFrameMagic) || (magic =? segmentBatchMagic) ||
     (magic =? legacySegmentFrameMagic) || (magic =? legacySegmentBatchMagic) then Ok body
  else if (magic =? segmentFrameZstdMagic) || (magic =? segmentBatchZstdMagic) ||
          (magic =? legacySegmentFrameZstdMagic) || (magic =? legacySegmentBatchZstdMagic)
  then decompressSegmentFrameZstd body
  else Err CodeCodec.

Definition decodeSegmentFrameRecords (frame : bytes) : result Code (list Rec) :=
  if len frame <? segmentFrameLegacyHeader then Err CodeCodec
  else
    let magic := get_be (slice frame 0 4) in
    let checksum := get_be (slice frame 4 8) in
    if negb (validSegmentFrameMagic magic) then Err CodeCodec
    else
      body ← segmentFrameBody magic frame;
      if negb (ChecksumIEEE body =? checksum) then Err CodeCodec
      else
        body ← decodeSegmentFramePayload magic body;
        if segmentFrameMagicIsBatch magic then decodeSegmentBatchBody body
        else record ← decodeSegmentRecordBody body; Ok [record].

End Decode.
