(* ===== verification/SegmentFrameSpec.v ===== *)
(** * The segment file format: round trips and damage

    A frame that was written is read back as the records it was made of,
    with and without compression ([segment_frame_roundtrip]); a record takes
    the room that the planner of segment writes counts for it
    ([estimated_frame_size]); and a frame whose bytes after the magic number
    were damaged anywhere within four consecutive bytes is refused
    ([damaged_frame_refused]), because the steps of the checksum are
    injective. *)

From stdpp Require Import prelude strings list pretty.
From S2P Require Import Prelude Wire WireSpec GoStrings Model MemoryStore LogSpec SegmentFrame.

#[local] Open Scope Z_scope.

(** ** Reading what was written *)

(** [reads bs r a]: the decoder [r] reads the bytes [bs] as [a], whatever follows. *)
Definition reads {E A} (bs : bytes) (r : ME E A) (a : A) : Prop :=
  forall rest, r (bs ++ rest) = Ok (a, rest).

Section Reads.
Context {E : Type}.

Lemma reads_bind {A B} b1 b2 (r : ME E A) (k : A -> ME E B) a b :
  reads b1 r a -> reads b2 (k a) b -> reads (b1 ++ b2) (r ≫= k) b.
Proof.
  intros H1 H2 rest. unfold mbind, M_bind. by rewrite <- (assoc_L (++)), (H1 (b2 ++ rest)), H2.
Qed.

Lemma reads_ret {A} (a : A) : reads (E := E) [] (mret a) a.
Proof. done. Qed.

Lemma reads_last {A B} b1 (r : ME E A) (f : A -> B) a :
  reads b1 r a -> reads b1 (x ← r; mret (f x)) (f a).
Proof. intros H1 rest. unfold mbind, M_bind. by rewrite (H1 rest). Qed.

Lemma reads_for {A} (enc : A -> bytes) (r : ME E A) l :
  Forall (fun x => reads (enc x) r x) l -> reads (concat (enc <$> l)) (for_range (length l) r) l.
Proof.
  induction 1 as [|x l Hx _ IH]; [done|]. cbn [fmap list_fmap concat length for_range].
  eapply reads_bind; [done|]. by apply (reads_last _ _ (cons x)).
Qed.

End Reads.

Lemma take_len_app {A} (l1 l2 : list A) : take (Z.to_nat (len l1)) (l1 ++ l2) = l1.
Proof. unfold len. rewrite Nat2Z.id. apply take_app_length. Qed.

Lemma drop_len_app {A} (l1 l2 : list A) : drop (Z.to_nat (len l1)) (l1 ++ l2) = l2.
Proof. unfold len. rewrite Nat2Z.id. apply drop_app_length. Qed.

Lemma len_put_be n v : len (put_be n v) = Z.of_nat n.
Proof. unfold len. by rewrite length_put_be. Qed.

Lemma reads_fixed raw n : len raw = n -> reads raw (readFixed n) raw.
Proof.
  intros <- rest. unfold readFixed, remaining. rewrite len_app.
  pose proof (len_nonneg rest). destruct (Z.ltb_spec (len raw + len rest) (len raw)); [lia|].
  by rewrite take_len_app, drop_len_app.
Qed.

Lemma reads_be n v :
  0 <= v < 256 ^ Z.of_nat n -> reads (put_be n v) (raw ← readFixed (Z.of_nat n); mret (get_be raw)) v.
Proof.
  intros Hv rest. rewrite <- (get_put_be n v) at 2 by done.
  apply (reads_last (put_be n v) (readFixed (Z.of_nat n)) get_be), reads_fixed, len_put_be.
Qed.

Lemma reads_u64 v : is_u64 v -> reads (put_be 8 v) readU64 v.
Proof. intros Hv. by apply (reads_be 8). Qed.
Lemma reads_u32 v : is_u32 v -> reads (put_be 4 v) readU32 v.
Proof. intros Hv. by apply (reads_be 4). Qed.
Lemma reads_u16 v : is_u16 v -> reads (put_be 2 v) readU16 v.
Proof. intros Hv. by apply (reads_be 2). Qed.

Lemma reads_byte b : reads [b] readByte b.
Proof. done. Qed.

(** *** Decimal lengths *)

Definition intBytes (value : Z) : bytes := appendSegmentIntBytes [] value.

Lemma segmentLengthDigit_pretty x :
  (x < 10)%N -> segmentLengthDigit (Ascii.byte_of_ascii (pretty_N_char x)) = Some (Z.of_N x)
                /\ Ascii.byte_of_ascii (pretty_N_char x) <> Byte.x3a.
Proof.
  intros Hx.
  assert (x = 0 \/ x = 1 \/ x = 2 \/ x = 3 \/ x = 4 \/ x = 5 \/ x = 6 \/ x = 7 \/ x = 8 \/ x = 9)%N
    as Hc by lia.
  by repeat (destruct Hc as [->|Hc]; [done|]); subst.
Qed.

Lemma appendSegmentLengthDigit_ok length digit :
  0 <= digit < 10 -> length * 10 + digit <= maxSegmentInt ->
  appendSegmentLengthDigit length digit = Ok (length * 10 + digit).
Proof.
  intros Hd Hm. unfold appendSegmentLengthDigit.
  destruct (Z.ltb_spec ((maxSegmentInt - digit) / 10) length) as [Hlt|]; [|done].
  pose proof (Z.div_le_lower_bound (maxSegmentInt - digit) 10 length). lia.
Qed.

Lemma readInt_pretty_N_go x s rest :
  Z.of_N x <= maxSegmentInt -> exists k, 0 <= k /\ ((0 < x)%N -> 0 < k) /\
  readIntLoop 0 0 (String.list_byte_of_string (pretty_N_go x s) ++ rest)
  = readIntLoop (Z.of_N x) k (String.list_byte_of_string s ++ rest).
Proof.
  revert s. induction (N.lt_wf_0 x) as [x _ IH]; intros s Hx.
  destruct (decide (x = 0)%N) as [->|Hne]; [exists 0; done|].
  rewrite pretty_N_go_step by lia.
  assert (Z.of_N (x / 10) * 10 + Z.of_N (x mod 10) = Z.of_N x) as Hdm
    by (pose proof (N.div_mod x 10 ltac:(done)); lia).
  assert (x mod 10 < 10)%N as Hm by (by apply N.mod_lt).
  assert (Z.of_N (x / 10) <= maxSegmentInt) as Hle
    by (pose proof (N2Z.is_nonneg (x / 10)); pose proof (N2Z.is_nonneg (x mod 10)); lia).
  destruct (IH (x / 10)%N) with (s := String (pretty_N_char (x mod 10)) s) as (k & Hk & _ & ->);
    [apply N.div_lt; lia|done|].
  exists (k + 1). split_and!; [lia|lia|].
  destruct (segmentLengthDigit_pretty (x mod 10) Hm) as [Hdig Hcol].
  cbn [String.list_byte_of_string]. unfold String.list_byte_of_string in *. simpl.
  rewrite decide_False by done. rewrite Hdig.
  rewrite appendSegmentLengthDigit_ok; [|split; [apply N2Z.is_nonneg|lia]|by rewrite Hdm].
  cbn [mbind result_bind]. by rewrite Hdm.
Qed.

Lemma reads_int v : 0 <= v <= maxSegmentInt -> reads (intBytes v) readInt v.
Proof.
  intros Hv rest. unfold intBytes, appendSegmentIntBytes, readInt. rewrite app_nil_l, <- (assoc_L (++)).
  rewrite fmt_d_N by lia. unfold pretty, pretty_N. case_decide as Hz.
  - assert (v = 0) as -> by lia. done.
  - destruct (readInt_pretty_N_go (Z.to_N v) EmptyString ([Byte.x3a] ++ rest)) as (k & _ & Hk & ->); [lia|].
    simpl. unfold finishSegmentInt. destruct (Z.eqb_spec k 0); [lia|]. cbn. by rewrite Z2N.id by lia.
Qed.

Lemma digitsLoop_pretty fuel x s d :
  (x < 10 ^ N.of_nat fuel)%N ->
  Z.of_nat (String.length (pretty_N_go x s)) + d = digitsLoop fuel (Z.of_N x) d + Z.of_nat (String.length s).
Proof.
  revert x s d. induction fuel as [|fuel IH]; intros x s d Hx.
  { change (10 ^ N.of_nat 0)%N with 1%N in Hx. assert (x = 0)%N as -> by lia. rewrite pretty_N_go_0. simpl. lia. }
  cbn [digitsLoop]. destruct (Z.ltb_spec 0 (Z.of_N x)) as [Hpos|].
  - rewrite pretty_N_go_step by lia.
    rewrite Nat2N.inj_succ, N.pow_succ_r' in Hx.
    specialize (IH (x / 10)%N (String (pretty_N_char (x mod 10)) s) (d + 1)).
    rewrite N2Z.inj_div in IH. simpl String.length in IH.
    assert (x / 10 < 10 ^ N.of_nat fuel)%N as Hd by (apply N.Div0.div_lt_upper_bound; lia).
    specialize (IH Hd). change (Z.of_N 10) with 10 in IH. lia.
  - assert (x = 0)%N as -> by lia. rewrite pretty_N_go_0. lia.
Qed.

Lemma len_intBytes v : 0 <= v < 10 ^ 20 -> len (intBytes v) = segmentIntEncodedLen v.
Proof.
  intros Hv. unfold intBytes, appendSegmentIntBytes, segmentIntEncodedLen. rewrite app_nil_l, len_app.
  change (len [Byte.x3a]) with 1. rewrite <- slen_bytes. unfold slen.
  rewrite fmt_d_N by lia. unfold pretty, pretty_N. case_decide as Hz.
  - assert (v = 0) as -> by lia. done.
  - destruct (Z.eqb_spec v 0); [lia|].
    pose proof (digitsLoop_pretty 20 (Z.to_N v) EmptyString 0) as Hl.
    rewrite Z2N.id in Hl by lia. simpl String.length in Hl at 2. rewrite Z.add_0_r in Hl.
    rewrite Hl; [lia|]. change (10 ^ N.of_nat 20)%N with (Z.to_N (10 ^ 20)). lia.
Qed.

(** *** Record bodies *)

(** The records the store holds: each field in the range of its type, sizes
    in the range of [int], and a control type that the format has a byte for. *)
Definition segment_header (h : RecordHeader) : Prop :=
  slen (rh_Key h) <= maxSegmentInt /\ len (rh_Value h) <= maxSegmentInt.

Definition segment_transaction (t : TransactionRecordMetadata) : Prop :=
  is_u64 (trm_TxID t) /\ is_u64 (trm_ProducerID t) /\ is_u64 (trm_ProducerEpoch t) /\
  is_u64 (trm_Sequence t) /\
  trm_ControlType t ∈ [TransactionControlNone; TransactionControlCommit; TransactionControlAbort].

Definition segment_record (r : Rec) : Prop :=
  is_u64 (r_Offset r) /\ is_u64 (r_TimestampMS r) /\ fits_option is_u64 (r_ExpiresAtMS r) /\
  is_u16 (r_Attributes r) /\ len (r_Key r) <= maxSegmentInt /\
  fits_option segment_transaction (r_Transaction r) /\
  len (r_Headers r) <= maxSegmentInt /\ Forall segment_header (r_Headers r) /\
  len (r_Payload r) <= maxSegmentInt.

Definition bytesBytes (value : bytes) : bytes := intBytes (len value) ++ value.
Definition headerBytes (h : RecordHeader) : bytes :=
  bytesBytes (String.list_byte_of_string (rh_Key h)) ++ bytesBytes (rh_Value h).

Lemma appendSegmentIntBytes_app out v : appendSegmentIntBytes out v = out ++ intBytes v.
Proof. done. Qed.

Lemma appendSegmentBytes_app out v : appendSegmentBytes out v = out ++ bytesBytes v.
Proof. unfold appendSegmentBytes, bytesBytes. by rewrite appendSegmentIntBytes_app, (assoc_L (++)). Qed.

Lemma appendSegmentString_app out s :
  appendSegmentString out s = out ++ bytesBytes (String.list_byte_of_string s).
Proof.
  unfold appendSegmentString, bytesBytes.
  by rewrite appendSegmentIntBytes_app, slen_bytes, (assoc_L (++)).
Qed.

Lemma appendSegmentHeaders_app out hs :
  appendSegmentHeaders out hs = out ++ intBytes (len hs) ++ concat (headerBytes <$> hs).
Proof.
  unfold appendSegmentHeaders. rewrite appendSegmentIntBytes_app, (assoc_L (++)).
  generalize (out ++ intBytes (len hs)). clear out.
  induction hs as [|h hs IH]; intros out; cbn [foldl fmap list_fmap concat]; [by rewrite app_nil_r|].
  rewrite IH, appendSegmentBytes_app, appendSegmentString_app. unfold headerBytes. by rewrite !(assoc_L (++)).
Qed.

Definition optionalBytes (v : option Z) : bytes :=
  match v with None => [Byte.x00] | Some v => [Byte.x01] ++ put_be 8 v end.

Lemma appendSegmentOptionalU64_app out v : appendSegmentOptionalU64 out v = out ++ optionalBytes v.
Proof. destruct v; simpl; [|done]. by rewrite <- (assoc_L (++)). Qed.

Definition transactionBytes (t : option TransactionRecordMetadata) : bytes :=
  match t with
  | None => [Byte.x00]
  | Some t => [Byte.x01] ++ put_be 8 (trm_TxID t) ++ put_be 8 (trm_ProducerID t) ++
              put_be 8 (trm_ProducerEpoch t) ++ put_be 8 (trm_Sequence t) ++
              [encodeSegmentTransactionControl (trm_ControlType t)]
  end.

Lemma appendSegmentTransaction_app out t : appendSegmentTransaction out t = out ++ transactionBytes t.
Proof.
  destruct t as [t|]; [|done]. unfold appendSegmentTransaction, transactionBytes.
  by rewrite <- !(assoc_L (++)).
Qed.

Definition bodyBytes (r : Rec) : bytes :=
  (put_be 8 (r_Offset r) ++ put_be 8 (r_TimestampMS r) ++ optionalBytes (r_ExpiresAtMS r) ++
   put_be 2 (r_Attributes r) ++ bytesBytes (r_Key r)) ++
  transactionBytes (r_Transaction r) ++
  (intBytes (len (r_Headers r)) ++ concat (headerBytes <$> r_Headers r)) ++ bytesBytes (r_Payload r).

Lemma appendSegmentRecordBody_app out r : appendSegmentRecordBody out r = out ++ bodyBytes r.
Proof.
  unfold appendSegmentRecordBody, appendSegmentRecordFields, bodyBytes.
  rewrite appendSegmentBytes_app, appendSegmentHeaders_app, appendSegmentTransaction_app,
    appendSegmentBytes_app, appendSegmentOptionalU64_app.
  by rewrite <- !(assoc_L (++)).
Qed.

Lemma reads_bytes v : len v <= maxSegmentInt -> reads (bytesBytes v) readBytes v.
Proof.
  intros Hv. eapply reads_bind; [apply reads_int|by apply reads_fixed].
  pose proof (len_nonneg v). lia.
Qed.

Lemma reads_header h : segment_header h -> reads (headerBytes h) readHeader h.
Proof.
  intros [Hk Hv]. destruct h as [k v]; simpl in *. rewrite slen_bytes in Hk.
  eapply reads_bind; [by apply reads_bytes|]. rewrite <- (String.string_of_list_byte_of_string k) at 2.
  by apply (reads_last _ readBytes (mkRecordHeader _)), reads_bytes.
Qed.

Lemma len_intBytes_pos v : 2 <= len (intBytes v).
Proof.
  unfold intBytes, appendSegmentIntBytes. rewrite app_nil_l, len_app, <- slen_bytes.
  change (len [Byte.x3a]) with 1. unfold slen.
  enough (fmt_d v <> EmptyString) as Hne by (destruct (fmt_d v); simpl; [done|lia]).
  destruct (Z.le_gt_cases 0 v); [by apply fmt_d_ne_empty|]. by destruct v.
Qed.

(** A header takes at least four bytes, so the count passes the check on it. *)
Lemma len_headers hs : 4 * len hs <= len (concat (headerBytes <$> hs)).
Proof.
  induction hs as [|h hs IH]; [done|]. cbn [fmap list_fmap concat]. rewrite len_app.
  assert (4 <= len (headerBytes h)) as H4.
  { unfold headerBytes, bytesBytes. rewrite !len_app.
    pose proof (len_intBytes_pos (len (String.list_byte_of_string (rh_Key h)))).
    pose proof (len_intBytes_pos (len (rh_Value h))).
    pose proof (len_nonneg (String.list_byte_of_string (rh_Key h))). pose proof (len_nonneg (rh_Value h)). lia. }
  unfold len in *. cbn [length]. lia.
Qed.

Lemma reads_headers hs :
  len hs <= maxSegmentInt -> Forall segment_header hs ->
  reads (intBytes (len hs) ++ concat (headerBytes <$> hs)) readHeaders hs.
Proof.
  intros Hl Hw. eapply reads_bind; [apply reads_int; pose proof (len_nonneg hs); lia|].
  intros rest. unfold unread, mbind, M_bind.
  destruct (Z.ltb_spec (remaining (concat (headerBytes <$> hs) ++ rest) / 4) (len hs)) as [Hlt|].
  - unfold remaining in Hlt. rewrite len_app in Hlt. pose proof (len_headers hs). pose proof (len_nonneg rest).
    pose proof (Z.div_le_lower_bound (len (concat (headerBytes <$> hs)) + len rest) 4 (len hs)). lia.
  - unfold len. rewrite Nat2Z.id. apply reads_for. eapply Forall_impl; [done|]. apply reads_header.
Qed.

Lemma reads_optional v : fits_option is_u64 v -> reads (optionalBytes v) readOptionalU64 v.
Proof.
  intros Hv. destruct v as [v|]; [|done]. eapply reads_bind; [apply reads_byte|].
  rewrite decide_False by done. simpl. by apply (reads_last _ readU64 Some), reads_u64.
Qed.

Lemma reads_control c :
  c ∈ [TransactionControlNone; TransactionControlCommit; TransactionControlAbort] ->
  reads [encodeSegmentTransactionControl c] readTransactionControl c.
Proof.
  intros Hc. rewrite !elem_of_cons, elem_of_nil in Hc. by destruct Hc as [->|[->|[->|[]]]].
Qed.

Lemma reads_transaction t : fits_option segment_transaction t -> reads (transactionBytes t) readTransaction t.
Proof.
  intros Ht. destruct t as [[a b c d k]|]; [|done]. destruct Ht as (Ha & Hb & Hc & Hd & Hk).
  unfold transactionBytes, readTransaction; simpl trm_TxID in *.
  eapply reads_bind; [apply reads_byte|]. rewrite decide_False by done.
  do 4 (eapply reads_bind; [by apply reads_u64|]).
  by apply (reads_last _ readTransactionControl (fun k => Some (mkTransactionRecordMetadata a b c d k))), reads_control.
Qed.

Lemma reads_body r : segment_record r -> reads (bodyBytes r) recordBody r.
Proof.
  intros (Ho & Ht & He & Ha & Hk & Htx & Hn & Hh & Hp). unfold bodyBytes, recordBody.
  eapply reads_bind.
  { unfold readRecordFields.
    eapply reads_bind; [by apply reads_u64|]. eapply reads_bind; [by apply reads_u64|].
    eapply reads_bind; [by apply reads_optional|]. eapply reads_bind; [by apply reads_u16|].
    eapply reads_last. by apply reads_bytes. }
  eapply reads_bind; [by apply reads_transaction|].
  eapply reads_bind; [by apply reads_headers|].
  destruct r as [o t k hs a tx e p]; simpl in *.
  by apply (reads_last _ readBytes (fun p => mkRec o t k hs a tx e p)), reads_bytes.
Qed.

Lemma decodeSegmentRecordBody_app r rest :
  segment_record r -> decodeSegmentRecordBody (bodyBytes r ++ rest) = Ok r.
Proof. intros Hr. unfold decodeSegmentRecordBody. by rewrite reads_body. Qed.

(** *** The room a record takes *)

Lemma len_bytesBytes v : len v <= maxSegmentInt -> len (bytesBytes v) = segmentBytesEncodedLen (len v).
Proof.
  intros Hv. unfold bytesBytes, segmentBytesEncodedLen. rewrite len_app, len_intBytes; [done|].
  unfold maxSegmentInt in Hv. pose proof (len_nonneg v). lia.
Qed.

Lemma len_headerBytes_fold hs size :
  Forall segment_header hs ->
  foldl (fun size header => size + segmentStringEncodedLen (rh_Key header)
                            + segmentBytesEncodedLen (len (rh_Value header))) size hs
  = size + len (concat (headerBytes <$> hs)).
Proof.
  intros Hw. revert size. induction Hw as [|h hs [Hk Hv] _ IH]; intros size; cbn [foldl fmap list_fmap concat].
  { change (len (@nil Byte.byte)) with 0. lia. }
  rewrite IH, len_app. unfold headerBytes. rewrite len_app.
  rewrite (len_bytesBytes (rh_Value h)) by done.
  rewrite len_bytesBytes by (by rewrite <- slen_bytes).
  unfold segmentStringEncodedLen, segmentBytesEncodedLen. rewrite <- slen_bytes. lia.
Qed.

Lemma len_bodyBytes r : segment_record r -> len (bodyBytes r) = segmentRecordBodySize r.
Proof.
  intros (_ & _ & _ & _ & Hk & _ & Hn & Hh & Hp). unfold bodyBytes, segmentRecordBodySize.
  rewrite len_headerBytes_fold by done. rewrite !len_app, !len_put_be, !len_bytesBytes by done.
  rewrite len_intBytes by (unfold maxSegmentInt in Hn; pose proof (len_nonneg (r_Headers r)); lia).
  destruct (r_ExpiresAtMS r), (r_Transaction r); unfold optionalBytes, transactionBytes;
    rewrite ?len_app, ?len_put_be; change (len [_]) with 1; lia.
Qed.

(** ** The checksum *)

Lemma u32_bits c i : is_u32 c -> 32 <= i -> Z.testbit c i = false.
Proof.
  intros Hc Hi. unfold is_u32 in Hc. rewrite <- (Z.mod_small c (2 ^ 32)) by done.
  by apply Z.mod_pow2_bits_high.
Qed.

Lemma is_u32_bits c : 0 <= c -> (forall i, 32 <= i -> Z.testbit c i = false) -> is_u32 c.
Proof.
  intros H0 Hb. enough (c = c mod 2 ^ 32) as ->.
  { unfold is_u32. apply Z.mod_pos_bound. lia. }
  apply Z.bits_inj'. intros i Hi. destruct (Z.lt_ge_cases i 32).
  - by rewrite Z.mod_pow2_bits_low.
  - rewrite Z.mod_pow2_bits_high by lia. by apply Hb.
Qed.

Lemma is_u32_lxor a b : is_u32 a -> is_u32 b -> is_u32 (Z.lxor a b).
Proof.
  intros Ha Hb. apply is_u32_bits.
  - apply Z.lxor_nonneg. unfold is_u32 in *. lia.
  - intros i Hi. by rewrite Z.lxor_spec, !u32_bits.
Qed.

Lemma is_u32_shiftr a : is_u32 a -> is_u32 (Z.shiftr a 1).
Proof.
  unfold is_u32. intros Ha. rewrite Z.shiftr_div_pow2 by lia. change (2 ^ 1) with 2.
  split; [apply Z.div_pos; lia|]. apply Z.div_lt_upper_bound; lia.
Qed.

Lemma is_u32_crcPolynomial : is_u32 crcPolynomial.
Proof. by vm_compute. Qed.

Lemma is_u32_crcBit c : is_u32 c -> is_u32 (crcBit c).
Proof.
  intros Hc. unfold crcBit. destruct (Z.testbit c 0); [apply is_u32_lxor|];
    auto using is_u32_shiftr, is_u32_crcPolynomial.
Qed.

Lemma iter_comm {A} n (f : A -> A) x : Nat.iter n f (f x) = f (Nat.iter n f x).
Proof. induction n as [|n IH]; simpl; congruence. Qed.

Lemma iter_add {A} m n (f : A -> A) x : Nat.iter m f (Nat.iter n f x) = Nat.iter (n + m) f x.
Proof. induction m as [|m IH]; simpl; [by rewrite Nat.add_0_r|]. by rewrite Nat.add_succ_r, IH. Qed.

Lemma is_u32_iter n c : is_u32 c -> is_u32 (Nat.iter n crcBit c).
Proof. intros Hc. induction n; simpl; auto using is_u32_crcBit. Qed.

Lemma is_u32_byte b : is_u32 (Z_of_byte b).
Proof. pose proof (Z_of_byte_range b). unfold is_u32. lia. Qed.

Lemma is_u32_crc c data : is_u32 c -> is_u32 (foldl crcByte c data).
Proof.
  revert c. induction data as [|b data IH]; intros c Hc; [done|]. cbn [foldl]. apply IH.
  apply is_u32_iter, is_u32_lxor; [done|]. apply is_u32_byte.
Qed.

Lemma is_u32_ChecksumIEEE data : is_u32 (ChecksumIEEE data).
Proof. apply is_u32_lxor; [by apply is_u32_crc|by vm_compute]. Qed.

(** The step is linear, shifts even registers, and is injective: the bit it
    drops is the top bit of the polynomial, that is, of the result. *)
Lemma crcBit_lxor a b : crcBit (Z.lxor a b) = Z.lxor (crcBit a) (crcBit b).
Proof.
  unfold crcBit. rewrite Z.lxor_spec, Z.shiftr_lxor.
  generalize (Z.shiftr a 1), (Z.shiftr b 1). intros x y.
  destruct (Z.testbit a 0), (Z.testbit b 0); simpl.
  - rewrite (Z.lxor_comm y), Z.lxor_assoc, <- (Z.lxor_assoc crcPolynomial), Z.lxor_nilpotent, Z.lxor_0_l. done.
  - rewrite !Z.lxor_assoc. f_equal. apply Z.lxor_comm.
  - by rewrite Z.lxor_assoc.
  - done.
Qed.

Lemma iter_lxor n a b :
  Nat.iter n crcBit (Z.lxor a b) = Z.lxor (Nat.iter n crcBit a) (Nat.iter n crcBit b).
Proof. induction n as [|n IH]; simpl; [done|]. by rewrite IH, crcBit_lxor. Qed.

Lemma crcBit_double x : 0 <= x -> crcBit (2 * x) = x.
Proof.
  intros Hx. unfold crcBit. rewrite Z.testbit_even_0.
  rewrite Z.shiftr_div_pow2 by lia. change (2 ^ 1) with 2. rewrite Z.mul_comm. apply Z.div_mul. lia.
Qed.

Lemma iter_shift n x : 0 <= x -> Nat.iter n crcBit (x * 2 ^ Z.of_nat n) = x.
Proof.
  intros Hx. induction n as [|n IH]; [simpl; lia|].
  cbn [Nat.iter nat_rect]. fold (Nat.iter n crcBit (x * 2 ^ Z.of_nat (S n))).
  rewrite Nat2Z.inj_succ, Z.pow_succ_r by lia.
  rewrite <- (iter_comm n crcBit).
  replace (x * (2 * 2 ^ Z.of_nat n)) with (2 * (x * 2 ^ Z.of_nat n)) by lia.
  rewrite crcBit_double; [done|]. apply Z.mul_nonneg_nonneg; lia.
Qed.

Lemma crcBit_top c : is_u32 c -> Z.testbit (crcBit c) 31 = Z.testbit c 0.
Proof.
  intros Hc. unfold crcBit. destruct (Z.testbit c 0).
  - rewrite Z.lxor_spec, Z.shiftr_spec, u32_bits by (done || lia). done.
  - rewrite Z.shiftr_spec by lia. by apply u32_bits.
Qed.

Lemma crcBit_inj a b : is_u32 a -> is_u32 b -> crcBit a = crcBit b -> a = b.
Proof.
  intros Ha Hb Heq.
  assert (Z.testbit a 0 = Z.testbit b 0) as H0 by (rewrite <- !crcBit_top by done; by rewrite Heq).
  assert (Z.shiftr a 1 = Z.shiftr b 1) as H1.
  { unfold crcBit in Heq. rewrite H0 in Heq. destruct (Z.testbit b 0); [|done].
    apply (f_equal (fun z => Z.lxor z crcPolynomial)) in Heq.
    by rewrite !Z.lxor_assoc, Z.lxor_nilpotent, !Z.lxor_0_r in Heq. }
  apply Z.bits_inj'. intros i Hi. destruct (Z.eq_dec i 0) as [->|]; [done|].
  apply (f_equal (fun z => Z.testbit z (i - 1))) in H1. rewrite !Z.shiftr_spec in H1 by lia.
  by replace (i - 1 + 1) with i in H1 by lia.
Qed.

Lemma iter_inj n a b : is_u32 a -> is_u32 b -> Nat.iter n crcBit a = Nat.iter n crcBit b -> a = b.
Proof.
  intros Ha Hb. induction n as [|n IH]; [done|]. simpl. intros Heq%crcBit_inj; auto using is_u32_iter.
Qed.

(** The bytes of a window as a little-endian word: the checksum reads them
    at once. *)
Fixpoint word (data : bytes) : Z :=
  match data with [] => 0 | b :: data => Z_of_byte b + 256 * word data end.

Lemma word_range data : 0 <= word data < 256 ^ len data.
Proof.
  induction data as [|b data IH]; [done|]. cbn [word].
  replace (len (b :: data)) with (Z.succ (len data)) by (unfold len; simpl length; lia).
  rewrite Z.pow_succ_r by apply len_nonneg. pose proof (Z_of_byte_range b). lia.
Qed.

Lemma Z_of_byte_inj a b : Z_of_byte a = Z_of_byte b -> a = b.
Proof.
  unfold Z_of_byte. intros H%N2Z.inj. apply (f_equal Byte.of_N) in H. rewrite !Byte.of_to_N in H. congruence.
Qed.

Lemma word_inj d1 d2 : length d1 = length d2 -> word d1 = word d2 -> d1 = d2.
Proof.
  revert d2. induction d1 as [|b1 d1 IH]; intros [|b2 d2] Hl Hw; try done.
  cbn [word] in Hw. pose proof (Z_of_byte_range b1). pose proof (Z_of_byte_range b2).
  f_equal; [apply Z_of_byte_inj; lia|]. apply IH; [by injection Hl|lia].
Qed.

Lemma crc_word c data :
  0 <= c -> foldl crcByte c data = Nat.iter (8 * length data) crcBit (Z.lxor c (word data)).
Proof.
  revert c. induction data as [|b data IH]; intros c Hc.
  { cbn. by rewrite Z.lxor_0_r. }
  cbn [foldl word length]. unfold crcByte at 2.
  assert (forall n z, 0 <= z -> 0 <= Nat.iter n crcBit z) as Hnn.
  { intros n z Hz. induction n as [|n IHn]; simpl; [done|]. unfold crcBit at 1.
    assert (0 <= Z.shiftr (Nat.iter n crcBit z) 1) by (by apply Z.shiftr_nonneg).
    destruct (Z.testbit _ 0); [|done]. by apply Z.lxor_nonneg. }
  pose proof (Z_of_byte_range b) as Hb. pose proof (word_range data) as Hw.
  rewrite IH by (apply Hnn, Z.lxor_nonneg; lia).
  rewrite <- (iter_shift 8 (word data)) at 1 by lia.
  rewrite <- iter_lxor, iter_add, Z.lxor_assoc.
  assert (Z.lxor (Z_of_byte b) (word data * 2 ^ Z.of_nat 8) = Z_of_byte b + 256 * word data) as ->.
  { change (2 ^ Z.of_nat 8) with 256. rewrite (Z.lxor_comm (Z_of_byte b)).
    rewrite <- Z.add_nocarry_lxor by (by apply land_shift_byte). lia. }
  by replace (8 + 8 * length data)%nat with (8 * S (length data))%nat by lia.
Qed.

Lemma crc_start_inj data c1 c2 :
  is_u32 c1 -> is_u32 c2 -> foldl crcByte c1 data = foldl crcByte c2 data -> c1 = c2.
Proof.
  revert c1 c2. induction data as [|b data IH]; intros c1 c2 H1 H2 Heq; [done|]. cbn [foldl] in Heq.
  apply IH in Heq; [|by apply (is_u32_crc _ [b])..].
  apply iter_inj in Heq; [|auto using is_u32_lxor, is_u32_byte..].
  apply (f_equal (fun z => Z.lxor z (Z_of_byte b))) in Heq.
  by rewrite !Z.lxor_assoc, Z.lxor_nilpotent, !Z.lxor_0_r in Heq.
Qed.

Lemma crc_window_inj c d1 d2 :
  is_u32 c -> length d1 = length d2 -> (length d1 <= 4)%nat ->
  foldl crcByte c d1 = foldl crcByte c d2 -> d1 = d2.
Proof.
  intros Hc Hl H4 Heq. rewrite !crc_word, <- Hl in Heq by (unfold is_u32 in Hc; lia).
  assert (forall d, length d = length d1 -> is_u32 (word d)) as Hw.
  { intros d Hd. pose proof (word_range d) as Hr. unfold is_u32, len in *.
    assert (256 ^ Z.of_nat (length d) <= 256 ^ 4) by (apply Z.pow_le_mono_r; lia). lia. }
  apply iter_inj in Heq; [|auto using is_u32_lxor..].
  apply word_inj; [done|]. apply (f_equal (Z.lxor c)) in Heq.
  by rewrite <- !Z.lxor_assoc, Z.lxor_nilpotent, !Z.lxor_0_l in Heq.
Qed.

Lemma ChecksumIEEE_window pre d1 d2 post :
  length d1 = length d2 -> (length d1 <= 4)%nat ->
  ChecksumIEEE (pre ++ d1 ++ post) = ChecksumIEEE (pre ++ d2 ++ post) -> d1 = d2.
Proof.
  intros Hl H4 Heq. unfold ChecksumIEEE in Heq.
  apply (f_equal (fun z => Z.lxor z 0xFFFFFFFF)) in Heq.
  rewrite !Z.lxor_assoc, Z.lxor_nilpotent, !Z.lxor_0_r, !foldl_app in Heq.
  assert (is_u32 (foldl crcByte 0xFFFFFFFF pre)) as Hp by (by apply is_u32_crc).
  apply crc_start_inj in Heq; [|by apply is_u32_crc..]. by eapply crc_window_inj.
Qed.

Lemma get_be_snoc raw b : get_be (raw ++ [b]) = get_be raw * 256 + Z_of_byte b.
Proof. unfold get_be. rewrite foldl_app. cbn [foldl]. apply lor_shift_add, Z_of_byte_range. Qed.

Lemma get_be_inj r1 r2 : length r1 = length r2 -> get_be r1 = get_be r2 -> r1 = r2.
Proof.
  revert r2. induction r1 as [|b1 r1 IH] using rev_ind; intros r2 Hl Heq.
  { by destruct r2. }
  destruct r2 as [|b2 r2 _] using rev_ind; [rewrite length_app in Hl; simpl in Hl; lia|].
  rewrite !length_app in Hl; simpl in Hl. rewrite !get_be_snoc in Heq.
  pose proof (Z_of_byte_range b1). pose proof (Z_of_byte_range b2).
  f_equal; [apply IH; lia|]. f_equal. apply Z_of_byte_inj. lia.
Qed.

(** ** Frames *)

Lemma segmentIntToU32_ok v n : segmentIntToU32 v = Ok n <-> is_u32 v /\ n = v.
Proof.
  unfold segmentIntToU32, is_u32. destruct (Z.ltb_spec v 0); [split; [done|lia]|].
  destruct (Z.ltb_spec (2 ^ 32 - 1) v); [split; [done|lia]|].
  change (drop 4 (put_be 8 v)) with (put_be 4 v). rewrite get_put_be by (change (256 ^ Z.of_nat 4) with (2 ^ 32); lia).
  split; [intros [= <-]; split; [lia|done]|by intros [_ ->]].
Qed.

(** The bytes of a frame. *)
Definition frameBytes (magic : Z) (body : bytes) : bytes :=
  put_be 4 magic ++ put_be 4 (ChecksumIEEE body) ++ put_be 4 (len body) ++ body.

Lemma encodeSegmentFrameEnvelope_ok magic body frame :
  encodeSegmentFrameEnvelope magic body = Ok frame <-> is_u32 (len body) /\ frame = frameBytes magic body.
Proof.
  unfold encodeSegmentFrameEnvelope. rewrite bind_ok. split.
  - intros (n & [Hn ->]%segmentIntToU32_ok & [= <-]). done.
  - intros [Hn ->]. exists (len body). split; [by apply segmentIntToU32_ok|done].
Qed.

Lemma slice_app pre mid post i j :
  i = len pre -> j = len pre + len mid -> slice (pre ++ mid ++ post) i j = mid.
Proof.
  intros -> ->. unfold slice. rewrite drop_len_app. replace (len pre + len mid - len pre) with (len mid) by lia.
  apply take_len_app.
Qed.

(** A frame of four-byte fields: what the decoder looks at. *)
Section Fields.
Context (m c l body : bytes) (Hm : len m = 4) (Hc : len c = 4) (Hl : len l = 4).

Lemma field_magic : slice (m ++ c ++ l ++ body) 0 4 = m.
Proof using Hm. by apply (slice_app [] m). Qed.
Lemma field_checksum : slice (m ++ c ++ l ++ body) 4 8 = c.
Proof using Hm Hc. apply slice_app; [done|]. lia. Qed.
Lemma field_length : slice (m ++ c ++ l ++ body) 8 12 = l.
Proof using Hm Hc Hl. rewrite (assoc_L (++) m c). apply slice_app; rewrite len_app; lia. Qed.
Lemma field_body : drop (Z.to_nat segmentFrameHeader) (m ++ c ++ l ++ body) = body.
Proof using Hm Hc Hl.
  rewrite (assoc_L (++)), (assoc_L (++)).
  assert (segmentFrameHeader = len ((m ++ c) ++ l)) as -> by (rewrite !len_app; unfold segmentFrameHeader; lia).
  apply drop_len_app.
Qed.
Lemma field_size : len (m ++ c ++ l ++ body) = 12 + len body.
Proof using Hm Hc Hl. rewrite !len_app. lia. Qed.
End Fields.

Lemma sized_valid magic : sizedSegmentFrameMagic magic = true -> validSegmentFrameMagic magic = true.
Proof. unfold sizedSegmentFrameMagic, validSegmentFrameMagic. intros ->. done. Qed.

Section Frames.
Context `{Zstd}.

(** A frame of known magic number is checked, then its payload decoded. *)
Lemma decode_sized m c l body :
  len m = 4 -> len c = 4 -> len l = 4 -> sizedSegmentFrameMagic (get_be m) = true ->
  decodeSegmentFrameRecords (m ++ c ++ l ++ body) =
    if negb (len body =? get_be l) then Err CodeCodec
    else if negb (ChecksumIEEE body =? get_be c) then Err CodeCodec
    else body ← decodeSegmentFramePayload (get_be m) body;
         if segmentFrameMagicIsBatch (get_be m) then decodeSegmentBatchBody body
         else record ← decodeSegmentRecordBody body; Ok [record].
Proof.
  intros Hm Hc Hl Hs. unfold decodeSegmentFrameRecords, segmentFrameBody, segmentFrameLegacyHeader, segmentFrameHeader.
  rewrite field_size, field_magic, field_checksum, field_length by done.
  pose proof (len_nonneg body) as Hb.
  destruct (Z.ltb_spec (12 + len body) 8); [lia|]. destruct (Z.ltb_spec (12 + len body) 12); [lia|].
  rewrite sized_valid, Hs by done. cbn [negb segmentU32ToInt mbind result_bind].
  change (Z.to_nat 12) with (Z.to_nat segmentFrameHeader). rewrite field_body by done.
  replace (12 + len body =? 12 + get_be l) with (len body =? get_be l)
    by (destruct (Z.eqb_spec (len body) (get_be l)), (Z.eqb_spec (12 + len body) (12 + get_be l)); lia).
  destruct (len body =? get_be l); done.
Qed.

Lemma get_magic magic : sizedSegmentFrameMagic magic = true -> get_be (put_be 4 magic) = magic.
Proof.
  unfold sizedSegmentFrameMagic. intros Hs. apply get_put_be.
  rewrite !orb_true_iff, !Z.eqb_eq in Hs. destruct Hs as [[[->| ->]| ->]| ->]; by vm_compute.
Qed.

Lemma decode_frameBytes magic body :
  sizedSegmentFrameMagic magic = true -> is_u32 (len body) ->
  decodeSegmentFrameRecords (frameBytes magic body) =
    (body ← decodeSegmentFramePayload magic body;
     if segmentFrameMagicIsBatch magic then decodeSegmentBatchBody body
     else record ← decodeSegmentRecordBody body; Ok [record]).
Proof.
  intros Hs Hl. unfold frameBytes. rewrite decode_sized by (rewrite ?get_magic; done || apply len_put_be).
  rewrite (get_magic magic), (get_put_be 4 (len body)), (get_put_be 4 (ChecksumIEEE body))
    by (done || apply is_u32_ChecksumIEEE).
  by rewrite !Z.eqb_refl.
Qed.

Lemma encodeWithMagic_decodes c body plain zstd magic payload :
  encodeWithMagic c body plain zstd = Ok (magic, payload) ->
  (plain = segmentFrameMagic /\ zstd = segmentFrameZstdMagic) \/
  (plain = segmentBatchMagic /\ zstd = segmentBatchZstdMagic) ->
  decodeSegmentFramePayload magic payload = Ok body /\ (magic = plain \/ magic = zstd).
Proof.
  unfold encodeWithMagic. intros He Hp.
  case_decide; [injection He as <- <-|case_decide; [destruct (sfc_encoder c); [injection He as <- <-|done]|done]];
    (split; [|by auto]); destruct Hp as [[-> ->]|[-> ->]]; try done; cbn;
    unfold decompressSegmentFrameZstd; by rewrite DecodeAll_EncodeAll.
Qed.

(** Records of a batch body. *)
Definition itemBytes (r : Rec) : bytes := put_be 4 (len (bodyBytes r)) ++ bodyBytes r.

Lemma batchItems_ok out rs body :
  batchItems out rs = Ok body <->
  Forall (fun r => is_u32 (len (bodyBytes r))) rs /\ body = out ++ concat (itemBytes <$> rs).
Proof.
  revert out. induction rs as [|r rs IH]; intros out; cbn [batchItems fmap list_fmap concat].
  { rewrite app_nil_r. split; [intros [= <-]; split; [constructor|done]|by intros [_ ->]]. }
  rewrite appendSegmentRecordBody_app, app_nil_l, bind_ok, Forall_cons. split.
  - intros (n & [Hn ->]%segmentIntToU32_ok & [Hf ->]%IH). unfold itemBytes. by rewrite !(assoc_L (++)).
  - intros [[Hr Hf] ->]. exists (len (bodyBytes r)). split; [by apply segmentIntToU32_ok|].
    apply IH. unfold itemBytes. by rewrite !(assoc_L (++)).
Qed.

Lemma reads_item r : segment_record r -> is_u32 (len (bodyBytes r)) -> reads (itemBytes r) batchRecord r.
Proof.
  intros Hr Hl rest. unfold batchRecord, readBytesU32, itemBytes, mbind, M_bind.
  rewrite <- (assoc_L (++)), reads_u32 by done. cbn [of_result segmentU32ToInt mret M_ret].
  rewrite reads_fixed by done.
  pose proof (decodeSegmentRecordBody_app r [] Hr) as Hd. rewrite app_nil_r in Hd. by rewrite Hd.
Qed.

Lemma decodeSegmentBatchBody_items rs :
  Forall segment_record rs -> Forall (fun r => is_u32 (len (bodyBytes r))) rs -> is_u32 (len rs) ->
  decodeSegmentBatchBody (put_be 4 (len rs) ++ concat (itemBytes <$> rs)) = Ok rs.
Proof.
  intros Hw Hs Hl. unfold decodeSegmentBatchBody, mbind at 2 3, M_bind.
  rewrite reads_u32 by done. cbn [of_result segmentU32ToInt mret M_ret].
  replace (Z.to_nat (len rs)) with (length rs) by (unfold len; lia).
  rewrite <- (app_nil_r (concat _)), reads_for; [done|].
  rewrite Forall_forall in *. intros r Hr. by apply reads_item; [apply Hw|apply Hs].
Qed.

(** What a frame is, and that it is read back. *)
Lemma encodeSegmentBatchFrame_inv rs c frame :
  encodeSegmentBatchFrameWithCompression rs c = Ok frame -> Forall segment_record rs ->
  exists magic body, frame = frameBytes magic body /\ sizedSegmentFrameMagic magic = true /\
    is_u32 (len body) /\ decodeSegmentFrameRecords frame = Ok rs.
Proof.
  intros He Hw.
  assert ((exists r magic body, rs = [r] /\ encode c (bodyBytes r) = Ok (magic, body) /\
             encodeSegmentFrameEnvelope magic body = Ok frame) \/
          (exists magic body, is_u32 (len rs) /\ Forall (fun r => is_u32 (len (bodyBytes r))) rs /\
             encodeBatch c (put_be 4 (len rs) ++ concat (itemBytes <$> rs)) = Ok (magic, body) /\
             encodeSegmentFrameEnvelope magic body = Ok frame)) as [(r & magic & body & -> & Hc & Hf)|(magic & body & Hn & Hi & Hc & Hf)].
  { unfold encodeSegmentBatchFrameWithCompression, encodeSegmentFrameWithCompression in He.
    destruct rs as [|r1 [|r2 rs]]; [right| |right];
      [| left; rewrite appendSegmentRecordBody_app, app_nil_l, bind_ok in He;
         destruct He as ([magic body] & ? & ?); by exists r1, magic, body|];
      (apply bind_ok in He as (n & [Hn ->]%segmentIntToU32_ok & He);
       apply bind_ok in He as (b & [Hi ->]%batchItems_ok & He);
       apply bind_ok in He as ([magic body] & ? & ?); by exists magic, body). }
  all: apply encodeSegmentFrameEnvelope_ok in Hf as [Hl ->].
  - apply encodeWithMagic_decodes in Hc as [Hd Hm]; [|by left].
    assert (sizedSegmentFrameMagic magic = true) as Hs by (by destruct Hm as [-> | ->]).
    exists magic, body. split_and!; try done. rewrite decode_frameBytes, Hd by done. cbn [mbind result_bind].
    replace (segmentFrameMagicIsBatch magic) with false by (by destruct Hm as [-> | ->]).
    rewrite Forall_singleton in Hw.
    pose proof (decodeSegmentRecordBody_app r [] Hw) as Hr. rewrite app_nil_r in Hr. by rewrite Hr.
  - apply encodeWithMagic_decodes in Hc as [Hd Hm]; [|by right].
    assert (sizedSegmentFrameMagic magic = true) as Hs by (by destruct Hm as [-> | ->]).
    exists magic, body. split_and!; try done. rewrite decode_frameBytes, Hd by done. cbn [mbind result_bind].
    replace (segmentFrameMagicIsBatch magic) with true by (by destruct Hm as [-> | ->]).
    by apply decodeSegmentBatchBody_items.
Qed.

End Frames.

(** *** Sizes *)

Lemma len_concat_items rs : len (concat (itemBytes <$> rs)) = foldr (fun r n => 4 + len (bodyBytes r) + n) 0 rs.
Proof.
  induction rs as [|r rs IH]; [done|]. cbn [fmap list_fmap concat foldr]. rewrite len_app, IH.
  unfold itemBytes. rewrite len_app, len_put_be. lia.
Qed.

Lemma len_frameBytes magic body : len (frameBytes magic body) = segmentFrameHeader + len body.
Proof. unfold frameBytes. rewrite !len_app, !len_put_be. unfold segmentFrameHeader. lia. Qed.

(** The estimate of a batch, as the planner adds it up. *)
Definition estimatedBatchSize (rs : list Rec) : Z :=
  foldr (fun r n => estimatedSegmentFrameSize r + n) 0 rs.

Lemma items_estimate rs :
  Forall segment_record rs ->
  foldr (fun r n => 4 + len (bodyBytes r) + n) 0 rs + 16 * len rs = estimatedBatchSize rs.
Proof.
  induction 1 as [|r rs Hr _ IH]; [done|]. cbn [foldr estimatedBatchSize].
  fold (estimatedBatchSize rs). rewrite <- IH, len_bodyBytes by done.
  unfold estimatedSegmentFrameSize, segmentFrameHeader, segmentBatchHeader, segmentBatchItemHeader, len.
  cbn [length]. lia.
Qed.

Section FrameTheorems.
Context `{Zstd}.

Definition uncompressed : segmentFrameCompression := mkSegmentFrameCompression SegmentCompressionNone false.

Lemma encode_uncompressed body : encode uncompressed body = Ok (segmentFrameMagic, body).
Proof. done. Qed.
Lemma encodeBatch_uncompressed body : encodeBatch uncompressed body = Ok (segmentBatchMagic, body).
Proof. done. Qed.

(** An uncompressed frame takes at most the room estimated for its records,
    and whenever that room is below 4 GiB the frame can be written. *)
Lemma uncompressed_frame_size rs frame :
  rs <> [] -> Forall segment_record rs ->
  encodeSegmentBatchFrameWithCompression rs uncompressed = Ok frame ->
  len frame <= estimatedBatchSize rs.
Proof.
  intros Hne Hw He. pose proof (items_estimate rs Hw) as Hest.
  destruct rs as [|r1 [|r2 rs]]; [done|..].
  - cbn [encodeSegmentBatchFrameWithCompression] in He. unfold encodeSegmentFrameWithCompression in He.
    rewrite appendSegmentRecordBody_app, app_nil_l, encode_uncompressed in He. cbn [mbind result_bind] in He.
    apply encodeSegmentFrameEnvelope_ok in He as [_ ->]. rewrite len_frameBytes.
    cbn [foldr] in Hest. unfold segmentFrameHeader. change (len [r1]) with 1 in Hest. lia.
  - cbn [encodeSegmentBatchFrameWithCompression] in He.
    apply bind_ok in He as (n & [Hn ->]%segmentIntToU32_ok & He).
    apply bind_ok in He as (b & [Hi ->]%batchItems_ok & He). rewrite encodeBatch_uncompressed in He. cbn [mbind result_bind] in He.
    apply encodeSegmentFrameEnvelope_ok in He as [_ ->].
    rewrite len_frameBytes, len_app, len_put_be, len_concat_items. unfold segmentFrameHeader.
    assert (2 <= len (r1 :: r2 :: rs)) by (unfold len; cbn [length]; lia). lia.
Qed.

Lemma item_le_estimate r rs : r ∈ rs -> Forall segment_record rs -> len (bodyBytes r) + 20 <= estimatedBatchSize rs.
Proof.
  intros Hr Hw. revert Hr. induction Hw as [|r' rs Hr' Hw IH]; intros Hr; [by apply elem_of_nil in Hr|].
  pose proof (items_estimate rs Hw) as He.
  assert (0 <= foldr (fun r n => 4 + len (bodyBytes r) + n) 0 rs) as H0.
  { clear. induction rs as [|r rs IH]; cbn [foldr]; [done|]. pose proof (len_nonneg (bodyBytes r)). lia. }
  pose proof (len_nonneg rs). cbn [estimatedBatchSize foldr]. fold (estimatedBatchSize rs).
  assert (estimatedSegmentFrameSize r' = len (bodyBytes r') + 20) as ->
    by (rewrite len_bodyBytes by done; unfold estimatedSegmentFrameSize, segmentFrameHeader, segmentBatchHeader, segmentBatchItemHeader; lia).
  apply elem_of_cons in Hr as [->|Hr]; [lia|]. pose proof (len_nonneg (bodyBytes r')). specialize (IH Hr). lia.
Qed.

Lemma uncompressed_frame_ok rs :
  Forall segment_record rs -> estimatedBatchSize rs < 2 ^ 32 ->
  exists frame, encodeSegmentBatchFrameWithCompression rs uncompressed = Ok frame.
Proof.
  intros Hw Hs. pose proof (items_estimate rs Hw) as Hest.
  assert (Forall (fun r => is_u32 (len (bodyBytes r))) rs) as Hi.
  { apply Forall_forall. intros r Hr. pose proof (item_le_estimate r rs Hr Hw).
    pose proof (len_nonneg (bodyBytes r)). unfold is_u32. lia. }
  assert (0 <= foldr (fun r n => 4 + len (bodyBytes r) + n) 0 rs) as H0.
  { rewrite <- len_concat_items. apply len_nonneg. }
  pose proof (len_nonneg rs) as Hn.
  assert ((exists r, rs = [r]) \/ ~ exists r, rs = [r]) as [[r ->]|Hr]
    by (destruct rs as [|r1 [|r2 rs]]; [right; naive_solver|left; eauto|right; naive_solver]).
  - exists (frameBytes segmentFrameMagic (bodyBytes r)). cbn [encodeSegmentBatchFrameWithCompression].
    unfold encodeSegmentFrameWithCompression.
    rewrite appendSegmentRecordBody_app, app_nil_l, encode_uncompressed. cbn [mbind result_bind]. apply encodeSegmentFrameEnvelope_ok. split; [|done]. by rewrite Forall_singleton in Hi.
  - exists (frameBytes segmentBatchMagic (put_be 4 (len rs) ++ concat (itemBytes <$> rs))).
    assert (encodeSegmentBatchFrameWithCompression rs uncompressed =
            (count ← segmentIntToU32 (len rs);
             body ← batchItems (put_be 4 count) rs;
             '(magic, payload) ← encodeBatch uncompressed body;
             encodeSegmentFrameEnvelope magic payload)) as ->.
    { destruct rs as [|r1 [|r2 rs]]; [done| |done]. destruct Hr. by exists r1. }
    apply bind_ok. exists (len rs). split; [apply segmentIntToU32_ok; split; [unfold is_u32; lia|done]|].
    apply bind_ok. eexists. split; [by apply batchItems_ok|]. rewrite encodeBatch_uncompressed. cbn [mbind result_bind].
    apply encodeSegmentFrameEnvelope_ok. split; [|done].
    rewrite len_app, len_put_be, len_concat_items. unfold is_u32.
    destruct rs as [|r1 rs]; [cbn; lia|]. assert (1 <= len (r1 :: rs)) by (unfold len; cbn [length]; lia). lia.
Qed.


(** C21: a frame that was written is read back as its records: with and without
    compression, for one record and for a batch. *)
Theorem segment_frame_roundtrip rs c frame :
  Forall segment_record rs -> encodeSegmentBatchFrameWithCompression rs c = Ok frame ->
  decodeSegmentFrameRecords frame = Ok rs.
Proof. intros Hw He. by destruct (encodeSegmentBatchFrame_inv rs c frame He Hw) as (? & ? & _ & _ & _ & Hd). Qed.

(** C22: an uncompressed frame can be written whenever its estimated size is
    below 4 GiB, takes at most that size, and is read back. *)
Theorem estimated_frame_size rs :
  rs <> [] -> Forall segment_record rs -> estimatedBatchSize rs < 2 ^ 32 ->
  exists frame, encodeSegmentBatchFrameWithCompression rs uncompressed = Ok frame /\
    len frame <= estimatedBatchSize rs /\ decodeSegmentFrameRecords frame = Ok rs.
Proof.
  intros Hne Hw Hs. destruct (uncompressed_frame_ok rs Hw Hs) as [frame He]. exists frame.
  split; [done|]. split; [by apply uncompressed_frame_size|].
  by destruct (encodeSegmentBatchFrame_inv rs _ frame He Hw) as (? & ? & _ & _ & _ & Hd).
Qed.

(** *** Damage *)

(** Two byte strings that agree outside the four bytes from [i] on. *)
Definition agree_outside (i : nat) (f g : bytes) : Prop :=
  length f = length g /\ take i f = take i g /\ drop (i + 4) f = drop (i + 4) g.

Lemma split_fields (f : bytes) :
  12 <= len f -> exists m c l body : bytes, f = m ++ c ++ l ++ body /\ len m = 4 /\ len c = 4 /\ len l = 4.
Proof.
  intros Hf. unfold len in *.
  exists (take 4 f), (take 4 (drop 4 f)), (take 4 (drop 8 f)), (drop 12 f).
  rewrite !length_take, !length_drop. split_and!; [|lia..].
  rewrite <- (take_drop 4 f) at 1. f_equal. rewrite <- (take_drop 4 (drop 4 f)) at 1. f_equal.
  rewrite drop_drop. rewrite <- (take_drop 4 (drop (4 + 4) f)) at 1. f_equal. by rewrite drop_drop.
Qed.

Lemma take_app_inj {A} i (a b a' b' : list A) :
  length a = length a' -> (length a <= i)%nat -> take i (a ++ b) = take i (a' ++ b') ->
  a = a' /\ take (i - length a) b = take (i - length a) b'.
Proof.
  intros Hl Hi Heq. rewrite !take_app, <- Hl, (take_ge a), (take_ge a') in Heq by lia.
  by apply (app_inj_1 a a').
Qed.

Lemma drop_app_inj {A} i (a b a' b' : list A) :
  length a = length a' -> (length a <= i)%nat -> drop i (a ++ b) = drop i (a' ++ b') ->
  drop (i - length a) b = drop (i - length a) b'.
Proof. intros Hl Hi Heq. by rewrite !drop_app, <- Hl, (drop_ge a), (drop_ge a') in Heq by lia. Qed.

(** Bodies that agree outside four bytes and have the same checksum are equal. *)
Lemma checksum_damage i body body' :
  length body = length body' -> take i body = take i body' -> drop (i + 4) body = drop (i + 4) body' ->
  ChecksumIEEE body = ChecksumIEEE body' -> body = body'.
Proof.
  intros Hl Ht Hd Hc.
  assert (forall l : bytes, l = take i l ++ take 4 (drop i l) ++ drop (i + 4) l) as Hsplit.
  { intros l. rewrite <- drop_drop, take_drop. by rewrite take_drop. }
  rewrite (Hsplit body), (Hsplit body') in Hc |- *. rewrite Ht, Hd in Hc |- *.
  do 2 f_equal. eapply ChecksumIEEE_window; [..|exact Hc]; rewrite !length_take, !length_drop; lia.
Qed.

Lemma drop_weaken {A} n m (a b : list A) : (n <= m)%nat -> drop n a = drop n b -> drop m a = drop m b.
Proof. intros Hle Heq. replace m with (n + (m - n))%nat by lia. by rewrite <- !drop_drop, Heq. Qed.

(** C9: the checksum and the length are checked before anything is decoded: a
    frame whose bytes after the magic number were damaged within four
    consecutive bytes is refused. *)
Theorem damaged_frame_refused rs c frame frame' i :
  Forall segment_record rs -> encodeSegmentBatchFrameWithCompression rs c = Ok frame ->
  (4 <= i)%nat -> agree_outside i frame frame' -> frame' <> frame ->
  decodeSegmentFrameRecords frame' = Err CodeCodec.
Proof.
  intros Hw He Hi (Hlen & Ht & Hd) Hne.
  destruct (encodeSegmentBatchFrame_inv rs c frame He Hw) as (magic & body & -> & Hs & Hb & _).
  destruct (split_fields frame') as (m & cs & l & body' & -> & Hm & Hcs & Hl).
  { pose proof (len_frameBytes magic body) as Hf. unfold len, segmentFrameHeader in *. lia. }
  unfold frameBytes in *. pose proof (len_put_be 4 magic) as Hm0.
  pose proof (len_put_be 4 (ChecksumIEEE body)) as Hc0. pose proof (len_put_be 4 (len body)) as Hl0.
  assert (get_be (put_be 4 (len body)) = len body) as Hgl by (by apply get_put_be).
  assert (get_be (put_be 4 (ChecksumIEEE body)) = ChecksumIEEE body) as Hgc
    by (apply get_put_be, is_u32_ChecksumIEEE).
  revert Hm0 Hc0 Hl0 Hgl Hgc Hlen Ht Hd Hne. pose proof (get_magic magic Hs) as Hgm. revert Hgm.
  generalize (put_be 4 magic), (put_be 4 (ChecksumIEEE body)), (put_be 4 (len body)).
  intros m0 c0 l0 Hgm Hm0 Hc0 Hl0 Hgl Hgc Hlen Ht Hd Hne.
  assert (length m0 = 4 /\ length m = 4 /\ length c0 = 4 /\ length cs = 4 /\ length l0 = 4 /\ length l = 4)%nat
    as (? & ? & ? & ? & ? & ?) by (unfold len in *; lia).
  apply take_app_inj in Ht as [<- Ht]; [|lia..]. apply drop_app_inj in Hd; [|lia..].
  replace (i + 4 - length m0)%nat with (i - length m0 + 4)%nat in Hd by lia.
  revert Ht Hd. generalize (i - length m0)%nat. intros j Ht Hd.
  rewrite decode_sized by (by rewrite ?Hgm). rewrite !length_app in Hlen.
  destruct (Z.eqb_spec (len body') (get_be l)) as [Hll|]; [|done].
  assert (l0 = l) as <- by (apply get_be_inj; [lia|]; unfold len in *; lia).
  destruct (Z.eqb_spec (ChecksumIEEE body') (get_be cs)) as [Hcc|]; [|done]. exfalso. apply Hne.
  rewrite !(assoc_L (++) _ l0) in Ht, Hd.
  destruct (decide (c0 = cs)) as [<-|Hc].
  - do 3 f_equal. symmetry. apply (checksum_damage (j - 8)); [lia| | |congruence].
    + destruct (decide (8 <= j)%nat); [|by replace (j - 8)%nat with 0%nat by lia].
      apply take_app_inj in Ht as [_ Ht]; [|rewrite ?length_app; lia..].
      by replace (j - length (c0 ++ l0))%nat with (j - 8)%nat in Ht by (rewrite length_app; lia).
    + apply (drop_weaken _ (8 + (j - 8 + 4))) in Hd; [|lia].
      apply drop_app_inj in Hd; [|rewrite ?length_app; lia..].
      by replace (8 + (j - 8 + 4) - length (c0 ++ l0))%nat with (j - 8 + 4)%nat in Hd by (rewrite length_app; lia).
  - assert (j < 4)%nat as Hj.
    { destruct (decide (4 <= j)%nat); [|lia]. rewrite <- !(assoc_L (++)) in Ht.
      apply take_app_inj in Ht as [? _]; [done|lia..]. }
    apply (drop_weaken _ 8) in Hd; [|lia]. apply drop_app_inj in Hd; [|rewrite ?length_app; lia..].
    rewrite !length_app in Hd. replace (8 - (length c0 + length l0))%nat with 0%nat in Hd by lia.
    rewrite !drop_0 in Hd. subst body'. destruct Hc. apply get_be_inj; [lia|congruence].
Qed.

End FrameTheorems.

(** ** Witnesses *)

(** A compression that stores the bytes as they are. *)
Definition ex_zstd : Zstd.
Proof. refine {| EncodeAll := fun b => b; DecodeAll := Some |}. done. Defined.

Definition ex_zstd_compression : segmentFrameCompression := mkSegmentFrameCompression SegmentCompressionZstd true.

Definition ex_segment_records : list Rec := [
  mkRec 7 5 [Byte.x61] [] 0 None None [Byte.x01];
  mkRec 8 6 [] [] 3 None (Some 9) []].

Lemma ex_segment_records_ok : Forall segment_record ex_segment_records.
Proof. repeat (constructor; [split_and!; try done; constructor|]). constructor. Qed.

Definition ex_segment_frame : bytes :=
  match @encodeSegmentBatchFrameWithCompression ex_zstd ex_segment_records ex_zstd_compression with Ok f => f | Err _ => [] end.

(** One byte of the body changed. *)
Definition ex_damaged_frame : bytes := <[20%nat := Byte.xff]> ex_segment_frame.

Lemma segment_frame_roundtrip_witness :
  @decodeSegmentFrameRecords ex_zstd ex_segment_frame = Ok ex_segment_records.
Proof.
  apply (@segment_frame_roundtrip ex_zstd ex_segment_records ex_zstd_compression); [exact ex_segment_records_ok|by vm_compute].
Defined.

Lemma estimated_frame_size_witness :
  exists frame, @encodeSegmentBatchFrameWithCompression ex_zstd ex_segment_records uncompressed = Ok frame /\
    len frame <= estimatedBatchSize ex_segment_records /\ @decodeSegmentFrameRecords ex_zstd frame = Ok ex_segment_records.
Proof.
  apply (@estimated_frame_size ex_zstd ex_segment_records); [done|exact ex_segment_records_ok|by vm_compute].
Defined.

Lemma damaged_frame_refused_witness :
  @decodeSegmentFrameRecords ex_zstd ex_damaged_frame = Err CodeCodec.
Proof.
  apply (@damaged_frame_refused ex_zstd ex_segment_records ex_zstd_compression ex_segment_frame ex_damaged_frame 18).
  - exact ex_segment_records_ok.
  - by vm_compute.
  - lia.
  - split_and!; by vm_compute.
  - by vm_compute.
Defined.
