(* ===== verification/SegmentIndex.v ===== *)
(** * The segment file format: pointers and index files

    [src/store/segment_index_codec.go], the pointer functions of
    [segment_memory_index.go], [segment_timestamp_index.go] and
    [segment_key_index.go], the frame walk of [segment_index_rebuild.go] and
    the pointer reads of [segment_frame.go].

    An index file is a sequence of length-prefixed entries, each of which
    says where a record is or that it was deleted.  An [io.Reader] over a
    file is the bytes that are left of it; [io.ReadFull] tells an empty input
    ([io.EOF]) from a short one, and a wrapped [io.EOF] still is one for
    [errors.Is].  Errors carry the code that [ErrorCode] gives them.  [int]
    sums of lengths and positions of files stay far below [2^63] and are not
    wrapped, except where the code tests for it ([mappedSegmentSpan]). *)

From stdpp Require Import prelude gmap strings sorting list.
From S2P Require Import Prelude Wire Model MemoryStore SegmentFrame.

#[local] Open Scope Z_scope.

(** ** Pointers and entries *)

Record segmentRecordPointer := mkPointer {
  srp_Topic : string;
  srp_Partition : Z;
  srp_Offset : Z;
  srp_SegmentID : Z;
  srp_Position : Z;
  srp_Length : Z;
  srp_TimestampMS : Z;
  srp_Attributes : Z
}.

#[global] Instance segmentRecordPointer_eq_dec : EqDecision segmentRecordPointer.
Proof. solve_decision. Defined.

Definition srp_tp (p : segmentRecordPointer) : TopicPartition := NewTopicPartition (srp_Topic p) (srp_Partition p).

Record segmentIndexEntry := mkIndexEntry { sie_Pointer : segmentRecordPointer; sie_Deleted : bool }.

Definition segmentIndexEntryMagic : Z := 0x45534931.
Definition segmentIndexEntryDeleteFlag : Z := Z.shiftl 1 0.
Definition segmentIndexEntryHeaderBytes : nat := 4.

(** ** The codec of entries *)

Definition encodeSegmentIndexEntry (entry : segmentIndexEntry) : result Code bytes :=
  let pointer := sie_Pointer entry in
  if srp_Position pointer <? 0 then Err CodeCodec
  else if srp_Length pointer <? 0 then Err CodeCodec
  else
    let topicLen := slen (srp_Topic pointer) in
    if 2 ^ 32 - 1 <? topicLen then Err CodeCodec
    else
      let flags := if sie_Deleted entry then Z.lor 0 segmentIndexEntryDeleteFlag else 0 in
      let out := put_be 4 segmentIndexEntryMagic in
      let out := out ++ put_be 2 flags in
      let out := out ++ put_be 4 (u32 topicLen) in
      let out := out ++ String.list_byte_of_string (srp_Topic pointer) in
      let out := out ++ put_be 4 (srp_Partition pointer) in
      let out := out ++ put_be 8 (srp_Offset pointer) in
      let out := out ++ put_be 8 (srp_SegmentID pointer) in
      let out := out ++ put_be 8 (u64 (srp_Position pointer)) in
      let out := out ++ put_be 8 (u64 (srp_Length pointer)) in
      let out := out ++ put_be 8 (srp_TimestampMS pointer) in
      let out := out ++ put_be 2 (srp_Attributes pointer) in
      Ok out.

(** [segmentIndexEntryDecoder]; its fixed-width reads are those of
    [segmentRecordDecoder]. *)
Definition expectMagic : ME Code unit :=
  magic ← readU32;
  if negb (magic =? segmentIndexEntryMagic) then fail CodeCodec else mret tt.

Definition readString (length : Z) : ME Code string :=
  raw ← readFixed length; mret (String.string_of_list_byte raw).

Definition readTopic : ME Code string := topicLen ← readU32; readString topicLen.

Definition readI64 : ME Code Z :=
  raw ← readU64; if 2 ^ 63 - 1 <? raw then fail CodeCodec else mret raw.

(** [segmentIndexEntryDecoder.readInt]; [math.MaxInt] is [2^63 - 1]. *)
Definition readInt : ME Code Z :=
  raw ← readU64; if 2 ^ 63 - 1 <? raw then fail CodeCodec else mret raw.

Definition readPointerTail (topic : string) (partition offset : Z) : ME Code segmentRecordPointer :=
  segmentID ← readU64;
  position ← readI64;
  length ← readInt;
  timestampMS ← readU64;
  attributes ← readU16;
  mret (mkPointer topic partition offset segmentID position length timestampMS attributes).

Definition readPointerFields (topic : string) : ME Code segmentRecordPointer :=
  partition ← readU32;
  offset ← readU64;
  readPointerTail topic partition offset.

Definition indexEntryBody : ME Code segmentIndexEntry :=
  expectMagic;;
  flags ← readU16;
  topic ← readTopic;
  pointer ← readPointerFields topic;
  left ← unread;
  if negb (remaining left =? 0) then fail CodeCodec
  else mret (mkIndexEntry pointer (negb (Z.land flags segmentIndexEntryDeleteFlag =? 0))).

Definition decodeSegmentIndexEntry (data : bytes) : result Code segmentIndexEntry :=
  '(entry, _) ← indexEntryBody data; Ok entry.

Fixpoint encodeEntriesLoop (out : bytes) (entries : list segmentIndexEntry) : result Code bytes :=
  match entries with
  | [] => Ok out
  | entry :: entries =>
      payload ← encodeSegmentIndexEntry entry;
      if 2 ^ 32 - 1 <? len payload then Err CodeCodec
      else encodeEntriesLoop (out ++ drop 4 (put_be 8 (len payload)) ++ payload) entries
  end.

Definition encodeSegmentIndexEntries (entries : list segmentIndexEntry) : result Code bytes :=
  encodeEntriesLoop [] entries.

(** *** Reading an index file *)

(** An error is an [io.EOF] or another one with its code. *)
Inductive readError := EOF | Failed (code : Code).

(** [io.ReadFull] on a reader. *)
Definition ioReadFull (n : nat) (reader : bytes) : result readError (bytes * bytes) :=
  if (n <=? length reader)%nat then Ok (take n reader, drop n reader)
  else match reader with [] => Err EOF | _ => Err (Failed CodeUnavailable) end.

Definition ofCode {A} (r : result Code A) : result readError A :=
  match r with Ok a => Ok a | Err e => Err (Failed e) end.

(** Both reads wrap their errors; [errors.Is] sees the [io.EOF] in them. *)
Definition readSegmentIndexEntry (reader : bytes) : result readError (segmentIndexEntry * bytes) :=
  '(rawLength, reader) ← ioReadFull segmentIndexEntryHeaderBytes reader;
  let length := get_be rawLength in
  if length =? 0 then Err (Failed CodeCodec)
  else
    '(payload, reader) ← ioReadFull (Z.to_nat length) reader;
    entry ← ofCode (decodeSegmentIndexEntry payload);
    Ok (entry, reader).

(** Every entry takes at least one byte, so the length of the file is enough fuel. *)
Fixpoint readEntriesLoop (fuel : nat) (entries : list segmentIndexEntry) (reader : bytes)
    : result Code (list segmentIndexEntry) :=
  match fuel with
  | O => Err CodeUnavailable
  | S fuel =>
      match readSegmentIndexEntry reader with
      | Err EOF => Ok entries
      | Err (Failed code) => Err code
      | Ok (entry, reader) => readEntriesLoop fuel (entries ++ [entry]) reader
      end
  end.

Definition readSegmentIndexEntries (reader : bytes) : result Code (list segmentIndexEntry) :=
  readEntriesLoop (S (length reader)) [] reader.

(** ** Searching and ordering pointers *)

(** [sort.Search]: bisection for the least index that satisfies [f].  The
    range halves, so its size is enough fuel. *)
Fixpoint searchLoop (fuel i j : nat) (f : nat -> bool) : nat :=
  match fuel with
  | O => i
  | S fuel =>
      if (i <? j)%nat then
        let h := ((i + j) / 2)%nat in
        if negb (f h) then searchLoop fuel (S h) j f else searchLoop fuel i h f
      else i
  end.

Definition Search (n : nat) (f : nat -> bool) : nat := searchLoop (S n) 0 n f.

(** [f(pointers[index])] inside a search. *)
Definition at_index (pointers : list segmentRecordPointer) (f : segmentRecordPointer -> bool) (index : nat) : bool :=
  match pointers !! index with Some p => f p | None => true end.

Definition segmentPointerSearch (pointers : list segmentRecordPointer) (offset : Z) : nat :=
  Search (length pointers) (at_index pointers (fun p => offset <=? srp_Offset p)).

Definition segmentTimestampSearch (pointers : list segmentRecordPointer) (timestampMS : Z) : nat :=
  Search (length pointers) (at_index pointers (fun p => timestampMS <=? srp_TimestampMS p)).

(** The end of both sorted insertions: append, replace or shift. *)
Definition insertAt (same : segmentRecordPointer -> bool) (index : nat)
    (pointers : list segmentRecordPointer) (pointer : segmentRecordPointer) : list segmentRecordPointer :=
  match pointers !! index with
  | None => pointers ++ [pointer]
  | Some found =>
      if same found then <[index := pointer]> pointers
      else take index pointers ++ [pointer] ++ drop index pointers
  end.

Definition appendSegmentPointerSorted (pointers : list segmentRecordPointer) (pointer : segmentRecordPointer)
    : list segmentRecordPointer :=
  insertAt (fun found => srp_Offset found =? srp_Offset pointer)
    (segmentPointerSearch pointers (srp_Offset pointer)) pointers pointer.

Definition insertSegmentTimestampPointerSorted (pointers : list segmentRecordPointer)
    (pointer : segmentRecordPointer) : list segmentRecordPointer :=
  let index := Search (length pointers) (at_index pointers (fun p =>
    if negb (srp_TimestampMS p =? srp_TimestampMS pointer) then srp_TimestampMS pointer <=? srp_TimestampMS p
    else srp_Offset pointer <=? srp_Offset p)) in
  insertAt (fun found => (srp_TimestampMS found =? srp_TimestampMS pointer) &&
                         (srp_Offset found =? srp_Offset pointer)) index pointers pointer.

Definition comparePointerOffset (left right : segmentRecordPointer) : comparison :=
  Z.compare (srp_Offset left) (srp_Offset right).

Definition comparePointerTimestamp (left right : segmentRecordPointer) : comparison :=
  thenCmp (Z.compare (srp_TimestampMS left) (srp_TimestampMS right))
          (Z.compare (srp_Offset left) (srp_Offset right)).

Definition sortSegmentPointers (pointers : list segmentRecordPointer) : list segmentRecordPointer :=
  sort_func comparePointerOffset pointers.

Definition sortSegmentPointersByTimestamp (pointers : list segmentRecordPointer) : list segmentRecordPointer :=
  sort_func comparePointerTimestamp pointers.

Definition nextOffsetFromPointers (pointers : list segmentRecordPointer) : Z :=
  foldl (fun next pointer => if next <=? srp_Offset pointer then u64 (srp_Offset pointer + 1) else next) 0 pointers.

Definition segmentPointerOffsets (pointers : list segmentRecordPointer) : list Z := srp_Offset <$> pointers.

(** ** The key index ([segment_key_index.go]) *)

Abbreviation KeyPointers := (gmap string segmentRecordPointer).

(** [string(record.Key)] *)
Definition recordKey (record : Rec) : string := String.string_of_list_byte (r_Key record).

Definition appendKeyPointersByOffset (records : list Rec) (pointers : list segmentRecordPointer)
    (keyPointers : KeyPointers) : KeyPointers :=
  let byOffset : gmap Z segmentRecordPointer :=
    foldl (fun byOffset pointer => <[srp_Offset pointer := pointer]> byOffset) ∅ pointers in
  foldl (fun keyPointers record =>
           if len (r_Key record) =? 0 then keyPointers
           else match byOffset !! r_Offset record with
                | Some pointer => <[recordKey record := pointer]> keyPointers
                | None => keyPointers
                end) keyPointers records.

(** The loop of [appendAlignedKeyPointers]: [all] and [allPointers] are the
    arguments of the function, which it falls back on. *)
Fixpoint alignedLoop (all : list Rec) (allPointers : list segmentRecordPointer)
    (records : list Rec) (pointers : list segmentRecordPointer) (keyPointers : KeyPointers) : KeyPointers :=
  match records, pointers with
  | record :: records, pointer :: pointers =>
      if len (r_Key record) =? 0 then alignedLoop all allPointers records pointers keyPointers
      else if negb (srp_Offset pointer =? r_Offset record) then appendKeyPointersByOffset all allPointers keyPointers
      else alignedLoop all allPointers records pointers (<[recordKey record := pointer]> keyPointers)
  | _, _ => keyPointers
  end.

Definition appendAlignedKeyPointers (records : list Rec) (pointers : list segmentRecordPointer)
    (keyPointers : KeyPointers) : KeyPointers :=
  alignedLoop records pointers records pointers keyPointers.

Definition appendKeyPointers (records : list Rec) (pointers : list segmentRecordPointer)
    (keyPointers : KeyPointers) : KeyPointers :=
  if len records =? len pointers then appendAlignedKeyPointers records pointers keyPointers
  else appendKeyPointersByOffset records pointers keyPointers.

Definition latestKeyPointersFromRecords (records : list Rec) (pointers : list segmentRecordPointer) : KeyPointers :=
  appendKeyPointers records pointers ∅.

Definition keyPointerOffsets (keyPointers : KeyPointers) : gmap string Z := srp_Offset <$> keyPointers.

(** [segmentKeyPointer] *)
Definition segmentKeyPointer (keyPointers : KeyPointers) (key : bytes) : option segmentRecordPointer :=
  keyPointers !! String.string_of_list_byte key.

(** ** Reading records through pointers ([segment_frame.go]) *)

(** [file.ReadAt] of a whole buffer; an empty buffer is always read. *)
Definition readSegmentFrameAt (file : bytes) (length position : Z) : result Code bytes :=
  if position <? 0 then Err CodeUnavailable
  else if (0 <? length) && (len file <? position + length) then Err CodeUnavailable
  else Ok (slice file position (position + length)).

(** [int64] addition *)
Definition i64 (z : Z) : Z := (z + 2 ^ 63) mod 2 ^ 64 - 2 ^ 63.

Definition mappedSegmentSpan (data : bytes) (position length : Z) : result Code bytes :=
  if position <? 0 then Err CodeCodec
  else if length <? segmentFrameLegacyHeader then Err CodeCodec
  else
    let start := position in
    let stop := i64 (position + length) in
    if (stop <? start) || (len data <? stop) then Err CodeCodec else Ok (slice data start stop).

Definition findSegmentPointerRecord (pointer : segmentRecordPointer) (records : list Rec) : result Code Rec :=
  match list_find (fun record => r_Offset record = srp_Offset pointer) records with
  | Some (_, record) => Ok record
  | None => Err CodeCodec
  end.

Definition segmentFrameReadKey : Type := Z * Z.
Definition newSegmentFrameReadKey (pointer : segmentRecordPointer) : segmentFrameReadKey :=
  (srp_Position pointer, srp_Length pointer).

Record segmentFrameRecordCache := mkCache {
  cache_key : segmentFrameReadKey;
  cache_loaded : bool;
  cache_records : list Rec;
  cache_next : nat
}.

Section Reading.
Context (load : segmentRecordPointer -> result Code (list Rec)).

Definition cacheFill (c : segmentFrameRecordCache) (pointer : segmentRecordPointer)
    : result Code segmentFrameRecordCache :=
  let key := newSegmentFrameReadKey pointer in
  if negb (cache_loaded c) || negb (bool_decide (key = cache_key c)) then
    records ← load pointer; Ok (mkCache key true records 0)
  else Ok c.

(** [segmentFrameRecordCache.record] *)
Definition cacheRecord (c : segmentFrameRecordCache) (pointer : segmentRecordPointer)
    : result Code (Rec * segmentFrameRecordCache) :=
  c ← cacheFill c pointer;
  match cache_records c !! cache_next c with
  | Some record =>
      if r_Offset record =? srp_Offset pointer
      then Ok (record, mkCache (cache_key c) (cache_loaded c) (cache_records c) (S (cache_next c)))
      else record ← findSegmentPointerRecord pointer (cache_records c); Ok (record, c)
  | None => record ← findSegmentPointerRecord pointer (cache_records c); Ok (record, c)
  end.

Fixpoint pointerRecordsLoop (c : segmentFrameRecordCache) (pointers : list segmentRecordPointer)
    : result Code (list Rec) :=
  match pointers with
  | [] => Ok []
  | pointer :: pointers =>
      '(record, c) ← cacheRecord c pointer;
      records ← pointerRecordsLoop c pointers;
      Ok (record :: records)
  end.

Definition readSegmentPointerRecords (pointers : list segmentRecordPointer) : result Code (list Rec) :=
  pointerRecordsLoop (mkCache (0, 0) false [] 0) pointers.

End Reading.

Section Files.
Context `{Zstd}.

Definition readSegmentRecords (file : bytes) (pointers : list segmentRecordPointer) : result Code (list Rec) :=
  readSegmentPointerRecords (fun pointer =>
    frameData ← readSegmentFrameAt file (srp_Length pointer) (srp_Position pointer);
    decodeSegmentFrameRecords frameData) pointers.

Definition readMappedSegmentRecords (data : bytes) (pointers : list segmentRecordPointer) : result Code (list Rec) :=
  readSegmentPointerRecords (fun pointer =>
    frameData ← mappedSegmentSpan data (srp_Position pointer) (srp_Length pointer);
    decodeSegmentFrameRecords frameData) pointers.

(** ** Rebuilding an index from its segment ([segment_index_rebuild.go]) *)

Definition nextSelfDescribingSegmentFrame (data : bytes) (position : Z) : result Code (bytes * Z) :=
  if len data - position <? segmentFrameHeader then Err CodeCodec
  else
    let magic := get_be (slice data position (position + 4)) in
    if negb (validSegmentFrameMagic magic) then Err CodeCodec
    else if negb (sizedSegmentFrameMagic magic) then Err CodeCodec
    else
      let bodyLen := get_be (slice data (position + 8) (position + 12)) in
      bodyLength ← segmentU32ToInt bodyLen;
      let length := segmentFrameHeader + bodyLength in
      if len data - position <? length then Err CodeCodec
      else
        let nextPosition := position + length in
        Ok (slice data position nextPosition, nextPosition).

Definition nonNegativeIntToInt64 (value : Z) : result Code Z :=
  if value <? 0 then Err CodeCodec else Ok value.

(** A frame takes at least twelve bytes, so the length of the file is enough fuel. *)
Fixpoint rebuildLoop (fuel : nat) (tp : TopicPartition) (segmentID : Z) (data : bytes) (position : Z)
    (pointers : list segmentRecordPointer) : result Code (list segmentRecordPointer) :=
  match fuel with
  | O => Err CodeUnavailable
  | S fuel =>
      if position <? len data then
        '(frame, nextPosition) ← nextSelfDescribingSegmentFrame data position;
        framePosition ← nonNegativeIntToInt64 position;
        records ← decodeSegmentFrameRecords frame;
        let added := (fun record => {|
          srp_Topic := tp_Topic tp; srp_Partition := tp_Partition tp; srp_Offset := r_Offset record;
          srp_SegmentID := segmentID; srp_Position := framePosition; srp_Length := len frame;
          srp_TimestampMS := r_TimestampMS record; srp_Attributes := r_Attributes record |}) <$> records in
        rebuildLoop fuel tp segmentID data nextPosition (pointers ++ added)
      else Ok pointers
  end.

Definition rebuildSegmentPointers (tp : TopicPartition) (segmentID : Z) (data : bytes)
    : result Code (list segmentRecordPointer) :=
  rebuildLoop (S (length data)) tp segmentID data 0 [].

End Files.
