(* ===== verification/SegmentIndexSpec.v ===== *)
(** * The segment file format: index files, searches and pointer reads

    Entries and index files are read back as they were written
    ([index_file_roundtrip]); bisection finds the boundary in a sorted list;
    the read that keeps the last decoded frame returns what reading each
    pointer on its own does ([cached_read_equivalent]); and the walk over a
    segment's frames rebuilds exactly the pointers of the records appended to
    it ([rebuild_recovers_pointers]). *)

From stdpp Require Import prelude gmap strings sorting list.
From S2P Require Import Prelude Wire WireSpec Model MemoryStore SegmentFrame SegmentFrameSpec SegmentIndex.

#[local] Open Scope Z_scope.

(** ** Entries *)

Definition is_int (z : Z) : Prop := 0 <= z < 2 ^ 63.

Definition segment_pointer (p : segmentRecordPointer) : Prop :=
  slen (srp_Topic p) < 2 ^ 31 /\ is_u32 (srp_Partition p) /\ is_u64 (srp_Offset p) /\ is_u64 (srp_SegmentID p) /\
  is_int (srp_Position p) /\ is_int (srp_Length p) /\ is_u64 (srp_TimestampMS p) /\ is_u16 (srp_Attributes p).

Definition flagsOf (deleted : bool) : Z := if deleted then 1 else 0.

Definition entryBytes (e : segmentIndexEntry) : bytes :=
  let p := sie_Pointer e in
  put_be 4 segmentIndexEntryMagic ++ put_be 2 (flagsOf (sie_Deleted e)) ++
  (put_be 4 (slen (srp_Topic p)) ++ String.list_byte_of_string (srp_Topic p)) ++
  put_be 4 (srp_Partition p) ++ put_be 8 (srp_Offset p) ++ put_be 8 (srp_SegmentID p) ++
  put_be 8 (srp_Position p) ++ put_be 8 (srp_Length p) ++ put_be 8 (srp_TimestampMS p) ++
  put_be 2 (srp_Attributes p).

Lemma encodeSegmentIndexEntry_ok e :
  segment_pointer (sie_Pointer e) -> encodeSegmentIndexEntry e = Ok (entryBytes e).
Proof.
  intros (Ht & _ & _ & _ & Hp & Hl & _). unfold encodeSegmentIndexEntry, is_int in *.
  destruct (Z.ltb_spec (srp_Position (sie_Pointer e)) 0); [lia|].
  destruct (Z.ltb_spec (srp_Length (sie_Pointer e)) 0); [lia|].
  destruct (Z.ltb_spec (2 ^ 32 - 1) (slen (srp_Topic (sie_Pointer e)))); [lia|].
  assert (0 <= slen (srp_Topic (sie_Pointer e))) by (unfold slen; lia).
  rewrite !u64_small, u32_small by (unfold is_u64, is_u32; lia).
  unfold entryBytes. rewrite <- !(assoc_L (++)). by destruct (sie_Deleted e).
Qed.

Lemma len_entryBytes e : len (entryBytes e) = 56 + slen (srp_Topic (sie_Pointer e)).
Proof. unfold entryBytes. rewrite !len_app, !len_put_be, <- slen_bytes. lia. Qed.

Lemma reads_i64 v : is_int v -> reads (put_be 8 v) readI64 v.
Proof.
  intros Hv. unfold is_int in Hv. unfold readI64. rewrite <- (app_nil_r (put_be 8 v)).
  eapply reads_bind; [apply reads_u64; unfold is_u64; lia|].
  destruct (Z.ltb_spec (2 ^ 63 - 1) v); [lia|]. apply reads_ret.
Qed.

Lemma reads_index_int v : is_int v -> reads (put_be 8 v) SegmentIndex.readInt v.
Proof. apply reads_i64. Qed.

Lemma reads_topic s : slen s < 2 ^ 31 -> reads (put_be 4 (slen s) ++ String.list_byte_of_string s) readTopic s.
Proof.
  intros Hs. eapply reads_bind; [apply reads_u32; unfold is_u32, slen in *; lia|].
  rewrite <- (String.string_of_list_byte_of_string s) at 3.
  apply (reads_last _ (readFixed (slen s)) String.string_of_list_byte), reads_fixed.
  by rewrite <- slen_bytes.
Qed.

Lemma decodeSegmentIndexEntry_bytes e :
  segment_pointer (sie_Pointer e) -> decodeSegmentIndexEntry (entryBytes e) = Ok e.
Proof.
  intros (Ht & Hpt & Ho & Hs & Hp & Hl & Hts & Ha). unfold decodeSegmentIndexEntry.
  destruct e as [p d]; simpl sie_Pointer in *; simpl sie_Deleted in *.
  enough (indexEntryBody (entryBytes (mkIndexEntry p d)) = Ok (mkIndexEntry p d, [])) as Hb by (by rewrite Hb).
  assert (reads (put_be 4 segmentIndexEntryMagic) expectMagic tt) as Hmagic.
  { rewrite <- (app_nil_r (put_be 4 _)). eapply reads_bind; [by apply reads_u32|]. apply reads_ret. }
  assert (reads (put_be 4 (srp_Partition p) ++ put_be 8 (srp_Offset p) ++ put_be 8 (srp_SegmentID p) ++
                 put_be 8 (srp_Position p) ++ put_be 8 (srp_Length p) ++ put_be 8 (srp_TimestampMS p) ++
                 put_be 2 (srp_Attributes p)) (readPointerFields (srp_Topic p)) p) as Hfields.
  { eapply reads_bind; [by apply reads_u32|]. eapply reads_bind; [by apply reads_u64|].
    eapply reads_bind; [by apply reads_u64|]. eapply reads_bind; [by apply reads_i64|].
    eapply reads_bind; [by apply reads_index_int|]. eapply reads_bind; [by apply reads_u64|].
    destruct p as [t pt o s ps l ts a]. simpl in *.
    by apply (reads_last _ readU16 (mkPointer t pt o s ps l ts)), reads_u16. }
  unfold indexEntryBody, entryBytes, mbind, M_bind. simpl sie_Pointer. simpl sie_Deleted.
  rewrite Hmagic, reads_u16 by (by destruct d).
  rewrite reads_topic by done. rewrite <- (app_nil_r (put_be 4 (srp_Partition p) ++ _)), Hfields.
  cbn. by destruct d.
Qed.

(** ** Index files *)

Definition entryFrame (e : segmentIndexEntry) : bytes := put_be 4 (len (entryBytes e)) ++ entryBytes e.
Definition indexBytes (es : list segmentIndexEntry) : bytes := concat (entryFrame <$> es).

Lemma indexBytes_app es1 es2 : indexBytes (es1 ++ es2) = indexBytes es1 ++ indexBytes es2.
Proof. unfold indexBytes. by rewrite fmap_app, concat_app. Qed.

Lemma indexBytes_cons e es : indexBytes (e :: es) = entryFrame e ++ indexBytes es.
Proof. done. Qed.

Lemma entry_len e : segment_pointer (sie_Pointer e) -> 0 < len (entryBytes e) < 2 ^ 32.
Proof. intros (Ht & _). rewrite len_entryBytes. unfold slen in *. lia. Qed.

Definition indexable (e : segmentIndexEntry) : Prop := segment_pointer (sie_Pointer e).

Lemma encodeEntriesLoop_ok out es : Forall indexable es -> encodeEntriesLoop out es = Ok (out ++ indexBytes es).
Proof.
  intros Hw. revert out. induction Hw as [|e es He _ IH]; intros out; cbn [encodeEntriesLoop].
  { unfold indexBytes. simpl. by rewrite app_nil_r. }
  rewrite encodeSegmentIndexEntry_ok by done. cbn [mbind result_bind].
  pose proof (entry_len e He). destruct (Z.ltb_spec (2 ^ 32 - 1) (len (entryBytes e))); [lia|].
  rewrite IH. change (drop 4 (put_be 8 (len (entryBytes e)))) with (put_be 4 (len (entryBytes e))).
  rewrite indexBytes_cons. unfold entryFrame. by rewrite <- !(assoc_L (++)).
Qed.

Lemma encodeSegmentIndexEntries_ok es :
  Forall indexable es -> encodeSegmentIndexEntries es = Ok (indexBytes es).
Proof. apply (encodeEntriesLoop_ok []). Qed.

Lemma ioReadFull_app n bs rest : length bs = n -> ioReadFull n (bs ++ rest) = Ok (bs, rest).
Proof.
  intros <-. unfold ioReadFull. rewrite length_app.
  destruct (Nat.leb_spec (length bs) (length bs + length rest)); [|lia].
  by rewrite take_app_length, drop_app_length.
Qed.

Lemma readSegmentIndexEntry_frame e rest :
  indexable e -> readSegmentIndexEntry (entryFrame e ++ rest) = Ok (e, rest).
Proof.
  intros He. unfold readSegmentIndexEntry, entryFrame. rewrite <- (assoc_L (++)).
  rewrite ioReadFull_app by apply length_put_be. cbn [mbind result_bind]. pose proof (entry_len e He) as Hl.
  rewrite get_put_be by (change (256 ^ Z.of_nat 4) with (2 ^ 32); lia).
  destruct (Z.eqb_spec (len (entryBytes e)) 0); [lia|].
  rewrite ioReadFull_app by (unfold len; lia). cbn [mbind result_bind].
  by rewrite decodeSegmentIndexEntry_bytes.
Qed.

Lemma readEntriesLoop_app fuel acc es rest :
  Forall indexable es ->
  readEntriesLoop (length es + fuel) acc (indexBytes es ++ rest) = readEntriesLoop fuel (acc ++ es) rest.
Proof.
  intros Hw. revert acc. induction Hw as [|e es He _ IH]; intros acc; cbn [length Nat.add readEntriesLoop].
  { unfold indexBytes. simpl. by rewrite app_nil_r. }
  rewrite indexBytes_cons, <- (assoc_L (++)), readSegmentIndexEntry_frame by done.
  rewrite IH, <- (assoc_L (++)). done.
Qed.

Lemma length_indexBytes es : Forall indexable es -> (length es <= length (indexBytes es))%nat.
Proof.
  induction 1 as [|e es He _ IH]; [done|].
  rewrite indexBytes_cons, length_app. unfold entryFrame. rewrite length_app, length_put_be. simpl length. lia.
Qed.

Lemma read_index es : Forall indexable es -> readSegmentIndexEntries (indexBytes es) = Ok es.
Proof.
  intros Hw. unfold readSegmentIndexEntries. pose proof (length_indexBytes es Hw) as Hl.
  rewrite <- (app_nil_r (indexBytes es)) at 2.
  replace (S (length (indexBytes es))) with (length es + S (length (indexBytes es) - length es))%nat by lia.
  by rewrite readEntriesLoop_app.
Qed.

(** An index file is written by appends: each adds the entries it is given,
    and the file is read back as all of them in order. *)
Theorem index_file_roundtrip es1 es2 b1 b2 :
  Forall indexable (es1 ++ es2) ->
  encodeSegmentIndexEntries es1 = Ok b1 -> encodeSegmentIndexEntries es2 = Ok b2 ->
  readSegmentIndexEntries (b1 ++ b2) = Ok (es1 ++ es2).
Proof.
  intros Hw H1 H2. pose proof Hw as [Hw1 Hw2]%Forall_app.
  rewrite encodeSegmentIndexEntries_ok in H1 by done. injection H1 as <-.
  rewrite encodeSegmentIndexEntries_ok in H2 by done. injection H2 as <-.
  rewrite <- indexBytes_app. by apply read_index.
Qed.

(** ** Bisection *)

Lemma searchLoop_split fuel n f k i j :
  (forall x, (x < k)%nat -> f x = false) -> (forall x, (k <= x < n)%nat -> f x = true) ->
  (i <= k <= j)%nat -> (j <= n)%nat -> (j - i < fuel)%nat -> searchLoop fuel i j f = k.
Proof.
  intros Hlo Hhi. revert i j. induction fuel as [|fuel IH]; intros i j Hk Hj Hf; [lia|]. cbn [searchLoop].
  destruct (Nat.ltb_spec i j) as [Hij|]; [|lia].
  assert (i <= (i + j) / 2 < j)%nat as Hh
    by (split; [apply Nat.div_le_lower_bound|apply Nat.Div0.div_lt_upper_bound]; lia).
  destruct (f ((i + j) / 2)%nat) eqn:E; cbn [negb].
  - apply IH; try lia. split; [lia|]. destruct (decide (k <= (i + j) / 2)%nat); [done|].
    rewrite Hlo in E by lia. done.
  - apply IH; try lia. split; [|lia]. destruct (decide ((i + j) / 2 < k)%nat); [lia|].
    rewrite Hhi in E by lia. done.
Qed.

(** The boundary between the elements that do not satisfy [g] and those that do. *)
Lemma Search_split g l1 l2 :
  Forall (fun p => g p = false) l1 -> Forall (fun p => g p = true) l2 ->
  Search (length (l1 ++ l2)) (at_index (l1 ++ l2) g) = length l1.
Proof.
  intros H1 H2. unfold Search. apply searchLoop_split with (n := length (l1 ++ l2)); rewrite ?length_app; try lia.
  - intros x Hx. unfold at_index. rewrite lookup_app_l by done.
    destruct (lookup_lt_is_Some_2 l1 x Hx) as [p Hp]. rewrite Hp. by eapply Forall_lookup_1 in H1.
  - intros x Hx. unfold at_index. rewrite lookup_app_r by lia.
    destruct (l2 !! (x - length l1)%nat) as [p|] eqn:Hp; [|done]. by eapply Forall_lookup_1 in H2.
Qed.

Lemma segmentPointerSearch_split l1 l2 offset :
  Forall (fun p => srp_Offset p < offset) l1 -> Forall (fun p => offset <= srp_Offset p) l2 ->
  segmentPointerSearch (l1 ++ l2) offset = length l1.
Proof.
  intros H1 H2. apply Search_split; eapply Forall_impl; [exact H1|cbv beta; lia|exact H2|cbv beta; lia].
Qed.

(** ** Reads through the frame cache *)

Definition readOne (load : segmentRecordPointer -> result Code (list Rec)) (p : segmentRecordPointer)
    : result Code Rec :=
  records ← load p; findSegmentPointerRecord p records.

Lemma find_nodup p rs i r :
  NoDup (r_Offset <$> rs) -> rs !! i = Some r -> r_Offset r = srp_Offset p ->
  findSegmentPointerRecord p rs = Ok r.
Proof.
  intros Hnd Hi Ho. unfold findSegmentPointerRecord.
  destruct (list_find _ rs) as [[j r']|] eqn:E.
  - apply list_find_Some in E as (Hj & Ho' & _). do 2 f_equal.
    enough (i = j) as -> by congruence.
    eapply (NoDup_lookup (r_Offset <$> rs)); [done|by rewrite list_lookup_fmap, Hi|].
    rewrite list_lookup_fmap, Hj. simpl. congruence.
  - rewrite list_find_None, Forall_lookup in E. by destruct (E i r Hi).
Qed.

Section CachedReads.
Context (load : segmentRecordPointer -> result Code (list Rec)).
Context (load_key : forall p q, newSegmentFrameReadKey p = newSegmentFrameReadKey q -> load p = load q).
Context (P : segmentRecordPointer -> Prop).
Context (load_nodup : forall p rs, P p -> load p = Ok rs -> NoDup (r_Offset <$> rs)).

Definition cache_ok (c : segmentFrameRecordCache) : Prop :=
  cache_loaded c = true -> exists p, P p /\ cache_key c = newSegmentFrameReadKey p /\ load p = Ok (cache_records c).

Lemma cacheFill_spec c p :
  P p -> cache_ok c ->
  match cacheFill load c p with
  | Ok c' => cache_ok c' /\ load p = Ok (cache_records c')
  | Err e => load p = Err e
  end.
Proof using load_key.
  intros Hp Hc. unfold cacheFill. destruct (cache_loaded c) eqn:El; cbn [negb orb].
  - case_bool_decide as Hk; cbn [negb].
    + destruct (Hc El) as (q & _ & Hq & Hl). split; [done|]. rewrite <- Hl. apply load_key. congruence.
    + destruct (load p) as [rs|e] eqn:E; [|done]. cbn. split; [|done]. intros _. by exists p.
  - destruct (load p) as [rs|e] eqn:E; [|done]. cbn. split; [|done]. intros _. by exists p.
Qed.

Lemma cacheRecord_spec c p :
  P p -> cache_ok c ->
  match cacheRecord load c p with
  | Ok (r, c') => readOne load p = Ok r /\ cache_ok c'
  | Err e => readOne load p = Err e
  end.
Proof using load_key load_nodup.
  intros Hp Hc. unfold cacheRecord, readOne. pose proof (cacheFill_spec c p Hp Hc) as Hf.
  destruct (cacheFill load c p) as [c'|e]; [|by rewrite Hf].
  destruct Hf as [Hc' Hl]. rewrite Hl. cbn [mbind result_bind].
  destruct (cache_records c' !! cache_next c') as [r|] eqn:Hr;
    [destruct (Z.eqb_spec (r_Offset r) (srp_Offset p)) as [Ho|]|].
  - by erewrite find_nodup by (by eauto || by eapply load_nodup).
  - by destruct (findSegmentPointerRecord p (cache_records c')).
  - by destruct (findSegmentPointerRecord p (cache_records c')).
Qed.

Lemma pointerRecordsLoop_spec c ps :
  Forall P ps -> cache_ok c -> pointerRecordsLoop load c ps = mapM (readOne load) ps.
Proof using load_key load_nodup.
  intros Hps. revert c. induction Hps as [|p ps Hp _ IH]; intros c Hc; [done|]. cbn [pointerRecordsLoop mapM].
  pose proof (cacheRecord_spec c p Hp Hc) as Hr. destruct (cacheRecord load c p) as [[r c']|e].
  - destruct Hr as [-> Hc']. cbn [mbind result_bind]. by rewrite IH.
  - by rewrite Hr.
Qed.

End CachedReads.

Lemma cached_read load ps :
  (forall p q, newSegmentFrameReadKey p = newSegmentFrameReadKey q -> load p = load q) ->
  (forall p rs, p ∈ ps -> load p = Ok rs -> NoDup (r_Offset <$> rs)) ->
  readSegmentPointerRecords load ps = mapM (readOne load) ps.
Proof.
  intros Hk Hn. apply (pointerRecordsLoop_spec load Hk (fun p => p ∈ ps)); [done|by apply Forall_forall|done].
Qed.

(** Keeping the last decoded frame and reading its records in sequence does
    not change what is read: every pointer's frame is loaded and its record
    found in it, and the first failure is the result. *)
Theorem cached_read_equivalent load ps :
  (forall p q, newSegmentFrameReadKey p = newSegmentFrameReadKey q -> load p = load q) ->
  (forall p rs, p ∈ ps -> load p = Ok rs -> NoDup (r_Offset <$> rs)) ->
  readSegmentPointerRecords load ps = mapM (readOne load) ps.
Proof. apply cached_read. Qed.

(** ** Rebuilding pointers *)

Definition pointerOf (tp : TopicPartition) (segmentID position length : Z) (r : Rec) : segmentRecordPointer := {|
  srp_Topic := tp_Topic tp; srp_Partition := tp_Partition tp; srp_Offset := r_Offset r;
  srp_SegmentID := segmentID; srp_Position := position; srp_Length := length;
  srp_TimestampMS := r_TimestampMS r; srp_Attributes := r_Attributes r |}.

(** The frames of a segment, each with its records, and the pointers to them. *)
Fixpoint pointersAt (tp : TopicPartition) (segmentID position : Z) (frames : list (list Rec * bytes))
    : list segmentRecordPointer :=
  match frames with
  | [] => []
  | (rs, frame) :: frames =>
      (pointerOf tp segmentID position (len frame) <$> rs) ++
      pointersAt tp segmentID (position + len frame) frames
  end.

Definition segmentBytes (frames : list (list Rec * bytes)) : bytes := concat (frames.*2).

Section Rebuild.
Context `{Zstd}.

Definition frame_of (rs : list Rec) (frame : bytes) : Prop :=
  Forall segment_record rs /\ exists c, encodeSegmentBatchFrameWithCompression rs c = Ok frame.

Lemma frame_of_bytes rs frame :
  frame_of rs frame -> exists magic body, frame = frameBytes magic body /\ sizedSegmentFrameMagic magic = true /\
    is_u32 (len body) /\ decodeSegmentFrameRecords frame = Ok rs.
Proof. intros [Hw [c He]]. by eapply encodeSegmentBatchFrame_inv. Qed.

Lemma next_frame pre rs frame post :
  frame_of rs frame ->
  nextSelfDescribingSegmentFrame (pre ++ frame ++ post) (len pre) = Ok (frame, len pre + len frame).
Proof.
  intros (magic & body & -> & Hs & Hb & _)%frame_of_bytes.
  unfold nextSelfDescribingSegmentFrame. rewrite !len_app.
  pose proof (len_nonneg body) as Hb0. pose proof (len_nonneg post) as Hp0.
  pose proof (len_frameBytes magic body) as Hlen. unfold segmentFrameHeader in *.
  destruct (Z.ltb_spec (len pre + (len (frameBytes magic body) + len post) - len pre) 12); [lia|].
  assert (slice (pre ++ frameBytes magic body ++ post) (len pre) (len pre + 4) = put_be 4 magic) as ->.
  { unfold frameBytes. rewrite <- (assoc_L (++) (put_be 4 magic)). by apply slice_app. }
  assert (slice (pre ++ frameBytes magic body ++ post) (len pre + 8) (len pre + 12) = put_be 4 (len body)) as ->.
  { unfold frameBytes. rewrite <- !(assoc_L (++)), (assoc_L (++) (put_be 4 magic)), (assoc_L (++) pre).
    apply slice_app; rewrite !len_app, !len_put_be; lia. }
  rewrite get_magic, sized_valid, Hs by done. cbn [negb].
  rewrite get_put_be by (by change (256 ^ Z.of_nat 4) with (2 ^ 32)). cbn [segmentU32ToInt mbind result_bind].
  destruct (Z.ltb_spec (len pre + (len (frameBytes magic body) + len post) - len pre) (12 + len body)); [lia|].
  rewrite slice_app by lia. by replace (12 + len body) with (len (frameBytes magic body)) by lia.
Qed.

Lemma frame_size rs frame : frame_of rs frame -> 12 <= len frame.
Proof.
  intros (magic & body & -> & _)%frame_of_bytes. rewrite len_frameBytes. unfold segmentFrameHeader.
  pose proof (len_nonneg body). lia.
Qed.

Definition frames_ok (frames : list (list Rec * bytes)) : Prop := Forall (fun f => frame_of f.1 f.2) frames.

Lemma rebuildLoop_frames fuel tp segmentID pre frames post acc :
  frames_ok frames ->
  rebuildLoop (length frames + fuel) tp segmentID (pre ++ segmentBytes frames ++ post) (len pre) acc
  = rebuildLoop fuel tp segmentID (pre ++ segmentBytes frames ++ post) (len (pre ++ segmentBytes frames))
      (acc ++ pointersAt tp segmentID (len pre) frames).
Proof.
  intros Hf. revert pre acc. induction Hf as [|[rs frame] frames Hrs _ IH]; intros pre acc.
  { unfold segmentBytes. simpl. by rewrite !app_nil_r. }
  unfold segmentBytes in *. cbn [length Nat.add rebuildLoop fmap list_fmap concat pointersAt snd].
  simpl in Hrs. pose proof (frame_size rs frame Hrs) as H12.
  rewrite <- (assoc_L (++) frame). destruct (Z.ltb_spec (len pre) (len (pre ++ frame ++ concat frames.*2 ++ post))) as [_|Hbad].
  2: { rewrite !len_app in Hbad. pose proof (len_nonneg (concat frames.*2)). pose proof (len_nonneg post). lia. }
  rewrite (next_frame pre rs) by done. cbn [mbind result_bind]. unfold nonNegativeIntToInt64.
  pose proof (len_nonneg pre). destruct (Z.ltb_spec (len pre) 0); [lia|]. cbn [mbind result_bind].
  apply frame_of_bytes in Hrs as (_ & _ & _ & _ & _ & Hd). rewrite Hd. cbn [mbind result_bind].
  specialize (IH (pre ++ frame)). rewrite len_app in IH. rewrite <- !(assoc_L (++)) in IH.
  rewrite IH. by rewrite <- (assoc_L (++)).
Qed.

Lemma length_segmentBytes frames : frames_ok frames -> (length frames <= length (segmentBytes frames))%nat.
Proof.
  induction 1 as [|[rs frame] frames Hrs _ IH]; [done|]. unfold segmentBytes in *.
  cbn [fmap list_fmap concat length snd]. rewrite length_app. apply frame_size in Hrs. unfold len in Hrs.
  simpl in Hrs. lia.
Qed.

Lemma rebuild_pointers tp segmentID frames :
  frames_ok frames -> rebuildSegmentPointers tp segmentID (segmentBytes frames) = Ok (pointersAt tp segmentID 0 frames).
Proof.
  intros Hf. unfold rebuildSegmentPointers. pose proof (length_segmentBytes frames Hf) as Hl.
  replace (S (length (segmentBytes frames))) with (length frames + S (length (segmentBytes frames) - length frames))%nat by lia.
  pose proof (rebuildLoop_frames (S (length (segmentBytes frames) - length frames)) tp segmentID [] frames [] [] Hf) as Hr.
  rewrite !app_nil_l, app_nil_r in Hr. change (len []) with 0 in Hr.
  etrans; [exact Hr|]. cbn [rebuildLoop]. by rewrite Z.ltb_irrefl.
Qed.

(** The index of a segment can be lost: walking the frames of the segment
    file gives exactly the pointers of the records that were appended to
    it, in order, whatever the compression of each frame. *)
Theorem rebuild_recovers_pointers tp segmentID frames :
  frames_ok frames -> rebuildSegmentPointers tp segmentID (segmentBytes frames) = Ok (pointersAt tp segmentID 0 frames).
Proof. apply rebuild_pointers. Qed.

End Rebuild.

(** ** Witness *)

(** A compressed frame of two records and a plain one of the first. *)
Definition ex_frames : list (list Rec * bytes) :=
  [(ex_segment_records, ex_segment_frame);
   (take 1 ex_segment_records,
    match @encodeSegmentBatchFrameWithCompression ex_zstd (take 1 ex_segment_records) uncompressed with Ok f => f | Err _ => [] end)].

Lemma rebuild_recovers_pointers_witness :
  @rebuildSegmentPointers ex_zstd (NewTopicPartition "orders" 0) 7 (segmentBytes ex_frames)
  = Ok (pointersAt (NewTopicPartition "orders" 0) 7 0 ex_frames).
Proof.
  apply (@rebuild_recovers_pointers ex_zstd). pose proof ex_segment_records_ok as Hw.
  constructor; [split; [exact Hw|exists ex_zstd_compression; by vm_compute]|].
  constructor; [split; [by apply Forall_take|exists uncompressed; by vm_compute]|constructor].
Defined.
