(* ===== verification/SegmentLog.v ===== *)
(** * The file-backed message log

    [StorxLogStore]: [src/store/storx_log.go], [storx_log_batch.go],
    [storx_log_segments.go], [storx_log_read.go], [storx_log_cleanup.go],
    [storx_log_append_pipeline.go], [storx_log_partition_move.go] and the
    methods of [segment_index.go], [segment_index_rebuild.go],
    [segment_manifest.go], [segment_memory_index.go], [segment_key_index.go]
    and [segment_timestamp_index.go].

    The files of the store are part of its state: segment and index files by
    partition and segment id, and the manifest.  A path is an injective
    function of partition and segment id, so the pair stands for it;
    directories carry no information.  Writers append at the end of their
    file, so the cached writers add nothing to the file.  File operations do
    not fail, except to open a file that does not exist; [fsync] and the
    group commit that calls it do not change what a read sees.  Segments are
    read with [pread], the default read mode.  Metrics and clones are left
    out.

    A method is one atomic step: the partition lock is held for the whole of
    an append, and the index lock for every access to the maps.  Slices
    stored in the maps are only changed under that lock and are cloned before
    they leave it, so the model's immutable lists are what a reader sees.

    The manifest is JSON; the class [ManifestCodec] is what the code relies
    on of the JSON package: a topic list it can represent is decoded as it
    was encoded (a topic name that is not UTF-8, say, is not representable). *)

From stdpp Require Import prelude gmap strings sorting list.
From S2P Require Import Prelude Wire GoStrings Model MemoryStore Cleanup SegmentFrame SegmentIndex.

#[local] Open Scope Z_scope.

Class ManifestCodec := {
  MarshalIndent : list TopicConfig -> option bytes;
  Unmarshal : bytes -> option (list TopicConfig);
  representable : TopicConfig -> Prop;
  Unmarshal_MarshalIndent : forall topics, Forall representable topics ->
    exists data, MarshalIndent topics = Some data /\ Unmarshal data = Some topics
}.

Module StorxLog.

(** ** State *)

(** A segment file's path, or its index's. *)
Abbreviation SegmentPath := (TopicPartition * Z)%type.

Record Files := mkFiles {
  segments : gmap SegmentPath bytes;
  indexes : gmap SegmentPath bytes;
  manifest : option bytes
}.

Record StorxLogStore := mkStorxLogStore {
  compression : segmentFrameCompression;
  topics : gmap string TopicConfig;
  records : gmap TopicPartition (list segmentRecordPointer);
  timestampRecords : gmap TopicPartition (list segmentRecordPointer);
  keyRecords : gmap TopicPartition KeyPointers;
  keyIndexReady : gset TopicPartition;
  nextOffsets : gmap TopicPartition Z;
  files : Files
}.

Definition set_topics v s := mkStorxLogStore (compression s) v (records s) (timestampRecords s)
  (keyRecords s) (keyIndexReady s) (nextOffsets s) (files s).
Definition set_records v s := mkStorxLogStore (compression s) (topics s) v (timestampRecords s)
  (keyRecords s) (keyIndexReady s) (nextOffsets s) (files s).
Definition set_timestampRecords v s := mkStorxLogStore (compression s) (topics s) (records s) v
  (keyRecords s) (keyIndexReady s) (nextOffsets s) (files s).
Definition set_keyRecords v s := mkStorxLogStore (compression s) (topics s) (records s) (timestampRecords s)
  v (keyIndexReady s) (nextOffsets s) (files s).
Definition set_keyIndexReady v s := mkStorxLogStore (compression s) (topics s) (records s) (timestampRecords s)
  (keyRecords s) v (nextOffsets s) (files s).
Definition set_nextOffsets v s := mkStorxLogStore (compression s) (topics s) (records s) (timestampRecords s)
  (keyRecords s) (keyIndexReady s) v (files s).
Definition set_files v s := mkStorxLogStore (compression s) (topics s) (records s) (timestampRecords s)
  (keyRecords s) (keyIndexReady s) (nextOffsets s) v.

Definition set_segments v f := mkFiles v (indexes f) (manifest f).
Definition set_indexes v f := mkFiles (segments f) v (manifest f).
Definition set_manifest v f := mkFiles (segments f) (indexes f) v.

(** [s.records.GetOrDefault(tp, nil)] and its like. *)
Definition recordsOf (s : StorxLogStore) (tp : TopicPartition) : list segmentRecordPointer :=
  default [] (records s !! tp).
Definition timestampsOf (s : StorxLogStore) (tp : TopicPartition) : list segmentRecordPointer :=
  default [] (timestampRecords s !! tp).

(** ** Topics and the manifest *)

Definition ensurePartitionLocked (topic : string) (s : StorxLogStore) (partition : Z) : StorxLogStore :=
  let tp := NewTopicPartition topic partition in
  let s := match records s !! tp with
           | Some _ => s
           | None => set_records (<[tp := []]> (records s)) s
           end in
  match nextOffsets s !! tp with
  | Some _ => s
  | None => set_nextOffsets (<[tp := nextOffsetFromPointers (recordsOf s tp)]> (nextOffsets s)) s
  end.

Definition ensureTopicPartitionsLocked (s : StorxLogStore) (topic : TopicConfig) : StorxLogStore :=
  foldl (ensurePartitionLocked (tc_Name topic)) s (seqZ 0 (tc_Partitions topic)).

Definition compareTopicName (left right : TopicConfig) : comparison :=
  String.compare (tc_Name left) (tc_Name right).

Definition sortTopics (topics : list TopicConfig) : list TopicConfig := sort_func compareTopicName topics.

Definition validateLogTopicForCreate (topic : TopicConfig) : result Code TopicConfig :=
  if decide (tc_Name topic = "") then Err CodeInvalidArgument
  else if tc_Partitions topic =? 0 then Err CodeInvalidArgument
  else Ok (normalizeTopic topic).

Definition registerLogTopic (s : StorxLogStore) (topic : TopicConfig) : result Code StorxLogStore :=
  match topics s !! tc_Name topic with
  | Some _ => Err CodeTopicExists
  | None =>
      let s := set_topics (<[tc_Name topic := topic]> (topics s)) s in
      Ok (ensureTopicPartitionsLocked s topic)
  end.

Definition TopicExists (s : StorxLogStore) (topic : string) : result Code bool :=
  Ok (bool_decide (is_Some (topics s !! topic))).

Definition loadTopicForPartition (s : StorxLogStore) (tp : TopicPartition) : result Code TopicConfig :=
  match topics s !! tp_Topic tp with
  | None => Err CodeTopicNotFound
  | Some topic => if tc_Partitions topic <=? tp_Partition tp then Err CodePartitionNotFound else Ok topic
  end.

(** ** Reading *)

(** The slice expression [l[lo:hi]]; [None] is its run-time panic (its users
    keep [hi] at most the length of [l]). *)
Definition slice {A} (l : list A) (lo hi : Z) : option (list A) :=
  if (0 <=? lo) && (lo <=? hi) && (hi <=? len l) then Some (take (Z.to_nat (hi - lo)) (drop (Z.to_nat lo) l)) else None.

(** The end is computed in [int]: it wraps when [start + maxRecords] is above
    the largest [int], and the slice expression then panics. *)
Definition recordPointersFrom (s : StorxLogStore) (tp : TopicPartition) (offset maxRecords : Z)
    : option (list segmentRecordPointer) :=
  if maxRecords <=? 0 then Some []
  else
    let pointers := recordsOf s tp in
    let start := Z.of_nat (segmentPointerSearch pointers offset) in
    let stop := Z.min (i64 (start + maxRecords)) (len pointers) in
    slice pointers start stop.

Definition recordPointersPage (s : StorxLogStore) (tp : TopicPartition) (offset maxRecords : Z)
    : option (list segmentRecordPointer * bool) :=
  if maxRecords <=? 0 then Some ([], false)
  else
    let pointers := recordsOf s tp in
    let start := Z.of_nat (segmentPointerSearch pointers offset) in
    let stop := i64 (start + maxRecords) in
    let hasMore := stop <? len pointers in
    let stop := Z.min stop (len pointers) in
    (fun page => (page, hasMore)) <$> slice pointers start stop.

(** How many pointers from [first] on are in its segment. *)
Fixpoint runLength (first : segmentRecordPointer) (pointers : list segmentRecordPointer) : nat :=
  match pointers with
  | [] => 0
  | next :: pointers =>
      if negb (bool_decide (srp_Topic next = srp_Topic first)) ||
         negb (srp_Partition next =? srp_Partition first) || negb (srp_SegmentID next =? srp_SegmentID first)
      then 0
      else S (runLength first pointers)
  end.

Definition contiguousSegmentPointerRun (first : segmentRecordPointer) (pointers : list segmentRecordPointer) : nat :=
  S (runLength first pointers).

Section Store.
Context `{Zstd} `{ManifestCodec} `{MapRange}.

(** [StorxLogStore.readSegmentRecords]: the segment file must exist. *)
Definition readSegment (s : StorxLogStore) (path : SegmentPath) (pointers : list segmentRecordPointer)
    : result Code (list Rec) :=
  match segments (files s) !! path with
  | None => Err CodeUnavailable
  | Some file => readSegmentRecords file pointers
  end.

(** Each round reads a run of at least one pointer. *)
Fixpoint readPointersLoop (fuel : nat) (s : StorxLogStore) (pointers : list segmentRecordPointer)
    : result Code (list Rec) :=
  match fuel with
  | O => Err CodeUnavailable
  | S fuel =>
      match pointers with
      | [] => Ok []
      | first :: others =>
          let n := contiguousSegmentPointerRun first others in
          rs ← readSegment s (srp_tp first, srp_SegmentID first) (take n pointers);
          out ← readPointersLoop fuel s (drop n pointers);
          Ok (rs ++ out)
      end
  end.

Definition readPointers (s : StorxLogStore) (pointers : list segmentRecordPointer) : result Code (list Rec) :=
  readPointersLoop (S (length pointers)) s pointers.

Definition readPointer (s : StorxLogStore) (pointer : segmentRecordPointer) : result Code Rec :=
  rs ← readSegment s (srp_tp pointer, srp_SegmentID pointer) [pointer];
  match rs with
  | [] => Err CodeCodec
  | record :: _ => if negb (r_Offset record =? srp_Offset pointer) then Err CodeCodec else Ok record
  end.

(** [None] is a panic. *)
Definition ReadFrom (s : StorxLogStore) (tp : TopicPartition) (offset maxRecords : Z) : option (result Code (list Rec)) :=
  if maxRecords <=? 0 then Some (Ok [])
  else
    match loadTopicForPartition s tp with
    | Err e => Some (Err e)
    | Ok _ => readPointers s <$> recordPointersFrom s tp offset maxRecords
    end.

Definition pageCursorOffset (cursor : string) : result Code Z :=
  if decide (cursor = "") then Ok 0
  else match ParseUint64 cursor with None => Err CodeInvalidArgument | Some offset => Ok offset end.

Definition ReadPage (s : StorxLogStore) (tp : TopicPartition) (cursor : string) (maxRecords : Z)
    : option (result Code RecordPage) :=
  if maxRecords <=? 0 then Some (Ok (mkRecordPage [] "" false))
  else
    match loadTopicForPartition s tp with
    | Err e => Some (Err e)
    | Ok _ =>
        match pageCursorOffset cursor with
        | Err e => Some (Err e)
        | Ok offset =>
            (fun '(pointers, hasMore) =>
               rs ← readPointers s pointers;
               let nextCursor := match last rs with None => ""%string | Some final => fmt_d (u64 (r_Offset final + 1)) end in
               Ok (mkRecordPage rs nextCursor hasMore)) <$> recordPointersPage s tp offset maxRecords
        end
    end.

Definition PartitionOffsets (s : StorxLogStore) (tp : TopicPartition) : result Code PartitionOffsetState :=
  _ ← loadTopicForPartition s tp;
  let pointers := recordsOf s tp in
  let next := default (nextOffsetFromPointers pointers) (nextOffsets s !! tp) in
  Ok (partitionOffsetsFromRecordOffsets tp next (segmentPointerOffsets pointers)).

Definition LastOffset (s : StorxLogStore) (tp : TopicPartition) : result Code (option Z) :=
  offsets ← PartitionOffsets s tp; Ok (pos_HighWatermark offsets).

Definition OffsetForTimestamp (s : StorxLogStore) (tp : TopicPartition) (timestampMS : Z)
    : result Code (Z * option Z) :=
  _ ← loadTopicForPartition s tp;
  let pointers := timestampsOf s tp in
  let pointers := if (length pointers =? 0)%nat then sortSegmentPointersByTimestamp (recordsOf s tp) else pointers in
  let nextOffset := default (nextOffsetFromPointers (recordsOf s tp)) (nextOffsets s !! tp) in
  if (length pointers =? 0)%nat then Ok (nextOffset, None)
  else match pointers !! segmentTimestampSearch pointers timestampMS with
       | None => Ok (nextOffset, None)
       | Some record => Ok (srp_Offset record, Some (srp_TimestampMS record))
       end.

(** A frame counts once however many pointers are left to it. *)
Definition segmentStorageFrameKey (pointer : segmentRecordPointer) : Z * Z * Z * Z :=
  (srp_Partition pointer, srp_SegmentID pointer, srp_Position pointer, srp_Length pointer).

Fixpoint storageLoop (pointers : list segmentRecordPointer) (seen : gset (Z * Z * Z * Z)) (total : Z)
    : result Code (gset (Z * Z * Z * Z) * Z) :=
  match pointers with
  | [] => Ok (seen, total)
  | pointer :: pointers =>
      let key := segmentStorageFrameKey pointer in
      if decide (key ∈ seen) then storageLoop pointers seen total
      else if srp_Length pointer <? 0 then Err CodeCodec
      else storageLoop pointers ({[key]} ∪ seen) (u64 (total + srp_Length pointer))
  end.

Definition StorageUsage (s : StorxLogStore) (topic : string) : result Code Z :=
  match topics s !! topic with
  | None => Err CodeTopicNotFound
  | Some cfg =>
      '(_, total) ← storageLoop (seqZ 0 (tc_Partitions cfg) ≫= fun partition =>
                                   recordsOf s (NewTopicPartition topic partition)) ∅ 0;
      Ok total
  end.

(** ** The in-memory indexes *)

Definition recordAppendedKeyPointersLocked (s : StorxLogStore) (tp : TopicPartition) (rs : list Rec)
    (pointers : list segmentRecordPointer) : StorxLogStore :=
  if negb (bool_decide (tp ∈ keyIndexReady s)) || (len rs =? 0) || (len pointers =? 0) then s
  else
    let keyPointers := default ∅ (keyRecords s !! tp) in
    set_keyRecords (<[tp := appendKeyPointers rs pointers keyPointers]> (keyRecords s)) s.

Definition recordAppendedPointers (s : StorxLogStore) (tp : TopicPartition)
    (pointers : list segmentRecordPointer) (rs : list Rec) : StorxLogStore :=
  if len pointers =? 0 then s
  else
    let existing := sortSegmentPointers (recordsOf s tp ++ pointers) in
    let s := set_records (<[tp := existing]> (records s)) s in
    let timestamped := foldl insertSegmentTimestampPointerSorted (timestampsOf s tp) pointers in
    let s := set_timestampRecords (<[tp := timestamped]> (timestampRecords s)) s in
    let s := recordAppendedKeyPointersLocked s tp rs pointers in
    set_nextOffsets (<[tp := nextOffsetFromPointers existing]> (nextOffsets s)) s.

Definition recordAppendedPointer (s : StorxLogStore) (tp : TopicPartition) (pointer : segmentRecordPointer)
    (record : Rec) : StorxLogStore :=
  let s := set_records (<[tp := appendSegmentPointerSorted (recordsOf s tp) pointer]> (records s)) s in
  let s := set_timestampRecords
             (<[tp := insertSegmentTimestampPointerSorted (timestampsOf s tp) pointer]> (timestampRecords s)) s in
  let s := recordAppendedKeyPointersLocked s tp [record] [pointer] in
  if default 0 (nextOffsets s !! tp) <=? srp_Offset pointer
  then set_nextOffsets (<[tp := u64 (srp_Offset pointer + 1)]> (nextOffsets s)) s
  else s.

Definition removeKeyPointersLocked (s : StorxLogStore) (tp : TopicPartition) (remove : gset Z) : StorxLogStore :=
  if negb (bool_decide (tp ∈ keyIndexReady s)) then s
  else match keyRecords s !! tp with
       | None => s
       | Some keyPointers =>
           set_keyRecords
             (<[tp := filter (fun kp => srp_Offset kp.2 ∉ remove) keyPointers]> (keyRecords s)) s
       end.

Definition removeRecordPointers (s : StorxLogStore) (tp : TopicPartition) (remove : gset Z)
    : StorxLogStore * list segmentRecordPointer :=
  let existing := recordsOf s tp in
  let nextOffset := default (nextOffsetFromPointers existing) (nextOffsets s !! tp) in
  let kept := filter (fun p => srp_Offset p ∉ remove) existing in
  let removed := filter (fun p => srp_Offset p ∈ remove) existing in
  let s := set_records (<[tp := kept]> (records s)) s in
  let s := set_timestampRecords
             (<[tp := filter (fun p => srp_Offset p ∉ remove) (timestampsOf s tp)]> (timestampRecords s)) s in
  let s := removeKeyPointersLocked s tp remove in
  (set_nextOffsets (<[tp := Z.max nextOffset (nextOffsetFromPointers kept)]> (nextOffsets s)) s, removed).

(** ** Writing files *)

Definition fileOf (m : gmap SegmentPath bytes) (path : SegmentPath) : bytes := default [] (m !! path).

(** [appendFramesToSegment] with [segmentWriter.appendFrames]: the positions
    of the frames. *)
Fixpoint framePositions (position : Z) (frames : list bytes) : list Z :=
  match frames with
  | [] => []
  | frame :: frames => position :: framePositions (position + len frame) frames
  end.

Definition appendFramesToSegment (s : StorxLogStore) (path : SegmentPath) (frames : list bytes)
    : StorxLogStore * list Z :=
  let file := fileOf (segments (files s)) path in
  (set_files (set_segments (<[path := file ++ concat frames]> (segments (files s))) (files s)) s,
   framePositions (len file) frames).

(** The writer creates the index file before it looks at the payload. *)
Definition appendSegmentIndexEntries (s : StorxLogStore) (path : SegmentPath) (entries : list segmentIndexEntry)
    : StorxLogStore * result Code unit :=
  match encodeSegmentIndexEntries entries with
  | Err e => (s, Err e)
  | Ok payload =>
      let file := fileOf (indexes (files s)) path in
      (set_files (set_indexes (<[path := file ++ payload]> (indexes (files s))) (files s)) s, Ok tt)
  end.

Definition appendSegmentIndexPointers (s : StorxLogStore) (path : SegmentPath)
    (pointers : list segmentRecordPointer) : StorxLogStore * result Code unit :=
  if len pointers =? 0 then (s, Ok tt)
  else appendSegmentIndexEntries s path ((fun pointer => mkIndexEntry pointer false) <$> pointers).

(** The deleted pointers by path; the paths are visited in any order, all of
    them even after an error. *)
Definition deletesByPath (pointers : list segmentRecordPointer) : gmap SegmentPath (list segmentIndexEntry) :=
  foldl (fun byPath pointer =>
           let path := (srp_tp pointer, srp_SegmentID pointer) in
           <[path := default [] (byPath !! path) ++ [mkIndexEntry pointer true]]> byPath) ∅ pointers.

Definition appendSegmentIndexDeletes (s : StorxLogStore) (pointers : list segmentRecordPointer)
    : StorxLogStore * result Code unit :=
  foldl (fun '(s, res) '(path, entries) =>
           let '(s, r) := appendSegmentIndexEntries s path entries in
           (s, match res with Err e => Err e | Ok _ => r end))
    (s, Ok tt) (range (deletesByPath pointers)).

(** ** Planning a batch ([storx_log_batch.go]) *)

Definition segmentBatchFrameMaxRecords : Z := 128.

Record segmentBatchWrite := mkBatchWrite { sbw_segmentID : Z; sbw_indexes : list nat }.

Record appendBatchPlan := mkBatchPlan { abp_records : list Rec; abp_writes : list segmentBatchWrite }.

Definition nextOffset (s : StorxLogStore) (tp : TopicPartition) : Z := default 0 (nextOffsets s !! tp).

Definition lastRecordPointer (s : StorxLogStore) (tp : TopicPartition) : option segmentRecordPointer :=
  last (recordsOf s tp).

Definition offsetForBatchRecord (baseOffset : Z) (index : nat) : result Code Z :=
  if max_u64 - Z.of_nat index <? baseOffset then Err CodeInvalidArgument
  else Ok (u64 (baseOffset + Z.of_nat index)).

(** The loop of [prepareAppendBatch]; [clock i] is [NowMS()] at the [i]-th record. *)
Fixpoint prepareRecords (clock : nat -> Z) (topic : TopicConfig) (baseOffset : Z) (index : nat)
    (appendRecords : list RecordAppend) : result Code (list Rec) :=
  match appendRecords with
  | [] => Ok []
  | appendRecord :: rest =>
      if tc_MaxMessageBytes topic <? len (ra_Payload appendRecord) then Err CodeInvalidArgument
      else
        offset ← offsetForBatchRecord baseOffset index;
        record ← recordFromAppend (clock index) offset topic appendRecord;
        out ← prepareRecords clock topic baseOffset (S index) rest;
        Ok (record :: out)
  end.

Definition segmentHasCapacity (currentSize frameSize maxBytes : Z) : result Code bool :=
  if currentSize <? 0 then Err CodeCodec
  else if frameSize <? 0 then Err CodeCodec
  else Ok ((currentSize <=? maxBytes) && (frameSize <=? maxBytes - currentSize)).

Definition segmentForBatchFrame (topic : TopicConfig) (record : Rec) (currentSegmentID currentSize frameSize : Z)
    : result Code (Z * Z) :=
  if (tc_SegmentMaxBytes topic =? 0) || (currentSize =? 0) then Ok (currentSegmentID, currentSize)
  else
    hasCapacity ← segmentHasCapacity currentSize frameSize (tc_SegmentMaxBytes topic);
    if hasCapacity : bool then Ok (currentSegmentID, currentSize) else Ok (r_Offset record, 0).

Definition initialBatchSegment (s : StorxLogStore) (topic : TopicConfig) (tp : TopicPartition) (firstOffset : Z)
    : Z * Z :=
  match lastRecordPointer s tp with
  | None => (firstOffset, 0)
  | Some final =>
      if tc_SegmentMaxBytes topic =? 0 then (srp_SegmentID final, 0)
      else match segments (files s) !! (tp, srp_SegmentID final) with
           | None => (firstOffset, 0)
           | Some file => (srp_SegmentID final, len file)
           end
  end.

Definition appendBatchSegmentWrite (writes : list segmentBatchWrite) (segmentID : Z) (index : nat)
    : list segmentBatchWrite :=
  match last writes with
  | None => writes ++ [mkBatchWrite segmentID [index]]
  | Some w =>
      if negb (sbw_segmentID w =? segmentID) || (segmentBatchFrameMaxRecords <=? len (sbw_indexes w))
      then writes ++ [mkBatchWrite segmentID [index]]
      else take (length writes - 1) writes ++ [mkBatchWrite (sbw_segmentID w) (sbw_indexes w ++ [index])]
  end.

Fixpoint planLoop (topic : TopicConfig) (segmentID currentSize : Z) (index : nat)
    (writes : list segmentBatchWrite) (rs : list Rec) : result Code (list segmentBatchWrite) :=
  match rs with
  | [] => Ok writes
  | record :: rs =>
      let frameSize := estimatedSegmentFrameSize record in
      '(segmentID, currentSize) ← segmentForBatchFrame topic record segmentID currentSize frameSize;
      planLoop topic segmentID (currentSize + frameSize) (S index)
        (appendBatchSegmentWrite writes segmentID index) rs
  end.

Definition planBatchSegmentWrites (s : StorxLogStore) (topic : TopicConfig) (tp : TopicPartition) (rs : list Rec)
    : result Code (list segmentBatchWrite) :=
  match rs with
  | [] => Ok []
  | first :: _ =>
      let '(segmentID, currentSize) := initialBatchSegment s topic tp (r_Offset first) in
      planLoop topic segmentID currentSize 0 [] rs
  end.

Definition prepareAppendBatch (clock : nat -> Z) (s : StorxLogStore) (tp : TopicPartition)
    (appendRecords : list RecordAppend) : result Code appendBatchPlan :=
  topic ← loadTopicForPartition s tp;
  rs ← prepareRecords clock topic (nextOffset s tp) 0 appendRecords;
  writes ← planBatchSegmentWrites s topic tp rs;
  Ok (mkBatchPlan rs writes).

(** ** Committing a batch *)

Definition recordsForBatchWrite (rs : list Rec) (write : segmentBatchWrite) : list Rec :=
  omap (fun i => rs !! i) (sbw_indexes write).

Definition assignBatchFramePointers (tp : TopicPartition) (rs : list Rec) (write : segmentBatchWrite)
    (position length : Z) (pointers : list segmentRecordPointer) : list segmentRecordPointer :=
  foldl (fun pointers i =>
           match rs !! i with
           | None => pointers
           | Some record =>
               <[i := {| srp_Topic := tp_Topic tp; srp_Partition := tp_Partition tp;
                         srp_Offset := r_Offset record; srp_SegmentID := sbw_segmentID write;
                         srp_Position := position; srp_Length := length;
                         srp_TimestampMS := r_TimestampMS record; srp_Attributes := r_Attributes record |}]> pointers
           end) pointers (sbw_indexes write).

Definition appendBatchFrame (s : StorxLogStore) (tp : TopicPartition) (segmentID : Z) (frame : bytes)
    : StorxLogStore * result Code Z :=
  let '(s, positions) := appendFramesToSegment s (tp, segmentID) [frame] in
  match positions with [] => (s, Err CodeCodec) | position :: _ => (s, Ok position) end.

(** The loop of [appendBatchFrames]: a frame that cannot be encoded leaves
    the frames before it in their files. *)
Fixpoint appendBatchFramesLoop (s : StorxLogStore) (tp : TopicPartition) (rs : list Rec)
    (writes : list segmentBatchWrite) (pointers : list segmentRecordPointer)
    : StorxLogStore * result Code (list segmentRecordPointer) :=
  match writes with
  | [] => (s, Ok pointers)
  | write :: writes =>
      match encodeSegmentBatchFrameWithCompression (recordsForBatchWrite rs write) (compression s) with
      | Err e => (s, Err e)
      | Ok frame =>
          let '(s, position) := appendBatchFrame s tp (sbw_segmentID write) frame in
          match position with
          | Err e => (s, Err e)
          | Ok position =>
              appendBatchFramesLoop s tp rs writes
                (assignBatchFramePointers tp rs write position (len frame) pointers)
          end
      end
  end.

(** [make([]segmentRecordPointer, len(plan.records))] *)
Definition zeroPointer : segmentRecordPointer := mkPointer "" 0 0 0 0 0 0 0.

Definition appendBatchFrames (s : StorxLogStore) (tp : TopicPartition) (plan : appendBatchPlan)
    : StorxLogStore * result Code (list segmentRecordPointer) :=
  appendBatchFramesLoop s tp (abp_records plan) (abp_writes plan)
    (replicate (length (abp_records plan)) zeroPointer).

(** How many pointers from the start on have this segment id. *)
Fixpoint sameSegment (segmentID : Z) (pointers : list segmentRecordPointer) : nat :=
  match pointers with
  | [] => 0
  | pointer :: pointers => if srp_SegmentID pointer =? segmentID then S (sameSegment segmentID pointers) else 0
  end.

(** Each round writes the entries of a run of at least one pointer. *)
Fixpoint appendBatchSegmentIndexesLoop (fuel : nat) (s : StorxLogStore) (tp : TopicPartition)
    (pointers : list segmentRecordPointer) : StorxLogStore * result Code unit :=
  match fuel with
  | O => (s, Err CodeUnavailable)
  | S fuel =>
      match pointers with
      | [] => (s, Ok tt)
      | pointer :: others =>
          let n := S (sameSegment (srp_SegmentID pointer) others) in
          let '(s, res) := appendSegmentIndexPointers s (tp, srp_SegmentID pointer) (take n pointers) in
          match res with
          | Err e => (s, Err e)
          | Ok _ => appendBatchSegmentIndexesLoop fuel s tp (drop n pointers)
          end
      end
  end.

Definition appendBatchSegmentIndexes (s : StorxLogStore) (tp : TopicPartition)
    (pointers : list segmentRecordPointer) : StorxLogStore * result Code unit :=
  appendBatchSegmentIndexesLoop (S (length pointers)) s tp pointers.

(** An error of the indexes keeps its code: [ErrorCode] finds the inner one. *)
Definition commitAppendBatch (s : StorxLogStore) (tp : TopicPartition) (plan : appendBatchPlan)
    : StorxLogStore * result Code (list Rec) :=
  let '(s, pointers) := appendBatchFrames s tp plan in
  match pointers with
  | Err e => (s, Err e)
  | Ok pointers =>
      let '(s, indexed) := appendBatchSegmentIndexes s tp pointers in
      match indexed with
      | Err e => (s, Err e)
      | Ok _ => (recordAppendedPointers s tp pointers (abp_records plan), Ok (abp_records plan))
      end
  end.

Definition appendRecordsBatchDirect (clock : nat -> Z) (s : StorxLogStore) (tp : TopicPartition)
    (rs : list RecordAppend) : StorxLogStore * result Code (list Rec) :=
  if len rs =? 0 then (s, Ok [])
  else match prepareAppendBatch clock s tp rs with
       | Err e => (s, Err e)
       | Ok plan => commitAppendBatch s tp plan
       end.

(** ** The append pipeline ([storx_log_append_pipeline.go]) *)

Definition appendPipelineMaxRequests : Z := 1024.
Definition appendPipelineMaxRecords : Z := 8192.

(** [drain]: what is taken from the requests that wait in the channel, and
    what is left there.  A request is its records. *)
Fixpoint drainLoop (requests : list (list RecordAppend)) (count : Z) (waiting : list (list RecordAppend))
    : list (list RecordAppend) * list (list RecordAppend) :=
  match waiting with
  | [] => (requests, [])
  | request :: rest =>
      if (len requests <? appendPipelineMaxRequests) && (count <? appendPipelineMaxRecords)
      then drainLoop (requests ++ [request]) (count + len request) rest
      else (requests, waiting)
  end.

Definition drain (first : list RecordAppend) (waiting : list (list RecordAppend))
    : list (list RecordAppend) * list (list RecordAppend) :=
  drainLoop [first] (len first) waiting.

(** The results sent to the requests, in their order. *)
Fixpoint completeAppendPipelineRequests (requests : list (list RecordAppend)) (res : result Code (list Rec))
    : list (result Code (list Rec)) :=
  match requests with
  | [] => []
  | request :: requests =>
      match res with
      | Err e => Err e :: completeAppendPipelineRequests requests (Err e)
      | Ok rs => Ok (take (length request) rs) :: completeAppendPipelineRequests requests (Ok (drop (length request) rs))
      end
  end.

Definition flush (clock : nat -> Z) (s : StorxLogStore) (tp : TopicPartition) (requests : list (list RecordAppend))
    : StorxLogStore * list (result Code (list Rec)) :=
  let rs := concat requests in
  let '(s, appended) := appendRecordsBatchDirect clock s tp rs in
  match appended with
  | Err e => (s, completeAppendPipelineRequests requests (Err e))
  | Ok out =>
      if negb (len out =? len rs) then (s, completeAppendPipelineRequests requests (Err CodeCodec))
      else (s, completeAppendPipelineRequests requests (Ok out))
  end.

(** A caller whose request is the only one. *)
Definition AppendRecordsBatch (clock : nat -> Z) (s : StorxLogStore) (tp : TopicPartition) (rs : list RecordAppend)
    : StorxLogStore * result Code (list Rec) :=
  if len rs =? 0 then (s, Ok [])
  else
    let '(requests, _) := drain rs [] in
    let '(s, results) := flush clock s tp requests in
    (s, default (Err CodeUnavailable) (head results)).

Definition AppendRecord (nowMS : Z) (s : StorxLogStore) (tp : TopicPartition) (ar : RecordAppend)
    : StorxLogStore * result Code Rec :=
  let '(s, res) := AppendRecordsBatch (fun _ => nowMS) s tp [ar] in
  (s, rs ← res; match rs with [] => Err CodeCodec | record :: _ => Ok record end).

Definition Append (nowMS : Z) (s : StorxLogStore) (tp : TopicPartition) (payload : bytes)
    : StorxLogStore * result Code Rec :=
  AppendRecord nowMS s tp (NewRecordAppend payload).

(** ** Key lookups ([segment_key_index.go]) *)

Definition ensureKeyIndex (s : StorxLogStore) (tp : TopicPartition) : StorxLogStore * result Code unit :=
  if bool_decide (tp ∈ keyIndexReady s) then (s, Ok tt)
  else
    let pointers := recordsOf s tp in
    match readPointers s pointers with
    | Err e => (s, Err e)
    | Ok rs =>
        let s := set_keyRecords (<[tp := latestKeyPointersFromRecords rs pointers]> (keyRecords s)) s in
        (set_keyIndexReady ({[tp]} ∪ keyIndexReady s) s, Ok tt)
    end.

Definition ReadLatestByKey (s : StorxLogStore) (tp : TopicPartition) (key : bytes)
    : StorxLogStore * result Code (option Rec) :=
  if len key =? 0 then (s, Err CodeInvalidArgument)
  else match loadTopicForPartition s tp with
  | Err e => (s, Err e)
  | Ok _ =>
      let '(s, ready) := ensureKeyIndex s tp in
      match ready with
      | Err e => (s, Err e)
      | Ok _ =>
          match segmentKeyPointer (default ∅ (keyRecords s !! tp)) key with
          | None => (s, Ok None)
          | Some pointer =>
              (s, record ← readPointer s pointer;
                  if negb (bool_decide (r_Key record = key)) then Err CodeCodec else Ok (Some record))
          end
      end
  end.

(** ** Retention and compaction ([storx_log_cleanup.go]) *)

Definition latestOffsetsByKeyIndexOrRecords (s : StorxLogStore) (tp : TopicPartition) (rs : list Rec)
    (pointers : list segmentRecordPointer) : StorxLogStore * gmap string Z :=
  match keyRecords s !! tp with
  | Some keyPointers =>
      if bool_decide (tp ∈ keyIndexReady s) then (s, keyPointerOffsets keyPointers)
      else
        let keyPointers := latestKeyPointersFromRecords rs pointers in
        let s := set_keyRecords (<[tp := keyPointers]> (keyRecords s)) s in
        (set_keyIndexReady ({[tp]} ∪ keyIndexReady s) s, keyPointerOffsets keyPointers)
  | None =>
      let keyPointers := latestKeyPointersFromRecords rs pointers in
      let s := set_keyRecords (<[tp := keyPointers]> (keyRecords s)) s in
      (set_keyIndexReady ({[tp]} ∪ keyIndexReady s) s, keyPointerOffsets keyPointers)
  end.

(** Every [uint64] offset is at or above 0, so the search starts at the first
    pointer and the end does not wrap ([recordPointersFrom] is not [None]). *)
Definition partitionRecordsWithPointers (s : StorxLogStore) (tp : TopicPartition)
    : result Code (list segmentRecordPointer * list Rec) :=
  match recordPointersFrom s tp 0 maxSegmentInt with
  | None => Err CodeUnavailable
  | Some pointers => rs ← readPointers s pointers; Ok (pointers, rs)
  end.

Definition deleteRecordPointers (s : StorxLogStore) (tp : TopicPartition) (remove : gset Z)
    : StorxLogStore * result Code Z :=
  let '(s, removed) := removeRecordPointers s tp remove in
  if len removed =? 0 then (s, Ok 0)
  else
    let '(s, res) := appendSegmentIndexDeletes s removed in
    (s, match res with Err e => Err e | Ok _ => Ok (len removed) end).

Definition enforcePartitionRetention (s : StorxLogStore) (topic : TopicConfig) (tp : TopicPartition) (nowMS : Z)
    : StorxLogStore * result Code Z :=
  match partitionRecordsWithPointers s tp with
  | Err e => (s, Err e)
  | Ok (_, rs) =>
      let remove := retentionRemovableOffsets topic rs nowMS in
      if decide (remove = ∅) then (s, Ok 0) else deleteRecordPointers s tp remove
  end.

Definition compactPartition (s : StorxLogStore) (topic : TopicConfig) (tp : TopicPartition) (nowMS : Z)
    : StorxLogStore * result Code Z :=
  match partitionRecordsWithPointers s tp with
  | Err e => (s, Err e)
  | Ok (pointers, rs) =>
      let '(s, latestOffsetByKey) := latestOffsetsByKeyIndexOrRecords s tp rs pointers in
      let remove := compactionRemovableOffsetsWithLatest topic rs nowMS latestOffsetByKey in
      if decide (remove = ∅) then (s, Ok 0) else deleteRecordPointers s tp remove
  end.

(** The partitions of [listLogTopics()]. *)
Definition logPartitions (s : StorxLogStore) : list (TopicConfig * TopicPartition) :=
  topic ← values (topics s);
  partition ← seqZ 0 (tc_Partitions topic);
  mret (topic, NewTopicPartition (tc_Name topic) partition).

(** The loops over the partitions stop at the first error; [add] counts. *)
Fixpoint cleanupLoop {A} (clean : StorxLogStore -> TopicConfig -> TopicPartition -> StorxLogStore * result Code Z)
    (add : A -> Z -> A) (s : StorxLogStore) (acc : A) (parts : list (TopicConfig * TopicPartition))
    : StorxLogStore * result Code A :=
  match parts with
  | [] => (s, Ok acc)
  | (topic, tp) :: parts =>
      match clean s topic tp with
      | (s, Err e) => (s, Err e)
      | (s, Ok removed) => cleanupLoop clean add s (add acc removed) parts
      end
  end.

Definition EnforceRetention (s : StorxLogStore) (cancelled : bool) (nowMS : Z)
    : StorxLogStore * result Code RetentionCleanupResult :=
  if cancelled then (s, Err CodeUnavailable)
  else cleanupLoop (fun s topic tp => enforcePartitionRetention s topic tp nowMS)
         (fun acc removed => mkRetentionCleanupResult (rcr_RemovedRecords acc + removed) (rcr_DeadLetteredRecords acc))
         s (mkRetentionCleanupResult 0 0) (logPartitions s).

Definition Compact (s : StorxLogStore) (cancelled : bool) (nowMS : Z)
    : StorxLogStore * result Code CompactionCleanupResult :=
  if cancelled then (s, Err CodeUnavailable)
  else cleanupLoop (fun s topic tp => compactPartition s topic tp nowMS)
         (fun acc removed =>
            if 0 <? removed
            then mkCompactionCleanupResult (ccr_CompactedPartitions acc + 1) (ccr_RemovedRecords acc + removed)
            else acc)
         s (mkCompactionCleanupResult 0 0) (logPartitions s).

(** ** Creating topics *)

Definition persistLogManifest (s : StorxLogStore) : StorxLogStore * result Code unit :=
  match MarshalIndent (sortTopics (values (topics s))) with
  | None => (s, Err CodeUnavailable)
  | Some data => (set_files (set_manifest (Some data) (files s)) s, Ok tt)
  end.

Definition CreateTopic (s : StorxLogStore) (topic : TopicConfig) : StorxLogStore * result Code unit :=
  match validateLogTopicForCreate topic with
  | Err e => (s, Err e)
  | Ok topic =>
      match registerLogTopic s topic with
      | Err e => (s, Err e)
      | Ok s => persistLogManifest s
      end
  end.

(** ** Opening a store *)

Definition emptyStore (compression : segmentFrameCompression) (files : Files) : StorxLogStore :=
  mkStorxLogStore compression ∅ ∅ ∅ ∅ ∅ ∅ files.

Definition loadLogManifest (s : StorxLogStore) : result Code StorxLogStore :=
  match manifest (files s) with
  | None => Ok s
  | Some data =>
      match Unmarshal data with
      | None => Err CodeUnavailable
      | Some topicList =>
          Ok (foldl (fun s topic =>
                       let topic := normalizeTopic topic in
                       let s := set_topics (<[tc_Name topic := topic]> (topics s)) s in
                       ensureTopicPartitionsLocked s topic) s topicList)
      end
  end.

(** What the index files say: the live pointers by offset, and next offsets. *)
Definition Loaded : Type := gmap TopicPartition (gmap Z segmentRecordPointer) * gmap TopicPartition Z.

Definition applyLoadedSegmentIndexEntry (l : Loaded) (entry : segmentIndexEntry) : Loaded :=
  let '(loaded, nextOffsets) := l in
  let pointer := sie_Pointer entry in
  let tp := srp_tp pointer in
  let nextOffsets := <[tp := Z.max (default 0 (nextOffsets !! tp)) (u64 (srp_Offset pointer + 1))]> nextOffsets in
  let byOffset := default ∅ (loaded !! tp) in
  if sie_Deleted entry then (<[tp := delete (srp_Offset pointer) byOffset]> loaded, nextOffsets)
  else (<[tp := <[srp_Offset pointer := pointer]> byOffset]> loaded, nextOffsets).

(** [loadSegmentIndexFile] for each index file, in the order of the walk. *)
Fixpoint loadIndexFiles (l : Loaded) (indexFiles : list (SegmentPath * bytes)) : result Code Loaded :=
  match indexFiles with
  | [] => Ok l
  | (_, file) :: indexFiles =>
      entries ← readSegmentIndexEntries file;
      loadIndexFiles (foldl applyLoadedSegmentIndexEntry l entries) indexFiles
  end.

Definition segmentPartitionExists (s : StorxLogStore) (tp : TopicPartition) : bool :=
  match topics s !! tp_Topic tp with Some topic => tp_Partition tp <? tc_Partitions topic | None => false end.

(** [O_EXCL]: an index that exists is left as it is. *)
Definition writeRebuiltSegmentIndex (s : StorxLogStore) (path : SegmentPath) (pointers : list segmentRecordPointer)
    : result Code StorxLogStore :=
  payload ← encodeSegmentIndexEntries ((fun pointer => mkIndexEntry pointer false) <$> pointers);
  match indexes (files s) !! path with
  | Some _ => Ok s
  | None => Ok (set_files (set_indexes (<[path := payload]> (indexes (files s))) (files s)) s)
  end.

Definition rebuildMissingSegmentIndex (s : StorxLogStore) (l : Loaded) (path : SegmentPath) (data : bytes)
    : result Code (StorxLogStore * Loaded) :=
  let '(tp, segmentID) := path in
  if negb (segmentPartitionExists s tp) then Ok (s, l)
  else
    pointers ← rebuildSegmentPointers tp segmentID data;
    if len pointers =? 0 then Ok (s, l)
    else
      s ← writeRebuiltSegmentIndex s path pointers;
      Ok (s, foldl (fun l pointer => applyLoadedSegmentIndexEntry l (mkIndexEntry pointer false)) l pointers).

Fixpoint rebuildMissingSegmentIndexes (s : StorxLogStore) (l : Loaded) (segmentFiles : list (SegmentPath * bytes))
    : result Code (StorxLogStore * Loaded) :=
  match segmentFiles with
  | [] => Ok (s, l)
  | (path, data) :: segmentFiles =>
      '(s, l) ← (match indexes (files s) !! path with
                 | Some _ => Ok (s, l)
                 | None => rebuildMissingSegmentIndex s l path data
                 end);
      rebuildMissingSegmentIndexes s l segmentFiles
  end.

Definition applyLoadedPartition (nextOffsets' : gmap TopicPartition Z) (s : StorxLogStore)
    (entry : TopicPartition * gmap Z segmentRecordPointer) : StorxLogStore :=
  let '(tp, byOffset) := entry in
  let offsetSorted := sortSegmentPointers (values byOffset) in
  let s := set_records (<[tp := offsetSorted]> (records s)) s in
  let s := set_timestampRecords (<[tp := sortSegmentPointersByTimestamp offsetSorted]> (timestampRecords s)) s in
  set_nextOffsets
    (<[tp := Z.max (default 0 (nextOffsets' !! tp)) (nextOffsetFromPointers (recordsOf s tp))]> (nextOffsets s)) s.

Definition applyLoadedSegmentIndexes (s : StorxLogStore) (l : Loaded) : StorxLogStore :=
  let '(loaded, nextOffsets') := l in
  let s := foldl (applyLoadedPartition nextOffsets') s (range loaded) in
  let s := foldl (fun s '(tp, next) =>
                    match loaded !! tp with
                    | Some _ => s
                    | None => set_nextOffsets (<[tp := next]> (nextOffsets s)) s
                    end) s (range nextOffsets') in
  foldl ensureTopicPartitionsLocked s (values (topics s)).

Definition loadSegmentIndexes (s : StorxLogStore) : result Code StorxLogStore :=
  l ← loadIndexFiles (∅, ∅) (range (indexes (files s)));
  '(s, l) ← rebuildMissingSegmentIndexes s l (range (segments (files s)));
  Ok (applyLoadedSegmentIndexes s l).

Definition OpenStorxLogStoreWithOptions (path : string) (files : Files) (options : StorxLogOptions)
    : result Code StorxLogStore :=
  options ← StorxLogOptions_normalize options;
  compression ← newSegmentFrameCompression (slo_Compression options);
  if decide (path = "") then Err CodeInvalidArgument
  else
    s ← loadLogManifest (emptyStore compression files);
    loadSegmentIndexes s.

Definition OpenStorxLogStore (path : string) (files : Files) : result Code StorxLogStore :=
  OpenStorxLogStoreWithOptions path files (mkStorxLogOptions "" "").

(** [Close] syncs and closes what is open: the files are what is left. *)
Definition Close (s : StorxLogStore) : Files := files s.

(** ** Moving partitions ([storx_log_partition_move.go]) *)

Record PartitionSnapshot := mkPartitionSnapshot {
  ps_Topic : TopicConfig;
  ps_TopicPartition : TopicPartition;
  ps_Records : list Rec;
  ps_NextOffset : Z
}.

Definition SnapshotPartition (s : StorxLogStore) (tp : TopicPartition) : result Code PartitionSnapshot :=
  topic ← loadTopicForPartition s tp;
  let pointers := recordsOf s tp in
  let next := default (nextOffsetFromPointers pointers) (nextOffsets s !! tp) in
  rs ← readPointers s pointers;
  Ok (mkPartitionSnapshot topic tp rs next).

(** The files of the partition's directory go. *)
Definition clearPartitionLocked (s : StorxLogStore) (tp : TopicPartition) : StorxLogStore :=
  let s := set_records (<[tp := []]> (records s)) s in
  let s := set_timestampRecords (<[tp := []]> (timestampRecords s)) s in
  let s := set_keyRecords (delete tp (keyRecords s)) s in
  let s := set_keyIndexReady (keyIndexReady s ∖ {[tp]}) s in
  let s := set_nextOffsets (<[tp := 0]> (nextOffsets s)) s in
  set_files (mkFiles (filter (fun e => e.1.1 <> tp) (segments (files s)))
                     (filter (fun e => e.1.1 <> tp) (indexes (files s))) (manifest (files s))) s.

Definition ClearPartition (s : StorxLogStore) (tp : TopicPartition) : StorxLogStore * result Code unit :=
  match loadTopicForPartition s tp with
  | Err e => (s, Err e)
  | Ok _ => (clearPartitionLocked s tp, Ok tt)
  end.

Definition segmentIDForAppend (s : StorxLogStore) (topic : TopicConfig) (tp : TopicPartition) (offset frameSize : Z)
    : result Code Z :=
  match lastRecordPointer s tp with
  | None => Ok offset
  | Some final =>
      if tc_SegmentMaxBytes topic =? 0 then Ok (srp_SegmentID final)
      else match segments (files s) !! (tp, srp_SegmentID final) with
           | None => Ok offset
           | Some file =>
               hasCapacity ← segmentHasCapacity (len file) frameSize (tc_SegmentMaxBytes topic);
               if hasCapacity : bool then Ok (srp_SegmentID final) else Ok offset
           end
  end.

Definition appendFrame (s : StorxLogStore) (topic : TopicConfig) (tp : TopicPartition) (offset : Z)
    (frame : bytes) (record : Rec) : StorxLogStore * result Code segmentRecordPointer :=
  match segmentIDForAppend s topic tp offset (len frame) with
  | Err e => (s, Err e)
  | Ok segmentID =>
      let '(s, positions) := appendFramesToSegment s (tp, segmentID) [frame] in
      (s, Ok {| srp_Topic := tp_Topic tp; srp_Partition := tp_Partition tp; srp_Offset := r_Offset record;
                srp_SegmentID := segmentID; srp_Position := default 0 (head positions); srp_Length := len frame;
                srp_TimestampMS := r_TimestampMS record; srp_Attributes := r_Attributes record |})
  end.

Definition appendRestoredRecord (s : StorxLogStore) (tp : TopicPartition) (record : Rec)
    : StorxLogStore * result Code unit :=
  match loadTopicForPartition s tp with
  | Err e => (s, Err e)
  | Ok topic =>
      match encodeSegmentFrameWithCompression record (compression s) with
      | Err e => (s, Err e)
      | Ok frame =>
          let '(s, pointer) := appendFrame s topic tp (r_Offset record) frame record in
          match pointer with
          | Err e => (s, Err e)
          | Ok pointer =>
              let '(s, indexed) := appendSegmentIndexPointers s (tp, srp_SegmentID pointer) [pointer] in
              match indexed with
              | Err e => (s, Err e)
              | Ok _ => (recordAppendedPointer s tp pointer record, Ok tt)
              end
          end
      end
  end.

Fixpoint appendRestoredRecords (s : StorxLogStore) (tp : TopicPartition) (rs : list Rec)
    : StorxLogStore * result Code unit :=
  match rs with
  | [] => (s, Ok tt)
  | record :: rs =>
      match appendRestoredRecord s tp record with
      | (s, Err e) => (s, Err e)
      | (s, Ok _) => appendRestoredRecords s tp rs
      end
  end.

Definition ensurePartitionSnapshotTopic (s : StorxLogStore) (snapshot : PartitionSnapshot)
    : StorxLogStore * result Code unit :=
  let tp := ps_TopicPartition snapshot in
  let name := tc_Name (ps_Topic snapshot) in
  if negb (bool_decide (name = "")) && negb (bool_decide (name = tp_Topic tp)) then (s, Err CodeInvalidArgument)
  else match loadTopicForPartition s tp with
  | Ok _ => (s, Ok tt)
  | Err e =>
      if negb (bool_decide (e = CodeTopicNotFound)) then (s, Err e)
      else if decide (name = "") then (s, Err CodeTopicNotFound)
      else
        let '(s, created) := CreateTopic s (ps_Topic snapshot) in
        match created with
        | Err e => if negb (bool_decide (e = CodeTopicExists)) then (s, Err e)
                   else (s, _ ← loadTopicForPartition s tp; Ok tt)
        | Ok _ => (s, _ ← loadTopicForPartition s tp; Ok tt)
        end
  end.

Definition ReplacePartition (s : StorxLogStore) (snapshot : PartitionSnapshot) : StorxLogStore * result Code unit :=
  let tp := ps_TopicPartition snapshot in
  let '(s, ensured) := ensurePartitionSnapshotTopic s snapshot in
  match ensured with
  | Err e => (s, Err e)
  | Ok _ =>
      let s := clearPartitionLocked s tp in
      let '(s, appended) := appendRestoredRecords s tp (sortedRecords (ps_Records snapshot)) in
      match appended with
      | Err e => (s, Err e)
      | Ok _ =>
          let next := Z.max (ps_NextOffset snapshot) (nextOffsetFromRecords (ps_Records snapshot)) in
          (set_nextOffsets (<[tp := next]> (nextOffsets s)) s, Ok tt)
      end
  end.

(** ** Snapshots ([storx_log_snapshot.go], [storx_log_restore.go], [snapshot_partition.go])

    Of a [store.Snapshot] the log store reads and writes these fields. *)

Record LogSnapshot := mkLogSnapshot {
  ls_Topics : list TopicConfig;
  ls_Records : gmap string (list Rec);
  ls_LogOffsets : gmap string Z
}.

Definition partitionKey (tp : TopicPartition) : string := (tp_Topic tp ++ nul ++ fmt_d (tp_Partition tp))%string.

Definition parsePartitionKey (key : string) : result Code TopicPartition :=
  match SplitChar key (Ascii.ascii_of_nat 0) with
  | [topic; partition] =>
      match ParseUint64 partition with
      | Some p => if p <? 2 ^ 32 then Ok (NewTopicPartition topic p) else Err CodeCodec
      | None => Err CodeCodec
      end
  | _ => Err CodeCodec
  end.

Definition snapshotLogOffsets (s : StorxLogStore) : gmap string Z :=
  foldl (fun out '(tp, value) => <[partitionKey tp := value]> out) ∅ (range (nextOffsets s)).

Definition snapshotPartitionRecords (s : StorxLogStore) (tp : TopicPartition) (pointers : list segmentRecordPointer)
    (out : gmap string (list Rec)) : result Code (gmap string (list Rec)) :=
  if len pointers =? 0 then Ok out
  else
    partitionRecords ← readPointers s pointers;
    if len partitionRecords =? 0 then Ok out
    else let key := partitionKey tp in Ok (<[key := default [] (out !! key) ++ partitionRecords]> out).

Fixpoint snapshotRecordsLoop (s : StorxLogStore) (parts : list (TopicPartition * list segmentRecordPointer))
    (out : gmap string (list Rec)) : result Code (gmap string (list Rec)) :=
  match parts with
  | [] => Ok out
  | (tp, pointers) :: parts =>
      out ← snapshotPartitionRecords s tp pointers out;
      snapshotRecordsLoop s parts out
  end.

Definition Snapshot (s : StorxLogStore) : result Code LogSnapshot :=
  rs ← snapshotRecordsLoop s (range (records s)) ∅;
  Ok (mkLogSnapshot (sort_func compareTopicName (values (topics s))) (sortedRecords <$> rs) (snapshotLogOffsets s)).

Definition clearLogStorage (s : StorxLogStore) : StorxLogStore := emptyStore (compression s) (mkFiles ∅ ∅ None).

Fixpoint restoreLogTopics (s : StorxLogStore) (topics : list TopicConfig) : StorxLogStore * result Code unit :=
  match topics with
  | [] => (s, Ok tt)
  | topic :: topics =>
      match CreateTopic s topic with
      | (s, Err e) => (s, Err e)
      | (s, Ok _) => restoreLogTopics s topics
      end
  end.

Definition restoreLogNextOffsetMap (snapshotOffsets : gmap string Z) : gmap TopicPartition Z :=
  foldl (fun out '(key, value) =>
           match parsePartitionKey key with Ok tp => <[tp := value]> out | Err _ => out end)
    ∅ (range snapshotOffsets).

Definition advanceRestoredNextOffset (tp : TopicPartition) (record : Rec) (next : gmap TopicPartition Z)
    (computeOffsets : bool) : gmap TopicPartition Z :=
  if computeOffsets && (default 0 (next !! tp) <=? r_Offset record)
  then <[tp := u64 (r_Offset record + 1)]> next else next.

Fixpoint restorePartitionLoop (s : StorxLogStore) (tp : TopicPartition) (rs : list Rec)
    (next : gmap TopicPartition Z) (computeOffsets : bool)
    : StorxLogStore * result Code (gmap TopicPartition Z) :=
  match rs with
  | [] => (s, Ok next)
  | record :: rs =>
      match appendRestoredRecord s tp record with
      | (s, Err e) => (s, Err e)
      | (s, Ok _) => restorePartitionLoop s tp rs (advanceRestoredNextOffset tp record next computeOffsets) computeOffsets
      end
  end.

Fixpoint restoreLogRecordValues (s : StorxLogStore) (parts : list (string * list Rec))
    (next : gmap TopicPartition Z) (computeOffsets : bool)
    : StorxLogStore * result Code (gmap TopicPartition Z) :=
  match parts with
  | [] => (s, Ok next)
  | (key, rs) :: parts =>
      match parsePartitionKey key with
      | Err e => (s, Err e)
      | Ok tp =>
          match restorePartitionLoop s tp rs next computeOffsets with
          | (s, Err e) => (s, Err e)
          | (s, Ok next) => restoreLogRecordValues s parts next computeOffsets
          end
      end
  end.

Definition restoreLogNextOffsets (s : StorxLogStore) (next : gmap TopicPartition Z) : StorxLogStore :=
  foldl (fun s '(tp, value) => set_nextOffsets (<[tp := value]> (nextOffsets s)) s) s (range next).

Definition restoreLogRecords (s : StorxLogStore) (snapshot : LogSnapshot) : StorxLogStore * result Code unit :=
  let next := restoreLogNextOffsetMap (ls_LogOffsets snapshot) in
  let shouldComputeOffsets := bool_decide (next = ∅) in
  match restoreLogRecordValues s (range (ls_Records snapshot)) next shouldComputeOffsets with
  | (s, Err e) => (s, Err e)
  | (s, Ok next) => (restoreLogNextOffsets s next, Ok tt)
  end.

Definition Restore (s : StorxLogStore) (snapshot : LogSnapshot) : StorxLogStore * result Code unit :=
  let s := clearLogStorage s in
  match restoreLogTopics s (ls_Topics snapshot) with
  | (s, Err e) => (s, Err e)
  | (s, Ok _) => restoreLogRecords s snapshot
  end.

(** ** Repair ([segment_repair.go]) *)

Record StorxLogRepairOptions := mkRepairOptions { ro_DryRun : bool; ro_RebuildCorruptIndexes : bool }.

Record StorxLogRepairResult := mkRepairResult {
  rr_CheckedSegments : Z;
  rr_SkippedSegments : Z;
  rr_ExistingIndexes : Z;
  rr_MissingIndexes : Z;
  rr_CorruptIndexes : Z;
  rr_RebuiltIndexes : Z;
  rr_BackedUpCorruptIndexFiles : Z;
  rr_Errors : list Code
}.

Definition zeroRepair : StorxLogRepairResult := mkRepairResult 0 0 0 0 0 0 0 [].

(** [r] with something added to each counter and an error appended. *)
Definition tally (r : StorxLogRepairResult) (checked skipped existing missing corrupt rebuilt backed : Z)
    (errors : list Code) : StorxLogRepairResult :=
  mkRepairResult (rr_CheckedSegments r + checked) (rr_SkippedSegments r + skipped)
    (rr_ExistingIndexes r + existing) (rr_MissingIndexes r + missing) (rr_CorruptIndexes r + corrupt)
    (rr_RebuiltIndexes r + rebuilt) (rr_BackedUpCorruptIndexFiles r + backed) (rr_Errors r ++ errors).

(** [storxLogRepair]: the store it works on, what it loaded and its result. *)
Record storxLogRepair := mkRepair { rep_store : StorxLogStore; rep_loaded : Loaded; rep_result : StorxLogRepairResult }.

Definition rebuildMissingIndex (options : StorxLogRepairOptions) (r : storxLogRepair) (path : SegmentPath) (data : bytes)
    : storxLogRepair * result Code unit :=
  if ro_DryRun options then (r, Ok tt)
  else match rebuildMissingSegmentIndex (rep_store r) (rep_loaded r) path data with
       | Err e => (r, Err e)
       | Ok (s, l) => (mkRepair s l (tally (rep_result r) 0 0 0 0 0 1 0 []), Ok tt)
       end.

(** The corrupt index is renamed away first, and back when the rebuild fails. *)
Definition rebuildCorruptIndex (options : StorxLogRepairOptions) (r : storxLogRepair) (path : SegmentPath) (data : bytes)
    : storxLogRepair * result Code unit :=
  if ro_DryRun options then (r, Ok tt)
  else
    let s := rep_store r in
    let backedUp := set_files (set_indexes (delete path (indexes (files s))) (files s)) s in
    let result := tally (rep_result r) 0 0 0 0 0 0 1 [] in
    match rebuildMissingSegmentIndex backedUp (rep_loaded r) path data with
    | Err e => (mkRepair s (rep_loaded r) result, Err e)
    | Ok (s, l) => (mkRepair s l (tally result 0 0 0 0 0 1 0 []), Ok tt)
    end.

Definition validateOrRepairIndex (options : StorxLogRepairOptions) (r : storxLogRepair) (path : SegmentPath) (data : bytes)
    : storxLogRepair * result Code unit :=
  match indexes (files (rep_store r)) !! path with
  | None =>
      rebuildMissingIndex options
        (mkRepair (rep_store r) (rep_loaded r) (tally (rep_result r) 0 0 0 1 0 0 0 [])) path data
  | Some index =>
      match readSegmentIndexEntries index with
      | Err e =>
          let r := mkRepair (rep_store r) (rep_loaded r) (tally (rep_result r) 0 0 0 0 1 0 0 []) in
          if negb (ro_RebuildCorruptIndexes options) then (r, Err e)
          else rebuildCorruptIndex options r path data
      | Ok _ => (mkRepair (rep_store r) (rep_loaded r) (tally (rep_result r) 0 0 1 0 0 0 0 []), Ok tt)
      end
  end.

Definition repairSegment (options : StorxLogRepairOptions) (r : storxLogRepair) (entry : SegmentPath * bytes)
    : storxLogRepair :=
  let '(path, data) := entry in
  let r := mkRepair (rep_store r) (rep_loaded r) (tally (rep_result r) 1 0 0 0 0 0 0 []) in
  if negb (segmentPartitionExists (rep_store r) path.1)
  then mkRepair (rep_store r) (rep_loaded r) (tally (rep_result r) 0 1 0 0 0 0 0 [])
  else match validateOrRepairIndex options r path data with
       | (r, Ok _) => r
       | (r, Err e) => mkRepair (rep_store r) (rep_loaded r) (tally (rep_result r) 0 0 0 0 0 0 0 [e])
       end.

(** The files after the repair, its result and its error.  No frame is
    written, so the store of the repair has no encoder. *)
Definition RepairStorxLog (path : string) (fs : Files) (options : StorxLogRepairOptions)
    : Files * (StorxLogRepairResult * option Code) :=
  if decide (path = "") then (fs, (zeroRepair, Some CodeInvalidArgument))
  else match loadLogManifest (emptyStore (mkSegmentFrameCompression "" false) fs) with
  | Err e => (fs, (zeroRepair, Some e))
  | Ok s =>
      let r := foldl (repairSegment options) (mkRepair s (∅, ∅) zeroRepair) (range (segments fs)) in
      (files (rep_store r),
       (rep_result r, match rr_Errors (rep_result r) with [] => None | _ => Some CodeUnavailable end))
  end.

End Store.

End StorxLog.
