(* ===== verification/SegmentAppendSpec.v ===== *)
(** * The file-backed log refines the in-memory log: appends

    A batch is planned into frames of consecutive records, each frame goes
    to the end of a segment file, the pointers go to the index files and
    then into memory.  If the whole batch was written the store stands for
    the log with the batch at its end, as the in-memory store appends it;
    if anything failed it still stands for the log as it was. *)

From stdpp Require Import prelude gmap strings sorting list.
From S2P Require Import Prelude Model MemoryStore Cleanup LogSpec Wire WireSpec SegmentFrame SegmentFrameSpec SegmentIndex SegmentIndexSpec SegmentLog.

#[local] Open Scope Z_scope.
Import StorxLog (Files, StorxLogStore, segments, indexes, manifest, files, compression).

(** * The file-backed log refines the in-memory log: the relation and reads

    [refines s m] relates a [StorxLogStore] to the [MemoryStore] it stands
    for: the same topics and next offsets, and for each partition pointers
    to frames in the segment files that hold exactly its records.  Reads of
    related stores return the same. *)

Section Reads.
Context `{Zstd}.

(** The file of [p]'s segment has a frame at [p]'s position that holds [r]. *)
Definition points_to (f : Files) (p : segmentRecordPointer) (r : Rec) : Prop :=
  exists rs frame pre post,
    segments f !! (srp_tp p, srp_SegmentID p) = Some (pre ++ frame ++ post) /\
    frame_of rs frame /\ NoDup (r_Offset <$> rs) /\ r ∈ rs /\
    p = pointerOf (srp_tp p) (srp_SegmentID p) (len pre) (len frame) r.

Lemma points_to_fields f p r :
  points_to f p r -> srp_Offset p = r_Offset r /\ srp_TimestampMS p = r_TimestampMS r /\
    srp_Attributes p = r_Attributes r /\ segment_record r /\ 0 <= srp_Position p /\ 0 <= srp_Length p.
Proof.
  intros (rs & frame & pre & post & _ & [Hw _] & _ & Hr & Hp). rewrite Hp. simpl.
  rewrite Forall_forall in Hw. split_and!; [done|done|done|by apply Hw|apply len_nonneg|apply len_nonneg].
Qed.

Definition loadFrame (file : bytes) (p : segmentRecordPointer) : result Code (list Rec) :=
  frameData ← readSegmentFrameAt file (srp_Length p) (srp_Position p);
  decodeSegmentFrameRecords frameData.

Lemma loadFrame_points f file p r :
  segments f !! (srp_tp p, srp_SegmentID p) = Some file -> points_to f p r ->
  exists rs, loadFrame file p = Ok rs /\ NoDup (r_Offset <$> rs) /\ r ∈ rs.
Proof.
  intros Hf (rs & frame & pre & post & Hf' & Hfr & Hnd & Hr & Hp). exists rs. split; [|done].
  rewrite Hf in Hf'. injection Hf' as ->. unfold loadFrame. rewrite Hp. cbn [pointerOf srp_Length srp_Position].
  unfold readSegmentFrameAt. rewrite !len_app.
  pose proof (len_nonneg pre). pose proof (len_nonneg post). pose proof (frame_size rs frame Hfr).
  destruct (Z.ltb_spec (len pre) 0); [lia|]. destruct (Z.ltb_spec 0 (len frame)); [|lia].
  destruct (Z.ltb_spec (len pre + (len frame + len post)) (len pre + len frame)); [lia|]. cbn [andb mbind result_bind].
  rewrite slice_app by lia. by apply frame_of_bytes in Hfr as (? & ? & _ & _ & _ & Hd).
Qed.

Lemma readOne_points f file p r :
  segments f !! (srp_tp p, srp_SegmentID p) = Some file -> points_to f p r -> readOne (loadFrame file) p = Ok r.
Proof.
  intros Hf Hp. destruct (loadFrame_points f file p r Hf Hp) as (rs & Hl & Hnd & Hr).
  unfold readOne. rewrite Hl. cbn [mbind result_bind]. apply list_elem_of_lookup in Hr as [i Hi].
  apply points_to_fields in Hp as (Ho & _). by eapply find_nodup.
Qed.

Lemma mapM_Forall2 {A B} (f : A -> result Code B) l k : Forall2 (fun a b => f a = Ok b) l k -> mapM f l = Ok k.
Proof. induction 1 as [|a b l k Hab _ IH]; [done|]. cbn [mapM]. by rewrite Hab, IH. Qed.

Lemma readSegment_points s path ps rs :
  Forall (fun p => (srp_tp p, srp_SegmentID p) = path) ps -> ps <> [] ->
  Forall2 (points_to (files s)) ps rs -> StorxLog.readSegment s path ps = Ok rs.
Proof.
  intros Hpath Hne Hps. unfold StorxLog.readSegment.
  assert (exists file, segments (files s) !! path = Some file) as [file Hf].
  { destruct Hps as [|p r ps rs (? & frame & pre & post & Hf & _)]; [done|].
    inversion Hpath; subst. eauto. }
  rewrite Hf. unfold readSegmentRecords. fold (loadFrame file).
  assert (Forall2 (fun p r => (srp_tp p, srp_SegmentID p) = path /\ points_to (files s) p r) ps rs) as Hboth.
  { clear -Hpath Hps. revert rs Hps. induction Hpath; intros rs Hps; inversion Hps; subst; constructor; auto. }
  rewrite cached_read.
  - apply mapM_Forall2. eapply Forall2_impl; [exact Hboth|]. intros p r [Hp Hpt].
    eapply readOne_points; [|done]. by rewrite Hp.
  - intros p q Hk. injection Hk as Hk1 Hk2. unfold loadFrame. by rewrite Hk1, Hk2.
  - intros p rs' Hin Hl. apply list_elem_of_lookup in Hin as [i Hi].
    destruct (Forall2_lookup_l _ _ _ _ _ Hboth Hi) as (r & _ & Hp & Hpt).
    destruct (loadFrame_points (files s) file p r) as (rs'' & Hl' & Hnd & _); [by rewrite Hp|done|].
    assert (loadFrame file p = Ok rs') as Hl2 by exact Hl. congruence.
Qed.

Lemma runLength_spec first ps :
  (StorxLog.runLength first ps <= length ps)%nat /\
  Forall (fun p => (srp_tp p, srp_SegmentID p) = (srp_tp first, srp_SegmentID first))
    (take (StorxLog.runLength first ps) ps).
Proof.
  induction ps as [|p ps [IH1 IH2]]; [done|]. cbn [StorxLog.runLength].
  case_bool_decide as Ht; cbn [negb orb]; [|split; [simpl; lia|constructor]].
  destruct (Z.eqb_spec (srp_Partition p) (srp_Partition first)) as [Hp|]; cbn [negb orb];
    [|split; [simpl; lia|constructor]].
  destruct (Z.eqb_spec (srp_SegmentID p) (srp_SegmentID first)) as [Hs|]; cbn [negb];
    [|split; [simpl; lia|constructor]].
  split; [simpl; lia|]. cbn [take]. constructor; [|done]. unfold srp_tp. congruence.
Qed.

Lemma readPointersLoop_points fuel s ps rs :
  (length ps < fuel)%nat -> Forall2 (points_to (files s)) ps rs ->
  StorxLog.readPointersLoop fuel s ps = Ok rs.
Proof.
  revert ps rs. induction fuel as [|fuel IH]; intros ps rs Hf Hps; [lia|]. cbn [StorxLog.readPointersLoop].
  destruct ps as [|first others]; [by inversion Hps|].
  destruct (runLength_spec first others) as [Hn Hrun].
  unfold StorxLog.contiguousSegmentPointerRun. set (n := StorxLog.runLength first others) in *.
  rewrite <- (take_drop (S n) rs).
  rewrite (readSegment_points _ _ _ (take (S n) rs)).
  - cbn [mbind result_bind]. rewrite (IH _ (drop (S n) rs)); [done| |by apply Forall2_drop].
    rewrite length_drop. simpl in *. lia.
  - cbn [take]. by constructor.
  - done.
  - by apply Forall2_take.
Qed.

Lemma readPointers_points s ps rs :
  Forall2 (points_to (files s)) ps rs -> StorxLog.readPointers s ps = Ok rs.
Proof. apply readPointersLoop_points. lia. Qed.

(** Files that only grew keep what is pointed to. *)
Definition extended (f f' : Files) : Prop :=
  forall path file, segments f !! path = Some file -> exists more, segments f' !! path = Some (file ++ more).

Lemma extended_refl f : extended f f.
Proof. intros path file Hf. exists []. by rewrite app_nil_r. Qed.

Lemma extended_trans f1 f2 f3 : extended f1 f2 -> extended f2 f3 -> extended f1 f3.
Proof.
  intros H12 H23 path file Hf. destruct (H12 _ _ Hf) as [m1 H1']. destruct (H23 _ _ H1') as [m2 H2'].
  exists (m1 ++ m2). by rewrite (assoc_L (++)).
Qed.

Lemma extended_segments f f' : segments f' = segments f -> extended f f'.
Proof. intros Heq path file Hf. exists []. by rewrite Heq, app_nil_r. Qed.

Lemma points_to_extended f f' p r : extended f f' -> points_to f p r -> points_to f' p r.
Proof.
  intros He (rs & frame & pre & post & Hf & Hrest). destruct (He _ _ Hf) as [more Hf'].
  exists rs, frame, pre, (post ++ more). split; [|done]. by rewrite Hf', <- !(assoc_L (++)).
Qed.

(** ** The relation *)

Record refines (s : StorxLogStore) (m : MemoryStore) : Prop := {
  ref_topics : StorxLog.topics s = topics m;
  ref_inv : log_inv m;
  ref_log : forall tp, Forall2 (points_to (files s)) (StorxLog.recordsOf s tp) (recordsOf m tp);
  ref_tp : forall tp, Forall (fun p => srp_tp p = tp) (StorxLog.recordsOf s tp);
  ref_times : forall tp, StorxLog.timestampsOf s tp = sortSegmentPointersByTimestamp (StorxLog.recordsOf s tp);
  ref_next : StorxLog.nextOffsets s = nextOffsets m
}.

Lemma points_offsets f ps rs : Forall2 (points_to f) ps rs -> srp_Offset <$> ps = recordOffsets rs.
Proof.
  induction 1 as [|p r ps rs Hp _ IH]; [done|]. apply points_to_fields in Hp as (Ho & _).
  unfold recordOffsets in *. cbn [fmap list_fmap]. by rewrite Ho, IH.
Qed.

Lemma refines_validate s m tp :
  refines s m ->
  match StorxLog.loadTopicForPartition s tp with
  | Ok topic => topics m !! tp_Topic tp = Some topic /\ validatePartitionLocked m tp = Ok tt
  | Err e => validatePartitionLocked m tp = Err e
  end.
Proof.
  intros Hr. unfold StorxLog.loadTopicForPartition, validatePartitionLocked. rewrite (ref_topics s m Hr).
  destruct (topics m !! tp_Topic tp) as [topic|]; [|done]. by destruct (tc_Partitions topic <=? tp_Partition tp).
Qed.

Lemma nextOffsetFromPointers_records f ps rs :
  Forall2 (points_to f) ps rs -> nextOffsetFromPointers ps = nextOffsetFromRecords rs.
Proof.
  unfold nextOffsetFromPointers, nextOffsetFromRecords. generalize 0. intros n Hps. revert n.
  induction Hps as [|p r ps rs Hp _ IH]; intros n; [done|]. cbn [foldl nextOffsetLoop].
  apply points_to_fields in Hp as (-> & _). apply IH.
Qed.

Lemma refines_next s m tp :
  refines s m -> default (nextOffsetFromPointers (StorxLog.recordsOf s tp)) (StorxLog.nextOffsets s !! tp) = nextOffsetOf m tp.
Proof.
  intros Hr. unfold nextOffsetOf. rewrite (ref_next s m Hr).
  by rewrite (nextOffsetFromPointers_records _ _ _ (ref_log s m Hr tp)).
Qed.

Lemma refines_nextOffset s m tp : refines s m -> StorxLog.nextOffset s tp = nextOffsetOf m tp.
Proof.
  intros Hr. unfold StorxLog.nextOffset, nextOffsetOf. rewrite (ref_next s m Hr).
  destruct (nextOffsets m !! tp) as [n|] eqn:E; [done|]. cbn. unfold recordsOf.
  by rewrite (log_inv_next_None m tp (ref_inv s m Hr) E).
Qed.

(** *** The pointers from an offset on *)

Lemma sorted_lt_split offset rs :
  StronglySorted Z.lt (recordOffsets rs) ->
  exists k, (k <= length rs)%nat /\ Forall (fun r => r_Offset r < offset) (take k rs) /\
    drop k rs = filter (fun r => offset <= r_Offset r) rs /\ Forall (fun r => offset <= r_Offset r) (drop k rs).
Proof.
  intros Hs. induction rs as [|r rs IH].
  { exists 0%nat. split_and!; [done|constructor|done|constructor]. }
  unfold recordOffsets in *. cbn [fmap list_fmap] in Hs. inversion Hs as [|? ? Hs' Hall]; subst.
  destruct (decide (offset <= r_Offset r)).
  - exists 0%nat. rewrite !drop_0.
    assert (Forall (fun r => offset <= r_Offset r) (r :: rs)) as Hge.
    { constructor; [done|]. rewrite Forall_fmap in Hall. eapply Forall_impl; [exact Hall|]. simpl. lia. }
    split_and!; [lia|constructor| |done].
    by rewrite filter_all.
  - destruct (IH Hs') as (k & Hk & Hlo & Heq & Hhi). exists (S k). cbn [take drop length].
    split_and!; [lia|constructor; [lia|done]| |done]. by rewrite filter_cons_False.
Qed.

Lemma search_refines s m tp offset :
  refines s m -> exists k, segmentPointerSearch (StorxLog.recordsOf s tp) offset = k /\
    (k <= length (recordsOf m tp))%nat /\ drop k (recordsOf m tp) = filter (fun r => offset <= r_Offset r) (recordsOf m tp).
Proof.
  intros Hr. pose proof (ref_log s m Hr tp) as Hlog.
  destruct (log_inv_recordsOf m tp (ref_inv s m Hr)) as [Hs _].
  destruct (sorted_lt_split offset _ Hs) as (k & Hk & Hlo & Heq & Hhi). exists k. split; [|done].
  pose proof (Forall2_length _ _ _ Hlog) as Hlen.
  rewrite <- (take_drop k (StorxLog.recordsOf s tp)), segmentPointerSearch_split; [rewrite length_take; lia|..].
  - pose proof (Forall2_take _ _ _ k Hlog) as Ht. clear -Hlo Ht.
    revert Hlo. induction Ht as [|p r ps rs Hp _ IH]; intros Hlo; inversion Hlo; subst; constructor; [|by apply IH].
    apply points_to_fields in Hp as (-> & _). done.
  - pose proof (Forall2_drop _ _ _ k Hlog) as Ht. clear -Hhi Ht.
    revert Hhi. induction Ht as [|p r ps rs Hp _ IH]; intros Hhi; inversion Hhi; subst; constructor; [|by apply IH].
    apply points_to_fields in Hp as (-> & _). done.
Qed.

(** The end of a read of [maxRecords] records does not wrap. *)
Definition read_within (m : MemoryStore) (tp : TopicPartition) (maxRecords : Z) : Prop :=
  len (recordsOf m tp) + maxRecords < 2 ^ 63.

Lemma slice_window {A} (l : list A) (k : nat) (n : Z) :
  (k <= length l)%nat -> 0 < n -> len l + n < 2 ^ 63 ->
  StorxLog.slice l (Z.of_nat k) (Z.min (i64 (Z.of_nat k + n)) (len l)) = Some (take (Z.to_nat n) (drop k l)).
Proof.
  intros Hk Hn Hfit. unfold StorxLog.slice, i64, len in *. rewrite Z.mod_small by lia.
  destruct (Z.leb_spec 0 (Z.of_nat k)); [|lia]. destruct (Z.leb_spec (Z.of_nat k) (Z.min (Z.of_nat k + n + 2 ^ 63 - 2 ^ 63) (Z.of_nat (length l)))); [|lia].
  destruct (Z.leb_spec (Z.min (Z.of_nat k + n + 2 ^ 63 - 2 ^ 63) (Z.of_nat (length l))) (Z.of_nat (length l))); [|lia].
  cbn [andb]. rewrite Nat2Z.id. f_equal. destruct (decide (Z.to_nat n <= length l - k)%nat).
  - f_equal. lia.
  - rewrite !take_ge; [done|rewrite length_drop; lia|rewrite length_drop; lia].
Qed.

Lemma window_refines s m tp offset maxRecords :
  refines s m -> 0 < maxRecords -> read_within m tp maxRecords ->
  exists ps, StorxLog.recordPointersFrom s tp offset maxRecords = Some ps /\
    Forall2 (points_to (files s)) ps
      (take (Z.to_nat maxRecords) (filter (fun r => offset <= r_Offset r) (recordsOf m tp))).
Proof.
  intros Hr Hmax Hfit. unfold StorxLog.recordPointersFrom. destruct (Z.leb_spec maxRecords 0); [lia|].
  destruct (search_refines s m tp offset Hr) as (k & -> & Hk & Heq).
  pose proof (Forall2_length _ _ _ (ref_log s m Hr tp)) as Hlen. unfold read_within, len in Hfit. eexists. split.
  - apply slice_window; unfold len; lia.
  - rewrite <- Heq. by apply Forall2_take, Forall2_drop, (ref_log s m Hr).
Qed.

(** *** Reads agree *)

Lemma ReadFrom_refines s m tp offset maxRecords :
  refines s m -> read_within m tp maxRecords ->
  StorxLog.ReadFrom s tp offset maxRecords = Some (ReadFrom m tp offset maxRecords).
Proof.
  intros Hr Hfit. unfold StorxLog.ReadFrom. destruct (Z.leb_spec maxRecords 0) as [Hle|Hgt].
  { unfold ReadFrom. by destruct (Z.leb_spec maxRecords 0); [|lia]. }
  pose proof (refines_validate s m tp Hr) as Hv. destruct (StorxLog.loadTopicForPartition s tp) as [topic|e].
  - destruct Hv as [_ Hv]. rewrite ReadFrom_ok by (done || apply (ref_inv s m Hr)).
    destruct (window_refines s m tp offset maxRecords Hr Hgt Hfit) as (ps & -> & Hps).
    cbn [fmap option_fmap option_map]. f_equal. by apply readPointers_points.
  - unfold ReadFrom, validatePartitionLocked in *. destruct (Z.leb_spec maxRecords 0); [lia|].
    destruct (topics m !! tp_Topic tp) as [topic|]; [|by injection Hv as ->].
    destruct (tc_Partitions topic <=? tp_Partition tp); [by injection Hv as ->|done].
Qed.

Lemma PartitionOffsets_refines s m tp :
  refines s m -> StorxLog.PartitionOffsets s tp = PartitionOffsets m tp.
Proof.
  intros Hr. unfold StorxLog.PartitionOffsets. pose proof (refines_validate s m tp Hr) as Hv.
  destruct (StorxLog.loadTopicForPartition s tp) as [topic|e]; cbn [mbind result_bind].
  - destruct Hv as [_ Hv]. rewrite PartitionOffsets_ok by (done || apply (ref_inv s m Hr)).
    rewrite refines_next with (m := m) by done. unfold segmentPointerOffsets.
    by rewrite (points_offsets _ _ _ (ref_log s m Hr tp)).
  - unfold PartitionOffsets. by rewrite Hv.
Qed.

Lemma LastOffset_refines s m tp : refines s m -> StorxLog.LastOffset s tp = LastOffset m tp.
Proof. intros Hr. unfold StorxLog.LastOffset, LastOffset. by rewrite (PartitionOffsets_refines s m tp Hr). Qed.

End Reads.

(** ** Order of pointers *)

#[global] Instance comparePointerOffset_order : CmpOrder comparePointerOffset.
Proof. unfold comparePointerOffset. solve_cmp_order. Qed.

#[global] Instance comparePointerTimestamp_order : CmpOrder comparePointerTimestamp.
Proof. unfold comparePointerTimestamp. solve_cmp_order. Qed.

Lemma sortSegmentPointers_id ps :
  StronglySorted Z.lt (srp_Offset <$> ps) -> sortSegmentPointers ps = ps.
Proof.
  intros Hs. apply sort_func_id; [apply _|..].
  - intros x y Hx Hy E. unfold comparePointerOffset in E. cmp_eq_inv.
    revert Hx Hy. induction ps as [|p ps IH]; [by intros ?%elem_of_nil|].
    cbn [fmap list_fmap] in Hs. inversion Hs as [|? ? Hs' Hall]; subst. rewrite Forall_fmap, Forall_forall in Hall.
    rewrite !elem_of_cons. intros [->|Hx] [->|Hy]; try done; [apply Hall in Hy|apply Hall in Hx|by apply IH];
      cbv [compose] in *; lia.
  - induction ps as [|p ps IH]; [constructor|]. cbn [fmap list_fmap] in Hs. inversion Hs as [|? ? Hs' Hall]; subst.
    constructor; [by apply IH|]. rewrite Forall_fmap in Hall. eapply Forall_impl; [exact Hall|].
    intros x Hx. unfold cmp_le, comparePointerOffset. cbv [compose] in Hx. rewrite Z.compare_gt_iff. lia.
Qed.

(** *** Insertion into the timestamp index *)

Definition ts_lt (x y : segmentRecordPointer) : Prop :=
  srp_TimestampMS x < srp_TimestampMS y \/ (srp_TimestampMS x = srp_TimestampMS y /\ srp_Offset x < srp_Offset y).

Lemma ts_le_iff x y : cmp_le comparePointerTimestamp x y <->
  srp_TimestampMS x < srp_TimestampMS y \/ (srp_TimestampMS x = srp_TimestampMS y /\ srp_Offset x <= srp_Offset y).
Proof.
  unfold cmp_le, comparePointerTimestamp, thenCmp.
  destruct (Z.compare_spec (srp_TimestampMS x) (srp_TimestampMS y)) as [E|E|E]; [|split; [by left|done]|split; [done|lia]].
  rewrite Z.compare_gt_iff. lia.
Qed.

Lemma ts_sorted_split p l :
  StronglySorted (cmp_le comparePointerTimestamp) l -> (forall x, x ∈ l -> srp_Offset x <> srp_Offset p) ->
  exists l1 l2, l = l1 ++ l2 /\ Forall (fun x => ts_lt x p) l1 /\ Forall (fun x => ts_lt p x) l2.
Proof.
  intros Hs Hne. induction Hs as [|x l Hs IH Hall]; [by exists [], []|].
  assert (srp_Offset x <> srp_Offset p) as Hx by (apply Hne; left).
  destruct (decide (srp_TimestampMS x < srp_TimestampMS p \/ (srp_TimestampMS x = srp_TimestampMS p /\ srp_Offset x < srp_Offset p))) as [Hlt|Hge].
  - destruct IH as (l1 & l2 & -> & H1 & H2); [intros y Hy; apply Hne; by right|].
    exists (x :: l1), l2. split_and!; [done|by constructor|done].
  - exists [], (x :: l). split_and!; [done|constructor|]. constructor; [unfold ts_lt; lia|].
    rewrite Forall_forall in Hall. apply Forall_forall. intros y Hy. specialize (Hall y Hy).
    rewrite ts_le_iff in Hall. unfold ts_lt. lia.
Qed.

Lemma insertSegmentTimestampPointerSorted_split p l1 l2 :
  Forall (fun x => ts_lt x p) l1 -> Forall (fun x => ts_lt p x) l2 ->
  insertSegmentTimestampPointerSorted (l1 ++ l2) p = l1 ++ [p] ++ l2.
Proof.
  intros H1 H2. unfold insertSegmentTimestampPointerSorted. rewrite Search_split.
  - unfold insertAt. rewrite lookup_app_r by lia. rewrite Nat.sub_diag. destruct H2 as [|x l2 Hx H2]; cbn [lookup list_lookup].
    + by rewrite !app_nil_r.
    + unfold ts_lt in Hx. destruct (Z.eqb_spec (srp_TimestampMS x) (srp_TimestampMS p)), (Z.eqb_spec (srp_Offset x) (srp_Offset p));
        cbn [andb]; try lia; by rewrite take_app_length, drop_app_length.
  - eapply Forall_impl; [exact H1|]. intros x Hx. unfold ts_lt in Hx.
    destruct (Z.eqb_spec (srp_TimestampMS x) (srp_TimestampMS p)); cbn [negb]; lia.
  - eapply Forall_impl; [exact H2|]. intros x Hx. unfold ts_lt in Hx.
    destruct (Z.eqb_spec (srp_TimestampMS x) (srp_TimestampMS p)); cbn [negb]; lia.
Qed.

(** Lists whose pointers have distinct offsets have one timestamp order. *)
Lemma timestamp_order_unique l1 l2 :
  NoDup (srp_Offset <$> l1) -> l1 ≡ₚ l2 ->
  sortSegmentPointersByTimestamp l1 = sortSegmentPointersByTimestamp l2.
Proof.
  intros Hnd Hp. apply sort_func_perm_eq; [apply _| |done]. intros x y Hx Hy E.
  unfold comparePointerTimestamp in E. cmp_eq_inv.
  apply list_elem_of_lookup in Hx as [i Hi]. apply list_elem_of_lookup in Hy as [j Hj].
  enough (i = j) as -> by congruence.
  eapply (NoDup_lookup (srp_Offset <$> l1)); [done|by rewrite list_lookup_fmap, Hi|].
  rewrite list_lookup_fmap, Hj. simpl. congruence.
Qed.

Lemma insert_timestamp l p :
  NoDup (srp_Offset <$> (l ++ [p])) ->
  insertSegmentTimestampPointerSorted (sortSegmentPointersByTimestamp l) p = sortSegmentPointersByTimestamp (l ++ [p]).
Proof.
  intros Hnd. set (sl := sortSegmentPointersByTimestamp l).
  assert (sl ≡ₚ l) as Hperm by apply sort_func_perm.
  assert (StronglySorted (cmp_le comparePointerTimestamp) sl) as Hs by (apply sort_func_sorted; apply _).
  destruct (ts_sorted_split p sl Hs) as (l1 & l2 & Heq & H1 & H2).
  { intros x Hx Ho. rewrite Hperm in Hx. rewrite fmap_app, NoDup_app in Hnd. destruct Hnd as (_ & Hd & _).
    apply (Hd (srp_Offset x)); [by apply list_elem_of_fmap_2|]. rewrite Ho. by left. }
  rewrite Heq, insertSegmentTimestampPointerSorted_split by done.
  apply (sorted_perm_eq comparePointerTimestamp).
  - intros x y Hx Hy E. assert (l1 ++ [p] ++ l2 ≡ₚ l ++ [p]) as Hp2.
    { rewrite <- Hperm, Heq. solve_Permutation. }
    rewrite Hp2 in Hx, Hy. unfold comparePointerTimestamp in E. cmp_eq_inv.
    apply list_elem_of_lookup in Hx as [i Hi]. apply list_elem_of_lookup in Hy as [j Hj].
    enough (i = j) as -> by congruence. eapply (NoDup_lookup (srp_Offset <$> (l ++ [p]))); [done|by rewrite list_lookup_fmap, Hi|].
    rewrite list_lookup_fmap, Hj. simpl. congruence.
  - rewrite Heq in Hs. apply StronglySorted_app in Hs as (Hs12 & Hs1 & Hs2).
    assert (forall x, ts_lt x p -> cmp_le comparePointerTimestamp x p) as Hle1 by (intros x Hx; apply ts_le_iff; unfold ts_lt in Hx; lia).
    assert (forall x, ts_lt p x -> cmp_le comparePointerTimestamp p x) as Hle2 by (intros x Hx; apply ts_le_iff; unfold ts_lt in Hx; lia).
    rewrite Forall_forall in H1, H2. apply StronglySorted_app. split_and!; [|done|].
    + intros x y Hx Hy. apply elem_of_cons in Hy as [->|Hy]; [by apply Hle1, H1|by apply Hs12].
    + constructor; [done|]. apply Forall_forall. intros y Hy. by apply Hle2, H2.
  - apply sort_func_sorted; apply _.
  - unfold sortSegmentPointersByTimestamp. rewrite sort_func_perm, <- Hperm, Heq. solve_Permutation.
Qed.

Lemma insert_timestamps l ps :
  NoDup (srp_Offset <$> (l ++ ps)) ->
  foldl insertSegmentTimestampPointerSorted (sortSegmentPointersByTimestamp l) ps = sortSegmentPointersByTimestamp (l ++ ps).
Proof.
  revert l. induction ps as [|p ps IH]; intros l Hnd; [by rewrite app_nil_r|]. cbn [foldl].
  replace (l ++ p :: ps) with ((l ++ [p]) ++ ps) in * by (by rewrite <- (assoc_L (++))).
  rewrite insert_timestamp; [by apply IH|]. rewrite fmap_app, NoDup_app in Hnd. by destruct Hnd.
Qed.

(** ** The plan *)

Definition planned (writes : list StorxLog.segmentBatchWrite) : list nat := concat (StorxLog.sbw_indexes <$> writes).

Definition write_ok (w : StorxLog.segmentBatchWrite) : Prop :=
  StorxLog.sbw_indexes w <> [] /\ len (StorxLog.sbw_indexes w) <= StorxLog.segmentBatchFrameMaxRecords.

Lemma appendBatchSegmentWrite_spec writes segmentID i :
  Forall write_ok writes ->
  planned (StorxLog.appendBatchSegmentWrite writes segmentID i) = planned writes ++ [i] /\
  Forall write_ok (StorxLog.appendBatchSegmentWrite writes segmentID i).
Proof.
  intros Hw. unfold StorxLog.appendBatchSegmentWrite, planned.
  assert (write_ok (StorxLog.mkBatchWrite segmentID [i])) as Hnew by done.
  destruct writes as [|w writes _] using rev_ind; [by split; [|constructor]|].
  rewrite last_snoc. apply Forall_app in Hw as [Hw1 Hw2]. rewrite Forall_singleton in Hw2.
  destruct (negb _ || _) eqn:E.
  - rewrite !fmap_app, !concat_app. split; [done|]. apply Forall_app; split; [by apply Forall_app; split; [|constructor]|by constructor].
  - rewrite length_app, Nat.add_sub, take_app_length. rewrite !fmap_app, !concat_app. cbn [fmap list_fmap concat StorxLog.sbw_indexes].
    rewrite !app_nil_r, <- (assoc_L (++)). split; [done|]. apply Forall_app; split; [done|]. constructor; [|done].
    destruct Hw2 as [Hne Hle]. split; cbn [StorxLog.sbw_indexes]; [by destruct (StorxLog.sbw_indexes w)|].
    rewrite len_app. change (len [i]) with 1. apply orb_false_iff in E as [_ E]. lia.
Qed.

Lemma planLoop_spec topic segmentID size i writes rs writes' :
  Forall write_ok writes ->
  StorxLog.planLoop topic segmentID size i writes rs = Ok writes' ->
  planned writes' = planned writes ++ seq i (length rs) /\ Forall write_ok writes'.
Proof.
  revert segmentID size i writes. induction rs as [|r rs IH]; intros segmentID size i writes Hw Hp; cbn [StorxLog.planLoop] in Hp.
  { injection Hp as <-. by rewrite app_nil_r. }
  apply bind_ok in Hp as ([sid sz] & _ & Hp).
  destruct (appendBatchSegmentWrite_spec writes sid i Hw) as [Heq Hw'].
  apply IH in Hp as [-> Hok]; [|done]. split; [|done]. rewrite Heq, <- (assoc_L (++)). done.
Qed.

Lemma planBatchSegmentWrites_spec s topic tp rs writes :
  StorxLog.planBatchSegmentWrites s topic tp rs = Ok writes ->
  planned writes = seq 0 (length rs) /\ Forall write_ok writes.
Proof.
  destruct rs as [|r rs]; cbn [StorxLog.planBatchSegmentWrites].
  - intros [= <-]. by split.
  - destruct (StorxLog.initialBatchSegment s topic tp (r_Offset r)) as [sid sz]. intros Hp.
    by apply planLoop_spec in Hp.
Qed.

Lemma planLoop_ids topic (ids : list Z) segmentID size i writes rs writes' :
  segmentID ∈ ids -> Forall (fun r => r_Offset r ∈ ids) rs ->
  StorxLog.sbw_segmentID <$> writes ⊆ ids ->
  StorxLog.planLoop topic segmentID size i writes rs = Ok writes' -> StorxLog.sbw_segmentID <$> writes' ⊆ ids.
Proof.
  revert segmentID size i writes. induction rs as [|r rs IH]; intros segmentID size i writes Hid Hrs Hw Hp; cbn [StorxLog.planLoop] in Hp.
  { by injection Hp as <-. }
  inversion Hrs as [|? ? Hr Hrs']; subst. apply bind_ok in Hp as ([sid sz] & Hseg & Hp).
  assert (sid ∈ ids) as Hsid.
  { unfold StorxLog.segmentForBatchFrame in Hseg. destruct (_ || _); [by injection Hseg as <- <-|].
    apply bind_ok in Hseg as (b & _ & Hb). destruct b; by injection Hb as <- <-. }
  eapply IH; [exact Hsid|done| |exact Hp]. unfold StorxLog.appendBatchSegmentWrite.
  destruct writes as [|w writes _] using rev_ind; [cbn; set_solver|]. rewrite last_snoc.
  destruct (_ || _); [rewrite fmap_app; cbn; set_solver|].
  rewrite length_app, Nat.add_sub, take_app_length. rewrite !fmap_app in *. cbn in *. done.
Qed.

Lemma planBatchSegmentWrites_ids s topic tp rs writes :
  StorxLog.planBatchSegmentWrites s topic tp rs = Ok writes ->
  StorxLog.sbw_segmentID <$> writes ⊆ (srp_SegmentID <$> StorxLog.recordsOf s tp) ++ recordOffsets rs.
Proof.
  destruct rs as [|r rs]; cbn [StorxLog.planBatchSegmentWrites]; [intros [= <-]; cbn; set_solver|].
  destruct (StorxLog.initialBatchSegment s topic tp (r_Offset r)) as [sid sz] eqn:Hi. apply planLoop_ids.
  - assert (r_Offset r ∈ recordOffsets (r :: rs)) as Hr by (unfold recordOffsets; cbn; left).
    unfold StorxLog.initialBatchSegment, StorxLog.lastRecordPointer in Hi.
    destruct (last (StorxLog.recordsOf s tp)) as [p|] eqn:Hl; [|injection Hi as <- <-; set_solver].
    apply last_Some_elem_of in Hl. assert (srp_SegmentID p ∈ srp_SegmentID <$> StorxLog.recordsOf s tp) as Hp by (by apply list_elem_of_fmap_2).
    repeat case_match; injection Hi as <- <-; set_solver.
  - apply Forall_forall. intros r' Hr'. apply elem_of_app. right. by apply list_elem_of_fmap_2.
  - cbn. set_solver.
Qed.

Lemma app_seq_inv (l1 l2 : list nat) k n :
  l1 ++ l2 = seq k n -> l1 = seq k (length l1) /\ l2 = seq (k + length l1) (length l2) /\ n = (length l1 + length l2)%nat.
Proof.
  revert k n. induction l1 as [|x l1 IH]; intros k n Heq.
  - cbn [app length] in *. subst. rewrite length_seq, Nat.add_0_r. done.
  - destruct n as [|n]; [done|]. cbn [app seq] in Heq. injection Heq as -> Heq.
    apply IH in Heq as (H1 & H2 & ->). cbn [length seq]. split_and!; [by f_equal|by rewrite Nat.add_succ_r|done].
Qed.

(** ** Frames *)

Definition pathOf (p : segmentRecordPointer) : StorxLog.SegmentPath := (srp_tp p, srp_SegmentID p).

Section Append.
Context `{Zstd} `{ManifestCodec} `{MapRange}.

Lemma recordsForBatchWrite_seq rs w k j :
  StorxLog.sbw_indexes w = seq k j -> (k + j <= length rs)%nat ->
  StorxLog.recordsForBatchWrite rs w = take j (drop k rs).
Proof.
  unfold StorxLog.recordsForBatchWrite. intros ->. revert k. induction j as [|j IH]; intros k Hk; [done|].
  cbn [seq omap list_omap]. destruct (lookup_lt_is_Some_2 rs k) as [r Hr]; [lia|]. rewrite Hr.
  rewrite (drop_S _ _ _ Hr). cbn [take]. f_equal. apply IH. lia.
Qed.

Lemma assignBatchFramePointers_seq tp rs w position length_ ps1 k j n :
  StorxLog.sbw_indexes w = seq k j -> (k + j <= length rs)%nat -> length ps1 = k ->
  StorxLog.assignBatchFramePointers tp rs w position length_ (ps1 ++ replicate (j + n) StorxLog.zeroPointer)
  = ps1 ++ (pointerOf tp (StorxLog.sbw_segmentID w) position length_ <$> take j (drop k rs)) ++ replicate n StorxLog.zeroPointer.
Proof.
  unfold StorxLog.assignBatchFramePointers. intros ->. revert k ps1. induction j as [|j IH]; intros k ps1 Hk Hl; [done|].
  cbn [seq foldl Nat.add replicate]. destruct (lookup_lt_is_Some_2 rs k) as [r Hr]; [lia|]. rewrite Hr.
  rewrite (drop_S _ _ _ Hr). cbn [take fmap list_fmap].
  replace (<[k := _]> (ps1 ++ StorxLog.zeroPointer :: replicate (j + n) StorxLog.zeroPointer))
    with ((ps1 ++ [pointerOf tp (StorxLog.sbw_segmentID w) position length_ r]) ++ replicate (j + n) StorxLog.zeroPointer).
  - rewrite IH by (rewrite ?length_app; simpl; lia). by rewrite <- !(assoc_L (++)).
  - rewrite insert_app_r_alt by lia. rewrite Hl, Nat.sub_diag. by rewrite <- (assoc_L (++)).
Qed.

(** A step that only appends to segment files. *)
Definition appended_frames (s s' : StorxLogStore) : Prop :=
  extended (files s) (files s') /\
  s' = StorxLog.set_files (StorxLog.set_segments (segments (files s')) (files s)) s.

Lemma appended_frames_refl s : appended_frames s s.
Proof. split; [apply extended_refl|]. by destruct s as [? ? ? ? ? ? ? []]. Qed.

Lemma appended_frames_trans s1 s2 s3 : appended_frames s1 s2 -> appended_frames s2 s3 -> appended_frames s1 s3.
Proof.
  intros [He1 ->] [He2 ->]. split; [|done]. by eapply extended_trans.
Qed.

Lemma appended_frames_compression s s' : appended_frames s s' -> compression s' = compression s.
Proof. intros [_ ->]. done. Qed.

Lemma appendBatchFrame_spec s tp segmentID frame :
  let path := (tp, segmentID) in
  let file := StorxLog.fileOf (segments (files s)) path in
  exists s', StorxLog.appendBatchFrame s tp segmentID frame = (s', Ok (len file)) /\ appended_frames s s' /\
    segments (files s') = <[path := file ++ frame]> (segments (files s)).
Proof.
  intros path file. unfold StorxLog.appendBatchFrame, StorxLog.appendFramesToSegment. cbn [concat StorxLog.framePositions].
  rewrite app_nil_r. eexists. split; [done|]. split; [|done]. split; [|done].
  intros path' file' Hf. cbn [files StorxLog.set_files StorxLog.set_segments segments].
  destruct (decide (path = path')) as [Heq|Hne].
  - rewrite <- Heq in Hf |- *. rewrite lookup_insert_eq. exists frame. unfold file, StorxLog.fileOf, path in *. by rewrite Hf.
  - rewrite lookup_insert_ne by done. exists []. by rewrite app_nil_r.
Qed.

Lemma points_to_frame s s' tp segmentID rs frame :
  let path := (tp, segmentID) in
  let file := StorxLog.fileOf (segments (files s)) path in
  segments (files s') = <[path := file ++ frame]> (segments (files s)) ->
  frame_of rs frame -> NoDup (r_Offset <$> rs) ->
  Forall2 (points_to (files s')) (pointerOf tp segmentID (len file) (len frame) <$> rs) rs.
Proof.
  intros path file Hseg Hf Hnd. apply Forall2_fmap_l, Forall2_same_length_lookup_2; [done|].
  intros i r r' Hr Hr'. assert (r = r') as <- by congruence.
  exists rs, frame, file, []. rewrite app_nil_r. split_and!; [|done|done|by eapply list_elem_of_lookup_2|by destruct tp].
  unfold srp_tp, pointerOf. cbn. rewrite Hseg. destruct tp. by rewrite lookup_insert_eq.
Qed.

(** Some frame of the batch cannot be encoded. *)
Definition frame_fails (c : segmentFrameCompression) (rs : list Rec) (e : Code) : Prop :=
  exists chunk, chunk `sublist_of` rs /\ len chunk <= StorxLog.segmentBatchFrameMaxRecords /\
    encodeSegmentBatchFrameWithCompression chunk c = Err e.

(** A segment file that is new has a pointer into it, and the pointers are to
    segments of the plan. *)
Definition written (s s' : StorxLogStore) (ids : list Z) (ps : list segmentRecordPointer) : Prop :=
  Forall (fun p => srp_SegmentID p ∈ ids) ps /\
  forall path, is_Some (segments (files s') !! path) -> is_Some (segments (files s) !! path) \/ path ∈ pathOf <$> ps.

Lemma written_trans s1 s2 s3 ids1 ids2 ps1 ps2 :
  written s1 s2 ids1 ps1 -> written s2 s3 ids2 ps2 -> written s1 s3 (ids1 ++ ids2) (ps1 ++ ps2).
Proof.
  intros [Hi1 Hd1] [Hi2 Hd2]. split.
  - apply Forall_app. split; [eapply Forall_impl; [exact Hi1|]|eapply Forall_impl; [exact Hi2|]]; intros p; cbn beta; set_solver.
  - intros path Hp. rewrite fmap_app. destruct (Hd2 path Hp) as [Hp2|Hp2]; [destruct (Hd1 path Hp2)|]; set_solver.
Qed.

Lemma written_frame s s' tp segmentID position length_ rs frame :
  segments (files s') = <[(tp, segmentID) := frame]> (segments (files s)) -> rs <> [] ->
  written s s' [segmentID] (pointerOf tp segmentID position length_ <$> rs).
Proof.
  intros Hseg Hne. split.
  - apply Forall_fmap, Forall_forall. intros r _. cbn. set_solver.
  - intros path. rewrite Hseg, lookup_insert. case_decide as Hd; [|by left]. intros _. right.
    destruct rs as [|r rs]; [done|]. cbn [fmap list_fmap]. rewrite <- Hd. destruct tp. left.
Qed.

Lemma appendBatchFramesLoop_spec s tp rs writes ps1 k s' res :
  Forall segment_record rs -> NoDup (r_Offset <$> rs) ->
  planned writes = seq k (length rs - k) -> Forall write_ok writes -> (k <= length rs)%nat -> length ps1 = k ->
  Forall2 (points_to (files s)) ps1 (take k rs) -> Forall (fun p => srp_tp p = tp) ps1 ->
  StorxLog.appendBatchFramesLoop s tp rs writes (ps1 ++ replicate (length rs - k) StorxLog.zeroPointer) = (s', res) ->
  appended_frames s s' /\
  match res with
  | Ok ps => Forall2 (points_to (files s')) ps rs /\ Forall (fun p => srp_tp p = tp) ps /\
             exists ps2, ps = ps1 ++ ps2 /\ written s s' (StorxLog.sbw_segmentID <$> writes) ps2
  | Err e => frame_fails (compression s) rs e
  end.
Proof.
  intros Hw Hnd. revert s ps1 k. induction writes as [|w writes IH]; intros s ps1 k Hplan Hok Hk Hl Hps Htp;
    cbn [StorxLog.appendBatchFramesLoop].
  { intros [= <- <-]. split; [apply appended_frames_refl|]. unfold planned in Hplan. cbn in Hplan.
    assert (length rs - k = 0)%nat as Hz by (destruct (length rs - k)%nat; done).
    rewrite Hz, app_nil_r. split; [by rewrite take_ge in Hps by lia|]. split; [done|].
    exists []. rewrite app_nil_r. split; [done|]. split; [constructor|by left]. }
  unfold planned in Hplan. cbn [fmap list_fmap concat] in Hplan.
  apply app_seq_inv in Hplan as (Hi & Hplan & Hn). fold (planned writes) in Hplan, Hn.
  set (j := length (StorxLog.sbw_indexes w)) in *.
  assert (k + j <= length rs)%nat as Hkj by lia.
  rewrite (recordsForBatchWrite_seq rs w k j) by done.
  destruct (encodeSegmentBatchFrameWithCompression _ _) as [frame|e] eqn:He.
  2: { intros [= <- <-]. split; [apply appended_frames_refl|]. exists (take j (drop k rs)). split_and!; [|..|done].
       - etrans; [apply sublist_take|apply sublist_drop].
       - inversion Hok as [|? ? [_ Hle] _]; subst. unfold len in *. rewrite length_take, length_drop. lia. }
  assert (frame_of (take j (drop k rs)) frame) as Hframe.
  { split; [by apply Forall_take, Forall_drop|by eexists]. }
  destruct (appendBatchFrame_spec s tp (StorxLog.sbw_segmentID w) frame) as (s1 & -> & Ha1 & Hseg).
  replace (length rs - k)%nat with (j + (length rs - (k + j)))%nat by lia.
  rewrite (assignBatchFramePointers_seq tp rs w _ _ ps1 k j) by done. rewrite (assoc_L (++)). intros Hrun.
  eapply IH in Hrun; [destruct Hrun as [Ha2 Hres]; split; [by eapply appended_frames_trans|]|..].
  - rewrite (appended_frames_compression _ _ Ha1) in Hres. destruct res as [ps|e]; [|done].
    destruct Hres as (Hres1 & Hres2 & ps2 & -> & Hwr). split_and!; [done|done|].
    eexists. rewrite <- (assoc_L (++)). split; [done|]. cbn [fmap list_fmap].
    apply (written_trans s s1 s' [_] (StorxLog.sbw_segmentID <$> writes)); [|done].
    eapply written_frame; [exact Hseg|].
    inversion Hok as [|? ? [Hne _] _]; subst. intros Hnil%(f_equal length).
    rewrite length_take, length_drop in Hnil. cbn in Hnil. destruct (StorxLog.sbw_indexes w); [done|]. cbn in j. lia.
  - rewrite Hplan at 1. f_equal. lia.
  - by inversion Hok.
  - done.
  - rewrite length_app, length_fmap, length_take, length_drop. lia.
  - assert (take (k + j) rs = take k rs ++ take j (drop k rs)) as -> by (by rewrite take_take_drop).
    apply Forall2_app.
    + eapply Forall2_impl; [exact Hps|]. intros p r. apply points_to_extended, Ha1.
    + eapply points_to_frame; [done|done|]. rewrite fmap_take, fmap_drop.
      eapply sublist_NoDup; [exact Hnd|]. etrans; [apply sublist_take|apply sublist_drop].
  - apply Forall_app. split; [done|]. apply Forall_fmap, Forall_forall. intros r _. by destruct tp.
Qed.

Lemma appendBatchFrames_spec s tp rs writes s' res :
  Forall segment_record rs -> NoDup (r_Offset <$> rs) -> planned writes = seq 0 (length rs) -> Forall write_ok writes ->
  StorxLog.appendBatchFrames s tp (StorxLog.mkBatchPlan rs writes) = (s', res) ->
  appended_frames s s' /\
  match res with
  | Ok ps => Forall2 (points_to (files s')) ps rs /\ Forall (fun p => srp_tp p = tp) ps /\
             written s s' (StorxLog.sbw_segmentID <$> writes) ps
  | Err e => frame_fails (compression s) rs e
  end.
Proof.
  intros Hw Hnd Hp Hok Hrun. unfold StorxLog.appendBatchFrames in Hrun. cbn [StorxLog.abp_records StorxLog.abp_writes] in Hrun.
  destruct (appendBatchFramesLoop_spec s tp rs writes [] 0 s' res) as [Ha Hres]; rewrite ?Nat.sub_0_r; try done; [lia|].
  split; [done|]. destruct res as [ps|e]; [|done]. destruct Hres as (? & ? & ps2 & -> & ?). done.
Qed.

(** ** Indexes *)

(** A step that only writes index files. *)
Definition only_indexes (s s' : StorxLogStore) : Prop :=
  s' = StorxLog.set_files (StorxLog.set_indexes (indexes (files s')) (files s)) s.

Lemma only_indexes_refl s : only_indexes s s.
Proof. by destruct s as [? ? ? ? ? ? ? []]. Qed.

Lemma only_indexes_trans s1 s2 s3 : only_indexes s1 s2 -> only_indexes s2 s3 -> only_indexes s1 s3.
Proof. unfold only_indexes. intros -> ->. done. Qed.

Lemma appendSegmentIndexEntries_only s path es : only_indexes s (StorxLog.appendSegmentIndexEntries s path es).1.
Proof.
  unfold StorxLog.appendSegmentIndexEntries. destruct (encodeSegmentIndexEntries es); [done|apply only_indexes_refl].
Qed.

Lemma appendSegmentIndexPointers_only s path ps : only_indexes s (StorxLog.appendSegmentIndexPointers s path ps).1.
Proof.
  unfold StorxLog.appendSegmentIndexPointers. destruct (len ps =? 0); [apply only_indexes_refl|].
  apply appendSegmentIndexEntries_only.
Qed.

Lemma appendBatchSegmentIndexes_only s tp ps : only_indexes s (StorxLog.appendBatchSegmentIndexes s tp ps).1.
Proof.
  unfold StorxLog.appendBatchSegmentIndexes. generalize (S (length ps)). intros fuel.
  revert s ps. induction fuel as [|fuel IH]; intros s ps; cbn [StorxLog.appendBatchSegmentIndexesLoop]; [apply only_indexes_refl|].
  destruct ps as [|p ps]; [apply only_indexes_refl|].
  match goal with |- context [StorxLog.appendSegmentIndexPointers ?a ?b ?c] =>
    pose proof (appendSegmentIndexPointers_only a b c) as H1';
    destruct (StorxLog.appendSegmentIndexPointers a b c) as [s1 [u|e]] end; [|done].
  eapply only_indexes_trans; [exact H1'|apply IH].
Qed.

(** Related stores stay related when files only grow and indexes change. *)
Lemma refines_files s s' m :
  refines s m -> extended (files s) (files s') -> s' = StorxLog.set_files (files s') s -> refines s' m.
Proof.
  intros Hr He Heq. split.
  - rewrite Heq. apply (ref_topics s m Hr).
  - apply (ref_inv s m Hr).
  - intros tp. replace (StorxLog.recordsOf s' tp) with (StorxLog.recordsOf s tp) by (by rewrite Heq).
    eapply Forall2_impl; [apply (ref_log s m Hr)|]. intros p r. by apply points_to_extended.
  - intros tp. rewrite Heq. apply (ref_tp s m Hr).
  - intros tp. rewrite Heq. apply (ref_times s m Hr).
  - rewrite Heq. apply (ref_next s m Hr).
Qed.

Lemma refines_appended_frames s s' m : refines s m -> appended_frames s s' -> refines s' m.
Proof.
  intros Hr [He Heq]. eapply refines_files; [done|done|].
  pose proof (f_equal files Heq) as Hf. cbn in Hf. rewrite Hf. exact Heq.
Qed.

Lemma refines_only_indexes s s' m : refines s m -> only_indexes s s' -> refines s' m.
Proof.
  intros Hr Heq. unfold only_indexes in Heq. eapply refines_files; [done| |].
  - apply extended_segments. by rewrite Heq.
  - pose proof (f_equal files Heq) as Hf. cbn in Hf. rewrite Hf. exact Heq.
Qed.

(** ** The log with a batch at its end *)

Definition appendedTo (m : MemoryStore) (tp : TopicPartition) (rs : list Rec) : MemoryStore :=
  set_nextOffsets (<[tp := nextOffsetOf m tp + len rs]> (nextOffsets m))
    (set_records (<[tp := recordsOf m tp ++ rs]> (records m)) m).

Lemma recordsOf_appendedTo m tp rs tp' :
  recordsOf (appendedTo m tp rs) tp' = if decide (tp = tp') then recordsOf m tp ++ rs else recordsOf m tp'.
Proof. unfold recordsOf, appendedTo. cbn. case_decide as E; [subst; by rewrite lookup_insert_eq|by rewrite lookup_insert_ne]. Qed.

(** The in-memory store appends exactly the records that the planner prepares. *)
Lemma memory_append clock clk m tp topic base i ars :
  log_inv m -> topics m !! tp_Topic tp = Some topic -> tp_Partition tp < tc_Partitions topic ->
  nextOffsetOf m tp = base + Z.of_nat i -> base + Z.of_nat i + len ars <= max_u64 ->
  (forall k, clk k = clock (i + k)%nat) -> ars <> [] ->
  match StorxLog.prepareRecords clock topic base i ars with
  | Ok rs => AppendRecordsBatch clk m tp ars = (appendedTo m tp rs, Ok rs)
  | Err e => exists m', AppendRecordsBatch clk m tp ars = (m', Err e)
  end.
Proof.
  intros Hinv Ht Hp. revert clk m i Hinv Ht. induction ars as [|ar ars IH]; intros clk m i Hinv Ht Hnext Hroom Hclk Hne; [done|].
  pose proof (log_inv_next_u64 m tp Hinv) as Hu. unfold is_u64 in Hu.
  assert (len (ar :: ars) = 1 + len ars) as Hlen by (unfold len; cbn [length]; lia).
  pose proof (len_nonneg ars) as Hars.
  cbn [StorxLog.prepareRecords AppendRecordsBatch]. unfold AppendRecord. rewrite Ht.
  destruct (Z.leb_spec (tc_Partitions topic) (tp_Partition tp)); [lia|].
  destruct (Z.ltb_spec (tc_MaxMessageBytes topic) (len (ra_Payload ar))); [by eexists|].
  unfold StorxLog.offsetForBatchRecord.
  destruct (Z.ltb_spec (max_u64 - Z.of_nat i) base); [unfold max_u64 in *; lia|]. cbn [mbind result_bind].
  rewrite u64_small by (unfold is_u64, max_u64 in *; lia).
  rewrite <- Hnext, Hclk, Nat.add_0_r.
  destruct (recordFromAppend (clock i) (nextOffsetOf m tp) topic ar) as [r|e] eqn:Er; cbn [mbind result_bind]; [|by eexists].
  rewrite u64_small by (unfold is_u64, max_u64 in *; lia).
  set (m1 := set_nextOffsets (<[tp := nextOffsetOf m tp + 1]> (nextOffsets m)) (set_records (<[tp := recordsOf m tp ++ [r]]> (records m)) m)).
  destruct ars as [|ar2 ars].
  { cbn [StorxLog.prepareRecords AppendRecordsBatch]. cbn [mbind result_bind]. done. }
  assert (AppendRecord (clk 0%nat) m tp ar = (m1, Ok r)) as Hap.
  { unfold AppendRecord. rewrite Ht. destruct (Z.leb_spec (tc_Partitions topic) (tp_Partition tp)); [lia|].
    destruct (Z.ltb_spec (tc_MaxMessageBytes topic) (len (ra_Payload ar))); [lia|].
    rewrite Hclk, Nat.add_0_r, Er. by rewrite u64_small by (unfold is_u64, max_u64 in *; lia). }
  assert (log_inv m1) as Hinv1.
  { destruct (AppendRecord_inv (clk 0%nat) m tp ar Hinv) as [Hi _]; [unfold max_u64 in *; lia|]. by rewrite Hap in Hi. }
  assert (nextOffsetOf m1 tp = nextOffsetOf m tp + 1) as Hn1 by (unfold nextOffsetOf at 1; cbn; by rewrite lookup_insert_eq).
  assert (recordsOf m1 tp = recordsOf m tp ++ [r]) as Hr1 by (unfold recordsOf at 1; cbn; by rewrite lookup_insert_eq).
  specialize (IH (fun k => clk (S k)) m1 (S i) Hinv1 Ht ltac:(lia) ltac:(lia)
    ltac:(intros k; cbv beta; rewrite Hclk; f_equal; lia) ltac:(done)).
  match goal with |- context [AppendRecordsBatch _ ?x tp (ar2 :: ars)] => change x with m1 end.
  destruct (StorxLog.prepareRecords clock topic base (S i) (ar2 :: ars)) as [rs|e]; cbn [mbind result_bind].
  - rewrite IH. f_equal. unfold appendedTo. rewrite Hn1, Hr1. unfold m1, set_nextOffsets, set_records. cbn.
    rewrite !insert_insert_eq, <- (assoc_L (++)).
    assert (len (r :: rs) = 1 + len rs) as -> by (unfold len; cbn [length]; lia).
    do 2 f_equal. lia.
  - destruct IH as [m' ->]. by eexists.
Qed.

Lemma prepareRecords_offsets clock topic base i ars rs :
  0 <= base -> base + Z.of_nat i + len ars <= max_u64 ->
  StorxLog.prepareRecords clock topic base i ars = Ok rs ->
  recordOffsets rs = seqZ (base + Z.of_nat i) (len ars) /\ length rs = length ars.
Proof.
  intros Hb. revert i rs. induction ars as [|ar ars IH]; intros i rs Hroom Hp; cbn [StorxLog.prepareRecords] in Hp.
  { by injection Hp as <-. }
  assert (len (ar :: ars) = Z.succ (len ars)) as Hlen by (unfold len; cbn [length]; lia).
  pose proof (len_nonneg ars) as Hars.
  destruct (_ <? _); [done|]. apply bind_ok in Hp as (o & Ho & Hp). apply bind_ok in Hp as (r & Hr & Hp).
  apply bind_ok in Hp as (rs' & Hrs & [= <-]). apply IH in Hrs as [Hrs Hl]; [|lia].
  unfold StorxLog.offsetForBatchRecord in Ho. destruct (_ <? _); [done|]. injection Ho as <-.
  apply recordFromAppend_offset in Hr. unfold recordOffsets in *. cbn [fmap list_fmap length]. rewrite Hrs, Hr, Hl.
  split; [|done]. rewrite Hlen, (seqZ_cons _ (Z.succ _)) by lia. rewrite u64_small by (unfold is_u64, max_u64 in *; lia).
  do 2 f_equal; lia.
Qed.

(** ** When the indexes cannot be written *)

Definition topic_too_long (tp : TopicPartition) : Prop := 2 ^ 32 - 57 < slen (tp_Topic tp).

Lemma encodeEntriesLoop_err out es e tp :
  Forall (fun en => srp_tp (sie_Pointer en) = tp /\ 0 <= srp_Position (sie_Pointer en) /\ 0 <= srp_Length (sie_Pointer en)) es ->
  encodeEntriesLoop out es = Err e -> topic_too_long tp /\ e = CodeCodec.
Proof.
  intros Hw. revert out. induction Hw as [|en es (Ht & Hp & Hl) _ IH]; intros out; cbn [encodeEntriesLoop]; [done|].
  unfold topic_too_long. assert (tp_Topic tp = srp_Topic (sie_Pointer en)) as -> by (by rewrite <- Ht).
  unfold encodeSegmentIndexEntry. destruct (Z.ltb_spec (srp_Position (sie_Pointer en)) 0); [lia|].
  destruct (Z.ltb_spec (srp_Length (sie_Pointer en)) 0); [lia|].
  destruct (Z.ltb_spec (2 ^ 32 - 1) (slen (srp_Topic (sie_Pointer en)))).
  { intros [= <-]. split; [lia|done]. }
  cbn [mbind result_bind]. rewrite !len_app, !len_put_be, <- slen_bytes.
  match goal with |- context [2 ^ 32 - 1 <? ?x] => destruct (Z.ltb_spec (2 ^ 32 - 1) x) end.
  - intros [= <-]. split; [lia|done].
  - intros Herr. apply IH in Herr as [Hlong ->]. split; [|done]. unfold topic_too_long in Hlong.
    by rewrite <- Ht in Hlong.
Qed.

Lemma sameSegment_le sid ps : (StorxLog.sameSegment sid ps <= length ps)%nat.
Proof. induction ps as [|p ps IH]; cbn [StorxLog.sameSegment length]; [done|]. destruct (_ =? _); lia. Qed.

Lemma sameSegment_run sid ps : Forall (fun p => srp_SegmentID p = sid) (take (StorxLog.sameSegment sid ps) ps).
Proof.
  induction ps as [|p ps IH]; cbn [StorxLog.sameSegment]; [constructor|].
  destruct (Z.eqb_spec (srp_SegmentID p) sid); [by constructor|constructor].
Qed.

Definition placed (tp : TopicPartition) (p : segmentRecordPointer) : Prop :=
  srp_tp p = tp /\ 0 <= srp_Position p /\ 0 <= srp_Length p.

Lemma appendBatchSegmentIndexes_err s tp ps s' e :
  Forall (placed tp) ps -> StorxLog.appendBatchSegmentIndexes s tp ps = (s', Err e) -> topic_too_long tp /\ e = CodeCodec.
Proof.
  unfold StorxLog.appendBatchSegmentIndexes. assert (length ps < S (length ps))%nat as Hf by lia. revert Hf.
  generalize (S (length ps)). intros fuel. revert s ps. induction fuel as [|fuel IH]; intros s ps Hf Hps; [lia|].
  cbn [StorxLog.appendBatchSegmentIndexesLoop]. destruct ps as [|p ps]; [done|].
  pose proof (sameSegment_le (srp_SegmentID p) ps) as Hle. set (n := StorxLog.sameSegment (srp_SegmentID p) ps) in *.
  unfold StorxLog.appendSegmentIndexPointers. destruct (Z.eqb_spec (len (take (S n) (p :: ps))) 0) as [Hz|_]; [done|].
  unfold StorxLog.appendSegmentIndexEntries, encodeSegmentIndexEntries.
  destruct (encodeEntriesLoop [] _) as [payload|e'] eqn:He.
  - apply IH; [rewrite length_drop; cbn [length] in *; lia|by apply Forall_drop].
  - intros [= _ <-]. eapply encodeEntriesLoop_err; [|exact He].
    apply Forall_fmap, Forall_take. done.
Qed.

(** ** Appending *)

Lemma nextOffsetLoop_app n l1 l2 : nextOffsetLoop n (l1 ++ l2) = nextOffsetLoop (nextOffsetLoop n l1) l2.
Proof. revert n. induction l1 as [|r l1 IH]; intros n; [done|]. apply IH. Qed.

Lemma nextOffsetLoop_le n rs next :
  0 <= n <= next -> next <= max_u64 -> Forall (fun o => 0 <= o < next) (recordOffsets rs) -> 0 <= nextOffsetLoop n rs <= next.
Proof.
  intros Hn Hmax. revert n Hn. induction rs as [|r rs IH]; intros n Hn Hb; [done|]. cbn [nextOffsetLoop].
  unfold recordOffsets in Hb. cbn [fmap list_fmap] in Hb. inversion Hb as [|? ? Hr Hb']; subst.
  apply IH; [|done]. destruct (n <=? r_Offset r); [|done].
  rewrite u64_small by (unfold is_u64, max_u64 in *; lia). lia.
Qed.

Lemma nextOffsetLoop_seqZ n b rs :
  0 <= n <= b -> b + len rs <= max_u64 -> rs <> [] -> recordOffsets rs = seqZ b (len rs) ->
  nextOffsetLoop n rs = b + len rs.
Proof.
  revert n b. induction rs as [|r rs IH]; intros n b Hn Hmax Hne Ho; [done|]. cbn [nextOffsetLoop].
  assert (len (r :: rs) = Z.succ (len rs)) as Hlen by (unfold len; cbn [length]; lia).
  pose proof (len_nonneg rs). rewrite Hlen in *.
  unfold recordOffsets in Ho. rewrite seqZ_cons in Ho by lia. cbn [fmap list_fmap] in Ho.
  injection Ho as -> Ho. destruct (Z.leb_spec n b); [|lia].
  rewrite u64_small by (unfold is_u64, max_u64 in *; lia).
  destruct rs as [|r2 rs]; [cbn [nextOffsetLoop]; change (len (@nil Rec)) with 0; lia|]. rewrite (IH (b + 1) (Z.succ b)); [lia|lia|lia|done|].
  unfold recordOffsets. rewrite Ho. f_equal. lia.
Qed.

Lemma recordAppendedPointers_refines s m tp ps rs :
  refines s m -> rs <> [] -> Forall2 (points_to (files s)) ps rs -> Forall (fun p => srp_tp p = tp) ps ->
  recordOffsets rs = seqZ (nextOffsetOf m tp) (len rs) -> nextOffsetOf m tp + len rs <= max_u64 ->
  log_inv (appendedTo m tp rs) ->
  refines (StorxLog.recordAppendedPointers s tp ps rs) (appendedTo m tp rs).
Proof.
  intros Hr Hne Hps Htp Ho Hmax Hinv.
  pose proof (ref_inv s m Hr) as Him. pose proof (log_inv_recordsOf m tp Him) as [Hms Hmb].
  pose proof (log_inv_next_u64 m tp Him) as Hu. unfold is_u64 in Hu.
  assert (Forall2 (points_to (files s)) (StorxLog.recordsOf s tp ++ ps) (recordsOf m tp ++ rs)) as Hall
    by (apply Forall2_app; [apply (ref_log s m Hr)|done]).
  assert (StronglySorted Z.lt (srp_Offset <$> (StorxLog.recordsOf s tp ++ ps))) as Hsort.
  { rewrite (points_offsets _ _ _ Hall). pose proof (log_inv_recordsOf _ tp Hinv) as [Hs _].
    by rewrite recordsOf_appendedTo, decide_True in Hs. }
  assert (NoDup (srp_Offset <$> (StorxLog.recordsOf s tp ++ ps))) as Hnd.
  { clear -Hsort. induction Hsort as [|o os _ IH Hlt]; constructor; [|done]. intros Hin.
    rewrite Forall_forall in Hlt. specialize (Hlt o Hin). lia. }
  assert (nextOffsetFromPointers (StorxLog.recordsOf s tp ++ ps) = nextOffsetOf m tp + len rs) as Hnext.
  { rewrite (nextOffsetFromPointers_records _ _ _ Hall). unfold nextOffsetFromRecords. rewrite nextOffsetLoop_app.
    pose proof (len_nonneg rs). apply nextOffsetLoop_seqZ; [|done|done|done].
    apply nextOffsetLoop_le; [lia|lia|done]. }
  unfold StorxLog.recordAppendedPointers.
  destruct (Z.eqb_spec (len ps) 0) as [Hz|_].
  { destruct Hps; [done|]. by unfold len in Hz; cbn [length] in Hz; lia. }
  rewrite sortSegmentPointers_id by done.
  match goal with |- refines (StorxLog.set_nextOffsets _ ?x) _ => set (s3 := x) end.
  assert (StorxLog.topics s3 = StorxLog.topics s /\ StorxLog.records s3 = <[tp := StorxLog.recordsOf s tp ++ ps]> (StorxLog.records s) /\
          StorxLog.timestampRecords s3 = <[tp := foldl insertSegmentTimestampPointerSorted (StorxLog.timestampsOf s tp) ps]> (StorxLog.timestampRecords s) /\
          StorxLog.nextOffsets s3 = StorxLog.nextOffsets s /\ files s3 = files s) as (Ht3 & Hr3 & Hts3 & Hn3 & Hf3).
  { unfold s3, StorxLog.recordAppendedKeyPointersLocked. by destruct (_ || _). }
  rewrite Hn3. set (s4 := StorxLog.set_nextOffsets _ s3).
  assert (forall tp', StorxLog.recordsOf s4 tp' = if decide (tp = tp') then StorxLog.recordsOf s tp ++ ps else StorxLog.recordsOf s tp') as Hrec4.
  { intros tp'. change (StorxLog.recordsOf s4 tp') with (default [] (StorxLog.records s3 !! tp')). rewrite Hr3.
    case_decide as E; [subst; by rewrite lookup_insert_eq|by rewrite lookup_insert_ne]. }
  assert (forall tp', StorxLog.timestampsOf s4 tp' = sortSegmentPointersByTimestamp (StorxLog.recordsOf s4 tp')) as Hts4.
  { intros tp'. rewrite Hrec4. change (StorxLog.timestampsOf s4 tp') with (default [] (StorxLog.timestampRecords s3 !! tp')).
    rewrite Hts3. case_decide as E; [subst; rewrite lookup_insert_eq|rewrite lookup_insert_ne by done; apply (ref_times s m Hr)].
    simpl. rewrite (ref_times s m Hr). by apply insert_timestamps. }
  split.
  - etrans; [exact Ht3|]. apply (ref_topics s m Hr).
  - done.
  - intros tp'. rewrite recordsOf_appendedTo, Hrec4. change (files s4) with (files s3). rewrite Hf3.
    case_decide; [subst; done|apply (ref_log s m Hr)].
  - intros tp'. rewrite Hrec4. case_decide; [subst|apply (ref_tp s m Hr)].
    apply Forall_app. split; [apply (ref_tp s m Hr)|done].
  - done.
  - change (StorxLog.nextOffsets s4) with (<[tp := nextOffsetFromPointers (StorxLog.recordsOf s tp ++ ps)]> (StorxLog.nextOffsets s)).
    by rewrite Hnext, (ref_next s m Hr).
Qed.

(** Appends whose records the format can hold, at times it can hold. *)
Definition segment_append (ar : RecordAppend) : Prop :=
  fits_option is_u64 (ra_TimestampMS ar) /\ len (ra_Key ar) <= maxSegmentInt /\
  len (ra_Headers ar) <= maxSegmentInt /\ Forall segment_header (ra_Headers ar) /\
  is_u16 (ra_Attributes ar) /\ fits_option segment_transaction (ra_Transaction ar) /\
  fits_option is_u64 (ra_ExpiresAtMS ar) /\ len (ra_Payload ar) <= maxSegmentInt.

Lemma recordFromAppend_typed nowMS offset topic ar r :
  is_u64 nowMS -> is_u64 offset -> segment_append ar -> recordFromAppend nowMS offset topic ar = Ok r -> segment_record r.
Proof.
  intros Hnow Hoff (Hts & Hk & Hn & Hh & Ha & Htx & Hex & Hp) Hr. unfold recordFromAppend in Hr.
  apply bind_ok in Hr as (ex & He & [= <-]). unfold segment_record. cbn.
  split_and!; try done; [by destruct (ra_TimestampMS ar)|].
  unfold appendRecordExpiresAt in He. destruct (ra_ExpiresAtMS ar); [by injection He as <-|].
  destruct (tc_MessageTTLMS topic); [|by injection He as <-]. destruct (_ <? _); [done|]. injection He as <-.
  apply is_u64_u64.
Qed.

Lemma prepareRecords_typed clock topic base i ars rs :
  (forall k, is_u64 (clock k)) -> Forall segment_append ars ->
  StorxLog.prepareRecords clock topic base i ars = Ok rs -> Forall segment_record rs.
Proof.
  intros Hclock Hw. revert i rs. induction Hw as [|ar ars Har _ IH]; intros i rs Hp; cbn [StorxLog.prepareRecords] in Hp.
  { by injection Hp as <-. }
  destruct (_ <? _); [done|]. apply bind_ok in Hp as (o & Ho & Hp). apply bind_ok in Hp as (r & Hr & Hp).
  apply bind_ok in Hp as (rs' & Hrs & [= <-]). constructor; [|by eapply IH].
  eapply recordFromAppend_typed; [apply Hclock| |exact Har|exact Hr].
  unfold StorxLog.offsetForBatchRecord in Ho. destruct (_ <? _); [done|]. injection Ho as <-. apply is_u64_u64.
Qed.

(** Why a batch that the in-memory store would take was not written. *)
Definition write_fails (c : segmentFrameCompression) (tp : TopicPartition) (rs : list Rec) (e : Code) : Prop :=
  frame_fails c rs e \/ (topic_too_long tp /\ e = CodeCodec).

Lemma estimated_positive r : segment_record r -> 0 <= estimatedSegmentFrameSize r.
Proof.
  intros Hr. unfold estimatedSegmentFrameSize. rewrite <- len_bodyBytes by done.
  unfold segmentFrameHeader, segmentBatchHeader, segmentBatchItemHeader. pose proof (len_nonneg (bodyBytes r)). lia.
Qed.

Lemma planLoop_err topic segmentID size i writes rs e :
  0 <= size -> StorxLog.planLoop topic segmentID size i writes rs = Err e ->
  exists r, r ∈ rs /\ estimatedSegmentFrameSize r < 0.
Proof.
  revert segmentID size i writes. induction rs as [|r rs IH]; intros segmentID size i writes Hsz Hp; cbn [StorxLog.planLoop] in Hp; [done|].
  destruct (Z.lt_ge_cases (estimatedSegmentFrameSize r) 0) as [Hneg|Hpos]; [exists r; split; [left|done]|].
  enough (exists sid sz, 0 <= sz /\ StorxLog.planLoop topic sid sz (S i) (StorxLog.appendBatchSegmentWrite writes sid i) rs = Err e)
    as (sid & sz & Hsz' & Hp') by (destruct (IH _ _ _ _ Hsz' Hp') as (r' & ? & ?); exists r'; split; [by right|done]).
  unfold StorxLog.segmentForBatchFrame, StorxLog.segmentHasCapacity in Hp.
  destruct ((tc_SegmentMaxBytes topic =? 0) || (size =? 0)); cbn [mbind result_bind] in Hp; [eexists _, _; split; [|exact Hp]; lia|].
  destruct (Z.ltb_spec size 0); [lia|]. destruct (Z.ltb_spec (estimatedSegmentFrameSize r) 0); [lia|].
  cbn [mbind result_bind] in Hp. destruct (_ && _); cbn [mbind result_bind] in Hp; eexists _, _; (split; [|exact Hp]); lia.
Qed.

Lemma planBatchSegmentWrites_total s topic tp rs e :
  Forall segment_record rs -> StorxLog.planBatchSegmentWrites s topic tp rs <> Err e.
Proof.
  intros Htyped Hplan. destruct rs as [|r rs]; [done|]. cbn [StorxLog.planBatchSegmentWrites] in Hplan.
  destruct (StorxLog.initialBatchSegment s topic tp (r_Offset r)) as [sid sz] eqn:Hi.
  assert (0 <= sz) as Hsz.
  { unfold StorxLog.initialBatchSegment in Hi. repeat case_match; injection Hi as <- <-; (apply len_nonneg || lia). }
  apply planLoop_err in Hplan as (r' & Hr' & Hneg); [|done]. rewrite Forall_forall in Htyped.
  pose proof (estimated_positive r' (Htyped r' Hr')). lia.
Qed.

(** The steps of a successful append: frames, then index entries, then the
    maps in memory. *)
Definition append_steps (s s' : StorxLogStore) (m : MemoryStore) (tp : TopicPartition) (rs : list Rec) : Prop :=
  exists s1 s2 ps,
    appended_frames s s1 /\ written s s1 ((srp_SegmentID <$> StorxLog.recordsOf s tp) ++ recordOffsets rs) ps /\
    Forall2 (points_to (files s1)) ps rs /\ Forall (fun p => srp_tp p = tp) ps /\
    StorxLog.appendBatchSegmentIndexes s1 tp ps = (s2, Ok tt) /\
    s' = StorxLog.recordAppendedPointers s2 tp ps rs /\
    rs <> [] /\ Forall segment_record rs /\ recordOffsets rs = seqZ (nextOffsetOf m tp) (len rs) /\
    nextOffsetOf m tp + len rs <= max_u64 /\ log_inv (appendedTo m tp rs) /\ validatePartitionLocked m tp = Ok tt.

Lemma written_ids s s' ids ids' ps : ids ⊆ ids' -> written s s' ids ps -> written s s' ids' ps.
Proof. intros Hsub [Hi Hd]. split; [|done]. eapply Forall_impl; [exact Hi|]. intros p. apply Hsub. Qed.

Lemma appendRecordsBatchDirect_steps clock s m tp ars s' res :
  refines s m -> (forall k, is_u64 (clock k)) -> Forall segment_append ars -> ars <> [] ->
  nextOffsetOf m tp + len ars <= max_u64 ->
  StorxLog.appendRecordsBatchDirect clock s tp ars = (s', res) ->
  match res with
  | Ok rs => AppendRecordsBatch clock m tp ars = (appendedTo m tp rs, Ok rs) /\ length rs = length ars /\ append_steps s s' m tp rs
  | Err e => (s' = s /\ exists m', AppendRecordsBatch clock m tp ars = (m', Err e)) \/
             ((exists s1, appended_frames s s1 /\ only_indexes s1 s') /\
              exists rs, AppendRecordsBatch clock m tp ars = (appendedTo m tp rs, Ok rs) /\ write_fails (compression s) tp rs e)
  end.
Proof.
  intros Hr Hclock Hw Hne Hroom. pose proof (ref_inv s m Hr) as Hinv.
  pose proof (log_inv_next_u64 m tp Hinv) as Hu. unfold is_u64 in Hu.
  unfold StorxLog.appendRecordsBatchDirect. destruct (Z.eqb_spec (len ars) 0) as [Hz|_]; [by destruct ars|].
  unfold StorxLog.prepareAppendBatch. pose proof (refines_validate s m tp Hr) as Hv.
  destruct (StorxLog.loadTopicForPartition s tp) as [topic|e]; cbn [mbind result_bind].
  2: { intros [= <- <-]. left. split; [done|]. destruct ars as [|ar ars]; [done|]. cbn [AppendRecordsBatch].
       unfold AppendRecord. unfold validatePartitionLocked in Hv. destruct (topics m !! tp_Topic tp) as [topic|];
         [|injection Hv as ->; by eexists]. destruct (tc_Partitions topic <=? tp_Partition tp); [injection Hv as ->; by eexists|done]. }
  destruct Hv as [Ht Hvalid]. pose proof Hvalid as (topic' & Ht' & Hp)%validatePartition_ok. assert (topic' = topic) as -> by congruence.
  rewrite (refines_nextOffset s m tp Hr).
  pose proof (memory_append clock clock m tp topic (nextOffsetOf m tp) 0 ars Hinv Ht Hp ltac:(lia) ltac:(lia) ltac:(done) Hne) as Hmem.
  destruct (StorxLog.prepareRecords clock topic (nextOffsetOf m tp) 0 ars) as [rs|e] eqn:Hprep; cbn [mbind result_bind].
  2: { intros [= <- <-]. by left. }
  destruct (prepareRecords_offsets clock topic (nextOffsetOf m tp) 0 ars rs ltac:(lia) ltac:(lia) Hprep) as [Ho Hl].
  rewrite Z.add_0_r in Ho. assert (len ars = len rs) as Hlen by (unfold len; lia). rewrite Hlen in *.
  pose proof (prepareRecords_typed _ _ _ _ _ _ Hclock Hw Hprep) as Htyped.
  assert (NoDup (r_Offset <$> rs)) as Hnd by (unfold recordOffsets in Ho; rewrite Ho; apply NoDup_seqZ).
  assert (rs <> []) as Hrs by (intros ->; destruct ars; done).
  destruct (StorxLog.planBatchSegmentWrites s topic tp rs) as [writes|e] eqn:Hplan; cbn [mbind result_bind].
  2: { exfalso. by eapply planBatchSegmentWrites_total. }
  pose proof (planBatchSegmentWrites_ids _ _ _ _ _ Hplan) as Hids.
  apply planBatchSegmentWrites_spec in Hplan as [Hplan Hok].
  unfold StorxLog.commitAppendBatch. cbn [StorxLog.abp_records].
  destruct (StorxLog.appendBatchFrames s tp (StorxLog.mkBatchPlan rs writes)) as [s1 [ps|e]] eqn:Hfr;
    destruct (appendBatchFrames_spec _ _ _ _ _ _ Htyped Hnd Hplan Hok Hfr) as [Ha Hres].
  2: { intros [= <- <-]. right. split; [exists s1; split; [done|apply only_indexes_refl]|].
       exists rs. split; [done|]. by left. }
  destruct Hres as (Hps & Htp & Hwr).
  pose proof (appendBatchSegmentIndexes_only s1 tp ps) as Hix.
  destruct (StorxLog.appendBatchSegmentIndexes s1 tp ps) as [s2 [[]|e]] eqn:Hi; cbn in Hix.
  - intros [= <- <-]. split; [done|]. split; [done|]. exists s1, s2, ps.
    split_and!; try done; [by eapply written_ids|].
    destruct (AppendRecordsBatch_spec clock m tp ars _ _ Hinv ltac:(lia) Hmem) as (? & _ & _ & _ & Hi' & _). done.
  - intros [= <- <-]. right. split; [by exists s1|]. exists rs. split; [done|]. right.
    eapply appendBatchSegmentIndexes_err; [|exact Hi].
    apply Forall_lookup. intros i p Hp'. destruct (Forall2_lookup_l _ _ _ _ _ Hps Hp') as (r & _ & Hpt).
    apply points_to_fields in Hpt as (_ & _ & _ & _ & Hpos & Hlen'). split_and!; [|done|done]. by eapply Forall_lookup_1 in Htp.
Qed.

Lemma append_steps_refines s s' m tp rs : refines s m -> append_steps s s' m tp rs -> refines s' (appendedTo m tp rs).
Proof.
  intros Hr (s1 & s2 & ps & Ha & _ & Hps & Htp & Hi & -> & Hne & _ & Ho & Hmax & Hinv & _).
  pose proof (appendBatchSegmentIndexes_only s1 tp ps) as Hix. rewrite Hi in Hix. cbn in Hix.
  pose proof (refines_appended_frames _ _ _ Hr Ha) as Hr1.
  apply recordAppendedPointers_refines; try done; [by eapply refines_only_indexes|].
  eapply Forall2_impl; [exact Hps|]. intros p r. apply points_to_extended, extended_segments. by rewrite Hix.
Qed.

Lemma appendRecordsBatchDirect_refines clock s m tp ars s' res :
  refines s m -> (forall k, is_u64 (clock k)) -> Forall segment_append ars -> ars <> [] ->
  nextOffsetOf m tp + len ars <= max_u64 ->
  StorxLog.appendRecordsBatchDirect clock s tp ars = (s', res) ->
  match res with
  | Ok rs => AppendRecordsBatch clock m tp ars = (appendedTo m tp rs, Ok rs) /\ refines s' (appendedTo m tp rs) /\
             length rs = length ars
  | Err e => refines s' m /\
             ((exists m', AppendRecordsBatch clock m tp ars = (m', Err e)) \/
              (exists rs, AppendRecordsBatch clock m tp ars = (appendedTo m tp rs, Ok rs) /\ write_fails (compression s) tp rs e))
  end.
Proof.
  intros Hr Hclock Hw Hne Hroom Hrun.
  pose proof (appendRecordsBatchDirect_steps _ _ _ _ _ _ _ Hr Hclock Hw Hne Hroom Hrun) as Hst. destruct res as [rs|e].
  - destruct Hst as (Hm & Hl & Hst). split_and!; [done| |done]. by eapply append_steps_refines.
  - destruct Hst as [[-> Hm]|[(s1 & Ha & Hi) Hwhy]]; [split; [done|by left]|].
    split; [|by right]. eapply refines_only_indexes; [|exact Hi]. by eapply refines_appended_frames.
Qed.

(** ** The pipeline *)

(** What the requests of one flush are sent. *)
Definition answered (requests : list (list RecordAppend)) (results : list (result Code (list Rec))) (rs : list Rec) : Prop :=
  exists chunks, results = Ok <$> chunks /\ rs = concat chunks /\
    Forall2 (fun request chunk => length chunk = length request) requests chunks.

Lemma complete_ok requests rs :
  length rs = length (concat requests) -> answered requests (StorxLog.completeAppendPipelineRequests requests (Ok rs)) rs.
Proof.
  revert rs. induction requests as [|request requests IH]; intros rs Hl; cbn [StorxLog.completeAppendPipelineRequests concat] in *.
  { exists []. destruct rs; done. }
  rewrite length_app in Hl. destruct (IH (drop (length request) rs)) as (chunks & -> & Hrs & Hf); [rewrite length_drop; lia|].
  exists (take (length request) rs :: chunks). cbn [fmap list_fmap concat]. rewrite <- Hrs, take_drop.
  split_and!; [done|done|]. constructor; [rewrite length_take; lia|done].
Qed.

Lemma complete_err requests e :
  StorxLog.completeAppendPipelineRequests requests (Err e) = replicate (length requests) (Err e).
Proof. induction requests as [|r requests IH]; [done|]. cbn. by rewrite IH. Qed.

Lemma flush_refines clock s m tp requests s' results :
  refines s m -> (forall k, is_u64 (clock k)) -> Forall segment_append (concat requests) -> concat requests <> [] ->
  nextOffsetOf m tp + len (concat requests) <= max_u64 ->
  StorxLog.flush clock s tp requests = (s', results) ->
  (exists rs m', AppendRecordsBatch clock m tp (concat requests) = (m', Ok rs) /\ refines s' m' /\ answered requests results rs) \/
  (exists e, results = replicate (length requests) (Err e) /\ refines s' m /\
     ((exists m', AppendRecordsBatch clock m tp (concat requests) = (m', Err e)) \/
      (exists rs m', AppendRecordsBatch clock m tp (concat requests) = (m', Ok rs) /\ write_fails (compression s) tp rs e))).
Proof.
  intros Hr Hclock Hw Hne Hroom. unfold StorxLog.flush.
  destruct (StorxLog.appendRecordsBatchDirect clock s tp (concat requests)) as [s1 res] eqn:Hd.
  pose proof (appendRecordsBatchDirect_refines _ _ _ _ _ _ _ Hr Hclock Hw Hne Hroom Hd) as Hres.
  destruct res as [rs|e].
  - destruct Hres as (Hm & Hr1 & Hl). destruct (Z.eqb_spec (len rs) (len (concat requests))) as [_|Hbad]; [|unfold len in Hbad; lia].
    intros [= <- <-]. left. exists rs, (appendedTo m tp rs). split_and!; [done|done|]. by apply complete_ok.
  - destruct Hres as (Hr1 & Hwhy). intros [= <- <-]. right. exists e. rewrite complete_err. split_and!; [done|done|].
    destruct Hwhy as [Hm|(rs & Hm & Hf)]; [by left|right]. by eexists _, _.
Qed.

(** The pipeline takes requests in their order, at least the first one, and
    leaves the others where they are. *)
Lemma drainLoop_order requests count waiting :
  let '(taken, rest) := StorxLog.drainLoop requests count waiting in
  taken ++ rest = requests ++ waiting /\ exists more, taken = requests ++ more.
Proof.
  revert requests count. induction waiting as [|w waiting IH]; intros requests count; cbn [StorxLog.drainLoop].
  { split; [done|]. exists []. by rewrite app_nil_r. }
  destruct (_ && _).
  - specialize (IH (requests ++ [w]) (count + len w)). destruct (StorxLog.drainLoop _ _ waiting) as [taken rest].
    destruct IH as (Heq & more & ->). split; [by rewrite Heq, <- (assoc_L (++))|].
    exists ([w] ++ more). by rewrite (assoc_L (++)).
  - split; [done|]. exists []. by rewrite app_nil_r.
Qed.

Lemma AppendRecordsBatch_refines clock s m tp ars s' res :
  refines s m -> (forall k, is_u64 (clock k)) -> Forall segment_append ars ->
  nextOffsetOf m tp + len ars <= max_u64 ->
  StorxLog.AppendRecordsBatch clock s tp ars = (s', res) ->
  match res with
  | Ok rs => exists m', AppendRecordsBatch clock m tp ars = (m', Ok rs) /\ refines s' m'
  | Err e => refines s' m /\
             ((exists m', AppendRecordsBatch clock m tp ars = (m', Err e)) \/
              (exists rs m', AppendRecordsBatch clock m tp ars = (m', Ok rs) /\ write_fails (compression s) tp rs e))
  end.
Proof.
  intros Hr Hclock Hw Hroom. unfold StorxLog.AppendRecordsBatch.
  destruct (Z.eqb_spec (len ars) 0) as [Hz|Hnz].
  { destruct ars; [|unfold len in Hz; cbn [length] in Hz; lia]. intros [= <- <-]. by exists m. }
  unfold StorxLog.drain. cbn [StorxLog.drainLoop]. destruct (StorxLog.flush clock s tp [ars]) as [s1 results] eqn:Hf.
  intros [= <- <-].
  assert (concat [ars] = ars) as Hc by (cbn; by rewrite app_nil_r).
  eapply flush_refines in Hf; rewrite ?Hc in *; [|done|done|done|by intros ->|done].
  destruct Hf as [(rs & m' & Hm & Hr' & chunks & -> & -> & Hch)|(e & -> & Hr' & Hwhy)].
  - inversion Hch as [|? chunk ? ? _ Hnil]; subst. inversion Hnil; subst. cbn in *. rewrite app_nil_r in *. by exists m'.
  - done.
Qed.

End Append.
