(* ===== verification/SegmentCleanSpec.v ===== *)
(** * The file-backed log refines the in-memory log: topics, retention and compaction

    Creating a topic, enforcing retention and compacting do to a file-backed
    store what they do to the in-memory store it stands for.  Compaction
    does so as long as the key index, once it is built, knows the last
    record of every key ([keys_complete]). *)

From stdpp Require Import prelude gmap strings sorting list.
From S2P Require Import Prelude Model MemoryStore Cleanup LogSpec CleanupSpec Wire WireSpec SegmentFrame SegmentFrameSpec SegmentIndex SegmentIndexSpec SegmentLog SegmentAppendSpec.

#[local] Open Scope Z_scope.
Import StorxLog (Files, StorxLogStore, segments, indexes, manifest, files, compression).

(** ** Topics *)

Lemma ensurePartitionLocked_spec n s p :
  (forall tp, StorxLog.nextOffsets s !! tp = None -> StorxLog.recordsOf s tp = []) ->
  let s' := StorxLog.ensurePartitionLocked n s p in
  (forall tp, StorxLog.recordsOf s' tp = StorxLog.recordsOf s tp) /\
  (forall tp, StorxLog.nextOffsets s' !! tp =
     match StorxLog.nextOffsets s !! tp with
     | Some next => Some next
     | None => if decide (tp = NewTopicPartition n p) then Some 0 else None
     end) /\
  StorxLog.timestampRecords s' = StorxLog.timestampRecords s /\
  StorxLog.topics s' = StorxLog.topics s /\ files s' = files s /\
  StorxLog.keyRecords s' = StorxLog.keyRecords s /\ StorxLog.keyIndexReady s' = StorxLog.keyIndexReady s /\
  compression s' = compression s.
Proof.
  intros Hdom. unfold StorxLog.ensurePartitionLocked. cbv zeta. set (tp0 := NewTopicPartition n p).
  set (s1 := match StorxLog.records s !! tp0 with Some _ => s | None => _ end).
  assert (forall tp, StorxLog.recordsOf s1 tp = StorxLog.recordsOf s tp) as Hr1.
  { intros tp. unfold s1. destruct (StorxLog.records s !! tp0) eqn:E; [done|].
    unfold StorxLog.recordsOf. cbn. destruct (decide (tp0 = tp)) as [<-|Hne]; [by rewrite lookup_insert_eq, E|by rewrite lookup_insert_ne]. }
  assert (StorxLog.nextOffsets s1 = StorxLog.nextOffsets s /\ StorxLog.timestampRecords s1 = StorxLog.timestampRecords s /\
          StorxLog.topics s1 = StorxLog.topics s /\ files s1 = files s /\ StorxLog.keyRecords s1 = StorxLog.keyRecords s /\
          StorxLog.keyIndexReady s1 = StorxLog.keyIndexReady s /\ compression s1 = compression s) as (Hn1 & Hrest).
  { unfold s1. by destruct (StorxLog.records s !! tp0). }
  rewrite Hn1. destruct (StorxLog.nextOffsets s !! tp0) as [x|] eqn:Ex.
  - split; [done|]. split; [|done]. intros tp. rewrite Hn1. destruct (StorxLog.nextOffsets s !! tp) eqn:E; [done|].
    case_decide as Hd; [|done]. subst tp. fold tp0 in E. congruence.
  - split; [done|]. split; [|done]. intros tp. cbn. rewrite Hr1, (Hdom _ Ex).
    destruct (decide (tp = tp0)) as [->|Hne]; [by rewrite lookup_insert_eq, Ex|].
    rewrite lookup_insert_ne by done. by destruct (StorxLog.nextOffsets s !! tp).
Qed.

Lemma ensurePartitions_spec n ps s :
  (forall tp, StorxLog.nextOffsets s !! tp = None -> StorxLog.recordsOf s tp = []) ->
  let s' := foldl (StorxLog.ensurePartitionLocked n) s ps in
  (forall tp, StorxLog.recordsOf s' tp = StorxLog.recordsOf s tp) /\
  (forall tp, StorxLog.nextOffsets s' !! tp =
     match StorxLog.nextOffsets s !! tp with
     | Some next => Some next
     | None => if decide (tp_Topic tp = n /\ tp_Partition tp ∈ ps) then Some 0 else None
     end) /\
  StorxLog.timestampRecords s' = StorxLog.timestampRecords s /\
  StorxLog.topics s' = StorxLog.topics s /\ files s' = files s /\
  StorxLog.keyRecords s' = StorxLog.keyRecords s /\ StorxLog.keyIndexReady s' = StorxLog.keyIndexReady s /\
  compression s' = compression s.
Proof.
  revert s. induction ps as [|p ps IH]; intros s Hdom; cbn [foldl].
  { split; [done|]. split; [|done]. intros tp. case_decide as Hd; [by destruct Hd as [_ ?%elem_of_nil]|].
    by destruct (StorxLog.nextOffsets s !! tp). }
  destruct (ensurePartitionLocked_spec n s p Hdom) as (Hr1 & Hn1 & H1).
  destruct (IH (StorxLog.ensurePartitionLocked n s p)) as (Hr2 & Hn2 & H2).
  { intros tp. rewrite Hn1, Hr1. destruct (StorxLog.nextOffsets s !! tp) eqn:E; [done|]. intros _. by apply Hdom. }
  split; [intros tp; by rewrite Hr2|]. split; [|destruct_and!; split_and!; congruence].
  intros tp. rewrite Hn2, Hn1. destruct (StorxLog.nextOffsets s !! tp); [done|].
  destruct tp as [t q]; cbn. repeat case_decide; simplify_eq; try done; set_solver.
Qed.

Section Topics.
Context `{Zstd} `{ManifestCodec} `{MapRange}.

Lemma refines_dom s m tp :
  refines s m -> StorxLog.nextOffsets s !! tp = None -> StorxLog.recordsOf s tp = [].
Proof.
  intros Hr Hn. rewrite (ref_next s m Hr) in Hn.
  pose proof (ref_log s m Hr tp) as Hlog. unfold recordsOf in Hlog.
  rewrite (log_inv_next_None m tp (ref_inv s m Hr) Hn) in Hlog. by inversion Hlog.
Qed.

Lemma persist_ok s :
  (forall n t, StorxLog.topics s !! n = Some t -> representable t) ->
  exists data, StorxLog.persistLogManifest s =
    (StorxLog.set_files (StorxLog.set_manifest (Some data) (files s)) s, Ok tt) /\
    Unmarshal data = Some (StorxLog.sortTopics (values (StorxLog.topics s))).
Proof.
  intros Hrep. destruct (Unmarshal_MarshalIndent (StorxLog.sortTopics (values (StorxLog.topics s)))) as (data & Hm & Hu).
  - apply Forall_forall. intros t Ht. unfold StorxLog.sortTopics in Ht. rewrite sort_func_perm in Ht.
    unfold values in Ht. apply list_elem_of_fmap in Ht as ([n t'] & -> & Hin). rewrite range_perm in Hin.
    apply elem_of_map_to_list in Hin. by eapply Hrep.
  - exists data. split; [|done]. unfold StorxLog.persistLogManifest. by rewrite Hm.
Qed.

Definition topics_representable (s : StorxLogStore) (topic : TopicConfig) : Prop :=
  representable (normalizeTopic topic) /\ forall n t, StorxLog.topics s !! n = Some t -> representable t.

(** What a new topic changes. *)
Definition created (s s' : StorxLogStore) (m m' : MemoryStore) (topic : TopicConfig) : Prop :=
  (exists data, files s' = StorxLog.set_manifest (Some data) (files s) /\
     Unmarshal data = Some (StorxLog.sortTopics (values (topics m')))) /\
  (forall tp, StorxLog.recordsOf s' tp = StorxLog.recordsOf s tp) /\
  StorxLog.keyRecords s' = StorxLog.keyRecords s /\ StorxLog.keyIndexReady s' = StorxLog.keyIndexReady s /\
  topics m !! tc_Name topic = None /\ topics m' = <[tc_Name topic := topic]> (topics m) /\
  (forall tp, recordsOf m' tp = recordsOf m tp) /\ (forall tp, nextOffsetOf m' tp = nextOffsetOf m tp) /\
  (forall tp next, nextOffsets m' !! tp = Some next ->
     nextOffsets m !! tp = Some next \/ (tp_Topic tp = tc_Name topic /\ 0 <= tp_Partition tp < tc_Partitions topic)).

Lemma CreateTopic_refines s m topic :
  refines s m -> topics_representable s topic ->
  let '(s', res) := StorxLog.CreateTopic s topic in
  let '(m', res') := CreateTopic m topic in
  res = res' /\ refines s' m' /\
  match res with Ok _ => created s s' m m' (normalizeTopic topic) | Err _ => s' = s /\ m' = m end.
Proof.
  intros Hr [Hrep Hreps]. unfold StorxLog.CreateTopic, CreateTopic, StorxLog.validateLogTopicForCreate, StorxLog.registerLogTopic.
  case_decide; [done|]. destruct (tc_Partitions topic =? 0); [done|].
  rewrite (ref_topics s m Hr), (li_names m (ref_inv s m Hr)).
  destruct (topics m !! tc_Name (normalizeTopic topic)) as [t|] eqn:Et.
  { rewrite decide_True by (by apply elem_of_dom). done. }
  rewrite decide_False by (by apply not_elem_of_dom).
  set (nt := normalizeTopic topic) in *.
  set (s1 := StorxLog.set_topics (<[tc_Name nt := nt]> (topics m)) s).
  destruct (ensurePartitions_spec (tc_Name nt) (seqZ 0 (tc_Partitions nt)) s1) as (Hrec & Hnext & Hts & Htop & Hf & Hkr & Hki & _).
  { intros tp. apply (refines_dom s m tp Hr). }
  unfold StorxLog.ensureTopicPartitionsLocked. set (s2 := foldl _ s1 _) in *.
  destruct (persist_ok s2) as (data & Hp & Hdata).
  { intros n t. rewrite Htop. cbn. rewrite lookup_insert. case_decide; [by intros [= <-]|].
    rewrite <- (ref_topics s m Hr). apply Hreps. }
  rewrite Hp. split; [done|].
  destruct (put_topic_inv (fun _ _ => 0) m nt) as (Hinv & Hmnext & Hmrec);
    [done|apply normalizeTopic_facts|apply (ref_inv s m Hr)|].
  rewrite (li_names m (ref_inv s m Hr)) in Hinv, Hmrec, Hmnext.
  match goal with |- refines _ ?x /\ _ => set (m2 := x) in * end.
  assert (topics m2 = <[tc_Name nt := nt]> (topics m)) as Htm by (etrans; [apply foldl_ensure_frame|done]).
  assert (forall tp, nextOffsets m2 !! tp = match nextOffsets m !! tp with Some next => Some next
            | None => if decide (tp_Topic tp = tc_Name nt /\ tp_Partition tp ∈ seqZ 0 (tc_Partitions nt)) then Some 0 else None end) as Hnx.
  { intros tp. unfold m2. rewrite (foldl_ensure_next (fun _ _ => 0) (tc_Name nt)); [done|done|].
    intros tp'. cbn. apply (log_inv_next_None m tp' (ref_inv s m Hr)). }
  split; [|split_and!; try done].
  2: { exists data. split; [cbn; by rewrite Hf|]. rewrite Hdata, Htop, Htm. done. }
  2: { intros tp next. rewrite Hnx. destruct (nextOffsets m !! tp); [by left|]. case_decide as Hd; [|done].
       rewrite elem_of_seqZ in Hd. intros _. right. destruct Hd. split; [done|lia]. }
  split; cbn.
  - by rewrite Htop, Htm.
  - done.
  - intros tp. change (StorxLog.recordsOf _ tp) with (StorxLog.recordsOf s2 tp). rewrite Hrec, Hmrec.
    eapply Forall2_impl; [apply (ref_log s m Hr)|]. intros p r. apply points_to_extended, extended_segments. cbn. by rewrite Hf.
  - intros tp. change (StorxLog.recordsOf _ tp) with (StorxLog.recordsOf s2 tp). rewrite Hrec. apply (ref_tp s m Hr).
  - intros tp. change (StorxLog.recordsOf _ tp) with (StorxLog.recordsOf s2 tp). rewrite Hrec.
    unfold StorxLog.timestampsOf at 1. cbn. rewrite Hts. apply (ref_times s m Hr).
  - apply map_eq. intros tp. rewrite Hnext, Hnx. cbn. by rewrite (ref_next s m Hr).
Qed.

End Topics.

(** ** Removing records *)

Lemma Forall_sublist {A} (P : A -> Prop) l k : l `sublist_of` k -> Forall P k -> Forall P l.
Proof. induction 1; intros Hk; inversion Hk; subst; auto. Qed.

Lemma StronglySorted_filter {A} (R : relation A) (P : A -> Prop) `{!forall x, Decision (P x)} l :
  StronglySorted R l -> StronglySorted R (filter P l).
Proof.
  induction 1 as [|x l _ IH Hall]; [constructor|]. rewrite filter_cons. case_decide; [|done].
  constructor; [done|]. by eapply Forall_sublist; [apply sublist_filter|].
Qed.

Section Clean.
Context `{Zstd} `{ManifestCodec} `{MapRange}.

Lemma filter_points f (remove : gset Z) ps rs :
  Forall2 (points_to f) ps rs ->
  Forall2 (points_to f) (filter (fun p => srp_Offset p ∉ remove) ps) (filter (fun r => r_Offset r ∉ remove) rs) /\
  len (filter (fun p => srp_Offset p ∈ remove) ps) = len rs - len (filter (fun r => r_Offset r ∉ remove) rs).
Proof.
  induction 1 as [|p r ps rs Hp _ [IH1 IH2]]; [done|]. destruct (points_to_fields _ _ _ Hp) as (Ho & _).
  rewrite !filter_cons, Ho. repeat case_decide; try tauto; rewrite !len_cons, IH2; (split; [by try constructor|lia]).
Qed.

Lemma filter_timestamps (remove : gset Z) ps :
  NoDup (srp_Offset <$> ps) ->
  filter (fun p => srp_Offset p ∉ remove) (sortSegmentPointersByTimestamp ps)
  = sortSegmentPointersByTimestamp (filter (fun p => srp_Offset p ∉ remove) ps).
Proof.
  intros Hnd. set (P := fun p => srp_Offset p ∉ remove).
  assert (filter P (sortSegmentPointersByTimestamp ps) ≡ₚ filter P ps) as Hp
    by (apply filter_Permutation, sort_func_perm).
  rewrite <- (timestamp_order_unique (filter P (sortSegmentPointersByTimestamp ps)) (filter P ps)).
  - symmetry. apply sort_func_id; [apply _|..].
    + intros x y Hx Hy E. unfold comparePointerTimestamp in E. cmp_eq_inv.
      apply list_elem_of_filter in Hx as [_ Hx]. apply list_elem_of_filter in Hy as [_ Hy].
      unfold sortSegmentPointersByTimestamp in Hx, Hy. rewrite sort_func_perm in Hx, Hy.
      apply list_elem_of_lookup in Hx as [i Hi]. apply list_elem_of_lookup in Hy as [j Hj].
      enough (i = j) as -> by congruence.
      eapply (NoDup_lookup (srp_Offset <$> ps)); [done|by rewrite list_lookup_fmap, Hi|].
      rewrite list_lookup_fmap, Hj. simpl. congruence.
    + apply StronglySorted_filter. apply sort_func_sorted; apply _.
  - rewrite Hp. eapply sublist_NoDup; [exact Hnd|]. by apply fmap_sublist, sublist_filter.
  - done.
Qed.

Lemma removeRecordPointers_frame s tp remove :
  let '(s', removed) := StorxLog.removeRecordPointers s tp remove in
  StorxLog.topics s' = StorxLog.topics s /\ files s' = files s /\ compression s' = compression s /\
  StorxLog.records s' = <[tp := filter (fun p => srp_Offset p ∉ remove) (StorxLog.recordsOf s tp)]> (StorxLog.records s) /\
  StorxLog.timestampRecords s' =
    <[tp := filter (fun p => srp_Offset p ∉ remove) (StorxLog.timestampsOf s tp)]> (StorxLog.timestampRecords s) /\
  StorxLog.nextOffsets s' =
    <[tp := Z.max (default (nextOffsetFromPointers (StorxLog.recordsOf s tp)) (StorxLog.nextOffsets s !! tp))
                  (nextOffsetFromPointers (filter (fun p => srp_Offset p ∉ remove) (StorxLog.recordsOf s tp)))]>
      (StorxLog.nextOffsets s) /\
  removed = filter (fun p => srp_Offset p ∈ remove) (StorxLog.recordsOf s tp).
Proof.
  unfold StorxLog.removeRecordPointers, StorxLog.removeKeyPointersLocked. cbv zeta.
  destruct (negb _); [done|]. by case_match.
Qed.

Lemma refines_nodup s m tp : refines s m -> NoDup (srp_Offset <$> StorxLog.recordsOf s tp).
Proof.
  intros Hr. rewrite (points_offsets _ _ _ (ref_log s m Hr tp)).
  destruct (log_inv_recordsOf m tp (ref_inv s m Hr)) as [Hs _]. revert Hs.
  induction 1 as [|o os _ IH Hlt]; constructor; [|done]. intros Hin.
  rewrite Forall_forall in Hlt. specialize (Hlt o Hin). lia.
Qed.

Lemma removeRecordPointers_refines removable s m topic tp s' removed :
  refines s m -> (forall t, removable t [] = ∅) -> removable topic (recordsOf m tp) <> ∅ ->
  StorxLog.removeRecordPointers s tp (removable topic (recordsOf m tp)) = (s', removed) ->
  exists m', cleanPartition removable m (topic, tp) = (m', Some (len removed)) /\ refines s' m'.
Proof.
  intros Hr Hnil Hne Hrem.
  pose proof (removeRecordPointers_frame s tp (removable topic (recordsOf m tp))) as Hf. rewrite Hrem in Hf.
  pose proof (cleanPartition_cleaned removable Hnil m (topic, tp)) as Hc.
  pose proof (cleanPartition_records removable m topic tp) as Hrecs.
  destruct (cleaned_inv _ _ Hc (ref_inv s m Hr)) as [Hinv _].
  unfold cleanPartition in *. set (remove := removable topic (recordsOf m tp)) in *.
  rewrite decide_False in * by done.
  destruct Hf as (Ht & Hfi & _ & Hrec & Hts & Hnx & ->).
  destruct (filter_points (files s) remove _ _ (ref_log s m Hr tp)) as [Hpts Hcount].
  destruct (filterRemovedRecords_filter (recordsOf m tp) remove) as [Hk1 Hk2].
  destruct (filterRemovedRecords (recordsOf m tp) remove) as [kept n]. cbn in Hk1, Hk2, Hc, Hrecs, Hinv. subst kept.
  eexists. split; [by rewrite Hk2, Hcount|].
  assert (forall tp', StorxLog.recordsOf s' tp' = if decide (tp' = tp) then filter (fun p => srp_Offset p ∉ remove) (StorxLog.recordsOf s tp)
            else StorxLog.recordsOf s tp') as Hrec'.
  { intros tp'. unfold StorxLog.recordsOf at 1. rewrite Hrec, lookup_insert. repeat case_decide; done. }
  split.
  - rewrite Ht. apply (ref_topics s m Hr).
  - done.
  - intros tp'. rewrite Hrecs, Hrec', Hfi. case_decide; [|apply (ref_log s m Hr)]. unfold survivors. subst tp'. done.
  - intros tp'. rewrite Hrec'. case_decide; [|apply (ref_tp s m Hr)]. subst. eapply Forall_sublist; [apply sublist_filter|apply (ref_tp s m Hr)].
  - intros tp'. rewrite Hrec'. unfold StorxLog.timestampsOf at 1. rewrite Hts, lookup_insert.
    destruct (decide (tp = tp')) as [<-|Hd].
    + rewrite decide_True by done. cbn. rewrite (ref_times s m Hr). apply filter_timestamps. by eapply refines_nodup.
    + rewrite decide_False by done. apply (ref_times s m Hr).
  - rewrite Hnx. cbn. rewrite <- (ref_next s m Hr). apply insert_id.
    rewrite (nextOffsetFromPointers_records _ _ _ Hpts).
    destruct (StorxLog.nextOffsets s !! tp) as [next|] eqn:E.
    + cbn. f_equal. pose proof (refines_next s m tp Hr) as Hn. rewrite E in Hn. cbn in Hn. subst next.
      destruct (log_inv_recordsOf m tp (ref_inv s m Hr)) as [_ Hb].
      pose proof (log_inv_next_u64 m tp (ref_inv s m Hr)) as Hu. unfold is_u64 in Hu.
      rewrite Z.max_l; [done|]. apply nextOffsetLoop_le; [lia|unfold max_u64; lia|].
      eapply Forall_sublist; [|exact Hb]. apply fmap_sublist, sublist_filter.
    + exfalso. apply Hne. rewrite (ref_next s m Hr) in E. unfold remove, recordsOf.
      by rewrite (log_inv_next_None m tp (ref_inv s m Hr) E).
Qed.

(** *** The index entries of removed records *)

Definition deletedEntry (p : segmentRecordPointer) : segmentIndexEntry := mkIndexEntry p true.

Lemma deletesByPath_lookup ps path :
  StorxLog.deletesByPath ps !! path =
    match filter (fun p => pathOf p = path) ps with [] => None | l => Some (deletedEntry <$> l) end.
Proof.
  unfold StorxLog.deletesByPath. induction ps as [|p ps IH] using rev_ind; [done|].
  rewrite foldl_snoc, filter_app, filter_cons, filter_nil. cbv zeta. rewrite lookup_insert.
  change (srp_tp p, srp_SegmentID p) with (pathOf p). case_decide as Hd.
  - rewrite Hd, IH. destruct (filter _ ps) as [|q l]; [done|]. cbn [default app fmap list_fmap]. by rewrite fmap_app.
  - by rewrite app_nil_r, IH.
Qed.

Lemma appendSegmentIndexEntries_ok s path ps tp (entry : segmentRecordPointer -> segmentIndexEntry) :
  (forall p, sie_Pointer (entry p) = p) ->
  Forall (placed tp) ps -> ~ topic_too_long tp ->
  exists s', StorxLog.appendSegmentIndexEntries s path (entry <$> ps) = (s', Ok tt) /\ only_indexes s s'.
Proof.
  intros Hentry Hps Htp. pose proof (appendSegmentIndexEntries_only s path (entry <$> ps)) as Ho.
  destruct (StorxLog.appendSegmentIndexEntries s path (entry <$> ps)) as [s' [[]|e]] eqn:E; [by exists s'|].
  exfalso. apply Htp. unfold StorxLog.appendSegmentIndexEntries, encodeSegmentIndexEntries in E.
  destruct (encodeEntriesLoop [] (entry <$> ps)) as [b|e'] eqn:He; [done|].
  eapply (encodeEntriesLoop_err _ _ _ tp) in He as [? _]; [done|]. apply Forall_fmap.
  eapply Forall_impl; [exact Hps|]. intros p. cbv [compose]. by rewrite Hentry.
Qed.

Lemma appendSegmentIndexDeletes_ok s ps tp :
  Forall (placed tp) ps -> ~ topic_too_long tp ->
  exists s', StorxLog.appendSegmentIndexDeletes s ps = (s', Ok tt) /\ only_indexes s s'.
Proof.
  intros Hps Htp. unfold StorxLog.appendSegmentIndexDeletes.
  assert (Forall (fun e : StorxLog.SegmentPath * list segmentIndexEntry =>
            exists qs, e.2 = deletedEntry <$> qs /\ Forall (placed tp) qs) (range (StorxLog.deletesByPath ps))) as Hes.
  { apply Forall_forall. intros [path es] Hin%elem_of_range. rewrite deletesByPath_lookup in Hin.
    exists (filter (fun p => pathOf p = path) ps). split.
    - cbn. destruct (filter _ ps); [done|]. by injection Hin as <-.
    - eapply Forall_sublist; [apply sublist_filter|done]. }
  revert s. induction Hes as [|[path es] l (qs & Hq & Hqs) _ IH]; intros s; cbn [foldl]; [exists s; split; [done|apply only_indexes_refl]|].
  cbn in Hq. subst es.
  destruct (appendSegmentIndexEntries_ok s path qs tp deletedEntry ltac:(done) Hqs Htp) as (s1 & -> & H1').
  destruct (IH s1) as (s2 & -> & H2'). exists s2. split; [done|]. by eapply only_indexes_trans.
Qed.

Lemma appendSegmentIndexDeletes_only s ps : only_indexes s (StorxLog.appendSegmentIndexDeletes s ps).1.
Proof.
  unfold StorxLog.appendSegmentIndexDeletes. generalize (Ok tt : result Code unit).
  generalize (range (StorxLog.deletesByPath ps)). intros l. revert s.
  induction l as [|[path es] l IH]; intros s res; cbn [foldl]; [apply only_indexes_refl|].
  pose proof (appendSegmentIndexEntries_only s path es) as Ho.
  destruct (StorxLog.appendSegmentIndexEntries s path es) as [s1 r]. eapply only_indexes_trans; [exact Ho|apply IH].
Qed.

Lemma deleteRecordPointers_frame s tp remove :
  only_indexes (StorxLog.removeRecordPointers s tp remove).1 (StorxLog.deleteRecordPointers s tp remove).1.
Proof.
  unfold StorxLog.deleteRecordPointers. destruct (StorxLog.removeRecordPointers s tp remove) as [s1 removed].
  destruct (len removed =? 0); [apply only_indexes_refl|].
  pose proof (appendSegmentIndexDeletes_only s1 removed) as Ho.
  by destruct (StorxLog.appendSegmentIndexDeletes s1 removed).
Qed.

(** ** One partition *)

(** A Go slice has at most [maxSegmentInt] elements. *)
Definition log_sizes (m : MemoryStore) : Prop := forall tp, len (recordsOf m tp) <= maxSegmentInt.

Lemma cleaned_sizes m m' : cleaned m m' -> log_sizes m -> log_sizes m'.
Proof.
  intros (_ & _ & _ & Hr) Hs tp. specialize (Hs tp). specialize (Hr tp). unfold recordsOf in *.
  destruct (records m !! tp) as [rs|]; [|by rewrite Hr].
  destruct Hr as (rs' & -> & Hsub%sublist_length). cbn in *. unfold len in *. lia.
Qed.

Lemma partitionRecords_refines s m tp :
  refines s m -> log_sizes m ->
  StorxLog.partitionRecordsWithPointers s tp = Ok (StorxLog.recordsOf s tp, recordsOf m tp).
Proof.
  intros Hr Hs. specialize (Hs tp). unfold StorxLog.partitionRecordsWithPointers.
  assert (StorxLog.recordPointersFrom s tp 0 maxSegmentInt = Some (StorxLog.recordsOf s tp)) as ->.
  { pose proof (Forall2_length _ _ _ (ref_log s m Hr tp)) as Hlen.
    unfold StorxLog.recordPointersFrom. change (maxSegmentInt <=? 0) with false. cbv iota.
    destruct (search_refines s m tp 0 Hr) as (k & -> & Hk & Heq). rewrite filter_all in Heq.
    - apply (f_equal length) in Heq. rewrite length_drop in Heq. assert (k = 0%nat) as -> by lia.
      unfold StorxLog.slice, len in *. change (i64 (Z.of_nat 0 + maxSegmentInt)) with maxSegmentInt.
      rewrite Z.min_r by lia. rewrite (proj2 (Z.leb_le 0 _)), (proj2 (Z.leb_le _ _)), (proj2 (Z.leb_le _ _)) by lia.
      cbn [andb]. f_equal. rewrite drop_0, take_ge; [done|lia].
    - destruct (log_inv_recordsOf m tp (ref_inv s m Hr)) as [_ Hb]. unfold recordOffsets in Hb. rewrite Forall_fmap in Hb.
      eapply Forall_impl; [exact Hb|]. cbv [compose]. lia. }
  rewrite (readPointers_points s _ _ (ref_log s m Hr tp)). done.
Qed.

Lemma refines_placed s m tp : refines s m -> Forall (placed tp) (StorxLog.recordsOf s tp).
Proof.
  intros Hr. pose proof (ref_tp s m Hr tp) as Ht. rewrite Forall_lookup in Ht |- *. intros i p Hi.
  destruct (Forall2_lookup_l _ _ _ _ _ (ref_log s m Hr tp) Hi) as (r & _ & Hp).
  apply points_to_fields in Hp as (_ & _ & _ & _ & ? & ?). split_and!; [by eapply Ht|done|done].
Qed.

Lemma deleteRecordPointers_refines removable s m topic tp :
  refines s m -> (forall t, removable t [] = ∅) -> removable topic (recordsOf m tp) <> ∅ -> ~ topic_too_long tp ->
  exists s' m' n, StorxLog.deleteRecordPointers s tp (removable topic (recordsOf m tp)) = (s', Ok n) /\
    cleanPartition removable m (topic, tp) = (m', Some n) /\ refines s' m'.
Proof.
  intros Hr Hnil Hne Htp. unfold StorxLog.deleteRecordPointers.
  pose proof (removeRecordPointers_frame s tp (removable topic (recordsOf m tp))) as Hf.
  destruct (StorxLog.removeRecordPointers s tp (removable topic (recordsOf m tp))) as [s1 removed] eqn:E.
  destruct Hf as (_ & _ & _ & _ & _ & _ & Hrem).
  destruct (removeRecordPointers_refines removable s m topic tp s1 removed Hr Hnil Hne E) as (m' & Hm & Hr').
  destruct (Z.eqb_spec (len removed) 0) as [Hz|_].
  { rewrite Hz in Hm. exists s1, m', 0. done. }
  destruct (appendSegmentIndexDeletes_ok s1 removed tp) as (s2 & -> & Ho); [|done|].
  { rewrite Hrem. eapply Forall_sublist; [apply sublist_filter|by eapply refines_placed]. }
  exists s2, m', (len removed). split_and!; [done|done|by eapply refines_only_indexes].
Qed.

(** ** The loop over the partitions *)

Section Loop.
Context (I : StorxLogStore -> MemoryStore -> Prop).
Context (clean : StorxLogStore -> TopicConfig -> TopicPartition -> StorxLogStore * result Code Z).
Context (removable : TopicConfig -> list Rec -> gset Z).
Context {A B : Type} (add : B -> Z -> B) (madd : A -> Z -> A) (g : A -> B) (Q : Z -> Prop).
Hypothesis clean_ok : forall s m topic tp, I s m -> ~ topic_too_long tp ->
  exists s' m' n, clean s topic tp = (s', Ok (default 0 n)) /\ cleanPartition removable m (topic, tp) = (m', n) /\ I s' m' /\
    match n with Some k => Q k | None => True end.
Hypothesis add_some : forall a n, Q n -> add (g a) n = g (madd a n).
Hypothesis add_none : forall a, add (g a) 0 = g a.

Lemma cleanupLoop_refines parts s m a :
  I s m -> Forall (fun e => ~ topic_too_long e.2) parts ->
  exists s' m' a', StorxLog.cleanupLoop clean add s (g a) parts = (s', Ok (g a')) /\ I s' m' /\
    foldl (fun '(m, a) entry => match cleanPartition removable m entry with
                                | (m, None) => (m, a)
                                | (m, Some n) => (m, madd a n)
                                end) (m, a) parts = (m', a').
Proof using clean_ok add_some add_none.
  intros HI Hp. revert s m a HI. induction Hp as [|[topic tp] parts Htp _ IH]; intros s m a HI; cbn [StorxLog.cleanupLoop foldl].
  { by exists s, m, a. }
  destruct (clean_ok s m topic tp HI Htp) as (s1 & m1 & n & -> & -> & HI1 & Hn).
  destruct n as [n|]; cbn [default].
  - rewrite add_some by done. by apply IH.
  - rewrite add_none. by apply IH.
Qed.

End Loop.

(** Topic names short enough for the index. *)
Definition names_fit (m : MemoryStore) : Prop := forall n t, topics m !! n = Some t -> slen n <= 2 ^ 32 - 57.

Lemma names_fit_parts m : log_inv m -> names_fit m -> Forall (fun e => ~ topic_too_long e.2) (topicPartitions m).
Proof.
  intros Hinv Hn. apply Forall_forall. intros [topic tp] [Ht _]%(elem_of_topicPartitions m Hinv).
  apply Hn in Ht. unfold topic_too_long. cbn. lia.
Qed.

Lemma logPartitions_refines s m : refines s m -> StorxLog.logPartitions s = topicPartitions m.
Proof. intros Hr. unfold StorxLog.logPartitions, topicPartitions. by rewrite (ref_topics s m Hr). Qed.

Lemma cleanPartition_count removable m topic tp m' n :
  (forall t rs o, o ∈ removable t rs -> o ∈ recordOffsets rs) ->
  cleanPartition removable m (topic, tp) = (m', Some n) -> 0 < n.
Proof.
  intros Hsub. unfold cleanPartition. case_decide as Hne; [done|].
  set (remove := removable topic (recordsOf m tp)) in *.
  destruct (filterRemovedRecords_filter (recordsOf m tp) remove) as [H1' H2'].
  destruct (filterRemovedRecords (recordsOf m tp) remove) as [kept k]. cbn in *. intros [= _ <-]. subst kept.
  destruct (set_choose_L remove Hne) as [o Ho]. pose proof (Hsub _ _ _ Ho) as Hin.
  unfold recordOffsets in Hin. apply list_elem_of_fmap in Hin as (r & -> & Hr).
  rewrite H2'. assert (length (filter (fun r => r_Offset r ∉ remove) (recordsOf m tp)) < length (recordsOf m tp))%nat;
    [|unfold len; lia].
  eapply length_filter_lt; [exact Hr|]. intros Hn. by apply Hn.
Qed.

Lemma compaction_subset topic rs nowMS o :
  o ∈ compactionRemovableOffsets topic rs nowMS -> o ∈ recordOffsets rs.
Proof.
  unfold compactionRemovableOffsets, markCompactedRecords. destruct (negb _); [by intros ?%elem_of_empty|].
  rewrite (foldl_mark_spec (fun r => compactedRecordShouldRemove topic r nowMS (latestOffsetByRecordKey rs))).
  intros [?%elem_of_empty|(r & Hr & _ & <-)]; [done|]. by apply list_elem_of_fmap_2.
Qed.

(** *** What else removing records keeps *)

Section Keeps.
Context (J : StorxLogStore -> MemoryStore -> Prop).

(** [J] is kept when records are removed from both stores. *)
Definition kept_by_removal : Prop := forall s m s' m' tp remove n,
  J s m -> refines s m -> cleaned m m' -> refines s' m' ->
  StorxLog.deleteRecordPointers s tp remove = (s', Ok n) -> J s' m'.

Hypothesis J_removal : kept_by_removal.

Lemma deleteRecordPointers_keeps removable s m topic tp :
  refines s m -> J s m -> (forall t, removable t [] = ∅) -> removable topic (recordsOf m tp) <> ∅ -> ~ topic_too_long tp ->
  exists s' m' n, StorxLog.deleteRecordPointers s tp (removable topic (recordsOf m tp)) = (s', Ok n) /\
    cleanPartition removable m (topic, tp) = (m', Some n) /\ refines s' m' /\ J s' m' /\ cleaned m m'.
Proof using J_removal.
  intros Hr HJ Hnil Hne Htp.
  destruct (deleteRecordPointers_refines removable s m topic tp Hr Hnil Hne Htp) as (s' & m' & n & Hs & Hm & Hr').
  pose proof (cleanPartition_cleaned removable Hnil m (topic, tp)) as Hc. rewrite Hm in Hc. cbn in Hc.
  exists s', m', n. split_and!; try done. by eapply J_removal.
Qed.

(** Retention does to the files what it does to the log in memory. *)
Lemma EnforceRetention_refines s m nowMS :
  refines s m -> J s m -> log_sizes m -> names_fit m ->
  let '(s', res) := StorxLog.EnforceRetention s false nowMS in
  let '(m', res') := EnforceRetention m false nowMS in
  res = res' /\ refines s' m' /\ J s' m'.
Proof using J_removal.
  intros Hr HJ Hs Hn. unfold StorxLog.EnforceRetention, EnforceRetention. rewrite (logPartitions_refines s m Hr).
  set (removable := fun topic rs => retentionRemovableOffsets topic rs nowMS).
  destruct (cleanupLoop_refines (fun s m => refines s m /\ J s m /\ log_sizes m)
    (fun s topic tp => StorxLog.enforcePartitionRetention s topic tp nowMS) removable
    (fun acc removed => mkRetentionCleanupResult (rcr_RemovedRecords acc + removed) (rcr_DeadLetteredRecords acc))
    Z.add (fun total => mkRetentionCleanupResult total 0) (fun _ => True)) with (parts := topicPartitions m) (s := s) (m := m) (a := 0)
    as (s' & m' & a' & -> & (Hr' & HJ' & _) & Hm).
  - intros s1 m1 topic tp (Hr1 & HJ1 & Hs1) Htp. unfold StorxLog.enforcePartitionRetention.
    rewrite (partitionRecords_refines s1 m1 tp Hr1 Hs1).
    change (retentionRemovableOffsets topic (recordsOf m1 tp) nowMS) with (removable topic (recordsOf m1 tp)).
    destruct (decide (removable topic (recordsOf m1 tp) = ∅)) as [He|He].
    { exists s1, m1, None. unfold cleanPartition. by rewrite decide_True. }
    destruct (deleteRecordPointers_keeps removable s1 m1 topic tp Hr1 HJ1
      (fun t => retentionRemovableOffsets_nil t nowMS) He Htp) as (s2 & m2 & n & -> & Hm2 & Hr2 & HJ2 & Hc).
    exists s2, m2, (Some n). split_and!; try done. by eapply cleaned_sizes.
  - done.
  - intros total. cbn. by rewrite Z.add_0_r.
  - done.
  - by apply names_fit_parts; [apply (ref_inv s m Hr)|].
  - rewrite Hm. done.
Qed.

End Keeps.

End Clean.

(** * The file-backed log: the key index, key lookups and compaction

    The key index of a partition is built by the first lookup or compaction
    and kept up to date by appends and removals.  [keys_complete] says that
    it knows the last record of every key; topic creation, appends, lookups
    and compaction keep it so, and under it a lookup returns the last record
    of its key and compaction removes what the in-memory store removes. *)

Section Keys.
Context `{Zstd} `{ManifestCodec} `{MapRange}.

(** The key index [kp] has, for every key of [rs], a pointer to its last record. *)
Definition keys_of (f : Files) (kp : KeyPointers) (rs : list Rec) : Prop :=
  forall key, match kp !! String.string_of_list_byte key with
              | Some p => exists r, points_to f p r /\ key <> [] /\ lastOfKey key rs = Some r
              | None => key <> [] -> lastOfKey key rs = None
              end.

Definition keys_complete (s : StorxLogStore) (m : MemoryStore) : Prop :=
  forall tp, tp ∈ StorxLog.keyIndexReady s ->
    exists kp, StorxLog.keyRecords s !! tp = Some kp /\ keys_of (files s) kp (recordsOf m tp).

Lemma lastOfKey_snoc key rs r :
  lastOfKey key (rs ++ [r]) = if decide (r_Key r = key) then Some r else lastOfKey key rs.
Proof.
  unfold lastOfKey. rewrite filter_app, filter_cons, filter_nil. case_decide; [by rewrite last_snoc|by rewrite app_nil_r].
Qed.

Lemma keys_of_snoc f kp rs p r :
  points_to f p r -> keys_of f kp rs ->
  keys_of f (if len (r_Key r) =? 0 then kp else <[recordKey r := p]> kp) (rs ++ [r]).
Proof.
  intros Hp Hk key. specialize (Hk key). rewrite lastOfKey_snoc.
  destruct (Z.eqb_spec (len (r_Key r)) 0) as [Hz%len_zero_nil|Hnz].
  - case_decide as Hd; [|done]. rewrite <- Hd, Hz in *. clear Hd.
    destruct (kp !! _); [by destruct Hk as (? & _ & ? & _)|done].
  - rewrite len_zero_nil in Hnz. unfold recordKey. rewrite lookup_insert. case_decide as Hs.
    + apply (inj String.string_of_list_byte) in Hs. rewrite decide_True by done. exists r. by rewrite <- Hs.
    + rewrite decide_False by congruence. done.
Qed.

Lemma alignedLoop_keys f all allPs ps rs kp rs0 :
  Forall2 (points_to f) ps rs -> keys_of f kp rs0 ->
  keys_of f (alignedLoop all allPs rs ps kp) (rs0 ++ rs).
Proof.
  intros Hps. revert kp rs0. induction Hps as [|p r ps rs Hp _ IH]; intros kp rs0 Hk; [by rewrite app_nil_r|].
  cbn [alignedLoop]. pose proof (keys_of_snoc f kp rs0 p r Hp Hk) as Hs.
  apply points_to_fields in Hp as (Ho & _). rewrite Ho, Z.eqb_refl. cbn [negb].
  replace (rs0 ++ r :: rs) with ((rs0 ++ [r]) ++ rs) by (by rewrite <- (assoc_L (++))).
  destruct (len (r_Key r) =? 0); by apply IH.
Qed.

Lemma appendKeyPointers_keys f kp rs0 ps rs :
  Forall2 (points_to f) ps rs -> keys_of f kp rs0 -> keys_of f (appendKeyPointers rs ps kp) (rs0 ++ rs).
Proof.
  intros Hps Hk. unfold appendKeyPointers, appendAlignedKeyPointers.
  assert (len rs = len ps) as -> by (unfold len; by rewrite (Forall2_length _ _ _ Hps)).
  rewrite Z.eqb_refl. by apply alignedLoop_keys.
Qed.

Lemma keys_of_empty f : keys_of f ∅ [].
Proof. intros key. by rewrite lookup_empty. Qed.

Lemma latestKeyPointers_keys f ps rs :
  Forall2 (points_to f) ps rs -> keys_of f (latestKeyPointersFromRecords rs ps) rs.
Proof. intros Hps. apply (appendKeyPointers_keys f ∅ [] ps rs Hps (keys_of_empty f)). Qed.

Lemma keys_of_extended f f' kp rs : extended f f' -> keys_of f kp rs -> keys_of f' kp rs.
Proof.
  intros He Hk key. specialize (Hk key). destruct (kp !! _); [|done].
  destruct Hk as (r & Hp & Hr). exists r. split; [by eapply points_to_extended|done].
Qed.

Lemma keys_of_offsets f kp rs : keys_of f kp rs -> keyPointerOffsets kp = latestOffsetByRecordKey rs.
Proof.
  intros Hk. apply map_eq. intros k. rewrite <- (String.string_of_list_byte_of_string k).
  set (key := String.list_byte_of_string k). specialize (Hk key). unfold keyPointerOffsets. rewrite lookup_fmap.
  destruct (decide (key = [])) as [Hnil|Hne].
  - rewrite Hnil in *. destruct (kp !! _); [by destruct Hk as (? & _ & ? & _)|]. cbn. symmetry. clear Hk.
    unfold latestOffsetByRecordKey. induction rs as [|r rs IH] using rev_ind; [done|]. rewrite foldl_snoc.
    destruct (Z.ltb_spec 0 (len (r_Key r))) as [Hlt|]; [|done].
    rewrite lookup_insert_ne; [done|]. intros Heq. change ""%string with (String.string_of_list_byte []) in Heq.
    apply (inj String.string_of_list_byte) in Heq. by rewrite Heq in Hlt.
  - rewrite latestOffsetByRecordKey_spec by done. destruct (kp !! _) as [p|].
    + destruct Hk as (r & Hp & _ & ->). apply points_to_fields in Hp as (Ho & _). cbn. by rewrite Ho.
    + by rewrite Hk.
Qed.

(** ** Building the index *)

Lemma with_keys_refines s m tp kp ready :
  refines s m -> refines (StorxLog.set_keyIndexReady ready (StorxLog.set_keyRecords (<[tp := kp]> (StorxLog.keyRecords s)) s)) m.
Proof. intros Hr. split; apply Hr. Qed.

Lemma with_keys_complete s m tp kp :
  keys_complete s m -> keys_of (files s) kp (recordsOf m tp) ->
  keys_complete (StorxLog.set_keyIndexReady ({[tp]} ∪ StorxLog.keyIndexReady s)
                   (StorxLog.set_keyRecords (<[tp := kp]> (StorxLog.keyRecords s)) s)) m.
Proof.
  intros Hc Hk tp' Hin. cbn in *. rewrite lookup_insert. case_decide as Hd; [subst; by exists kp|].
  apply Hc. set_solver.
Qed.

Lemma ensureKeyIndex_spec s m tp :
  refines s m -> keys_complete s m ->
  exists s', StorxLog.ensureKeyIndex s tp = (s', Ok tt) /\ refines s' m /\ keys_complete s' m /\
    tp ∈ StorxLog.keyIndexReady s' /\ files s' = files s /\ (forall tp', StorxLog.recordsOf s' tp' = StorxLog.recordsOf s tp').
Proof.
  intros Hr Hc. unfold StorxLog.ensureKeyIndex. case_bool_decide as Hin; [by exists s|].
  rewrite (readPointers_points s _ _ (ref_log s m Hr tp)). eexists. split; [done|].
  split_and!; [by apply with_keys_refines| |cbn; set_solver|done|done].
  apply (with_keys_complete s m tp _ Hc). apply latestKeyPointers_keys, (ref_log s m Hr).
Qed.

(** A lookup returns the last record of its key. *)
Lemma ReadLatestByKey_refines s m tp key :
  refines s m -> keys_complete s m ->
  let '(s', res) := StorxLog.ReadLatestByKey s tp key in
  refines s' m /\ keys_complete s' m /\ files s' = files s /\
  (forall tp', StorxLog.recordsOf s' tp' = StorxLog.recordsOf s tp') /\
  res = (if decide (key = []) then Err CodeInvalidArgument
         else _ ← validatePartitionLocked m tp; Ok (lastOfKey key (recordsOf m tp))).
Proof.
  intros Hr Hc. unfold StorxLog.ReadLatestByKey. destruct (Z.eqb_spec (len key) 0) as [Hz%len_zero_nil|Hnz].
  { by rewrite decide_True. }
  rewrite len_zero_nil in Hnz. rewrite decide_False by done.
  pose proof (refines_validate s m tp Hr) as Hv. destruct (StorxLog.loadTopicForPartition s tp) as [topic|e].
  2: { split_and!; try done. by rewrite Hv. }
  destruct Hv as [_ ->]. cbn [mbind result_bind]. destruct (ensureKeyIndex_spec s m tp Hr Hc) as (s' & -> & Hr' & Hc' & Hin & Hf & Hrec).
  destruct (Hc' tp Hin) as (kp & -> & Hk). specialize (Hk key). change (default ∅ (Some kp)) with kp. unfold segmentKeyPointer.
  destruct (kp !! _) as [p|].
  - destruct Hk as (r & Hp & _ & Hlast). do 4 (split; [done|]). unfold StorxLog.readPointer.
    rewrite (readSegment_points s' _ [p] [r]); [|by constructor|done|by constructor].
    cbn [mbind result_bind]. apply points_to_fields in Hp as (Ho & _). rewrite Ho, Z.eqb_refl. cbn [negb mbind result_bind].
    apply lastOfKey_elem in Hlast as Hrk. rewrite bool_decide_true by tauto. by rewrite Hlast.
  - do 4 (split; [done|]). by rewrite Hk.
Qed.

(** ** Compaction *)

Lemma last_filter_last {A} (P : A -> Prop) `{!forall x, Decision (P x)} l x :
  last l = Some x -> P x -> last (filter P l) = Some x.
Proof.
  destruct l as [|y l _] using rev_ind; [done|]. rewrite last_snoc. intros [= ->] Hx.
  rewrite filter_app, filter_cons_True by done. apply last_snoc.
Qed.

(** What compaction removes of a key is all but its last record, or all. *)
Lemma lastOfKey_survivors topic rs next nowMS key :
  log_ok rs next -> key <> [] ->
  let remove := compactionRemovableOffsets topic rs nowMS in
  lastOfKey key (survivors remove rs) =
    match lastOfKey key rs with
    | Some r => if decide (r_Offset r ∈ remove) then None else Some r
    | None => None
    end.
Proof.
  intros Hok Hk remove. unfold lastOfKey at 1, survivors. rewrite list_filter_filter.
  rewrite (list_filter_iff _ (fun x => (r_Offset x ∉ remove) /\ r_Key x = key)) by tauto.
  rewrite <- list_filter_filter. destruct (lastOfKey key rs) as [r|] eqn:El.
  - case_decide as Hd; [|by apply last_filter_last].
    apply last_None, filter_none, Forall_forall. intros x [Hxk Hx]%list_elem_of_filter Hn. apply Hn.
    destruct (decide (lastOfKey (r_Key x) rs = Some x)) as [Hl|Hl].
    + rewrite Hxk, El in Hl. by injection Hl as ->.
    + unfold remove, compactionRemovableOffsets in Hd |- *. destruct (compactionApplies topic) eqn:Ha; cbn [negb] in *; [|done].
      pose proof (compaction_marked topic rs next nowMS Hok Ha x Hx) as Hm.
      unfold compactionRemovableOffsets in Hm. rewrite Ha in Hm. cbn [negb] in Hm. apply Hm. split; [congruence|by left].
  - unfold lastOfKey in El. apply last_None in El. by rewrite El.
Qed.

Lemma keys_of_removed f kp rs (remove : gset Z) :
  (forall key, key <> [] -> lastOfKey key (survivors remove rs) =
     match lastOfKey key rs with Some r => if decide (r_Offset r ∈ remove) then None else Some r | None => None end) ->
  keys_of f kp rs -> keys_of f (filter (fun e => srp_Offset e.2 ∉ remove) kp) (survivors remove rs).
Proof.
  intros Hlast Hk key. specialize (Hk key). rewrite map_lookup_filter.
  destruct (kp !! _) as [p|]; cbn [mbind option_bind].
  - destruct Hk as (r & Hp & Hne & Hl). destruct (points_to_fields _ _ _ Hp) as (Ho & _).
    specialize (Hlast key Hne). rewrite Hl in Hlast. case_guard as Hd; cbn in Hd |- *; rewrite Ho in Hd.
    + exists r. split_and!; [done|done|]. rewrite Hlast. by rewrite decide_False.
    + intros _. rewrite Hlast. case_decide as Hd2; [done|done].
  - intros Hne. rewrite Hlast by done. by rewrite Hk.
Qed.

Lemma latestOffsets_spec s m tp :
  refines s m -> keys_complete s m ->
  exists s', StorxLog.latestOffsetsByKeyIndexOrRecords s tp (recordsOf m tp) (StorxLog.recordsOf s tp)
             = (s', latestOffsetByRecordKey (recordsOf m tp)) /\
    refines s' m /\ keys_complete s' m /\ files s' = files s /\
    (forall tp', StorxLog.recordsOf s' tp' = StorxLog.recordsOf s tp') /\ tp ∈ StorxLog.keyIndexReady s'.
Proof.
  intros Hr Hc. unfold StorxLog.latestOffsetsByKeyIndexOrRecords.
  pose proof (latestKeyPointers_keys _ _ _ (ref_log s m Hr tp)) as Hnew.
  rewrite (keys_of_offsets _ _ _ Hnew).
  pose proof (with_keys_complete s m tp _ Hc Hnew) as Hc'.
  destruct (StorxLog.keyRecords s !! tp) as [kp|] eqn:E; [case_bool_decide as Hin|].
  - destruct (Hc tp Hin) as (kp' & E' & Hk). assert (kp' = kp) as -> by congruence.
    exists s. rewrite (keys_of_offsets _ _ _ Hk). done.
  - eexists. split; [done|]. split_and!; [by apply with_keys_refines|done|done|done|cbn; set_solver].
  - eexists. split; [done|]. split_and!; [by apply with_keys_refines|done|done|done|cbn; set_solver].
Qed.

Lemma removeRecordPointers_keys s tp remove :
  let s' := (StorxLog.removeRecordPointers s tp remove).1 in
  StorxLog.keyIndexReady s' = StorxLog.keyIndexReady s /\
  StorxLog.keyRecords s' =
    if bool_decide (tp ∈ StorxLog.keyIndexReady s)
    then alter (filter (fun e => srp_Offset e.2 ∉ remove)) tp (StorxLog.keyRecords s)
    else StorxLog.keyRecords s.
Proof.
  unfold StorxLog.removeRecordPointers, StorxLog.removeKeyPointersLocked. cbn.
  destruct (bool_decide _); cbn; [|done]. split; [by case_match|].
  destruct (StorxLog.keyRecords s !! tp) as [kp|] eqn:E; cbn.
  - apply map_eq. intros tp'. rewrite lookup_insert. case_decide as Hd.
    + subst. rewrite lookup_alter_eq, E. done.
    + by rewrite lookup_alter_ne.
  - apply map_eq. intros tp'. destruct (decide (tp = tp')) as [<-|]; [by rewrite lookup_alter_eq, E|by rewrite lookup_alter_ne].
Qed.

Lemma foldl_pointwise {A B} (f g : A -> B -> A) l a : (forall a b, f a b = g a b) -> foldl f a l = foldl g a l.
Proof. intros Hfg. revert a. induction l as [|b l IH]; intros a; cbn [foldl]; [done|]. by rewrite Hfg. Qed.

(** [J] is kept when only the key index changes. *)
Definition kept_by_keys (J : StorxLogStore -> MemoryStore -> Prop) : Prop := forall s s' m,
  J s m -> refines s' m -> files s' = files s -> (forall tp, StorxLog.recordsOf s' tp = StorxLog.recordsOf s tp) -> J s' m.

Section Keeps.
Context (J : StorxLogStore -> MemoryStore -> Prop).
Hypothesis J_removal : kept_by_removal J.
Hypothesis J_keys : kept_by_keys J.

Lemma compactPartition_refines s m topic tp nowMS :
  refines s m -> keys_complete s m -> J s m -> log_sizes m -> ~ topic_too_long tp ->
  exists s' m' n, StorxLog.compactPartition s topic tp nowMS = (s', Ok (default 0 n)) /\
    cleanPartition (fun topic rs => compactionRemovableOffsets topic rs nowMS) m (topic, tp) = (m', n) /\
    refines s' m' /\ keys_complete s' m' /\ J s' m' /\ cleaned m m'.
Proof using J_removal J_keys.
  intros Hr Hc HJ Hs Htp. unfold StorxLog.compactPartition. rewrite (partitionRecords_refines s m tp Hr Hs).
  destruct (latestOffsets_spec s m tp Hr Hc) as (s1 & -> & Hr1 & Hc1 & Hf1 & Hrec1 & Hin).
  pose proof (J_keys s s1 m HJ Hr1 Hf1 Hrec1) as HJ1.
  change (compactionRemovableOffsetsWithLatest topic (recordsOf m tp) nowMS (latestOffsetByRecordKey (recordsOf m tp)))
    with (compactionRemovableOffsets topic (recordsOf m tp) nowMS).
  destruct (decide (compactionRemovableOffsets topic (recordsOf m tp) nowMS = ∅)) as [He|He].
  { exists s1, m, None. unfold cleanPartition. rewrite decide_True by done. split_and!; try done. apply cleaned_refl. }
  set (removable := fun topic rs => compactionRemovableOffsets topic rs nowMS).
  change (compactionRemovableOffsets topic (recordsOf m tp) nowMS) with (removable topic (recordsOf m tp)) in *.
  destruct (deleteRecordPointers_keeps J J_removal removable s1 m topic tp Hr1 HJ1
    (fun t => compactionRemovableOffsets_nil t nowMS) He Htp) as (s' & m' & n & Hs' & Hm & Hr' & HJ' & Hcl).
  pose proof (deleteRecordPointers_frame s1 tp (removable topic (recordsOf m tp))) as Ho. rewrite Hs' in Ho |- *. cbn [fst] in Ho.
  exists s', m', (Some n). split_and!; try done.
  pose proof (cleanPartition_records removable m topic tp) as Hrecs. rewrite Hm in Hrecs. cbn [fst] in Hrecs.
  set (remove := removable topic (recordsOf m tp)) in *.
  destruct (removeRecordPointers_keys s1 tp remove) as [Hready Hkeys].
  pose proof (removeRecordPointers_frame s1 tp remove) as Hfr.
  destruct (StorxLog.removeRecordPointers s1 tp remove) as [s2 removed]. cbn [fst] in *.
  destruct Hfr as (_ & Hf2 & _). rewrite bool_decide_true in Hkeys by done.
  assert (segments (files s') = segments (files s1)) as Hseg by (unfold only_indexes in Ho; rewrite Ho; cbn; by rewrite Hf2).
  assert (forall kp rs, keys_of (files s1) kp rs -> keys_of (files s') kp rs) as Hext
    by (intros kp rs; apply keys_of_extended, extended_segments; done).
  pose proof (f_equal StorxLog.keyIndexReady Ho) as Hready'. pose proof (f_equal StorxLog.keyRecords Ho) as Hkeys'.
  cbn in Hready', Hkeys'. intros tp' Hin'. rewrite Hready', Hready in Hin'. rewrite Hkeys'.
  destruct (Hc1 tp' Hin') as (kp & Hkp & Hk). rewrite Hkeys, Hrecs. case_decide as Hd.
  - subst tp'. rewrite lookup_alter_eq, Hkp. eexists. split; [done|]. apply Hext.
    apply keys_of_removed; [|done]. intros key Hne.
    destruct (log_inv_recordsOf m tp (ref_inv s m Hr)) as [Hso Hb].
    by apply (lastOfKey_survivors topic (recordsOf m tp) (nextOffsetOf m tp)).
  - rewrite lookup_alter_ne by done. exists kp. split; [done|]. by apply Hext.
Qed.

Lemma Compact_refines s m nowMS :
  refines s m -> keys_complete s m -> J s m -> log_sizes m -> names_fit m ->
  let '(s', res) := StorxLog.Compact s false nowMS in
  let '(m', res') := Compact m false nowMS in
  res = res' /\ refines s' m' /\ keys_complete s' m' /\ J s' m'.
Proof using J_removal J_keys.
  intros Hr Hc HJ Hs Hn. unfold StorxLog.Compact, Compact. rewrite (logPartitions_refines s m Hr).
  destruct (cleanupLoop_refines (fun s m => refines s m /\ keys_complete s m /\ J s m /\ log_sizes m)
    (fun s topic tp => StorxLog.compactPartition s topic tp nowMS)
    (fun topic rs => compactionRemovableOffsets topic rs nowMS)
    (fun acc removed => if 0 <? removed
       then mkCompactionCleanupResult (ccr_CompactedPartitions acc + 1) (ccr_RemovedRecords acc + removed) else acc)
    (fun '(parts, total) n => (parts + 1, total + n)) (fun '(parts, total) => mkCompactionCleanupResult parts total) (fun n => 0 < n))
    with (parts := topicPartitions m) (s := s) (m := m) (a := (0, 0))
    as (s' & m' & [parts total] & Hst & (Hr' & Hc' & HJ' & _) & Hm).
  - intros s1 m1 topic tp (Hr1 & Hc1 & HJ1 & Hs1) Htp.
    destruct (compactPartition_refines s1 m1 topic tp nowMS Hr1 Hc1 HJ1 Hs1 Htp) as (s2 & m2 & n & Hs2 & Hm2 & Hr2 & Hc2 & HJ2 & Hcl).
    exists s2, m2, n. split_and!; [done|done|done|done|done| |].
    + by eapply cleaned_sizes.
    + destruct n as [n|]; [|done]. eapply cleanPartition_count; [|exact Hm2]. intros t rs o. apply compaction_subset.
  - intros [p t] n Hpos. by rewrite (proj2 (Z.ltb_lt 0 n) Hpos).
  - by intros [p t].
  - done.
  - by apply names_fit_parts; [apply (ref_inv s m Hr)|].
  - cbn beta iota in Hst. rewrite Hst.
    erewrite foldl_pointwise; [rewrite Hm; done|].
    intros [m1 [p1 t1]] x. by destruct (cleanPartition _ m1 x) as [m2 [n|]].
Qed.

End Keeps.

(** ** Appends and topics keep the index complete *)

Lemma recordAppendedPointers_keys s tp ps rs :
  let s' := StorxLog.recordAppendedPointers s tp ps rs in
  StorxLog.keyIndexReady s' = StorxLog.keyIndexReady s /\ files s' = files s /\ compression s' = compression s /\
  StorxLog.keyRecords s' =
    if bool_decide (tp ∈ StorxLog.keyIndexReady s) && negb (len rs =? 0) && negb (len ps =? 0)
    then <[tp := appendKeyPointers rs ps (default ∅ (StorxLog.keyRecords s !! tp))]> (StorxLog.keyRecords s)
    else StorxLog.keyRecords s.
Proof.
  unfold StorxLog.recordAppendedPointers, StorxLog.recordAppendedKeyPointersLocked.
  destruct (len ps =? 0); cbn; [by rewrite andb_false_r|].
  destruct (bool_decide _), (len rs =? 0); done.
Qed.

Lemma append_steps_keys s s' m tp rs :
  keys_complete s m -> append_steps s s' m tp rs -> keys_complete s' (appendedTo m tp rs).
Proof.
  intros Hc (s1 & s2 & ps & [He Ha] & _ & Hps & _ & Hi & -> & Hne & _).
  pose proof (appendBatchSegmentIndexes_only s1 tp ps) as Hix. rewrite Hi in Hix. cbn in Hix.
  destruct (recordAppendedPointers_keys s2 tp ps rs) as (Hready & Hf & _ & Hkeys).
  assert (extended (files s1) (files s2)) as He2 by (apply extended_segments; by rewrite Hix).
  assert (StorxLog.keyIndexReady s2 = StorxLog.keyIndexReady s) as Hready2 by (rewrite Hix, Ha; done).
  assert (StorxLog.keyRecords s2 = StorxLog.keyRecords s) as Hkeys2 by (rewrite Hix, Ha; done).
  rewrite Hready2, Hkeys2 in Hkeys. intros tp' Hin. rewrite Hready, Hready2 in Hin.
  destruct (Hc tp' Hin) as (kp & Hkp & Hk). rewrite Hf, Hkeys, recordsOf_appendedTo.
  assert (keys_of (files s2) kp (recordsOf m tp')) as Hk2
    by (eapply keys_of_extended; [|exact Hk]; by eapply extended_trans).
  destruct (Z.eqb_spec (len rs) 0) as [Hz%len_zero_nil|_]; [done|].
  destruct (Z.eqb_spec (len ps) 0) as [->%len_zero_nil|_]; [by inversion Hps; subst|].
  rewrite !andb_true_r. destruct (decide (tp = tp')) as [Hd|Hd].
  - subst tp'. rewrite bool_decide_true, lookup_insert_eq, Hkp by done. eexists. split; [done|].
    apply appendKeyPointers_keys; [|done]. eapply Forall2_impl; [exact Hps|]. intros p r. by apply points_to_extended.
  - case_bool_decide; [rewrite lookup_insert_ne by done|]; by exists kp.
Qed.

Lemma only_files_keys s s' m :
  keys_complete s m -> extended (files s) (files s') -> s' = StorxLog.set_files (files s') s -> keys_complete s' m.
Proof.
  intros Hc He Heq tp. pose proof (f_equal StorxLog.keyIndexReady Heq) as Hready.
  pose proof (f_equal StorxLog.keyRecords Heq) as Hkeys. cbn in Hready, Hkeys. rewrite Hready, Hkeys.
  intros Hin. destruct (Hc tp Hin) as (kp & Hkp & Hk). exists kp. split; [done|]. by eapply keys_of_extended.
Qed.

Lemma created_keys s s' m m' topic : keys_complete s m -> created s s' m m' topic -> keys_complete s' m'.
Proof.
  intros Hc ((data & Hf & _) & _ & Hk & Hi & _ & _ & Hrec & _) tp. rewrite Hk, Hi, Hrec. intros Hin.
  destruct (Hc tp Hin) as (kp & ? & Hkp). exists kp. split; [done|].
  eapply keys_of_extended; [|exact Hkp]. apply extended_segments. by rewrite Hf.
Qed.

End Keys.
