(* ===== verification/SegmentDurableSpec.v ===== *)
(** * The file-backed log: what its files hold

    [durable s m]: the files of [s] say everything about the log [m] that
    [s] stands for.  The index files list, for every partition, an entry per
    record appended and one per record removed; the manifest lists the
    topics.  Creating topics, successful appends, retention, compaction and
    lookups keep a store durable. *)

From stdpp Require Import prelude gmap strings sorting list.
From S2P Require Import Prelude Wire WireSpec Model MemoryStore Cleanup LogSpec CleanupSpec SegmentFrame SegmentFrameSpec SegmentIndex SegmentIndexSpec SegmentLog SegmentAppendSpec SegmentCleanSpec.

#[local] Open Scope Z_scope.

Import StorxLog (Files, StorxLogStore, segments, indexes, manifest, files, compression, SegmentPath).

(** ** Entries by file *)

Abbreviation Entries := (gmap SegmentPath (list segmentIndexEntry)).

Definition entryPath (e : segmentIndexEntry) : SegmentPath := pathOf (sie_Pointer e).
Definition entryOffset (e : segmentIndexEntry) : Z := srp_Offset (sie_Pointer e).
Definition liveEntry (p : segmentRecordPointer) : segmentIndexEntry := mkIndexEntry p false.

Definition entriesOf (E : Entries) (path : SegmentPath) : list segmentIndexEntry := default [] (E !! path).

(** [es], each appended to its file. *)
Definition addEntries (E : Entries) (es : list segmentIndexEntry) : Entries :=
  foldl (fun E e => <[entryPath e := entriesOf E (entryPath e) ++ [e]]> E) E es.

Lemma addEntries_lookup E es path :
  addEntries E es !! path =
    match filter (fun e => entryPath e = path) es with
    | [] => E !! path
    | l => Some (entriesOf E path ++ l)
    end.
Proof.
  unfold addEntries. induction es as [|e es IH] using rev_ind; [done|].
  rewrite foldl_snoc, filter_app, filter_cons, filter_nil, lookup_insert. case_decide as Hd.
  - unfold entriesOf at 1. rewrite Hd, IH.
    destruct (filter _ es) as [|q l]; [done|]. cbn [app]. unfold default, id.
    by rewrite <- (assoc_L (++)).
  - by rewrite app_nil_r, IH.
Qed.

Lemma entriesOf_addEntries E es path :
  entriesOf (addEntries E es) path = entriesOf E path ++ filter (fun e => entryPath e = path) es.
Proof.
  unfold entriesOf at 1. rewrite addEntries_lookup. destruct (filter _ es); [by rewrite app_nil_r|done].
Qed.

Lemma addEntries_app E es1 es2 : addEntries E (es1 ++ es2) = addEntries (addEntries E es1) es2.
Proof. apply foldl_app. Qed.

Lemma elem_of_addEntries E es path e :
  e ∈ entriesOf (addEntries E es) path <-> e ∈ entriesOf E path \/ (e ∈ es /\ entryPath e = path).
Proof. rewrite entriesOf_addEntries, elem_of_app, list_elem_of_filter. tauto. Qed.

Lemma addEntries_is_Some E es path :
  is_Some (addEntries E es !! path) <-> is_Some (E !! path) \/ exists e, e ∈ es /\ entryPath e = path.
Proof.
  rewrite addEntries_lookup. destruct (filter _ es) as [|e l] eqn:Ef.
  - split; [by left|]. intros [?|(e & He & Hp)]; [done|].
    assert (e ∈ filter (fun e => entryPath e = path) es) as Hin by (by apply list_elem_of_filter).
    rewrite Ef in Hin. by apply elem_of_nil in Hin.
  - split; [intros _; right|by eexists]. assert (e ∈ filter (fun e => entryPath e = path) es) as Hin by (rewrite Ef; left).
    apply list_elem_of_filter in Hin as [? ?]. by exists e.
Qed.

(** ** The live pointers of a file *)

Definition live (es : list segmentIndexEntry) : gmap Z segmentRecordPointer :=
  foldl (fun byOffset e => if sie_Deleted e then delete (entryOffset e) byOffset
                           else <[entryOffset e := sie_Pointer e]> byOffset) ∅ es.

Lemma live_snoc es e :
  live (es ++ [e]) = if sie_Deleted e then delete (entryOffset e) (live es) else <[entryOffset e := sie_Pointer e]> (live es).
Proof. unfold live. by rewrite foldl_snoc. Qed.

Lemma live_filter es o : live es !! o = live (filter (fun e => entryOffset e = o) es) !! o.
Proof.
  induction es as [|e es IH] using rev_ind; [done|]. rewrite live_snoc, filter_app, filter_cons, filter_nil.
  case_decide as Hd.
  - rewrite live_snoc, Hd. destruct (sie_Deleted e); [by rewrite !lookup_delete_eq|by rewrite !lookup_insert_eq].
  - rewrite app_nil_r. destruct (sie_Deleted e); [by rewrite lookup_delete_ne|by rewrite lookup_insert_ne].
Qed.

Lemma live_Some es o p : live es !! o = Some p -> srp_Offset p = o /\ liveEntry p ∈ es.
Proof.
  induction es as [|e es IH] using rev_ind; [done|]. rewrite live_snoc. destruct e as [q d]. unfold entryOffset, liveEntry. cbn.
  destruct d.
  - intros [_ Hl]%lookup_delete_Some. apply IH in Hl as [? ?]. split; [done|]. apply elem_of_app. by left.
  - rewrite lookup_insert. case_decide as Hd; [intros [= <-]; split; [done|]; apply elem_of_app; right; left|].
    intros Hl. apply IH in Hl as [? ?]. split; [done|]. apply elem_of_app. by left.
Qed.

Lemma live_None es o : (forall e, e ∈ es -> entryOffset e <> o) -> live es !! o = None.
Proof.
  intros Hne. destruct (live es !! o) as [p|] eqn:E; [|done]. apply live_Some in E as [Ho Hin].
  by destruct (Hne _ Hin).
Qed.

Lemma live_deleted es ps o :
  live (es ++ (deletedEntry <$> ps)) !! o = if decide (o ∈ srp_Offset <$> ps) then None else live es !! o.
Proof.
  induction ps as [|p ps IH] using rev_ind; [by rewrite app_nil_r|].
  rewrite !fmap_app, (assoc_L (++)). cbn [fmap list_fmap]. rewrite live_snoc. cbn. unfold entryOffset. cbn.
  destruct (decide (srp_Offset p = o)) as [<-|Hne].
  - rewrite lookup_delete_eq, decide_True; [done|]. apply elem_of_app. right. left.
  - rewrite lookup_delete_ne, IH by done. repeat case_decide; set_solver.
Qed.

Lemma live_appended es ps o :
  (forall e, e ∈ es -> entryOffset e ∉ srp_Offset <$> ps) -> NoDup (srp_Offset <$> ps) ->
  forall p, live (es ++ (liveEntry <$> ps)) !! o = Some p <-> live es !! o = Some p \/ (p ∈ ps /\ srp_Offset p = o).
Proof.
  intros Hfresh. induction ps as [|q ps IH] using rev_ind.
  { intros _ p. rewrite app_nil_r. set_solver. }
  intros Hnd p. rewrite !fmap_app, (assoc_L (++)). cbn [fmap list_fmap]. rewrite live_snoc. cbn. unfold entryOffset. cbn.
  rewrite fmap_app in Hnd. apply NoDup_app in Hnd as (Hnd & Hq & _).
  assert (live es !! srp_Offset q = None) as Hnone.
  { apply live_None. intros e He Heq. apply (Hfresh e He). rewrite Heq, fmap_app. set_solver. }
  rewrite elem_of_app, list_elem_of_singleton. destruct (decide (srp_Offset q = o)) as [<-|Hne].
  - rewrite lookup_insert_eq. split; [intros [= <-]; right; split; [by right|done]|].
    intros [Hp|[[Hp| ->] Ho]]; [congruence| |done]. exfalso. apply (Hq (srp_Offset p)); [by apply list_elem_of_fmap_2|].
    rewrite Ho. left.
  - rewrite lookup_insert_ne, IH; [|intros e He Hin; apply (Hfresh e He); rewrite fmap_app; set_solver|done|done].
    split; [intros [?|[? ?]]; [by left|right; split; [by left|done]]|].
    intros [?|[[?| ->] ?]]; [by left|by right|done].
Qed.

(** ** The files of a store *)

Record indexed (s : StorxLogStore) (m : MemoryStore) (E : Entries) : Prop := {
  ix_files : indexes (files s) = indexBytes <$> E;
  ix_entry : forall path e, e ∈ entriesOf E path ->
    indexable e /\ entryPath e = path /\ entryOffset e < nextOffsetOf m path.1;
  ix_once : forall path1 path2 e1 e2, e1 ∈ entriesOf E path1 -> e2 ∈ entriesOf E path2 ->
    path1.1 = path2.1 -> entryOffset e1 = entryOffset e2 -> path1 = path2;
  ix_live : forall p, p ∈ StorxLog.recordsOf s (srp_tp p) <-> live (entriesOf E (pathOf p)) !! srp_Offset p = Some p;
  ix_next : forall tp, 0 < nextOffsetOf m tp ->
    exists path e, path.1 = tp /\ e ∈ entriesOf E path /\ entryOffset e = nextOffsetOf m tp - 1;
  ix_segments : forall path, is_Some (segments (files s) !! path) -> is_Some (E !! path)
}.

Definition isPartition (m : MemoryStore) (tp : TopicPartition) : Prop :=
  exists topic, topics m !! tp_Topic tp = Some topic /\ 0 <= tp_Partition tp < tc_Partitions topic.

(** ** Writing index entries *)

Lemma filter_path (entry : segmentRecordPointer -> segmentIndexEntry) (ps : list segmentRecordPointer) path :
  (forall p, sie_Pointer (entry p) = p) ->
  filter (fun e => entryPath e = path) (entry <$> ps) = entry <$> filter (fun p => pathOf p = path) ps.
Proof.
  intros Hentry. induction ps as [|p ps IH]; [done|]. cbn [fmap list_fmap]. rewrite !filter_cons, IH.
  unfold entryPath. rewrite Hentry. by case_decide.
Qed.

Lemma fileOf_indexed E path : StorxLog.fileOf (indexBytes <$> E) path = indexBytes (entriesOf E path).
Proof. unfold StorxLog.fileOf, entriesOf. rewrite lookup_fmap. by destruct (E !! path). Qed.

Lemma appendSegmentIndexEntries_indexed s E path es :
  indexes (files s) = indexBytes <$> E -> Forall indexable es ->
  exists s', StorxLog.appendSegmentIndexEntries s path es = (s', Ok tt) /\ only_indexes s s' /\
    indexes (files s') = indexBytes <$> <[path := entriesOf E path ++ es]> E.
Proof.
  intros HE Hes. unfold StorxLog.appendSegmentIndexEntries. rewrite encodeSegmentIndexEntries_ok by done.
  eexists. split; [done|]. split; [done|]. cbn. rewrite HE, fileOf_indexed, fmap_insert, indexBytes_app. done.
Qed.

Lemma addEntries_same E es path :
  es <> [] -> Forall (fun e => entryPath e = path) es -> addEntries E es = <[path := entriesOf E path ++ es]> E.
Proof.
  intros Hne Hes. apply map_eq. intros path'. rewrite addEntries_lookup, lookup_insert. case_decide as Hd.
  - subst path'. rewrite filter_all by done. by destruct es.
  - rewrite filter_none; [done|]. eapply Forall_impl; [exact Hes|]. intros e He. cbn. congruence.
Qed.

Lemma appendBatchSegmentIndexes_indexed s E tp ps s' :
  indexes (files s) = indexBytes <$> E -> Forall (fun p => indexable (liveEntry p) /\ srp_tp p = tp) ps ->
  StorxLog.appendBatchSegmentIndexes s tp ps = (s', Ok tt) ->
  indexes (files s') = indexBytes <$> addEntries E (liveEntry <$> ps).
Proof.
  unfold StorxLog.appendBatchSegmentIndexes. assert (length ps < S (length ps))%nat as Hf by lia. revert Hf.
  generalize (S (length ps)). intros fuel. revert s E ps. induction fuel as [|fuel IH]; intros s E ps Hf HE Hps; [lia|].
  cbn [StorxLog.appendBatchSegmentIndexesLoop]. destruct ps as [|p ps]; [by intros [= <-]|].
  pose proof (sameSegment_le (srp_SegmentID p) ps) as Hle.
  pose proof (sameSegment_run (srp_SegmentID p) ps) as Hrun.
  set (n := StorxLog.sameSegment (srp_SegmentID p) ps) in *.
  unfold StorxLog.appendSegmentIndexPointers. destruct (Z.eqb_spec (len (take (S n) (p :: ps))) 0) as [Hz|_]; [done|].
  destruct (appendSegmentIndexEntries_indexed s E (tp, srp_SegmentID p) (liveEntry <$> take (S n) (p :: ps)))
    as (s1 & Hs1 & _ & HE1); [done| |].
  { apply Forall_fmap, Forall_take. eapply Forall_impl; [exact Hps|]. cbv [compose]. tauto. }
  unfold liveEntry in Hs1. rewrite Hs1. rewrite <- (take_drop (S n) (p :: ps)) at 2.
  rewrite fmap_app, addEntries_app, (addEntries_same E _ (tp, srp_SegmentID p)).
  - apply IH; [rewrite length_drop; cbn [length] in *; lia|done|by apply Forall_drop].
  - cbn [take fmap list_fmap]. done.
  - apply Forall_fmap. cbn [take]. inversion Hps as [|? ? [_ Hp] Hps']; subst.
    constructor; [done|]. apply Forall_lookup. intros i q Hq. cbv [compose entryPath pathOf liveEntry sie_Pointer].
    pose proof (Forall_lookup_1 _ _ _ _ Hrun Hq) as Hq1. cbn beta in Hq1. rewrite Hq1. f_equal.
    apply (Forall_take _ n) in Hps'. by destruct (Forall_lookup_1 _ _ _ _ Hps' Hq).
Qed.

Section Deletes.
Context `{MapRange}.

Lemma foldl_deletes_indexed l s E :
  indexes (files s) = indexBytes <$> E -> Forall (fun e : SegmentPath * list segmentIndexEntry => Forall indexable e.2) l ->
  exists s', foldl (fun '(s, res) '(path, entries) =>
      let '(s, r) := StorxLog.appendSegmentIndexEntries s path entries in
      (s, match res with Err e => Err e | Ok _ => r end)) (s, Ok tt : result Code unit) l = (s', Ok tt) /\ only_indexes s s' /\
    indexes (files s') = indexBytes <$> foldl (fun E '(path, es) => <[path := entriesOf E path ++ es]> E) E l.
Proof.
  intros HE Hl. revert s E HE. induction Hl as [|[path es] l Hes _ IH]; intros s E HE; cbn [foldl].
  { exists s. split_and!; [done|apply only_indexes_refl|done]. }
  destruct (appendSegmentIndexEntries_indexed s E path es HE Hes) as (s1 & -> & Ho1 & HE1).
  destruct (IH s1 _ HE1) as (s2 & -> & Ho2 & HE2). exists s2. split_and!; [done|by eapply only_indexes_trans|done].
Qed.

Lemma foldl_insert_entries (l : list (SegmentPath * list segmentIndexEntry)) E path :
  NoDup l.*1 ->
  foldl (fun E '(path, es) => <[path := entriesOf E path ++ es]> E) E l !! path =
    match (list_to_map l : Entries) !! path with Some es => Some (entriesOf E path ++ es) | None => E !! path end.
Proof.
  revert E. induction l as [|[path' es] l IH]; intros E Hnd; [done|]. cbn [foldl list_to_map foldr].
  rewrite fmap_cons in Hnd. apply NoDup_cons in Hnd as [Hni Hnd]. rewrite IH by done. cbn in Hni |- *.
  rewrite lookup_insert. case_decide as Hd.
  - subst path'. rewrite (not_elem_of_list_to_map_1 l path Hni), lookup_insert_eq. done.
  - unfold entriesOf. by rewrite !lookup_insert_ne.
Qed.

Lemma appendSegmentIndexDeletes_indexed s E ps :
  indexes (files s) = indexBytes <$> E -> Forall (fun p => indexable (liveEntry p)) ps ->
  exists s', StorxLog.appendSegmentIndexDeletes s ps = (s', Ok tt) /\ only_indexes s s' /\
    indexes (files s') = indexBytes <$> addEntries E (deletedEntry <$> ps).
Proof.
  intros HE Hps. unfold StorxLog.appendSegmentIndexDeletes.
  destruct (foldl_deletes_indexed (range (StorxLog.deletesByPath ps)) s E HE) as (s' & Hs & Ho & HE').
  { apply Forall_forall. intros [path es] Hin%elem_of_range. rewrite deletesByPath_lookup in Hin.
    assert (es = deletedEntry <$> filter (fun p => pathOf p = path) ps) as -> by (by destruct (filter _ ps); [|injection Hin as <-]).
    apply Forall_fmap. eapply Forall_sublist; [apply sublist_filter|done]. }
  exists s'. split; [exact Hs|]. split; [done|]. rewrite HE'. f_equal. apply map_eq. intros path.
  rewrite foldl_insert_entries by apply NoDup_keys. rewrite addEntries_lookup.
  assert ((list_to_map (range (StorxLog.deletesByPath ps)) : Entries) !! path = StorxLog.deletesByPath ps !! path) as ->.
  { rewrite <- (list_to_map_to_list (StorxLog.deletesByPath ps)) at 2. f_equal.
    apply list_to_map_proper; [apply NoDup_keys|apply range_perm]. }
  rewrite deletesByPath_lookup.
  assert (filter (fun e => entryPath e = path) (deletedEntry <$> ps) = deletedEntry <$> filter (fun p => pathOf p = path) ps) as ->.
  { by rewrite (filter_path deletedEntry). }
  by destruct (filter _ ps).
Qed.

End Deletes.

Section Durable.
Context `{Zstd} `{ManifestCodec} `{MapRange}.

(** A topic that the manifest and the index can name. *)
Definition storable (topic : TopicConfig) : Prop :=
  representable topic /\ normalizeTopic topic = topic /\ slen (tc_Name topic) < 2 ^ 31 /\ is_u32 (tc_Partitions topic).

Record durable (s : StorxLogStore) (m : MemoryStore) : Prop := {
  du_refines : refines s m;
  du_indexed : exists E, indexed s m E;
  du_topics : forall n t, topics m !! n = Some t -> storable t;
  du_manifest : match manifest (files s) with
                | Some data => Unmarshal data = Some (StorxLog.sortTopics (values (topics m)))
                | None => topics m = ∅
                end;
  du_next : forall tp next, nextOffsets m !! tp = Some next -> isPartition m tp
}.

(** ** Removing records *)

Lemma indexed_pointer s m E p : indexed s m E -> p ∈ StorxLog.recordsOf s (srp_tp p) ->
  liveEntry p ∈ entriesOf E (pathOf p) /\ indexable (liveEntry p) /\ srp_Offset p < nextOffsetOf m (srp_tp p).
Proof.
  intros HE Hp. apply (ix_live s m E HE) in Hp. apply live_Some in Hp as [_ Hin].
  destruct (ix_entry s m E HE _ _ Hin) as (? & _ & ?). done.
Qed.

Lemma indexed_removed s m E tp remove m' s' n :
  indexed s m E -> refines s m -> (forall tp, nextOffsetOf m' tp = nextOffsetOf m tp) ->
  StorxLog.deleteRecordPointers s tp remove = (s', Ok n) ->
  exists E', indexed s' m' E'.
Proof.
  intros HE Hr Hnext. unfold StorxLog.deleteRecordPointers.
  pose proof (removeRecordPointers_frame s tp remove) as Hf.
  destruct (StorxLog.removeRecordPointers s tp remove) as [s1 removed].
  destruct Hf as (_ & Hfi & _ & Hrec & _ & _ & Hrem).
  assert (Forall (fun p => srp_tp p = tp /\ p ∈ StorxLog.recordsOf s tp /\ srp_Offset p ∈ remove) removed) as Hall.
  { rewrite Hrem. apply Forall_forall. intros p [Ho Hp]%list_elem_of_filter. split_and!; [|done|done].
    pose proof (ref_tp s m Hr tp) as Ht. rewrite Forall_forall in Ht. by apply Ht. }
  assert (exists s', (if len removed =? 0 then (s1, Ok 0) else
            let '(s, res) := StorxLog.appendSegmentIndexDeletes s1 removed in
            (s, match res with Err e => Err e | Ok _ => Ok (len removed) end)) = (s', Ok (len removed)) /\
            only_indexes s1 s' /\ indexes (files s') = indexBytes <$> addEntries E (deletedEntry <$> removed)) as (s2 & -> & Ho & Hix).
  { destruct (Z.eqb_spec (len removed) 0) as [Hz|_].
    - rewrite Hz. apply len_zero_nil in Hz as ->. exists s1. split_and!; [done|apply only_indexes_refl|].
      rewrite Hfi. apply (ix_files s m E HE).
    - destruct (appendSegmentIndexDeletes_indexed s1 E removed) as (s2 & -> & Ho & Hix).
      + rewrite Hfi. apply (ix_files s m E HE).
      + eapply Forall_impl; [exact Hall|]. intros p (Ht & Hp & _). rewrite <- Ht in Hp.
        by destruct (indexed_pointer s m E p HE Hp) as (_ & ? & _).
      + by exists s2. }
  intros [= <- _]. exists (addEntries E (deletedEntry <$> removed)).
  (* every entry repeats the offset of an older one in its file *)
  assert (forall path e, e ∈ entriesOf (addEntries E (deletedEntry <$> removed)) path ->
            exists e0, e0 ∈ entriesOf E path /\ sie_Pointer e0 = sie_Pointer e) as Hold.
  { intros path e [He|[He Hp]]%elem_of_addEntries; [by exists e|].
    apply list_elem_of_fmap in He as (p & -> & Hin). rewrite Forall_forall in Hall.
    destruct (Hall p Hin) as (Ht & Hpr & _). rewrite <- Ht in Hpr.
    destruct (indexed_pointer s m E p HE Hpr) as (Hl & _). exists (liveEntry p). split; [|done]. by rewrite <- Hp. }
  split.
  - done.
  - intros path e He. destruct (Hold path e He) as (e0 & He0 & Hp). rewrite Hnext.
    destruct (ix_entry s m E HE path e0 He0) as (Hi & Hpa & Hlt).
    unfold indexable, entryPath, entryOffset in *. by rewrite <- Hp.
  - intros path1 path2 e1 e2 He1 He2 Htp Heq. destruct (Hold _ _ He1) as (e1' & ? & Hp1). destruct (Hold _ _ He2) as (e2' & ? & Hp2).
    eapply (ix_once s m E HE path1 path2 e1' e2'); try done. unfold entryOffset in *. by rewrite Hp1, Hp2.
  - intros p. rewrite entriesOf_addEntries, (filter_path deletedEntry) by done. rewrite live_deleted.
    assert (StorxLog.recordsOf s2 (srp_tp p) = StorxLog.recordsOf s1 (srp_tp p)) as ->
      by (unfold only_indexes in Ho; by rewrite Ho).
    unfold StorxLog.recordsOf at 1. rewrite Hrec, lookup_insert. case_decide as Hd.
    + change (default [] (Some ?x)) with x. rewrite list_elem_of_filter. rewrite Hd at 1. rewrite (ix_live s m E HE).
      split.
      * intros [Hnin Hl]. rewrite decide_False; [done|]. intros (q & Hq & [_ Hqin]%list_elem_of_filter)%list_elem_of_fmap.
        rewrite Forall_forall in Hall. destruct (Hall q Hqin) as (_ & _ & Hqr). congruence.
      * case_decide as Hoff; [done|]. intros Hl. split; [|done]. intros Hin. apply Hoff.
        apply list_elem_of_fmap_2, list_elem_of_filter. split; [done|]. rewrite Hrem. apply list_elem_of_filter.
        split; [done|]. rewrite Hd. by apply (ix_live s m E HE).
    + change (default [] (StorxLog.records s !! srp_tp p)) with (StorxLog.recordsOf s (srp_tp p)).
      rewrite (ix_live s m E HE). rewrite decide_False; [done|].
      intros (q & _ & [Hqp Hqin]%list_elem_of_filter)%list_elem_of_fmap. rewrite Forall_forall in Hall.
      destruct (Hall q Hqin) as (Ht & _). unfold pathOf in Hqp. congruence.
  - intros tp'. rewrite Hnext. intros Hpos. destruct (ix_next s m E HE tp' Hpos) as (path & e & Hp & He & Heq).
    exists path, e. split_and!; [done| |done]. apply elem_of_addEntries. by left.
  - intros path Hp. apply addEntries_is_Some. left. apply (ix_segments s m E HE).
    unfold only_indexes in Ho. rewrite Ho in Hp. cbn in Hp. by rewrite Hfi in Hp.
Qed.

(** ** Appending records *)

(** Positions in a segment file are [int64]. *)
Definition files_fit (f : Files) : Prop := forall path file, segments f !! path = Some file -> len file < 2 ^ 63.

Lemma points_to_indexable f p r :
  files_fit f -> points_to f p r -> slen (tp_Topic (srp_tp p)) < 2 ^ 31 -> is_u32 (tp_Partition (srp_tp p)) ->
  is_u64 (srp_SegmentID p) -> indexable (liveEntry p).
Proof.
  intros Hfit Hp Htopic Hpart Hsid. destruct (points_to_fields _ _ _ Hp) as (Ho & Hts & Hat & Hrec & Hpos & Hlen).
  destruct Hp as (rs & frame & pre & post & Hf & _ & _ & _ & Heq). apply Hfit in Hf. rewrite !len_app in Hf.
  pose proof (f_equal srp_Position Heq) as Hpos'. pose proof (f_equal srp_Length Heq) as Hlen'. cbn in Hpos', Hlen'.
  pose proof (len_nonneg post). unfold indexable, segment_pointer, liveEntry, is_int. cbn [sie_Pointer].
  unfold segment_record in Hrec. rewrite Ho, Hts, Hat. destruct_and!. split_and!; try done; lia.
Qed.

Lemma recordAppendedPointers_elem s tp ps rs p :
  ps <> [] ->
  p ∈ StorxLog.recordsOf (StorxLog.recordAppendedPointers s tp ps rs) (srp_tp p) <->
  p ∈ StorxLog.recordsOf s (srp_tp p) \/ (p ∈ ps /\ srp_tp p = tp).
Proof.
  intros Hne. unfold StorxLog.recordAppendedPointers. destruct (Z.eqb_spec (len ps) 0) as [Hz%len_zero_nil|_]; [done|].
  match goal with |- context [StorxLog.set_nextOffsets _ ?x] => set (s3 := x) end.
  assert (StorxLog.records s3 = <[tp := sortSegmentPointers (StorxLog.recordsOf s tp ++ ps)]> (StorxLog.records s)) as Hr3.
  { unfold s3, StorxLog.recordAppendedKeyPointersLocked. by destruct (_ || _). }
  unfold StorxLog.recordsOf at 1. cbn. rewrite Hr3, lookup_insert. case_decide as Hd.
  - change (default [] (Some ?x)) with x. unfold sortSegmentPointers. rewrite sort_func_perm, elem_of_app, Hd. naive_solver.
  - change (default [] (StorxLog.records s !! srp_tp p)) with (StorxLog.recordsOf s (srp_tp p)). naive_solver.
Qed.

Lemma nextOffsetOf_appendedTo m tp rs tp' :
  nextOffsetOf (appendedTo m tp rs) tp' = if decide (tp = tp') then nextOffsetOf m tp + len rs else nextOffsetOf m tp'.
Proof.
  unfold nextOffsetOf at 1, appendedTo. cbn. destruct (decide (tp = tp')) as [<-|Hne].
  - by rewrite lookup_insert_eq.
  - rewrite lookup_insert_ne by done. unfold nextOffsetOf. destruct (nextOffsets m !! tp'); [done|]. cbn.
    unfold recordsOf. cbn. by rewrite lookup_insert_ne.
Qed.

(** The pointers of a batch, numbered from the next offset on. *)
Definition new_pointers (m : MemoryStore) (tp : TopicPartition) (n : Z) (ps : list segmentRecordPointer) : Prop :=
  srp_Offset <$> ps = seqZ (nextOffsetOf m tp) n /\ Forall (fun p => indexable (liveEntry p) /\ srp_tp p = tp) ps.

Lemma new_pointers_elem m tp n ps p :
  new_pointers m tp n ps -> p ∈ ps ->
  indexable (liveEntry p) /\ srp_tp p = tp /\ nextOffsetOf m tp <= srp_Offset p < nextOffsetOf m tp + n.
Proof.
  intros [Ho Hall] Hp. rewrite Forall_forall in Hall. destruct (Hall p Hp) as [? ?]. split_and!; try done;
    assert (srp_Offset p ∈ srp_Offset <$> ps) as Hin by (by apply list_elem_of_fmap_2);
    rewrite Ho, elem_of_seqZ in Hin; lia.
Qed.

Lemma new_pointers_inj m tp n ps p q :
  new_pointers m tp n ps -> p ∈ ps -> q ∈ ps -> srp_Offset p = srp_Offset q -> p = q.
Proof.
  intros [Ho _] [i Hi]%list_elem_of_lookup [j Hj]%list_elem_of_lookup Heq. enough (i = j) as -> by congruence.
  eapply (NoDup_lookup (srp_Offset <$> ps)); [rewrite Ho; apply NoDup_seqZ|by rewrite list_lookup_fmap, Hi|].
  rewrite list_lookup_fmap, Hj. cbn. by rewrite Heq.
Qed.

Lemma steps_new_pointers s s1 m E tp ps rs :
  indexed s m E -> refines s m -> files_fit (files s1) -> slen (tp_Topic tp) < 2 ^ 31 -> is_u32 (tp_Partition tp) ->
  written s s1 ((srp_SegmentID <$> StorxLog.recordsOf s tp) ++ recordOffsets rs) ps ->
  Forall2 (points_to (files s1)) ps rs -> Forall (fun p => srp_tp p = tp) ps ->
  recordOffsets rs = seqZ (nextOffsetOf m tp) (len rs) -> nextOffsetOf m tp + len rs <= max_u64 ->
  new_pointers m tp (len rs) ps.
Proof.
  intros HE Hr Hfit Htopic Hpart [Hids _] Hps Htp Ho Hmax.
  split; [by rewrite (points_offsets _ _ _ Hps)|].
  pose proof (log_inv_next_u64 m tp (ref_inv s m Hr)) as Hu. unfold is_u64 in Hu.
  apply Forall_forall. intros p Hp. rewrite Forall_forall in Htp, Hids. pose proof (Htp p Hp) as Ht. split; [|done].
  pose proof (Hids p Hp) as Hid. apply list_elem_of_lookup in Hp as [i Hpi].
  destruct (Forall2_lookup_l _ _ _ _ _ Hps Hpi) as (r & _ & Hpt).
  eapply points_to_indexable; [exact Hfit|exact Hpt|by rewrite Ht|by rewrite Ht|].
  apply elem_of_app in Hid as [Hid|Hid].
  - apply list_elem_of_fmap in Hid as (q & -> & Hq). pose proof (ref_tp s m Hr tp) as Htq. rewrite Forall_forall in Htq.
    assert (q ∈ StorxLog.recordsOf s (srp_tp q)) as Hq' by (by rewrite (Htq q Hq)).
    destruct (indexed_pointer s m E q HE Hq') as (_ & Hiq & _). unfold indexable, segment_pointer in Hiq. cbn in Hiq. tauto.
  - rewrite Ho, elem_of_seqZ in Hid. unfold is_u64, max_u64 in *. lia.
Qed.

Lemma indexed_add s s' m E tp ps rs :
  indexed s m E -> new_pointers m tp (len rs) ps -> rs <> [] ->
  indexes (files s') = indexBytes <$> addEntries E (liveEntry <$> ps) ->
  (forall p, p ∈ StorxLog.recordsOf s' (srp_tp p) <-> p ∈ StorxLog.recordsOf s (srp_tp p) \/ (p ∈ ps /\ srp_tp p = tp)) ->
  (forall path, is_Some (segments (files s') !! path) -> is_Some (segments (files s) !! path) \/ path ∈ pathOf <$> ps) ->
  indexed s' (appendedTo m tp rs) (addEntries E (liveEntry <$> ps)).
Proof.
  intros HE Hnp Hne Hfiles Hrecs Hnew. pose proof (fun p => new_pointers_elem m tp (len rs) ps p Hnp) as Hall. cbv beta in Hall.
  assert (forall path e, e ∈ entriesOf (addEntries E (liveEntry <$> ps)) path <->
            e ∈ entriesOf E path \/ exists p, e = liveEntry p /\ p ∈ ps /\ pathOf p = path) as Hmem.
  { intros path e. rewrite elem_of_addEntries, list_elem_of_fmap. split; [|naive_solver].
    intros [?|[(p & -> & Hp) Hpath]]; [by left|right; by exists p]. }
  assert (forall path e p, e ∈ entriesOf E path -> p ∈ ps -> path.1 = tp -> entryOffset e <> srp_Offset p) as Hfresh.
  { intros path e p He Hp Hpath. destruct (ix_entry s m E HE path e He) as (_ & _ & Hlt). rewrite Hpath in Hlt.
    destruct (Hall p Hp) as (_ & _ & Hge). lia. }
  split.
  - done.
  - intros path e [He|(p & -> & Hp & Hpath)]%Hmem; rewrite nextOffsetOf_appendedTo.
    + destruct (ix_entry s m E HE path e He) as (? & ? & Hlt). split_and!; [done|done|].
      case_decide as Hd; [|done]. rewrite Hd in *. pose proof (len_nonneg rs). lia.
    + destruct (Hall p Hp) as (? & Ht & Hlt). split_and!; [done|done|]. rewrite <- Hpath. cbn.
      rewrite decide_True by done. unfold entryOffset. cbn. lia.
  - intros path1 path2 e1 e2 He1 He2 Hpath Heq. rewrite Hmem in He1, He2.
    destruct He1 as [He1|(p1 & -> & Hp1 & Hpath1)], He2 as [He2|(p2 & -> & Hp2 & Hpath2)].
    + by eapply (ix_once s m E HE).
    + exfalso. eapply (Hfresh path1 e1 p2); [done|done| |done]. rewrite Hpath, <- Hpath2. by destruct (Hall p2 Hp2) as (_ & ? & _).
    + exfalso. eapply (Hfresh path2 e2 p1); [done|done| |done]. rewrite <- Hpath, <- Hpath1. by destruct (Hall p1 Hp1) as (_ & ? & _).
    + unfold entryOffset in Heq. cbn in Heq. rewrite <- Hpath1, <- Hpath2. f_equal. by eapply new_pointers_inj.
  - intros p. rewrite Hrecs. rewrite entriesOf_addEntries, (filter_path liveEntry) by done.
    rewrite (ix_live s m E HE), live_appended.
    + rewrite list_elem_of_filter. split; [intros [?|[? ?]]; [by left|by right]|].
      intros [?|[[_ Hp] _]]; [by left|right]. split; [done|]. by destruct (Hall p Hp) as (_ & ? & _).
    + intros e He (q & Hq & [Hqp Hqin]%list_elem_of_filter)%list_elem_of_fmap.
      apply (Hfresh _ e q He Hqin); [|done]. rewrite <- Hqp. by destruct (Hall q Hqin) as (_ & ? & _).
    + assert (NoDup (srp_Offset <$> ps)) as Hnd by (rewrite (proj1 Hnp); apply NoDup_seqZ).
      eapply sublist_NoDup; [exact Hnd|]. apply fmap_sublist, sublist_filter.
  - intros tp'. rewrite nextOffsetOf_appendedTo. case_decide as Hd; intros Hpos.
    + subst tp'. assert (0 < len rs) as Hlr by (destruct rs; [done|]; rewrite len_cons; pose proof (len_nonneg rs); lia).
      assert (nextOffsetOf m tp + len rs - 1 ∈ srp_Offset <$> ps) as (p & Hpo & Hp)%list_elem_of_fmap
        by (rewrite (proj1 Hnp); apply elem_of_seqZ; pose proof (len_nonneg rs); lia).
      exists (pathOf p), (liveEntry p). split_and!; [by destruct (Hall p Hp) as (_ & ? & _)| |done].
      apply Hmem. right. by exists p.
    + destruct (ix_next s m E HE tp' Hpos) as (path & e & ? & He & ?). exists path, e. split_and!; [done| |done].
      apply Hmem. by left.
  - intros path Hp. apply addEntries_is_Some. destruct (Hnew path Hp) as [Hold|Hin].
    + left. by apply (ix_segments s m E HE).
    + right. apply list_elem_of_fmap in Hin as (p & -> & Hin). exists (liveEntry p). split; [by apply list_elem_of_fmap_2|done].
Qed.

Lemma indexed_appended s s' m E tp rs :
  indexed s m E -> refines s m -> append_steps s s' m tp rs ->
  files_fit (files s') -> slen (tp_Topic tp) < 2 ^ 31 -> is_u32 (tp_Partition tp) ->
  exists E', indexed s' (appendedTo m tp rs) E'.
Proof.
  intros HE Hr (s1 & s2 & ps & [_ Ha] & Hwr & Hps & Htp & Hi & -> & Hne & _ & Ho & Hmax & _) Hfit Htopic Hpart.
  pose proof (appendBatchSegmentIndexes_only s1 tp ps) as Hix. rewrite Hi in Hix. cbn in Hix. unfold only_indexes in Hix.
  destruct (recordAppendedPointers_keys s2 tp ps rs) as (_ & Hf' & _).
  assert (segments (files s2) = segments (files s1)) as Hseg2 by (by rewrite Hix).
  assert (new_pointers m tp (len rs) ps) as Hnp.
  { eapply (steps_new_pointers s s1); try done. intros path file Hp. apply (Hfit path). by rewrite Hf', Hseg2. }
  exists (addEntries E (liveEntry <$> ps)). apply (indexed_add s); [done|done|done|..].
  - rewrite Hf'. eapply appendBatchSegmentIndexes_indexed; [|exact (proj2 Hnp)|exact Hi].
    rewrite Ha. apply (ix_files s m E HE).
  - intros p. rewrite recordAppendedPointers_elem by (intros ->; by inversion Hps; subst).
    assert (StorxLog.recordsOf s2 (srp_tp p) = StorxLog.recordsOf s (srp_tp p)) as -> by (by rewrite Hix, Ha). done.
  - intros path. rewrite Hf', Hseg2. apply Hwr.
Qed.

(** ** Every operation keeps a store durable *)

Lemma indexed_same s s' m m' E :
  indexed s m E -> files s' = files s -> (forall tp, StorxLog.recordsOf s' tp = StorxLog.recordsOf s tp) ->
  (forall tp, nextOffsetOf m' tp = nextOffsetOf m tp) -> indexed s' m' E.
Proof.
  intros HE Hf Hr Hn. split.
  - rewrite Hf. apply (ix_files s m E HE).
  - intros path e. rewrite Hn. apply (ix_entry s m E HE).
  - apply (ix_once s m E HE).
  - intros p. rewrite Hr. apply (ix_live s m E HE).
  - intros tp. rewrite Hn. apply (ix_next s m E HE).
  - intros path. rewrite Hf. apply (ix_segments s m E HE).
Qed.

Lemma durable_append s s' m tp rs :
  durable s m -> append_steps s s' m tp rs -> files_fit (files s') -> 0 <= tp_Partition tp ->
  durable s' (appendedTo m tp rs).
Proof.
  intros Hd Hst Hfit Hp0. pose proof (du_refines s m Hd) as Hr. destruct (du_indexed s m Hd) as [E HE].
  assert (exists topic, topics m !! tp_Topic tp = Some topic /\ tp_Partition tp < tc_Partitions topic) as (topic & Ht & Hpt).
  { destruct Hst as (s1 & s2 & ps & Hst). destruct_and!. by apply validatePartition_ok. }
  destruct (du_topics s m Hd _ _ Ht) as (_ & _ & Hname & Hparts).
  rewrite (proj1 (li_topic m (ref_inv s m Hr) _ _ Ht)) in Hname.
  split.
  - by eapply append_steps_refines.
  - eapply indexed_appended; try done. unfold is_u32 in *. lia.
  - intros n t. apply (du_topics s m Hd).
  - destruct Hst as (s1 & s2 & ps & [_ Ha] & _ & _ & _ & Hi & -> & _).
    destruct (recordAppendedPointers_keys s2 tp ps rs) as (_ & -> & _).
    pose proof (appendBatchSegmentIndexes_only s1 tp ps) as Hix. rewrite Hi in Hix. cbn in Hix. unfold only_indexes in Hix.
    assert (manifest (files s2) = manifest (files s)) as -> by (by rewrite Hix, Ha). apply (du_manifest s m Hd).
  - intros tp' next. cbn. rewrite lookup_insert. case_decide as Heq; [|apply (du_next s m Hd)].
    intros _. subst tp'. exists topic. split; [done|lia].
Qed.

Lemma durable_cleaned s m s' m' :
  durable s m -> cleaned m m' -> refines s' m' -> (exists E, indexed s' m' E) -> manifest (files s') = manifest (files s) ->
  durable s' m'.
Proof.
  intros Hd (Ht & _ & Hn & _) Hr HE Hm. split; [done|done|..].
  - rewrite Ht. apply (du_topics s m Hd).
  - rewrite Hm, Ht. apply (du_manifest s m Hd).
  - rewrite Hn. unfold isPartition. rewrite Ht. apply (du_next s m Hd).
Qed.

Lemma durable_keys s s' m :
  durable s m -> refines s' m -> files s' = files s -> (forall tp, StorxLog.recordsOf s' tp = StorxLog.recordsOf s tp) -> durable s' m.
Proof.
  intros Hd Hr Hf Hrec. destruct (du_indexed s m Hd) as [E HE].
  eapply durable_cleaned; [exact Hd|apply cleaned_refl|done| |by rewrite Hf].
  exists E. by eapply indexed_same.
Qed.

Lemma durable_kept_by_removal : kept_by_removal durable.
Proof.
  intros s m s' m' tp remove n Hd Hr Hc Hr' Hs. destruct (du_indexed s m Hd) as [E HE].
  destruct (cleaned_inv _ _ Hc (ref_inv s m Hr)) as [_ Hnext]. eapply durable_cleaned; [exact Hd|done|done|..].
  - eapply indexed_removed; [exact HE|done| |exact Hs]. intros tp'. by rewrite Hnext.
  - pose proof (deleteRecordPointers_frame s tp remove) as Ho. rewrite Hs in Ho.
    pose proof (removeRecordPointers_frame s tp remove) as Hf.
    destruct (StorxLog.removeRecordPointers s tp _) as [s1 removed]. destruct Hf as (_ & Hf & _). cbn in Ho.
    unfold only_indexes in Ho. rewrite Ho. cbn. by rewrite Hf.
Qed.

Lemma durable_kept_by_keys : kept_by_keys durable.
Proof. intros s s' m. apply durable_keys. Qed.

Lemma durable_created s s' m m' topic :
  durable s m -> refines s' m' -> storable topic -> created s s' m m' topic -> durable s' m'.
Proof.
  intros Hd Hr' Hst ((data & Hf & Hdata) & Hrec & _ & _ & Hfresh & Ht & _ & Hn & Hnx). destruct (du_indexed s m Hd) as [E HE].
  split; [done|..].
  - exists E. split.
    + rewrite Hf. apply (ix_files s m E HE).
    + intros path e. rewrite Hn. apply (ix_entry s m E HE).
    + apply (ix_once s m E HE).
    + intros p. rewrite Hrec. apply (ix_live s m E HE).
    + intros tp. rewrite Hn. apply (ix_next s m E HE).
    + intros path. rewrite Hf. apply (ix_segments s m E HE).
  - intros n t. rewrite Ht, lookup_insert. case_decide; [by intros [= <-]|apply (du_topics s m Hd)].
  - by rewrite Hf.
  - intros tp next [Hold|[Hname Hp]]%Hnx.
    + destruct (du_next s m Hd tp next Hold) as (t & Hpt & Hp). unfold isPartition. rewrite Ht.
      exists t. rewrite lookup_insert_ne; [done|]. intros Heq. rewrite <- Heq in Hpt. congruence.
    + exists topic. by rewrite Ht, Hname, lookup_insert_eq.
Qed.

End Durable.
