(* ===== verification/SegmentReopenSpec.v ===== *)
(** * The file-backed log: opening it again

    Opening the files of a durable store gives a store that stands for the
    same log: the same topics, records, next offsets and indexes, whatever
    the order in which the directory walk visits the index files. *)

From stdpp Require Import prelude gmap strings sorting list.
From S2P Require Import Prelude Wire WireSpec Model MemoryStore Cleanup LogSpec CleanupSpec SegmentFrame SegmentFrameSpec SegmentIndex SegmentIndexSpec SegmentLog SegmentAppendSpec SegmentCleanSpec SegmentDurableSpec.

#[local] Open Scope Z_scope.

Import StorxLog (Files, StorxLogStore, segments, indexes, manifest, files, compression, SegmentPath).

(** ** Topics *)

Definition hasPartition (tp : TopicPartition) (topic : TopicConfig) : Prop :=
  tp_Topic tp = tc_Name topic /\ tp_Partition tp ∈ seqZ 0 (tc_Partitions topic).

#[global] Instance hasPartition_dec tp topic : Decision (hasPartition tp topic).
Proof. unfold hasPartition. apply _. Defined.

(** What of a store the loading of topics leaves. *)
Definition same_log (s s' : StorxLogStore) : Prop :=
  (forall tp, StorxLog.recordsOf s' tp = StorxLog.recordsOf s tp) /\
  StorxLog.timestampRecords s' = StorxLog.timestampRecords s /\ files s' = files s /\
  StorxLog.keyRecords s' = StorxLog.keyRecords s /\ StorxLog.keyIndexReady s' = StorxLog.keyIndexReady s.

Lemma ensure_topics (k : StorxLogStore -> TopicConfig -> gmap string TopicConfig) ts s :
  (forall tp, StorxLog.nextOffsets s !! tp = None -> StorxLog.recordsOf s tp = []) ->
  let s' := foldl (fun s t => StorxLog.ensureTopicPartitionsLocked (StorxLog.set_topics (k s t) s) t) s ts in
  same_log s s' /\
  forall tp, StorxLog.nextOffsets s' !! tp =
    match StorxLog.nextOffsets s !! tp with
    | Some next => Some next
    | None => if decide (Exists (hasPartition tp) ts) then Some 0 else None
    end.
Proof.
  revert s. induction ts as [|t ts IH]; intros s Hdom; cbn [foldl].
  { split; [done|]. intros tp. rewrite decide_False by (by intros ?%Exists_nil). by destruct (StorxLog.nextOffsets s !! tp). }
  set (s1 := StorxLog.set_topics (k s t) s).
  destruct (ensurePartitions_spec (tc_Name t) (seqZ 0 (tc_Partitions t)) s1 Hdom) as (Hrec & Hnext & Hts & _ & Hf & Hk & Hi & _).
  fold (StorxLog.ensureTopicPartitionsLocked s1 t) in Hrec, Hnext, Hts, Hf, Hk, Hi.
  set (s2 := StorxLog.ensureTopicPartitionsLocked s1 t) in *.
  destruct (IH s2) as ((Hr2 & Ht2 & Hf2 & Hk2 & Hi2) & Hn2).
  { intros tp. rewrite Hnext, Hrec. cbn. destruct (StorxLog.nextOffsets s !! tp) eqn:E; [done|]. intros _. by apply Hdom. }
  split; [split_and!; [intros tp; by rewrite Hr2, Hrec|by rewrite Ht2, Hts|by rewrite Hf2, Hf|by rewrite Hk2, Hk|by rewrite Hi2, Hi]|].
  intros tp. rewrite Hn2, Hnext. cbn. destruct (StorxLog.nextOffsets s !! tp); [done|].
  change (tp_Topic tp = tc_Name t /\ tp_Partition tp ∈ seqZ 0 (tc_Partitions t)) with (hasPartition tp t).
  pose proof (Exists_cons (hasPartition tp) t ts). repeat case_decide; tauto.
Qed.

Lemma foldl_topics (M : gmap string TopicConfig) ts T :
  (forall n t, M !! n = Some t -> tc_Name t = n) ->
  (forall t, t ∈ ts <-> exists n, M !! n = Some t) -> T = ∅ ->
  foldl (fun T t => <[tc_Name t := t]> T) T ts = M.
Proof.
  intros Hname Hts ->.
  assert (forall ts T, (forall t, t ∈ ts -> M !! tc_Name t = Some t) -> T ⊆ M ->
            foldl (fun T t => <[tc_Name t := t]> T) T ts ⊆ M /\
            forall t, t ∈ ts \/ T !! tc_Name t = Some t -> foldl (fun T t => <[tc_Name t := t]> T) T ts !! tc_Name t = Some t) as Hgen.
  { clear Hts. intros ts'. induction ts' as [|t ts' IH]; intros T Hin Hsub; cbn [foldl].
    { split; [done|]. intros t [?%elem_of_nil|?]; done. }
    destruct (IH (<[tc_Name t := t]> T)) as [H1 H2].
    - intros t' ?. apply Hin. by right.
    - apply insert_subseteq_l; [|done]. apply Hin. left.
    - split; [done|]. intros t' [[->|?]%elem_of_cons|Ht']; apply H2; [right; apply lookup_insert_eq|by left|right].
      rewrite lookup_insert. case_decide as Hd; [|done].
      assert (M !! tc_Name t' = Some t') as Hm by (by eapply lookup_weaken).
      rewrite <- Hd, (Hin t ltac:(left)) in Hm. done. }
  destruct (Hgen ts ∅) as [Hsub Hall]; [|apply map_empty_subseteq|].
  { intros t (n & Hn)%Hts. by rewrite (Hname _ _ Hn). }
  apply (anti_symm (⊆)); [done|]. apply map_subseteq_spec. intros n t Hn.
  rewrite <- (Hname _ _ Hn). apply Hall. left. apply Hts. by exists n.
Qed.

Lemma foldl_ensure_topics n ps s : StorxLog.topics (foldl (StorxLog.ensurePartitionLocked n) s ps) = StorxLog.topics s.
Proof.
  revert s. induction ps as [|p ps IH]; intros s; cbn [foldl]; [done|]. rewrite IH.
  unfold StorxLog.ensurePartitionLocked. repeat case_match; done.
Qed.

Lemma foldl_same_topics ts s :
  StorxLog.topics (foldl (fun s t => StorxLog.ensureTopicPartitionsLocked (StorxLog.set_topics (StorxLog.topics s) s) t) s ts)
  = StorxLog.topics s.
Proof.
  revert s. induction ts as [|t ts IH]; intros s; cbn [foldl]; [done|]. rewrite IH.
  unfold StorxLog.ensureTopicPartitionsLocked. by rewrite foldl_ensure_topics.
Qed.

(** ** Loading index files *)

Section Load.
Context `{Zstd} `{ManifestCodec} `{MapRange}.

Definition entryTp (e : segmentIndexEntry) : TopicPartition := srp_tp (sie_Pointer e).

Definition nextAfter (es : list segmentIndexEntry) : Z :=
  foldl (fun n e => Z.max n (u64 (entryOffset e + 1))) 0 es.

Lemma applied_entries es :
  let '(loaded, nexts) := foldl StorxLog.applyLoadedSegmentIndexEntry (∅, ∅) es in
  (forall tp, loaded !! tp = match filter (fun e => entryTp e = tp) es with [] => None | l => Some (live l) end) /\
  (forall tp, nexts !! tp = match filter (fun e => entryTp e = tp) es with [] => None | l => Some (nextAfter l) end).
Proof.
  induction es as [|e es IH] using rev_ind; [done|]. rewrite foldl_snoc.
  destruct (foldl StorxLog.applyLoadedSegmentIndexEntry (∅, ∅) es) as [loaded nexts]. destruct IH as [IH1 IH2].
  unfold StorxLog.applyLoadedSegmentIndexEntry. cbv zeta. fold (entryTp e). fold (entryOffset e).
  assert (forall tp, default ∅ (loaded !! tp) = live (filter (fun e => entryTp e = tp) es)) as Hl.
  { intros tp. rewrite IH1. by destruct (filter _ es). }
  assert (forall tp, default 0 (nexts !! tp) = nextAfter (filter (fun e => entryTp e = tp) es)) as Hn.
  { intros tp. rewrite IH2. by destruct (filter _ es). }
  rewrite Hl, Hn.
  assert (forall {A} (g : list segmentIndexEntry -> A) tp (x : option A), (tp <> entryTp e -> x = match filter (fun e => entryTp e = tp) es with [] => None | l => Some (g l) end) ->
    (tp = entryTp e -> x = Some (g (filter (fun e => entryTp e = tp) es ++ [e]))) ->
    x = match filter (fun e => entryTp e = tp) (es ++ [e]) with [] => None | l => Some (g l) end) as Hcase.
  { intros A g tp x H1' H2'. rewrite filter_app, filter_cons, filter_nil. case_decide as Hd.
    - rewrite (H2' (eq_sym Hd)). by destruct (filter _ es).
    - rewrite app_nil_r. apply H1'. congruence. }
  destruct (sie_Deleted e) eqn:Ed; (split; intros tp; (apply Hcase; [intros Hne; rewrite lookup_insert_ne by done; (apply IH1 || apply IH2)|intros ->; rewrite lookup_insert_eq])).
  - by rewrite live_snoc, Ed.
  - unfold nextAfter. by rewrite foldl_snoc.
  - by rewrite live_snoc, Ed.
  - unfold nextAfter. by rewrite foldl_snoc.
Qed.

Lemma loadIndexFiles_entries (E : Entries) (fs : list (SegmentPath * bytes)) l :
  (forall path file, (path, file) ∈ fs -> file = indexBytes (entriesOf E path)) ->
  (forall path e, e ∈ entriesOf E path -> indexable e) ->
  StorxLog.loadIndexFiles l fs = Ok (foldl StorxLog.applyLoadedSegmentIndexEntry l (fs.*1 ≫= entriesOf E)).
Proof.
  intros Hfs HE. revert l. induction fs as [|[path file] fs IH]; intros l; [done|]. cbn [StorxLog.loadIndexFiles].
  rewrite (Hfs path file) by left. rewrite read_index by (apply Forall_forall, HE). cbn [mbind result_bind].
  rewrite IH by (intros path' file' ?; apply Hfs; by right).
  rewrite fmap_cons. cbn [fst]. rewrite bind_cons, foldl_app. done.
Qed.

Lemma filter_ext_elem {A} (P Q : A -> Prop) `{!forall x, Decision (P x)} `{!forall x, Decision (Q x)} (l : list A) :
  (forall x, x ∈ l -> P x <-> Q x) -> filter P l = filter Q l.
Proof.
  induction l as [|x l IH]; intros Hpq; [done|]. rewrite !filter_cons, IH by (intros y ?; apply Hpq; by right).
  pose proof (Hpq x ltac:(left)). repeat case_decide; tauto.
Qed.

Lemma filter_bind_one {A B} (P : B -> Prop) `{!forall x, Decision (P x)} (f : A -> list B) l a :
  NoDup l -> a ∈ l -> (forall a' b, a' ∈ l -> b ∈ f a' -> P b -> a' = a) -> filter P (l ≫= f) = filter P (f a).
Proof.
  intros Hnd Ha Hone. apply list_elem_of_split in Ha as (l1 & l2 & ->).
  apply NoDup_app in Hnd as (_ & Hd & [Hd2 _]%NoDup_cons).
  assert (forall l, (forall a', a' ∈ l -> a' ∈ l1 ++ a :: l2) -> a ∉ l -> filter P (l ≫= f) = []) as Hnone.
  { intros l Hsub Hni. apply filter_none, Forall_forall. intros b (a' & Hb & Ha')%list_elem_of_bind HP.
    apply Hni. rewrite <- (Hone a' b (Hsub a' Ha') Hb HP). done. }
  rewrite bind_app, bind_cons, !filter_app, !Hnone.
  - by rewrite app_nil_r.
  - set_solver.
  - done.
  - set_solver.
  - intros Hin. apply (Hd a Hin). left.
Qed.

(** ** What the index files of a durable store say *)

Section Entries.
Context (s : StorxLogStore) (m : MemoryStore) (E : Entries).
Hypothesis Hr : refines s m.
Hypothesis HE : indexed s m E.
Context (paths : list SegmentPath).
Hypothesis paths_nodup : NoDup paths.
Hypothesis paths_all : forall path, path ∈ paths <-> is_Some (E !! path).

Definition entriesFor (tp : TopicPartition) : list segmentIndexEntry := filter (fun e => entryTp e = tp) (paths ≫= entriesOf E).

Lemma entries_path path e : e ∈ entriesOf E path -> path ∈ paths.
Proof using paths_all.
  intros He. apply paths_all. unfold entriesOf in He. destruct (E !! path); [by eexists|]. by apply elem_of_nil in He.
Qed.

Lemma elem_of_entriesFor tp e : e ∈ entriesFor tp <-> exists path, path.1 = tp /\ e ∈ entriesOf E path.
Proof using HE paths_all.
  unfold entriesFor. rewrite list_elem_of_filter, list_elem_of_bind. split.
  - intros [Ht (path & He & _)]. exists path. split; [|done]. destruct (ix_entry s m E HE path e He) as (_ & Hp & _).
    rewrite <- Hp. done.
  - intros (path & Ht & He). split; [|exists path; split; [done|by eapply entries_path]].
    destruct (ix_entry s m E HE path e He) as (_ & Hp & _). rewrite <- Ht, <- Hp. done.
Qed.

(** The entries of one offset are those of one file. *)
Lemma entriesFor_offset path e0 :
  e0 ∈ entriesOf E path ->
  filter (fun e => entryOffset e = entryOffset e0) (entriesFor path.1) = filter (fun e => entryOffset e = entryOffset e0) (entriesOf E path).
Proof using HE paths_nodup paths_all.
  intros He0. unfold entriesFor. rewrite list_filter_filter.
  rewrite (filter_bind_one _ (entriesOf E) paths path); [|done|by eapply entries_path|].
  - apply filter_ext_elem. intros e He. destruct (ix_entry s m E HE path e He) as (_ & Hp & _).
    split; [tauto|]. intros Ho. split; [done|]. rewrite <- Hp. done.
  - intros path' e _ He [Ho Ht]. eapply (ix_once s m E HE path' path e e0); [done|done| |done].
    destruct (ix_entry s m E HE path' e He) as (_ & Hp & _). rewrite <- Ht, <- Hp. done.
Qed.

Lemma live_entriesFor tp o p :
  live (entriesFor tp) !! o = Some p <-> srp_tp p = tp /\ srp_Offset p = o /\ p ∈ StorxLog.recordsOf s tp.
Proof using HE paths_nodup paths_all.
  split.
  - intros Hl. destruct (live_Some _ _ _ Hl) as [Ho Hin]. apply elem_of_entriesFor in Hin as (path & Ht & He).
    destruct (ix_entry s m E HE path _ He) as (_ & Hp & _). unfold entryPath in Hp. cbn in Hp.
    assert (srp_tp p = tp) as Htp by (rewrite <- Ht, <- Hp; done). split_and!; [done|done|].
    rewrite <- Htp. apply (ix_live s m E HE). rewrite live_filter in Hl |- *. rewrite <- Ho, <- Ht in Hl.
    change (srp_Offset p) with (entryOffset (liveEntry p)) in Hl.
    rewrite (entriesFor_offset path _ He) in Hl. by rewrite Hp.
  - intros (<- & <- & Hp). apply (ix_live s m E HE) in Hp. destruct (live_Some _ _ _ Hp) as [_ He].
    rewrite live_filter in Hp |- *. change (srp_tp p) with (pathOf p).1.
    change (srp_Offset p) with (entryOffset (liveEntry p)) in Hp |- *. by rewrite (entriesFor_offset _ _ He).
Qed.

Lemma loaded_records tp : sortSegmentPointers (values (live (entriesFor tp))) = StorxLog.recordsOf s tp.
Proof using Hr HE paths_nodup paths_all.
  assert (StronglySorted Z.lt (srp_Offset <$> StorxLog.recordsOf s tp)) as Hs.
  { rewrite (points_offsets _ _ _ (ref_log s m Hr tp)). by destruct (log_inv_recordsOf m tp (ref_inv s m Hr)). }
  rewrite <- (sortSegmentPointers_id (StorxLog.recordsOf s tp)) by done.
  pose proof (refines_nodup s m tp Hr) as Hnd.
  assert (NoDup (values (live (entriesFor tp)))) as Hndv.
  { eapply (NoDup_fmap_1 srp_Offset). unfold values. rewrite <- list_fmap_compose.
    rewrite (list_fmap_ext _ fst (range (live (entriesFor tp)))); [apply NoDup_keys|].
    intros i [o p] Hi. cbn. apply list_elem_of_lookup_2, elem_of_range in Hi. by apply live_Some in Hi as [? _]. }
  apply sort_func_perm_eq; [apply _|..].
  - intros x y Hx Hy Heq. unfold comparePointerOffset in Heq. cmp_eq_inv.
    apply elem_of_values in Hx as [ox Hx]. apply elem_of_values in Hy as [oy Hy].
    apply live_Some in Hx as Hx1. apply live_Some in Hy as Hy1. destruct Hx1 as [Hx1 _], Hy1 as [Hy1 _]. congruence.
  - apply NoDup_Permutation; [done|by eapply NoDup_fmap_1|]. intros p. rewrite elem_of_values. split.
    + intros [o Ho%live_entriesFor]. tauto.
    + intros Hp. exists (srp_Offset p). apply live_entriesFor. split_and!; [|done|done].
      pose proof (ref_tp s m Hr tp) as Ht. rewrite Forall_forall in Ht. by apply Ht.
Qed.

Lemma nextAfter_bounds es b :
  Forall (fun e => 0 <= entryOffset e < b) es -> b <= max_u64 ->
  Forall (fun e => entryOffset e + 1 <= nextAfter es) es /\ 0 <= nextAfter es /\ (nextAfter es <= b \/ es = []).
Proof.
  intros Hes Hb. unfold nextAfter. induction es as [|e es IH] using rev_ind; [split_and!; [constructor|done|by right]|].
  apply Forall_app in Hes as [Hes He]. rewrite Forall_singleton in He. destruct (IH Hes) as (IH1 & IH2 & IH3).
  rewrite foldl_snoc. set (n := foldl _ 0 es) in *. rewrite u64_small by (unfold is_u64, max_u64 in *; lia).
  split_and!; [|lia|left; destruct IH3 as [?| ->]; [lia|cbn in n; lia]].
  apply Forall_app. split; [eapply Forall_impl; [exact IH1|]; cbn; lia|]. constructor; [lia|constructor].
Qed.

Lemma entries_bounds tp : Forall (fun e => 0 <= entryOffset e < nextOffsetOf m tp) (entriesFor tp).
Proof using HE paths_all.
  apply Forall_forall. intros e (path & <- & He)%elem_of_entriesFor.
  destruct (ix_entry s m E HE path e He) as (Hi & _ & Hlt). unfold indexable, segment_pointer, is_u64 in Hi.
  unfold entryOffset in *. lia.
Qed.

Lemma some_entries tp : entriesFor tp <> [] -> 0 < nextOffsetOf m tp.
Proof using HE paths_all.
  intros Hne. pose proof (entries_bounds tp) as Hb. destruct (entriesFor tp) as [|e es]; [done|]. inversion Hb; subst. lia.
Qed.

Lemma loaded_next tp : entriesFor tp <> [] -> nextAfter (entriesFor tp) = nextOffsetOf m tp.
Proof using Hr HE paths_nodup paths_all.
  intros Hne. pose proof (log_inv_next_u64 m tp (ref_inv s m Hr)) as Hu. unfold is_u64 in Hu.
  pose proof (entries_bounds tp) as Hb.
  destruct (nextAfter_bounds _ _ Hb) as (Hge & _ & [Hle|?]); [unfold max_u64; lia| |done].
  pose proof (some_entries tp Hne) as Hpos.
  destruct (ix_next s m E HE tp Hpos) as (path & e & Hpath & He & Ho).
  rewrite Forall_forall in Hge. specialize (Hge e (proj2 (elem_of_entriesFor tp e) (ex_intro _ path (conj Hpath He)))). lia.
Qed.

Lemma no_entries tp : entriesFor tp = [] -> StorxLog.recordsOf s tp = [] /\ nextOffsetOf m tp = 0.
Proof using Hr HE paths_nodup paths_all.
  intros Hnil. split.
  - destruct (StorxLog.recordsOf s tp) as [|p ps] eqn:Hrec; [done|]. exfalso.
    assert (live (entriesFor tp) !! srp_Offset p = Some p) as Hl.
    { apply live_entriesFor. rewrite Hrec. split_and!; [|done|left]. pose proof (ref_tp s m Hr tp) as Ht.
      rewrite Hrec in Ht. by inversion Ht. }
    by rewrite Hnil in Hl.
  - pose proof (log_inv_next_u64 m tp (ref_inv s m Hr)) as Hu. unfold is_u64 in Hu.
    destruct (decide (0 < nextOffsetOf m tp)) as [Hpos|]; [|lia].
    destruct (ix_next s m E HE tp Hpos) as (path & e & Hpath & He & _).
    assert (e ∈ entriesFor tp) as Hin by (apply elem_of_entriesFor; by exists path).
    rewrite Hnil in Hin. by apply elem_of_nil in Hin.
Qed.

End Entries.

(** ** Filling the maps in memory *)

Lemma applyLoadedPartitions nexts l s :
  NoDup l.*1 ->
  let s' := foldl (StorxLog.applyLoadedPartition nexts) s l in
  let byTp := list_to_map l : gmap TopicPartition (gmap Z segmentRecordPointer) in
  (forall tp, StorxLog.recordsOf s' tp =
     match byTp !! tp with Some b => sortSegmentPointers (values b) | None => StorxLog.recordsOf s tp end) /\
  (forall tp, StorxLog.timestampsOf s' tp =
     match byTp !! tp with Some b => sortSegmentPointersByTimestamp (sortSegmentPointers (values b)) | None => StorxLog.timestampsOf s tp end) /\
  (forall tp, StorxLog.nextOffsets s' !! tp =
     match byTp !! tp with
     | Some b => Some (Z.max (default 0 (nexts !! tp)) (nextOffsetFromPointers (sortSegmentPointers (values b))))
     | None => StorxLog.nextOffsets s !! tp
     end) /\
  StorxLog.topics s' = StorxLog.topics s /\ files s' = files s /\ StorxLog.keyIndexReady s' = StorxLog.keyIndexReady s.
Proof.
  revert s. induction l as [|[tp b] l IH]; intros s Hnd; [done|]. rewrite fmap_cons in Hnd. apply NoDup_cons in Hnd as [Hni Hnd].
  cbn [foldl]. destruct (IH (StorxLog.applyLoadedPartition nexts s (tp, b)) Hnd) as (H1' & H2' & H3' & H4' & H5' & H6').
  cbv zeta. cbn [list_to_map foldr]. cbn [fst snd] in *.
  assert ((list_to_map l : gmap TopicPartition (gmap Z segmentRecordPointer)) !! tp = None) as Hnone
    by (by apply not_elem_of_list_to_map_1).
  split_and!; [intros tp'; rewrite H1'|intros tp'; rewrite H2'|intros tp'; rewrite H3'|by rewrite H4'|by rewrite H5'|by rewrite H6'];
    unfold StorxLog.recordsOf, StorxLog.timestampsOf, StorxLog.applyLoadedPartition; cbn;
    rewrite !lookup_insert; destruct (decide (tp = tp')) as [<-|Hne]; rewrite ?Hnone, ?decide_True by done; try done.
  unfold StorxLog.recordsOf. cbn. by rewrite lookup_insert_eq.
Qed.

(** ** Opening *)

Lemma loadLogManifest_durable s m c :
  durable s m ->
  exists s1, StorxLog.loadLogManifest (StorxLog.emptyStore c (files s)) = Ok s1 /\ StorxLog.topics s1 = topics m /\
    same_log (StorxLog.emptyStore c (files s)) s1 /\
    forall tp, StorxLog.nextOffsets s1 !! tp = if decide (Exists (hasPartition tp) (values (topics m))) then Some 0 else None.
Proof.
  intros Hd. pose proof (du_manifest s m Hd) as Hman. unfold StorxLog.loadLogManifest. cbn [StorxLog.emptyStore files].
  destruct (manifest (files s)) as [data|].
  2: { eexists. split; [done|]. rewrite Hman. split_and!; try done. intros tp. rewrite decide_False; [done|].
       rewrite Exists_exists. intros (t & (n & Hn)%elem_of_values & _). by rewrite lookup_empty in Hn. }
  rewrite Hman. set (ts := StorxLog.sortTopics (values (topics m))).
  assert (ts ≡ₚ values (topics m)) as Hperm by apply sort_func_perm.
  assert (forall t, t ∈ ts <-> exists n, topics m !! n = Some t) as Hts by (intros t; by rewrite Hperm, elem_of_values).
  assert (forall s0, foldl (fun s topic => let topic := normalizeTopic topic in
            let s := StorxLog.set_topics (<[tc_Name topic := topic]> (StorxLog.topics s)) s in
            StorxLog.ensureTopicPartitionsLocked s topic) s0 ts =
          foldl (fun s t => StorxLog.ensureTopicPartitionsLocked
            (StorxLog.set_topics (<[tc_Name t := t]> (StorxLog.topics s)) s) t) s0 ts) as Hnorm.
  { assert (Forall (fun t => normalizeTopic t = t) ts) as Hall.
    { apply Forall_forall. intros t (n & Hn)%Hts. by destruct (du_topics s m Hd n t Hn) as (_ & ? & _). }
    clear -Hall. induction Hall as [|t ts Ht _ IH]; intros s0; [done|]. cbn [foldl]. rewrite IH. cbv zeta. by rewrite Ht. }
  eexists. split; [done|]. rewrite Hnorm.
  destruct (ensure_topics (fun s t => <[tc_Name t := t]> (StorxLog.topics s)) ts (StorxLog.emptyStore c (files s))) as [Hsame Hnext].
  { intros tp _. done. }
  split_and!; [|done|].
  - transitivity (foldl (fun T t => <[tc_Name t := t]> T) (StorxLog.topics (StorxLog.emptyStore c (files s))) ts).
    2: { apply foldl_topics; [intros n t Hn; apply (li_topic m (ref_inv s m (du_refines s m Hd)) n t Hn)|done|done]. }
    clear. generalize (StorxLog.emptyStore c (files s)). clearbody ts. induction ts as [|t ts IH]; intros s0; [done|]. cbn [foldl]. rewrite IH.
    f_equal. unfold StorxLog.ensureTopicPartitionsLocked. generalize (seqZ 0 (tc_Partitions t)). intros ps.
    rewrite foldl_ensure_topics. done.
  - intros tp. rewrite Hnext. cbn. rewrite lookup_empty.
    assert (Exists (hasPartition tp) ts <-> Exists (hasPartition tp) (values (topics m))) as Hiff.
    { rewrite !Exists_exists. split; intros (t & Hin & Hp); exists t; (split; [|done]); [by rewrite <- Hperm|by rewrite Hperm]. }
    repeat case_decide; tauto.
Qed.

Lemma rebuildMissing_none s l segs :
  (forall path data, (path, data) ∈ segs -> is_Some (indexes (files s) !! path)) ->
  StorxLog.rebuildMissingSegmentIndexes s l segs = Ok (s, l).
Proof.
  induction segs as [|[path data] segs IH]; intros Hall; [done|]. cbn [StorxLog.rebuildMissingSegmentIndexes].
  destruct (Hall path data ltac:(left)) as [ix ->]. cbn [mbind result_bind]. apply IH. intros path' data' ?. eapply Hall. by right.
Qed.

Lemma nextFromPointers_le s m tp : refines s m -> nextOffsetFromPointers (StorxLog.recordsOf s tp) <= nextOffsetOf m tp.
Proof.
  intros Hr. rewrite (nextOffsetFromPointers_records _ _ _ (ref_log s m Hr tp)).
  destruct (log_inv_recordsOf m tp (ref_inv s m Hr)) as [_ Hb].
  pose proof (log_inv_next_u64 m tp (ref_inv s m Hr)) as Hu. unfold is_u64 in Hu.
  apply (nextOffsetLoop_le 0 (recordsOf m tp) (nextOffsetOf m tp)); [lia|unfold max_u64; lia|done].
Qed.

Lemma next_partition s m tp :
  durable s m -> nextOffsets m !! tp = if decide (Exists (hasPartition tp) (values (topics m))) then Some (nextOffsetOf m tp) else None.
Proof.
  intros Hd. pose proof (ref_inv s m (du_refines s m Hd)) as Hinv. case_decide as Hex.
  - rewrite Exists_exists in Hex. destruct Hex as (t & (n & Hn)%elem_of_values & Ht & Hp%elem_of_seqZ).
    pose proof (proj1 (li_topic m Hinv n t Hn)) as Hname.
    destruct (li_alloc m Hinv n t (tp_Partition tp) Hn ltac:(lia)) as [rs Hrs].
    replace (NewTopicPartition n (tp_Partition tp)) with tp in Hrs by (destruct tp; cbn in *; congruence).
    destruct (li_log m Hinv tp rs Hrs) as (next & Hnext & _). unfold nextOffsetOf. by rewrite Hnext.
  - destruct (nextOffsets m !! tp) as [next|] eqn:En; [|done]. exfalso. apply Hex.
    destruct (du_next s m Hd tp next En) as (t & Ht & Hp). apply Exists_exists. exists t.
    split; [apply elem_of_values; by exists (tp_Topic tp)|]. split; [|apply elem_of_seqZ; lia].
    symmetry. by apply (li_topic m Hinv).
Qed.

(** The maps in memory as the files say. *)
Lemma applyLoaded_durable s m E paths s1 l :
  durable s m -> indexed s m E -> NoDup paths -> (forall path, path ∈ paths <-> is_Some (E !! path)) ->
  same_log (StorxLog.emptyStore (compression s1) (files s)) s1 -> StorxLog.topics s1 = topics m ->
  (forall tp, StorxLog.nextOffsets s1 !! tp = if decide (Exists (hasPartition tp) (values (topics m))) then Some 0 else None) ->
  l = foldl StorxLog.applyLoadedSegmentIndexEntry (∅, ∅) (paths ≫= entriesOf E) ->
  let s' := StorxLog.applyLoadedSegmentIndexes s1 l in
  (forall tp, StorxLog.recordsOf s' tp = StorxLog.recordsOf s tp) /\
  (forall tp, StorxLog.timestampsOf s' tp = sortSegmentPointersByTimestamp (StorxLog.recordsOf s tp)) /\
  StorxLog.nextOffsets s' = nextOffsets m /\ StorxLog.topics s' = topics m /\ files s' = files s /\
  StorxLog.keyIndexReady s' = ∅.
Proof.
  intros Hd HE Hnd Hpaths (Hr1 & Ht1 & Hf1 & _ & Hk1) Htop1 Hn1 ->. pose proof (du_refines s m Hd) as Hr.
  pose proof (applied_entries (paths ≫= entriesOf E)) as Happ. fold (entriesFor E paths) in Happ.
  destruct (foldl StorxLog.applyLoadedSegmentIndexEntry (∅, ∅) (paths ≫= entriesOf E)) as [loaded nexts]. destruct Happ as [Hl Hx].
  unfold StorxLog.applyLoadedSegmentIndexes.
  destruct (applyLoadedPartitions nexts (range loaded) s1) as (Hr2 & Ht2 & Hn2 & Htop2 & Hf2 & Hk2); [apply NoDup_keys|].
  set (s2 := foldl (StorxLog.applyLoadedPartition nexts) s1 (range loaded)) in *.
  assert (forall tp, (list_to_map (range loaded) : gmap TopicPartition (gmap Z segmentRecordPointer)) !! tp = loaded !! tp) as Hmap.
  { intros tp. rewrite <- (list_to_map_to_list loaded) at 2. f_equal. apply list_to_map_proper; [apply NoDup_keys|apply range_perm]. }
  setoid_rewrite Hmap in Hr2. setoid_rewrite Hmap in Ht2. setoid_rewrite Hmap in Hn2. clear Hmap.
  assert (foldl (fun s '(tp, next) => match loaded !! tp with Some _ => s
            | None => StorxLog.set_nextOffsets (<[tp := next]> (StorxLog.nextOffsets s)) s end) s2 (range nexts) = s2) as ->.
  { assert (Forall (fun e => is_Some (loaded !! e.1)) (range nexts)) as Hall.
    { apply Forall_forall. intros [tp n] Hin%elem_of_range. cbn. rewrite Hl. rewrite Hx in Hin. by destruct (filter _ _). }
    clear -Hall. induction Hall as [|[tp n] l [b Hb] _ IH]; [done|]. cbn [foldl]. cbn in Hb. by rewrite Hb. }
  (* what was loaded for one partition *)
  assert (forall tp, StorxLog.recordsOf s2 tp = StorxLog.recordsOf s tp /\
            StorxLog.timestampsOf s2 tp = sortSegmentPointersByTimestamp (StorxLog.recordsOf s tp) /\
            ((StorxLog.nextOffsets s2 !! tp = Some (nextOffsetOf m tp) /\ 0 < nextOffsetOf m tp) \/
             (StorxLog.nextOffsets s2 !! tp = StorxLog.nextOffsets s1 !! tp /\ nextOffsetOf m tp = 0 /\ StorxLog.recordsOf s tp = []))) as Htp.
  { intros tp. rewrite Hr2, Ht2, Hn2. specialize (Hl tp). specialize (Hx tp).
    change (filter (fun e => entryTp e = tp) (paths ≫= entriesOf E)) with (entriesFor E paths tp) in *.
    pose proof (loaded_records s m E Hr HE paths Hnd Hpaths tp) as Hrec.
    pose proof (loaded_next s m E Hr HE paths Hnd Hpaths tp) as Hnext.
    pose proof (no_entries s m E Hr HE paths Hnd Hpaths tp) as Hnone.
    pose proof (some_entries s m E HE paths Hpaths tp) as Hpos.
    destruct (entriesFor E paths tp) as [|e es]; rewrite Hl.
    - destruct (Hnone eq_refl) as [Hnil Hz]. rewrite Hr1, Hnil. unfold StorxLog.timestampsOf at 1. rewrite Ht1. cbn.
      rewrite lookup_empty. split_and!; [done|done|by right].
    - rewrite Hrec, Hx, Hnext by done. split_and!; [done|done|left]. change (default 0 (Some ?x)) with x.
      rewrite Z.max_l by (by apply nextFromPointers_le). split; [done|]. by apply Hpos. }
  rewrite (foldl_pointwise StorxLog.ensureTopicPartitionsLocked
    (fun s t => StorxLog.ensureTopicPartitionsLocked (StorxLog.set_topics (StorxLog.topics s) s) t)) by (by intros []).
  destruct (ensure_topics (fun s _ => StorxLog.topics s) (values (StorxLog.topics s2)) s2) as [(Hr3 & Ht3 & Hf3 & _ & Hk3) Hn3].
  { intros tp. destruct (Htp tp) as (-> & _ & [[-> _]|(_ & _ & ->)]); done. }
  set (s3 := foldl _ s2 _) in *. split_and!.
  - intros tp. rewrite Hr3. apply Htp.
  - intros tp. unfold StorxLog.timestampsOf. rewrite Ht3. apply Htp.
  - apply map_eq. intros tp. rewrite Hn3, Htop2, Htop1, (next_partition s m tp Hd).
    destruct (Htp tp) as (_ & _ & [[-> Hpos]|(-> & -> & _)]); [|rewrite Hn1; by repeat case_decide].
    case_decide as Hdec; [done|]. exfalso. pose proof (next_partition s m tp Hd) as Hnone. rewrite decide_False in Hnone by done.
    unfold nextOffsetOf, recordsOf in Hpos. rewrite Hnone, (log_inv_next_None m tp (ref_inv s m Hr) Hnone) in Hpos. by cbn in Hpos.
  - etrans; [|exact Htop1]. rewrite <- Htop2. unfold s3. apply foldl_same_topics.
  - by rewrite Hf3, Hf2, Hf1.
  - by rewrite Hk3, Hk2, Hk1.
Qed.

Lemma options_open options options' :
  StorxLogOptions_normalize options = Ok options' -> exists c, newSegmentFrameCompression (slo_Compression options') = Ok c.
Proof.
  unfold StorxLogOptions_normalize. intros (k & Hk & (r & _ & [= <-])%bind_ok)%bind_ok. cbn.
  unfold normalizeSegmentCompression in Hk. repeat case_decide; simplify_eq; by eexists.
Qed.

(** Opening the files of a durable store. *)
Lemma open_durable path s m options options' :
  durable s m -> path <> ""%string -> StorxLogOptions_normalize options = Ok options' ->
  exists s', StorxLog.OpenStorxLogStoreWithOptions path (StorxLog.Close s) options = Ok s' /\
    durable s' m /\ keys_complete s' m /\ files s' = files s.
Proof.
  intros Hd Hpath Hnorm. destruct (du_indexed s m Hd) as [E HE]. pose proof (du_refines s m Hd) as Hr.
  destruct (options_open options options' Hnorm) as (c & Hcomp).
  unfold StorxLog.OpenStorxLogStoreWithOptions, StorxLog.Close. rewrite Hnorm. cbn [mbind result_bind]. rewrite Hcomp. cbn [mbind result_bind].
  rewrite decide_False by done.
  destruct (loadLogManifest_durable s m c Hd) as (s1 & -> & Htop & Hsame & Hn1). cbn [mbind result_bind].
  unfold StorxLog.loadSegmentIndexes. assert (files s1 = files s) as Hf1 by (by destruct Hsame as (_ & _ & Hf & _)). rewrite Hf1.
  set (fs := range (indexes (files s))).
  assert (forall p file, (p, file) ∈ fs <-> exists es, E !! p = Some es /\ file = indexBytes es) as Hfs.
  { intros p file. unfold fs. rewrite elem_of_range, (ix_files s m E HE), lookup_fmap. destruct (E !! p); cbn; naive_solver. }
  assert (forall p, p ∈ fs.*1 <-> is_Some (E !! p)) as Hpaths.
  { intros p. rewrite list_elem_of_fmap. split.
    - intros ([p' file] & -> & (es & Hes & _)%Hfs). by exists es.
    - intros [es Hes]. exists (p, indexBytes es). split; [done|]. apply Hfs. by exists es. }
  rewrite (loadIndexFiles_entries E fs).
  2: { intros p file (es & Hes & ->)%Hfs. unfold entriesOf. by rewrite Hes. }
  2: { intros p e He. by destruct (ix_entry s m E HE p e He). }
  cbn [mbind result_bind]. rewrite rebuildMissing_none.
  2: { intros p data Hin%elem_of_range. rewrite Hf1, (ix_files s m E HE), lookup_fmap.
       destruct (ix_segments s m E HE p ltac:(by eexists)) as [es ->]. by eexists. }
  cbn [mbind result_bind]. eexists. split; [done|].
  set (l := foldl StorxLog.applyLoadedSegmentIndexEntry (∅, ∅) (fs.*1 ≫= entriesOf E)).
  destruct (applyLoaded_durable s m E (fs.*1) s1 l Hd HE (NoDup_keys _) Hpaths Hsame Htop Hn1 eq_refl)
    as (Hrec & Hts & Hnx & Ht & Hf & Hk). set (s' := StorxLog.applyLoadedSegmentIndexes s1 l) in *.
  assert (refines s' m) as Hr'.
  { split; [done|apply (ref_inv s m Hr)|..|done].
    - intros tp. rewrite Hrec, Hf. apply (ref_log s m Hr).
    - intros tp. rewrite Hrec. apply (ref_tp s m Hr).
    - intros tp. by rewrite Hts, Hrec. }
  split_and!; [by eapply durable_keys| |done].
  intros tp. rewrite Hk. by intros ?%elem_of_empty.
Qed.

End Load.
