(* ===== verification/StorxSpec.v ===== *)
(** * The file-backed log implements the log

    The abstract specification [execLog] is the in-memory store with atomic
    batches: what a topic creation, a group of appends, a read, a key lookup,
    a retention or compaction pass answers and does to the log.  The
    refinement: a [StorxLogStore] opened on an empty directory answers any
    sequence of these operations as the specification does, through any
    number of closings and openings in between. *)

From stdpp Require Import prelude gmap strings sorting list.
From S2P Require Import Prelude Model MemoryStore Cleanup LogSpec CleanupSpec Wire WireSpec SegmentFrame SegmentFrameSpec SegmentIndex SegmentIndexSpec SegmentLog SegmentAppendSpec SegmentCleanSpec SegmentDurableSpec SegmentReopenSpec.

#[local] Open Scope Z_scope.
Import StorxLog (Files, StorxLogStore, segments, indexes, manifest, files, compression, SegmentPath).
Import StorxLog (StorxLogStore, files).

(** ** Operations and answers *)

Inductive LogOp :=
| OpCreateTopic (topic : TopicConfig)
| OpAppend (clock : nat -> Z) (tp : TopicPartition) (requests : list (list RecordAppend))
| OpReadFrom (tp : TopicPartition) (offset maxRecords : Z)
| OpPartitionOffsets (tp : TopicPartition)
| OpReadLatestByKey (tp : TopicPartition) (key : bytes)
| OpEnforceRetention (nowMS : Z)
| OpCompact (nowMS : Z)
| OpReopen (path : string) (options : StorxLogOptions).

Inductive LogAnswer :=
| AnswerUnit (res : result Code unit)
| AnswerAppends (results : list (result Code (list Rec)))
| AnswerRecords (res : result Code (list Rec))
| AnswerOffsets (res : result Code PartitionOffsetState)
| AnswerRecord (res : result Code (option Rec))
| AnswerRetention (res : result Code RetentionCleanupResult)
| AnswerCompaction (res : result Code CompactionCleanupResult)
| AnswerPanic.

(** The part of each request of a group in the records of the group. *)
Fixpoint shares (requests : list (list RecordAppend)) (rs : list Rec) : list (list Rec) :=
  match requests with
  | [] => []
  | request :: requests => take (length request) rs :: shares requests (drop (length request) rs)
  end.

Section Refinement.
Context `{Zstd} `{ManifestCodec} `{MapRange}.

Definition execLog (m : MemoryStore) (op : LogOp) : MemoryStore * LogAnswer :=
  match op with
  | OpCreateTopic topic => let '(m, res) := CreateTopic m topic in (m, AnswerUnit res)
  | OpAppend clock tp requests =>
      match AppendRecordsBatch clock m tp (concat requests) with
      | (m', Ok rs) => (m', AnswerAppends (Ok <$> shares requests rs))
      | (_, Err e) => (m, AnswerAppends (replicate (length requests) (Err e)))
      end
  | OpReadFrom tp offset maxRecords => (m, AnswerRecords (ReadFrom m tp offset maxRecords))
  | OpPartitionOffsets tp => (m, AnswerOffsets (PartitionOffsets m tp))
  | OpReadLatestByKey tp key =>
      (m, AnswerRecord (if decide (key = []) then Err CodeInvalidArgument
                        else _ ← validatePartitionLocked m tp; Ok (lastOfKey key (recordsOf m tp))))
  | OpEnforceRetention nowMS => let '(m, res) := EnforceRetention m false nowMS in (m, AnswerRetention res)
  | OpCompact nowMS => let '(m, res) := Compact m false nowMS in (m, AnswerCompaction res)
  | OpReopen _ _ => (m, AnswerUnit (Ok tt))
  end.

Definition execStorx (s : StorxLogStore) (op : LogOp) : StorxLogStore * LogAnswer :=
  match op with
  | OpCreateTopic topic => let '(s, res) := StorxLog.CreateTopic s topic in (s, AnswerUnit res)
  | OpAppend clock tp requests => let '(s, results) := StorxLog.flush clock s tp requests in (s, AnswerAppends results)
  | OpReadFrom tp offset maxRecords => (s, from_option AnswerRecords AnswerPanic (StorxLog.ReadFrom s tp offset maxRecords))
  | OpPartitionOffsets tp => (s, AnswerOffsets (StorxLog.PartitionOffsets s tp))
  | OpReadLatestByKey tp key => let '(s, res) := StorxLog.ReadLatestByKey s tp key in (s, AnswerRecord res)
  | OpEnforceRetention nowMS => let '(s, res) := StorxLog.EnforceRetention s false nowMS in (s, AnswerRetention res)
  | OpCompact nowMS => let '(s, res) := StorxLog.Compact s false nowMS in (s, AnswerCompaction res)
  | OpReopen path options =>
      match StorxLog.OpenStorxLogStoreWithOptions path (StorxLog.Close s) options with
      | Ok s => (s, AnswerUnit (Ok tt))
      | Err e => (s, AnswerUnit (Err e))
      end
  end.

Fixpoint run {S} (exec : S -> LogOp -> S * LogAnswer) (s : S) (ops : list LogOp) : list LogAnswer :=
  match ops with
  | [] => []
  | op :: ops => let '(s, answer) := exec s op in answer :: run exec s ops
  end.

(** ** Which operations the format can carry

    Topics the manifest and the index can name, records, times and offsets
    within their widths, files below 2^63 bytes, frames that can be encoded,
    reads whose end is an [int].
    [keys] is whether no retention pass ran since the store was opened: such
    a pass may leave the key index without the older records of a key. *)
Definition fits (keys : bool) (s : StorxLogStore) (m : MemoryStore) (op : LogOp) : Prop :=
  match op with
  | OpCreateTopic topic => storable (normalizeTopic topic)
  | OpAppend clock tp requests =>
      (forall k, is_u64 (clock k)) /\ Forall segment_append (concat requests) /\ concat requests <> [] /\
      0 <= tp_Partition tp /\ nextOffsetOf m tp + len (concat requests) <= max_u64 /\
      files_fit (files (execStorx s op).1) /\
      (forall m' rs e, AppendRecordsBatch clock m tp (concat requests) = (m', Ok rs) -> ~ write_fails (compression s) tp rs e)
  | OpReadFrom tp _ maxRecords => read_within m tp maxRecords
  | OpPartitionOffsets _ => True
  | OpReadLatestByKey _ _ => keys = true
  | OpEnforceRetention _ => log_sizes m
  | OpCompact _ => keys = true /\ log_sizes m
  | OpReopen path options => path <> ""%string /\ exists options', StorxLogOptions_normalize options = Ok options'
  end.

Definition keysAfter (keys : bool) (op : LogOp) : bool :=
  match op with OpEnforceRetention _ => false | OpReopen _ _ => true | _ => keys end.

Fixpoint all_fit (keys : bool) (s : StorxLogStore) (m : MemoryStore) (ops : list LogOp) : Prop :=
  match ops with
  | [] => True
  | op :: ops => fits keys s m op /\ all_fit (keysAfter keys op) (execStorx s op).1 (execLog m op).1 ops
  end.

(** ** One operation *)

Definition simulates (keys : bool) (s : StorxLogStore) (m : MemoryStore) : Prop :=
  durable s m /\ (keys = true -> keys_complete s m).

Lemma durable_names_fit s m : durable s m -> names_fit m.
Proof.
  intros Hd n t Ht. destruct (du_topics s m Hd n t Ht) as (_ & _ & Hl & _).
  rewrite (proj1 (li_topic m (ref_inv s m (du_refines s m Hd)) n t Ht)) in Hl. lia.
Qed.

Lemma complete_shares requests rs :
  StorxLog.completeAppendPipelineRequests requests (Ok rs) = Ok <$> shares requests rs.
Proof.
  revert rs. induction requests as [|request requests IH]; intros rs; [done|].
  cbn [StorxLog.completeAppendPipelineRequests shares fmap list_fmap]. by rewrite IH.
Qed.

Lemma append_simulates keys s m clock tp requests :
  simulates keys s m -> fits keys s m (OpAppend clock tp requests) ->
  let op := OpAppend clock tp requests in
  (execStorx s op).2 = (execLog m op).2 /\ simulates keys (execStorx s op).1 (execLog m op).1.
Proof.
  intros [Hd Hk] (Hclock & Hw & Hne & Hp & Hroom & Hfit & Hnofail). pose proof (du_refines s m Hd) as Hr.
  cbn [execStorx execLog] in *. unfold StorxLog.flush in *.
  destruct (StorxLog.appendRecordsBatchDirect clock s tp (concat requests)) as [s' res] eqn:Hd'.
  pose proof (appendRecordsBatchDirect_steps _ _ _ _ _ _ _ Hr Hclock Hw Hne Hroom Hd') as Hst.
  destruct res as [rs|e].
  - destruct Hst as (Hm & Hl & Hst). rewrite Hm.
    destruct (Z.eqb_spec (len rs) (len (concat requests))) as [_|Hbad]; [|unfold len in Hbad; lia]. cbn in Hfit |- *.
    rewrite complete_shares. split; [done|]. split; [by eapply durable_append|].
    intros Hkeys. eapply append_steps_keys; [by apply Hk|done].
  - destruct Hst as [[-> [m' Hm]]|[_ (rs & Hm & Hf)]].
    + rewrite Hm. cbn. rewrite complete_err. done.
    + exfalso. by eapply Hnofail.
Qed.

Lemma exec_simulates keys s m op :
  simulates keys s m -> fits keys s m op ->
  (execStorx s op).2 = (execLog m op).2 /\ simulates (keysAfter keys op) (execStorx s op).1 (execLog m op).1.
Proof.
  intros Hsim Hfit. pose proof Hsim as [Hd Hk]. pose proof (du_refines s m Hd) as Hr.
  pose proof (durable_names_fit s m Hd) as Hn.
  destruct op as [topic|clock tp requests|tp offset n|tp|tp key|nowMS|nowMS|path options]; cbn [keysAfter].
  - cbn [execStorx execLog]. pose proof (CreateTopic_refines s m topic Hr) as Hc.
    destruct (StorxLog.CreateTopic s topic) as [s' res], (CreateTopic m topic) as [m' res'].
    destruct Hc as (-> & Hr' & Hc).
    { split; [by destruct Hfit|]. intros n t. rewrite (ref_topics s m Hr). intros Ht. by destruct (du_topics s m Hd n t Ht). }
    split; [done|]. destruct res' as [u|e]; [|by destruct Hc as [-> ->]].
    split; [by eapply durable_created|]. intros Hkeys. eapply created_keys; [by apply Hk|done].
  - by apply append_simulates.
  - cbn [execStorx execLog fits] in *. by rewrite (ReadFrom_refines s m tp offset n Hr Hfit).
  - cbn. by rewrite (PartitionOffsets_refines s m tp Hr).
  - cbn [execStorx execLog fits] in *. pose proof (ReadLatestByKey_refines s m tp key Hr (Hk Hfit)) as Hl.
    destruct (StorxLog.ReadLatestByKey s tp key) as [s' res]. destruct Hl as (Hr' & Hk' & Hf & Hrec & ->).
    split; [done|]. split; [by eapply durable_keys|done].
  - cbn [execStorx execLog fits] in *. pose proof (EnforceRetention_refines durable durable_kept_by_removal s m nowMS Hr Hd Hfit Hn) as He.
    destruct (StorxLog.EnforceRetention s false nowMS) as [s' res], (EnforceRetention m false nowMS) as [m' res'].
    destruct He as (-> & _ & Hd'). split; [done|]. by split.
  - cbn [execStorx execLog fits] in *. destruct Hfit as [Hkeys Hsz].
    pose proof (Compact_refines durable durable_kept_by_removal durable_kept_by_keys s m nowMS Hr (Hk Hkeys) Hd Hsz Hn) as He.
    destruct (StorxLog.Compact s false nowMS) as [s' res], (Compact m false nowMS) as [m' res'].
    destruct He as (-> & _ & Hk' & Hd'). split; [done|]. by split.
  - cbn [execStorx execLog fits] in *. destruct Hfit as (Hpath & options' & Ho).
    destruct (open_durable path s m options options' Hd Hpath Ho) as (s' & -> & Hd' & Hk' & _). by split.
Qed.

Lemma run_simulates keys s m ops :
  simulates keys s m -> all_fit keys s m ops -> run execStorx s ops = run execLog m ops.
Proof.
  revert keys s m. induction ops as [|op ops IH]; intros keys s m Hsim Hfit; [done|]. cbn [run all_fit] in *.
  destruct Hfit as [Hop Hfit]. destruct (exec_simulates keys s m op Hsim Hop) as [Ha Hsim'].
  destruct (execStorx s op) as [s' a], (execLog m op) as [m' a']. cbn in *. rewrite Ha. f_equal. by eapply IH.
Qed.

Definition noFiles : Files := StorxLog.mkFiles ∅ ∅ None.

Lemma empty_durable c : durable (StorxLog.emptyStore c noFiles) NewMemoryStore.
Proof.
  assert (forall path, entriesOf ∅ path = []) as Hno by (intros path; unfold entriesOf; by rewrite lookup_empty).
  split; [|exists ∅; split|..].
  - by split; try apply log_inv_empty.
  - by rewrite fmap_empty.
  - intros path e. rewrite Hno. by intros ?%elem_of_nil.
  - intros path1 path2 e1 e2. rewrite Hno. by intros ?%elem_of_nil.
  - intros p. rewrite Hno. unfold StorxLog.recordsOf. cbn. rewrite !lookup_empty. cbn. rewrite elem_of_nil. naive_solver.
  - intros tp. unfold nextOffsetOf. cbn. rewrite lookup_empty. cbn. unfold recordsOf. cbn. by rewrite lookup_empty.
  - intros path. cbn. rewrite lookup_empty. by intros [? ?].
  - intros n t. cbn. by rewrite lookup_empty.
  - done.
  - intros tp next. cbn. by rewrite lookup_empty.
Qed.

(** An empty directory holds the empty log. *)
Lemma open_empty path options s :
  StorxLog.OpenStorxLogStoreWithOptions path noFiles options = Ok s -> simulates true s NewMemoryStore.
Proof.
  intros Ho. set (s0 := StorxLog.emptyStore uncompressed noFiles).
  assert (path <> ""%string /\ exists options', StorxLogOptions_normalize options = Ok options') as [Hp (options' & Hn)].
  { unfold StorxLog.OpenStorxLogStoreWithOptions in Ho. apply bind_ok in Ho as (options' & Hn & Ho).
    split; [|by exists options']. apply bind_ok in Ho as (c & _ & Ho). by case_decide. }
  destruct (open_durable path s0 NewMemoryStore options options' (empty_durable uncompressed) Hp Hn) as (s' & Ho' & Hd & Hk & _).
  change (StorxLog.Close s0) with noFiles in Ho'. assert (s' = s) as -> by congruence. by split.
Qed.

(** A batch whose estimate is below 4 GiB is written when nothing is compressed. *)
Lemma estimate_sublist chunk rs :
  Forall segment_record rs -> chunk `sublist_of` rs -> estimatedBatchSize chunk <= estimatedBatchSize rs.
Proof.
  intros Hw Hsub. revert Hw. induction Hsub as [|r l k _ IH|r l k _ IH]; intros Hw; [done|..]; inversion Hw as [|? ? Hr Hk]; subst;
    cbn [estimatedBatchSize foldr]; fold (estimatedBatchSize k); [fold (estimatedBatchSize l)|];
    specialize (IH Hk); pose proof (estimated_positive r Hr); lia.
Qed.

Lemma small_batch_written tp rs e :
  Forall segment_record rs -> estimatedBatchSize rs < 2 ^ 32 -> ~ topic_too_long tp -> ~ write_fails uncompressed tp rs e.
Proof.
  intros Hw Hs Htp [(chunk & Hsub & _ & He)|[? _]]; [|done].
  destruct (uncompressed_frame_ok chunk) as [frame Hf]; [by eapply Forall_sublist| |congruence].
  pose proof (estimate_sublist chunk rs Hw Hsub). lia.
Qed.

(** C3: the file-backed store implements the log.  Whatever topics are
    created, groups of appends flushed, records and offsets read and retention
    passes run, and however often the store is closed and opened in between,
    its answers are those of the in-memory log with atomic batches, errors
    included.  So are those of lookups by key and compaction passes, as long
    as no retention pass ran since the store was last opened (after one the
    two stores may disagree, [retention_forgets_key]).  The operations are
    those the format can carry ([fits]): topics the manifest and the index can
    name, non-empty groups of records whose frames can be encoded, times,
    offsets and file sizes within their widths, and reads whose end does not
    overflow [int] (such a read panics, [huge_read_panics]). *)
Theorem storx_implements_log path options s ops :
  StorxLog.OpenStorxLogStoreWithOptions path noFiles options = Ok s ->
  all_fit true s NewMemoryStore ops ->
  run execStorx s ops = run execLog NewMemoryStore ops.
Proof. intros Ho Hfit. eapply run_simulates; [by eapply open_empty|done]. Qed.

End Refinement.

(** ** A run *)

(** A compacted topic with segments of one frame. *)
Definition ex_config : TopicConfig := {|
  tc_Name := "orders"; tc_Partitions := 1; tc_SegmentMaxBytes := 1; tc_IndexIntervalBytes := 1;
  tc_RetentionMaxBytes := 30; tc_CleanupPolicy := TopicCleanupCompactAndDelete;
  tc_MaxMessageBytes := 100; tc_MaxBatchBytes := 100; tc_RetentionMS := Some 50;
  tc_RetryPolicy := DefaultTopicRetryPolicy; tc_DeadLetterTopic := None; tc_DelayEnabled := false;
  tc_MessageTTLMS := None; tc_MessageExpiryAction := MessageExpiryDelete; tc_CompactionEnabled := true;
  tc_CompactionTombstoneRetentionMS := None; tc_OrderingPolicy := TopicOrderingNone;
  tc_PriorityPolicy := mkTopicPriorityPolicy false 0 0 0 |}.

Definition ex_orders : TopicConfig := normalizeTopic ex_config.

(** A manifest that counts copies of one topic. *)
Definition ex_manifest : ManifestCodec.
Proof.
  refine {| MarshalIndent := fun l => Some (replicate (length l) Byte.x01);
            Unmarshal := fun b => Some (replicate (length b) ex_orders);
            representable := fun t => t = ex_orders |}.
  intros l Hl. eexists. split; [done|]. rewrite length_replicate. f_equal.
  induction Hl as [|t l -> _ IH]; [done|]. cbn [length replicate]. by rewrite IH.
Defined.

Section Example.
#[local] Existing Instance ex_zstd.
#[local] Existing Instance ex_manifest.
#[local] Existing Instance map_to_list_range.

Definition ex_plain : StorxLogOptions := mkStorxLogOptions "none" "".

Definition ex_opened : StorxLogStore :=
  match StorxLog.OpenStorxLogStoreWithOptions "data" noFiles ex_plain with
  | Ok s => s
  | Err _ => StorxLog.emptyStore uncompressed noFiles
  end.

Definition ex_part : TopicPartition := NewTopicPartition "orders" 0.

Definition ex_append (key : Byte.byte) (payload : bytes) : RecordAppend :=
  mkRecordAppend None [key] [] 0 None None payload.

Definition ex_requests : list (list RecordAppend) :=
  [[ex_append Byte.x61 [Byte.x01]]; [ex_append Byte.x62 []; ex_append Byte.x61 [Byte.x02]]].

Definition ex_ops : list LogOp := [
  OpCreateTopic ex_config;
  OpAppend (fun _ => 5) ex_part ex_requests;
  OpReadLatestByKey ex_part [Byte.x61];
  OpReopen "data" ex_plain;
  OpReadFrom ex_part 1 10;
  OpCompact 6;
  OpEnforceRetention 7;
  OpReopen "data" ex_plain;
  OpReadFrom ex_part 0 10;
  OpPartitionOffsets ex_part ].

Lemma files_fit_dec f : map_Forall (fun _ file => len file < 2 ^ 63) (segments f) -> files_fit f.
Proof. intros Hf path file Hp. by apply (Hf path). Qed.

Lemma log_sizes_dec m : map_Forall (fun _ rs => len rs <= maxSegmentInt) (records m) -> log_sizes m.
Proof.
  intros Hm tp. unfold recordsOf. destruct (records m !! tp) as [rs|] eqn:E; [by apply (Hm tp)|]. done.
Qed.

Lemma ex_append_fits key payload : len payload <= maxSegmentInt -> segment_append (ex_append key payload).
Proof. intros Hp. unfold segment_append. cbn. split_and!; try done; constructor. Qed.

Lemma ex_topic_storable : storable (normalizeTopic ex_config).
Proof. split_and!; try (by vm_compute). Qed.

Lemma ex_create_fits : fits true ex_opened NewMemoryStore (OpCreateTopic ex_config).
Proof. exact ex_topic_storable. Qed.

Lemma ex_append_op_fits s m :
  compression s = uncompressed -> nextOffsetOf m ex_part + 3 <= max_u64 ->
  files_fit (files (execStorx s (OpAppend (fun _ => 5) ex_part ex_requests)).1) ->
  (exists rs m', AppendRecordsBatch (fun _ => 5) m ex_part (concat ex_requests) = (m', Ok rs) /\
     Forall segment_record rs /\ estimatedBatchSize rs < 2 ^ 32) ->
  fits true s m (OpAppend (fun _ => 5) ex_part ex_requests).
Proof.
  intros Hc Hroom Hfit (rs0 & m0 & Hm & Hw & Hs). cbn [fits]. split_and!.
  - done.
  - repeat (constructor; [by apply ex_append_fits|]). constructor.
  - done.
  - done.
  - exact Hroom.
  - exact Hfit.
  - intros m' rs e Ha. rewrite Ha in Hm. injection Hm as -> ->. rewrite Hc. apply small_batch_written; [done|done|].
    by vm_compute.
Qed.

Lemma storx_implements_log_witness :
  run execStorx ex_opened ex_ops = run execLog NewMemoryStore ex_ops /\
  run execStorx ex_opened ex_ops !! 5%nat = Some (AnswerCompaction (Ok (mkCompactionCleanupResult 1 1))).
Proof.
  split; [|by vm_compute].
  apply (storx_implements_log "data" ex_plain); [by vm_compute|].
  unfold ex_ops. cbn [all_fit keysAfter].
  split; [exact ex_create_fits|].
  split.
  { apply ex_append_op_fits; [by vm_compute|by vm_compute|apply files_fit_dec, (bool_decide_unpack _); by vm_compute|].
    eexists _, _. split; [vm_compute; reflexivity|]. split; [|by vm_compute].
    repeat (constructor; [split_and!; try done; constructor|]). constructor. }
  split; [exact eq_refl|].
  split; [split; [discriminate|by eexists]|].
  split; [by vm_compute|].
  split; [split; [exact eq_refl|apply log_sizes_dec, (bool_decide_unpack _); by vm_compute]|].
  split; [apply log_sizes_dec, (bool_decide_unpack _); by vm_compute|].
  split; [split; [discriminate|by eexists]|].
  split; [by vm_compute|]. split; exact I.
Defined.

End Example.

(** * The file-backed log: where it differs from what one may expect

    Evaluations of the model on small inputs. *)

Section Examples.
#[local] Existing Instance ex_zstd.
#[local] Existing Instance ex_manifest.
#[local] Existing Instance map_to_list_range.

Definition ex_created : StorxLogStore := (StorxLog.CreateTopic ex_opened ex_config).1.

Definition reopened (s : StorxLogStore) : StorxLogStore :=
  match StorxLog.OpenStorxLogStoreWithOptions "data" (StorxLog.Close s) ex_plain with Ok s => s | Err _ => s end.

(** An index cut right behind a length reads as complete; what is appended
    to it afterwards makes the whole file unreadable. *)
Definition ex_entry : segmentIndexEntry := mkIndexEntry (mkPointer "orders" 0 0 0 0 30 5 0) false.

Lemma cut_index_reads_as_complete :
  readSegmentIndexEntries (indexBytes [ex_entry] ++ put_be 4 62) = Ok [ex_entry] /\
  is_ok (readSegmentIndexEntries (indexBytes [ex_entry] ++ put_be 4 62 ++ indexBytes [ex_entry])) = false.
Proof. by vm_compute. Qed.

(** A partition is replaced by a snapshot whose next offset lies behind its
    last record, as after retention: the next offset is lost when the store
    is opened again, and the offsets in between are given out twice. *)
Definition ex_snapshot : StorxLog.PartitionSnapshot :=
  StorxLog.mkPartitionSnapshot ex_config ex_part [mkRec 2 5 [] [] 0 None None [Byte.x01]] 7.

Lemma replaced_next_offset_lost :
  let s := (StorxLog.ReplacePartition ex_created ex_snapshot).1 in
  StorxLog.nextOffset s ex_part = 7 /\ StorxLog.nextOffset (reopened s) ex_part = 3.
Proof. by vm_compute. Qed.

(** Retention removes the newest record of a key while an older one stays:
    a lookup by the key finds nothing, although a fresh index would find the
    older record, and compaction and lookups disagree until the next start. *)
Definition ex_expiring : list RecordAppend :=
  [mkRecordAppend None [Byte.x61] [] 0 None None [Byte.x01];
   mkRecordAppend None [Byte.x61] [] 0 None (Some 9) [Byte.x02]].

Definition ex_forgotten : StorxLogStore :=
  let s := (StorxLog.AppendRecordsBatch (fun _ => 5) ex_created ex_part ex_expiring).1 in
  let s := (StorxLog.ReadLatestByKey s ex_part [Byte.x61]).1 in
  (StorxLog.EnforceRetention s false 20).1.

Lemma retention_forgets_key :
  (StorxLog.ReadLatestByKey ex_forgotten ex_part [Byte.x61]).2 = Ok None /\
  result_fmap (E := Code) _ _ (fmap (M := option) r_Offset) (StorxLog.ReadLatestByKey (reopened ex_forgotten) ex_part [Byte.x61]).2 = Ok (Some 0).
Proof. by vm_compute. Qed.

(** A read of as many records as an [int] can count panics unless it begins
    at the first record, where the in-memory store answers. *)
Definition ex_two_records : StorxLogStore := (StorxLog.AppendRecordsBatch (fun _ => 5) ex_created ex_part ex_expiring).1.

Lemma huge_read_panics :
  StorxLog.ReadFrom ex_two_records ex_part 1 maxSegmentInt = None /\
  StorxLog.ReadPage ex_two_records ex_part "1" maxSegmentInt = None /\
  (length <$> match StorxLog.ReadFrom ex_two_records ex_part 0 maxSegmentInt with Some (Ok rs) => Some rs | _ => None end) = Some 2%nat.
Proof. by vm_compute. Qed.

(** A lookup by time goes by the timestamp index: it answers with the record
    of the least timestamp, not with the first record of the log at or after
    the time, as the scan over a store without such an index does. *)
Definition ex_late : StorxLogStore :=
  (StorxLog.AppendRecordsBatch (fun k => if decide (k = 0%nat) then 9 else 5) ex_created ex_part
     [mkRecordAppend None [] [] 0 None None [Byte.x01]; mkRecordAppend None [] [] 0 None None [Byte.x02]]).1.

Lemma time_lookup_skips_earlier_record :
  StorxLog.OffsetForTimestamp ex_late ex_part 4 = Ok (1, Some 5) /\
  result_fmap (E := Code) _ _ (fmap (M := list) r_TimestampMS) (default (Err CodeUnavailable) (StorxLog.ReadFrom ex_late ex_part 0 10)) = Ok [9; 5].
Proof. by vm_compute. Qed.

(** One request that is too large fails every request that was coalesced
    with it, although each of the others would succeed on its own. *)
Definition ex_small : list RecordAppend := [ex_append Byte.x61 [Byte.x01]].
Definition ex_large : list RecordAppend := [ex_append Byte.x61 (replicate 101 Byte.x01)].

Lemma coalesced_requests_fail_together :
  (StorxLog.flush (fun _ => 5) ex_created ex_part [ex_small; ex_large]).2 = [Err CodeInvalidArgument; Err CodeInvalidArgument] /\
  is_ok (StorxLog.AppendRecordsBatch (fun _ => 5) ex_created ex_part ex_small).2 = true.
Proof. by vm_compute. Qed.

End Examples.
