(* ===== verification/Snapshot.v ===== *)
(** * Snapshots of the store and of the broker

    [src/store/snapshot.go], [snapshot_offsets.go], [snapshot_helpers.go],
    [snapshot_acl.go], [snapshot_producer_batches.go], the restore function of
    [memory_dlq_index.go], the JSON form of a snapshot in
    [snapshot_json.go], and what the broker does with them: [snapshot] and
    [restore] of [src/broker/snapshot.go] and the snapshot methods of
    [raftStateMachine] in [raft_state_machine.go].

    A collection of the [collectionx] library is a list or a finite map; the
    map's iteration order is [MapRange].  [Json] is what the code relies on
    of the JSON of one collection; the JSON of the record [snapshotJSON] is an
    instance of it too. *)

From stdpp Require Import prelude gmap strings sorting pretty.
From S2P Require Import Prelude Wire GoStrings Model MemoryStore MetaStore Idempotency Governance SegmentLog.

#[local] Open Scope Z_scope.

Record Snapshot := mkSnapshot {
  sn_Topics : list TopicConfig;
  sn_Records : gmap string (list Rec);
  sn_LogOffsets : gmap string Z;
  sn_Offsets : gmap string Z;
  sn_OffsetStates : list ConsumerOffsetState;
  sn_ConsumerPauses : list ConsumerPauseState;
  sn_Placements : list ShardPlacement;
  sn_Members : list ConsumerGroupMember;
  sn_Assignments : list ConsumerGroupAssignment;
  sn_Transactions : list TransactionState;
  sn_ProducerBatches : list ProducerPublishedBatch;
  sn_ACLPolicies : list ACLPolicy;
  sn_DLQIndexes : list DLQIndexEntry;
  sn_NextTransactionID : Z;
  sn_BrokerState : option BrokerState
}.

Module Mem.

Abbreviation partitionKey := StorxLog.partitionKey.
Abbreviation parsePartitionKey := StorxLog.parsePartitionKey.

(** ** [MemoryStore.Snapshot] *)

Section WithRange.
Context `{MapRange}.

Definition TakeSnapshot (s : MemoryStore) : Snapshot := {|
  sn_Topics := values (topics s);
  sn_Records := foldl (fun out '(tp, rs) => <[partitionKey tp := rs]> out) ∅ (range (records s));
  sn_LogOffsets := foldl (fun out '(tp, value) => <[partitionKey tp := value]> out) ∅ (range (nextOffsets s));
  sn_Offsets := foldl (fun out '(key, value) => <[key := value]> out) ∅ (range (offsets s));
  sn_OffsetStates := sortConsumerOffsetStates (values (offsetStates s));
  sn_ConsumerPauses := sortConsumerPauses (values (consumerPauses s));
  sn_Placements := sortShardPlacements (values (placements s));
  sn_Members := (fun m => set_Topics (sortedStrings (cgm_Topics m)) m) <$> values (members s);
  sn_Assignments := values (assignments s);
  sn_Transactions := values (transactions s);
  sn_ProducerBatches := sortProducerPublishedBatches (values (producerBatches s));
  sn_ACLPolicies := sortACLPolicies (values (aclPolicies s));
  sn_DLQIndexes := sortDLQIndexes (values (dlqIndexes s));
  sn_NextTransactionID := nextTxID s;
  sn_BrokerState := brokerState s
|}.

(** ** [MemoryStore.Restore] *)

Definition isOk {A} (r : result Code A) : bool := match r with Ok _ => true | Err _ => false end.

(** The maps that [restoreMemoryTopics] fills. *)
Definition restoreMemoryTopics (l : list TopicConfig) (out : gmap string TopicConfig) (names : gset string)
    (rs : gmap TopicPartition (list Rec)) : gmap string TopicConfig * gset string * gmap TopicPartition (list Rec) :=
  foldl (fun '(out, names, rs) topic =>
           let topic := normalizeTopic topic in
           (<[tc_Name topic := topic]> out, {[tc_Name topic]} ∪ names,
            foldl (fun rs partition => <[NewTopicPartition (tc_Name topic) partition := []]> rs) rs
              (seqZ 0 (tc_Partitions topic))))
    (out, names, rs) l.

(** The range over the snapshot's records stops at the first bad key. *)
Fixpoint restoreMemoryRecordsLoop (l : list (string * list Rec)) (rs : gmap TopicPartition (list Rec))
    : result Code (gmap TopicPartition (list Rec)) :=
  match l with
  | [] => Ok rs
  | (key, topicRecords) :: l =>
      tp ← parsePartitionKey key;
      restoreMemoryRecordsLoop l (<[tp := topicRecords]> rs)
  end.

Definition restoreMemoryRecords (snapshotRecords : gmap string (list Rec)) (rs : gmap TopicPartition (list Rec))
    : result Code (gmap TopicPartition (list Rec)) :=
  restoreMemoryRecordsLoop (range snapshotRecords) rs.

Definition restoreMemoryLogOffsets (snapshotOffsets : gmap string Z) (rs : gmap TopicPartition (list Rec))
    : gmap TopicPartition Z :=
  let nextOffsets := foldl (fun out '(tp, topicRecords) => <[tp := nextOffsetFromRecords topicRecords]> out) ∅ (range rs) in
  foldl (fun out '(key, value) => match parsePartitionKey key with Ok tp => <[tp := value]> out | Err _ => out end)
    nextOffsets (range snapshotOffsets).

Definition restoreMemoryOffsets (snapshotOffsets : gmap string Z) : gmap string Z :=
  foldl (fun out '(key, value) => <[key := value]> out) ∅ (range snapshotOffsets).

Definition consumerOffsetStateFromKey (key : string) (offset : Z) : option ConsumerOffsetState :=
  match SplitChar key (Ascii.ascii_of_nat 0) with
  | [consumer; topic; partition] =>
      match ParseUint64 partition with
      | Some partition =>
          if partition <? 2 ^ 32
          then Some {| cos_Consumer := consumer; cos_Topic := topic; cos_Partition := partition;
                       cos_NextOffset := offset; cos_PendingOffsets := []; cos_Metadata := "";
                       cos_UpdatedAtMS := 0 |}
          else None
      | None => None
      end
  | _ => None
  end.

Definition restoreMemoryOffsetStates (snapshotStates : list ConsumerOffsetState) (snapshotOffsets : gmap string Z)
    : gmap string ConsumerOffsetState :=
  let states := foldl (fun out '(key, offset) =>
                         match consumerOffsetStateFromKey key offset with
                         | Some state => <[key := state]> out
                         | None => out
                         end) ∅ (range snapshotOffsets) in
  foldl (fun out state =>
           if isOk (validateConsumerOffsetState state)
           then <[offsetKey (cos_Consumer state) (ConsumerOffsetState_TopicPartition state) := state]> out
           else out) states snapshotStates.

Definition restoreMemoryConsumerPauses (snapshotPauses : list ConsumerPauseState) : gmap string ConsumerPauseState :=
  foldl (fun out state =>
           if isOk (validateConsumerPauseState state) && cps_Paused state
           then <[consumerPauseKey (cps_Consumer state) (ConsumerPauseState_TopicPartition state) := state]> out
           else out) ∅ snapshotPauses.

Definition restoreMemoryShardPlacements (snapshotPlacements : list ShardPlacement) : gmap TopicPartition ShardPlacement :=
  foldl (fun out placement =>
           if isOk (validateShardPlacement placement)
           then <[ShardPlacement_TopicPartition placement := placement]> out else out) ∅ snapshotPlacements.

Definition restoreMemoryMembers (snapshotMembers : list ConsumerGroupMember) : gmap string ConsumerGroupMember :=
  foldl (fun out member =>
           let member := set_Topics (sortedStrings (cgm_Topics member)) member in
           <[groupMemberKey (cgm_Group member) (cgm_MemberID member) := member]> out) ∅ snapshotMembers.

Definition restoreMemoryAssignments (snapshotAssignments : list ConsumerGroupAssignment)
    : gmap string ConsumerGroupAssignment :=
  foldl (fun out assignment => <[cga_Group assignment := assignment]> out) ∅ snapshotAssignments.

Definition restoreMemoryTransactions (snapshotTransactions : list TransactionState) : gmap Z TransactionState :=
  foldl (fun out state => if negb (ts_TxID state =? 0) then <[ts_TxID state := state]> out else out)
    ∅ snapshotTransactions.

Definition restoreMemoryProducerBatches (snapshotBatches : list ProducerPublishedBatch)
    : gmap string ProducerPublishedBatch :=
  foldl (fun out batch =>
           if isOk (validateProducerBatch batch) then <[producerBatchKey batch := batch]> out else out)
    ∅ snapshotBatches.

Definition restoreMemoryACLPolicies (snapshotPolicies : list ACLPolicy) : gmap string ACLPolicy :=
  foldl (fun out policy => if isOk (validateACLPolicy policy) then <[acl_PolicyID policy := policy]> out else out)
    ∅ snapshotPolicies.

Definition restoreMemoryDLQIndexes (snapshotIndexes : list DLQIndexEntry) : gmap string DLQIndexEntry :=
  foldl (fun out entry =>
           if isOk (validateDLQIndexEntry entry)
           then <[dlqIndexKey (dlq_DLQTopic entry) (dlq_DLQPartition entry) (dlq_DLQOffset entry) := entry]> out
           else out) ∅ snapshotIndexes.

Definition restoreMemoryNextTransactionID (snapshot : Snapshot) : Z :=
  let next := if sn_NextTransactionID snapshot =? 0 then 1 else sn_NextTransactionID snapshot in
  foldl (fun next state => if next <=? ts_TxID state then u64 (ts_TxID state + 1) else next)
    next (sn_Transactions snapshot).

(** [buildMemoryRestoreState]: the fields of the restored store. *)
Definition buildMemoryRestoreState (snapshot : Snapshot) : result Code MemoryStore :=
  let '(topics, topicNames, rs) := restoreMemoryTopics (sn_Topics snapshot) ∅ ∅ ∅ in
  rs ← restoreMemoryRecords (sn_Records snapshot) rs;
  Ok {| topics := topics;
        topicNames := topicNames;
        records := rs;
        nextOffsets := restoreMemoryLogOffsets (sn_LogOffsets snapshot) rs;
        offsets := restoreMemoryOffsets (sn_Offsets snapshot);
        offsetStates := restoreMemoryOffsetStates (sn_OffsetStates snapshot) (sn_Offsets snapshot);
        consumerPauses := restoreMemoryConsumerPauses (sn_ConsumerPauses snapshot);
        placements := restoreMemoryShardPlacements (sn_Placements snapshot);
        members := restoreMemoryMembers (sn_Members snapshot);
        assignments := restoreMemoryAssignments (sn_Assignments snapshot);
        transactions := restoreMemoryTransactions (sn_Transactions snapshot);
        producerBatches := restoreMemoryProducerBatches (sn_ProducerBatches snapshot);
        aclPolicies := restoreMemoryACLPolicies (sn_ACLPolicies snapshot);
        dlqIndexes := restoreMemoryDLQIndexes (sn_DLQIndexes snapshot);
        nextTxID := restoreMemoryNextTransactionID snapshot;
        brokerState := sn_BrokerState snapshot |}.

Definition Restore (s : MemoryStore) (snapshot : Snapshot) : MemoryStore * result Code unit :=
  match buildMemoryRestoreState snapshot with
  | Err e => (s, Err e)
  | Ok state => (state, Ok tt)
  end.

End WithRange.

End Mem.

(** ** The JSON of a snapshot *)

(** The JSON of a type: [representable] values are decoded as they were
    encoded, and a value encoded as [null] or as nothing is the empty one. *)
Definition json_null : bytes := String.list_byte_of_string "null".

Class Json (A : Type) `{Empty A} := {
  Marshal : A -> option bytes;
  Unmarshal : bytes -> option A;
  representable : A -> Prop;
  Unmarshal_Marshal : forall a, representable a ->
    exists data, Marshal a = Some data /\ Unmarshal data = Some a /\ (data = [] \/ data = json_null -> a = ∅)
}.

Record snapshotJSON := mkSnapshotJSON {
  sj_Topics : bytes;
  sj_Records : bytes;
  sj_LogOffsets : bytes;
  sj_Offsets : bytes;
  sj_OffsetStates : bytes;
  sj_ConsumerPauses : bytes;
  sj_Placements : bytes;
  sj_Members : bytes;
  sj_Assignments : bytes;
  sj_Transactions : bytes;
  sj_ProducerBatches : bytes;
  sj_ACLPolicies : bytes;
  sj_NextTransactionID : Z;
  sj_BrokerState : option BrokerState
}.

#[export] Instance snapshotJSON_empty : Empty snapshotJSON :=
  mkSnapshotJSON [] [] [] [] [] [] [] [] [] [] [] [] 0 None.

#[export] Instance list_Empty A : Empty (list A) := [].

Section Json.
Context {JT : Json (list TopicConfig)} {JR : Json (gmap string (list Rec))} {JO : Json (gmap string Z)}
  {JS : Json (list ConsumerOffsetState)} {JP : Json (list ConsumerPauseState)} {JL : Json (list ShardPlacement)}
  {JM : Json (list ConsumerGroupMember)} {JA : Json (list ConsumerGroupAssignment)} {JX : Json (list TransactionState)}
  {JB : Json (list ProducerPublishedBatch)} {JC : Json (list ACLPolicy)} {JW : Json snapshotJSON}.

Definition marshalSnapshotCollection {A} `{Json A} (value : A) : option bytes := Marshal value.

Definition unmarshalSnapshotCollection {A} `{Json A} (data : bytes) : option A :=
  if bool_decide (data = []) || bool_decide (data = json_null) then Some ∅ else Unmarshal data.

Definition toSnapshotJSON (s : Snapshot) : option snapshotJSON :=
  topics ← marshalSnapshotCollection (sn_Topics s);
  records ← marshalSnapshotCollection (sn_Records s);
  logOffsets ← marshalSnapshotCollection (sn_LogOffsets s);
  offsets ← marshalSnapshotCollection (sn_Offsets s);
  offsetStates ← marshalSnapshotCollection (sn_OffsetStates s);
  consumerPauses ← marshalSnapshotCollection (sn_ConsumerPauses s);
  placements ← marshalSnapshotCollection (sn_Placements s);
  members ← marshalSnapshotCollection (sn_Members s);
  assignments ← marshalSnapshotCollection (sn_Assignments s);
  transactions ← marshalSnapshotCollection (sn_Transactions s);
  producerBatches ← marshalSnapshotCollection (sn_ProducerBatches s);
  aclPolicies ← marshalSnapshotCollection (sn_ACLPolicies s);
  Some {| sj_Topics := topics; sj_Records := records; sj_LogOffsets := logOffsets; sj_Offsets := offsets;
          sj_OffsetStates := offsetStates; sj_ConsumerPauses := consumerPauses; sj_Placements := placements;
          sj_Members := members; sj_Assignments := assignments; sj_Transactions := transactions;
          sj_ProducerBatches := producerBatches; sj_ACLPolicies := aclPolicies;
          sj_NextTransactionID := sn_NextTransactionID s; sj_BrokerState := sn_BrokerState s |}.

Definition MarshalJSON (s : Snapshot) : option bytes := wire ← toSnapshotJSON s; Marshal wire.

(** [unmarshalSnapshotCollections] and the snapshot that [UnmarshalJSON]
    builds from its result. *)
Definition unmarshalSnapshotCollections (wire : snapshotJSON) : option Snapshot :=
  topics ← unmarshalSnapshotCollection (sj_Topics wire);
  records ← unmarshalSnapshotCollection (sj_Records wire);
  logOffsets ← unmarshalSnapshotCollection (sj_LogOffsets wire);
  offsets ← unmarshalSnapshotCollection (sj_Offsets wire);
  offsetStates ← unmarshalSnapshotCollection (sj_OffsetStates wire);
  consumerPauses ← unmarshalSnapshotCollection (sj_ConsumerPauses wire);
  placements ← unmarshalSnapshotCollection (sj_Placements wire);
  members ← unmarshalSnapshotCollection (sj_Members wire);
  assignments ← unmarshalSnapshotCollection (sj_Assignments wire);
  transactions ← unmarshalSnapshotCollection (sj_Transactions wire);
  producerBatches ← unmarshalSnapshotCollection (sj_ProducerBatches wire);
  aclPolicies ← unmarshalSnapshotCollection (sj_ACLPolicies wire);
  Some {| sn_Topics := topics; sn_Records := records; sn_LogOffsets := logOffsets; sn_Offsets := offsets;
          sn_OffsetStates := offsetStates; sn_ConsumerPauses := consumerPauses; sn_Placements := placements;
          sn_Members := members; sn_Assignments := assignments; sn_Transactions := transactions;
          sn_ProducerBatches := producerBatches; sn_ACLPolicies := aclPolicies; sn_DLQIndexes := [];
          sn_NextTransactionID := sj_NextTransactionID wire; sn_BrokerState := sj_BrokerState wire |}.

Definition UnmarshalJSON (data : bytes) : option Snapshot :=
  wire ← Unmarshal data; unmarshalSnapshotCollections wire.

(** ** The broker's snapshot *)

Definition set_LogPart (topics : list TopicConfig) (log : Snapshot) (s : Snapshot) : Snapshot := {|
  sn_Topics := topics; sn_Records := sn_Records log; sn_LogOffsets := sn_LogOffsets log;
  sn_Offsets := sn_Offsets s; sn_OffsetStates := sn_OffsetStates s; sn_ConsumerPauses := sn_ConsumerPauses s;
  sn_Placements := sn_Placements s; sn_Members := sn_Members s; sn_Assignments := sn_Assignments s;
  sn_Transactions := sn_Transactions s; sn_ProducerBatches := sn_ProducerBatches s;
  sn_ACLPolicies := sn_ACLPolicies s; sn_DLQIndexes := sn_DLQIndexes s;
  sn_NextTransactionID := sn_NextTransactionID s; sn_BrokerState := sn_BrokerState s
|}.

(** The metadata store's snapshot with the log store's records; both stores
    support snapshots. *)
Definition brokerSnapshot `{MapRange} (meta log : MemoryStore) : Snapshot :=
  let metaSnapshot := Mem.TakeSnapshot meta in
  let logSnapshot := Mem.TakeSnapshot log in
  let topics := match sn_Topics metaSnapshot with [] => sn_Topics logSnapshot | _ => sn_Topics metaSnapshot end in
  set_LogPart topics logSnapshot metaSnapshot.

(** The log store is restored first; the stores are returned in the order
    metadata, log.  A broker with one store in both roles restores it twice
    from the same snapshot. *)
Definition brokerRestore `{MapRange} (meta log : MemoryStore) (snapshot : Snapshot)
    : (MemoryStore * MemoryStore) * result Code unit :=
  match Mem.Restore log snapshot with
  | (log, Err e) => ((meta, log), Err e)
  | (log, Ok _) => let '(meta, r) := Mem.Restore meta snapshot in ((meta, log), r)
  end.

Definition doneErr (done : bool) : result BrokerError unit :=
  if done then Err (BrokerFailure "snapshot_stopped") else Ok tt.

(** [raftStateMachine.SaveSnapshot]: [done] says whether the channel is closed
    when [doneErr] looks, and the result is what is written to the snapshot
    file. *)
Definition SaveSnapshot `{MapRange} (meta log : MemoryStore) (done : bool) : result BrokerError bytes :=
  let snapshot := brokerSnapshot meta log in
  _ ← doneErr done;
  match MarshalJSON snapshot with
  | None => Err (BrokerFailure "raft_snapshot_encode_failed")
  | Some data => Ok data
  end.

(** [raftStateMachine.RecoverFromSnapshot]; the two channel reads are
    [done1] and [done2]. *)
Definition RecoverFromSnapshot `{MapRange} (meta log : MemoryStore) (data : bytes) (done1 done2 : bool)
    : (MemoryStore * MemoryStore) * result BrokerError unit :=
  match doneErr done1 with
  | Err e => ((meta, log), Err e)
  | Ok _ =>
      match UnmarshalJSON data with
      | None => ((meta, log), Err (BrokerFailure "raft_snapshot_decode_failed"))
      | Some snapshot =>
          match doneErr done2 with
          | Err e => ((meta, log), Err e)
          | Ok _ => let '(stores, r) := brokerRestore meta log snapshot in (stores, of_store r)
          end
      end
  end.

End Json.
