(* ===== verification/SnapshotSpec.v ===== *)
(** * Restoring a snapshot gives back the store

    A snapshot is a list or a map per collection; restoring validates every
    entry and recomputes its key.  [snap_inv] is what makes that exact: stored
    entries pass the validation that restoring applies, sit at the key that
    restoring computes, and topics and member subscriptions are in the normal
    form that restoring produces.  Every method of the store keeps it. *)

From stdpp Require Import prelude gmap strings sorting list pretty.
From S2P Require Import Prelude Wire GoStrings Model MemoryStore Cleanup LogSpec MetaStore MetaSpec Idempotency Governance SegmentLog Snapshot.

#[local] Open Scope Z_scope.

(** ** Maps filled by a loop *)

Section Put.
Context {A K V : Type} `{Countable K}.
Implicit Types (f : A -> option (K * V)) (m : gmap K V).

Definition put f m (a : A) : gmap K V := match f a with Some (k, v) => <[k := v]> m | None => m end.

(** A loop that inserts exactly the entries of [m] overlays [m]. *)
Lemma foldl_put f (l : list A) m m0 :
  (forall a k v, a ∈ l -> f a = Some (k, v) -> m !! k = Some v) ->
  (forall k v, m !! k = Some v -> exists a, a ∈ l /\ f a = Some (k, v)) ->
  foldl (put f) m0 l = m ∪ m0.
Proof.
  intros Hin Hall. apply map_eq. intros k.
  assert (forall l' : list A, (forall a, a ∈ l' -> a ∈ l) ->
    (exists a v, a ∈ l' /\ f a = Some (k, v)) /\ foldl (put f) m0 l' !! k = m !! k \/
    (forall a v, a ∈ l' -> f a <> Some (k, v)) /\ foldl (put f) m0 l' !! k = m0 !! k) as Hloop.
  { induction l' as [|a l' IH] using rev_ind; intros Hl'; [right; split; [set_solver|done]|].
    rewrite foldl_app. cbn [foldl]. unfold put at 1 3.
    assert (forall a0, a0 ∈ l' -> a0 ∈ l) as Hl by set_solver.
    destruct (f a) as [[k1 v1]|] eqn:Ef.
    - destruct (decide (k1 = k)) as [->|Hne].
      + left. split; [exists a, v1; set_solver|]. rewrite lookup_insert_eq. symmetry. eapply Hin; [|done]. set_solver.
      + rewrite lookup_insert_ne by done.
        destruct (IH Hl) as [[(a0 & v0 & ? & ?) E]|[Hno E]]; [left|right]; (split; [|done]).
        * exists a0, v0. set_solver.
        * intros a0 v0 Ha0. assert (a0 ∈ l' \/ a0 = a) as [?| ->] by set_solver; [by apply Hno|congruence].
    - destruct (IH Hl) as [[(a0 & v0 & ? & ?) E]|[Hno E]]; [left|right]; (split; [|done]).
      + exists a0, v0. set_solver.
      + intros a0 v0 Ha0. assert (a0 ∈ l' \/ a0 = a) as [?| ->] by set_solver; [by apply Hno|congruence]. }
  destruct (Hloop l) as [[(a & v & Ha & Hf) ->]|[Hno ->]]; [done|..].
  - rewrite lookup_union, (Hin _ _ _ Ha Hf). by destruct (m0 !! k).
  - destruct (m !! k) as [v|] eqn:Em; [destruct (Hall _ _ Em) as (a & Ha & Hf); by destruct (Hno a v)|].
    by rewrite lookup_union, Em; destruct (m0 !! k).
Qed.

(** The same for a loop whose body is written otherwise. *)
Lemma foldl_put_ext f (g : gmap K V -> A -> gmap K V) (l : list A) m m0 :
  (forall x a, g x a = put f x a) ->
  (forall a k v, a ∈ l -> f a = Some (k, v) -> m !! k = Some v) ->
  (forall k v, m !! k = Some v -> exists a, a ∈ l /\ f a = Some (k, v)) ->
  foldl g m0 l = m ∪ m0.
Proof.
  intros Hg Hin Hall. rewrite <- (foldl_put f l m m0 Hin Hall). clear Hin Hall.
  revert m0. induction l as [|a l IH]; intros m0; [done|]. simpl. by rewrite Hg, IH.
Qed.

(** The keys a loop can leave in the map. *)
Lemma foldl_put_dom f (g : gmap K V -> A -> gmap K V) (l : list A) m0 k :
  (forall x a, g x a = put f x a) ->
  is_Some (foldl g m0 l !! k) -> is_Some (m0 !! k) \/ exists a v, a ∈ l /\ f a = Some (k, v).
Proof.
  intros Hg. revert m0. induction l as [|a l IH]; intros m0; [by left|]. cbn [foldl].
  intros [Hm|(a1 & v & Ha & Hf)]%IH; [|right; exists a1, v; set_solver].
  rewrite Hg in Hm. unfold put in Hm. destruct (f a) as [[k1 v1]|] eqn:Ef; [|by left].
  destruct (decide (k1 = k)) as [->|Hne]; [right; exists a, v1; set_solver|].
  rewrite lookup_insert_ne in Hm by done. by left.
Qed.

End Put.

Lemma union_covered {K V} `{Countable K} (m m0 : gmap K V) :
  (forall k, is_Some (m0 !! k) -> is_Some (m !! k)) -> m ∪ m0 = m.
Proof.
  intros Hd. apply map_eq. intros k. rewrite lookup_union. destruct (m !! k) as [x|] eqn:Em; [by destruct (m0 !! k)|].
  destruct (m0 !! k) as [y|] eqn:E0; [|done]. destruct (Hd k) as [z Hz]; [by rewrite E0|congruence].
Qed.

(** Entries kept by a test and put back at their own keys are the entries of
    the map that pass the test. *)
Lemma restore_keyed {K V} `{Countable K} `{MapRange} (key : V -> K) (ok : V -> bool) (m : gmap K V) (l : list V) :
  keyed key m -> l ≡ₚ values m ->
  foldl (fun out v => if ok v then <[key v := v]> out else out) ∅ l = filter (fun kv => ok kv.2 = true) m.
Proof.
  intros Hk Hp. rewrite <- (map_union_empty (filter _ m)).
  apply (foldl_put_ext (fun v => if ok v then Some (key v, v) else None)).
  - intros x v. unfold put. by destruct (ok v).
  - intros v k v' Hv. destruct (ok v) eqn:Eo; [|done]. intros [= <- <-]. rewrite Hp in Hv.
    apply elem_of_values in Hv as [k Hv]. pose proof (Hk _ _ Hv) as ->. by apply map_lookup_filter_Some.
  - intros k v [Hv Ho]%map_lookup_filter_Some. simpl in Ho. exists v. rewrite Hp, Ho.
    split; [apply elem_of_values; by exists k|]. by rewrite (Hk _ _ Hv).
Qed.

Lemma restore_keyed_all {K V} `{Countable K} `{MapRange} (key : V -> K) (ok : V -> bool) (m : gmap K V) (l : list V) :
  keyed key m -> map_Forall (fun _ v => ok v = true) m -> l ≡ₚ values m ->
  foldl (fun out v => if ok v then <[key v := v]> out else out) ∅ l = m.
Proof.
  intros Hk Ho Hp. rewrite (restore_keyed key ok m l Hk Hp). apply map_eq. intros k.
  destruct (m !! k) as [v|] eqn:Em.
  - apply map_lookup_filter_Some. split; [done|]. by apply (Ho k).
  - apply map_lookup_filter_None. by left.
Qed.

(** A map copied entry by entry. *)
Lemma restore_copy {K V} `{Countable K} `{MapRange} (m : gmap K V) :
  foldl (fun out '(k, v) => <[k := v]> out) ∅ (range m) = m.
Proof.
  rewrite <- (map_union_empty m) at 2. apply (foldl_put_ext (fun kv => Some kv)).
  - by intros x [k v].
  - intros [k v] k' v' Hin [= <- <-]. by apply elem_of_range.
  - intros k v Hk. exists (k, v). split; [by apply elem_of_range|done].
Qed.

(** ** Partition keys *)

Lemma no_nul_chars s : no_nul s = true -> Ascii.ascii_of_nat 0 ∉ chars s.
Proof.
  induction s as [|c s IH]; cbn [no_nul]; [set_solver|]. intros [Hc Hs]%andb_prop.
  change (chars (String c s)) with (c :: chars s). intros [E|E]%elem_of_cons; [|by apply IH].
  by subst c.
Qed.

Lemma SplitChar_nul t p : no_nul t = true -> no_nul p = true ->
  SplitChar (t ++ nul ++ p) (Ascii.ascii_of_nat 0) = [t; p].
Proof.
  intros Ht Hp. unfold SplitChar. rewrite !chars_app. change (chars nul) with [Ascii.ascii_of_nat 0]. cbn [app].
  rewrite split_app, split_single by (by apply no_nul_chars). cbn. by rewrite !text_chars.
Qed.

(** The partitions whose keys can be read back. *)
Definition nameable (tp : TopicPartition) : Prop := no_nul (tp_Topic tp) = true /\ is_u32 (tp_Partition tp).

Lemma parse_partitionKey tp : nameable tp -> StorxLog.parsePartitionKey (StorxLog.partitionKey tp) = Ok tp.
Proof.
  intros [Hn Hp]. destruct tp as [t p]. unfold StorxLog.parsePartitionKey, StorxLog.partitionKey. cbn [tp_Topic tp_Partition] in *.
  unfold is_u32 in Hp. rewrite SplitChar_nul by (try apply no_nul_fmt_d; lia || done).
  rewrite ParseUint64_fmt by (unfold is_u64; lia). by destruct (Z.ltb_spec p (2 ^ 32)); [|lia].
Qed.

Lemma partitionKey_inj tp1 tp2 : nameable tp1 -> nameable tp2 ->
  StorxLog.partitionKey tp1 = StorxLog.partitionKey tp2 -> tp1 = tp2.
Proof.
  intros H1 H2 E. apply parse_partitionKey in H1, H2. rewrite E in H1. congruence.
Qed.

Section Partitions.
Context `{MapRange} {V : Type}.
Implicit Types m : gmap TopicPartition V.

Definition byKey m : gmap string V :=
  foldl (fun out '(tp, v) => <[StorxLog.partitionKey tp := v]> out) ∅ (range m).

Lemma byKey_Some m k v :
  (forall tp, is_Some (m !! tp) -> nameable tp) ->
  byKey m !! k = Some v <-> exists tp, k = StorxLog.partitionKey tp /\ m !! tp = Some v.
Proof.
  intros Hn. set (m' := list_to_map ((prod_map StorxLog.partitionKey id) <$> map_to_list m) : gmap string V).
  assert (forall k v, m' !! k = Some v <-> exists tp, k = StorxLog.partitionKey tp /\ m !! tp = Some v) as Hm'.
  { intros k1 v1. unfold m'. rewrite <- elem_of_list_to_map.
    - rewrite list_elem_of_fmap. split.
      + intros ([tp v2] & [= -> ->] & Hin). exists tp. split; [done|]. by apply elem_of_map_to_list.
      + intros (tp & -> & Hm). exists (tp, v1). split; [done|]. by apply elem_of_map_to_list.
    - rewrite <- list_fmap_compose. apply NoDup_fmap_2_strong.
      + intros [tp1 v2] [tp2 v3] Hi1 Hi2 E. apply elem_of_map_to_list in Hi1, Hi2.
        assert (tp1 = tp2) as -> by (apply partitionKey_inj; [by eapply Hn, mk_is_Some..|exact E]). congruence.
      + apply NoDup_map_to_list. }
  rewrite <- Hm'. unfold byKey.
  rewrite (foldl_put_ext (fun '(tp, v) => Some (StorxLog.partitionKey tp, v)) _ _ m'), map_union_empty; [done|..].
  - by intros x [tp v1].
  - intros [tp v1] k1 v2 Hin [= <- <-]. apply Hm'. exists tp. split; [done|]. by apply elem_of_range.
  - intros k1 v1 (tp & -> & Hm)%Hm'. exists (tp, v1). split; [by apply elem_of_range|done].
Qed.

(** Reading the keyed map back overlays the map it came from. *)
Lemma restore_byKey m m0 `{MapRange} :
  (forall tp, is_Some (m !! tp) -> nameable tp) ->
  foldl (fun out '(key, v) => match StorxLog.parsePartitionKey key with Ok tp => <[tp := v]> out | Err _ => out end)
    m0 (range (byKey m)) = m ∪ m0.
Proof.
  intros Hn.
  apply (foldl_put_ext (fun '(key, v) => match StorxLog.parsePartitionKey key with Ok tp => Some (tp, v) | Err _ => None end)).
  - intros x [key v]. unfold put. by destruct (StorxLog.parsePartitionKey key).
  - intros [key v] tp v' Hin. apply elem_of_range, byKey_Some in Hin as (tp' & -> & Hm); [|done].
    rewrite parse_partitionKey by (by eapply Hn, mk_is_Some). by intros [= <- <-].
  - intros tp v Hm. exists (StorxLog.partitionKey tp, v). split; [apply elem_of_range, byKey_Some; eauto|].
    by rewrite parse_partitionKey by (by eapply Hn, mk_is_Some).
Qed.

End Partitions.

Lemma restoreRecordsLoop_ok (l : list (string * list Rec)) rs :
  (forall key v, (key, v) ∈ l -> exists tp, StorxLog.parsePartitionKey key = Ok tp) ->
  Mem.restoreMemoryRecordsLoop l rs =
  Ok (foldl (fun out '(key, v) => match StorxLog.parsePartitionKey key with Ok tp => <[tp := v]> out | Err _ => out end) rs l).
Proof.
  revert rs. induction l as [|[key v] l IH]; intros rs Hp; [done|]. cbn [Mem.restoreMemoryRecordsLoop foldl].
  destruct (Hp key v) as [tp E]; [set_solver|]. rewrite E. cbn [mbind result_bind]. apply IH. set_solver.
Qed.

(** ** What every stored entry satisfies *)

Record snap_inv (s : MemoryStore) : Prop := {
  sv_topics : map_Forall (fun _ t => normalizeTopic t = t) (topics s);
  sv_offsets : forall k, is_Some (offsets s !! k) -> is_Some (offsetStates s !! k);
  sv_states : map_Forall (fun _ v => Mem.isOk (validateConsumerOffsetState v) = true) (offsetStates s);
  sv_pauses : map_Forall (fun _ v => Mem.isOk (validateConsumerPauseState v) = true) (consumerPauses s);
  sv_placements : map_Forall (fun _ v => Mem.isOk (validateShardPlacement v) = true) (placements s);
  sv_members : map_Forall (fun _ v => sortedStrings (cgm_Topics v) = cgm_Topics v) (members s);
  sv_transactions : map_Forall (fun _ v => negb (ts_TxID v =? 0) = true) (transactions s);
  sv_batches : map_Forall (fun _ v => Mem.isOk (validateProducerBatch v) = true) (producerBatches s);
  sv_policies : map_Forall (fun _ v => Mem.isOk (validateACLPolicy v) = true) (aclPolicies s);
  sv_policy_keys : keyed acl_PolicyID (aclPolicies s);
  sv_dlq : map_Forall (fun _ v => Mem.isOk (validateDLQIndexEntry v) = true) (dlqIndexes s)
}.

(** Every method that changes the in-memory store, with the transaction
    counter short of wrapping. *)
Inductive mem_step `{MapRange} : MemoryStore -> MemoryStore -> Prop :=
| mem_log s s' : log_step s s' -> mem_step s s'
| mem_meta s s' : tx_step s s' -> mem_step s s'
| mem_save_policy s policy : mem_step s (SaveACLPolicy s policy).1
| mem_delete_policy s policyID : mem_step s (DeleteACLPolicy s policyID).1.

Lemma normalizeTopic_idem t : normalizeTopic (normalizeTopic t) = normalizeTopic t.
Proof.
  unfold normalizeTopic, NormalizeTopicPriorityPolicy, DefaultTopicRetryPolicy. destruct t as [? ? ? ? ? ? ? ? ? [] ? ? ? ? ? ? ? []]. cbn -[Z.eqb Z.mul].
  f_equal; repeat (case_match; try done); simpl in *; congruence.
Qed.

Lemma sortedStrings_idem l : sortedStrings (sortedStrings l) = sortedStrings l.
Proof.
  unfold sortedStrings. apply (sort_func_id String.compare); [|apply (sort_func_sorted String.compare)].
  intros x y _ _ E. by apply string_compare_eq.
Qed.

Lemma topics_normal `{MapRange} s s' : log_step s s' ->
  map_Forall (fun _ t => normalizeTopic t = t) (topics s) -> map_Forall (fun _ t => normalizeTopic t = t) (topics s').
Proof.
  intros [s0 topic|s0 topic|t s0 tp ar _|s0 c t|s0 c t] Hn.
  - unfold CreateTopic. repeat (case_match; [done|]). cbn [fst].
    rewrite (proj1 (foldl_ensure_frame _ _ _ _)). cbn. apply map_Forall_insert_2; [apply normalizeTopic_idem|done].
  - unfold SaveTopicConfig. repeat (case_match; [done|]). cbn [fst].
    rewrite (proj1 (foldl_ensure_frame _ _ _ _)). cbn. apply map_Forall_insert_2; [apply normalizeTopic_idem|done].
  - unfold AppendRecord. repeat case_match; done.
  - by rewrite (proj1 (EnforceRetention_cleaned s0 c t)).
  - by rewrite (proj1 (Compact_cleaned s0 c t)).
Qed.

Lemma log_step_snap `{MapRange} s s' : log_step s s' -> snap_inv s -> snap_inv s'.
Proof.
  intros Hs [H1 H2 H3 H4 H5 H6 H7 H8 H9 H10 H11].
  assert (forall X (f : MemoryStore -> X), (forall v s, f (set_topics v s) = f s) -> (forall v s, f (set_topicNames v s) = f s) ->
    (forall v s, f (set_records v s) = f s) -> (forall v s, f (set_nextOffsets v s) = f s) -> f s' = f s) as Hf
    by (intros X f ? ? ? ?; by eapply log_step_field).
  split; [by eapply topics_normal|..];
    rewrite ?(Hf _ offsets), ?(Hf _ offsetStates), ?(Hf _ consumerPauses), ?(Hf _ placements), ?(Hf _ members),
      ?(Hf _ transactions), ?(Hf _ producerBatches), ?(Hf _ aclPolicies), ?(Hf _ dlqIndexes); done.
Qed.

Lemma isOk_ok {A} (r : result Code A) a : r = Ok a -> Mem.isOk r = true.
Proof. by intros ->. Qed.

(** An insertion of a validated entry, or a deletion. *)
Ltac snap_entry :=
  first [ done
        | apply map_Forall_insert_2; [first [by eapply isOk_ok | apply sortedStrings_idem | by apply negb_true_iff]|done]
        | by apply map_Forall_delete ].

Lemma meta_step_snap s s' : meta_step s s' -> snap_inv s -> snap_inv s'.
Proof.
  intros Hstep [H1 H2 H3 H4 H5 H6 H7 H8 H9 H10 H11].
  destruct Hstep as [s st|s c tp|s st|s c tp|s m|s g m|R s t|s a|s st ?|s|s b|s b|s p|s e|s st];
    unfold SaveConsumerOffsetState, DeleteConsumerOffsetState, SaveConsumerPause, DeleteConsumerPause,
      SaveGroupMember, DeleteGroupMember, SaveGroupAssignment, SaveTransaction, AllocateTransactionID,
      SaveProducerBatch, DeleteProducerBatch, SaveShardPlacement, SaveDLQIndex, SaveBrokerState;
    repeat case_match; split; simpl; try snap_entry.
  all: try (unfold DeleteExpiredGroupMembers; by destruct (foldl _ _ _)).
  - intros k. rewrite !lookup_insert_is_Some. intros [?|[? ?]]; [by left|right; auto].
  - intros k. rewrite !lookup_delete_is_Some. intros [? ?]. split; auto.
  - intros k v. rewrite DeleteExpired_lookup, bind_Some. intros (m & Hm & Hv).
    destruct (ExpiredAt m t); [done|]. injection Hv as <-. by apply (H6 k).
Qed.

Definition mem_inv (s : MemoryStore) : Prop := store_inv s /\ snap_inv s /\ tx_inv s.

Lemma mem_step_inv `{MapRange} s s' : mem_step s s' -> mem_inv s -> mem_inv s'.
Proof.
  intros [s0 s1 Hs|s0 s1 Hs|s0 policy|s0 policyID] (Hi & Hp & Ht); unfold mem_inv.
  - split_and!; [by eapply store_step_inv; [left|]|by eapply log_step_snap|].
    unfold tx_inv. assert (transactions s1 = transactions s0) as -> by (by eapply log_step_field).
    by assert (nextTxID s1 = nextTxID s0) as -> by (by eapply log_step_field).
  - split_and!; [eapply store_step_inv; [right; apply Hs|done]|eapply meta_step_snap; [apply Hs|done]|].
    by eapply tx_step_inv.
  - unfold SaveACLPolicy. destruct (validateACLPolicy policy) as [[]|] eqn:Ev; [|done]. cbn [fst].
    destruct Hi as [Hl Hm], Hp as [H1 H2 H3 H4 H5 H6 H7 H8 H9 H10 H11]. split_and!; [split| |done].
    + by eapply (log_inv_proper s0).
    + by eapply (meta_inv_proper s0).
    + split; simpl; try done; [snap_entry|by apply keyed_insert].
  - unfold DeleteACLPolicy. case_decide; [done|]. cbn [fst].
    destruct Hi as [Hl Hm], Hp as [H1 H2 H3 H4 H5 H6 H7 H8 H9 H10 H11]. split_and!; [split| |done].
    + by eapply (log_inv_proper s0).
    + by eapply (meta_inv_proper s0).
    + split; simpl; try done; [snap_entry|by apply keyed_delete].
Qed.

Lemma mem_inv_empty : mem_inv NewMemoryStore.
Proof.
  split_and!; [apply store_inv_empty| |].
  - split; try apply map_Forall_empty; simpl; try done. intros k. rewrite lookup_empty. by intros [? ?].
  - split; simpl; [lia|]. intros k st. by rewrite lookup_empty.
Qed.

Lemma mem_reachable_inv `{MapRange} s : rtc mem_step NewMemoryStore s -> mem_inv s.
Proof.
  intros Hr. pose proof mem_inv_empty as Hi. induction Hr as [|s1 s2 s3 Hs _ IH]; [done|].
  apply IH. by eapply mem_step_inv.
Qed.

(** ** Restoring each collection *)

Lemma restored_names (l : list TopicConfig) (names : gset string) n :
  n ∈ foldl (fun (names : gset string) t => {[tc_Name (normalizeTopic t)]} ∪ names) names l <->
  n ∈ names \/ exists t, t ∈ l /\ tc_Name t = n.
Proof.
  revert names. induction l as [|t l IH]; intros names; cbn [foldl]; [set_solver|].
  rewrite IH. change (tc_Name (normalizeTopic t)) with (tc_Name t). set_solver.
Qed.

Section Restore.
Context (R1 R2 : MapRange) (s : MemoryStore).
Hypothesis Hinv : mem_inv s.
Hypothesis Hnames : forall tp, is_Some (nextOffsets s !! tp) -> nameable tp.

Let Hlog : log_inv s := proj1 (proj1 Hinv).
Let Hmeta : meta_inv s := proj2 (proj1 Hinv).
Let Hsnap : snap_inv s := proj1 (proj2 Hinv).

Abbreviation snapshot := (@Mem.TakeSnapshot R1 s).

Lemma topics_elem t : t ∈ sn_Topics snapshot -> topics s !! tc_Name t = Some t /\ normalizeTopic t = t.
Proof using Hinv.
  intros [n Hn]%elem_of_values. destruct (li_topic s Hlog _ _ Hn) as [E _]. subst n. split; [done|].
  by apply (sv_topics s Hsnap (tc_Name t)).
Qed.

(** The accumulators of the topic loop, apart. *)
Lemma restoreTopics_split l out names rs :
  Mem.restoreMemoryTopics l out names rs =
  (foldl (fun out t => <[tc_Name (normalizeTopic t) := normalizeTopic t]> out) out l,
   foldl (fun names t => {[tc_Name (normalizeTopic t)]} ∪ names) names l,
   foldl (fun rs t => foldl (fun rs p => <[NewTopicPartition (tc_Name (normalizeTopic t)) p := []]> rs) rs
                        (seqZ 0 (tc_Partitions (normalizeTopic t)))) rs l).
Proof using Type.
  unfold Mem.restoreMemoryTopics. revert out names rs. induction l as [|t l IH]; intros out names rs; [done|].
  cbn [foldl]. apply IH.
Qed.

Lemma restored_topics :
  foldl (fun out t => <[tc_Name (normalizeTopic t) := normalizeTopic t]> out) ∅ (sn_Topics snapshot) = topics s.
Proof using Hinv.
  rewrite <- (map_union_empty (topics s)).
  apply (foldl_put_ext (fun t => Some (tc_Name (normalizeTopic t), normalizeTopic t))); [done|..].
  - intros t k v [Ht En]%topics_elem [= <- <-]. by rewrite En.
  - intros n t Hn. exists t. pose proof (sv_topics s Hsnap n t Hn) as En. cbn beta in En. rewrite En.
    destruct (li_topic s Hlog _ _ Hn) as [-> _]. split; [|done]. by apply elem_of_values; exists n.
Qed.

Lemma restored_topicNames :
  foldl (fun (names : gset string) t => {[tc_Name (normalizeTopic t)]} ∪ names) ∅ (sn_Topics snapshot) = topicNames s.
Proof using Hinv.
  clear Hnames. apply set_eq. intros n. rewrite restored_names, (li_names s Hlog), elem_of_dom. split.
  - intros [?|(t & [Ht _]%topics_elem & <-)]; [set_solver|by eexists].
  - intros [t Ht]. right. exists t. destruct (li_topic s Hlog _ _ Ht) as [-> _].
    split; [|done]. by apply elem_of_values; exists n.
Qed.

(** The partitions that the topic loop initialises have records already. *)
Lemma allocated_covered (l : list TopicConfig) (rs : gmap TopicPartition (list Rec)) tp :
  (forall t, t ∈ l -> topics s !! tc_Name t = Some t /\ normalizeTopic t = t) ->
  (forall tp, is_Some (rs !! tp) -> is_Some (records s !! tp)) ->
  is_Some (foldl (fun rs t => foldl (fun rs p => <[NewTopicPartition (tc_Name (normalizeTopic t)) p := []]> rs) rs
                        (seqZ 0 (tc_Partitions (normalizeTopic t)))) rs l !! tp) ->
  is_Some (records s !! tp).
Proof using Hinv.
  clear Hnames. revert rs. induction l as [|t l IH]; intros rs Hl Hrs; cbn [foldl]; [apply Hrs|].
  apply IH; [set_solver|]. clear IH tp. intros tp Hin. destruct (Hl t) as [Ht En]; [set_solver|]. rewrite En in Hin.
  apply (foldl_put_dom (fun p => Some (NewTopicPartition (tc_Name t) p, []))) in Hin as [?|(p & v & Hp & [= <- _])]; [by apply Hrs| |done].
  apply elem_of_seqZ in Hp. apply (li_alloc s Hlog _ _ _ Ht). lia.
Qed.

Lemma restored_records (rs : gmap TopicPartition (list Rec)) :
  (forall tp, is_Some (rs !! tp) -> is_Some (records s !! tp)) ->
  @Mem.restoreMemoryRecords R2 (sn_Records snapshot) rs = Ok (records s).
Proof using Hinv Hnames.
  intros Hrs. assert (forall tp, is_Some (records s !! tp) -> nameable tp) as Hn.
  { intros tp [l Hl]. destruct (li_log s Hlog _ _ Hl) as (next & Hx & _). by eapply Hnames, mk_is_Some. }
  change (sn_Records snapshot) with (@byKey R1 _ (records s)). unfold Mem.restoreMemoryRecords.
  rewrite restoreRecordsLoop_ok.
  - rewrite restore_byKey, union_covered by done. done.
  - intros key v (tp & -> & Hv)%elem_of_range%byKey_Some; [|done].
    exists tp. apply parse_partitionKey. by eapply Hn, mk_is_Some.
Qed.

Lemma restored_next : @Mem.restoreMemoryLogOffsets R2 (sn_LogOffsets snapshot) (records s) = nextOffsets s.
Proof using Hinv Hnames.
  unfold Mem.restoreMemoryLogOffsets. change (sn_LogOffsets snapshot) with (@byKey R1 _ (nextOffsets s)).
  rewrite restore_byKey by done. apply union_covered. intros tp Hin.
  apply (foldl_put_dom (fun '(tp, rs) => Some (tp, nextOffsetFromRecords rs))) in Hin as [[? Hin]|([tp' rs] & v & Hp & [= -> _])];
    [by rewrite lookup_empty in Hin| |by intros x []].
  apply elem_of_range in Hp. destruct (li_log s Hlog _ _ Hp) as (next & -> & _). done.
Qed.

Lemma restored_states :
  @Mem.restoreMemoryOffsetStates R2 (sn_OffsetStates snapshot) (sn_Offsets snapshot) = offsetStates s.
Proof using Hinv.
  unfold Mem.restoreMemoryOffsetStates.
  assert (sn_Offsets snapshot = offsets s) as -> by apply restore_copy.
  match goal with |- foldl _ ?m0 _ = _ => set (st0 := m0) end.
  rewrite <- (union_covered (offsetStates s) st0).
  - apply (foldl_put_ext (fun v => if Mem.isOk (validateConsumerOffsetState v)
      then Some (offsetKey (cos_Consumer v) (ConsumerOffsetState_TopicPartition v), v) else None)).
    + intros x v. unfold put. by destruct (Mem.isOk _).
    + intros v k v' Hv. destruct (Mem.isOk _); [|done]. intros [= <- <-].
      apply elem_of_sort_func, elem_of_values in Hv as [k Hv]. pose proof (mi_offsets s Hmeta _ _ Hv) as ->. done.
    + intros k v Hv. exists v. pose proof (sv_states s Hsnap k v Hv) as Eo. cbn beta in Eo. rewrite Eo.
      rewrite (mi_offsets s Hmeta _ _ Hv). split; [|done]. apply elem_of_sort_func, elem_of_values. by exists k.
  - intros k Hk. apply (sv_offsets s Hsnap).
    apply (foldl_put_dom (fun '(key, offset) => (fun st => (key, st)) <$> Mem.consumerOffsetStateFromKey key offset)) in Hk as [[? Hk]|([key o] & v & Hp & Hf)].
    + by rewrite lookup_empty in Hk.
    + apply elem_of_range in Hp. apply fmap_Some in Hf as (st & _ & [= -> ->]). by rewrite Hp.
    + intros x [key o]. unfold put. by destruct (Mem.consumerOffsetStateFromKey key o).
Qed.

Lemma restored_members : Mem.restoreMemoryMembers (sn_Members snapshot) = members s.
Proof using Hinv.
  assert (forall m, m ∈ @values R1 _ _ _ _ (members s) -> set_Topics (sortedStrings (cgm_Topics m)) m = m) as Hm.
  { intros m [k Hk]%elem_of_values. pose proof (sv_members s Hsnap k m Hk) as E. cbn beta in E. rewrite E. by destruct m. }
  rewrite <- (map_union_empty (members s)). unfold Mem.restoreMemoryMembers.
  apply (foldl_put_ext (fun m => let m := set_Topics (sortedStrings (cgm_Topics m)) m in
                                 Some (groupMemberKey (cgm_Group m) (cgm_MemberID m), m))); [done|..].
  - intros m k v Hin. cbn zeta. intros [= <- <-]. apply list_elem_of_fmap in Hin as (m0 & -> & Hin).
    rewrite (Hm m0 Hin), (Hm m0 Hin). apply elem_of_values in Hin as [k Hk].
    pose proof (mi_members s Hmeta _ _ Hk) as ->. by destruct m0.
  - intros k m Hk. exists m. cbn zeta.
    assert (m ∈ @values R1 _ _ _ _ (members s)) as Hin by (apply elem_of_values; by exists k). rewrite (Hm m Hin). split.
    + apply list_elem_of_fmap. exists m. by rewrite (Hm m Hin).
    + by rewrite (mi_members s Hmeta _ _ Hk).
Qed.

Lemma restored_assignments : Mem.restoreMemoryAssignments (sn_Assignments snapshot) = assignments s.
Proof using Hinv.
  apply (restore_keyed_all (H0 := R1) cga_Group (fun _ => true)); [exact (mi_assignments s Hmeta)|by intros k v _|done].
Qed.

Lemma restored_txid : Mem.restoreMemoryNextTransactionID snapshot = nextTxID s.
Proof using Hinv.
  destruct (proj2 (proj2 Hinv)) as [Hb Hlt]. unfold Mem.restoreMemoryNextTransactionID. cbn [sn_NextTransactionID sn_Transactions Mem.TakeSnapshot].
  destruct (Z.eqb_spec (nextTxID s) 0); [lia|].
  assert (forall st, st ∈ @values R1 _ _ _ _ (transactions s) -> ts_TxID st < nextTxID s) as Hall.
  { intros st [k Hk]%elem_of_values. pose proof (mi_transactions s Hmeta _ _ Hk) as ->. by eapply Hlt. }
  induction (@values R1 _ _ _ _ (transactions s)) as [|st l IH]; [done|]. cbn [foldl].
  destruct (Z.leb_spec (nextTxID s) (ts_TxID st)) as [Hge|_]; [|apply IH; intros; apply Hall; by right].
  specialize (Hall st ltac:(by left)). lia.
Qed.

(** What restoring gives back: everything, less the pause entries of consumers
    that are not paused. *)
Definition restored (s : MemoryStore) : MemoryStore :=
  set_consumerPauses (filter (fun kv => cps_Paused kv.2 = true) (consumerPauses s)) s.

Lemma build_restored : @Mem.buildMemoryRestoreState R2 snapshot = Ok (restored s).
Proof using Hinv Hnames.
  unfold Mem.buildMemoryRestoreState. rewrite restoreTopics_split, restored_topics, restored_topicNames.
  rewrite restored_records.
  2: { intros tp. apply allocated_covered; [apply topics_elem|]. intros ? [? Hx]. by rewrite lookup_empty in Hx. }
  cbn [mbind result_bind]. f_equal. unfold restored, set_consumerPauses.
  rewrite restored_next, restored_states, restored_members, restored_assignments, restored_txid.
  f_equal.
  - unfold Mem.restoreMemoryOffsets. etrans; [|apply (@restore_copy _ _ _ _ R2)]. f_equal. f_equal. apply restore_copy.
  - unfold Mem.restoreMemoryConsumerPauses.
    rewrite (restore_keyed (H0 := R1) (fun v => consumerPauseKey (cps_Consumer v) (ConsumerPauseState_TopicPartition v))
               (fun v => Mem.isOk (validateConsumerPauseState v) && cps_Paused v) (consumerPauses s));
      [|exact (mi_pauses s Hmeta)|apply sort_func_perm].
    apply map_filter_ext. intros k v Hv. cbn. pose proof (sv_pauses s Hsnap k v Hv) as Eo. cbn beta in Eo. by rewrite Eo.
  - apply (restore_keyed_all (H0 := R1)); [exact (mi_placements s Hmeta)|exact (sv_placements s Hsnap)|apply sort_func_perm].
  - apply (restore_keyed_all (H0 := R1)); [exact (mi_transactions s Hmeta)|exact (sv_transactions s Hsnap)|done].
  - apply (restore_keyed_all (H0 := R1)); [exact (mi_batches s Hmeta)|exact (sv_batches s Hsnap)|apply sort_func_perm].
  - apply (restore_keyed_all (H0 := R1)); [exact (sv_policy_keys s Hsnap)|exact (sv_policies s Hsnap)|apply sort_func_perm].
  - apply (restore_keyed_all (H0 := R1) (fun e => dlqIndexKey (dlq_DLQTopic e) (dlq_DLQPartition e) (dlq_DLQOffset e)));
      [exact (mi_dlq s Hmeta)|exact (sv_dlq s Hsnap)|apply sort_func_perm].
Qed.

End Restore.

(** A snapshot round-trips: a store reached by any sequence of methods and
    restored from its own snapshot, into whatever store and with whatever
    iteration orders, is the store itself, except for pause entries that do
    not pause.  Partitions need names without NUL bytes, which is what makes
    the snapshot's keys readable. *)
Theorem snapshot_roundtrip (R1 R2 R3 : MapRange) (s s0 : MemoryStore) :
  rtc (@mem_step R1) NewMemoryStore s ->
  (forall tp, is_Some (nextOffsets s !! tp) -> nameable tp) ->
  @Mem.Restore R3 s0 (@Mem.TakeSnapshot R2 s) = (restored s, Ok tt).
Proof.
  intros Hr%mem_reachable_inv Hn. unfold Mem.Restore. by rewrite (build_restored R2 R3 s Hr Hn).
Qed.

(** ** The broker's snapshot through its JSON *)

Definition drop_dlq (snap : Snapshot) : Snapshot :=
  mkSnapshot (sn_Topics snap) (sn_Records snap) (sn_LogOffsets snap) (sn_Offsets snap) (sn_OffsetStates snap)
    (sn_ConsumerPauses snap) (sn_Placements snap) (sn_Members snap) (sn_Assignments snap) (sn_Transactions snap)
    (sn_ProducerBatches snap) (sn_ACLPolicies snap) [] (sn_NextTransactionID snap) (sn_BrokerState snap).

Lemma build_drop_dlq `{MapRange} snap s :
  Mem.buildMemoryRestoreState snap = Ok s ->
  Mem.buildMemoryRestoreState (drop_dlq snap) = Ok (set_dlqIndexes ∅ s).
Proof.
  unfold Mem.buildMemoryRestoreState. cbn [sn_Topics sn_Records drop_dlq].
  destruct (Mem.restoreMemoryTopics _ _ _ _) as [[t n] rs]. destruct (Mem.restoreMemoryRecords _ _) as [rs'|]; [|done].
  cbn [mbind result_bind]. by intros [= <-].
Qed.

Lemma brokerSnapshot_one `{MapRange} s : brokerSnapshot s s = Mem.TakeSnapshot s.
Proof. unfold brokerSnapshot, set_LogPart. by destruct (sn_Topics (Mem.TakeSnapshot s)) eqn:E; rewrite <- E. Qed.

Section Json.
Context {JT : Json (list TopicConfig)} {JR : Json (gmap string (list Rec))} {JO : Json (gmap string Z)}
  {JS : Json (list ConsumerOffsetState)} {JP : Json (list ConsumerPauseState)} {JL : Json (list ShardPlacement)}
  {JM : Json (list ConsumerGroupMember)} {JA : Json (list ConsumerGroupAssignment)} {JX : Json (list TransactionState)}
  {JB : Json (list ProducerPublishedBatch)} {JC : Json (list ACLPolicy)} {JW : Json snapshotJSON}.

(** The collections of the snapshot have a JSON form. *)
Definition json_ok (snap : Snapshot) : Prop :=
  representable (sn_Topics snap) /\ representable (sn_Records snap) /\ representable (sn_LogOffsets snap) /\
  representable (sn_Offsets snap) /\ representable (sn_OffsetStates snap) /\ representable (sn_ConsumerPauses snap) /\
  representable (sn_Placements snap) /\ representable (sn_Members snap) /\ representable (sn_Assignments snap) /\
  representable (sn_Transactions snap) /\ representable (sn_ProducerBatches snap) /\ representable (sn_ACLPolicies snap) /\
  forall wire, toSnapshotJSON snap = Some wire -> representable wire.

Lemma collection_roundtrip {A} `{Json A} (a : A) : representable a ->
  exists data, marshalSnapshotCollection a = Some data /\ unmarshalSnapshotCollection data = Some a.
Proof.
  intros (data & Em & Eu & He)%Unmarshal_Marshal. exists data. split; [exact Em|]. unfold unmarshalSnapshotCollection.
  destruct (bool_decide (data = []) || bool_decide (data = json_null)) eqn:Eb; [|done].
  apply orb_true_iff in Eb as [?%bool_decide_eq_true|?%bool_decide_eq_true]; by rewrite He by auto.
Qed.

Lemma json_roundtrip snap : json_ok snap ->
  exists data, MarshalJSON snap = Some data /\ UnmarshalJSON data = Some (drop_dlq snap).
Proof.
  intros (H1 & H2 & H3 & H4 & H5 & H6 & H7 & H8 & H9 & H10 & H11 & H12 & Hw).
  apply collection_roundtrip in H1 as (d1 & E1 & U1), H2 as (d2 & E2 & U2), H3 as (d3 & E3 & U3), H4 as (d4 & E4 & U4),
    H5 as (d5 & E5 & U5), H6 as (d6 & E6 & U6), H7 as (d7 & E7 & U7), H8 as (d8 & E8 & U8), H9 as (d9 & E9 & U9),
    H10 as (d10 & E10 & U10), H11 as (d11 & E11 & U11), H12 as (d12 & E12 & U12).
  set (wire := mkSnapshotJSON d1 d2 d3 d4 d5 d6 d7 d8 d9 d10 d11 d12 (sn_NextTransactionID snap) (sn_BrokerState snap)).
  assert (toSnapshotJSON snap = Some wire) as Ew.
  { unfold toSnapshotJSON. by rewrite E1, E2, E3, E4, E5, E6, E7, E8, E9, E10, E11, E12. }
  destruct (Unmarshal_Marshal wire (Hw wire Ew)) as (data & Em & Eu & _).
  exists data. unfold MarshalJSON, UnmarshalJSON. rewrite Ew, Eu. cbn [mbind option_bind]. split; [done|].
  unfold unmarshalSnapshotCollections. subst wire. cbn [sj_Topics sj_Records sj_LogOffsets sj_Offsets sj_OffsetStates
    sj_ConsumerPauses sj_Placements sj_Members sj_Assignments sj_Transactions sj_ProducerBatches sj_ACLPolicies].
  by rewrite U1, U2, U3, U4, U5, U6, U7, U8, U9, U10, U11, U12.
Qed.


End Json.

(** ** Witnesses: two records, a group member, a pause and a dead-letter entry *)

#[local] Existing Instance map_to_list_range.

Definition ex_m1 : MemoryStore := (SaveGroupMember ex_s2 (mkConsumerGroupMember "g" "m" ["z"; "orders"] 1000 0 1 1 1)).1.
Definition ex_m2 : MemoryStore := (SaveConsumerPause ex_m1 (mkConsumerPauseState "c" "orders" 0 true 7)).1.
Definition ex_m3 : MemoryStore := (SaveDLQIndex ex_m2 (mkDLQIndexEntry "orders.dlq" 0 0 9 "orders" 0 1 "failed" 3)).1.

Lemma ex_m3_reachable : rtc mem_step NewMemoryStore ex_m3.
Proof.
  apply (rtc_r _ ex_m2); [apply (rtc_r _ ex_m1); [apply (rtc_r _ ex_s2); [apply (rtc_r _ ex_s1); [apply (rtc_r _ ex_s0); [apply rtc_once|]|]|]|]|].
  - apply mem_log, log_step_create.
  - apply mem_log. by apply (log_step_append 5 ex_s0 ex_tp (ex_rec Byte.x61)).
  - apply mem_log. by apply (log_step_append 6 ex_s1 ex_tp (ex_rec Byte.x62)).
  - apply mem_meta. split; [apply meta_save_member|by vm_compute].
  - apply mem_meta. split; [apply meta_save_pause|by vm_compute].
  - apply mem_meta. split; [apply meta_save_dlq|by vm_compute].
Qed.

Lemma ex_m3_names tp : is_Some (nextOffsets ex_m3 !! tp) -> nameable tp.
Proof.
  intros Hs. assert (tp ∈ (map_to_list (nextOffsets ex_m3)).*1) as Hin.
  { destruct Hs as [v Hv]. apply list_elem_of_fmap. exists (tp, v). split; [done|]. by apply elem_of_map_to_list. }
  assert ((map_to_list (nextOffsets ex_m3)).*1 = [ex_tp]) as E by (by vm_compute).
  rewrite E in Hin. apply list_elem_of_singleton in Hin as ->.
  split; [reflexivity|]. unfold is_u32, ex_tp. cbn [tp_Partition]. lia.
Qed.

Lemma snapshot_roundtrip_witness :
  Mem.Restore NewMemoryStore (Mem.TakeSnapshot ex_m3) = (restored ex_m3, Ok tt) /\
  LoadDLQIndex (restored ex_m3) "orders.dlq" 0 0 = LoadDLQIndex ex_m3 "orders.dlq" 0 0.
Proof.
  split; [|by vm_compute].
  exact (snapshot_roundtrip map_to_list_range map_to_list_range map_to_list_range ex_m3 NewMemoryStore
           ex_m3_reachable ex_m3_names).
Defined.

(** A codec for an empty and a given value. *)
Definition two_json {A} `{Empty A} (is_empty : A -> bool) (a0 : A)
    (Hempty : forall a, is_empty a = true -> a = ∅) : Json A.
Proof.
  refine {| Marshal := fun a => Some [if is_empty a then Byte.x30 else Byte.x31];
            Unmarshal := fun d => if decide (d = [Byte.x30]) then Some ∅ else Some a0;
            representable := fun a => is_empty a = true \/ (is_empty a = false /\ a = a0) |}.
  intros a Ha. exists [if is_empty a then Byte.x30 else Byte.x31]. split; [done|].
  destruct Ha as [E|[E ->]]; rewrite E; (split; [|by intros [|]]); rewrite ?(Hempty _ E); done.
Defined.

Definition list_is_nil {A} (l : list A) : bool := match l with [] => true | _ => false end.

Lemma list_is_nil_empty {A} (l : list A) : list_is_nil l = true -> l = ∅.
Proof. by destruct l. Qed.

Definition list_json {A} (l : list A) : Json (list A) := two_json list_is_nil l list_is_nil_empty.

Definition map_is_empty {V} (m : gmap string V) : bool := Nat.eqb (size m) 0.

Lemma map_is_empty_empty {V} (m : gmap string V) : map_is_empty m = true -> m = ∅.
Proof. intros E%Nat.eqb_eq. by apply map_size_empty_inv. Qed.

Definition map_json {V} (m : gmap string V) : Json (gmap string V) := two_json map_is_empty m map_is_empty_empty.


#[local] Existing Instances snapshotJSON_empty list_Empty.

Definition ex_wire : snapshotJSON :=
  mkSnapshotJSON [Byte.x31] [Byte.x31] [Byte.x31] [Byte.x30] [Byte.x30] [Byte.x31] [Byte.x30] [Byte.x31] [Byte.x30] [Byte.x30]
    [Byte.x30] [Byte.x30] 1 None.

Definition wire_json : Json snapshotJSON.
Proof.
  refine {| Marshal := fun _ => Some [Byte.x32]; Unmarshal := fun _ => Some ex_wire; representable := fun w => w = ex_wire |}.
  intros w ->. exists [Byte.x32]. split_and!; [done|done|]. by intros [|].
Defined.

Definition ex_snapshot : Snapshot := Mem.TakeSnapshot ex_m3.

