(* ===== verification/StorxMeta.v ===== *)
(** * The metadata store on disk

    [StorxMetadataStore]: [src/store/storx_metadata.go] and
    [storx_metadata_*.go].  It keeps one bucket of a bbolt database per
    collection, through the third-party package [bboltx].

    [Bbolt] is what the code relies on of that package: a bucket holds a
    finite map; a call that reports no error reads or changes that map, and a
    call that reports one leaves the map alone, since it is one transaction.
    Any call may fail.  A model store is a bucket of models under a key
    computed from the model, with an index; a query of the index is exact
    while the index is up to date, which updates keep it and rebuilding makes
    it.  [storable] values are those that the JSON codec of the buckets gives
    back as they were written.

    A [wrapExternal] error and a bare error of the package both have the code
    [CodeUnavailable] for [store.ErrorCode].  A method that fails half way
    returns the state it leaves.  The [clone*] helpers need no model, values
    being immutable. *)

From stdpp Require Import prelude gmap strings sorting pretty.
From S2P Require Import Prelude GoStrings Model MemoryStore MetaStore Idempotency Governance SegmentLog Snapshot.

#[local] Open Scope Z_scope.
#[local] Open Scope ech0_scope.

(** ** The package [bboltx] *)

Definition is_ok {A} (r : result unit A) : bool := match r with Ok _ => true | Err _ => false end.

Class Bbolt := {
  Bucket : Type -> Type;
  Get : forall {V}, Bucket V -> string -> result unit (option V);
  Put : forall {V}, Bucket V -> string -> V -> Bucket V * result unit unit;
  Delete : forall {V}, Bucket V -> string -> Bucket V * result unit unit;
  PutMany : forall {V}, Bucket V -> list (string * V) -> Bucket V * result unit unit;
  DeleteMany : forall {V}, Bucket V -> list string -> Bucket V * result unit unit;
  Keys : forall {V}, Bucket V -> result unit (list string);
  Walk : forall {V}, Bucket V -> result unit (list (string * V));

  ModelStore : Type -> Type;
  Repository : forall {V}, ModelStore V -> Bucket V;
  set_Repository : forall {V}, Bucket V -> ModelStore V -> ModelStore V;
  Upsert : forall {V}, (V -> string) -> (V -> string) -> ModelStore V -> V -> ModelStore V * result unit unit;
  DeleteModel : forall {V}, (V -> string) -> ModelStore V -> string -> ModelStore V * result unit unit;
  Query : forall {V}, (V -> string) -> ModelStore V -> string -> result unit (list V);
  RebuildIndexes : forall {V}, (V -> string) -> ModelStore V -> ModelStore V * result unit unit;

  contents : forall {V}, Bucket V -> gmap string V;
  storable : forall {V}, V -> Prop;
  indexed : forall {V}, (V -> string) -> ModelStore V -> Prop;

  Get_spec : forall {V} (b : Bucket V) k o, Get b k = Ok o -> o = contents b !! k;
  Put_spec : forall {V} (b : Bucket V) k v, storable v ->
    contents (Put b k v).1 = if is_ok (Put b k v).2 then <[k := v]> (contents b) else contents b;
  Delete_spec : forall {V} (b : Bucket V) k,
    contents (Delete b k).1 = if is_ok (Delete b k).2 then delete k (contents b) else contents b;
  PutMany_spec : forall {V} (b : Bucket V) l, Forall (fun kv => storable kv.2) l ->
    contents (PutMany b l).1 =
      if is_ok (PutMany b l).2 then foldl (fun m kv => <[kv.1 := kv.2]> m) (contents b) l else contents b;
  DeleteMany_spec : forall {V} (b : Bucket V) l,
    contents (DeleteMany b l).1 =
      if is_ok (DeleteMany b l).2 then foldl (fun m k => delete k m) (contents b) l else contents b;
  Keys_spec : forall {V} (b : Bucket V) l, Keys b = Ok l -> l ≡ₚ (map_to_list (contents b)).*1;
  Walk_spec : forall {V} (b : Bucket V) l, Walk b = Ok l -> l ≡ₚ map_to_list (contents b);

  set_Repository_spec : forall {V} (b : Bucket V) m, contents (Repository (set_Repository b m)) = contents b;
  Upsert_spec : forall {V} (key idx : V -> string) m v, storable v -> indexed idx m ->
    contents (Repository (Upsert key idx m v).1) =
      (if is_ok (Upsert key idx m v).2 then <[key v := v]> (contents (Repository m)) else contents (Repository m)) /\
    indexed idx (Upsert key idx m v).1;
  DeleteModel_spec : forall {V} (idx : V -> string) m k, indexed idx m ->
    contents (Repository (DeleteModel idx m k).1) =
      (if is_ok (DeleteModel idx m k).2 then delete k (contents (Repository m)) else contents (Repository m)) /\
    indexed idx (DeleteModel idx m k).1;
  Query_spec : forall {V} (idx : V -> string) m g l, indexed idx m -> Query idx m g = Ok l ->
    l ≡ₚ filter (fun v => idx v = g) (map_to_list (contents (Repository m))).*2;
  RebuildIndexes_spec : forall {V} (idx : V -> string) m,
    contents (Repository (RebuildIndexes idx m).1) = contents (Repository m) /\
    (is_ok (RebuildIndexes idx m).2 = true -> indexed idx (RebuildIndexes idx m).1)
}.

Module StorxMeta.

Abbreviation partitionKey := StorxLog.partitionKey.

Section Store.
Context `{Bbolt}.

Record StorxMetadataStore := mkStorxMetadataStore {
  topics : Bucket TopicConfig;
  offsets : Bucket Z;
  offsetStates : Bucket ConsumerOffsetState;
  consumerPauses : Bucket ConsumerPauseState;
  members : ModelStore ConsumerGroupMember;
  assignments : Bucket ConsumerGroupAssignment;
  brokerState : Bucket BrokerState;
  placements : Bucket ShardPlacement;
  transactions : Bucket TransactionState;
  transactionCounters : Bucket Z;
  producerBatches : Bucket ProducerPublishedBatch;
  aclPolicies : Bucket ACLPolicy;
  dlqIndexes : Bucket DLQIndexEntry
}.

Definition set_topics (v : Bucket TopicConfig) (s : StorxMetadataStore) : StorxMetadataStore :=
  mkStorxMetadataStore v (offsets s) (offsetStates s) (consumerPauses s) (members s) (assignments s) (brokerState s) (placements s) (transactions s) (transactionCounters s) (producerBatches s) (aclPolicies s) (dlqIndexes s).
Definition set_offsets (v : Bucket Z) (s : StorxMetadataStore) : StorxMetadataStore :=
  mkStorxMetadataStore (topics s) v (offsetStates s) (consumerPauses s) (members s) (assignments s) (brokerState s) (placements s) (transactions s) (transactionCounters s) (producerBatches s) (aclPolicies s) (dlqIndexes s).
Definition set_offsetStates (v : Bucket ConsumerOffsetState) (s : StorxMetadataStore) : StorxMetadataStore :=
  mkStorxMetadataStore (topics s) (offsets s) v (consumerPauses s) (members s) (assignments s) (brokerState s) (placements s) (transactions s) (transactionCounters s) (producerBatches s) (aclPolicies s) (dlqIndexes s).
Definition set_consumerPauses (v : Bucket ConsumerPauseState) (s : StorxMetadataStore) : StorxMetadataStore :=
  mkStorxMetadataStore (topics s) (offsets s) (offsetStates s) v (members s) (assignments s) (brokerState s) (placements s) (transactions s) (transactionCounters s) (producerBatches s) (aclPolicies s) (dlqIndexes s).
Definition set_members (v : ModelStore ConsumerGroupMember) (s : StorxMetadataStore) : StorxMetadataStore :=
  mkStorxMetadataStore (topics s) (offsets s) (offsetStates s) (consumerPauses s) v (assignments s) (brokerState s) (placements s) (transactions s) (transactionCounters s) (producerBatches s) (aclPolicies s) (dlqIndexes s).
Definition set_assignments (v : Bucket ConsumerGroupAssignment) (s : StorxMetadataStore) : StorxMetadataStore :=
  mkStorxMetadataStore (topics s) (offsets s) (offsetStates s) (consumerPauses s) (members s) v (brokerState s) (placements s) (transactions s) (transactionCounters s) (producerBatches s) (aclPolicies s) (dlqIndexes s).
Definition set_brokerState (v : Bucket BrokerState) (s : StorxMetadataStore) : StorxMetadataStore :=
  mkStorxMetadataStore (topics s) (offsets s) (offsetStates s) (consumerPauses s) (members s) (assignments s) v (placements s) (transactions s) (transactionCounters s) (producerBatches s) (aclPolicies s) (dlqIndexes s).
Definition set_placements (v : Bucket ShardPlacement) (s : StorxMetadataStore) : StorxMetadataStore :=
  mkStorxMetadataStore (topics s) (offsets s) (offsetStates s) (consumerPauses s) (members s) (assignments s) (brokerState s) v (transactions s) (transactionCounters s) (producerBatches s) (aclPolicies s) (dlqIndexes s).
Definition set_transactions (v : Bucket TransactionState) (s : StorxMetadataStore) : StorxMetadataStore :=
  mkStorxMetadataStore (topics s) (offsets s) (offsetStates s) (consumerPauses s) (members s) (assignments s) (brokerState s) (placements s) v (transactionCounters s) (producerBatches s) (aclPolicies s) (dlqIndexes s).
Definition set_transactionCounters (v : Bucket Z) (s : StorxMetadataStore) : StorxMetadataStore :=
  mkStorxMetadataStore (topics s) (offsets s) (offsetStates s) (consumerPauses s) (members s) (assignments s) (brokerState s) (placements s) (transactions s) v (producerBatches s) (aclPolicies s) (dlqIndexes s).
Definition set_producerBatches (v : Bucket ProducerPublishedBatch) (s : StorxMetadataStore) : StorxMetadataStore :=
  mkStorxMetadataStore (topics s) (offsets s) (offsetStates s) (consumerPauses s) (members s) (assignments s) (brokerState s) (placements s) (transactions s) (transactionCounters s) v (aclPolicies s) (dlqIndexes s).
Definition set_aclPolicies (v : Bucket ACLPolicy) (s : StorxMetadataStore) : StorxMetadataStore :=
  mkStorxMetadataStore (topics s) (offsets s) (offsetStates s) (consumerPauses s) (members s) (assignments s) (brokerState s) (placements s) (transactions s) (transactionCounters s) (producerBatches s) v (dlqIndexes s).
Definition set_dlqIndexes (v : Bucket DLQIndexEntry) (s : StorxMetadataStore) : StorxMetadataStore :=
  mkStorxMetadataStore (topics s) (offsets s) (offsetStates s) (consumerPauses s) (members s) (assignments s) (brokerState s) (placements s) (transactions s) (transactionCounters s) (producerBatches s) (aclPolicies s) v.

Definition wrapExternal {A} (r : result unit A) : result Code A :=
  match r with Ok a => Ok a | Err _ => Err CodeUnavailable end.

Definition brokerStateKey : string := "current".
Definition transactionCounterNext : string := "next".

(** The index and the key of the members ([newStorxMetadataStore]). *)
Definition memberGroup (value : ConsumerGroupMember) : string := cgm_Group value.
Definition memberKey (value : ConsumerGroupMember) : string := groupMemberKey (cgm_Group value) (cgm_MemberID value).

(** A bucket call on a field of the store. *)
Definition putIn {V} (field : StorxMetadataStore -> Bucket V) (set : Bucket V -> StorxMetadataStore -> StorxMetadataStore)
    (s : StorxMetadataStore) (k : string) (v : V) : StorxMetadataStore * result Code unit :=
  let '(b, r) := Put (field s) k v in (set b s, wrapExternal r).

Definition deleteIn {V} (field : StorxMetadataStore -> Bucket V) (set : Bucket V -> StorxMetadataStore -> StorxMetadataStore)
    (s : StorxMetadataStore) (k : string) : StorxMetadataStore * result Code unit :=
  let '(b, r) := Delete (field s) k in (set b s, wrapExternal r).

Definition putManyIn {V} (field : StorxMetadataStore -> Bucket V) (set : Bucket V -> StorxMetadataStore -> StorxMetadataStore)
    (s : StorxMetadataStore) (l : list (string * V)) : StorxMetadataStore * result Code unit :=
  let '(b, r) := PutMany (field s) l in (set b s, wrapExternal r).

(** Sequencing of two steps that return an error. *)
Definition thenDo (p : StorxMetadataStore * result Code unit) (f : StorxMetadataStore -> StorxMetadataStore * result Code unit)
    : StorxMetadataStore * result Code unit :=
  match p with (s, Err e) => (s, Err e) | (s, Ok _) => f s end.

(** ** Topics *)

Definition SaveTopicConfig (s : StorxMetadataStore) (topic : TopicConfig) : StorxMetadataStore * result Code unit :=
  if decide (tc_Name topic = "") then (s, Err CodeInvalidArgument)
  else let topic := normalizeTopic topic in putIn topics set_topics s (tc_Name topic) topic.

Definition LoadTopicConfig (s : StorxMetadataStore) (topic : string) : result Code (option TopicConfig) :=
  wrapExternal (Get (topics s) topic).

Definition compareTopicName (left right : TopicConfig) : comparison := String.compare (tc_Name left) (tc_Name right).

Definition ListTopics (s : StorxMetadataStore) : result Code (list TopicConfig) :=
  entries ← wrapExternal (Walk (topics s)); Ok (sort_func compareTopicName entries.*2).

(** ** Consumer offsets *)

Definition SaveConsumerOffsetState (s : StorxMetadataStore) (state : ConsumerOffsetState)
    : StorxMetadataStore * result Code unit :=
  let state := NormalizeConsumerOffsetState state in
  match validateConsumerOffsetState state with
  | Err e => (s, Err e)
  | Ok _ =>
      let key := offsetKey (cos_Consumer state) (ConsumerOffsetState_TopicPartition state) in
      thenDo (putIn offsets set_offsets s key (cos_NextOffset state))
        (fun s => putIn offsetStates set_offsetStates s key state)
  end.

Definition SaveConsumerOffset (nowMS : Z) (s : StorxMetadataStore) (consumer : string) (tp : TopicPartition) (nextOffset : Z)
    : StorxMetadataStore * result Code unit :=
  SaveConsumerOffsetState s
    {| cos_Consumer := consumer; cos_Topic := tp_Topic tp; cos_Partition := tp_Partition tp;
       cos_NextOffset := nextOffset; cos_PendingOffsets := []; cos_Metadata := ""; cos_UpdatedAtMS := nowMS |}.

Definition LoadConsumerOffsetState (s : StorxMetadataStore) (consumer : string) (tp : TopicPartition)
    : result Code (option ConsumerOffsetState) :=
  let key := offsetKey consumer tp in
  state ← wrapExternal (Get (offsetStates s) key);
  match state with
  | Some state => Ok (Some state)
  | None =>
      offset ← wrapExternal (Get (offsets s) key);
      match offset with
      | None => Ok None
      | Some offset =>
          Ok (Some {| cos_Consumer := consumer; cos_Topic := tp_Topic tp; cos_Partition := tp_Partition tp;
                      cos_NextOffset := offset; cos_PendingOffsets := []; cos_Metadata := ""; cos_UpdatedAtMS := 0 |})
      end
  end.

Definition LoadConsumerOffset (s : StorxMetadataStore) (consumer : string) (tp : TopicPartition) : result Code (option Z) :=
  state ← LoadConsumerOffsetState s consumer tp;
  match state with
  | Some state => Ok (Some (cos_NextOffset state))
  | None => wrapExternal (Get (offsets s) (offsetKey consumer tp))
  end.

Definition ListConsumerOffsetStates (s : StorxMetadataStore) : result Code (list ConsumerOffsetState) :=
  entries ← wrapExternal (Walk (offsetStates s)); Ok (sortConsumerOffsetStates entries.*2).

Definition DeleteConsumerOffsetState (s : StorxMetadataStore) (consumer : string) (tp : TopicPartition)
    : StorxMetadataStore * result Code unit :=
  let key := offsetKey consumer tp in
  thenDo (deleteIn offsets set_offsets s key) (fun s => deleteIn offsetStates set_offsetStates s key).

(** ** Consumer pauses *)

Definition SaveConsumerPause (s : StorxMetadataStore) (state : ConsumerPauseState) : StorxMetadataStore * result Code unit :=
  match validateConsumerPauseState state with
  | Err e => (s, Err e)
  | Ok _ => putIn consumerPauses set_consumerPauses s
              (consumerPauseKey (cps_Consumer state) (ConsumerPauseState_TopicPartition state)) state
  end.

Definition LoadConsumerPause (s : StorxMetadataStore) (consumer : string) (tp : TopicPartition)
    : result Code (option ConsumerPauseState) :=
  wrapExternal (Get (consumerPauses s) (consumerPauseKey consumer tp)).

Definition ListConsumerPauses (s : StorxMetadataStore) : result Code (list ConsumerPauseState) :=
  entries ← wrapExternal (Walk (consumerPauses s)); Ok (sortConsumerPauses entries.*2).

Definition DeleteConsumerPause (s : StorxMetadataStore) (consumer : string) (tp : TopicPartition)
    : StorxMetadataStore * result Code unit :=
  deleteIn consumerPauses set_consumerPauses s (consumerPauseKey consumer tp).

(** ** Consumer groups *)

Definition sortTopics (m : ConsumerGroupMember) : ConsumerGroupMember := set_Topics (sortedStrings (cgm_Topics m)) m.

Definition SaveGroupMember (s : StorxMetadataStore) (member : ConsumerGroupMember) : StorxMetadataStore * result Code unit :=
  if decide (cgm_Group member = "" \/ cgm_MemberID member = "") then (s, Err CodeInvalidArgument)
  else let '(m, r) := Upsert memberKey memberGroup (members s) (sortTopics member) in (set_members m s, wrapExternal r).

Definition LoadGroupMember (s : StorxMetadataStore) (group memberID : string) : result Code (option ConsumerGroupMember) :=
  member ← wrapExternal (Get (Repository (members s)) (groupMemberKey group memberID));
  match member with Some member => Ok (Some (sortTopics member)) | None => Ok None end.

Definition ListGroupMembers (s : StorxMetadataStore) (group : string) : result Code (list ConsumerGroupMember) :=
  members ← wrapExternal (Query memberGroup (members s) group);
  Ok (sort_func compareMemberID (sortTopics <$> members)).

Definition DeleteGroupMember (s : StorxMetadataStore) (group memberID : string) : StorxMetadataStore * result Code unit :=
  let '(m, r) := DeleteModel memberGroup (members s) (groupMemberKey group memberID) in (set_members m s, wrapExternal r).

Definition compareMember (left right : ConsumerGroupMember) : comparison :=
  String.compare (cgm_Group left) (cgm_Group right) <+> compareMemberID left right.

Definition listAllMembers (s : StorxMetadataStore) : result Code (list ConsumerGroupMember) :=
  entries ← wrapExternal (Walk (Repository (members s)));
  Ok (sort_func compareMember (sortTopics <$> entries.*2)).

(** The loop of [DeleteExpiredGroupMembers]; a failed deletion ends it. *)
Fixpoint deleteExpiredLoop (s : StorxMetadataStore) (nowMS : Z) (l : list ConsumerGroupMember) (deleted : Z)
    : StorxMetadataStore * result Code Z :=
  match l with
  | [] => (s, Ok deleted)
  | member :: l =>
      if ExpiredAt member nowMS
      then match DeleteGroupMember s (cgm_Group member) (cgm_MemberID member) with
           | (s, Err e) => (s, Err e)
           | (s, Ok _) => deleteExpiredLoop s nowMS l (deleted + 1)
           end
      else deleteExpiredLoop s nowMS l deleted
  end.

Definition DeleteExpiredGroupMembers (s : StorxMetadataStore) (nowMS : Z) : StorxMetadataStore * result Code Z :=
  match listAllMembers s with
  | Err e => (s, Err e)
  | Ok members => deleteExpiredLoop s nowMS members 0
  end.

Definition SaveGroupAssignment (s : StorxMetadataStore) (assignment : ConsumerGroupAssignment)
    : StorxMetadataStore * result Code unit :=
  if decide (cga_Group assignment = "") then (s, Err CodeInvalidArgument)
  else putIn assignments set_assignments s (cga_Group assignment) assignment.

Definition LoadGroupAssignment (s : StorxMetadataStore) (group : string) : result Code (option ConsumerGroupAssignment) :=
  wrapExternal (Get (assignments s) group).

Definition ListGroupAssignments (s : StorxMetadataStore) : result Code (list ConsumerGroupAssignment) :=
  entries ← wrapExternal (Walk (assignments s)); Ok (sort_func compareAssignmentGroup entries.*2).

Definition SaveBrokerState (s : StorxMetadataStore) (state : BrokerState) : StorxMetadataStore * result Code unit :=
  putIn brokerState set_brokerState s brokerStateKey state.

Definition LoadBrokerState (s : StorxMetadataStore) : result Code (option BrokerState) :=
  wrapExternal (Get (brokerState s) brokerStateKey).

(** ** Transactions *)

Definition transactionKey (txID : Z) : string := fmt_d txID.

Definition computeNextTransactionID (s : StorxMetadataStore) : result Code Z :=
  entries ← wrapExternal (Walk (transactions s));
  Ok (foldl (fun next state => if next <=? ts_TxID state then u64 (ts_TxID state + 1) else next) 1 entries.*2).

Definition loadNextTransactionID (s : StorxMetadataStore) : result Code Z :=
  next ← wrapExternal (Get (transactionCounters s) transactionCounterNext);
  match next with
  | Some next => if negb (next =? 0) then Ok next else computeNextTransactionID s
  | None => computeNextTransactionID s
  end.

Definition AllocateTransactionID (s : StorxMetadataStore) : StorxMetadataStore * result Code Z :=
  match loadNextTransactionID s with
  | Err e => (s, Err e)
  | Ok next =>
      let next := if next =? 0 then 1 else next in
      match putIn transactionCounters set_transactionCounters s transactionCounterNext (u64 (next + 1)) with
      | (s, Err e) => (s, Err e)
      | (s, Ok _) => (s, Ok next)
      end
  end.

Definition advanceNextTransactionID (s : StorxMetadataStore) (next : Z) : StorxMetadataStore * result Code unit :=
  match loadNextTransactionID s with
  | Err e => (s, Err e)
  | Ok current =>
      if next <=? current then (s, Ok tt)
      else putIn transactionCounters set_transactionCounters s transactionCounterNext next
  end.

Definition SaveTransaction (s : StorxMetadataStore) (state : TransactionState) : StorxMetadataStore * result Code unit :=
  if ts_TxID state =? 0 then (s, Err CodeInvalidArgument)
  else thenDo (putIn transactions set_transactions s (transactionKey (ts_TxID state)) state)
         (fun s => advanceNextTransactionID s (u64 (ts_TxID state + 1))).

Definition LoadTransaction (s : StorxMetadataStore) (txID : Z) : result Code (option TransactionState) :=
  wrapExternal (Get (transactions s) (transactionKey txID)).

Definition ListTransactions (s : StorxMetadataStore) : result Code (list TransactionState) :=
  entries ← wrapExternal (Walk (transactions s)); Ok (sort_func compareTxID entries.*2).

(** ** Producer batches, placements, policies and the dead-letter index *)

Definition SaveProducerBatch (s : StorxMetadataStore) (batch : ProducerPublishedBatch) : StorxMetadataStore * result Code unit :=
  match validateProducerBatch batch with
  | Err e => (s, Err e)
  | Ok _ => putIn producerBatches set_producerBatches s (producerBatchKey batch) batch
  end.

Definition ListProducerBatches (s : StorxMetadataStore) (f : ProducerBatchFilter) : result Code (list ProducerPublishedBatch) :=
  entries ← wrapExternal (Walk (producerBatches s));
  Ok (sortProducerPublishedBatches (filter (fun b => producerBatchMatchesFilter b f = true) entries.*2)).

Definition DeleteProducerBatch (s : StorxMetadataStore) (batch : ProducerPublishedBatch) : StorxMetadataStore * result Code unit :=
  deleteIn producerBatches set_producerBatches s (producerBatchKey batch).

Definition SaveShardPlacement (s : StorxMetadataStore) (placement : ShardPlacement) : StorxMetadataStore * result Code unit :=
  match validateShardPlacement placement with
  | Err e => (s, Err e)
  | Ok _ => putIn placements set_placements s (partitionKey (ShardPlacement_TopicPartition placement)) placement
  end.

Definition LoadShardPlacement (s : StorxMetadataStore) (tp : TopicPartition) : result Code (option ShardPlacement) :=
  wrapExternal (Get (placements s) (partitionKey tp)).

Definition ListShardPlacements (s : StorxMetadataStore) : result Code (list ShardPlacement) :=
  entries ← wrapExternal (Walk (placements s)); Ok (sortShardPlacements entries.*2).

Definition SaveACLPolicy (s : StorxMetadataStore) (policy : ACLPolicy) : StorxMetadataStore * result Code unit :=
  match validateACLPolicy policy with
  | Err e => (s, Err e)
  | Ok _ => putIn aclPolicies set_aclPolicies s (acl_PolicyID policy) policy
  end.

Definition LoadACLPolicy (s : StorxMetadataStore) (policyID : string) : result Code (option ACLPolicy) :=
  let policyID := TrimSpace policyID in
  if decide (policyID = "") then Err CodeInvalidArgument else wrapExternal (Get (aclPolicies s) policyID).

Definition ListACLPolicies (s : StorxMetadataStore) (f : ACLPolicyFilter) : result Code (list ACLPolicy) :=
  entries ← wrapExternal (Walk (aclPolicies s));
  Ok (sortACLPolicies (filter (fun p => aclPolicyMatchesFilter p f = true) entries.*2)).

Definition DeleteACLPolicy (s : StorxMetadataStore) (policyID : string) : StorxMetadataStore * result Code unit :=
  let policyID := TrimSpace policyID in
  if decide (policyID = "") then (s, Err CodeInvalidArgument) else deleteIn aclPolicies set_aclPolicies s policyID.

Definition SaveDLQIndex (s : StorxMetadataStore) (entry : DLQIndexEntry) : StorxMetadataStore * result Code unit :=
  match validateDLQIndexEntry entry with
  | Err e => (s, Err e)
  | Ok _ => putIn dlqIndexes set_dlqIndexes s
              (dlqIndexKey (dlq_DLQTopic entry) (dlq_DLQPartition entry) (dlq_DLQOffset entry)) entry
  end.

Definition LoadDLQIndex (s : StorxMetadataStore) (dlqTopic : string) (dlqPartition dlqOffset : Z)
    : result Code (option DLQIndexEntry) :=
  wrapExternal (Get (dlqIndexes s) (dlqIndexKey dlqTopic dlqPartition dlqOffset)).

Definition ListDLQIndexes (s : StorxMetadataStore) (f : DLQIndexFilter) : result Code (list DLQIndexEntry) :=
  entries ← wrapExternal (Walk (dlqIndexes s));
  Ok (sortDLQIndexes (filter (fun e => dlqIndexMatchesFilter e f = true) entries.*2)).

(** ** Opening ([storx_metadata_open.go])

    [db] is what [bboltx.Open] finds in the file. *)

Definition OpenStorxMetadataStore (path : string) (db : result unit StorxMetadataStore) : result Code StorxMetadataStore :=
  if decide (path = "") then Err CodeInvalidArgument
  else
    store ← wrapExternal db;
    let '(m, r) := RebuildIndexes memberGroup (members store) in
    _ ← wrapExternal r;
    Ok (set_members m store).

(** ** Snapshots ([storx_metadata_snapshot.go]) *)

Record storxSnapshotCatalog := mkCatalog {
  cat_topics : list TopicConfig;
  cat_offsets : gmap string Z;
  cat_offsetStates : list ConsumerOffsetState;
  cat_consumerPauses : list ConsumerPauseState;
  cat_placements : list ShardPlacement;
  cat_members : list ConsumerGroupMember;
  cat_assignments : list ConsumerGroupAssignment
}.

Record storxSnapshotRuntime := mkRuntime {
  run_state : option BrokerState;
  run_transactions : list TransactionState;
  run_producerBatches : list ProducerPublishedBatch;
  run_aclPolicies : list ACLPolicy;
  run_dlqIndexes : list DLQIndexEntry;
  run_nextTransactionID : Z
}.

Definition snapshotOffsets (s : StorxMetadataStore) : result Code (gmap string Z) :=
  entries ← wrapExternal (Walk (offsets s));
  Ok (foldl (fun out entry => <[entry.1 := entry.2]> out) ∅ entries).

Definition snapshotCatalogMetadata (s : StorxMetadataStore) : result Code storxSnapshotCatalog :=
  topics ← ListTopics s;
  members ← listAllMembers s;
  assignments ← ListGroupAssignments s;
  offsets ← snapshotOffsets s;
  offsetStates ← ListConsumerOffsetStates s;
  consumerPauses ← ListConsumerPauses s;
  placements ← ListShardPlacements s;
  Ok {| cat_topics := topics; cat_offsets := offsets; cat_offsetStates := offsetStates;
        cat_consumerPauses := consumerPauses; cat_placements := placements; cat_members := members;
        cat_assignments := assignments |}.

Definition snapshotRuntimeMetadata (s : StorxMetadataStore) : result Code storxSnapshotRuntime :=
  state ← LoadBrokerState s;
  transactions ← ListTransactions s;
  producerBatches ← ListProducerBatches s (mkProducerBatchFilter 0 "" 0 false 0 false);
  aclPolicies ← ListACLPolicies s (mkACLPolicyFilter "" "" "" "" "");
  dlqIndexes ← ListDLQIndexes s (mkDLQIndexFilter "" None None None None None None None None "" None);
  nextTransactionID ← loadNextTransactionID s;
  Ok {| run_state := state; run_transactions := transactions; run_producerBatches := producerBatches;
        run_aclPolicies := aclPolicies; run_dlqIndexes := dlqIndexes; run_nextTransactionID := nextTransactionID |}.

Definition buildStorxSnapshot (catalog : storxSnapshotCatalog) (runtime : storxSnapshotRuntime) : Snapshot := {|
  sn_Topics := cat_topics catalog;
  sn_Records := ∅;
  sn_LogOffsets := ∅;
  sn_Offsets := cat_offsets catalog;
  sn_OffsetStates := cat_offsetStates catalog;
  sn_ConsumerPauses := cat_consumerPauses catalog;
  sn_Placements := cat_placements catalog;
  sn_Members := cat_members catalog;
  sn_Assignments := cat_assignments catalog;
  sn_Transactions := run_transactions runtime;
  sn_ProducerBatches := run_producerBatches runtime;
  sn_ACLPolicies := run_aclPolicies runtime;
  sn_DLQIndexes := run_dlqIndexes runtime;
  sn_NextTransactionID := run_nextTransactionID runtime;
  sn_BrokerState := run_state runtime
|}.

Definition TakeSnapshot (s : StorxMetadataStore) : result Code Snapshot :=
  catalog ← snapshotCatalogMetadata s;
  runtime ← snapshotRuntimeMetadata s;
  Ok (buildStorxSnapshot catalog runtime).

(** ** Restoring ([storx_metadata_restore.go], [storx_metadata_clear.go]) *)

Definition Clear {V} (b : Bucket V) : Bucket V * result Code unit :=
  match wrapExternal (Keys b) with
  | Err e => (b, Err e)
  | Ok keys => let '(b, r) := DeleteMany b keys in (b, wrapExternal r)
  end.

Definition clearIn {V} (field : StorxMetadataStore -> Bucket V) (set : Bucket V -> StorxMetadataStore -> StorxMetadataStore)
    (s : StorxMetadataStore) : StorxMetadataStore * result Code unit :=
  let '(b, r) := Clear (field s) in (set b s, r).

(** The steps of a list of functions, up to the first error. *)
Fixpoint runSteps (steps : list (StorxMetadataStore -> StorxMetadataStore * result Code unit)) (s : StorxMetadataStore)
    : StorxMetadataStore * result Code unit :=
  match steps with
  | [] => (s, Ok tt)
  | step :: steps => thenDo (step s) (runSteps steps)
  end.

Definition clearMetadataBuckets (s : StorxMetadataStore) : StorxMetadataStore * result Code unit :=
  thenDo (runSteps [
    clearIn topics set_topics;
    clearIn offsets set_offsets;
    clearIn offsetStates set_offsetStates;
    clearIn consumerPauses set_consumerPauses;
    clearIn (fun s => Repository (members s)) (fun b s => set_members (set_Repository b (members s)) s);
    clearIn assignments set_assignments;
    clearIn brokerState set_brokerState;
    clearIn placements set_placements;
    clearIn transactions set_transactions;
    clearIn transactionCounters set_transactionCounters;
    clearIn producerBatches set_producerBatches;
    clearIn aclPolicies set_aclPolicies;
    clearIn dlqIndexes set_dlqIndexes] s)
    (fun s => let '(m, r) := RebuildIndexes memberGroup (members s) in (set_members m s, wrapExternal r)).

Definition restoreMetadataTopics (l : list TopicConfig) : StorxMetadataStore -> StorxMetadataStore * result Code unit :=
  runSteps ((fun topic s => SaveTopicConfig s topic) <$> l).

Definition restoreMetadataOffsetStates `{MapRange} (snapshot : Snapshot) (s : StorxMetadataStore)
    : StorxMetadataStore * result Code unit :=
  let states := values (Mem.restoreMemoryOffsetStates (sn_OffsetStates snapshot) (sn_Offsets snapshot)) in
  putManyIn offsetStates set_offsetStates s
    ((fun state => (offsetKey (cos_Consumer state) (ConsumerOffsetState_TopicPartition state), state)) <$>
       filter (fun state => Mem.isOk (validateConsumerOffsetState state) = true) states).

Definition restoreMetadataOffsets `{MapRange} (snapshot : Snapshot) (s : StorxMetadataStore)
    : StorxMetadataStore * result Code unit :=
  thenDo (putManyIn offsets set_offsets s (range (sn_Offsets snapshot))) (restoreMetadataOffsetStates snapshot).

Definition restoreMetadataConsumerPauses (pauses : list ConsumerPauseState)
    : StorxMetadataStore -> StorxMetadataStore * result Code unit :=
  runSteps ((fun state s => if negb (cps_Paused state) then (s, Ok tt) else SaveConsumerPause s state) <$> pauses).

Definition restoreMetadataShardPlacements (l : list ShardPlacement) (s : StorxMetadataStore)
    : StorxMetadataStore * result Code unit :=
  putManyIn placements set_placements s
    ((fun placement => (partitionKey (ShardPlacement_TopicPartition placement), placement)) <$>
       filter (fun placement => Mem.isOk (validateShardPlacement placement) = true) l).

Definition restoreMetadataMembers (l : list ConsumerGroupMember) : StorxMetadataStore -> StorxMetadataStore * result Code unit :=
  runSteps ((fun member s => SaveGroupMember s member) <$> l).

Definition restoreMetadataAssignments (l : list ConsumerGroupAssignment)
    : StorxMetadataStore -> StorxMetadataStore * result Code unit :=
  runSteps ((fun assignment s => SaveGroupAssignment s assignment) <$> l).

Definition restoreMetadataTransactions (snapshot : Snapshot) (s : StorxMetadataStore)
    : StorxMetadataStore * result Code unit :=
  thenDo (putManyIn transactions set_transactions s
            ((fun state => (transactionKey (ts_TxID state), state)) <$>
               filter (fun state => negb (ts_TxID state =? 0) = true) (sn_Transactions snapshot)))
    (fun s =>
       match (if sn_NextTransactionID snapshot =? 0 then computeNextTransactionID s else Ok (sn_NextTransactionID snapshot)) with
       | Err e => (s, Err e)
       | Ok next => putIn transactionCounters set_transactionCounters s transactionCounterNext next
       end).

Definition restoreMetadataProducerBatches (l : list ProducerPublishedBatch) (s : StorxMetadataStore)
    : StorxMetadataStore * result Code unit :=
  putManyIn producerBatches set_producerBatches s
    ((fun batch => (producerBatchKey batch, batch)) <$> filter (fun batch => Mem.isOk (validateProducerBatch batch) = true) l).

Definition restoreMetadataACLPolicies (l : list ACLPolicy) (s : StorxMetadataStore) : StorxMetadataStore * result Code unit :=
  putManyIn aclPolicies set_aclPolicies s
    ((fun policy => (acl_PolicyID policy, policy)) <$> filter (fun policy => Mem.isOk (validateACLPolicy policy) = true) l).

Definition restoreMetadataDLQIndexes (l : list DLQIndexEntry) (s : StorxMetadataStore) : StorxMetadataStore * result Code unit :=
  putManyIn dlqIndexes set_dlqIndexes s
    ((fun entry => (dlqIndexKey (dlq_DLQTopic entry) (dlq_DLQPartition entry) (dlq_DLQOffset entry), entry)) <$>
       filter (fun entry => Mem.isOk (validateDLQIndexEntry entry) = true) l).

Definition restoreMetadataBrokerState (state : option BrokerState) (s : StorxMetadataStore)
    : StorxMetadataStore * result Code unit :=
  match state with None => (s, Ok tt) | Some state => SaveBrokerState s state end.

Definition restoreMetadataSteps `{MapRange} (snapshot : Snapshot)
    : list (StorxMetadataStore -> StorxMetadataStore * result Code unit) := [
  clearMetadataBuckets;
  restoreMetadataTopics (sn_Topics snapshot);
  restoreMetadataOffsets snapshot;
  restoreMetadataConsumerPauses (sn_ConsumerPauses snapshot);
  restoreMetadataShardPlacements (sn_Placements snapshot);
  restoreMetadataMembers (sn_Members snapshot);
  restoreMetadataAssignments (sn_Assignments snapshot);
  restoreMetadataTransactions snapshot;
  restoreMetadataProducerBatches (sn_ProducerBatches snapshot);
  restoreMetadataACLPolicies (sn_ACLPolicies snapshot);
  restoreMetadataDLQIndexes (sn_DLQIndexes snapshot);
  restoreMetadataBrokerState (sn_BrokerState snapshot)].

Definition Restore `{MapRange} (s : StorxMetadataStore) (snapshot : Snapshot) : StorxMetadataStore * result Code unit :=
  runSteps (restoreMetadataSteps snapshot) s.

End Store.

End StorxMeta.
