(* ===== verification/StorxMetaSpec.v ===== *)
(** * The metadata store on disk refines the one in memory

    The metadata interface as a type of operations ([metaOp]), run on
    [StorxMetadataStore] and on [MemoryStore].  [sim] relates the two states:
    the buckets hold the maps of the in-memory store, placements and
    transactions under the text of their keys.  Every operation on disk either
    reports that the storage is unavailable, or answers as the in-memory store
    does and keeps [sim]. *)

From stdpp Require Import prelude gmap strings sorting list pretty.
From S2P Require Import Prelude GoStrings Model MemoryStore LogSpec MetaStore MetaSpec Idempotency Governance GovernanceSpec SegmentLog Snapshot SnapshotSpec StorxMeta.

#[local] Open Scope Z_scope.

(** ** The interface *)

Inductive metaOp : Type -> Type :=
| OpSaveTopicConfig (topic : TopicConfig) : metaOp unit
| OpLoadTopicConfig (topic : string) : metaOp (option TopicConfig)
| OpListTopics : metaOp (list TopicConfig)
| OpSaveConsumerOffsetState (state : ConsumerOffsetState) : metaOp unit
| OpLoadConsumerOffset (consumer : string) (tp : TopicPartition) : metaOp (option Z)
| OpLoadConsumerOffsetState (consumer : string) (tp : TopicPartition) : metaOp (option ConsumerOffsetState)
| OpListConsumerOffsetStates : metaOp (list ConsumerOffsetState)
| OpDeleteConsumerOffsetState (consumer : string) (tp : TopicPartition) : metaOp unit
| OpSaveConsumerPause (state : ConsumerPauseState) : metaOp unit
| OpLoadConsumerPause (consumer : string) (tp : TopicPartition) : metaOp (option ConsumerPauseState)
| OpListConsumerPauses : metaOp (list ConsumerPauseState)
| OpDeleteConsumerPause (consumer : string) (tp : TopicPartition) : metaOp unit
| OpSaveGroupMember (member : ConsumerGroupMember) : metaOp unit
| OpLoadGroupMember (group memberID : string) : metaOp (option ConsumerGroupMember)
| OpListGroupMembers (group : string) : metaOp (list ConsumerGroupMember)
| OpDeleteGroupMember (group memberID : string) : metaOp unit
| OpDeleteExpiredGroupMembers (nowMS : Z) : metaOp Z
| OpSaveGroupAssignment (assignment : ConsumerGroupAssignment) : metaOp unit
| OpLoadGroupAssignment (group : string) : metaOp (option ConsumerGroupAssignment)
| OpListGroupAssignments : metaOp (list ConsumerGroupAssignment)
| OpSaveBrokerState (state : BrokerState) : metaOp unit
| OpLoadBrokerState : metaOp (option BrokerState)
| OpAllocateTransactionID : metaOp Z
| OpSaveTransaction (state : TransactionState) : metaOp unit
| OpLoadTransaction (txID : Z) : metaOp (option TransactionState)
| OpListTransactions : metaOp (list TransactionState)
| OpSaveProducerBatch (batch : ProducerPublishedBatch) : metaOp unit
| OpListProducerBatches (f : ProducerBatchFilter) : metaOp (list ProducerPublishedBatch)
| OpDeleteProducerBatch (batch : ProducerPublishedBatch) : metaOp unit
| OpSaveShardPlacement (placement : ShardPlacement) : metaOp unit
| OpLoadShardPlacement (tp : TopicPartition) : metaOp (option ShardPlacement)
| OpListShardPlacements : metaOp (list ShardPlacement)
| OpSaveACLPolicy (policy : ACLPolicy) : metaOp unit
| OpLoadACLPolicy (policyID : string) : metaOp (option ACLPolicy)
| OpListACLPolicies (f : ACLPolicyFilter) : metaOp (list ACLPolicy)
| OpDeleteACLPolicy (policyID : string) : metaOp unit
| OpSaveDLQIndex (entry : DLQIndexEntry) : metaOp unit
| OpLoadDLQIndex (dlqTopic : string) (dlqPartition dlqOffset : Z) : metaOp (option DLQIndexEntry)
| OpListDLQIndexes (f : DLQIndexFilter) : metaOp (list DLQIndexEntry).

Section Refinement.
Context `{Bbolt} `{MapRange}.
Abbreviation Disk := StorxMeta.StorxMetadataStore.

Definition execDisk {A} (s : Disk) (op : metaOp A) : Disk * result Code A :=
  match op with
  | OpSaveTopicConfig topic => StorxMeta.SaveTopicConfig s topic
  | OpLoadTopicConfig topic => (s, StorxMeta.LoadTopicConfig s topic)
  | OpListTopics => (s, StorxMeta.ListTopics s)
  | OpSaveConsumerOffsetState state => StorxMeta.SaveConsumerOffsetState s state
  | OpLoadConsumerOffset consumer tp => (s, StorxMeta.LoadConsumerOffset s consumer tp)
  | OpLoadConsumerOffsetState consumer tp => (s, StorxMeta.LoadConsumerOffsetState s consumer tp)
  | OpListConsumerOffsetStates => (s, StorxMeta.ListConsumerOffsetStates s)
  | OpDeleteConsumerOffsetState consumer tp => StorxMeta.DeleteConsumerOffsetState s consumer tp
  | OpSaveConsumerPause state => StorxMeta.SaveConsumerPause s state
  | OpLoadConsumerPause consumer tp => (s, StorxMeta.LoadConsumerPause s consumer tp)
  | OpListConsumerPauses => (s, StorxMeta.ListConsumerPauses s)
  | OpDeleteConsumerPause consumer tp => StorxMeta.DeleteConsumerPause s consumer tp
  | OpSaveGroupMember member => StorxMeta.SaveGroupMember s member
  | OpLoadGroupMember group memberID => (s, StorxMeta.LoadGroupMember s group memberID)
  | OpListGroupMembers group => (s, StorxMeta.ListGroupMembers s group)
  | OpDeleteGroupMember group memberID => StorxMeta.DeleteGroupMember s group memberID
  | OpDeleteExpiredGroupMembers nowMS => StorxMeta.DeleteExpiredGroupMembers s nowMS
  | OpSaveGroupAssignment assignment => StorxMeta.SaveGroupAssignment s assignment
  | OpLoadGroupAssignment group => (s, StorxMeta.LoadGroupAssignment s group)
  | OpListGroupAssignments => (s, StorxMeta.ListGroupAssignments s)
  | OpSaveBrokerState state => StorxMeta.SaveBrokerState s state
  | OpLoadBrokerState => (s, StorxMeta.LoadBrokerState s)
  | OpAllocateTransactionID => StorxMeta.AllocateTransactionID s
  | OpSaveTransaction state => StorxMeta.SaveTransaction s state
  | OpLoadTransaction txID => (s, StorxMeta.LoadTransaction s txID)
  | OpListTransactions => (s, StorxMeta.ListTransactions s)
  | OpSaveProducerBatch batch => StorxMeta.SaveProducerBatch s batch
  | OpListProducerBatches f => (s, StorxMeta.ListProducerBatches s f)
  | OpDeleteProducerBatch batch => StorxMeta.DeleteProducerBatch s batch
  | OpSaveShardPlacement placement => StorxMeta.SaveShardPlacement s placement
  | OpLoadShardPlacement tp => (s, StorxMeta.LoadShardPlacement s tp)
  | OpListShardPlacements => (s, StorxMeta.ListShardPlacements s)
  | OpSaveACLPolicy policy => StorxMeta.SaveACLPolicy s policy
  | OpLoadACLPolicy policyID => (s, StorxMeta.LoadACLPolicy s policyID)
  | OpListACLPolicies f => (s, StorxMeta.ListACLPolicies s f)
  | OpDeleteACLPolicy policyID => StorxMeta.DeleteACLPolicy s policyID
  | OpSaveDLQIndex entry => StorxMeta.SaveDLQIndex s entry
  | OpLoadDLQIndex t p o => (s, StorxMeta.LoadDLQIndex s t p o)
  | OpListDLQIndexes f => (s, StorxMeta.ListDLQIndexes s f)
  end.

Definition execMem {A} (s : MemoryStore) (op : metaOp A) : MemoryStore * result Code A :=
  match op with
  | OpSaveTopicConfig topic => SaveTopicConfig s topic
  | OpLoadTopicConfig topic => (s, LoadTopicConfig s topic)
  | OpListTopics => (s, ListTopics s)
  | OpSaveConsumerOffsetState state => SaveConsumerOffsetState s state
  | OpLoadConsumerOffset consumer tp => (s, LoadConsumerOffset s consumer tp)
  | OpLoadConsumerOffsetState consumer tp => (s, LoadConsumerOffsetState s consumer tp)
  | OpListConsumerOffsetStates => (s, ListConsumerOffsetStates s)
  | OpDeleteConsumerOffsetState consumer tp => DeleteConsumerOffsetState s consumer tp
  | OpSaveConsumerPause state => SaveConsumerPause s state
  | OpLoadConsumerPause consumer tp => (s, LoadConsumerPause s consumer tp)
  | OpListConsumerPauses => (s, ListConsumerPauses s)
  | OpDeleteConsumerPause consumer tp => DeleteConsumerPause s consumer tp
  | OpSaveGroupMember member => SaveGroupMember s member
  | OpLoadGroupMember group memberID => (s, LoadGroupMember s group memberID)
  | OpListGroupMembers group => (s, ListGroupMembers s group)
  | OpDeleteGroupMember group memberID => DeleteGroupMember s group memberID
  | OpDeleteExpiredGroupMembers nowMS => DeleteExpiredGroupMembers s nowMS
  | OpSaveGroupAssignment assignment => SaveGroupAssignment s assignment
  | OpLoadGroupAssignment group => (s, LoadGroupAssignment s group)
  | OpListGroupAssignments => (s, ListGroupAssignments s)
  | OpSaveBrokerState state => SaveBrokerState s state
  | OpLoadBrokerState => (s, LoadBrokerState s)
  | OpAllocateTransactionID => AllocateTransactionID s
  | OpSaveTransaction state => SaveTransaction s state
  | OpLoadTransaction txID => (s, LoadTransaction s txID)
  | OpListTransactions => (s, ListTransactions s)
  | OpSaveProducerBatch batch => SaveProducerBatch s batch
  | OpListProducerBatches f => (s, ListProducerBatches s f)
  | OpDeleteProducerBatch batch => DeleteProducerBatch s batch
  | OpSaveShardPlacement placement => SaveShardPlacement s placement
  | OpLoadShardPlacement tp => (s, LoadShardPlacement s tp)
  | OpListShardPlacements => (s, ListShardPlacements s)
  | OpSaveACLPolicy policy => SaveACLPolicy s policy
  | OpLoadACLPolicy policyID => (s, LoadACLPolicy s policyID)
  | OpListACLPolicies f => (s, ListACLPolicies s f)
  | OpDeleteACLPolicy policyID => DeleteACLPolicy s policyID
  | OpSaveDLQIndex entry => SaveDLQIndex s entry
  | OpLoadDLQIndex t p o => (s, LoadDLQIndex s t p o)
  | OpListDLQIndexes f => (s, ListDLQIndexes s f)
  end.

(** The same answer; [ListTopics] promises no order. *)
Definition agrees {A} (op : metaOp A) : result Code A -> result Code A -> Prop :=
  match op in metaOp A return result Code A -> result Code A -> Prop with
  | OpListTopics => fun r r' => match r, r' with Ok l, Ok l' => l ≡ₚ l' | _, _ => r = r' end
  | _ => eq
  end.

(** What is asked of the arguments: stored values survive the codec, partition
    names have no NUL byte and integers are in range. *)
Definition op_ok {A} (op : metaOp A) : Prop :=
  match op with
  | OpSaveTopicConfig topic => storable (normalizeTopic topic)
  | OpSaveConsumerOffsetState state =>
      storable (NormalizeConsumerOffsetState state) /\ storable (cos_NextOffset state)
  | OpSaveConsumerPause state => storable state
  | OpSaveGroupMember member => storable (StorxMeta.sortTopics member)
  | OpSaveGroupAssignment assignment => storable assignment
  | OpSaveBrokerState state => storable state
  | OpAllocateTransactionID => forall z : Z, storable z
  | OpSaveTransaction state => storable state /\ is_u64 (ts_TxID state) /\ forall z : Z, storable z
  | OpSaveProducerBatch batch => storable batch
  | OpSaveShardPlacement placement => storable placement /\ nameable (ShardPlacement_TopicPartition placement)
  | OpLoadShardPlacement tp => nameable tp
  | OpSaveACLPolicy policy => storable policy
  | OpSaveDLQIndex entry => storable entry
  | _ => True
  end.

(** ** The relation between the two states *)

(** [M] is [m] with its keys written as text. *)
Definition key_image {K V} `{Countable K} (f : K -> string) (m : gmap K V) (M : gmap string V) : Prop :=
  forall k v, M !! k = Some v <-> exists id, k = f id /\ m !! id = Some v.

Section KeyImage.
Context {K V : Type} `{Countable K} (f : K -> string) (m : gmap K V) (M : gmap string V).
Hypothesis Himg : key_image f m M.

Lemma key_image_lookup id : (forall id', is_Some (m !! id') -> f id' = f id -> id' = id) -> M !! f id = m !! id.
Proof using Himg.
  intros Hinj. destruct (m !! id) as [v|] eqn:E.
  - apply Himg. by exists id.
  - destruct (M !! f id) as [v|] eqn:E'; [|done]. apply Himg in E' as (id' & Ef & E').
    assert (id' = id) as -> by (apply Hinj; [by rewrite E'|done]). congruence.
Qed.

Lemma key_image_insert id v : (forall id', is_Some (m !! id') -> f id' = f id -> id' = id) ->
  key_image f (<[id := v]> m) (<[f id := v]> M).
Proof using Himg.
  intros Hinj k v'. rewrite lookup_insert_Some. split.
  - intros [[<- <-]|[Hne (id' & -> & Hid)%Himg]]; [exists id; by rewrite lookup_insert_eq|].
    exists id'. split; [done|]. rewrite lookup_insert_ne; [done|]. by intros ->.
  - intros (id' & -> & [[<- <-]|[Hne Hid]]%lookup_insert_Some); [by left|]. right. split.
    + intros E. apply Hne. symmetry. apply Hinj; [by rewrite Hid|done].
    + apply Himg. by exists id'.
Qed.

Lemma key_image_values `{MapRange} :
  (forall id id', is_Some (m !! id) -> is_Some (m !! id') -> f id = f id' -> id = id') ->
  (map_to_list M).*2 ≡ₚ values m.
Proof using Himg.
  intros Hinj. rewrite values_perm.
  assert (map_to_list M ≡ₚ (prod_map f id <$> map_to_list m)) as ->.
  { apply NoDup_Permutation; [apply NoDup_map_to_list|..].
    - apply NoDup_fmap_2_strong; [|apply NoDup_map_to_list]. intros [i1 v1] [i2 v2] Hi1 Hi2 [= Ef ->].
      apply elem_of_map_to_list in Hi1, Hi2. by rewrite (Hinj i1 i2) by (by eexists || done).
    - intros [k v]. rewrite elem_of_map_to_list, (Himg k v), list_elem_of_fmap. split.
      + intros (i & -> & Hi). exists (i, v). split; [done|]. by apply elem_of_map_to_list.
      + intros ([i v'] & [= -> ->] & Hi). exists i. split; [done|]. by apply elem_of_map_to_list. }
  rewrite <- list_fmap_compose. by apply Permutation_refl'.
Qed.

End KeyImage.

(** The transaction counter, or what it is recomputed from. *)
Definition counter_ok (s : Disk) (m : MemoryStore) : Prop :=
  match contents (StorxMeta.transactionCounters s) !! StorxMeta.transactionCounterNext with
  | Some next => next = nextTxID m
  | None => nextTxID m = 1 \/ exists k st, transactions m !! k = Some st /\ nextTxID m = ts_TxID st + 1
  end.

Record sim (s : Disk) (m : MemoryStore) : Prop := {
  sim_topics : contents (StorxMeta.topics s) = topics m;
  sim_offsets : contents (StorxMeta.offsets s) = offsets m;
  sim_offsetStates : contents (StorxMeta.offsetStates s) = offsetStates m;
  sim_consumerPauses : contents (StorxMeta.consumerPauses s) = consumerPauses m;
  sim_members : contents (Repository (StorxMeta.members s)) = members m;
  sim_indexed : indexed StorxMeta.memberGroup (StorxMeta.members s);
  sim_assignments : contents (StorxMeta.assignments s) = assignments m;
  sim_brokerState : contents (StorxMeta.brokerState s) !! StorxMeta.brokerStateKey = brokerState m;
  sim_placements : key_image StorxLog.partitionKey (placements m) (contents (StorxMeta.placements s));
  sim_nameable : forall tp, is_Some (placements m !! tp) -> nameable tp;
  sim_transactions : key_image StorxMeta.transactionKey (transactions m) (contents (StorxMeta.transactions s));
  sim_counter : counter_ok s m;
  sim_producerBatches : contents (StorxMeta.producerBatches s) = producerBatches m;
  sim_aclPolicies : contents (StorxMeta.aclPolicies s) = aclPolicies m;
  sim_dlqIndexes : contents (StorxMeta.dlqIndexes s) = dlqIndexes m
}.

(** ** One call of the package *)

Lemma get_cases {V} (b : Bucket V) k :
  StorxMeta.wrapExternal (Get b k) = Ok (contents b !! k) \/ StorxMeta.wrapExternal (Get b k) = Err CodeUnavailable.
Proof. destruct (Get b k) as [o|] eqn:E; [left|by right]. apply Get_spec in E as ->. done. Qed.

Lemma walk_cases {V} (b : Bucket V) :
  (exists l, StorxMeta.wrapExternal (Walk b) = Ok l /\ l.*2 ≡ₚ (map_to_list (contents b)).*2) \/
  StorxMeta.wrapExternal (Walk b) = Err CodeUnavailable.
Proof.
  destruct (Walk b) as [l|] eqn:E; [left|by right]. exists l. split; [done|]. by rewrite (Walk_spec _ _ E).
Qed.

Lemma put_cases {V} (field : Disk -> Bucket V) set s k v : storable v ->
  (exists b, StorxMeta.putIn field set s k v = (set b s, Ok tt) /\ contents b = <[k := v]> (contents (field s))) \/
  (StorxMeta.putIn field set s k v).2 = Err CodeUnavailable.
Proof.
  intros Hv. unfold StorxMeta.putIn. pose proof (Put_spec (field s) k v Hv) as Hp.
  destruct (Put (field s) k v) as [b [[]|]]; [left; by exists b|by right].
Qed.

Lemma delete_cases {V} (field : Disk -> Bucket V) set s k :
  (exists b, StorxMeta.deleteIn field set s k = (set b s, Ok tt) /\ contents b = delete k (contents (field s))) \/
  (StorxMeta.deleteIn field set s k).2 = Err CodeUnavailable.
Proof.
  unfold StorxMeta.deleteIn. pose proof (Delete_spec (field s) k) as Hp.
  destruct (Delete (field s) k) as [b [[]|]]; [left; by exists b|by right].
Qed.

Lemma thenDo_err p f e : p.2 = Err e -> (StorxMeta.thenDo p f).2 = Err e.
Proof. destruct p as [s r]. simpl. by intros ->. Qed.

(** ** Listings *)

Lemma listing_filter {K V} `{Countable K} (m : gmap K V) (key : V -> K) (P : V -> Prop) `{forall v, Decision (P v)}
    (cmp : V -> V -> comparison) `{!CmpOrder cmp} (l : list V) :
  keyed key m -> (forall v1 v2, P v1 -> P v2 -> cmp v1 v2 = Eq -> key v1 = key v2) -> l ≡ₚ values m ->
  sort_func cmp (filter P l) = sort_func cmp (filter P (values m)).
Proof.
  intros Hk Hc Hl. pose proof (listing_perm m key P id cmp l Hk Hc Hl) as E. by rewrite !list_fmap_id in E.
Qed.

Lemma listing_all {K V} `{Countable K} (m : gmap K V) (key : V -> K) (cmp : V -> V -> comparison) `{!CmpOrder cmp} (l : list V) :
  keyed key m -> (forall v1 v2, cmp v1 v2 = Eq -> key v1 = key v2) -> l ≡ₚ values m ->
  sort_func cmp l = sort_func cmp (values m).
Proof.
  intros Hk Hc Hl. pose proof (listing_filter m key (fun _ => True) cmp l Hk (fun v1 v2 _ _ => Hc v1 v2) Hl) as E.
  by rewrite !filter_all in E by (by apply Forall_forall).
Qed.

(** ** Every operation *)

Definition step_ok {A} (s : Disk) (m : MemoryStore) (op : metaOp A) : Prop :=
  agrees op (execDisk s op).2 (execMem m op).2 /\ sim (execDisk s op).1 (execMem m op).1 \/
  (execDisk s op).2 = Err CodeUnavailable.

Section Step.
Context (s : Disk) (m : MemoryStore).
Hypothesis Hsim : sim s m.
Hypothesis Hinv : mem_inv m.

Let Hmeta : meta_inv m := proj2 (proj1 Hinv).
Let Hsnap : snap_inv m := proj1 (proj2 Hinv).

(** The answer of a read of one bucket. *)
Lemma read_ok {A} (op : metaOp A) :
  (execDisk s op).1 = s -> (execMem m op).1 = m ->
  agrees op (execDisk s op).2 (execMem m op).2 \/ (execDisk s op).2 = Err CodeUnavailable -> step_ok s m op.
Proof using Hsim. intros Es Em [Ha|He]; [left|by right]. split; [done|]. by rewrite Es, Em. Qed.

Lemma loads_ok :
  (forall topic, step_ok s m (OpLoadTopicConfig topic)) /\
  (forall consumer tp, step_ok s m (OpLoadConsumerPause consumer tp)) /\
  (forall group, step_ok s m (OpLoadGroupAssignment group)) /\
  step_ok s m OpLoadBrokerState /\
  (forall t p o, step_ok s m (OpLoadDLQIndex t p o)).
Proof using Hsim.
  destruct Hsim as [S1 S2 S3 S4 S5 S6 S7 S8 S9 S10 S11 S12 S13 S14 S15].
  split_and!; intros; apply read_ok; try done; cbn [execDisk execMem snd agrees];
    unfold StorxMeta.LoadTopicConfig, StorxMeta.LoadConsumerPause, StorxMeta.LoadGroupAssignment, StorxMeta.LoadBrokerState, StorxMeta.LoadDLQIndex;
    match goal with |- context [StorxMeta.wrapExternal (Get ?b ?k)] => destruct (get_cases b k) as [E|E] end;
    rewrite E; first [by right|left; by rewrite ?S1, ?S4, ?S7, ?S8, ?S15].
Qed.

(** A listing of one bucket. *)
Ltac listing :=
  match goal with |- context [StorxMeta.wrapExternal (Walk ?b)] =>
    destruct (walk_cases b) as [(l & E & Hl)|E]; rewrite E; [left|by right] end; cbn [mbind result_bind].

(** Entries that compare equal have the same key. *)
Ltac same_key :=
  intros v1 v2; intros; unfold compareConsumerOffsetState, compareConsumerPauseState, compareAssignmentGroup, compareTxID,
    compareProducerPublishedBatch, compareDLQIndex, compareACLPolicy, compareMemberID, compareShardPlacement in *; cmp_eq_inv;
  unfold consumerPauseKey, offsetKey, groupMemberKey, producerBatchKey, dlqIndexKey, ShardPlacement_TopicPartition; simpl in *; congruence.

Lemma lists_ok :
  step_ok s m OpListTopics /\ step_ok s m OpListConsumerOffsetStates /\ step_ok s m OpListConsumerPauses /\
  step_ok s m OpListGroupAssignments /\ (forall f, step_ok s m (OpListProducerBatches f)) /\
  (forall f, step_ok s m (OpListACLPolicies f)) /\ (forall f, step_ok s m (OpListDLQIndexes f)).
Proof using Hsim Hinv.
  destruct Hsim as [S1 S2 S3 S4 S5 S6 S7 S8 S9 S10 S11 S12 S13 S14 S15].
  split_and!; intros; apply read_ok; try done; cbn [execDisk execMem snd agrees];
    unfold StorxMeta.ListTopics, StorxMeta.ListConsumerOffsetStates, StorxMeta.ListConsumerPauses, StorxMeta.ListGroupAssignments,
      StorxMeta.ListProducerBatches, StorxMeta.ListACLPolicies, StorxMeta.ListDLQIndexes; listing; rewrite ?S1, ?S3, ?S4, ?S7, ?S13, ?S14, ?S15 in Hl.
  - unfold ListTopics. rewrite sort_func_perm, Hl. by rewrite values_perm.
  - unfold ListConsumerOffsetStates. f_equal. apply (listing_all _ _ compareConsumerOffsetState _ (mi_offsets m Hmeta)); [same_key|].
    by rewrite values_perm.
  - unfold ListConsumerPauses. f_equal. apply (listing_all _ _ compareConsumerPauseState _ (mi_pauses m Hmeta)); [same_key|].
    by rewrite values_perm.
  - unfold ListGroupAssignments. f_equal. apply (listing_all _ _ compareAssignmentGroup _ (mi_assignments m Hmeta)); [same_key|].
    by rewrite values_perm.
  - unfold ListProducerBatches. f_equal. apply (listing_filter _ _ _ compareProducerPublishedBatch _ (mi_batches m Hmeta)); [same_key|].
    by rewrite values_perm.
  - unfold ListACLPolicies. f_equal. apply (listing_filter _ _ _ compareACLPolicy _ (sv_policy_keys m Hsnap)); [same_key|].
    by rewrite values_perm.
  - unfold ListDLQIndexes. f_equal. apply (listing_filter _ _ _ compareDLQIndex _ (mi_dlq m Hmeta)); [same_key|].
    by rewrite values_perm.
Qed.

(** One call that changes a bucket. *)
Ltac put_once Hv :=
  match goal with |- context [StorxMeta.putIn ?field ?set s ?k ?v] =>
    destruct (put_cases field set s k v Hv) as [(b & E & Hb)|E]; [left; rewrite E|by right] end.
Ltac delete_once :=
  match goal with |- context [StorxMeta.deleteIn ?field ?set s ?k] =>
    destruct (delete_cases field set s k) as [(b & E & Hb)|E]; [left; rewrite E|by right] end.
Ltac new_sim Hb := destruct Hsim; split; cbn; try done; rewrite Hb; congruence.

Lemma refused_ok {A} (op : metaOp A) e :
  execDisk s op = (s, Err e) -> execMem m op = (m, Err e) -> agrees op (Err e) (Err e) -> step_ok s m op.
Proof using Hsim. intros Es Em Ha. left. by rewrite Es, Em. Qed.

Lemma saves_ok :
  (forall state, op_ok (OpSaveConsumerPause state) -> step_ok s m (OpSaveConsumerPause state)) /\
  (forall assignment, op_ok (OpSaveGroupAssignment assignment) -> step_ok s m (OpSaveGroupAssignment assignment)) /\
  (forall state, op_ok (OpSaveBrokerState state) -> step_ok s m (OpSaveBrokerState state)) /\
  (forall batch, op_ok (OpSaveProducerBatch batch) -> step_ok s m (OpSaveProducerBatch batch)) /\
  (forall policy, op_ok (OpSaveACLPolicy policy) -> step_ok s m (OpSaveACLPolicy policy)) /\
  (forall entry, op_ok (OpSaveDLQIndex entry) -> step_ok s m (OpSaveDLQIndex entry)).
Proof using Hsim.
  split_and!; intros x Hv; unfold step_ok; cbn [execDisk execMem agrees op_ok] in *.
  - unfold StorxMeta.SaveConsumerPause, SaveConsumerPause. destruct (validateConsumerPauseState x) as [[]|]; [|by left].
    put_once Hv. split; [done|]. new_sim Hb.
  - unfold StorxMeta.SaveGroupAssignment, SaveGroupAssignment. case_decide; [by left|].
    put_once Hv. split; [done|]. new_sim Hb.
  - unfold StorxMeta.SaveBrokerState, SaveBrokerState. put_once Hv. split; [done|].
    destruct Hsim. split; cbn; try done. by rewrite Hb, lookup_insert_eq.
  - unfold StorxMeta.SaveProducerBatch, SaveProducerBatch. destruct (validateProducerBatch x) as [[]|]; [|by left].
    put_once Hv. split; [done|]. new_sim Hb.
  - unfold StorxMeta.SaveACLPolicy, SaveACLPolicy. destruct (validateACLPolicy x) as [[]|]; [|by left].
    put_once Hv. split; [done|]. new_sim Hb.
  - unfold StorxMeta.SaveDLQIndex, SaveDLQIndex. destruct (validateDLQIndexEntry x) as [[]|]; [|by left].
    put_once Hv. split; [done|]. new_sim Hb.
Qed.

Lemma deletes_ok :
  (forall consumer tp, step_ok s m (OpDeleteConsumerPause consumer tp)) /\
  (forall batch, step_ok s m (OpDeleteProducerBatch batch)) /\
  (forall policyID, step_ok s m (OpDeleteACLPolicy policyID)).
Proof using Hsim.
  split_and!; intros; unfold step_ok; cbn [execDisk execMem agrees].
  - unfold StorxMeta.DeleteConsumerPause, DeleteConsumerPause. delete_once. split; [done|]. new_sim Hb.
  - unfold StorxMeta.DeleteProducerBatch, DeleteProducerBatch. delete_once. split; [done|]. new_sim Hb.
  - unfold StorxMeta.DeleteACLPolicy, DeleteACLPolicy. case_decide; [by left|]. delete_once. split; [done|]. new_sim Hb.
Qed.

Lemma policy_load_ok policyID : step_ok s m (OpLoadACLPolicy policyID).
Proof using Hsim.
  apply read_ok; [done|done|]. cbn [execDisk execMem snd agrees]. unfold StorxMeta.LoadACLPolicy, LoadACLPolicy.
  case_decide; [by left|]. destruct (get_cases (StorxMeta.aclPolicies s) (TrimSpace policyID)) as [E|E]; rewrite E; [left|by right].
  by rewrite (sim_aclPolicies _ _ Hsim).
Qed.

Lemma topic_ok topic : op_ok (OpSaveTopicConfig topic) -> step_ok s m (OpSaveTopicConfig topic).
Proof using Hsim.
  intros Hv. unfold step_ok. cbn [execDisk execMem agrees op_ok] in *.
  unfold StorxMeta.SaveTopicConfig, SaveTopicConfig. case_decide; [by left|]. cbn zeta. put_once Hv. split; [done|]. cbn [fst].
  match goal with |- sim _ ?m' => set (m1 := m') end.
  assert (forall X (f : MemoryStore -> X), (forall v s, f (set_topics v s) = f s) ->
    (forall v s, f (set_topicNames v s) = f s) -> (forall v s, f (set_records v s) = f s) ->
    (forall v s, f (set_nextOffsets v s) = f s) -> f m1 = f m) as Hf.
  { intros X f F1 F2 F3 F4. etrans; [apply (foldl_frame f id); intros; by apply ensurePartition_field|].
    by etrans; [apply F1|apply F2]. }
  assert (topics m1 = <[tc_Name (normalizeTopic topic) := normalizeTopic topic]> (topics m)) as Ht
    by (unfold m1; by rewrite (proj1 (foldl_ensure_frame _ _ _ _))).
  clearbody m1.
  destruct Hsim as [S1 S2 S3 S4 S5 S6 S7 S8 S9 S10 S11 S12 S13 S14 S15]. split; cbn; try done;
    rewrite ?(Hf _ offsets), ?(Hf _ offsetStates), ?(Hf _ consumerPauses), ?(Hf _ placements), ?(Hf _ members),
      ?(Hf _ assignments), ?(Hf _ brokerState), ?(Hf _ transactions), ?(Hf _ producerBatches), ?(Hf _ aclPolicies), ?(Hf _ dlqIndexes); try done.
  - congruence.
  - unfold counter_ok in *. cbn. by rewrite (Hf _ nextTxID), (Hf _ transactions).
Qed.

Lemma NextOffset_normal state : cos_NextOffset (NormalizeConsumerOffsetState state) = cos_NextOffset state.
Proof using Type. unfold NormalizeConsumerOffsetState. by destruct (cos_PendingOffsets state). Qed.

Lemma offset_save_ok state : op_ok (OpSaveConsumerOffsetState state) -> step_ok s m (OpSaveConsumerOffsetState state).
Proof using Hsim.
  intros [Hv Hn]. unfold step_ok. cbn [execDisk execMem agrees].
  unfold StorxMeta.SaveConsumerOffsetState, SaveConsumerOffsetState. rewrite NextOffset_normal.
  destruct (validateConsumerOffsetState (NormalizeConsumerOffsetState state)) as [[]|]; [|by left]. cbn zeta.
  match goal with |- context [StorxMeta.putIn ?field ?set s ?k ?v] =>
    destruct (put_cases field set s k v Hn) as [(b & E & Hb)|E]; [rewrite E|by right; apply thenDo_err] end.
  cbn [StorxMeta.thenDo].
  match goal with |- context [StorxMeta.putIn ?field ?set ?s1 ?k ?v] =>
    destruct (put_cases field set s1 k v Hv) as [(b' & E' & Hb')|E']; [left; rewrite E'|by right] end.
  split; [done|]. destruct Hsim. split; cbn in *; try done; congruence.
Qed.

Lemma offset_delete_ok consumer tp : step_ok s m (OpDeleteConsumerOffsetState consumer tp).
Proof using Hsim.
  unfold step_ok. cbn [execDisk execMem agrees].
  unfold StorxMeta.DeleteConsumerOffsetState, DeleteConsumerOffsetState. cbn zeta.
  match goal with |- context [StorxMeta.deleteIn ?field ?set s ?k] =>
    destruct (delete_cases field set s k) as [(b & E & Hb)|E]; [rewrite E|by right; apply thenDo_err] end.
  cbn [StorxMeta.thenDo].
  match goal with |- context [StorxMeta.deleteIn ?field ?set ?s1 ?k] =>
    destruct (delete_cases field set s1 k) as [(b' & E' & Hb')|E']; [left; rewrite E'|by right] end.
  split; [done|]. destruct Hsim. split; cbn in *; try done; congruence.
Qed.

Lemma state_load_cases consumer tp :
  StorxMeta.LoadConsumerOffsetState s consumer tp = LoadConsumerOffsetState m consumer tp \/
  StorxMeta.LoadConsumerOffsetState s consumer tp = Err CodeUnavailable.
Proof using Hsim.
  unfold StorxMeta.LoadConsumerOffsetState, LoadConsumerOffsetState. cbn zeta.
  destruct (get_cases (StorxMeta.offsetStates s) (offsetKey consumer tp)) as [E|E]; rewrite E; [|by right].
  cbn [mbind result_bind]. rewrite (sim_offsetStates _ _ Hsim). destruct (offsetStates m !! _); [by left|].
  destruct (get_cases (StorxMeta.offsets s) (offsetKey consumer tp)) as [E'|E']; rewrite E'; [left|by right].
  cbn [mbind result_bind]. rewrite (sim_offsets _ _ Hsim). by destruct (offsets m !! _).
Qed.

Lemma offset_loads_ok consumer tp :
  step_ok s m (OpLoadConsumerOffsetState consumer tp) /\ step_ok s m (OpLoadConsumerOffset consumer tp).
Proof using Hsim.
  split; (apply read_ok; [done|done|]); cbn [execDisk execMem snd agrees]; [apply state_load_cases|].
  unfold StorxMeta.LoadConsumerOffset. destruct (state_load_cases consumer tp) as [E|E]; rewrite E; [|by right].
  unfold LoadConsumerOffsetState, LoadConsumerOffset. cbn zeta.
  destruct (offsetStates m !! _); cbn [mbind result_bind]; [by left|].
  destruct (offsets m !! _) as [o|] eqn:Eo; cbn [mbind result_bind cos_NextOffset]; [by left|].
  destruct (get_cases (StorxMeta.offsets s) (offsetKey consumer tp)) as [E'|E']; rewrite E'; [left|by right].
  by rewrite (sim_offsets _ _ Hsim), Eo.
Qed.

(** Placements and transactions, kept under the text of their keys. *)

Lemma placement_inj tp : nameable tp ->
  forall tp', is_Some (placements m !! tp') -> StorxLog.partitionKey tp' = StorxLog.partitionKey tp -> tp' = tp.
Proof using Hsim. intros Hn tp' Hs. apply partitionKey_inj; [by apply (sim_nameable _ _ Hsim)|done]. Qed.

Lemma placements_ok :
  (forall placement, op_ok (OpSaveShardPlacement placement) -> step_ok s m (OpSaveShardPlacement placement)) /\
  (forall tp, op_ok (OpLoadShardPlacement tp) -> step_ok s m (OpLoadShardPlacement tp)) /\
  step_ok s m OpListShardPlacements.
Proof using Hsim Hinv.
  split_and!.
  - intros placement [Hv Hn]. unfold step_ok. cbn [execDisk execMem agrees].
    unfold StorxMeta.SaveShardPlacement, SaveShardPlacement. destruct (validateShardPlacement placement) as [[]|]; [|by left].
    put_once Hv. split; [done|]. pose proof (placement_inj _ Hn) as Hinj.
    destruct Hsim as [S1 S2 S3 S4 S5 S6 S7 S8 S9 S10 S11 S12 S13 S14 S15]. split; cbn; try done.
    + rewrite Hb. by apply key_image_insert.
    + intros tp. rewrite lookup_insert_is_Some. intros [<-|[_ ?]]; [done|by apply S10].
  - intros tp Hn. cbn in Hn. apply read_ok; [done|done|]. cbn [execDisk execMem snd agrees].
    unfold StorxMeta.LoadShardPlacement, LoadShardPlacement.
    destruct (get_cases (StorxMeta.placements s) (StorxLog.partitionKey tp)) as [E|E]; rewrite E; [left|by right].
    by rewrite (key_image_lookup _ _ _ (sim_placements _ _ Hsim) tp (placement_inj tp Hn)).
  - apply read_ok; [done|done|]. cbn [execDisk execMem snd agrees].
    unfold StorxMeta.ListShardPlacements, ListShardPlacements. listing. f_equal.
    apply (listing_all _ _ compareShardPlacement _ (mi_placements m Hmeta)); [same_key|].
    rewrite Hl. apply (key_image_values _ _ _ (sim_placements _ _ Hsim)).
    intros tp tp' H1 H2. by apply partitionKey_inj; apply (sim_nameable _ _ Hsim).
Qed.

Definition advanceNext (next : Z) (state : TransactionState) : Z :=
  if next <=? ts_TxID state then u64 (ts_TxID state + 1) else next.

(** The recomputed counter is the least number above every id. *)
Lemma advanceNext_spec n (l : list TransactionState) a :
  1 <= a -> n < 2 ^ 64 -> (forall st, st ∈ l -> ts_TxID st < n) ->
  let r := foldl advanceNext a l in
  a <= r /\ (forall st, st ∈ l -> ts_TxID st < r) /\ (r = a \/ exists st, st ∈ l /\ r = ts_TxID st + 1).
Proof using Type.
  intros Ha Hn. revert a Ha. induction l as [|st l IH]; intros a Ha Hl; cbn [foldl]; [split_and!; [lia|by intros st Hst%elem_of_nil|by left]|].
  assert (ts_TxID st < n) as Hst by (apply Hl; by left).
  assert (advanceNext a st = Z.max a (ts_TxID st + 1)) as Ea.
  { unfold advanceNext. destruct (Z.leb_spec a (ts_TxID st)); [rewrite u64_small by (unfold is_u64; lia)|]; lia. }
  destruct (IH (advanceNext a st)) as (H1 & H2 & H3); [lia|intros st' Hst'; apply Hl; by right|]. rewrite Ea in *.
  split_and!; [lia| |].
  - intros st' [->|Hin]%elem_of_cons; [lia|by apply H2].
  - destruct H3 as [H3|(st' & Hin & H3)]; [|right; exists st'; split; [by right|done]].
    destruct (decide (a <= ts_TxID st)); [right; exists st; split; [by left|lia]|left; lia].
Qed.

Lemma load_next_cases :
  StorxMeta.loadNextTransactionID s = Ok (nextTxID m) \/ StorxMeta.loadNextTransactionID s = Err CodeUnavailable.
Proof using Hsim Hinv H0.
  destruct (proj2 (proj2 Hinv)) as [Hb Hlt]. pose proof (sim_counter _ _ Hsim) as Hc. unfold counter_ok in Hc.
  unfold StorxMeta.loadNextTransactionID.
  destruct (get_cases (StorxMeta.transactionCounters s) StorxMeta.transactionCounterNext) as [Eg|Eg]; rewrite Eg; [|by right].
  cbn [mbind result_bind]. destruct (contents _ !! _) as [next|].
  { subst next. destruct (Z.eqb_spec (nextTxID m) 0); [lia|by left]. }
  unfold StorxMeta.computeNextTransactionID. listing. f_equal.
  assert (forall st, st ∈ l.*2 <-> exists k, transactions m !! k = Some st) as Hin.
  { intros st. rewrite Hl, <- elem_of_values. rewrite (key_image_values _ _ _ (sim_transactions _ _ Hsim)); [done|].
    intros i1 i2 _ _. apply fmt_d_inj. }
  destruct (advanceNext_spec (nextTxID m) l.*2 1) as (H1 & H2 & H3); [lia|lia| |].
  { intros st [k Hk]%Hin. pose proof (mi_transactions m Hmeta _ _ Hk) as ->. by eapply Hlt. }
  change (foldl _ 1 l.*2) with (foldl advanceNext 1 l.*2). destruct Hc as [Hc|(k & st & Hk & Hc)].
  - destruct H3 as [H3|(st & [k Hk]%Hin & H3)]; [lia|]. pose proof (mi_transactions m Hmeta _ _ Hk) as ->. apply Hlt in Hk. lia.
  - assert (ts_TxID st < foldl advanceNext 1 l.*2) by (apply H2, Hin; by exists k).
    destruct H3 as [H3|(st' & [k' Hk']%Hin & H3)]; [lia|]. pose proof (mi_transactions m Hmeta _ _ Hk') as ->. apply Hlt in Hk'. lia.
Qed.

Lemma allocate_ok : op_ok OpAllocateTransactionID -> nextTxID (AllocateTransactionID m).1 <> 0 -> step_ok s m OpAllocateTransactionID.
Proof using Hsim Hinv H0.
  intros Hv _. destruct (proj2 (proj2 Hinv)) as [Hb Hlt]. unfold step_ok. cbn [execDisk execMem agrees].
  unfold StorxMeta.AllocateTransactionID, AllocateTransactionID.
  destruct load_next_cases as [E|E]; rewrite E; [|by right]. destruct (Z.eqb_spec (nextTxID m) 0); [lia|]. cbn zeta.
  match goal with |- context [StorxMeta.putIn ?field ?set s ?k ?v] =>
    destruct (put_cases field set s k v (Hv v)) as [(b & E' & Hb')|E'] end.
  - left. rewrite E'. split; [done|]. destruct Hsim. split; cbn; try done. unfold counter_ok. cbn. by rewrite Hb', lookup_insert_eq.
  - right. by destruct (StorxMeta.putIn _ _ _ _ _) as [s' r]; cbn in E'; subst r.
Qed.

(** Storing a transaction, before the counter is looked at. *)
Section Stored.
Context (state : TransactionState) (b : Bucket TransactionState) (m' : MemoryStore).
Hypothesis Hb : contents b = <[StorxMeta.transactionKey (ts_TxID state) := state]> (contents (StorxMeta.transactions s)).
Hypothesis Hm' : m' = set_nextTxID (Z.max (nextTxID m) (ts_TxID state + 1))
                        (set_transactions (<[ts_TxID state := state]> (transactions m)) m).
Hypothesis Hsmall : ts_TxID state + 1 < 2 ^ 64.

Let s1 : Disk := StorxMeta.set_transactions b s.

Lemma stored_sim b2 : counter_ok (StorxMeta.set_transactionCounters b2 s1) m' -> sim (StorxMeta.set_transactionCounters b2 s1) m'.
Proof using Hsim Hb Hm'.
  intros Hc. subst m'. destruct Hsim as [S1 S2 S3 S4 S5 S6 S7 S8 S9 S10 S11 S12 S13 S14 S15]. split; cbn; try done.
  rewrite Hb. apply key_image_insert; [done|]. intros id' _. apply fmt_d_inj.
Qed.

Lemma stored_below st : (exists k, transactions m' !! k = Some st) -> ts_TxID st < nextTxID m'.
Proof using Hinv Hm'.
  destruct (proj2 (proj2 Hinv)) as [_ Hlt]. rewrite Hm'. cbn. intros [k [[<- <-]|[_ Hk]]%lookup_insert_Some]; [lia|].
  pose proof (mi_transactions m Hmeta _ _ Hk) as ->. apply Hlt in Hk. lia.
Qed.

Lemma stored_counter : counter_ok s1 m' \/ contents (StorxMeta.transactionCounters s) !! StorxMeta.transactionCounterNext = Some (nextTxID m) /\ nextTxID m <= ts_TxID state.
Proof using Hsim Hinv Hm'.
  destruct (proj2 (proj2 Hinv)) as [Hp Hlt]. pose proof (sim_counter _ _ Hsim) as Hc. unfold counter_ok in *. subst m'. cbn.
  destruct (contents _ !! _) as [next|].
  - subst next. destruct (decide (nextTxID m <= ts_TxID state)); [by right|left; lia].
  - left. destruct (decide (nextTxID m <= ts_TxID state)).
    { right. exists (ts_TxID state), state. rewrite lookup_insert_eq. split; [done|lia]. }
    destruct Hc as [Hc|(k & st & Hk & Hc)]; [left; lia|right].
    destruct (decide (k = ts_TxID state)) as [->|Hne].
    + exists (ts_TxID state), state. rewrite lookup_insert_eq. split; [done|].
      pose proof (mi_transactions m Hmeta _ _ Hk) as Ek. lia.
    + exists k, st. rewrite lookup_insert_ne by done. split; [done|lia].
Qed.

Lemma advance_cases : Forall storable [ts_TxID state + 1] ->
  (exists b2, StorxMeta.advanceNextTransactionID s1 (ts_TxID state + 1) = (StorxMeta.set_transactionCounters b2 s1, Ok tt) /\
     counter_ok (StorxMeta.set_transactionCounters b2 s1) m') \/
  (StorxMeta.advanceNextTransactionID s1 (ts_TxID state + 1)).2 = Err CodeUnavailable.
Proof using Hsim Hinv Hm' Hb Hsmall H0.
  intros [Hz _]%Forall_cons. destruct (proj2 (proj2 Hinv)) as [Hp Hlt].
  unfold StorxMeta.advanceNextTransactionID, StorxMeta.loadNextTransactionID.
  destruct (get_cases (StorxMeta.transactionCounters s1) StorxMeta.transactionCounterNext) as [Eg|Eg]; rewrite Eg; [|by right].
  cbn [mbind result_bind]. change (StorxMeta.transactionCounters s1) with (StorxMeta.transactionCounters s) in *.
  destruct stored_counter as [Hc|[Hc Hle]].
  - (* the counter needs no change *)
    assert (forall r, ts_TxID state + 1 <= r -> (exists b2, (if ts_TxID state + 1 <=? r then (s1, Ok tt)
        else StorxMeta.putIn StorxMeta.transactionCounters StorxMeta.set_transactionCounters s1 StorxMeta.transactionCounterNext (ts_TxID state + 1))
        = (StorxMeta.set_transactionCounters b2 s1, Ok tt) /\ counter_ok (StorxMeta.set_transactionCounters b2 s1) m')) as Hkeep.
    { intros r Hr. destruct (Z.leb_spec (ts_TxID state + 1) r); [|lia]. exists (StorxMeta.transactionCounters s1). split; [done|].
      exact Hc. }
    unfold counter_ok in Hc. change (StorxMeta.transactionCounters s1) with (StorxMeta.transactionCounters s) in Hc.
    destruct (contents _ !! _) as [next|].
    + assert (ts_TxID state + 1 <= next) by (subst; cbn; lia).
      destruct (Z.eqb_spec next 0); [subst next m'; cbn in *; lia|]. left. by apply Hkeep.
    + unfold StorxMeta.computeNextTransactionID.
      destruct (walk_cases (StorxMeta.transactions s1)) as [(l & E & Hl)|E]; rewrite E; [left|by right]. cbn [mbind result_bind].
      change (foldl _ 1 l.*2) with (foldl advanceNext 1 l.*2). apply Hkeep.
      assert (key_image StorxMeta.transactionKey (transactions m') (contents (StorxMeta.transactions s1))) as Himg.
      { subst m'. cbn. rewrite Hb. apply key_image_insert; [apply (sim_transactions _ _ Hsim)|]. intros id' _. apply fmt_d_inj. }
      assert (forall st, st ∈ l.*2 <-> exists k, transactions m' !! k = Some st) as Hin.
      { intros st. rewrite Hl, <- elem_of_values. rewrite (key_image_values _ _ _ Himg); [done|]. intros i1 i2 _ _. apply fmt_d_inj. }
      destruct (advanceNext_spec (nextTxID m') l.*2 1) as (_ & H2 & _); [lia|subst m'; cbn; lia|intros st Hst%Hin; by apply stored_below|].
      specialize (H2 state). cut (ts_TxID state < foldl advanceNext 1 l.*2); [lia|]. apply H2, Hin. exists (ts_TxID state).
      subst m'. cbn. by rewrite lookup_insert_eq.
  - rewrite Hc. destruct (Z.eqb_spec (nextTxID m) 0); [lia|]. cbn [negb].
    destruct (Z.leb_spec (ts_TxID state + 1) (nextTxID m)); [lia|].
    match goal with |- context [StorxMeta.putIn ?field ?set s1 ?k ?v] =>
      destruct (put_cases field set s1 k v Hz) as [(b2 & E & Hb2)|E] end; [left|by right].
    exists b2. split; [done|]. unfold counter_ok. cbn. rewrite Hb2, lookup_insert_eq. subst m'. cbn. lia.
Qed.

End Stored.

Lemma transaction_save_ok state :
  op_ok (OpSaveTransaction state) -> nextTxID (SaveTransaction m state).1 <> 0 -> step_ok s m (OpSaveTransaction state).
Proof using Hsim Hinv H0.
  intros (Hv & Hu & Hz) Hnz. destruct (proj2 (proj2 Hinv)) as [Hb _]. unfold is_u64 in Hu.
  unfold step_ok. cbn [execDisk execMem agrees].
  unfold StorxMeta.SaveTransaction. unfold SaveTransaction in *. destruct (Z.eqb_spec (ts_TxID state) 0) as [|Hne]; [by left|].
  cbn zeta in *. cbn [nextTxID set_transactions] in *.
  assert (ts_TxID state + 1 < 2 ^ 64) as Hsmall.
  { destruct (Z.leb_spec (nextTxID m) (ts_TxID state)); [|lia]. cbn in Hnz.
    destruct (decide (ts_TxID state + 1 = 2 ^ 64)) as [E|]; [|lia]. by rewrite E in Hnz. }
  assert (u64 (ts_TxID state + 1) = ts_TxID state + 1) as -> by (apply u64_small; unfold is_u64; lia).
  match goal with |- context [StorxMeta.putIn ?field ?set s ?k ?v] =>
    destruct (put_cases field set s k v Hv) as [(b & E & Hbk)|E]; [rewrite E|by right; apply thenDo_err] end.
  cbn [StorxMeta.thenDo].
  match goal with |- context [if nextTxID m <=? ts_TxID state then (?x, Ok tt) else (?y, Ok tt)] =>
    assert ((if nextTxID m <=? ts_TxID state then (x, Ok tt) else (y, Ok tt)) =
            (set_nextTxID (Z.max (nextTxID m) (ts_TxID state + 1)) y, @Ok Code unit tt)) as -> end.
  { destruct (Z.leb_spec (nextTxID m) (ts_TxID state)); f_equal; unfold set_nextTxID; cbn; f_equal; [lia|].
    rewrite Z.max_l by lia. by destruct m. }
  destruct (advance_cases state b _ Hbk eq_refl Hsmall) as [(b2 & E2 & Hc)|E2]; [by constructor|left|by right].
  rewrite E2. split; [done|]. by apply (stored_sim state b).
Qed.

Lemma transaction_reads_ok :
  (forall txID, step_ok s m (OpLoadTransaction txID)) /\ step_ok s m OpListTransactions.
Proof using Hsim Hinv.
  split.
  - intros txID. apply read_ok; [done|done|]. cbn [execDisk execMem snd agrees]. unfold StorxMeta.LoadTransaction, LoadTransaction.
    destruct (get_cases (StorxMeta.transactions s) (StorxMeta.transactionKey txID)) as [E|E]; rewrite E; [left|by right].
    rewrite (key_image_lookup _ _ _ (sim_transactions _ _ Hsim)); [done|]. intros id' _. apply fmt_d_inj.
  - apply read_ok; [done|done|]. cbn [execDisk execMem snd agrees].
    unfold StorxMeta.ListTransactions, ListTransactions. listing. f_equal.
    apply (listing_all _ _ compareTxID _ (mi_transactions m Hmeta)); [same_key|].
    rewrite Hl. apply (key_image_values _ _ _ (sim_transactions _ _ Hsim)). intros i1 i2 _ _. apply fmt_d_inj.
Qed.

(** Group members. *)

Lemma sortTopics_stored k v : members m !! k = Some v -> StorxMeta.sortTopics v = v.
Proof using Hinv.
  intros Hk. pose proof (sv_members m Hsnap k v Hk) as E. cbn beta in E. unfold StorxMeta.sortTopics. rewrite E. by destruct v.
Qed.

Lemma member_save_ok member : op_ok (OpSaveGroupMember member) -> step_ok s m (OpSaveGroupMember member).
Proof using Hsim.
  intros Hv. unfold step_ok. cbn [execDisk execMem agrees op_ok] in *.
  unfold StorxMeta.SaveGroupMember, SaveGroupMember. case_decide; [by left|].
  destruct (Upsert_spec StorxMeta.memberKey StorxMeta.memberGroup (StorxMeta.members s) _ Hv (sim_indexed _ _ Hsim)) as [Hb Hi].
  destruct (Upsert _ _ _ _) as [b [[]|]]; [left|by right]. split; [done|]. cbn in Hb.
  destruct Hsim as [S1 S2 S3 S4 S5 S6 S7 S8 S9 S10 S11 S12 S13 S14 S15]. split; cbn; try done. by rewrite Hb, S5.
Qed.

Lemma member_load_ok group memberID : step_ok s m (OpLoadGroupMember group memberID).
Proof using Hsim Hinv.
  apply read_ok; [done|done|]. cbn [execDisk execMem snd agrees]. unfold StorxMeta.LoadGroupMember, LoadGroupMember.
  destruct (get_cases (Repository (StorxMeta.members s)) (groupMemberKey group memberID)) as [E|E]; rewrite E; [left|by right].
  rewrite (sim_members _ _ Hsim). cbn [mbind result_bind].
  destruct (members m !! groupMemberKey group memberID) as [v|] eqn:Em; [|done]. by rewrite (sortTopics_stored _ _ Em).
Qed.

Lemma members_list_ok group : step_ok s m (OpListGroupMembers group).
Proof using Hsim Hinv.
  apply read_ok; [done|done|]. cbn [execDisk execMem snd agrees]. unfold StorxMeta.ListGroupMembers, ListGroupMembers.
  destruct (Query StorxMeta.memberGroup (StorxMeta.members s) group) as [l|] eqn:Eq; [left|by right].
  cbn [StorxMeta.wrapExternal mbind result_bind]. f_equal. apply (Query_spec _ _ _ _ (sim_indexed _ _ Hsim)) in Eq.
  rewrite (sim_members _ _ Hsim) in Eq. change (fun m => set_Topics _ m) with StorxMeta.sortTopics.
  rewrite <- (listing_perm (members m) StorxMeta.memberKey (fun m => cgm_Group m = group) StorxMeta.sortTopics compareMemberID
    (map_to_list (members m)).*2 (mi_members m Hmeta)).
  - apply (sort_func_perm_eq compareMemberID); [|by rewrite Eq].
    intros x y Hx Hy Exy. apply list_elem_of_fmap in Hx as (v1 & -> & Hx), Hy as (v2 & -> & Hy). rewrite Eq in Hx, Hy.
    apply list_elem_of_filter in Hx as [G1 Hx], Hy as [G2 Hy].
    apply list_elem_of_fmap in Hx as ([k1 ?] & -> & Hx), Hy as ([k2 ?] & -> & Hy).
    apply elem_of_map_to_list in Hx, Hy. apply string_compare_eq in Exy. cbn [snd] in *.
    match type of Exy with cgm_MemberID (_ ?v1) = cgm_MemberID (_ ?v2) => change (cgm_MemberID v1 = cgm_MemberID v2) in Exy end.
    pose proof (mi_members m Hmeta _ _ Hx) as K1. pose proof (mi_members m Hmeta _ _ Hy) as K2.
    unfold StorxMeta.memberGroup in *. assert (k1 = k2) by (unfold groupMemberKey in *; congruence). congruence.
  - intros v1 v2 G1 G2 Exy%string_compare_eq. change (cgm_MemberID v1 = cgm_MemberID v2) in Exy. unfold StorxMeta.memberKey. congruence.
  - by rewrite values_perm.
Qed.

Lemma member_delete_ok group memberID : step_ok s m (OpDeleteGroupMember group memberID).
Proof using Hsim.
  unfold step_ok. cbn [execDisk execMem agrees].
  unfold StorxMeta.DeleteGroupMember, DeleteGroupMember.
  destruct (DeleteModel_spec StorxMeta.memberGroup (StorxMeta.members s) (groupMemberKey group memberID) (sim_indexed _ _ Hsim)) as [Hb Hi].
  destruct (DeleteModel _ _ _) as [b [[]|]]; [left|by right]. split; [done|]. cbn in Hb.
  destruct Hsim as [S1 S2 S3 S4 S5 S6 S7 S8 S9 S10 S11 S12 S13 S14 S15]. split; cbn; try done. by rewrite Hb, S5.
Qed.

(** The expiry sweep deletes one member at a time; what is left is what the
    in-memory sweep leaves. *)
Definition expire (nowMS : Z) (ms : gmap string ConsumerGroupMember) (l : list ConsumerGroupMember) : gmap string ConsumerGroupMember :=
  foldl (fun ms v => if ExpiredAt v nowMS then delete (StorxMeta.memberKey v) ms else ms) ms l.

Lemma expire_loop nowMS l (s1 : Disk) m1 n :
  sim s1 m1 ->
  (exists s2, StorxMeta.deleteExpiredLoop s1 nowMS l n = (s2, Ok (n + len (filter (fun v => ExpiredAt v nowMS = true) l))) /\
     sim s2 (set_members (expire nowMS (members m1) l) m1)) \/
  (StorxMeta.deleteExpiredLoop s1 nowMS l n).2 = Err CodeUnavailable.
Proof using Type.
  revert s1 m1 n. induction l as [|v l IH]; intros s1 m1 n H1.
  - left. exists s1. cbn. rewrite Z.add_0_r. split; [done|]. by destruct m1.
  - cbn [StorxMeta.deleteExpiredLoop expire foldl]. rewrite filter_cons. destruct (ExpiredAt v nowMS) eqn:Ev; [|by apply IH].
    unfold StorxMeta.DeleteGroupMember.
    destruct (DeleteModel_spec StorxMeta.memberGroup (StorxMeta.members s1) (groupMemberKey (cgm_Group v) (cgm_MemberID v)) (sim_indexed _ _ H1)) as [Hb Hi].
    destruct (DeleteModel _ _ _) as [b [[]|]]; [|by right]. cbn in Hb. cbn [StorxMeta.wrapExternal].
    destruct (IH (StorxMeta.set_members b s1) (set_members (delete (StorxMeta.memberKey v) (members m1)) m1) (n + 1)) as [(s2 & E & Hs)|E];
      [destruct H1 as [S1 S2 S3 S4 S5 S6 S7 S8 S9 S10 S11 S12 S13 S14 S15]; split; cbn; try done; by rewrite Hb, S5| |by right].
    left. exists s2. rewrite E. cbn in Hs. split; [|exact Hs]. do 2 f_equal. rewrite decide_True, len_cons by done. lia.
Qed.

Lemma expire_lookup nowMS l ms k :
  expire nowMS ms l !! k = if existsb (fun v => bool_decide (k = StorxMeta.memberKey v) && ExpiredAt v nowMS) l then None else ms !! k.
Proof using Type.
  unfold expire. revert ms. induction l as [|v l IH]; intros ms; [done|]. cbn [foldl existsb]. rewrite IH.
  destruct (ExpiredAt v nowMS); [|by rewrite andb_false_r]. rewrite andb_true_r, lookup_delete.
  case_bool_decide; subst; [rewrite decide_True by done; by destruct (existsb _ _)|by rewrite decide_False by done].
Qed.

Lemma members_expire_ok nowMS : step_ok s m (OpDeleteExpiredGroupMembers nowMS).
Proof using Hsim Hinv.
  unfold step_ok. cbn [execDisk execMem agrees]. unfold StorxMeta.DeleteExpiredGroupMembers, StorxMeta.listAllMembers.
  destruct (walk_cases (Repository (StorxMeta.members s))) as [(l0 & E & Hl0)|E]; rewrite E; [|by right].
  cbn [mbind result_bind]. rewrite (sim_members _ _ Hsim) in Hl0.
  match goal with |- context [StorxMeta.deleteExpiredLoop s nowMS ?x 0] => set (l := x) end.
  assert (l ≡ₚ (map_to_list (members m)).*2) as Hl.
  { unfold l. rewrite sort_func_perm, Hl0. apply Permutation_refl'. apply list_eq_Forall2, Forall2_fmap_l.
    apply Forall_Forall2_diag, Forall_forall. intros v Hv.
    apply list_elem_of_fmap in Hv as ([k v'] & -> & Hk). apply elem_of_map_to_list in Hk. by apply (sortTopics_stored k). }
  destruct (expire_loop nowMS l s m 0 Hsim) as [(s2 & E2 & Hs2)|E2]; [left|by right]. rewrite E2.
  assert (members (DeleteExpiredGroupMembers m nowMS).1 = expire nowMS (members m) l) as Em.
  { apply map_eq. intros k. rewrite DeleteExpired_lookup, expire_lookup. destruct (existsb _ l) eqn:Ex.
    - apply existsb_exists in Ex as (v & Hv & [->%bool_decide_eq_true He]%andb_true_iff).
      apply list_elem_of_In in Hv. rewrite Hl in Hv. apply list_elem_of_fmap in Hv as ([k v'] & -> & Hk).
      apply elem_of_map_to_list in Hk. pose proof (mi_members m Hmeta _ _ Hk) as ->. cbn [snd] in *. unfold StorxMeta.memberKey.
      rewrite Hk. cbn. by rewrite He.
    - destruct (members m !! k) as [v|] eqn:Hk; [|done]. cbn. destruct (ExpiredAt v nowMS) eqn:He; [|done].
      exfalso. apply not_true_iff_false in Ex. apply Ex, existsb_exists. exists v. split.
      + apply list_elem_of_In. rewrite Hl. apply list_elem_of_fmap. exists (k, v). split; [done|]. by apply elem_of_map_to_list.
      + rewrite He, andb_true_r. apply bool_decide_eq_true. by apply (mi_members m Hmeta). }
  assert ((DeleteExpiredGroupMembers m nowMS).2 = Ok (len (filter (fun v => ExpiredAt v nowMS = true) l))) as Ec.
  { unfold DeleteExpiredGroupMembers.
    pose proof (foldl_expire_count nowMS (range (members m)) (members m) 0) as C.
    destruct (foldl _ _ (range (members m))) as [ms d]. cbn in *. rewrite C, Z.add_0_l. f_equal. unfold len. f_equal.
    rewrite Hl, range_perm. clear. induction (map_to_list (members m)) as [|[k v] l' IH]; [done|].
    rewrite fmap_cons, !filter_cons. cbn. case_decide; cbn; by rewrite IH. }
  assert ((DeleteExpiredGroupMembers m nowMS).1 = set_members (expire nowMS (members m) l) m) as Es.
  { rewrite <- Em. unfold DeleteExpiredGroupMembers. by destruct (foldl _ _ _). }
  cbn [fst snd]. rewrite Ec, Es. split; [by rewrite Z.add_0_l|done].
Qed.

End Step.

Lemma exec_step_ok {A} s m (op : metaOp A) :
  sim s m -> mem_inv m -> op_ok op -> nextTxID (execMem m op).1 <> 0 -> step_ok s m op.
Proof.
  intros Hs Hi Ho Hn.
  pose proof (loads_ok s m Hs) as (? & ? & ? & ? & ?). pose proof (lists_ok s m Hs Hi) as (? & ? & ? & ? & ? & ? & ?).
  pose proof (saves_ok s m Hs) as (? & ? & ? & ? & ? & ?). pose proof (deletes_ok s m Hs) as (? & ? & ?).
  pose proof (placements_ok s m Hs Hi) as (? & ? & ?). pose proof (transaction_reads_ok s m Hs Hi) as (? & ?).
  destruct op; auto using topic_ok, offset_save_ok, offset_delete_ok, member_save_ok, member_load_ok, members_list_ok,
    member_delete_ok, members_expire_ok, allocate_ok, transaction_save_ok, policy_load_ok;
    by apply offset_loads_ok.
Qed.

(** The in-memory store keeps its invariant. *)
Lemma exec_mem_inv {A} m (op : metaOp A) :
  op_ok op -> nextTxID (execMem m op).1 <> 0 -> mem_inv m -> mem_inv (execMem m op).1.
Proof.
  intros Ho Hn. destruct op; try done; cbn [execMem fst] in *; apply mem_step_inv;
    try (apply mem_meta; split; [by constructor|done]).
  - apply mem_log, log_step_save.
  - apply mem_meta. split; [constructor; apply Ho|done].
  - apply mem_save_policy.
  - apply mem_delete_policy.
Qed.

(** ** Runs *)

(** A call of the interface, or closing the database and opening it again. *)
Inductive diskOp : Type :=
| Call (A : Type) (op : metaOp A)
| Reopen (path : string).

#[global] Arguments Call {A} op.

Definition call_ok (o : diskOp) : Prop := match o with Call op => op_ok op | Reopen _ => True end.

Definition stepMem (m : MemoryStore) (o : diskOp) : MemoryStore :=
  match o with Call op => (execMem m op).1 | Reopen _ => m end.

(** The 64-bit transaction counter does not wrap during the run. *)
Fixpoint no_wrap (m : MemoryStore) (ops : list diskOp) : Prop :=
  match ops with [] => True | o :: ops => nextTxID (stepMem m o) <> 0 /\ no_wrap (stepMem m o) ops end.

(** The answers on disk are those in memory, up to the first one that reports
    a failure of the storage. *)
Fixpoint agree_run (s : Disk) (m : MemoryStore) (ops : list diskOp) : Prop :=
  match ops with
  | [] => True
  | Call op :: ops =>
      (execDisk s op).2 = Err CodeUnavailable \/
      agrees op (execDisk s op).2 (execMem m op).2 /\ agree_run (execDisk s op).1 (execMem m op).1 ops
  | Reopen path :: ops =>
      match StorxMeta.OpenStorxMetadataStore path (Ok s) with
      | Ok s' => agree_run s' m ops
      | Err _ => True
      end
  end.

Definition empty_disk (s : Disk) : Prop :=
  contents (StorxMeta.topics s) = ∅ /\ contents (StorxMeta.offsets s) = ∅ /\ contents (StorxMeta.offsetStates s) = ∅ /\
  contents (StorxMeta.consumerPauses s) = ∅ /\ contents (Repository (StorxMeta.members s)) = ∅ /\
  contents (StorxMeta.assignments s) = ∅ /\ contents (StorxMeta.brokerState s) = ∅ /\
  contents (StorxMeta.placements s) = ∅ /\ contents (StorxMeta.transactions s) = ∅ /\
  contents (StorxMeta.transactionCounters s) = ∅ /\ contents (StorxMeta.producerBatches s) = ∅ /\
  contents (StorxMeta.aclPolicies s) = ∅ /\ contents (StorxMeta.dlqIndexes s) = ∅ /\
  indexed StorxMeta.memberGroup (StorxMeta.members s).

Lemma empty_key_image {K V} `{Countable K} (f : K -> string) (M : gmap string V) : M = ∅ -> key_image f (∅ : gmap K V) M.
Proof. intros -> k v. rewrite lookup_empty. split; [done|]. intros (i & _ & Hi). by rewrite lookup_empty in Hi. Qed.

Lemma sim_empty s : empty_disk s -> sim s NewMemoryStore.
Proof.
  intros (E1 & E2 & E3 & E4 & E5 & E6 & E7 & E8 & E9 & E10 & E11 & E12 & E13 & E14). split; try done; try (by apply empty_key_image).
  - by rewrite E7, lookup_empty.
  - intros tp [? Hx]. change (placements NewMemoryStore) with (∅ : gmap TopicPartition ShardPlacement) in Hx. by rewrite lookup_empty in Hx.
  - unfold counter_ok. rewrite E10, lookup_empty. by left.
Qed.

Lemma reopen_sim s s' m path : sim s m -> StorxMeta.OpenStorxMetadataStore path (Ok s) = Ok s' -> sim s' m.
Proof.
  intros Hs. unfold StorxMeta.OpenStorxMetadataStore. case_decide; [done|]. cbn.
  destruct (RebuildIndexes_spec StorxMeta.memberGroup (StorxMeta.members s)) as [Hc Hi].
  destruct (RebuildIndexes _ _) as [ms [[]|]]; cbn; [|done]. intros [= <-].
  destruct Hs as [S1 S2 S3 S4 S5 S6 S7 S8 S9 S10 S11 S12 S13 S14 S15]. split; try done; cbn in *; [congruence|by apply Hi].
Qed.

Lemma runs_agree ops s m : sim s m -> mem_inv m -> Forall call_ok ops -> no_wrap m ops -> agree_run s m ops.
Proof.
  revert s m. induction ops as [|[A op|path] ops IH]; intros s m Hs Hi Ho Hn; [done|..];
    apply Forall_cons in Ho as [Hop Ho]; destruct Hn as [Hn Hns]; cbn [agree_run stepMem call_ok] in *.
  - destruct (exec_step_ok s m op Hs Hi Hop Hn) as [[Ha Hs']|He]; [right|by left]. split; [done|].
    apply IH; [done|by apply exec_mem_inv|done|done].
  - destruct (StorxMeta.OpenStorxMetadataStore path (Ok s)) as [s'|] eqn:Eo; [|done].
    apply IH; [by eapply reopen_sim|done..].
Qed.


End Refinement.

(** ** A witness: buckets that are maps and never fail *)

Definition map_bbolt : Bbolt.
Proof.
  refine {|
    Bucket := gmap string;
    Get := fun V b k => Ok (b !! k);
    Put := fun V b k v => (<[k := v]> b, Ok tt);
    Delete := fun V b k => (delete k b, Ok tt);
    PutMany := fun V b l => (foldl (fun m kv => <[kv.1 := kv.2]> m) b l, Ok tt);
    DeleteMany := fun V b l => (foldl (fun m k => delete k m) b l, Ok tt);
    Keys := fun V b => Ok (map_to_list b).*1;
    Walk := fun V b => Ok (map_to_list b);
    ModelStore := gmap string;
    Repository := fun V m => m;
    set_Repository := fun V b m => b;
    Upsert := fun V key idx m v => (<[key v := v]> m, Ok tt);
    DeleteModel := fun V idx m k => (delete k m, Ok tt);
    Query := fun V idx m g => Ok (filter (fun v => idx v = g) (map_to_list m).*2);
    RebuildIndexes := fun V idx m => (m, Ok tt);
    contents := fun V b => b;
    storable := fun V v => True;
    indexed := fun V idx m => True |}; try done; intros; by simplify_eq.
Defined.

#[local] Existing Instances map_bbolt map_to_list_range.

Definition ex_disk : StorxMeta.StorxMetadataStore := StorxMeta.mkStorxMetadataStore ∅ ∅ ∅ ∅ ∅ ∅ ∅ ∅ ∅ ∅ ∅ ∅ ∅.

Definition ex_disk_ops : list diskOp := [
  Call (OpSaveTopicConfig (NewTopicConfig "orders"));
  Call (OpSaveGroupMember (mkConsumerGroupMember "g" "m" ["z"; "orders"] 1000 0 1 1 1));
  Call OpAllocateTransactionID;
  Reopen "metadata.db";
  Call (OpLoadGroupMember "g" "m");
  Call (OpListGroupMembers "g");
  Call OpAllocateTransactionID;
  Call OpListTopics].

