(* ===== verification/Direct.v ===== *)
(** * Direct messages

    [src/direct/runtime.go], the runtime of point-to-point messages, and the
    broker's operations on it: [src/broker/service_direct.go] and the
    [applyDirect*] handlers of [service_apply.go].

    A recipient's inbox is a topic of one partition whose name carries the
    recipient in hexadecimal.  The state is the store and the process-wide
    counter [directSequence].  [Send] reads the clock for the message id and
    for the timestamp; both readings are arguments, in that order.  The broker
    applies its commands itself, as in [Service]; events are left out. *)

From stdpp Require Import prelude gmap strings sorting pretty.
From S2P Require Import Prelude Model MemoryStore MetaStore Queue Idempotency GoStrings Governance.

#[local] Open Scope Z_scope.

Definition InboxShardCount : Z := 256.
Definition inboxSegmentMaxBytes : Z := 1024 * 1024.
Definition inboxIndexIntervalBytes : Z := 1024.
Definition directAttributeFlag : Z := Z.shiftl 1 0.
Definition headerMessageID : string := "x-direct-message-id".
Definition headerConversationID : string := "x-direct-conversation-id".
Definition headerSender : string := "x-direct-sender".
Definition headerRecipient : string := "x-direct-recipient".

Record Message := mkMessage {
  msg_MessageID : string;
  msg_ConversationID : string;
  msg_Sender : string;
  msg_Recipient : string;
  msg_TimestampMS : Z;
  msg_Payload : bytes
}.

Record SendResult := mkSendResult {
  sr_MessageID : string;
  sr_ConversationID : string;
  sr_Offset : Z;
  sr_NextOffset : Z
}.

Record InboxRecord := mkInboxRecord { ir_Offset : Z; ir_Message : Message }.

Record FetchInboxResult := mkFetchInboxResult {
  fi_Recipient : string;
  fi_Records : list InboxRecord;
  fi_NextOffset : Z;
  fi_HighWatermark : option Z;
  fi_LowWatermark : option Z;
  fi_LogStartOffset : Z
}.

Record DirectState := mkDirectState { ds_store : MemoryStore; ds_sequence : Z }.

(** ** Names *)

Definition hexEncode (value : string) : string := text (chars value ≫= hexChar).

(** The hash over the bytes of the name, on 64 bits, reduced to a byte. *)
Definition shard (recipient : string) : Z :=
  foldl (fun hash b => u64 (hash * 31 + Z.of_nat (Ascii.nat_of_ascii b))) 0 (chars recipient) `mod` InboxShardCount.

(** [fmt.Sprintf] with [%02x] of a byte. *)
Definition fmt_02x (b : Z) : string := text (hexChar (Ascii.ascii_of_nat (Z.to_nat b))).

Definition inboxTopic (recipient : string) : string :=
  InternalInboxTopicPrefix +:+ "/" +:+ fmt_02x (shard recipient) +:+ "/" +:+ hexEncode recipient.

Definition consumerName (recipient : string) : string := "__direct.consumer/" +:+ recipient.

Definition inboxTopicConfig (name : string) : TopicConfig :=
  let cfg := NewTopicConfig name in
  {| tc_Name := tc_Name cfg; tc_Partitions := 1; tc_SegmentMaxBytes := inboxSegmentMaxBytes;
     tc_IndexIntervalBytes := inboxIndexIntervalBytes; tc_RetentionMaxBytes := tc_RetentionMaxBytes cfg;
     tc_CleanupPolicy := tc_CleanupPolicy cfg; tc_MaxMessageBytes := tc_MaxMessageBytes cfg;
     tc_MaxBatchBytes := tc_MaxBatchBytes cfg; tc_RetentionMS := tc_RetentionMS cfg; tc_RetryPolicy := tc_RetryPolicy cfg;
     tc_DeadLetterTopic := tc_DeadLetterTopic cfg; tc_DelayEnabled := tc_DelayEnabled cfg;
     tc_MessageTTLMS := tc_MessageTTLMS cfg; tc_MessageExpiryAction := tc_MessageExpiryAction cfg;
     tc_CompactionEnabled := tc_CompactionEnabled cfg;
     tc_CompactionTombstoneRetentionMS := tc_CompactionTombstoneRetentionMS cfg;
     tc_OrderingPolicy := tc_OrderingPolicy cfg; tc_PriorityPolicy := tc_PriorityPolicy cfg |}.

Definition defaultConversationID (a b : string) : string :=
  match sort_func String.compare [a; b] with
  | [first; second] => first +:+ ":" +:+ second
  | _ => ""
  end.

Definition nextMessageID (nowMS : Z) (s : DirectState) : DirectState * string :=
  let next := u64 (ds_sequence s + 1) in
  (mkDirectState (ds_store s) next, "dm-" +:+ fmt_d nowMS +:+ "-" +:+ fmt_d next).

Definition header (key value : string) : RecordHeader := mkRecordHeader key (String.list_byte_of_string value).

Fixpoint requiredHeader (headers : list RecordHeader) (key : string) : string :=
  match headers with
  | [] => ""
  | h :: headers => if decide (rh_Key h = key) then String.string_of_list_byte (rh_Value h) else requiredHeader headers key
  end.

Definition decodeRecord (record : Rec) : result Code InboxRecord :=
  if Z.land (r_Attributes record) directAttributeFlag =? 0 then Err CodeCodec
  else
    let message := {|
      msg_MessageID := requiredHeader (r_Headers record) headerMessageID;
      msg_ConversationID := requiredHeader (r_Headers record) headerConversationID;
      msg_Sender := requiredHeader (r_Headers record) headerSender;
      msg_Recipient := requiredHeader (r_Headers record) headerRecipient;
      msg_TimestampMS := r_TimestampMS record;
      msg_Payload := r_Payload record |} in
    if decide (msg_MessageID message = "" \/ msg_ConversationID message = "" \/ msg_Sender message = "" \/
               msg_Recipient message = "") then Err CodeCodec
    else Ok (mkInboxRecord (r_Offset record) message).

(** ** The runtime *)

Definition ensureInbox (s : MemoryStore) (recipient : string) : MemoryStore * result Code unit :=
  let topicName := inboxTopic recipient in
  match TopicExists s topicName with
  | Err e => (s, Err e)
  | Ok exists_ =>
      let cfg := inboxTopicConfig topicName in
      if exists_ then SaveTopicConfig s cfg
      else match Queue.CreateTopic s cfg with
           | (s, Err e) => if decide (e = CodeTopicExists) then (s, Ok tt) else (s, Err e)
           | (s, Ok _) => (s, Ok tt)
           end
  end.

Definition Send (idMS tsMS : Z) (s : DirectState) (sender recipient : string) (conversationID : option string)
    (payload : bytes) : DirectState * result Code SendResult :=
  if decide (sender = "" \/ recipient = "") then (s, Err CodeInvalidArgument)
  else
    match ensureInbox (ds_store s) recipient with
    | (st, Err e) => (mkDirectState st (ds_sequence s), Err e)
    | (st, Ok _) =>
        let s := mkDirectState st (ds_sequence s) in
        let cid := match conversationID with
                   | Some cid => if decide (cid = "") then defaultConversationID sender recipient else cid
                   | None => defaultConversationID sender recipient
                   end in
        let '(s, messageID) := nextMessageID idMS s in
        let message := mkMessage messageID cid sender recipient tsMS payload in
        let record := {|
          ra_TimestampMS := Some (msg_TimestampMS message);
          ra_Key := [];
          ra_Headers := [header headerMessageID (msg_MessageID message);
                         header headerConversationID (msg_ConversationID message);
                         header headerSender (msg_Sender message);
                         header headerRecipient (msg_Recipient message)];
          ra_Attributes := directAttributeFlag;
          ra_Transaction := None;
          ra_ExpiresAtMS := None;
          ra_Payload := msg_Payload message |} in
        match PublishRecord tsMS (ds_store s) (inboxTopic recipient) 0 record with
        | (st, Err e) => (mkDirectState st (ds_sequence s), Err e)
        | (st, Ok record) =>
            (mkDirectState st (ds_sequence s),
             Ok (mkSendResult (msg_MessageID message) (msg_ConversationID message) (r_Offset record)
                   (u64 (r_Offset record + 1))))
        end
    end.

Fixpoint decodeRecords (rs : list Rec) : result Code (list InboxRecord) :=
  match rs with
  | [] => Ok []
  | record :: rs =>
      decoded ← decodeRecord record;
      rest ← decodeRecords rs;
      Ok (decoded :: rest)
  end.

Definition FetchInboxForConsumer (s : MemoryStore) (consumer recipient : string) (maxRecords : Z)
    : result Code FetchInboxResult :=
  match Fetch s consumer (inboxTopic recipient) 0 None maxRecords with
  | Err e =>
      if decide (e = CodeTopicNotFound) then Ok (mkFetchInboxResult recipient [] 0 None None 0) else Err e
  | Ok poll =>
      records ← decodeRecords (pr_Records poll);
      Ok (mkFetchInboxResult recipient records (pr_NextOffset poll) (pr_HighWatermark poll) (pr_LowWatermark poll)
            (pr_LogStartOffset poll))
  end.

Definition FetchInbox (s : MemoryStore) (recipient : string) (maxRecords : Z) : result Code FetchInboxResult :=
  FetchInboxForConsumer s (consumerName recipient) recipient maxRecords.

Definition AckInboxForConsumer (nowMS : Z) (s : MemoryStore) (consumer recipient : string) (nextOffset : Z)
    : MemoryStore * result Code unit :=
  Ack nowMS s consumer (inboxTopic recipient) 0 nextOffset.

Definition AckInbox (nowMS : Z) (s : MemoryStore) (recipient : string) (nextOffset : Z) : MemoryStore * result Code unit :=
  AckInboxForConsumer nowMS s (consumerName recipient) recipient nextOffset.

(** ** The broker's operations *)

Record directCommand := mkDirectCommand {
  dc_Sender : string;
  dc_Recipient : string;
  dc_ConversationID : option string;
  dc_Payload : bytes
}.

Record ackDirectCommand := mkAckDirectCommand {
  ad_Recipient : string;
  ad_Consumer : string;
  ad_NextOffset : Z
}.

Definition applyDirectSend (idMS tsMS : Z) (s : DirectState) (req : directCommand) : DirectState * result BrokerError SendResult :=
  let '(s, r) := Send idMS tsMS s (dc_Sender req) (dc_Recipient req) (dc_ConversationID req) (dc_Payload req) in
  (s, of_store r).

(** Both acknowledgements run when the command names a consumer; the error of
    the second replaces that of the first.  [now] gives the time of each. *)
Definition applyDirectAck (now : bool -> Z) (s : MemoryStore) (req : ackDirectCommand) : MemoryStore * result BrokerError unit :=
  let '(s, err) := AckInbox (now false) s (ad_Recipient req) (ad_NextOffset req) in
  if decide (ad_Consumer req = "") then (s, of_store err)
  else let '(s, err) := AckInboxForConsumer (now true) s (ad_Consumer req) (ad_Recipient req) (ad_NextOffset req) in
       (s, of_store err).

Section Broker.
Context `{MapRange} (defaultTenant defaultNamespace : string) (MaxFetchRecords : Z).

Definition SendDirect (idMS tsMS : Z) (ctx : Identity) (s : DirectState) (sender recipient : string)
    (conversationID : option string) (payload : bytes) : DirectState * result BrokerError SendResult :=
  let identity := brokerIdentity defaultTenant defaultNamespace ctx in
  match authorize (ds_store s) identity "produce" (directInboxResource identity recipient) with
  | Err e => (s, Err e)
  | Ok _ =>
      applyDirectSend idMS tsMS s
        (mkDirectCommand (scopedName identity "direct" sender) (scopedName identity "direct" recipient) conversationID payload)
  end.

Definition visibleMessage (identity : Identity) (record : InboxRecord) : InboxRecord :=
  let m := ir_Message record in
  mkInboxRecord (ir_Offset record)
    (mkMessage (msg_MessageID m) (msg_ConversationID m) (visibleName identity "direct" (msg_Sender m))
       (visibleName identity "direct" (msg_Recipient m)) (msg_TimestampMS m) (msg_Payload m)).

Definition FetchInboxFor (ctx : Identity) (s : MemoryStore) (recipient : string) (maxRecords : Z)
    : result BrokerError FetchInboxResult :=
  let identity := brokerIdentity defaultTenant defaultNamespace ctx in
  _ ← authorize s identity "consume" (directInboxResource identity recipient);
  let maxRecords := if (maxRecords <=? 0) || (MaxFetchRecords <? maxRecords) then MaxFetchRecords else maxRecords in
  inbox ← of_store (FetchInbox s (scopedName identity "direct" recipient) maxRecords);
  Ok (mkFetchInboxResult recipient (visibleMessage identity <$> fi_Records inbox) (fi_NextOffset inbox)
        (fi_HighWatermark inbox) (fi_LowWatermark inbox) (fi_LogStartOffset inbox)).

Definition AckDirect (now : bool -> Z) (ctx : Identity) (s : MemoryStore) (recipient : string) (nextOffset : Z)
    : MemoryStore * result BrokerError unit :=
  let identity := brokerIdentity defaultTenant defaultNamespace ctx in
  match authorize s identity "commit" (directInboxResource identity recipient) with
  | Err e => (s, Err e)
  | Ok _ => applyDirectAck now s (mkAckDirectCommand (scopedName identity "direct" recipient) "" nextOffset)
  end.

End Broker.
