(* ===== verification/DirectSpec.v ===== *)
(** * Every recipient gets the messages sent to it

    The abstract messenger keeps a list of messages per recipient and an
    acknowledged position per consumer and recipient.  The runtime over the
    store answers every sequence of sends, fetches and acknowledgements as the
    messenger does: messages arrive complete, in the order they were sent, and
    in no other inbox. *)

From stdpp Require Import prelude gmap strings sorting list pretty.
From S2P Require Import Prelude Model MemoryStore LogSpec MetaStore MetaSpec Queue QueueSpec Idempotency GoStrings Governance Direct.

#[local] Open Scope Z_scope.

(** ** Names of inboxes *)

Lemma inboxTopic_chars r : chars (inboxTopic r) =
  chars InternalInboxTopicPrefix ++ ch 47 :: hexChar (Ascii.ascii_of_nat (Z.to_nat (shard r))) ++ ch 47 :: (chars r ≫= hexChar).
Proof. unfold inboxTopic, fmt_02x, hexEncode. by rewrite !chars_app, !chars_text. Qed.

(** Different recipients have different inboxes. *)
Lemma inboxTopic_inj r1 r2 : inboxTopic r1 = inboxTopic r2 -> r1 = r2.
Proof.
  intros E%(f_equal chars). rewrite !inboxTopic_chars in E. apply app_inv_head, (f_equal tail) in E. cbn [tail] in E.
  apply app_inj_1 in E as [_ E]; [|done]. apply (f_equal tail) in E. cbn [tail] in E. apply hex_inj in E. by rewrite <- (text_chars r1), E, text_chars.
Qed.

Lemma inboxTopic_no_nul r : no_nul (inboxTopic r) = true.
Proof.
  assert (forall l, Ascii.ascii_of_nat 0 ∉ l -> no_nul (text l) = true) as Htext.
  { induction l as [|c l IH]; intros Hn; [done|]. cbn. rewrite IH by set_solver. rewrite andb_true_r.
    destruct (Ascii.eqb_spec c (Ascii.ascii_of_nat 0)); [set_solver|done]. }
  assert (forall c, Ascii.ascii_of_nat 0 ∉ hexChar c) as Hhex.
  { intros c. unfold hexChar. assert (forall n, (n < 16)%nat -> hexDigit n <> Ascii.ascii_of_nat 0) as Hd.
    { intros n Hn. do 16 (destruct n as [|n]; [vm_compute; congruence|]). lia. }
    pose proof (Ascii.nat_ascii_bounded c). intros [E|[E|[]%elem_of_nil]%elem_of_cons]%elem_of_cons; symmetry in E; revert E; apply Hd.
    - apply Nat.Div0.div_lt_upper_bound. lia.
    - apply Nat.mod_upper_bound. lia. }
  rewrite <- (text_chars (inboxTopic r)). apply Htext. rewrite inboxTopic_chars.
  rewrite elem_of_app, elem_of_cons, elem_of_app, elem_of_cons. intros [E|[E|[E|[E|E]]]]; [|done|by apply Hhex in E|done|].
  - revert E. apply (bool_decide_eq_false (Ascii.ascii_of_nat 0 ∈ chars InternalInboxTopicPrefix)). by vm_compute.
  - apply list_elem_of_bind in E as (c & E & _). by apply Hhex in E.
Qed.

Definition inboxPartition (r : string) : TopicPartition := NewTopicPartition (inboxTopic r) 0.

Lemma inboxPartition_inj r1 r2 : inboxPartition r1 = inboxPartition r2 -> r1 = r2.
Proof. intros E%(f_equal tp_Topic). by apply inboxTopic_inj. Qed.

(** ** The abstract messenger *)

Record messenger := mkMessenger {
  in_messages : gmap string (list Message);
  in_sequence : Z;
  in_acked : gmap (string * string) Z
}.

Definition conversation (sender recipient : string) (cid : option string) : string :=
  match cid with
  | Some cid => if decide (cid = "") then defaultConversationID sender recipient else cid
  | None => defaultConversationID sender recipient
  end.

Definition specSend (idMS tsMS : Z) (a : messenger) (sender recipient : string) (cid : option string) (payload : bytes)
    : messenger * result Code SendResult :=
  if decide (sender = "" \/ recipient = "") then (a, Err CodeInvalidArgument)
  else
    let seq := u64 (in_sequence a + 1) in
    let id := "dm-" +:+ fmt_d idMS +:+ "-" +:+ fmt_d seq in
    let earlier := default [] (in_messages a !! recipient) in
    if 1024 * 1024 <? len payload
    then (mkMessenger (<[recipient := earlier]> (in_messages a)) seq (in_acked a), Err CodeInvalidArgument)
    else (mkMessenger (<[recipient := earlier ++ [mkMessage id (conversation sender recipient cid) sender recipient tsMS payload]]>
                         (in_messages a)) seq (in_acked a),
          Ok (mkSendResult id (conversation sender recipient cid) (len earlier) (len earlier + 1))).

(** The messages numbered from [o]. *)
Fixpoint number {A B} (f : Z -> A -> B) (o : Z) (l : list A) : list B :=
  match l with [] => [] | x :: l => f o x :: number f (o + 1) l end.

Definition specFetch (a : messenger) (consumer recipient : string) (maxRecords : Z) : FetchInboxResult :=
  match in_messages a !! recipient with
  | None => mkFetchInboxResult recipient [] 0 None None 0
  | Some msgs =>
      let start := Z.max (default 0 (in_acked a !! (consumer, recipient))) 0 in
      let page := take (Z.to_nat maxRecords) (drop (Z.to_nat start) (number mkInboxRecord 0 msgs)) in
      mkFetchInboxResult recipient page
        (match last page with Some r => ir_Offset r + 1 | None => start end)
        (if 0 <? len msgs then Some (len msgs - 1) else None)
        (match msgs with [] => None | _ => Some 0 end) 0
  end.

Definition specAck (a : messenger) (consumer recipient : string) (nextOffset : Z) : messenger * result Code unit :=
  if decide (consumer = "") then (a, Err CodeInvalidArgument)
  else (mkMessenger (in_messages a) (in_sequence a) (<[(consumer, recipient) := nextOffset]> (in_acked a)), Ok tt).

(** ** Numbered lists *)

Lemma length_number {A B} (f : Z -> A -> B) o l : length (number f o l) = length l.
Proof. revert o. induction l; intros o; cbn; by rewrite ?IHl. Qed.

Lemma number_app {A B} (f : Z -> A -> B) o l1 l2 : number f o (l1 ++ l2) = number f o l1 ++ number f (o + len l1) l2.
Proof.
  revert o. induction l1 as [|x l1 IH]; intros o; cbn; [by rewrite Z.add_0_r|]. rewrite IH. do 3 f_equal. rewrite len_cons. lia.
Qed.

Lemma fmap_number {A B C} (g : B -> C) (f : Z -> A -> B) o l : g <$> number f o l = number (fun o x => g (f o x)) o l.
Proof. revert o. induction l as [|x l IH]; intros o; [done|]. cbn. f_equal. apply IH. Qed.

Lemma drop_number {A B} (f : Z -> A -> B) k o l : drop k (number f o l) = number f (o + Z.of_nat k) (drop k l).
Proof.
  revert k o. induction l as [|x l IH]; intros [|k] o; cbn [number drop]; try done; [by rewrite Z.add_0_r|].
  rewrite IH. f_equal. lia.
Qed.

Lemma take_number {A B} (f : Z -> A -> B) n o l : take n (number f o l) = number f o (take n l).
Proof. revert n o. induction l as [|x l IH]; intros [|n] o; cbn [number take]; try done. by rewrite IH. Qed.

Lemma last_number {A B} (f : Z -> A -> B) o (l : list A) : last (number f o l) = f (o + len l - 1) <$> last l.
Proof.
  destruct l as [|x l _] using rev_ind; [done|]. rewrite number_app. cbn [number]. rewrite !last_snoc, len_app, len_cons, len_nil.
  cbn. do 2 f_equal. lia.
Qed.

(** The message as the runtime stores it. *)
Definition sentRecord (o : Z) (m : Message) : Rec :=
  mkRec o (msg_TimestampMS m) []
    [header headerMessageID (msg_MessageID m); header headerConversationID (msg_ConversationID m);
     header headerSender (msg_Sender m); header headerRecipient (msg_Recipient m)]
    directAttributeFlag None None (msg_Payload m).

Lemma filter_number_ge (msgs : list Message) start o : 0 <= o ->
  filter (fun r => start <= r_Offset r) (number sentRecord o msgs) = drop (Z.to_nat (start - o)) (number sentRecord o msgs).
Proof.
  revert o. induction msgs as [|m msgs IH]; intros o Ho; cbn [number]; [by rewrite drop_nil|]. rewrite filter_cons.
  rewrite IH by lia. cbn [r_Offset sentRecord]. case_decide as Hd.
  - replace (Z.to_nat (start - o)) with 0%nat by lia. replace (Z.to_nat (start - (o + 1))) with 0%nat by lia. done.
  - replace (Z.to_nat (start - o)) with (S (Z.to_nat (start - (o + 1)))) by lia. done.
Qed.

Definition msg_ok (m : Message) : Prop :=
  msg_MessageID m <> "" /\ msg_ConversationID m <> "" /\ msg_Sender m <> "" /\ msg_Recipient m <> "".

Lemma decode_sent o m : msg_ok m -> decodeRecord (sentRecord o m) = Ok (mkInboxRecord o m).
Proof.
  intros (H1 & H2 & H3 & H4). unfold decodeRecord, sentRecord. cbn [r_Attributes r_Headers r_TimestampMS r_Payload r_Offset].
  change (Z.land directAttributeFlag directAttributeFlag =? 0) with false. cbn iota.
  cbn [requiredHeader header rh_Key rh_Value].
  repeat (rewrite decide_True by done || rewrite decide_False by (by vm_compute)). rewrite !String.string_of_list_byte_of_string.
  cbn [msg_MessageID msg_ConversationID msg_Sender msg_Recipient]. rewrite decide_False by tauto. by destruct m.
Qed.

Lemma decode_numbered msgs o : Forall msg_ok msgs -> decodeRecords (number sentRecord o msgs) = Ok (number mkInboxRecord o msgs).
Proof.
  intros Hm. revert o. induction Hm as [|m msgs Hm _ IH]; intros o; [done|]. cbn [number decodeRecords].
  rewrite decode_sent by done. cbn [mbind result_bind]. by rewrite IH.
Qed.

(** ** The store implements the messenger *)

Definition inboxConfig (r : string) : TopicConfig := normalizeTopic (inboxTopicConfig (inboxTopic r)).

Record implements (s : DirectState) (a : messenger) : Prop := {
  im_log : log_inv (ds_store s);
  im_sequence : ds_sequence s = in_sequence a;
  im_topic : forall r, topics (ds_store s) !! inboxTopic r =
    match in_messages a !! r with None => None | Some _ => Some (inboxConfig r) end;
  im_records : forall r, recordsOf (ds_store s) (inboxPartition r) = number sentRecord 0 (default [] (in_messages a !! r));
  im_next : forall r, nextOffsetOf (ds_store s) (inboxPartition r) = len (default [] (in_messages a !! r));
  im_acked : forall c r, LoadConsumerOffset (ds_store s) c (inboxPartition r) = Ok (in_acked a !! (c, r));
  im_messages : forall r msgs, in_messages a !! r = Some msgs -> Forall msg_ok msgs
}.

Lemma LoadConsumerOffset_frame s s' c tp :
  offsets s' = offsets s -> offsetStates s' = offsetStates s -> LoadConsumerOffset s' c tp = LoadConsumerOffset s c tp.
Proof. intros E1 E2. unfold LoadConsumerOffset. by rewrite E1, E2. Qed.

(** The inbox exists after [ensureInbox], and nothing else has changed. *)
Lemma SaveTopicConfig_ensured s topic : tc_Name topic <> "" ->
  (SaveTopicConfig s topic).2 = Ok tt /\
  topics (SaveTopicConfig s topic).1 = <[tc_Name topic := normalizeTopic topic]> (topics s).
Proof.
  intros Hn. unfold SaveTopicConfig. rewrite decide_False by done. split; [done|]. cbn [fst].
  by rewrite (proj1 (foldl_ensure_frame _ _ _ _)).
Qed.

Lemma CreateTopic_topics s topic : tc_Name topic <> "" -> tc_Partitions topic <> 0 -> tc_Name topic ∉ topicNames s ->
  (MemoryStore.CreateTopic s topic).2 = Ok tt /\
  topics (MemoryStore.CreateTopic s topic).1 = <[tc_Name topic := normalizeTopic topic]> (topics s).
Proof.
  intros Hn Hp Ht. unfold MemoryStore.CreateTopic. rewrite decide_False by done. destruct (Z.eqb_spec (tc_Partitions topic) 0); [done|].
  cbn zeta. rewrite decide_False by done. split; [done|]. cbn [fst]. by rewrite (proj1 (foldl_ensure_frame _ _ _ _)).
Qed.

Lemma inbox_named r : tc_Name (inboxTopicConfig (inboxTopic r)) <> "".
Proof. change (inboxTopic r <> ""). intros E%(f_equal chars). rewrite inboxTopic_chars in E. discriminate E. Qed.

Definition ensured (s s' : MemoryStore) (r : string) : Prop :=
  log_inv s' /\ topics s' = <[inboxTopic r := inboxConfig r]> (topics s) /\
  (forall tp, recordsOf s' tp = recordsOf s tp) /\ (forall tp, nextOffsetOf s' tp = nextOffsetOf s tp) /\
  offsets s' = offsets s /\ offsetStates s' = offsetStates s.

Lemma log_step_offsets `{MapRange} s s' : log_step s s' -> offsets s' = offsets s /\ offsetStates s' = offsetStates s.
Proof. intros Hs. split; by eapply log_step_field. Qed.

Lemma saved_ensured s r : log_inv s -> ensured s (SaveTopicConfig s (inboxTopicConfig (inboxTopic r))).1 r.
Proof.
  intros Hi. destruct (SaveTopicConfig_inv s (inboxTopicConfig (inboxTopic r)) Hi) as [Hi' Hr].
  split_and!; [done|apply (SaveTopicConfig_ensured _ _ (inbox_named r))|by intros tp; destruct (Hr tp)|by intros tp; destruct (Hr tp)|..];
    apply (@log_step_offsets map_to_list_range), log_step_save.
Qed.

Lemma ensureInbox_spec s r : log_inv s -> exists s', ensureInbox s r = (s', Ok tt) /\ ensured s s' r.
Proof.
  intros Hi. unfold ensureInbox, TopicExists. case_bool_decide as Hex.
  { pose proof (saved_ensured s r Hi) as He. pose proof (SaveTopicConfig_ensured s _ (inbox_named r)) as [Hok _].
    destruct (SaveTopicConfig _ _) as [s' x]. cbn in *. subst x. by exists s'. }
  unfold Queue.CreateTopic.
  destruct (CreateTopic_inv s (inboxTopicConfig (inboxTopic r)) Hi) as [Hi1 Hr1].
  destruct (CreateTopic_topics s (inboxTopicConfig (inboxTopic r)) (inbox_named r)) as [Hok Ht1]; [done|done|].
  pose proof (@log_step_create map_to_list_range s (inboxTopicConfig (inboxTopic r))) as Hst.
  destruct (MemoryStore.CreateTopic _ _) as [s1 x1]. cbn in *. subst x1.
  pose proof (saved_ensured s1 r Hi1) as (E1 & E2 & E3 & E4 & E5 & E6).
  pose proof (SaveTopicConfig_ensured s1 _ (inbox_named r)) as [Hok2 _].
  destruct (SaveTopicConfig s1 _) as [s2 x2]. cbn in *. subst x2. exists s2. split; [done|].
  split_and!; [done| | | | |].
  - rewrite E2, Ht1. apply insert_insert_eq.
  - intros tp. rewrite E3. by destruct (Hr1 tp).
  - intros tp. rewrite E4. by destruct (Hr1 tp).
  - rewrite E5. by destruct (log_step_offsets s s1 Hst).
  - rewrite E6. by destruct (log_step_offsets s s1 Hst).
Qed.

Lemma conversation_ne sender recipient cid : sender <> "" -> recipient <> "" -> conversation sender recipient cid <> "".
Proof.
  intros Hs Hr. assert (defaultConversationID sender recipient <> "") as Hd.
  { unfold defaultConversationID. pose proof (sort_func_perm String.compare [sender; recipient]) as Hp.
    destruct (sort_func String.compare [sender; recipient]) as [|x [|y [|z l]]]; try (apply Permutation_length in Hp; discriminate).
    assert (x ∈ [sender; recipient]) as Hx by (rewrite <- Hp; left). destruct x; [|done]. set_solver. }
  unfold conversation. destruct cid as [cid|]; [|done]. by case_decide.
Qed.

(** What the record of a message is once it is in the log. *)
Lemma publish_message nowMS s r m msgs :
  log_inv s -> topics s !! inboxTopic r = Some (inboxConfig r) ->
  recordsOf s (inboxPartition r) = number sentRecord 0 msgs -> nextOffsetOf s (inboxPartition r) = len msgs ->
  len msgs < max_u64 -> len (msg_Payload m) <= 1024 * 1024 ->
  let ar := mkRecordAppend (Some (msg_TimestampMS m)) []
      [header headerMessageID (msg_MessageID m); header headerConversationID (msg_ConversationID m);
       header headerSender (msg_Sender m); header headerRecipient (msg_Recipient m)]
      directAttributeFlag None None (msg_Payload m) in
  exists s', PublishRecord nowMS s (inboxTopic r) 0 ar = (s', Ok (sentRecord (len msgs) m)) /\
    log_inv s' /\ topics s' = topics s /\ offsets s' = offsets s /\ offsetStates s' = offsetStates s /\
    forall r', recordsOf s' (inboxPartition r') = (if decide (r = r') then number sentRecord 0 (msgs ++ [m]) else recordsOf s (inboxPartition r')) /\
      nextOffsetOf s' (inboxPartition r') = (if decide (r = r') then len msgs + 1 else nextOffsetOf s (inboxPartition r')).
Proof.
  intros Hi Ht Hr Hn Hlt Hp ar. unfold PublishRecord. fold (inboxPartition r).
  assert ((AppendRecord nowMS s (inboxPartition r) ar).2 = Ok (sentRecord (len msgs) m)) as Hok.
  { unfold AppendRecord. cbn [inboxPartition tp_Topic tp_Partition]. rewrite Ht. change (tc_Partitions (inboxConfig r) <=? 0) with false.
    change (tc_MaxMessageBytes (inboxConfig r)) with (1024 * 1024). cbn [ra_Payload ar].
    destruct (Z.ltb_spec (1024 * 1024) (len (msg_Payload m))); [lia|]. cbn zeta. fold (inboxPartition r). rewrite Hn. done. }
  assert (nextOffsetOf s (inboxPartition r) < max_u64) as Hlt' by lia.
  pose proof (@log_step_inv map_to_list_range s _ Hi (log_step_append nowMS s (inboxPartition r) ar Hlt')) as [Hi' _].
  pose proof (@log_step_offsets map_to_list_range s _ (log_step_append nowMS s (inboxPartition r) ar Hlt')) as [Ho Hos].
  pose proof (fun r' => AppendRecord_log nowMS s (AppendRecord nowMS s (inboxPartition r) ar).1 (inboxPartition r) ar (sentRecord (len msgs) m) (inboxPartition r')) as Hlog.
  destruct (append_next_u64 s (inboxPartition r) Hi Hlt') as [Hu _]. rewrite Hu, Hn, Hr in Hlog.
  destruct (AppendRecord nowMS s (inboxPartition r) ar) as [s' x]. cbn [fst snd] in *. subst x. exists s'.
  split_and!; [done|done|by destruct (Hlog r eq_refl) as (_ & _ & ?)|done|done|]. intros r'.
  destruct (Hlog r' eq_refl) as (E1 & E2 & _). rewrite E1, E2.
  rewrite (decide_ext (inboxPartition r = inboxPartition r') (r = r')) by (split; [apply inboxPartition_inj|by intros ->]).
  rewrite (decide_ext (inboxPartition r = inboxPartition r') (r = r')) by (split; [apply inboxPartition_inj|by intros ->]).
  destruct (decide (r = r')); [|done]. rewrite number_app. split; done.
Qed.

Lemma send_step idMS tsMS s a sender recipient cid payload :
  implements s a -> len (default [] (in_messages a !! recipient)) < max_u64 ->
  (Send idMS tsMS s sender recipient cid payload).2 = (specSend idMS tsMS a sender recipient cid payload).2 /\
  implements (Send idMS tsMS s sender recipient cid payload).1 (specSend idMS tsMS a sender recipient cid payload).1.
Proof.
  intros [I1 I2 I3 I4 I5 I6 I7] Hlt. unfold Send, specSend. case_decide as Hne; [done|].
  destruct (ensureInbox_spec (ds_store s) recipient I1) as (s1 & -> & Hi1 & Ht1 & Hr1 & Hn1 & Ho1 & Hos1).
  cbn [nextMessageID ds_store ds_sequence]. fold (conversation sender recipient cid). rewrite I2. cbn zeta.
  set (id := "dm-" +:+ fmt_d idMS +:+ "-" +:+ fmt_d (u64 (in_sequence a + 1))).
  set (msgs := default [] (in_messages a !! recipient)) in *.
  set (m := mkMessage id (conversation sender recipient cid) sender recipient tsMS payload).
  assert (topics s1 !! inboxTopic recipient = Some (inboxConfig recipient)) as Htop by (rewrite Ht1; apply lookup_insert_eq).
  assert (forall r, topics s1 !! inboxTopic r = match <[recipient := msgs]> (in_messages a) !! r with None => None | Some _ => Some (inboxConfig r) end) as Htops.
  { intros r. rewrite Ht1. destruct (decide (recipient = r)) as [<-|Hr]; [by rewrite !lookup_insert_eq|].
    rewrite !lookup_insert_ne; [apply I3|done|]. intros E%inboxTopic_inj. done. }
  destruct (Z.ltb_spec (1024 * 1024) (len payload)) as [Hbig|Hsmall].
  - assert (forall ar, ra_Payload ar = payload -> PublishRecord tsMS s1 (inboxTopic recipient) 0 ar = (s1, Err CodeInvalidArgument)) as Hpub.
    { intros ar Hp. unfold PublishRecord, AppendRecord. cbn [tp_Topic tp_Partition]. rewrite Htop.
      change (tc_Partitions (inboxConfig recipient) <=? 0) with false. change (tc_MaxMessageBytes (inboxConfig recipient)) with (1024 * 1024).
      rewrite Hp. by destruct (Z.ltb_spec (1024 * 1024) (len payload)); [|lia]. }
    rewrite Hpub by done. split; [done|]. cbn [fst]. split; cbn [ds_store ds_sequence in_messages in_sequence in_acked]; try done.
    + intros r. rewrite Hr1, I4. destruct (decide (recipient = r)) as [<-|Hr]; [by rewrite lookup_insert_eq|by rewrite lookup_insert_ne].
    + intros r. rewrite Hn1, I5. destruct (decide (recipient = r)) as [<-|Hr]; [by rewrite lookup_insert_eq|by rewrite lookup_insert_ne].
    + intros c r. rewrite (LoadConsumerOffset_frame (ds_store s)) by done. apply I6.
    + intros r l [[<- <-]|[_ Hl]]%lookup_insert_Some; [|by eapply I7]. unfold msgs.
      destruct (in_messages a !! recipient) eqn:E; [by eapply I7|constructor].
  - destruct (publish_message tsMS s1 recipient m msgs) as (s2 & Hpub & Hi2 & Ht2 & Ho2 & Hos2 & Hr2); try done.
    { by rewrite Hr1, I4. }
    { by rewrite Hn1, I5. }
    change (mkRecordAppend (Some tsMS) _ _ _ _ _ _) with (mkRecordAppend (Some (msg_TimestampMS m)) []
      [header headerMessageID (msg_MessageID m); header headerConversationID (msg_ConversationID m);
       header headerSender (msg_Sender m); header headerRecipient (msg_Recipient m)] directAttributeFlag None None (msg_Payload m)).
    rewrite Hpub. assert (u64 (len msgs + 1) = len msgs + 1) as Hu.
    { apply u64_small. pose proof (len_nonneg msgs). unfold is_u64, max_u64 in *. lia. }
    cbn [r_Offset sentRecord snd fst]. rewrite Hu. split; [done|]. split; cbn [ds_store ds_sequence in_messages in_sequence in_acked]; try done.
    + intros r. rewrite Ht2, Htops. destruct (decide (recipient = r)) as [<-|Hr]; [by rewrite !lookup_insert_eq|by rewrite !lookup_insert_ne].
    + intros r. destruct (Hr2 r) as [-> _]. destruct (decide (recipient = r)) as [<-|Hr]; [by rewrite lookup_insert_eq|].
      rewrite lookup_insert_ne, Hr1 by done. apply I4.
    + intros r. destruct (Hr2 r) as [_ ->]. destruct (decide (recipient = r)) as [<-|Hr].
      * rewrite lookup_insert_eq. change (default [] (Some ?x)) with x. rewrite len_app, len_cons, len_nil. lia.
      * rewrite lookup_insert_ne, Hn1 by done. apply I5.
    + intros c r. rewrite (LoadConsumerOffset_frame (ds_store s)) by congruence. apply I6.
    + intros r l [[<- <-]|[_ Hl]]%lookup_insert_Some; [|by eapply I7]. apply Forall_app. split.
      * unfold msgs. destruct (in_messages a !! recipient) eqn:E; [by eapply I7|constructor].
      * constructor; [|constructor]. split_and!; cbn; [done|apply conversation_ne; tauto|tauto|tauto].
Qed.

Lemma ack_step nowMS s a consumer recipient nextOffset :
  implements s a ->
  (AckInboxForConsumer nowMS (ds_store s) consumer recipient nextOffset).2 = (specAck a consumer recipient nextOffset).2 /\
  implements (mkDirectState (AckInboxForConsumer nowMS (ds_store s) consumer recipient nextOffset).1 (ds_sequence s))
    (specAck a consumer recipient nextOffset).1.
Proof.
  intros Hi. unfold AckInboxForConsumer, Ack, SaveConsumerOffset, specAck. fold (inboxPartition recipient).
  set (st := mkConsumerOffsetState consumer (tp_Topic (inboxPartition recipient)) (tp_Partition (inboxPartition recipient)) nextOffset [] "" nowMS).
  case_decide as Hc.
  { subst consumer. unfold SaveConsumerOffsetState, validateConsumerOffsetState. cbn. by destruct s. }
  assert (exists s', SaveConsumerOffsetState (ds_store s) st = (s', Ok tt)) as [s' Es].
  { unfold SaveConsumerOffsetState, validateConsumerOffsetState. cbn -[inboxTopic]. rewrite decide_False by done.
    rewrite decide_False by exact (inbox_named recipient). by eexists. }
  rewrite Es. split; [done|]. cbn [fst]. destruct Hi as [I1 I2 I3 I4 I5 I6 I7].
  pose proof (meta_step_log (ds_store s) _ (meta_save_offset (ds_store s) st)) as Hl. rewrite Es in Hl. cbn [fst] in Hl.
  pose proof (log_inv_proper _ _ Hl I1) as Hi'. destruct Hl as (E1 & E2 & E3 & E4).
  split; cbn [ds_store ds_sequence in_messages in_sequence in_acked]; try done.
  - intros r. rewrite E1. apply I3.
  - intros r. unfold recordsOf. rewrite E3. apply I4.
  - intros r. unfold nextOffsetOf, recordsOf. rewrite E3, E4. apply I5.
  - intros c r.
    destruct (consumer_offsets_isolated (ds_store s) s' st c (inboxPartition r) Es) as (Hself & _ & Hother);
      try apply inboxTopic_no_nul; try done.
    destruct (decide ((c, r) = (consumer, recipient))) as [[= -> ->]|Hne]; [by rewrite lookup_insert_eq|].
    rewrite lookup_insert_ne by done. rewrite <- I6. apply Hother. intros [-> E]%pair_equal_spec. apply Hne.
    f_equal. by apply inboxPartition_inj.
Qed.

Lemma fetch_step s a consumer recipient maxRecords :
  implements s a -> len (default [] (in_messages a !! recipient)) < max_u64 ->
  FetchInboxForConsumer (ds_store s) consumer recipient maxRecords = Ok (specFetch a consumer recipient maxRecords).
Proof.
  intros [I1 I2 I3 I4 I5 I6 I7] Hlt. unfold FetchInboxForConsumer, specFetch, Fetch. fold (inboxPartition recipient).
  pose proof (I3 recipient) as Ht. destruct (in_messages a !! recipient) as [msgs|] eqn:Em.
  2: { unfold PartitionOffsets, validatePartitionLocked. cbn [inboxPartition tp_Topic]. rewrite Ht. cbn. by rewrite decide_True. }
  assert (validatePartitionLocked (ds_store s) (inboxPartition recipient) = Ok tt) as Hv.
  { unfold validatePartitionLocked. cbn [inboxPartition tp_Topic tp_Partition]. by rewrite Ht. }
  rewrite PartitionOffsets_ok by done. rewrite I5, I4, I6, Em. change (default [] (Some ?x)) with x in *.
  cbn [mbind result_bind]. set (start := Z.max (default 0 (in_acked a !! (consumer, recipient))) 0).
  assert (match recordOffsets (number sentRecord 0 msgs) with [] => len msgs | value :: _ => value end = 0) as Hstart
    by (by destruct msgs).
  cbn [pos_LogStartOffset partitionOffsetsFromRecordOffsets pos_HighWatermark pos_LowWatermark]. rewrite Hstart.
  assert (match in_acked a !! (consumer, recipient) with Some committed => Z.max committed 0 | None => 0 end = start) as ->
    by (unfold start; by destruct (in_acked a !! (consumer, recipient))).
  set (page := take (Z.to_nat maxRecords) (drop (Z.to_nat start) msgs)).
  assert (ReadFrom (ds_store s) (inboxPartition recipient) start maxRecords =
          Ok (take (Z.to_nat maxRecords) (drop (Z.to_nat start) (number sentRecord 0 msgs)))) as ->.
  { destruct (decide (0 < maxRecords)) as [Hm|Hm].
    - rewrite ReadFrom_ok, I4, Em by done. change (default [] (Some ?x)) with x. rewrite filter_number_ge by lia.
      by rewrite Z.sub_0_r.
    - unfold ReadFrom. destruct (Z.leb_spec maxRecords 0); [|lia]. by replace (Z.to_nat maxRecords) with 0%nat by lia. }
  cbn [mbind result_bind pr_Records pr_NextOffset pr_HighWatermark pr_LowWatermark pr_LogStartOffset].
  rewrite !drop_number, !take_number. fold page. rewrite decode_numbered; [|unfold page; apply Forall_take, Forall_drop; by eapply I7].
  cbn [mbind result_bind]. rewrite !last_number. f_equal. f_equal; [|by destruct msgs].
  destruct (last page) as [m|] eqn:El; [|done]. cbn. apply u64_small. unfold is_u64.
  assert (Z.to_nat start + length page <= length msgs)%nat as Hlen.
  { destruct (decide (Z.to_nat start <= length msgs)%nat); [unfold page; rewrite length_take, length_drop; lia|].
    unfold page in El. rewrite drop_ge, take_nil in El by lia. done. }
  unfold len, max_u64 in *. lia.
Qed.

(** ** Runs *)

Inductive directOp :=
| DSend (idMS tsMS : Z) (sender recipient : string) (cid : option string) (payload : bytes)
| DAck (nowMS : Z) (consumer recipient : string) (nextOffset : Z)
| DFetch (consumer recipient : string) (maxRecords : Z).

Inductive directAnswer :=
| ASent (r : result Code SendResult)
| AAcked (r : result Code unit)
| AFetched (r : result Code FetchInboxResult).

Definition execDirect (s : DirectState) (op : directOp) : DirectState * directAnswer :=
  match op with
  | DSend idMS tsMS sender recipient cid payload =>
      let '(s, r) := Send idMS tsMS s sender recipient cid payload in (s, ASent r)
  | DAck nowMS consumer recipient nextOffset =>
      let '(st, r) := AckInboxForConsumer nowMS (ds_store s) consumer recipient nextOffset in
      (mkDirectState st (ds_sequence s), AAcked r)
  | DFetch consumer recipient maxRecords => (s, AFetched (FetchInboxForConsumer (ds_store s) consumer recipient maxRecords))
  end.

Definition execMessenger (a : messenger) (op : directOp) : messenger * directAnswer :=
  match op with
  | DSend idMS tsMS sender recipient cid payload =>
      let '(a, r) := specSend idMS tsMS a sender recipient cid payload in (a, ASent r)
  | DAck nowMS consumer recipient nextOffset =>
      let '(a, r) := specAck a consumer recipient nextOffset in (a, AAcked r)
  | DFetch consumer recipient maxRecords => (a, AFetched (Ok (specFetch a consumer recipient maxRecords)))
  end.

Fixpoint runDirect {S} (exec : S -> directOp -> S * directAnswer) (s : S) (ops : list directOp) : list directAnswer :=
  match ops with
  | [] => []
  | op :: ops => let '(s, answer) := exec s op in answer :: runDirect exec s ops
  end.

(** No inbox is longer than [n]. *)
Definition short (a : messenger) (n : Z) : Prop := forall r, len (default [] (in_messages a !! r)) <= n.

Lemma exec_short a n op : short a n -> short (execMessenger a op).1 (n + 1).
Proof.
  intros Hs. assert (short a (n + 1)) as Hs' by (intros r; specialize (Hs r); lia).
  destruct op as [idMS tsMS sender recipient cid payload|nowMS c r o|c r k]; [|cbn; unfold specAck; by case_decide|done].
  cbn [execMessenger]. unfold specSend. case_decide; [done|]. cbn zeta.
  destruct (1024 * 1024 <? len payload); intros r; cbn; (destruct (decide (recipient = r)) as [<-|Hr];
    [rewrite lookup_insert_eq|rewrite lookup_insert_ne by done; apply Hs']).
  - apply Hs'.
  - change (default [] (Some ?x)) with x. rewrite len_app, len_cons, len_nil. specialize (Hs recipient). lia.
Qed.

Lemma exec_implements s a n op : implements s a -> short a n -> n < max_u64 ->
  (execDirect s op).2 = (execMessenger a op).2 /\ implements (execDirect s op).1 (execMessenger a op).1.
Proof.
  intros Hi Hs Hn. destruct op as [idMS tsMS sender recipient cid payload|nowMS c r o|c r k]; cbn [execDirect execMessenger].
  - destruct (send_step idMS tsMS s a sender recipient cid payload Hi) as [E1 E2]; [specialize (Hs recipient); lia|].
    destruct (Send _ _ _ _ _ _ _), (specSend _ _ _ _ _ _ _). cbn in *. by rewrite E1.
  - destruct (ack_step nowMS s a c r o Hi) as [E1 E2]. destruct (AckInboxForConsumer _ _ _ _ _), (specAck _ _ _ _). cbn in *. by rewrite E1.
  - cbn. rewrite (fetch_step s a) by (try done; specialize (Hs r); lia). done.
Qed.

Lemma runs_implement ops s a n :
  implements s a -> short a n -> n + len ops <= max_u64 -> runDirect execDirect s ops = runDirect execMessenger a ops.
Proof.
  revert s a n. induction ops as [|op ops IH]; intros s a n Hi Hs Hn; [done|]. rewrite len_cons in Hn.
  pose proof (len_nonneg ops) as Hl. cbn [runDirect].
  destruct (exec_implements s a n op) as [Ha Hi']; [done|done|lia|].
  pose proof (exec_short a n op Hs) as Hs'. destruct (execDirect s op) as [s' x], (execMessenger a op) as [a' y]. cbn in *. subst y.
  f_equal. apply (IH s' a' (n + 1)); [done|done|lia].
Qed.

Definition noMessages : messenger := mkMessenger ∅ 0 ∅.

Lemma implements_empty : implements (mkDirectState NewMemoryStore 0) noMessages.
Proof.
  split; cbn [ds_store ds_sequence noMessages in_messages in_sequence in_acked]; done.
Qed.

(** C40: direct messages are delivered.  Starting from an empty store, every
    sequence of sends, fetches and acknowledgements, by any senders,
    recipients and consumers, is answered as by the messenger that keeps one
    list per recipient: a fetch returns the messages sent to that recipient
    from the consumer's acknowledged position on, in the order they were sent,
    with ids, participants, time and payload as sent. *)
Theorem direct_delivers (ops : list directOp) :
  len ops < max_u64 ->
  runDirect execDirect (mkDirectState NewMemoryStore 0) ops = runDirect execMessenger noMessages ops.
Proof.
  intros Hn. apply (runs_implement ops _ _ 0); [apply implements_empty| |lia].
  intros r. cbn. by rewrite lookup_empty.
Qed.

Definition ex_direct_ops : list directOp := [
  DSend 1 2 "alice" "bob" None [Byte.x61];
  DSend 3 4 "carol" "bob" (Some "chat") [Byte.x62];
  DSend 5 6 "bob" "alice" None [Byte.x63];
  DFetch "c" "bob" 10;
  DAck 7 "c" "bob" 1;
  DFetch "c" "bob" 10].

Lemma direct_delivers_witness :
  runDirect execDirect (mkDirectState NewMemoryStore 0) ex_direct_ops = runDirect execMessenger noMessages ex_direct_ops /\
  last (runDirect execMessenger noMessages ex_direct_ops) =
    Some (AFetched (Ok (mkFetchInboxResult "bob"
      [mkInboxRecord 1 (mkMessage "dm-3-2" "chat" "carol" "bob" 4 [Byte.x62])] 2 (Some 1) (Some 0) 0))).
Proof. split; [apply (direct_delivers ex_direct_ops); by vm_compute|by vm_compute]. Defined.

(** ** Notes on the code *)

(** The handler of the replicated command reads the local clock and the local
    counter, so replicas that apply the same command store different
    messages. *)
Lemma direct_send_diverges :
  let req := mkDirectCommand "alice" "bob" None [Byte.x61] in
  let s := mkDirectState NewMemoryStore 0 in
  recordsOf (ds_store (applyDirectSend 1 1 s req).1) (inboxPartition "bob") <>
  recordsOf (ds_store (applyDirectSend 2 2 s req).1) (inboxPartition "bob").
Proof. vm_compute. discriminate. Qed.

(** Conversations of different participants can get the same default id. *)
Lemma conversation_ids_collide : defaultConversationID "a:b" "c" = defaultConversationID "a" "b:c".
Proof. by vm_compute. Qed.
