(* ===== verification/RequestReply.v ===== *)
(** * Requests and replies

    [src/broker/request_reply*.go]: a request is a record of a subject's topic
    whose payload is an envelope with a correlation id; the reply is a direct
    message to the inbox of the requesting instance, an envelope with the same
    id.  The requester polls that inbox with a cursor of its own per request.

    The envelopes are JSON, through the class [Json].  [rand] is what the
    random source gave.  Durations are nanoseconds on 64 bits with sign.

    A wait for replies sleeps between polls until the deadline.  Its argument
    [waits] lists, for every sleep that ended before the deadline, what the
    other participants did to the store in the meantime; behind the last of
    them the deadline has passed.  [clock] gives the time of each
    acknowledgement. *)

From stdpp Require Import prelude gmap strings sorting list.
From S2P Require Import Prelude Model MemoryStore MetaStore Queue Idempotency Headers Produce GoStrings Governance Handlers Transactions Messages Service Direct Snapshot.

#[local] Open Scope Z_scope.

Definition requestEnvelopeType : string := "ech0.request.v1".
Definition replyEnvelopeType : string := "ech0.reply.v1".
Definition Millisecond : Z := 1000000.
Definition defaultRequestTimeout : Z := 5 * 1000 * Millisecond.
Definition defaultRequestPollInterval : Z := 5 * Millisecond.
Definition defaultReplyFetchRecords : Z := 16.
Definition replyCursorConsumerPrefix : string := "__direct_reply/".
Definition RequestReplyModeFirstResponseWins : string := "first_response_wins".
Definition RequestReplyModeMultiReplier : string := "multi_replier".

Record RequestOptions := mkRequestOptions {
  ro_InstanceID : string;
  ro_Timeout : Z;
  ro_PollInterval : Z;
  ro_Partitioning : PublishPartitioning;
  ro_ReplyMode : string;
  ro_Headers : list RecordHeader
}.

Record PendingRequest := mkPendingRequest {
  pq_Subject : string;
  pq_InstanceID : string;
  pq_ReplyTo : string;
  pq_CorrelationID : string;
  pq_ExpiresAtMS : Z;
  pq_PollInterval : Z;
  pq_ReplyMode : string;
  pq_Produce : ProduceResult
}.

Record RequestMessage := mkRequestMessage {
  rq_Subject : string;
  rq_ReplyTo : string;
  rq_CorrelationID : string;
  rq_SenderID : string;
  rq_ExpiresAtMS : Z;
  rq_ReplyMode : string;
  rq_Headers : list RecordHeader;
  rq_Payload : bytes;
  rq_Record : Rec
}.

Record ReplyMessage := mkReplyMessage {
  rm_Offset : Z;
  rm_Subject : string;
  rm_CorrelationID : string;
  rm_SenderID : string;
  rm_Error : option string;
  rm_Payload : bytes;
  rm_Message : Message
}.

Record RequestPollResult := mkRequestPollResult {
  rp_Subject : string;
  rp_Partition : Z;
  rp_Requests : list RequestMessage;
  rp_NextOffset : Z;
  rp_HighWatermark : option Z;
  rp_LowWatermark : option Z;
  rp_LogStartOffset : Z
}.

Definition ExpiredAt (m : RequestMessage) (nowMS : Z) : bool := (0 <? rq_ExpiresAtMS m) && (rq_ExpiresAtMS m <=? nowMS).

(** ** Envelopes *)

Record requestReplyEnvelope := mkEnvelope {
  env_Type : string;
  env_Subject : string;
  env_CorrelationID : string;
  env_ReplyTo : string;
  env_SenderID : string;
  env_ExpiresAtMS : Z;
  env_ReplyMode : string;
  env_Headers : list RecordHeader;
  env_Error : option string;
  env_Payload : bytes
}.

#[export] Instance envelope_empty : Empty requestReplyEnvelope := mkEnvelope "" "" "" "" "" 0 "" [] None [].

(** The copy of a record leaves its expiry out. *)
Definition cloneRecord (record : Rec) : Rec :=
  mkRec (r_Offset record) (r_TimestampMS record) (r_Key record) (r_Headers record) (r_Attributes record)
    (r_Transaction record) None (r_Payload record).

Definition normalizeRequestReplyMode (mode : string) : result BrokerError string :=
  let value := TrimSpace mode in
  if decide (value = "") then Ok RequestReplyModeFirstResponseWins
  else if decide (value = RequestReplyModeFirstResponseWins \/ value = RequestReplyModeMultiReplier) then Ok value
  else Err (StoreError CodeInvalidArgument).

Definition requestReplyModeFromString (mode : string) : string :=
  match normalizeRequestReplyMode mode with Ok normalized => normalized | Err _ => RequestReplyModeFirstResponseWins end.

Section Codec.
Context {J : Json requestReplyEnvelope}.

Definition encodeRequestReplyEnvelope (envelope : requestReplyEnvelope) : result BrokerError bytes :=
  match Marshal envelope with Some payload => Ok payload | None => Err (BrokerFailure "json_marshal_failed") end.

Definition encodeRequestPayload (subject : string) (opts : RequestOptions) (correlationID replyTo : string) (expiresAtMS : Z)
    (payload : bytes) : result BrokerError bytes :=
  encodeRequestReplyEnvelope {|
    env_Type := requestEnvelopeType; env_Subject := subject; env_CorrelationID := correlationID; env_ReplyTo := replyTo;
    env_SenderID := ro_InstanceID opts; env_ExpiresAtMS := expiresAtMS; env_ReplyMode := ro_ReplyMode opts;
    env_Headers := ro_Headers opts; env_Error := None; env_Payload := payload |}.

Definition encodeReplyPayload (req : RequestMessage) (responderID : string) (payload : bytes) (errorMessage : option string)
    : result BrokerError bytes :=
  encodeRequestReplyEnvelope {|
    env_Type := replyEnvelopeType; env_Subject := rq_Subject req; env_CorrelationID := rq_CorrelationID req; env_ReplyTo := "";
    env_SenderID := responderID; env_ExpiresAtMS := 0; env_ReplyMode := ""; env_Headers := []; env_Error := errorMessage;
    env_Payload := payload |}.

Definition decodeRequestReplyEnvelope (payload : bytes) (wantType : string) : result BrokerError requestReplyEnvelope :=
  match Unmarshal payload with
  | None => Err (BrokerFailure "json_unmarshal_failed")
  | Some envelope =>
      if decide (env_Type envelope = wantType) then
        if decide (env_CorrelationID envelope = "") then Err (StoreError CodeCodec) else Ok envelope
      else Err (StoreError CodeCodec)
  end.

Definition requestFromRecord (subject : string) (record : Rec) : result BrokerError RequestMessage :=
  envelope ← decodeRequestReplyEnvelope (r_Payload record) requestEnvelopeType;
  Ok {| rq_Subject := subject; rq_ReplyTo := env_ReplyTo envelope; rq_CorrelationID := env_CorrelationID envelope;
        rq_SenderID := env_SenderID envelope; rq_ExpiresAtMS := env_ExpiresAtMS envelope;
        rq_ReplyMode := requestReplyModeFromString (env_ReplyMode envelope); rq_Headers := env_Headers envelope;
        rq_Payload := env_Payload envelope; rq_Record := cloneRecord record |}.

Definition replyFromDirect (message : Message) : result BrokerError ReplyMessage :=
  envelope ← decodeRequestReplyEnvelope (msg_Payload message) replyEnvelopeType;
  Ok {| rm_Offset := 0; rm_Subject := env_Subject envelope; rm_CorrelationID := env_CorrelationID envelope;
        rm_SenderID := env_SenderID envelope; rm_Error := env_Error envelope; rm_Payload := env_Payload envelope;
        rm_Message := message |}.

Fixpoint requestMessagesFromRecords (subject : string) (records : list Rec) : result BrokerError (list RequestMessage) :=
  match records with
  | [] => Ok []
  | record :: records =>
      request ← requestFromRecord subject record;
      requests ← requestMessagesFromRecords subject records;
      Ok (request :: requests)
  end.

(** ** Options *)

Definition normalizeRequestOptions (opts : RequestOptions) : result BrokerError RequestOptions :=
  let instanceID := TrimSpace (ro_InstanceID opts) in
  if decide (instanceID = "") then Err (StoreError CodeInvalidArgument)
  else
    let timeout := if ro_Timeout opts <=? 0 then defaultRequestTimeout else ro_Timeout opts in
    let pollInterval := if ro_PollInterval opts <=? 0 then defaultRequestPollInterval else ro_PollInterval opts in
    let partitioning := if decide (pp_Mode (ro_Partitioning opts) = "") then mkPublishPartitioning PartitionRoundRobin 0 ""
                        else ro_Partitioning opts in
    mode ← normalizeRequestReplyMode (ro_ReplyMode opts);
    Ok (mkRequestOptions instanceID timeout pollInterval partitioning mode (ro_Headers opts)).

(** Sixteen random bytes in hexadecimal. *)
Definition newCorrelationID (rand : option bytes) : result BrokerError string :=
  match rand with
  | Some raw => Ok (hexEncode (String.string_of_list_byte raw))
  | None => Err (BrokerFailure "request_correlation_id_failed")
  end.

Definition replyRecipient (instanceID : string) : string := "__reply/" +:+ instanceID.

(** Division of Go rounds towards zero. *)
Definition durationMillis (duration : Z) : Z :=
  let millis := Z.quot duration Millisecond in
  if millis <=? 0 then 1 else millis.

(** ** Sending requests and replies *)

Section Broker.
Context `{MapRange} `{Hash64} (cfg : GovernanceConfig).

Definition StartRequest (requestTokens publishTokens : string -> Z -> bool) (rand : option bytes) (expiryMS : Z)
    (clock : nat -> Z) (nowMS : Z) (ctx : Identity) (subject : string) (payload : bytes) (opts : RequestOptions)
    : BM PendingRequest :=
  let identity := identity_of cfg ctx in
  let subject := TrimSpace subject in
  if decide (subject = "") then fail (StoreError CodeInvalidArgument)
  else
    _ ← checkQuota cfg requestTokens (mkQuotaRequest identity QuotaActionRequest subject 0 1 (len payload) 0 0 0 0 0 0);
    normalized ← pure (normalizeRequestOptions opts);
    correlationID ← pure (newCorrelationID rand);
    let timeoutMS := durationMillis (ro_Timeout normalized) in
    let expiresAtMS := u64 (expiryMS + timeoutMS) in
    let replyTo := replyRecipient (ro_InstanceID normalized) in
    requestPayload ← pure (encodeRequestPayload subject normalized correlationID replyTo expiresAtMS payload);
    produced ← Service.Publish cfg publishTokens clock nowMS ctx subject (ro_Partitioning normalized) [] false requestPayload;
    mret (mkPendingRequest subject (ro_InstanceID normalized) replyTo correlationID expiresAtMS (ro_PollInterval normalized)
            (ro_ReplyMode normalized) produced).

Definition FetchRequestsWithIsolation (allowN : string -> Z -> bool) (ctx : Identity) (consumer subject : string)
    (partition : Z) (offset : option Z) (maxRecords : Z) (isolation : string) : BM RequestPollResult :=
  poll ← Service.FetchWithIsolation cfg allowN ctx consumer subject partition offset maxRecords isolation;
  requests ← pure (requestMessagesFromRecords subject (pr_Records poll));
  mret (mkRequestPollResult subject partition requests (pr_NextOffset poll) (pr_HighWatermark poll) (pr_LowWatermark poll)
          (pr_LogStartOffset poll)).

Definition FetchRequests (allowN : string -> Z -> bool) (ctx : Identity) (consumer subject : string) (partition : Z)
    (offset : option Z) (maxRecords : Z) : BM RequestPollResult :=
  FetchRequestsWithIsolation allowN ctx consumer subject partition offset maxRecords "read_uncommitted".

Definition reply (nowMS idMS tsMS : Z) (ctx : Identity) (s : DirectState) (req : RequestMessage) (responderID : string)
    (payload : bytes) (errorMessage : option string) : DirectState * result BrokerError SendResult :=
  if decide (rq_ReplyTo req = "" \/ rq_CorrelationID req = "") then (s, Err (StoreError CodeInvalidArgument))
  else if ExpiredAt req nowMS then (s, Err (StoreError CodeUnavailable))
  else match encodeReplyPayload req responderID payload errorMessage with
       | Err e => (s, Err e)
       | Ok replyPayload =>
           SendDirect (gc_DefaultTenant cfg) (gc_DefaultNamespace cfg) idMS tsMS ctx s responderID (rq_ReplyTo req)
             (Some (rq_CorrelationID req)) replyPayload
       end.

Definition Reply (nowMS idMS tsMS : Z) (ctx : Identity) (s : DirectState) (req : RequestMessage) (responderID : string)
    (payload : bytes) : DirectState * result BrokerError SendResult :=
  reply nowMS idMS tsMS ctx s req responderID payload None.

Definition ReplyError (nowMS idMS tsMS : Z) (ctx : Identity) (s : DirectState) (req : RequestMessage)
    (responderID errorMessage : string) : DirectState * result BrokerError SendResult :=
  reply nowMS idMS tsMS ctx s req responderID [] (Some errorMessage).

(** ** Waiting for replies *)

Definition replyInboxConsumer (identity : Identity) (pending : PendingRequest) : string :=
  let name := pq_ReplyTo pending +:+ "/" +:+ pq_CorrelationID pending in
  if defaultScope identity then replyCursorConsumerPrefix +:+ name else scopedName identity "direct_reply" name.

Definition ackReplyInbox (now : bool -> Z) (identity : Identity) (pending : PendingRequest) (nextOffset : Z) : BM unit :=
  fun b =>
    let '(s, r) := applyDirectAck now (b_store b)
      (mkAckDirectCommand (scopedName identity "direct" (pq_ReplyTo pending)) (replyInboxConsumer identity pending) nextOffset) in
    (set_store s b, r).

(** The loop over a page: the first reply with the id of the request. *)
Fixpoint findReply (pending : PendingRequest) (records : list InboxRecord) : result BrokerError (option ReplyMessage) :=
  match records with
  | [] => Ok None
  | record :: records =>
      reply ← replyFromDirect (ir_Message record);
      if decide (rm_CorrelationID reply = pq_CorrelationID pending) then
        Ok (Some (mkReplyMessage (ir_Offset record) (rm_Subject reply) (rm_CorrelationID reply) (rm_SenderID reply)
                    (rm_Error reply) (rm_Payload reply) (rm_Message reply)))
      else findReply pending records
  end.

Definition fetchReplyOnce (now : bool -> Z) (identity : Identity) (pending : PendingRequest) : BM (option ReplyMessage) :=
  inbox ← reads (fun b => of_store (FetchInboxForConsumer (b_store b) (replyInboxConsumer identity pending)
                                      (scopedName identity "direct" (pq_ReplyTo pending)) defaultReplyFetchRecords));
  found ← pure (findReply pending (fi_Records inbox));
  match found with
  | Some reply =>
      _ ← ackReplyInbox now identity pending (u64 (rm_Offset reply + 1));
      mret (Some reply)
  | None =>
      match fi_Records inbox with
      | [] => mret None
      | _ =>
          _ ← ackReplyInbox now identity pending (fi_NextOffset inbox);
          mret None
      end
  end.

Definition awaitRepliesResult (replies : list ReplyMessage) (found : Z) (err : BrokerError) : result BrokerError (list ReplyMessage) :=
  if 0 <? found then Ok replies else Err err.

Definition timeoutError : BrokerError := BrokerFailure "request_reply_timeout".

(** [left] replies are missing; [poll] counts the polls. *)
Fixpoint awaitLoop (clock : nat -> bool -> Z) (identity : Identity) (pending : PendingRequest)
    (waits : list (MemoryStore -> MemoryStore)) : nat -> nat -> list ReplyMessage -> BM (list ReplyMessage) :=
  fix collect (poll left : nat) (replies : list ReplyMessage) {struct left} : BM (list ReplyMessage) :=
    match left with
    | O => mret replies
    | S left' =>
        found ← fetchReplyOnce (clock poll) identity pending;
        match found with
        | Some reply => collect (S poll) left' (replies ++ [reply])
        | None =>
            match waits with
            | [] => pure (awaitRepliesResult replies (len replies) timeoutError)
            | wait :: waits => fun b => awaitLoop clock identity pending waits (S poll) left replies (set_store (wait (b_store b)) b)
            end
        end
    end.

Definition validateAwaitReplies (ctx : Identity) (pending : PendingRequest) (maxReplies : Z) : BM Identity :=
  if decide (pq_CorrelationID pending = "" \/ pq_ReplyTo pending = "") then fail (StoreError CodeInvalidArgument)
  else if maxReplies <=? 0 then fail (StoreError CodeInvalidArgument)
  else
    let identity := identity_of cfg ctx in
    _ ← authorizes identity ACLActionConsume (directInboxResource identity (pq_ReplyTo pending));
    _ ← authorizes identity ACLActionCommit (directInboxResource identity (pq_ReplyTo pending));
    mret identity.

Definition AwaitReplies (clock : nat -> bool -> Z) (waits : list (MemoryStore -> MemoryStore)) (ctx : Identity)
    (pending : PendingRequest) (maxReplies : Z) : BM (list ReplyMessage) :=
  identity ← validateAwaitReplies ctx pending maxReplies;
  awaitLoop clock identity pending waits 0 (Z.to_nat maxReplies) [].

Definition AwaitReply (clock : nat -> bool -> Z) (waits : list (MemoryStore -> MemoryStore)) (ctx : Identity)
    (pending : PendingRequest) : BM ReplyMessage :=
  replies ← AwaitReplies clock waits ctx pending 1;
  match replies with
  | [] => fail (StoreError CodeUnavailable)
  | reply :: _ => mret reply
  end.

Definition Request (requestTokens publishTokens : string -> Z -> bool) (rand : option bytes) (expiryMS : Z)
    (clock : nat -> Z) (nowMS : Z) (acks : nat -> bool -> Z) (waits : list (MemoryStore -> MemoryStore)) (ctx : Identity)
    (subject : string) (payload : bytes) (opts : RequestOptions) : BM ReplyMessage :=
  pending ← StartRequest requestTokens publishTokens rand expiryMS clock nowMS ctx subject payload opts;
  AwaitReply acks waits ctx pending.

Definition RequestMany (requestTokens publishTokens : string -> Z -> bool) (rand : option bytes) (expiryMS : Z)
    (clock : nat -> Z) (nowMS : Z) (acks : nat -> bool -> Z) (waits : list (MemoryStore -> MemoryStore)) (ctx : Identity)
    (subject : string) (payload : bytes) (maxReplies : Z) (opts : RequestOptions) : BM (list ReplyMessage) :=
  pending ← StartRequest requestTokens publishTokens rand expiryMS clock nowMS ctx subject payload opts;
  AwaitReplies acks waits ctx pending maxReplies.

(** ** Old cursors *)

Record deleteConsumerOffsetCommand := mkDeleteConsumerOffsetCommand {
  dco_Consumer : string;
  dco_Topic : string;
  dco_Partition : Z
}.

Definition isReplyCursorConsumer (consumer : string) : bool :=
  HasPrefix consumer replyCursorConsumerPrefix || Contains consumer "/direct_reply/".

Definition isReplyCursorOffset (state : ConsumerOffsetState) : bool :=
  IsInternalTopicName (cos_Topic state) && isReplyCursorConsumer (cos_Consumer state).

Definition replyCursorExpired (state : ConsumerOffsetState) (nowMS ttlMS : Z) : bool :=
  if cos_UpdatedAtMS state =? 0 then true
  else if ttlMS =? 0 then false
  else (cos_UpdatedAtMS state <=? nowMS) && (ttlMS <=? nowMS - cos_UpdatedAtMS state).

Definition staleReplyCursorDeleteCommands (states : list ConsumerOffsetState) (nowMS ttlMS : Z)
    : list deleteConsumerOffsetCommand :=
  (fun state => mkDeleteConsumerOffsetCommand (cos_Consumer state) (cos_Topic state) (cos_Partition state)) <$>
  filter (fun state => isReplyCursorOffset state && replyCursorExpired state nowMS ttlMS) states.

Fixpoint applyDeleteConsumerOffsets (requests : list deleteConsumerOffsetCommand) (deleted : Z) : BM Z :=
  match requests with
  | [] => mret deleted
  | item :: requests =>
      _ ← calls (fun s => DeleteConsumerOffsetState s (dco_Consumer item) (NewTopicPartition (dco_Topic item) (dco_Partition item)));
      applyDeleteConsumerOffsets requests (deleted + 1)
  end.

Definition CleanupRequestReplies (ttlMS nowMS : Z) : BM Z :=
  states ← reads (fun b => of_store (ListConsumerOffsetStates (b_store b)));
  match staleReplyCursorDeleteCommands states nowMS ttlMS with
  | [] => mret 0
  | requests => applyDeleteConsumerOffsets requests 0
  end.

End Broker.

End Codec.
