(* ===== verification/RequestReplySpec.v ===== *)
(** * A requester gets the replies to its request

    Over the abstract messenger of [DirectSpec]: the inbox of the requester is
    a list of messages, and a wait for replies with a correlation id walks it
    with its own cursor, whatever the others do between the polls. *)

From stdpp Require Import prelude gmap strings sorting list pretty.
From S2P Require Import Prelude Model MemoryStore LogSpec MetaStore MetaSpec Queue QueueSpec Idempotency GoStrings Governance GovernanceSpec Produce Handlers Service Snapshot Direct DirectSpec RequestReply.

#[local] Open Scope Z_scope.

(** ** Pages of numbered lists *)

Section Walk.
Context {J : Json requestReplyEnvelope}.

Definition isReply (m : Message) : Prop := exists r, replyFromDirect m = Ok r.

Definition withOffset (o : Z) (r : ReplyMessage) : ReplyMessage :=
  mkReplyMessage o (rm_Subject r) (rm_CorrelationID r) (rm_SenderID r) (rm_Error r) (rm_Payload r) (rm_Message r).

(** The replies with the id [cid] among the messages numbered from [o]. *)
Fixpoint answers (cid : string) (o : Z) (msgs : list Message) : list ReplyMessage :=
  match msgs with
  | [] => []
  | m :: msgs =>
      match replyFromDirect m with
      | Ok r => if decide (rm_CorrelationID r = cid) then withOffset o r :: answers cid (o + 1) msgs else answers cid (o + 1) msgs
      | Err _ => answers cid (o + 1) msgs
      end
  end.

Lemma answers_app cid o l1 l2 : answers cid o (l1 ++ l2) = answers cid o l1 ++ answers cid (o + len l1) l2.
Proof.
  revert o. induction l1 as [|m l1 IH]; intros o; cbn [answers app]; [by rewrite len_nil, Z.add_0_r|].
  rewrite IH, len_cons. replace (o + 1 + len l1) with (o + (1 + len l1)) by lia.
  destruct (replyFromDirect m) as [r|]; [|done]. by case_decide.
Qed.

Lemma answers_offset cid o msgs r : r ∈ answers cid o msgs -> o <= rm_Offset r < o + len msgs.
Proof.
  revert o. induction msgs as [|m msgs IH]; intros o; cbn [answers]; [by intros ?%elem_of_nil|]. rewrite len_cons.
  pose proof (len_nonneg msgs). assert (r ∈ answers cid (o + 1) msgs -> o <= rm_Offset r < o + (1 + len msgs)) as Hrec
    by (intros ?%IH; lia).
  destruct (replyFromDirect m) as [x|]; [|done]. case_decide; [|done].
  intros [->|?]%elem_of_cons; [cbn; lia|by apply Hrec].
Qed.

(** The first answer of a page. *)
Lemma findReply_answers pending o msgs : Forall isReply msgs ->
  findReply pending (number mkInboxRecord o msgs) = Ok (head (answers (pq_CorrelationID pending) o msgs)).
Proof.
  intros Hm. revert o. induction Hm as [|m msgs [r Hr] _ IH]; intros o; [done|].
  cbn [number findReply answers ir_Message ir_Offset]. rewrite Hr. cbn [mbind result_bind]. by case_decide.
Qed.

Lemma answers_head cid o msgs r rest : answers cid o msgs = r :: rest ->
  let i := rm_Offset r - o in
  0 <= i < len msgs /\ answers cid o (take (Z.to_nat (i + 1)) msgs) = [r].
Proof.
  revert o. induction msgs as [|m msgs IH]; intros o; cbn [answers]; [done|]. rewrite len_cons. pose proof (len_nonneg msgs).
  assert (answers cid (o + 1) msgs = r :: rest ->
    0 <= rm_Offset r - o < 1 + len msgs /\
    answers cid (o + 1) (take (Z.to_nat (rm_Offset r - o)) msgs) = [r]) as Hrec.
  { intros E. destruct (IH _ E) as [H1 H2]. split; [lia|]. by replace (rm_Offset r - o) with (rm_Offset r - (o + 1) + 1) by lia. }
  assert (rm_Offset r - o >= 0 -> Z.to_nat (rm_Offset r - o + 1) = S (Z.to_nat (rm_Offset r - o))) as Hs by lia.
  destruct (replyFromDirect m) as [x|] eqn:Ex; [case_decide as Hd|].
  - intros [= <- <-]. cbn [rm_Offset withOffset]. split; [lia|]. replace (Z.to_nat (o - o + 1)) with 1%nat by lia.
    cbn. by rewrite Ex, decide_True.
  - intros E. destruct (Hrec E) as [H1 H2]. split; [done|]. rewrite Hs by lia. cbn [take answers]. by rewrite Ex, decide_False.
  - intros E. destruct (Hrec E) as [H1 H2]. split; [done|]. rewrite Hs by lia. cbn [take answers]. by rewrite Ex.
Qed.

(** ** One poll *)

Context `{MapRange} `{Hash64} (cfg : GovernanceConfig) (identity : Identity) (Hid : normal identity) (pending : PendingRequest).

#[local] Abbreviation recipient := (scopedName identity "direct" (pq_ReplyTo pending)).
#[local] Abbreviation cursorName := (replyInboxConsumer identity pending).

Definition inbox (a : messenger) : list Message := default [] (in_messages a !! recipient).
Definition cursor (a : messenger) : Z := default 0 (in_acked a !! (cursorName, recipient)).

Lemma cursorName_ne : cursorName <> "".
Proof using Hid.
  unfold replyInboxConsumer. destruct (defaultScope identity) eqn:E; [done|]. unfold scopedName. cbn zeta.
  by rewrite (normalizeIdentity_id identity Hid), E.
Qed.

(** Both cursors at [o]. *)
Definition afterAck (a : messenger) (o : Z) : messenger :=
  mkMessenger (in_messages a) (in_sequence a)
    (<[(cursorName, recipient) := o]> (<[(consumerName recipient, recipient) := o]> (in_acked a))).

Lemma cursor_afterAck a o : cursor (afterAck a o) = o.
Proof. unfold cursor. cbn [afterAck in_acked]. by rewrite lookup_insert_eq. Qed.

Definition watched (b : Broker) (a : messenger) : Prop := exists seq, implements (mkDirectState (b_store b) seq) a.

Lemma ackReplyInbox_step now b a o : watched b a ->
  exists b', ackReplyInbox now identity pending o b = (b', Ok tt) /\ watched b' (afterAck a o).
Proof using Hid.
  intros [seq Hi]. unfold ackReplyInbox, applyDirectAck, AckInbox. cbn [ad_Recipient ad_NextOffset ad_Consumer].
  destruct (ack_step (now false) _ a (consumerName recipient) recipient o Hi) as [E1 I1]. cbn [ds_store ds_sequence] in *.
  destruct (AckInboxForConsumer _ _ _ _ _) as [s1 r1]. cbn [fst] in *. rewrite decide_False by apply cursorName_ne.
  destruct (ack_step (now true) _ _ cursorName recipient o I1) as [E2 I2]. cbn [ds_store ds_sequence] in *.
  destruct (AckInboxForConsumer (now true) _ _ _ _) as [s2 r2]. cbn [fst snd] in *.
  unfold specAck in *. rewrite (decide_False (P := cursorName = "")) in * by apply cursorName_ne. cbn [fst snd] in *. subst r2.
  eexists. split; [done|]. exists seq. apply I2.
Qed.

Definition page (a : messenger) : list Message := take 16 (drop (Z.to_nat (cursor a)) (inbox a)).

(** The messenger after a poll, and what the poll found. *)
Definition polled (a : messenger) : messenger * option ReplyMessage :=
  match answers (pq_CorrelationID pending) (cursor a) (page a) with
  | r :: _ => (afterAck a (rm_Offset r + 1), Some r)
  | [] => (match page a with [] => a | _ => afterAck a (cursor a + len (page a)) end, None)
  end.

Definition ready (a : messenger) : Prop :=
  Forall isReply (inbox a) /\ 0 <= cursor a <= len (inbox a) /\ len (inbox a) < max_u64.

Lemma len_page a : ready a -> len (page a) = Z.min 16 (len (inbox a) - cursor a).
Proof. intros (_ & Hc & _). unfold page, len in *. rewrite length_take, length_drop. lia. Qed.

Lemma specFetch_page a : ready a ->
  let fetched := specFetch a cursorName recipient defaultReplyFetchRecords in
  fi_Records fetched = number mkInboxRecord (cursor a) (page a) /\
  (page a <> [] -> fi_NextOffset fetched = cursor a + len (page a)).
Proof.
  intros Hr. pose proof (len_page a Hr) as Hp. destruct Hr as (Hm & Hc & Hlt). unfold specFetch.
  destruct (in_messages a !! recipient) as [msgs|] eqn:E.
  2: { assert (page a = []) as -> by (unfold page, inbox; rewrite E; cbn; by rewrite drop_nil, take_nil). done. }
  cbn [fi_Records fi_NextOffset]. fold (cursor a). assert (inbox a = msgs) as Em by (unfold inbox; by rewrite E).
  rewrite Z.max_l, drop_number, take_number by lia. change (Z.to_nat defaultReplyFetchRecords) with 16%nat.
  rewrite Z2Nat.id, Z.add_0_l, <- Em by lia. fold (page a). split; [done|]. intros Hne. rewrite last_number.
  destruct (last (page a)) eqn:El; [cbn; lia|]. by apply last_None in El.
Qed.

Lemma fetchReplyOnce_step now b a : watched b a -> ready a ->
  exists b', fetchReplyOnce now identity pending b = (b', Ok (polled a).2) /\ watched b' (polled a).1.
Proof using Hid.
  intros Hw Hr. destruct (specFetch_page a Hr) as [Erec Enext]. pose proof Hw as [seq Hi]. pose proof Hr as (Hm & Hc & Hlt).
  unfold fetchReplyOnce. unfold mbind, BM_bind at 1, reads at 1.
  pose proof (fetch_step _ a cursorName recipient defaultReplyFetchRecords Hi Hlt) as Hf. cbn [ds_store] in Hf. rewrite Hf. clear Hf.
  cbn [of_store]. unfold BM_bind at 1, pure. rewrite Erec, findReply_answers by (by apply Forall_take, Forall_drop).
  unfold polled. destruct (answers _ _ (page a)) as [|r rest] eqn:Ea; cbn [head fst snd].
  - destruct (page a) as [|m ms] eqn:Epg; cbn [number]; [by exists b|]. rewrite Enext by done.
    destruct (ackReplyInbox_step now b a (cursor a + len (m :: ms)) Hw) as (b' & E & Hw'). exists b'. unfold BM_bind. by rewrite E.
  - destruct (answers_head _ _ _ _ _ Ea) as [Ho _]. rewrite (len_page a Hr) in Ho. rewrite u64_small by (unfold is_u64, max_u64 in *; lia).
    destruct (ackReplyInbox_step now b a (rm_Offset r + 1) Hw) as (b' & E & Hw'). exists b'. unfold BM_bind. by rewrite E.
Qed.

(** A poll walks on by at most sixteen messages and passes exactly the answer
    it returns; when it returns none it has come to the end or walked all
    sixteen. *)
Lemma polled_spec a : ready a ->
  let '(a', found) := polled a in
  inbox a' = inbox a /\ in_messages a' = in_messages a /\ ready a' /\ cursor a <= cursor a' <= cursor a + 16 /\
  answers (pq_CorrelationID pending) (cursor a) (take (Z.to_nat (cursor a' - cursor a)) (drop (Z.to_nat (cursor a)) (inbox a))) =
    option_list found /\
  (found = None -> cursor a' = cursor a + 16 \/ cursor a' = len (inbox a)) /\
  (forall r, found = Some r -> rm_Offset r < cursor a + 16 /\ rm_Offset r < cursor a').
Proof.
  intros Hr. pose proof (len_page a Hr) as Hp. pose proof Hr as (Hm & Hc & Hlt). unfold polled.
  destruct (answers _ _ (page a)) as [|r rest] eqn:Ea.
  - destruct (page a) as [|m ms] eqn:Epg.
    + rewrite Z.sub_diag, take_0. rewrite len_nil in Hp. unfold ready. split_and!; try done; lia.
    + unfold ready. change (inbox (afterAck a ?o)) with (inbox a). rewrite cursor_afterAck, <- Epg in *.
      split_and!; try done; try lia.
      replace (Z.to_nat (cursor a + len (page a) - cursor a)) with (length (page a)) by (unfold len; lia).
      assert (take (length (page a)) (drop (Z.to_nat (cursor a)) (inbox a)) = page a) as ->; [|done].
      unfold page. by rewrite length_take, <- take_take, firstn_all.
  - destruct (answers_head _ _ _ _ _ Ea) as [Ho Et].
    unfold ready. change (inbox (afterAck a ?o)) with (inbox a). rewrite cursor_afterAck.
    split_and!; try done; try lia; [|intros r' [= <-]; lia].
    etrans; [|exact Et]. unfold page. rewrite take_take. do 2 f_equal. lia.
Qed.

(** ** What the others may do *)

(** Messages to this inbox are replies, and nobody else moves the cursor of
    this request. *)
Definition courteous (op : directOp) : Prop :=
  match op with
  | DSend _ _ _ r _ payload => r = recipient -> exists e, decodeRequestReplyEnvelope payload replyEnvelopeType = Ok e
  | DAck _ c r _ => (c, r) <> (cursorName, recipient)
  | DFetch _ _ _ => True
  end.

(** Nothing is sent to this inbox. *)
Definition silent (op : directOp) : Prop := match op with DSend _ _ _ r _ _ => r <> recipient | _ => True end.

Lemma exec_watch a op : courteous op -> ready a -> len (inbox a) + 1 < max_u64 ->
  let a' := (execMessenger a op).1 in
  ready a' /\ cursor a' = cursor a /\ exists more, inbox a' = inbox a ++ more /\ (silent op -> more = []).
Proof.
  intros Ho Hr Hlt. assert (ready a /\ cursor a = cursor a /\ exists more, inbox a = inbox a ++ more /\ (silent op -> more = [])) as Hsame.
  { split_and!; try done. exists []. by rewrite app_nil_r. }
  destruct op as [idMS tsMS sender r cid payload|nowMS c r o|c r k]; cbn [execMessenger courteous silent] in *; [| |done].
  - unfold specSend. case_decide; [done|]. cbn zeta. set (m := mkMessage _ _ _ _ _ _).
    assert (forall l seq, let a' := mkMessenger (<[r := l]> (in_messages a)) seq (in_acked a) in
      cursor a' = cursor a /\ inbox a' = if decide (r = recipient) then l else inbox a) as Hins.
    { intros l seq. split; [done|]. unfold inbox. cbn. case_decide as E; [by rewrite E, lookup_insert_eq|by rewrite lookup_insert_ne]. }
    destruct (1024 * 1024 <? len payload); cbn [fst].
    + destruct (Hins (default [] (in_messages a !! r)) (u64 (in_sequence a + 1))) as [E1 E2]. cbn zeta in *.
      assert (inbox (mkMessenger (<[r := default [] (in_messages a !! r)]> (in_messages a)) (u64 (in_sequence a + 1)) (in_acked a)) =
        inbox a) as E3. { rewrite E2. case_decide as E; [|done]. by rewrite E. }
      unfold ready. by rewrite E1, E3.
    + destruct (Hins (default [] (in_messages a !! r) ++ [m]) (u64 (in_sequence a + 1))) as [E1 E2]. cbn zeta in *.
      unfold ready. rewrite E1, E2. case_decide as E; [|exact Hsame].
      subst r. fold (inbox a). destruct Hr as (Hm & Hc & _).
      assert (len (inbox a ++ [m]) = len (inbox a) + 1) as El by (unfold len; rewrite length_app; cbn; lia). rewrite El.
      split_and!; [|lia|lia|lia|done|]; [|exists [m]; by split].
      apply Forall_app. split; [done|]. constructor; [|constructor]. destruct (Ho eq_refl) as [e He].
      unfold isReply, replyFromDirect. cbn [m msg_Payload]. rewrite He. by eexists.
  - unfold specAck. case_decide; [done|]. cbn [fst]. unfold ready, cursor, inbox in *. cbn [in_acked in_messages].
    by rewrite lookup_insert_ne.
Qed.

Definition others (seq : Z) (ops : list directOp) (s : MemoryStore) : MemoryStore :=
  ds_store (foldl (fun s op => (execDirect s op).1) (mkDirectState s seq) ops).

Lemma implements_sequence s seq a seq' : implements (mkDirectState s seq) a ->
  implements (mkDirectState s seq') (mkMessenger (in_messages a) seq' (in_acked a)).
Proof. by intros []. Qed.

Lemma others_run ops s a n : implements s a -> ready a -> short a n -> n + len ops < max_u64 -> Forall courteous ops ->
  exists a', implements (foldl (fun s op => (execDirect s op).1) s ops) a' /\ ready a' /\ cursor a' = cursor a /\
    short a' (n + len ops) /\ exists more, inbox a' = inbox a ++ more /\ (Forall silent ops -> more = []).
Proof.
  revert s a n. induction ops as [|op ops IH]; intros s a n Hi Hr Hs Hn Hc.
  { exists a. rewrite len_nil, Z.add_0_r. split_and!; try done. exists []. by rewrite app_nil_r. }
  rewrite len_cons in Hn. pose proof (len_nonneg ops). inversion Hc as [|? ? Hop Hops]; subst.
  destruct (exec_implements s a n op) as [_ Hi']; [done|done|lia|].
  destruct (exec_watch a op) as (Hr' & Ec & more & Em & Hq); [done|done|pose proof (Hs recipient); unfold inbox; lia|].
  destruct (IH _ _ (n + 1) Hi' Hr' (exec_short a n op Hs)) as (a' & Hi2 & Hr2 & Ec2 & Hs2 & more2 & Em2 & Hq2); [lia|done|].
  exists a'. split_and!; [done|done|congruence| |].
  - rewrite len_cons. by replace (n + (1 + len ops)) with (n + 1 + len ops) by lia.
  - exists (more ++ more2). split; [by rewrite Em2, Em, app_assoc|]. intros Hsil. inversion Hsil; subst.
    by rewrite Hq, Hq2.
Qed.

Lemma others_step seq ops b a n : watched b a -> ready a -> short a n -> n + len ops < max_u64 -> Forall courteous ops ->
  exists a', watched (set_store (others seq ops (b_store b)) b) a' /\ ready a' /\ cursor a' = cursor a /\
    short a' (n + len ops) /\ exists more, inbox a' = inbox a ++ more /\ (Forall silent ops -> more = []).
Proof.
  intros [seq0 Hi] Hr Hs Hn Hc.
  destruct (others_run ops _ _ n (implements_sequence _ _ a seq Hi) Hr Hs Hn Hc) as (a' & Hi' & Hrest).
  exists a'. split; [|done]. exists (ds_sequence (foldl (fun s op => (execDirect s op).1) (mkDirectState (b_store b) seq) ops)).
  cbn [b_store set_store]. unfold others. by destruct (foldl _ _ ops).
Qed.

(** ** The loop *)

(** The answers the cursor passes between two positions. *)
Definition walk (l : list Message) (c c' : Z) : list ReplyMessage :=
  answers (pq_CorrelationID pending) c (take (Z.to_nat (c' - c)) (drop (Z.to_nat c) l)).

Lemma walk_split l c1 c2 c3 : 0 <= c1 <= c2 -> c2 <= c3 -> c2 <= len l -> walk l c1 c3 = walk l c1 c2 ++ walk l c2 c3.
Proof.
  intros H12 H23 Hl. unfold walk. replace (Z.to_nat (c3 - c1)) with (Z.to_nat (c2 - c1) + Z.to_nat (c3 - c2))%nat by lia.
  rewrite <- take_take_drop, answers_app, drop_drop. f_equal. f_equal; [unfold len in *; rewrite length_take, length_drop; lia|].
  do 2 f_equal. lia.
Qed.

Lemma walk_app_l l more c c' : 0 <= c <= c' -> c' <= len l -> walk (l ++ more) c c' = walk l c c'.
Proof.
  intros Hc Hl. unfold walk. unfold len in Hl. rewrite drop_app_le, take_app_le; [done|rewrite length_drop; lia|lia].
Qed.

Lemma walk_nil l c : walk l c c = [].
Proof. unfold walk. by rewrite Z.sub_diag, take_0. Qed.

Lemma walk_all l : walk l 0 (len l) = answers (pq_CorrelationID pending) 0 l.
Proof. unfold walk. rewrite Z.sub_0_r, drop_0. unfold len. by rewrite Nat2Z.id, firstn_all. Qed.

(** A round is what the others do during one sleep. *)
Definition round : Type := Z * list directOp.
Definition waits_of (rounds : list round) : list (MemoryStore -> MemoryStore) := (fun '(seq, ops) => others seq ops) <$> rounds.
Definition courteousRound (r : round) : Prop := Forall courteous r.2.
Definition silentRound (r : round) : Prop := Forall silent r.2.
Definition operations (rounds : list round) : Z := foldr (fun r total => len r.2 + total) 0 rounds.

Lemma operations_nonneg rounds : 0 <= operations rounds.
Proof.
  induction rounds as [|[seq ops] rounds IH]; [done|]. change (operations _) with (len ops + operations rounds).
  pose proof (len_nonneg ops). lia.
Qed.

(** What a wait for [left] replies has done when it began in [a] and ended in
    [a']. *)
Record waited (rounds : list round) (left : nat) (a a' : messenger) : Prop := {
  wa_ready : ready a';
  wa_cursor : cursor a <= cursor a';
  wa_inbox : inbox a `prefix_of` inbox a';
  wa_count : (length (walk (inbox a') (cursor a) (cursor a')) <= left)%nat;
  wa_silent : Forall silentRound rounds -> inbox a' = inbox a;
  wa_complete : forall k : nat, (k <= length rounds)%nat -> Forall silentRound (drop (length rounds - k) rounds) ->
    length (walk (inbox a') (cursor a) (cursor a')) = left \/ cursor a' = len (inbox a') \/ cursor a + 16 * (Z.of_nat k + 1) <= cursor a';
  wa_reach : forall r, head (walk (inbox a') (cursor a) (cursor a')) = Some r -> rm_Offset r < cursor a + 16 * (len rounds + 1)
}.

Definition verdict (left : nat) (replies found : list ReplyMessage) : result BrokerError (list ReplyMessage) :=
  if decide (length found = left) then Ok (replies ++ found)
  else awaitRepliesResult (replies ++ found) (len (replies ++ found)) timeoutError.

Lemma awaitLoop_eq clock waits poll left replies :
  awaitLoop clock identity pending waits poll left replies =
  match left with
  | O => mret replies
  | S left' =>
      found ← fetchReplyOnce (clock poll) identity pending;
      match found with
      | Some reply => awaitLoop clock identity pending waits (S poll) left' (replies ++ [reply])
      | None =>
          match waits with
          | [] => pure (awaitRepliesResult replies (len replies) timeoutError)
          | wait :: waits => fun b => awaitLoop clock identity pending waits (S poll) left replies (set_store (wait (b_store b)) b)
          end
      end
  end.
Proof. by destruct waits, left. Qed.

Lemma waited_refl rounds a : ready a -> waited rounds 0 a a.
Proof. intros Hr. split; try rewrite walk_nil; try done; auto. Qed.

(** A poll that found a reply, followed by the rest. *)
Lemma waited_found rounds left a r a' : ready a -> polled a = (a', Some r) ->
  forall a'', waited rounds left a' a'' ->
  waited rounds (S left) a a'' /\ walk (inbox a'') (cursor a) (cursor a'') = r :: walk (inbox a'') (cursor a') (cursor a'').
Proof.
  intros Hr Hp a'' Hw. pose proof (polled_spec a Hr) as Hs. rewrite Hp in Hs. destruct Hs as (Ei & _ & Hr' & Hc & Ha & _ & Ho).
  destruct (Ho r eq_refl) as [Ho1 Ho2]. destruct Hw as [W1 W2 W3 W4 W5 W6 W7]. rewrite Ei in *.
  pose proof Hr as (_ & Hca & _). pose proof Hr' as (_ & Hca' & _). rewrite Ei in Hca'. destruct W3 as [more Em].
  assert (walk (inbox a'') (cursor a) (cursor a'') = r :: walk (inbox a'') (cursor a') (cursor a'')) as Hwalk.
  { rewrite (walk_split _ _ (cursor a')) by (rewrite ?Em, ?len_app; pose proof (len_nonneg more); lia).
    rewrite Em at 1. rewrite walk_app_l by lia. change (walk (inbox a) (cursor a) (cursor a') = [r]) in Ha. by rewrite Ha. }
  split; [|done]. split; rewrite ?Hwalk; try done; [lia|by exists more|cbn; lia| |].
  - intros k Hk Hq. destruct (W6 k Hk Hq) as [H6|[H6|H6]]; [left; cbn; lia|by right; left|right; right; lia].
  - intros r' [= <-]. pose proof (len_nonneg rounds). lia.
Qed.

(** A poll that found nothing, the deadline right behind it. *)
Lemma waited_deadline left a a' : ready a -> polled a = (a', None) ->
  waited [] (S left) a a' /\ walk (inbox a') (cursor a) (cursor a') = [].
Proof.
  intros Hr Hp. pose proof (polled_spec a Hr) as Hs. rewrite Hp in Hs. destruct Hs as (Ei & _ & Hr' & Hc & Ha & Hn & _).
  change (walk (inbox a) (cursor a) (cursor a') = []) in Ha. rewrite <- Ei in Ha. split; [|done].
  split; rewrite ?Ha; try done; [lia|by rewrite Ei|cbn; lia|].
  intros k Hk _. cbn in Hk. right. rewrite Ei. destruct (Hn eq_refl); [right|left]; lia.
Qed.

(** A poll that found nothing, a sleep, and the rest. *)
Lemma waited_slept rd rounds left a a1 a2 more a3 : ready a -> polled a = (a1, None) ->
  inbox a2 = inbox a1 ++ more -> (silentRound rd -> more = []) -> cursor a2 = cursor a1 -> waited rounds left a2 a3 ->
  waited (rd :: rounds) left a a3 /\ walk (inbox a3) (cursor a) (cursor a3) = walk (inbox a3) (cursor a2) (cursor a3).
Proof.
  intros Hr Hp Ei2 Hq Ec2 [W1 W2 W3 W4 W5 W6 W7]. pose proof (polled_spec a Hr) as Hs. rewrite Hp in Hs.
  destruct Hs as (Ei & _ & Hr' & Hc & Ha & Hn & _). change (walk (inbox a) (cursor a) (cursor a1) = []) in Ha.
  rewrite Ec2 in *. pose proof Hr as (_ & Hca & _). pose proof Hr' as (_ & Hca' & _). rewrite Ei in *. destruct W3 as [more2 E3].
  assert (inbox a3 = inbox a ++ (more ++ more2)) as E3' by (by rewrite E3, Ei2, app_assoc).
  assert (len (inbox a) <= len (inbox a3)) as Hlen by (rewrite E3', len_app; pose proof (len_nonneg (more ++ more2)); lia).
  assert (walk (inbox a3) (cursor a) (cursor a3) = walk (inbox a3) (cursor a1) (cursor a3)) as Hwalk.
  { rewrite (walk_split _ _ (cursor a1)) by lia. rewrite E3' at 1. rewrite walk_app_l by lia. by rewrite Ha. }
  split; [|done]. split; rewrite ?Hwalk; try done; [lia|by exists (more ++ more2)| | |].
  - intros [Hrd Hrds]%Forall_cons. by rewrite W5, Ei2, Hq, app_nil_r.
  - intros k Hk Hsil. cbn [length] in *. destruct (decide (k = S (length rounds))) as [->|Hne].
    + rewrite Nat.sub_diag in Hsil. apply Forall_cons in Hsil as [Hrd Hrds].
      destruct (Hn eq_refl) as [Hfull|Hend].
      * destruct (W6 (length rounds)) as [H6|[H6|H6]]; [lia|by rewrite Nat.sub_diag|by left|by right; left|right; right; lia].
      * right; left. destruct W1 as (_ & Hc3 & _). rewrite W5, Ei2, Hq, app_nil_r in * by done. lia.
    + replace (S (length rounds) - k)%nat with (S (length rounds - k)) in Hsil by lia. cbn [drop] in Hsil.
      destruct (W6 k) as [H6|[H6|H6]]; [lia|done|by left|by right; left|right; right; lia].
  - intros r Hh. specialize (W7 r Hh). rewrite len_cons. lia.
Qed.

Lemma awaitLoop_spec clock rounds : forall left poll replies b a n,
  watched b a -> ready a -> short a n -> n + operations rounds < max_u64 -> Forall courteousRound rounds ->
  exists b' a', watched b' a' /\ waited rounds left a a' /\
    awaitLoop clock identity pending (waits_of rounds) poll left replies b =
      (b', verdict left replies (walk (inbox a') (cursor a) (cursor a'))).
Proof using Hid.
  induction rounds as [|rd rounds IHr]; induction left as [|left IHl]; intros poll replies b a n Hw Hr Hs Hn Hc; rewrite awaitLoop_eq.
  all: try (exists b, a; split_and!; [done|by apply waited_refl|]; rewrite walk_nil; unfold verdict; by rewrite app_nil_r).
  all: destruct (fetchReplyOnce_step (clock poll) b a Hw Hr) as (b1 & E1 & Hw1); pose proof (polled_spec a Hr) as Hp;
    unfold mbind, BM_bind; rewrite E1; destruct (polled a) as [a1 [r|]] eqn:Epol; cbn [fst snd] in *;
    destruct Hp as (Ei & Em & Hr1 & _); assert (short a1 n) as Hs1 by (intros x; rewrite Em; apply Hs).
  1, 3: destruct (IHl (S poll) (replies ++ [r]) b1 a1 n Hw1 Hr1 Hs1 Hn Hc) as (b' & a' & Hw' & Hwait & ->); exists b', a';
    destruct (waited_found _ _ _ _ _ Hr Epol _ Hwait) as [Hwait' Ew]; rewrite Ew; split_and!; [done|done|];
    unfold verdict; cbn [length]; rewrite <- app_assoc; cbn [app]; f_equal; repeat case_decide; done || lia.
  - exists b1, a1. destruct (waited_deadline left _ _ Hr Epol) as [Hwait Ew]. split_and!; [done|done|].
    rewrite Ew. unfold verdict. by rewrite app_nil_r.
  - destruct rd as [seq ops]. change (operations ((seq, ops) :: rounds)) with (len ops + operations rounds) in Hn.
    apply Forall_cons in Hc as [Hc1 Hc2]. pose proof (operations_nonneg rounds). change (waits_of ((seq, ops) :: rounds)) with (others seq ops :: waits_of rounds).
    destruct (others_step seq ops b1 a1 n Hw1 Hr1 Hs1) as (a2 & Hw2 & Hr2 & Ec2 & Hs2 & more & Ei2 & Hq); [lia|done|].
    destruct (IHr (S left) (S poll) replies _ a2 (n + len ops) Hw2 Hr2 Hs2) as (b' & a' & Hw' & Hwait & ->); [lia|done|].
    exists b', a'. destruct (waited_slept (seq, ops) rounds (S left) a a1 a2 more a' Hr Epol) as [Hwait' Ew]; try done.
    by rewrite Ew.
Qed.

(** ** The wait *)

Lemma answers_prefix_take cid o l k m : (m <= length (answers cid o (take k l)))%nat ->
  take m (answers cid o l) = take m (answers cid o (take k l)).
Proof. intros Hm. rewrite <- (take_drop k l) at 1. by rewrite answers_app, take_app_le. Qed.

End Walk.

Section Await.
Context {J : Json requestReplyEnvelope} `{MapRange} `{Hash64} (cfg : GovernanceConfig) (ctx : Identity).

Lemma identity_of_normal : normal (identity_of cfg ctx).
Proof. unfold identity_of, brokerIdentity. repeat case_match; apply normalizeIdentity_normal. Qed.

(** The caller may wait for replies to this request. *)
Definition mayAwait (pending : PendingRequest) (b : Broker) : Prop :=
  let identity := identity_of cfg ctx in
  pq_CorrelationID pending <> "" /\ pq_ReplyTo pending <> "" /\
  authorize (b_store b) identity ACLActionConsume (directInboxResource identity (pq_ReplyTo pending)) = Ok tt /\
  authorize (b_store b) identity ACLActionCommit (directInboxResource identity (pq_ReplyTo pending)) = Ok tt.

Lemma AwaitReplies_eq clock waits pending maxReplies b : mayAwait pending b -> 0 < maxReplies ->
  AwaitReplies cfg clock waits ctx pending maxReplies b =
  awaitLoop clock (identity_of cfg ctx) pending waits 0 (Z.to_nat maxReplies) [] b.
Proof.
  intros (H1 & H2 & H3 & H4) Hm. unfold AwaitReplies, validateAwaitReplies. rewrite decide_False by tauto.
  destruct (Z.leb_spec maxReplies 0); [lia|]. unfold mbind, BM_bind, authorizes, reads, mret, BM_ret. by rewrite H3, H4.
Qed.

(** A store that holds the messenger, with an inbox of replies, and a request
    that was not waited for yet. *)
Record fresh (pending : PendingRequest) (b : Broker) (a : messenger) (rounds : list round) : Prop := {
  fr_watched : watched b a;
  fr_replies : Forall isReply (inbox (identity_of cfg ctx) pending a);
  fr_cursor : in_acked a !! (replyInboxConsumer (identity_of cfg ctx) pending, scopedName (identity_of cfg ctx) "direct" (pq_ReplyTo pending)) = None;
  fr_courteous : Forall (courteousRound (identity_of cfg ctx) pending) rounds;
  fr_room : exists n, short a n /\ n + operations rounds < max_u64
}.

Lemma await_outcome clock rounds pending maxReplies b a :
  mayAwait pending b -> 0 < maxReplies -> fresh pending b a rounds ->
  let identity := identity_of cfg ctx in
  exists b' a', watched b' a' /\ waited identity pending rounds (Z.to_nat maxReplies) a a' /\ cursor identity pending a = 0 /\
    let found := walk pending (inbox identity pending a') 0 (cursor identity pending a') in
    AwaitReplies cfg clock (waits_of rounds) ctx pending maxReplies b =
      (b', match found with [] => Err timeoutError | _ => Ok found end).
Proof.
  intros Hm Hpos [F1 F2 F3 F4 (n & F5 & F6)] identity.
  assert (cursor identity pending a = 0) as Hc by (unfold cursor, identity; by rewrite F3).
  assert (ready identity pending a) as Hr.
  { split_and!; [done|rewrite Hc; lia|rewrite Hc; apply len_nonneg|]. pose proof (operations_nonneg rounds).
    specialize (F5 (scopedName identity "direct" (pq_ReplyTo pending))). unfold inbox. lia. }
  rewrite AwaitReplies_eq by done. fold identity.
  destruct (awaitLoop_spec identity identity_of_normal pending clock rounds (Z.to_nat maxReplies) 0 [] b a n F1 Hr F5 F6 F4)
    as (b' & a' & Hw & Hwait & ->).
  exists b', a'. rewrite Hc. split_and!; [done|done|done|]. f_equal. unfold verdict, awaitRepliesResult. cbn [app].
  destruct (walk _ _ _ _) as [|r found]; case_decide; try done. cbn in *. lia.
Qed.

(** C11: a requester gets the replies to its request.  Take a request that was
    not waited for before, by a caller that may read and commit its inbox, in a
    store where everything in this inbox is a reply envelope, to this request
    or to another one.  Whatever direct messages the others send, fetch and
    acknowledge between the polls, as long as what they put into this inbox are
    reply envelopes too, nobody else moves the cursor of the request, the
    cleanup of replies does not run meanwhile and offsets do not run out, the
    wait ends, and its answer is the replies with the id of the request among the
    messages its cursor has passed, in their order, each once, at most as many
    as asked for; a timeout if there is none.  When nothing more arrives in the
    last sleeps and they are enough to page through the inbox, these are all
    replies to the request, or the first ones when there are more than asked
    for.  (A message of another kind in the inbox fails the wait,
    [poisoned_inbox_fails_requests], and a cleanup during the wait can make a reply
    come twice, [cleanup_repeats_reply].) *)
Theorem await_collects_replies clock rounds pending maxReplies b a :
  mayAwait pending b -> 0 < maxReplies -> fresh pending b a rounds ->
  exists b' a' passed, let inbox' := inbox (identity_of cfg ctx) pending a' in
    let found := answers (pq_CorrelationID pending) 0 (take passed inbox') in
    watched b' a' /\ inbox (identity_of cfg ctx) pending a `prefix_of` inbox' /\ len found <= maxReplies /\
    AwaitReplies cfg clock (waits_of rounds) ctx pending maxReplies b =
      (b', match found with [] => Err timeoutError | _ => Ok found end) /\
    forall quiet, quiet `suffix_of` rounds -> Forall (silentRound (identity_of cfg ctx) pending) quiet ->
      len inbox' <= 16 * (len quiet + 1) ->
      found = take (Z.to_nat maxReplies) (answers (pq_CorrelationID pending) 0 inbox').
Proof.
  intros Hm Hpos Hf. destruct (await_outcome clock rounds pending maxReplies b a Hm Hpos Hf) as (b' & a' & Hw & [W1 W2 W3 W4 W5 W6 W7] & Hc & E).
  set (identity := identity_of cfg ctx) in *. exists b', a', (Z.to_nat (cursor identity pending a')).
  rewrite Hc in *. unfold walk in *. rewrite Z.sub_0_r, drop_0 in *. cbn zeta. set (inbox' := inbox identity pending a') in *.
  set (found := answers _ 0 (take _ inbox')) in *. split_and!; [done|done|unfold len; lia|done|].
  intros quiet [before ->] Hq Hlen. destruct W1 as (_ & Hcur & _). rewrite length_app in W6.
  destruct (W6 (length quiet)) as [H6|H6]; [lia| | |].
  - rewrite Nat.add_sub, drop_app_length. done.
  - symmetry. rewrite (answers_prefix_take _ _ _ (Z.to_nat (cursor identity pending a'))); fold found; [apply take_ge|]; lia.
  - assert (found = answers (pq_CorrelationID pending) 0 inbox') as Hall.
    { unfold found. rewrite take_ge; [done|]. fold inbox' in Hcur. unfold len in *. lia. }
    rewrite <- Hall, take_ge by lia. done.
Qed.

(** A request behind a long history is not answered: when the inbox begins
    with sixteen messages per poll that belong to other requests, the wait
    times out, whatever is sent. *)
Lemma long_history_starves clock rounds pending maxReplies b a :
  mayAwait pending b -> 0 < maxReplies -> fresh pending b a rounds ->
  16 * (len rounds + 1) <= len (inbox (identity_of cfg ctx) pending a) ->
  answers (pq_CorrelationID pending) 0 (take (Z.to_nat (16 * (len rounds + 1))) (inbox (identity_of cfg ctx) pending a)) = [] ->
  (AwaitReplies cfg clock (waits_of rounds) ctx pending maxReplies b).2 = Err timeoutError.
Proof.
  intros Hm Hpos Hf Hlen Hno. destruct (await_outcome clock rounds pending maxReplies b a Hm Hpos Hf) as (b' & a' & Hw & [W1 W2 W3 W4 W5 W6 W7] & Hc & ->).
  set (identity := identity_of cfg ctx) in *. rewrite Hc in *. cbn [snd].
  destruct (walk _ _ _ _) as [|r found] eqn:Ew; [done|]. specialize (W7 r eq_refl). destruct W3 as [more E3]. exfalso.
  unfold walk in Ew. rewrite Z.sub_0_r, drop_0 in Ew.
  pose proof (answers_head _ _ _ _ _ Ew) as [Ho Et]. rewrite Z.sub_0_r in *. rewrite take_take in Et.
  set (k := Z.to_nat (16 * (len rounds + 1))) in *. pose proof (len_nonneg rounds).
  assert (answers (pq_CorrelationID pending) 0 (take k (inbox identity pending a')) = []) as Hno'.
  { rewrite E3, take_app_le; [done|]. unfold k, len in *. lia. }
  rewrite <- (take_drop (Z.to_nat (rm_Offset r + 1) `min` Z.to_nat (cursor identity pending a')) (take k _)) in Hno'.
  rewrite answers_app, take_take, Nat.min_l in Hno' by (unfold k; lia). rewrite Et in Hno'. discriminate.
Qed.

End Await.

(** ** Replies *)

Section Replies.
Context {J : Json requestReplyEnvelope} `{MapRange} (cfg : GovernanceConfig) (ctx : Identity).

Definition replyEnvelope (req : RequestMessage) (responderID : string) (payload : bytes) (errorMessage : option string)
    : requestReplyEnvelope :=
  mkEnvelope replyEnvelopeType (rq_Subject req) (rq_CorrelationID req) "" responderID 0 "" [] errorMessage payload.

(** A reply in time is a message to the inbox of the requester, and the
    requester reads from it the id, the responder and the payload or error. *)
Lemma reply_is_answer nowMS idMS tsMS s req responderID payload errorMessage :
  rq_ReplyTo req <> "" -> rq_CorrelationID req <> "" -> ExpiredAt req nowMS = false ->
  representable (replyEnvelope req responderID payload errorMessage) ->
  authorize (ds_store s) (identity_of cfg ctx) "produce" (directInboxResource (identity_of cfg ctx) (rq_ReplyTo req)) = Ok tt ->
  exists data,
    reply cfg nowMS idMS tsMS ctx s req responderID payload errorMessage =
      (let '(s, r) := Send idMS tsMS s (scopedName (identity_of cfg ctx) "direct" responderID)
                        (scopedName (identity_of cfg ctx) "direct" (rq_ReplyTo req)) (Some (rq_CorrelationID req)) data in
       (s, of_store r)) /\
    forall m, msg_Payload m = data ->
      replyFromDirect m = Ok (mkReplyMessage 0 (rq_Subject req) (rq_CorrelationID req) responderID errorMessage payload m).
Proof.
  intros Hto Hid Hexp Hrep Hauth. destruct (Unmarshal_Marshal _ Hrep) as (data & Em & Eu & _). exists data. split.
  - unfold reply. rewrite decide_False by tauto. rewrite Hexp.
    assert (encodeReplyPayload req responderID payload errorMessage = Ok data) as ->
      by (unfold encodeReplyPayload, encodeRequestReplyEnvelope; fold (replyEnvelope req responderID payload errorMessage); by rewrite Em).
    unfold SendDirect. fold (identity_of cfg ctx). rewrite Hauth. done.
  - intros m Hm. unfold replyFromDirect, decodeRequestReplyEnvelope. rewrite Hm, Eu.
    cbn [replyEnvelope env_Type env_CorrelationID]. rewrite decide_True, decide_False by done. done.
Qed.

End Replies.

(** ** Example *)

Definition ex_reply (cid : string) (payload : Byte.byte) : requestReplyEnvelope :=
  mkEnvelope replyEnvelopeType "svc" cid "" "B" 0 "" [] None [payload].

(** A codec for the replies with the ids [one] and [two]. *)
Definition ex_envelopes : Json requestReplyEnvelope.
Proof.
  refine {| Marshal := fun e => match env_Payload e with [p] => Some [if decide (env_CorrelationID e = "one") then Byte.x31 else Byte.x32; p] | _ => None end;
            Unmarshal := fun d => match d with
                                  | [Byte.x31; p] => Some (ex_reply "one" p)
                                  | [Byte.x32; p] => Some (ex_reply "two" p)
                                  | _ => None
                                  end;
            representable := fun e => exists p, e = ex_reply "one" p \/ e = ex_reply "two" p |}.
  intros e (p & [->| ->]); eexists; (split_and!; [reflexivity|done|by intros [|]]).
Defined.

Definition ex_governance : GovernanceConfig := mkGovernanceConfig DefaultTenant DefaultNamespace [] (mkQuotaConfig 0 0 0 0 0 0 0 0 0 0).
Definition ex_client : Identity := mkIdentity "" "" "" "" "".
Definition ex_empty_broker : Broker := mkBroker NewMemoryStore ∅ (newBrokerShardResolver 1) (mkBrokerConfig 0 0 0 0).
Definition ex_pending : PendingRequest :=
  mkPendingRequest "svc" "A" "__reply/A" "one" 1000 5000000 RequestReplyModeFirstResponseWins (mkProduceResult 0 (mkRec 0 0 [] [] 0 None None [])).

Definition ex_rounds : list round :=
  [(7, [DSend 1 2 "B" "__reply/A" (Some "two") [Byte.x32; Byte.x61]; DSend 3 4 "B" "__reply/A" (Some "one") [Byte.x31; Byte.x62]]);
   (9, [])].

Section Example.
#[local] Existing Instance ex_envelopes.
#[local] Existing Instance map_to_list_range.

Lemma ex_fresh : fresh ex_governance ex_client ex_pending ex_empty_broker noMessages ex_rounds.
Proof.
  split.
  - exists 0. apply implements_empty.
  - constructor.
  - done.
  - repeat constructor; intros _; eexists; by vm_compute.
  - exists 0. split; [|done]. intros r. cbn. by rewrite lookup_empty.
Qed.

Lemma await_collects_replies_witness :
  (AwaitReplies ex_governance (fun _ _ => 5) (waits_of ex_rounds) ex_client ex_pending 1 ex_empty_broker).2 =
    Ok [mkReplyMessage 1 "svc" "one" "B" None [Byte.x62] (mkMessage "dm-3-9" "one" "B" "__reply/A" 4 [Byte.x31; Byte.x62])] /\
  exists b' a' passed, let inbox' := inbox (identity_of ex_governance ex_client) ex_pending a' in
    let found := answers "one" 0 (take passed inbox') in
    watched b' a' /\ len found <= 1 /\
    AwaitReplies ex_governance (fun _ _ => 5) (waits_of ex_rounds) ex_client ex_pending 1 ex_empty_broker =
      (b', match found with [] => Err timeoutError | _ => Ok found end).
Proof.
  split; [by vm_compute|].
  destruct (await_collects_replies ex_governance ex_client (fun _ _ => 5) ex_rounds ex_pending 1 ex_empty_broker noMessages)
    as (b' & a' & passed & Hw & _ & Hl & E & _); [by repeat split|done|apply ex_fresh|].
  exists b', a', passed. exact (conj Hw (conj Hl E)).
Defined.

(** ** Notes on the code *)

(** A message to the inbox that is no reply fails the wait of every request of
    the instance, also when the reply is there. *)
Lemma poisoned_inbox_fails_requests :
  let ops := [DSend 1 2 "X" "__reply/A" None []; DSend 3 4 "B" "__reply/A" (Some "one") [Byte.x31; Byte.x62]] in
  (AwaitReplies ex_governance (fun _ _ => 5) (waits_of [(7, ops)]) ex_client ex_pending 1 ex_empty_broker).2 =
    Err (BrokerFailure "json_unmarshal_failed").
Proof. by vm_compute. Qed.

(** The cleanup removes the cursor of a request that is still waited for: a
    reply that was returned already is returned again. *)
Definition ex_cleanup (s : MemoryStore) : MemoryStore :=
  b_store (CleanupRequestReplies 60000 60005 (set_store s ex_empty_broker)).1.

Lemma cleanup_repeats_reply :
  let ops := [DSend 3 4 "B" "__reply/A" (Some "one") [Byte.x31; Byte.x62]] in
  let waits := [others 7 ops; ex_cleanup] in
  match (AwaitReplies ex_governance (fun _ _ => 5) waits ex_client ex_pending 2 ex_empty_broker).2 with
  | Ok replies => rm_Offset <$> replies
  | Err _ => []
  end = [0; 0].
Proof. by vm_compute. Qed.

End Example.
