(* ===== verification/ServerCodec.v ===== *)
(** * Between the wire protocol and the broker

    The conversions of [src/broker/server_codec*.go], [server_protocol_codec.go],
    [server_handlers_request_reply.go] and [service_helpers.go] between the
    messages of the protocol ([Messages]) and the arguments and results of the
    broker's operations, and [NegotiateCapabilities] of
    [src/protocol/capabilities.go].

    [describe] is the text of an error.  [MapInto] of the mapper library copies
    the fields of equal names; what it gives is a parameter where it is used. *)

From stdpp Require Import prelude gmap strings list.
From S2P Require Import Prelude Wire Model MemoryStore MetaStore Queue Idempotency Headers Produce GoStrings Governance Handlers Redelivery Transactions Groups Service Direct RequestReply Messages.

#[local] Open Scope Z_scope.

(** ** Headers, records, isolation *)

Definition storeHeadersFromProtocol (headers : list MessageHeader) : list RecordHeader :=
  (fun header => mkRecordHeader (MessageHeader_Key header) (MessageHeader_Value header)) <$> headers.

Definition protocolHeadersFromStore (headers : list RecordHeader) : list MessageHeader :=
  (fun header => mkMessageHeader (rh_Key header) (rh_Value header)) <$> headers.

Definition isolationFromProtocol (value : string) : string :=
  if decide (value = "read_committed") then FetchIsolationReadCommitted else "read_uncommitted".

Definition transactionIdentityFromProtocol (identity : Messages.TransactionIdentity) : Transactions.TransactionIdentity :=
  Transactions.mkTransactionIdentity (TransactionIdentity_TxID identity) (TransactionIdentity_ProducerID identity)
    (TransactionIdentity_ProducerEpoch identity).

Definition transactionIdentityToProtocol (identity : Transactions.TransactionIdentity) : Messages.TransactionIdentity :=
  mkTransactionIdentity (ti_TxID identity) (ti_ProducerID identity) (ti_ProducerEpoch identity).

Definition transactionRecordMetadataToProtocol (metadata : option Model.TransactionRecordMetadata)
    : option Messages.TransactionRecordMetadata :=
  (fun m => mkTransactionRecordMetadata (trm_TxID m) (trm_ProducerID m) (trm_ProducerEpoch m) (trm_Sequence m) (trm_ControlType m))
    <$> metadata.

Definition fetchRecordsFromStore (records : list Rec) : list FetchRecord :=
  (fun record =>
     mkFetchRecord (r_Offset record) (r_TimestampMS record) (recordRoutingKey record) (r_Key record)
       (protocolHeadersFromStore (r_Headers record)) (Rec_IsTombstone record) (r_ExpiresAtMS record)
       (transactionRecordMetadataToProtocol (r_Transaction record)) (r_Payload record)) <$> records.

(** ** Topics *)

Definition applyTopicLimitOptions (topic : TopicConfig) (req : CreateTopicRequest) : TopicConfig :=
  {| tc_Name := tc_Name topic; tc_Partitions := tc_Partitions topic; tc_SegmentMaxBytes := tc_SegmentMaxBytes topic;
     tc_IndexIntervalBytes := tc_IndexIntervalBytes topic;
     tc_RetentionMaxBytes := default (tc_RetentionMaxBytes topic) (CreateTopicRequest_RetentionMaxBytes req);
     tc_CleanupPolicy := tc_CleanupPolicy topic;
     tc_MaxMessageBytes := default (tc_MaxMessageBytes topic) (CreateTopicRequest_MaxMessageBytes req);
     tc_MaxBatchBytes := default (tc_MaxBatchBytes topic) (CreateTopicRequest_MaxBatchBytes req);
     tc_RetentionMS := tc_RetentionMS topic; tc_RetryPolicy := tc_RetryPolicy topic; tc_DeadLetterTopic := tc_DeadLetterTopic topic;
     tc_DelayEnabled := tc_DelayEnabled topic; tc_MessageTTLMS := tc_MessageTTLMS topic;
     tc_MessageExpiryAction := tc_MessageExpiryAction topic; tc_CompactionEnabled := tc_CompactionEnabled topic;
     tc_CompactionTombstoneRetentionMS := tc_CompactionTombstoneRetentionMS topic;
     tc_OrderingPolicy := tc_OrderingPolicy topic; tc_PriorityPolicy := tc_PriorityPolicy topic |}.

Definition applyTopicPolicyOptions (topic : TopicConfig) (req : CreateTopicRequest) : TopicConfig :=
  {| tc_Name := tc_Name topic; tc_Partitions := tc_Partitions topic; tc_SegmentMaxBytes := tc_SegmentMaxBytes topic;
     tc_IndexIntervalBytes := tc_IndexIntervalBytes topic; tc_RetentionMaxBytes := tc_RetentionMaxBytes topic;
     tc_CleanupPolicy := default (tc_CleanupPolicy topic) (CreateTopicRequest_CleanupPolicy req);
     tc_MaxMessageBytes := tc_MaxMessageBytes topic; tc_MaxBatchBytes := tc_MaxBatchBytes topic;
     tc_RetentionMS := tc_RetentionMS topic;
     tc_RetryPolicy :=
       match CreateTopicRequest_RetryPolicy req with
       | Some p => Model.mkTopicRetryPolicy (TopicRetryPolicy_MaxAttempts p) (TopicRetryPolicy_BackoffInitialMS p)
                     (TopicRetryPolicy_BackoffMaxMS p) (TopicRetryPolicy_BackoffJitterFactor p)
       | None => tc_RetryPolicy topic
       end;
     tc_DeadLetterTopic := tc_DeadLetterTopic topic;
     tc_DelayEnabled := default (tc_DelayEnabled topic) (CreateTopicRequest_DelayEnabled req);
     tc_MessageTTLMS := tc_MessageTTLMS topic;
     tc_MessageExpiryAction := default (tc_MessageExpiryAction topic) (CreateTopicRequest_MessageExpiryAction req);
     tc_CompactionEnabled := default (tc_CompactionEnabled topic) (CreateTopicRequest_CompactionEnabled req);
     tc_CompactionTombstoneRetentionMS := tc_CompactionTombstoneRetentionMS topic;
     tc_OrderingPolicy := default (tc_OrderingPolicy topic) (CreateTopicRequest_OrderingPolicy req);
     tc_PriorityPolicy :=
       match CreateTopicRequest_PriorityPolicy req with
       | Some p => Model.mkTopicPriorityPolicy (TopicPriorityPolicy_Enabled p) (TopicPriorityPolicy_Min p)
                     (TopicPriorityPolicy_Max p) (TopicPriorityPolicy_Default p)
       | None => tc_PriorityPolicy topic
       end |}.

Definition topicConfigFromProtocol (req : CreateTopicRequest) : TopicConfig :=
  let topic := NewTopicConfig (CreateTopicRequest_Topic req) in
  let topic :=
    {| tc_Name := tc_Name topic; tc_Partitions := CreateTopicRequest_Partitions req;
       tc_SegmentMaxBytes := tc_SegmentMaxBytes topic; tc_IndexIntervalBytes := tc_IndexIntervalBytes topic;
       tc_RetentionMaxBytes := tc_RetentionMaxBytes topic; tc_CleanupPolicy := tc_CleanupPolicy topic;
       tc_MaxMessageBytes := tc_MaxMessageBytes topic; tc_MaxBatchBytes := tc_MaxBatchBytes topic;
       tc_RetentionMS := CreateTopicRequest_RetentionMS req; tc_RetryPolicy := tc_RetryPolicy topic;
       tc_DeadLetterTopic := CreateTopicRequest_DeadLetterTopic req; tc_DelayEnabled := tc_DelayEnabled topic;
       tc_MessageTTLMS := CreateTopicRequest_MessageTTLMS req; tc_MessageExpiryAction := tc_MessageExpiryAction topic;
       tc_CompactionEnabled := tc_CompactionEnabled topic;
       tc_CompactionTombstoneRetentionMS := CreateTopicRequest_CompactionTombstoneRetentionMS req;
       tc_OrderingPolicy := tc_OrderingPolicy topic; tc_PriorityPolicy := tc_PriorityPolicy topic |} in
  applyTopicPolicyOptions (applyTopicLimitOptions topic req) req.

(** ** Publishing *)

Definition explicitPartitioning (partition : option Z) : PublishPartitioning :=
  mkPublishPartitioning PartitionExplicit (default 0 partition) "".

Definition partitioningFromProtocol (mode : string) (partition : option Z) (routingKey : string) : PublishPartitioning :=
  if decide (mode = "explicit") then explicitPartitioning partition
  else if decide (mode = "key_hash") then mkPublishPartitioning PartitionKeyHash 0 ""
  else if decide (mode = "routing_key_hash") then mkPublishPartitioning PartitionRoutingKeyHash 0 routingKey
  else mkPublishPartitioning PartitionRoundRobin 0 "".

Definition produceIdempotencyFromProtocol (id : option Messages.ProduceIdempotency) : option Idempotency.ProduceIdempotency :=
  (fun id => Idempotency.mkProduceIdempotency (ProduceIdempotency_ProducerID id) (ProduceIdempotency_ProducerEpoch id)
               (ProduceIdempotency_BaseSequence id)) <$> id.

(** The record of a payload with key, headers, routing key, expiry and
    tombstone mark: [recordItemFromProtocol], and the same steps in the
    handlers of single records. *)
Definition protocolRecord (key : bytes) (headers : list MessageHeader) (routingKey : string) (expiresAtMS : option Z)
    (tombstone : bool) (payload : bytes) : RecordAppend :=
  let record := NewRecordAppend payload in
  let record := {| ra_TimestampMS := ra_TimestampMS record; ra_Key := key; ra_Headers := storeHeadersFromProtocol headers;
                   ra_Attributes := ra_Attributes record; ra_Transaction := ra_Transaction record;
                   ra_ExpiresAtMS := ra_ExpiresAtMS record; ra_Payload := ra_Payload record |} in
  let record := applyRoutingKey record routingKey in
  {| ra_TimestampMS := ra_TimestampMS record; ra_Key := ra_Key record; ra_Headers := ra_Headers record;
     ra_Attributes := if tombstone then Z.lor (ra_Attributes record) RecordAttributeTombstone else ra_Attributes record;
     ra_Transaction := ra_Transaction record; ra_ExpiresAtMS := expiresAtMS; ra_Payload := ra_Payload record |}.

Definition recordItemFromProtocol (record : ProduceBatchRecord) : RecordAppend :=
  protocolRecord (ProduceBatchRecord_Key record) (ProduceBatchRecord_Headers record) (ProduceBatchRecord_RoutingKey record)
    (ProduceBatchRecord_ExpiresAtMS record) (ProduceBatchRecord_Tombstone record) (ProduceBatchRecord_Payload record).

Definition batchRecordItemsFromProtocol (records : list ProduceBatchRecord) : list RecordAppend := recordItemFromProtocol <$> records.

Definition batchPayloadsFromProtocol (payloads : list bytes) : list RecordAppend := NewRecordAppend <$> payloads.

(** The error is the text of the [errors.New]. *)
Definition batchRecordsFromProtocol (req : ProduceBatchRequest) : result string (list RecordAppend) :=
  match ProduceBatchRequest_Payloads req, ProduceBatchRequest_Records req with
  | [], [] => Err "produce_batch requires payloads or records"
  | _ :: _, _ :: _ => Err "produce_batch must provide only one of payloads or records"
  | payloads, [] => Ok (batchPayloadsFromProtocol payloads)
  | [], records => Ok (batchRecordItemsFromProtocol records)
  end.

Definition batchRecordsWithRequestRoutingKey (req : ProduceBatchRequest) (records : list RecordAppend) : list RecordAppend :=
  if decide (ProduceBatchRequest_RoutingKey req = "") then records
  else (fun record => applyRoutingKey record (ProduceBatchRequest_RoutingKey req)) <$> records.

(** The conversion [protocol.ProduceBatchRequest(item)]. *)
Definition itemRequest (item : ProduceBatchesItemRequest) : ProduceBatchRequest :=
  mkProduceBatchRequest (ProduceBatchesItemRequest_Topic item) (ProduceBatchesItemRequest_Partition item)
    (ProduceBatchesItemRequest_Partitioning item) (ProduceBatchesItemRequest_RoutingKey item)
    (ProduceBatchesItemRequest_Idempotency item) (ProduceBatchesItemRequest_Payloads item) (ProduceBatchesItemRequest_Records item).

Definition fanoutResultToProtocol (records : list FanoutRecordResult) : ProduceFanoutResponse :=
  mkProduceFanoutResponse
    ((fun record => mkProduceFanoutRecordResponse (fr_Partition record)
                      (match fr_Record record with Some r => r_Offset r | None => 0 end) (fr_NextOffset record)) <$> records).

Section Batches.
Context (describe : BrokerError -> string).

Definition produceBatchItemToProtocol (item : ProduceBatchesItemResponse) (result : produceBatchItemResult)
    : ProduceBatchesItemResponse :=
  match pbi_Error result with
  | Some e =>
      mkProduceBatchesItemResponse (ProduceBatchesItemResponse_Topic item) (ProduceBatchesItemResponse_Partition item)
        (ProduceBatchesItemResponse_BaseOffset item) (ProduceBatchesItemResponse_LastOffset item)
        (ProduceBatchesItemResponse_NextOffset item) (ProduceBatchesItemResponse_Appended item) (describe e)
  | None =>
      let records := pbr_Records (pbi_Result result) in
      match records, last records with
      | first :: _, Some final =>
          mkProduceBatchesItemResponse (ProduceBatchesItemResponse_Topic item) (pbr_Partition (pbi_Result result)) (r_Offset first)
            (r_Offset final) (u64 (r_Offset final + 1)) (len records) (ProduceBatchesItemResponse_Error item)
      | _, _ =>
          mkProduceBatchesItemResponse (ProduceBatchesItemResponse_Topic item) (pbr_Partition (pbi_Result result))
            (ProduceBatchesItemResponse_BaseOffset item) (ProduceBatchesItemResponse_LastOffset item)
            (ProduceBatchesItemResponse_NextOffset item) (len records) (ProduceBatchesItemResponse_Error item)
      end
  end.

Definition set_ItemTopicError (topic error : string) (item : ProduceBatchesItemResponse) : ProduceBatchesItemResponse :=
  mkProduceBatchesItemResponse topic (ProduceBatchesItemResponse_Partition item) (ProduceBatchesItemResponse_BaseOffset item)
    (ProduceBatchesItemResponse_LastOffset item) (ProduceBatchesItemResponse_NextOffset item) (ProduceBatchesItemResponse_Appended item)
    error.

Definition mergeProduceBatchesItemResponse (index : nat) (requests : list ProduceBatchesItemRequest)
    (item : ProduceBatchesItemResponse) (results : list produceBatchItemResult) : ProduceBatchesItemResponse :=
  let item := match requests !! index with
              | Some request => set_ItemTopicError (ProduceBatchesItemRequest_Topic request) (ProduceBatchesItemResponse_Error item) item
              | None => item
              end in
  if decide (ProduceBatchesItemResponse_Error item = "") then
    match results !! index with
    | None => set_ItemTopicError (ProduceBatchesItemResponse_Topic item) "produce batch result missing" item
    | Some result => produceBatchItemToProtocol item result
    end
  else item.

Definition mergeProduceBatchesResponse (requests : list ProduceBatchesItemRequest) (base : list ProduceBatchesItemResponse)
    (results : list produceBatchItemResult) : list ProduceBatchesItemResponse :=
  imap (fun index item => mergeProduceBatchesItemResponse index requests item results) base.

(** The loop of [handleProduceBatchesFrame]: an item that cannot be converted
    keeps its place with an empty command. *)
Definition batchesCommand (item : ProduceBatchesItemRequest) : produceBatchCommand * ProduceBatchesItemResponse :=
  match batchRecordsFromProtocol (itemRequest item) with
  | Err text =>
      (mkProduceBatchCommand "" (mkPublishPartitioning "" 0 "") [] None,
       mkProduceBatchesItemResponse (ProduceBatchesItemRequest_Topic item) 0 0 0 0 0 text)
  | Ok records =>
      (mkProduceBatchCommand (ProduceBatchesItemRequest_Topic item)
         (partitioningFromProtocol (ProduceBatchesItemRequest_Partitioning item) (ProduceBatchesItemRequest_Partition item)
            (ProduceBatchesItemRequest_RoutingKey item))
         (batchRecordsWithRequestRoutingKey (itemRequest item) records)
         (produceIdempotencyFromProtocol (ProduceBatchesItemRequest_Idempotency item)),
       mkProduceBatchesItemResponse (ProduceBatchesItemRequest_Topic item) 0 0 0 0 0 "")
  end.

End Batches.

(** ** Groups *)

Definition leaseFromStore (mapped : ConsumerGroupMemberLease) (member : ConsumerGroupMember) : ConsumerGroupMemberLease :=
  mkConsumerGroupMemberLease (ConsumerGroupMemberLease_Group mapped) (ConsumerGroupMemberLease_MemberID mapped)
    (ConsumerGroupMemberLease_Topics mapped) (ConsumerGroupMemberLease_SessionTimeoutMS mapped)
    (ConsumerGroupMemberLease_MaxPollIntervalMS mapped) (ConsumerGroupMemberLease_JoinedAtMS mapped)
    (ConsumerGroupMemberLease_LastHeartbeatMS mapped) (ConsumerGroupMemberLease_LastPollMS mapped) (ExpiresAtMS member)
    (PollExpiresAtMS member).

(** ** Direct messages, requests and replies *)

Definition directMessagesToProtocol (records : list InboxRecord) : list DirectMessageRecord :=
  (fun record =>
     let m := ir_Message record in
     mkDirectMessageRecord (ir_Offset record) (msg_MessageID m) (msg_ConversationID m) (msg_Sender m) (msg_Recipient m)
       (msg_TimestampMS m) (msg_Payload m)) <$> records.

(** Signed 64-bit numbers. *)
Definition i64 (z : Z) : Z := (z + 2 ^ 63) `mod` 2 ^ 64 - 2 ^ 63.

Definition safeUint64ToInt64 (value : Z) : Z := if 2 ^ 63 - 1 <? value then 2 ^ 63 - 1 else value.

Definition durationFromOptionalMS (value : option Z) : Z :=
  match value with
  | None => 0
  | Some ms => if ms =? 0 then 0 else i64 (safeUint64ToInt64 ms * Millisecond)
  end.

Definition requestOptionsFromProtocol (req : StartRequestRequest) : RequestOptions :=
  mkRequestOptions (StartRequestRequest_InstanceID req) (durationFromOptionalMS (StartRequestRequest_TimeoutMS req))
    (durationFromOptionalMS (StartRequestRequest_PollIntervalMS req))
    (partitioningFromProtocol (StartRequestRequest_Partitioning req) (StartRequestRequest_Partition req) "")
    (StartRequestRequest_ReplyMode req) (storeHeadersFromProtocol (StartRequestRequest_Headers req)).

Definition startRequestResponseFromBroker (pending : PendingRequest) : StartRequestResponse :=
  let offset := r_Offset (por_Record (pq_Produce pending)) in
  mkStartRequestResponse (pq_Subject pending) (pq_InstanceID pending) (pq_ReplyTo pending) (pq_CorrelationID pending)
    (pq_ExpiresAtMS pending) (pq_ReplyMode pending) (por_Partition (pq_Produce pending)) offset (u64 (offset + 1)).

Definition requestRecordsFromBroker (requests : list RequestMessage) : list RequestRecord :=
  (fun req =>
     mkRequestRecord (r_Offset (rq_Record req)) (r_TimestampMS (rq_Record req)) (rq_Subject req) (rq_ReplyTo req)
       (rq_CorrelationID req) (rq_SenderID req) (rq_ExpiresAtMS req) (rq_ReplyMode req) (protocolHeadersFromStore (rq_Headers req))
       (rq_Payload req)) <$> requests.

Definition fetchRequestsResponseFromBroker (result : RequestPollResult) : FetchRequestsResponse :=
  mkFetchRequestsResponse (rp_Subject result) (rp_Partition result) (requestRecordsFromBroker (rp_Requests result))
    (rp_NextOffset result) (rp_HighWatermark result) (rp_LowWatermark result) (rp_LogStartOffset result).

Definition noRecord : Rec := mkRec 0 0 [] [] 0 None None [].

Definition requestMessageFromReplyRequest (req : ReplyRequest) : RequestMessage :=
  mkRequestMessage (ReplyRequest_Subject req) (ReplyRequest_ReplyTo req) (ReplyRequest_CorrelationID req) ""
    (ReplyRequest_ExpiresAtMS req) "" [] [] noRecord.

Definition requestMessageFromReplyErrorRequest (req : ReplyErrorRequest) : RequestMessage :=
  mkRequestMessage (ReplyErrorRequest_Subject req) (ReplyErrorRequest_ReplyTo req) (ReplyErrorRequest_CorrelationID req) ""
    (ReplyErrorRequest_ExpiresAtMS req) "" [] [] noRecord.

Definition replyResponseFromDirect (result : SendResult) : ReplyResponse :=
  mkReplyResponse (sr_MessageID result) (sr_ConversationID result) (sr_Offset result) (sr_NextOffset result).

(** [nowMS] is read when the request names no expiry. *)
Definition pendingRequestFromAwaitFields (nowMS : Z) (replyTo correlationID : string) (expiresAtMS : Z)
    (timeoutMS pollIntervalMS : option Z) (replyMode : string) : PendingRequest :=
  let timeout := durationFromOptionalMS timeoutMS in
  let expiresAtMS :=
    if expiresAtMS =? 0
    then u64 (nowMS + durationMillis (if timeout <=? 0 then defaultRequestTimeout else timeout))
    else expiresAtMS in
  let pollInterval := durationFromOptionalMS pollIntervalMS in
  mkPendingRequest "" "" replyTo correlationID expiresAtMS
    (if pollInterval <=? 0 then defaultRequestPollInterval else pollInterval) replyMode (mkProduceResult 0 noRecord).

Definition pendingRequestFromProtocol (nowMS : Z) (req : AwaitReplyRequest) : PendingRequest :=
  pendingRequestFromAwaitFields nowMS (AwaitReplyRequest_ReplyTo req) (AwaitReplyRequest_CorrelationID req)
    (AwaitReplyRequest_ExpiresAtMS req) (AwaitReplyRequest_TimeoutMS req) (AwaitReplyRequest_PollIntervalMS req)
    RequestReplyModeFirstResponseWins.

Definition pendingRequestFromAwaitRepliesProtocol (nowMS : Z) (req : AwaitRepliesRequest) : PendingRequest :=
  pendingRequestFromAwaitFields nowMS (AwaitRepliesRequest_ReplyTo req) (AwaitRepliesRequest_CorrelationID req)
    (AwaitRepliesRequest_ExpiresAtMS req) (AwaitRepliesRequest_TimeoutMS req) (AwaitRepliesRequest_PollIntervalMS req)
    RequestReplyModeMultiReplier.

Definition replyRecordFromBroker (reply : ReplyMessage) : ReplyRecord :=
  mkReplyRecord (rm_Offset reply) (msg_MessageID (rm_Message reply)) (msg_TimestampMS (rm_Message reply)) (rm_Subject reply)
    (rm_CorrelationID reply) (rm_SenderID reply) (rm_Error reply) (rm_Payload reply).

Definition replyRecordsFromBroker (replies : list ReplyMessage) : list ReplyRecord := replyRecordFromBroker <$> replies.

(** ** Capabilities *)

Definition supportedCapabilities : list string :=
  ["compression.zstd"; "produce.batch"; "produce.batches"; "produce.fanout"; "fetch.batch"; "fetch.wait"; "transactions";
   "idempotent.produce"; "direct"; "request.reply"; "request.reply.many"; "consumer.groups"; "retry.delay"; "routing.key";
   "topic.ordering"; "topic.priority"; "subject.wildcards"; "schema.headers"].

Definition SupportedCapabilities : list string := supportedCapabilities.

Definition NegotiateCapabilities (requested : list string) : list string :=
  match requested with
  | [] => SupportedCapabilities
  | _ =>
      let want := filter (fun capability => capability <> "") (TrimSpace <$> requested) in
      filter (fun capability => capability ∈ want) supportedCapabilities
  end.
