(* ===== verification/Server.v ===== *)
(** * The TCP server: handling a frame

    [HandleFrame] of [src/broker/server.go], the table of handlers and the
    handlers of [server_handlers*.go], with the frames of [server_codec.go]:
    a frame is decoded, the broker's operation is called under the identity of
    the connection, and the result or the error is encoded.

    A frame is its header and the bytes of its body; decoding copies what it
    keeps, so the pooled buffers of [Transport] do not matter here.  The state
    is the broker, the counter of direct messages and the rebalance history.
    Everything a request takes from outside is in [Env]: readings of the
    clock, each with its own index, the answers of the token buckets, random
    bytes, whether the context is done, and what happens during waits.
    [mapLease] and [mapAssignment] stand for the mapper library, and
    [describe] and [describeDecode] give the texts of errors. *)

From stdpp Require Import prelude gmap strings list.
From S2P Require Import Prelude Wire Model MemoryStore MetaStore Queue Idempotency Headers Produce GoStrings Governance Subjects Handlers Redelivery Transactions Groups Service ServiceRedelivery Snapshot Direct RequestReply Transport Messages Registry ServerCodec.

#[local] Open Scope Z_scope.

(** ** Zero values of requests, the targets of decoding *)

Ltac zero_value :=
  lazymatch goal with
  | |- Z => exact 0
  | |- string => exact ""%string
  | |- bool => exact false
  | |- option _ => exact None
  | |- list _ => exact []
  | |- bytes => exact []
  | |- _ => constructor; zero_value
  end.

Class Zero (T : Type) := zero : T.
#[export] Hint Extern 5 (Zero _) => (red; zero_value) : typeclass_instances.

(** ** Frames *)

Record wireFrame := mkWireFrame { wf_Header : FrameHeader; wf_Body : bytes }.

Definition set_Status (status : Z) (h : FrameHeader) : FrameHeader :=
  {| fh_Magic := fh_Magic h; fh_Version := fh_Version h; fh_HeaderLen := fh_HeaderLen h; fh_Flags := fh_Flags h;
     fh_Command := fh_Command h; fh_Status := status; fh_RequestID := fh_RequestID h; fh_BodyLen := fh_BodyLen h;
     fh_Reserved := fh_Reserved h |}.

(** [transport.NewFrame] *)
Definition newFrame (version command : Z) (body : bytes) : result string wireFrame :=
  if 2 ^ 32 - 1 <? len body then Err "frame_body_too_large"
  else Ok (mkWireFrame (NewFrameHeader version command (len body)) body).

Definition decode {T} `{Messages.Message T} `{Zero T} (frame : wireFrame) : result string T :=
  body ← DecodeBody (fh_Command (wf_Header frame)) (wf_Body frame) (inject zero);
  match assert_type body with Some req => Ok req | None => Err "binary_type_mismatch" end.

Definition okFrame {T} `{Messages.Message T} (command : Z) (value : T) : result string wireFrame :=
  body ← EncodeBody command (inject value);
  newFrame Version command body.

Definition errorFrameHeader (bodyLen : Z) : FrameHeader :=
  set_Status StatusError (NewFrameHeader Version CmdErrorResponse bodyLen).

Definition errorFrameBodyLen (length : Z) : result string Z :=
  if length <? 0 then Err "negative frame body length"
  else if 2 ^ 32 - 1 <? length then Err "frame_body_len_failed" else Ok (u32 length).

Definition errorFrame (code message : string) : wireFrame :=
  let body := match EncodeBody CmdErrorResponse (inject (mkErrorResponse code message)) with Ok body => body | Err _ => [] end in
  match newFrame Version CmdErrorResponse body with
  | Err _ =>
      let bodyLen := match errorFrameBodyLen (len body) with Ok n => n | Err _ => 0 end in
      mkWireFrame (errorFrameHeader bodyLen) body
  | Ok frame => mkWireFrame (set_Status StatusError (wf_Header frame)) (wf_Body frame)
  end.

Definition codeName (code : Code) : string :=
  match code with
  | CodeInvalidArgument => "invalid_argument"
  | CodeTopicExists => "topic_already_exists"
  | CodeTopicNotFound => "topic_not_found"
  | CodePartitionNotFound => "partition_not_found"
  | CodeCodec => "codec_error"
  | CodeNotLeader => "not_leader"
  | CodeUnavailable => "unavailable"
  end.

(** [store.ErrorCode]: errors that are not of the store count as unavailable. *)
Definition ErrorCode (err : BrokerError) : string :=
  match err with StoreError code => codeName code | BrokerFailure _ => codeName CodeUnavailable end.

(** ** State and environment *)

Record Env := mkEnv {
  e_clock : nat -> nat -> nat -> Z;
  e_tokens : nat -> string -> Z -> bool;
  e_done : TopicPartition -> bool;
  e_rand : option bytes;
  e_waits : list (MemoryStore -> MemoryStore)
}.

Definition at1 (e : Env) (i : nat) : Z := e_clock e i 0 0.
Definition at2 (e : Env) (i : nat) : nat -> Z := fun j => e_clock e i j 0.
Definition at3 (e : Env) (i : nat) : nat -> nat -> Z := e_clock e i.

Record ServerConfig := mkServerConfig {
  sc_governance : GovernanceConfig;
  sc_groups : GroupConfig;
  sc_auth : AuthConfig;
  sc_MaxPayloadBytes : Z;
  sc_ClusterName : string;
  sc_NodeID : Z;
  sc_MaxConcurrentConnections : Z
}.

Section Server.
Context `{MapRange} `{Hash64} `{BackOff} {J : Json requestReplyEnvelope}.
Context {History : Type} (Push : History -> GroupRebalanceHistorySummary -> History).
Context (describe : BrokerError -> string) (describeDecode : string -> string).
Context (mapLease : ConsumerGroupMember -> result string ConsumerGroupMemberLease)
  (mapAssignment : Model.ConsumerGroupAssignment -> result string Messages.ConsumerGroupAssignment).
Context (cfg : ServerConfig).

#[local] Abbreviation gov := (sc_governance cfg).

Record Node := mkNode { n_broker : Broker; n_sequence : Z; n_history : History }.

(** An operation of the broker, as the server sees it. *)
Definition Op (A : Type) : Type := Node -> Node * result BrokerError A.

Definition onBroker {A} (m : BM A) : Op A :=
  fun n => let '(b, r) := m (n_broker n) in (mkNode b (n_sequence n) (n_history n), r).

Definition onDirect {A} (f : DirectState -> DirectState * result BrokerError A) : Op A :=
  fun n =>
    let '(s, r) := f (mkDirectState (b_store (n_broker n)) (n_sequence n)) in
    (mkNode (set_store (ds_store s) (n_broker n)) (ds_sequence s) (n_history n), r).

(** What a handler returns: a frame, or the error of encoding it. *)
Definition Answer : Type := Node * result string wireFrame.

Definition errorFromErr (err : BrokerError) : wireFrame := errorFrame (ErrorCode err) (describe err).

Definition frameHandler : Type := Env -> Identity -> wireFrame -> Node -> Answer.

(** The beginning of a handler. *)
Definition handling {T} `{Messages.Message T} `{Zero T} (k : T -> Node -> Answer) (frame : wireFrame) (n : Node) : Answer :=
  match decode frame with
  | Err e => (n, Ok (errorFrame "invalid_request" (describeDecode e)))
  | Ok req => k req n
  end.

(** Its end: the error of the operation, or the response. *)
Definition answering {A T} `{Messages.Message T} (op : Op A) (command : Z) (respond : A -> T) (n : Node) : Answer :=
  match op n with
  | (n, Err e) => (n, Ok (errorFromErr e))
  | (n, Ok a) => (n, okFrame command (respond a))
  end.

(** The same with a conversion that can fail. *)
Definition answeringMapped {A B T} `{Messages.Message T} (op : Op A) (convert : A -> result string B) (command : Z)
    (respond : B -> T) (n : Node) : Answer :=
  match op n with
  | (n, Err e) => (n, Ok (errorFromErr e))
  | (n, Ok a) =>
      match convert a with
      | Err text => (n, Ok (errorFrame "internal_error" text))
      | Ok b => (n, okFrame command (respond b))
      end
  end.

Definition tooLarge (what : string) (payload : bytes) : wireFrame :=
  errorFrame "payload_too_large"
    (what +:+ " payload size " +:+ fmt_d (len payload) +:+ " exceeds limit " +:+ fmt_d (sc_MaxPayloadBytes cfg)).

(** ** Connection *)

Definition authRequestFromHandshake (req : HandshakeRequest) : AuthRequest :=
  mkAuthRequest (HandshakeRequest_ClientID req) (HandshakeRequest_Principal req) (HandshakeRequest_Tenant req)
    (HandshakeRequest_Namespace req) (HandshakeRequest_AuthToken req).

Definition handleHandshakeFrame : frameHandler :=
  fun _ _ => handling (fun req n =>
    match authenticate (sc_auth cfg) (authRequestFromHandshake req) with
    | Err e => (n, Ok (errorFromErr e))
    | Ok identity =>
        (n, okFrame CmdHandshakeResponse
              (mkHandshakeResponse (sc_ClusterName cfg +:+ "-node-" +:+ fmt_d (sc_NodeID cfg)) Version (id_Tenant identity)
                 (id_Namespace identity) (id_Principal identity) (NegotiateCapabilities (HandshakeRequest_Capabilities req))))
    end).

Definition handlePingFrame : frameHandler :=
  fun _ _ => handling (fun req n => (n, okFrame CmdPingResponse (mkPingResponse (PingRequest_Nonce req)))).

(** ** Topics *)

Definition handleCreateTopicFrame : frameHandler :=
  fun e ctx => handling (fun req =>
    answering (onBroker (Service.CreateTopic gov (e_tokens e 0) ctx (topicConfigFromProtocol req))) CmdCreateTopicResponse
      (fun created => mkCreateTopicResponse (tc_Name created) (tc_Partitions created))).

(** An empty body is an empty request. *)
Definition handleListTopicsFrame : frameHandler :=
  fun _ ctx frame n =>
    let list req :=
      answering (onBroker (reads (fun b => ListTopicsByPatternFor (b_store b) (identity_of gov ctx) (ListTopicsRequest_Pattern req))))
        CmdListTopicsResponse
        (fun topics => mkListTopicsResponse ((fun topic => mkTopicMetadata (tc_Name topic) (tc_Partitions topic)) <$> topics)) in
    match wf_Body frame with
    | [] => list zero n
    | _ => handling list frame n
    end.

(** ** Publishing *)

Definition publishProtocolRecord (e : Env) (ctx : Identity) (req : ProduceRequest) (record : RecordAppend) : BM ProduceResult :=
  let partitioning := partitioningFromProtocol (ProduceRequest_Partitioning req) (ProduceRequest_Partition req) (ProduceRequest_RoutingKey req) in
  match produceIdempotencyFromProtocol (ProduceRequest_Idempotency req) with
  | None => Service.PublishRecord gov (e_tokens e 0) (at2 e 0) (at1 e 1) ctx (ProduceRequest_Topic req) partitioning record
  | Some idempotency =>
      Service.PublishRecordIdempotent gov (e_tokens e 0) (at2 e 0) (at1 e 1) ctx (ProduceRequest_Topic req) partitioning record idempotency
  end.

Definition handleProduceFrame : frameHandler :=
  fun e ctx => handling (fun req n =>
    if sc_MaxPayloadBytes cfg <? len (ProduceRequest_Payload req) then (n, Ok (tooLarge "produce" (ProduceRequest_Payload req)))
    else
      let record := protocolRecord (ProduceRequest_Key req) (ProduceRequest_Headers req) (ProduceRequest_RoutingKey req)
                      (ProduceRequest_ExpiresAtMS req) (ProduceRequest_Tombstone req) (ProduceRequest_Payload req) in
      answering (onBroker (publishProtocolRecord e ctx req record)) CmdProduceResponse
        (fun result => mkProduceResponse (por_Partition result) (r_Offset (por_Record result)) (u64 (r_Offset (por_Record result) + 1))) n).

Definition publishProtocolBatch (e : Env) (ctx : Identity) (req : ProduceBatchRequest) (records : list RecordAppend)
    : BM ProduceBatchResult :=
  let partitioning := partitioningFromProtocol (ProduceBatchRequest_Partitioning req) (ProduceBatchRequest_Partition req)
                        (ProduceBatchRequest_RoutingKey req) in
  match produceIdempotencyFromProtocol (ProduceBatchRequest_Idempotency req) with
  | None => Service.PublishBatch gov (e_tokens e 0) (at2 e 0) (at1 e 1) ctx (ProduceBatchRequest_Topic req) partitioning records
  | Some idempotency =>
      Service.PublishBatchIdempotent gov (e_tokens e 0) (at2 e 0) (at1 e 1) ctx (ProduceBatchRequest_Topic req) partitioning records idempotency
  end.

Definition handleProduceBatchFrame : frameHandler :=
  fun e ctx => handling (fun req n =>
    match batchRecordsFromProtocol req with
    | Err text => (n, Ok (errorFrame "invalid_request" text))
    | Ok records =>
        match onBroker (publishProtocolBatch e ctx req (batchRecordsWithRequestRoutingKey req records)) n with
        | (n, Err err) => (n, Ok (errorFromErr err))
        | (n, Ok result) =>
            match pbr_Records result, last (pbr_Records result) with
            | first :: _, Some final =>
                (n, okFrame CmdProduceBatchResponse
                      (mkProduceBatchResponse (pbr_Partition result) (r_Offset first) (r_Offset final) (u64 (r_Offset final + 1))
                         (len (pbr_Records result))))
            | _, _ => (n, Ok (errorFrame "invalid_request" "produce_batch appended no records"))
            end
        end
    end).

Definition handleProduceBatchesFrame : frameHandler :=
  fun e ctx => handling (fun req =>
    let items := batchesCommand <$> ProduceBatchesRequest_Items req in
    answering (onBroker (Service.publishBatches gov (e_tokens e) (at3 e 0) (at2 e 1) (e_done e) ctx (fst <$> items)))
      CmdProduceBatchesResponse
      (fun results => mkProduceBatchesResponse
                        (mergeProduceBatchesResponse describe (ProduceBatchesRequest_Items req) (snd <$> items) results))).

(** The operation returns records and an error; the error goes first. *)
Definition handleProduceFanoutFrame : frameHandler :=
  fun e ctx => handling (fun req n =>
    if sc_MaxPayloadBytes cfg <? len (ProduceFanoutRequest_Payload req)
    then (n, Ok (tooLarge "produce_fanout" (ProduceFanoutRequest_Payload req)))
    else
      let record := protocolRecord (ProduceFanoutRequest_Key req) (ProduceFanoutRequest_Headers req)
                      (ProduceFanoutRequest_RoutingKey req) (ProduceFanoutRequest_ExpiresAtMS req)
                      (ProduceFanoutRequest_Tombstone req) (ProduceFanoutRequest_Payload req) in
      match onBroker (Service.PublishFanoutRecord gov (e_tokens e 0) (at3 e 0) (at2 e 1) (e_done e) ctx (ProduceFanoutRequest_Topic req) record) n with
      | (n, Err err) => (n, Ok (errorFromErr err))
      | (n, Ok result) =>
          match fan_Error result with
          | Some err => (n, Ok (errorFromErr err))
          | None => (n, okFrame CmdProduceFanoutResponse (fanoutResultToProtocol (fan_Records result)))
          end
      end).

(** ** Fetching *)

Definition handleFetchFrame : frameHandler :=
  fun e ctx => handling (fun req =>
    answering (onBroker (Service.FetchWithIsolation gov (e_tokens e 0) ctx (FetchRequest_Consumer req) (FetchRequest_Topic req)
                           (FetchRequest_Partition req) (FetchRequest_Offset req) (FetchRequest_MaxRecords req)
                           (isolationFromProtocol (FetchRequest_Isolation req)))) CmdFetchResponse
      (fun poll => mkFetchResponse (FetchRequest_Topic req) (FetchRequest_Partition req) (fetchRecordsFromStore (pr_Records poll))
                     (pr_NextOffset poll) (pr_HighWatermark poll) (pr_LowWatermark poll) (pr_LogStartOffset poll))).

(** [i] counts the items, for the token buckets. *)
Fixpoint fetchBatchItems (e : Env) (ctx : Identity) (consumer isolation : string) (i : nat) (items : list FetchBatchItemRequest)
    : BM (list FetchBatchItemResponse) :=
  match items with
  | [] => mret []
  | item :: items =>
      poll ← Service.FetchWithIsolation gov (e_tokens e i) ctx consumer (FetchBatchItemRequest_Topic item)
               (FetchBatchItemRequest_Partition item) (FetchBatchItemRequest_Offset item) (FetchBatchItemRequest_MaxRecords item) isolation;
      rest ← fetchBatchItems e ctx consumer isolation (S i) items;
      mret (mkFetchBatchItemResponse (FetchBatchItemRequest_Topic item) (FetchBatchItemRequest_Partition item)
              (fetchRecordsFromStore (pr_Records poll)) (pr_NextOffset poll) (pr_HighWatermark poll) (pr_LowWatermark poll)
              (pr_LogStartOffset poll) :: rest)
  end.

Definition handleFetchBatchFrame : frameHandler :=
  fun e ctx => handling (fun req =>
    answering (onBroker (fetchBatchItems e ctx (FetchBatchRequest_Consumer req)
                           (isolationFromProtocol (FetchBatchRequest_Isolation req)) 0 (FetchBatchRequest_Items req)))
      CmdFetchBatchResponse mkFetchBatchResponse).

(** The partitions of the topics whose names match, as pairs. *)
Definition topicPartitions (topics : list TopicConfig) : list (string * Z) :=
  topics ≫= fun topic => (fun i => (tc_Name topic, Z.of_nat i)) <$> seq 0 (Z.to_nat (tc_Partitions topic)).

Fixpoint fetchPartitions (e : Env) (ctx : Identity) (consumer isolation : string) (maxRecords : Z) (i : nat)
    (partitions : list (string * Z)) : BM (list (string * Z * PollResult)) :=
  match partitions with
  | [] => mret []
  | (topic, partition) :: partitions =>
      poll ← Service.FetchWithIsolation gov (e_tokens e i) ctx consumer topic partition None maxRecords isolation;
      rest ← fetchPartitions e ctx consumer isolation maxRecords (S i) partitions;
      mret ((topic, partition, poll) :: rest)
  end.

Definition FetchSubjectPatternWithIsolation (e : Env) (ctx : Identity) (consumer pattern : string) (maxRecordsPerPartition : Z)
    (isolation : string) : BM (list (string * Z * PollResult)) :=
  topics ← reads (fun b => ListTopicsByPatternFor (b_store b) (identity_of gov ctx) pattern);
  fetchPartitions e ctx consumer isolation maxRecordsPerPartition 0 (topicPartitions topics).

Definition subjectPatternResultToProtocol (pattern : string) (items : list (string * Z * PollResult)) : FetchSubjectPatternResponse :=
  mkFetchSubjectPatternResponse pattern
    ((fun '(subject, partition, poll) =>
        mkFetchBatchItemResponse subject partition (fetchRecordsFromStore (pr_Records poll)) (pr_NextOffset poll)
          (pr_HighWatermark poll) (pr_LowWatermark poll) (pr_LogStartOffset poll)) <$> items).

Definition handleFetchSubjectPatternFrame : frameHandler :=
  fun e ctx => handling (fun req =>
    answering (onBroker (FetchSubjectPatternWithIsolation e ctx (FetchSubjectPatternRequest_Consumer req)
                           (FetchSubjectPatternRequest_Pattern req) (FetchSubjectPatternRequest_MaxRecords req)
                           (isolationFromProtocol (FetchSubjectPatternRequest_Isolation req)))) CmdFetchSubjectPatternResponse
      (subjectPatternResultToProtocol (FetchSubjectPatternRequest_Pattern req))).

Definition handleCommitOffsetFrame : frameHandler :=
  fun e ctx => handling (fun req =>
    answering (onBroker (Service.CommitOffsetWithMetadata gov (at1 e 0) (at1 e 1) ctx (CommitOffsetRequest_Consumer req)
                           (CommitOffsetRequest_Topic req) (CommitOffsetRequest_Partition req) (CommitOffsetRequest_NextOffset req)
                           (CommitOffsetRequest_Metadata req))) CmdCommitOffsetResponse
      (fun _ => mkCommitOffsetResponse (CommitOffsetRequest_Consumer req) (CommitOffsetRequest_Topic req)
                  (CommitOffsetRequest_Partition req) (CommitOffsetRequest_NextOffset req) (CommitOffsetRequest_Metadata req))).

(** ** Retries and delays *)

Definition handleNackFrame : frameHandler :=
  fun e ctx => handling (fun req =>
    answering (onBroker (ServiceRedelivery.Nack gov (at1 e 0) (at1 e 1) ctx (NackRequest_Consumer req) (NackRequest_Topic req)
                           (NackRequest_Partition req) (NackRequest_Offset req) (NackRequest_LastError req))) CmdNackResponse
      (fun result => mkNackResponse (rr_RetryTopic result) (rr_RetryPartition result) (rr_RetryOffset result)
                       (rr_RetryNextOffset result) (rr_RetryCount result))).

Definition handleProcessRetryFrame : frameHandler :=
  fun e ctx => handling (fun req =>
    answering (onBroker (ProcessRetryBatch gov (at2 e 0) (at2 e 1) (at1 e 2) ctx (ProcessRetryRequest_Consumer req)
                           (ProcessRetryRequest_SourceTopic req) (ProcessRetryRequest_Partition req) (ProcessRetryRequest_MaxRecords req)))
      CmdProcessRetryResponse
      (fun result => mkProcessRetryResponse (prr_RetryTopic result) (prr_Partition result) (prr_MovedToOrigin result)
                       (prr_MovedToDeadLetter result) (prr_CommittedNextOffset result))).

Definition handleScheduleDelayFrame : frameHandler :=
  fun e ctx => handling (fun req n =>
    if sc_MaxPayloadBytes cfg <? len (ScheduleDelayRequest_Payload req)
    then (n, Ok (tooLarge "schedule_delay" (ScheduleDelayRequest_Payload req)))
    else
      answering (onBroker (ServiceRedelivery.ScheduleDelay gov (e_tokens e 0) (at1 e 0) ctx (ScheduleDelayRequest_Topic req)
                             (ScheduleDelayRequest_Partition req) (ScheduleDelayRequest_Payload req) (ScheduleDelayRequest_DeliverAtMS req)))
        CmdScheduleDelayResponse
        (fun result => mkScheduleDelayResponse (ds_DelayTopic result) (ds_Partition result) (ds_Offset result)
                         (ds_NextOffset result) (ds_DeliverAtMS result)) n).

(** ** Transactions *)

Definition handleTxBeginFrame : frameHandler :=
  fun e ctx => handling (fun req =>
    answering (onBroker (BeginTransaction gov (at3 e 0) (at1 e 1) ctx (TxBeginRequest_TransactionalID req) (TxBeginRequest_TimeoutMS req)))
      CmdTxBeginResponse
      (fun result => mkTxBeginResponse (transactionIdentityToProtocol (tbr_Identity result)) (tbr_ExpiresAtMS result) (tbr_Status result))).

Definition handleTxPublishFrame : frameHandler :=
  fun e ctx => handling (fun req n =>
    if sc_MaxPayloadBytes cfg <? len (TxPublishRequest_Payload req)
    then (n, Ok (tooLarge "transactional produce" (TxPublishRequest_Payload req)))
    else
      let record := protocolRecord (TxPublishRequest_Key req) (TxPublishRequest_Headers req) (TxPublishRequest_RoutingKey req)
                      None (TxPublishRequest_Tombstone req) (TxPublishRequest_Payload req) in
      answering (onBroker (PublishTransactionalRecord gov (e_tokens e 0) (at2 e 0) (at2 e 1) ctx
                             (transactionIdentityFromProtocol (TxPublishRequest_Identity req)) (TxPublishRequest_Sequence req)
                             (TxPublishRequest_Topic req)
                             (partitioningFromProtocol (TxPublishRequest_Partitioning req) (TxPublishRequest_Partition req)
                                (TxPublishRequest_RoutingKey req)) record)) CmdTxPublishResponse
        (fun result => mkTxPublishResponse (tpr_TxID result) (tpr_Partition result) (r_Offset (tpr_Record result)) (tpr_NextOffset result)) n).

Definition handleTxPublishBatchFrame : frameHandler :=
  fun e ctx => handling (fun req n =>
    let batch := mkProduceBatchRequest (TxPublishBatchRequest_Topic req) (TxPublishBatchRequest_Partition req)
                   (TxPublishBatchRequest_Partitioning req) (TxPublishBatchRequest_RoutingKey req) None
                   (TxPublishBatchRequest_Payloads req) (TxPublishBatchRequest_Records req) in
    match batchRecordsFromProtocol batch with
    | Err text => (n, Ok (errorFrame "invalid_request" text))
    | Ok records =>
        answering (onBroker (PublishTransactionalBatch gov (e_tokens e 0) (at2 e 0) (at2 e 1) (at2 e 2) ctx
                               (transactionIdentityFromProtocol (TxPublishBatchRequest_Identity req)) (TxPublishBatchRequest_BaseSequence req)
                               (TxPublishBatchRequest_Topic req)
                               (partitioningFromProtocol (TxPublishBatchRequest_Partitioning req) (TxPublishBatchRequest_Partition req)
                                  (TxPublishBatchRequest_RoutingKey req))
                               (batchRecordsWithRequestRoutingKey batch records))) CmdTxPublishBatchResponse
          (fun result => mkTxPublishBatchResponse (tbr_TxID result) (tbr_Partition result) (tbr_BaseOffset result)
                           (tbr_LastOffset result) (tbr_NextOffset result) (len (tbr_Records result))) n
    end).

Definition handleTxCommitOffsetFrame : frameHandler :=
  fun e ctx => handling (fun req =>
    answering (onBroker (CommitTransactionOffset gov (at1 e 0) (at2 e 1) (at2 e 2) ctx
                           (transactionIdentityFromProtocol (TxCommitOffsetRequest_Identity req))
                           (mkTransactionOffsetCommit (TxCommitOffsetRequest_Consumer req) (TxCommitOffsetRequest_Group req)
                              (TxCommitOffsetRequest_MemberID req) (TxCommitOffsetRequest_Generation req) (TxCommitOffsetRequest_Topic req)
                              (TxCommitOffsetRequest_Partition req) (TxCommitOffsetRequest_NextOffset req) (TxCommitOffsetRequest_Metadata req))))
      CmdTxCommitOffsetResponse
      (fun '(txID, offset) => mkTxCommitOffsetResponse txID (toc_Consumer offset) (toc_Group offset) (toc_Topic offset)
                                (toc_Partition offset) (toc_NextOffset offset) (toc_Metadata offset))).

Definition handleTxCommitFrame : frameHandler :=
  fun e ctx => handling (fun req =>
    answering (onBroker (CommitTransaction gov (at2 e 0) (at2 e 1) (at2 e 2) ctx (transactionIdentityFromProtocol (TxCommitRequest_Identity req))))
      CmdTxCommitResponse (fun '(txID, status) => mkTxCommitResponse txID status)).

Definition handleTxAbortFrame : frameHandler :=
  fun e ctx => handling (fun req =>
    answering (onBroker (AbortTransaction gov (at2 e 0) (at2 e 1) ctx (transactionIdentityFromProtocol (TxAbortRequest_Identity req))))
      CmdTxAbortResponse (fun '(txID, status) => mkTxAbortResponse txID status)).

(** ** Direct messages *)

Definition handleSendDirectFrame : frameHandler :=
  fun e ctx => handling (fun req =>
    answering (onDirect (fun s => SendDirect (gc_DefaultTenant gov) (gc_DefaultNamespace gov) (at1 e 0) (at1 e 1) ctx s
                                    (SendDirectRequest_Sender req) (SendDirectRequest_Recipient req)
                                    (SendDirectRequest_ConversationID req) (SendDirectRequest_Payload req))) CmdSendDirectResponse
      (fun result => mkSendDirectResponse (sr_MessageID result) (sr_ConversationID result) (sr_Offset result) (sr_NextOffset result))).

Definition handleFetchInboxFrame : frameHandler :=
  fun _ ctx => handling (fun req =>
    answering (onBroker (reads (fun b => FetchInboxFor (gc_DefaultTenant gov) (gc_DefaultNamespace gov) (b_MaxFetchRecords b) ctx
                                          (b_store b) (FetchInboxRequest_Recipient req) (FetchInboxRequest_MaxRecords req))))
      CmdFetchInboxResponse
      (fun result => mkFetchInboxResponse (fi_Recipient result) (directMessagesToProtocol (fi_Records result)) (fi_NextOffset result)
                       (fi_HighWatermark result) (fi_LowWatermark result) (fi_LogStartOffset result))).

Definition handleAckDirectFrame : frameHandler :=
  fun e ctx => handling (fun req =>
    answering (onDirect (fun s =>
                 let '(st, r) := AckDirect (gc_DefaultTenant gov) (gc_DefaultNamespace gov) (fun second => at1 e (if second then 1 else 0)%nat)
                                   ctx (ds_store s) (AckDirectRequest_Recipient req) (AckDirectRequest_NextOffset req) in
                 (mkDirectState st (ds_sequence s), r))) CmdAckDirectResponse
      (fun _ => mkAckDirectResponse (AckDirectRequest_Recipient req) (AckDirectRequest_NextOffset req))).

(** ** Requests and replies *)

Definition handleStartRequestFrame : frameHandler :=
  fun e ctx => handling (fun req n =>
    if sc_MaxPayloadBytes cfg <? len (StartRequestRequest_Payload req)
    then (n, Ok (tooLarge "request" (StartRequestRequest_Payload req)))
    else
      answering (onBroker (StartRequest gov (e_tokens e 0) (e_tokens e 1) (e_rand e) (at1 e 0) (at2 e 1) (at1 e 2) ctx
                             (StartRequestRequest_Subject req) (StartRequestRequest_Payload req) (requestOptionsFromProtocol req)))
        CmdStartRequestResponse startRequestResponseFromBroker n).

Definition handleFetchRequestsFrame : frameHandler :=
  fun e ctx => handling (fun req =>
    answering (onBroker (FetchRequestsWithIsolation gov (e_tokens e 0) ctx (FetchRequestsRequest_Consumer req)
                           (FetchRequestsRequest_Subject req) (FetchRequestsRequest_Partition req) (FetchRequestsRequest_Offset req)
                           (FetchRequestsRequest_MaxRecords req) (isolationFromProtocol (FetchRequestsRequest_Isolation req))))
      CmdFetchRequestsResponse fetchRequestsResponseFromBroker).

Definition handleReplyFrame : frameHandler :=
  fun e ctx => handling (fun req =>
    answering (onDirect (fun s => Reply gov (at1 e 0) (at1 e 1) (at1 e 2) ctx s (requestMessageFromReplyRequest req)
                                    (ReplyRequest_ResponderID req) (ReplyRequest_Payload req))) CmdReplyResponse replyResponseFromDirect).

(** [protocol.ReplyErrorResponse] is another name of [ReplyResponse]. *)
Definition handleReplyErrorFrame : frameHandler :=
  fun e ctx => handling (fun req =>
    answering (onDirect (fun s => ReplyError gov (at1 e 0) (at1 e 1) (at1 e 2) ctx s (requestMessageFromReplyErrorRequest req)
                                    (ReplyErrorRequest_ResponderID req) (ReplyErrorRequest_Error req)))
      CmdReplyErrorResponse replyResponseFromDirect).

Definition handleAwaitReplyFrame : frameHandler :=
  fun e ctx => handling (fun req =>
    answering (onBroker (AwaitReply gov (fun poll second => e_clock e 1 poll (if second then 1 else 0)%nat) (e_waits e) ctx
                           (pendingRequestFromProtocol (at1 e 0) req))) CmdAwaitReplyResponse
      (fun reply => mkAwaitReplyResponse (replyRecordFromBroker reply))).

Definition handleAwaitRepliesFrame : frameHandler :=
  fun e ctx => handling (fun req =>
    answering (onBroker (AwaitReplies gov (fun poll second => e_clock e 1 poll (if second then 1 else 0)%nat) (e_waits e) ctx
                           (pendingRequestFromAwaitRepliesProtocol (at1 e 0) req) (AwaitRepliesRequest_MaxReplies req)))
      CmdAwaitRepliesResponse (fun replies => mkAwaitRepliesResponse (replyRecordsFromBroker replies))).

(** ** Groups *)

Definition leaseOfMember (member : ConsumerGroupMember) : result string ConsumerGroupMemberLease :=
  mapped ← mapLease member; Ok (leaseFromStore mapped member).

Definition handleJoinConsumerGroupFrame : frameHandler :=
  fun e ctx => handling (fun req =>
    answeringMapped (onBroker (JoinConsumerGroupWithOptions gov (at1 e 0) ctx (JoinConsumerGroupRequest_Group req)
                                 (JoinConsumerGroupRequest_MemberID req) (JoinConsumerGroupRequest_Topics req)
                                 (JoinConsumerGroupRequest_SessionTimeoutMS req) (JoinConsumerGroupRequest_MaxPollIntervalMS req)))
      leaseOfMember CmdJoinConsumerGroupResponse mkJoinConsumerGroupResponse).

Definition handleHeartbeatConsumerGroupFrame : frameHandler :=
  fun e ctx => handling (fun req =>
    answeringMapped (onBroker (HeartbeatConsumerGroupWithOptions gov (at1 e 0) ctx (HeartbeatConsumerGroupRequest_Group req)
                                 (HeartbeatConsumerGroupRequest_MemberID req) (HeartbeatConsumerGroupRequest_SessionTimeoutMS req)
                                 (HeartbeatConsumerGroupRequest_MaxPollIntervalMS req)))
      leaseOfMember CmdHeartbeatConsumerGroupResponse mkHeartbeatConsumerGroupResponse).

Definition handleRebalanceConsumerGroupFrame : frameHandler :=
  fun e ctx => handling (fun req =>
    answeringMapped (fun n =>
        let '((b, h), r) := RebalanceConsumerGroup gov Push (sc_groups cfg) (at1 e 0) ctx (RebalanceConsumerGroupRequest_Group req)
                              (n_broker n, n_history n) in
        (mkNode b (n_sequence n) h, r))
      mapAssignment CmdRebalanceConsumerGroupResponse mkRebalanceConsumerGroupResponse).

Definition optionalAssignmentToProtocol (assignment : option Model.ConsumerGroupAssignment)
    : result string (option Messages.ConsumerGroupAssignment) :=
  match assignment with
  | None => Ok None
  | Some assignment => converted ← mapAssignment assignment; Ok (Some converted)
  end.

Definition handleGetConsumerGroupAssignmentFrame : frameHandler :=
  fun _ ctx => handling (fun req =>
    answeringMapped (onBroker (GetConsumerGroupAssignmentFor gov ctx (GetConsumerGroupAssignmentRequest_Group req)))
      optionalAssignmentToProtocol CmdGetConsumerGroupAssignmentResponse mkGetConsumerGroupAssignmentResponse).

Definition handleFetchConsumerGroupFrame : frameHandler :=
  fun e ctx => handling (fun req =>
    answering (onBroker (FetchConsumerGroupWithIsolation gov (at1 e 0) (at1 e 1) (at1 e 2) ctx (FetchConsumerGroupRequest_Group req)
                           (FetchConsumerGroupRequest_MemberID req) (FetchConsumerGroupRequest_Generation req)
                           (FetchConsumerGroupRequest_Topic req) (FetchConsumerGroupRequest_Partition req)
                           (FetchConsumerGroupRequest_Offset req) (FetchConsumerGroupRequest_MaxRecords req)
                           (isolationFromProtocol (FetchConsumerGroupRequest_Isolation req)))) CmdFetchConsumerGroupResponse
      (fun poll => mkFetchConsumerGroupResponse (FetchConsumerGroupRequest_Group req) (FetchConsumerGroupRequest_MemberID req)
                     (FetchConsumerGroupRequest_Generation req) (FetchConsumerGroupRequest_Topic req)
                     (FetchConsumerGroupRequest_Partition req) (fetchRecordsFromStore (pr_Records poll)) (pr_NextOffset poll)
                     (pr_HighWatermark poll) (pr_LowWatermark poll) (pr_LogStartOffset poll))).

Definition handleCommitConsumerGroupOffsetFrame : frameHandler :=
  fun e ctx => handling (fun req =>
    answering (onBroker (CommitConsumerGroupOffsetWithMetadata gov (at1 e 0) (at1 e 1) (at1 e 2) ctx
                           (CommitConsumerGroupOffsetRequest_Group req) (CommitConsumerGroupOffsetRequest_MemberID req)
                           (CommitConsumerGroupOffsetRequest_Generation req) (CommitConsumerGroupOffsetRequest_Topic req)
                           (CommitConsumerGroupOffsetRequest_Partition req) (CommitConsumerGroupOffsetRequest_NextOffset req)
                           (CommitConsumerGroupOffsetRequest_Metadata req))) CmdCommitConsumerGroupOffsetResponse
      (fun _ => mkCommitConsumerGroupOffsetResponse (CommitConsumerGroupOffsetRequest_Group req)
                  (CommitConsumerGroupOffsetRequest_MemberID req) (CommitConsumerGroupOffsetRequest_Generation req)
                  (CommitConsumerGroupOffsetRequest_Topic req) (CommitConsumerGroupOffsetRequest_Partition req)
                  (CommitConsumerGroupOffsetRequest_NextOffset req) (CommitConsumerGroupOffsetRequest_Metadata req))).

Fixpoint fetchConsumerGroupBatchItems (e : Env) (ctx : Identity) (req : FetchConsumerGroupBatchRequest) (i : nat)
    (items : list FetchBatchItemRequest) : BM (list FetchConsumerGroupBatchItemResponse) :=
  match items with
  | [] => mret []
  | item :: items =>
      poll ← FetchConsumerGroupWithIsolation gov (e_clock e i 0 0) (e_clock e i 1 0) (e_clock e i 2 0) ctx
               (FetchConsumerGroupBatchRequest_Group req) (FetchConsumerGroupBatchRequest_MemberID req)
               (FetchConsumerGroupBatchRequest_Generation req) (FetchBatchItemRequest_Topic item) (FetchBatchItemRequest_Partition item)
               (FetchBatchItemRequest_Offset item) (FetchBatchItemRequest_MaxRecords item)
               (isolationFromProtocol (FetchConsumerGroupBatchRequest_Isolation req));
      rest ← fetchConsumerGroupBatchItems e ctx req (S i) items;
      mret (mkFetchConsumerGroupBatchItemResponse (FetchBatchItemRequest_Topic item) (FetchBatchItemRequest_Partition item)
              (fetchRecordsFromStore (pr_Records poll)) (pr_NextOffset poll) (pr_HighWatermark poll) (pr_LowWatermark poll)
              (pr_LogStartOffset poll) :: rest)
  end.

Definition handleFetchConsumerGroupBatchFrame : frameHandler :=
  fun e ctx => handling (fun req =>
    answering (onBroker (fetchConsumerGroupBatchItems e ctx req 0 (FetchConsumerGroupBatchRequest_Items req)))
      CmdFetchConsumerGroupBatchResponse
      (mkFetchConsumerGroupBatchResponse (FetchConsumerGroupBatchRequest_Group req) (FetchConsumerGroupBatchRequest_MemberID req)
         (FetchConsumerGroupBatchRequest_Generation req))).

(** ** The table *)

Definition tcpFrameHandlers : list (Z * frameHandler) := [
  (CmdHandshakeRequest, handleHandshakeFrame);
  (CmdPingRequest, handlePingFrame);
  (CmdCreateTopicRequest, handleCreateTopicFrame);
  (CmdListTopicsRequest, handleListTopicsFrame);
  (CmdProduceRequest, handleProduceFrame);
  (CmdProduceBatchRequest, handleProduceBatchFrame);
  (CmdProduceBatchesRequest, handleProduceBatchesFrame);
  (CmdProduceFanoutRequest, handleProduceFanoutFrame);
  (CmdFetchSubjectPatternRequest, handleFetchSubjectPatternFrame);
  (CmdFetchRequest, handleFetchFrame);
  (CmdFetchBatchRequest, handleFetchBatchFrame);
  (CmdCommitOffsetRequest, handleCommitOffsetFrame);
  (CmdNackRequest, handleNackFrame);
  (CmdProcessRetryRequest, handleProcessRetryFrame);
  (CmdScheduleDelayRequest, handleScheduleDelayFrame);
  (CmdTxBeginRequest, handleTxBeginFrame);
  (CmdTxPublishRequest, handleTxPublishFrame);
  (CmdTxPublishBatchRequest, handleTxPublishBatchFrame);
  (CmdTxCommitOffsetRequest, handleTxCommitOffsetFrame);
  (CmdTxCommitRequest, handleTxCommitFrame);
  (CmdTxAbortRequest, handleTxAbortFrame);
  (CmdSendDirectRequest, handleSendDirectFrame);
  (CmdFetchInboxRequest, handleFetchInboxFrame);
  (CmdAckDirectRequest, handleAckDirectFrame);
  (CmdStartRequestRequest, handleStartRequestFrame);
  (CmdFetchRequestsRequest, handleFetchRequestsFrame);
  (CmdReplyRequest, handleReplyFrame);
  (CmdReplyErrorRequest, handleReplyErrorFrame);
  (CmdAwaitReplyRequest, handleAwaitReplyFrame);
  (CmdAwaitRepliesRequest, handleAwaitRepliesFrame);
  (CmdJoinConsumerGroupRequest, handleJoinConsumerGroupFrame);
  (CmdHeartbeatConsumerGroupRequest, handleHeartbeatConsumerGroupFrame);
  (CmdRebalanceConsumerGroupRequest, handleRebalanceConsumerGroupFrame);
  (CmdGetConsumerGroupAssignmentRequest, handleGetConsumerGroupAssignmentFrame);
  (CmdFetchConsumerGroupRequest, handleFetchConsumerGroupFrame);
  (CmdCommitConsumerGroupOffsetRequest, handleCommitConsumerGroupOffsetFrame);
  (CmdFetchConsumerGroupBatchRequest, handleFetchConsumerGroupBatchFrame)
].

Fixpoint lookupHandler (handlers : list (Z * frameHandler)) (command : Z) : option frameHandler :=
  match handlers with
  | [] => None
  | (c, handler) :: handlers => if c =? command then Some handler else lookupHandler handlers command
  end.

Definition HandleFrame (e : Env) (ctx : Identity) (frame : wireFrame) (n : Node) : Answer :=
  if fh_Version (wf_Header frame) =? Version then
    match lookupHandler tcpFrameHandlers (fh_Command (wf_Header frame)) with
    | None => (n, Ok (errorFrame "unsupported_command" ("unsupported command " +:+ fmt_d (fh_Command (wf_Header frame)))))
    | Some handler => handler e ctx frame n
    end
  else (n, Ok (errorFrame "unsupported_version" ("unsupported protocol version " +:+ fmt_d (fh_Version (wf_Header frame))))).

End Server.
