(* ===== verification/ServerSpec.v ===== *)
(** * The TCP server answers frames

    Every frame gets one answer: the response that belongs to its command or
    an error frame; a frame that cannot be understood changes nothing; and
    what one client publishes through a frame, another one fetches through a
    frame. *)

From stdpp Require Import prelude gmap strings sorting list.
From S2P Require Import Prelude Wire WireSpec Model MemoryStore LogSpec MetaStore Queue QueueSpec Idempotency Headers Produce GoStrings Governance Subjects Handlers Redelivery RedeliverySpec Acks Transactions TransactionSpec Groups Service ServiceRedelivery Snapshot Direct ProduceSpec RequestReply RequestReplySpec Transport Messages CodecSpec Registry RegistrySpec ServerCodec Server.

#[local] Open Scope Z_scope.

Section Answers.
Context `{MapRange} `{Hash64} `{BackOff} {J : Json requestReplyEnvelope}.
Context {History : Type} (Push : History -> GroupRebalanceHistorySummary -> History).
Context (describe : BrokerError -> string) (describeDecode : string -> string).
Context (mapLease : ConsumerGroupMember -> result string ConsumerGroupMemberLease)
  (mapAssignment : Model.ConsumerGroupAssignment -> result string Messages.ConsumerGroupAssignment).
Context (cfg : ServerConfig).

#[local] Abbreviation Nd := (Node (History := History)).
#[local] Abbreviation handle := (HandleFrame Push describe describeDecode mapLease mapAssignment cfg).
#[local] Abbreviation handlers := (tcpFrameHandlers Push describe describeDecode mapLease mapAssignment cfg).

(** ** Answers *)

(** The answer to a frame with this command: a frame of the response command,
    whose body is the encoding of a message, or an error frame. *)
Definition answers_command (command : Z) (r : wireFrame) : Prop :=
  (exists v, EncodeBody (1000 + command) v = Ok (wf_Body r) /\
     wf_Header r = NewFrameHeader Version (1000 + command) (len (wf_Body r))) \/
  (exists code text, r = errorFrame code text).

(** A body that is no message of the command. *)
Definition undecodable (command : Z) (body : bytes) : Prop :=
  body <> [] /\ forall target, is_ok (DecodeBody command body target) = false.

Definition proper (command : Z) (frame : wireFrame) (n : Nd) (a : Answer (History := History)) : Prop :=
  (forall r, a.2 = Ok r -> answers_command command r) /\
  (undecodable command (wf_Body frame) -> a.1 = n /\ exists text, a.2 = Ok (errorFrame "invalid_request" text)).

Lemma okFrame_answers {T} `{Messages.Message T} command (v : T) r :
  okFrame (1000 + command) v = Ok r -> answers_command command r.
Proof.
  unfold okFrame, newFrame. intros (body & Eb & Hf)%bind_ok. destruct (2 ^ 32 - 1 <? len body); [done|].
  injection Hf as <-. left. by exists (inject v).
Qed.

Lemma error_answers command code text : answers_command command (errorFrame code text).
Proof. right. by exists code, text. Qed.

(** What the continuation of a handler has to satisfy. *)
Definition responds (command : Z) (a : Answer (History := History)) : Prop := forall r, a.2 = Ok r -> answers_command command r.

Lemma handling_proper {T} `{Messages.Message T} `{Zero T} command (k : T -> Nd -> Answer) frame n :
  fh_Command (wf_Header frame) = command -> (forall req, responds command (k req n)) ->
  proper command frame n (handling describeDecode k frame n).
Proof.
  intros Hc Hk. unfold handling. split.
  - intros r. destruct (decode frame); [apply Hk|]. intros [= <-]. apply error_answers.
  - intros [_ Hno]. unfold decode. rewrite Hc. specialize (Hno (inject zero)). destruct (DecodeBody command (wf_Body frame) _); [done|].
    cbn. split; [done|by eexists].
Qed.

Lemma answering_responds {A T} `{Messages.Message T} (op : Op A) command (respond : A -> T) n :
  responds command (answering describe op (1000 + command) respond n).
Proof.
  unfold answering. intros r. destruct (op n) as [n' [a|e]]; cbn [snd]; [apply okFrame_answers|].
  intros [= <-]. apply error_answers.
Qed.

Lemma answeringMapped_responds {A B T} `{Messages.Message T} (op : Op A) (convert : A -> result string B) command (respond : B -> T) n :
  responds command (answeringMapped describe op convert (1000 + command) respond n).
Proof.
  unfold answeringMapped. intros r. destruct (op n) as [n' [a|e]]; cbn [snd]; [destruct (convert a); cbn [snd]; [apply okFrame_answers|]|];
    intros [= <-]; apply error_answers.
Qed.

Lemma error_responds command n code text : responds command (n, Ok (errorFrame code text)).
Proof. intros r [= <-]. apply error_answers. Qed.

Lemma ok_responds {T} `{Messages.Message T} command n (v : T) : responds command (n, okFrame (1000 + command) v).
Proof. intros r. apply okFrame_answers. Qed.

Ltac respond :=
  first [ apply answering_responds | apply answeringMapped_responds | apply error_responds | apply ok_responds
        | match goal with
          | |- responds _ (match ?x with _ => _ end) => destruct x; respond
          | |- responds _ (if ?x then _ else _) => destruct x; respond
          | |- responds _ (let _ := _ in _) => cbv zeta; respond
          end ].

Lemma handleListTopics_proper e ctx frame n : fh_Command (wf_Header frame) = CmdListTopicsRequest ->
  proper CmdListTopicsRequest frame n (handleListTopicsFrame describe describeDecode cfg e ctx frame n).
Proof.
  intros Hc. unfold handleListTopicsFrame. cbv zeta. destruct (wf_Body frame) eqn:Eb.
  - split; [|intros [Hne _]; by rewrite Eb in Hne]. exact (answering_responds _ CmdListTopicsRequest _ _).
  - apply handling_proper; [done|]. intros req. apply answering_responds.
Qed.

(** Every handler of the table answers its command. *)
Lemma handlers_proper : Forall (fun '(command, handler) => forall e ctx frame n,
  fh_Command (wf_Header frame) = command -> proper command frame n (handler e ctx frame n)) handlers.
Proof.
  unfold tcpFrameHandlers. repeat apply List.Forall_cons; try apply List.Forall_nil; intros e ctx frame n Hc;
    first [ by apply handleListTopics_proper | apply handling_proper; [done|intros req; unfold tooLarge, errorFromErr; respond] ].
Qed.

Lemma lookupHandler_elem (l : list (Z * frameHandler (History := History))) command handler :
  lookupHandler l command = Some handler -> (command, handler) ∈ l.
Proof.
  induction l as [|[c h] l IH]; cbn; [done|]. destruct (Z.eqb_spec c command) as [->|]; [intros [= ->]; left|intros Hl; right; by apply IH].
Qed.

Lemma lookupHandler_none (l : list (Z * frameHandler (History := History))) command :
  lookupHandler l command = None <-> command ∉ l.*1.
Proof.
  induction l as [|[c h] l IH]; cbn; [by rewrite elem_of_nil; naive_solver|]. rewrite elem_of_cons.
  destruct (Z.eqb_spec c command) as [->|Hne]; [naive_solver|]. rewrite IH. naive_solver.
Qed.

(** The handler that answers a frame, and what it promises. *)
Lemma handler_proper e ctx frame n handler : lookupHandler handlers (fh_Command (wf_Header frame)) = Some handler ->
  proper (fh_Command (wf_Header frame)) frame n (handler e ctx frame n).
Proof.
  intros Hin%lookupHandler_elem%list_elem_of_In.
  exact (proj1 (List.Forall_forall _ _) handlers_proper _ Hin e ctx frame n eq_refl).
Qed.

Lemma handle_answers e ctx frame n r : (handle e ctx frame n).2 = Ok r -> answers_command (fh_Command (wf_Header frame)) r.
Proof.
  unfold HandleFrame. destruct (_ =? _); [|apply error_responds].
  destruct (lookupHandler _ _) as [handler|] eqn:El; [|apply error_responds].
  exact (proj1 (handler_proper e ctx frame n handler El) r).
Qed.


(** Responses carry no request id, whatever the id of the request. *)
Lemma response_loses_request_id e ctx frame n r : (handle e ctx frame n).2 = Ok r -> fh_RequestID (wf_Header r) = 0.
Proof. intros [(v & _ & ->)|(code & text & ->)]%handle_answers; [done|]. unfold errorFrame.
  destruct (EncodeBody _ _); unfold newFrame; by destruct (_ <? _).
Qed.

End Answers.

(** ** From a producer to a consumer *)

(** Headers the broker sets itself. *)
Definition brokerHeaders : list string := [RoutingKeyHeader; PriorityHeader].

Definition ownHeaders (headers : list RecordHeader) : list RecordHeader := removeHeaders headers brokerHeaders.

Lemma ownHeaders_upsert headers key value : key ∈ brokerHeaders -> ownHeaders (upsertHeader headers key value) = ownHeaders headers.
Proof.
  intros Hk. unfold ownHeaders, removeHeaders. induction headers as [|h hs IH]; cbn [upsertHeader].
  - rewrite filter_cons_False; [done|]. cbn. by intros ?.
  - destruct (decide (rh_Key h = key)) as [E|E].
    + rewrite !filter_cons_False by (cbn; rewrite E; by intros ?). done.
    + rewrite !filter_cons. by rewrite IH.
Qed.

(** What a record to append keeps of a message on its way. *)
Record same_message (ar ar' : RecordAppend) : Prop := {
  sm_fields : (ra_TimestampMS ar', ra_Key ar', ra_Attributes ar', ra_Transaction ar', ra_ExpiresAtMS ar', ra_Payload ar') =
    (ra_TimestampMS ar, ra_Key ar, ra_Attributes ar, ra_Transaction ar, ra_ExpiresAtMS ar, ra_Payload ar);
  sm_headers : ownHeaders (ra_Headers ar') = ownHeaders (ra_Headers ar)
}.

#[local] Instance same_message_trans : Transitive same_message.
Proof. intros x y z [E1 H1] [E2 H2]. split; congruence. Qed.

Lemma applyRoutingKey_same ar key : same_message ar (applyRoutingKey ar key).
Proof.
  unfold applyRoutingKey. destruct (decide (key = "")); [done|]. split; [done|]. apply ownHeaders_upsert. left.
Qed.

Lemma applyRoutingKey_key ar key : key <> "" -> appendRoutingKey (applyRoutingKey ar key) = key.
Proof. intros Hk. unfold applyRoutingKey. rewrite decide_False by done. apply routingKey_upsert_same. Qed.

Lemma normalizeRecordPriority_same topic ar ar' : normalizeRecordPriority topic ar = Ok ar' -> same_message ar ar'.
Proof.
  unfold normalizeRecordPriority. destruct (negb _); [by intros [= <-]|]. intros (p & _ & Hr)%bind_ok. destruct (_ || _); [done|].
  injection Hr as <-. split; [done|]. apply ownHeaders_upsert. right. left.
Qed.

(** What a consumer gets of a published message. *)
Record delivers (req : ProduceRequest) (record : FetchRecord) : Prop := {
  dl_Key : FetchRecord_Key record = ProduceRequest_Key req;
  dl_Payload : FetchRecord_Payload record = ProduceRequest_Payload req;
  dl_Tombstone : FetchRecord_Tombstone record = ProduceRequest_Tombstone req;
  dl_Headers : filter (fun h => MessageHeader_Key h ∉ brokerHeaders) (FetchRecord_Headers record) =
    filter (fun h => MessageHeader_Key h ∉ brokerHeaders) (ProduceRequest_Headers req);
  dl_RoutingKey : ProduceRequest_RoutingKey req <> "" -> FetchRecord_RoutingKey record = ProduceRequest_RoutingKey req;
  dl_ExpiresAt : forall at_, ProduceRequest_ExpiresAtMS req = Some at_ -> FetchRecord_ExpiresAtMS record = Some at_;
  dl_Transaction : FetchRecord_Transaction record = None
}.

(** The record a request asks to append. *)
Definition requested (req : ProduceRequest) : RecordAppend :=
  protocolRecord (ProduceRequest_Key req) (ProduceRequest_Headers req) (ProduceRequest_RoutingKey req)
    (ProduceRequest_ExpiresAtMS req) (ProduceRequest_Tombstone req) (ProduceRequest_Payload req).

Lemma protocolHeaders_own headers :
  filter (fun h => MessageHeader_Key h ∉ brokerHeaders) (protocolHeadersFromStore headers) = protocolHeadersFromStore (ownHeaders headers).
Proof.
  unfold protocolHeadersFromStore, ownHeaders, removeHeaders. induction headers as [|h hs IH]; [done|].
  rewrite fmap_cons, !filter_cons. cbn [MessageHeader_Key]. destruct (decide _); cbn; by rewrite IH.
Qed.

Lemma protocolHeaders_store headers : protocolHeadersFromStore (storeHeadersFromProtocol headers) = headers.
Proof.
  unfold protocolHeadersFromStore, storeHeadersFromProtocol. induction headers as [|[] hs IH]; [done|]. by rewrite !fmap_cons, IH.
Qed.

(** A record that was appended for the request is what the consumer gets. *)
Lemma appended_delivers nowMS offset topic req ar r :
  same_message (requested req) ar -> (ProduceRequest_RoutingKey req <> "" -> appendRoutingKey ar = ProduceRequest_RoutingKey req) ->
  recordFromAppend nowMS offset topic ar = Ok r ->
  exists record, fetchRecordsFromStore [r] = [record] /\ FetchRecord_Offset record = offset /\ delivers req record.
Proof.
  intros [Hf Hh] Hrk Hr. unfold recordFromAppend in Hr. apply bind_ok in Hr as (expires & Hex & [= <-]).
  injection Hf as _ Hkey Hattr Htx Hexp Hpay. eexists. split; [reflexivity|]. split; [done|]. split; cbn.
  - rewrite Hkey. cbn. unfold applyRoutingKey. by case_decide.
  - rewrite Hpay. cbn. unfold applyRoutingKey. by case_decide.
  - unfold Rec_IsTombstone. cbn. rewrite Hattr. cbn. unfold applyRoutingKey. by destruct (decide _), (ProduceRequest_Tombstone req).
  - rewrite protocolHeaders_own, Hh. cbn [requested protocolRecord ra_Headers].
    rewrite (sm_headers _ _ (applyRoutingKey_same _ _)), <- protocolHeaders_own. cbn. by rewrite protocolHeaders_store.
  - exact Hrk.
  - intros at_ Hat. unfold appendRecordExpiresAt in Hex. rewrite Hexp in Hex. cbn in Hex. rewrite Hat in Hex. by injection Hex as <-.
  - rewrite Htx. cbn. unfold applyRoutingKey. by case_decide.
Qed.

Lemma bm_bind_ok {A C} (m : BM A) (k : A -> BM C) b b' c :
  (m ≫= k) b = (b', Ok c) -> exists a b1, m b = (b1, Ok a) /\ k a b1 = (b', Ok c).
Proof. unfold mbind, BM_bind. destruct (m b) as [b1 [a|e]]; [|done]. intros Hk. by exists a, b1. Qed.

Lemma serviceProduceQuota_state `{MapRange} gc tokens who topic records payloadBytes storageBytes b :
  (serviceProduceQuota gc tokens who topic records payloadBytes storageBytes b).1 = b.
Proof.
  unfold serviceProduceQuota, populateStorageQuotaUsage, checkQuota, mbind, BM_bind, pure, reads, mret, BM_ret.
  destruct (negb _); [done|]. by destruct (storageUsageForScope _ _).
Qed.

(** The count of partitions of every topic fits its type. *)
Definition partitions_typed (s : MemoryStore) : Prop := forall name topic, topics s !! name = Some topic -> is_u32 (tc_Partitions topic).

Lemma selectPartition_u32 `{Hash64} cursors topic partitioning key cursors' partition :
  is_u32 (tc_Partitions topic) -> is_u32 (pp_Partition partitioning) ->
  selectPartition cursors topic partitioning key = (cursors', Ok partition) -> is_u32 partition.
Proof.
  assert (forall v, 0 <= v -> is_u32 (safeUint64ToUint32 v)) as Hsafe.
  { intros v Hv. unfold safeUint64ToUint32. destruct (_ <? _); [done|]. apply Z.mod_pos_bound. lia. }
  intros Ht Hp. unfold selectPartition. destruct (Z.eqb_spec (tc_Partitions topic) 0) as [|Hne]; [done|]. unfold is_u32 in Ht.
  destruct (decide _); [destruct (_ <=? _); [done|]; by intros [= _ <-]|].
  destruct (decide _); [destruct (_ =? _); [done|]; intros [= _ <-]; apply Hsafe, Z.mod_pos_bound; lia|].
  destruct (decide _); [destruct (decide _); [done|]; intros [= _ <-]; apply Hsafe, Z.mod_pos_bound; lia|].
  unfold nextRoundRobin. intros [= _ <-]. pose proof (Z.mod_pos_bound (default 0 (cursors !! tc_Name topic)) (tc_Partitions topic)). unfold is_u32. lia.
Qed.

Lemma ordering_keeps_partition topic partitioning records partitioning' :
  resolveTopicOrderingPartitioning topic partitioning records = Ok partitioning' -> pp_Partition partitioning' = pp_Partition partitioning.
Proof.
  unfold resolveTopicOrderingPartitioning. cbv zeta. destruct (decide _); [intros [= <-]; unfold withResolvedRoutingKey; by destruct (decide _)|].
  destruct (decide _); [destruct (singleOrderingKey _); [|done]; by intros [= <-]|].
  destruct (decide _); [destruct (singleOrderingRoutingKey _ _); [|done]; by intros [= <-]|done].
Qed.

(** An accepted record is in the log. *)
Lemma publish_accepted `{MapRange} `{Hash64} gc tokens clock nowMS ctx topic partitioning record b b' res :
  pp_RoutingKey partitioning = "" \/ pp_RoutingKey partitioning = appendRoutingKey record ->
  partitions_typed (b_store b) -> is_u32 (pp_Partition partitioning) ->
  Service.PublishRecord gc tokens clock nowMS ctx topic partitioning record b = (b', Ok res) ->
  exists ar, same_message record ar /\ (appendRoutingKey record <> "" -> appendRoutingKey ar = appendRoutingKey record) /\
    is_u32 (por_Partition res) /\
    AppendRecord (clock 0%nat) (b_store b) (NewTopicPartition (scopedTopicName (identity_of gc ctx) topic) (por_Partition res)) ar =
      (b_store b', Ok (por_Record res)).
Proof.
  intros Hrk Htyped Hu32. unfold Service.PublishRecord. cbv zeta. intros ([] & b1 & Ha & ([] & b2 & Hq & Hp)%bm_bind_ok)%bm_bind_ok.
  injection Ha as <- _. pose proof (serviceProduceQuota_state gc tokens (identity_of gc ctx) topic 1 (len (ra_Payload record)) (RecordAppendStorageBytes record) b) as Eq.
  rewrite Hq in Eq. cbn [fst] in Eq. subst b2. unfold publishRecordScoped, applyProduce in Hp. cbn [pc_Idempotency pc_Topic] in Hp.
  destruct (prepareProduceRecord b _) as [[[t ar] part]|] eqn:Eprep; [|done]. destruct (selectPartition _ _ _ _) as [cursors [partition|]] eqn:Esel; [|done].
  unfold Queue.PublishRecord in Hp. destruct (AppendRecord _ _ _ _) as [s [r|]] eqn:Eapp; cbn [mbind result_bind of_store] in Hp; [|done].
  injection Hp as <- <-. unfold prepareProduceRecord in Eprep. cbn [pc_Topic pc_Record pc_Partitioning] in Eprep.
  apply bind_ok in Eprep as (t' & Ht & (ar' & Hn & (part' & Hpart & [= -> -> ->])%bind_ok)%bind_ok).
  exists ar. split_and!; [|..|exact Eapp].
  - etransitivity; [apply applyRoutingKey_same|]. by eapply normalizeRecordPriority_same.
  - intros Hne. destruct (normalizeRecordPriority_keys _ _ _ Hn) as (_ & _ & ->). unfold applyPartitioningRoutingKey.
    destruct Hrk as [->| ->]; [done|by apply applyRoutingKey_key].
  - apply (selectPartition_u32 _ _ _ _ _ _) in Esel; [done| |by rewrite (ordering_keeps_partition _ _ _ _ Hpart)].
    unfold loadTopicConfig, topicConfig, loadTopicConfigDirect, LoadTopicConfig in Ht. cbn in Ht.
    destruct (topics (b_store b) !! _) as [config|] eqn:Et; [|done]. injection Ht as <-. by eapply Htyped.
Qed.

(** A record that was not acknowledged is delivered. *)
Lemma prepare_single b consumer topic partition r :
  (forall state, LoadConsumerOffsetState (b_store b) consumer (NewTopicPartition topic partition) = Ok (Some state) ->
     r_Offset r ∉ cos_PendingOffsets state) ->
  prepareFetchedRecords b consumer topic partition [r] = Ok [r].
Proof.
  intros Hst. unfold prepareFetchedRecords, removePendingAckedRecords. cbn [LoadConsumerOffsetState_of MemoryStore_OffsetStore].
  destruct (LoadConsumerOffsetState _ _ _) as [[state|]|] eqn:El; [|done|].
  - specialize (Hst state eq_refl). cbn [mbind result_bind]. destruct (cos_PendingOffsets state) as [|o os]; [done|].
    unfold recordsWithoutPendingOffsets. by rewrite filter_cons_True by done.
  - unfold LoadConsumerOffsetState in El. destruct (offsetStates _ !! _); [done|]. by destruct (offsets _ !! _).
Qed.

(** The records from a record of the log on. *)
Lemma from_record s tp r :
  log_inv s -> validatePartitionLocked s tp = Ok tt -> r ∈ recordsOf s tp ->
  exists rest, filter (fun x => r_Offset r <= r_Offset x) (recordsOf s tp) = r :: rest /\
    (last (recordsOf s tp) = Some r -> rest = []).
Proof.
  intros Hinv Hv Hin. pose proof (log_inv_recordsOf s tp Hinv) as Hok. pose proof (log_ok_rec_lt _ _ Hok) as Hsorted.
  assert (filter (fun x => 0 <= r_Offset x) (recordsOf s tp) = recordsOf s tp) as Eall.
  { apply filter_all. destruct Hok as [_ Hb]. unfold recordOffsets in Hb. rewrite Forall_fmap in Hb.
    eapply Forall_impl; [exact Hb|]. cbn. lia. }
  apply list_elem_of_split in Hin as (l1 & rest & El). exists rest.
  destruct (from_snoc s tp Hinv Hv 0 l1 r rest) as [_ ->]; [by rewrite Eall|]. split; [done|].
  intros [l' E']%last_Some. destruct rest as [|x rest _] using rev_ind; [done|]. exfalso.
  rewrite E' in El. change (r :: rest ++ [x]) with ((r :: rest) ++ [x]) in El. rewrite app_assoc in El. apply app_inj_tail in El as [El ->].
  rewrite E', El in Hsorted. apply StronglySorted_app in Hsorted as (Hlt & _ & _).
  specialize (Hlt x x ltac:(apply elem_of_app; right; by left) ltac:(by left)). cbn in Hlt. lia.
Qed.

(** A read-committed read that begins at a plain record and can return only
    this one does. *)
Lemma committed_single s topic partition r maxRecords rest :
  let tp := NewTopicPartition topic partition in
  log_inv s -> validatePartitionLocked s tp = Ok tt -> 1 <= maxRecords -> visibilityOf s r = transactionRecordVisible ->
  filter (fun x => r_Offset r <= r_Offset x) (recordsOf s tp) = r :: rest -> maxRecords = 1 \/ rest = [] ->
  exists cursor, readCommittedRecords s topic partition (r_Offset r) maxRecords = Ok ([r], cursor).
Proof.
  intros tp Hinv Hv Hmax Hvis Hfrom Hone. unfold readCommittedRecords. fold tp.
  destruct (readCommittedLoop_spec s tp Hinv Hv (S (length (recordsOf s tp))) (r_Offset r) (Z.to_nat maxRecords))
    as (out & cursor & l1 & -> & E & _ & -> & Hlen & Hend).
  { pose proof (length_filter (fun x => r_Offset r <= r_Offset x) (recordsOf s tp)). lia. }
  exists cursor. do 2 f_equal. rewrite Hfrom in E. destruct l1 as [|r' l1].
  { cbn [app] in E. rewrite <- E in Hend. exfalso. destruct Hend as [Hend|[Hend|(x & l2 & [= <- <-] & Hx)]]; [cbn in Hend; lia|done|congruence]. }
  cbn [app] in E. injection E as <- E. rewrite filter_cons_True by done. f_equal.
  destruct Hone as [->| ->]; [|by destruct l1].
  rewrite filter_cons_True in Hlen by done. cbn [length] in Hlen. apply length_zero_iff_nil. lia.
Qed.

(** A fetch at a plain record returns it alone when it asks for one record or
    when the record is the last one. *)
Lemma fetch_finds_record b tp r consumer maxRecords isolation :
  let s := b_store b in
  log_inv s -> validatePartitionLocked s tp = Ok tt -> r ∈ recordsOf s tp -> r_Transaction r = None ->
  1 <= b_MaxFetchRecords b -> maxRecords = 1 \/ last (recordsOf s tp) = Some r ->
  isConsumerPaused s consumer (tp_Topic tp) (tp_Partition tp) = Ok false ->
  (forall state, LoadConsumerOffsetState s consumer tp = Ok (Some state) -> r_Offset r ∉ cos_PendingOffsets state) ->
  exists next high low start, fetchWithIsolationScoped b consumer (tp_Topic tp) (tp_Partition tp) (Some (r_Offset r)) maxRecords isolation =
    Ok (mkPollResult [r] next high low start) /\ (isolation <> FetchIsolationReadCommitted -> next = r_Offset r + 1).
Proof.
  intros s Hinv Hv Hin Htx Hmax Hone Hpause Hstate. destruct tp as [topic partition]. cbn [tp_Topic tp_Partition] in *.
  set (tp := NewTopicPartition topic partition) in *.
  destruct (from_record s tp r Hinv Hv Hin) as (rest & Hfrom & Hlast).
  assert (logStart s tp <= r_Offset r) as Hstart.
  { pose proof (log_ok_rec_lt _ _ (log_inv_recordsOf s tp Hinv)) as Hsorted. unfold logStart, recordOffsets.
    apply list_elem_of_split in Hin as (l1 & l2 & El). rewrite El in Hsorted |- *. destruct l1 as [|x l1]; cbn; [lia|].
    inversion Hsorted as [|? ? _ Hall]; subst. rewrite Forall_forall in Hall. specialize (Hall r ltac:(set_solver)). cbn in Hall. lia. }
  assert (r_Offset r + 1 = u64 (r_Offset r + 1)) as Hu.
  { symmetry. apply u64_small. exact (proj1 (Forall_forall _ _) (log_next_u64 s tp Hinv) r Hin). }
  set (n := clampMaxRecords b maxRecords).
  assert (1 <= n /\ (n = 1 \/ rest = [])) as [Hn Hn1].
  { unfold n, clampMaxRecords. destruct (_ || _) eqn:E; [|apply orb_false_iff in E; split; [lia|destruct Hone; [by left|right; by apply Hlast]]].
    split; [done|]. destruct Hone as [->|Hl]; [left|right; by apply Hlast]. apply orb_true_iff in E. lia. }
  assert (prepareFetchedRecords b consumer topic partition [r] = Ok [r]) as Hprep by (by apply prepare_single).
  unfold fetchWithIsolationScoped, pausedPollResult, fetchStartOffset. fold n tp. destruct (decide _) as [Hiso|Hiso].
  - unfold fetchScoped, pausedPollResult. fold n tp. fold s. rewrite Hpause. cbn [mbind result_bind negb]. unfold Queue.Fetch. fold tp.
    rewrite PartitionOffsets_ok by done. cbn [mbind result_bind].
    change (pos_LogStartOffset _) with (logStart s tp). rewrite Z.max_l by done.
    rewrite ReadFrom_ok by (done || lia). rewrite Hfrom.
    replace (take (Z.to_nat n) (r :: rest)) with [r] by (destruct Hn1 as [-> | ->]; [done|symmetry; apply take_ge; cbn; lia]).
    cbn [mbind result_bind of_store pr_Records last pr_NextOffset pr_HighWatermark pr_LowWatermark pr_LogStartOffset].
    rewrite Hprep. cbn [mbind result_bind]. do 4 eexists. split; [done|]. by intros _.
  - fold s. rewrite Hpause. cbn [mbind result_bind negb]. rewrite PartitionOffsets_ok by done. cbn [mbind result_bind of_store].
    change (pos_LogStartOffset _) with (logStart s tp). rewrite Z.max_l by done.
    assert (visibilityOf s r = transactionRecordVisible) as Hvis by (unfold visibilityOf; by rewrite Htx).
    destruct (committed_single s topic partition r n rest Hinv Hv Hn Hvis Hfrom Hn1) as (cursor & ->).
    cbn [mbind result_bind]. rewrite Hprep. cbn [mbind result_bind]. do 4 eexists. split; [done|]. by intros ?%Hiso.
Qed.

Section Delivery.
Context `{MapRange} `{Hash64} `{BackOff} {J : Json requestReplyEnvelope}.
Context {History : Type} (Push : History -> GroupRebalanceHistorySummary -> History).
Context (describe : BrokerError -> string) (describeDecode : string -> string).
Context (mapLease : ConsumerGroupMember -> result string ConsumerGroupMemberLease)
  (mapAssignment : Model.ConsumerGroupAssignment -> result string Messages.ConsumerGroupAssignment).
Context (cfg : ServerConfig).

#[local] Abbreviation Nd := (Node (History := History)).
#[local] Abbreviation gov := (sc_governance cfg).
#[local] Abbreviation handle := (HandleFrame Push describe describeDecode mapLease mapAssignment cfg).

(** The frame a client sends for a request. *)
Record sends {T} `{Messages.Message T} (command : Z) (req : T) (frame : wireFrame) : Prop := {
  sd_Version : fh_Version (wf_Header frame) = Version;
  sd_Command : fh_Command (wf_Header frame) = command;
  sd_Body : EncodeBody command (inject req) = Ok (wf_Body frame);
  sd_wf : wf_body (inject req)
}.

Lemma decode_sends {T} `{Messages.Message T} `{Zero T} command (req : T) frame :
  sends command req frame -> carries command (inject req) = true -> carries command (inject zero) = true -> decode frame = Ok req.
Proof.
  intros [_ Hc Hb Hwf] H1' H2'. unfold decode. rewrite Hc, (encoded_decodes command (inject req) (inject zero) _ Hwf H1' H2' Hb).
  cbn [mbind result_bind]. by rewrite assert_inject.
Qed.

Lemma errorFrame_command code text : fh_Command (wf_Header (errorFrame code text)) = CmdErrorResponse.
Proof. unfold errorFrame. destruct (EncodeBody _ _); unfold newFrame; by destruct (_ <? _). Qed.

(** The consumer and the topic a fetch request names. *)
Definition fetchConsumer (ctx : Identity) (req : FetchRequest) : string :=
  scopedName (identity_of gov ctx) "consumer" (FetchRequest_Consumer req).
Definition fetchTopic (ctx : Identity) (req : FetchRequest) : string := scopedTopicName (identity_of gov ctx) (FetchRequest_Topic req).

(** The consumer may read, does not pause, and has not acknowledged the
    record. *)
Record mayFetch (e : Env) (ctx : Identity) (req : FetchRequest) (offset : Z) (b : Broker) : Prop := {
  mf_allowed : authorizes (identity_of gov ctx) ACLActionConsume (topicResource (identity_of gov ctx) (FetchRequest_Topic req)) b = (b, Ok tt);
  mf_quota : consumeQuota gov (e_tokens e 0) (identity_of gov ctx) (FetchRequest_Topic req) (FetchRequest_MaxRecords req) b = (b, Ok tt);
  mf_limit : 1 <= b_MaxFetchRecords b;
  mf_running : isConsumerPaused (b_store b) (fetchConsumer ctx req) (fetchTopic ctx req) (FetchRequest_Partition req) = Ok false;
  mf_unacknowledged : forall state,
    LoadConsumerOffsetState (b_store b) (fetchConsumer ctx req) (NewTopicPartition (fetchTopic ctx req) (FetchRequest_Partition req)) =
      Ok (Some state) -> offset ∉ cos_PendingOffsets state
}.

Lemma requested_routing req : ProduceRequest_RoutingKey req <> "" -> appendRoutingKey (requested req) = ProduceRequest_RoutingKey req.
Proof. intros Hne. exact (applyRoutingKey_key _ _ Hne). Qed.

Lemma partitioning_routing mode partition routingKey :
  pp_RoutingKey (partitioningFromProtocol mode partition routingKey) = "" \/
  pp_RoutingKey (partitioningFromProtocol mode partition routingKey) = routingKey.
Proof.
  unfold partitioningFromProtocol. destruct (decide _); [unfold explicitPartitioning; destruct partition; by left|].
  destruct (decide _); [by left|]. destruct (decide _); [by right|by left].
Qed.

Lemma partitioning_u32 mode partition routingKey :
  fits_option is_u32 partition -> is_u32 (pp_Partition (partitioningFromProtocol mode partition routingKey)).
Proof.
  intros Hp. unfold partitioningFromProtocol. destruct (decide _); [by destruct partition|]. by repeat destruct (decide _).
Qed.

(** What a client reads from a response. *)
Definition receives {T} `{Messages.Message T} (command : Z) (frame : wireFrame) (v : T) : Prop :=
  forall target, carries command target = true -> DecodeBody command (wf_Body frame) target = Ok (inject v).

Lemma okFrame_receives {T} `{Messages.Message T} command (v : T) frame :
  wf_body (inject v) -> carries command (inject v) = true -> okFrame command v = Ok frame -> receives command frame v.
Proof.
  intros Hwf Hc (body & Eb & Hf)%bind_ok target Ht. unfold newFrame in Hf. destruct (_ <? _); [done|]. injection Hf as <-.
  by apply encoded_decodes.
Qed.

(** An accepted produce frame has appended its record. *)
Lemma produce_accepted e ctx frame req (n n' : Nd) r :
  sends CmdProduceRequest req frame -> ProduceRequest_Idempotency req = None ->
  partitions_typed (b_store (n_broker n)) -> handle e ctx frame n = (n', Ok r) -> fh_Command (wf_Header r) = CmdProduceResponse ->
  exists now ar partition stored, is_u32 partition /\ same_message (requested req) ar /\
    (ProduceRequest_RoutingKey req <> "" -> appendRoutingKey ar = ProduceRequest_RoutingKey req) /\
    AppendRecord now (b_store (n_broker n)) (NewTopicPartition (scopedTopicName (identity_of gov ctx) (ProduceRequest_Topic req)) partition) ar =
      (b_store (n_broker n'), Ok stored) /\
    okFrame CmdProduceResponse (mkProduceResponse partition (r_Offset stored) (u64 (r_Offset stored + 1))) = Ok r.
Proof.
  intros Hsend Hid Htyped Hh Hcmd. unfold HandleFrame in Hh. rewrite (sd_Version _ _ _ Hsend), (sd_Command _ _ _ Hsend) in Hh.
  change (handleProduceFrame describe describeDecode cfg e ctx frame n = (n', Ok r)) in Hh.
  unfold handleProduceFrame, handling in Hh. rewrite (decode_sends _ _ _ Hsend) in Hh by done.
  destruct (_ <? _); [injection Hh as _ <-; unfold tooLarge in Hcmd; by rewrite errorFrame_command in Hcmd|].
  unfold answering, onBroker, publishProtocolRecord in Hh. unfold produceIdempotencyFromProtocol in Hh. rewrite Hid in Hh. cbn [fmap option_fmap option_map] in Hh.
  destruct (Service.PublishRecord _ _ _ _ _ _ _ _ _) as [b' [res|err]] eqn:Ep; [|injection Hh as _ <-; unfold errorFromErr in Hcmd; by rewrite errorFrame_command in Hcmd].
  apply publish_accepted in Ep as (ar & Hsame & Hrk & Hu32 & Happ); [| |done|].
  - apply pair_equal_spec in Hh as [<- Hok]. exists (at2 e 0 0%nat), ar, (por_Partition res), (por_Record res). split_and!; [done|done| |done|done].
    intros Hne. fold (requested req) in Hrk. rewrite requested_routing in Hrk by done. by apply Hrk.
  - destruct (decide (ProduceRequest_RoutingKey req = "")) as [->|Hne].
    + left. by destruct (partitioning_routing (ProduceRequest_Partitioning req) (ProduceRequest_Partition req) "").
    + fold (requested req). rewrite requested_routing by done. apply partitioning_routing.
  - apply partitioning_u32. destruct Hsend as [_ _ _ Hwf]. by destruct Hwf as (_ & Hp & _).
Qed.

Lemma produce_keeps_log e ctx frame req (n n' : Nd) r :
  sends CmdProduceRequest req frame -> ProduceRequest_Idempotency req = None ->
  partitions_typed (b_store (n_broker n)) -> log_inv (b_store (n_broker n)) ->
  (forall tp, nextOffsetOf (b_store (n_broker n)) tp < max_u64) ->
  handle e ctx frame n = (n', Ok r) -> fh_Command (wf_Header r) = CmdProduceResponse -> log_inv (b_store (n_broker n')).
Proof.
  intros Hsend Hid Htyped Hinv Hroom Hh Hcmd.
  destruct (produce_accepted e ctx frame req n n' r Hsend Hid Htyped Hh Hcmd) as (now & ar & partition & stored & _ & _ & _ & Happ & _).
  pose proof (AppendRecord_inv now _ (NewTopicPartition (scopedTopicName (identity_of gov ctx) (ProduceRequest_Topic req)) partition) ar Hinv (Hroom _)) as [Hinv' _].
  by rewrite Happ in Hinv'.
Qed.

(** A frame that fetches a plain record gets it. *)
Lemma fetch_answered e ctx frame req (n : Nd) stored :
  let tp := NewTopicPartition (fetchTopic ctx req) (FetchRequest_Partition req) in
  let s := b_store (n_broker n) in
  sends CmdFetchRequest req frame -> log_inv s -> validatePartitionLocked s tp = Ok tt -> stored ∈ recordsOf s tp ->
  r_Transaction stored = None -> FetchRequest_MaxRecords req = 1 \/ last (recordsOf s tp) = Some stored ->
  FetchRequest_Offset req = Some (r_Offset stored) -> mayFetch e ctx req (r_Offset stored) (n_broker n) ->
  exists next high low start, handle e ctx frame n =
    (n, okFrame CmdFetchResponse (mkFetchResponse (FetchRequest_Topic req) (FetchRequest_Partition req) (fetchRecordsFromStore [stored])
           next high low start)) /\
    (FetchRequest_Isolation req <> "read_committed" -> next = r_Offset stored + 1).
Proof.
  intros tp s Hsend Hinv Hv Hin Htx Hone Hoff [Ma Mq Ml Mr Mu]. unfold HandleFrame. rewrite (sd_Version _ _ _ Hsend), (sd_Command _ _ _ Hsend).
  change (exists next high low start, handleFetchFrame describe describeDecode cfg e ctx frame n =
    (n, okFrame CmdFetchResponse (mkFetchResponse (FetchRequest_Topic req) (FetchRequest_Partition req) (fetchRecordsFromStore [stored])
           next high low start)) /\ (FetchRequest_Isolation req <> "read_committed" -> next = r_Offset stored + 1)).
  unfold handleFetchFrame, handling. rewrite (decode_sends _ _ _ Hsend) by done.
  unfold answering, onBroker, Service.FetchWithIsolation, mbind, BM_bind. rewrite Ma, Mq. unfold reads. rewrite Hoff.
  destruct (fetch_finds_record (n_broker n) tp stored (fetchConsumer ctx req) (FetchRequest_MaxRecords req)
    (isolationFromProtocol (FetchRequest_Isolation req)) Hinv Hv Hin Htx Ml Hone Mr Mu) as (next & high & low & start & E & Hnext).
  exists next, high, low, start. split.
  - cbn [tp tp_Topic tp_Partition] in E. unfold fetchConsumer, fetchTopic in E. rewrite E. by destruct n.
  - intros Hiso. apply Hnext. unfold isolationFromProtocol. by rewrite decide_False.
Qed.

(** C2: what one client publishes, another one gets.  When a produce frame
    without idempotency is answered with a produce response, the record it
    asked for is the last one of the log of the partition in the response, at
    the offset in the response; and whatever the node does afterwards, as long
    as the record is in the log of its partition, a frame that fetches at this
    offset, with either isolation, by a client that may read the topic and
    whose consumer neither pauses nor has acknowledged the record, is answered
    with exactly that record when it asks for one record or no newer one is
    there.  Key, payload, tombstone mark, expiry time and routing key are those
    of the request when the request has them, and so are its headers but those
    the broker itself sets. *)
Theorem published_is_fetched e ctx frame req (n n' : Nd) r :
  sends CmdProduceRequest req frame -> ProduceRequest_Idempotency req = None ->
  log_inv (b_store (n_broker n)) -> partitions_typed (b_store (n_broker n)) ->
  (forall tp, nextOffsetOf (b_store (n_broker n)) tp < max_u64) ->
  handle e ctx frame n = (n', Ok r) -> fh_Command (wf_Header r) = CmdProduceResponse ->
  exists response stored record,
    let tp := NewTopicPartition (scopedTopicName (identity_of gov ctx) (ProduceRequest_Topic req)) (ProduceResponse_Partition response) in
    receives CmdProduceResponse r response /\
    log_inv (b_store (n_broker n')) /\ validatePartitionLocked (b_store (n_broker n')) tp = Ok tt /\
    last (recordsOf (b_store (n_broker n')) tp) = Some stored /\ r_Offset stored = ProduceResponse_Offset response /\
    fetchRecordsFromStore [stored] = [record] /\ delivers req record /\
    forall (n'' : Nd) e' ctx' frame' req',
      log_inv (b_store (n_broker n'')) -> validatePartitionLocked (b_store (n_broker n'')) tp = Ok tt ->
      stored ∈ recordsOf (b_store (n_broker n'')) tp ->
      sends CmdFetchRequest req' frame' ->
      fetchTopic ctx' req' = tp_Topic tp -> FetchRequest_Partition req' = tp_Partition tp ->
      FetchRequest_Offset req' = Some (ProduceResponse_Offset response) ->
      FetchRequest_MaxRecords req' = 1 \/ last (recordsOf (b_store (n_broker n'')) tp) = Some stored ->
      mayFetch e' ctx' req' (ProduceResponse_Offset response) (n_broker n'') ->
      exists next high low start, handle e' ctx' frame' n'' =
        (n'', okFrame CmdFetchResponse (mkFetchResponse (FetchRequest_Topic req') (FetchRequest_Partition req') [record] next high low start)) /\
        (FetchRequest_Isolation req' <> "read_committed" -> next = ProduceResponse_Offset response + 1).
Proof.
  intros Hsend Hid Hinv Htyped Hroom Hh Hcmd.
  destruct (produce_accepted e ctx frame req n n' r Hsend Hid Htyped Hh Hcmd) as (now & ar & partition & stored & Hu32 & Hsame & Hrk & Happ & Hok).
  set (tp := NewTopicPartition (scopedTopicName (identity_of gov ctx) (ProduceRequest_Topic req)) partition) in *.
  pose proof Happ as (topic & Htopic & Hpart & _ & Hr & _)%AppendRecord_ok. pose proof (recordFromAppend_offset _ _ _ _ _ Hr) as Ho.
  destruct (appended_delivers _ _ _ _ _ _ Hsame Hrk Hr) as (record & Erec & Eoff & Hdel).
  destruct (AppendRecord_log _ _ _ _ _ _ tp Happ) as (Hrec & _ & Ht). rewrite decide_True in Hrec by done.
  pose proof (produce_keeps_log e ctx frame req n n' r Hsend Hid Htyped Hinv Hroom Hh Hcmd) as Hinv'.
  assert (r_Transaction stored = None) as Htx.
  { pose proof (dl_Transaction _ _ Hdel) as Hn. cbn in Erec. injection Erec as <-. cbn in Hn. by destruct (r_Transaction stored). }
  eexists _, stored, record. cbv zeta. split; [eapply okFrame_receives; [|done|exact Hok]|].
  { split; [exact Hu32|]. cbn. rewrite Ho. split; [by apply log_inv_next_u64|apply is_u64_u64]. }
  cbn [ProduceResponse_Offset ProduceResponse_Partition]. fold tp.
  split_and!; [done|apply (validatePartition_eq _ tp topic); [by rewrite Ht|done]|by rewrite Hrec, last_snoc|done|done|done|].
  intros n'' e' ctx' frame' req' Hinv'' Hv'' Hin Hsend' Hf1 Hf2 Hoff Hone Hmay. rewrite <- Erec.
  apply (fetch_answered e' ctx' frame' req' n'' stored); cbv zeta; rewrite ?Hf1, ?Hf2; done.
Qed.

End Delivery.

(** ** A server to try *)

Definition ex_quota : QuotaConfig := mkQuotaConfig 0 0 0 0 1 0 0 0 1 0.
Definition ex_server : ServerConfig :=
  mkServerConfig (mkGovernanceConfig DefaultTenant DefaultNamespace [] ex_quota) (mkGroupConfig "range" false)
    (mkAuthConfig true false [mkStaticAuthToken "secret" (mkIdentity "alice" "" "" "" "")]) 1024 "ech0" 1 2.
Definition ex_env : Env := mkEnv (fun _ _ _ => 7) (fun _ _ _ => true) (fun _ => false) None [].
Definition ex_describe (err : BrokerError) : string := "".
Definition ex_node : Node (History := unit) := mkNode ex_empty_broker 0 tt.
Definition ex_frame (command : Z) (body : bytes) : wireFrame := mkWireFrame (NewFrameHeader Version command (len body)) body.

Section Example.
#[local] Existing Instances ex_envelopes map_to_list_range ex_hash RedeliverySpec.ex_backoff.

Definition ex_handle : wireFrame -> Answer (History := unit) :=
  fun frame => HandleFrame (fun h _ => h) ex_describe (fun text => text) (fun _ => Err "") (fun _ => Err "") ex_server ex_env ex_client frame ex_node.


(** A node with a topic that is ordered by key and has priorities. *)
Definition ex_orders : Node (History := unit) := mkNode ProduceSpec.ex_broker 0 tt.

Definition ex_produce : ProduceRequest :=
  mkProduceRequest "orders" None "key_hash" "eu" None (StringBytes "alice") [mkMessageHeader "trace" [Byte.x07]] false (Some 99) (StringBytes "hello").
Definition ex_fetch : FetchRequest := mkFetchRequest "reader" "orders" 1 (Some 0) 10 None None "read_uncommitted".

Definition encoded {T} `{Messages.Message T} (command : Z) (v : T) : wireFrame :=
  ex_frame command match EncodeBody command (inject v) with Ok body => body | Err _ => [] end.

Definition ex_serve (frame : wireFrame) (n : Node (History := unit)) : Answer :=
  HandleFrame (fun h _ => h) ex_describe (fun text => text) (fun _ => Err "") (fun _ => Err "") ex_server ex_env ex_client frame n.

Definition ex_published : Node := (ex_serve (encoded CmdProduceRequest ex_produce) ex_orders).1.

Lemma room_dec s : log_inv s -> map_Forall (fun _ v => v < max_u64) (nextOffsets s) -> forall tp, nextOffsetOf s tp < max_u64.
Proof.
  intros Hinv Hnext tp. unfold nextOffsetOf, recordsOf. destruct (nextOffsets s !! tp) as [v|] eqn:E; [exact (Hnext tp v E)|].
  destruct (records s !! tp) as [rs|] eqn:El; [|done]. apply (li_log s Hinv) in El as (next & En & _). congruence.
Qed.

Lemma typed_dec s : map_Forall (fun _ topic => 0 <= tc_Partitions topic < 2 ^ 32) (topics s) -> partitions_typed s.
Proof. intros Hall. exact Hall. Qed.

Lemma ex_orders_inv : log_inv (b_store (n_broker ex_orders)).
Proof. apply CreateTopic_inv, log_inv_empty. Qed.

Lemma ex_orders_room tp : nextOffsetOf (b_store (n_broker ex_orders)) tp < max_u64.
Proof. apply room_dec; [apply ex_orders_inv|]. apply (bool_decide_unpack _). by vm_compute. Qed.

Definition ex_response : wireFrame :=
  match (ex_serve (encoded CmdProduceRequest ex_produce) ex_orders).2 with Ok r => r | Err _ => errorFrame "" "" end.

Lemma ex_produce_sent : sends CmdProduceRequest ex_produce (encoded CmdProduceRequest ex_produce).
Proof.
  split; [done|done|by vm_compute|]. cbn [inject Message_ProduceRequest wf_body]. unfold wf_ProduceRequest. split_and!; try done; [by right; right; left|].
  split; [done|]. by repeat constructor.
Qed.

Lemma ex_fetch_sent : sends CmdFetchRequest ex_fetch (encoded CmdFetchRequest ex_fetch).
Proof. split; [done|done|by vm_compute|]. split_and!; try done. by left. Qed.

Lemma ex_orders_typed : partitions_typed (b_store (n_broker ex_orders)).
Proof. apply typed_dec, (bool_decide_unpack _). by vm_compute. Qed.

(** A second record is published before the first one is fetched. *)
Definition ex_later : Node := (ex_serve (encoded CmdProduceRequest ex_produce) ex_published).1.
Definition ex_fetch_one : FetchRequest := mkFetchRequest "reader" "orders" 1 (Some 0) 1 None None "read_committed".

Lemma ex_fetch_one_sent : sends CmdFetchRequest ex_fetch_one (encoded CmdFetchRequest ex_fetch_one).
Proof. split; [done|done|by vm_compute|]. split_and!; try done. by right. Qed.

Lemma ex_published_inv : log_inv (b_store (n_broker ex_published)).
Proof.
  eapply (produce_keeps_log (History := unit) (fun h _ => h) ex_describe (fun text => text) (fun _ => Err "") (fun _ => Err "") ex_server ex_env ex_client);
    [apply ex_produce_sent|done|apply ex_orders_typed|apply ex_orders_inv|apply ex_orders_room| |];
    [by vm_compute|by vm_compute].
Qed.

Lemma ex_later_inv : log_inv (b_store (n_broker ex_later)).
Proof.
  eapply (produce_keeps_log (History := unit) (fun h _ => h) ex_describe (fun text => text) (fun _ => Err "") (fun _ => Err "") ex_server ex_env ex_client);
    [apply ex_produce_sent|done| |apply ex_published_inv| | |].
  - apply typed_dec, (bool_decide_unpack _). by vm_compute.
  - apply room_dec; [apply ex_published_inv|]. apply (bool_decide_unpack _). by vm_compute.
  - by vm_compute.
  - by vm_compute.
Qed.

Lemma published_is_fetched_witness :
  exists record next high low start, delivers ex_produce record /\
    ex_serve (encoded CmdFetchRequest ex_fetch_one) ex_later =
      (ex_later, okFrame CmdFetchResponse (mkFetchResponse "orders" 1 [record] next high low start)).
Proof.
  destruct (published_is_fetched (History := unit) (fun h _ => h) ex_describe (fun text => text) (fun _ => Err "") (fun _ => Err "")
              ex_server ex_env ex_client (encoded CmdProduceRequest ex_produce) ex_produce ex_orders ex_published ex_response)
    as (response & stored & record & Hok & _ & _ & Hlast & _ & Hrec & Hdel & Hfetch);
    [apply ex_produce_sent|done|apply CreateTopic_inv, log_inv_empty|apply ex_orders_typed|apply ex_orders_room|by vm_compute|by vm_compute|].
  specialize (Hok (inject (mkProduceResponse 0 0 0)) eq_refl). vm_compute in Hok. injection Hok as <-. exists record.
  destruct (Hfetch ex_later ex_env ex_client (encoded CmdFetchRequest ex_fetch_one) ex_fetch_one) as (next & high & low & start & E & _);
    [apply ex_later_inv|by vm_compute| |apply ex_fetch_one_sent|done|done|done|by left| |].
  { vm_compute in Hlast. injection Hlast as <-. vm_compute. left. }
  { split; [by vm_compute|by vm_compute|by vm_compute|by vm_compute|]. intros state Hst. by vm_compute in Hst. }
  exists next, high, low, start. split; [exact Hdel|exact E].
Defined.

End Example.
