(* ===== verification/Connections.v ===== *)
(** * The TCP server: connections

    [src/broker/server_connections.go], [server_quota.go] and the part of
    [server.go] that serves the frames of a connection ([handleConn],
    [handleConnFrame]); the tracker of usage is the one of [Governance].

    Connections are served concurrently.  A connection is in a [phase]: what
    it has still to do for the frame it read.  One step of a connection is one
    critical section of the mutex of the tracker or of the index, or the
    handling of the frame, so the interleavings of the steps of all
    connections are those of the server.  Reading and writing frames is
    [Transport]; a failing read or write ends the connection, which it may do
    whenever it waits for a frame.

    The two-way map from clients to connections is the class [BiMap], after
    the collection library; nothing depends on its laws. *)

From stdpp Require Import prelude gmap strings list.
From S2P Require Import Prelude Wire Model MemoryStore MetaStore Queue Idempotency Headers Produce GoStrings Governance Subjects Handlers Redelivery Transactions Groups Service ServiceRedelivery Snapshot Direct RequestReply Transport Messages Registry ServerCodec Server.

#[local] Open Scope Z_scope.

(** ** The index of connections *)

Class BiMap (B : Type) := {
  bm_empty : B;
  bm_Put : string -> string -> B -> B;
  bm_DeleteByValue : string -> B -> B;
  bm_GetByKey : B -> string -> option string;
  bm_GetByValue : B -> string -> option string
}.

Record tcpConnectionIndex {B : Type} := mkIndex { ix_clients : B; ix_identities : gmap string Identity }.
Arguments tcpConnectionIndex : clear implicits.

Section Index.
Context `{BiMap B}.

Definition newTCPConnectionIndex : tcpConnectionIndex B := mkIndex B bm_empty ∅.

Definition Register (i : tcpConnectionIndex B) (clientID connectionID : string) (identity : Identity)
    : tcpConnectionIndex B * option Identity :=
  let clientID := TrimSpace clientID in
  let connectionID := TrimSpace connectionID in
  if decide (connectionID = "") then (i, None)
  else
    let previous := ix_identities i !! connectionID in
    let clients := if decide (clientID = "") then ix_clients i else bm_Put clientID connectionID (ix_clients i) in
    (mkIndex B clients (<[connectionID := normalizeIdentity identity]> (ix_identities i)), previous).

Definition DeleteConnection (i : tcpConnectionIndex B) (connectionID : string) : tcpConnectionIndex B * option Identity :=
  let connectionID := TrimSpace connectionID in
  if decide (connectionID = "") then (i, None)
  else (mkIndex B (bm_DeleteByValue connectionID (ix_clients i)) (delete connectionID (ix_identities i)), ix_identities i !! connectionID).

Definition ConnectionForClient (i : tcpConnectionIndex B) (clientID : string) : option string := bm_GetByKey (ix_clients i) clientID.
Definition ClientForConnection (i : tcpConnectionIndex B) (connectionID : string) : option string := bm_GetByValue (ix_clients i) connectionID.
Definition IdentityForConnection (i : tcpConnectionIndex B) (connectionID : string) : option Identity := ix_identities i !! connectionID.

End Index.

(** ** Serving the frames of a connection *)

(** A weighted semaphore: its size and what is taken of it. *)
Record weighted := mkWeighted { wt_size : Z; wt_cur : Z }.

Definition newConnectionSemaphore (limit : Z) : option weighted := if limit <=? 0 then None else Some (mkWeighted limit 0).

(** The identity of a context that carries none. *)
Definition noIdentity : Identity := mkIdentity "" "" "" "" "".

(** [identity] is the one the frame will be handled under. *)
Inductive phase :=
| Idle
| Acquiring (clientID : string) (identity : Identity) (frame : wireFrame)
| Registering (clientID : string) (identity : Identity) (frame : wireFrame) (acquired : bool)
| Replacing (previous identity : Identity) (frame : wireFrame)
| Entering (identity : Identity) (frame : wireFrame)
| Handling (identity : Identity) (frame : wireFrame)
| Finishing (identity : Identity)
| Closing (identity : Identity)
| Leaving.

Section Connections.
Context `{MapRange} `{Hash64} `{BackOff} {J : Json requestReplyEnvelope} `{BiMap B}.
Context {History : Type} (Push : History -> GroupRebalanceHistorySummary -> History).
Context (describe : BrokerError -> string) (describeDecode : string -> string).
Context (mapLease : ConsumerGroupMember -> result string ConsumerGroupMemberLease)
  (mapAssignment : Model.ConsumerGroupAssignment -> result string Messages.ConsumerGroupAssignment).
Context (cfg : ServerConfig).

Record TCPServer := mkTCPServer {
  sv_node : Node (History := History);
  sv_usage : quotaUsageTracker;
  sv_index : tcpConnectionIndex B;
  sv_connSem : option weighted;
  sv_phases : gmap string phase
}.

Definition set_phase (c : string) (p : phase) (s : TCPServer) : TCPServer :=
  mkTCPServer (sv_node s) (sv_usage s) (sv_index s) (sv_connSem s) (<[c := p]> (sv_phases s)).
Definition set_node (n : Node) (s : TCPServer) : TCPServer := mkTCPServer n (sv_usage s) (sv_index s) (sv_connSem s) (sv_phases s).
Definition set_usage (u : quotaUsageTracker) (s : TCPServer) : TCPServer :=
  mkTCPServer (sv_node s) u (sv_index s) (sv_connSem s) (sv_phases s).
Definition set_index (i : tcpConnectionIndex B) (s : TCPServer) : TCPServer :=
  mkTCPServer (sv_node s) (sv_usage s) i (sv_connSem s) (sv_phases s).

(** [acquireConnection] of the server; [None] while it has to wait. *)
Definition acquireSlot (s : TCPServer) : option TCPServer :=
  match sv_connSem s with
  | None => Some s
  | Some w =>
      if wt_cur w + 1 <=? wt_size w
      then Some (mkTCPServer (sv_node s) (sv_usage s) (sv_index s) (Some (mkWeighted (wt_size w) (wt_cur w + 1))) (sv_phases s))
      else None
  end.

(** [releaseConnection] of the server. *)
Definition releaseSlot (s : TCPServer) : TCPServer :=
  mkTCPServer (sv_node s) (sv_usage s) (sv_index s) ((fun w => mkWeighted (wt_size w) (wt_cur w - 1)) <$> sv_connSem s) (sv_phases s).

(** A frame arrives: [contextForConnectionFrame] up to the first critical
    section it needs.  A refused handshake is answered at once. *)
Definition arrive (c : string) (frame : wireFrame) (s : TCPServer) : TCPServer * option wireFrame :=
  if fh_Command (wf_Header frame) =? CmdHandshakeRequest then
    match decode (T := HandshakeRequest) frame with
    | Err e => (s, Some (errorFrame "invalid_request" (describeDecode e)))
    | Ok req =>
        match authenticate (sc_auth cfg) (authRequestFromHandshake req) with
        | Err e => (s, Some (errorFromErr describe e))
        | Ok who =>
            let clientID := HandshakeRequest_ClientID req in
            match IdentityForConnection (sv_index s) c with
            | Some previous =>
                if decide (quotaIdentityKey previous = quotaIdentityKey who)
                then (set_phase c (Registering clientID who frame false) s, None)
                else (set_phase c (Acquiring clientID who frame) s, None)
            | None => (set_phase c (Acquiring clientID who frame) s, None)
            end
        end
    end
  else
    match IdentityForConnection (sv_index s) c with
    | Some known => (set_phase c (Entering known frame) s, None)
    | None => (set_phase c (Entering noIdentity frame) s, None)
    end.

(** The next step of a connection that serves a frame, and the frame it
    writes. *)
Definition advance (e : Env) (c : string) (s : TCPServer) : TCPServer * option wireFrame :=
  match sv_phases s !! c with
  | None | Some Idle => (s, None)
  | Some (Acquiring clientID identity frame) =>
      match acquireConnection (gc_Quota (sc_governance cfg)) (e_tokens e 0) (sv_usage s) identity with
      | (u, Err err) => (set_phase c Idle (set_usage u s), Some (errorFromErr describe err))
      | (u, Ok _) => (set_phase c (Registering clientID identity frame true) (set_usage u s), None)
      end
  | Some (Registering clientID identity frame _) =>
      let '(i, replaced) := Register (sv_index s) clientID c identity in
      let s := set_index i s in
      match replaced with
      | Some previous =>
          if decide (quotaIdentityKey previous = quotaIdentityKey identity)
          then (set_phase c (Entering identity frame) s, None)
          else (set_phase c (Replacing previous identity frame) s, None)
      | None => (set_phase c (Entering identity frame) s, None)
      end
  | Some (Replacing previous identity frame) =>
      (set_phase c (Entering identity frame) (set_usage (releaseConnection (sv_usage s) previous) s), None)
  | Some (Entering identity frame) =>
      match beginInflight (gc_Quota (sc_governance cfg)) (e_tokens e 0) (sv_usage s) identity with
      | (u, Err err) => (set_phase c Idle (set_usage u s), Some (errorFromErr describe err))
      | (u, Ok _) => (set_phase c (Handling identity frame) (set_usage u s), None)
      end
  | Some (Handling identity frame) =>
      let '(n, r) := HandleFrame Push describe describeDecode mapLease mapAssignment cfg e identity frame (sv_node s) in
      let response := match r with Ok response => response | Err text => errorFrame "internal_error" (describeDecode text) end in
      (set_phase c (Finishing identity) (set_node n s), Some response)
  | Some (Finishing identity) => (set_phase c Idle (set_usage (finishInflight (sv_usage s) identity) s), None)
  | Some (Closing identity) =>
      (set_phase c Leaving (set_usage (releaseConnection (sv_usage s) identity) s), None)
  | Some Leaving =>
      let s := releaseSlot s in
      (mkTCPServer (sv_node s) (sv_usage s) (sv_index s) (sv_connSem s) (delete c (sv_phases s)), None)
  end.

(** [unregisterConnection], up to the release of the quota. *)
Definition disconnect (c : string) (s : TCPServer) : TCPServer :=
  let '(i, known) := DeleteConnection (sv_index s) c in
  match known with
  | Some gone => set_phase c (Closing gone) (set_index i s)
  | None => set_phase c Leaving (set_index i s)
  end.

(** What can happen: a connection is accepted and gets a slot, a frame arrives on a connection
    that waits for one, a connection goes on, a waiting connection ends, and
    the rest of the process works on the broker.  The id of a connection is
    the address of its peer, which no other connection has while it is
    served. *)
Inductive server_step : TCPServer -> TCPServer -> Prop :=
| server_accept s s' c : acquireSlot s = Some s' -> sv_phases s !! c = None -> TrimSpace c = c -> c <> "" ->
    server_step s (set_phase c Idle s')
| server_arrive s c frame : sv_phases s !! c = Some Idle -> server_step s (arrive c frame s).1
| server_advance s c e : server_step s (advance e c s).1
| server_disconnect s c : sv_phases s !! c = Some Idle -> server_step s (disconnect c s)
| server_other s n : server_step s (set_node n s).

Definition newTCPServer (n : Node) : TCPServer := 
  mkTCPServer n newQuotaUsageTracker newTCPConnectionIndex (newConnectionSemaphore (sc_MaxConcurrentConnections cfg)) ∅.

End Connections.
