(* ===== verification/ConnectionsSpec.v ===== *)
(** * The TCP server counts what it serves

    Whatever connections come, authenticate, change their identity, send
    requests and end, in any interleaving, the usage counters of the quotas are
    exactly the connections and requests there are, and stay within the
    limits. *)

From stdpp Require Import prelude gmap strings list.
From S2P Require Import Prelude Wire Model MemoryStore MetaStore Queue Idempotency Headers Produce GoStrings Governance GovernanceSpec Subjects Handlers Redelivery Transactions Groups Service ServiceRedelivery Snapshot Direct RequestReply Transport Messages Registry ProduceSpec RedeliverySpec RequestReplySpec ServerCodec Server ServerSpec Connections.

#[local] Open Scope Z_scope.

(** ** Totals over a map *)

Section Totals.
Context `{Countable K} {A : Type}.

Definition total (f : K -> A -> Z) (m : gmap K A) : Z := map_fold (fun c a acc => f c a + acc) 0 m.

Lemma total_empty f : total f ∅ = 0.
Proof. apply map_fold_empty. Qed.

Lemma total_insert f m c a : m !! c = None -> total f (<[c := a]> m) = f c a + total f m.
Proof. intros Hc. unfold total. rewrite map_fold_insert_L; [done|intros; lia|done]. Qed.

Lemma total_delete f m c a : m !! c = Some a -> total f m = f c a + total f (delete c m).
Proof. intros Hc. rewrite <- (insert_delete_id m c a Hc) at 1. apply total_insert, lookup_delete_eq. Qed.

Lemma total_ext f g m : (forall c a, m !! c = Some a -> f c a = g c a) -> total f m = total g m.
Proof.
  induction m as [|c a m Hc IH] using map_ind; intros Hfg; [by rewrite !total_empty|].
  rewrite !total_insert by done. rewrite (Hfg c a) by apply lookup_insert_eq. rewrite IH; [done|].
  intros d b Hd. apply Hfg. rewrite lookup_insert_ne; [done|congruence].
Qed.

(** One entry changes. *)
Lemma total_update f g m c p p' : m !! c = Some p -> (forall d q, d <> c -> f d q = g d q) ->
  total g (<[c := p']> m) = total f m - f c p + g c p'.
Proof.
  intros Hc Hfg. rewrite <- insert_delete_eq, total_insert by apply lookup_delete_eq. rewrite (total_delete f m c p Hc).
  rewrite (total_ext g f (delete c m)); [lia|]. intros d q [Hd _]%lookup_delete_Some. by rewrite Hfg.
Qed.

Lemma total_remove f g m c p : m !! c = Some p -> (forall d q, d <> c -> f d q = g d q) ->
  total g (delete c m) = total f m - f c p.
Proof.
  intros Hc Hfg. rewrite (total_delete f m c p Hc). rewrite (total_ext g f (delete c m)); [lia|].
  intros d q [Hd _]%lookup_delete_Some. by rewrite Hfg.
Qed.

Lemma total_nonneg f m : (forall c a, 0 <= f c a) -> 0 <= total f m.
Proof.
  intros Hf. induction m as [|c a m Hc IH] using map_ind; [by rewrite total_empty|]. rewrite total_insert by done.
  specialize (Hf c a). lia.
Qed.

End Totals.

(** ** What a connection holds *)

Definition unit_of (k : string) (identity : Identity) : Z := if decide (quotaIdentityKey identity = k) then 1 else 0.

Definition registered (k : string) (o : option Identity) : Z := match o with Some i => unit_of k i | None => 0 end.

Definition holds (k : string) (p : phase) : Z :=
  match p with
  | Registering _ i _ true => unit_of k i
  | Replacing previous _ _ => unit_of k previous
  | Closing i => unit_of k i
  | _ => 0
  end.

Definition serves (k : string) (p : phase) : Z :=
  match p with Handling i _ | Finishing i => unit_of k i | _ => 0 end.

Lemma unit_of_nonneg k i : 0 <= unit_of k i.
Proof. unfold unit_of. case_decide; lia. Qed.

Lemma unit_of_normal k i : unit_of k (normalizeIdentity i) = unit_of k i.
Proof. unfold unit_of, quotaIdentityKey. by rewrite normalizeIdentity_idemp. Qed.

Lemma unit_of_eq k i j : quotaIdentityKey i = quotaIdentityKey j -> unit_of k i = unit_of k j.
Proof. unfold unit_of. by intros ->. Qed.

Definition count (m : gmap string Z) (key : string) : Z := default 0 (m !! key).

Lemma count_insert m key v k : count (<[key := v]> m) k = if decide (key = k) then v else count m k.
Proof. unfold count. case_decide as E; [by rewrite E, lookup_insert_eq|by rewrite lookup_insert_ne]. Qed.

(** One more. *)
Lemma count_more m key k : count (<[key := default 0 (m !! key) + 1]> m) k = count m k + if decide (key = k) then 1 else 0.
Proof. rewrite count_insert. case_decide as E; [by subst|lia]. Qed.

(** One less; the entry goes with the last one. *)
Lemma count_less m key k : 1 <= count m key ->
  count (if default 0 (m !! key) <=? 1 then delete key m else <[key := default 0 (m !! key) - 1]> m) k = count m k - if decide (key = k) then 1 else 0.
Proof.
  intros Hm. fold (count m key). destruct (Z.leb_spec (count m key) 1) as [Hle|Hlt].
  - unfold count at 1. case_decide as E.
    + subst k. rewrite lookup_delete_eq. cbn. lia.
    + rewrite lookup_delete_ne by done. fold (count m k). lia.
  - rewrite count_insert. case_decide as E; [subst; lia|lia].
Qed.

Section Invariant.
Context `{MapRange} `{Hash64} `{BackOff} {J : Json requestReplyEnvelope} `{BiMap B}.
Context {History : Type} (Push : History -> GroupRebalanceHistorySummary -> History).
Context (describe : BrokerError -> string) (describeDecode : string -> string).
Context (mapLease : ConsumerGroupMember -> result string ConsumerGroupMemberLease)
  (mapAssignment : Model.ConsumerGroupAssignment -> result string Messages.ConsumerGroupAssignment).
Context (cfg : ServerConfig).

#[local] Abbreviation Srv := (TCPServer (B := B) (History := History)).
#[local] Abbreviation quota := (gc_Quota (sc_governance cfg)).

Definition held (k : string) (s : Srv) : string -> phase -> Z :=
  fun c p => registered k (ix_identities (sv_index s) !! c) + holds k p.
Definition served (k : string) : string -> phase -> Z := fun _ p => serves k p.

(** What the phase of a connection says about its entry in the index. *)
Definition coherent (p : phase) (entry : option Identity) : Prop :=
  match p with
  | Acquiring _ i _ | Registering _ i _ true =>
      forall previous, entry = Some previous -> quotaIdentityKey previous <> quotaIdentityKey i
  | Registering _ i _ false => exists previous, entry = Some previous /\ quotaIdentityKey previous = quotaIdentityKey i
  | Closing _ | Leaving => entry = None
  | _ => True
  end.

(** Every connection takes one slot. *)
Definition slots_taken (s : Srv) : Prop :=
  match sv_connSem s with
  | None => sc_MaxConcurrentConnections cfg <= 0
  | Some w => wt_size w = sc_MaxConcurrentConnections cfg /\ wt_cur w = Z.of_nat (size (sv_phases s)) /\ wt_cur w <= wt_size w
  end.

Record counted (s : Srv) : Prop := {
  ct_names : forall c p, sv_phases s !! c = Some p -> TrimSpace c = c /\ c <> "";
  ct_known : forall c, is_Some (ix_identities (sv_index s) !! c) -> is_Some (sv_phases s !! c);
  ct_coherent : forall c p, sv_phases s !! c = Some p -> coherent p (ix_identities (sv_index s) !! c);
  ct_connections : forall k, count (qt_connections (sv_usage s)) k = total (held k s) (sv_phases s);
  ct_inflight : forall k, count (qt_inflight (sv_usage s)) k = total (served k) (sv_phases s);
  ct_limits : forall k,
    (0 < q_MaxConnections quota -> count (qt_connections (sv_usage s)) k <= q_MaxConnections quota) /\
    (0 < q_MaxInflightRequests quota -> count (qt_inflight (sv_usage s)) k <= q_MaxInflightRequests quota);
  ct_slots : slots_taken s
}.

Lemma counted_new n : counted (newTCPServer cfg n).
Proof.
  split.
  - intros c p Hc. cbn [newTCPServer sv_phases sv_index newTCPConnectionIndex ix_identities] in Hc. by rewrite lookup_empty in Hc.
  - intros c [i Hc]. cbn [newTCPServer sv_phases sv_index newTCPConnectionIndex ix_identities] in Hc. by rewrite lookup_empty in Hc.
  - intros c p Hc. cbn [newTCPServer sv_phases sv_index newTCPConnectionIndex ix_identities] in Hc. by rewrite lookup_empty in Hc.
  - intros k. symmetry. apply total_empty.
  - intros k. symmetry. apply total_empty.
  - intros k. split; intros Hq; (transitivity 0; [done|lia]).
  - unfold slots_taken. cbn [newTCPServer sv_connSem sv_phases]. unfold newConnectionSemaphore.
    destruct (Z.leb_spec (sc_MaxConcurrentConnections cfg) 0); [done|]. cbn. rewrite map_size_empty. lia.
Qed.

(** A step of connection [c]: its phase becomes [p'], only its own entry of the
    index changes, and the counters change by what it holds and serves. *)
Lemma counted_step s s' c p p' : counted s -> sv_phases s !! c = Some p ->
  sv_phases s' = <[c := p']> (sv_phases s) -> sv_connSem s' = sv_connSem s ->
  (forall d, d <> c -> ix_identities (sv_index s') !! d = ix_identities (sv_index s) !! d) ->
  coherent p' (ix_identities (sv_index s') !! c) ->
  (forall k, count (qt_connections (sv_usage s')) k = count (qt_connections (sv_usage s)) k - held k s c p + held k s' c p') ->
  (forall k, count (qt_inflight (sv_usage s')) k = count (qt_inflight (sv_usage s)) k - serves k p + serves k p') ->
  (forall k,
    (0 < q_MaxConnections quota -> count (qt_connections (sv_usage s')) k <= q_MaxConnections quota) /\
    (0 < q_MaxInflightRequests quota -> count (qt_inflight (sv_usage s')) k <= q_MaxInflightRequests quota)) ->
  counted s'.
Proof.
  intros [I1 I2 I3 I4 I5 I6 I7] Hp Hph Hsem Hix Hco Hc Hf Hl. split; [| | | | |done|]; rewrite ?Hph.
  - intros d q. destruct (decide (d = c)) as [->|Hd]; [by intros _; eapply I1|rewrite lookup_insert_ne by done; apply I1].
  - intros d. destruct (decide (d = c)) as [->|Hd]; [by rewrite lookup_insert_eq|]. rewrite lookup_insert_ne, Hix by done. apply I2.
  - intros d q. destruct (decide (d = c)) as [->|Hd]; [rewrite lookup_insert_eq; by intros [= <-]|].
    rewrite lookup_insert_ne, Hix by done. apply I3.
  - intros k. rewrite Hc, I4. rewrite (total_update (held k s) (held k s') _ c p p') by (try done; intros d q Hd; unfold held; by rewrite Hix).
    done.
  - intros k. rewrite Hf, I5. by rewrite (total_update (served k) (served k) _ c p p').
  - unfold slots_taken. rewrite Hsem, Hph, map_size_insert_Some by by eexists. exact I7.
Qed.

(** The connection [c] ends. *)
Lemma counted_remove s s' c p : counted s -> sv_phases s !! c = Some p ->
  sv_phases s' = delete c (sv_phases s) -> sv_connSem s' = sv_connSem (releaseSlot s) ->
  (forall d, d <> c -> ix_identities (sv_index s') !! d = ix_identities (sv_index s) !! d) ->
  ix_identities (sv_index s') !! c = None ->
  (forall k, count (qt_connections (sv_usage s')) k = count (qt_connections (sv_usage s)) k - held k s c p) ->
  (forall k, count (qt_inflight (sv_usage s')) k = count (qt_inflight (sv_usage s)) k - serves k p) ->
  (forall k, 0 <= held k s c p /\ 0 <= serves k p) -> counted s'.
Proof.
  intros [I1 I2 I3 I4 I5 I6 I7] Hp Hph Hsem Hix Hno Hc Hf Hpos. split; rewrite ?Hph.
  - intros d q [Hd Hq]%lookup_delete_Some. by eapply I1.
  - intros d. destruct (decide (d = c)) as [->|Hd]; [rewrite Hno; by intros []|]. rewrite lookup_delete_ne, Hix by done. apply I2.
  - intros d q [Hd Hq]%lookup_delete_Some. rewrite Hix by done. by apply I3.
  - intros k. rewrite Hc, I4. rewrite (total_remove (held k s) (held k s') _ c p) by (try done; intros d q Hd; unfold held; by rewrite Hix). done.
  - intros k. rewrite Hf, I5. by rewrite (total_remove (served k) (served k) _ c p).
  - intros k. rewrite Hc, Hf. destruct (I6 k) as [L1 L2], (Hpos k). split; intros Hq; [specialize (L1 Hq)|specialize (L2 Hq)]; lia.
  - unfold slots_taken in *. rewrite Hsem, Hph. cbn [releaseSlot sv_connSem]. destruct (sv_connSem s) as [w|]; [|done]. cbn.
    rewrite (map_size_delete_Some c (sv_phases s)) by by eexists.
    assert (0 < size (sv_phases s))%nat by (apply Nat.neq_0_lt_0; intros E%map_size_empty_inv; by rewrite E, lookup_empty in Hp). lia.
Qed.

(** Changes of the counters. *)
Lemma quota_connect tokens i n m : CheckQuota quota tokens (usageRequest i QuotaActionConnect n m) = Ok tt ->
  0 < q_MaxConnections quota -> n + 1 <= q_MaxConnections quota.
Proof.
  unfold CheckQuota. destruct (quotaConfigEmpty quota) eqn:Ee.
  { intros _ Hq. exfalso. unfold quotaConfigEmpty in Ee. rewrite !andb_true_iff in Ee. lia. }
  cbn [checkStatic usageRequest qr_Action]. unfold checkConnectionQuota. cbn [usageRequest qr_CurrentConnections]. intros Hc Hq.
  destruct (Z.ltb_spec 0 (q_MaxConnections quota)); [|lia]. cbn [andb] in Hc.
  destruct (Z.ltb_spec (q_MaxConnections quota) (n + 1)); [done|lia].
Qed.

Lemma quota_inflight tokens i n m : CheckQuota quota tokens (usageRequest i QuotaActionInflight n m) = Ok tt ->
  0 < q_MaxInflightRequests quota -> m + 1 <= q_MaxInflightRequests quota.
Proof.
  unfold CheckQuota. destruct (quotaConfigEmpty quota) eqn:Ee.
  { intros _ Hq. exfalso. unfold quotaConfigEmpty in Ee. rewrite !andb_true_iff in Ee. lia. }
  cbn [checkStatic usageRequest qr_Action]. unfold checkInflightQuota. cbn [usageRequest qr_CurrentInflightRequests]. intros Hc Hq.
  destruct (Z.ltb_spec 0 (q_MaxInflightRequests quota)); [|lia]. cbn [andb] in Hc.
  destruct (Z.ltb_spec (q_MaxInflightRequests quota) (m + 1)); [done|lia].
Qed.

Lemma held_nonneg k s c p : 0 <= held k s c p.
Proof.
  unfold held, registered, holds. destruct (ix_identities (sv_index s) !! c), p as [| |? ? ? []| | | | | |];
    rewrite ?Z.add_0_r, ?Z.add_0_l; try done; try apply unit_of_nonneg; apply Z.add_nonneg_nonneg; apply unit_of_nonneg.
Qed.

Lemma serves_nonneg k p : 0 <= serves k p.
Proof. destruct p; cbn; try done; apply unit_of_nonneg. Qed.

(** A counter is at least what one connection holds. *)
Lemma connections_at_least k s c p : counted s -> sv_phases s !! c = Some p -> held k s c p <= count (qt_connections (sv_usage s)) k.
Proof.
  intros Hs Hp. rewrite (ct_connections s Hs), (total_delete _ _ _ _ Hp).
  pose proof (total_nonneg (held k s) (delete c (sv_phases s)) (held_nonneg k s)). lia.
Qed.

Lemma inflight_at_least k s c p : counted s -> sv_phases s !! c = Some p -> serves k p <= count (qt_inflight (sv_usage s)) k.
Proof.
  intros Hs Hp. rewrite (ct_inflight s Hs), (total_delete _ _ _ _ Hp).
  pose proof (total_nonneg (served k) (delete c (sv_phases s)) (fun _ => serves_nonneg k)). unfold served at 1. lia.
Qed.

(** Steps that leave the counters alone. *)
Lemma counted_move s c p p' : counted s -> sv_phases s !! c = Some p ->
  coherent p' (ix_identities (sv_index s) !! c) -> (forall k, holds k p' = holds k p /\ serves k p' = serves k p) ->
  counted (set_phase c p' s).
Proof.
  intros Hs Hp Hco Hk. apply (counted_step s _ c p p'); try done.
  - intros k. unfold held. cbn [set_phase sv_usage sv_index]. destruct (Hk k) as [-> _]. lia.
  - intros k. cbn [set_phase sv_usage]. destruct (Hk k) as [_ ->]. lia.
  - exact (ct_limits s Hs).
Qed.

Lemma counted_node s n : counted s -> counted (set_node n s).
Proof. by intros []. Qed.

Lemma arrive_counted s c frame : counted s -> sv_phases s !! c = Some Idle -> counted (arrive describe describeDecode cfg c frame s).1.
Proof.
  intros Hs Hp. unfold arrive, IdentityForConnection. destruct (_ =? _).
  - destruct (decode frame) as [req|err]; [|done]. destruct (authenticate _ _) as [who|err]; [|done]. cbn zeta.
    destruct (ix_identities (sv_index s) !! c) as [previous|] eqn:Eix; [destruct (decide _) as [Ek|Ek]|];
      cbn [fst]; apply (counted_move s c Idle); try done; rewrite Eix; cbn [coherent]; try done; [by eexists|].
    by intros x [= <-].
  - destruct (ix_identities (sv_index s) !! c); cbn [fst]; by apply (counted_move s c Idle).
Qed.

Lemma decrement_connections k s c p i : counted s -> sv_phases s !! c = Some p -> (forall k, unit_of k i <= held k s c p) ->
  count (qt_connections (releaseConnection (sv_usage s) i)) k = count (qt_connections (sv_usage s)) k - unit_of k i.
Proof.
  intros Hs Hp Hu. unfold releaseConnection. cbn [qt_connections]. cbv zeta. rewrite count_less; [done|].
  pose proof (connections_at_least (quotaIdentityKey i) s c p Hs Hp). specialize (Hu (quotaIdentityKey i)).
  unfold unit_of in Hu. rewrite decide_True in Hu by done. lia.
Qed.

(** A connection enters the index. *)
Lemma registering_counted s c e clientID i frame acquired : counted s ->
  sv_phases s !! c = Some (Registering clientID i frame acquired) ->
  counted (advance Push describe describeDecode mapLease mapAssignment cfg e c s).1.
Proof.
  intros Hs Hp. unfold advance. rewrite Hp. destruct (ct_names s Hs c _ Hp) as [Htrim Hne].
  pose proof (ct_coherent s Hs c _ Hp) as Hco. pose proof (ct_limits s Hs) as Hlim.
  unfold Register. rewrite Htrim. rewrite decide_False by done. cbn zeta iota.
  set (s1 := set_index _ s).
  assert (forall d, d <> c -> ix_identities (sv_index s1) !! d = ix_identities (sv_index s) !! d) as Hix
    by (intros d Hd; cbn; by rewrite lookup_insert_ne).
  assert (forall k q, holds k q = 0 -> held k s1 c q = unit_of k i) as Hheld.
  { intros k q Hq. unfold held. cbn. rewrite lookup_insert_eq. cbn. rewrite unit_of_normal, Hq. lia. }
  destruct (ix_identities (sv_index s) !! c) as [previous|] eqn:Eix; [destruct (decide (quotaIdentityKey previous = quotaIdentityKey i)) as [Ek|Ek]|]; cbn [fst];
    (eapply (counted_step s _ c _ _ Hs Hp); [reflexivity|reflexivity|exact Hix|done| |intros k; cbn; lia|exact Hlim]); intros k.
  + change (held k (set_phase _ _ s1)) with (held k s1). rewrite Hheld by done. cbn [sv_usage set_phase s1 set_index].
    unfold held. rewrite Eix. cbn [registered]. destruct acquired; [by destruct (Hco _ eq_refl)|]. cbn. rewrite (unit_of_eq k _ _ Ek). lia.
  + change (held k (set_phase _ _ s1)) with (held k s1). unfold held. rewrite Eix. cbn. rewrite lookup_insert_eq. cbn.
    rewrite unit_of_normal. destruct acquired; [lia|]. destruct Hco as (x & [= <-] & ?). congruence.
  + change (held k (set_phase _ _ s1)) with (held k s1). rewrite Hheld by done. cbn [sv_usage set_phase s1 set_index].
    unfold held. rewrite Eix. cbn. destruct acquired; [lia|]. by destruct Hco as (x & ? & _).
Qed.

Lemma advance_counted s c e : counted s -> counted (advance Push describe describeDecode mapLease mapAssignment cfg e c s).1.
Proof.
  intros Hs. destruct (sv_phases s !! c) as [p|] eqn:Hp; [|unfold advance; by rewrite Hp].
  destruct (ct_names s Hs c p Hp) as [Htrim Hne]. pose proof (ct_coherent s Hs c p Hp) as Hco. pose proof (ct_limits s Hs) as Hlim.
  destruct p as [|clientID i frame|clientID i frame acquired|previous i frame|i frame|i frame|i|i|];
    [unfold advance; by rewrite Hp| |by eapply registering_counted|..]; unfold advance; rewrite Hp.
  - unfold acquireConnection. destruct (CheckQuota _ _ _) as [[]|err] eqn:Eq; cbn [fst]; [|by apply (counted_move s c _ Idle Hs Hp)].
    eapply (counted_step s _ c _ _ Hs Hp); try done.
    + intros k. unfold held. cbn. rewrite count_more. unfold unit_of. lia.
    + intros k. cbn. lia.
    + intros k. split; [|apply Hlim]. intros Hq. cbn. rewrite count_insert. case_decide; [|by apply Hlim].
      by eapply quota_connect.
  - cbn [fst]. assert (forall k, count (qt_connections (releaseConnection (sv_usage s) previous)) k =
      count (qt_connections (sv_usage s)) k - unit_of k previous) as Hdec.
    { intros k. apply (decrement_connections k s c _ _ Hs Hp). intros k'. unfold held. cbn.
      pose proof (held_nonneg k' s c Idle) as Hh. unfold held in Hh. cbn in Hh. lia. }
    eapply (counted_step s _ c _ _ Hs Hp); try done; intros k; cbn [sv_usage set_phase set_usage].
    + rewrite Hdec. unfold held. cbn. lia.
    + cbn. lia.
    + split; [|apply Hlim]. intros Hq. rewrite Hdec. destruct (Hlim k) as [Hl _]. pose proof (unit_of_nonneg k previous). specialize (Hl Hq). lia.
  - unfold beginInflight. destruct (CheckQuota _ _ _) as [[]|err] eqn:Eq; cbn [fst]; [|by apply (counted_move s c _ Idle Hs Hp)].
    eapply (counted_step s _ c _ _ Hs Hp); try done.
    + intros k. unfold held. cbn. lia.
    + intros k. cbn. rewrite count_more. unfold unit_of. lia.
    + intros k. split; [apply Hlim|]. intros Hq. cbn. rewrite count_insert. case_decide; [|by apply Hlim].
      by eapply quota_inflight.
  - destruct (HandleFrame _ _ _ _ _ _ _ _ _ _) as [n r]. cbn [fst]. apply (counted_move (set_node n s) c (Handling i frame)); try done.
    by apply counted_node.
  - cbn [fst]. assert (forall k, count (qt_inflight (finishInflight (sv_usage s) i)) k =
      count (qt_inflight (sv_usage s)) k - unit_of k i) as Hdec.
    { intros k. unfold finishInflight. cbn [qt_inflight]. cbv zeta. rewrite count_less; [done|].
      pose proof (inflight_at_least (quotaIdentityKey i) s c _ Hs Hp) as Hal. cbn in Hal. unfold unit_of in Hal. by rewrite decide_True in Hal. }
    eapply (counted_step s _ c _ _ Hs Hp); try done; intros k; cbn [sv_usage set_phase set_usage].
    + unfold held. cbn. lia.
    + rewrite Hdec. cbn. lia.
    + split; [apply Hlim|]. intros Hq. rewrite Hdec. destruct (Hlim k) as [_ Hl]. pose proof (unit_of_nonneg k i). specialize (Hl Hq). lia.
  - cbn [fst]. cbn in Hco. assert (forall k, held k s c (Closing i) = unit_of k i) as Hheld.
    { intros k. unfold held. by rewrite Hco. }
    assert (forall k, count (qt_connections (releaseConnection (sv_usage s) i)) k =
      count (qt_connections (sv_usage s)) k - unit_of k i) as Hdec.
    { intros k. apply (decrement_connections k s c _ _ Hs Hp). intros k'. by rewrite Hheld. }
    eapply (counted_step s _ c _ _ Hs Hp); try done; intros k; cbn [sv_usage set_phase set_usage].
    + rewrite Hdec, Hheld. unfold held. cbn. rewrite Hco. cbn. lia.
    + cbn. lia.
    + split; [|apply Hlim]. intros Hq. rewrite Hdec. destruct (Hlim k) as [Hl _]. pose proof (unit_of_nonneg k i). specialize (Hl Hq). lia.
  - cbn [fst]. cbn in Hco. apply (counted_remove s _ c Leaving Hs Hp); try done; intros k.
    + unfold held. rewrite Hco. cbn. lia.
    + cbn. lia.
    + split; [apply held_nonneg|done].
Qed.

Lemma disconnect_counted s c : counted s -> sv_phases s !! c = Some Idle -> counted (disconnect c s).
Proof.
  intros Hs Hp. destruct (ct_names s Hs c Idle Hp) as [Htrim Hne]. pose proof (ct_limits s Hs) as Hlim.
  unfold disconnect, DeleteConnection. rewrite Htrim. rewrite decide_False by done. cbn zeta iota.
  assert (forall d, d <> c -> delete c (ix_identities (sv_index s)) !! d = ix_identities (sv_index s) !! d) as Hix
    by (intros d Hd; by rewrite lookup_delete_ne).
  destruct (ix_identities (sv_index s) !! c) as [known|] eqn:Eix;
    (eapply (counted_step s _ c _ _ Hs Hp); [reflexivity|reflexivity|exact Hix| | |intros k; cbn; lia|exact Hlim]).
  1,3: cbn; by rewrite lookup_delete_eq.
  all: intros k; unfold held; cbn; rewrite Eix, lookup_delete_eq; cbn; lia.
Qed.

(** A slot changes nothing else. *)
Lemma acquireSlot_some (s s' : Srv) : acquireSlot s = Some s' ->
  sv_usage s' = sv_usage s /\ sv_index s' = sv_index s /\ sv_phases s' = sv_phases s.
Proof. unfold acquireSlot. destruct (sv_connSem s) as [w|]; [destruct (_ <=? _)|]; by intros [= <-]. Qed.

Lemma accept_counted (s s' : Srv) c : counted s -> acquireSlot s = Some s' -> sv_phases s !! c = None -> TrimSpace c = c -> c <> "" ->
  counted (set_phase c Idle s').
Proof.
  intros [I1 I2 I3 I4 I5 I6 I7] Hslot Hp Htrim Hne. pose proof (acquireSlot_some _ _ Hslot) as (Hu & Hi & Hph).
  assert (ix_identities (sv_index s) !! c = None) as Hno.
  { destruct (ix_identities (sv_index s) !! c) eqn:E; [|done]. destruct (I2 c) as [p Hp']; [by eexists|congruence]. }
  split; cbn [set_phase sv_phases sv_index sv_usage]; rewrite ?Hu, ?Hi, ?Hph.
  - intros d p. destruct (decide (d = c)) as [->|Hd]; [done|rewrite lookup_insert_ne by done; apply I1].
  - intros d Hd. destruct (decide (d = c)) as [->|Hdc]; [by rewrite lookup_insert_eq|rewrite lookup_insert_ne by done; by apply I2].
  - intros d p. destruct (decide (d = c)) as [->|Hd]; [rewrite lookup_insert_eq; by intros [= <-]|rewrite lookup_insert_ne by done; apply I3].
  - intros k. rewrite total_insert by done. unfold held at 1. cbn. rewrite Hi, Hno, I4. unfold held. cbn. by rewrite Hi.
  - intros k. rewrite total_insert by done. unfold served at 1. cbn. by rewrite I5.
  - exact I6.
  - unfold slots_taken in *. cbn [set_phase sv_connSem sv_phases]. rewrite Hph, map_size_insert_None by done. unfold acquireSlot in Hslot.
    destruct (sv_connSem s) as [w|] eqn:Es; [|by injection Hslot as <-; rewrite Es].
    destruct (Z.leb_spec (wt_cur w + 1) (wt_size w)) as [Hle|]; [|done]. injection Hslot as <-. cbn. lia.
Qed.

Lemma server_counted s s' : server_step Push describe describeDecode mapLease mapAssignment cfg s s' -> counted s -> counted s'.
Proof.
  intros Hstep Hs. destruct Hstep; [by eapply accept_counted|by apply arrive_counted|by apply advance_counted|by apply disconnect_counted|
    by apply counted_node].
Qed.

(** C5: the quotas count what there is.  In every state the server reaches,
    whatever connections are accepted, authenticate, change their identity,
    send frames, are refused and end, in any interleaving: the counter of
    connections of an identity is the number of connections registered or being
    registered or released under it, the counter of requests the number of
    requests being handled under it; neither exceeds its limit, both are zero
    again when all connections have ended, and no more connections are served
    at a time than the server has slots. *)
Theorem quota_usage_exact n s :
  rtc (server_step Push describe describeDecode mapLease mapAssignment cfg) (newTCPServer cfg n) s ->
  forall identity, let k := quotaIdentityKey identity in
    connectionCount (sv_usage s) identity = total (held k s) (sv_phases s) /\
    inflightCount (sv_usage s) identity = total (served k) (sv_phases s) /\
    (0 < q_MaxConnections quota -> connectionCount (sv_usage s) identity <= q_MaxConnections quota) /\
    (0 < q_MaxInflightRequests quota -> inflightCount (sv_usage s) identity <= q_MaxInflightRequests quota) /\
    (sv_phases s = ∅ -> connectionCount (sv_usage s) identity = 0 /\ inflightCount (sv_usage s) identity = 0) /\
    (0 < sc_MaxConcurrentConnections cfg -> Z.of_nat (size (sv_phases s)) <= sc_MaxConcurrentConnections cfg).
Proof.
  intros Hr identity k. assert (counted s) as Hs.
  { clear identity k. remember (newTCPServer cfg n) as s0 eqn:E0. assert (counted s0) as H0' by (subst; apply counted_new). clear E0.
    induction Hr as [|x y z Hxy _ IH]; [done|]. apply IH. by apply (server_counted x). }
  destruct (ct_limits s Hs k) as [L1 L2]. unfold connectionCount, inflightCount.
  fold k (count (qt_connections (sv_usage s)) k) (count (qt_inflight (sv_usage s)) k).
  rewrite (ct_connections s Hs), (ct_inflight s Hs) in *. split_and!; try done.
  - intros ->. by rewrite !total_empty.
  - intros Hmax. pose proof (ct_slots s Hs) as Hslots. unfold slots_taken in Hslots. destruct (sv_connSem s) as [w|]; lia.
Qed.

End Invariant.

(** ** A run *)

(** One client per connection and one connection per client, as a map. *)
#[local] Instance ex_bimap : BiMap (gmap string string) := {
  bm_empty := ∅;
  bm_Put := fun key value m => <[key := value]> (filter (fun '(_, v) => v <> value) m);
  bm_DeleteByValue := fun value m => filter (fun '(_, v) => v <> value) m;
  bm_GetByKey := fun m key => m !! key;
  bm_GetByValue := fun m value => fst <$> head (filter (fun '(_, v) => v = value) (map_to_list m))
}.

Section Example.
#[local] Existing Instances ex_envelopes map_to_list_range ex_hash RedeliverySpec.ex_backoff.

#[local] Abbreviation run_arrive := (arrive (B := gmap string string) (History := unit) ex_describe (fun text => text) ex_server).
#[local] Abbreviation run_advance :=
  (advance (B := gmap string string) (History := unit) (fun h _ => h) ex_describe (fun text => text) (fun _ => Err "") (fun _ => Err "") ex_server).
#[local] Abbreviation run_step :=
  (server_step (B := gmap string string) (History := unit) (fun h _ => h) ex_describe (fun text => text) (fun _ => Err "") (fun _ => Err "") ex_server).

Definition ex_handshake : wireFrame :=
  ex_frame CmdHandshakeRequest
    match EncodeBody CmdHandshakeRequest (inject (mkHandshakeRequest "cli" "" "" "" "secret" [])) with Ok body => body | Err _ => [] end.

Definition ex_accept (c : string) (s : TCPServer (B := gmap string string) (History := unit)) : TCPServer :=
  set_phase c Idle (default s (acquireSlot s)).
Definition ex_accepted : TCPServer := ex_accept "b:2" (ex_accept "a:1" (newTCPServer ex_server ex_node)).

(** Connection [a:1] authenticates and its frame is being handled; [b:2] asks
    for the same identity and is over the limit of one connection. *)
Definition ex_busy : TCPServer :=
  (run_advance ex_env "a:1" (run_advance ex_env "a:1" (run_advance ex_env "a:1" (run_arrive "a:1" ex_handshake ex_accepted).1).1).1).1.
Definition ex_refused : TCPServer := (run_advance ex_env "b:2" (run_arrive "b:2" ex_handshake ex_busy).1).1.

Lemma quota_usage_exact_witness :
  let alice := mkIdentity "alice" "" "" "" "" in let k := quotaIdentityKey alice in
  rtc run_step (newTCPServer ex_server ex_node) ex_refused /\
  connectionCount (sv_usage ex_refused) alice = 1 /\ inflightCount (sv_usage ex_refused) alice = 1 /\
  sv_phases ex_refused !! "b:2" = Some Idle /\
  connectionCount (sv_usage ex_refused) alice = total (held k ex_refused) (sv_phases ex_refused) /\
  inflightCount (sv_usage ex_refused) alice = total (served k) (sv_phases ex_refused).
Proof.
  intros alice k. assert (rtc run_step (newTCPServer ex_server ex_node) ex_refused) as Hrun.
  { unfold ex_refused, ex_busy. eapply rtc_l; [by eapply (server_accept _ _ _ _ _ _ _ _ "a:1")|]. eapply rtc_l; [by eapply (server_accept _ _ _ _ _ _ _ _ "b:2")|].
    eapply rtc_l; [by apply (server_arrive _ _ _ _ _ _ _ "a:1" ex_handshake)|].
    do 3 (eapply rtc_l; [apply (server_advance _ _ _ _ _ _ _ "a:1" ex_env)|]).
    eapply rtc_l; [apply (server_arrive _ _ _ _ _ _ _ "b:2" ex_handshake); by vm_compute|].
    apply rtc_once. apply (server_advance _ _ _ _ _ _ _ "b:2" ex_env). }
  pose proof (quota_usage_exact _ _ _ _ _ _ _ _ Hrun alice) as (H1 & H2 & _).
  split_and!; [exact Hrun|by vm_compute..|exact H1|exact H2].
Defined.

(** ** Notes on the code *)

(** A connection that never sent a handshake is served, under the default
    identity, also when tokens are required and anonymous access is off: only
    the handshake itself asks for authentication. *)
Lemma unauthenticated_connection_served frame :
  fh_Command (wf_Header frame) <> CmdHandshakeRequest ->
  let s := (run_arrive "b:2" frame ex_accepted).1 in
  auth_AllowAnonymous (sc_auth ex_server) = false /\
  is_ok (authenticate (sc_auth ex_server) (mkAuthRequest "" "" "" "" "")) = false /\
  sv_phases (run_advance ex_env "b:2" s).1 !! "b:2" = Some (Handling noIdentity frame).
Proof.
  intros Hc. cbn zeta. split_and!; [done|by vm_compute|]. unfold arrive. rewrite (proj2 (Z.eqb_neq _ _) Hc).
  by vm_compute.
Qed.

End Example.
