(* ===== verification/Sharded.v ===== *)
(** * The message runtime over several segment logs

    [src/broker/sharded_message_*.go] and [partition_reassignment.go]: a broker
    with more than one data shard keeps a segment log per shard.  The resolver
    says on which shard a partition lives; topics exist on every shard;
    retention and compaction run on all shards; a partition can move to
    another shard.

    The lock of a partition makes the operations on it atomic.  The shards,
    the metadata store and the resolver are shared with the broker, so they
    are the state.  Passes over the shards visit them in the order of the map;
    of several errors of a pass the first one is kept, which decides the code
    of the joined error.  [cancelled] says for which shards the context of a
    maintenance pass was done before its worker began. *)

From stdpp Require Import prelude gmap strings list.
From S2P Require Import Prelude Model MemoryStore Cleanup MetaStore Queue Idempotency Produce Governance SegmentFrame SegmentIndex SegmentLog Snapshot.

#[local] Open Scope Z_scope.

Module ShardedRuntime.
Import StorxLog (StorxLogStore, Files, LogSnapshot, mkLogSnapshot, ls_Topics, ls_Records, ls_LogOffsets).

(** ** Shards *)

Record dataShardSpec := mkDataShardSpec { ds_ShardID : Z; ds_Dir : string; ds_SegmentLogPath : string }.

(** The paths are those of the configuration. *)
Definition buildDataShardSpecs (ShardDir ShardSegmentLogPath : Z -> string) (dataShardCount : Z) : list dataShardSpec :=
  let shardCount := if dataShardCount =? 0 then 1 else dataShardCount in
  (fun shardID => mkDataShardSpec shardID (ShardDir shardID) (ShardSegmentLogPath shardID)) <$> seqZ 0 shardCount.

Record shardedMessageRuntime := mkShardedMessageRuntime {
  sm_meta : MemoryStore;
  sm_resolver : brokerShardResolver;
  sm_shards : gmap Z StorxLogStore
}.

Definition set_meta (meta : MemoryStore) (r : shardedMessageRuntime) : shardedMessageRuntime :=
  mkShardedMessageRuntime meta (sm_resolver r) (sm_shards r).
Definition set_resolver (resolver : brokerShardResolver) (r : shardedMessageRuntime) : shardedMessageRuntime :=
  mkShardedMessageRuntime (sm_meta r) resolver (sm_shards r).
Definition set_shards (shards : gmap Z StorxLogStore) (r : shardedMessageRuntime) : shardedMessageRuntime :=
  mkShardedMessageRuntime (sm_meta r) (sm_resolver r) shards.
Definition set_shard (shardID : Z) (shard : StorxLogStore) (r : shardedMessageRuntime) : shardedMessageRuntime :=
  set_shards (<[shardID := shard]> (sm_shards r)) r.

Section Runtime.
Context `{Zstd} `{ManifestCodec} `{MapRange}.

(** [disk path] are the files under a path. *)
Definition openMessageShard (spec : dataShardSpec) (readMode : string) (disk : string -> Files) : result BrokerError StorxLogStore :=
  of_store (StorxLog.OpenStorxLogStoreWithOptions (ds_SegmentLogPath spec) (disk (ds_SegmentLogPath spec)) (mkStorxLogOptions "" readMode)).

Fixpoint openMessageShards (readMode : string) (disk : string -> Files) (shards : gmap Z StorxLogStore) (specs : list dataShardSpec)
    : result BrokerError (gmap Z StorxLogStore) :=
  match specs with
  | [] => Ok shards
  | spec :: specs =>
      shard ← openMessageShard spec readMode disk;
      openMessageShards readMode disk (<[ds_ShardID spec := shard]> shards) specs
  end.

Definition newShardedMessageRuntime (ShardDir ShardSegmentLogPath : Z -> string) (dataShardCount : Z) (specs : list dataShardSpec)
    (readMode : string) (disk : string -> Files) (resolver : option brokerShardResolver) (meta : MemoryStore)
    : result BrokerError shardedMessageRuntime :=
  let specs := match specs with [] => buildDataShardSpecs ShardDir ShardSegmentLogPath dataShardCount | _ => specs end in
  shards ← openMessageShards readMode disk ∅ specs;
  Ok (mkShardedMessageRuntime meta (default (newBrokerShardResolver dataShardCount) resolver) shards).

Definition shardByID (r : shardedMessageRuntime) (shardID : Z) : result BrokerError StorxLogStore :=
  match sm_shards r !! shardID with
  | None => Err (StoreError CodeInvalidArgument)
  | Some shard => Ok shard
  end.

Definition resolve (r : shardedMessageRuntime) (tp : TopicPartition) : shardedMessageRuntime * result BrokerError ShardPlacement :=
  let '(resolver, placement) := Resolve (sm_resolver r) (sm_meta r) tp in (set_resolver resolver r, placement).

Definition shardForTopicPartition (r : shardedMessageRuntime) (tp : TopicPartition)
    : shardedMessageRuntime * result BrokerError (Z * StorxLogStore) :=
  let '(r, placement) := resolve r tp in
  (r, placement ← placement; shard ← shardByID r (sp_ShardID placement); Ok (sp_ShardID placement, shard)).

(** An operation on the log of the partition's shard, under the lock of the
    partition. *)
Definition onShard {A} (r : shardedMessageRuntime) (tp : TopicPartition) (op : StorxLogStore -> StorxLogStore * result Code A)
    : shardedMessageRuntime * result BrokerError A :=
  match shardForTopicPartition r tp with
  | (r, Err e) => (r, Err e)
  | (r, Ok (shardID, shard)) => let '(shard, out) := op shard in (set_shard shardID shard r, of_store out)
  end.

Definition readShard {A} (r : shardedMessageRuntime) (tp : TopicPartition) (op : StorxLogStore -> result Code A)
    : shardedMessageRuntime * result BrokerError A :=
  onShard r tp (fun shard => (shard, op shard)).

(** The same for a read that may panic; the panic, which unwinds the call, is
    an error that no operation returns. *)
Definition readShardOrPanic {A} (r : shardedMessageRuntime) (tp : TopicPartition) (op : StorxLogStore -> option (result Code A))
    : shardedMessageRuntime * result BrokerError A :=
  match shardForTopicPartition r tp with
  | (r, Err e) => (r, Err e)
  | (r, Ok (_, shard)) => (r, from_option of_store (Err (BrokerFailure "panic")) (op shard))
  end.

(** ** Topics *)

Fixpoint topicOnShards (shards : list StorxLogStore) (topic : string) : result BrokerError bool :=
  match shards with
  | [] => Ok false
  | shard :: shards =>
      exists_ ← of_store (StorxLog.TopicExists shard topic);
      if exists_ : bool then Ok true else topicOnShards shards topic
  end.

Definition TopicExists (r : shardedMessageRuntime) (topic : string) : result BrokerError bool :=
  cfg ← of_store (LoadTopicConfig (sm_meta r) topic);
  match cfg with
  | Some _ => Ok true
  | None => topicOnShards (values (sm_shards r)) topic
  end.

(** A pass over the shards. *)
Definition onEachShard {A} (op : Z -> StorxLogStore -> StorxLogStore * result Code A) (add : A -> A -> A) (zero : A)
    (shards : gmap Z StorxLogStore) : gmap Z StorxLogStore * result BrokerError A :=
  foldl (fun '(out, total) '(shardID, shard) =>
           let '(shard, res) := op shardID shard in
           (<[shardID := shard]> out,
            match total, res with
            | Ok total, Ok res => Ok (add total res)
            | Ok _, Err e => Err (StoreError e)
            | Err e, _ => Err e
            end)) (shards, Ok zero) (range shards).

Definition createTopicLogs (r : shardedMessageRuntime) (topic : TopicConfig) : shardedMessageRuntime * result BrokerError unit :=
  let '(shards, res) := onEachShard (fun _ shard => StorxLog.CreateTopic shard topic) (fun _ u => u) tt (sm_shards r) in
  (set_shards shards r, res).

Definition CreateTopic (r : shardedMessageRuntime) (topic : TopicConfig) : shardedMessageRuntime * result BrokerError unit :=
  match TopicExists r (tc_Name topic) with
  | Err e => (r, Err e)
  | Ok true => (r, Err (StoreError CodeTopicExists))
  | Ok false =>
      match createTopicLogs r topic with
      | (r, Err e) => (r, Err e)
      | (r, Ok _) => let '(meta, res) := SaveTopicConfig (sm_meta r) topic in (set_meta meta r, of_store res)
      end
  end.

Definition ListTopics (r : shardedMessageRuntime) : result BrokerError (list TopicConfig) := of_store (MemoryStore.ListTopics (sm_meta r)).

(** ** Records *)

Definition PublishRecord (nowMS : Z) (r : shardedMessageRuntime) (topic : string) (partition : Z) (record : RecordAppend)
    : shardedMessageRuntime * result BrokerError Rec :=
  let tp := NewTopicPartition topic partition in onShard r tp (fun log => StorxLog.AppendRecord nowMS log tp record).

Definition PublishBatchRecords (clock : nat -> Z) (r : shardedMessageRuntime) (topic : string) (partition : Z)
    (records : list RecordAppend) : shardedMessageRuntime * result BrokerError (list Rec) :=
  let tp := NewTopicPartition topic partition in onShard r tp (fun log => StorxLog.AppendRecordsBatch clock log tp records).

(** [queue.Runtime.Fetch] over a shard and the metadata; [None] is a panic of
    the read. *)
Definition fetchShard (meta : MemoryStore) (log : StorxLogStore) (consumer topic : string) (partition : Z) (offset : option Z)
    (maxRecords : Z) : option (result Code PollResult) :=
  let tp := NewTopicPartition topic partition in
  let start :=
    offsets ← StorxLog.PartitionOffsets log tp;
    match offset with
    | Some offset => Ok (offsets, Z.max offset (pos_LogStartOffset offsets))
    | None =>
        committed ← LoadConsumerOffset meta consumer tp;
        Ok (offsets, match committed with
                     | Some committed => Z.max committed (pos_LogStartOffset offsets)
                     | None => pos_LogStartOffset offsets
                     end)
    end in
  match start with
  | Err e => Some (Err e)
  | Ok (offsets, nextOffset) =>
      (fun records =>
         records ← records;
         Ok (mkPollResult records (match last records with Some record => u64 (r_Offset record + 1) | None => nextOffset end)
               (pos_HighWatermark offsets) (pos_LowWatermark offsets) (pos_LogStartOffset offsets)))
      <$> StorxLog.ReadFrom log tp nextOffset maxRecords
  end.

Definition Fetch (r : shardedMessageRuntime) (consumer topic : string) (partition : Z) (offset : option Z) (maxRecords : Z)
    : shardedMessageRuntime * result BrokerError PollResult :=
  readShardOrPanic r (NewTopicPartition topic partition)
    (fun log => fetchShard (sm_meta r) log consumer topic partition offset maxRecords).

Definition Ack (nowMS : Z) (r : shardedMessageRuntime) (consumer topic : string) (partition nextOffset : Z)
    : shardedMessageRuntime * result BrokerError unit :=
  let tp := NewTopicPartition topic partition in
  match shardForTopicPartition r tp with
  | (r, Err e) => (r, Err e)
  | (r, Ok _) => let '(meta, res) := SaveConsumerOffset nowMS (sm_meta r) consumer tp nextOffset in (set_meta meta r, of_store res)
  end.

Definition ReadFrom (r : shardedMessageRuntime) (tp : TopicPartition) (offset maxRecords : Z) :=
  readShardOrPanic r tp (fun log => StorxLog.ReadFrom log tp offset maxRecords).

Definition LastOffset (r : shardedMessageRuntime) (tp : TopicPartition) := readShard r tp (fun log => StorxLog.LastOffset log tp).

Definition PartitionOffsets (r : shardedMessageRuntime) (tp : TopicPartition) :=
  readShard r tp (fun log => StorxLog.PartitionOffsets log tp).

Definition OffsetForTimestamp (r : shardedMessageRuntime) (tp : TopicPartition) (timestampMS : Z) :=
  readShard r tp (fun log => StorxLog.OffsetForTimestamp log tp timestampMS).

Definition ReadPage (r : shardedMessageRuntime) (tp : TopicPartition) (cursor : string) (maxRecords : Z) :=
  readShardOrPanic r tp (fun log => StorxLog.ReadPage log tp cursor maxRecords).

(** Shards without the topic count nothing. *)
Definition StorageUsage (r : shardedMessageRuntime) (topic : string) : result BrokerError Z :=
  (onEachShard (fun _ shard => (shard, match StorxLog.StorageUsage shard topic with Err CodeTopicNotFound => Ok 0 | usage => usage end))
     (fun total usage => u64 (total + usage)) 0 (sm_shards r)).2.

(** ** Maintenance *)

Definition EnforceRetention (cancelled : Z -> bool) (r : shardedMessageRuntime) (nowMS : Z)
    : shardedMessageRuntime * result BrokerError RetentionCleanupResult :=
  let '(shards, res) :=
    onEachShard (fun shardID shard => StorxLog.EnforceRetention shard (cancelled shardID) nowMS)
      (fun total res => mkRetentionCleanupResult (rcr_RemovedRecords total + rcr_RemovedRecords res) (rcr_DeadLetteredRecords total))
      (mkRetentionCleanupResult 0 0) (sm_shards r) in
  (set_shards shards r, res).

Definition Compact (cancelled : Z -> bool) (r : shardedMessageRuntime) (nowMS : Z)
    : shardedMessageRuntime * result BrokerError CompactionCleanupResult :=
  let '(shards, res) :=
    onEachShard (fun shardID shard => StorxLog.Compact shard (cancelled shardID) nowMS)
      (fun total res => mkCompactionCleanupResult (ccr_CompactedPartitions total + ccr_CompactedPartitions res)
                          (ccr_RemovedRecords total + ccr_RemovedRecords res))
      (mkCompactionCleanupResult 0 0) (sm_shards r) in
  (set_shards shards r, res).

(** ** Moving a partition *)

Definition movePartitionSnapshot (source target : StorxLogStore) (tp : TopicPartition) : StorxLogStore * result Code unit :=
  match StorxLog.SnapshotPartition source tp with
  | Err e => (target, Err e)
  | Ok snapshot => StorxLog.ReplacePartition target snapshot
  end.

Record reassignPartitionCommand := mkReassignPartitionCommand { rpc_Topic : string; rpc_Partition : Z; rpc_ShardID : Z }.

Definition saveReassignedPartitionPlacement (r : shardedMessageRuntime) (req : reassignPartitionCommand)
    : shardedMessageRuntime * result BrokerError ShardPlacement :=
  let placement := NewShardPlacement (rpc_Topic req) (rpc_Partition req) (rpc_ShardID req) in
  match SaveShardPlacement (sm_meta r) placement with
  | (meta, Err e) => (set_meta meta r, Err (StoreError e))
  | (meta, Ok _) => (set_resolver (cacheShardPlacement (sm_resolver r) placement) (set_meta meta r), Ok placement)
  end.

(** A failing removal at the source is only logged. *)
Definition clearReassignedSource (source : StorxLogStore) (tp : TopicPartition) : StorxLogStore := (StorxLog.ClearPartition source tp).1.

Definition reassignmentShards (r : shardedMessageRuntime) (sourceShardID targetShardID : Z)
    : result BrokerError (StorxLogStore * StorxLogStore) :=
  source ← shardByID r sourceShardID;
  target ← shardByID r targetShardID;
  Ok (source, target).

Definition reassignPartitionDataLocked (r : shardedMessageRuntime) (tp : TopicPartition) (targetShardID : Z)
    (commit : shardedMessageRuntime -> shardedMessageRuntime * result BrokerError ShardPlacement)
    : shardedMessageRuntime * result BrokerError ShardPlacement :=
  let '(r, sourcePlacement) := resolve r tp in
  match sourcePlacement with
  | Err e => (r, Err e)
  | Ok sourcePlacement =>
      let sourceShardID := sp_ShardID sourcePlacement in
      if sourceShardID =? targetShardID then commit r
      else
        match reassignmentShards r sourceShardID targetShardID with
        | Err e => (r, Err e)
        | Ok (source, target) =>
            match movePartitionSnapshot source target tp with
            | (target, Err e) => (set_shard targetShardID target r, Err (StoreError e))
            | (target, Ok _) =>
                match commit (set_shard targetShardID target r) with
                | (r, Err e) => (r, Err e)
                | (r, Ok placement) => (set_shard sourceShardID (clearReassignedSource source tp) r, Ok placement)
                end
            end
        end
  end.

(** The commit function says which placement it saved. *)
Definition ReassignPartitionData (r : shardedMessageRuntime) (tp : TopicPartition) (targetShardID : Z)
    (commit : option (shardedMessageRuntime -> shardedMessageRuntime * result BrokerError ShardPlacement))
    : shardedMessageRuntime * result BrokerError ShardPlacement :=
  match commit with
  | None => (r, Err (StoreError CodeInvalidArgument))
  | Some commit => reassignPartitionDataLocked r tp targetShardID commit
  end.

Definition validatePartitionReassignment (r : shardedMessageRuntime) (topic : string) (partition targetShardID : Z)
    : result BrokerError unit :=
  if sr_shardCount (sm_resolver r) <=? targetShardID then Err (StoreError CodeInvalidArgument)
  else
    match topics (sm_meta r) !! topic with
    | None => Err (StoreError CodeTopicNotFound)
    | Some topicConfig => if tc_Partitions topicConfig <=? partition then Err (StoreError CodeInvalidArgument) else Ok tt
    end.

Definition applyReassignPartition (r : shardedMessageRuntime) (req : reassignPartitionCommand)
    : shardedMessageRuntime * result BrokerError ShardPlacement :=
  match validatePartitionReassignment r (rpc_Topic req) (rpc_Partition req) (rpc_ShardID req) with
  | Err e => (r, Err e)
  | Ok _ =>
      ReassignPartitionData r (NewTopicPartition (rpc_Topic req) (rpc_Partition req)) (rpc_ShardID req)
        (Some (fun r => saveReassignedPartitionPlacement r req))
  end.

(** The operator's request; the broker applies its command itself. *)
Definition ReassignPartition (identity : Identity) (r : shardedMessageRuntime) (topic : string) (partition targetShardID : Z)
    : shardedMessageRuntime * result BrokerError unit :=
  match authorize (sm_meta r) identity ACLActionAlter (topicResource identity topic) with
  | Err e => (r, Err e)
  | Ok _ =>
      let scopedTopic := scopedTopicName identity topic in
      match validatePartitionReassignment r scopedTopic partition targetShardID with
      | Err e => (r, Err e)
      | Ok _ =>
          let '(r, res) := applyReassignPartition r (mkReassignPartitionCommand scopedTopic partition targetShardID) in
          (r, _ ← res; Ok tt)
      end
  end.

(** ** Snapshots *)

Definition mergeMessageSnapshot (out shardSnapshot : LogSnapshot) : LogSnapshot :=
  mkLogSnapshot (ls_Topics out)
    (foldl (fun m '(key, records) => <[key := records]> m) (ls_Records out) (range (ls_Records shardSnapshot)))
    (foldl (fun m '(key, offset) => <[key := offset]> m) (ls_LogOffsets out) (range (ls_LogOffsets shardSnapshot))).

Fixpoint mergeShards (out : LogSnapshot) (shards : list StorxLogStore) : result BrokerError LogSnapshot :=
  match shards with
  | [] => Ok out
  | shard :: shards =>
      match StorxLog.Snapshot shard with
      | Err e => Err (StoreError e)
      | Ok shardSnapshot => mergeShards (mergeMessageSnapshot out shardSnapshot) shards
      end
  end.

Definition TakeSnapshot (r : shardedMessageRuntime) : result BrokerError LogSnapshot :=
  topics ← of_store (MemoryStore.ListTopics (sm_meta r));
  mergeShards (mkLogSnapshot topics ∅ ∅) (snd <$> range (sm_shards r)).

Definition snapshotPlacementMap (placements : list ShardPlacement) : gmap TopicPartition Z :=
  foldl (fun out placement => <[ShardPlacement_TopicPartition placement := sp_ShardID placement]> out) ∅ placements.

Definition snapshotShardID (key : string) (placements : gmap TopicPartition Z) : result BrokerError Z :=
  tp ← of_store (StorxLog.parsePartitionKey key);
  match placements !! tp with
  | None => Err (StoreError CodeInvalidArgument)
  | Some shardID => Ok shardID
  end.

Definition snapshotForShard (snapshots : gmap Z LogSnapshot) (shardID : Z) : result BrokerError LogSnapshot :=
  match snapshots !! shardID with None => Err (StoreError CodeInvalidArgument) | Some snapshot => Ok snapshot end.

(** The loops of [splitSnapshotRecords] and [splitSnapshotLogOffsets]. *)
Fixpoint splitEntries {A} (set : string -> A -> LogSnapshot -> LogSnapshot) (placements : gmap TopicPartition Z)
    (entries : list (string * A)) (out : gmap Z LogSnapshot) : result BrokerError (gmap Z LogSnapshot) :=
  match entries with
  | [] => Ok out
  | (key, value) :: entries =>
      shardID ← snapshotShardID key placements;
      shardSnapshot ← snapshotForShard out shardID;
      splitEntries set placements entries (<[shardID := set key value shardSnapshot]> out)
  end.

Definition splitSnapshotRecords (snapshot : Snapshot) (out : gmap Z LogSnapshot) : result BrokerError (gmap Z LogSnapshot) :=
  splitEntries (fun key records s => mkLogSnapshot (ls_Topics s) (<[key := records]> (ls_Records s)) (ls_LogOffsets s))
    (snapshotPlacementMap (sn_Placements snapshot)) (range (sn_Records snapshot)) out.

Definition splitSnapshotLogOffsets (snapshot : Snapshot) (out : gmap Z LogSnapshot) : result BrokerError (gmap Z LogSnapshot) :=
  splitEntries (fun key offset s => mkLogSnapshot (ls_Topics s) (ls_Records s) (<[key := offset]> (ls_LogOffsets s)))
    (snapshotPlacementMap (sn_Placements snapshot)) (range (sn_LogOffsets snapshot)) out.

Definition splitRestoreSnapshot (r : shardedMessageRuntime) (snapshot : Snapshot) : result BrokerError (gmap Z LogSnapshot) :=
  out ← splitSnapshotRecords snapshot ((fun _ => mkLogSnapshot (sn_Topics snapshot) ∅ ∅) <$> sm_shards r);
  splitSnapshotLogOffsets snapshot out.

Definition Restore (r : shardedMessageRuntime) (snapshot : Snapshot) : shardedMessageRuntime * result BrokerError unit :=
  match splitRestoreSnapshot r snapshot with
  | Err e => (r, Err e)
  | Ok shardSnapshots =>
      let '(shards, res) :=
        onEachShard (fun shardID shard =>
                       StorxLog.Restore shard (default (mkLogSnapshot (sn_Topics snapshot) ∅ ∅) (shardSnapshots !! shardID)))
          (fun _ u => u) tt (sm_shards r) in
      (set_shards shards r, res)
  end.

(** [Broker.snapshot] and [Broker.restore] of a broker with this runtime. *)
Definition brokerSnapshot (r : shardedMessageRuntime) : result BrokerError Snapshot :=
  let meta := Mem.TakeSnapshot (sm_meta r) in
  log ← TakeSnapshot r;
  let topics := match sn_Topics meta with [] => ls_Topics log | _ => sn_Topics meta end in
  Ok {| sn_Topics := topics; sn_Records := ls_Records log; sn_LogOffsets := ls_LogOffsets log;
        sn_Offsets := sn_Offsets meta; sn_OffsetStates := sn_OffsetStates meta; sn_ConsumerPauses := sn_ConsumerPauses meta;
        sn_Placements := sn_Placements meta; sn_Members := sn_Members meta; sn_Assignments := sn_Assignments meta;
        sn_Transactions := sn_Transactions meta; sn_ProducerBatches := sn_ProducerBatches meta;
        sn_ACLPolicies := sn_ACLPolicies meta; sn_DLQIndexes := sn_DLQIndexes meta;
        sn_NextTransactionID := sn_NextTransactionID meta; sn_BrokerState := sn_BrokerState meta |}.

Definition brokerRestore (r : shardedMessageRuntime) (snapshot : Snapshot) : shardedMessageRuntime * result BrokerError unit :=
  match Restore r snapshot with
  | (r, Err e) => (r, Err e)
  | (r, Ok _) => let '(meta, res) := Mem.Restore (sm_meta r) snapshot in (set_meta meta r, of_store res)
  end.

End Runtime.

End ShardedRuntime.
