(* ===== verification/ShardedSpec.v ===== *)
(** * Several segment logs answer as one

    The sharded message runtime keeps every partition on one of its segment
    logs, and an operator can move a partition to another one.  Publishers and
    consumers do not see it: the runtime answers every sequence of topic
    creations, publications, fetches, acknowledgements, lookups and moves as
    the queue runtime over a single in-memory store does.

    The first part is about a move: what [ReplacePartition] puts into the
    target is the partition the source held, with its next offset, and the
    rest of the target stays.  The second part is the simulation; a partition
    lives where the resolver says ([owner]), and only the shard that owns it
    has to agree with the single store on it. *)

From stdpp Require Import prelude gmap strings sorting list.
From S2P Require Import Prelude Model MemoryStore Cleanup LogSpec CleanupSpec MetaStore MetaSpec Queue Idempotency Produce ProduceSpec Governance Wire WireSpec SegmentFrame SegmentFrameSpec SegmentIndex SegmentIndexSpec SegmentLog SegmentAppendSpec SegmentCleanSpec SegmentDurableSpec SegmentReopenSpec StorxSpec Snapshot Sharded.

#[local] Open Scope Z_scope.
Import StorxLog (Files, StorxLogStore, segments, indexes, manifest, files, compression).
Import ShardedRuntime (shardedMessageRuntime, sm_meta, sm_resolver, sm_shards, set_meta, set_resolver, set_shards, set_shard).

(** ** Moving a partition *)

(** The store with another content of one partition. *)
Definition placePartition (m : MemoryStore) (tp : TopicPartition) (rs : list Rec) (next : Z) : MemoryStore :=
  set_nextOffsets (<[tp := next]> (nextOffsets m)) (set_records (<[tp := rs]> (records m)) m).

Lemma placePartition_view m tp rs next tp' :
  recordsOf (placePartition m tp rs next) tp' = (if decide (tp' = tp) then rs else recordsOf m tp') /\
  nextOffsetOf (placePartition m tp rs next) tp' = (if decide (tp' = tp) then next else nextOffsetOf m tp').
Proof.
  unfold nextOffsetOf, recordsOf, placePartition. cbn. rewrite !lookup_insert.
  destruct (decide (tp = tp')), (decide (tp' = tp)); try congruence; done.
Qed.

Lemma placePartition_inv m tp rs next : log_inv m -> log_ok rs next -> is_u64 next -> log_inv (placePartition m tp rs next).
Proof.
  intros [Hn Ht Hl Hx Ha] Hok Hu. split; cbn; [done|done|..].
  - intros tp' rs'. rewrite !lookup_insert. case_decide; [|apply Hl]. intros [= <-]. by exists next.
  - intros tp' n. rewrite lookup_insert. case_decide; [by intros [= <-]|apply Hx].
  - intros n t p Hnt Hp. rewrite lookup_insert. case_decide; [by eexists|by eapply Ha].
Qed.

Lemma placePartition_twice m tp rs next rs' next' :
  placePartition (placePartition m tp rs next) tp rs' next' = placePartition m tp rs' next'.
Proof. unfold placePartition. cbn. by rewrite !insert_insert_eq. Qed.

Section Move.
Context `{Zstd} `{ManifestCodec} `{MapRange}.

Lemma SnapshotPartition_refines s m tp topic :
  refines s m -> topics m !! tp_Topic tp = Some topic -> tp_Partition tp < tc_Partitions topic ->
  StorxLog.SnapshotPartition s tp = Ok (StorxLog.mkPartitionSnapshot topic tp (recordsOf m tp) (nextOffsetOf m tp)).
Proof.
  intros Hr Ht Hp. unfold StorxLog.SnapshotPartition. pose proof (refines_validate s m tp Hr) as Hv.
  unfold validatePartitionLocked in Hv. rewrite Ht in Hv. destruct (Z.leb_spec (tc_Partitions topic) (tp_Partition tp)); [lia|].
  destruct (StorxLog.loadTopicForPartition s tp) as [topic'|e]; [|done]. destruct Hv as [Ht' _].
  assert (topic' = topic) as -> by congruence. cbn [mbind result_bind].
  by rewrite (readPointers_points s _ _ (ref_log s m Hr tp)), (refines_next s m tp Hr).
Qed.

(** What a pointer reads depends only on its own file. *)
Lemma points_to_file f f' p r :
  segments f' !! pathOf p = segments f !! pathOf p -> points_to f p r -> points_to f' p r.
Proof.
  intros Hf (rs & frame & pre & post & Hs & Hrest). exists rs, frame, pre, post. split; [|exact Hrest].
  unfold pathOf in Hf. by rewrite Hf.
Qed.

Lemma clearPartition_refines s m tp :
  refines s m -> refines (StorxLog.clearPartitionLocked s tp) (placePartition m tp [] 0).
Proof.
  intros Hr. set (s' := StorxLog.clearPartitionLocked s tp).
  assert (forall tp', StorxLog.recordsOf s' tp' = if decide (tp' = tp) then [] else StorxLog.recordsOf s tp') as Hrec.
  { intros tp'. unfold StorxLog.recordsOf, s', StorxLog.clearPartitionLocked. cbn. rewrite lookup_insert.
    destruct (decide (tp = tp')), (decide (tp' = tp)); try congruence; done. }
  split.
  - apply (ref_topics s m Hr).
  - apply placePartition_inv; [apply (ref_inv s m Hr)|apply log_ok_nil|done].
  - intros tp'. rewrite Hrec, (proj1 (placePartition_view m tp [] 0 tp')). case_decide as Hd; [constructor|].
    pose proof (ref_tp s m Hr tp') as Htp. apply Forall2_same_length_lookup. pose proof (ref_log s m Hr tp') as Hl.
    split; [by eapply Forall2_length|]. intros i p r Hp Hri. eapply points_to_file; [|by eapply Forall2_lookup_lr].
    cbn. unfold pathOf. rewrite (Forall_lookup_1 _ _ _ _ Htp Hp).
    destruct (segments (files s) !! (tp', srp_SegmentID p)) as [file|] eqn:E.
    + apply map_lookup_filter_Some. done.
    + apply map_lookup_filter_None. by left.
  - intros tp'. rewrite Hrec. case_decide; [constructor|apply (ref_tp s m Hr)].
  - intros tp'. rewrite Hrec. unfold StorxLog.timestampsOf, s', StorxLog.clearPartitionLocked. cbn. rewrite lookup_insert.
    destruct (decide (tp = tp')), (decide (tp' = tp)); try congruence; [done|apply (ref_times s m Hr)].
  - unfold s', StorxLog.clearPartitionLocked. cbn. by rewrite (ref_next s m Hr).
Qed.

(** The next offset may be raised. *)
Lemma raise_next_refines s m tp rs next next' :
  refines s (placePartition m tp rs next) -> log_ok rs next' -> is_u64 next' ->
  refines (StorxLog.set_nextOffsets (<[tp := next']> (StorxLog.nextOffsets s)) s) (placePartition m tp rs next').
Proof.
  intros Hr Hok Hu. rewrite <- (placePartition_twice m tp rs next rs next').
  assert (forall tp', recordsOf (placePartition (placePartition m tp rs next) tp rs next') tp' = recordsOf (placePartition m tp rs next) tp') as Hv.
  { intros tp'. rewrite !(proj1 (placePartition_view _ _ _ _ _)). by case_decide. }
  split; [apply (ref_topics _ _ Hr)| | |apply (ref_tp _ _ Hr)|apply (ref_times _ _ Hr)|].
  - apply placePartition_inv; [apply (ref_inv _ _ Hr)|done|done].
  - intros tp'. rewrite Hv. apply (ref_log _ _ Hr).
  - cbn [StorxLog.nextOffsets StorxLog.set_nextOffsets]. by rewrite (ref_next _ _ Hr).
Qed.

(** *** Restored records *)

(** The log with one more record behind a gap. *)
Lemma log_ok_gap rs next r :
  log_ok rs next -> next <= r_Offset r -> 0 <= r_Offset r -> log_ok (rs ++ [r]) (r_Offset r + 1).
Proof.
  intros [Hs Hb] Hn Hpos. unfold log_ok, recordOffsets in *. rewrite fmap_app. split.
  - apply StronglySorted_app. split_and!; [|done|by repeat constructor].
    intros o o' Ho. rewrite Forall_forall in Hb. specialize (Hb o Ho). cbn. rewrite list_elem_of_singleton. lia.
  - apply Forall_app. split; [|repeat constructor; cbn; lia]. eapply Forall_impl; [exact Hb|]. cbn. lia.
Qed.

Lemma appendSegmentPointerSorted_end s m tp p r next :
  refines s m -> log_ok (recordsOf m tp) next -> next <= r_Offset r -> srp_Offset p = r_Offset r ->
  appendSegmentPointerSorted (StorxLog.recordsOf s tp) p = StorxLog.recordsOf s tp ++ [p].
Proof.
  intros Hr [_ Hb] Hn Hp. unfold appendSegmentPointerSorted, insertAt.
  destruct (search_refines s m tp (srp_Offset p) Hr) as (k & -> & Hk & Heq).
  assert (filter (fun r0 => srp_Offset p <= r_Offset r0) (recordsOf m tp) = []) as Hnil.
  { apply filter_none. unfold recordOffsets in Hb. rewrite Forall_fmap in Hb.
    eapply Forall_impl; [exact Hb|]. cbv [compose]. lia. }
  rewrite Hnil in Heq. apply (f_equal length) in Heq. rewrite length_drop in Heq. cbn in Heq.
  pose proof (Forall2_length _ _ _ (ref_log s m Hr tp)). rewrite lookup_ge_None_2 by lia. done.
Qed.

Lemma recordAppendedPointer_refines s m tp rs next p r :
  refines s (placePartition m tp rs next) -> points_to (files s) p r -> srp_tp p = tp ->
  next <= r_Offset r -> 0 <= r_Offset r -> r_Offset r + 1 <= max_u64 ->
  refines (StorxLog.recordAppendedPointer s tp p r) (placePartition m tp (rs ++ [r]) (r_Offset r + 1)).
Proof.
  intros Hr Hp Htp Hn Hpos Hmax. set (m0 := placePartition m tp rs next) in *.
  destruct (placePartition_view m tp rs next tp) as [Hrs Hnx]. rewrite decide_True in Hrs by done. rewrite decide_True in Hnx by done. fold m0 in Hrs, Hnx.
  pose proof (log_inv_recordsOf m0 tp (ref_inv s m0 Hr)) as Hok. rewrite Hrs, Hnx in Hok.
  pose proof (log_ok_gap rs next r Hok Hn Hpos) as Hok'. pose proof (points_to_fields _ _ _ Hp) as (Hpo & _).
  assert (appendSegmentPointerSorted (StorxLog.recordsOf s tp) p = StorxLog.recordsOf s tp ++ [p]) as Happ.
  { eapply (appendSegmentPointerSorted_end s m0 tp p r next); try done. by rewrite Hrs. }
  assert (NoDup (srp_Offset <$> (StorxLog.recordsOf s tp ++ [p]))) as Hnd.
  { assert (Forall2 (points_to (files s)) (StorxLog.recordsOf s tp ++ [p]) (rs ++ [r])) as Hall.
    { apply Forall2_app; [rewrite <- Hrs; apply (ref_log s m0 Hr)|by repeat constructor]. }
    rewrite (points_offsets _ _ _ Hall). destruct Hok' as [Hs' _]. clear -Hs'.
    induction Hs' as [|o os _ IH Hlt]; constructor; [|done]. intros Hin. rewrite Forall_forall in Hlt. specialize (Hlt o Hin). lia. }
  unfold StorxLog.recordAppendedPointer. cbv zeta. rewrite Happ.
  match goal with |- context [StorxLog.recordAppendedKeyPointersLocked ?x tp [r] [p]] =>
    set (s3 := StorxLog.recordAppendedKeyPointersLocked x tp [r] [p]) end.
  assert (StorxLog.topics s3 = StorxLog.topics s /\ StorxLog.records s3 = <[tp := StorxLog.recordsOf s tp ++ [p]]> (StorxLog.records s) /\
          StorxLog.timestampRecords s3 = <[tp := insertSegmentTimestampPointerSorted (StorxLog.timestampsOf s tp) p]> (StorxLog.timestampRecords s) /\
          StorxLog.nextOffsets s3 = StorxLog.nextOffsets s /\ files s3 = files s) as (Ht3 & Hr3 & Hts3 & Hn3 & Hf3).
  { unfold s3, StorxLog.recordAppendedKeyPointersLocked. by destruct (_ || _). }
  rewrite Hn3, (ref_next s m0 Hr). unfold m0 at 1. cbn [nextOffsets placePartition set_nextOffsets]. rewrite lookup_insert_eq. cbn [default from_option id].
  destruct (Z.leb_spec next (srp_Offset p)) as [_|]; [|lia]. rewrite Hpo, u64_small by (unfold is_u64, max_u64 in *; lia).
  assert (forall tp', StorxLog.recordsOf s3 tp' = if decide (tp' = tp) then StorxLog.recordsOf s tp ++ [p] else StorxLog.recordsOf s tp') as Hrec.
  { intros tp'. unfold StorxLog.recordsOf at 1. rewrite Hr3, lookup_insert.
    destruct (decide (tp = tp')), (decide (tp' = tp)); try congruence; done. }
  split.
  - etrans; [exact Ht3|]. apply (ref_topics s m0 Hr).
  - pose proof (placePartition_inv m0 tp (rs ++ [r]) (r_Offset r + 1) (ref_inv s m0 Hr) Hok') as Hi.
    unfold m0 in Hi at 1. rewrite placePartition_twice in Hi. apply Hi. unfold is_u64, max_u64 in *. lia.
  - intros tp'. change (StorxLog.recordsOf (StorxLog.set_nextOffsets _ s3) tp') with (StorxLog.recordsOf s3 tp').
    rewrite Hrec, (proj1 (placePartition_view _ _ _ _ _)). cbn [files StorxLog.set_nextOffsets]. rewrite Hf3.
    pose proof (ref_log s m0 Hr tp') as Hl. unfold m0 in Hl. rewrite (proj1 (placePartition_view _ _ _ _ _)) in Hl.
    case_decide; [subst tp'|done]. apply Forall2_app; [done|by repeat constructor].
  - intros tp'. change (StorxLog.recordsOf (StorxLog.set_nextOffsets _ s3) tp') with (StorxLog.recordsOf s3 tp').
    rewrite Hrec. case_decide; [subst tp'|apply (ref_tp s m0 Hr)].
    apply Forall_app. split; [apply (ref_tp s m0 Hr)|by repeat constructor].
  - intros tp'. change (StorxLog.recordsOf (StorxLog.set_nextOffsets _ s3) tp') with (StorxLog.recordsOf s3 tp').
    rewrite Hrec. unfold StorxLog.timestampsOf. cbn [StorxLog.timestampRecords StorxLog.set_nextOffsets]. rewrite Hts3, lookup_insert.
    destruct (decide (tp = tp')), (decide (tp' = tp)); try congruence; [|apply (ref_times s m0 Hr)].
    cbn. rewrite (ref_times s m0 Hr). by apply insert_timestamp.
  - cbn [StorxLog.nextOffsets StorxLog.set_nextOffsets]. unfold m0, placePartition. cbn. by rewrite insert_insert_eq.
Qed.

(** A frame of its own can be written for the record. *)
Definition encodable (c : segmentFrameCompression) (r : Rec) : Prop := is_ok (encodeSegmentFrameWithCompression r c) = true.

Definition is_partition (m : MemoryStore) (tp : TopicPartition) : Prop :=
  exists topic, topics m !! tp_Topic tp = Some topic /\ tp_Partition tp < tc_Partitions topic.

Lemma loads_partition s m tp :
  refines s m -> is_partition m tp -> exists topic, StorxLog.loadTopicForPartition s tp = Ok topic /\ topics m !! tp_Topic tp = Some topic.
Proof.
  intros Hr (topic & Ht & Hp). exists topic. unfold StorxLog.loadTopicForPartition. rewrite (ref_topics s m Hr), Ht.
  destruct (Z.leb_spec (tc_Partitions topic) (tp_Partition tp)); [lia|done].
Qed.

Lemma segmentIDForAppend_ok s topic tp offset n : 0 <= n -> is_ok (StorxLog.segmentIDForAppend s topic tp offset n) = true.
Proof.
  intros Hn. unfold StorxLog.segmentIDForAppend. destruct (StorxLog.lastRecordPointer s tp) as [final|]; [|done].
  destruct (tc_SegmentMaxBytes topic =? 0); [done|]. destruct (segments (files s) !! _) as [file|]; [|done].
  unfold StorxLog.segmentHasCapacity. pose proof (len_nonneg file). destruct (Z.ltb_spec (len file) 0); [lia|].
  destruct (Z.ltb_spec n 0); [lia|]. cbn [mbind result_bind]. by destruct (_ && _).
Qed.

Lemma appendRestoredRecord_refines s m tp rs next r :
  refines s (placePartition m tp rs next) -> is_partition m tp -> ~ topic_too_long tp ->
  segment_record r -> encodable (compression s) r -> next <= r_Offset r -> 0 <= r_Offset r -> r_Offset r + 1 <= max_u64 ->
  exists s', StorxLog.appendRestoredRecord s tp r = (s', Ok tt) /\ compression s' = compression s /\
    refines s' (placePartition m tp (rs ++ [r]) (r_Offset r + 1)).
Proof.
  intros Hr Hpart Htp Hrec Henc Hn Hpos Hmax. unfold StorxLog.appendRestoredRecord.
  destruct (loads_partition s _ tp Hr Hpart) as (topic & -> & _). unfold encodable in Henc.
  destruct (encodeSegmentFrameWithCompression r (compression s)) as [frame|] eqn:Hframe; [|done].
  assert (frame_of [r] frame) as Hf by (split; [by apply Forall_singleton|by exists (compression s)]).
  unfold StorxLog.appendFrame.
  pose proof (segmentIDForAppend_ok s topic tp (r_Offset r) (len frame) (len_nonneg frame)) as Hid.
  destruct (StorxLog.segmentIDForAppend s topic tp (r_Offset r) (len frame)) as [segmentID|]; [|done].
  destruct (appendBatchFrame_spec s tp segmentID frame) as (s1 & Hb & Ha & Hseg). cbv zeta in Hb, Hseg.
  unfold StorxLog.appendBatchFrame in Hb.
  destruct (StorxLog.appendFramesToSegment s (tp, segmentID) [frame]) as [s1' positions]. destruct positions as [|position positions]; [done|].
  apply pair_equal_spec in Hb as [-> [= Hposition]]. cbn [head default from_option id].
  match goal with |- context [StorxLog.appendSegmentIndexPointers s1 (tp, srp_SegmentID ?x) [?x]] => set (p := x) end.
  pose proof (points_to_frame s s1 tp segmentID [r] frame Hseg Hf ltac:(apply NoDup_singleton)) as Hpts.
  rewrite <- Hposition in Hpts. cbn [fmap list_fmap] in Hpts. apply Forall2_cons in Hpts as [Hp _].
  change (pointerOf tp segmentID position (len frame) r) with p in Hp.
  assert (srp_tp p = tp) as Hptp by (by destruct tp).
  unfold StorxLog.appendSegmentIndexPointers. change (len [p] =? 0) with false. cbv iota.
  destruct (appendSegmentIndexEntries_ok s1 (tp, srp_SegmentID p) [p] tp (fun p => mkIndexEntry p false)) as (s2 & -> & Ho);
    [done| |done|].
  { apply Forall_singleton. apply points_to_fields in Hp as (_ & _ & _ & _ & ? & ?). done. }
  eexists. split; [done|]. split.
  - unfold StorxLog.recordAppendedPointer, StorxLog.recordAppendedKeyPointersLocked. cbv zeta.
    assert (compression s2 = compression s) as Hc by (rewrite Ho; exact (appended_frames_compression _ _ Ha)).
    destruct (_ || _), (_ <=? _); exact Hc.
  - apply (recordAppendedPointer_refines s2 m tp rs next p r); try done.
    + eapply refines_only_indexes; [|exact Ho]. by eapply refines_appended_frames.
    + eapply points_to_extended; [|exact Hp]. apply extended_segments. by rewrite Ho.
Qed.

Lemma appendRestoredRecords_refines s m tp rs next more last_ :
  refines s (placePartition m tp rs next) -> is_partition m tp -> ~ topic_too_long tp ->
  Forall segment_record more -> Forall (encodable (compression s)) more ->
  log_ok (rs ++ more) last_ -> is_u64 last_ -> Forall (fun r => next <= r_Offset r) more ->
  exists s' next', StorxLog.appendRestoredRecords s tp more = (s', Ok tt) /\ compression s' = compression s /\
    refines s' (placePartition m tp (rs ++ more) next').
Proof.
  revert s rs next. induction more as [|r more IH]; intros s rs next Hr Hpart Htp Hw He Hok Hu Hge.
  { exists s, next. rewrite app_nil_r. done. }
  cbn [StorxLog.appendRestoredRecords]. inversion Hw; inversion He; inversion Hge; subst.
  replace (rs ++ r :: more) with ((rs ++ [r]) ++ more) in * by (by rewrite <- (assoc_L (++))).
  assert (0 <= r_Offset r < last_) as Hr0.
  { destruct Hok as [_ Hb]. unfold recordOffsets in Hb. rewrite Forall_fmap, !Forall_app in Hb. destruct Hb as [[_ Hb] _].
    inversion Hb; subst. done. }
  destruct (appendRestoredRecord_refines s m tp rs next r) as (s1 & -> & Hc & Hr1); try done; [lia|unfold is_u64, max_u64 in *; lia|].
  destruct (IH s1 (rs ++ [r]) (r_Offset r + 1)) as (s2 & next' & Heq & Hc2 & Hr2); try done; [by rewrite Hc| |].
  - destruct Hok as [Hs _]. unfold recordOffsets in Hs. rewrite !fmap_app in Hs. apply StronglySorted_app in Hs as (Hlt & _ & _).
    apply Forall_forall. intros r' Hr'. enough (r_Offset r < r_Offset r') by lia. apply Hlt; [|by apply list_elem_of_fmap_2].
    apply elem_of_app. right. by left.
  - exists s2, next'. split_and!; [done|congruence|done].
Qed.

(** A partition is replaced by a snapshot of it. *)
Lemma ReplacePartition_refines s m tp topic rs next :
  refines s m -> is_partition m tp -> ~ topic_too_long tp -> topics m !! tp_Topic tp = Some topic ->
  Forall segment_record rs -> Forall (encodable (compression s)) rs -> log_ok rs next -> is_u64 next ->
  exists s', StorxLog.ReplacePartition s (StorxLog.mkPartitionSnapshot topic tp rs next) = (s', Ok tt) /\
    compression s' = compression s /\ refines s' (placePartition m tp rs next).
Proof.
  intros Hr Hpart Htp Ht Hw He Hok Hu. unfold StorxLog.ReplacePartition, StorxLog.ensurePartitionSnapshotTopic.
  cbn [StorxLog.ps_TopicPartition StorxLog.ps_Topic StorxLog.ps_Records StorxLog.ps_NextOffset].
  rewrite (bool_decide_eq_true_2 (tc_Name topic = tp_Topic tp)) by (by apply (li_topic m (ref_inv s m Hr))).
  rewrite andb_false_r. destruct (loads_partition s m tp Hr Hpart) as (topic' & -> & _).
  rewrite (sortedRecords_id rs next Hok).
  destruct (appendRestoredRecords_refines (StorxLog.clearPartitionLocked s tp) m tp [] 0 rs next) as (s' & next' & -> & Hc & Hr');
    try done; [by apply clearPartition_refines| |].
  { destruct Hok as [_ Hb]. unfold recordOffsets in Hb. rewrite Forall_fmap in Hb. eapply Forall_impl; [exact Hb|]. cbv [compose]. lia. }
  eexists. split; [done|]. split; [exact Hc|]. cbn [app] in Hr'.
  destruct (nextOffsetLoop_le 0 rs next) as [_ Hle]; [unfold is_u64 in Hu; lia|unfold is_u64, max_u64 in *; lia|by destruct Hok|].
  rewrite Z.max_l by done. by eapply raise_next_refines.
Qed.

End Move.

(** ** Where a partition lives *)

Definition owner (r : shardedMessageRuntime) (tp : TopicPartition) : Z :=
  match sr_cache (sm_resolver r) !! topicPartitionCacheKey tp with
  | Some placement => sp_ShardID placement
  | None =>
      match placements (sm_meta r) !! tp with
      | Some placement => sp_ShardID placement
      | None => shardForPartition (sm_resolver r) (tp_Partition tp)
      end
  end.

Lemma topicPartitionCacheKey_inj tp tp' :
  0 <= tp_Partition tp -> 0 <= tp_Partition tp' -> topicPartitionCacheKey tp = topicPartitionCacheKey tp' -> tp = tp'.
Proof.
  intros Hp Hp' E. unfold topicPartitionCacheKey in E. apply nul_split_inj in E as [Et Ep]; [|by apply no_nul_fmt_d..].
  apply fmt_d_inj in Ep. destruct tp, tp'. cbn in *. congruence.
Qed.

Definition is_shard (r : shardedMessageRuntime) (i : Z) : Prop := 0 <= i < sr_shardCount (sm_resolver r).

Record resolver_ok (r : shardedMessageRuntime) : Prop := {
  ro_count : 0 < sr_shardCount (sm_resolver r);
  ro_cache : forall key p, sr_cache (sm_resolver r) !! key = Some p -> is_shard r (sp_ShardID p);
  ro_stored : forall tp p, placements (sm_meta r) !! tp = Some p -> ShardPlacement_TopicPartition p = tp /\ is_shard r (sp_ShardID p)
}.

Lemma owner_is_shard r tp : resolver_ok r -> is_shard r (owner r tp).
Proof.
  intros [Hc Hk Hs]. unfold owner. destruct (sr_cache _ !! _) as [p|] eqn:E; [by eapply Hk|].
  destruct (placements _ !! tp) as [p|] eqn:E'; [by eapply Hs|]. unfold is_shard, shardForPartition. apply Z.mod_pos_bound. lia.
Qed.

(** A placement that is cached decides about its own partition only. *)
Lemma owner_cached r p tp :
  0 <= sp_Partition p -> 0 <= tp_Partition tp ->
  owner (set_resolver (cacheShardPlacement (sm_resolver r) p) r) tp =
    if decide (tp = ShardPlacement_TopicPartition p) then sp_ShardID p else owner r tp.
Proof.
  intros Hp Htp. unfold owner. cbn [sm_resolver sm_meta set_resolver cacheShardPlacement sr_cache sr_shardCount].
  rewrite lookup_insert. destruct (decide (topicPartitionCacheKey _ = _)) as [E|E].
  - apply topicPartitionCacheKey_inj in E; [|done|done]. by rewrite decide_True.
  - rewrite decide_False; [done|]. by intros ->.
Qed.

Lemma resolver_ok_cached r p :
  resolver_ok r -> is_shard r (sp_ShardID p) -> resolver_ok (set_resolver (cacheShardPlacement (sm_resolver r) p) r).
Proof.
  intros [Hc Hk Hs] Hp. split; [done| |done]. intros key p'. cbn. rewrite lookup_insert.
  case_decide; [by intros [= <-]|apply Hk].
Qed.

(** Resolving a partition finds its owner and moves nothing. *)
Lemma resolve_owner r tp :
  resolver_ok r -> 0 <= tp_Partition tp ->
  exists r' placement, ShardedRuntime.resolve r tp = (r', Ok placement) /\ sp_ShardID placement = owner r tp /\ resolver_ok r' /\
    (forall tp', 0 <= tp_Partition tp' -> owner r' tp' = owner r tp') /\
    sm_meta r' = sm_meta r /\ sm_shards r' = sm_shards r /\ sr_shardCount (sm_resolver r') = sr_shardCount (sm_resolver r).
Proof.
  intros Hr Htp. unfold ShardedRuntime.resolve.
  destruct (sr_cache (sm_resolver r) !! topicPartitionCacheKey tp) as [p|] eqn:E.
  { exists (set_resolver (sm_resolver r) r), p. unfold Resolve, owner. rewrite E. by destruct r. }
  assert (exists p, ShardPlacement_TopicPartition p = tp /\ sp_ShardID p = owner r tp /\
    Resolve (sm_resolver r) (sm_meta r) tp = (cacheShardPlacement (sm_resolver r) p, Ok p)) as (p & Hpt & Hps & Hcase).
  { unfold Resolve, owner, LoadShardPlacement. rewrite E.
    destruct (placements (sm_meta r) !! tp) as [p|] eqn:E'; [exists p; by destruct (ro_stored r Hr tp p E')|].
    eexists. split; [|split; [|reflexivity]]; [by destruct tp|done]. }
  rewrite Hcase. exists (set_resolver (cacheShardPlacement (sm_resolver r) p) r), p.
  assert (0 <= sp_Partition p) as Hpp by (rewrite <- Hpt in Htp; exact Htp).
  split_and!; try done.
  - apply resolver_ok_cached; [done|]. rewrite Hps. by apply owner_is_shard.
  - intros tp' Htp'. rewrite owner_cached by done. case_decide; [|done]. congruence.
Qed.

(** ** The relation with a single store *)

(** The two stores hold the same log of the partition. *)
Definition same_log (m m' : MemoryStore) (tp : TopicPartition) : Prop :=
  recordsOf m tp = recordsOf m' tp /\ nextOffsetOf m tp = nextOffsetOf m' tp.

(** The answers of the in-memory store depend on the topics and on the log of
    the partition only. *)
Lemma validatePartition_local m m' tp : topics m = topics m' -> validatePartitionLocked m tp = validatePartitionLocked m' tp.
Proof. intros Ht. unfold validatePartitionLocked. by rewrite Ht. Qed.

Lemma ReadFrom_local m m' tp offset n :
  topics m = topics m' -> same_log m m' tp -> MemoryStore.ReadFrom m tp offset n = MemoryStore.ReadFrom m' tp offset n.
Proof. intros Ht [Hr _]. unfold MemoryStore.ReadFrom. by rewrite Ht, Hr. Qed.

Lemma PartitionOffsets_local m m' tp :
  log_inv m -> log_inv m' -> topics m = topics m' -> same_log m m' tp ->
  MemoryStore.PartitionOffsets m tp = MemoryStore.PartitionOffsets m' tp.
Proof.
  intros Hi Hi' Ht [Hr Hn]. destruct (validatePartitionLocked m tp) as [[]|e] eqn:Hv.
  - pose proof Hv as Hv'. rewrite (validatePartition_local m m' tp Ht) in Hv'. rewrite !PartitionOffsets_ok by done. by rewrite Hr, Hn.
  - unfold MemoryStore.PartitionOffsets. rewrite <- (validatePartition_local m m' tp Ht), Hv. done.
Qed.

Lemma AppendRecordsBatch_local clock m m' tp ars :
  topics m = topics m' -> same_log m m' tp ->
  (AppendRecordsBatch clock m tp ars).2 = (AppendRecordsBatch clock m' tp ars).2.
Proof.
  revert clock m m'. induction ars as [|ar ars IH]; intros clock m m' Ht [Hr Hn]; [done|]. cbn [AppendRecordsBatch].
  assert ((AppendRecord (clock 0%nat) m tp ar).2 = (AppendRecord (clock 0%nat) m' tp ar).2) as Hone.
  { unfold AppendRecord. rewrite Ht, Hn. destruct (topics m' !! tp_Topic tp) as [topic|]; [|done].
    destruct (tc_Partitions topic <=? tp_Partition tp); [done|]. destruct (tc_MaxMessageBytes topic <? len (ra_Payload ar)); [done|].
    by destruct (recordFromAppend _ _ topic ar). }
  destruct (AppendRecord (clock 0%nat) m tp ar) as [m1 out] eqn:E, (AppendRecord (clock 0%nat) m' tp ar) as [m1' out'] eqn:E'.
  cbn in Hone. subst out'. destruct out as [rec|e]; [|done].
  destruct (AppendRecord_log _ _ _ _ _ _ tp E) as (Hr1 & Hn1 & Ht1). destruct (AppendRecord_log _ _ _ _ _ _ tp E') as (Hr2 & Hn2 & Ht2).
  specialize (IH (fun i => clock (S i)) m1 m1'). rewrite Ht1, Ht2 in IH. specialize (IH Ht).
  destruct (AppendRecordsBatch _ m1 tp ars) as [? out], (AppendRecordsBatch _ m1' tp ars) as [? out']. cbn in *. rewrite IH; [done|].
  split; [rewrite Hr1, Hr2|rewrite Hn1, Hn2]; by rewrite !decide_True, ?Hr, ?Hn by done.
Qed.

Lemma AppendRecordsBatch_consumers clock m tp ars m' res :
  AppendRecordsBatch clock m tp ars = (m', res) -> offsets m' = offsets m /\ offsetStates m' = offsetStates m.
Proof.
  revert clock m res. induction ars as [|ar ars IH]; intros clock m res Hb; cbn [AppendRecordsBatch] in Hb; [by simplify_eq|].
  destruct (AppendRecord (clock 0%nat) m tp ar) as [m1 [rec|e]] eqn:E.
  - destruct (AppendRecordsBatch _ m1 tp ars) as [m2 out] eqn:E2. simplify_eq. apply IH in E2 as [-> ->].
    by apply AppendRecord_ok in E as (? & _ & _ & _ & _ & ->).
  - apply AppendRecord_err in E as ->. by simplify_eq.
Qed.

Lemma foldl_ensure_meta initial n ps m :
  offsets (foldl (ensurePartition initial n) m ps) = offsets m /\
  offsetStates (foldl (ensurePartition initial n) m ps) = offsetStates m /\
  placements (foldl (ensurePartition initial n) m ps) = placements m.
Proof.
  revert m. induction ps as [|p ps IH]; intros m; [done|]. cbn [foldl]. destruct (IH (ensurePartition initial n m p)) as (-> & -> & ->).
  unfold ensurePartition. by repeat case_match.
Qed.

(** What saving the configuration of a topic changes. *)
Lemma SaveTopicConfig_changes m topic :
  tc_Name topic <> ""%string ->
  exists m', SaveTopicConfig m topic = (m', Ok tt) /\ topics m' = <[tc_Name topic := normalizeTopic topic]> (topics m) /\
    offsets m' = offsets m /\ offsetStates m' = offsetStates m /\ placements m' = placements m.
Proof.
  intros Hn. unfold SaveTopicConfig. rewrite decide_False by done. eexists. split; [done|].
  split; [apply foldl_ensure_frame|]. split_and!; (etrans; [apply foldl_ensure_meta|done]).
Qed.

Lemma CreateTopic_changes m topic :
  tc_Name topic <> ""%string -> tc_Partitions topic <> 0 -> log_inv m -> topics m !! tc_Name topic = None ->
  exists m', MemoryStore.CreateTopic m topic = (m', Ok tt) /\ topics m' = <[tc_Name topic := normalizeTopic topic]> (topics m) /\
    offsets m' = offsets m /\ offsetStates m' = offsetStates m.
Proof.
  intros Hn Hp Hinv Ht. unfold MemoryStore.CreateTopic. rewrite decide_False by done.
  destruct (Z.eqb_spec (tc_Partitions topic) 0) as [|_]; [done|]. cbv zeta.
  rewrite decide_False by (rewrite (li_names m Hinv); by apply not_elem_of_dom). eexists. split; [done|].
  split; [apply foldl_ensure_frame|]. split; (etrans; [apply foldl_ensure_meta|done]).
Qed.

Section Simulation.
Context `{Zstd} `{ManifestCodec} `{MapRange}.

(** The shard holds the topics and the logs of the partitions it owns. *)
Definition holds (s : StorxLogStore) (m : MemoryStore) (owned : TopicPartition -> Prop) : Prop :=
  exists mi, refines s mi /\ topics mi = topics m /\ forall tp, 0 <= tp_Partition tp -> owned tp -> same_log mi m tp.

Record agrees (r : shardedMessageRuntime) (m : MemoryStore) : Prop := {
  ag_resolver : resolver_ok r;
  ag_shards : forall i, is_Some (sm_shards r !! i) <-> is_shard r i;
  ag_topics : topics (sm_meta r) = topics m;
  ag_named : topics m !! ""%string = None;
  ag_storable : forall n t, topics m !! n = Some t -> storable t;
  ag_offsets : offsets (sm_meta r) = offsets m /\ offsetStates (sm_meta r) = offsetStates m;
  ag_inv : log_inv m;
  ag_log : forall i s, sm_shards r !! i = Some s -> holds s m (fun tp => owner r tp = i)
}.

(** The shard of a partition. *)
Lemma shard_of_partition r m tp :
  agrees r m -> 0 <= tp_Partition tp ->
  exists r' s, ShardedRuntime.shardForTopicPartition r tp = (r', Ok (owner r tp, s)) /\ agrees r' m /\
    sm_shards r' !! owner r tp = Some s /\ (forall tp', 0 <= tp_Partition tp' -> owner r' tp' = owner r tp') /\
    sm_meta r' = sm_meta r /\ sm_shards r' = sm_shards r /\ sr_shardCount (sm_resolver r') = sr_shardCount (sm_resolver r).
Proof.
  intros Ha Htp. unfold ShardedRuntime.shardForTopicPartition.
  destruct (resolve_owner r tp (ag_resolver r m Ha) Htp) as (r' & p & -> & Hp & Hok & Hown & Hm & Hs & Hc).
  cbn [mbind result_bind]. unfold ShardedRuntime.shardByID. rewrite Hp, Hs.
  destruct (sm_shards r !! owner r tp) as [s|] eqn:E.
  2: { exfalso. eapply is_Some_None. rewrite <- E. apply (ag_shards r m Ha), owner_is_shard, (ag_resolver r m Ha). }
  exists r', s. cbn [mbind result_bind]. split_and!; try done; [|by rewrite Hs]. destruct Ha as [? Hi ? ? ? ? ? Hl]. split; try done.
  - intros i. rewrite Hs, Hi. unfold is_shard. by rewrite Hc.
  - by rewrite Hm.
  - by rewrite Hm.
  - intros i s'. rewrite Hs. intros (mi & Hr & Ht & Hv)%Hl. exists mi. split_and!; [done|done|].
    intros tp' Hp' Ho. apply Hv; [done|]. by rewrite <- Hown.
Qed.

(** A shard changes, and with it the logs of its partitions. *)
Lemma agrees_shard r m i s s' m' :
  agrees r m -> sm_shards r !! i = Some s ->
  topics m' = topics m -> offsets m' = offsets m /\ offsetStates m' = offsetStates m -> log_inv m' ->
  holds s' m' (fun tp => owner r tp = i) -> (forall tp, 0 <= tp_Partition tp -> owner r tp <> i -> same_log m m' tp) ->
  agrees (set_shard i s' r) m'.
Proof.
  intros [Hok Hi Ht Hnm Hst [Ho1 Ho2] _ Hl] Hs Ht' [Ho1' Ho2'] Hinv Hown Hother. split.
  - destruct Hok. by split.
  - intros j. change (is_shard (set_shard i s' r) j) with (is_shard r j). cbn [sm_shards set_shard set_shards]. rewrite lookup_insert.
    case_decide as Hd; [|apply Hi]. subst j. rewrite <- Hi, Hs. split; by eexists.
  - cbn. congruence.
  - by rewrite Ht'.
  - by rewrite Ht'.
  - cbn. split; congruence.
  - done.
  - intros j sj. cbn. rewrite lookup_insert. change (owner (set_shard i s' r)) with (owner r).
    case_decide as Hd; [intros [= <-]; by subst j|]. intros (mi & Hr & Htm & Hv)%Hl. exists mi.
    split_and!; [done|congruence|]. intros tp Hp Htp. destruct (Hv tp Hp Htp) as [H1v H2v].
    destruct (Hother tp Hp) as [H1o H2o]; [congruence|]. split; congruence.
Qed.

(** Reads of a shard answer as the single store. *)
Lemma readShard_agrees {A} r m tp (op : StorxLogStore -> result Code A) (answer : result Code A) :
  agrees r m -> 0 <= tp_Partition tp ->
  (forall s mi, refines s mi -> topics mi = topics m -> same_log mi m tp -> op s = answer) ->
  exists r', ShardedRuntime.readShard r tp op = (r', of_store answer) /\ agrees r' m /\
    sr_shardCount (sm_resolver r') = sr_shardCount (sm_resolver r).
Proof.
  intros Ha Htp Hop. unfold ShardedRuntime.readShard, ShardedRuntime.onShard.
  destruct (shard_of_partition r m tp Ha Htp) as (r' & s & -> & Ha' & Hs & Hown & Hm & Hsh & Hc).
  eexists. destruct (ag_log r' m Ha' _ s Hs) as (mi & Hr & Ht & Hv).
  rewrite (Hop s mi Hr Ht (Hv tp Htp (Hown tp Htp))). split; [done|]. split; [|done].
  eapply agrees_shard; try done; [by destruct Ha'|by exists mi].
Qed.

Lemma readShardOrPanic_agrees {A} r m tp (op : StorxLogStore -> option (result Code A)) (answer : result Code A) :
  agrees r m -> 0 <= tp_Partition tp ->
  (forall s mi, refines s mi -> topics mi = topics m -> same_log mi m tp -> op s = Some answer) ->
  exists r', ShardedRuntime.readShardOrPanic r tp op = (r', of_store answer) /\ agrees r' m /\
    sr_shardCount (sm_resolver r') = sr_shardCount (sm_resolver r).
Proof.
  intros Ha Htp Hop. unfold ShardedRuntime.readShardOrPanic.
  destruct (shard_of_partition r m tp Ha Htp) as (r' & s & -> & Ha' & Hs & Hown & Hm & Hsh & Hc).
  exists r'. destruct (ag_log r' m Ha' _ s Hs) as (mi & Hr & Ht & Hv).
  by rewrite (Hop s mi Hr Ht (Hv tp Htp (Hown tp Htp))).
Qed.

(** ** Operations and answers *)

Inductive QueueOp :=
| QCreateTopic (topic : TopicConfig)
| QPublish (clock : nat -> Z) (topic : string) (partition : Z) (records : list RecordAppend)
| QFetch (consumer topic : string) (partition : Z) (offset : option Z) (maxRecords : Z)
| QAck (nowMS : Z) (consumer topic : string) (partition nextOffset : Z)
| QReadFrom (tp : TopicPartition) (offset maxRecords : Z)
| QPartitionOffsets (tp : TopicPartition)
| QReassign (topic : string) (partition shardID : Z).

Inductive QueueAnswer :=
| QDone (res : result BrokerError unit)
| QRecords (res : result BrokerError (list Rec))
| QPoll (res : result BrokerError PollResult)
| QOffsets (res : result BrokerError PartitionOffsetState)
| QPlacement (res : result BrokerError ShardPlacement).

(** The queue runtime over one in-memory store, with batches that are
    appended as a whole or not at all; a move changes nothing. *)
Definition execQueue (shardCount : Z) (m : MemoryStore) (op : QueueOp) : MemoryStore * QueueAnswer :=
  match op with
  | QCreateTopic topic => let '(m, res) := Queue.CreateTopic m topic in (m, QDone (of_store res))
  | QPublish clock topic partition records =>
      match Queue.PublishBatchRecords clock m topic partition records with
      | (m', Ok rs) => (m', QRecords (Ok rs))
      | (_, Err e) => (m, QRecords (Err (StoreError e)))
      end
  | QFetch consumer topic partition offset maxRecords =>
      (m, QPoll (of_store (Queue.Fetch m consumer topic partition offset maxRecords)))
  | QAck nowMS consumer topic partition nextOffset =>
      let '(m, res) := Queue.Ack nowMS m consumer topic partition nextOffset in (m, QDone (of_store res))
  | QReadFrom tp offset maxRecords => (m, QRecords (of_store (MemoryStore.ReadFrom m tp offset maxRecords)))
  | QPartitionOffsets tp => (m, QOffsets (of_store (MemoryStore.PartitionOffsets m tp)))
  | QReassign topic partition shardID =>
      (m, QPlacement
            (if shardCount <=? shardID then Err (StoreError CodeInvalidArgument)
             else match topics m !! topic with
                  | None => Err (StoreError CodeTopicNotFound)
                  | Some cfg => if tc_Partitions cfg <=? partition then Err (StoreError CodeInvalidArgument)
                                else Ok (NewShardPlacement topic partition shardID)
                  end))
  end.

Definition execSharded (r : shardedMessageRuntime) (op : QueueOp) : shardedMessageRuntime * QueueAnswer :=
  match op with
  | QCreateTopic topic => let '(r, res) := ShardedRuntime.CreateTopic r topic in (r, QDone res)
  | QPublish clock topic partition records =>
      let '(r, res) := ShardedRuntime.PublishBatchRecords clock r topic partition records in (r, QRecords res)
  | QFetch consumer topic partition offset maxRecords =>
      let '(r, res) := ShardedRuntime.Fetch r consumer topic partition offset maxRecords in (r, QPoll res)
  | QAck nowMS consumer topic partition nextOffset =>
      let '(r, res) := ShardedRuntime.Ack nowMS r consumer topic partition nextOffset in (r, QDone res)
  | QReadFrom tp offset maxRecords => let '(r, res) := ShardedRuntime.ReadFrom r tp offset maxRecords in (r, QRecords res)
  | QPartitionOffsets tp => let '(r, res) := ShardedRuntime.PartitionOffsets r tp in (r, QOffsets res)
  | QReassign topic partition shardID =>
      let '(r, res) := ShardedRuntime.applyReassignPartition r (ShardedRuntime.mkReassignPartitionCommand topic partition shardID) in
      (r, QPlacement res)
  end.

(** Requests the file format can carry: topics the manifest and the index can
    name, offsets and times within their widths, frames that can be encoded on
    every shard, reads whose end is an [int].  The one request the two sides
    refuse differently is a topic without partitions under a name that is
    taken. *)
Definition can_run (r : shardedMessageRuntime) (m : MemoryStore) (op : QueueOp) : Prop :=
  match op with
  | QCreateTopic topic => storable (normalizeTopic topic) /\ (tc_Partitions topic = 0 -> topics m !! tc_Name topic = None)
  | QPublish clock topic partition records =>
      let tp := NewTopicPartition topic partition in
      0 <= partition /\ (forall k, is_u64 (clock k)) /\ Forall segment_append records /\
      nextOffsetOf m tp + len records <= max_u64 /\
      forall i s m' rs e, sm_shards r !! i = Some s -> AppendRecordsBatch clock m tp records = (m', Ok rs) ->
        ~ write_fails (compression s) tp rs e
  | QFetch _ topic partition _ maxRecords => 0 <= partition /\ read_within m (NewTopicPartition topic partition) maxRecords
  | QAck _ _ _ partition _ => 0 <= partition
  | QReadFrom tp _ maxRecords => 0 <= tp_Partition tp /\ read_within m tp maxRecords
  | QPartitionOffsets tp => 0 <= tp_Partition tp
  | QReassign topic partition shardID =>
      0 <= partition /\ 0 <= shardID /\
      forall i s, sm_shards r !! i = Some s -> Forall (encodable (compression s)) (recordsOf m (NewTopicPartition topic partition))
  end.

Definition simulated (r : shardedMessageRuntime) (m : MemoryStore) (op : QueueOp) : Prop :=
  let count := sr_shardCount (sm_resolver r) in
  (execSharded r op).2 = (execQueue count m op).2 /\ agrees (execSharded r op).1 (execQueue count m op).1 /\
  sr_shardCount (sm_resolver (execSharded r op).1) = count.

Lemma read_within_local mi m tp maxRecords : same_log mi m tp -> read_within m tp maxRecords -> read_within mi tp maxRecords.
Proof. unfold read_within. intros [-> _]. done. Qed.

Lemma read_simulated r m tp offset maxRecords :
  agrees r m -> can_run r m (QReadFrom tp offset maxRecords) -> simulated r m (QReadFrom tp offset maxRecords).
Proof.
  intros Ha [Htp Hfit]. unfold simulated. cbn [execSharded execQueue].
  destruct (readShardOrPanic_agrees r m tp (fun log => StorxLog.ReadFrom log tp offset maxRecords) (MemoryStore.ReadFrom m tp offset maxRecords) Ha Htp)
    as (r' & Heq & Ha' & Hc).
  { intros s mi Hr Ht Hv. rewrite (ReadFrom_refines s mi tp offset maxRecords Hr) by (by eapply read_within_local).
    f_equal. by apply ReadFrom_local. }
  unfold ShardedRuntime.ReadFrom. by rewrite Heq.
Qed.

Lemma offsets_simulated r m tp : agrees r m -> 0 <= tp_Partition tp -> simulated r m (QPartitionOffsets tp).
Proof.
  intros Ha Htp. unfold simulated. cbn [execSharded execQueue].
  destruct (readShard_agrees r m tp (fun log => StorxLog.PartitionOffsets log tp) (MemoryStore.PartitionOffsets m tp) Ha Htp)
    as (r' & Heq & Ha' & Hc).
  { intros s mi Hr Ht Hv. rewrite (PartitionOffsets_refines s mi tp Hr).
    apply PartitionOffsets_local; try done; [apply (ref_inv s mi Hr)|apply (ag_inv r m Ha)]. }
  unfold ShardedRuntime.PartitionOffsets. by rewrite Heq.
Qed.

Lemma fetch_simulated r m consumer topic partition offset maxRecords :
  agrees r m -> can_run r m (QFetch consumer topic partition offset maxRecords) ->
  simulated r m (QFetch consumer topic partition offset maxRecords).
Proof.
  intros Ha [Hp Hfit]. unfold simulated. cbn [execSharded execQueue]. set (tp := NewTopicPartition topic partition) in *.
  destruct (readShardOrPanic_agrees r m tp (fun log => ShardedRuntime.fetchShard (sm_meta r) log consumer topic partition offset maxRecords)
    (Queue.Fetch m consumer topic partition offset maxRecords) Ha Hp) as (r' & Heq & Ha' & Hc).
  { intros s mi Hr Ht Hv. unfold ShardedRuntime.fetchShard, Queue.Fetch. fold tp.
    rewrite (PartitionOffsets_refines s mi tp Hr).
    rewrite (PartitionOffsets_local mi m tp (ref_inv s mi Hr) (ag_inv r m Ha) Ht Hv).
    destruct (MemoryStore.PartitionOffsets m tp) as [state|]; [|done]. cbn [mbind result_bind].
    assert (LoadConsumerOffset (sm_meta r) consumer tp = LoadConsumerOffset m consumer tp) as ->.
    { destruct (ag_offsets r m Ha) as [Ho1 Ho2]. unfold LoadConsumerOffset. by rewrite Ho1, Ho2. }
    assert (forall next, StorxLog.ReadFrom s tp next maxRecords = Some (MemoryStore.ReadFrom m tp next maxRecords)) as Hread.
    { intros next. rewrite (ReadFrom_refines s mi tp next maxRecords Hr) by (by eapply read_within_local).
      f_equal. by apply ReadFrom_local. }
    destruct offset as [offset|]; [|destruct (LoadConsumerOffset m consumer tp) as [committed|]; [|done]];
      cbn [mbind result_bind]; by rewrite Hread. }
  unfold ShardedRuntime.Fetch. fold tp. by rewrite Heq.
Qed.

Lemma publish_simulated r m clock topic partition records :
  agrees r m -> can_run r m (QPublish clock topic partition records) -> simulated r m (QPublish clock topic partition records).
Proof.
  intros Ha (Hp & Hclock & Hw & Hroom & Hnofail). unfold simulated. cbn [execSharded execQueue].
  set (tp := NewTopicPartition topic partition) in *. unfold ShardedRuntime.PublishBatchRecords, ShardedRuntime.onShard, Queue.PublishBatchRecords. fold tp.
  destruct (shard_of_partition r m tp Ha Hp) as (r' & s & -> & Ha' & Hs & Hown & Hm & Hsh & Hc).
  destruct (ag_log r' m Ha' _ s Hs) as (mi & Hr & Ht & Hv). pose proof (Hv tp Hp (Hown tp Hp)) as [Hvr Hvn].
  pose proof (AppendRecordsBatch_local clock mi m tp records Ht (conj Hvr Hvn)) as Hloc.
  destruct (StorxLog.AppendRecordsBatch clock s tp records) as [s' res] eqn:Hrun.
  eapply AppendRecordsBatch_refines in Hrun; [|exact Hr|done|done|by rewrite Hvn].
  destruct (AppendRecordsBatch clock m tp records) as [m' out] eqn:Hmem. cbn in Hloc.
  destruct res as [rs|e].
  - destruct Hrun as (mi' & Hmi & Hr'). rewrite Hmi in Hloc. cbn in Hloc. subst out. cbn [of_store fst snd].
    destruct (AppendRecordsBatch_spec _ _ _ _ _ _ (ref_inv s mi Hr) ltac:(by rewrite Hvn) Hmi) as (rs1 & R1 & _ & N1 & _ & T1 & F1 & E1 & _).
    destruct (AppendRecordsBatch_spec _ _ _ _ _ _ (ag_inv r m Ha) Hroom Hmem) as (rs2 & R2 & _ & N2 & I2 & T2 & F2 & E2 & _).
    subst rs1 rs2. split; [done|]. split; [|done].
    assert (forall tp', tp' <> tp -> same_log m m' tp') as Hother by (intros tp' Hne; destruct (F2 tp' Hne); by split).
    eapply agrees_shard; [exact Ha'|exact Hs|done| |done| |].
    + exact (AppendRecordsBatch_consumers _ _ _ _ _ _ Hmem).
    + exists mi'. split_and!; [done|congruence|]. intros tp' Hp' Ho. destruct (decide (tp' = tp)) as [->|Hne].
      * split; [rewrite R1, R2|rewrite N1, N2]; congruence.
      * destruct (Hv tp' Hp' Ho) as [V1 V2], (F1 tp' Hne) as [G1 G2], (F2 tp' Hne) as [K1 K2]. split; congruence.
    + intros tp' Hp' Ho. apply Hother. intros ->. apply Ho. by apply Hown.
  - destruct Hrun as [Hr' Hwhy]. assert (out = Err e) as ->.
    { destruct Hwhy as [[mi' Hmi]|(rs & mi' & Hmi & Hf)]; rewrite Hmi in Hloc; cbn in Hloc; [done|]. subst out.
      exfalso. rewrite Hsh in Hs. by eapply Hnofail. }
    cbn [of_store fst snd]. split; [done|]. split; [|done]. eapply agrees_shard; try done; [by destruct Ha'|by exists mi].
Qed.

Lemma ack_simulated r m nowMS consumer topic partition nextOffset :
  agrees r m -> 0 <= partition -> simulated r m (QAck nowMS consumer topic partition nextOffset).
Proof.
  intros Ha Hp. unfold simulated. cbn [execSharded execQueue]. unfold ShardedRuntime.Ack, Queue.Ack.
  set (tp := NewTopicPartition topic partition).
  destruct (shard_of_partition r m tp Ha Hp) as (r' & s & -> & Ha' & _ & _ & _ & _ & Hc).
  unfold SaveConsumerOffset, SaveConsumerOffsetState. set (state := NormalizeConsumerOffsetState _).
  destruct (validateConsumerOffsetState state) as [u|e]; cbn [fst snd].
  - split; [done|]. split; [|done]. destruct Ha' as [[? ? ?] Hi ? ? ? [Ho1 Ho2] [] Hl].
    split; [by split|done|done|done|done| |by split|done]. cbn. by rewrite Ho1, Ho2.
  - split; [done|]. split; [|done]. by destruct r'.
Qed.

(** *** Passes over the shards *)

Lemma onEachShard_ok (op : Z -> StorxLogStore -> StorxLogStore * result Code unit) shards :
  (forall i s, shards !! i = Some s -> (op i s).2 = Ok tt) ->
  exists shards', ShardedRuntime.onEachShard op (fun _ u => u) tt shards = (shards', Ok tt) /\
    forall i, shards' !! i = (fun s => (op i s).1) <$> shards !! i.
Proof.
  intros Hop. unfold ShardedRuntime.onEachShard.
  assert (forall l (out : gmap Z StorxLogStore), NoDup l.*1 -> (forall i s, (i, s) ∈ l -> shards !! i = Some s) ->
    exists shards' : gmap Z StorxLogStore, foldl (fun '(out, total) '(shardID, shard) =>
        let '(shard, res) := op shardID shard in
        (<[shardID := shard]> out,
         match total, res with Ok total, Ok res => Ok res | Ok _, Err e => Err (StoreError e) | Err e, _ => Err e end))
      (out, Ok tt) l = (shards', Ok tt) /\
    forall i, shards' !! i = match shards !! i with
                             | Some s => if decide (i ∈ l.*1) then Some (op i s).1 else out !! i
                             | None => out !! i
                             end) as Hall.
  { intros l. induction l as [|[i s] l IH]; intros out Hnd Hin.
    - exists out. split; [done|]. intros j. destruct (shards !! j); [|done]. by rewrite decide_False by (by intros ?%elem_of_nil).
    - cbn [foldl]. apply NoDup_cons in Hnd as [Hni Hnd]. pose proof (Hin i s ltac:(by left)) as Hs. pose proof (Hop i s Hs) as Hi.
      destruct (op i s) as [s' res] eqn:E. cbn in Hi. subst res.
      destruct (IH (<[i := s']> out) Hnd) as (shards' & -> & Hl); [intros j sj Hj; apply Hin; by right|].
      exists shards'. split; [done|]. intros j. rewrite Hl. destruct (shards !! j) as [sj|] eqn:Ej.
      + cbn [fmap list_fmap fst]. rewrite lookup_insert. destruct (decide (j ∈ l.*1)) as [Hj|Hj]; [by rewrite decide_True by (by right)|].
        destruct (decide (i = j)) as [->|Hd].
        * rewrite Hs in Ej. injection Ej as <-. rewrite decide_True by (by left). by rewrite E.
        * rewrite decide_False; [done|]. rewrite elem_of_cons. by intros [->|?].
      + rewrite lookup_insert_ne; [done|]. congruence. }
  destruct (Hall (range shards) shards) as (shards' & Heq & Hl).
  - exact (NoDup_keys shards).
  - intros i s. by rewrite elem_of_range.
  - exists shards'. split; [exact Heq|]. intros i. rewrite Hl. destruct (shards !! i) as [s|] eqn:E; [|done].
    rewrite decide_True; [done|]. by apply (elem_of_keys shards).
Qed.

(** A pass that every shard refuses with the same error and without effect. *)
Lemma onEachShard_refused (op : Z -> StorxLogStore -> StorxLogStore * result Code unit) shards e :
  shards <> ∅ -> (forall i s, shards !! i = Some s -> op i s = (s, Err e)) ->
  ShardedRuntime.onEachShard op (fun _ u => u) tt shards = (shards, Err (StoreError e)).
Proof.
  intros Hne Hop. unfold ShardedRuntime.onEachShard.
  assert (forall l res, (forall i s, (i, s) ∈ l -> shards !! i = Some s) ->
    foldl (fun '(out, total) '(shardID, shard) =>
        let '(shard, res) := op shardID shard in
        (<[shardID := shard]> out,
         match total, res with Ok total, Ok res => Ok res | Ok _, Err e => Err (StoreError e) | Err e, _ => Err e end))
      (shards, res) l = (shards, match l, res with [], _ => res | _, Ok _ => Err (StoreError e) | _, Err e' => Err e' end)) as Hall.
  { intros l. induction l as [|[i s] l IH]; intros res Hin; [done|]. cbn [foldl]. pose proof (Hin i s ltac:(by left)) as Hs.
    rewrite (Hop i s Hs), (insert_id _ _ _ Hs), IH by (intros j sj Hj; apply Hin; by right). by destruct res, l. }
  rewrite Hall by (intros i s; by rewrite elem_of_range).
  destruct (range shards) as [|p l] eqn:E; [|done]. exfalso. apply Hne. apply map_empty. intros i.
  destruct (shards !! i) as [s|] eqn:Ei; [|done]. apply elem_of_range in Ei. rewrite E in Ei. by apply elem_of_nil in Ei.
Qed.

(** *** Topics *)

Lemma agrees_some_shard r m : agrees r m -> sm_shards r <> ∅.
Proof.
  intros Ha He. destruct (proj2 (ag_shards r m Ha 0)) as [s Hs]; [|by rewrite He, lookup_empty in Hs].
  destruct (ag_resolver r m Ha) as [Hc _ _]. unfold is_shard. lia.
Qed.

Lemma TopicExists_agrees r m name :
  agrees r m -> ShardedRuntime.TopicExists r name = Ok (bool_decide (is_Some (topics m !! name))).
Proof.
  intros Ha. unfold ShardedRuntime.TopicExists, LoadTopicConfig. cbn [of_store mbind result_bind]. rewrite (ag_topics r m Ha).
  destruct (topics m !! name) as [t|] eqn:Ht; [done|].
  assert (forall l, (forall s, s ∈ l -> StorxLog.topics s = topics m) -> ShardedRuntime.topicOnShards l name = Ok false) as Hl.
  { intros l. induction l as [|s l IH]; intros Hs; [done|]. cbn [ShardedRuntime.topicOnShards]. unfold StorxLog.TopicExists.
    rewrite (Hs s) by (by left). rewrite Ht. cbn. apply IH. intros s' Hs'. apply Hs. by right. }
  apply Hl. intros s (i & Hi)%elem_of_values. destruct (ag_log r m Ha i s Hi) as (mi & Hr & Hti & _). by rewrite (ref_topics s mi Hr).
Qed.

(** A topic without a name or without partitions is refused by both. *)
Lemma create_refused r m topic :
  agrees r m -> topics m !! tc_Name topic = None -> tc_Name topic = ""%string \/ tc_Partitions topic = 0 ->
  simulated r m (QCreateTopic topic).
Proof.
  intros Ha Ht Hbad. unfold simulated. cbn [execSharded execQueue]. unfold ShardedRuntime.CreateTopic, Queue.CreateTopic.
  rewrite (TopicExists_agrees r m _ Ha), Ht, bool_decide_eq_false_2 by (by intros [? ?]).
  assert (forall i s, sm_shards r !! i = Some s -> StorxLog.CreateTopic s topic = (s, Err CodeInvalidArgument)) as Hs.
  { intros i s _. unfold StorxLog.CreateTopic, StorxLog.validateLogTopicForCreate. case_decide; [done|].
    destruct Hbad as [?|Hz]; [done|]. by rewrite Hz. }
  unfold ShardedRuntime.createTopicLogs. rewrite (onEachShard_refused _ _ CodeInvalidArgument (agrees_some_shard r m Ha) Hs).
  assert (MemoryStore.CreateTopic m topic = (m, Err CodeInvalidArgument)) as ->.
  { unfold MemoryStore.CreateTopic. case_decide; [done|]. destruct Hbad as [?|Hz]; [done|]. by rewrite Hz. }
  cbn [fst snd of_store]. split; [done|]. split; [|done]. by destruct r.
Qed.

Lemma create_simulated r m topic :
  agrees r m -> can_run r m (QCreateTopic topic) -> simulated r m (QCreateTopic topic).
Proof.
  intros Ha [Hst Hfree].
  destruct (decide (tc_Name topic = ""%string)) as [Hn|Hn].
  { apply create_refused; [done| |by left]. rewrite Hn. by eapply ag_named. }
  destruct (decide (tc_Partitions topic = 0)) as [Hp|Hp]; [by apply create_refused; [done|apply Hfree|right]|]. unfold simulated. cbn [execSharded execQueue]. unfold ShardedRuntime.CreateTopic, Queue.CreateTopic.
  rewrite (TopicExists_agrees r m _ Ha). pose proof (ag_inv r m Ha) as Hinv.
  destruct (topics m !! tc_Name topic) as [t|] eqn:Ht.
  { rewrite bool_decide_eq_true_2 by (by eexists). unfold MemoryStore.CreateTopic. rewrite decide_False by done.
    destruct (Z.eqb_spec (tc_Partitions topic) 0) as [|_]; [done|]. cbv zeta.
    rewrite decide_True by (rewrite (li_names m Hinv); by apply elem_of_dom_2 in Ht). done. }
  rewrite bool_decide_eq_false_2 by (by intros [? ?]).
  assert (forall i s, sm_shards r !! i = Some s -> (StorxLog.CreateTopic s topic).2 = Ok tt /\
    forall m', topics m' = <[tc_Name topic := normalizeTopic topic]> (topics m) -> (forall tp, same_log m m' tp) ->
      holds (StorxLog.CreateTopic s topic).1 m' (fun tp => owner r tp = i)) as Hshards.
  { intros i s (mi & Hr & Hti & Hv)%(ag_log r m Ha). pose proof (CreateTopic_refines s mi topic Hr) as Hc.
    destruct (CreateTopic_changes mi topic Hn Hp (ref_inv s mi Hr)) as (mi' & Hmi & Htm & _); [by rewrite Hti|].
    rewrite Hmi in Hc. destruct (StorxLog.CreateTopic s topic) as [s' res]. destruct Hc as (-> & Hr' & Hc).
    { split; [by destruct Hst|]. intros n t. rewrite (ref_topics s mi Hr), Hti. intros Hnt. by destruct (ag_storable r m Ha n t Hnt). }
    split; [done|]. intros m' Ht' Hsame. exists mi'. split_and!; [done|by rewrite Htm, Ht', Hti|].
    intros tp Hpt Ho. destruct Hc as (_ & _ & _ & _ & _ & _ & Hrec & Hnext & _).
    destruct (Hv tp Hpt Ho), (Hsame tp). split; [rewrite Hrec|rewrite Hnext]; congruence. }
  destruct (CreateTopic_changes m topic Hn Hp Hinv Ht) as (m1 & Hm1 & Ht1 & Ho1 & Hos1).
  destruct (CreateTopic_inv m topic Hinv) as [Hinv1 Hsame1]. rewrite Hm1 in Hinv1, Hsame1. cbn in Hinv1, Hsame1.
  destruct (SaveTopicConfig_changes m1 topic Hn) as (m2 & Hm2 & Ht2 & Ho2 & Hos2 & _).
  destruct (SaveTopicConfig_inv m1 topic Hinv1) as [Hinv2 Hsame2]. rewrite Hm2 in Hinv2, Hsame2. cbn in Hinv2, Hsame2.
  destruct (SaveTopicConfig_changes (sm_meta r) topic Hn) as (meta & Hmeta & Ht3 & Ho3 & Hos3 & Hpl3).
  unfold ShardedRuntime.createTopicLogs.
  destruct (onEachShard_ok (fun _ shard => StorxLog.CreateTopic shard topic) (sm_shards r)) as (shards' & -> & Hl);
    [intros i s Hs; by apply (Hshards i s)|].
  cbn [sm_meta set_shards]. rewrite Hm1, Hm2, Hmeta. cbn [fst snd of_store]. split; [done|]. split; [|done].
  rewrite Ht1, insert_insert_eq in Ht2.
  destruct Ha as [[Hc Hk Hs] Hi Htop Hnm Hsto [Hof Hofs] _ Hlog]. split.
  - split; [done|done|]. cbn. rewrite Hpl3. exact Hs.
  - intros i. change (is_shard (set_meta meta (set_shards shards' r)) i) with (is_shard r i). cbn. by rewrite Hl, fmap_is_Some.
  - cbn. by rewrite Ht3, Ht2, Htop.
  - by rewrite Ht2, lookup_insert_ne.
  - intros n t. rewrite Ht2, lookup_insert. case_decide; [by intros [= <-]|apply Hsto].
  - cbn. split; congruence.
  - done.
  - intros i s'. cbn. rewrite Hl. destruct (sm_shards r !! i) as [s|] eqn:Es; [|done]. intros [= <-].
    destruct (proj2 (Hshards i s Es) m2 Ht2) as (mi & Hr & Hti & Hv).
    { intros tp. destruct (Hsame1 tp), (Hsame2 tp). split; congruence. }
    exists mi. split_and!; [done|done|]. intros tp Hpt Ho. apply Hv; [done|]. rewrite <- Ho.
    unfold owner. cbn. by rewrite Hpl3.
Qed.

(** *** Moves *)

Definition placed_on (p : ShardPlacement) (r : shardedMessageRuntime) : shardedMessageRuntime :=
  set_resolver (cacheShardPlacement (sm_resolver r) p)
    (set_meta (set_placements (<[ShardPlacement_TopicPartition p := p]> (placements (sm_meta r))) (sm_meta r)) r).

Lemma placed_on_owner p r tp :
  0 <= sp_Partition p -> 0 <= tp_Partition tp ->
  owner (placed_on p r) tp = if decide (tp = ShardPlacement_TopicPartition p) then sp_ShardID p else owner r tp.
Proof.
  intros Hp Htp. unfold owner. cbn [sm_resolver sm_meta placed_on set_resolver set_meta cacheShardPlacement sr_cache sr_shardCount placements set_placements].
  rewrite !lookup_insert. destruct (decide (topicPartitionCacheKey _ = _)) as [E|E].
  - apply topicPartitionCacheKey_inj in E; [|done|done]. by rewrite decide_True.
  - assert (tp <> ShardPlacement_TopicPartition p) as Hne by (by intros ->).
    rewrite decide_False by done. by rewrite decide_False by done.
Qed.

(** A placement is saved, together with shards that fit it. *)
Lemma agrees_placed r m p shards' :
  agrees r m -> 0 <= sp_Partition p -> is_shard r (sp_ShardID p) ->
  (forall i, is_Some (shards' !! i) <-> is_shard r i) ->
  (forall i s, shards' !! i = Some s ->
     holds s m (fun tp => (if decide (tp = ShardPlacement_TopicPartition p) then sp_ShardID p else owner r tp) = i)) ->
  agrees (placed_on p (set_shards shards' r)) m.
Proof.
  intros [[Hc Hk Hs] _ Ht Hnm Hst Ho Hinv _] Hp Hps Hi Hl. split; try done.
  - split; [done|..]; cbn.
    + intros key p'. rewrite lookup_insert. case_decide; [by intros [= <-]|apply Hk].
    + intros tp p'. rewrite lookup_insert. case_decide; [by intros [= <-]|apply Hs].
  - intros i s Hs'. destruct (Hl i s Hs') as (mi & Hr & Htm & Hv). exists mi. split_and!; [done|done|].
    intros tp Htp Hown. apply Hv; [done|]. rewrite placed_on_owner in Hown by done. exact Hown.
Qed.

Lemma commit_placed r req :
  ShardedRuntime.rpc_Topic req <> ""%string ->
  let p := NewShardPlacement (ShardedRuntime.rpc_Topic req) (ShardedRuntime.rpc_Partition req) (ShardedRuntime.rpc_ShardID req) in
  ShardedRuntime.saveReassignedPartitionPlacement r req = (placed_on p r, Ok p).
Proof.
  intros Hn p. unfold ShardedRuntime.saveReassignedPartitionPlacement, SaveShardPlacement, validateShardPlacement. fold p.
  change (sp_Topic p) with (ShardedRuntime.rpc_Topic req). by rewrite decide_False by done.
Qed.

(** The partition arrives at the target as it was at the source, and nothing
    of it stays behind. *)
Lemma move_holds source target m tp cfg (owned_s owned_t : TopicPartition -> Prop) :
  holds source m owned_s -> holds target m owned_t -> owned_s tp -> 0 <= tp_Partition tp ->
  topics m !! tp_Topic tp = Some cfg -> tp_Partition tp < tc_Partitions cfg -> ~ topic_too_long tp ->
  Forall (encodable (compression target)) (recordsOf m tp) ->
  exists target', ShardedRuntime.movePartitionSnapshot source target tp = (target', Ok tt) /\
    holds target' m (fun tp' => tp' = tp \/ owned_t tp') /\
    holds (ShardedRuntime.clearReassignedSource source tp) m (fun tp' => tp' <> tp /\ owned_s tp').
Proof.
  intros (ms & Hrs & Hts & Hvs) (mt & Hrt & Htt & Hvt) Hown Hp Hcfg Hlt Hlong Henc.
  destruct (Hvs tp Hp Hown) as [Hrec Hnext].
  unfold ShardedRuntime.movePartitionSnapshot, ShardedRuntime.clearReassignedSource, StorxLog.ClearPartition.
  rewrite (SnapshotPartition_refines source ms tp cfg Hrs) by (by rewrite ?Hts).
  destruct (loads_partition source ms tp Hrs) as (cfg' & -> & _); [exists cfg; by rewrite Hts|].
  destruct (ReplacePartition_refines target mt tp cfg (recordsOf ms tp) (nextOffsetOf ms tp)) as (target' & -> & _ & Hr');
    [done|exists cfg; by rewrite Htt|done|by rewrite Htt| |by rewrite Hrec|apply log_inv_recordsOf, (ref_inv _ _ Hrs)
    |apply log_inv_next_u64, (ref_inv _ _ Hrs)|].
  { pose proof (ref_log source ms Hrs tp) as Hl. apply Forall_lookup. intros i r Hi.
    destruct (Forall2_lookup_r _ _ _ _ _ Hl Hi) as (p & _ & Hpt). by apply points_to_fields in Hpt as (_ & _ & _ & ? & _). }
  exists target'. split; [done|]. split.
  - exists (placePartition mt tp (recordsOf ms tp) (nextOffsetOf ms tp)). split_and!; [done|done|].
    intros tp' Hp' Ho. destruct (placePartition_view mt tp (recordsOf ms tp) (nextOffsetOf ms tp) tp') as [V1 V2].
    unfold same_log. rewrite V1, V2. destruct (decide (tp' = tp)) as [->|Hne]; [done|]. destruct Ho as [?|Ho]; [done|by apply Hvt].
  - exists (placePartition ms tp [] 0). split_and!; [by apply clearPartition_refines|done|].
    intros tp' Hp' [Hne Ho]. destruct (placePartition_view ms tp [] 0 tp') as [V1 V2].
    unfold same_log. rewrite V1, V2, !decide_False by done. by apply Hvs.
Qed.

(** The runtime after a move. *)
Lemma agrees_moved r m p source' target' :
  let tp := ShardPlacement_TopicPartition p in
  agrees r m -> 0 <= sp_Partition p -> is_shard r (sp_ShardID p) -> owner r tp <> sp_ShardID p ->
  holds target' m (fun tp' => tp' = tp \/ owner r tp' = sp_ShardID p) ->
  holds source' m (fun tp' => tp' <> tp /\ owner r tp' = owner r tp) ->
  agrees (set_shard (owner r tp) source' (placed_on p (set_shard (sp_ShardID p) target' r))) m.
Proof.
  intros tp Ha Hp Hshard Hneq Ht' Hs'.
  change (agrees (placed_on p (set_shards (<[owner r tp := source']> (<[sp_ShardID p := target']> (sm_shards r))) r)) m).
  apply agrees_placed; try done.
  - intros i. rewrite !lookup_insert. repeat case_decide; [| |apply (ag_shards r m Ha)]; subst i; split; intros _; try by eexists; try done.
    + apply owner_is_shard, (ag_resolver r m Ha).
    + done.
  - intros i s. rewrite !lookup_insert. fold tp. repeat case_decide.
    + intros [= <-]. destruct Hs' as (mi & Hr & Ht & Hv). exists mi. split_and!; [done|done|]. intros tp' Hp' Ho. apply Hv; [done|].
      case_decide as Hd; [congruence|]. split; [done|congruence].
    + intros [= <-]. destruct Ht' as (mi & Hr & Ht & Hv). exists mi. split_and!; [done|done|]. intros tp' Hp' Ho. apply Hv; [done|].
      case_decide as Hd; [by left|right; congruence].
    + intros (mi & Hr & Ht & Hv)%(ag_log r m Ha). exists mi. split_and!; [done|done|]. intros tp' Hp' Ho. apply Hv; [done|].
      case_decide as Hd; [congruence|done].
Qed.

Lemma reassign_simulated r m topic partition shardID :
  agrees r m -> can_run r m (QReassign topic partition shardID) -> simulated r m (QReassign topic partition shardID).
Proof.
  intros Ha (Hp & Hid & Henc). unfold simulated. cbn [execSharded execQueue].
  set (tp := NewTopicPartition topic partition) in *.
  unfold ShardedRuntime.applyReassignPartition, ShardedRuntime.validatePartitionReassignment.
  cbn [ShardedRuntime.rpc_Topic ShardedRuntime.rpc_Partition ShardedRuntime.rpc_ShardID]. fold tp. rewrite (ag_topics r m Ha).
  destruct (Z.leb_spec (sr_shardCount (sm_resolver r)) shardID) as [|Hcount]; [done|].
  destruct (topics m !! topic) as [cfg|] eqn:Hcfg; [|done].
  assert (topic <> ""%string) as Hn by (intros ->; by rewrite (ag_named r m Ha) in Hcfg).
  destruct (Z.leb_spec (tc_Partitions cfg) partition) as [|Hpart]; [done|].
  unfold ShardedRuntime.ReassignPartitionData, ShardedRuntime.reassignPartitionDataLocked.
  pose proof (shard_of_partition r m tp Ha Hp) as (r1 & source & Hsh & Ha1 & Hsrc & Hown & Hm1 & Hs1 & Hc1).
  unfold ShardedRuntime.shardForTopicPartition in Hsh. destruct (ShardedRuntime.resolve r tp) as [r1' [pl|]] eqn:Hres; [|done].
  cbn [mbind result_bind] in Hsh. destruct (ShardedRuntime.shardByID r1' (sp_ShardID pl)) as [src|] eqn:Hby; [|done].
  cbn [mbind result_bind] in Hsh. injection Hsh as -> Hpl ->. rewrite Hpl in *.
  set (p := NewShardPlacement topic partition shardID).
  assert (is_shard r1 shardID) as Hshard by (unfold is_shard; lia).
  destruct (Z.eqb_spec (owner r tp) shardID) as [Heq|Hneq].
  - rewrite (commit_placed r1 (ShardedRuntime.mkReassignPartitionCommand topic partition shardID)) by done. cbn [fst snd].
    split; [done|]. split; [|done]. replace r1 with (set_shards (sm_shards r1) r1) by (by destruct r1).
    apply agrees_placed; try done; [apply (ag_shards r1 m Ha1)|]. intros i s Hs.
    destruct (ag_log r1 m Ha1 i s Hs) as (mi & Hr & Ht & Hv). exists mi. split_and!; [done|done|].
    intros tp' Hp' Ho. apply Hv; [done|]. case_decide as Hd; [|done]. rewrite Hd, Hown; [|done].
    change (ShardPlacement_TopicPartition _) with tp. cbn in Ho. congruence.
  - unfold ShardedRuntime.reassignmentShards. rewrite Hby. cbn [mbind result_bind]. unfold ShardedRuntime.shardByID.
    destruct (sm_shards r1 !! shardID) as [target|] eqn:Htgt.
    2: { exfalso. eapply is_Some_None. rewrite <- Htgt. by apply (ag_shards r1 m Ha1). }
    cbn [mbind result_bind].
    destruct (move_holds source target m tp cfg (fun tp' => owner r1 tp' = owner r tp) (fun tp' => owner r1 tp' = shardID))
      as (target' & -> & Ht' & Hs'); try done.
    { by apply (ag_log r1 m Ha1). }
    { by apply (ag_log r1 m Ha1). }
    { by apply Hown. }
    { destruct (ag_storable r m Ha topic cfg Hcfg) as (_ & _ & Hl & _).
      rewrite (proj1 (li_topic m (ag_inv r m Ha) topic cfg Hcfg)) in Hl. unfold topic_too_long. cbn. lia. }
    { apply (Henc shardID). by rewrite <- Hs1. }
    rewrite (commit_placed _ (ShardedRuntime.mkReassignPartitionCommand topic partition shardID)) by done. cbn [fst snd].
    split; [done|]. split; [|done].
    rewrite <- (Hown tp Hp) in Hneq, Hs' |- *. exact (agrees_moved r1 m p _ target' Ha1 Hp Hshard Hneq Ht' Hs').
Qed.

(** ** Sequences of operations *)

Lemma exec_simulated r m op : agrees r m -> can_run r m op -> simulated r m op.
Proof.
  intros Ha Hfit. destruct op.
  - by apply create_simulated.
  - by apply publish_simulated.
  - by apply fetch_simulated.
  - by apply ack_simulated.
  - by apply read_simulated.
  - by apply offsets_simulated.
  - by apply reassign_simulated.
Qed.

Fixpoint run_queue {S} (exec : S -> QueueOp -> S * QueueAnswer) (s : S) (ops : list QueueOp) : list QueueAnswer :=
  match ops with
  | [] => []
  | op :: ops => let '(s, answer) := exec s op in answer :: run_queue exec s ops
  end.

Fixpoint all_can_run (r : shardedMessageRuntime) (m : MemoryStore) (ops : list QueueOp) : Prop :=
  match ops with
  | [] => True
  | op :: ops => can_run r m op /\ all_can_run (execSharded r op).1 (execQueue (sr_shardCount (sm_resolver r)) m op).1 ops
  end.

Lemma run_simulated r m ops :
  agrees r m -> all_can_run r m ops -> run_queue execSharded r ops = run_queue (execQueue (sr_shardCount (sm_resolver r))) m ops.
Proof.
  revert r m. induction ops as [|op ops IH]; intros r m Ha Hfit; [done|]. cbn [run_queue all_can_run] in *.
  destruct Hfit as [Hop Hfit], (exec_simulated r m op Ha Hop) as (Heq & Ha' & Hc).
  destruct (execSharded r op) as [r' a], (execQueue (sr_shardCount (sm_resolver r)) m op) as [m' a']. cbn in *. subst a'.
  f_equal. rewrite <- Hc. by apply IH.
Qed.

(** *** The start *)

Lemma openMessageShards_empty readMode specs shards shards' :
  NoDup (ShardedRuntime.ds_ShardID <$> specs) ->
  ShardedRuntime.openMessageShards readMode (fun _ => noFiles) shards specs = Ok shards' ->
  forall i, (i ∈ ShardedRuntime.ds_ShardID <$> specs -> exists s, shards' !! i = Some s /\ refines s NewMemoryStore) /\
            (i ∉ ShardedRuntime.ds_ShardID <$> specs -> shards' !! i = shards !! i).
Proof.
  revert shards. induction specs as [|spec specs IH]; intros shards Hnd Hopen i; cbn [ShardedRuntime.openMessageShards fmap list_fmap] in *.
  { injection Hopen as <-. split; [by intros ?%elem_of_nil|done]. }
  apply NoDup_cons in Hnd as [Hni Hnd]. apply bind_ok in Hopen as (s & Hs & Hopen).
  unfold ShardedRuntime.openMessageShard in Hs.
  destruct (StorxLog.OpenStorxLogStoreWithOptions _ _ _) as [s'|] eqn:Ho; [|done]. injection Hs as ->.
  destruct (IH _ Hnd Hopen i) as [Hin Hout]. split.
  - destruct (decide (i ∈ ShardedRuntime.ds_ShardID <$> specs)) as [Hi|Hi]; [by intros _; apply Hin|].
    intros [->|?]%elem_of_cons; [|done]. exists s. rewrite Hout by done. rewrite lookup_insert_eq. split; [done|].
    apply open_empty in Ho as [Hd _]. by apply du_refines.
  - intros Hne. rewrite not_elem_of_cons in Hne. destruct Hne as [Hne Hi]. rewrite Hout by done. by rewrite lookup_insert_ne.
Qed.

Lemma started_agrees ShardDir ShardSegmentLogPath count readMode r :
  0 <= count ->
  ShardedRuntime.newShardedMessageRuntime ShardDir ShardSegmentLogPath count [] readMode (fun _ => noFiles) None NewMemoryStore = Ok r ->
  agrees r NewMemoryStore.
Proof.
  intros Hcount Hnew. unfold ShardedRuntime.newShardedMessageRuntime in Hnew. apply bind_ok in Hnew as (shards & Hopen & [= <-]).
  set (n := if count =? 0 then 1 else count).
  assert (0 < n) as Hn by (unfold n; destruct (Z.eqb_spec count 0); lia).
  assert (ShardedRuntime.ds_ShardID <$> ShardedRuntime.buildDataShardSpecs ShardDir ShardSegmentLogPath count = seqZ 0 n) as Hids.
  { unfold ShardedRuntime.buildDataShardSpecs. fold n. rewrite <- list_fmap_compose. apply list_fmap_id. }
  pose proof (openMessageShards_empty readMode _ ∅ shards ltac:(rewrite Hids; apply NoDup_seqZ) Hopen) as Hs. rewrite Hids in Hs.
  split; try done.
  - intros i. unfold is_shard. cbn. fold n. destruct (Hs i) as [Hin Hout]. rewrite elem_of_seqZ in Hin, Hout. split.
    + intros [s Hsi]. destruct (decide (0 <= i < n)); [done|]. rewrite Hout in Hsi by lia. by rewrite lookup_empty in Hsi.
    + intros Hi. destruct Hin as (s & ? & _); [lia|by exists s].
  - intros i s Hsi. cbn in Hsi. destruct (Hs i) as [Hin Hout]. exists NewMemoryStore. split_and!; [|done|by intros].
    destruct (decide (i ∈ seqZ 0 n)) as [Hi|Hi]; [|by rewrite Hout, lookup_empty in Hsi].
    destruct (Hin Hi) as (s' & Hs' & Hr). congruence.
Qed.

(** C26: a broker with several data shards answers as one with a single log.
    Whatever topics are created, batches published, records fetched and
    acknowledged, and however partitions are moved between the shards in
    between, the answers, errors included, are those of the queue runtime
    over one in-memory store.  The requests are those of [can_run]: topics the
    manifest and the index can name (one without partitions only under a free
    name), publications that fit below the largest offset and whose frames
    every shard can encode, reads and fetches whose end does not overflow
    [int], moves of partitions whose records can be encoded again. *)
Theorem sharded_answers_as_one ShardDir ShardSegmentLogPath count readMode r ops :
  0 <= count ->
  ShardedRuntime.newShardedMessageRuntime ShardDir ShardSegmentLogPath count [] readMode (fun _ => noFiles) None NewMemoryStore = Ok r ->
  all_can_run r NewMemoryStore ops ->
  run_queue execSharded r ops = run_queue (execQueue (sr_shardCount (sm_resolver r))) NewMemoryStore ops.
Proof. intros Hcount Hnew Hfit. apply run_simulated; [by eapply started_agrees|done]. Qed.

End Simulation.

(** ** A run on two shards *)

Fixpoint sublists {A} (l : list A) : list (list A) :=
  match l with [] => [[]] | x :: l => sublists l ++ (cons x <$> sublists l) end.

Lemma elem_of_sublists {A} (k l : list A) : k `sublist_of` l -> k ∈ sublists l.
Proof.
  induction 1 as [|x k l _ IH|x k l _ IH]; cbn [sublists]; [by left|..]; apply elem_of_app.
  - right. by apply list_elem_of_fmap_2.
  - by left.
Qed.

#[global] Instance segmentFrameCompression_eq_dec : EqDecision segmentFrameCompression.
Proof. solve_decision. Defined.

Section Example.
#[local] Existing Instance ex_zstd.
#[local] Existing Instance ex_manifest.
#[local] Existing Instance map_to_list_range.

Definition ex_two : shardedMessageRuntime :=
  match ShardedRuntime.newShardedMessageRuntime (fun _ => "dir") (fun _ => "log") 2 [] "" (fun _ => noFiles) None NewMemoryStore with
  | Ok r => r
  | Err _ => ShardedRuntime.mkShardedMessageRuntime NewMemoryStore (newBrokerShardResolver 2) ∅
  end.

Definition ex_batch : list RecordAppend := [ex_append Byte.x61 [Byte.x01]; ex_append Byte.x62 [Byte.x02]].

(** The partition starts on shard 0, moves to shard 1 and back. *)
Definition ex_queue_ops : list QueueOp := [
  QCreateTopic ex_config;
  QPublish (fun _ => 5) "orders" 0 ex_batch;
  QReassign "orders" 0 1;
  QPublish (fun _ => 6) "orders" 0 ex_batch;
  QFetch "c" "orders" 0 None 3;
  QAck 7 "c" "orders" 0 3;
  QReassign "orders" 0 0;
  QFetch "c" "orders" 0 None 3;
  QReassign "orders" 0 2;
  QPartitionOffsets ex_part ].

Definition all_compress (r : shardedMessageRuntime) : bool :=
  bool_decide (map_Forall (fun _ s => compression s = ex_zstd_compression) (sm_shards r)).

Lemma ex_publish_runs r m t :
  all_compress r = true -> is_u64 t -> nextOffsetOf m ex_part + 2 <= max_u64 ->
  match (AppendRecordsBatch (fun _ => t) m ex_part ex_batch).2 with
  | Ok rs => forallb (fun chunk => is_ok (encodeSegmentBatchFrameWithCompression chunk ex_zstd_compression)) (sublists rs) = true
  | Err _ => False
  end ->
  can_run r m (QPublish (fun _ => t) "orders" 0 ex_batch).
Proof.
  intros Hc Ht Hroom Henc. apply bool_decide_eq_true in Hc. cbn [can_run]. split_and!; [done|done| |exact Hroom|].
  - repeat (constructor; [by apply ex_append_fits|]). constructor.
  - intros i s m' rs e Hs Happ. change (NewTopicPartition "orders" 0) with ex_part in *. rewrite Happ in Henc. cbn in Henc.
    rewrite (Hc i s Hs). intros [(chunk & Hsub%elem_of_sublists & _ & He)|[Hlong _]]; [|by vm_compute in Hlong].
    rewrite forallb_forall in Henc. specialize (Henc chunk). rewrite He in Henc. apply list_elem_of_In in Hsub. by specialize (Henc Hsub).
Qed.

Lemma ex_reassign_runs r m i :
  all_compress r = true -> 0 <= i ->
  forallb (fun x => is_ok (encodeSegmentFrameWithCompression x ex_zstd_compression)) (recordsOf m ex_part) = true ->
  can_run r m (QReassign "orders" 0 i).
Proof.
  intros Hc Hi Henc. apply bool_decide_eq_true in Hc. cbn [can_run]. split_and!; [done|done|].
  intros j s Hs. rewrite (Hc j s Hs). change (NewTopicPartition "orders" 0) with ex_part. rewrite forallb_forall in Henc.
  apply Forall_forall. intros x Hx. apply Henc. by apply list_elem_of_In.
Qed.

Lemma sharded_answers_as_one_witness :
  run_queue execSharded ex_two ex_queue_ops = run_queue (execQueue 2) NewMemoryStore ex_queue_ops /\
  run_queue execSharded ex_two ex_queue_ops !! 8%nat = Some (QPlacement (Err (StoreError CodeInvalidArgument))).
Proof.
  split; [|by vm_compute].
  apply (sharded_answers_as_one (fun _ => "dir"%string) (fun _ => "log"%string) 2 ""); [done|by vm_compute|].
  unfold ex_queue_ops. cbn [all_can_run].
  split; [split; [exact ex_topic_storable|done]|].
  split; [apply ex_publish_runs; by vm_compute|].
  split; [apply ex_reassign_runs; by vm_compute|].
  split; [apply ex_publish_runs; by vm_compute|].
  split; [split; by vm_compute|]. split; [done|].
  split; [apply ex_reassign_runs; by vm_compute|].
  split; [split; by vm_compute|].
  split; [apply ex_reassign_runs; by vm_compute|].
  done.
Defined.

(** *** What the snapshot of the runtime loses

    Every shard knows every partition, with next offset 0 when it lives
    elsewhere, and the snapshots of the shards are merged one over the other.
    The next offset of a partition is lost when the shard that comes last is
    not its own: after a restore it has four records and next offset 0, so
    that the next record gets the offset of the first one. *)
Definition ex_moved : shardedMessageRuntime := foldl (fun r op => (execSharded r op).1) ex_two (take 4 ex_queue_ops).

Definition ex_restored : shardedMessageRuntime :=
  match ShardedRuntime.brokerSnapshot ex_moved with Ok snapshot => (ShardedRuntime.brokerRestore ex_two snapshot).1 | Err _ => ex_two end.

Lemma sharded_snapshot_loses_next_offset :
  let offsets r := result_fmap (E := BrokerError) _ _ (fun o => (pos_RetainedRecords o, pos_NextOffset o)) (ShardedRuntime.PartitionOffsets r ex_part).2 in
  offsets ex_moved = Ok (4, 4) /\ offsets ex_restored = Ok (4, 0) /\
  result_fmap (E := BrokerError) _ _ (fmap (M := list) r_Offset)
    (ShardedRuntime.PublishBatchRecords (fun _ => 9) ex_restored "orders" 0 (take 1 ex_batch)).2 = Ok [0].
Proof. by vm_compute. Qed.

End Example.
