(* ===== verification/Sinks.v ===== *)
(** * Sinks and the database outbox

    [src/broker/sink_runner.go], [file_sink.go], [http_sink_client.go] and
    [database_outbox.go] with [database_outbox_sql.go]: a sink is a consumer of
    one partition inside the broker that hands committed records to a target
    (a file, a web hook, an object store) and commits behind each record; the
    outbox publishes the rows of a table and marks them.

    The target is a state of its own, [World], which only the operations given
    as arguments change: [deliver] hands a record over, [markDelivered] marks a
    row.  They fail as they like.  Go returns the result so far together with
    an error, so the functions answer with a pair.  The checks of the
    validation library are the class [Validator]. *)

From stdpp Require Import prelude gmap strings list.
From S2P Require Import Prelude Model MemoryStore MetaStore Queue Idempotency Headers Produce GoStrings Governance Handlers DeadLetters Acks Transactions Groups Service.

#[local] Open Scope Z_scope.

(** The rules [required] and [gte=0] of the validation library. *)
Class Validator := { required : string -> bool; gte0 : Z -> bool }.

Definition validRequiredString `{Validator} (value : string) : bool := required (TrimSpace value).
Definition validNonNegativeInt `{Validator} (value : Z) : bool := gte0 value.

Record recordSinkRun := mkRecordSinkRun {
  rs_Identity : Identity;
  rs_Consumer : string;
  rs_Topic : string;
  rs_Partition : Z;
  rs_MaxRecords : Z;
  rs_Metadata : string
}.

(** Also [FileSinkResult]. *)
Record SinkResult := mkSinkResult { sr_Delivered : Z; sr_CommittedNextOffset : option Z }.

Record FileSinkConfig := mkFileSinkConfig {
  fs_Name : string;
  fs_Tenant : string;
  fs_Namespace : string;
  fs_Principal : string;
  fs_Topic : string;
  fs_Partition : Z;
  fs_Consumer : string;
  fs_Path : string;
  fs_IntervalSecs : Z;
  fs_MaxRecords : Z
}.

Record DatabaseOutboxConfig := mkDatabaseOutboxConfig {
  do_Name : string;
  do_Tenant : string;
  do_Namespace : string;
  do_Principal : string;
  do_Topic : string;
  do_DriverName : string;
  do_DSN : string;
  do_Query : string;
  do_MarkDeliveredSQL : string;
  do_IntervalSecs : Z;
  do_MaxRecords : Z;
  do_Headers : list (string * string)
}.

Record DatabaseOutboxRow := mkDatabaseOutboxRow {
  row_ID : string;
  row_Topic : string;
  row_Partition : option Z;
  row_Key : bytes;
  row_RoutingKey : string;
  row_Payload : bytes;
  row_Headers : list RecordHeader
}.

Record DatabaseOutboxResult := mkDatabaseOutboxResult { dor_Published : Z; dor_Marked : Z }.

(** A row as the database gives it; [None] is [NULL]. *)
Record databaseOutboxSQLRow := mkDatabaseOutboxSQLRow {
  sql_ID : option string;
  sql_Topic : option string;
  sql_Partition : option Z;
  sql_Key : bytes;
  sql_RoutingKey : option string;
  sql_Payload : bytes
}.

Section Sinks.
Context `{MapRange} `{Hash64} `{Validator} (cfg : GovernanceConfig).
Context {World : Type}.

(** ** The runner of a sink *)

(** The loop over the records of a poll; [times i] are the times the commit
    of the [i]-th record reads. *)
Fixpoint deliverRecords (deliver : World -> Rec -> World * result BrokerError unit) (times : nat -> Z * Z) (run : recordSinkRun)
    (out : SinkResult) (records : list Rec) (b : Broker) (w : World) : Broker * World * (SinkResult * option BrokerError) :=
  match records with
  | [] => (b, w, (out, None))
  | record :: records =>
      match deliver w record with
      | (w, Err e) => (b, w, (out, Some e))
      | (w, Ok _) =>
          let nextOffset := u64 (r_Offset record + 1) in
          match CommitOffsetWithMetadata cfg (times 0%nat).1 (times 0%nat).2 (rs_Identity run) (rs_Consumer run) (rs_Topic run)
                  (rs_Partition run) nextOffset (rs_Metadata run) b with
          | (b, Err e) => (b, w, (out, Some e))
          | (b, Ok _) =>
              deliverRecords deliver (fun i => times (S i)) run (mkSinkResult (sr_Delivered out + 1) (Some nextOffset)) records b w
          end
      end
  end.

Definition processRecordSinkOnce (deliver : World -> Rec -> World * result BrokerError unit) (allowN : string -> Z -> bool)
    (times : nat -> Z * Z) (run : recordSinkRun) (b : Broker) (w : World) : Broker * World * (SinkResult * option BrokerError) :=
  match FetchWithIsolation cfg allowN (rs_Identity run) (rs_Consumer run) (rs_Topic run) (rs_Partition run) None (rs_MaxRecords run)
          FetchIsolationReadCommitted b with
  | (b, Err e) => (b, w, (mkSinkResult 0 None, Some e))
  | (b, Ok poll) => deliverRecords deliver times run (mkSinkResult 0 None) (pr_Records poll) b w
  end.

(** A request counts as delivered when it was answered with a status of
    success. *)
Definition deliverHTTPSink {Request} (Execute : World -> Request -> World * result BrokerError Z) (w : World) (delivery : Request)
    : World * result BrokerError unit :=
  match Execute w delivery with
  | (w, Err e) => (w, Err e)
  | (w, Ok status) => (w, if (status <? 200) || (300 <=? status) then Err (StoreError CodeUnavailable) else Ok tt)
  end.

(** ** The file sink *)

Definition fileSinkDefaultRecords : Z := 100.
Definition fileSinkDefaultConsumer : string := "__file_sink".
Definition fileSinkPrincipal : string := "file-sink".

Definition fileSinkIdentity (sink : FileSinkConfig) : Identity :=
  mkIdentity (valueOr (fs_Principal sink) fileSinkPrincipal) (valueOr (fs_Tenant sink) (gc_DefaultTenant cfg))
    (valueOr (fs_Namespace sink) (gc_DefaultNamespace cfg)) "" "".

Definition fileSinkName (sink : FileSinkConfig) : string :=
  if decide (TrimSpace (fs_Name sink) <> "") then TrimSpace (fs_Name sink)
  else (fs_Topic sink +:+ "." +:+ fmt_d (fs_Partition sink))%string.

Definition fileSinkConsumer (sink : FileSinkConfig) : string :=
  if decide (TrimSpace (fs_Consumer sink) <> "") then TrimSpace (fs_Consumer sink)
  else (fileSinkDefaultConsumer +:+ "." +:+ fileSinkName sink)%string.

Definition fileSinkPath (sink : FileSinkConfig) : string := TrimSpace (fs_Path sink).

Definition fileSinkMaxRecords (sink : FileSinkConfig) : Z :=
  if fs_MaxRecords sink =? 0 then fileSinkDefaultRecords else fs_MaxRecords sink.

Definition validateFileSinkConfig (sink : FileSinkConfig) : result BrokerError unit :=
  if negb (validRequiredString (fs_Topic sink)) || negb (validRequiredString (fileSinkPath sink)) then Err (StoreError CodeInvalidArgument)
  else if negb (validNonNegativeInt (fs_MaxRecords sink)) then Err (StoreError CodeInvalidArgument)
  else Ok tt.

(** A line is written and synced before the record is committed. *)
Definition writeFileSinkRecords (encode : World -> Rec -> World * result BrokerError unit)
    (sync : World -> World * result BrokerError unit) (times : nat -> Z * Z) (sink : FileSinkConfig) (consumer : string)
    (records : list Rec) (b : Broker) (w : World) : Broker * World * (SinkResult * option BrokerError) :=
  deliverRecords (fun w record => match encode w record with (w, Err e) => (w, Err e) | (w, Ok _) => sync w end) times
    (mkRecordSinkRun (fileSinkIdentity sink) consumer (fs_Topic sink) (fs_Partition sink) 0 ("file:" +:+ fileSinkName sink)%string)
    (mkSinkResult 0 None) records b w.

Definition ProcessFileSinkOnce (openFileSinkAppend : World -> string -> World * result BrokerError unit)
    (encode : World -> Rec -> World * result BrokerError unit) (sync close : World -> World * result BrokerError unit)
    (allowN : string -> Z -> bool) (times : nat -> Z * Z) (sink : FileSinkConfig) (b : Broker) (w : World)
    : Broker * World * (SinkResult * option BrokerError) :=
  let none := mkSinkResult 0 None in
  match validateFileSinkConfig sink with
  | Err e => (b, w, (none, Some e))
  | Ok _ =>
      let consumer := fileSinkConsumer sink in
      match FetchWithIsolation cfg allowN (fileSinkIdentity sink) consumer (fs_Topic sink) (fs_Partition sink) None (fileSinkMaxRecords sink)
              FetchIsolationReadCommitted b with
      | (b, Err e) => (b, w, (none, Some e))
      | (b, Ok poll) =>
          match pr_Records poll with
          | [] => (b, w, (none, None))
          | records =>
              match openFileSinkAppend w (fileSinkPath sink) with
              | (w, Err e) => (b, w, (none, Some e))
              | (w, Ok _) =>
                  let '(b, w, (out, writeErr)) := writeFileSinkRecords encode sync times sink consumer records b w in
                  let '(w, closed) := close w in
                  (b, w, (out, match writeErr with Some e => Some e | None => match closed with Err e => Some e | Ok _ => None end end))
              end
          end
      end
  end.

(** ** The database outbox *)

Definition databaseOutboxDefaultRecords : Z := 100.
Definition databaseOutboxPrincipal : string := "database-outbox".

Definition databaseOutboxIdentity (outbox : DatabaseOutboxConfig) : Identity :=
  mkIdentity (valueOr (do_Principal outbox) databaseOutboxPrincipal) (valueOr (do_Tenant outbox) (gc_DefaultTenant cfg))
    (valueOr (do_Namespace outbox) (gc_DefaultNamespace cfg)) "" "".

Definition databaseOutboxName (outbox : DatabaseOutboxConfig) : string :=
  if decide (TrimSpace (do_Name outbox) <> "") then TrimSpace (do_Name outbox) else valueOr (TrimSpace (do_Topic outbox)) "outbox".

Definition databaseOutboxMaxRecords (outbox : DatabaseOutboxConfig) : Z :=
  if do_MaxRecords outbox =? 0 then databaseOutboxDefaultRecords else do_MaxRecords outbox.

Definition validateDatabaseOutboxConfig (outbox : DatabaseOutboxConfig) (requireSQL : bool) : result BrokerError unit :=
  if requireSQL && (negb (validRequiredString (do_DriverName outbox)) || negb (validRequiredString (do_Query outbox)))
  then Err (StoreError CodeInvalidArgument)
  else if negb (validRequiredString (do_Topic outbox)) && negb (validRequiredString (do_Query outbox)) then Err (StoreError CodeInvalidArgument)
  else if negb (validNonNegativeInt (do_MaxRecords outbox)) then Err (StoreError CodeInvalidArgument)
  else Ok tt.

Definition databaseOutboxHeaders (outbox : DatabaseOutboxConfig) (row : DatabaseOutboxRow) : list RecordHeader :=
  ((fun h => mkRecordHeader h.1 (String.list_byte_of_string h.2)) <$> filter (fun h => TrimSpace h.1 <> "") (do_Headers outbox))
  ++ row_Headers row.

Definition databaseOutboxPartitioning (row : DatabaseOutboxRow) : PublishPartitioning :=
  match row_Partition row with
  | Some partition => mkPublishPartitioning PartitionExplicit partition ""
  | None =>
      if decide (TrimSpace (row_RoutingKey row) <> "") then mkPublishPartitioning PartitionRoutingKeyHash 0 (row_RoutingKey row)
      else if 0 <? len (row_Key row) then mkPublishPartitioning PartitionKeyHash 0 ""
      else mkPublishPartitioning PartitionRoundRobin 0 ""
  end.

Definition publishDatabaseOutboxRow (allowN : string -> Z -> bool) (clock : nat -> Z) (nowMS : Z) (outbox : DatabaseOutboxConfig)
    (row : DatabaseOutboxRow) : BM unit :=
  let topic := valueOr (TrimSpace (row_Topic row)) (TrimSpace (do_Topic outbox)) in
  if decide (topic = "") then fail (StoreError CodeInvalidArgument)
  else
    _ ← PublishRecord cfg allowN clock nowMS (databaseOutboxIdentity outbox) topic (databaseOutboxPartitioning row)
          (mkRecordAppend None (row_Key row) (databaseOutboxHeaders outbox row) 0 None None (row_Payload row));
    mret tt.

(** The loop of [ProcessDatabaseOutboxRows]; [clock i] and [nowMS i] are the
    times of the [i]-th publication. *)
Fixpoint publishRows (markDelivered : option (World -> string -> World * result BrokerError unit)) (allowN : string -> Z -> bool)
    (clock : nat -> nat -> Z) (nowMS : nat -> Z) (outbox : DatabaseOutboxConfig) (out : DatabaseOutboxResult)
    (rows : list DatabaseOutboxRow) (b : Broker) (w : World) : Broker * World * (DatabaseOutboxResult * option BrokerError) :=
  match rows with
  | [] => (b, w, (out, None))
  | row :: rows =>
      match publishDatabaseOutboxRow allowN (clock 0%nat) (nowMS 0%nat) outbox row b with
      | (b, Err e) => (b, w, (out, Some e))
      | (b, Ok _) =>
          let out := mkDatabaseOutboxResult (dor_Published out + 1) (dor_Marked out) in
          let continue out w := publishRows markDelivered allowN (fun i => clock (S i)) (fun i => nowMS (S i)) outbox out rows b w in
          match markDelivered with
          | Some mark =>
              if decide (TrimSpace (row_ID row) <> "") then
                match mark w (row_ID row) with
                | (w, Err e) => (b, w, (out, Some e))
                | (w, Ok _) => continue (mkDatabaseOutboxResult (dor_Published out) (dor_Marked out + 1)) w
                end
              else continue out w
          | None => continue out w
          end
      end
  end.

Definition ProcessDatabaseOutboxRows (markDelivered : option (World -> string -> World * result BrokerError unit))
    (allowN : string -> Z -> bool) (clock : nat -> nat -> Z) (nowMS : nat -> Z) (outbox : DatabaseOutboxConfig)
    (rows : list DatabaseOutboxRow) (b : Broker) (w : World) : Broker * World * (DatabaseOutboxResult * option BrokerError) :=
  match validateDatabaseOutboxConfig outbox false with
  | Err e => (b, w, (mkDatabaseOutboxResult 0 0, Some e))
  | Ok _ => publishRows markDelivered allowN clock nowMS outbox (mkDatabaseOutboxResult 0 0) rows b w
  end.

(** [ParseUint] with 32 bits of a number that is not negative. *)
Definition toOutboxRow (r : databaseOutboxSQLRow) : DatabaseOutboxRow :=
  mkDatabaseOutboxRow (default "" (sql_ID r)) (default "" (sql_Topic r))
    (match sql_Partition r with
     | Some partition => if (0 <=? partition) && (partition <? 2 ^ 32) then Some partition else None
     | None => None
     end) (sql_Key r) (default "" (sql_RoutingKey r)) (sql_Payload r) [].

(** The rows of a query, each with what [Scan] gives; a row beyond the limit
    is stepped on but not read. *)
Fixpoint readSQLDatabaseOutboxRows (maxRecords : Z) (rowsErr : option BrokerError) (out : list DatabaseOutboxRow)
    (rows : list (result BrokerError databaseOutboxSQLRow)) : result BrokerError (list DatabaseOutboxRow) :=
  match rows with
  | [] => match rowsErr with Some e => Err e | None => Ok out end
  | row :: rows =>
      if len out <? maxRecords then
        row ← row;
        readSQLDatabaseOutboxRows maxRecords rowsErr (out ++ [toOutboxRow row]) rows
      else match rowsErr with Some e => Err e | None => Ok out end
  end.

Definition MarkDelivered (ExecContext : World -> string -> string -> World * result BrokerError unit) (outbox : DatabaseOutboxConfig)
    (w : World) (id : string) : World * result BrokerError unit :=
  if decide (TrimSpace (do_MarkDeliveredSQL outbox) = "") then (w, Ok tt)
  else if decide (TrimSpace id = "") then (w, Err (StoreError CodeInvalidArgument))
  else ExecContext w (do_MarkDeliveredSQL outbox) id.

(** [query] is what the database answers: the rows, an error among them and
    one of closing them. *)
Definition FetchOutbox
    (query : World -> result BrokerError (list (result BrokerError databaseOutboxSQLRow) * option BrokerError * option BrokerError))
    (w : World) (maxRecords : Z) : result BrokerError (list DatabaseOutboxRow) :=
  '(rows, rowsErr, closeErr) ← query w;
  out ← readSQLDatabaseOutboxRows maxRecords rowsErr [] rows;
  match closeErr with Some e => Err e | None => Ok out end.

Definition ProcessDatabaseOutboxOnce (openErr : option BrokerError)
    (query : World -> result BrokerError (list (result BrokerError databaseOutboxSQLRow) * option BrokerError * option BrokerError))
    (ExecContext : World -> string -> string -> World * result BrokerError unit) (closeErr : option BrokerError)
    (allowN : string -> Z -> bool) (clock : nat -> nat -> Z) (nowMS : nat -> Z) (outbox : DatabaseOutboxConfig)
    (b : Broker) (w : World) : Broker * World * (DatabaseOutboxResult * option BrokerError) :=
  let none := mkDatabaseOutboxResult 0 0 in
  match validateDatabaseOutboxConfig outbox true, openErr with
  | Err e, _ | Ok _, Some e => (b, w, (none, Some e))
  | Ok _, None =>
      match FetchOutbox query w (databaseOutboxMaxRecords outbox) with
      | Err e => (b, w, (none, Some e))
      | Ok rows =>
          let '(b, w, (out, processErr)) :=
            ProcessDatabaseOutboxRows (Some (MarkDelivered ExecContext outbox)) allowN clock nowMS outbox rows b w in
          (b, w, (out, match processErr with Some e => Some e | None => closeErr end))
      end
  end.

End Sinks.
