(* ===== verification/SinksSpec.v ===== *)
(** * Sinks deliver at least once and in order

    A sink commits behind a record only after its target took the record, so
    whatever fails in between - a delivery, a commit, a pass that never comes
    to its end - no committed record of the partition is skipped: everything
    visible below the committed offset has been received.  A pass without an
    error delivers the next records in the order of the log.  The topic has no
    priorities: with them the records of a poll are not in the order of the
    log, and a sink loses records ([priority_sink_loses_record]).  The outbox
    marks only rows that it published. *)

From stdpp Require Import prelude gmap strings sorting list relations.
From S2P Require Import Prelude Model MemoryStore Cleanup LogSpec CleanupSpec MetaStore MetaSpec Queue QueueSpec Idempotency IdempotencySpec Headers Produce ProduceSpec GoStrings Governance Handlers DeadLetters Acks Transactions TransactionSpec Groups Service Sinks.

#[local] Open Scope Z_scope.

Section Sink.
Context `{MapRange} `{Hash64} (cfg : GovernanceConfig) (run : recordSinkRun).
Context {World : Type} (deliver : World -> Rec -> World * result BrokerError unit).

(** What the target has received, in order.  A delivery that is reported as
    successful was received; one that failed may have been. *)
Context (received : World -> list Rec).
Hypothesis delivered_received : forall w r w', deliver w r = (w', Ok tt) -> received w' = received w ++ [r].
Hypothesis failed_received : forall w r w' e, deliver w r = (w', Err e) -> received w' = received w \/ received w' = received w ++ [r].

(** The consumer and the partition of the sink, under their stored names. *)
Definition sinkConsumer : string := scopedName (identity_of cfg (rs_Identity run)) "consumer" (rs_Consumer run).
Definition sinkPartition : TopicPartition :=
  NewTopicPartition (scopedTopicName (identity_of cfg (rs_Identity run)) (rs_Topic run)) (rs_Partition run).

#[local] Abbreviation tp := sinkPartition.
#[local] Abbreviation logOf s := (recordsOf s tp).
#[local] Abbreviation fromOf s c := (filter (fun r => c <= r_Offset r) (recordsOf s tp)).
#[local] Abbreviation visibleOf s l := (filter (fun r => visibilityOf s r = transactionRecordVisible) l).

Definition committedOffset (s : MemoryStore) : Z :=
  match LoadConsumerOffset s sinkConsumer tp with Ok (Some offset) => offset | _ => 0 end.

(** Everything visible below the offset was received, and nothing below it is
    undecided. *)
Definition settled (s : MemoryStore) (w : World) (offset : Z) : Prop :=
  forall r, r ∈ logOf s -> r_Offset r < offset ->
    visibilityOf s r <> transactionRecordOpen /\ (visibilityOf s r = transactionRecordVisible -> r ∈ received w).

Definition plain_topic (s : MemoryStore) : Prop :=
  exists t, topics s !! tp_Topic tp = Some t /\ tp_Partition tp < tc_Partitions t /\
    tpp_Enabled (NormalizeTopicPriorityPolicy (tc_PriorityPolicy t)) = false.

Record sink_inv (s : MemoryStore) (w : World) : Prop := {
  si_log : log_inv s;
  si_topic : plain_topic s;
  si_pending : forall st, LoadConsumerOffsetState s sinkConsumer tp = Ok (Some st) -> cos_PendingOffsets st = [];
  si_bound : committedOffset s <= nextOffsetOf s tp;
  si_settled : settled s w (committedOffset s)
}.

(** ** Commits *)

Lemma commit_effect updatedAt now next metadata b b' res :
  CommitOffsetWithMetadata cfg updatedAt now (rs_Identity run) (rs_Consumer run) (rs_Topic run) (rs_Partition run) next metadata b = (b', res) ->
  match res with
  | Err _ => b' = b
  | Ok _ =>
      topics (b_store b') = topics (b_store b) /\ topicNames (b_store b') = topicNames (b_store b) /\
      records (b_store b') = records (b_store b) /\ nextOffsets (b_store b') = nextOffsets (b_store b) /\
      transactions (b_store b') = transactions (b_store b) /\
      committedOffset (b_store b') = next /\
      forall st, LoadConsumerOffsetState (b_store b') sinkConsumer tp = Ok (Some st) -> cos_PendingOffsets st = []
  end.
Proof.
  unfold CommitOffsetWithMetadata, authorizes, reads. cbv [mbind BM_bind].
  destruct (authorize _ _ _ _) as [u|e]; [|by intros [<- <-]%pair_equal_spec]. unfold routeCommitOffset, calls, applyCommitOffset.
  cbn [coc_AckOffset SaveConsumerOffsetState_of MemoryStore_OffsetStore coc_Consumer coc_Topic coc_Partition coc_NextOffset coc_Metadata coc_UpdatedAtMS].
  unfold SaveConsumerOffsetState. cbn [NormalizeConsumerOffsetState cos_PendingOffsets].
  destruct (validateConsumerOffsetState _) as [u'|e]; intros [<- <-]%pair_equal_spec; [|by destruct b].
  split_and!; try reflexivity.
  - unfold committedOffset, LoadConsumerOffset. cbn. by rewrite lookup_insert_eq.
  - intros st. unfold LoadConsumerOffsetState. cbn. rewrite lookup_insert_eq. by intros [= <-].
Qed.

(** What a commit leaves alone is all that the log and its visibility need. *)
Lemma commit_keeps s s' :
  topics s' = topics s -> topicNames s' = topicNames s -> records s' = records s -> nextOffsets s' = nextOffsets s ->
  transactions s' = transactions s ->
  (log_inv s -> log_inv s') /\ (plain_topic s -> plain_topic s') /\ recordsOf s' tp = recordsOf s tp /\
  nextOffsetOf s' tp = nextOffsetOf s tp /\ forall r, visibilityOf s' r = visibilityOf s r.
Proof.
  intros Ht Hn Hr Hx Htx. unfold plain_topic, nextOffsetOf, recordsOf. rewrite Ht, Hr, Hx. split_and!; try done.
  - intros []. split; rewrite ?Ht, ?Hn, ?Hr, ?Hx; done.
  - intros r. unfold visibilityOf, LoadTransaction. by rewrite Htx.
Qed.

(** ** The loop over the records of a poll *)

Lemma filter_split {A} (P : A -> Prop) `{!forall x, Decision (P x)} l x k :
  filter P l = x :: k -> exists l1 l2, l = l1 ++ x :: l2 /\ Forall (fun y => ~ P y) l1 /\ P x /\ filter P l2 = k.
Proof.
  induction l as [|y l IH]; [done|]. rewrite filter_cons. case_decide as Hy.
  - intros [= -> <-]. exists [], l. by split_and!; [|constructor|..].
  - intros (l1 & l2 & -> & Hno & Hx & Hk)%IH. exists (y :: l1), l2. by split_and!; [|constructor|..].
Qed.

Lemma settled_received s w w' c : settled s w c -> received w ⊆ received w' -> settled s w' c.
Proof. intros Hs Hsub r Hr Hlt. destruct (Hs r Hr Hlt) as [Hd Hv]. split; [done|]. intros Hvis. by apply Hsub, Hv. Qed.

(** Behind a record of the prefix everything is settled once it was received. *)
Lemma settled_record s w c l1 r l2 rest :
  log_inv s -> settled s w c -> fromOf s c = (l1 ++ r :: l2) ++ rest -> Forall (fun x => visibilityOf s x <> transactionRecordOpen) (l1 ++ r :: l2) ->
  Forall (fun x => visibilityOf s x <> transactionRecordVisible) l1 -> r ∈ received w ->
  settled s w (r_Offset r + 1).
Proof.
  intros Hinv Hs Hfrom Hd Hhid Hrec x Hx Hlt. destruct (decide (r_Offset x < c)) as [Hc|Hc]; [by apply Hs|].
  assert (x ∈ fromOf s c) as Hxc by (apply list_elem_of_filter; split; [lia|done]).
  pose proof (log_ok_rec_lt _ _ (log_ok_filter _ _ (fun r => c <= r_Offset r) (log_inv_recordsOf s tp Hinv))) as Hsort.
  rewrite Hfrom in Hxc, Hsort. rewrite <- app_assoc in Hxc, Hsort. cbn [app] in Hxc, Hsort.
  rewrite Forall_app in Hd. destruct Hd as [Hd1 Hd2]. rewrite Forall_forall in Hd1, Hhid. inversion Hd2 as [|? ? Hdr Hd2']; subst.
  apply elem_of_app in Hxc as [Hx1|Hx2].
  - split; [by apply Hd1|]. intros Hv. by destruct (Hhid x Hx1).
  - apply elem_of_cons in Hx2 as [->|Hx2]; [by split|]. exfalso.
    apply StronglySorted_app in Hsort as (_ & _ & Hs2). inversion Hs2 as [|? ? _ Hall]; subst. rewrite Forall_forall in Hall.
    specialize (Hall x Hx2). cbn in Hall. lia.
Qed.

(** The loop keeps the invariant, and without an error it delivers all. *)
Lemma deliverRecords_spec records : forall times out b w c l1 rest,
  sink_inv (b_store b) w -> settled (b_store b) w c ->
  fromOf (b_store b) c = l1 ++ rest -> Forall (fun r => visibilityOf (b_store b) r <> transactionRecordOpen) l1 ->
  records = visibleOf (b_store b) l1 ->
  let '(b', w', (_, err)) := deliverRecords cfg deliver times run out records b w in
  sink_inv (b_store b') w' /\ received w `prefix_of` received w' /\ (err = None -> received w' = received w ++ records).
Proof.
  induction records as [|r records IH]; intros times out b w c l1 rest Hinv Hset Hfrom Hd Hrecs; cbn [deliverRecords].
  { split_and!; [done|done|by rewrite app_nil_r]. }
  symmetry in Hrecs. apply filter_split in Hrecs as (hid & l2 & -> & Hhid & Hvis & Hrest).
  assert (forall w', received w `prefix_of` received w' -> sink_inv (b_store b) w') as Hmore.
  { intros w' [k Hk]. destruct Hinv. split; try done. eapply settled_received; [done|]. rewrite Hk. set_solver. }
  destruct (deliver w r) as [w1 [[]|e]] eqn:Hdel.
  2: { assert (received w `prefix_of` received w1) as Hpre by (destruct (failed_received w r w1 e Hdel) as [->| ->]; [done|by eexists]).
       by split_and!; [apply Hmore| |]. }
  pose proof (delivered_received w r w1 Hdel) as Hrec1.
  assert (received w `prefix_of` received w1) as Hpre by (by eexists).
  destruct (CommitOffsetWithMetadata _ _ _ _ _ _ _ _ _ b) as [b1 [u|e]] eqn:Hcom; apply commit_effect in Hcom.
  2: { subst b1. by split_and!; [apply Hmore| |]. }
  destruct Hcom as (Ht & Hn & Hr & Hx & Htx & Hc1 & Hp1).
  destruct (commit_keeps _ _ Ht Hn Hr Hx Htx) as (Kinv & Ktop & Krec & Knext & Kvis).
  pose proof (si_log _ _ Hinv) as Hlog.
  assert (r ∈ logOf (b_store b)) as Hin.
  { assert (r ∈ fromOf (b_store b) c) as [_ ?]%list_elem_of_filter by (rewrite Hfrom; set_solver). done. }
  assert (0 <= r_Offset r < nextOffsetOf (b_store b) tp) as Hb.
  { destruct (log_inv_recordsOf _ tp Hlog) as [_ Hb]. unfold recordOffsets in Hb. rewrite Forall_fmap, Forall_forall in Hb. by apply Hb. }
  pose proof (log_inv_next_u64 _ tp Hlog) as Hu. unfold is_u64 in Hu.
  rewrite (u64_small (r_Offset r + 1)) in * by (unfold is_u64; lia).
  assert (settled (b_store b) w1 (r_Offset r + 1)) as Hset1.
  { eapply settled_record; try done; [eapply settled_received; [done|]; rewrite Hrec1; set_solver|rewrite Hrec1; set_solver]. }
  assert (settled (b_store b1) w1 (r_Offset r + 1)) as Hset1'.
  { intros x Hx1 Hlt. rewrite Krec in Hx1. rewrite Kvis. by apply Hset1. }
  assert (plain_topic (b_store b)) as Hpt by apply (si_topic _ _ Hinv).
  assert (validatePartitionLocked (b_store b) tp = Ok tt) as Hvalid.
  { destruct Hpt as (t & Et & Hlt & _). by eapply validatePartition_eq. }
  destruct (from_snoc (b_store b) tp Hlog Hvalid c hid r (l2 ++ rest)) as [Hf _]; [by rewrite Hfrom, <- app_assoc|].
  rewrite Forall_app in Hd. destruct Hd as [_ Hd2]. inversion Hd2 as [|? ? _ Hd2']; subst.
  specialize (IH (fun i => times (S i)) (mkSinkResult (sr_Delivered out + 1) (Some (r_Offset r + 1))) b1 w1 (r_Offset r + 1) l2 rest).
  destruct (deliverRecords _ _ _ _ _ _ b1 w1) as [[b2 w2] [out2 err]]. destruct IH as (Hinv2 & Hpre2 & Hall); [|done| | | |].
  - split; [by apply Kinv|by apply Ktop|done|rewrite Hc1, Knext; lia|by rewrite Hc1].
  - by rewrite Krec.
  - eapply Forall_impl; [exact Hd2'|]. intros x. cbn. by rewrite Kvis.
  - apply list_filter_iff. intros x. by rewrite Kvis.
  - split_and!; [done|by etrans|]. intros He. by rewrite (Hall He), Hrec1, <- app_assoc.
Qed.

(** ** A pass *)

(** Where a pass starts to read. *)
Definition sinkStart (s : MemoryStore) : Z := Z.max (committedOffset s) (logStart s tp).

Lemma settled_start s w : sink_inv s w -> settled s w (sinkStart s).
Proof.
  intros Hinv r Hr Hlt. apply (si_settled s w Hinv r Hr). unfold sinkStart, logStart in Hlt.
  destruct (log_inv_recordsOf s tp (si_log s w Hinv)) as [Hs _]. unfold recordOffsets in *.
  destruct (recordsOf s tp) as [|r0 rs]; [by apply elem_of_nil in Hr|]. cbn [fmap list_fmap] in *.
  inversion Hs as [|? ? _ Hall]; subst. apply elem_of_cons in Hr as [->|Hr]; [lia|].
  rewrite Forall_fmap, Forall_forall in Hall. specialize (Hall r Hr). cbv [compose] in Hall. lia.
Qed.

Lemma fetchStart s w : sink_inv s w -> fetchStartOffset s sinkConsumer (tp_Topic tp) (tp_Partition tp) None = Ok (sinkStart s).
Proof.
  intros Hinv. destruct (si_topic s w Hinv) as (t & Et & Hlt & _).
  assert (validatePartitionLocked s tp = Ok tt) as Hvalid by (by eapply validatePartition_eq).
  unfold fetchStartOffset. change (NewTopicPartition (tp_Topic tp) (tp_Partition tp)) with tp.
  rewrite (PartitionOffsets_ok s tp (si_log s w Hinv) Hvalid). cbn [of_store mbind result_bind].
  change (pos_LogStartOffset _) with (logStart s tp). unfold sinkStart, committedOffset.
  destruct (LoadConsumerOffset s sinkConsumer tp) as [[c|]|e] eqn:E; cbn [of_store mbind result_bind]; [done| |].
  - f_equal. assert (0 <= logStart s tp); [|lia]. unfold logStart.
    destruct (log_inv_recordsOf s tp (si_log s w Hinv)) as [_ Hb]. pose proof (log_inv_next_u64 s tp (si_log s w Hinv)) as [? _].
    destruct (recordOffsets (recordsOf s tp)); [done|]. inversion Hb; subst. lia.
  - unfold LoadConsumerOffset in E. by destruct (offsetStates s !! _).
Qed.

Lemma prepared s w b records :
  sink_inv s w -> b_store b = s -> prepareFetchedRecords b sinkConsumer (tp_Topic tp) (tp_Partition tp) records = Ok records.
Proof.
  intros Hinv Hb. unfold prepareFetchedRecords, removePendingAckedRecords. rewrite Hb.
  change (NewTopicPartition (tp_Topic tp) (tp_Partition tp)) with tp.
  destruct records as [|r records]; [done|]. cbn [LoadConsumerOffsetState_of MemoryStore_OffsetStore].
  destruct (LoadConsumerOffsetState s sinkConsumer tp) as [[st|]|e] eqn:E; cbn [mbind result_bind].
  3: { unfold LoadConsumerOffsetState in E. destruct (offsetStates s !! _); [done|]. by destruct (offsets s !! _). }
  1: rewrite (si_pending s w Hinv st E).
  all: cbn [of_store mbind result_bind]; unfold orderRecordsByPriority; destruct (_ <? 2); [done|];
    destruct (si_topic s w Hinv) as (t & Et & _ & Hpr); unfold loadTopicConfig, topicConfig, loadTopicConfigDirect, LoadTopicConfig;
    rewrite Hb, Et; cbn [of_store mbind result_bind]; by rewrite Hpr.
Qed.

(** The records of a poll: the visible ones of a decided prefix of what is
    left, or none while the consumer is paused. *)
Lemma fetch_spec allowN b w b' res :
  sink_inv (b_store b) w ->
  FetchWithIsolation cfg allowN (rs_Identity run) (rs_Consumer run) (rs_Topic run) (rs_Partition run) None (rs_MaxRecords run)
    FetchIsolationReadCommitted b = (b', res) ->
  b' = b /\
  match res with
  | Err _ => True
  | Ok poll =>
      (isConsumerPaused (b_store b) sinkConsumer (tp_Topic tp) (tp_Partition tp) = Ok true /\ pr_Records poll = []) \/
      exists cursor l1,
        fromOf (b_store b) (sinkStart (b_store b)) = l1 ++ fromOf (b_store b) cursor /\
        Forall (fun r => visibilityOf (b_store b) r <> transactionRecordOpen) l1 /\
        pr_Records poll = visibleOf (b_store b) l1 /\
        (len (pr_Records poll) < clampMaxRecords b (rs_MaxRecords run) -> fromOf (b_store b) cursor = [] \/
           exists r rest, fromOf (b_store b) cursor = r :: rest /\ visibilityOf (b_store b) r = transactionRecordOpen)
  end.
Proof.
  intros Hinv. unfold FetchWithIsolation, authorizes, consumeQuota, checkQuota, reads, pure. cbv [mbind BM_bind].
  destruct (authorize _ _ _ _) as [u|e]; [|by intros [<- <-]%pair_equal_spec].
  destruct (CheckQuota _ _ _) as [u'|e]; [|by intros [<- <-]%pair_equal_spec].
  intros [<- <-]%pair_equal_spec. split; [done|]. change (scopedName _ _ _) with sinkConsumer.
  change (scopedTopicName _ _) with (tp_Topic tp). change (rs_Partition run) with (tp_Partition tp).
  unfold fetchWithIsolationScoped. rewrite decide_False by (by intros ?). unfold pausedPollResult.
  rewrite (fetchStart _ w Hinv). destruct (si_topic _ w Hinv) as (t & Et & Hlt & _).
  assert (validatePartitionLocked (b_store b) tp = Ok tt) as Hvalid by (by eapply validatePartition_eq).
  destruct (isConsumerPaused _ _ _ _) as [paused|e]; [|done]. cbn [mbind result_bind].
  destruct paused; cbn [negb mbind result_bind].
  { destruct (PartitionOffsets _ _) as [st|e]; [|done]. cbn [of_store mbind result_bind]. by left. }
  unfold readCommittedRecords. change (NewTopicPartition (tp_Topic tp) (tp_Partition tp)) with tp.
  destruct (readCommittedLoop_spec (b_store b) tp (si_log _ w Hinv) Hvalid (S (length (logOf (b_store b)))) (sinkStart (b_store b))
    (Z.to_nat (clampMaxRecords b (rs_MaxRecords run)))) as (out & cursor & l1 & -> & Hf & Hd & Hout & Hlen & Hend).
  { pose proof (length_filter (fun r => sinkStart (b_store b) <= r_Offset r) (logOf (b_store b))). lia. }
  cbn [mbind result_bind]. rewrite (prepared _ w b _ Hinv eq_refl). cbn [mbind result_bind].
  rewrite (PartitionOffsets_ok _ tp (si_log _ w Hinv) Hvalid). cbn [of_store mbind result_bind pr_Records]. right. exists cursor, l1.
  split_and!; try done. intros Hshort. destruct Hend as [Hend|Hend]; [unfold len in Hshort; lia|done].
Qed.

(** A pass keeps the invariant; without an error it delivers the next visible
    records, as many as asked for or up to the end of the decided log. *)
Lemma pass_spec allowN times b w :
  sink_inv (b_store b) w ->
  let '(b', w', (_, err)) := processRecordSinkOnce cfg deliver allowN times run b w in
  sink_inv (b_store b') w' /\ received w `prefix_of` received w' /\
  (err = None -> isConsumerPaused (b_store b) sinkConsumer (tp_Topic tp) (tp_Partition tp) = Ok true \/
     exists cursor l1,
       fromOf (b_store b) (sinkStart (b_store b)) = l1 ++ fromOf (b_store b) cursor /\
       received w' = received w ++ visibleOf (b_store b) l1 /\
       (len (visibleOf (b_store b) l1) < clampMaxRecords b (rs_MaxRecords run) -> fromOf (b_store b) cursor = [] \/
          exists r rest, fromOf (b_store b) cursor = r :: rest /\ visibilityOf (b_store b) r = transactionRecordOpen)).
Proof.
  intros Hinv. unfold processRecordSinkOnce.
  destruct (FetchWithIsolation _ _ _ _ _ _ _ _ _ b) as [b' [poll|e]] eqn:Hf; apply (fetch_spec _ _ w) in Hf as [-> Hf]; try done.
  destruct Hf as [[Hpaused ->]|(cursor & l1 & Hfrom & Hd & Hrecs & Hend)].
  - cbn [deliverRecords]. split_and!; [done|done|]. by left.
  - pose proof (deliverRecords_spec (pr_Records poll) times (mkSinkResult 0 None) b w (sinkStart (b_store b)) l1
      (fromOf (b_store b) cursor) Hinv (settled_start _ w Hinv) Hfrom Hd Hrecs) as Hl.
    destruct (deliverRecords _ _ _ _ _ _ b w) as [[b2 w2] [out err]]. destruct Hl as (Hinv2 & Hpre & Hall).
    split_and!; [done|done|]. intros He. right. exists cursor, l1. rewrite <- Hrecs. split_and!; [done|by apply Hall|done].
Qed.

(** ** Any run *)

(** What else happens to the broker: the partition grows at its end or loses
    records, decided records stay decided, and nobody commits in the name of
    the sink. *)
Definition undisturbed (s s' : MemoryStore) : Prop :=
  log_inv s' /\ topics s' !! tp_Topic tp = topics s !! tp_Topic tp /\
  LoadConsumerOffset s' sinkConsumer tp = LoadConsumerOffset s sinkConsumer tp /\
  LoadConsumerOffsetState s' sinkConsumer tp = LoadConsumerOffsetState s sinkConsumer tp /\
  nextOffsetOf s tp <= nextOffsetOf s' tp /\
  (forall r, r ∈ logOf s' -> r_Offset r < nextOffsetOf s tp -> r ∈ logOf s) /\
  (forall r, visibilityOf s r <> transactionRecordOpen -> visibilityOf s' r = visibilityOf s r).

Inductive sink_step : Broker * World -> Broker * World -> Prop :=
| sink_pass allowN times b w b' w' out :
    processRecordSinkOnce cfg deliver allowN times run b w = (b', w', out) -> sink_step (b, w) (b', w')
| sink_other b b' w : undisturbed (b_store b) (b_store b') -> sink_step (b, w) (b', w).

Lemma undisturbed_inv s s' w : undisturbed s s' -> sink_inv s w -> sink_inv s' w.
Proof.
  intros (Hlog & Ht & Hc & Hst & Hnext & Hold & Hvis) Hinv.
  assert (committedOffset s' = committedOffset s) as Hcom by (unfold committedOffset; by rewrite Hc).
  pose proof (si_bound s w Hinv) as Hb. split.
  - done.
  - destruct (si_topic s w Hinv) as (t & Et & Hrest). exists t. by rewrite Ht.
  - rewrite Hst. apply (si_pending s w Hinv).
  - rewrite Hcom. lia.
  - rewrite Hcom. intros r Hr Hlt. destruct (si_settled s w Hinv r (Hold r Hr ltac:(lia)) Hlt) as [Hd Hrec].
    rewrite (Hvis r Hd). done.
Qed.

Lemma sink_steps_inv c c' :
  rtc sink_step c c' -> sink_inv (b_store c.1) c.2 -> sink_inv (b_store c'.1) c'.2 /\ received c.2 `prefix_of` received c'.2.
Proof.
  induction 1 as [c|c1 c2 c3 Hstep _ IH]; intros Hinv; [done|].
  assert (sink_inv (b_store c2.1) c2.2 /\ received c1.2 `prefix_of` received c2.2) as [Hinv2 Hpre].
  { destruct Hstep as [allowN times b w b' w' out Hpass|b b' w Hother]; cbn [fst snd] in *.
    - pose proof (pass_spec allowN times b w Hinv) as Hp. rewrite Hpass in Hp. destruct out as [o e]. by destruct Hp as (? & ? & _).
    - split; [by eapply undisturbed_inv|done]. }
  destruct (IH Hinv2) as [Hinv3 Hpre3]. split; [done|by etrans].
Qed.

(** Publishing anywhere is such a step. *)
Lemma publish_undisturbed clock s tp' ars s' res :
  log_inv s -> nextOffsetOf s tp' + len ars <= max_u64 -> AppendRecordsBatch clock s tp' ars = (s', res) -> undisturbed s s'.
Proof.
  intros Hinv Hroom Happ.
  assert (offsets s' = offsets s /\ offsetStates s' = offsetStates s /\ transactions s' = transactions s) as (Ho & Hos & Htx).
  { clear Hinv Hroom. revert clock s res Happ. induction ars as [|ar ars IH]; intros clock s res Happ; cbn [AppendRecordsBatch] in Happ; [by simplify_eq|].
    destruct (AppendRecord (clock 0%nat) s tp' ar) as [s1 [rec|e]] eqn:E.
    - destruct (AppendRecordsBatch _ s1 tp' ars) as [s2 out] eqn:E2. simplify_eq. apply IH in E2 as (-> & -> & ->).
      by apply AppendRecord_ok in E as (? & _ & _ & _ & _ & ->).
    - apply AppendRecord_err in E as ->. by simplify_eq. }
  destruct (AppendRecordsBatch_spec _ _ _ _ _ _ Hinv Hroom Happ) as (rs & Hr & Hoff & Hn & Hinv' & Ht & Hother & _).
  unfold undisturbed, LoadConsumerOffset, LoadConsumerOffsetState. rewrite Ht, Ho, Hos. split_and!; try done.
  - destruct (decide (tp = tp')) as [->|Hne]; [rewrite Hn; pose proof (len_nonneg rs); lia|by rewrite (proj2 (Hother tp Hne))].
  - intros r Hin Hlt. destruct (decide (tp = tp')) as [<-|Hne]; [|by rewrite (proj1 (Hother tp Hne)) in Hin].
    rewrite Hr in Hin. apply elem_of_app in Hin as [?|Hin]; [done|]. exfalso.
    assert (r_Offset r ∈ recordOffsets rs) as Hin' by (by apply list_elem_of_fmap_2). rewrite Hoff, elem_of_seqZ in Hin'. lia.
  - intros r _. unfold visibilityOf, LoadTransaction. by rewrite Htx.
Qed.

(** C33: a sink delivers at least once and in order.  Take a sink on a topic
    without priorities (with them it can lose records,
    [priority_sink_loses_record]) whose consumer has no acknowledgements
    pending and whose target has received what is visible below the committed
    offset, as when the sink is new.  Whatever deliveries and commits of its passes fail, and whatever
    is published to the partition, removed from it or decided in between, as
    long as the topic keeps its configuration, decided transactions stay
    decided and nobody else commits in the name of the sink ([undisturbed]),
    every visible record of the partition below the committed offset has been
    received; a pass that ends without an error delivers the next visible
    records in the order of the log, as many as asked for unless the log ends
    or an open transaction follows, or nothing when the consumer is paused.
    The target received a record whose delivery it reported as done; of one
    whose delivery failed it may or may not have received it. *)
Theorem sink_delivers_at_least_once allowN times b0 w0 b w :
  sink_inv (b_store b0) w0 -> rtc sink_step (b0, w0) (b, w) ->
  received w0 `prefix_of` received w /\
  (forall r, r ∈ logOf (b_store b) -> r_Offset r < committedOffset (b_store b) ->
     visibilityOf (b_store b) r = transactionRecordVisible -> r ∈ received w) /\
  let '(_, w', (_, err)) := processRecordSinkOnce cfg deliver allowN times run b w in
  err = None -> isConsumerPaused (b_store b) sinkConsumer (tp_Topic tp) (tp_Partition tp) = Ok true \/
    exists cursor l1,
      fromOf (b_store b) (sinkStart (b_store b)) = l1 ++ fromOf (b_store b) cursor /\
      received w' = received w ++ visibleOf (b_store b) l1 /\
      (len (visibleOf (b_store b) l1) < clampMaxRecords b (rs_MaxRecords run) -> fromOf (b_store b) cursor = [] \/
         exists r rest, fromOf (b_store b) cursor = r :: rest /\ visibilityOf (b_store b) r = transactionRecordOpen).
Proof.
  intros Hinv Hsteps. destruct (sink_steps_inv _ _ Hsteps Hinv) as [Hinv' Hpre]. cbn [fst snd] in *. split_and!; [done| |].
  - intros r Hr Hlt. by apply (si_settled _ _ Hinv' r Hr Hlt).
  - pose proof (pass_spec allowN times b w Hinv') as Hp.
    destruct (processRecordSinkOnce _ _ _ _ _ b w) as [[b' w'] [out err]]. by destruct Hp as (_ & _ & Hp).
Qed.

End Sink.

(** ** The outbox marks what it published *)

Section Outbox.
Context `{MapRange} `{Hash64} (cfg : GovernanceConfig) (outbox : DatabaseOutboxConfig).
Context {World : Type} (mark : World -> string -> World * result BrokerError unit) (marked : World -> list string).
Hypothesis mark_ok : forall w id w', mark w id = (w', Ok tt) -> marked w' = marked w ++ [id].
Hypothesis mark_failed : forall w id w' e, mark w id = (w', Err e) -> marked w' = marked w \/ marked w' = marked w ++ [id].

Definition row_ids (rows : list DatabaseOutboxRow) : list string := row_ID <$> filter (fun row => TrimSpace (row_ID row) <> "") rows.

Lemma row_ids_cons row rows :
  row_ids (row :: rows) = if decide (TrimSpace (row_ID row) <> "") then row_ID row :: row_ids rows else row_ids rows.
Proof. unfold row_ids. rewrite filter_cons. by case_decide. Qed.

(** The rows are published from the first on, and the rows that are marked
    are the first ones, at most as many as were published: a row that is
    marked was published before, and of the published rows at most the last
    one is not marked. *)
Lemma publishRows_marks allowN rows : forall clock nowMS out b w,
  let '(_, w', (out', err)) := publishRows cfg (Some mark) allowN clock nowMS outbox out rows b w in
  exists published marking,
    dor_Published out' = dor_Published out + Z.of_nat published /\ (published <= length rows)%nat /\
    marked w' = marked w ++ row_ids (take marking rows) /\ (marking <= published <= S marking)%nat /\
    (err = None -> published = length rows /\ marking = length rows).
Proof.
  induction rows as [|row rows IH]; intros clock nowMS out b w; cbn [publishRows].
  { exists 0%nat, 0%nat. rewrite app_nil_r. split_and!; try done; lia. }
  destruct (publishDatabaseOutboxRow _ _ _ _ _ row b) as [b1 [u|e]].
  2: { exists 0%nat, 0%nat. rewrite app_nil_r. split_and!; try done; lia. }
  assert (forall out1 w1, dor_Published out1 = dor_Published out + 1 ->
    marked w1 = marked w ++ (if decide (TrimSpace (row_ID row) <> "") then [row_ID row] else []) ->
    let '(_, w', (out', err)) := publishRows cfg (Some mark) allowN (fun i => clock (S i)) (fun i => nowMS (S i)) outbox out1 rows b1 w1 in
    exists published marking,
      dor_Published out' = dor_Published out + Z.of_nat published /\ (published <= length (row :: rows))%nat /\
      marked w' = marked w ++ row_ids (take marking (row :: rows)) /\ (marking <= published <= S marking)%nat /\
      (err = None -> published = length (row :: rows) /\ marking = length (row :: rows))) as Hcont.
  { intros out1 w1 Hpub Hmark. specialize (IH (fun i => clock (S i)) (fun i => nowMS (S i)) out1 b1 w1).
    destruct (publishRows _ _ _ _ _ _ _ rows b1 w1) as [[b2 w2] [out2 err]]. destruct IH as (p & k & Hp & Hle & Hm & Hk & He).
    exists (S p), (S k). rewrite Hp, Hpub, Hm, Hmark. cbn [length take]. rewrite row_ids_cons.
    split_and!; [lia|lia| |lia|lia|intros E; destruct (He E); lia]. case_decide; by rewrite <- app_assoc. }
  destruct (decide (TrimSpace (row_ID row) <> "")) as [Hid|Hid]; [|apply Hcont; [done|by rewrite app_nil_r]].
  destruct (mark w (row_ID row)) as [w1 [[]|e]] eqn:Hm; [apply Hcont; [done|by apply mark_ok]|].
  destruct (mark_failed w _ w1 e Hm) as [->| ->].
  - exists 1%nat, 0%nat. rewrite app_nil_r. cbn [length]. split_and!; try done; lia.
  - exists 1%nat, 1%nat. cbn [length take]. rewrite row_ids_cons, decide_True by done. split_and!; try done; lia.
Qed.

End Outbox.

(** ** Examples *)

Section Example.
#[local] Existing Instances map_to_list_range ex_hash.

(** A target that takes or refuses as a script says; a refused record has
    arrived when the script says so. *)
Definition ExTarget : Type := list Rec * list (bool * bool).

Definition ex_deliver (w : ExTarget) (r : Rec) : ExTarget * result BrokerError unit :=
  match w.2 with
  | [] => ((w.1 ++ [r], []), Ok tt)
  | (true, _) :: script => ((w.1 ++ [r], script), Ok tt)
  | (false, arrived) :: script => ((if arrived : bool then w.1 ++ [r] else w.1, script), Err (StoreError CodeUnavailable))
  end.

Definition ex_allow (key : string) (n : Z) : bool := true.
Definition ex_sink_times (i : nat) : Z * Z := (5, 5).

Definition ex_sink_cfg : GovernanceConfig := mkGovernanceConfig "default" "default" [] (mkQuotaConfig 0 0 0 0 0 0 0 0 0 0).

Definition ex_sink (topic : string) : recordSinkRun := mkRecordSinkRun (mkIdentity "sink" "default" "default" "" "") "s" topic 1 10 "".

Definition ex_put (topic : string) (ar : RecordAppend) (s : MemoryStore) : MemoryStore :=
  (AppendRecord 7 s (NewTopicPartition topic 1) ar).1.

Definition ex_events : recordSinkRun := ex_sink "events".
Definition ex_orders_sink : recordSinkRun := ex_sink "orders".

(** Records of no transaction and of a committed one, with its marker. *)
Definition ex_sink_log : MemoryStore :=
  let tx c := mkRecordAppend None [] [] 0 (Some (mkTransactionRecordMetadata 1 1 0 0 c)) None [] in
  ex_put "events" (tx TransactionControlCommit) (ex_put "events" (tx TransactionControlNone) (ex_put "events" (NewRecordAppend []) (
    (SaveTransaction (MemoryStore.CreateTopic NewMemoryStore ex_unordered).1
       (mkTransactionState 1 "payments" 1 0 TransactionStatusCommitted 0 0 0 0 0 [] [] [])).1))).

Definition ex_sink_broker : Broker := mkBroker ex_sink_log ∅ (newBrokerShardResolver 1) ex_cfg.

Lemma ex_sink_inv w : sink_inv ex_sink_cfg ex_events (fun w : ExTarget => w.1) ex_sink_log w.
Proof.
  assert (store_inv ex_sink_log) as [Hlog _].
  { apply (@store_reachable_inv map_to_list_range). unfold ex_sink_log, ex_put.
    do 3 (eapply rtc_r; [|left; by apply log_step_append]).
    eapply rtc_r; [|right; by apply meta_save_transaction]. eapply rtc_r; [apply rtc_refl|left; apply log_step_create]. }
  split; [done| | |by vm_compute|].
  - eexists. split; [vm_compute; reflexivity|]. by vm_compute.
  - intros st. by vm_compute.
  - intros r Hr Hlt. exfalso. destruct (log_inv_recordsOf _ (sinkPartition ex_sink_cfg ex_events) Hlog) as [_ Hb].
    unfold recordOffsets in Hb. rewrite Forall_fmap, Forall_forall in Hb. specialize (Hb r Hr). cbv [compose] in Hb.
    change (committedOffset ex_sink_cfg ex_events ex_sink_log) with 0 in Hlt. lia.
Qed.

(** The first record is taken, the second one arrives but is reported as
    failed; the second pass delivers it again. *)
Definition ex_pass (run : recordSinkRun) (b : Broker) (w : ExTarget) :=
  processRecordSinkOnce ex_sink_cfg ex_deliver ex_allow ex_sink_times run b w.
Definition ex_start : ExTarget := ([], [(true, true); (false, true)]).
Definition ex_after : Broker * ExTarget := (ex_pass ex_events ex_sink_broker ex_start).1.

Lemma sink_delivers_at_least_once_witness :
  (forall r, r ∈ recordsOf (b_store ex_after.1) (sinkPartition ex_sink_cfg ex_events) ->
     r_Offset r < committedOffset ex_sink_cfg ex_events (b_store ex_after.1) ->
     visibilityOf (b_store ex_after.1) r = transactionRecordVisible -> r ∈ ex_after.2.1) /\
  committedOffset ex_sink_cfg ex_events (b_store ex_after.1) = 1 /\
  r_Offset <$> ex_after.2.1 = [0; 1] /\ r_Offset <$> (ex_pass ex_events ex_after.1 ex_after.2).1.2.1 = [0; 1; 1].
Proof.
  split; [|by vm_compute].
  destruct (sink_delivers_at_least_once ex_sink_cfg ex_events ex_deliver (fun w : ExTarget => w.1)) with
    (allowN := ex_allow) (times := ex_sink_times) (b0 := ex_sink_broker) (w0 := ex_start) (b := ex_after.1) (w := ex_after.2)
    as (_ & Hsafe & _).
  - intros [l script] r w'. unfold ex_deliver. cbn [fst snd].
    destruct script as [|[[] arrived] script]; intros [<- Hres]%pair_equal_spec; done.
  - intros [l script] r w' e. unfold ex_deliver. cbn [fst snd].
    destruct script as [|[[] []] script]; intros [<- Hres]%pair_equal_spec; cbn; try done; [by right|by left].
  - exact (ex_sink_inv ex_start).
  - apply rtc_once. apply (sink_pass _ _ _ ex_allow ex_sink_times ex_sink_broker ex_start _ _ (ex_pass ex_events ex_sink_broker ex_start).2).
    unfold ex_after, ex_pass. by rewrite <- !surjective_pairing.
  - exact Hsafe.
Defined.

(** On a topic with priorities a poll is ordered by priority, and the sink
    commits behind each record in that order: when the delivery of a record
    with a lower priority fails, the offset is already behind it, and it is
    never delivered. *)
Definition ex_priority (value : string) : RecordAppend :=
  mkRecordAppend None [] [mkRecordHeader PriorityHeader (StringBytes value)] 0 None None [].

Definition ex_priority_broker : Broker :=
  mkBroker (ex_put "orders" (ex_priority "9") (ex_put "orders" (ex_priority "1") (MemoryStore.CreateTopic NewMemoryStore ex_ordered).1)) ∅
    (newBrokerShardResolver 1) ex_cfg.

Lemma priority_sink_loses_record :
  let first := ex_pass ex_orders_sink ex_priority_broker ([], [(true, true); (false, false)]) in
  let second := ex_pass ex_orders_sink first.1.1 first.1.2 in
  r_Offset <$> second.1.2.1 = [1] /\ second.2 = (mkSinkResult 0 None, None) /\
  committedOffset ex_sink_cfg ex_orders_sink (b_store second.1.1) = 2 /\
  r_Offset <$> recordsOf (b_store second.1.1) (NewTopicPartition "orders" 1) = [0; 1].
Proof. by vm_compute. Qed.

End Example.
